(* ===== verification/_CoqProject ===== *)
-Q . S2P
Prelude.v
Utf8.v
BTree.v
Errors.v
Bin.v
Records.v
Crc.v
Io.v
Codec.v
RwBuf.v
Decompressor.v
LinearReader.v
LinearReaderTheory.v
LinearReaderStates.v
LinearReaderClient.v
LinearReaderFile.v
Channels.v
Read.v
ReadTheory.v
Conversation.v
LinearReaderSound.v
Streaming.v
LinearReaderFlat.v
Tokio.v
MessageStream.v
Summary.v
IndexedRecords.v
SummaryReader.v
SummaryTheory.v
Sorting.v
IndexedReader.v
IndexedReaderTheory.v
ChunkWriter.v
ChunkWriterTheory.v
Writer.v
WriterTheory.v
WriterSpec.v
Instances.v
WriterLog.v
WriterFile.v
WriterSummary.v
WriterRoundtrip.v
WriterMessages.v
WriterIndexed.v
WriterSummaryRead.v
WriterExtras.v
Cli.v
Sink.v
Common.v
Du.v
DuTheory.v
DuWorkers.v
SinkTheory.v
SinkCost.v
SpecClient.v
SpecMessages.v
Recover.v
RecoverTheory.v
Sort.v
RosBag.v
RosBagRead.v
Cat.v
CopyTheory.v
RosBagTheory.v
CatTheory.v
WriterCommands.v
SortTheory.v
Filter.v
FilterTheory.v
Doctor.v
DoctorTheory.v
DoctorClean.v
AddCommon.v
AddTheory.v
AddWork.v
Info.v
Table.v
GetList.v
GetTheory.v
