(* ===== verification/Prelude.v ===== *)
(** * The MCAP library and command line tool in Rocq

    MCAP is a container format for time-stamped messages.  This development models
    the Rust crate [mcap] (src/rust/mcap/src) and the commands of the tool built on
    it that read, check, rewrite or amend files (src/rust/mcap_cli/src/commands),
    and proves what they promise.  Paths below are relative to these two.

    ** The program

    A file is a magic, a data section of records, a [DataEnd] record, a summary
    section that repeats and indexes what the data section has, a [Footer], and the
    magic again.  A record is an opcode, a length and a body; a chunk is a record
    whose body holds further records, compressed or not.
    - records.rs, read.rs and write.rs turn single records into bytes and back.
    - The sans-io readers (sans_io) are state machines that never do I/O: a client
      asks for the next event, and is given a record, a request for bytes or a
      request to seek.  The linear reader goes through a file from its start, looking
      into chunks or not; the summary reader finds and gathers the summary section; the
      indexed reader yields the messages of the chunks an index lists, in the order of
      time or of the file.
    - read.rs wraps them for files in memory, and turns records into messages on
      channels with schemas.
    - write.rs is the writer: it gives identifiers to schemas and channels, collects
      messages in chunks, indexes what it writes, and ends a file with its summary.
    - The commands are clients of these: doctor checks a file, recover saves what can
      be read of a damaged one, sort, filter, compress and decompress rewrite, convert
      turns a ROS 1 bag into a file, add attachment and add metadata amend a file in
      place; du and info say what takes the space, cat prints the messages, list and get
      the rest.

    ** Conventions

    A machine integer is a [Z], kept in its range by the well-formedness of what holds
    it; [usize] has 64 bits.  Arithmetic is that of a build with overflow checks:
    [add_] and [sub_] give [Panic] where it would overflow; saturating and
    wrapping operations are written out where the code asks for them.  Bytes and
    strings are [list byte]; a [Vec] is a list, a [BTreeMap] a sorted association
    list (BTree.v), a [HashMap] a [gmap], iterated in any order ([HashOrder]).  A fallible
    function gives an [outcome]: a value, an error, a panic, or [Fuel].  [&mut self] is
    passed through a [method] that returns the new state on every path, errors included;
    the readers use a [flow] with early returns.  A loop that is not over a structure has
    fuel; that it is never used up is a theorem, by a measure: a pass of the linear
    reader lowers one (LinearReaderTheory.v), [mapped_reader_total] says that a file of n
    bytes gives at most n records, a scan takes 2n+3 events, [Summary::read] as many as
    the file has bytes and the section has records, and 16 more (SummaryTheory.v).  The
    one loop of the source that may not end is doctor's over a broken chunk, which
    [doctor_never_ends] proves.  Theorems on the writer bound what is written by 2^59
    bytes ([run_size]), so that no counter overflows, and files are no larger than an
    offset can say.

    ** Interfaces

    What is not in the repository is a class, with the behaviour its documentation
    promises as a second class of laws, and the examples have an instance of each:
    the CRC crate ([Crc], [CrcLaws], [CrcInit]; Crc.v), the decompression libraries
    ([ZstdLib], [Lz4Lib] and their [Ok]s in Decompressor.v, [Streaming] and [Frames] in
    Streaming.v, [ChunkCodecs] in IndexedReader.v), the compression libraries
    ([ZstdEncoderLib], [Lz4EncoderLib], [EncoderOk]; ChunkWriter.v, ChunkWriterTheory.v), the
    [bimap] crate ([BiMap], [BiMapOk]), the order of a hash map ([HashOrder], [HashOrderOk]),
    source and destination ([Read], [ReadOk], [Write], [Seek], [FileOk]: Io.v), regular
    expressions and calendar dates (Filter.v), the decompressors of bags ([BagCodecs],
    [BagCodecsOk]: RosBag.v, RosBagRead.v), and the file system ([Files]: AddCommon.v,
    [FilesSafe], [FilesWork]).  The renderer of JSON is an argument (GetList.v).
    Components meet at interfaces too: [CodecOk] (a record type's reader and writer,
    Bin.v), [KeyOrd] (BTree.v), [DecompressorOk], [Sink] (what a command needs of a writer,
    of which the writer and its specification are instances, Sink.v).

    ** The library, file by file

    Foundations.
    - Prelude.v: outcomes, methods, checked arithmetic, lists and slices by [Z],
      little-endian numbers, and the tactics.  Utf8.v: strings.  BTree.v: ordered maps.
      Sorting.v: stable sorting.  Errors.v: [McapError] (lib.rs).
    - Io.v: [std::io]; [CountingCrcWriter] (io_utils.rs), [ChunkSink] (chunk_sink.rs).
    - Crc.v, Instances.v: the interfaces' instances that the examples run on.

    Records.
    - Bin.v: cursors, integers, strings, vectors and maps; codecs and their laws.
      Records.v: every struct of records.rs.  Codec.v: [parse_record] (read.rs) and
      [write_record] (write.rs): they are inverse to each other, what parses is an
      encoding, a bad checksum is always reported, and when parsing panics.

    Reading.
    - RwBuf.v: the buffer of the linear reader, as a queue.  Decompressor.v: sans_io/
      decompressor.rs, zstd.rs and lz4.rs.
    - LinearReader.v: sans_io/linear_reader.rs, an arm of its match per definition.
      LinearReaderTheory.v: invariant, progress, and the only panics; LinearReaderStates.v:
      in any state that calls in any order lead to.
      LinearReaderClient.v: all clients see the same.  LinearReaderFile.v: what a
      well-formed file gives, and one cut short, and that the pieces it is fed in do not
      matter until a chunk is decompressed.  Conversation.v: any client at all, as
      a total contract.  LinearReaderSound.v: what is accepted is a file, and reading always
      ends.  Streaming.v and LinearReaderFlat.v: records inside chunks, plain or compressed.
      Tokio.v: tokio/linear_reader.rs, a client that awaits its reads.
    - Channels.v: lib.rs and the [ChannelAccumulator].  Read.v and ReadTheory.v: the
      mapped readers.  MessageStream.v: messages with their channels.
    - Summary.v: [Summary] and its uses.  SummaryReader.v: sans_io/summary_reader.rs and
      [Summary::read].  SummaryTheory.v: what it reads of a file.
      IndexedRecords.v: the attachment and the metadata at an index.
    - IndexedReader.v and IndexedReaderTheory.v: sans_io/indexed_reader.rs: every message once
      and in the order asked for, in whatever order chunks are loaded; its panics, and what it does
      with unknown topics.

    Writing (write.rs).
    - ChunkWriter.v and ChunkWriterTheory.v: compressors, the chunk and the attachment writer.
      Writer.v: options and every method of [Writer].  WriterTheory.v: the bytes and the
      indexes are those of a list of items.  WriterSpec.v: to a client the writer is an
      append-only log with two registries; the refinement.  WriterLog.v: every log is
      consistent.  WriterFile.v, WriterSummary.v, WriterRoundtrip.v: [finish] leaves a whole
      file, and it reads back.  WriterSummaryRead.v: so does its summary.  WriterIndexed.v and
      WriterMessages.v: what was written comes back as messages, through the index and
      through the stream.  WriterExtras.v: so do attachments and metadata, through theirs.

    Commands.
    - Cli.v: the loops over a file's records.  Common.v, Table.v: common.rs.  Sink.v,
      SinkTheory.v, SinkCost.v: a command does the same on a writer and on its specification.
      SpecClient.v, SpecMessages.v: what a client of that specification can rely on.
    - Du.v, DuTheory.v, DuWorkers.v: du.rs; exact usage, and the worker threads as a
      transition system whose every schedule ends as the sequential run.
    - Recover.v, RecoverTheory.v: recover.rs.  Sort.v, CopyTheory.v, SortTheory.v: sort.rs
      and what is shared with filter.  Filter.v, FilterTheory.v: filter.rs, compress.rs,
      decompress.rs.  Doctor.v, DoctorTheory.v, DoctorClean.v: doctor.rs; when it comes to
      a diagnosis and when it does not, and what a clean one says of the file.
    - RosBag.v, RosBagRead.v, RosBagTheory.v: convert.rs, convert/ros1_bag.rs; what is read
      of a bag, and that what it holds is what is written.
    - Cat.v, CatTheory.v: cat.rs.  WriterCommands.v: the commands' view of a file that
      the writer finished, and what cat prints of it.
    - Info.v: info.rs, sizes, overlaps and durations.  GetList.v, GetTheory.v: the get and
      the list commands, after an amendment too.
    - AddCommon.v, AddTheory.v, AddWork.v: add_common.rs, add_attachment.rs,
      add_metadata.rs; what an amendment in place does, and that a failure of it at any
      operation can be undone.

    ** What the theorems show

    Round trips, from the smallest to the largest: a record, a file of records, a
    writer's calls read back as records, as a summary, as messages in file order, as
    messages in time order, as attachments and metadata; the files that recover, sort,
    filter, compress, decompress and convert write, read back as messages again; what is
    written is printed, what is added is found.  Robustness: readers end on any
    bytes, panic only where said, give a prefix of a file cut short, and accept nothing
    that is not a file; a file that doctor does not complain of is one; an amendment
    that fails leaves what it takes to restore the file.  Independence: of how a client
    feeds a reader, of the order chunks are loaded in, of how threads are scheduled.
    The findings in the manifest are where the code does something else than it
    means to; each is named with the theorem or the example that shows it.

    ** Not modelled

    - main.rs, cli.rs, context.rs, commands.rs, version.rs: argument parsing by a derived
      parser, dispatch, logging; opening and mapping files, and the check that input and
      output are distinct, which ask the operating system.  merge.rs is a stub that says
      that it is not implemented.
    - Numbers in floating point: the percentages of du, the rates and human sizes of
      info, the ratios of list chunks; calendar dates; the texts of warnings.
    - What becomes of an asynchronous call that is dropped while it waits.
    - The crate's tests, benches and examples, and the implementations of the format in
      other languages (Go, Python, C++, TypeScript, Swift), which share no code with it. *)

From Stdlib Require Export ZArith Lia.
From Stdlib Require Import Strings.Byte.
From stdpp Require Export base gmap list sorting strings.

#[export] Set Default Goal Selector "!".

(** ** Outcomes of fallible Rust code *)

(** [Ok] and [Err] are the two constructors of a Rust [Result]; [Panic] is an
    unwinding panic (a failed assertion, an [expect], an out-of-range slice, an
    arithmetic overflow); [Fuel] is a loop cut off by the model, which the
    termination theorems show never happens with enough of it, but where the source
    itself goes on for ever. *)
Inductive outcome (E A : Type) : Type :=
| Ok (a : A)
| Err (e : E)
| Panic
| Fuel.
Arguments Ok {E A} a.
Arguments Err {E A} e.
Arguments Panic {E A}.
Arguments Fuel {E A}.

#[export] Instance outcome_ret E : MRet (outcome E) := λ A a, Ok a.
#[export] Instance outcome_bind E : MBind (outcome E) := λ A B f o,
  match o with Ok a => f a | Err e => Err e | Panic => Panic | Fuel => Fuel end.
#[export] Instance outcome_fmap E : FMap (outcome E) := λ A B f o,
  match o with Ok a => Ok (f a) | Err e => Err e | Panic => Panic | Fuel => Fuel end.
#[export] Instance outcome_throw E : MThrow E (outcome E) := λ A e, Err e.

(** [e.map_err(f)?] *)
Definition map_err {E F A} (f : E → F) (o : outcome E A) : outcome F A :=
  match o with Ok a => Ok a | Err e => Err (f e) | Panic => Panic | Fuel => Fuel end.

(** [o.ok_or(e)?] *)
Definition ok_or {E A} (e : E) (o : option A) : outcome E A :=
  match o with Some a => Ok a | None => Err e end.

(** [o.expect(..)] and [o.unwrap()] *)
Definition expect {E A} (o : option A) : outcome E A :=
  match o with Some a => Ok a | None => Panic end.

(** [assert!(b)] *)
Definition rassert {E} (b : bool) : outcome E () := if b then Ok () else Panic.

Definition is_ok {E A} (o : outcome E A) : Prop := ∃ a, o = Ok a.

(** A computation that neither panics nor runs out of fuel. *)
Definition settles {E A} (o : outcome E A) : Prop :=
  match o with Ok _ | Err _ => True | Panic | Fuel => False end.

Lemma settles_fmap {E A B} (f : A → B) (o : outcome E A) : settles (f <$> o) ↔ settles o.
Proof. by destruct o. Qed.

#[export] Instance outcome_eq_dec `{EqDecision E, EqDecision A} : EqDecision (outcome E A).
Proof. solve_decision. Defined.

(** Inversion of a successful bind, one step at a time. *)
Lemma bind_Ok {E A B} (o : outcome E A) (f : A → outcome E B) b :
  o ≫= f = Ok b ↔ ∃ a, o = Ok a ∧ f a = Ok b.
Proof. destruct o; cbn; naive_solver. Qed.

Lemma ok_or_Ok {E A} (e : E) o (a : A) : ok_or e o = Ok a ↔ o = Some a.
Proof. destruct o; cbn; naive_solver. Qed.

Lemma map_err_Ok {E F A} (f : E → F) (o : outcome E A) a : map_err f o = Ok a ↔ o = Ok a.
Proof. destruct o; cbn; naive_solver. Qed.

(** ** Methods that mutate [self] and return a [Result] *)

(** A method run on a state yields its outcome together with the state it leaves
    behind: Rust keeps the mutations made before an early return. *)
Definition method (S E A : Type) : Type := S → outcome E A * S.

#[export] Instance method_ret S E : MRet (method S E) := λ A a s, (Ok a, s).
#[export] Instance method_bind S E : MBind (method S E) := λ A B f m s,
  match m s with
  | (Ok a, s') => f a s'
  | (Err e, s') => (Err e, s')
  | (Panic, s') => (Panic, s')
  | (Fuel, s') => (Fuel, s')
  end.
#[export] Instance method_fmap S E : FMap (method S E) := λ A B f m s,
  let '(o, s') := m s in (f <$> o, s').
#[export] Instance method_throw S E : MThrow E (method S E) := λ A e s, (Err e, s).

Definition get {S E} : method S E S := λ s, (Ok s, s).
Definition put {S E} (s : S) : method S E () := λ _, (Ok (), s).
Definition modify {S E} (f : S → S) : method S E () := λ s, (Ok (), f s).
Definition gets {S E A} (f : S → A) : method S E A := λ s, (Ok (f s), s).
Definition lift {S E A} (o : outcome E A) : method S E A := λ s, (o, s).

(** ** Bytes *)

Abbreviation byte := Byte.byte.
Abbreviation bytes := (list byte).

#[export] Instance byte_eq_dec : EqDecision byte := Byte.byte_eq_dec.

Definition byte_to_Z (b : byte) : Z := Z.of_N (Byte.to_N b).
Definition byte_of_Z (z : Z) : byte :=
  default x00 (Byte.of_N (Z.to_N (z `mod` 256))).

(** The bytes of an ASCII literal, and of a list of numbers. *)
Definition lit (s : string) : bytes := String.list_byte_of_string s.
Definition raw (l : list Z) : bytes := byte_of_Z <$> l.

Lemma byte_to_Z_range b : (0 ≤ byte_to_Z b < 256)%Z.
Proof.
  unfold byte_to_Z. pose proof (Byte.to_N_bounded b). lia.
Qed.

Lemma byte_of_to_Z b : byte_of_Z (byte_to_Z b) = b.
Proof.
  unfold byte_of_Z. rewrite Z.mod_small by apply byte_to_Z_range.
  unfold byte_to_Z. rewrite N2Z.id, Byte.of_to_N. done.
Qed.

Lemma byte_to_of_Z z : byte_to_Z (byte_of_Z z) = (z `mod` 256)%Z.
Proof.
  unfold byte_of_Z, byte_to_Z.
  pose proof (Z.mod_pos_bound z 256 ltac:(lia)).
  destruct (Byte.of_N _) as [b|] eqn:Hb; cbn.
  - apply Byte.to_of_N in Hb. rewrite Hb. lia.
  - apply Byte.of_N_None_iff in Hb. lia.
Qed.

#[export] Instance byte_to_Z_inj : Inj (=) (=) byte_to_Z.
Proof. intros a b H. by rewrite <-(byte_of_to_Z a), H, byte_of_to_Z. Qed.

(** ** Lists indexed by machine integers *)

(** Rust's [len()], [..n] and [n..]: counted in [Z], so that a length field of 64
    bits never has to be turned into a unary number. *)
Definition zlen {A} (l : list A) : Z := Z.of_nat (length l).

Fixpoint ztake {A} (n : Z) (l : list A) : list A :=
  match l with
  | [] => []
  | x :: l => if (n <=? 0)%Z then [] else x :: ztake (n - 1) l
  end.

Fixpoint zdrop {A} (n : Z) (l : list A) : list A :=
  match l with
  | [] => []
  | x :: l' => if (n <=? 0)%Z then l else zdrop (n - 1) l'
  end.

(** [&l[i..j]], which panics unless [i <= j <= l.len()]. *)
Definition slice {E A} (i j : Z) (l : list A) : outcome E (list A) :=
  if ((0 <=? i) && (i <=? j) && (j <=? zlen l))%Z
  then Ok (ztake (j - i) (zdrop i l)) else Panic.

Section zlist.
Context {A : Type}.
Implicit Types l k : list A.

Lemma ztake_take n l : ztake n l = take (Z.to_nat n) l.
Proof.
  revert n. induction l as [|x l IH]; intros n; cbn.
  - by rewrite take_nil.
  - destruct (Z.leb_spec n 0).
    + by replace (Z.to_nat n) with 0 by lia.
    + replace (Z.to_nat n) with (S (Z.to_nat (n - 1))) by lia. cbn. by rewrite IH.
Qed.

Lemma zdrop_drop n l : zdrop n l = drop (Z.to_nat n) l.
Proof.
  revert n. induction l as [|x l IH]; intros n; cbn.
  - by rewrite drop_nil.
  - destruct (Z.leb_spec n 0).
    + by replace (Z.to_nat n) with 0 by lia.
    + replace (Z.to_nat n) with (S (Z.to_nat (n - 1))) by lia. cbn. by rewrite IH.
Qed.

Lemma zlen_nonneg l : (0 ≤ zlen l)%Z.
Proof. unfold zlen. lia. Qed.
Lemma zlen_nil : zlen (@nil A) = 0%Z.
Proof. done. Qed.
Lemma zlen_cons x l : zlen (x :: l) = (1 + zlen l)%Z.
Proof. unfold zlen. cbn. lia. Qed.
Lemma zlen_app l k : zlen (l ++ k) = (zlen l + zlen k)%Z.
Proof. unfold zlen. rewrite length_app. lia. Qed.
Lemma zlen_replicate n (x : A) : zlen (replicate n x) = Z.of_nat n.
Proof. unfold zlen. by rewrite length_replicate. Qed.
Lemma zlen_ztake n l : zlen (ztake n l) = Z.min (Z.max 0 n) (zlen l).
Proof. unfold zlen. rewrite ztake_take, length_take. lia. Qed.
Lemma zlen_zdrop n l : zlen (zdrop n l) = (zlen l - Z.min (Z.max 0 n) (zlen l))%Z.
Proof. unfold zlen. rewrite zdrop_drop, length_drop. lia. Qed.
Lemma zlen_zero_nil l : zlen l = 0%Z → l = [].
Proof. destruct l; [done|]. rewrite zlen_cons. pose proof (zlen_nonneg l). lia. Qed.

Lemma ztake_app n l k : n = zlen l → ztake n (l ++ k) = l.
Proof.
  intros ->. rewrite ztake_take. unfold zlen. rewrite Nat2Z.id. apply take_app_length.
Qed.
Lemma zdrop_app n l k : n = zlen l → zdrop n (l ++ k) = k.
Proof.
  intros ->. rewrite zdrop_drop. unfold zlen. rewrite Nat2Z.id. apply drop_app_length.
Qed.
Lemma ztake_app_le n l k : (n ≤ zlen l)%Z → ztake n (l ++ k) = ztake n l.
Proof. intros H. rewrite !ztake_take. apply take_app_le. unfold zlen in H. lia. Qed.
Lemma zdrop_app_le n l k : (n ≤ zlen l)%Z → zdrop n (l ++ k) = zdrop n l ++ k.
Proof. intros H. rewrite !zdrop_drop. apply drop_app_le. unfold zlen in H. lia. Qed.
Lemma zdrop_app_ge n l k : (zlen l ≤ n)%Z → zdrop n (l ++ k) = zdrop (n - zlen l) k.
Proof.
  intros H. rewrite !zdrop_drop, drop_app_ge by (unfold zlen in H; lia).
  f_equal. unfold zlen. lia.
Qed.
Lemma ztake_all n l : (zlen l ≤ n)%Z → ztake n l = l.
Proof. intros H. rewrite ztake_take. apply take_ge. unfold zlen in H. lia. Qed.
Lemma zdrop_0 n l : (n ≤ 0)%Z → zdrop n l = l.
Proof. intros H. rewrite zdrop_drop. by replace (Z.to_nat n) with 0 by lia. Qed.
Lemma ztake_0 n l : (n ≤ 0)%Z → ztake n l = [].
Proof. intros H. rewrite ztake_take. by replace (Z.to_nat n) with 0 by lia. Qed.
Lemma ztake_zdrop n l : ztake n l ++ zdrop n l = l.
Proof. rewrite ztake_take, zdrop_drop. apply take_drop. Qed.
Lemma zdrop_zdrop n m l : (0 ≤ n)%Z → (0 ≤ m)%Z → zdrop n (zdrop m l) = zdrop (m + n) l.
Proof. intros. rewrite !zdrop_drop, drop_drop. f_equal. lia. Qed.

Lemma slice_Ok {E} i j l :
  (0 ≤ i ≤ j)%Z → (j ≤ zlen l)%Z → slice (E:=E) i j l = Ok (ztake (j - i) (zdrop i l)).
Proof. intros. unfold slice. by rewrite !(proj2 (Z.leb_le _ _)) by lia. Qed.
Lemma slice_Panic {E} i j l :
  ¬ (0 ≤ i ≤ j ∧ j ≤ zlen l)%Z → slice (E:=E) i j l = Panic.
Proof.
  intros H. unfold slice.
  destruct (Z.leb_spec 0 i), (Z.leb_spec i j), (Z.leb_spec j (zlen l)); cbn; try done. lia.
Qed.
Lemma slice_tail {E} i l : (0 ≤ i ≤ zlen l)%Z → slice (E:=E) i (zlen l) l = Ok (zdrop i l).
Proof.
  intros H. rewrite slice_Ok by lia. f_equal. apply ztake_all. rewrite zlen_zdrop. lia.
Qed.
End zlist.

Create Rewrite HintDb zlen.
#[export] Hint Rewrite @zlen_nil @zlen_cons @zlen_app @zlen_ztake @zlen_zdrop @zlen_replicate : zlen.

(** Arithmetic about lengths: normalise every [zlen], then [lia]. *)
Ltac zlen_facts :=
  repeat match goal with
  | |- context [ @zlen ?A ?l ] =>
      lazymatch goal with
      | _ : (0 ≤ @zlen A l)%Z |- _ => fail
      | _ => pose proof (@zlen_nonneg A l)
      end
  | H : context [ @zlen ?A ?l ] |- _ =>
      lazymatch goal with
      | _ : (0 ≤ @zlen A l)%Z |- _ => fail
      | _ => pose proof (@zlen_nonneg A l)
      end
  end.
Ltac zlia := autorewrite with zlen in *; zlen_facts; lia.

(** Case analysis on the boolean comparison the goal is stuck on. *)
Ltac zcase :=
  match goal with
  | |- context [ (?a <? ?b)%Z ] => destruct (Z.ltb_spec a b)
  | |- context [ (?a <=? ?b)%Z ] => destruct (Z.leb_spec a b)
  | |- context [ (?a =? ?b)%Z ] => destruct (Z.eqb_spec a b)
  end.

(** ** Machine integers *)

(** A [w]-bit unsigned integer is a [Z] in range. *)
Definition in_u (w : Z) (z : Z) : Prop := (0 ≤ z < 2 ^ w)%Z.
Definition u16_max : Z := 2 ^ 16 - 1.
Definition u32_max : Z := 2 ^ 32 - 1.
Definition u64_max : Z := 2 ^ 64 - 1.
(** The model fixes a 64-bit target: [usize] has the range of [u64]. *)
Definition usize_max : Z := u64_max.

(** [z as u16], [z as u32] and [z as u64] truncate. *)
Definition as_u16 (z : Z) : Z := z `mod` 2 ^ 16.
Definition as_u32 (z : Z) : Z := z `mod` 2 ^ 32.
Definition as_u64 (z : Z) : Z := z `mod` 2 ^ 64.

(** [+], [+=], [-] and [-=] with overflow checks, at the width whose largest
    value is [m]: an overflow panics. [checked_add] and [checked_sub] return
    [None] instead, [saturating_sub] stops at zero. *)
Definition add_ {E} (m : Z) (a b : Z) : outcome E Z :=
  if (a + b <=? m)%Z then Ok (a + b)%Z else Panic.
Definition sub_ {E} (a b : Z) : outcome E Z :=
  if (b <=? a)%Z then Ok (a - b)%Z else Panic.
Definition checked_add (m a b : Z) : option Z :=
  if (a + b <=? m)%Z then Some (a + b)%Z else None.
Definition checked_sub (a b : Z) : option Z :=
  if (b <=? a)%Z then Some (a - b)%Z else None.
Definition saturating_sub (a b : Z) : Z := Z.max 0 (a - b).

Lemma add_Ok {E} m a b : (a + b ≤ m)%Z → add_ (E:=E) m a b = Ok (a + b)%Z.
Proof. intros. unfold add_. by rewrite (proj2 (Z.leb_le _ _)). Qed.
Lemma sub_Ok {E} a b : (b ≤ a)%Z → sub_ (E:=E) a b = Ok (a - b)%Z.
Proof. intros. unfold sub_. by rewrite (proj2 (Z.leb_le _ _)). Qed.
Lemma as_u32_small z : in_u 32 z → as_u32 z = z.
Proof. apply Z.mod_small. Qed.
Lemma as_u64_small z : in_u 64 z → as_u64 z = z.
Proof. apply Z.mod_small. Qed.

(** ** Little-endian integers *)

Fixpoint le_enc (n : nat) (z : Z) : bytes :=
  match n with
  | 0 => []
  | S n => byte_of_Z z :: le_enc n (z / 256)
  end.

Fixpoint le_dec (l : bytes) : Z :=
  match l with
  | [] => 0
  | b :: l => byte_to_Z b + 256 * le_dec l
  end%Z.

Lemma length_le_enc n z : length (le_enc n z) = n.
Proof. revert z. induction n; intros; cbn; auto. Qed.
Lemma zlen_le_enc n z : zlen (le_enc n z) = Z.of_nat n.
Proof. unfold zlen. by rewrite length_le_enc. Qed.
#[export] Hint Rewrite zlen_le_enc : zlen.

Lemma le_dec_enc n z : le_dec (le_enc n z) = (z `mod` 256 ^ Z.of_nat n)%Z.
Proof.
  revert z. induction n as [|n IH]; intros z; cbn [le_enc le_dec].
  - by rewrite Z.mod_1_r.
  - rewrite byte_to_of_Z, IH.
    replace (Z.of_nat (S n)) with (1 + Z.of_nat n)%Z by lia.
    rewrite Z.pow_add_r, Z.pow_1_r by lia.
    rewrite Z.rem_mul_r by lia. done.
Qed.

Lemma le_dec_range l : (0 ≤ le_dec l < 256 ^ zlen l)%Z.
Proof.
  induction l as [|b l IH]; [done|]. cbn [le_dec]. rewrite zlen_cons.
  rewrite Z.pow_add_r, Z.pow_1_r by (try apply zlen_nonneg; lia).
  pose proof (byte_to_Z_range b). nia.
Qed.

Lemma le_enc_dec l : le_enc (length l) (le_dec l) = l.
Proof.
  induction l as [|b l IH]; cbn [length le_enc le_dec]; [done|].
  pose proof (byte_to_Z_range b).
  replace ((byte_to_Z b + 256 * le_dec l) / 256)%Z with (le_dec l).
  - rewrite IH. f_equal. apply (inj byte_to_Z). rewrite byte_to_of_Z.
    rewrite (Z.mul_comm 256), Z.mod_add by lia. by apply Z.mod_small.
  - rewrite Z.add_comm, Z.mul_comm, Z.div_add_l, (Z.div_small (byte_to_Z b)) by lia. lia.
Qed.

Lemma le_dec_enc_u n z : in_u (8 * Z.of_nat n) z → le_dec (le_enc n z) = z.
Proof.
  intros H. rewrite le_dec_enc. apply Z.mod_small.
  replace 256%Z with (2 ^ 8)%Z by done. rewrite <-Z.pow_mul_r by lia. exact H.
Qed.

#[global] Arguments le_enc : simpl never.
#[global] Arguments le_dec : simpl never.
#[global] Arguments ztake : simpl never.
#[global] Arguments zdrop : simpl never.
