(* ===== verification/Utf8.v ===== *)
(** Rust strings.

    A [String] is its UTF-8 bytes.  [String::from_utf8] accepts exactly the
    well-formed byte sequences of the UTF-8 standard; this file holds that test,
    the byte-wise (lexicographic) order of strings, and the facts the record
    codecs use about both. *)

From S2P Require Import Prelude.

Abbreviation rstring := bytes.

Definition in_range (lo hi : Z) (b : byte) : bool :=
  ((lo <=? byte_to_Z b) && (byte_to_Z b <=? hi))%Z.

(** A continuation byte. *)
Definition cont : byte → bool := in_range 128 191.

(** The validity test of [String::from_utf8], by leading byte. *)
Fixpoint utf8_valid (s : bytes) : bool :=
  match s with
  | [] => true
  | b0 :: s1 =>
    if in_range 0 127 b0 then utf8_valid s1 else
    match s1 with
    | [] => false
    | b1 :: s2 =>
      if in_range 194 223 b0 then cont b1 && utf8_valid s2 else
      match s2 with
      | [] => false
      | b2 :: s3 =>
        if in_range 224 224 b0 then in_range 160 191 b1 && cont b2 && utf8_valid s3 else
        if in_range 237 237 b0 then in_range 128 159 b1 && cont b2 && utf8_valid s3 else
        if in_range 225 239 b0 then cont b1 && cont b2 && utf8_valid s3 else
        match s3 with
        | [] => false
        | b3 :: s4 =>
          if in_range 240 240 b0
          then in_range 144 191 b1 && cont b2 && cont b3 && utf8_valid s4 else
          if in_range 241 243 b0
          then cont b1 && cont b2 && cont b3 && utf8_valid s4 else
          if in_range 244 244 b0
          then in_range 128 143 b1 && cont b2 && cont b3 && utf8_valid s4 else
          false
        end
      end
    end
  end.

Example utf8_ascii : utf8_valid (lit "mcap") = true.
Proof. reflexivity. Qed.
Example utf8_two_bytes : utf8_valid (raw [195; 169]%Z) = true.
Proof. reflexivity. Qed.
Example utf8_surrogate : utf8_valid (raw [237; 160; 128]%Z) = false.
Proof. reflexivity. Qed.
Example utf8_truncated : utf8_valid (raw [240; 159; 166]%Z) = false.
Proof. reflexivity. Qed.

(** Rust compares strings by their bytes. *)
Fixpoint str_ltb (s t : rstring) : bool :=
  match s, t with
  | _, [] => false
  | [], _ :: _ => true
  | a :: s, b :: t =>
      ((byte_to_Z a <? byte_to_Z b) || ((byte_to_Z a =? byte_to_Z b) && str_ltb s t))%Z
  end.

Lemma str_ltb_irrefl s : str_ltb s s = false.
Proof.
  induction s as [|a s IH]; cbn; [done|].
  by rewrite Z.ltb_irrefl, Z.eqb_refl, IH.
Qed.

Lemma str_ltb_trans s t u : str_ltb s t = true → str_ltb t u = true → str_ltb s u = true.
Proof.
  revert t u. induction s as [|a s IH]; intros [|b t] [|c u]; cbn; try done.
  rewrite !orb_true_iff, !andb_true_iff, !Z.ltb_lt, !Z.eqb_eq.
  intros [?|[? H1]] [?|[? H2]]; [left; lia..|right; split; [lia|eauto]].
Qed.

Lemma str_ltb_total s t : str_ltb s t = false → str_ltb t s = false → s = t.
Proof.
  revert t. induction s as [|a s IH]; intros [|b t]; cbn; try done.
  rewrite !orb_false_iff, !andb_false_iff, !Z.ltb_ge, !Z.eqb_neq.
  intros [? H1] [? H2].
  assert (byte_to_Z a = byte_to_Z b) as Hab by lia.
  apply (inj byte_to_Z) in Hab as <-. f_equal. apply IH; naive_solver lia.
Qed.
