(* ===== verification/BTree.v ===== *)
(** Ordered maps.

    [BTreeMap<K, V>] as an association list in strictly increasing key order:
    equal maps are equal lists, iteration is the list itself.  [BTreeSet<K>] is a
    map to unit.  The order of the keys is an interface, [KeyOrd], discharged for
    integers and for strings. *)

From S2P Require Import Prelude Utf8.

(** What a key type promises: [Ord] is a strict total order. *)
Class KeyOrd (K : Type) := {
  kltb : K → K → bool;
  kltb_irrefl k : kltb k k = false;
  kltb_trans k1 k2 k3 : kltb k1 k2 = true → kltb k2 k3 = true → kltb k1 k3 = true;
  kltb_total k1 k2 : kltb k1 k2 = false → kltb k2 k1 = false → k1 = k2;
}.

#[export, refine] Instance Z_KeyOrd : KeyOrd Z := {| kltb := Z.ltb |}.
Proof.
  - apply Z.ltb_irrefl.
  - intros k1 k2 k3. rewrite !Z.ltb_lt. lia.
  - intros k1 k2. rewrite !Z.ltb_ge. lia.
Defined.

#[export] Instance str_KeyOrd : KeyOrd rstring := {|
  kltb := str_ltb;
  kltb_irrefl := str_ltb_irrefl;
  kltb_trans := str_ltb_trans;
  kltb_total := str_ltb_total;
|}.

Section btree.
Context {K V : Type} `{KeyOrd K}.
Implicit Types (m : list (K * V)) (k : K).

(** [m.get(k)] *)
Fixpoint bt_get (k : K) (m : list (K * V)) : option V :=
  match m with
  | [] => None
  | (k', v) :: m =>
      if kltb k k' then None else if kltb k' k then bt_get k m else Some v
  end.

Definition bt_contains (k : K) (m : list (K * V)) : bool :=
  match bt_get k m with Some _ => true | None => false end.

(** [m.insert(k, v)]: the map after the insertion. *)
Fixpoint bt_insert (k : K) (v : V) (m : list (K * V)) : list (K * V) :=
  match m with
  | [] => [(k, v)]
  | (k', v') :: m' =>
      if kltb k k' then (k, v) :: m
      else if kltb k' k then (k', v') :: bt_insert k v m'
      else (k, v) :: m'
  end.

(** [m.remove(k)]: the map after the removal. *)
Fixpoint bt_remove (k : K) (m : list (K * V)) : list (K * V) :=
  match m with
  | [] => []
  | (k', v) :: m' =>
      if kltb k k' then m else if kltb k' k then (k', v) :: bt_remove k m' else m'
  end.

(** The keys of a map are strictly increasing. *)
Fixpoint bt_sorted (m : list (K * V)) : bool :=
  match m with
  | [] => true
  | (k, _) :: m' =>
      match m' with [] => true | (k', _) :: _ => kltb k k' end && bt_sorted m'
  end.

Lemma kltb_asym k1 k2 : kltb k1 k2 = true → kltb k2 k1 = false.
Proof.
  intros H1. destruct (kltb k2 k1) eqn:H2; [|done].
  pose proof (kltb_trans _ _ _ H1 H2). by rewrite kltb_irrefl in *.
Qed.

(** Every key of [m] is above [k]. *)
Definition bt_above (k : K) (m : list (K * V)) : Prop :=
  Forall (λ kv, kltb k kv.1 = true) m.
(** Every key of [m] is below [k]. *)
Definition bt_below (m : list (K * V)) (k : K) : Prop :=
  Forall (λ kv, kltb kv.1 k = true) m.

Lemma bt_sorted_cons k v m :
  bt_sorted ((k, v) :: m) = true ↔ bt_above k m ∧ bt_sorted m = true.
Proof.
  revert k v. induction m as [|[k' v'] m IH]; intros k v.
  { cbn. split; [|done]. split; [constructor|done]. }
  change (bt_sorted ((k, v) :: (k', v') :: m))
    with (kltb k k' && bt_sorted ((k', v') :: m)).
  rewrite andb_true_iff, (IH k' v'). split.
  - intros [Hk [Ha Hs]]. split; [|done]. constructor; [done|].
    eapply Forall_impl; [exact Ha|]. cbn. eauto using kltb_trans.
  - intros [Ha [Hb Hs]]. inversion Ha; subst. eauto.
Qed.

Lemma bt_sorted_app m k v :
  bt_sorted m = true → bt_below m k → bt_sorted (m ++ [(k, v)]) = true.
Proof.
  induction m as [|[k' v'] m IH]; [done|].
  rewrite bt_sorted_cons. intros [Ha Hs] Hb. inversion Hb; subst.
  cbn [app]. rewrite bt_sorted_cons. split; [|by apply IH].
  apply Forall_app. split; [done|]. by constructor.
Qed.

Lemma bt_get_below m k : bt_below m k → bt_get k m = None.
Proof.
  induction m as [|[k' v'] m IH]; [done|]. intros Hb. inversion Hb; subst. cbn in *.
  rewrite (kltb_asym k' k) by done. rewrite H2. by apply IH.
Qed.

Lemma bt_insert_below m k v : bt_below m k → bt_insert k v m = m ++ [(k, v)].
Proof.
  induction m as [|[k' v'] m IH]; [done|]. intros Hb. inversion Hb; subst. cbn in *.
  rewrite (kltb_asym k' k) by done. rewrite H2. by rewrite IH.
Qed.

Lemma bt_get_above m k : bt_above k m → bt_get k m = None.
Proof. destruct m as [|[k' v'] m]; [done|]. intros Hb. inversion Hb; subst. cbn in *. by rewrite H2. Qed.

(** Lookup after insertion, and insertion keeps the order. *)
Lemma bt_insert_get_eq m k v : bt_get k (bt_insert k v m) = Some v.
Proof.
  induction m as [|[k' v'] m IH]; cbn.
  - by rewrite kltb_irrefl.
  - destruct (kltb k k') eqn:E1; cbn.
    + by rewrite kltb_irrefl.
    + destruct (kltb k' k) eqn:E2; cbn.
      * by rewrite E1, E2.
      * by rewrite kltb_irrefl.
Qed.

Lemma bt_insert_get_ne m k k' v : k ≠ k' → bt_sorted m = true →
  bt_get k' (bt_insert k v m) = bt_get k' m.
Proof.
  intros Hne. induction m as [|[k1 v1] m IH]; intros Hs; cbn.
  - destruct (kltb k' k) eqn:E1, (kltb k k') eqn:E2; try done.
    exfalso. apply Hne. by apply kltb_total.
  - apply bt_sorted_cons in Hs as [Ha Hs].
    destruct (kltb k k1) eqn:E1; cbn.
    + destruct (kltb k' k) eqn:E3.
      { by rewrite (kltb_trans _ _ _ E3 E1). }
      destruct (kltb k k') eqn:E4; [done|]. exfalso. apply Hne. by apply kltb_total.
    + destruct (kltb k1 k) eqn:E2; cbn; [by rewrite IH|].
      assert (k = k1) as <- by (by apply kltb_total).
      destruct (kltb k' k) eqn:E3, (kltb k k') eqn:E4; try done.
      exfalso. apply Hne. by apply kltb_total.
Qed.

Lemma bt_insert_above m k k' v :
  bt_above k' m → kltb k' k = true → bt_above k' (bt_insert k v m).
Proof.
  induction m as [|[k1 v1] m IH]; intros Ha Hk; cbn.
  - by constructor.
  - inversion Ha; subst. destruct (kltb k k1); [by constructor|].
    destruct (kltb k1 k); constructor; auto. by apply IH.
Qed.

Lemma bt_insert_sorted m k v : bt_sorted m = true → bt_sorted (bt_insert k v m) = true.
Proof.
  induction m as [|[k1 v1] m IH]; intros Hs; [done|]. cbn [bt_insert].
  pose proof Hs as Hs'. apply bt_sorted_cons in Hs' as [Ha Hs1].
  destruct (kltb k k1) eqn:E1.
  - apply bt_sorted_cons. split; [|done]. constructor; [done|].
    eapply Forall_impl; [exact Ha|]. cbn. eauto using kltb_trans.
  - destruct (kltb k1 k) eqn:E2.
    + apply bt_sorted_cons. split; [by apply bt_insert_above|by apply IH].
    + assert (k = k1) as -> by (by apply kltb_total). by apply bt_sorted_cons.
Qed.

Lemma bt_above_snoc m k k' v :
  bt_sorted (m ++ [(k, v)]) = true → bt_below m k.
Proof.
  clear k'. induction m as [|[k1 v1] m IH]; [constructor|]. cbn [app].
  rewrite bt_sorted_cons. intros [Ha Hs]. constructor; [|by apply IH].
  apply Forall_app in Ha as [_ Ha]. by inversion Ha.
Qed.
End btree.

(** Inserting a key that is new adds one entry. *)
Lemma bt_insert_length `{KeyOrd K} {V} (k : K) (v : V) m : bt_get k m = None → length (bt_insert k v m) = S (length m).
Proof.
  induction m as [|[k' v'] m IH]; [done|]. cbn [bt_get bt_insert]. destruct (kltb k k'); [done|].
  destruct (kltb k' k); [|done]. intros Hg. cbn. by rewrite IH.
Qed.

(** What is in a map is found, and the other way round. *)
Lemma bt_get_in `{KeyOrd K} {V} (k : K) (v : V) m : bt_sorted m = true → (k, v) ∈ m → bt_get k m = Some v.
Proof.
  induction m as [|[k' v'] m IH]; [by intros _ ?%not_elem_of_nil|]. rewrite bt_sorted_cons. intros [Ha Hs] [[= <- <-]|Hin]%elem_of_cons; cbn.
  - by rewrite kltb_irrefl.
  - unfold bt_above in Ha. rewrite Forall_forall in Ha. pose proof (Ha _ Hin) as Hk. cbn in Hk.
    rewrite (kltb_asym _ _ Hk), Hk. by apply IH.
Qed.
Lemma bt_in_get `{KeyOrd K} {V} (k : K) (v : V) m : bt_get k m = Some v → (k, v) ∈ m.
Proof.
  induction m as [|[k' v'] m IH]; [done|]. cbn. destruct (kltb k k') eqn:E1; [done|]. destruct (kltb k' k) eqn:E2.
  - intros ?. right. by apply IH.
  - intros [= <-]. assert (k = k') as -> by by apply kltb_total. left.
Qed.

(** Removal takes out the entry of the key, and insertion puts one in its place. *)
Lemma bt_remove_perm `{KeyOrd K} {V} (k : K) (v : V) m : bt_get k m = Some v → m ≡ₚ (k, v) :: bt_remove k m.
Proof.
  induction m as [|[k' v'] m IH]; [done|]. cbn. destruct (kltb k k') eqn:E1; [done|]. destruct (kltb k' k) eqn:E2.
  - intros Hg. rewrite (IH Hg) at 1. apply perm_swap.
  - intros [= <-]. assert (k = k') as -> by by apply kltb_total. done.
Qed.
Lemma bt_remove_sublist `{KeyOrd K} {V} (k : K) (m : list (K * V)) : bt_remove k m `sublist_of` m.
Proof.
  induction m as [|[k' v'] m IH]; [done|]. cbn. destruct (kltb k k'); [done|]. destruct (kltb k' k); [by apply sublist_skip|by apply sublist_cons].
Qed.
Lemma bt_insert_perm `{KeyOrd K} {V} (k : K) (v : V) m : bt_insert k v m ≡ₚ (k, v) :: bt_remove k m.
Proof.
  induction m as [|[k' v'] m IH]; [done|]. cbn. destruct (kltb k k'); [done|]. destruct (kltb k' k); [|done]. rewrite IH. apply perm_swap.
Qed.
Lemma bt_remove_sorted `{KeyOrd K} {V} (k : K) (m : list (K * V)) : bt_sorted m = true → bt_sorted (bt_remove k m) = true.
Proof.
  induction m as [|[k' v'] m IH]; [done|]. intros Hs. pose proof Hs as Hs'. apply bt_sorted_cons in Hs' as [Ha Hm]. cbn [bt_remove].
  destruct (kltb k k'); [done|]. destruct (kltb k' k); [|done]. apply bt_sorted_cons. split; [|by apply IH].
  unfold bt_above in *. rewrite Forall_forall in *. intros p Hp. apply Ha. eapply elem_of_sublist; [exact Hp|apply bt_remove_sublist].
Qed.
