(* ===== verification/Errors.v ===== *)
(** The error type of the crate ([McapError], lib.rs) and the errors of the two
    libraries it wraps, reduced to their cause. *)

From S2P Require Import Prelude Utf8.

(** [std::io::Error], by its kind. *)
Inductive io_error :=
| UnexpectedEofIo
| InvalidInputIo
| WriteZeroIo
| OtherIo (code : Z).

(** [binrw::Error]: a read past the end, a string that is not UTF-8 (the error of
    [try_map = String::from_utf8]), the custom error of the map parsers. *)
Inductive bin_error :=
| BinIo (e : io_error)
| BadUtf8
| DuplicateKeys.

Inductive McapError :=
| AttachmentNotInProgress
| AttachmentTooLarge (excess attachment_length : Z)
| AttachmentIncomplete (current expected : Z)
| BadMagic
| BadFooter
| BadAttachmentCrc (saved calculated : Z)
| BadChunkCrc (saved calculated : Z)
| BadDataCrc (saved calculated : Z)
| BadSummaryCrc (saved calculated : Z)
| BadIndex
| BadAttachmentLength (header available : Z)
| BadChunkLength (header available : Z)
| BadSchemaLength (header available : Z)
| PrivateRecordOpcodeIsReserved (opcode : Z)
| ConflictingChannels (topic : rstring)
| ConflictingSchemas (name : rstring)
| Parse (e : bin_error)
| Io (e : io_error)
| InvalidSchemaId
| UnexpectedEof
| UnexpectedEoc
| UnknownChannel (sequence channel_id : Z)
| UnknownSchema (topic : rstring) (schema_id : Z)
| UnsupportedCompression (name : rstring)
| DecompressionError (what : rstring)
| ChunkBufferTooLarge (size : Z)
| RecordTooLarge (opcode len : Z)
| ChunkTooLarge (size : Z)
| BadChunkStartOffset (offset : Z)
| TooManyChannels
| TooManySchemas
| UnexpectedChunkDataInserted
| AttemptedWriteAfterFailure
| BytesAfterEndMagic.

#[export] Instance io_error_eq_dec : EqDecision io_error.
Proof. solve_decision. Defined.
#[export] Instance bin_error_eq_dec : EqDecision bin_error.
Proof. solve_decision. Defined.
#[export] Instance McapError_eq_dec : EqDecision McapError.
Proof. solve_decision. Defined.

(** [McapResult<T>], with panics. *)
Abbreviation McapResult := (outcome McapError).

(** [pub const MAGIC] *)
Definition MAGIC : bytes := raw [137; 77; 67; 65; 80; 48; 13; 10]%Z.

Lemma zlen_MAGIC : zlen MAGIC = 8%Z.
Proof. done. Qed.
#[export] Hint Rewrite zlen_MAGIC : zlen.
