(* ===== verification/Bin.v ===== *)
(** Reading and writing binary records.

    What the [BinRead]/[BinWrite] implementations of records.rs do, on a cursor
    over a byte slice ([reader]) and on a seekable, growing buffer ([writer]).
    A [codec] pairs the two implementations of one type with the bytes it takes on
    the wire and with the values that type has; [CodecOk] is the promise the two
    make to each other.  [vec], [string_map] and [int_map] carry the loops of
    [parse_vec], [write_vec], [parse_string_map], [write_string_map],
    [parse_int_map] and [write_int_map]; [pair] and [struct] stand for the derived
    implementations, which read and write the fields in declaration order. *)

From S2P Require Import Prelude Utf8 BTree Errors.

(** ** Reading *)

(** [Cursor<&[u8]>]: its position and the bytes from there on. *)
Record rcursor := RCursor { rpos : Z; rrest : bytes }.

Definition reader (A : Type) : Type := rcursor → outcome bin_error (A * rcursor).

#[export] Instance reader_ret : MRet reader := λ A a c, Ok (a, c).
#[export] Instance reader_bind : MBind reader := λ A B f r c,
  match r c with
  | Ok (a, c) => f a c
  | Err e => Err e
  | Panic => Panic
  | Fuel => Fuel
  end.
#[export] Instance reader_throw : MThrow bin_error reader := λ A e c, Err e.

(** [Cursor::new(body)] *)
Definition rcursor_new (body : bytes) : rcursor := RCursor 0 body.

(** [reader.stream_position()] *)
Definition stream_position : reader Z := λ c, Ok (rpos c, c).

(** [reader.read_exact(n)] *)
Definition read_exact (n : Z) : reader bytes := λ c,
  if (n <=? zlen (rrest c))%Z
  then Ok (ztake n (rrest c), RCursor (rpos c + n) (zdrop n (rrest c)))
  else Err (BinIo UnexpectedEofIo).

(** The little-endian integer of [n] bytes. *)
Definition read_uint (n : nat) : reader Z :=
  b ← read_exact (Z.of_nat n); mret (le_dec b).

(** [r] reads exactly the bytes [e] and returns [a], whatever follows them. *)
Definition reads {A} (r : reader A) (e : bytes) (a : A) : Prop :=
  ∀ p rest, r (RCursor p (e ++ rest)) = Ok (a, RCursor (p + zlen e) rest).

Lemma reads_ret {A} (a : A) : reads (mret a) [] a.
Proof. intros p rest. unfold zlen; cbn. by rewrite Z.add_0_r. Qed.

Lemma bind_reads {A B} (r : reader A) (f : A → reader B) e a p rest :
  reads r e a → (r ≫= f) (RCursor p (e ++ rest)) = f a (RCursor (p + zlen e) rest).
Proof. intros H. unfold mbind, reader_bind. by rewrite H. Qed.

Lemma bind_position {B} (f : Z → reader B) c : (stream_position ≫= f) c = f (rpos c) c.
Proof. done. Qed.

Lemma reads_bind {A B} (r : reader A) (f : A → reader B) e1 e2 a b :
  reads r e1 a → reads (f a) e2 b → reads (r ≫= f) (e1 ++ e2) b.
Proof.
  intros H1 H2 p rest. rewrite <-app_assoc, (bind_reads _ _ _ _ _ _ H1), H2.
  by rewrite zlen_app, Z.add_assoc.
Qed.

Lemma reads_last {A B} (r : reader A) (f : A → reader B) e a b :
  reads r e a → reads (f a) [] b → reads (r ≫= f) e b.
Proof. intros. rewrite <-(app_nil_r e). by eapply reads_bind. Qed.

Lemma reads_exact e : reads (read_exact (zlen e)) e e.
Proof.
  intros p rest. unfold read_exact. cbn [rrest rpos].
  rewrite (proj2 (Z.leb_le _ _)) by (rewrite zlen_app; zlen_facts; lia).
  by rewrite ztake_app, zdrop_app.
Qed.

Lemma reads_uint n z :
  in_u (8 * Z.of_nat n) z → reads (read_uint n) (le_enc n z) z.
Proof.
  intros Hz. eapply reads_last.
  - rewrite <-(zlen_le_enc n z). apply reads_exact.
  - rewrite le_dec_enc_u by done. apply reads_ret.
Qed.

(** ** Writing *)

(** [Cursor<&mut Vec<u8>>] *)
Record wcursor := WCursor { wdata : bytes; wpos : Z }.

Definition writer : Type := wcursor → outcome bin_error wcursor.

Definition wseq (w1 w2 : writer) : writer := λ c, c ← w1 c; w2 c.
Notation "w1 ;;; w2" := (wseq w1 w2) (at level 55, right associativity).
Definition wskip : writer := λ c, Ok c.

(** [write_all]: overwrites from the position on, extending the buffer (with
    zeros up to the position, had it been moved past the end). *)
Definition write_bytes (b : bytes) : writer := λ c,
  let d := wdata c ++ replicate (Z.to_nat (wpos c - zlen (wdata c))) Byte.x00 in
  Ok (WCursor (ztake (wpos c) d ++ b ++ zdrop (wpos c + zlen b) d) (wpos c + zlen b)).

Definition write_uint (n : nat) (z : Z) : writer := write_bytes (le_enc n z).

(** [writer.seek(SeekFrom::Start(p))] and [writer.seek(SeekFrom::End(0))] *)
Definition seek_start (p : Z) : writer := λ c, Ok (WCursor (wdata c) p).
Definition seek_end : writer := λ c, Ok (WCursor (wdata c) (zlen (wdata c))).

Definition at_end (c : wcursor) : Prop := wpos c = zlen (wdata c).

(** [w] appends the bytes [e] to a buffer whose position is at its end. *)
Definition appends (w : writer) (e : bytes) : Prop :=
  ∀ c, at_end c → w c = Ok (WCursor (wdata c ++ e) (wpos c + zlen e)).

Lemma appends_skip : appends wskip [].
Proof. intros [d p] H. unfold wskip, zlen; cbn. by rewrite app_nil_r, Z.add_0_r. Qed.

Lemma appends_seq w1 w2 e1 e2 :
  appends w1 e1 → appends w2 e2 → appends (w1 ;;; w2) (e1 ++ e2).
Proof.
  intros H1 H2 c Hc. unfold wseq. rewrite H1 by done. cbn. rewrite H2; cbn.
  - by rewrite app_assoc, zlen_app, Z.add_assoc.
  - unfold at_end in *. cbn. rewrite zlen_app. lia.
Qed.

Lemma appends_bytes e : appends (write_bytes e) e.
Proof.
  intros [d p] Hc. unfold at_end in Hc. cbn in Hc. unfold write_bytes. cbn [wdata wpos].
  rewrite Hc, Z.sub_diag. cbn. rewrite app_nil_r.
  rewrite ztake_all by lia. rewrite zdrop_drop, drop_ge by (unfold zlen; lia).
  by rewrite app_nil_r.
Qed.

(** Overwriting bytes that are already there leaves the rest of the buffer. *)
Lemma write_bytes_over d1 old new d2 :
  zlen old = zlen new →
  write_bytes new (WCursor (d1 ++ old ++ d2) (zlen d1)) =
    Ok (WCursor (d1 ++ new ++ d2) (zlen d1 + zlen new)).
Proof.
  intros Hl. unfold write_bytes. cbn [wdata wpos].
  replace (Z.to_nat _) with 0 by zlia. cbn [replicate]. rewrite app_nil_r.
  rewrite ztake_app by done. do 3 f_equal. f_equal.
  rewrite zdrop_app_ge by zlia. apply zdrop_app. lia.
Qed.

(** ** Codecs *)

Record codec (A : Type) : Type := Codec {
  c_read : reader A;          (* [T::read_options] *)
  c_write : A → writer;       (* [t.write_options] *)
  c_enc : A → bytes;          (* the bytes of a value on the wire *)
  c_wf : A → bool;            (* the values of the type, of representable length *)
}.
Arguments Codec {A}.
Arguments c_read {A}. Arguments c_write {A}. Arguments c_enc {A}. Arguments c_wf {A}.

(** The promise of an implementation pair: writing appends the encoding, reading
    takes it back. *)
Class CodecOk {A} (c : codec A) : Prop := {
  codec_appends a : c_wf c a = true → appends (c_write c a) (c_enc c a);
  codec_reads a : c_wf c a = true → reads (c_read c) (c_enc c a) a;
}.

(** *** Integers *)

Definition uint_wf (n : nat) (z : Z) : bool := ((0 <=? z) && (z <? 2 ^ (8 * Z.of_nat n)))%Z.

Lemma uint_wf_in n z : uint_wf n z = true ↔ in_u (8 * Z.of_nat n) z.
Proof. unfold uint_wf, in_u. rewrite andb_true_iff, Z.leb_le, Z.ltb_lt. done. Qed.

Definition uint (n : nat) : codec Z :=
  Codec (read_uint n) (write_uint n) (le_enc n) (uint_wf n).

Definition u8 := uint 1.
Definition u16 := uint 2.
Definition u32 := uint 4.
Definition u64 := uint 8.

Lemma reads_u32 z : in_u 32 z → reads (c_read u32) (le_enc 4 z) z.
Proof. apply (reads_uint 4). Qed.

Lemma in_u_len {A} w (l : list A) : (zlen l < 2 ^ w)%Z → in_u w (zlen l).
Proof. pose proof (zlen_nonneg l). by split. Qed.

Lemma appends_u32 z : appends (c_write u32 z) (le_enc 4 z).
Proof. apply appends_bytes. Qed.

#[export] Instance uint_ok n : CodecOk (uint n).
Proof.
  split; intros z Hz; cbn in *.
  - apply appends_bytes.
  - apply reads_uint. by apply uint_wf_in.
Qed.
#[export] Instance u8_ok : CodecOk u8 := uint_ok 1.
#[export] Instance u16_ok : CodecOk u16 := uint_ok 2.
#[export] Instance u32_ok : CodecOk u32 := uint_ok 4.
#[export] Instance u64_ok : CodecOk u64 := uint_ok 8.

(** *** Fields and structs *)

Section struct.
Context {A B : Type}.

(** Two fields, the first one first. *)
Definition pair (ca : codec A) (cb : codec B) : codec (A * B) := Codec
  (a ← c_read ca; b ← c_read cb; mret (a, b))
  (λ '(a, b), c_write ca a ;;; c_write cb b)
  (λ '(a, b), c_enc ca a ++ c_enc cb b)
  (λ '(a, b), c_wf ca a && c_wf cb b).

(** A struct with the fields of [ca]. *)
Definition struct (ca : codec A) (mk : A → B) (fields : B → A) : codec B := Codec
  (a ← c_read ca; mret (mk a))
  (λ b, c_write ca (fields b))
  (λ b, c_enc ca (fields b))
  (λ b, c_wf ca (fields b)).

#[export] Instance pair_ok ca cb : CodecOk ca → CodecOk cb → CodecOk (pair ca cb).
Proof.
  intros Ha Hb. split; intros [a b]; cbn; rewrite andb_true_iff; intros [Wa Wb].
  - apply appends_seq; by apply codec_appends.
  - eapply reads_bind; [by apply codec_reads|].
    eapply reads_last; [by apply codec_reads|apply reads_ret].
Qed.

Lemma struct_ok ca mk fields :
  CodecOk ca → (∀ b, mk (fields b) = b) → CodecOk (struct ca mk fields).
Proof.
  intros Ha Hm. split; intros b Wb; cbn in *; [by apply codec_appends|].
  eapply reads_last; [by apply codec_reads|].
  rewrite Hm. apply reads_ret.
Qed.
End struct.
Notation "c1 ⊗ c2" := (pair c1 c2) (at level 40, left associativity).

(** *** Strings *)

(** The derived implementation of [McapString]. *)
Definition parse_string : reader rstring :=
  len ← c_read u32;
  b ← read_exact len;
  if utf8_valid b then mret b else mthrow BadUtf8.

(** [write_string] *)
Definition write_string (s : rstring) : writer :=
  c_write u32 (as_u32 (zlen s)) ;;; write_bytes s.

Definition string_enc (s : rstring) : bytes := le_enc 4 (zlen s) ++ s.
Definition string_wf (s : rstring) : bool := utf8_valid s && (zlen s <? 2 ^ 32)%Z.

Definition rstr : codec rstring := Codec parse_string write_string string_enc string_wf.

Lemma string_wf_iff s : string_wf s = true ↔ utf8_valid s = true ∧ in_u 32 (zlen s).
Proof.
  unfold string_wf, in_u. rewrite andb_true_iff, Z.ltb_lt. pose proof (zlen_nonneg s). naive_solver.
Qed.

#[export] Instance rstr_ok : CodecOk rstr.
Proof.
  split; intros s Hs; cbn in *; apply string_wf_iff in Hs as [Hu Hl]; unfold string_enc.
  - unfold write_string. rewrite as_u32_small by done.
    apply appends_seq; apply appends_bytes.
  - eapply reads_bind; [by apply reads_uint|].
    eapply reads_last; [apply reads_exact|].
    rewrite Hu. apply reads_ret.
Qed.

(** *** Length-prefixed sequences *)

Definition loop_cut {A} : reader A := λ _, Fuel.

(** [r], with a loop bound taken from the bytes left: every element of a sequence
    takes at least one of them. *)
Definition bounded {A} (r : nat → reader A) : reader A := λ c, r (S (length (rrest c))) c.

Section vec.
Context {T : Type} (c : codec T).

(** The loop of [parse_vec]: elements are read while fewer than [byte_len] bytes
    have been, so the last one may run past that length. *)
Fixpoint parse_vec_loop (fuel : nat) (pos byte_len : Z) (parsed : list T) : reader (list T) :=
  cur ← stream_position;
  if (cur - pos <? byte_len)%Z
  then match fuel with
       | 0 => loop_cut
       | S fuel =>
           t ← c_read c;
           parse_vec_loop fuel pos byte_len (parsed ++ [t])
       end
  else mret parsed.

Definition parse_vec : reader (list T) :=
  byte_len ← c_read u32;
  pos ← stream_position;
  bounded (λ fuel, parse_vec_loop fuel pos byte_len []).

Fixpoint write_each (v : list T) : writer :=
  match v with
  | [] => wskip
  | e :: v => c_write c e ;;; write_each v
  end.

(** [write_vec]: a placeholder length, the elements, and the length patched in
    once it is known. *)
Definition write_vec (v : list T) : writer := λ w,
  let start := wpos w in
  w ← c_write u32 u32_max w;
  w ← write_each v w;
  let end_ := wpos w in
  data_len ← sub_ end_ start;
  data_len ← sub_ data_len 4;
  w ← seek_start start w;
  w ← c_write u32 (as_u32 data_len) w;
  w ← seek_end w;
  _ ← rassert (wpos w =? end_)%Z;
  mret w.

Definition vec_body (v : list T) : bytes := mjoin (c_enc c <$> v).
Definition vec_enc (v : list T) : bytes := le_enc 4 (zlen (vec_body v)) ++ vec_body v.
Definition vec_wf (v : list T) : bool :=
  forallb (c_wf c) v && (zlen (vec_body v) <? 2 ^ 32)%Z.

Definition vec : codec (list T) := Codec parse_vec write_vec vec_enc vec_wf.

Context `{CodecOk T c}.

Lemma appends_each v : forallb (c_wf c) v = true → appends (write_each v) (vec_body v).
Proof.
  induction v as [|e v IH]; cbn; [intros; apply appends_skip|].
  rewrite andb_true_iff. intros [He Hv].
  apply appends_seq; [by apply codec_appends|by apply IH].
Qed.

Lemma appends_vec v : vec_wf v = true → appends (write_vec v) (vec_enc v).
Proof.
  unfold vec_wf. rewrite andb_true_iff, Z.ltb_lt. intros [Hv Hl] [d p] Hc.
  unfold at_end in Hc; cbn in Hc; subst p.
  unfold write_vec. cbn [wpos wdata].
  rewrite (appends_u32 _ (WCursor d _)) by done. cbn [mbind outcome_bind].
  rewrite appends_each; [|done|unfold at_end; cbn; by rewrite zlen_app].
  cbn [mbind outcome_bind wpos wdata].
  rewrite sub_Ok by zlia. cbn [mbind outcome_bind].
  rewrite sub_Ok by zlia. cbn [mbind outcome_bind seek_start wdata].
  replace (as_u32 _) with (zlen (vec_body v)).
  2:{ symmetry. etrans; [apply as_u32_small; unfold in_u; zlia|zlia]. }
  rewrite <-app_assoc. unfold c_write, u32, uint, write_uint.
  rewrite (write_bytes_over d _ (le_enc 4 (zlen (vec_body v)))) by zlia.
  cbn [mbind outcome_bind seek_end wdata wpos]. unfold rassert.
  rewrite (proj2 (Z.eqb_eq _ _)) by zlia. cbn. unfold vec_enc. do 2 f_equal. zlia.
Qed.

Hypothesis enc_nonempty : ∀ t, c_wf c t = true → (0 < zlen (c_enc c t))%Z.

Lemma parse_vec_loop_enc fuel v : ∀ parsed p0 p rest,
  forallb (c_wf c) v = true → length v < fuel →
  parse_vec_loop fuel p0 (p - p0 + zlen (vec_body v)) parsed (RCursor p (vec_body v ++ rest))
    = Ok (parsed ++ v, RCursor (p + zlen (vec_body v)) rest).
Proof.
  revert fuel. induction v as [|e v IH]; intros [|fuel] parsed p0 p rest Hv Hf; cbn in Hf; try lia.
  - cbn [parse_vec_loop]. rewrite bind_position. cbn [vec_body rpos]. cbn.
    rewrite (proj2 (Z.ltb_ge _ _)) by zlia. cbn. by rewrite app_nil_r, Z.add_0_r.
  - cbn in Hv. apply andb_true_iff in Hv as [He Hv].
    pose proof (enc_nonempty e He).
    cbn [parse_vec_loop]. rewrite bind_position. cbn [rpos].
    change (vec_body (e :: v)) with (c_enc c e ++ vec_body v).
    rewrite (proj2 (Z.ltb_lt _ _)) by zlia.
    rewrite <-app_assoc, (bind_reads _ _ _ _ _ _ (codec_reads e He)).
    rewrite zlen_app.
    replace (p - p0 + (zlen (c_enc c e) + zlen (vec_body v)))%Z
      with (p + zlen (c_enc c e) - p0 + zlen (vec_body v))%Z by lia.
    rewrite IH by (done || lia). by rewrite <-app_assoc, Z.add_assoc.
Qed.

Lemma vec_body_length v :
  forallb (c_wf c) v = true → length v ≤ length (vec_body v).
Proof.
  induction v as [|e v IH]; cbn [forallb]; [cbn; lia|].
  rewrite andb_true_iff. intros [He Hv]. specialize (enc_nonempty e He). specialize (IH Hv).
  change (vec_body (e :: v)) with (c_enc c e ++ vec_body v).
  rewrite length_app. unfold zlen in *. cbn [length]. lia.
Qed.

Lemma vec_ok : CodecOk vec.
Proof.
  split; intros v Hv; [by apply appends_vec|]. cbn in Hv |- *.
  unfold vec_wf in Hv. rewrite andb_true_iff, Z.ltb_lt in Hv. destruct Hv as [Hv Hl].
  intros p rest. unfold parse_vec, vec_enc. rewrite <-app_assoc.
  erewrite bind_reads by (by apply reads_u32, in_u_len).
  rewrite bind_position. unfold bounded. cbn [rpos rrest].
  pose proof (parse_vec_loop_enc (S (length (vec_body v ++ rest))) v []
    (p + zlen (le_enc 4 (zlen (vec_body v)))) (p + zlen (le_enc 4 (zlen (vec_body v)))) rest Hv) as Hp.
  rewrite Z.sub_diag, Z.add_0_l in Hp. rewrite Hp.
  - by rewrite zlen_app, Z.add_assoc.
  - rewrite length_app. pose proof (vec_body_length v Hv). lia.
Qed.
End vec.

(** *** Length-prefixed maps *)

Section map.
Context {K V : Type} `{KeyOrd K} (ck : codec K) (cv : codec V).

(** The loop of [parse_string_map] and [parse_int_map]. *)
Fixpoint parse_map_loop (fuel : nat) (pos byte_len : Z) (parsed : list (K * V))
    : reader (list (K * V)) :=
  cur ← stream_position;
  if (cur - pos <? byte_len)%Z
  then match fuel with
       | 0 => loop_cut
       | S fuel =>
           k ← c_read ck;
           v ← c_read cv;
           if bt_contains k parsed then mthrow DuplicateKeys
           else parse_map_loop fuel pos byte_len (bt_insert k v parsed)
       end
  else mret parsed.

Definition parse_map : reader (list (K * V)) :=
  byte_len ← c_read u32;
  pos ← stream_position;
  bounded (λ fuel, parse_map_loop fuel pos byte_len []).

Fixpoint write_entries (m : list (K * V)) : writer :=
  match m with
  | [] => wskip
  | (k, v) :: m => c_write ck k ;;; c_write cv v ;;; write_entries m
  end.

(** The writers compute the number of bytes beforehand, as the sum of
    [entry_len] over the entries, and assert afterwards that they wrote it. *)
Context (entry_len : K → V → Z).

Definition map_byte_len (m : list (K * V)) : Z :=
  foldl (λ n '(k, v), n + entry_len k v)%Z 0%Z m.

Definition write_map (m : list (K * V)) : writer := λ w,
  let byte_len := map_byte_len m in
  w ← c_write u32 (as_u32 byte_len) w;
  let pos := wpos w in
  w ← write_entries m w;
  _ ← rassert (wpos w =? pos + byte_len)%Z;
  mret w.

Definition map_body (m : list (K * V)) : bytes :=
  mjoin ((λ '(k, v), c_enc ck k ++ c_enc cv v) <$> m).
Definition map_enc (m : list (K * V)) : bytes := le_enc 4 (zlen (map_body m)) ++ map_body m.
Definition map_wf (m : list (K * V)) : bool :=
  forallb (λ '(k, v), c_wf ck k && c_wf cv v) m && bt_sorted m &&
    (zlen (map_body m) <? 2 ^ 32)%Z.

Definition map_codec : codec (list (K * V)) := Codec parse_map write_map map_enc map_wf.

Context `{!CodecOk ck, !CodecOk cv}.

Hypothesis entry_len_ok : ∀ k v, entry_len k v = zlen (c_enc ck k ++ c_enc cv v).
Hypothesis enc_nonempty : ∀ k, c_wf ck k = true → (0 < zlen (c_enc ck k))%Z.

Let entries_wf := forallb (λ '(k, v), c_wf ck k && c_wf cv v).

Lemma map_body_cons k v m : map_body ((k, v) :: m) = c_enc ck k ++ c_enc cv v ++ map_body m.
Proof. unfold map_body. cbn. by rewrite <-app_assoc. Qed.

Lemma map_wf_iff m : map_wf m = true ↔
  entries_wf m = true ∧ bt_sorted m = true ∧ (zlen (map_body m) < 2 ^ 32)%Z.
Proof. unfold map_wf. rewrite !andb_true_iff, Z.ltb_lt. naive_solver. Qed.

Lemma map_byte_len_body m : map_byte_len m = zlen (map_body m).
Proof.
  unfold map_byte_len. change (zlen (map_body m)) with (0 + zlen (map_body m))%Z.
  generalize 0%Z. induction m as [|[k v] m IH]; intros n; cbn [foldl].
  - change (map_body []) with (@nil byte). zlia.
  - rewrite IH, entry_len_ok, map_body_cons. zlia.
Qed.

Lemma appends_entries m : entries_wf m = true → appends (write_entries m) (map_body m).
Proof.
  induction m as [|[k v] m IH]; cbn; [intros; apply appends_skip|].
  rewrite !andb_true_iff. intros [[Hk Hv] Hm]. rewrite <-app_assoc.
  repeat apply appends_seq; try by apply codec_appends. by apply IH.
Qed.

Lemma appends_map m : map_wf m = true → appends (write_map m) (map_enc m).
Proof.
  rewrite map_wf_iff. intros (Hm & _ & Hl) [d p] Hc. unfold at_end in Hc; cbn in Hc; subst p.
  unfold write_map. rewrite map_byte_len_body, as_u32_small by (by apply in_u_len).
  rewrite (appends_u32 _ (WCursor d _)) by done. cbn [mbind outcome_bind].
  rewrite appends_entries; [|done|unfold at_end; cbn; by rewrite zlen_app].
  cbn [mbind outcome_bind wpos wdata]. unfold rassert.
  rewrite Z.eqb_refl. cbn. unfold map_enc. rewrite <-app_assoc. do 2 f_equal. zlia.
Qed.

Lemma map_body_length m : entries_wf m = true → length m ≤ length (map_body m).
Proof.
  induction m as [|[k v] m IH]; [cbn; lia|]. unfold entries_wf. cbn [forallb].
  rewrite !andb_true_iff. intros [[Hk Hv] Hm]. specialize (enc_nonempty k Hk).
  specialize (IH Hm). rewrite map_body_cons, !length_app. unfold zlen in *. cbn [length]. lia.
Qed.

Lemma parse_map_loop_enc fuel m : ∀ parsed p0 p rest,
  entries_wf m = true → bt_sorted (parsed ++ m) = true → length m < fuel →
  parse_map_loop fuel p0 (p - p0 + zlen (map_body m)) parsed (RCursor p (map_body m ++ rest))
    = Ok (parsed ++ m, RCursor (p + zlen (map_body m)) rest).
Proof.
  revert fuel. induction m as [|[k v] m IH];
    intros [|fuel] parsed p0 p rest Hw Hs Hf; cbn in Hf; try lia.
  - cbn [parse_map_loop]. rewrite bind_position. cbn.
    rewrite (proj2 (Z.ltb_ge _ _)) by zlia. cbn. by rewrite app_nil_r, Z.add_0_r.
  - unfold entries_wf in Hw. cbn in Hw. rewrite !andb_true_iff in Hw. destruct Hw as [[Hk Hv] Hw].
    specialize (enc_nonempty k Hk). rewrite map_body_cons.
    cbn [parse_map_loop]. rewrite bind_position. cbn [rpos].
    rewrite (proj2 (Z.ltb_lt _ _)) by zlia.
    rewrite <-!app_assoc, (bind_reads _ _ _ _ _ _ (codec_reads k Hk)).
    rewrite (bind_reads _ _ _ _ _ _ (codec_reads v Hv)).
    replace (parsed ++ (k, v) :: m) with ((parsed ++ [(k, v)]) ++ m) in Hs |- *
      by (by rewrite <-app_assoc).
    assert (bt_below parsed k) as Hb.
    { clear -Hs. induction parsed as [|[k1 v1] parsed IHp]; [constructor|].
      cbn [app] in Hs. apply bt_sorted_cons in Hs as [Ha Hs]. constructor; [|by apply IHp].
      rewrite <-app_assoc in Ha. apply Forall_app in Ha as [_ Ha]. by inversion Ha. }
    unfold bt_contains. rewrite (bt_get_below _ _ Hb), (bt_insert_below _ _ _ Hb).
    rewrite !zlen_app.
    replace (p - p0 + (zlen (c_enc ck k) + (zlen (c_enc cv v) + zlen (map_body m))))%Z
      with (p + zlen (c_enc ck k) + zlen (c_enc cv v) - p0 + zlen (map_body m))%Z by lia.
    rewrite IH by (done || lia). do 3 f_equal. lia.
Qed.

Lemma map_codec_ok : CodecOk map_codec.
Proof.
  split; intros m Hm; [by apply appends_map|]. cbn in Hm |- *.
  apply map_wf_iff in Hm as (Hw & Hs & Hl).
  intros p rest. unfold parse_map, map_enc. rewrite <-app_assoc.
  erewrite bind_reads by (by apply reads_u32, in_u_len).
  rewrite bind_position. unfold bounded. cbn [rpos rrest].
  pose proof (parse_map_loop_enc (S (length (map_body m ++ rest))) m []
    (p + zlen (le_enc 4 (zlen (map_body m)))) (p + zlen (le_enc 4 (zlen (map_body m)))) rest Hw Hs) as Hp.
  rewrite Z.sub_diag, Z.add_0_l in Hp. rewrite Hp.
  - by rewrite zlen_app, Z.add_assoc.
  - rewrite length_app. pose proof (map_body_length m Hw). lia.
Qed.
End map.

(** [parse_string_map], [write_string_map] *)
Definition string_entry_len (k v : rstring) : Z := 8 + zlen k + zlen v.
Definition string_map : codec (list (rstring * rstring)) :=
  map_codec rstr rstr string_entry_len.

(** [parse_int_map], [write_int_map] at [u16] keys and [u64] values: the entry
    length is [size_of::<u16>() + size_of::<u64>()]. *)
Definition int_entry_len (k v : Z) : Z := 2 + 8.
Definition int_map : codec (list (Z * Z)) := map_codec u16 u64 int_entry_len.

#[export] Instance string_map_ok : CodecOk string_map.
Proof.
  apply map_codec_ok; try apply _.
  - intros k v. cbn. unfold string_enc, string_entry_len. zlia.
  - intros k _. cbn. unfold string_enc. zlia.
Qed.

#[export] Instance int_map_ok : CodecOk int_map.
Proof.
  apply map_codec_ok; try apply _.
  - intros k v. cbn. unfold int_entry_len. zlia.
  - intros k _. cbn. zlia.
Qed.

(** ** Totality of the readers *)

(** [r] returns or fails on any input, without panicking or running out of fuel;
    when it returns it has consumed at least [n] bytes of its input. *)
Definition total {A} (n : Z) (r : reader A) : Prop := ∀ c,
  match r c with
  | Ok (_, c') => ∃ e, rrest c = e ++ rrest c' ∧ rpos c' = (rpos c + zlen e)%Z ∧ (n ≤ zlen e)%Z
  | Err _ => True
  | Panic | Fuel => False
  end.

(** The totality of a codec's reader, with the least size of a value. *)
Class CodecTotal {A} (c : codec A) (n : Z) : Prop := codec_total : total n (c_read c).

Lemma total_ret {A} (a : A) : total 0 (mret a).
Proof. intros [p r]. exists []. cbn. unfold zlen; cbn. split_and!; [done|lia|lia]. Qed.

Lemma total_throw {A} n (e : bin_error) : total n (mthrow e : reader A).
Proof. intros c. done. Qed.

Lemma total_bind {A B} n m k (r : reader A) (f : A → reader B) :
  total n r → (∀ a, total m (f a)) → (k ≤ n + m)%Z → total k (r ≫= f).
Proof.
  intros Hr Hf Hk c. specialize (Hr c). unfold mbind, reader_bind.
  destruct (r c) as [[a c1]|e| |]; try done.
  destruct Hr as (e1 & He1 & Hp1 & Hn1). specialize (Hf a c1).
  destruct (f a c1) as [[b c2]|e| |]; try done.
  destruct Hf as (e2 & He2 & Hp2 & Hn2). exists (e1 ++ e2).
  rewrite He1, He2, <-app_assoc, zlen_app. split_and!; [done|lia|lia].
Qed.

Lemma total_position : total 0 stream_position.
Proof. intros [p r]. exists []. cbn. unfold zlen; cbn. split_and!; [done|lia|lia]. Qed.

Lemma total_exact n : (0 ≤ n)%Z → total n (read_exact n).
Proof.
  intros Hn [p r]. unfold read_exact. cbn [rrest rpos].
  destruct (Z.leb_spec n (zlen r)); [|done].
  exists (ztake n r). cbn [rrest rpos]. rewrite ztake_zdrop, zlen_ztake.
  zlen_facts. split_and!; [done|lia|lia].
Qed.

#[export] Instance uint_total n : CodecTotal (uint n) (Z.of_nat n).
Proof.
  unfold CodecTotal. cbn. eapply total_bind; [apply total_exact; lia|intros; apply total_ret|lia].
Qed.
#[export] Instance u8_total : CodecTotal u8 1 := uint_total 1.
#[export] Instance u16_total : CodecTotal u16 2 := uint_total 2.
#[export] Instance u32_total : CodecTotal u32 4 := uint_total 4.
#[export] Instance u64_total : CodecTotal u64 8 := uint_total 8.

#[export] Instance rstr_total : CodecTotal rstr 4.
Proof.
  intros [p r]. cbn [c_read rstr]. unfold parse_string.
  unfold mbind at 1, reader_bind. pose proof (codec_total (c:=u32) (RCursor p r)) as H.
  destruct (c_read u32 _) as [[len c1]|e| |] eqn:E; try done.
  assert (0 ≤ len)%Z as Hlen.
  { revert E. cbn. unfold read_uint, mbind, reader_bind.
    destruct (read_exact _ _) as [[b c]|e| |]; cbn; intros [=]; subst. apply le_dec_range. }
  destruct H as (e1 & He1 & Hp1 & Hn1).
  pose proof (total_exact len Hlen c1) as H.
  unfold mbind, reader_bind. destruct (read_exact _ _) as [[b c2]|e| |]; try done.
  destruct H as (e2 & He2 & Hp2 & Hn2).
  destruct (utf8_valid b); cbn; [|done].
  exists (e1 ++ e2). cbn in He1, Hp1. rewrite He1, He2, <-app_assoc, zlen_app.
  split_and!; [done|lia|lia].
Qed.

#[export] Instance pair_total {A B} (ca : codec A) (cb : codec B) n m :
  CodecTotal ca n → CodecTotal cb m → CodecTotal (pair ca cb) (n + m).
Proof.
  intros Ha Hb. eapply total_bind; [exact Ha|intros a|].
  - eapply total_bind; [exact Hb|intros b; apply total_ret|]. reflexivity.
  - lia.
Qed.

#[export] Instance struct_total {A B} (ca : codec A) mk (fields : B → A) n :
  CodecTotal ca n → CodecTotal (struct ca mk fields) n.
Proof. intros Ha. eapply total_bind; [exact Ha|intros; apply total_ret|lia]. Qed.

(** The loops end: an iteration takes at least one byte of those left. *)
Lemma parse_vec_loop_total {T} (c : codec T) n fuel pos len parsed cur :
  CodecTotal c n → (1 ≤ n)%Z → length (rrest cur) < fuel →
  match parse_vec_loop c fuel pos len parsed cur with
  | Ok (_, c') => ∃ e, rrest cur = e ++ rrest c' ∧ rpos c' = (rpos cur + zlen e)%Z
  | Err _ => True
  | Panic | Fuel => False
  end.
Proof.
  intros Hc Hn. revert parsed cur. induction fuel as [|fuel IH]; intros parsed cur Hf; [lia|].
  cbn [parse_vec_loop]. rewrite bind_position. zcase.
  2:{ exists []. cbn. unfold zlen; cbn. split; [done|lia]. }
  unfold mbind, reader_bind. pose proof (Hc cur) as Ht.
  destruct (c_read c cur) as [[t c1]|e| |]; try done.
  destruct Ht as (e & He & Hp & Hl). assert (length (rrest c1) < fuel).
  { rewrite He, length_app in Hf. unfold zlen in Hl. lia. }
  specialize (IH (parsed ++ [t]) c1 ltac:(lia)).
  destruct (parse_vec_loop _ _ _ _ _ c1) as [[v c2]|e2| |]; try done.
  destruct IH as (e2 & He2 & Hp2). exists (e ++ e2).
  rewrite He, He2, <-app_assoc, zlen_app. split; [done|lia].
Qed.

Lemma vec_total {T} (c : codec T) n : CodecTotal c n → (1 ≤ n)%Z → CodecTotal (vec c) 4.
Proof.
  intros Hc Hn. eapply (total_bind 4 0); [apply (codec_total (c:=u32))|intros len|lia].
  eapply (total_bind 0 0); [apply total_position|intros pos cur|lia]. unfold bounded.
  pose proof (parse_vec_loop_total c n (S (length (rrest cur))) pos len [] cur Hc Hn ltac:(lia)) as H.
  destruct (parse_vec_loop _ _ _ _ _ _) as [[v c2]|e2| |]; try done.
  destruct H as (e & ? & ?). exists e. zlen_facts. split_and!; [done..|lia].
Qed.

Lemma parse_map_loop_total {K V} `{KeyOrd K} (ck : codec K) (cv : codec V) n m fuel pos len parsed cur :
  CodecTotal ck n → CodecTotal cv m → (1 ≤ n)%Z → (0 ≤ m)%Z → length (rrest cur) < fuel →
  match parse_map_loop ck cv fuel pos len parsed cur with
  | Ok (_, c') => ∃ e, rrest cur = e ++ rrest c' ∧ rpos c' = (rpos cur + zlen e)%Z
  | Err _ => True
  | Panic | Fuel => False
  end.
Proof.
  intros Hk Hv Hn Hm. revert parsed cur.
  induction fuel as [|fuel IH]; intros parsed cur Hf; [lia|].
  cbn [parse_map_loop]. rewrite bind_position. zcase.
  2:{ exists []. cbn. unfold zlen; cbn. split; [done|lia]. }
  unfold mbind, reader_bind. pose proof (Hk cur) as Ht.
  destruct (c_read ck cur) as [[k c1]|e| |]; try done.
  destruct Ht as (e & He & Hp & Hl). pose proof (Hv c1) as Ht.
  destruct (c_read cv c1) as [[v c2]|e'| |]; try done.
  destruct Ht as (e' & He' & Hp' & Hl'). destruct (bt_contains k parsed); [done|].
  assert (length (rrest c2) < fuel).
  { rewrite He, He', !length_app in Hf. unfold zlen in Hl. lia. }
  specialize (IH (bt_insert k v parsed) c2 ltac:(lia)).
  destruct (parse_map_loop _ _ _ _ _ _ c2) as [[v' c3]|e2| |]; try done.
  destruct IH as (e2 & He2 & Hp2). exists (e ++ e' ++ e2).
  rewrite He, He', He2, <-!app_assoc, !zlen_app. split; [done|lia].
Qed.

Lemma map_total {K V} `{KeyOrd K} (ck : codec K) (cv : codec V) el n m :
  CodecTotal ck n → CodecTotal cv m → (1 ≤ n)%Z → (0 ≤ m)%Z → CodecTotal (map_codec ck cv el) 4.
Proof.
  intros Hk Hv Hn Hm. eapply (total_bind 4 0); [apply (codec_total (c:=u32))|intros len|lia].
  eapply (total_bind 0 0); [apply total_position|intros pos cur|lia]. unfold bounded.
  pose proof (parse_map_loop_total ck cv n m (S (length (rrest cur))) pos len [] cur
    Hk Hv Hn Hm ltac:(lia)) as Ht.
  destruct (parse_map_loop _ _ _ _ _ _ _) as [[v c2]|e2| |]; try done.
  destruct Ht as (e & ? & ?). exists e. zlen_facts. split_and!; [done..|lia].
Qed.

#[export] Instance string_map_total : CodecTotal string_map 4.
Proof. eapply map_total; try apply _; lia. Qed.
#[export] Instance int_map_total : CodecTotal int_map 4.
Proof. eapply map_total; try apply _; lia. Qed.

(** ** Canonical codecs *)

(** A value that was read is a value of its type, and the bytes it was read from
    are its encoding.  Sequences and maps are not canonical: their byte length may
    cut an element short of it, and a map's entries may come in any order. *)
Class CodecCanon {A} (c : codec A) : Prop := codec_canon cur a cur' :
  c_read c cur = Ok (a, cur') →
  c_wf c a = true ∧ rrest cur = c_enc c a ++ rrest cur' ∧
  rpos cur' = (rpos cur + zlen (c_enc c a))%Z.

Lemma bind_read_Ok {A B} (r : reader A) (f : A → reader B) c b c2 :
  (r ≫= f) c = Ok (b, c2) ↔ ∃ a c1, r c = Ok (a, c1) ∧ f a c1 = Ok (b, c2).
Proof. unfold mbind, reader_bind. destruct (r c) as [[a c1]|e| |]; naive_solver. Qed.

Lemma read_exact_Ok n c b c' :
  read_exact n c = Ok (b, c') ↔
  (n ≤ zlen (rrest c))%Z ∧ b = ztake n (rrest c) ∧ c' = RCursor (rpos c + n) (zdrop n (rrest c)).
Proof. unfold read_exact. destruct (Z.leb_spec n (zlen (rrest c))); naive_solver lia. Qed.

#[export] Instance uint_canon n : CodecCanon (uint n).
Proof.
  intros cur a cur'. cbn. unfold read_uint. rewrite bind_read_Ok.
  intros (b & c1 & Hb & Ha). unfold mret, reader_ret in Ha. simplify_eq.
  apply read_exact_Ok in Hb as (Hl & -> & ->). cbn [rrest rpos].
  set (b := ztake _ _).
  assert (length b = n) as Hn.
  { subst b. pose proof (zlen_ztake (Z.of_nat n) (rrest cur)). unfold zlen in *. lia. }
  assert (le_enc n (le_dec b) = b) as -> by (by rewrite <-Hn, le_enc_dec).
  split_and!.
  - apply uint_wf_in. unfold in_u. pose proof (le_dec_range b) as Hr. unfold zlen in Hr.
    rewrite Hn in Hr. replace 256%Z with (2 ^ 8)%Z in Hr by done.
    by rewrite <-Z.pow_mul_r in Hr by lia.
  - subst b. by rewrite ztake_zdrop.
  - unfold zlen. by rewrite Hn.
Qed.
#[export] Instance u8_canon : CodecCanon u8 := uint_canon 1.
#[export] Instance u16_canon : CodecCanon u16 := uint_canon 2.
#[export] Instance u32_canon : CodecCanon u32 := uint_canon 4.
#[export] Instance u64_canon : CodecCanon u64 := uint_canon 8.

Lemma u64_wf_range z : c_wf u64 z = true → (0 ≤ z ≤ u64_max)%Z.
Proof. intros Hz. apply (uint_wf_in 8) in Hz as [??]. unfold u64_max. lia. Qed.
Lemma u32_wf_range z : c_wf u32 z = true → (0 ≤ z ≤ u32_max)%Z.
Proof. intros Hz. apply (uint_wf_in 4) in Hz as [??]. unfold u32_max. lia. Qed.

#[export] Instance rstr_canon : CodecCanon rstr.
Proof.
  intros cur s cur'. cbn [c_read c_wf c_enc rstr]. unfold parse_string.
  rewrite bind_read_Ok. intros (len & c1 & Hlen & Hs).
  apply (codec_canon (c:=u32)) in Hlen as (Hw & He & Hp).
  apply bind_read_Ok in Hs as (b & c2 & Hb & Hs). apply read_exact_Ok in Hb as (Hl & -> & ->).
  destruct (utf8_valid _) eqn:Hu; [|done]. unfold mret, reader_ret in Hs. simplify_eq.
  pose proof (u32_wf_range _ Hw) as Hr. unfold u32_max in Hr.
  assert (zlen (ztake len (rrest c1)) = len) as Hz by zlia.
  cbn [rrest rpos]. unfold string_enc. rewrite Hz. split_and!.
  - apply string_wf_iff. split; [done|]. unfold in_u. lia.
  - by rewrite <-app_assoc, ztake_zdrop.
  - rewrite Hp, zlen_app, Hz. cbn [c_enc u32 uint]. lia.
Qed.

#[export] Instance pair_canon {A B} (ca : codec A) (cb : codec B) :
  CodecCanon ca → CodecCanon cb → CodecCanon (pair ca cb).
Proof.
  intros Ha Hb cur [a b] cur'. cbn. rewrite bind_read_Ok. intros (a' & c1 & Hra & Hr).
  apply bind_read_Ok in Hr as (b' & c2 & Hrb & Hr). unfold mret, reader_ret in Hr. simplify_eq.
  apply Ha in Hra as (Wa & Ea & Pa). apply Hb in Hrb as (Wb & Eb & Pb).
  rewrite Wa, Wb, Ea, Eb, Pb, Pa, <-app_assoc, zlen_app. split_and!; [done..|lia].
Qed.

Lemma struct_canon {A B} (ca : codec A) mk (fields : B → A) :
  CodecCanon ca → (∀ a, fields (mk a) = a) → CodecCanon (struct ca mk fields).
Proof.
  intros Ha Hm cur b cur'. cbn. rewrite bind_read_Ok. intros (a & c1 & Hr & Hb).
  unfold mret, reader_ret in Hb. simplify_eq. apply Ha in Hr. by rewrite Hm.
Qed.

#[global] Arguments u8 : simpl never.
#[global] Arguments u16 : simpl never.
#[global] Arguments u32 : simpl never.
#[global] Arguments u64 : simpl never.
#[global] Arguments rstr : simpl never.
#[global] Arguments string_map : simpl never.
#[global] Arguments int_map : simpl never.

Lemma zlen_u8 z : zlen (c_enc u8 z) = 1%Z.
Proof. apply (zlen_le_enc 1). Qed.
Lemma zlen_u16 z : zlen (c_enc u16 z) = 2%Z.
Proof. apply (zlen_le_enc 2). Qed.
Lemma zlen_u32 z : zlen (c_enc u32 z) = 4%Z.
Proof. apply (zlen_le_enc 4). Qed.
Lemma zlen_u64 z : zlen (c_enc u64 z) = 8%Z.
Proof. apply (zlen_le_enc 8). Qed.
Lemma zlen_rstr s : zlen (c_enc rstr s) = (4 + zlen s)%Z.
Proof. cbn. unfold rstr, c_enc, string_enc. zlia. Qed.
#[export] Hint Rewrite zlen_u8 zlen_u16 zlen_u32 zlen_u64 zlen_rstr : zlen.
