(* ===== verification/Records.v ===== *)
(** The records of an MCAP file (records.rs).

    One [Record] per struct, with the fields in declaration order, and its codec:
    the implementations [binrw] derives read and write those fields in that order,
    little-endian ([read_le], [write_le]), a string or a map through the helper its
    attribute names.  Integers are [Z]; the values a field can hold are those its
    codec's [c_wf] accepts. *)

From S2P Require Import Prelude Utf8 BTree Errors Bin.

(** Opcodes. *)
Module op.
Definition HEADER : Z := 1.
Definition FOOTER : Z := 2.
Definition SCHEMA : Z := 3.
Definition CHANNEL : Z := 4.
Definition MESSAGE : Z := 5.
Definition CHUNK : Z := 6.
Definition MESSAGE_INDEX : Z := 7.
Definition CHUNK_INDEX : Z := 8.
Definition ATTACHMENT : Z := 9.
Definition ATTACHMENT_INDEX : Z := 10.
Definition STATISTICS : Z := 11.
Definition METADATA : Z := 12.
Definition METADATA_INDEX : Z := 13.
Definition SUMMARY_OFFSET : Z := 14.
Definition DATA_END : Z := 15.
End op.

(** ** Header *)

Record Header := mkHeader {
  h_profile : rstring;
  h_library : rstring;
}.
Definition Header_codec : codec Header :=
  struct (rstr ⊗ rstr)
    (λ '(p, l), mkHeader p l)
    (λ h, (h_profile h, h_library h)).

(** ** Footer *)

Record Footer := mkFooter {
  f_summary_start : Z;
  f_summary_offset_start : Z;
  f_summary_crc : Z;
}.
Definition Footer_codec : codec Footer :=
  struct (u64 ⊗ u64 ⊗ u32)
    (λ '(s, o, c), mkFooter s o c)
    (λ f, (f_summary_start f, f_summary_offset_start f, f_summary_crc f)).

(** ** Schema *)

Record SchemaHeader := mkSchemaHeader {
  sh_id : Z;
  sh_name : rstring;
  sh_encoding : rstring;
}.
Definition SchemaHeader_codec : codec SchemaHeader :=
  struct (u16 ⊗ rstr ⊗ rstr)
    (λ '(i, n, e), mkSchemaHeader i n e)
    (λ h, (sh_id h, sh_name h, sh_encoding h)).

(** ** Channel *)

Record ChannelRecord := mkChannelRecord {
  c_id : Z;
  c_schema_id : Z;
  c_topic : rstring;
  c_message_encoding : rstring;
  c_metadata : list (rstring * rstring);
}.
Definition Channel_codec : codec ChannelRecord :=
  struct (u16 ⊗ u16 ⊗ rstr ⊗ rstr ⊗ string_map)
    (λ '(i, s, t, e, m), mkChannelRecord i s t e m)
    (λ c, (c_id c, c_schema_id c, c_topic c, c_message_encoding c, c_metadata c)).

(** ** Message *)

Record MessageHeader := mkMessageHeader {
  m_channel_id : Z;
  m_sequence : Z;
  m_log_time : Z;
  m_publish_time : Z;
}.
Definition MessageHeader_codec : codec MessageHeader :=
  struct (u16 ⊗ u32 ⊗ u64 ⊗ u64)
    (λ '(c, s, l, p), mkMessageHeader c s l p)
    (λ m, (m_channel_id m, m_sequence m, m_log_time m, m_publish_time m)).

(** [MessageHeader::serialized_len] *)
Definition MessageHeader_serialized_len (m : MessageHeader) : Z := 2 + 4 + 8 + 8.

(** ** Chunk *)

Record ChunkHeader := mkChunkHeader {
  ch_message_start_time : Z;
  ch_message_end_time : Z;
  ch_uncompressed_size : Z;
  ch_uncompressed_crc : Z;
  ch_compression : rstring;
  ch_compressed_size : Z;
}.
Definition ChunkHeader_codec : codec ChunkHeader :=
  struct (u64 ⊗ u64 ⊗ u64 ⊗ u32 ⊗ rstr ⊗ u64)
    (λ '(s, e, u, c, n, z), mkChunkHeader s e u c n z)
    (λ h, (ch_message_start_time h, ch_message_end_time h, ch_uncompressed_size h,
           ch_uncompressed_crc h, ch_compression h, ch_compressed_size h)).

(** ** Message index *)

Record MessageIndexEntry := mkMessageIndexEntry {
  mie_log_time : Z;
  mie_offset : Z;
}.
Definition MessageIndexEntry_codec : codec MessageIndexEntry :=
  struct (u64 ⊗ u64)
    (λ '(l, o), mkMessageIndexEntry l o)
    (λ e, (mie_log_time e, mie_offset e)).

Record MessageIndex := mkMessageIndex {
  mi_channel_id : Z;
  mi_records : list MessageIndexEntry;
}.
Definition MessageIndex_codec : codec MessageIndex :=
  struct (u16 ⊗ vec MessageIndexEntry_codec)
    (λ '(c, r), mkMessageIndex c r)
    (λ m, (mi_channel_id m, mi_records m)).

(** ** Chunk index *)

Record ChunkIndex := mkChunkIndex {
  ci_message_start_time : Z;
  ci_message_end_time : Z;
  ci_chunk_start_offset : Z;
  ci_chunk_length : Z;
  ci_message_index_offsets : list (Z * Z);
  ci_message_index_length : Z;
  ci_compression : rstring;
  ci_compressed_size : Z;
  ci_uncompressed_size : Z;
}.
Definition ChunkIndex_codec : codec ChunkIndex :=
  struct (u64 ⊗ u64 ⊗ u64 ⊗ u64 ⊗ int_map ⊗ u64 ⊗ rstr ⊗ u64 ⊗ u64)
    (λ '(s, e, o, l, m, ml, n, c, u), mkChunkIndex s e o l m ml n c u)
    (λ i, (ci_message_start_time i, ci_message_end_time i, ci_chunk_start_offset i,
           ci_chunk_length i, ci_message_index_offsets i, ci_message_index_length i,
           ci_compression i, ci_compressed_size i, ci_uncompressed_size i)).

(** [ChunkIndex::compressed_data_offset] *)
Definition compressed_data_offset (i : ChunkIndex) : McapResult Z :=
  ok_or (BadChunkStartOffset (ci_chunk_start_offset i))
    (checked_add u64_max (ci_chunk_start_offset i)
       (1 + 8 + 8 + 8 + 8 + 4 + 4 + zlen (ci_compression i) + 8)).

(** ** Attachment *)

Record AttachmentHeader := mkAttachmentHeader {
  ah_log_time : Z;
  ah_create_time : Z;
  ah_name : rstring;
  ah_media_type : rstring;
}.
Definition AttachmentHeader_codec : codec AttachmentHeader :=
  struct (u64 ⊗ u64 ⊗ rstr ⊗ rstr)
    (λ '(l, c, n, m), mkAttachmentHeader l c n m)
    (λ h, (ah_log_time h, ah_create_time h, ah_name h, ah_media_type h)).

Record AttachmentIndex := mkAttachmentIndex {
  ai_offset : Z;
  ai_length : Z;
  ai_log_time : Z;
  ai_create_time : Z;
  ai_data_size : Z;
  ai_name : rstring;
  ai_media_type : rstring;
}.
Definition AttachmentIndex_codec : codec AttachmentIndex :=
  struct (u64 ⊗ u64 ⊗ u64 ⊗ u64 ⊗ u64 ⊗ rstr ⊗ rstr)
    (λ '(o, l, lt, ct, d, n, m), mkAttachmentIndex o l lt ct d n m)
    (λ i, (ai_offset i, ai_length i, ai_log_time i, ai_create_time i, ai_data_size i,
           ai_name i, ai_media_type i)).

(** ** Statistics *)

Record Statistics := mkStatistics {
  st_message_count : Z;
  st_schema_count : Z;
  st_channel_count : Z;
  st_attachment_count : Z;
  st_metadata_count : Z;
  st_chunk_count : Z;
  st_message_start_time : Z;
  st_message_end_time : Z;
  st_channel_message_counts : list (Z * Z);
}.
Definition Statistics_codec : codec Statistics :=
  struct (u64 ⊗ u16 ⊗ u32 ⊗ u32 ⊗ u32 ⊗ u32 ⊗ u64 ⊗ u64 ⊗ int_map)
    (λ '(m, s, c, a, d, k, b, e, n), mkStatistics m s c a d k b e n)
    (λ s, (st_message_count s, st_schema_count s, st_channel_count s, st_attachment_count s,
           st_metadata_count s, st_chunk_count s, st_message_start_time s,
           st_message_end_time s, st_channel_message_counts s)).

(** ** Metadata *)

Record Metadata := mkMetadata {
  md_name : rstring;
  md_metadata : list (rstring * rstring);
}.
Definition Metadata_codec : codec Metadata :=
  struct (rstr ⊗ string_map)
    (λ '(n, m), mkMetadata n m)
    (λ m, (md_name m, md_metadata m)).

Record MetadataIndex := mkMetadataIndex {
  mx_offset : Z;
  mx_length : Z;
  mx_name : rstring;
}.
Definition MetadataIndex_codec : codec MetadataIndex :=
  struct (u64 ⊗ u64 ⊗ rstr)
    (λ '(o, l, n), mkMetadataIndex o l n)
    (λ m, (mx_offset m, mx_length m, mx_name m)).

(** ** Summary offset, data end *)

Record SummaryOffset := mkSummaryOffset {
  so_group_opcode : Z;
  so_group_start : Z;
  so_group_length : Z;
}.
Definition SummaryOffset_codec : codec SummaryOffset :=
  struct (u8 ⊗ u64 ⊗ u64)
    (λ '(o, s, l), mkSummaryOffset o s l)
    (λ o, (so_group_opcode o, so_group_start o, so_group_length o)).

Record DataEnd := mkDataEnd {
  de_data_section_crc : Z;
}.
Definition DataEnd_codec : codec DataEnd :=
  struct u32 mkDataEnd de_data_section_crc.

(** ** Records *)

(** [enum Record]; the data of a [Cow] is its bytes. *)
Inductive record :=
| RHeader (h : Header)
| RFooter (f : Footer)
| RSchema (header : SchemaHeader) (data : bytes)
| RChannel (c : ChannelRecord)
| RMessage (header : MessageHeader) (data : bytes)
| RChunk (header : ChunkHeader) (data : bytes)
| RMessageIndex (m : MessageIndex)
| RChunkIndex (c : ChunkIndex)
| RAttachment (header : AttachmentHeader) (data : bytes) (crc : Z)
| RAttachmentIndex (a : AttachmentIndex)
| RStatistics (s : Statistics)
| RMetadata (m : Metadata)
| RMetadataIndex (m : MetadataIndex)
| RSummaryOffset (s : SummaryOffset)
| RDataEnd (d : DataEnd)
| RUnknown (opcode : Z) (data : bytes).

(** [Record::opcode] *)
Definition record_opcode (r : record) : Z :=
  match r with
  | RHeader _ => op.HEADER
  | RFooter _ => op.FOOTER
  | RSchema _ _ => op.SCHEMA
  | RChannel _ => op.CHANNEL
  | RMessage _ _ => op.MESSAGE
  | RChunk _ _ => op.CHUNK
  | RMessageIndex _ => op.MESSAGE_INDEX
  | RChunkIndex _ => op.CHUNK_INDEX
  | RAttachment _ _ _ => op.ATTACHMENT
  | RAttachmentIndex _ => op.ATTACHMENT_INDEX
  | RStatistics _ => op.STATISTICS
  | RMetadata _ => op.METADATA
  | RMetadataIndex _ => op.METADATA_INDEX
  | RSummaryOffset _ => op.SUMMARY_OFFSET
  | RDataEnd _ => op.DATA_END
  | RUnknown opcode _ => opcode
  end.

(** ** The codecs keep their promises *)

Ltac solve_codec := apply struct_ok; [typeclasses eauto with typeclass_instances | by intros []].

#[export] Instance Header_ok : CodecOk Header_codec.
Proof. solve_codec. Qed.
#[export] Instance Footer_ok : CodecOk Footer_codec.
Proof. solve_codec. Qed.
#[export] Instance SchemaHeader_ok : CodecOk SchemaHeader_codec.
Proof. solve_codec. Qed.
#[export] Instance Channel_ok : CodecOk Channel_codec.
Proof. solve_codec. Qed.
#[export] Instance MessageHeader_ok : CodecOk MessageHeader_codec.
Proof. solve_codec. Qed.
#[export] Instance ChunkHeader_ok : CodecOk ChunkHeader_codec.
Proof. solve_codec. Qed.
#[export] Instance MessageIndexEntry_ok : CodecOk MessageIndexEntry_codec.
Proof. solve_codec. Qed.
#[export] Instance message_index_vec_ok : CodecOk (vec MessageIndexEntry_codec).
Proof.
  apply vec_ok; [apply _|]. intros t _. cbn. zlia.
Qed.
#[export] Instance MessageIndex_ok : CodecOk MessageIndex_codec.
Proof. solve_codec. Qed.
#[export] Instance ChunkIndex_ok : CodecOk ChunkIndex_codec.
Proof. solve_codec. Qed.
#[export] Instance AttachmentHeader_ok : CodecOk AttachmentHeader_codec.
Proof. solve_codec. Qed.
#[export] Instance AttachmentIndex_ok : CodecOk AttachmentIndex_codec.
Proof. solve_codec. Qed.
#[export] Instance Statistics_ok : CodecOk Statistics_codec.
Proof. solve_codec. Qed.
#[export] Instance Metadata_ok : CodecOk Metadata_codec.
Proof. solve_codec. Qed.
#[export] Instance MetadataIndex_ok : CodecOk MetadataIndex_codec.
Proof. solve_codec. Qed.
#[export] Instance SummaryOffset_ok : CodecOk SummaryOffset_codec.
Proof. solve_codec. Qed.
#[export] Instance DataEnd_ok : CodecOk DataEnd_codec.
Proof. solve_codec. Qed.

(** The size of a message header on the wire is what [serialized_len] says. *)
Lemma MessageHeader_enc_len m :
  zlen (c_enc MessageHeader_codec m) = MessageHeader_serialized_len m.
Proof. destruct m. cbn. unfold MessageHeader_serialized_len. zlia. Qed.

(** Every reader ends without panicking. *)
#[export] Instance message_index_vec_total : CodecTotal (vec MessageIndexEntry_codec) 4.
Proof. eapply vec_total; [apply _|lia]. Qed.
(** Records have decidable equality ([derive(PartialEq, Eq)]). *)
#[export] Instance Header_eq_dec : EqDecision Header.
Proof. solve_decision. Defined.
#[export] Instance Footer_eq_dec : EqDecision Footer.
Proof. solve_decision. Defined.
#[export] Instance SchemaHeader_eq_dec : EqDecision SchemaHeader.
Proof. solve_decision. Defined.
#[export] Instance ChannelRecord_eq_dec : EqDecision ChannelRecord.
Proof. solve_decision. Defined.
#[export] Instance MessageHeader_eq_dec : EqDecision MessageHeader.
Proof. solve_decision. Defined.
#[export] Instance ChunkHeader_eq_dec : EqDecision ChunkHeader.
Proof. solve_decision. Defined.
#[export] Instance MessageIndexEntry_eq_dec : EqDecision MessageIndexEntry.
Proof. solve_decision. Defined.
#[export] Instance MessageIndex_eq_dec : EqDecision MessageIndex.
Proof. solve_decision. Defined.
#[export] Instance ChunkIndex_eq_dec : EqDecision ChunkIndex.
Proof. solve_decision. Defined.
#[export] Instance AttachmentHeader_eq_dec : EqDecision AttachmentHeader.
Proof. solve_decision. Defined.
#[export] Instance AttachmentIndex_eq_dec : EqDecision AttachmentIndex.
Proof. solve_decision. Defined.
#[export] Instance Statistics_eq_dec : EqDecision Statistics.
Proof. solve_decision. Defined.
#[export] Instance Metadata_eq_dec : EqDecision Metadata.
Proof. solve_decision. Defined.
#[export] Instance MetadataIndex_eq_dec : EqDecision MetadataIndex.
Proof. solve_decision. Defined.
#[export] Instance SummaryOffset_eq_dec : EqDecision SummaryOffset.
Proof. solve_decision. Defined.
#[export] Instance DataEnd_eq_dec : EqDecision DataEnd.
Proof. solve_decision. Defined.
#[export] Instance record_eq_dec : EqDecision record.
Proof. solve_decision. Defined.

(** The records without a sequence or a map are canonical. *)
Ltac solve_canon :=
  apply struct_canon; [typeclasses eauto with typeclass_instances
                      | intros a; repeat match goal with x : (_ * _)%type |- _ => destruct x end; done].

#[export] Instance Header_canon : CodecCanon Header_codec.
Proof. solve_canon. Qed.
#[export] Instance Footer_canon : CodecCanon Footer_codec.
Proof. solve_canon. Qed.
#[export] Instance SchemaHeader_canon : CodecCanon SchemaHeader_codec.
Proof. solve_canon. Qed.
#[export] Instance MessageHeader_canon : CodecCanon MessageHeader_codec.
Proof. solve_canon. Qed.
#[export] Instance ChunkHeader_canon : CodecCanon ChunkHeader_codec.
Proof. solve_canon. Qed.
#[export] Instance AttachmentHeader_canon : CodecCanon AttachmentHeader_codec.
Proof. solve_canon. Qed.
#[export] Instance AttachmentIndex_canon : CodecCanon AttachmentIndex_codec.
Proof. solve_canon. Qed.
#[export] Instance MetadataIndex_canon : CodecCanon MetadataIndex_codec.
Proof. solve_canon. Qed.
#[export] Instance SummaryOffset_canon : CodecCanon SummaryOffset_codec.
Proof. solve_canon. Qed.
#[export] Instance DataEnd_canon : CodecCanon DataEnd_codec.
Proof. solve_canon. Qed.
