(* ===== verification/Crc.v ===== *)
(** CRC-32.

    The checksums come from the [crc32fast] crate, an interface here: the
    operations of its [Hasher] and the laws its documentation gives them.  One
    instance at the end keeps the bytes it was given and runs the bitwise CRC-32
    over them when finalized; the examples of the development use it.  Another starts from
    any checksum. *)

From S2P Require Import Prelude.

(** [crc32fast::Hasher] *)
Class Crc := {
  hasher : Type;
  hasher_new : hasher;
  hasher_update : hasher → bytes → hasher;
  hasher_finalize : hasher → Z;
  hasher_combine : hasher → hasher → hasher;
}.

(** Hashing is streaming, a checksum is a [u32], and combining with the hasher of
    the block of bytes that follows is hashing that block. *)
Class CrcLaws `{Crc} : Prop := {
  hasher_update_nil h : hasher_update h [] = h;
  hasher_update_app h a b : hasher_update (hasher_update h a) b = hasher_update h (a ++ b);
  hasher_finalize_u32 h : in_u 32 (hasher_finalize h);
  hasher_combine_spec h b : hasher_combine h (hasher_update hasher_new b) = hasher_update h b;
}.

(** [crc32fast::hash] *)
Definition crc32 `{Crc} (b : bytes) : Z := hasher_finalize (hasher_update hasher_new b).

Lemma crc32_u32 `{CrcLaws} b : in_u 32 (crc32 b).
Proof. apply hasher_finalize_u32. Qed.

(** [Hasher::new_with_initial]: a hasher that goes on from a checksum as the one that came
    to it would have. *)
Class CrcInit `{Crc} := hasher_new_with_initial : Z → hasher.
Class CrcInitLaws `{CrcInit} : Prop :=
  hasher_initial_spec h b :
    hasher_finalize (hasher_update (hasher_new_with_initial (hasher_finalize h)) b) = hasher_finalize (hasher_update h b).

(** ** Instances *)

Module BitCrc.
Definition bit_step (c : Z) : Z :=
  if Z.odd c then Z.lxor (Z.shiftr c 1) 3988292384%Z else Z.shiftr c 1.
Definition byte_step (c : Z) (b : byte) : Z :=
  Nat.iter 8 bit_step (Z.lxor c (byte_to_Z b)).
Definition crc (l : bytes) : Z :=
  (Z.lxor (foldl byte_step 4294967295 l) 4294967295 `mod` 2 ^ 32)%Z.

#[export] Instance crc_ops : Crc := {|
  hasher := bytes;
  hasher_new := [];
  hasher_update := app;
  hasher_finalize := crc;
  hasher_combine := app;
|}.

#[export] Instance crc_laws : CrcLaws.
Proof.
  split; cbn.
  - apply app_nil_r.
  - intros. by rewrite app_assoc.
  - intros. by apply Z.mod_pos_bound.
  - done.
Qed.

(** The check value of CRC-32/ISO-HDLC. *)
Example crc_check : crc32 (lit "123456789") = 3421780262%Z.
Proof. vm_compute. reflexivity. Qed.
End BitCrc.

(** The same, from a register on. *)
Module InitCrc.
Import BitCrc.
Definition xor_out (c : Z) : Z := Z.lxor c 4294967295.
(** Where the register starts, and the bytes after that. *)
Definition state : Type := Z * bytes.
Definition register (h : state) : Z := foldl byte_step (h.1 `mod` 2 ^ 32)%Z h.2.

#[export] Instance crc_ops : Crc := {|
  hasher := state;
  hasher_new := (4294967295%Z, []);
  hasher_update := λ h b, (h.1, h.2 ++ b);
  hasher_finalize := λ h, xor_out (register h);
  hasher_combine := λ h k, (h.1, h.2 ++ k.2);
|}.
#[export] Instance crc_init : CrcInit := λ crc, (xor_out crc, []).

(** Numbers of 32 bits are closed under what the register goes through. *)
Lemma in_32 z : in_u 32 z ↔ z = Z.land z (Z.ones 32).
Proof.
  unfold in_u. rewrite Z.land_ones by lia. split; [intros; by rewrite Z.mod_small|]. intros ->. by apply Z.mod_pos_bound.
Qed.
Lemma in_32_lxor a b : in_u 32 a → in_u 32 b → in_u 32 (Z.lxor a b).
Proof.
  rewrite !in_32. intros Ha Hb. rewrite Ha, Hb at 1. apply Z.bits_inj'. intros n Hn.
  rewrite Z.land_spec, !Z.lxor_spec, !Z.land_spec. by destruct (Z.testbit a n), (Z.testbit b n), (Z.testbit (Z.ones 32) n).
Qed.
Lemma bit_step_32 c : in_u 32 c → in_u 32 (bit_step c).
Proof.
  intros Hc. unfold bit_step. assert (in_u 32 (Z.shiftr c 1)) as Hs.
  { unfold in_u in *. rewrite Z.shiftr_div_pow2 by lia. split; [apply Z.div_pos; lia|]. apply Z.div_lt_upper_bound; lia. }
  destruct (Z.odd c); [|done]. apply in_32_lxor; [done|]. by split.
Qed.
Lemma byte_step_32 c b : in_u 32 c → in_u 32 (byte_step c b).
Proof.
  intros Hc. unfold byte_step. assert (in_u 32 (Z.lxor c (byte_to_Z b))) as Hx.
  { apply in_32_lxor; [done|]. pose proof (byte_to_Z_range b). unfold in_u. lia. }
  revert Hx. generalize (Z.lxor c (byte_to_Z b)). intros x Hx. cbn. by repeat apply bit_step_32.
Qed.
Lemma register_32 h : in_u 32 (register h).
Proof.
  unfold register. assert (in_u 32 (h.1 `mod` 2 ^ 32)%Z) as Hs by by apply Z.mod_pos_bound.
  revert Hs. generalize (h.1 `mod` 2 ^ 32)%Z. induction h.2 as [|b l IH]; intros c Hc; [done|]. cbn. by apply IH, byte_step_32.
Qed.
Lemma xor_out_twice c : xor_out (xor_out c) = c.
Proof. unfold xor_out. by rewrite Z.lxor_assoc, Z.lxor_nilpotent, Z.lxor_0_r. Qed.

#[export] Instance crc_laws : CrcLaws.
Proof.
  split.
  - intros [s l]. cbn. by rewrite app_nil_r.
  - intros [s l] a b. cbn. by rewrite app_assoc.
  - intros h. apply in_32_lxor; [apply register_32|]. by split.
  - by intros [s l] b.
Qed.
#[export] Instance crc_init_laws : CrcInitLaws.
Proof.
  intros [s l] b. unfold hasher_new_with_initial, crc_init. cbn. f_equal. rewrite xor_out_twice. unfold register. cbn.
  rewrite Z.mod_small by apply (register_32 (s, l)). by rewrite foldl_app.
Qed.

Example crc_check_from : crc32 (lit "123456789") = 3421780262%Z.
Proof. vm_compute. reflexivity. Qed.
Example crc_check_initial :
  hasher_finalize (hasher_update (hasher_new_with_initial (crc32 (lit "12345"))) (lit "6789")) = 3421780262%Z.
Proof. vm_compute. reflexivity. Qed.
End InitCrc.
