(* ===== verification/Io.v ===== *)
(** What the crate uses of [std::io]: the traits [Write], [Seek] and [Read], [write_all],
    the in-memory [Cursor]; and the crate's two wrappers of a destination,
    [CountingCrcWriter] (io_utils.rs) and [ChunkSink] (chunk_sink.rs). *)

From S2P Require Import Prelude Utf8 Errors Crc.

(** ** The traits *)

(** [SeekFrom], as far as it is used. *)
Inductive SeekFrom := SeekStart (pos : Z) | SeekEnd (offset : Z).

(** [write] returns the count it took of the bytes it was given; a call interrupted
    by a signal is the call made again. *)
Class Write (W : Type) := {
  write : bytes → method W io_error Z;
  flush : method W io_error ();
}.
Class Seek (W : Type) := {
  seek : SeekFrom → method W io_error Z;
  stream_position : method W io_error Z;
}.

(** [write_all]: a write that takes nothing is an error, and any other makes the
    buffer shorter. *)
Fixpoint write_all_loop `{Write W} (fuel : nat) (buf : bytes) : method W io_error () :=
  match buf with
  | [] => mret ()
  | _ =>
      n ← write buf;
      if (n =? 0)%Z then mthrow WriteZeroIo else
      rest ← lift (slice n (zlen buf) buf);
      match fuel with
      | 0 => lift Fuel
      | S fuel => write_all_loop fuel rest
      end
  end.
Definition write_all `{Write W} (buf : bytes) : method W io_error () := write_all_loop (length buf) buf.

(** A method of a part, on the whole. *)
Definition zoom {S T E A} (get : S → T) (set : T → S → S) (m : method T E A) : method S E A := λ s,
  let '(o, t) := m (get s) in (o, set t s).

(** ** Destinations that work *)

(** [rep w c]: the writer has the bytes [c] behind it, and what it is given goes after
    them, up to [cap] bytes in all. *)
Class WriteOk (W : Type) `{Write W} (rep : W → bytes → Prop) (cap : Z) : Prop := {
  write_cap_le : (cap ≤ u64_max)%Z;
  write_ok w c b : rep w c → b ≠ [] → (zlen (c ++ b) ≤ cap)%Z →
    ∃ n w', write b w = (Ok n, w') ∧ (0 < n ≤ zlen b)%Z ∧ rep w' (c ++ ztake n b);
}.
Class FlushOk (W : Type) `{Write W} (rep : W → bytes → Prop) : Prop :=
  flush_ok w c : rep w c → ∃ w', flush w = (Ok (), w') ∧ rep w' c.

(** A writer that knows its position. *)
Class TellOk (W : Type) `{Seek W} (rep : W → bytes → Prop) : Prop :=
  tell_ok w c : rep w c → ∃ w', stream_position w = (Ok (zlen c), w') ∧ rep w' c.

(** [c] with [b] written over it from [p] on. *)
Definition splice (c : bytes) (p : Z) (b : bytes) : bytes := ztake p c ++ b ++ zdrop (p + zlen b) c.

(** [file w c p]: a file with the contents [c], at position [p]. *)
Class FileOk (W : Type) `{Write W, Seek W} (file : W → bytes → Z → Prop) : Prop := {
  file_write w c p b : file w c p → (0 ≤ p ≤ zlen c)%Z → b ≠ [] → (p + zlen b ≤ u64_max)%Z →
    ∃ n w', write b w = (Ok n, w') ∧ (0 < n ≤ zlen b)%Z ∧
      file w' (splice c p (ztake n b)) (p + n)%Z;
  file_flush w c p : file w c p → ∃ w', flush w = (Ok (), w') ∧ file w' c p;
  file_position w c p : file w c p → ∃ w', stream_position w = (Ok p, w') ∧ file w' c p;
  file_seek_start w c p q : file w c p → (0 ≤ q ≤ zlen c)%Z →
    ∃ w', seek (SeekStart q) w = (Ok q, w') ∧ file w' c q;
  file_seek_end w c p : file w c p → ∃ w', seek (SeekEnd 0) w = (Ok (zlen c), w') ∧ file w' c (zlen c);
}.

Lemma write_all_loop_ok `{WriteOk W rep cap} fuel b w c : rep w c → (zlen (c ++ b) ≤ cap)%Z →
  length b ≤ fuel → ∃ w', write_all_loop fuel b w = (Ok (), w') ∧ rep w' (c ++ b).
Proof.
  revert b w c. induction fuel as [|fuel IH]; intros [|x b] w c Hw Hm Hf; cbn in Hf; try lia;
    [exists w; by rewrite app_nil_r..|].
  destruct (write_ok w c (x :: b) Hw ltac:(done) Hm) as (n & w' & E & Hn & Hw').
  cbn [write_all_loop]. unfold mbind at 1, method_bind at 1. rewrite E.
  rewrite (proj2 (Z.eqb_neq _ _)) by lia. unfold mbind at 1, method_bind at 1, lift.
  rewrite slice_tail by lia.
  rewrite <-(ztake_zdrop n (x :: b)) in Hm. rewrite app_assoc in Hm.
  destruct (IH (zdrop n (x :: b)) w' _ Hw' Hm) as (w2 & E2 & Hw2).
  - assert (zlen (zdrop n (x :: b)) = zlen (x :: b) - n)%Z as Hl by zlia. unfold zlen in Hl. cbn in *. lia.
  - exists w2. split; [exact E2|]. by rewrite <-app_assoc, ztake_zdrop in Hw2.
Qed.

Lemma write_all_ok `{WriteOk W rep cap} b w c : rep w c → (zlen (c ++ b) ≤ cap)%Z →
  ∃ w', write_all b w = (Ok (), w') ∧ rep w' (c ++ b).
Proof. intros. by apply write_all_loop_ok. Qed.

(** A file with its position after [c], as if [c] was written over the start of [c0]:
    at the end of the file [c0] is empty. *)
Definition over `{FileOk W file} (c0 : bytes) (w : W) (c : bytes) : Prop :=
  file w (c ++ zdrop (zlen c) c0) (zlen c).
Arguments over {W _ _} file {_} c0 w c.

Lemma splice_over c0 c b : splice (c ++ zdrop (zlen c) c0) (zlen c) b = (c ++ b) ++ zdrop (zlen (c ++ b)) c0.
Proof.
  unfold splice. rewrite ztake_app by done. rewrite !zdrop_drop, <-app_assoc, drop_app. do 2 f_equal.
  zlen_facts. unfold zlen in *. rewrite length_app. rewrite drop_ge by lia. cbn. rewrite drop_drop. f_equal. lia.
Qed.

#[export] Instance over_WriteOk `{FileOk W file} c0 : WriteOk W (over file c0) u64_max.
Proof.
  split; [done|..]; unfold over.
  - intros w c b Hw Hb Hm.
    destruct (file_write w _ (zlen c) b Hw) as (n & w' & E & Hn & Hw'); [zlia|done|zlia|].
    exists n, w'. split_and!; [done|lia..|]. rewrite splice_over in Hw'.
    replace (zlen (c ++ ztake n b)) with (zlen c + n)%Z in * by zlia. done.
Qed.
#[export] Instance over_FlushOk `{FileOk W file} c0 : FlushOk W (over file c0).
Proof. intros w c Hw. by apply file_flush. Qed.

#[export] Instance over_TellOk `{FileOk W file} c0 : TellOk W (over file c0).
Proof. intros w c Hw. by apply file_position. Qed.

Lemma over_nil `{FileOk W file} w c : over file [] w c ↔ file w c (zlen c).
Proof. unfold over. by rewrite zdrop_drop, drop_nil, app_nil_r. Qed.

(** ** Instances *)

(** [Vec<u8>] *)
#[export] Instance vec_Write : Write bytes := {|
  write := λ b v, (Ok (zlen b), v ++ b);
  flush := λ v, (Ok (), v);
|}.
#[export] Instance vec_WriteOk : WriteOk bytes eq u64_max.
Proof.
  split; [done|..].
  - intros w c b -> Hb _. exists (zlen b), (c ++ b). cbn. rewrite ztake_all by lia. split_and!; try done.
    destruct b; [done|]. zlia.
Qed.
#[export] Instance vec_FlushOk : FlushOk bytes eq.
Proof. intros w c ->. by exists c. Qed.

(** [Cursor<Vec<u8>>] *)
Record VecCursor := mkVecCursor { vc_data : bytes; vc_pos : Z }.
Definition VecCursor_new (v : bytes) : VecCursor := mkVecCursor v 0.

#[export] Instance cursor_Write : Write VecCursor := {|
  write := λ b c,
    let d := vc_data c ++ replicate (Z.to_nat (vc_pos c - zlen (vc_data c))) Byte.x00 in
    (Ok (zlen b), mkVecCursor (splice d (vc_pos c) b) (vc_pos c + zlen b));
  flush := λ c, (Ok (), c);
|}.
#[export] Instance cursor_Seek : Seek VecCursor := {|
  seek := λ to c,
    let pos := match to with SeekStart p => p | SeekEnd d => zlen (vc_data c) + d end%Z in
    if (0 <=? pos)%Z then (Ok pos, mkVecCursor (vc_data c) pos) else (Err InvalidInputIo, c);
  stream_position := λ c, (Ok (vc_pos c), c);
|}.

Definition cursor_file (w : VecCursor) (c : bytes) (p : Z) : Prop := w = mkVecCursor c p.
#[export] Instance cursor_FileOk : FileOk VecCursor cursor_file.
Proof.
  split; unfold cursor_file; intros *.
  - intros -> Hp Hb _. exists (zlen b). cbn [write cursor_Write vc_data vc_pos].
    replace (Z.to_nat _) with 0 by lia. cbn [replicate]. rewrite app_nil_r, ztake_all by lia.
    eexists. split_and!; try done. destruct b; [done|]. zlia.
  - intros ->. by eexists.
  - intros ->. by eexists.
  - intros -> Hq. cbn. rewrite (proj2 (Z.leb_le _ _)) by lia. by eexists.
  - intros ->. cbn. rewrite Z.add_0_r, (proj2 (Z.leb_le _ _)) by apply zlen_nonneg. by eexists.
Qed.

(** ** Reading *)

(** [std::io::Read], or [AsyncReadExt::read] that is awaited: [read(buf)] by the length of [buf], with the bytes that were read; a
    call interrupted by a signal is the call made again. *)
Class Read (R : Type) := read : Z → method R io_error bytes.

#[export] Instance cursor_Read : Read VecCursor := λ n c,
  let b := ztake n (zdrop (vc_pos c) (vc_data c)) in (Ok b, mkVecCursor (vc_data c) (vc_pos c + zlen b)).

(** [read_exact]: at the end of the input it is an error, and any other read makes what is
    left shorter. *)
Fixpoint read_exact_loop `{Read R} (fuel : nat) (n : Z) (buf : bytes) : method R io_error bytes :=
  if (n <=? 0)%Z then mret buf else
  match fuel with
  | 0 => lift Fuel
  | S fuel =>
      b ← read n;
      match b with
      | [] => mthrow UnexpectedEofIo
      | _ => read_exact_loop fuel (n - zlen b) (buf ++ b)
      end
  end.
Definition read_exact `{Read R} (n : Z) : method R io_error bytes := read_exact_loop (Z.to_nat n) n [].

(** What a reader that works does: [rep r b] says that the bytes [b] are
    yet to be read; only when there are none does a read give none. *)
Class ReadOk (R : Type) `{Read R} (rep : R → bytes → Prop) : Prop :=
  read_ok r b n : rep r b → (0 < n)%Z → ∃ d b' r', read n r = (Ok d, r') ∧ b = d ++ b' ∧ (zlen d ≤ n)%Z ∧ (d = [] → b' = []) ∧ rep r' b'.

Definition cursor_rest (c : VecCursor) (b : bytes) : Prop := (0 ≤ vc_pos c)%Z ∧ zdrop (vc_pos c) (vc_data c) = b.
#[export] Instance cursor_ReadOk : ReadOk VecCursor cursor_rest.
Proof.
  intros [data pos] b n [Hp <-] Hn. cbn [vc_pos vc_data] in *. eexists _, (zdrop n (zdrop pos data)), _. split; [reflexivity|].
  cbn [vc_pos vc_data]. split_and!; [by rewrite ztake_zdrop|zlia|..].
  - intros E%(f_equal zlen). apply zlen_zero_nil. zlia.
  - unfold cursor_rest. cbn [vc_pos vc_data]. split; [zlia|]. rewrite !zdrop_drop, drop_drop.
    destruct (decide (n ≤ zlen data - pos)%Z) as [|Hl].
    + f_equal. rewrite <-zdrop_drop. zlia.
    + rewrite !drop_ge; [done|..]; rewrite <-?zdrop_drop; pose proof (zlen_ztake n (zdrop pos data)); pose proof (zlen_zdrop pos data); unfold zlen in *; lia.
Qed.
Lemma cursor_new_rest b : cursor_rest (VecCursor_new b) b.
Proof. split; [done|]. cbn [VecCursor_new vc_pos vc_data]. by apply zdrop_0. Qed.

Section reading.
Context `{ReadOk R rep}.

Lemma read_exact_loop_ok fuel d acc r rest : rep r (d ++ rest) → length d ≤ fuel →
  ∃ r', read_exact_loop fuel (zlen d) acc r = (Ok (acc ++ d), r') ∧ rep r' rest.
Proof.
  revert d acc r. induction fuel as [|fuel IH]; intros [|x d] acc r Hr Hf; cbn in Hf; try lia; cbn [read_exact_loop];
    [exists r; by rewrite app_nil_r..|]. set (l := x :: d) in *.
  assert (0 < zlen l)%Z by (unfold l; rewrite zlen_cons; pose proof (zlen_nonneg d); lia). rewrite (proj2 (Z.leb_gt _ _)) by done.
  destruct (read_ok r (l ++ rest) (zlen l) Hr) as (e & b' & r' & E & Hb & He & Hn & Hr'); [done|]. unfold mbind at 1, method_bind at 1. rewrite E.
  destruct e as [|y e]; [by rewrite (Hn eq_refl) in Hb|]. set (k := y :: e) in *.
  assert (l = k ++ drop (length k) l) as Hl.
  { rewrite <-(take_drop (length k) l) at 1. f_equal. apply (f_equal (take (length k))) in Hb. rewrite take_app_length, take_app_le in Hb; [done|unfold zlen in *; lia]. }
  set (l' := drop (length k) l) in *. assert (zlen l - zlen k = zlen l')%Z as -> by (rewrite Hl, zlen_app; lia).
  assert (b' = l' ++ rest) as -> by (rewrite Hl, <-app_assoc in Hb; by apply app_inv_head in Hb).
  destruct (IH l' (acc ++ k) r' Hr') as (r2 & E2 & Hr2).
  - apply (f_equal length) in Hl. rewrite length_app in Hl. unfold l, k in *. cbn in *. lia.
  - exists r2. split; [|done]. rewrite E2, <-app_assoc. by rewrite <-Hl.
Qed.
Lemma read_exact_ok d r rest : rep r (d ++ rest) → ∃ r', read_exact (zlen d) r = (Ok d, r') ∧ rep r' rest.
Proof. intros Hr. apply (read_exact_loop_ok _ d []); [done|]. unfold zlen. lia. Qed.
End reading.

(** ** [CountingCrcWriter] *)

Section counting.
Context `{Crc} {W : Type}.

Record CountingCrcWriter := mkCountingCrcWriter {
  ccw_inner : W;
  ccw_hasher : option hasher;
  ccw_count : Z;
}.

Definition ccw_new (inner : W) (calculate_crc : bool) : CountingCrcWriter :=
  mkCountingCrcWriter inner (if calculate_crc then Some hasher_new else None) 0.
Definition ccw_with_hasher (inner : W) (h : option hasher) : CountingCrcWriter :=
  mkCountingCrcWriter inner h 0.
(** [finalize] *)
Definition ccw_finalize (s : CountingCrcWriter) : W * option hasher := (ccw_inner s, ccw_hasher s).
(** [current_checksum] *)
Definition current_checksum (s : CountingCrcWriter) : Z := default 0%Z (hasher_finalize <$> ccw_hasher s).

Definition ccw_set_inner (w : W) (s : CountingCrcWriter) : CountingCrcWriter :=
  mkCountingCrcWriter w (ccw_hasher s) (ccw_count s).
(** [get_mut] *)
Definition on_inner {E A} (m : method W E A) : method CountingCrcWriter E A :=
  zoom ccw_inner ccw_set_inner m.

(** The rest of [write], once the inner writer took [res] bytes. *)
Definition ccw_took (buf : bytes) (res : Z) : method CountingCrcWriter io_error Z := λ s,
  match
    count ← add_ u64_max (ccw_count s) res;
    h ← match ccw_hasher s with
        | Some h => taken ← slice 0 res buf; mret (Some (hasher_update h taken))
        | None => mret None
        end;
    mret (mkCountingCrcWriter (ccw_inner s) h count)
  with
  | Ok s => (Ok res, s)
  | Err e => (Err e, s)
  | Panic => (Panic, s)
  | Fuel => (Fuel, s)
  end.

(** [write] *)
Definition ccw_write `{Write W} (buf : bytes) : method CountingCrcWriter io_error Z :=
  res ← on_inner (write buf);
  ccw_took buf res.
#[export] Instance ccw_Write `{Write W} : Write CountingCrcWriter := {|
  write := ccw_write;
  flush := on_inner flush;
|}.
#[export] Instance ccw_Seek `{Seek W} : Seek CountingCrcWriter := {|
  seek := λ to, on_inner (seek to);
  stream_position := on_inner stream_position;
|}.

(** What the wrapper holds after the bytes [d] went through it. *)
Definition counted (h : option hasher) (d : bytes) (s : CountingCrcWriter) : Prop :=
  ccw_count s = zlen d ∧ ccw_hasher s = (λ h, hasher_update h d) <$> h.

Lemma ccw_took_spec `{!CrcLaws} h d buf res s : counted h d s → (0 ≤ res ≤ zlen buf)%Z →
  (zlen d + res ≤ u64_max)%Z →
  ∃ s', ccw_took buf res s = (Ok res, s') ∧ ccw_inner s' = ccw_inner s ∧ counted h (d ++ ztake res buf) s'.
Proof.
  intros [Hc Hh] Hr Hm. unfold ccw_took, counted. rewrite Hc, add_Ok by done. cbn.
  destruct h as [h|]; cbn in Hh; rewrite Hh; cbn.
  - rewrite slice_Ok by lia. rewrite Z.sub_0_r, zdrop_0 by lia. cbn.
    eexists. split_and!; try done; cbn; [zlia|]. by rewrite hasher_update_app.
  - eexists. split_and!; try done. cbn. zlia.
Qed.

(** [c] is all the inner writer has behind it, of which [base] was there before. *)
Definition ccw_rep (rep : W → bytes → Prop) (base : bytes) (h : option hasher)
    (s : CountingCrcWriter) (c : bytes) : Prop :=
  ∃ d, c = base ++ d ∧ rep (ccw_inner s) c ∧ counted h d s.

#[export] Instance ccw_WriteOk `{!CrcLaws} `{Hok : WriteOk W rep cap} base h :
  WriteOk CountingCrcWriter (ccw_rep rep base h) cap.
Proof.
  pose proof (write_cap_le (rep:=rep)) as Hcap. split; [done|..].
  - intros s c b (d & -> & Hr & Hd) Hb Hm.
    destruct (write_ok _ _ b Hr Hb Hm) as (n & w' & E & Hn & Hr').
    destruct (ccw_took_spec h d b n (ccw_set_inner w' s) Hd ltac:(lia)) as (s' & Es & Ei & Hd').
    { zlia. }
    exists n, s'. cbn [write ccw_Write]. unfold ccw_write, on_inner, zoom, mbind, method_bind. rewrite E, Es.
    split_and!; [done|lia..|]. exists (d ++ ztake n b). rewrite Ei. cbn.
    split_and!; [by rewrite app_assoc|done|done].
Qed.
#[export] Instance ccw_FlushOk `{FlushOk W rep} base h : FlushOk CountingCrcWriter (ccw_rep rep base h).
Proof.
  intros s c (d & -> & Hr & Hd). destruct (flush_ok _ _ Hr) as (w' & E & Hr').
  exists (ccw_set_inner w' s). cbn. unfold on_inner, zoom. rewrite E. split; [done|]. by exists d.
Qed.

Lemma ccw_new_rep `{!CrcLaws} (rep : W → bytes → Prop) w c b : rep w c →
  ccw_rep rep c (if b : bool then Some hasher_new else None) (ccw_new w b) c.
Proof.
  intros Hr. exists []. rewrite app_nil_r. split_and!; try done. split; [done|].
  destruct b; cbn; [|done]. by rewrite hasher_update_nil.
Qed.
Lemma ccw_with_hasher_rep `{!CrcLaws} (rep : W → bytes → Prop) w c h : rep w c →
  ccw_rep rep c h (ccw_with_hasher w h) c.
Proof.
  intros Hr. exists []. rewrite app_nil_r. split_and!; try done. split; [done|].
  destruct h; cbn; [|done]. by rewrite hasher_update_nil.
Qed.
#[export] Instance ccw_TellOk `{TellOk W rep} base h : TellOk CountingCrcWriter (ccw_rep rep base h).
Proof.
  intros s c (d & -> & Hr & Hd). destruct (tell_ok _ _ Hr) as (w' & E & Hr').
  exists (ccw_set_inner w' s). cbn. unfold on_inner, zoom. rewrite E. split; [done|]. by exists d.
Qed.
Lemma ccw_set_inner_rep (rep : W → bytes → Prop) w c base h s : ccw_rep rep base h s c → rep w c →
  ccw_rep rep base h (ccw_set_inner w s) c.
Proof. intros (d & -> & _ & Hd) Hr. by exists d. Qed.
End counting.
Arguments CountingCrcWriter {_} W.

(** ** [ChunkSink] *)

(** [ChunkMode] *)
Inductive ChunkMode := Direct | Buffered (buffer : bytes).
Definition ChunkMode_default : ChunkMode := Direct.

Section sink.
Context {W : Type}.

Record ChunkSink := mkChunkSink {
  cks_inner : W;
  cks_buffer : option VecCursor;
}.

Definition ChunkSink_new (writer : W) (mode : ChunkMode) : ChunkSink :=
  mkChunkSink writer
    match mode with
    | Buffered _ => Some (VecCursor_new [])
    | Direct => None
    end.

(** [as_mut_write], [as_mut_seek] *)
Definition on_sink {E A} (on_buffer : method VecCursor E A) (on_file : method W E A) : method ChunkSink E A := λ s,
  match cks_buffer s with
  | Some b => let '(o, b) := on_buffer b in (o, mkChunkSink (cks_inner s) (Some b))
  | None => let '(o, w) := on_file (cks_inner s) in (o, mkChunkSink w None)
  end.

#[export] Instance sink_Write `{Write W} : Write ChunkSink := {|
  write := λ buf, on_sink (write buf) (write buf);
  flush := on_sink flush flush;
|}.
#[export] Instance sink_Seek `{Seek W} : Seek ChunkSink := {|
  seek := λ to, on_sink (seek to) (seek to);
  stream_position := on_sink stream_position stream_position;
|}.

(** [finish]: the writer, and the mode or the error. *)
Definition ChunkSink_finish `{Write W} (s : ChunkSink) : outcome io_error ChunkMode * W :=
  match cks_buffer s with
  | Some b =>
      let '(o, w) := write_all (vc_data b) (cks_inner s) in
      ((λ _, Buffered (vc_data b)) <$> o, w)
  | None => (Ok Direct, cks_inner s)
  end.
End sink.
Arguments ChunkSink W : clear implicits.
