(* ===== verification/Codec.v ===== *)
(** Whole records: [parse_record] (read.rs) and [write_record] (write.rs). *)

From S2P Require Import Prelude Utf8 BTree Errors Bin Records Crc Io.

(** A read through [byteorder] reports an [io::Error]. *)
Definition as_io (e : bin_error) : McapError :=
  match e with BinIo e => Io e | e => Parse e end.

(** [cur.read_le()?] *)
Definition read_le {A} (c : codec A) (cur : rcursor) : McapResult (A * rcursor) :=
  map_err Parse (c_read c cur).

(** The [record!] macro: the record at the start of [body]. *)
Definition read_record {A} (c : codec A) (body : bytes) : McapResult A :=
  fst <$> read_le c (rcursor_new body).

Section parse.
Context `{Crc}.

Definition parse_schema (body : bytes) : McapResult record :=
  '(header, c) ← read_le SchemaHeader_codec (rcursor_new body);
  '(data_len, c) ← map_err as_io (c_read u32 c);
  data ← slice (rpos c) (zlen body) body;
  if (as_u32 (zlen data) <? data_len)%Z
  then mthrow (BadSchemaLength data_len (as_u32 (zlen data)))
  else data ← slice 0 data_len data; mret (RSchema header data).

Definition parse_message (body : bytes) : McapResult record :=
  '(header, c) ← read_le MessageHeader_codec (rcursor_new body);
  data ← slice (rpos c) (zlen body) body;
  mret (RMessage header data).

Definition parse_chunk (body : bytes) : McapResult record :=
  '(header, c) ← read_le ChunkHeader_codec (rcursor_new body);
  data ← slice (rpos c) (zlen body) body;
  if (zlen data <? ch_compressed_size header)%Z
  then mthrow (BadChunkLength (ch_compressed_size header) (zlen data))
  else data ← slice 0 (ch_compressed_size header) data; mret (RChunk header data).

Definition parse_attachment (body : bytes) : McapResult record :=
  '(header, c) ← read_le AttachmentHeader_codec (rcursor_new body);
  '(data_len, c) ← map_err as_io (c_read u64 c);
  let header_len := rpos c in
  data_end ← sub_ (zlen body) 4;
  data ← slice header_len data_end body;
  if (zlen data <? data_len)%Z
  then mthrow (BadAttachmentLength data_len (zlen data))
  else
    data ← slice 0 data_len data;
    tail ← slice (header_len + zlen data) (zlen body) body;
    '(crc, _) ← read_le u32 (rcursor_new tail);
    if (crc =? 0)%Z then mret (RAttachment header data crc) else
    hashed ← slice 0 (header_len + zlen data) body;
    let calculated := crc32 hashed in
    if (crc =? calculated)%Z then mret (RAttachment header data crc)
    else mthrow (BadAttachmentCrc crc calculated).

(** [parse_record] *)
Definition parse_record (opcode : Z) (body : bytes) : McapResult record :=
  if (opcode =? op.HEADER)%Z then RHeader <$> read_record Header_codec body
  else if (opcode =? op.FOOTER)%Z then RFooter <$> read_record Footer_codec body
  else if (opcode =? op.SCHEMA)%Z then parse_schema body
  else if (opcode =? op.CHANNEL)%Z then RChannel <$> read_record Channel_codec body
  else if (opcode =? op.MESSAGE)%Z then parse_message body
  else if (opcode =? op.CHUNK)%Z then parse_chunk body
  else if (opcode =? op.MESSAGE_INDEX)%Z then RMessageIndex <$> read_record MessageIndex_codec body
  else if (opcode =? op.CHUNK_INDEX)%Z then RChunkIndex <$> read_record ChunkIndex_codec body
  else if (opcode =? op.ATTACHMENT)%Z then parse_attachment body
  else if (opcode =? op.ATTACHMENT_INDEX)%Z then RAttachmentIndex <$> read_record AttachmentIndex_codec body
  else if (opcode =? op.STATISTICS)%Z then RStatistics <$> read_record Statistics_codec body
  else if (opcode =? op.METADATA)%Z then RMetadata <$> read_record Metadata_codec body
  else if (opcode =? op.METADATA_INDEX)%Z then RMetadataIndex <$> read_record MetadataIndex_codec body
  else if (opcode =? op.SUMMARY_OFFSET)%Z then RSummaryOffset <$> read_record SummaryOffset_codec body
  else if (opcode =? op.DATA_END)%Z then RDataEnd <$> read_record DataEnd_codec body
  else mret (RUnknown opcode body).
End parse.

(** ** Writing *)

Section write.
Context {W : Type} `{Write W}.

(** [op_and_len] *)
Definition op_and_len (opcode len : Z) : method W io_error () :=
  _ ← write_all (le_enc 1 opcode);
  write_all (le_enc 8 len).

(** [Cursor::new(&mut buf).write_le(b).unwrap()] on an empty [buf]. *)
Definition to_buf {A} (c : codec A) (a : A) : outcome io_error bytes :=
  match c_write c a (WCursor [] 0) with
  | Ok w => Ok (wdata w)
  | Err _ => Panic
  | Panic => Panic
  | Fuel => Fuel
  end.

(** The [record!] macro of [write_record]. *)
Definition write_buffered {A} (opcode : Z) (c : codec A) (a : A) : method W io_error () :=
  rec_buf ← lift (to_buf c a);
  _ ← op_and_len opcode (zlen rec_buf);
  write_all rec_buf.

(** [io::Error::other] *)
Definition io_other {A} (m : method W io_error A) : method W io_error A := λ w,
  let '(o, w) := m w in (map_err (λ _, OtherIo 0) o, w).

(** [NoSeek::new(&mut w).write_le(header)]: the fields go straight to [w]. *)
Definition write_message_header (m : MessageHeader) : method W io_error () :=
  _ ← write_all (le_enc 2 (m_channel_id m));
  _ ← write_all (le_enc 4 (m_sequence m));
  _ ← write_all (le_enc 8 (m_log_time m));
  write_all (le_enc 8 (m_publish_time m)).

(** [write_record] *)
Definition write_record (r : record) : method W io_error () :=
  match r with
  | RHeader h => write_buffered op.HEADER Header_codec h
  | RFooter _ => lift Panic
  | RSchema header data =>
      header_buf ← lift (to_buf SchemaHeader_codec header);
      _ ← op_and_len op.SCHEMA (as_u64 (zlen header_buf + 4 + zlen data));
      _ ← write_all header_buf;
      _ ← write_all (le_enc 4 (as_u32 (zlen data)));
      write_all data
  | RChannel c => write_buffered op.CHANNEL Channel_codec c
  | RMessage header data =>
      let header_len := MessageHeader_serialized_len header in
      _ ← op_and_len op.MESSAGE (header_len + as_u64 (zlen data));
      _ ← io_other (write_message_header header);
      write_all data
  | RChunk _ _ => lift Panic
  | RMessageIndex _ => lift Panic
  | RChunkIndex c => write_buffered op.CHUNK_INDEX ChunkIndex_codec c
  | RAttachment _ _ _ => lift Panic
  | RAttachmentIndex a => write_buffered op.ATTACHMENT_INDEX AttachmentIndex_codec a
  | RStatistics s => write_buffered op.STATISTICS Statistics_codec s
  | RMetadata m => write_buffered op.METADATA Metadata_codec m
  | RMetadataIndex m => write_buffered op.METADATA_INDEX MetadataIndex_codec m
  | RSummaryOffset s => write_buffered op.SUMMARY_OFFSET SummaryOffset_codec s
  | RDataEnd d => write_buffered op.DATA_END DataEnd_codec d
  | RUnknown opcode data =>
      _ ← op_and_len opcode (zlen data);
      write_all data
  end.
End write.

(** ** The wire format *)

(** The body of a record, after its opcode and length. *)
Definition record_body (r : record) : bytes :=
  match r with
  | RHeader h => c_enc Header_codec h
  | RFooter f => c_enc Footer_codec f
  | RSchema h data => c_enc SchemaHeader_codec h ++ le_enc 4 (zlen data) ++ data
  | RChannel c => c_enc Channel_codec c
  | RMessage h data => c_enc MessageHeader_codec h ++ data
  | RChunk h data => c_enc ChunkHeader_codec h ++ data
  | RMessageIndex m => c_enc MessageIndex_codec m
  | RChunkIndex c => c_enc ChunkIndex_codec c
  | RAttachment h data crc =>
      c_enc AttachmentHeader_codec h ++ le_enc 8 (zlen data) ++ data ++ le_enc 4 crc
  | RAttachmentIndex a => c_enc AttachmentIndex_codec a
  | RStatistics s => c_enc Statistics_codec s
  | RMetadata m => c_enc Metadata_codec m
  | RMetadataIndex m => c_enc MetadataIndex_codec m
  | RSummaryOffset s => c_enc SummaryOffset_codec s
  | RDataEnd d => c_enc DataEnd_codec d
  | RUnknown _ data => data
  end.

(** A record in the file: opcode, length, body. *)
Definition frame (opcode : Z) (body : bytes) : bytes :=
  le_enc 1 opcode ++ le_enc 8 (zlen body) ++ body.
Definition record_frame (r : record) : bytes := frame (record_opcode r) (record_body r).

(** Records one after the other, by opcode and body. *)
Definition frames (rs : list (Z * bytes)) : bytes := concat ((λ '(op, b), frame op b) <$> rs).

Lemma frames_cons op b rs : frames ((op, b) :: rs) = frame op b ++ frames rs.
Proof. done. Qed.
Lemma frames_one op b : frames [(op, b)] = frame op b.
Proof. unfold frames. cbn. by rewrite app_nil_r. Qed.
Lemma frames_app rs1 rs2 : frames (rs1 ++ rs2) = frames rs1 ++ frames rs2.
Proof. unfold frames. by rewrite fmap_app, concat_app. Qed.

(** The part of an attachment's body its checksum covers. *)
Definition attachment_hashed (h : AttachmentHeader) (data : bytes) : bytes :=
  c_enc AttachmentHeader_codec h ++ le_enc 8 (zlen data) ++ data.

(** The records of the format: field values in range, lengths that fit their length
    fields, and a valid (or absent, that is zero) attachment checksum. *)
Definition record_wf `{Crc} (r : record) : bool :=
  match r with
  | RHeader h => c_wf Header_codec h
  | RFooter f => c_wf Footer_codec f
  | RSchema h data => c_wf SchemaHeader_codec h && (zlen data <? 2 ^ 32)%Z
  | RChannel c => c_wf Channel_codec c
  | RMessage h _ => c_wf MessageHeader_codec h
  | RChunk h data => c_wf ChunkHeader_codec h && (ch_compressed_size h =? zlen data)%Z
  | RMessageIndex m => c_wf MessageIndex_codec m
  | RChunkIndex c => c_wf ChunkIndex_codec c
  | RAttachment h data crc =>
      c_wf AttachmentHeader_codec h && c_wf u32 crc && c_wf u64 (zlen data) &&
        ((crc =? 0)%Z || (crc =? crc32 (attachment_hashed h data))%Z)
  | RAttachmentIndex a => c_wf AttachmentIndex_codec a
  | RStatistics s => c_wf Statistics_codec s
  | RMetadata m => c_wf Metadata_codec m
  | RMetadataIndex m => c_wf MetadataIndex_codec m
  | RSummaryOffset s => c_wf SummaryOffset_codec s
  | RDataEnd d => c_wf DataEnd_codec d
  | RUnknown opcode _ => c_wf u8 opcode && ((opcode =? 0)%Z || (15 <? opcode)%Z)
  end && (zlen (record_body r) <? 2 ^ 64)%Z.

(** The records [write_record] is for; the others serialize themselves. *)
Definition writable (r : record) : bool :=
  match r with
  | RFooter _ | RChunk _ _ | RMessageIndex _ | RAttachment _ _ _ => false
  | _ => true
  end.

(** ** Reading back what was written *)

Lemma read_le_enc {A} (c : codec A) `{!CodecOk c} a p rest :
  c_wf c a = true →
  read_le c (RCursor p (c_enc c a ++ rest)) = Ok (a, RCursor (p + zlen (c_enc c a)) rest).
Proof. intros Ha. unfold read_le. by rewrite (codec_reads a Ha). Qed.

Lemma read_record_enc {A} (c : codec A) `{!CodecOk c} a extra :
  c_wf c a = true → read_record c (c_enc c a ++ extra) = Ok a.
Proof. intros Ha. unfold read_record, rcursor_new. by rewrite read_le_enc. Qed.

Lemma slice_app_r {E A} i (l k : list A) : i = zlen l → slice (E:=E) i (zlen (l ++ k)) (l ++ k) = Ok k.
Proof. intros ->. rewrite slice_tail by zlia. by rewrite zdrop_app. Qed.

Lemma slice_app_l {E A} j (l k : list A) : j = zlen l → slice (E:=E) 0 j (l ++ k) = Ok l.
Proof.
  intros ->. rewrite slice_Ok by zlia. rewrite Z.sub_0_r, zdrop_0 by lia. by rewrite ztake_app.
Qed.

Lemma slice_all {E A} j (l : list A) : j = zlen l → slice (E:=E) 0 j l = Ok l.
Proof. intros Hj. rewrite <-(app_nil_r l) at 1. by apply slice_app_l. Qed.

Ltac split_wf := unfold record_wf in *; cbn [record_body] in *; cbn match in *; repeat match goal with
  | H : _ && _ = true |- _ => apply andb_true_iff in H as [??]
  | H : (_ <? _)%Z = true |- _ => apply Z.ltb_lt in H
  | H : (_ =? _)%Z = true |- _ => apply Z.eqb_eq in H
  | H : (_ <=? _)%Z = true |- _ => apply Z.leb_le in H
  end.

Section roundtrip.
Context `{Crc}.

Lemma parse_schema_enc h data extra :
  record_wf (RSchema h data) = true →
  (zlen data + zlen extra < 2 ^ 32)%Z →
  parse_schema (record_body (RSchema h data) ++ extra) = Ok (RSchema h data).
Proof.
  intros Hw He. split_wf.
  unfold parse_schema, rcursor_new. rewrite <-!app_assoc.
  rewrite (read_le_enc SchemaHeader_codec) by done. cbn [mbind outcome_bind].
  rewrite (reads_u32 (zlen data)) by by apply in_u_len. cbn [map_err mbind outcome_bind rpos].
  rewrite app_assoc. rewrite slice_app_r by zlia. cbn [mbind outcome_bind].
  rewrite as_u32_small by (apply in_u_len; zlia).
  rewrite (proj2 (Z.ltb_ge _ _)) by zlia. rewrite slice_app_l by done. done.
Qed.

Lemma parse_message_enc h data :
  c_wf MessageHeader_codec h = true →
  parse_message (c_enc MessageHeader_codec h ++ data) = Ok (RMessage h data).
Proof.
  intros Hw. unfold parse_message, rcursor_new. rewrite (read_le_enc MessageHeader_codec) by done.
  cbn [mbind outcome_bind rpos]. by rewrite slice_app_r by zlia.
Qed.

Lemma parse_chunk_enc h data extra :
  c_wf ChunkHeader_codec h = true → ch_compressed_size h = zlen data →
  parse_chunk (c_enc ChunkHeader_codec h ++ data ++ extra) = Ok (RChunk h data).
Proof.
  intros Hw Hs. unfold parse_chunk, rcursor_new. rewrite (read_le_enc ChunkHeader_codec) by done.
  cbn [mbind outcome_bind rpos]. rewrite slice_app_r by zlia. cbn [mbind outcome_bind].
  rewrite (proj2 (Z.ltb_ge _ _)) by zlia. by rewrite slice_app_l.
Qed.

Lemma parse_attachment_enc h data crc :
  c_wf AttachmentHeader_codec h = true → c_wf u32 crc = true → c_wf u64 (zlen data) = true →
  parse_attachment (record_body (RAttachment h data crc)) =
    if (crc =? 0)%Z || (crc =? crc32 (attachment_hashed h data))%Z
    then Ok (RAttachment h data crc)
    else Err (BadAttachmentCrc crc (crc32 (attachment_hashed h data))).
Proof.
  intros Hw Hwc Hwd. cbn [record_body].
  pose proof (read_le_enc AttachmentHeader_codec h 0
    (le_enc 8 (zlen data) ++ data ++ le_enc 4 crc) ltac:(done)) as Hr.
  pose proof (codec_reads (c:=u64) (zlen data) ltac:(done)) as Hu.
  pose proof (read_le_enc u32 crc 0 [] ltac:(done)) as Hc.
  change (c_enc u32 crc) with (le_enc 4 crc) in Hc. rewrite app_nil_r in Hc.
  set (hd := c_enc AttachmentHeader_codec h) in *. set (ld := le_enc 8 (zlen data)) in *.
  assert (zlen ld = 8)%Z as Hld by apply zlen_le_enc.
  assert (zlen (le_enc 4 crc) = 4)%Z as Hlc by apply zlen_le_enc.
  unfold parse_attachment, rcursor_new. rewrite Hr. cbn [mbind outcome_bind].
  rewrite Hu. cbn [map_err mbind outcome_bind rpos].
  change (c_enc u64 (zlen data)) with ld. rewrite sub_Ok by zlia. cbn [mbind outcome_bind].
  replace (hd ++ ld ++ data ++ le_enc 4 crc) with ((hd ++ ld) ++ data ++ le_enc 4 crc)
    by by rewrite <-app_assoc.
  rewrite slice_Ok by zlia. cbn [mbind outcome_bind].
  rewrite zdrop_app by zlia. rewrite ztake_app by zlia.
  rewrite Z.ltb_irrefl, slice_all by done. cbn [mbind outcome_bind].
  rewrite app_assoc, slice_app_r by zlia. cbn [mbind outcome_bind]. unfold rcursor_new.
  rewrite Hc. cbn [mbind outcome_bind].
  destruct (Z.eqb_spec crc 0) as [->|]; [done|].
  rewrite slice_app_l by zlia. cbn [mbind outcome_bind].
  replace ((hd ++ ld) ++ data) with (attachment_hashed h data)
    by (unfold attachment_hashed; fold hd; by rewrite <-app_assoc).
  cbn [orb]. by destruct (crc =? _)%Z.
Qed.
End roundtrip.

Section roundtrip_all.
Context `{Crc}.

(** [parse_record] takes back the body of every well-formed record. *)
Lemma parse_record_body r :
  record_wf r = true → parse_record (record_opcode r) (record_body r) = Ok r.
Proof.
  intros Hw. destruct r; try (
    unfold parse_record; cbn [record_opcode]; cbn [Z.eqb];
    match goal with |- context [ read_record ?c _ ] =>
      split_wf; rewrite <-(app_nil_r (c_enc c _)); by rewrite (read_record_enc c) by done
    end).
  - change (parse_schema (record_body (RSchema header data)) = Ok (RSchema header data)).
    rewrite <-(app_nil_r (record_body _)). apply parse_schema_enc; [done|].
    split_wf. zlia.
  - change (parse_message (record_body (RMessage header data)) = Ok (RMessage header data)).
    split_wf. by apply parse_message_enc.
  - change (parse_chunk (record_body (RChunk header data)) = Ok (RChunk header data)).
    split_wf. rewrite <-(app_nil_r data) at 1. by apply parse_chunk_enc.
  - change (parse_attachment (record_body (RAttachment header data crc)) = Ok (RAttachment header data crc)).
    split_wf. etrans; [by apply parse_attachment_enc|].
    match goal with H : _ || _ = true |- _ => by rewrite H end.
  - split_wf.
    assert (opcode = 0 ∨ 15 < opcode)%Z as Ho.
    { match goal with H : _ || _ = true |- _ => apply orb_true_iff in H as [?|?] end; split_wf; lia. }
    unfold parse_record. cbn [record_opcode].
    unfold op.HEADER, op.FOOTER, op.SCHEMA, op.CHANNEL, op.MESSAGE, op.CHUNK, op.MESSAGE_INDEX,
      op.CHUNK_INDEX, op.ATTACHMENT, op.ATTACHMENT_INDEX, op.STATISTICS, op.METADATA,
      op.METADATA_INDEX, op.SUMMARY_OFFSET, op.DATA_END.
    repeat (zcase; [lia|]). done.
Qed.

Lemma to_buf_enc {A} (c : codec A) `{!CodecOk c} a :
  c_wf c a = true → to_buf c a = Ok (c_enc c a).
Proof. intros Ha. unfold to_buf. by rewrite (codec_appends a Ha). Qed.

Section sink.
Context {W : Type} `{Write W} (rep : W → bytes → Prop) (cap : Z) `{!WriteOk W rep cap}.

(** A method that succeeds and appends [e] to the destination. *)
Definition sinks {E} (m : method W E ()) (e : bytes) : Prop :=
  ∀ w c, rep w c → (zlen (c ++ e) ≤ cap)%Z → ∃ w', m w = (Ok (), w') ∧ rep w' (c ++ e).

Lemma sinks_write b : sinks (write_all b) b.
Proof. intros w c. apply write_all_ok. Qed.

Lemma sinks_bind {E} (m1 m2 : method W E ()) e1 e2 :
  sinks m1 e1 → sinks m2 e2 → sinks (_ ← m1; m2) (e1 ++ e2).
Proof.
  intros H1 H2 w c Hw Hm. rewrite app_assoc in Hm.
  destruct (H1 w c Hw) as (w1 & E1 & C1); [zlia|]. destruct (H2 w1 _ C1 Hm) as (w2 & E2 & C2).
  exists w2. unfold mbind, method_bind. rewrite E1, E2. split; [done|].
  by rewrite app_assoc.
Qed.

Lemma sinks_op_and_len o n : sinks (op_and_len o n) (le_enc 1 o ++ le_enc 8 n).
Proof. apply sinks_bind; apply sinks_write. Qed.

Lemma sinks_frame o n body m :
  n = zlen body → sinks m body → sinks (_ ← op_and_len o n; m) (frame o body).
Proof.
  intros -> Hm. unfold frame. rewrite app_assoc. apply sinks_bind; [apply sinks_op_and_len|done].
Qed.

Lemma sinks_buffered {A} o (c : codec A) `{!CodecOk c} a :
  c_wf c a = true → sinks (write_buffered o c a) (frame o (c_enc c a)).
Proof.
  intros Ha. unfold write_buffered. rewrite to_buf_enc by done.
  apply (sinks_frame o _ (c_enc c a)); [done|apply sinks_write].
Qed.

Lemma sinks_io_other m e : sinks m e → sinks (io_other m) e.
Proof.
  intros Hm w c Hw Hl. destruct (Hm w c Hw Hl) as (w' & E & C). exists w'. unfold io_other. by rewrite E.
Qed.

Lemma sinks_message_header h :
  sinks (write_message_header h) (c_enc MessageHeader_codec h).
Proof.
  destruct h as [c s l p]. cbn. rewrite <-!app_assoc.
  repeat (apply sinks_bind; [apply sinks_write|]). apply sinks_write.
Qed.

(** [write_record] appends the record's frame. *)
Lemma sinks_record r :
  record_wf r = true → writable r = true → sinks (write_record r) (record_frame r).
Proof.
  intros Hw Hp. destruct r; try discriminate Hp; unfold record_frame, write_record; cbn [record_opcode]; cbn match;
    try (split_wf; apply sinks_buffered; [typeclasses eauto|done]).
  - split_wf. rewrite (to_buf_enc SchemaHeader_codec) by done.
    apply (sinks_frame _ _ _).
    + unfold as_u64. rewrite Z.mod_small by (split; zlia). zlia.
    + apply sinks_bind; [apply sinks_write|]. rewrite as_u32_small by by apply in_u_len.
      apply sinks_bind; apply sinks_write.
  - split_wf. apply sinks_frame.
    + rewrite <-MessageHeader_enc_len. unfold as_u64. rewrite Z.mod_small by (split; zlia). zlia.
    + apply sinks_bind; [apply sinks_io_other, sinks_message_header|apply sinks_write].
  - split_wf. apply sinks_frame; [done|apply sinks_write].
Qed.
End sink.
End roundtrip_all.

(** ** What [parse_record] does on any body *)

Lemma read_le_cases {A} (c : codec A) {n} `{Hc : !CodecTotal c n} body :
  (∃ a cur, read_le c (rcursor_new body) = Ok (a, cur) ∧
     (0 ≤ rpos cur ≤ zlen body)%Z ∧ rrest cur = zdrop (rpos cur) body) ∨
  (∃ e, read_le c (rcursor_new body) = Err e).
Proof.
  specialize (Hc (rcursor_new body)). unfold read_le.
  destruct (c_read c (rcursor_new body)) as [[a cur]|e| |]; cbn in *; try done; [|by right; eexists].
  left. destruct Hc as (e & -> & Hp & Hn). exists a, cur. rewrite Hp. zlen_facts.
  split_and!; [done|lia|zlia|]. symmetry. by apply zdrop_app.
Qed.

Lemma read_record_cases {A} (c : codec A) {n} `{Hc : !CodecTotal c n} body :
  (∃ a, read_record c body = Ok a) ∨ (∃ e, read_record c body = Err e).
Proof.
  unfold read_record. destruct (read_le_cases c body) as [(a & cur & -> & _)|(e & ->)].
  - left. by eexists.
  - right. by eexists.
Qed.

(** An attachment body whose header and length fields are there, but not the four
    bytes of the checksum after them. *)
Definition attachment_cut (body : bytes) : bool :=
  match c_read (AttachmentHeader_codec ⊗ u64) (rcursor_new body) with
  | Ok (_, c) => (zlen (rrest c) <? 4)%Z
  | _ => false
  end.

Section total.
Context `{Crc}.

Lemma read_record_settles {A} (c : codec A) {n} `{!CodecTotal c n} body :
  settles (read_record c body).
Proof. by destruct (read_record_cases c body) as [[? ->]|[? ->]]. Qed.

Lemma parse_schema_settles body : settles (parse_schema body).
Proof.
  unfold parse_schema.
  destruct (read_le_cases SchemaHeader_codec body) as [(h & [p r] & -> & Hp & Hr)|(e & ->)]; [|done].
  cbn in *. pose proof (u32_total (RCursor p r)) as Ht.
  destruct (c_read u32 (RCursor p r)) as [[n c]|e| |] eqn:Hn; cbn in *; try done.
  destruct Ht as (e & -> & Hc & Hl). apply (codec_canon (c:=u32)) in Hn as (Hw & _).
  assert (0 ≤ rpos c ≤ zlen body)%Z as Hb.
  { apply (f_equal zlen) in Hr. zlia. }
  rewrite slice_tail by done. cbn. zcase; [done|].
  rewrite slice_Ok; [done| |].
  - apply u32_wf_range in Hw. lia.
  - assert (as_u32 (zlen (zdrop (rpos c) body)) ≤ zlen (zdrop (rpos c) body))%Z; [|lia].
    apply Z.mod_le; [apply zlen_nonneg|lia].
Qed.

Lemma parse_message_settles body : settles (parse_message body).
Proof.
  unfold parse_message.
  destruct (read_le_cases MessageHeader_codec body) as [(h & c & -> & Hp & _)|(e & ->)]; [|done].
  cbn. by rewrite slice_tail.
Qed.

Lemma parse_chunk_settles body : settles (parse_chunk body).
Proof.
  unfold parse_chunk.
  destruct (read_le_cases ChunkHeader_codec body) as [(h & c & E & Hp & _)|(e & ->)]; [|done].
  rewrite E. cbn. rewrite slice_tail by done. cbn. zcase; [done|].
  rewrite slice_Ok; [done| |lia].
  unfold read_le in E. apply map_err_Ok, (codec_canon (c:=ChunkHeader_codec)) in E as (Hw & _).
  destruct h as [s e u cr n z]. cbn in *. apply andb_true_iff in Hw as [_ Hw].
  apply (u64_wf_range z) in Hw. lia.
Qed.

(** The attachment branch settles, and panics exactly on a cut body. *)
Lemma parse_attachment_settles body :
  if attachment_cut body then parse_attachment body = Panic else settles (parse_attachment body).
Proof.
  unfold attachment_cut, parse_attachment, read_le.
  pose proof (codec_total (c:=AttachmentHeader_codec) (rcursor_new body)) as Ht.
  cbn [c_read pair]. unfold mbind at 1, reader_bind.
  destruct (c_read AttachmentHeader_codec (rcursor_new body)) as [[h c1]|e| |] eqn:Hh;
    cbn [map_err mbind outcome_bind]; try done.
  destruct Ht as (e1 & He1 & Hp1 & Hn1).
  pose proof (u64_total c1) as Ht. unfold mbind at 1, reader_bind.
  destruct (c_read u64 c1) as [[n c2]|e| |] eqn:Hn; cbn [map_err mbind outcome_bind]; try done.
  destruct Ht as (e2 & He2 & Hp2 & Hn2).
  apply (codec_canon (c:=u64)) in Hn as (Hw & _). apply u64_wf_range in Hw.
  cbn in He1, Hp1 |- *. rewrite He1, He2. rewrite !zlen_app.
  unfold mret, reader_ret. cbn [rpos rrest].
  rewrite sub_Ok by zlia. cbn [mbind outcome_bind]. zcase.
  { rewrite slice_Panic; [done|]. zlia. }
  rewrite slice_Ok by zlia. cbn [mbind outcome_bind].
  set (tl := rrest c2) in *. set (data := ztake (A:=byte) _ _).
  assert (zlen data = zlen tl - 4)%Z as Hd by (subst data; zlia).
  zcase; [done|].
  rewrite slice_Ok by lia. cbn [mbind outcome_bind].
  set (d := ztake (n - 0) (zdrop 0 data)).
  assert (zlen d = n)%Z as Hdn by (subst d; zlia).
  rewrite (slice_Ok (rpos c2 + zlen d)) by zlia. cbn [mbind outcome_bind].
  match goal with |- context [ c_read u32 (rcursor_new ?b) ] =>
    destruct (read_le_cases u32 b) as [(crc & c3 & E & _)|(e & E)] end;
    unfold read_le in E; rewrite E; [|done].
  cbn [mbind outcome_bind]. destruct (crc =? 0)%Z; [done|].
  rewrite (slice_Ok 0) by zlia. cbn [mbind outcome_bind].
  by destruct (crc =? _)%Z.
Qed.

Lemma parse_record_settles opcode body :
  (opcode =? op.ATTACHMENT)%Z && attachment_cut body = false → settles (parse_record opcode body).
Proof.
  intros Hc. unfold parse_record.
  destruct (opcode =? op.ATTACHMENT)%Z;
    [pose proof (parse_attachment_settles body) as Ha; cbn in Hc; rewrite Hc in Ha|];
    repeat match goal with |- settles (if ?b then _ else _) => destruct b end;
    try done; try apply parse_schema_settles; try apply parse_message_settles;
    try apply parse_chunk_settles; try exact Ha;
    apply settles_fmap; eapply read_record_settles; typeclasses eauto.
Qed.
End total.

Lemma parse_record_not_fuel `{Crc} opcode body : parse_record opcode body ≠ Fuel.
Proof.
  destruct ((opcode =? op.ATTACHMENT)%Z && attachment_cut body) eqn:E.
  - apply andb_true_iff in E as [Ho Hc]. apply Z.eqb_eq in Ho as ->.
    pose proof (parse_attachment_settles body) as Ha. rewrite Hc in Ha.
    change (parse_record op.ATTACHMENT body) with (parse_attachment body). by rewrite Ha.
  - pose proof (parse_record_settles _ _ E) as Hs. by destruct (parse_record opcode body).
Qed.

Lemma parse_record_panic `{Crc} opcode body : parse_record opcode body = Panic →
  opcode = op.ATTACHMENT ∧ attachment_cut body = true.
Proof.
  intros Hp. destruct ((opcode =? op.ATTACHMENT)%Z && attachment_cut body) eqn:E.
  - by apply andb_true_iff in E as [->%Z.eqb_eq ?].
  - pose proof (parse_record_settles _ _ E) as Hs. by rewrite Hp in Hs.
Qed.

(** Kinds of records whose body may be followed by more bytes, which are ignored. *)
Definition extensible (r : record) : bool :=
  match r with
  | RMessage _ _ | RAttachment _ _ _ | RUnknown _ _ | RSchema _ _ => false
  | _ => true
  end.

(** Kinds of records whose body determines, and is determined by, the record. *)
Definition canonical (r : record) : bool :=
  match r with
  | RChannel _ | RMessageIndex _ | RChunkIndex _ | RStatistics _ | RMetadata _ => false
  | _ => true
  end.

Section canonical.
Context `{Crc}.

Lemma read_le_canon {A} (c : codec A) `{Hc : !CodecCanon c} body a cur :
  read_le c (rcursor_new body) = Ok (a, cur) →
  c_wf c a = true ∧ body = c_enc c a ++ rrest cur ∧ rpos cur = zlen (c_enc c a).
Proof.
  unfold read_le. rewrite map_err_Ok. intros Hr. apply Hc in Hr as (Hw & He & Hp).
  cbn in *. done.
Qed.

Lemma read_record_canon {A} (c : codec A) `{!CodecCanon c} body a :
  read_record c body = Ok a → ∃ extra, body = c_enc c a ++ extra.
Proof.
  unfold read_record. destruct (read_le c (rcursor_new body)) as [[a' cur]|e| |] eqn:E; try done.
  intros [=<-]. apply (read_le_canon c) in E as (_ & He & _). eauto.
Qed.

Lemma slice_Ok_inv {E A} i j (l k : list A) :
  slice (E:=E) i j l = Ok k → (0 ≤ i ≤ j ∧ j ≤ zlen l)%Z ∧ k = ztake (j - i) (zdrop i l).
Proof.
  unfold slice. destruct (_ && _) eqn:Hb; [|done]. rewrite !andb_true_iff, !Z.leb_le in Hb.
  intros [=<-]. split; [lia|done].
Qed.

(** The bytes after a prefix, cut out as the code does. *)
Lemma tail_cut (l k : bytes) i :
  i = zlen l → ztake (zlen (l ++ k) - i) (zdrop i (l ++ k)) = k.
Proof. intros ->. rewrite zdrop_app by done. apply ztake_all. zlia. Qed.

Lemma parse_schema_canon body r :
  parse_schema body = Ok r → record_opcode r = op.SCHEMA ∧ ∃ extra, body = record_body r ++ extra.
Proof.
  unfold parse_schema. rewrite bind_Ok. intros ([h c] & Hh & Hr).
  apply (read_le_canon SchemaHeader_codec) in Hh as (_ & -> & Hp).
  apply bind_Ok in Hr as ([n c2] & Hn & Hr). apply map_err_Ok, (u32_canon c) in Hn as (Hn & He & Hp2).
  apply bind_Ok in Hr as (data & Hd & Hr). apply slice_Ok_inv in Hd as (_ & ->).
  rewrite He, app_assoc, tail_cut in Hr by zlia. rewrite He.
  revert Hr. zcase; [done|]. rewrite bind_Ok. intros (data & Hd & [= <-]).
  apply slice_Ok_inv in Hd as ([Hb1 Hb2] & ->). cbn [record_body].
  rewrite zdrop_0, Z.sub_0_r by lia. split; [done|]. exists (zdrop n (rrest c2)).
  replace (zlen (ztake n (rrest c2))) with n by zlia.
  change (le_enc 4 n) with (c_enc u32 n). by rewrite <-!app_assoc, ztake_zdrop.
Qed.

Lemma parse_message_canon body r :
  parse_message body = Ok r → record_opcode r = op.MESSAGE ∧ body = record_body r.
Proof.
  unfold parse_message. rewrite bind_Ok. intros ([h c] & Hh & Hr).
  apply (read_le_canon MessageHeader_codec) in Hh as (_ & -> & Hp).
  apply bind_Ok in Hr as (data & Hd & [= <-]). apply slice_Ok_inv in Hd as (_ & ->).
  split; [done|]. by rewrite tail_cut.
Qed.

Lemma parse_chunk_canon body r :
  parse_chunk body = Ok r → record_opcode r = op.CHUNK ∧ ∃ extra, body = record_body r ++ extra.
Proof.
  unfold parse_chunk. rewrite bind_Ok. intros ([h c] & Hh & Hr).
  apply (read_le_canon ChunkHeader_codec) in Hh as (_ & -> & Hp).
  apply bind_Ok in Hr as (data & Hd & Hr). apply slice_Ok_inv in Hd as (_ & ->).
  rewrite tail_cut in Hr by done. revert Hr. zcase; [done|].
  rewrite bind_Ok. intros (data & Hd & [= <-]). apply slice_Ok_inv in Hd as ([Hb1 Hb2] & ->).
  rewrite zdrop_0, Z.sub_0_r by lia. cbn [record_body].
  split; [done|]. exists (zdrop (ch_compressed_size h) (rrest c)). by rewrite <-app_assoc, ztake_zdrop.
Qed.

Lemma parse_attachment_canon body r :
  parse_attachment body = Ok r → record_opcode r = op.ATTACHMENT ∧ ∃ extra, body = record_body r ++ extra.
Proof.
  unfold parse_attachment. rewrite bind_Ok. intros ([h c] & Hh & Hr).
  apply (read_le_canon AttachmentHeader_codec) in Hh as (_ & -> & Hp).
  apply bind_Ok in Hr as ([n c2] & Hn & Hr). apply map_err_Ok, (u64_canon c) in Hn as (Hn & He & Hp2).
  remember (c_enc AttachmentHeader_codec h) as ea eqn:Hea.
  assert (zlen (c_enc u64 n) = 8)%Z as Hz by apply zlen_u64.
  remember (c_enc u64 n) as en eqn:Hen.
  rewrite He, app_assoc in Hr. rewrite He, app_assoc. clear He.
  assert (rpos c2 = zlen (ea ++ en)) as Hpre by zlia.
  remember (ea ++ en) as pre eqn:Hpe.
  apply bind_Ok in Hr as (e & Hse & Hr).
  unfold sub_ in Hse. destruct (4 <=? _)%Z; [injection Hse as <-|done].
  apply bind_Ok in Hr as (data & Hd & Hr). apply slice_Ok_inv in Hd as ([Hb1 Hb2] & ->).
  rewrite (zdrop_app (rpos c2)) in Hr by done. revert Hr. zcase; [done|].
  rewrite bind_Ok. intros (data & Hd & Hr). apply slice_Ok_inv in Hd as ([Hb3 Hb4] & ->).
  rewrite zdrop_0, Z.sub_0_r in Hr by lia.
  set (m := (zlen (pre ++ rrest c2) - 4 - rpos c2)%Z) in *.
  set (d := ztake n (ztake m (rrest c2))) in *.
  assert (zlen d = n) as Hdn by (subst d m; zlia).
  assert (rrest c2 = d ++ zdrop n (rrest c2)) as Hrd.
  { subst d. rewrite !ztake_take, take_take, zdrop_drop.
    rewrite Nat.min_l by (subst m; zlia). by rewrite take_drop. }
  apply bind_Ok in Hr as (tl & Ht & Hr). apply slice_Ok_inv in Ht as (_ & ->).
  apply bind_Ok in Hr as ([crc c3] & Hc & Hr).
  apply (read_le_canon u32) in Hc as (_ & Hc & _).
  assert (r = RAttachment h d crc) as ->.
  { revert Hr. destruct (crc =? 0)%Z; [by intros [=]|]. rewrite bind_Ok. intros (hd & _ & Hr).
    revert Hr. destruct (crc =? _)%Z; [by intros [=]|done]. }
  split; [done|]. exists (rrest c3). cbn [record_body]. rewrite Hdn. change (le_enc 8 n) with (c_enc u64 n).
  change (le_enc 4 crc) with (c_enc u32 crc). rewrite <-Hea, <-Hen.
  replace ((ea ++ en ++ d ++ c_enc u32 crc) ++ rrest c3)
    with ((pre ++ d) ++ c_enc u32 crc ++ rrest c3) by (rewrite Hpe; by rewrite <-!app_assoc).
  rewrite <-Hc.
  assert (pre ++ rrest c2 = (pre ++ d) ++ zdrop n (rrest c2)) as -> by by rewrite <-app_assoc, <-Hrd.
  rewrite tail_cut by zlia. done.
Qed.
End canonical.

(** ** Properties *)

Section properties.
Context `{Crc}.

(** C31: writing a record to a destination that takes every write appends its frame
    (opcode, body length, body), and [parse_record] gives the record back from
    that opcode and body. *)
Theorem record_roundtrip {W} `{Write W} (rep : W → bytes → Prop) cap `{!WriteOk W rep cap} r w c :
  record_wf r = true → writable r = true →
  rep w c → (zlen (c ++ record_frame r) ≤ cap)%Z →
  ∃ w' body, write_record r w = (Ok (), w') ∧
    rep w' (c ++ frame (record_opcode r) body) ∧
    parse_record (record_opcode r) body = Ok r.
Proof.
  intros Hw Hp Hr Hl. destruct (sinks_record rep cap r Hw Hp w c Hr Hl) as (w' & E & C).
  exists w', (record_body r). split_and!; [done..|by apply parse_record_body].
Qed.

(** [parse_record] inverts the wire format of every kind of record, those that
    [write_record] leaves to others included; and a body of an extensible kind may
    carry more bytes after the fields it knows. *)
Theorem parse_record_roundtrip r extra :
  record_wf r = true → extra = [] ∨ extensible r = true →
  parse_record (record_opcode r) (record_body r ++ extra) = Ok r.
Proof.
  intros Hw [->|He]; [rewrite app_nil_r; by apply parse_record_body|].
  destruct r; try discriminate He; try (
    unfold parse_record; cbn [record_opcode]; cbn [Z.eqb];
    match goal with |- context [ read_record ?c _ ] =>
      split_wf; by rewrite (read_record_enc c) by done
    end).
  change (parse_chunk (record_body (RChunk header data) ++ extra) = Ok (RChunk header data)).
  split_wf. rewrite <-app_assoc. by apply parse_chunk_enc.
Qed.

(** C32: a body that parses as a record of a canonical kind is that record's
    encoding, followed only by bytes the format lets a reader skip (none after a
    message). *)
Theorem parse_record_inverse opcode body r :
  parse_record opcode body = Ok r → canonical r = true →
  record_opcode r = opcode ∧ ∃ extra, body = record_body r ++ extra ∧
    (opcode = op.MESSAGE → extra = []).
Proof.
  unfold parse_record. intros Hr Hc.
  repeat match type of Hr with
  | (if (opcode =? ?o)%Z then _ else _) = _ => destruct (Z.eqb_spec opcode o) as [->|?]
  end;
  try (match type of Hr with (_ <$> read_record ?c ?b) = _ =>
    destruct (read_record c b) as [a|e| |] eqn:E; try done; injection Hr as <-;
    first [ discriminate Hc
          | apply (read_record_canon c) in E as [extra ->]; split; [done|by exists extra] ]
  end).
  - destruct (parse_schema_canon _ _ Hr) as (? & extra & ?). split; [done|]. by exists extra.
  - destruct (parse_message_canon _ _ Hr) as (? & ->). split; [done|]. exists []. by rewrite app_nil_r.
  - destruct (parse_chunk_canon _ _ Hr) as (? & extra & ?). split; [done|]. by exists extra.
  - destruct (parse_attachment_canon _ _ Hr) as (? & extra & ?). split; [done|]. by exists extra.
  - injection Hr as <-. split; [done|]. exists []. by rewrite app_nil_r.
Qed.

(** C33: [parse_record] always ends, and it panics exactly on an attachment body that
    is cut between its data length field and its checksum; any other body is
    parsed or refused with an error. *)
Theorem parse_record_panics_iff opcode body :
  parse_record opcode body ≠ Fuel ∧
  (parse_record opcode body = Panic ↔
    opcode = op.ATTACHMENT ∧ attachment_cut body = true).
Proof.
  split; [apply parse_record_not_fuel|]. split; [apply parse_record_panic|].
  intros [-> Hc]. pose proof (parse_attachment_settles body) as Ha. by rewrite Hc in Ha.
Qed.

(** An attachment is returned only with a zero checksum field or the checksum of
    its header, length and data; any other checksum is reported together with the
    computed one. *)
Theorem parse_attachment_crc h data crc :
  record_wf (RAttachment h data 0) = true → c_wf u32 crc = true →
  parse_record op.ATTACHMENT (record_body (RAttachment h data crc)) =
    (if (crc =? 0)%Z || (crc =? crc32 (attachment_hashed h data))%Z
     then Ok (RAttachment h data crc)
     else Err (BadAttachmentCrc crc (crc32 (attachment_hashed h data)))).
Proof.
  intros Hw Hc.
  change (parse_record op.ATTACHMENT ?b) with (parse_attachment b).
  split_wf. by apply parse_attachment_enc.
Qed.
End properties.

(** ** Examples *)

Module CodecExamples.
Import BitCrc.

Definition channel : record := RChannel (mkChannelRecord 1 0 (lit "/tf") (lit "json")
  [(lit "a", lit "1"); (lit "b", [])]).
Definition att_header : AttachmentHeader := mkAttachmentHeader 3 4 (lit "log") (lit "text/plain").
Definition chunk : record := RChunk (mkChunkHeader 0 9 3 0 [] 3) (lit "abc").
(** A header, a data length, and two bytes where the checksum should be. *)
Definition cut_body : bytes :=
  c_enc AttachmentHeader_codec att_header ++ le_enc 8 0 ++ raw [1; 2]%Z.

Lemma record_roundtrip_witness :
  record_wf channel = true ∧ writable channel = true ∧
  ∃ w' body, write_record channel (lit "x") = (Ok (), w') ∧
    w' = lit "x" ++ frame 4 body ∧ parse_record 4 body = Ok channel.
Proof.
  split; [vm_compute; reflexivity|]. split; [reflexivity|].
  exact (record_roundtrip eq u64_max channel (lit "x") (lit "x") ltac:(vm_compute; reflexivity) eq_refl eq_refl
    ltac:(vm_compute; discriminate)).
Defined.

Lemma parse_record_roundtrip_witness :
  parse_record op.CHUNK (record_body chunk ++ lit "padding") = Ok chunk.
Proof.
  apply (parse_record_roundtrip chunk); [vm_compute; reflexivity|]. right. reflexivity.
Defined.

Lemma parse_record_inverse_witness :
  ∃ r, parse_record op.CHUNK (record_body chunk ++ lit "padding") = Ok r ∧
    record_opcode r = op.CHUNK ∧
    ∃ extra, record_body chunk ++ lit "padding" = record_body r ++ extra ∧
      (op.CHUNK = op.MESSAGE → extra = []).
Proof.
  exists chunk. split; [vm_compute; reflexivity|].
  apply (parse_record_inverse op.CHUNK); [vm_compute; reflexivity|reflexivity].
Defined.

Example parse_record_panics : parse_record op.ATTACHMENT cut_body = Panic.
Proof. vm_compute. reflexivity. Qed.

Lemma parse_attachment_crc_witness :
  parse_record op.ATTACHMENT (record_body (RAttachment att_header (lit "hi") 7)) =
    Err (BadAttachmentCrc 7 (crc32 (attachment_hashed att_header (lit "hi")))).
Proof. exact (parse_attachment_crc att_header (lit "hi") 7 ltac:(vm_compute; reflexivity) eq_refl). Defined.
End CodecExamples.
