(* ===== verification/RwBuf.v ===== *)
(** The growable buffer with a read and a write cursor (module [rw_buf] of
    sans_io/linear_reader.rs), and the queue of unread bytes it implements. *)

From S2P Require Import Prelude Utf8 Errors Crc.

(** [Vec::resize(n, 0)] *)
Definition resize (n : Z) (l : bytes) : bytes :=
  ztake n l ++ replicate (Z.to_nat (n - zlen l)) Byte.x00.

Lemma zlen_resize n l : (0 ≤ n)%Z → zlen (resize n l) = n.
Proof. intros. unfold resize. rewrite zlen_app, zlen_ztake, zlen_replicate. zlia. Qed.

Lemma ztake_resize m n l : (m ≤ n)%Z → (m ≤ zlen l)%Z → ztake m (resize n l) = ztake m l.
Proof.
  intros Hn Hl. unfold resize. destruct (Z.le_gt_cases m 0); [by rewrite !ztake_0|].
  rewrite ztake_app_le by zlia. rewrite !ztake_take, take_take. f_equal. lia.
Qed.

Section rwbuf.
Context `{Crc}.

Record RwBuf := mkRwBuf {
  rb_data : bytes;
  rb_start : Z;
  rb_end : Z;
  rb_hasher : option hasher;
}.

Definition rb_new (instantiate_hasher : bool) : RwBuf :=
  mkRwBuf [] 0 0 (if instantiate_hasher then Some hasher_new else None).

(** [len], [unread], [unwritten] *)
Definition rb_len (b : RwBuf) : Z := rb_end b - rb_start b.
Definition rb_unread (b : RwBuf) : bytes :=
  ztake (rb_end b - rb_start b) (zdrop (rb_start b) (rb_data b)).
Definition rb_unwritten (b : RwBuf) : bytes := zdrop (rb_end b) (rb_data b).

Definition mark_read (read : Z) (b : RwBuf) : McapResult RwBuf :=
  _ ← rassert (read <=? rb_end b - rb_start b)%Z;
  h ← match rb_hasher b with
      | Some h =>
          s ← slice (rb_start b) (rb_start b + read) (rb_data b);
          mret (Some (hasher_update h s))
      | None => mret None
      end;
  mret (mkRwBuf (rb_data b) (rb_start b + read) (rb_end b) h).

Definition mark_written (written : Z) (b : RwBuf) : McapResult RwBuf :=
  _ ← rassert (written <=? zlen (rb_unwritten b))%Z;
  mret (mkRwBuf (rb_data b) (rb_start b) (rb_end b + written) (rb_hasher b)).

Definition reserve_exact (additional : Z) (b : RwBuf) : McapResult RwBuf :=
  n ← expect (checked_add usize_max (rb_end b) additional);
  mret (mkRwBuf (resize n (rb_data b)) (rb_start b) (rb_end b) (rb_hasher b)).

(** [data.copy_within(start..end, 0)] *)
Definition copy_to_front (b : RwBuf) : bytes :=
  rb_unread b ++ zdrop (rb_len b) (rb_data b).

(** The slice it returns is [rb_unwritten] of the buffer it leaves. *)
Definition tail_with_size (n : Z) (b : RwBuf) : McapResult RwBuf :=
  let unread_len := (rb_end b - rb_start b)%Z in
  let b :=
    if ((4096 <? rb_start b) && (unread_len <? rb_start b))%Z
    then mkRwBuf (copy_to_front b) 0 unread_len (rb_hasher b)
    else b in
  desired_end ← add_ usize_max (rb_end b) n;
  mret (mkRwBuf (resize desired_end (rb_data b)) (rb_start b) (rb_end b) (rb_hasher b)).

Definition rb_clear (b : RwBuf) : RwBuf := mkRwBuf [] 0 0 (rb_hasher b).

Definition consume (n : Z) (b : RwBuf) : McapResult (bytes * RwBuf) :=
  let start := rb_start b in
  b ← mark_read n b;
  s ← slice start (start + n) (rb_data b);
  mret (s, b).

Definition consume_without_hashing (n : Z) (b : RwBuf) : McapResult (bytes * RwBuf) :=
  _ ← rassert (n <=? rb_end b - rb_start b)%Z;
  let start := rb_start b in
  s ← slice start (start + n) (rb_data b);
  mret (s, mkRwBuf (rb_data b) (start + n) (rb_end b) (rb_hasher b)).

(** [*hasher_mut() = h] *)
Definition set_hasher (h : option hasher) (b : RwBuf) : RwBuf :=
  mkRwBuf (rb_data b) (rb_start b) (rb_end b) h.

(** The caller filling the first bytes of the slice [unwritten_mut] gives out. *)
Definition fill (s : bytes) (b : RwBuf) : RwBuf :=
  mkRwBuf (ztake (rb_end b) (rb_data b) ++ s ++ zdrop (rb_end b + zlen s) (rb_data b))
    (rb_start b) (rb_end b) (rb_hasher b).

(** ** The invariant, and the buffer as a queue *)

Definition rb_wf (b : RwBuf) : Prop :=
  (0 ≤ rb_start b ≤ rb_end b)%Z ∧ (rb_end b ≤ zlen (rb_data b))%Z.

Definition hash_opt (h : option hasher) (s : bytes) : option hasher :=
  (λ h, hasher_update h s) <$> h.

Lemma rb_new_wf i : rb_wf (rb_new i).
Proof. done. Qed.

Lemma zlen_unread b : rb_wf b → zlen (rb_unread b) = rb_len b.
Proof. intros [??]. unfold rb_unread, rb_len. zlia. Qed.

Lemma rb_len_nonneg b : rb_wf b → (0 ≤ rb_len b)%Z.
Proof. intros [??]. unfold rb_len. lia. Qed.

Lemma slice_unread n b : rb_wf b → (0 ≤ n ≤ rb_len b)%Z →
  slice (E:=McapError) (rb_start b) (rb_start b + n) (rb_data b) = Ok (ztake n (rb_unread b)).
Proof.
  intros [??] Hn. unfold rb_len in Hn. rewrite slice_Ok by lia. f_equal.
  unfold rb_unread. rewrite !ztake_take, take_take. f_equal. lia.
Qed.

Lemma unread_advance n b h : rb_wf b → (0 ≤ n ≤ rb_len b)%Z →
  let b' := mkRwBuf (rb_data b) (rb_start b + n) (rb_end b) h in
  rb_wf b' ∧ rb_unread b' = zdrop n (rb_unread b) ∧ rb_len b' = (rb_len b - n)%Z ∧
  rb_unwritten b' = rb_unwritten b.
Proof.
  intros [??] Hn b'. unfold rb_len in Hn. split_and!; [split; cbn; lia| |unfold rb_len; cbn; lia|done].
  unfold rb_unread. cbn. rewrite !ztake_take, !zdrop_drop, skipn_firstn_comm, drop_drop.
  f_equal; [lia|f_equal; lia].
Qed.

(** Reading [n] bytes takes them off the queue, through the hasher. *)
Lemma mark_read_spec n b : rb_wf b → (0 ≤ n ≤ rb_len b)%Z →
  ∃ b', mark_read n b = Ok b' ∧ rb_wf b' ∧ rb_unread b' = zdrop n (rb_unread b) ∧
    rb_len b' = (rb_len b - n)%Z ∧ rb_hasher b' = hash_opt (rb_hasher b) (ztake n (rb_unread b)) ∧
    rb_unwritten b' = rb_unwritten b ∧ rb_start b' = (rb_start b + n)%Z ∧ rb_data b' = rb_data b ∧
    rb_end b' = rb_end b.
Proof.
  intros Hb Hn. unfold mark_read, rassert. rewrite (proj2 (Z.leb_le _ _)) by (unfold rb_len in Hn; lia).
  cbn. destruct (rb_hasher b) as [h|]; [rewrite slice_unread by done|]; cbn;
    eexists; (split; [done|]);
    destruct (unread_advance n b (hash_opt (rb_hasher b) (ztake n (rb_unread b))) Hb Hn) as (?&?&?&?);
    split_and!; done.
Qed.

Lemma consume_spec n b : rb_wf b → (0 ≤ n ≤ rb_len b)%Z →
  ∃ b', consume n b = Ok (ztake n (rb_unread b), b') ∧ rb_wf b' ∧
    rb_unread b' = zdrop n (rb_unread b) ∧ rb_len b' = (rb_len b - n)%Z ∧
    rb_hasher b' = hash_opt (rb_hasher b) (ztake n (rb_unread b)).
Proof.
  intros Hb Hn. unfold consume. destruct (mark_read_spec n b Hb Hn) as (b' & -> & ? & ? & ? & ? & _ & _ & Hd & _).
  cbn. rewrite Hd, slice_unread by done. cbn. by exists b'.
Qed.

Lemma consume_without_hashing_spec n b : rb_wf b → (0 ≤ n ≤ rb_len b)%Z →
  ∃ b', consume_without_hashing n b = Ok (ztake n (rb_unread b), b') ∧ rb_wf b' ∧
    rb_unread b' = zdrop n (rb_unread b) ∧ rb_len b' = (rb_len b - n)%Z ∧
    rb_hasher b' = rb_hasher b.
Proof.
  intros Hb Hn. unfold consume_without_hashing, rassert.
  rewrite (proj2 (Z.leb_le _ _)) by (unfold rb_len in Hn; lia). cbn.
  rewrite slice_unread by done. cbn. eexists. split; [done|].
  destruct (unread_advance n b (rb_hasher b) Hb Hn) as (?&?&?&?). done.
Qed.

(** Making room keeps the queue, and makes exactly the room asked for. *)
Lemma tail_with_size_inv n b b' : rb_wf b → (0 ≤ n)%Z → tail_with_size n b = Ok b' →
  rb_wf b' ∧ rb_unread b' = rb_unread b ∧ zlen (rb_unwritten b') = n ∧ rb_hasher b' = rb_hasher b.
Proof.
  intros Hb Hn. pose proof Hb as [??]. pose proof (zlen_unread b Hb) as Hl.
  unfold tail_with_size. destruct ((4096 <? _) && _)%Z eqn:Hc; cbn [rb_end rb_data rb_start rb_hasher];
    unfold add_; (destruct (_ <=? _)%Z; [|done]); cbn; intros [= <-];
    unfold rb_wf, rb_unwritten, rb_len in *; cbn; rewrite zlen_zdrop, zlen_resize by lia.
  - assert (ztake (rb_end b - rb_start b) (resize (rb_end b - rb_start b + n) (copy_to_front b)) = rb_unread b) as Hu.
    { unfold copy_to_front. rewrite ztake_resize by zlia. by rewrite ztake_app. }
    split_and!; try done; try lia.
    unfold rb_unread at 1. cbn. by rewrite zdrop_0, Z.sub_0_r by lia.
  - unfold rb_unread. cbn. split_and!; try done; try lia.
    unfold resize. rewrite zdrop_app_le by zlia. rewrite ztake_app_le by zlia.
    rewrite !ztake_take, !zdrop_drop, skipn_firstn_comm, take_take. f_equal. lia.
Qed.

Lemma tail_with_size_spec n b : rb_wf b → (0 ≤ n)%Z → (zlen (rb_data b) + n ≤ usize_max)%Z →
  ∃ b', tail_with_size n b = Ok b' ∧ rb_wf b' ∧ rb_unread b' = rb_unread b ∧
    zlen (rb_unwritten b') = n ∧ rb_hasher b' = rb_hasher b.
Proof.
  intros Hb Hn Hmax. pose proof Hb as [??].
  assert (∃ b', tail_with_size n b = Ok b') as [b' E].
  { unfold tail_with_size. destruct ((4096 <? _) && _)%Z; cbn; rewrite add_Ok by lia; by eexists. }
  exists b'. split; [done|]. by apply tail_with_size_inv.
Qed.

(** Bytes filled in and marked as written go to the back of the queue. *)
Lemma fill_written_spec s b : rb_wf b → (zlen s ≤ zlen (rb_unwritten b))%Z →
  ∃ b', mark_written (zlen s) (fill s b) = Ok b' ∧ rb_wf b' ∧
    rb_unread b' = rb_unread b ++ s ∧ rb_hasher b' = rb_hasher b ∧
    rb_len b' = (rb_len b + zlen s)%Z ∧ zlen (rb_unwritten b') = (zlen (rb_unwritten b) - zlen s)%Z.
Proof.
  intros [Hs He] Hl. unfold mark_written, rassert, rb_unwritten, fill in *. cbn.
  assert (zlen (ztake (rb_end b) (rb_data b)) = rb_end b) as Ht by zlia.
  rewrite zdrop_app by done. rewrite (proj2 (Z.leb_le _ _)) by zlia. cbn.
  eexists. split; [done|]. unfold rb_wf, rb_unread, rb_len, rb_unwritten. cbn.
  split_and!; try zlia; [|done].
  rewrite app_assoc, zdrop_app_le by zlia. rewrite ztake_app_le by zlia.
  rewrite zdrop_app_le by zlia. rewrite ztake_all by zlia. f_equal.
  rewrite !ztake_take, !zdrop_drop, skipn_firstn_comm. f_equal. lia.
Qed.

(** The same for a buffer as the readers use it: room for [n] bytes, the first
    [zlen s] of them filled. *)
Lemma insert_written_spec n s b :
  rb_wf b → (zlen s ≤ n)%Z → (zlen (rb_data b) + n ≤ usize_max)%Z →
  ∃ b1 b2, tail_with_size n b = Ok b1 ∧ mark_written (zlen s) (fill s b1) = Ok b2 ∧
    rb_wf b2 ∧ rb_unread b2 = rb_unread b ++ s ∧ rb_hasher b2 = rb_hasher b.
Proof.
  intros Hb Hs Hm. zlen_facts.
  destruct (tail_with_size_spec n b Hb ltac:(lia) Hm) as (b1 & E1 & W1 & U1 & L1 & Hh1).
  destruct (fill_written_spec s b1 W1 ltac:(lia)) as (b2 & E2 & W2 & U2 & Hh2 & _).
  exists b1, b2. by rewrite U2, U1, Hh2, Hh1.
Qed.

Lemma unread_set_hasher h b : rb_unread (set_hasher h b) = rb_unread b.
Proof. done. Qed.
Lemma len_set_hasher h b : rb_len (set_hasher h b) = rb_len b.
Proof. done. Qed.
End rwbuf.
#[global] Arguments rb_unread : simpl never.
#[global] Arguments rb_len : simpl never.
#[global] Arguments rb_unwritten : simpl never.
#[global] Arguments set_hasher : simpl never.
