(* ===== verification/Decompressor.v ===== *)
(** Streaming decompression (sans_io/decompressor.rs, zstd.rs, lz4.rs).

    [Decompressor] is the trait; [ZstdDecoder] and [Lz4Decoder] implement it over
    the two C libraries, which are an interface here ([ZstdLib], [Lz4Lib]).
    [decoder] is [Box<dyn Decompressor>]. *)

From S2P Require Import Prelude Utf8 Errors.

#[export] Instance byte_countable : Countable byte.
Proof.
  refine (inj_countable Byte.to_N Byte.of_N _). intros b. apply Byte.of_to_N.
Defined.

(** [trait Decompressor].  [decompress] is given the source bytes and the size of
    the destination, and returns the count it consumed and the bytes it wrote. *)
Class Decompressor (D : Type) := {
  d_next_read_size : D → Z;
  d_decompress : bytes → Z → method D McapError (Z * bytes);
  d_reset : method D McapError ();
  d_name : D → rstring;
}.

(** What [decompress_inner] relies on: a call stays within its buffers; with input and
    with room to write to it moves forward; and a call that was given nothing asks
    for something. *)
Class DecompressorOk D `{Decompressor D} : Prop := {
  d_bounds src n d c out d' : d_decompress src n d = (Ok (c, out), d') →
    (0 ≤ c ≤ zlen src)%Z ∧ (zlen out ≤ Z.max 0 n)%Z;
  d_progress src n d c out d' : d_decompress src n d = (Ok (c, out), d') →
    (0 < n)%Z → (0 < zlen src)%Z → (0 < c + zlen out)%Z;
  d_hint n d c d' : d_decompress [] n d = (Ok (c, []), d') → (0 < d_next_read_size d')%Z;
  d_settles src n d : settles (d_decompress src n d).1;
  d_reset_settles d : settles (d_reset d).1;
}.

(** ** Zstd *)

(** [zstd_safe::DStream]: a result is the library's hint, or an error name. *)
Class ZstdLib := {
  DStream : Type;
  dstream_create : DStream;
  dstream_init : method DStream rstring Z;
  (* bytes consumed, bytes written and the hint; the buffers move even on error *)
  decompress_stream : bytes → Z → DStream → outcome rstring Z * Z * bytes * DStream;
  dstream_reset : method DStream rstring Z;
}.

(** What its documentation promises. *)
Class ZstdLibOk `{ZstdLib} : Prop := {
  zstd_init : ∃ need s, dstream_init dstream_create = (Ok need, s);
  zstd_stream src n s : let '(r, pos, out, s') := decompress_stream src n s in
    match r with
    | Ok need => (0 ≤ pos ≤ zlen src)%Z ∧ (zlen out ≤ Z.max 0 n)%Z ∧
        ((0 < n)%Z → (0 < zlen src)%Z → (0 < pos + zlen out)%Z) ∧
        (src = [] → out = [] → (0 < need)%Z)
    | Err _ => True
    | Panic | Fuel => False
    end;
  zstd_reset s : settles (dstream_reset s).1;
}.

Section zstd.
Context `{ZstdLib}.

Record ZstdDecoder := mkZstdDecoder { zd_s : DStream; zd_need : Z }.

(** [ZstdDecoder::new] *)
Definition ZstdDecoder_new : McapResult ZstdDecoder :=
  let '(r, s) := dstream_init dstream_create in
  match r with
  | Ok need => Ok (mkZstdDecoder s need)
  | _ => Panic
  end.

Definition handle_error (r : outcome rstring Z) : McapResult Z := map_err DecompressionError r.

#[export] Instance ZstdDecoder_Decompressor : Decompressor ZstdDecoder := {|
  d_next_read_size := zd_need;
  d_decompress src n d :=
    let '(r, pos, out, s) := decompress_stream src n (zd_s d) in
    match handle_error r with
    | Ok need => (Ok (pos, out), mkZstdDecoder s need)
    | Err e => (Err e, mkZstdDecoder s (zd_need d))
    | Panic => (Panic, mkZstdDecoder s (zd_need d))
    | Fuel => (Fuel, mkZstdDecoder s (zd_need d))
    end;
  d_reset d :=
    let '(r, s) := dstream_reset (zd_s d) in
    ((λ _, ()) <$> handle_error r, mkZstdDecoder s (zd_need d));
  d_name _ := lit "zstd";
|}.
End zstd.

(** ** LZ4 *)

(** The frame API of liblz4, with [check_error]. *)
Class Lz4Lib := {
  LZ4FContext : Type;
  lz4f_create : outcome io_error LZ4FContext;
  lz4f_decompress : bytes → Z → LZ4FContext → outcome io_error Z * Z * bytes * LZ4FContext;
  lz4f_reset : LZ4FContext → LZ4FContext;
}.

Class Lz4LibOk `{Lz4Lib} : Prop := {
  lz4_create : settles lz4f_create;
  lz4_decompress src n c : let '(r, pos, out, c') := lz4f_decompress src n c in
    match r with
    | Ok need => (0 ≤ pos ≤ zlen src)%Z ∧ (zlen out ≤ Z.max 0 n)%Z ∧
        ((0 < n)%Z → (0 < zlen src)%Z → (0 < pos + zlen out)%Z) ∧
        (src = [] → out = [] → (0 < need)%Z)
    | Err _ => True
    | Panic | Fuel => False
    end;
}.

Section lz4.
Context `{Lz4Lib}.

Record Lz4Decoder := mkLz4Decoder { ld_c : LZ4FContext; ld_next_read_size : Z }.

(** [Lz4Decoder::new]: 13 is the least size of a frame. *)
Definition Lz4Decoder_new : McapResult Lz4Decoder :=
  context ← map_err Io lz4f_create;
  mret (mkLz4Decoder context 13).

#[export] Instance Lz4Decoder_Decompressor : Decompressor Lz4Decoder := {|
  d_next_read_size := ld_next_read_size;
  d_decompress src n d :=
    let '(r, src_size, out, c) := lz4f_decompress src n (ld_c d) in
    match map_err Io r with
    | Ok need => (Ok (src_size, out), mkLz4Decoder c need)
    | Err e => (Err e, mkLz4Decoder c (ld_next_read_size d))
    | Panic => (Panic, mkLz4Decoder c (ld_next_read_size d))
    | Fuel => (Fuel, mkLz4Decoder c (ld_next_read_size d))
    end;
  d_reset d := (Ok (), mkLz4Decoder (lz4f_reset (ld_c d)) (ld_next_read_size d));
  d_name _ := lit "lz4";
|}.
End lz4.

(** ** Boxed decompressors *)

Section boxed.
Context `{ZstdLib, Lz4Lib}.

Inductive decoder :=
| BoxZstd (d : ZstdDecoder)
| BoxLz4 (d : Lz4Decoder).

Definition box {D E A} (mk : D → decoder) (r : outcome E A * D) : outcome E A * decoder :=
  let '(o, d) := r in (o, mk d).

#[export] Instance decoder_Decompressor : Decompressor decoder := {|
  d_next_read_size d :=
    match d with BoxZstd d => d_next_read_size d | BoxLz4 d => d_next_read_size d end;
  d_decompress src n d :=
    match d with
    | BoxZstd d => box BoxZstd (d_decompress src n d)
    | BoxLz4 d => box BoxLz4 (d_decompress src n d)
    end;
  d_reset d :=
    match d with
    | BoxZstd d => box BoxZstd (d_reset d)
    | BoxLz4 d => box BoxLz4 (d_reset d)
    end;
  d_name d := match d with BoxZstd d => d_name d | BoxLz4 d => d_name d end;
|}.

(** [get_decompressor] *)
Definition get_decompressor (decompressors : gmap bytes decoder) (name : rstring)
    : McapResult (option decoder) * gmap bytes decoder :=
  match decompressors !! name with
  | Some d => (Ok (Some d), delete name decompressors)
  | None =>
      (if decide (name = lit "zstd") then (λ d, Some (BoxZstd d)) <$> ZstdDecoder_new
       else if decide (name = lit "lz4") then (λ d, Some (BoxLz4 d)) <$> Lz4Decoder_new
       else if decide (name = []) then Ok None
       else Err (UnsupportedCompression name),
       decompressors)
  end.

#[export] Instance decoder_DecompressorOk `{!ZstdLibOk, !Lz4LibOk} : DecompressorOk decoder.
Proof.
  split.
  - intros src n [[s need]|[c0 need]] c out d'; cbn;
      [pose proof (zstd_stream src n s) as Hs; destruct (decompress_stream src n s) as [[[r pos] o] s']
      |pose proof (lz4_decompress src n c0) as Hs; destruct (lz4f_decompress src n c0) as [[[r pos] o] s']];
      destruct r; cbn; intros [=]; subst; naive_solver.
  - intros src n [[s need]|[c0 need]] c out d'; cbn;
      [pose proof (zstd_stream src n s) as Hs; destruct (decompress_stream src n s) as [[[r pos] o] s']
      |pose proof (lz4_decompress src n c0) as Hs; destruct (lz4f_decompress src n c0) as [[[r pos] o] s']];
      destruct r; cbn; intros [=]; subst; naive_solver.
  - intros n [[s need]|[c0 need]] c d'; cbn;
      [pose proof (zstd_stream [] n s) as Hs; destruct (decompress_stream [] n s) as [[[r pos] o] s']
      |pose proof (lz4_decompress [] n c0) as Hs; destruct (lz4f_decompress [] n c0) as [[[r pos] o] s']];
      destruct r; cbn; intros [=]; subst; naive_solver.
  - intros src n [[s need]|[c0 need]]; cbn;
      [pose proof (zstd_stream src n s) as Hs; destruct (decompress_stream src n s) as [[[r pos] o] s']
      |pose proof (lz4_decompress src n c0) as Hs; destruct (lz4f_decompress src n c0) as [[[r pos] o] s']];
      by destruct r.
  - intros [[s need]|[c0 need]]; cbn; [|done].
    pose proof (zstd_reset s) as Hs. destruct (dstream_reset s) as [[] s']; done.
Qed.

Lemma get_decompressor_settles `{!ZstdLibOk, !Lz4LibOk} m name :
  settles (get_decompressor m name).1.
Proof.
  unfold get_decompressor. destruct (m !! name); [done|]. cbn.
  destruct (decide _); [|destruct (decide _); [|by destruct (decide _)]].
  - unfold ZstdDecoder_new. destruct zstd_init as (need & s & ->). done.
  - unfold Lz4Decoder_new. pose proof lz4_create as Hc. by destruct lz4f_create.
Qed.
End boxed.
#[global] Arguments d_next_read_size : simpl never.
#[global] Arguments d_decompress : simpl never.
#[global] Arguments d_reset : simpl never.
#[global] Arguments d_name : simpl never.

(** ** An instance *)

(** A library whose compressed form is the content itself, for the examples. *)
Module CopyLib.
Definition copy_stream (src : bytes) (n : Z) : Z * bytes :=
  (Z.min (zlen src) (Z.max 0 n), ztake n src).

#[export] Instance copy_zstd : ZstdLib := {|
  DStream := ();
  dstream_create := ();
  dstream_init := λ s, (Ok 1%Z, s);
  decompress_stream := λ src n s, (Ok 1%Z, (copy_stream src n).1, (copy_stream src n).2, s);
  dstream_reset := λ s, (Ok 1%Z, s);
|}.
#[export] Instance copy_lz4 : Lz4Lib := {|
  LZ4FContext := ();
  lz4f_create := Ok ();
  lz4f_decompress := λ src n s, (Ok 1%Z, (copy_stream src n).1, (copy_stream src n).2, s);
  lz4f_reset := id;
|}.

#[export] Instance copy_zstd_ok : ZstdLibOk.
Proof.
  split; [by exists 1%Z, ()| |done].
  intros src n s. cbn. zlen_facts. rewrite zlen_ztake. split_and!; lia.
Qed.
#[export] Instance copy_lz4_ok : Lz4LibOk.
Proof.
  split; [done|]. intros src n s. cbn. zlen_facts. rewrite zlen_ztake. split_and!; lia.
Qed.
End CopyLib.
