(* ===== verification/LinearReader.v ===== *)
(** The sans-io linear reader (sans_io/linear_reader.rs): a state machine fed with
    pieces of a file, which yields its records.

    [next_event] is a loop around a match on [currently_reading]; each arm is one
    definition here, run in a monad [flow] with the three ways an arm can leave: by
    falling through to the next iteration, by returning an event, or by returning
    an error.  The [load!], [consume!], [decompress!] and [check!] macros are
    operations of that monad. *)

From S2P Require Import Prelude Utf8 BTree Errors Bin Records Crc Codec RwBuf Decompressor.

(** [check_len] (sans_io.rs) *)
Definition check_len (len : Z) (limit : option Z) : option Z :=
  if (len <=? usize_max)%Z
  then match limit with
       | Some limit => if (limit <? len)%Z then None else Some len
       | None => Some len
       end
  else None.

Definition OPCODE_LEN_SIZE : Z := 1 + 8.

Record LinearReaderOptions := mkLinearReaderOptions {
  skip_start_magic : bool;
  skip_end_magic : bool;
  check_finishes_after_end_magic : bool;
  emit_chunks : bool;
  validate_chunk_crcs : bool;
  prevalidate_chunk_crcs : bool;
  validate_data_section_crc : bool;
  validate_summary_section_crc : bool;
  record_length_limit : option Z;
}.

Definition LinearReaderOptions_default : LinearReaderOptions :=
  mkLinearReaderOptions false false false false false false false false None.

Definition with_skip_start_magic (b : bool) (o : LinearReaderOptions) : LinearReaderOptions :=
  mkLinearReaderOptions b (skip_end_magic o) (check_finishes_after_end_magic o) (emit_chunks o)
    (validate_chunk_crcs o) (prevalidate_chunk_crcs o) (validate_data_section_crc o)
    (validate_summary_section_crc o) (record_length_limit o).
Definition with_skip_end_magic (b : bool) (o : LinearReaderOptions) : LinearReaderOptions :=
  mkLinearReaderOptions (skip_start_magic o) b (check_finishes_after_end_magic o) (emit_chunks o)
    (validate_chunk_crcs o) (prevalidate_chunk_crcs o) (validate_data_section_crc o)
    (validate_summary_section_crc o) (record_length_limit o).
Definition with_check_finishes_after_end_magic (b : bool) (o : LinearReaderOptions)
    : LinearReaderOptions :=
  mkLinearReaderOptions (skip_start_magic o) (skip_end_magic o) b (emit_chunks o)
    (validate_chunk_crcs o) (prevalidate_chunk_crcs o) (validate_data_section_crc o)
    (validate_summary_section_crc o) (record_length_limit o).
Definition with_emit_chunks (b : bool) (o : LinearReaderOptions) : LinearReaderOptions :=
  mkLinearReaderOptions (skip_start_magic o) (skip_end_magic o) (check_finishes_after_end_magic o) b
    (validate_chunk_crcs o) (prevalidate_chunk_crcs o) (validate_data_section_crc o)
    (validate_summary_section_crc o) (record_length_limit o).
Definition with_validate_chunk_crcs (b : bool) (o : LinearReaderOptions) : LinearReaderOptions :=
  mkLinearReaderOptions (skip_start_magic o) (skip_end_magic o) (check_finishes_after_end_magic o)
    (emit_chunks o) b (prevalidate_chunk_crcs o) (validate_data_section_crc o)
    (validate_summary_section_crc o) (record_length_limit o).
Definition with_prevalidate_chunk_crcs (b : bool) (o : LinearReaderOptions) : LinearReaderOptions :=
  mkLinearReaderOptions (skip_start_magic o) (skip_end_magic o) (check_finishes_after_end_magic o)
    (emit_chunks o) (validate_chunk_crcs o) b (validate_data_section_crc o)
    (validate_summary_section_crc o) (record_length_limit o).
Definition with_validate_data_section_crc (b : bool) (o : LinearReaderOptions) : LinearReaderOptions :=
  mkLinearReaderOptions (skip_start_magic o) (skip_end_magic o) (check_finishes_after_end_magic o)
    (emit_chunks o) (validate_chunk_crcs o) (prevalidate_chunk_crcs o) b
    (validate_summary_section_crc o) (record_length_limit o).
Definition with_validate_summary_section_crc (b : bool) (o : LinearReaderOptions)
    : LinearReaderOptions :=
  mkLinearReaderOptions (skip_start_magic o) (skip_end_magic o) (check_finishes_after_end_magic o)
    (emit_chunks o) (validate_chunk_crcs o) (prevalidate_chunk_crcs o) (validate_data_section_crc o)
    b (record_length_limit o).
Definition with_record_length_limit (limit : Z) (o : LinearReaderOptions) : LinearReaderOptions :=
  mkLinearReaderOptions (skip_start_magic o) (skip_end_magic o) (check_finishes_after_end_magic o)
    (emit_chunks o) (validate_chunk_crcs o) (prevalidate_chunk_crcs o) (validate_data_section_crc o)
    (validate_summary_section_crc o) (Some limit).

Inductive LinearReadEvent :=
| ReadRequest (need : Z)
| EvRecord (opcode : Z) (data : bytes).

(** ** Control flow of an iteration *)

(** What one pass through an arm does: go on with a value, or return from
    [next_event]. *)
Inductive ctl (R A : Type) := Next (a : A) | Return (r : R).
Arguments Next {R A}. Arguments Return {R A}.

Definition flow (S R A : Type) : Type := S → outcome McapError (ctl R A) * S.

#[export] Instance flow_ret S R : MRet (flow S R) := λ A a s, (Ok (Next a), s).
#[export] Instance flow_bind S R : MBind (flow S R) := λ A B f m s,
  match m s with
  | (Ok (Next a), s') => f a s'
  | (Ok (Return r), s') => (Ok (Return r), s')
  | (Err e, s') => (Err e, s')
  | (Panic, s') => (Panic, s')
  | (Fuel, s') => (Fuel, s')
  end.
Definition fget {S R A} (f : S → A) : flow S R A := λ s, (Ok (Next (f s)), s).
Definition fset {S R} (f : S → S) : flow S R () := λ s, (Ok (Next ()), f s).
Definition freturn {S R A} (r : R) : flow S R A := λ s, (Ok (Return r), s).
Definition fthrow {S R A} (e : McapError) : flow S R A := λ s, (Err e, s).
(** [check!] *)
Definition check {S R A} (o : McapResult A) : flow S R A := λ s, (Next <$> o, s).

(** ** Decompressing into a buffer *)

(** [clamp_to_usize] *)
Definition clamp_to_usize (len : Z) : Z := Z.min len usize_max.

Section decompress_inner.
Context `{Crc} {D : Type} `{Decompressor D}.

(** The variables [decompress_inner] mutates. *)
Record dstate := mkDstate {
  ds_decompressor : D;
  ds_src : RwBuf;
  ds_dest : RwBuf;
  ds_compressed_remaining : Z;
  ds_uncompressed_remaining : Z;
}.

(** One pass of its loop: [Some r] returns [r], [None] goes round again. *)
Definition decompress_step (s : dstate) : McapResult (option (option Z)) * dstate :=
  let need := d_next_read_size (ds_decompressor s) in
  let have := rb_len (ds_src s) in
  if (have <? need)%Z then (Ok (Some (Some (need - have)%Z)), s) else
  let dst := rb_unwritten (ds_dest s) in
  if (zlen dst =? 0)%Z then (Ok (Some None), s) else
  if (ds_uncompressed_remaining s =? 0)%Z then (Err UnexpectedEoc, s) else
  let src_len := Z.min have (clamp_to_usize (ds_compressed_remaining s)) in
  let src := ztake src_len (rb_unread (ds_src s)) in
  match d_decompress src (zlen dst) (ds_decompressor s) with
  | (Ok (consumed, out), d) =>
      match mark_read consumed (ds_src s),
            mark_written (zlen out) (fill out (ds_dest s)),
            sub_ (E:=McapError) (ds_compressed_remaining s) consumed,
            sub_ (E:=McapError) (ds_uncompressed_remaining s) (zlen out) with
      | Ok src_buf, Ok dest_buf, Ok c, Ok u => (Ok None, mkDstate d src_buf dest_buf c u)
      | _, _, _, _ => (Panic, s)
      end
  | (Err e, d) => (Err e, mkDstate d (ds_src s) (ds_dest s)
                     (ds_compressed_remaining s) (ds_uncompressed_remaining s))
  | (Panic, _) => (Panic, s)
  | (Fuel, _) => (Fuel, s)
  end.

Fixpoint decompress_loop (fuel : nat) (s : dstate) : McapResult (option Z) * dstate :=
  match decompress_step s with
  | (Ok None, s) => match fuel with 0 => (Fuel, s) | S fuel => decompress_loop fuel s end
  | (Ok (Some r), s) => (Ok r, s)
  | (Err e, s) => (Err e, s)
  | (Panic, s) => (Panic, s)
  | (Fuel, s) => (Fuel, s)
  end.

(** [decompress_inner]: [Ok None] once [n] bytes are there, [Ok (Some need)] when
    [need] more bytes of input are.  A pass that has input moves at least one byte,
    of that input or into the room that was made; a decompressor called without
    input may need a few passes more before it asks for some or gives up. *)
Definition decompress_inner (n : Z) (s : dstate) : McapResult (option Z) * dstate :=
  let additional := saturating_sub n (rb_len (ds_dest s)) in
  if (additional =? 0)%Z then (Ok None, s) else
  match reserve_exact additional (ds_dest s) with
  | Ok dest =>
      let s := mkDstate (ds_decompressor s) (ds_src s) dest
                 (ds_compressed_remaining s) (ds_uncompressed_remaining s) in
      decompress_loop (32 + 2 * (length (rb_unread (ds_src s)) + length (rb_unwritten dest))) s
  | _ => (Panic, s)
  end.
End decompress_inner.
Arguments dstate {_} _.

(** ** The reader *)

Section linear_reader.
Context `{Crc, ZstdLib, Lz4Lib}.

Inductive CurrentlyReading :=
| StartMagic
| FileRecord
| CRChunkHeader (len : Z)
| CRFooter (len : Z) (footer_hasher : option hasher)
| CRDataEnd (len : Z) (calculated : option Z)
| ValidatingChunkCrc
| ChunkRecord
| PaddingAfterChunk
| EndMagic
| AfterEndMagic.

Record ChunkState := mkChunkState {
  cs_decompressor : option decoder;
  cs_uncompressed_data_hasher : option hasher;
  cs_compressed_remaining : Z;
  cs_uncompressed_remaining : Z;
  cs_uncompressed_len : Z;
  cs_padding_after_compressed_data : Z;
  cs_crc : Z;
}.

Record LinearReader := mkLinearReader {
  currently_reading : CurrentlyReading;
  chunk_state : option ChunkState;
  file_data : RwBuf;
  decompressed_content : RwBuf;
  decompressors : gmap bytes decoder;
  options : LinearReaderOptions;
  at_eof : bool;
}.

(** [new_with_options] *)
Definition LinearReader_new (o : LinearReaderOptions) : LinearReader :=
  mkLinearReader
    (if skip_start_magic o then FileRecord else StartMagic)
    None
    (rb_new (validate_data_section_crc o))
    (rb_new (validate_chunk_crcs o && negb (prevalidate_chunk_crcs o)))
    ∅ o false.

(** [for_chunk] *)
Definition for_chunk (header : ChunkHeader) : McapResult LinearReader :=
  let result := LinearReader_new (with_validate_chunk_crcs true
    (with_skip_start_magic true (with_skip_end_magic true LinearReaderOptions_default))) in
  d ← (get_decompressor ∅ (ch_compression header)).1;
  mret (mkLinearReader ChunkRecord
    (Some (mkChunkState d (Some hasher_new) (ch_compressed_size header)
             (ch_uncompressed_size header) (ch_uncompressed_size header) 0
             (ch_uncompressed_crc header)))
    (file_data result) (decompressed_content result) (decompressors result)
    (options result) (at_eof result)).

(** Assignments to the fields. *)
Definition set_reading (c : CurrentlyReading) (s : LinearReader) : LinearReader :=
  mkLinearReader c (chunk_state s) (file_data s) (decompressed_content s) (decompressors s)
    (options s) (at_eof s).
Definition set_chunk_state (c : option ChunkState) (s : LinearReader) : LinearReader :=
  mkLinearReader (currently_reading s) c (file_data s) (decompressed_content s) (decompressors s)
    (options s) (at_eof s).
Definition set_file_data (b : RwBuf) (s : LinearReader) : LinearReader :=
  mkLinearReader (currently_reading s) (chunk_state s) b (decompressed_content s) (decompressors s)
    (options s) (at_eof s).
Definition set_decompressed (b : RwBuf) (s : LinearReader) : LinearReader :=
  mkLinearReader (currently_reading s) (chunk_state s) (file_data s) b (decompressors s)
    (options s) (at_eof s).
Definition set_decompressors (m : gmap bytes decoder) (s : LinearReader) : LinearReader :=
  mkLinearReader (currently_reading s) (chunk_state s) (file_data s) (decompressed_content s) m
    (options s) (at_eof s).
Definition set_at_eof (b : bool) (s : LinearReader) : LinearReader :=
  mkLinearReader (currently_reading s) (chunk_state s) (file_data s) (decompressed_content s)
    (decompressors s) (options s) b.

(** [insert]: the slice it returns is the unwritten part of [file_data]. *)
Definition insert (to_write : Z) (s : LinearReader) : McapResult LinearReader :=
  b ← tail_with_size to_write (file_data s);
  mret (set_file_data b s).

(** [notify_read] *)
Definition notify_read (written : Z) (s : LinearReader) : McapResult LinearReader :=
  let s := if (written =? 0)%Z then set_at_eof true s else s in
  _ ← rassert (written <=? zlen (rb_unwritten (file_data s)))%Z;
  b ← mark_written written (file_data s);
  mret (set_file_data b s).

(** ** The macros *)

Abbreviation lflow := (flow LinearReader (option LinearReadEvent)).

Definition read_request {A} (n : Z) : lflow A := freturn (Some (ReadRequest n)).

(** [load!(n)] *)
Definition load (n : Z) : lflow bytes :=
  len ← fget (λ s, rb_len (file_data s));
  if (len <? n)%Z then read_request (n - len)
  else fget (λ s, ztake n (rb_unread (file_data s))).

(** [consume!(n)] *)
Definition consume_file (n : Z) : lflow bytes :=
  len ← fget (λ s, rb_len (file_data s));
  if (len <? n)%Z then read_request (n - len)
  else
    b ← fget file_data;
    '(data, b) ← check (consume n b);
    _ ← fset (set_file_data b);
    mret data.

(** [self.file_data.consume_without_hashing(n)] *)
Definition consume_file_without_hashing (n : Z) : lflow bytes :=
  b ← fget file_data;
  '(data, b) ← check (consume_without_hashing n b);
  _ ← fset (set_file_data b);
  mret data.

(** [self.file_data.mark_read(n)] *)
Definition mark_file_read (n : Z) : lflow () :=
  b ← fget file_data;
  b ← check (mark_read n b);
  fset (set_file_data b).

(** [self.chunk_state.as_mut().expect(..)] *)
Definition get_chunk_state : lflow ChunkState :=
  c ← fget chunk_state;
  check (expect c).

(** [decompress!(n, state, decompressor)] *)
Definition decompress (n : Z) (c : ChunkState) (d : decoder) : lflow bytes := λ s,
  let '(r, ds) := decompress_inner n (mkDstate d (file_data s) (decompressed_content s)
                    (cs_compressed_remaining c) (cs_uncompressed_remaining c)) in
  let c := mkChunkState (Some (ds_decompressor ds)) (cs_uncompressed_data_hasher c)
             (ds_compressed_remaining ds) (ds_uncompressed_remaining ds)
             (cs_uncompressed_len c) (cs_padding_after_compressed_data c) (cs_crc c) in
  let s := set_chunk_state (Some c) (set_decompressed (ds_dest ds) (set_file_data (ds_src ds) s)) in
  match r with
  | Ok None => (Next <$> slice 0 n (rb_unread (decompressed_content s)), s)
  | Ok (Some need) => (Ok (Return (Some (ReadRequest need))), s)
  | Err e => (Err e, s)
  | Panic => (Panic, s)
  | Fuel => (Fuel, s)
  end.

(** The opcode and the length at the head of a record. *)
Definition opcode_of (b : bytes) : Z := le_dec (ztake 1 b).
Definition length_of (b : bytes) : Z := le_dec (zdrop 1 b).

(** ** The arms of the match *)

Definition step_start_magic : lflow () :=
  skip ← fget (λ s, skip_start_magic (options s));
  _ ← (if (skip : bool) then mret () else
         data ← consume_file (zlen MAGIC);
         if decide (data = MAGIC) then mret () else fthrow BadMagic);
  fset (set_reading FileRecord).

Definition step_file_record : lflow () :=
  opcode_length_buf ← load OPCODE_LEN_SIZE;
  let opcode := opcode_of opcode_length_buf in
  let len := length_of opcode_length_buf in
  o ← fget options;
  if (opcode =? op.CHUNK)%Z && negb (emit_chunks o) then
    _ ← mark_file_read OPCODE_LEN_SIZE;
    fset (set_reading (CRChunkHeader len))
  else if (opcode =? op.DATA_END)%Z then
    calculated ← fget (λ s, hasher_finalize <$> rb_hasher (file_data s));
    _ ← fset (λ s, set_file_data (set_hasher None (file_data s)) s);
    _ ← mark_file_read OPCODE_LEN_SIZE;
    fset (set_reading (CRDataEnd len calculated))
  else if (opcode =? op.FOOTER)%Z then
    _ ← mark_file_read OPCODE_LEN_SIZE;
    h ← fget (λ s, rb_hasher (file_data s));
    _ ← fset (λ s, set_file_data (set_hasher None (file_data s)) s);
    fset (set_reading (CRFooter len h))
  else
    len ← check (ok_or (RecordTooLarge opcode len) (check_len len (record_length_limit o)));
    n ← check (add_ usize_max OPCODE_LEN_SIZE len);
    data ← consume_file n;
    freturn (Some (EvRecord opcode (zdrop OPCODE_LEN_SIZE data))).

Definition check_data_crc (saved : Z) (calculated : option Z) : lflow () :=
  match calculated with
  | Some calculated =>
      if negb (saved =? 0)%Z && negb (calculated =? saved)%Z
      then fthrow (BadDataCrc saved calculated) else mret ()
  | None => mret ()
  end.

Definition step_data_end (len : Z) (calculated : option Z) : lflow () :=
  o ← fget options;
  len ← check (ok_or (RecordTooLarge op.DATA_END len) (check_len len (record_length_limit o)));
  body ← load len;
  rec ← check (read_record DataEnd_codec body);
  _ ← check_data_crc (de_data_section_crc rec) calculated;
  _ ← fset (λ s, if validate_summary_section_crc o
                 then set_file_data (set_hasher (Some hasher_new) (file_data s)) s else s);
  data ← consume_file_without_hashing len;
  _ ← fset (set_reading FileRecord);
  freturn (Some (EvRecord op.DATA_END data)).

Definition check_summary_crc (saved : Z) (data : bytes) (h : option hasher) : lflow () :=
  match h with
  | Some h =>
      head ← check (slice 0 16 data);
      let calculated := hasher_finalize (hasher_update h head) in
      if negb (saved =? 0)%Z && negb (saved =? calculated)%Z
      then fthrow (BadSummaryCrc saved calculated) else mret ()
  | None => mret ()
  end.

Definition step_footer (len : Z) (h : option hasher) : lflow () :=
  o ← fget options;
  len ← check (ok_or (RecordTooLarge op.FOOTER len) (check_len len (record_length_limit o)));
  data ← consume_file len;
  footer ← check (read_record Footer_codec data);
  _ ← check_summary_crc (f_summary_crc footer) data h;
  _ ← fset (set_reading EndMagic);
  freturn (Some (EvRecord op.FOOTER data)).

Definition MIN_CHUNK_HEADER_SIZE : Z := 8 + 8 + 8 + 4 + 4 + 8.

Definition step_chunk_header (len : Z) : lflow () :=
  o ← fget options;
  min_header_buf ← load MIN_CHUNK_HEADER_SIZE;
  let compression_len := le_dec (ztake 4 (zdrop 28 min_header_buf)) in
  let header_len := (MIN_CHUNK_HEADER_SIZE + compression_len)%Z in
  header_buf ← consume_file header_len;
  header ← check (read_record ChunkHeader_codec header_buf);
  ds ← fget decompressors;
  let '(r, ds) := get_decompressor ds (ch_compression header) in
  _ ← fset (set_decompressors ds);
  decompressor ← check r;
  chunk_data_len ← check (ok_or UnexpectedEoc (checked_sub len header_len));
  padding ← check (ok_or UnexpectedEoc (checked_sub chunk_data_len (ch_compressed_size header)));
  padding ← check (ok_or (ChunkTooLarge len) (check_len padding (record_length_limit o)));
  let validate := validate_chunk_crcs o && negb (prevalidate_chunk_crcs o) &&
                    negb (ch_uncompressed_crc header =? 0)%Z in
  let state := mkChunkState decompressor
    (if validate && bool_decide (ch_compression header = []) then Some hasher_new else None)
    (ch_compressed_size header) (ch_uncompressed_size header) (ch_uncompressed_size header)
    padding (ch_uncompressed_crc header) in
  _ ← fset (λ s, set_decompressed (set_hasher
        (if validate && negb (bool_decide (ch_compression header = [])) then Some hasher_new else None)
        (rb_clear (decompressed_content s))) s);
  _ ← fset (set_reading
        (if prevalidate_chunk_crcs o && negb (cs_crc state =? 0)%Z
         then ValidatingChunkCrc else ChunkRecord));
  fset (set_chunk_state (Some state)).

Definition step_validating_chunk_crc : lflow () :=
  o ← fget options;
  state ← get_chunk_state;
  match cs_decompressor state with
  | None =>
      to_load ← check (ok_or (ChunkTooLarge (cs_compressed_remaining state))
                   (check_len (cs_compressed_remaining state) (record_length_limit o)));
      records ← load to_load;
      let calculated := crc32 records in
      let saved := cs_crc state in
      if negb (calculated =? saved)%Z then fthrow (BadChunkCrc saved calculated)
      else fset (set_reading ChunkRecord)
  | Some decompressor =>
      uncompressed_len ← check (ok_or (ChunkTooLarge (cs_uncompressed_len state))
                   (check_len (cs_uncompressed_len state) (record_length_limit o)));
      have ← fget (λ s, rb_len (decompressed_content s));
      if (uncompressed_len <=? have)%Z then
        content ← fget (λ s, rb_unread (decompressed_content s));
        let calculated := crc32 content in
        let saved := cs_crc state in
        if negb (calculated =? saved)%Z then fthrow (BadChunkCrc saved calculated)
        else fset (set_reading ChunkRecord)
      else
        _ ← decompress uncompressed_len state decompressor;
        mret ()
  end.

Definition set_compressed_remaining (n : Z) (h : option hasher) (c : ChunkState) : ChunkState :=
  mkChunkState (cs_decompressor c) h n (cs_uncompressed_remaining c) (cs_uncompressed_len c)
    (cs_padding_after_compressed_data c) (cs_crc c).

(** The arm for a record of an uncompressed chunk. *)
Definition step_plain_chunk_record (o : LinearReaderOptions) (state : ChunkState) : lflow () :=
  if (cs_compressed_remaining state =? 0)%Z then fset (set_reading PaddingAfterChunk) else
  opcode_len_buf ← load OPCODE_LEN_SIZE;
  let opcode := opcode_of opcode_len_buf in
  let len := length_of opcode_len_buf in
  len ← check (ok_or (RecordTooLarge opcode len) (check_len len (record_length_limit o)));
  n ← check (add_ usize_max OPCODE_LEN_SIZE len);
  opcode_len_data ← consume_file n;
  let h := (λ h, hasher_update h opcode_len_data) <$> cs_uncompressed_data_hasher state in
  remaining ← check (sub_ (cs_compressed_remaining state) n);
  _ ← fset (set_chunk_state (Some (set_compressed_remaining remaining h state)));
  freturn (Some (EvRecord opcode (zdrop OPCODE_LEN_SIZE opcode_len_data))).

(** The arm for a record of a compressed chunk. *)
Definition step_compressed_chunk_record (o : LinearReaderOptions) (state : ChunkState)
    (decompressor : decoder) : lflow () :=
  _ ← fset (λ s, if (rb_len (decompressed_content s) =? 0)%Z
                 then set_decompressed (rb_clear (decompressed_content s)) s else s);
  have ← fget (λ s, rb_len (decompressed_content s));
  if (cs_uncompressed_remaining state =? 0)%Z && (have =? 0)%Z then
    extra ← check (ok_or (ChunkTooLarge (cs_compressed_remaining state))
               (check_len (cs_compressed_remaining state) (record_length_limit o)));
    padding ← check (add_ usize_max (cs_padding_after_compressed_data state) extra);
    _ ← fset (set_chunk_state (Some (mkChunkState (cs_decompressor state)
           (cs_uncompressed_data_hasher state) 0 (cs_uncompressed_remaining state)
           (cs_uncompressed_len state) padding (cs_crc state))));
    fset (set_reading PaddingAfterChunk)
  else
    opcode_len_buf ← decompress OPCODE_LEN_SIZE state decompressor;
    let opcode := opcode_of opcode_len_buf in
    let len := length_of opcode_len_buf in
    len ← check (ok_or (RecordTooLarge opcode len) (check_len len (record_length_limit o)));
    n ← check (add_ usize_max OPCODE_LEN_SIZE len);
    state ← get_chunk_state;
    decompressor ← check (expect (cs_decompressor state));
    _ ← decompress n state decompressor;
    b ← fget decompressed_content;
    b ← check (mark_read OPCODE_LEN_SIZE b);
    '(data, b) ← check (consume len b);
    _ ← fset (set_decompressed b);
    freturn (Some (EvRecord opcode data)).

Definition step_chunk_record : lflow () :=
  o ← fget options;
  state ← get_chunk_state;
  match cs_decompressor state with
  | None => step_plain_chunk_record o state
  | Some decompressor => step_compressed_chunk_record o state decompressor
  end.

Definition check_chunk_crc (saved : Z) (h : hasher) : lflow () :=
  let calculated := hasher_finalize h in
  if negb (saved =? 0)%Z && negb (saved =? calculated)%Z
  then fthrow (BadChunkCrc saved calculated) else mret ().

Definition step_padding_after_chunk : lflow () :=
  state ← get_chunk_state;
  _ ← consume_file (cs_padding_after_compressed_data state);
  _ ← match cs_decompressor state with
      | Some d =>
          let '(r, d) := d_reset d in
          _ ← fset (set_chunk_state (Some (mkChunkState None (cs_uncompressed_data_hasher state)
                (cs_compressed_remaining state) (cs_uncompressed_remaining state)
                (cs_uncompressed_len state) (cs_padding_after_compressed_data state) (cs_crc state))));
          _ ← check r;
          _ ← fset (λ s, set_decompressors (<[ d_name d := d ]> (decompressors s)) s);
          h ← fget (λ s, rb_hasher (decompressed_content s));
          _ ← fset (λ s, set_decompressed (set_hasher None (decompressed_content s)) s);
          match h with
          | Some h => check_chunk_crc (cs_crc state) h
          | None => mret ()
          end
      | None =>
          match cs_uncompressed_data_hasher state with
          | Some h =>
              _ ← fset (set_chunk_state (Some (set_compressed_remaining
                    (cs_compressed_remaining state) None state)));
              check_chunk_crc (cs_crc state) h
          | None => mret ()
          end
      end;
  _ ← fset (set_chunk_state None);
  fset (set_reading FileRecord).

Definition step_end_magic : lflow () :=
  skip ← fget (λ s, skip_end_magic (options s));
  if (skip : bool) then freturn None else
  data ← consume_file (zlen MAGIC);
  if decide (data = MAGIC) then fset (set_reading AfterEndMagic) else fthrow BadMagic.

Definition step_after_end_magic : lflow () :=
  o ← fget options;
  if check_finishes_after_end_magic o then
    len ← fget (λ s, rb_len (file_data s));
    if (0 <? len)%Z then fthrow BytesAfterEndMagic else
    eof ← fget at_eof;
    if (eof : bool) then freturn None else read_request 1
  else freturn None.

(** One iteration of the loop. *)
Definition step : lflow () := λ s,
  match currently_reading s with
  | StartMagic => step_start_magic s
  | FileRecord => step_file_record s
  | CRDataEnd len calculated => step_data_end len calculated s
  | CRFooter len h => step_footer len h s
  | CRChunkHeader len => step_chunk_header len s
  | ValidatingChunkCrc => step_validating_chunk_crc s
  | ChunkRecord => step_chunk_record s
  | PaddingAfterChunk => step_padding_after_chunk s
  | EndMagic => step_end_magic s
  | AfterEndMagic => step_after_end_magic s
  end.

Fixpoint event_loop (fuel : nat) : method LinearReader McapError (option LinearReadEvent) := λ s,
  match step s with
  | (Ok (Return r), s) => (Ok r, s)
  | (Ok (Next _), s) => match fuel with 0 => (Fuel, s) | S fuel => event_loop fuel s end
  | (Err e, s) => (Err e, s)
  | (Panic, s) => (Panic, s)
  | (Fuel, s) => (Fuel, s)
  end.

(** The end of the input is fine outside of a record and of a chunk. *)
Definition eof_ok (s : LinearReader) : bool :=
  (skip_end_magic (options s) ||
     match currently_reading s with AfterEndMagic => true | _ => false end) &&
  (rb_len (file_data s) =? 0)%Z && (rb_len (decompressed_content s) =? 0)%Z &&
  match chunk_state s with None => true | Some _ => false end.

(** [next_event]: [Ok None] for the end, [Ok (Some ev)] for an event.  Iterations
    that do not return use up input, or leave a state for good within a record,
    so the input buffered bounds the loop. *)
Definition next_event : method LinearReader McapError (option LinearReadEvent) := λ s,
  if at_eof s then
    if eof_ok s then (Ok None, s) else (Err UnexpectedEof, s)
  else event_loop (8 + length (rb_unread (file_data s))) s.
End linear_reader.
