(* ===== verification/LinearReaderTheory.v ===== *)
(** The linear reader's invariant, progress and termination.

    [fpost] is the weakest precondition of an arm; [arm_ok] says what every arm of
    [next_event] does from a well-formed state: it keeps the invariant, a pass that
    goes round again lowers a measure, a read request asks for at least one byte,
    and the arm panics or loops only for the reasons [may_panic] and [may_hang]
    name. *)

From S2P Require Import Prelude Utf8 BTree Errors Bin Records Crc Codec RwBuf Decompressor LinearReader.

(** ** Reasoning about arms *)

Section fpost.
Context {S R : Type}.

Definition fpost {A} (m : flow S R A) (s : S) (Q : outcome McapError (ctl R A) → S → Prop) : Prop :=
  Q (m s).1 (m s).2.

Lemma fpost_bind {A B} (m : flow S R A) (f : A → flow S R B) s Q :
  fpost m s (λ o s', match o with
    | Ok (Next a) => fpost (f a) s' Q
    | Ok (Return r) => Q (Ok (Return r)) s'
    | Err e => Q (Err e) s'
    | Panic => Q Panic s'
    | Fuel => Q Fuel s'
    end) → fpost (m ≫= f) s Q.
Proof.
  unfold fpost, mbind, flow_bind. by destruct (m s) as [[[a|r]|e| |] s'].
Qed.
Lemma fpost_ret {A} (a : A) s (Q : _ → _ → Prop) : Q (Ok (Next a)) s → fpost (mret a) s Q.
Proof. done. Qed.
Lemma fpost_fget {A} (f : S → A) s (Q : _ → _ → Prop) : Q (Ok (Next (f s))) s → fpost (fget f) s Q.
Proof. done. Qed.
Lemma fpost_fset (f : S → S) s (Q : _ → _ → Prop) : Q (Ok (Next ())) (f s) → fpost (fset f) s Q.
Proof. done. Qed.
Lemma fpost_freturn {A} r s (Q : _ → _ → Prop) : Q (Ok (Return r)) s → fpost (A:=A) (freturn r) s Q.
Proof. done. Qed.
Lemma fpost_fthrow {A} e s (Q : _ → _ → Prop) : Q (Err e) s → fpost (A:=A) (fthrow e) s Q.
Proof. done. Qed.
Lemma fpost_check {A} (o : McapResult A) s (Q : _ → _ → Prop) : Q (Next <$> o) s → fpost (check o) s Q.
Proof. done. Qed.
Lemma fpost_mono {A} (m : flow S R A) s (Q1 Q2 : _ → _ → Prop) :
  fpost m s Q1 → (∀ o s', Q1 o s' → Q2 o s') → fpost m s Q2.
Proof. unfold fpost. auto. Qed.
End fpost.

(** Runs an arm up to the next interesting operation. *)
Ltac fstep :=
  lazymatch goal with
  | |- fpost (_ ≫= _) _ _ => apply fpost_bind
  | |- fpost (mret _) _ _ => apply fpost_ret
  | |- fpost (fget _) _ _ => apply fpost_fget
  | |- fpost (fset _) _ _ => apply fpost_fset
  | |- fpost (freturn _) _ _ => apply fpost_freturn
  | |- fpost (fthrow _) _ _ => apply fpost_fthrow
  | |- fpost (check _) _ _ => apply fpost_check
  | |- fpost (if ?b then _ else _) _ _ => destruct b eqn:?
  | |- fpost (let '(_, _) := ?p in _) _ _ => destruct p eqn:?
  end; cbn beta match.
Ltac fsteps := repeat (fstep; cbn beta match).

Lemma check_len_Ok len limit n : check_len len limit = Some n →
  n = len ∧ (len ≤ usize_max)%Z ∧ match limit with Some l => (len ≤ l)%Z | None => True end.
Proof.
  unfold check_len. destruct (Z.leb_spec len usize_max); [|done].
  destruct limit as [l|]; [destruct (Z.ltb_spec l len); [done|]|]; intros [= <-]; split_and!; done || lia.
Qed.

(** ** [decompress_inner] *)

Section decompress_spec.
Context `{Crc} {D : Type} `{Decompressor D, !DecompressorOk D}.

Record ds_wf (s : dstate D) : Prop := {
  dw_src : rb_wf (ds_src s);
  dw_dest : rb_wf (ds_dest s);
  dw_compressed : (0 ≤ ds_compressed_remaining s ≤ usize_max)%Z;
  dw_uncompressed : (0 ≤ ds_uncompressed_remaining s)%Z;
}.

(** The chunk's compressed bytes are used up, but bytes of what follows are
    buffered, so the decompressor is run again on no input at all. *)
Definition starved (s : dstate D) : Prop :=
  ds_compressed_remaining s = 0%Z ∧ (0 < rb_len (ds_src s))%Z ∧
  (d_next_read_size (ds_decompressor s) ≤ rb_len (ds_src s))%Z.

(** The decompressor writes more than the chunk's header announced. *)
Definition overruns (s : dstate D) : Prop :=
  ∃ src n c out d', d_decompress src n (ds_decompressor s) = (Ok (c, out), d') ∧
    (ds_uncompressed_remaining s < zlen out)%Z.

(** What passes do to the buffers: bytes leave the source, and bytes join the
    destination; [advances] also says that they go into the room there was. *)
Definition moves (s s' : dstate D) : Prop :=
  (∃ k, rb_unread (ds_src s') = zdrop k (rb_unread (ds_src s)) ∧ (0 ≤ k ≤ rb_len (ds_src s))%Z) ∧
  (∃ out, rb_unread (ds_dest s') = rb_unread (ds_dest s) ++ out) ∧
  (ds_compressed_remaining s' ≤ ds_compressed_remaining s)%Z.
Definition advances (s s' : dstate D) : Prop :=
  moves s s' ∧
  (rb_len (ds_dest s') + zlen (rb_unwritten (ds_dest s')) =
     rb_len (ds_dest s) + zlen (rb_unwritten (ds_dest s)))%Z.

(** The bytes left to move, and a pass for a decompressor that has to be asked
    without input before it says what it needs. *)
Definition ds_work (s : dstate D) : nat :=
  2 * (length (rb_unread (ds_src s)) + length (rb_unwritten (ds_dest s))) +
  (if (d_next_read_size (ds_decompressor s) <=? 0)%Z then 1 else 0).

Lemma moves_refl s : ds_wf s → moves s s.
Proof.
  intros Hw. split_and!; [exists 0%Z|exists []; by rewrite app_nil_r|done].
  rewrite zdrop_0 by done. split; [done|]. by pose proof (rb_len_nonneg _ (dw_src _ Hw)).
Qed.
Lemma advances_refl s : ds_wf s → advances s s.
Proof. split; [by apply moves_refl|done]. Qed.

Lemma moves_trans s1 s2 s3 : ds_wf s1 → ds_wf s2 → moves s1 s2 → moves s2 s3 → moves s1 s3.
Proof.
  intros W1 W2 ((k & Hk & Bk) & (o & Ho) & C) ((k2 & Hk2 & Bk2) & (o2 & Ho2) & C2).
  pose proof (zlen_unread _ (dw_src _ W1)) as Z1. pose proof (zlen_unread _ (dw_src _ W2)) as Z2.
  split_and!; [|exists (o ++ o2); by rewrite Ho2, Ho, app_assoc|lia].
  exists (k + k2)%Z. rewrite Hk2, Hk, zdrop_zdrop by lia. split; [done|].
  rewrite Hk in Z2. autorewrite with zlen in Z2. lia.
Qed.
Lemma advances_trans s1 s2 s3 : ds_wf s1 → ds_wf s2 → advances s1 s2 → advances s2 s3 → advances s1 s3.
Proof. intros W1 W2 [M1 E1] [M2 E2]. split; [exact (moves_trans s1 s2 s3 W1 W2 M1 M2)|lia]. Qed.

Lemma decompress_step_spec s : ds_wf s →
  match decompress_step s with
  | (Ok None, s') => ds_wf s' ∧ advances s s' ∧ (starved s ∨ ds_work s' < ds_work s)
  | (Ok (Some None), s') => s' = s ∧ rb_unwritten (ds_dest s) = []
  | (Ok (Some (Some need)), s') => s' = s ∧ (0 < need)%Z
  | (Err _, s') => ds_wf s' ∧ advances s s'
  | (Panic, s') => s' = s ∧ overruns s
  | (Fuel, _) => False
  end.
Proof.
  intros Hw. pose proof Hw as [Ws Wd Wc Wu]. unfold decompress_step.
  pose proof (zlen_unread _ Ws) as Hlen.
  zcase; [split; [done|lia]|]. zcase; [split; [done|by apply zlen_zero_nil]|].
  zcase; [split; [done|by apply advances_refl]|].
  set (room := zlen (rb_unwritten (ds_dest s))) in *. set (src := ztake _ (rb_unread (ds_src s))).
  assert (zlen src = Z.min (rb_len (ds_src s)) (ds_compressed_remaining s)) as Hsrc.
  { subst src. unfold clamp_to_usize. zlia. }
  pose proof (d_settles src room (ds_decompressor s)) as Hst.
  destruct (d_decompress src room (ds_decompressor s)) as [[[c out]|e| |] d'] eqn:E; try done.
  2:{ split; [by split|]. exact (advances_refl s Hw). }
  pose proof (d_bounds _ _ _ _ _ _ E) as [Hc Ho].
  destruct (mark_read_spec c (ds_src s) Ws ltac:(lia)) as (b1 & -> & W1 & U1 & L1 & _ & _ & _).
  destruct (fill_written_spec out (ds_dest s) Wd ltac:(subst room; zlen_facts; lia)) as (b2 & -> & W2 & U2 & _ & L2 & R2).
  rewrite sub_Ok by lia. unfold sub_. zcase; [|split; [done|]; exists src, room, c, out, d'; split; [done|lia]].
  zlen_facts. split_and!.
  - split; cbn; done || lia.
  - split; [split_and!|]; cbn; [exists c; split; [done|lia]|by exists out|lia|lia].
  - destruct (Z.le_gt_cases (zlen src) 0) as [Hr|Hr].
    + destruct (Z.le_gt_cases (rb_len (ds_src s)) 0) as [Hh|Hh]; [right|left; unfold starved; lia].
      assert (src = []) as Hnil by (apply zlen_zero_nil; lia). rewrite Hnil in E.
      destruct out as [|x out].
      * pose proof (d_hint _ _ _ _ E) as Hn. unfold ds_work. cbn [ds_decompressor ds_src ds_dest].
        rewrite (proj2 (Z.leb_gt _ _)) by lia. rewrite (proj2 (Z.leb_le _ _)) by lia.
        pose proof (zlen_unread _ W1). rewrite zlen_nil in R2. unfold zlen in *. lia.
      * rewrite zlen_cons in R2. pose proof (zlen_unread _ W1). zlen_facts. unfold ds_work. cbn.
        unfold zlen in *. destruct (_ <=? _)%Z, (_ <=? _)%Z; lia.
    + right. pose proof (d_progress _ _ _ _ _ _ E ltac:(subst room; lia) Hr) as Hp.
      pose proof (zlen_unread _ W1) as Hl1. unfold ds_work. cbn [ds_decompressor ds_src ds_dest].
      unfold zlen in *. destruct (_ <=? _)%Z, (_ <=? _)%Z; lia.
Qed.

(** A pass that goes round again. *)
Definition dpass (s s' : dstate D) : Prop := decompress_step s = (Ok None, s').

Lemma decompress_loop_spec fuel s : ds_wf s →
  match decompress_loop fuel s with
  | (Ok None, s') => ds_wf s' ∧ advances s s' ∧ rb_unwritten (ds_dest s') = []
  | (Ok (Some need), s') => ds_wf s' ∧ advances s s' ∧ (0 < need)%Z
  | (Err _, s') => ds_wf s' ∧ advances s s'
  | (Panic, _) => ∃ s', rtc dpass s s' ∧ overruns s'
  | (Fuel, _) => ds_work s ≤ fuel → ∃ s', rtc dpass s s' ∧ starved s'
  end.
Proof.
  revert s. induction fuel as [|fuel IH]; intros s Hw; cbn [decompress_loop];
    pose proof (decompress_step_spec s Hw) as Hs; destruct (decompress_step s) as [[[[need|]|]|e| |] s1] eqn:E;
    try done; try (destruct Hs as [-> Hs]; try (split_and!; done || by apply advances_refl); by exists s).
  - destruct Hs as (W1 & A1 & [Hs|Hs]); intros Hf; [by exists s|lia].
  - destruct Hs as (W1 & A1 & Hs). specialize (IH s1 W1).
    destruct (decompress_loop fuel s1) as [[[need|]|e| |] s2].
    + destruct IH as (W2 & A2 & ?). split_and!; [done|exact (advances_trans s s1 s2 Hw W1 A1 A2)|done].
    + destruct IH as (W2 & A2 & ?). split_and!; [done|exact (advances_trans s s1 s2 Hw W1 A1 A2)|done].
    + destruct IH as (W2 & A2). split; [done|exact (advances_trans s s1 s2 Hw W1 A1 A2)].
    + destruct IH as (s' & ? & ?). exists s'. split; [by eapply rtc_l|done].
    + intros Hf. destruct Hs as [Hs|Hs]; [by exists s|].
      destruct (IH ltac:(lia)) as (s' & ? & ?). exists s'. split; [by eapply rtc_l|done].
Qed.

(** The state the loop starts from: room for [n] bytes in all. *)
Definition with_dest (s : dstate D) (dest : RwBuf) : dstate D :=
  mkDstate (ds_decompressor s) (ds_src s) dest (ds_compressed_remaining s) (ds_uncompressed_remaining s).

Lemma reserve_exact_spec n b : rb_wf b → (0 ≤ n)%Z → (rb_end b + n ≤ usize_max)%Z →
  ∃ b', reserve_exact n b = Ok b' ∧ rb_wf b' ∧ rb_unread b' = rb_unread b ∧
    zlen (rb_unwritten b') = n ∧ rb_len b' = rb_len b ∧ rb_hasher b' = rb_hasher b ∧
    rb_end b' = rb_end b.
Proof.
  intros [? He] Hn Hm. unfold reserve_exact, checked_add. rewrite (proj2 (Z.leb_le _ _)) by lia. cbn.
  eexists. split; [done|]. unfold rb_wf, rb_unread, rb_unwritten, rb_len. cbn.
  rewrite zlen_zdrop, zlen_resize by lia. split_and!; try done; try lia.
  unfold resize. rewrite zdrop_app_le by zlia. rewrite ztake_app_le by zlia.
  rewrite !ztake_take, !zdrop_drop, skipn_firstn_comm, take_take. f_equal. lia.
Qed.

(** [decompress_inner]: on success the destination holds the [n] bytes asked for;
    it can loop only through a starved decompressor, and panic only on one that
    overruns, or on a buffer larger than the address space. *)
Lemma decompress_inner_spec n s : ds_wf s →
  match decompress_inner n s with
  | (Ok None, s') => ds_wf s' ∧ moves s s' ∧ (n ≤ rb_len (ds_dest s'))%Z
  | (Ok (Some need), s') => ds_wf s' ∧ moves s s' ∧ (0 < need)%Z
  | (Err _, s') => ds_wf s' ∧ moves s s'
  | (Panic, _) => (usize_max < rb_end (ds_dest s) + n)%Z ∨
      ∃ dest s', rtc dpass (with_dest s dest) s' ∧ overruns s'
  | (Fuel, _) => ∃ dest s', rtc dpass (with_dest s dest) s' ∧ starved s'
  end.
Proof.
  intros Hw. pose proof Hw as [Ws Wd Wc Wu]. pose proof (rb_len_nonneg _ Wd).
  unfold decompress_inner, saturating_sub. zcase; [split_and!; [done|by apply moves_refl|lia]|].
  destruct (Z.le_gt_cases (rb_end (ds_dest s) + Z.max 0 (n - rb_len (ds_dest s))) usize_max) as [Hm|Hm].
  2:{ unfold reserve_exact, checked_add. rewrite (proj2 (Z.leb_gt _ _)) by lia. cbn. left. lia. }
  destruct (reserve_exact_spec _ _ Wd (Z.le_max_l _ _) Hm) as (dest & -> & W1 & U1 & R1 & L1 & _).
  fold (with_dest s dest). set (s0 := with_dest s dest).
  assert (ds_wf s0) as W0 by (by split).
  assert (moves s s0) as M0.
  { destruct (moves_refl s Hw) as (Hk & _ & Hc). split_and!; [exact Hk|exists []|done].
    by rewrite app_nil_r. }
  match goal with |- context [ decompress_loop ?f s0 ] =>
    pose proof (decompress_loop_spec f s0 W0) as Hl; destruct (decompress_loop f s0) as [[[need|]|e| |] s1]
  end.
  - destruct Hl as (W2 & [M2 _] & ?). split_and!; [done|exact (moves_trans s s0 s1 Hw W0 M0 M2)|done].
  - destruct Hl as (W2 & [M2 E2] & Hn). split_and!; [done|exact (moves_trans s s0 s1 Hw W0 M0 M2)|].
    rewrite Hn, zlen_nil in E2. cbn in E2. lia.
  - destruct Hl as (W2 & [M2 _]). split; [done|exact (moves_trans s s0 s1 Hw W0 M0 M2)].
  - right. by exists dest.
  - exists dest. apply Hl. unfold ds_work. cbn. destruct (_ <=? _)%Z; lia.
Qed.
End decompress_spec.

(** ** The invariant of the reader *)

Section theory.
Context `{Crc, ZstdLib, Lz4Lib, !ZstdLibOk, !Lz4LibOk}.

Record chunk_ok (c : ChunkState) : Prop := {
  ck_compressed : (0 ≤ cs_compressed_remaining c)%Z;
  ck_uncompressed : (0 ≤ cs_uncompressed_remaining c)%Z;
  ck_len : (0 ≤ cs_uncompressed_len c)%Z;
  ck_padding : (0 ≤ cs_padding_after_compressed_data c)%Z;
  ck_total : (cs_padding_after_compressed_data c + cs_compressed_remaining c ≤ u64_max)%Z;
}.

(** A chunk's state is there exactly while its records are being read. *)
Definition reading_ok (r : CurrentlyReading) (c : option ChunkState) : Prop :=
  match r with
  | CRChunkHeader len | CRFooter len _ | CRDataEnd len _ => in_u 64 len ∧ c = None
  | ValidatingChunkCrc | ChunkRecord | PaddingAfterChunk => is_Some c
  | _ => c = None
  end.

(** A reader that emits whole chunks never looks into one. *)
Definition file_level (r : CurrentlyReading) : Prop :=
  match r with
  | CRChunkHeader _ | ValidatingChunkCrc | ChunkRecord | PaddingAfterChunk => False
  | _ => True
  end.

Record lr_inv (s : LinearReader) : Prop := {
  li_file : rb_wf (file_data s);
  li_dec : rb_wf (decompressed_content s);
  li_reading : reading_ok (currently_reading s) (chunk_state s);
  li_chunk : ∀ c, chunk_state s = Some c → chunk_ok c;
  li_emit : emit_chunks (options s) = true → file_level (currently_reading s);
  li_idle : emit_chunks (options s) = true → rb_len (decompressed_content s) = 0%Z;
}.

(** Why an arm panics: a record length that, with its head, does not fit a [usize];
    a record of an uncompressed chunk that is longer than what the chunk has left;
    or a decompressor that misbehaves. *)
Definition head_overflows (s : LinearReader) : Prop :=
  let len := length_of (ztake OPCODE_LEN_SIZE (rb_unread (file_data s))) in
  (usize_max < OPCODE_LEN_SIZE + len)%Z ∧ is_Some (check_len len (record_length_limit (options s))).
Definition may_panic (s : LinearReader) : Prop :=
  match currently_reading s, chunk_state s with
  | FileRecord, _ => head_overflows s
  | ChunkRecord, Some c =>
      is_Some (cs_decompressor c) ∨ head_overflows s ∨
      (cs_compressed_remaining c <
         OPCODE_LEN_SIZE + length_of (ztake OPCODE_LEN_SIZE (rb_unread (file_data s))))%Z
  | ValidatingChunkCrc, Some c => is_Some (cs_decompressor c)
  | _, _ => False
  end.
Definition may_hang (s : LinearReader) : Prop :=
  match currently_reading s, chunk_state s with
  | ChunkRecord, Some c | ValidatingChunkCrc, Some c => is_Some (cs_decompressor c)
  | _, _ => False
  end.

(** The iterations an event can still take. *)
Definition rank (s : LinearReader) : nat :=
  match currently_reading s with
  | StartMagic => 4
  | FileRecord => 3
  | CRChunkHeader _ | CRFooter _ _ | CRDataEnd _ _ => 0
  | ValidatingChunkCrc =>
      match chunk_state s with
      | Some c =>
          if bool_decide (is_Some (cs_decompressor c)) &&
               (rb_len (decompressed_content s) <? cs_uncompressed_len c)%Z then 7 else 6
      | None => 6
      end
  | ChunkRecord => 5
  | PaddingAfterChunk => 4
  | EndMagic => 1
  | AfterEndMagic => 0
  end.
Definition work (s : LinearReader) : nat := length (rb_unread (file_data s)) + rank s.

Lemma rank_le s : rank s ≤ 7.
Proof.
  unfold rank. destruct (currently_reading s); try lia.
  destruct (chunk_state s); [destruct (_ && _)|]; lia.
Qed.

Definition arm_ok (s : LinearReader) (o : outcome McapError (ctl (option LinearReadEvent) ()))
    (s' : LinearReader) : Prop :=
  (options s' = options s ∧ at_eof s' = at_eof s) ∧
  match o with
  | Ok (Next _) => lr_inv s' ∧ work s' < work s
  | Ok (Return r) => lr_inv s' ∧ (∀ n, r = Some (ReadRequest n) → 0 < n)%Z
  | Err _ => lr_inv s'
  | Panic => may_panic s
  | Fuel => may_hang s
  end.

Lemma fpost_load n s (Q : _ → _ → Prop) : lr_inv s →
  ((rb_len (file_data s) < n)%Z → Q (Ok (Return (Some (ReadRequest (n - rb_len (file_data s)))))) s) →
  ((n ≤ rb_len (file_data s))%Z → Q (Ok (Next (ztake n (rb_unread (file_data s))))) s) →
  fpost (load n) s Q.
Proof. intros Hi Hq1 Hq2. unfold load. fstep. fstep. zcase; [apply Hq1; lia|apply Hq2; lia]. Qed.

Lemma fpost_consume n s (Q : _ → _ → Prop) : lr_inv s → (0 ≤ n)%Z →
  ((rb_len (file_data s) < n)%Z → Q (Ok (Return (Some (ReadRequest (n - rb_len (file_data s)))))) s) →
  (∀ b, (n ≤ rb_len (file_data s))%Z → rb_wf b → rb_unread b = zdrop n (rb_unread (file_data s)) →
     rb_len b = (rb_len (file_data s) - n)%Z →
     rb_hasher b = hash_opt (rb_hasher (file_data s)) (ztake n (rb_unread (file_data s))) →
     Q (Ok (Next (ztake n (rb_unread (file_data s))))) (set_file_data b s)) →
  fpost (consume_file n) s Q.
Proof.
  intros Hi Hn Hq1 Hq2. unfold consume_file. fstep. fstep. zcase; [apply Hq1; lia|].
  destruct (consume_spec n _ (li_file _ Hi) ltac:(lia)) as (b & E & W & U & L & Hh).
  fsteps. rewrite E. cbn. fsteps. auto.
Qed.

Lemma fpost_mark_file_read n s (Q : _ → _ → Prop) : lr_inv s → (0 ≤ n ≤ rb_len (file_data s))%Z →
  (∀ b, rb_wf b → rb_unread b = zdrop n (rb_unread (file_data s)) →
     rb_hasher b = hash_opt (rb_hasher (file_data s)) (ztake n (rb_unread (file_data s))) →
     Q (Ok (Next ())) (set_file_data b s)) →
  fpost (mark_file_read n) s Q.
Proof.
  intros Hi Hn Hq. unfold mark_file_read. fstep. fstep.
  destruct (mark_read_spec n _ (li_file _ Hi) Hn) as (b & E & W & U & _ & Hh & _).
  fsteps. rewrite E. cbn. fstep. auto.
Qed.

Lemma length_of_range u : (OPCODE_LEN_SIZE ≤ zlen u)%Z →
  in_u 64 (length_of (ztake OPCODE_LEN_SIZE u)).
Proof.
  intros Hl. unfold length_of, OPCODE_LEN_SIZE in *. unfold in_u.
  pose proof (le_dec_range (zdrop 1 (ztake (1 + 8) u))) as Hr.
  rewrite zlen_zdrop, zlen_ztake in Hr.
  replace (Z.min (Z.max 0 (1 + 8)) (zlen u)) with 9%Z in Hr by lia.
  by change (256 ^ (9 - Z.min (Z.max 0 1) 9))%Z with (2 ^ 64)%Z in Hr.
Qed.

(** ** The arms *)

Lemma nonneg_len s : lr_inv s → (0 ≤ rb_len (file_data s))%Z.
Proof. intros Hi. apply rb_len_nonneg, Hi. Qed.

Lemma unread_length s : lr_inv s → Z.of_nat (length (rb_unread (file_data s))) = rb_len (file_data s).
Proof. intros Hi. apply (zlen_unread _ (li_file _ Hi)). Qed.

(** What is buffered after [n] bytes were taken off. *)
Lemma consumed_length s n b : lr_inv s → (0 ≤ n ≤ rb_len (file_data s))%Z →
  rb_unread b = zdrop n (rb_unread (file_data s)) →
  Z.of_nat (length (rb_unread b)) = (Z.of_nat (length (rb_unread (file_data s))) - n)%Z.
Proof.
  intros Hi Hn ->. pose proof (unread_length s Hi).
  change (Z.of_nat (length ?l)) with (zlen l) in *. zlia.
Qed.

Lemma emit_chunks_false s : lr_inv s → ¬ file_level (currently_reading s) → emit_chunks (options s) = false.
Proof. intros Hi Hf. destruct (emit_chunks (options s)) eqn:E; [|done]. destruct Hf. by apply Hi. Qed.

(** The invariant after an arm that assigned to a few fields. *)
Ltac keep :=
  lazymatch goal with
  | Hi : lr_inv ?s |- lr_inv _ =>
      destruct Hi; split; cbn;
      try (first [ done | congruence
           | lazymatch goal with Hr : currently_reading s = _ |- _ => rewrite Hr; first [done|by eexists] end
           | lazymatch goal with Hc : chunk_state s = _ |- _ => rewrite Hc; first [done|by eexists] end
           | lazymatch goal with Hr : currently_reading s = _, Hc : chunk_state s = _ |- _ =>
               rewrite Hr, Hc; first [done|by eexists] end ])
  end.

(** A request leaves the reader as it was. *)
Lemma arm_request s n : lr_inv s → (0 < n)%Z → arm_ok s (Ok (Return (Some (ReadRequest n)))) s.
Proof. intros Hi Hn. split; [done|]. split; [done|]. by intros ? [= ->]. Qed.

Lemma step_start_magic_ok s : lr_inv s → currently_reading s = StartMagic →
  fpost step_start_magic s (arm_ok s).
Proof.
  intros Hi Hr. pose proof (li_reading _ Hi) as Hc. rewrite Hr in Hc.
  pose proof (nonneg_len _ Hi). unfold step_start_magic. fstep. fstep. fstep. fstep.
  - fsteps. split; [done|]. split; [keep|]. unfold work, rank. rewrite Hr. cbn. lia.
  - fstep. apply fpost_consume; [done|done|intros; apply arm_request; [done|lia]|].
    intros b Hl W U L _. fstep.
    + fsteps. split; [done|]. split; [keep|].
      pose proof (consumed_length s _ b Hi (conj (zlen_nonneg _) Hl) U).
      unfold work, rank. rewrite Hr. cbn. zlen_facts. lia.
    + fstep. split; [done|]. keep.
Qed.

Lemma step_file_record_ok s : lr_inv s → currently_reading s = FileRecord →
  fpost step_file_record s (arm_ok s).
Proof.
  intros Hi Hr. pose proof (li_reading _ Hi) as Hc. rewrite Hr in Hc. cbn in Hc.
  pose proof (nonneg_len _ Hi). unfold step_file_record. fstep.
  apply fpost_load; [done|intros; apply arm_request; [done|lia]|]. intros Hl.
  pose proof (length_of_range (rb_unread (file_data s)) ltac:(rewrite zlen_unread by apply Hi; done)) as Hlen.
  set (head := ztake OPCODE_LEN_SIZE (rb_unread (file_data s))) in *. cbn beta match zeta.
  assert (0 ≤ OPCODE_LEN_SIZE ≤ rb_len (file_data s))%Z as Hb by done.
  fstep. fstep. fstep; [|fstep; [|fstep]].
  - match goal with Hb : _ && negb _ = true |- _ => apply andb_true_iff in Hb as [_ Hne%negb_true_iff] end.
    fstep. apply fpost_mark_file_read; [done|done|]. intros b W U _. fsteps.
    split; [done|]. split; [keep|].
    pose proof (consumed_length s _ b Hi Hb U). unfold work, rank. rewrite Hr. cbn in *.
    rewrite ?unread_set_hasher. lia.
  - fsteps. apply fpost_mark_file_read; [keep|done|]. intros b W U _. fsteps.
    split; [done|]. split; [keep|].
    pose proof (consumed_length s _ b Hi Hb U). unfold work, rank. rewrite Hr. cbn in *.
    rewrite ?unread_set_hasher. lia.
  - fstep. apply fpost_mark_file_read; [done|done|]. intros b W U _. fsteps.
    split; [done|]. split; [keep|].
    pose proof (consumed_length s _ b Hi Hb U). unfold work, rank. rewrite Hr. cbn in *.
    rewrite ?unread_set_hasher. lia.
  - fstep. fstep. destruct (check_len _ _) as [m|] eqn:Hk; cbn; [|split; [done|done]].
    pose proof (check_len_Ok _ _ _ Hk) as (-> & Hm & Hlim). fstep. fstep. unfold add_. zcase; cbn.
    2:{ split; [done|]. unfold may_panic, head_overflows. rewrite Hr. fold head.
        split; [lia|]. rewrite Hk. by eexists. }
    fstep. unfold OPCODE_LEN_SIZE, in_u in *.
    apply fpost_consume; [done|lia|intros; apply arm_request; [done|lia]|].
    intros b Hl2 W U L _. fsteps. split; [done|]. split; [keep|done].
Qed.

Lemma fpost_check_data_crc saved calculated s (Q : _ → _ → Prop) :
  Q (Ok (Next ())) s → (∀ e, Q (Err e) s) → fpost (check_data_crc saved calculated) s Q.
Proof. intros Hq He. unfold check_data_crc. destruct calculated; [destruct (_ && _)|]; by repeat fstep. Qed.

Lemma fpost_check_summary_crc saved data h s (Q : _ → _ → Prop) : (16 ≤ zlen data)%Z →
  Q (Ok (Next ())) s → (∀ e, Q (Err e) s) → fpost (check_summary_crc saved data h) s Q.
Proof.
  intros Hl Hq He. unfold check_summary_crc. destruct h as [h|]; [|done].
  fsteps. rewrite slice_Ok by lia. cbn. fstep; auto; by fstep.
Qed.

Lemma step_data_end_ok s len calculated : lr_inv s → currently_reading s = CRDataEnd len calculated →
  fpost (step_data_end len calculated) s (arm_ok s).
Proof.
  intros Hi Hr. pose proof (li_reading _ Hi) as Hc. rewrite Hr in Hc. destruct Hc as [Hu Hc].
  pose proof (nonneg_len _ Hi). unfold step_data_end. fstep. fstep. fstep. fstep.
  destruct (check_len _ _) as [m|] eqn:Hk; cbn; [|by split].
  apply check_len_Ok in Hk as (-> & _ & _). fstep.
  apply fpost_load; [done|intros; apply arm_request; [done|lia]|]. intros Hl. fstep. fstep.
  pose proof (read_record_settles DataEnd_codec (ztake len (rb_unread (file_data s)))) as Hs.
  destruct (read_record _ _) as [rec|e| |]; cbn; try done. clear Hs.
  fstep. apply fpost_check_data_crc; [|intros; by split]. fsteps.
  set (s1 := if validate_summary_section_crc _ then _ else _).
  assert (∃ h, s1 = set_file_data (set_hasher h (file_data s)) s) as [h ->].
  { subst s1. destruct (validate_summary_section_crc _); [by eexists|]. exists (rb_hasher (file_data s)).
    by destruct s as [? ? []]. }
  destruct (consume_without_hashing_spec len (set_hasher h (file_data s)) (li_file _ Hi))
    as (b & E & W & U & L & _); [rewrite len_set_hasher; unfold in_u in *; lia|].
  unfold consume_file_without_hashing. fsteps. cbn [file_data set_file_data]. rewrite E.
  cbn. fsteps. split; [done|]. split; [keep|done].
Qed.

Lemma footer_length body f : read_record Footer_codec body = Ok f → (20 ≤ zlen body)%Z.
Proof.
  intros Hf. apply (read_record_canon Footer_codec) in Hf as (extra & ->). cbn. zlia.
Qed.

Lemma step_footer_ok s len h : lr_inv s → currently_reading s = CRFooter len h →
  fpost (step_footer len h) s (arm_ok s).
Proof.
  intros Hi Hr. pose proof (li_reading _ Hi) as Hc. rewrite Hr in Hc. destruct Hc as [Hu Hc].
  pose proof (nonneg_len _ Hi). unfold step_footer. fstep. fstep. fstep. fstep.
  destruct (check_len _ _) as [m|] eqn:Hk; cbn; [|by split].
  apply check_len_Ok in Hk as (-> & _ & _). fstep. unfold in_u in Hu.
  apply fpost_consume; [done|lia|intros; apply arm_request; [done|lia]|]. intros b Hl W U L _. fstep. fstep.
  set (data := ztake len _).
  pose proof (read_record_settles Footer_codec data) as Hs.
  destruct (read_record _ _) as [f|e| |] eqn:Hf; cbn; try done; clear Hs.
  2:{ split; [done|]. keep. }
  apply footer_length in Hf. fstep. apply fpost_check_summary_crc; [lia| |].
  - fsteps. split; [done|]. split; [keep|done].
  - intros e'. split; [done|]. keep.
Qed.

Lemma checked_sub_Some a b n : checked_sub a b = Some n → (b ≤ a)%Z ∧ n = (a - b)%Z.
Proof. unfold checked_sub. zcase; [|done]. by intros [= <-]. Qed.

Lemma chunk_header_range body h : read_record ChunkHeader_codec body = Ok h →
  (0 ≤ ch_compressed_size h ≤ u64_max)%Z ∧ (0 ≤ ch_uncompressed_size h ≤ u64_max)%Z.
Proof.
  unfold read_record. destruct (read_le _ _) as [[h' c]|e| |] eqn:E; try done. intros [= <-].
  apply (read_le_canon ChunkHeader_codec) in E as (Hw & _). cbn in Hw. split_wf.
  split; by apply u64_wf_range.
Qed.

Lemma step_chunk_header_ok s len : lr_inv s → currently_reading s = CRChunkHeader len →
  fpost (step_chunk_header len) s (arm_ok s).
Proof.
  intros Hi Hr. assert (emit_chunks (options s) = false) as Hne by (apply emit_chunks_false; [done|rewrite Hr; by intros []]).
  pose proof (li_reading _ Hi) as Hc. rewrite Hr in Hc. destruct Hc as [Hu Hc].
  pose proof (nonneg_len _ Hi). unfold step_chunk_header. fstep. fstep. fstep.
  apply fpost_load; [done|intros; apply arm_request; [done|lia]|]. intros Hl.
  set (clen := le_dec (ztake 4 _)). assert (0 ≤ clen)%Z by apply le_dec_range.
  assert (MIN_CHUNK_HEADER_SIZE = 40)%Z as Hmin by done. fstep.
  apply fpost_consume; [done|lia|intros; apply arm_request; [done|lia]|].
  intros b Hl2 W U L _. set (hlen := (MIN_CHUNK_HEADER_SIZE + clen)%Z) in *. fstep. fstep.
  set (hbuf := ztake hlen _).
  assert (∀ m, lr_inv (set_decompressors m (set_file_data b s))) as Hinv.
  { intros m. keep. }
  pose proof (read_record_settles ChunkHeader_codec hbuf) as Hs.
  destruct (read_record _ _) as [h|e| |] eqn:Hh; cbn; try done; clear Hs.
  2:{ split; [done|]. keep. }
  apply chunk_header_range in Hh as [Hcs Hus].
  fstep. fstep. pose proof (get_decompressor_settles (decompressors s) (ch_compression h)) as Hs.
  cbn [decompressors set_file_data].
  destruct (get_decompressor _ _) as [r ds]. cbn in Hs. fstep. fstep. fstep. fstep.
  destruct r as [d|e| |]; cbn; try done. clear Hs.
  fsteps. destruct (checked_sub len hlen) as [n|] eqn:Hn; cbn; [|by split].
  apply checked_sub_Some in Hn as [Hn ->].
  fsteps. destruct (checked_sub _ _) as [n|] eqn:Hn2; cbn; [|by split].
  apply checked_sub_Some in Hn2 as [Hn2 ->].
  fsteps. destruct (check_len _ _) as [m|] eqn:Hk; cbn; [|by split].
  apply check_len_Ok in Hk as (-> & Hm & _).
  set (val := validate_chunk_crcs _ && _ && _).
  set (hs := if val && negb (bool_decide (ch_compression h = [])) then Some hasher_new else None).
  fsteps. split; [done|]. unfold in_u in Hu. split.
  - destruct Hi; split; cbn; try done; [| |congruence].
    + destruct (prevalidate_chunk_crcs _ && _); by eexists.
    + intros c [= <-]. split; cbn; lia || (unfold u64_max; lia).
  - assert (0 ≤ hlen ≤ rb_len (file_data s))%Z as Hhl by lia.
    pose proof (consumed_length s _ b Hi Hhl U).
    match goal with |- work ?s' < _ => pose proof (rank_le s') end.
    unfold work. cbn [file_data set_chunk_state set_reading set_decompressed set_decompressors set_file_data].
    lia.
Qed.

(** ** Reading out of a chunk *)

(** A reader that went on decompressing its chunk. *)
Record decompressing (s s' : LinearReader) (c' : ChunkState) (d' : decoder) : Prop := {
  dg_inv : lr_inv s';
  dg_options : options s' = options s;
  dg_eof : at_eof s' = at_eof s;
  dg_reading : currently_reading s' = currently_reading s;
  dg_chunk : chunk_state s' = Some c';
  dg_decoder : cs_decompressor c' = Some d';
  dg_len : ∀ c, chunk_state s = Some c → cs_uncompressed_len c' = cs_uncompressed_len c;
  dg_file : length (rb_unread (file_data s')) ≤ length (rb_unread (file_data s));
}.

Definition in_chunk (r : CurrentlyReading) : Prop :=
  match r with ValidatingChunkCrc | ChunkRecord | PaddingAfterChunk => True | _ => False end.

Lemma fpost_decompress n c d s (Q : _ → _ → Prop) : lr_inv s → in_chunk (currently_reading s) →
  chunk_state s = Some c → cs_decompressor c = Some d → (0 ≤ n)%Z →
  (∀ s' c' d', decompressing s s' c' d' → (n ≤ rb_len (decompressed_content s'))%Z →
     Q (Ok (Next (ztake n (rb_unread (decompressed_content s'))))) s') →
  (∀ s' c' d' need, decompressing s s' c' d' → (0 < need)%Z →
     Q (Ok (Return (Some (ReadRequest need)))) s') →
  (∀ s' c' d' e, decompressing s s' c' d' → Q (Err e) s') →
  (∀ s', options s' = options s → at_eof s' = at_eof s → Q Panic s') →
  (∀ s', options s' = options s → at_eof s' = at_eof s → Q Fuel s') →
  fpost (decompress n c d) s Q.
Proof.
  intros Hi Hr Hc Hd Hn Hnext Hret Herr Hpanic Hfuel. unfold fpost, decompress.
  assert (emit_chunks (options s) = false) as Hne
    by (apply emit_chunks_false; [done|]; by destruct (currently_reading s); try intros []).
  set (ds0 := mkDstate _ _ _ _ _). pose proof (li_chunk _ Hi c Hc) as [K1 K2 K3 K4 K5].
  assert (ds_wf ds0) as W0 by (split; cbn; [apply Hi|apply Hi|unfold usize_max; lia|lia]).
  assert (∀ ds, ds_wf ds → moves ds0 ds →
    let c' := mkChunkState (Some (ds_decompressor ds)) (cs_uncompressed_data_hasher c)
       (ds_compressed_remaining ds) (ds_uncompressed_remaining ds) (cs_uncompressed_len c)
       (cs_padding_after_compressed_data c) (cs_crc c) in
    decompressing s (set_chunk_state (Some c') (set_decompressed (ds_dest ds) (set_file_data (ds_src ds) s)))
      c' (ds_decompressor ds)) as Hdg.
  { intros ds [Ws Wd [Wc _] Wu] ((k & Hk & Bk) & _ & Hcr) c'. cbn in Hk, Bk, Hcr. split; try done.
    - destruct Hi as [? ? Hro ?]. split; cbn; try done.
      + destruct (currently_reading s); try done; by eexists.
      + intros ? [= <-]. split; cbn; lia.
      + congruence.
    - intros ? Hc2. rewrite Hc in Hc2. by injection Hc2 as ->.
    - cbn. rewrite Hk, zdrop_drop, length_drop. lia. }
  pose proof (decompress_inner_spec n ds0 W0) as Hs.
  destruct (decompress_inner n ds0) as [[[need|]|e| |] ds]; cbn.
  - destruct Hs as (W & M & Hneed). eapply Hret; [by apply Hdg|done].
  - destruct Hs as (W & M & Hl). specialize (Hdg ds W M). rewrite slice_Ok; [|lia|].
    + cbn. rewrite Z.sub_0_r, zdrop_0 by done. by eapply (Hnext _ _ _ Hdg).
    + rewrite zlen_unread by apply (dg_inv _ _ _ _ Hdg). done.
  - destruct Hs as (W & M). eapply Herr. by apply Hdg.
  - by apply Hpanic.
  - by apply Hfuel.
Qed.

(** The same inside an arm that started in [s0]. *)
Lemma fpost_decompress_arm n c d s s0 (f : bytes → flow LinearReader (option LinearReadEvent) ()) :
  lr_inv s → in_chunk (currently_reading s) →
  chunk_state s = Some c → cs_decompressor c = Some d → (0 ≤ n)%Z →
  options s = options s0 → at_eof s = at_eof s0 → may_panic s0 → may_hang s0 →
  (∀ s' c' d', decompressing s s' c' d' → (n ≤ rb_len (decompressed_content s'))%Z →
     fpost (f (ztake n (rb_unread (decompressed_content s')))) s' (arm_ok s0)) →
  fpost (decompress n c d ≫= f) s (arm_ok s0).
Proof.
  intros Hi Hr Hc Hd Hn Ho He Hp Hh Hnext. fstep. apply fpost_decompress; try done.
  - intros s' c' d' need [] Hneed. split; [split; congruence|]. split; [done|]. by intros ? [= <-].
  - intros s' c' d' e []. split; [split; congruence|done].
  - intros s' ? ?. split; [split; congruence|done].
  - intros s' ? ?. split; [split; congruence|done].
Qed.

Lemma step_validating_chunk_crc_ok s : lr_inv s → currently_reading s = ValidatingChunkCrc →
  fpost step_validating_chunk_crc s (arm_ok s).
Proof.
  intros Hi Hr. assert (emit_chunks (options s) = false) as Hne by (apply emit_chunks_false; [done|rewrite Hr; by intros []]).
  pose proof (li_reading _ Hi) as Hc. rewrite Hr in Hc. destruct Hc as [c Hc].
  pose proof (nonneg_len _ Hi). unfold step_validating_chunk_crc, get_chunk_state.
  fstep. fstep. fstep. fstep. fstep. fstep. rewrite Hc. cbn.
  pose proof (li_chunk _ Hi c Hc) as [K1 K2 K3 K4 K5].
  destruct (cs_decompressor c) as [d|] eqn:Hd.
  - fstep. fstep. destruct (check_len _ _) as [m|] eqn:Hk; cbn; [|by split].
    apply check_len_Ok in Hk as (-> & Hm & _). fstep. fstep. zcase.
    + fstep. fstep. destruct (negb _); fstep; [by split|]. split; [done|].
      split; [keep|].
      unfold work, rank. rewrite Hr, Hc, Hd. cbn. rewrite (proj2 (Z.ltb_ge _ _)) by lia. lia.
    + assert (may_panic s ∧ may_hang s) as [Hp Hh].
      { unfold may_panic, may_hang. rewrite Hr, Hc, Hd. split; by eexists. }
      apply fpost_decompress_arm; try done; [by rewrite Hr|].
      intros s' c' d' [] Hl. fstep. split; [done|]. split; [done|].
      unfold work, rank. rewrite Hr, Hc, Hd, dg_reading0, dg_chunk0, dg_decoder0, Hr.
      rewrite (dg_len0 c Hc), !bool_decide_true by by eexists.
      do 2 (zcase; [|try lia]); cbn; lia.
  - fstep. fstep. destruct (check_len _ _) as [m|] eqn:Hk; cbn; [|by split].
    apply check_len_Ok in Hk as (-> & Hm & _). fstep.
    apply fpost_load; [done|intros; apply arm_request; [done|lia]|]. intros Hl.
    destruct (negb _); fstep; [by split|]. split; [done|].
    split; [keep|].
    unfold work, rank. rewrite Hr, Hc, Hd. cbn. lia.
Qed.

Lemma step_plain_chunk_record_ok s c : lr_inv s → currently_reading s = ChunkRecord →
  chunk_state s = Some c → cs_decompressor c = None →
  fpost (step_plain_chunk_record (options s) c) s (arm_ok s).
Proof.
  intros Hi Hr Hc Hd. assert (emit_chunks (options s) = false) as Hne by (apply emit_chunks_false; [done|rewrite Hr; by intros []]).
  pose proof (li_chunk _ Hi c Hc) as [K1 K2 K3 K4 K5].
  pose proof (nonneg_len _ Hi). unfold step_plain_chunk_record. zcase.
  { fstep. split; [done|]. split; [keep|].
    unfold work, rank. rewrite Hr. cbn. lia. }
  fstep. apply fpost_load; [done|intros; apply arm_request; [done|lia]|]. intros Hl.
  pose proof (length_of_range (rb_unread (file_data s)) ltac:(rewrite zlen_unread by apply Hi; done)) as Hlen.
  set (head := ztake OPCODE_LEN_SIZE (rb_unread (file_data s))) in *. cbn beta match zeta.
  fstep. fstep. destruct (check_len _ _) as [m|] eqn:Hk; cbn; [|by split].
  pose proof (check_len_Ok _ _ _ Hk) as (-> & Hm & Hlim). fstep. fstep. unfold add_. zcase; cbn.
  2:{ split; [done|]. unfold may_panic, head_overflows. rewrite Hr, Hc. fold head.
      right; left. split; [lia|]. rewrite Hk. by eexists. }
  fstep. unfold OPCODE_LEN_SIZE, in_u in *.
  apply fpost_consume; [done|lia|intros; apply arm_request; [done|lia]|].
  intros b Hl2 W U L _. fstep. fstep. unfold sub_. zcase; cbn.
  2:{ split; [done|]. unfold may_panic. rewrite Hr, Hc. unfold OPCODE_LEN_SIZE. fold head. right; right. lia. }
  fsteps. split; [done|]. split; [|done]. destruct Hi; split; cbn; try done.
  - rewrite Hr. by eexists.
  - intros ? [= <-]. split; cbn; lia.
Qed.

Lemma rb_clear_wf b : rb_wf (rb_clear b).
Proof. done. Qed.

Lemma step_compressed_chunk_record_ok s c d : lr_inv s → currently_reading s = ChunkRecord →
  chunk_state s = Some c → cs_decompressor c = Some d →
  fpost (step_compressed_chunk_record (options s) c d) s (arm_ok s).
Proof.
  intros Hi Hr Hc Hd. assert (emit_chunks (options s) = false) as Hne by (apply emit_chunks_false; [done|rewrite Hr; by intros []]).
  pose proof (li_chunk _ Hi c Hc) as [K1 K2 K3 K4 K5].
  unfold step_compressed_chunk_record. fstep. fstep.
  set (s1 := if (rb_len (decompressed_content s) =? 0)%Z then _ else s).
  assert (lr_inv s1 ∧ currently_reading s1 = ChunkRecord ∧ chunk_state s1 = Some c ∧
    file_data s1 = file_data s ∧ options s1 = options s ∧ at_eof s1 = at_eof s) as (I1 & R1 & C1 & F1 & O1 & E1).
  { subst s1. destruct (_ =? _)%Z; [|done]. by destruct Hi. }
  fstep. fstep. fstep.
  { fstep. destruct (check_len _ _) as [m|] eqn:Hk; cbn; [|by split].
    apply check_len_Ok in Hk as (-> & Hm & _). fstep. fstep.
    rewrite add_Ok by (unfold usize_max; lia). cbn. fsteps. split; [done|]. split.
    - destruct I1; split; cbn; try done; [|congruence]. intros ? [= <-]. split; cbn; lia.
    - unfold work, rank. rewrite Hr. cbn. rewrite F1. lia. }
  assert (may_panic s ∧ may_hang s) as [Hp Hh].
  { unfold may_panic, may_hang. rewrite Hr, Hc, Hd. split; [left|]; by eexists. }
  apply fpost_decompress_arm; try done; [by rewrite R1|].
  intros s2 c2 d2 [I2 O2 E2 R2 C2 D2 _ _] Hl.
  pose proof (length_of_range (rb_unread (decompressed_content s2)) ltac:(rewrite zlen_unread by apply I2; done)) as Hlen.
  set (head := ztake OPCODE_LEN_SIZE _) in *. cbn beta match zeta.
  fstep. fstep. destruct (check_len _ _) as [m|] eqn:Hk; cbn; [|by split; [split; congruence|]].
  apply check_len_Ok in Hk as (-> & Hm & _). fstep. fstep. unfold add_. zcase; cbn.
  2:{ by split; [split; congruence|]. }
  unfold get_chunk_state. fstep. fstep. fstep. fstep. rewrite C2. cbn. fstep. fstep. rewrite D2. cbn.
  unfold in_u, OPCODE_LEN_SIZE in *.
  apply fpost_decompress_arm; try done; [by rewrite R2, R1|lia|congruence|congruence|].
  intros s3 c3 d3 [I3 O3 E3 R3 C3 D3 _ _] Hl3. fstep. fstep. fstep. fstep.
  destruct (mark_read_spec (1 + 8) _ (li_dec _ I3) ltac:(lia)) as (b & -> & W & _ & L & _). cbn.
  fstep. fstep. destruct (consume_spec (length_of head) b W ltac:(lia)) as (b' & -> & W' & _). cbn.
  fsteps. split; [cbn; split; congruence|]. split; [|done].
  destruct I3; split; cbn; first [done|congruence].
Qed.

Lemma step_chunk_record_ok s : lr_inv s → currently_reading s = ChunkRecord →
  fpost step_chunk_record s (arm_ok s).
Proof.
  intros Hi Hr. pose proof (li_reading _ Hi) as Hc. rewrite Hr in Hc. destruct Hc as [c Hc].
  unfold step_chunk_record, get_chunk_state. fstep. fstep. fstep. fstep. fstep. fstep. rewrite Hc. cbn.
  destruct (cs_decompressor c) eqn:Hd.
  - by apply step_compressed_chunk_record_ok.
  - by apply step_plain_chunk_record_ok.
Qed.

Lemma fpost_check_chunk_crc saved h s (Q : _ → _ → Prop) :
  Q (Ok (Next ())) s → (∀ e, Q (Err e) s) → fpost (check_chunk_crc saved h) s Q.
Proof. intros Hq He. unfold check_chunk_crc. destruct (_ && _); by fstep. Qed.

Lemma step_padding_after_chunk_ok s : lr_inv s → currently_reading s = PaddingAfterChunk →
  fpost step_padding_after_chunk s (arm_ok s).
Proof.
  intros Hi Hr. assert (emit_chunks (options s) = false) as Hne by (apply emit_chunks_false; [done|rewrite Hr; by intros []]).
  pose proof (li_reading _ Hi) as Hc. rewrite Hr in Hc. destruct Hc as [c Hc].
  pose proof (li_chunk _ Hi c Hc) as [K1 K2 K3 K4 K5]. pose proof (nonneg_len _ Hi).
  unfold step_padding_after_chunk, get_chunk_state. fstep. fstep. fstep. fstep. rewrite Hc. cbn. fstep.
  apply fpost_consume; [done|lia|intros; apply arm_request; [done|lia]|].
  intros b Hl W U L _.
  assert (∀ s' c', file_data s' = b → currently_reading s' = PaddingAfterChunk →
    chunk_state s' = Some c' → chunk_ok c' → rb_wf (decompressed_content s') →
    options s' = options s → lr_inv s') as Hinv.
  { intros s' c' Hb Hr' Hc' ? ? Ho. split; [by rewrite Hb|done|rewrite Hr', Hc'; by eexists| |congruence|congruence].
    rewrite Hc'. by intros ? [= <-]. }
  assert (∀ s' c', file_data s' = b → currently_reading s' = PaddingAfterChunk →
    chunk_state s' = Some c' → chunk_ok c' → rb_wf (decompressed_content s') →
    options s' = options s → at_eof s' = at_eof s → ∀ e, arm_ok s (Err e) s') as Herr.
  { intros. split; [done|]. by eapply Hinv. }
  assert (∀ (s' : LinearReader), lr_inv s' → options s' = options s → at_eof s' = at_eof s →
    file_data s' = b → arm_ok s (Ok (Next ())) (set_reading FileRecord (set_chunk_state None s'))) as Hend.
  { intros s' [] ? ? Hb. split; [done|]. split; [by split|].
    assert (0 ≤ cs_padding_after_compressed_data c ≤ rb_len (file_data s))%Z as Hpad by lia.
    pose proof (consumed_length s _ b Hi Hpad U).
    unfold work, rank. rewrite Hr. cbn. rewrite Hb. lia. }
  fstep. destruct (cs_decompressor c) as [d|].
  - pose proof (d_reset_settles d) as Hs. destruct (d_reset d) as [r d']. cbn in Hs.
    cbn beta match. fstep. fstep. fstep. fstep. destruct r as [[]|e| |]; cbn; try done.
    2:{ eapply Herr; first [done|by split|apply Hi]. }
    fsteps. cbn. destruct (rb_hasher (decompressed_content s)) as [h|].
    + apply fpost_check_chunk_crc.
      * fsteps. apply Hend; try done. eapply Hinv; first [done|by split|apply Hi].
      * intros e. eapply Herr; first [done|by split|apply Hi].
    + fsteps. apply Hend; try done. eapply Hinv; first [done|by split|apply Hi].
  - destruct (cs_uncompressed_data_hasher c) as [h|].
    + fstep. fstep. apply fpost_check_chunk_crc.
      * fsteps. apply Hend; try done. eapply Hinv; first [done|by split|apply Hi].
      * intros e. eapply Herr; first [done|by split|apply Hi].
    + fsteps. apply (Hend (set_file_data b s)); try done. eapply Hinv; first [done|by split|apply Hi].
Qed.

Lemma step_end_magic_ok s : lr_inv s → currently_reading s = EndMagic →
  fpost step_end_magic s (arm_ok s).
Proof.
  intros Hi Hr. pose proof (li_reading _ Hi) as Hc. rewrite Hr in Hc.
  pose proof (nonneg_len _ Hi). unfold step_end_magic. fstep. fstep. fstep; [fstep; by split|].
  fstep. apply fpost_consume; [done|done|intros; apply arm_request; [done|lia]|].
  intros b Hl W U L _. fstep.
  - fsteps. split; [done|]. split; [keep|].
    pose proof (consumed_length s _ b Hi (conj (zlen_nonneg _) Hl) U).
    unfold work, rank. rewrite Hr. cbn. zlen_facts. lia.
  - fstep. split; [done|]. keep.
Qed.

Lemma step_after_end_magic_ok s : lr_inv s → fpost step_after_end_magic s (arm_ok s).
Proof.
  intros Hi. unfold step_after_end_magic. fstep. fstep. fstep; [|fstep; by split].
  fstep. fstep. fstep; [fstep; by split|]. fstep. fstep. fstep; [fstep; by split|].
  apply arm_request; [done|lia].
Qed.

(** Every iteration is as [arm_ok] says. *)
Lemma step_ok s : lr_inv s → fpost step s (arm_ok s).
Proof.
  intros Hi. unfold fpost, step. destruct (currently_reading s) eqn:Hr;
    [by apply step_start_magic_ok|by apply step_file_record_ok|by apply step_chunk_header_ok
    |by apply step_footer_ok|by apply step_data_end_ok|by apply step_validating_chunk_crc_ok
    |by apply step_chunk_record_ok|by apply step_padding_after_chunk_ok|by apply step_end_magic_ok
    |by apply step_after_end_magic_ok].
Qed.

(** ** Events *)

(** An iteration that goes round again. *)
Definition pass (s s' : LinearReader) : Prop := step s = (Ok (Next ()), s').

(** What an event leaves behind. *)
Definition event_ok (s : LinearReader) (o : McapResult (option LinearReadEvent)) (s' : LinearReader) : Prop :=
  match o with
  | Ok r => lr_inv s' ∧ options s' = options s ∧ at_eof s' = at_eof s ∧
      (∀ n, r = Some (ReadRequest n) → 0 < n)%Z
  | Err _ => lr_inv s' ∧ options s' = options s ∧ at_eof s' = at_eof s
  | Panic => ∃ s1, rtc pass s s1 ∧ may_panic s1
  | Fuel => ∃ s1, rtc pass s s1 ∧ may_hang s1
  end.

Lemma event_loop_ok fuel s : lr_inv s → work s ≤ fuel →
  event_ok s (event_loop fuel s).1 (event_loop fuel s).2.
Proof.
  revert s. induction fuel as [|fuel IH]; intros s Hi Hf; cbn [event_loop];
    pose proof (step_ok s Hi) as Hs; unfold fpost in Hs; destruct (step s) as [[[[]|r]|e| |] s'] eqn:E;
    destruct Hs as [[Ho He] Hs]; cbn in *; try (by destruct Hs); try (by exists s); try (by split_and!).
  - lia.
  - destruct Hs as [I' Hw]. specialize (IH s' I' ltac:(lia)).
    destruct (event_loop fuel s') as [[r|e| |] s2]; cbn in *.
    + destruct IH as (? & ? & ? & ?). split_and!; try done; congruence.
    + destruct IH as (? & ? & ?). split_and!; try done; congruence.
    + destruct IH as (s1 & ? & ?). exists s1. split; [by eapply rtc_l|done].
    + destruct IH as (s1 & ? & ?). exists s1. split; [by eapply rtc_l|done].
Qed.

Lemma work_le s : work s ≤ 8 + length (rb_unread (file_data s)).
Proof. unfold work. pose proof (rank_le s). lia. Qed.

(** [next_event] keeps the invariant, only asks for more input when it needs some,
    and always ends unless a decompressor is starved. *)
Lemma next_event_ok s : lr_inv s → event_ok s (next_event s).1 (next_event s).2.
Proof.
  intros Hi. unfold next_event. destruct (at_eof s) eqn:He; [destruct (eof_ok s); cbn; by split_and!|].
  apply event_loop_ok; [done|apply work_le].
Qed.

(** Without a decompressor there is no way to hang, and at the level of the file a
    panic needs a length that overflows. *)
Lemma next_event_emit s : lr_inv s → emit_chunks (options s) = true →
  match next_event s with
  | (Panic, _) => ∃ s1, rtc pass s s1 ∧ head_overflows s1
  | (Fuel, _) => False
  | _ => True
  end.
Proof.
  intros Hi Hem. pose proof (next_event_ok s Hi) as He.
  assert (∀ s1, rtc pass s s1 → lr_inv s1 ∧ emit_chunks (options s1) = true) as Hreach.
  { intros s1 Hs. induction Hs as [|s s2 s3 Hp _ IH]; [done|].
    pose proof (step_ok s Hi) as Hs. unfold fpost in Hs. rewrite Hp in Hs. cbn in Hs. destruct Hs as ([Ho _] & I2 & _).
    apply IH; [done|by rewrite Ho|by apply next_event_ok]. }
  destruct (next_event s) as [[r|e| |] s']; cbn in *; try done; destruct He as (s1 & Hr & Hm);
    destruct (Hreach s1 Hr) as [I1 E1]; pose proof (li_emit _ I1 E1) as Hf.
  - exists s1. split; [done|]. unfold may_panic in Hm.
    by destruct (currently_reading s1); destruct (chunk_state s1).
  - unfold may_hang in Hm. by destruct (currently_reading s1); destruct (chunk_state s1).
Qed.

Lemma LinearReader_new_inv o : lr_inv (LinearReader_new o).
Proof. split; try done; cbn; by destruct (skip_start_magic o). Qed.

Lemma for_chunk_inv h s : c_wf ChunkHeader_codec h = true → for_chunk h = Ok s → lr_inv s.
Proof.
  intros Hw. unfold for_chunk. rewrite bind_Ok. intros (d & _ & [= <-]). split; try done; cbn.
  - by eexists.
  - intros ? [= <-]. cbn in Hw. split_wf.
    repeat match goal with Hz : c_wf u64 _ = true |- _ => apply u64_wf_range in Hz end.
    split; cbn; lia.
Qed.
End theory.
