(* ===== verification/LinearReaderStates.v ===== *)
(** The states of the linear reader.

    A client may call the methods of the reader in any order, whether it was asked for
    input or not.  Whatever it does, unless a call panics the reader stays well formed, and
    what [next_event] can do next is known. *)

From S2P Require Import Prelude Utf8 Errors Bin Records Crc Codec RwBuf Decompressor LinearReader LinearReaderTheory.

Section states.
Context `{Crc, ZstdLib, Lz4Lib, !ZstdLibOk, !Lz4LibOk}.

(** A call that returns: an event or an error; room made; bytes written to the room; and
    the news of how many were read, which the client need not have written. *)
Inductive client_call : LinearReader → LinearReader → Prop :=
| does_event s r s' : next_event s = (Ok r, s') → client_call s s'
| does_error s e s' : next_event s = (Err e, s') → client_call s s'
| does_insert s n s' : (0 ≤ n)%Z → insert n s = Ok s' → client_call s s'
| does_fill s d : (zlen d ≤ zlen (rb_unwritten (file_data s)))%Z → client_call s (set_file_data (fill d (file_data s)) s)
| does_notify s n s' : (0 ≤ n)%Z → notify_read n s = Ok s' → client_call s s'.

Lemma set_file_data_inv b s : lr_inv s → rb_wf b → lr_inv (set_file_data b s).
Proof. intros [] Hb. by split. Qed.
Lemma set_at_eof_inv e s : lr_inv s → lr_inv (set_at_eof e s).
Proof. intros []. by split. Qed.
Lemma fill_wf d b : rb_wf b → (zlen d ≤ zlen (rb_unwritten b))%Z → rb_wf (fill d b).
Proof.
  intros [Hs He] Hd. unfold rb_unwritten in Hd. rewrite zlen_zdrop in Hd. pose proof (zlen_nonneg d). split; cbn; [lia|]. pose proof (zlen_nonneg (rb_data b)). rewrite !zlen_app, zlen_ztake, zlen_zdrop. lia.
Qed.
Lemma mark_written_wf n b b' : rb_wf b → (0 ≤ n)%Z → mark_written n b = Ok b' → rb_wf b'.
Proof.
  intros [Hs He] Hn. unfold mark_written, rassert, rb_unwritten. destruct (_ <=? _)%Z eqn:E; [|done]. apply Z.leb_le in E. rewrite zlen_zdrop in E.
  intros [= <-]. split; cbn; lia.
Qed.

(** A call keeps the invariant and the options. *)
Lemma client_call_inv s s' : client_call s s' → lr_inv s → lr_inv s' ∧ options s' = options s.
Proof.
  intros Hc Hi. destruct Hc as [s r s' E|s e s' E|s n s' Hn E|s d Hd|s n s' Hn E].
  - pose proof (next_event_ok s Hi) as Hok. rewrite E in Hok. by destruct r as [[]|]; destruct Hok as (? & ? & _).
  - pose proof (next_event_ok s Hi) as Hok. rewrite E in Hok. by destruct Hok as (? & ? & _).
  - unfold insert in E. apply bind_Ok in E as (b & E & [= <-]). split; [|done]. apply set_file_data_inv; [done|].
    by eapply tail_with_size_inv; [apply Hi|..].
  - split; [|done]. apply set_file_data_inv; [done|]. apply fill_wf; [apply Hi|done].
  - unfold notify_read in E. cbv zeta in E. set (s1 := if (n =? 0)%Z then set_at_eof true s else s) in E.
    assert (lr_inv s1 ∧ options s1 = options s) as [Hi1 Ho] by (unfold s1; destruct (n =? 0)%Z; split; try done; by apply set_at_eof_inv).
    apply bind_Ok in E as (_ & _ & E). apply bind_Ok in E as (b & E & [= <-]). split; [|done]. apply set_file_data_inv; [done|].
    eapply mark_written_wf; [apply Hi1|done|exact E].
Qed.
End states.

Section properties.
Context `{Crc, ZstdLib, Lz4Lib, !ZstdLibOk, !Lz4LibOk}.

(** C30: the reader stays well formed: after any calls in any order, by a client that keeps
    to the rules or not, the buffers are in bounds and the state, the chunk it is in and
    the options agree; the next event asks for a positive number of bytes, and only if the
    end was not reported; and it is a panic, or a loop, only in the states that are named:
    a record length that overflows, a record that leaves its chunk, a decoder that
    misbehaves. *)
Theorem reader_well_formed o s : rtc client_call (LinearReader_new o) s →
  lr_inv s ∧ options s = o ∧
  match (next_event s).1 with
  | Ok (Some (ReadRequest n)) => (0 < n)%Z ∧ at_eof s = false
  | Panic => ∃ s1, rtc pass s s1 ∧ may_panic s1
  | Fuel => ∃ s1, rtc pass s s1 ∧ may_hang s1
  | _ => True
  end.
Proof.
  intros Hr. assert (lr_inv s ∧ options s = o) as [Hi Ho].
  { pose proof (LinearReader_new_inv o) as Hi. change (lr_inv s ∧ options s = options (LinearReader_new o)). revert Hi.
    induction Hr as [s|s s1 s2 Hc _ IH]; [done|]. intros Hi. destruct (client_call_inv s s1 Hc Hi) as [Hi1 <-]. by apply IH. }
  split_and!; [done..|]. pose proof (next_event_ok s Hi) as Hok. destruct (next_event s) as [[[[n|op d]|]|e| |] s'] eqn:E; cbn in *; try done.
  split; [by apply Hok|]. destruct (at_eof s) eqn:He; [|done]. unfold next_event in E. rewrite He in E. by destruct (eof_ok s).
Qed.
End properties.

(** ** Examples *)

Module LinearReaderStatesExamples.
Import BitCrc CopyLib.

Definition opts : LinearReaderOptions := with_record_length_limit 100 LinearReaderOptions_default.
(** A client that was not asked, makes room for twelve bytes, writes the magic and the start
    of a record into them, and says that it wrote more. *)
Definition state : McapResult LinearReader :=
  s ← insert 12 (LinearReader_new opts);
  s ← notify_read 10 (set_file_data (fill (MAGIC ++ [Byte.x80]) (file_data s)) s);
  (next_event s).1 ≫= λ _, mret (next_event s).2.
Lemma reader_well_formed_witness : ∃ s, state = Ok s ∧
  lr_inv s ∧ options s = opts ∧
  match (next_event s).1 with
  | Ok (Some (ReadRequest n)) => (0 < n)%Z ∧ at_eof s = false
  | Panic => ∃ s1, rtc pass s s1 ∧ may_panic s1
  | Fuel => ∃ s1, rtc pass s s1 ∧ may_hang s1
  | _ => True
  end.
Proof.
  eexists. split; [reflexivity|]. apply reader_well_formed.
  eapply rtc_l; [apply (does_insert _ 12); [lia|reflexivity]|].
  eapply rtc_l; [apply (does_fill _ (MAGIC ++ [Byte.x80])); vm_compute; discriminate|].
  eapply rtc_l; [apply (does_notify _ 10); [lia|reflexivity]|].
  eapply rtc_l; [eapply does_event; reflexivity|]. apply rtc_refl.
Defined.
Example asks : (s ← state; (next_event s).1) = Ok (Some (ReadRequest 7)).
Proof. vm_compute. reflexivity. Qed.
End LinearReaderStatesExamples.
