(* ===== verification/LinearReaderClient.v ===== *)
(** Clients of the linear reader, and why it does not matter how they feed it.

    A client answers each [ReadRequest] with some of the bytes it has, however many,
    until there are none.  [read_all] is the reader run on a buffer that holds
    everything from the start.  [sim] relates a reader that has part of its input to
    one that has more; every arm either asks for input and changes nothing, or does
    the same to both.  So all clients see the events of [read_all]. *)

From S2P Require Import Prelude Utf8 BTree Errors Bin Records Crc Codec RwBuf Decompressor LinearReader LinearReaderTheory.

Section client.
Context `{Crc, ZstdLib, Lz4Lib}.

(** The client gives [d] after asking for a slice of [m] bytes. *)
Definition feed (m : Z) (d : bytes) (s : LinearReader) : McapResult LinearReader :=
  s ← insert m s;
  notify_read (zlen d) (set_file_data (fill d (file_data s)) s).

(** The next record or the end: what is left of an event when requests are served. *)
Definition record_event (r : option LinearReadEvent) : option (Z * bytes) :=
  match r with Some (EvRecord opcode data) => Some (opcode, data) | _ => None end.
Definition is_request (r : option LinearReadEvent) : bool :=
  match r with Some (ReadRequest _) => true | _ => false end.

(** [client_next s c o s' c']: from [s], with the bytes [c] still to give, a client
    may get [o], and is left with [s'] and [c']. *)
Inductive client_next : LinearReader → bytes → McapResult (option (Z * bytes)) →
    LinearReader → bytes → Prop :=
| client_event s c r s' :
    next_event s = (Ok r, s') → is_request r = false →
    client_next s c (Ok (record_event r)) s' c
| client_fails s c e s' :
    next_event s = (Err e, s') → client_next s c (Err e) s' c
| client_panics s c s' :
    next_event s = (Panic, s') → client_next s c Panic s' c
| client_feeds s n s1 m d c s2 o s' c' :
    next_event s = (Ok (Some (ReadRequest n)), s1) →
    (d = [] → c = []) → (zlen d ≤ m)%Z → feed m d s1 = Ok s2 →
    client_next s2 c o s' c' → client_next s (d ++ c) o s' c'.

(** The reader on all of its input: a request for more means the end was reached. *)
Definition read_all : method LinearReader McapError (option (Z * bytes)) := λ t,
  match next_event t with
  | (Ok (Some (ReadRequest _)), t) =>
      let '(o, t) := next_event (set_at_eof true t) in (record_event <$> o, t)
  | (Ok r, t) => (Ok (record_event r), t)
  | (Err e, t) => (Err e, t)
  | (Panic, t) => (Panic, t)
  | (Fuel, t) => (Fuel, t)
  end.
End client.

(** ** A reader that has more of its input *)

Section sim.
Context `{Crc, ZstdLib, Lz4Lib}.

(** [t] is as [s], with [f] behind the bytes buffered. *)
Record sim (f : bytes) (s t : LinearReader) : Prop := {
  sm_wf_s : rb_wf (file_data s);
  sm_wf_t : rb_wf (file_data t);
  sm_unread : rb_unread (file_data t) = rb_unread (file_data s) ++ f;
  sm_hasher : rb_hasher (file_data t) = rb_hasher (file_data s);
  sm_reading : currently_reading t = currently_reading s;
  sm_chunk : chunk_state t = chunk_state s;
  sm_dec : decompressed_content t = decompressed_content s;
  sm_decs : decompressors t = decompressors s;
  sm_options : options t = options s;
  sm_eof : at_eof t = at_eof s;
}.

(** Both readers run [m]: the first may ask for input, in the state [s0], of which it is
    to come unless the other one asks too; else they do the same. *)
Definition rp {A} (f : bytes) (s0 : LinearReader) (m : flow LinearReader (option LinearReadEvent) A)
    (s t : LinearReader) (Q : A → LinearReader → LinearReader → Prop) : Prop :=
  match m s with
  | (Ok (Return (Some (ReadRequest n))), s') => s' = s0 ∧
      match m t with (Ok (Return (Some (ReadRequest _))), _) => True | _ => (n ≤ zlen f)%Z end
  | (Ok (Next a), s') => ∃ t', m t = (Ok (Next a), t') ∧ Q a s' t'
  | (o, s') => ∃ t', m t = (o, t') ∧ sim f s' t'
  end.

Section rules.
Context {A B : Type} (f : bytes) (s0 : LinearReader).
Implicit Types m : flow LinearReader (option LinearReadEvent) A.

Lemma rp_bind m (k : A → flow LinearReader (option LinearReadEvent) B) s t Q :
  rp f s0 m s t (λ a s' t', rp f s0 (k a) s' t' Q) → rp f s0 (m ≫= k) s t Q.
Proof.
  unfold rp, mbind, flow_bind. destruct (m s) as [[[a|[[]|]]|e| |] s']; intros Hm; try done;
    try (destruct Hm as (t' & -> & Ht); eauto).
  destruct Hm as [-> Hm]. split; [done|]. destruct (m t) as [[[a|[[]|]]|e| |] t']; try done. by destruct (k a t') as [[[?|[[]|]]|?| |] ?].
Qed.
Lemma rp_ret (a : A) s t (Q : _ → _ → _ → Prop) : Q a s t → rp f s0 (mret a) s t Q.
Proof. intros. unfold rp. cbn. eauto. Qed.
Lemma rp_fget (g : LinearReader → A) s t (Q : _ → _ → _ → Prop) :
  g s = g t → Q (g s) s t → rp f s0 (fget g) s t Q.
Proof. intros E Hq. unfold rp, fget. rewrite <-E. eauto. Qed.
Lemma rp_check (o : McapResult A) s t (Q : _ → _ → _ → Prop) :
  sim f s t → (∀ a, o = Ok a → Q a s t) → rp f s0 (check o) s t Q.
Proof. intros Hs Hq. unfold rp, check. destruct o; cbn; eauto. Qed.
Lemma rp_fthrow e s t Q : sim f s t → rp f s0 (A:=A) (fthrow e) s t Q.
Proof. intros. unfold rp. cbn. eauto. Qed.
Lemma rp_freturn r s t Q : sim f s t → is_request r = false → rp f s0 (A:=A) (freturn r) s t Q.
Proof. intros Hs Hr. unfold rp. cbn. destruct r as [[]|]; try done; eauto. Qed.
End rules.

Lemma rp_fset f s0 (g : LinearReader → LinearReader) s t (Q : _ → _ → _ → Prop) :
  Q () (g s) (g t) → rp f s0 (fset g) s t Q.
Proof. intros. unfold rp. cbn. eauto. Qed.

Lemma sim_set_reading f s t r : sim f s t → sim f (set_reading r s) (set_reading r t).
Proof. intros []. by split. Qed.
Lemma sim_set_chunk_state f s t c : sim f s t → sim f (set_chunk_state c s) (set_chunk_state c t).
Proof. intros []. by split. Qed.
Lemma sim_set_decompressed f s t b : sim f s t → sim f (set_decompressed b s) (set_decompressed b t).
Proof. intros []. by split. Qed.
Lemma sim_set_decompressors f s t m : sim f s t → sim f (set_decompressors m s) (set_decompressors m t).
Proof. intros []. by split. Qed.
Lemma sim_set_file_data f s t b b' : sim f s t → rb_wf b → rb_wf b' →
  rb_unread b' = rb_unread b ++ f → rb_hasher b' = rb_hasher b →
  sim f (set_file_data b s) (set_file_data b' t).
Proof. intros []. by split. Qed.
Lemma sim_set_hasher f s t h : sim f s t →
  sim f (set_file_data (set_hasher h (file_data s)) s) (set_file_data (set_hasher h (file_data t)) t).
Proof. intros []. by split. Qed.

Lemma sim_len f s t : sim f s t → rb_len (file_data t) = (rb_len (file_data s) + zlen f)%Z.
Proof.
  intros []. rewrite <-(zlen_unread (file_data t)), <-(zlen_unread (file_data s)) by done.
  rewrite sm_unread0. apply zlen_app.
Qed.
Lemma sim_take f s t n : sim f s t → (n ≤ rb_len (file_data s))%Z →
  ztake n (rb_unread (file_data t)) = ztake n (rb_unread (file_data s)).
Proof.
  intros [] Hn. rewrite sm_unread0. apply ztake_app_le. by rewrite zlen_unread.
Qed.

Lemma rp_load f s0 n t (Q : _ → _ → _ → Prop) : sim f s0 t →
  ((n ≤ rb_len (file_data s0))%Z → Q (ztake n (rb_unread (file_data s0))) s0 t) →
  rp f s0 (load n) s0 t Q.
Proof.
  intros Hs Hq. pose proof (sim_len _ _ _ Hs). zlen_facts.
  unfold rp, load, read_request, mbind, flow_bind, fget, freturn. zcase; [split; [done|]; zcase; [done|lia]|].
  rewrite (proj2 (Z.ltb_ge _ _)) by lia. exists t. rewrite (sim_take f s0 t) by done || lia. eauto.
Qed.

Lemma sim_mark_read f s t n : sim f s t → (0 ≤ n ≤ rb_len (file_data s))%Z →
  ∃ b b', mark_read n (file_data s) = Ok b ∧ mark_read n (file_data t) = Ok b' ∧
    sim f (set_file_data b s) (set_file_data b' t).
Proof.
  intros Hs Hn. pose proof (sim_len _ _ _ Hs). zlen_facts. pose proof Hs as [].
  destruct (mark_read_spec n (file_data s) ltac:(done) Hn) as (b & E & W & U & _ & Hh & _).
  destruct (mark_read_spec n (file_data t) ltac:(done) ltac:(lia)) as (b' & E' & W' & U' & _ & Hh' & _).
  exists b, b'. split_and!; [done..|]. apply sim_set_file_data; try done.
  - rewrite U', U, sm_unread0. apply zdrop_app_le. by rewrite zlen_unread by done; lia.
  - by rewrite Hh', Hh, sm_hasher0, (sim_take f s t) by done || lia.
Qed.

Lemma rp_mark_file_read f s0 n s t (Q : _ → _ → _ → Prop) : sim f s t →
  (0 ≤ n ≤ rb_len (file_data s))%Z →
  (∀ s' t', sim f s' t' → options s' = options s → Q () s' t') →
  rp f s0 (mark_file_read n) s t Q.
Proof.
  intros Hs Hn Hq. destruct (sim_mark_read f s t n Hs Hn) as (b & b' & E & E' & Hs').
  unfold rp, mark_file_read, mbind, flow_bind, fget, check, fset. rewrite E, E'. cbn. eauto.
Qed.

Lemma rp_consume_without_hashing f s0 n s t (Q : _ → _ → _ → Prop) : sim f s t →
  (0 ≤ n ≤ rb_len (file_data s))%Z →
  (∀ b b', sim f (set_file_data b s) (set_file_data b' t) →
     Q (ztake n (rb_unread (file_data s))) (set_file_data b s) (set_file_data b' t)) →
  rp f s0 (consume_file_without_hashing n) s t Q.
Proof.
  intros Hs Hn Hq. pose proof (sim_len _ _ _ Hs). zlen_facts. pose proof Hs as [].
  unfold rp, consume_file_without_hashing, mbind, flow_bind, fget, check, fset.
  destruct (consume_without_hashing_spec n (file_data s) ltac:(done) Hn) as (b & E & W & U & _ & Hh).
  destruct (consume_without_hashing_spec n (file_data t) ltac:(done) ltac:(lia)) as (b' & E' & W' & U' & _ & Hh').
  rewrite E, E'. cbn. rewrite (sim_take f s t) by done || lia.
  eexists. split; [done|]. apply Hq. apply sim_set_file_data; try done; [|congruence].
  rewrite U', U, sm_unread0. apply zdrop_app_le. by rewrite zlen_unread by done; lia.
Qed.

Lemma rp_consume f s0 n t (Q : _ → _ → _ → Prop) : sim f s0 t → (0 ≤ n)%Z →
  (∀ b b', sim f (set_file_data b s0) (set_file_data b' t) →
     Q (ztake n (rb_unread (file_data s0))) (set_file_data b s0) (set_file_data b' t)) →
  rp f s0 (consume_file n) s0 t Q.
Proof.
  intros Hs Hn Hq. pose proof (sim_len _ _ _ Hs). zlen_facts.
  unfold rp, consume_file, read_request, mbind, flow_bind, fget, freturn.
  zcase; [split; [done|]; zcase; [done|]; repeat case_match; done || lia|].
  rewrite (proj2 (Z.ltb_ge _ _)) by lia. pose proof Hs as [].
  destruct (consume_spec n (file_data s0) ltac:(done) ltac:(lia)) as (b & E & W & U & _ & Hh).
  destruct (consume_spec n (file_data t) ltac:(done) ltac:(lia)) as (b' & E' & W' & U' & _ & Hh').
  unfold check. rewrite E, E'. cbn. rewrite (sim_take f s0 t) by done || lia.
  eexists. split; [done|]. apply Hq. apply sim_set_file_data; try done.
  - rewrite U', U, sm_unread0. apply zdrop_app_le. by rewrite zlen_unread by done; lia.
  - by rewrite Hh', Hh, sm_hasher0, (sim_take f s0 t) by done || lia.
Qed.
End sim.

Create HintDb sim.
#[export] Hint Resolve sim_set_reading sim_set_chunk_state sim_set_decompressed
  sim_set_decompressors sim_set_hasher : sim.

(** One step of two related readers. *)
Ltac rstep :=
  lazymatch goal with
  | |- rp _ _ (_ ≫= _) _ _ _ => apply rp_bind
  | |- rp _ _ (mret _) _ _ _ => apply rp_ret
  | |- rp _ _ (fget _) _ _ _ =>
      apply rp_fget;
      [ cbn; match goal with Hs : sim _ _ _ |- _ => destruct Hs; congruence end | ]
  | |- rp _ _ (fset _) _ _ _ => apply rp_fset
  | |- rp _ _ (fthrow _) _ _ _ => apply rp_fthrow; eauto with sim
  | |- rp _ _ (freturn _) _ _ _ => apply rp_freturn; [eauto with sim|done]
  | |- rp _ _ (check _) _ _ _ => apply rp_check; [eauto with sim|intros ? ?]
  | |- rp _ _ (if ?b then _ else _) _ _ _ => destruct b eqn:?
  | |- rp _ _ (let '(_, _) := ?p in _) _ _ _ => destruct p eqn:?
  end; cbn beta match.
Ltac rsteps := repeat (rstep; cbn beta match); eauto with sim.

(** The values behind the checks that passed. *)
Ltac checked :=
  repeat match goal with
  | Hk : ok_or _ (check_len _ _) = Ok _ |- _ => apply ok_or_Ok in Hk as (-> & ? & ?)%check_len_Ok
  | Hk : ok_or _ (checked_sub _ _) = Ok _ |- _ => apply ok_or_Ok in Hk as (? & ->)%checked_sub_Some
  | Hk : add_ _ _ _ = Ok _ |- _ => unfold add_ in Hk; destruct (_ <=? _)%Z; [injection Hk as <-|done]
  | Hk : expect _ = Ok _ |- _ => unfold expect in Hk
  end.

Section arms.
Context `{Crc, ZstdLib, Lz4Lib, !ZstdLibOk, !Lz4LibOk}.

(** No decompressor is in use. *)
Definition plain (s : LinearReader) : Prop :=
  match chunk_state s with Some c => cs_decompressor c = None | None => True end.

Abbreviation same_arm f m s t := (rp f s m s t (λ _ s' t', sim f s' t')).

Lemma rp_start_magic f s t : sim f s t → same_arm f step_start_magic s t.
Proof.
  intros Hs. unfold step_start_magic. rstep. rstep. rstep. rstep; [rsteps|].
  rstep. apply rp_consume; [done|done|]. intros b b' Hb. rsteps.
Qed.

Lemma rp_file_record f s t : sim f s t → same_arm f step_file_record s t.
Proof.
  intros Hs. unfold step_file_record. rstep. apply rp_load; [done|]. intros Hl. rstep. rstep.
  pose proof (rb_len_nonneg _ (sm_wf_s _ _ _ Hs)).
  assert (0 ≤ OPCODE_LEN_SIZE ≤ rb_len (file_data s))%Z as Hb by done.
  pose proof (le_dec_range (zdrop 1 (ztake OPCODE_LEN_SIZE (rb_unread (file_data s))))) as Hr.
  rstep; [|rstep; [|rstep]].
  - rstep. apply rp_mark_file_read; [done|done|]. intros s' t' Hs' _. rsteps.
  - rstep. rstep. rstep. rstep. rstep. apply rp_mark_file_read; [eauto with sim|done|].
    intros s' t' Hs' _. rsteps.
  - rstep. apply rp_mark_file_read; [done|done|]. intros s' t' Hs' _. rsteps.
  - rstep. rstep. checked. rstep. rstep. checked.
    rstep. apply rp_consume; [done|unfold length_of, OPCODE_LEN_SIZE in *; lia|]. intros b b' Hb'. rsteps.
Qed.

Lemma rp_check_data_crc f s0 saved calculated s t (Q : _ → _ → _ → Prop) : sim f s t →
  Q () s t → rp f s0 (check_data_crc saved calculated) s t Q.
Proof. intros Hs Hq. unfold check_data_crc. destruct calculated; [rstep; rstep|rstep]; done. Qed.

Lemma rp_data_end f s t len calculated : sim f s t → (0 ≤ len)%Z →
  same_arm f (step_data_end len calculated) s t.
Proof.
  intros Hs Hlen. unfold step_data_end. rstep. rstep. rstep. rstep. checked.
  rstep. apply rp_load; [done|]. intros Hl. rstep. rstep.
  rstep. apply rp_check_data_crc; [done|]. rstep. rstep.
  set (s1 := if validate_summary_section_crc (options s) then _ else s).
  set (t1 := if validate_summary_section_crc (options s) then _ else t).
  assert (sim f s1 t1) as Hs1 by (subst s1 t1; destruct (validate_summary_section_crc _); eauto with sim).
  assert (rb_len (file_data s1) = rb_len (file_data s)) as Hl1
    by (subst s1; by destruct (validate_summary_section_crc _)).
  rstep. apply rp_consume_without_hashing; [done|lia|]. intros b b' Hb. rsteps.
Qed.

Lemma rp_footer f s t len h : sim f s t → (0 ≤ len)%Z → same_arm f (step_footer len h) s t.
Proof.
  intros Hs Hlen. unfold step_footer. rstep. rstep. rstep. rstep. checked.
  rstep. apply rp_consume; [done|done|]. intros b b' Hb. rstep. rstep.
  rstep. unfold check_summary_crc. destruct h; [rstep; rstep; rstep; [rstep|]|].
  all: rsteps.
Qed.

Lemma rp_chunk_header f s t len : sim f s t → same_arm f (step_chunk_header len) s t.
Proof.
  intros Hs. unfold step_chunk_header. rstep. rstep. rstep. apply rp_load; [done|]. intros Hl.
  rstep. apply rp_consume; [done| |].
  { pose proof (le_dec_range (ztake 4 (zdrop 28 (ztake MIN_CHUNK_HEADER_SIZE (rb_unread (file_data s)))))).
    unfold MIN_CHUNK_HEADER_SIZE in *. lia. }
  intros b b' Hb. rsteps.
Qed.

Lemma rp_validating f s t : sim f s t → plain s → same_arm f step_validating_chunk_crc s t.
Proof.
  intros Hs Hp. unfold step_validating_chunk_crc, get_chunk_state. rstep. rstep. rstep. rstep. rstep. rstep.
  unfold plain in Hp. checked. destruct (chunk_state s) as [c|]; [|done].
  match goal with Hk : Ok _ = Ok _ |- _ => injection Hk as <- end. rewrite Hp.
  rstep. rstep. checked. rstep. apply rp_load; [done|]. intros Hl. rsteps.
Qed.

Lemma rp_chunk_record f s t : sim f s t → plain s → same_arm f step_chunk_record s t.
Proof.
  intros Hs Hp. unfold step_chunk_record, get_chunk_state. rstep. rstep. rstep. rstep. rstep. rstep.
  unfold plain in Hp. checked. destruct (chunk_state s) as [c|]; [|done].
  match goal with Hk : Ok _ = Ok _ |- _ => injection Hk as <- end. rewrite Hp.
  unfold step_plain_chunk_record. rstep; [rsteps|].
  rstep. apply rp_load; [done|]. intros Hl. rstep. rstep. checked. rstep. rstep. checked.
  pose proof (le_dec_range (zdrop 1 (ztake OPCODE_LEN_SIZE (rb_unread (file_data s))))) as Hr.
  rstep. apply rp_consume; [done|unfold length_of, OPCODE_LEN_SIZE in *; lia|]. intros b b' Hb. rsteps.
Qed.

Lemma rp_padding f s t : sim f s t → plain s →
  (∀ c, chunk_state s = Some c → 0 ≤ cs_padding_after_compressed_data c)%Z →
  same_arm f step_padding_after_chunk s t.
Proof.
  intros Hs Hp Hpad. unfold step_padding_after_chunk, get_chunk_state. rstep. rstep. rstep. rstep.
  unfold plain in Hp. checked. destruct (chunk_state s) as [c|]; [|done].
  match goal with Hk : Ok _ = Ok _ |- _ => injection Hk as <- end. rewrite Hp.
  rstep. apply rp_consume; [done|by apply Hpad|]. intros b b' Hb. rstep.
  destruct (cs_uncompressed_data_hasher c); unfold check_chunk_crc; rsteps.
Qed.

Lemma rp_end_magic f s t : sim f s t → same_arm f step_end_magic s t.
Proof.
  intros Hs. unfold step_end_magic. rstep. rstep. rstep; [rsteps|].
  rstep. apply rp_consume; [done|done|]. intros b b' Hb. rsteps.
Qed.

Lemma rp_after_end_magic f s t : sim f s t → at_eof s = false → same_arm f step_after_end_magic s t.
Proof.
  intros Hs He. pose proof (sim_len _ _ _ Hs). zlen_facts. unfold step_after_end_magic. rstep. rstep.
  destruct (check_finishes_after_end_magic _) eqn:Hc; [|rsteps].
  unfold rp, mbind, flow_bind, fget, fthrow, read_request, freturn.
  zcase; [rewrite (proj2 (Z.ltb_lt _ _)) by lia; eauto|]. rewrite He. split; [done|].
  zcase; [cbn; lia|]. by rewrite (sm_eof _ _ _ Hs), He.
Qed.

Lemma step_rp f s t : lr_inv s → plain s → at_eof s = false → sim f s t → same_arm f step s t.
Proof.
  intros Hi Hp He Hs. unfold rp, step. rewrite (sm_reading _ _ _ Hs).
  pose proof (li_reading _ Hi) as Hr.
  assert (∀ c, chunk_state s = Some c → 0 ≤ cs_padding_after_compressed_data c)%Z as Hpad.
  { intros c Hc. by apply (li_chunk _ Hi c Hc). }
  destruct (currently_reading s); cbn in Hr;
    [by apply (rp_start_magic f s t)|by apply (rp_file_record f s t)|by apply (rp_chunk_header f s t)
    |by apply (rp_footer f s t); [|destruct Hr as [[]]]|by apply (rp_data_end f s t); [|destruct Hr as [[]]]
    |by apply (rp_validating f s t)|by apply (rp_chunk_record f s t)|by apply (rp_padding f s t)
    |by apply (rp_end_magic f s t)|by apply (rp_after_end_magic f s t)].
Qed.

Lemma sim_sym s t : sim [] s t → sim [] t s.
Proof. intros [? ? Hu]. rewrite app_nil_r in Hu. split; try done. by rewrite app_nil_r. Qed.

Lemma sim_plain f s t : sim f s t → plain t → plain s.
Proof. intros []. unfold plain. by rewrite sm_chunk0. Qed.

(** ** Whole events *)

Lemma pass_inv s s' : lr_inv s → pass s s' →
  lr_inv s' ∧ work s' < work s ∧ options s' = options s ∧ at_eof s' = at_eof s.
Proof.
  intros Hi Hp. pose proof (step_ok s Hi) as Hs. unfold fpost in Hs. rewrite Hp in Hs. cbn in Hs.
  by destruct Hs as ([] & [] & ?).
Qed.

(** Enough fuel is enough. *)
Lemma event_loop_fuel n m s : lr_inv s → work s ≤ n → work s ≤ m → event_loop n s = event_loop m s.
Proof.
  revert m s. induction n as [|n IH]; intros [|m] s Hi Hn Hm; try done; cbn [event_loop];
    destruct (step s) as [[[[]|r]|e| |] s'] eqn:E; try done;
    destruct (pass_inv s s' Hi E) as (Hi' & Hw & _); try lia.
  apply IH; [done|lia|lia].
Qed.

Definition run (s : LinearReader) := event_loop (work s) s.

Lemma run_pass s s' : lr_inv s → pass s s' → run s = run s'.
Proof.
  intros Hi Hp. destruct (pass_inv s s' Hi Hp) as (Hi' & Hw & _). unfold run.
  destruct (work s) as [|n] eqn:E; [lia|]. cbn [event_loop]. rewrite Hp. apply event_loop_fuel; [done|lia|lia].
Qed.

Lemma next_event_run s : lr_inv s → at_eof s = false → next_event s = run s.
Proof.
  intros Hi He. unfold next_event. rewrite He. apply event_loop_fuel; [done|apply work_le|done].
Qed.

(** Every state an event goes through uses no decompressor. *)
Definition plain_run (t : LinearReader) : Prop := ∀ t', rtc pass t t' → plain t'.

Lemma run_sim f s t : lr_inv s → lr_inv t → plain_run t → at_eof s = false → sim f s t →
  match run s with
  | (Ok (Some (ReadRequest n)), s') => ∃ t', rtc pass t t' ∧ sim f s' t' ∧ lr_inv s' ∧ lr_inv t' ∧
      at_eof s' = false ∧ step s' = (Ok (Return (Some (ReadRequest n))), s')
  | (o, s') => ∃ t', run t = (o, t') ∧ sim f s' t'
  end.
Proof.
  remember (work s) as n eqn:Hn. revert s t Hn.
  induction n as [n IH] using lt_wf_ind. intros s t -> Hi Hit Hpl He Hs.
  pose proof (step_rp f s t Hi (sim_plain _ _ _ Hs (Hpl t (rtc_refl _ _))) He Hs) as Hrp. unfold rp in Hrp.
  destruct (step s) as [o s'] eqn:E.
  assert (∀ o' : outcome McapError (ctl (option LinearReadEvent) ()), o = o' → (∀ a, o' ≠ Ok (Next a)) →
    run s = (match o' with Ok (Next _) => Fuel | Ok (Return r) => Ok r | Err e => Err e | Panic => Panic | Fuel => Fuel end, s')) as Hrun.
  { intros o' <- Ho. unfold run. destruct (work s); cbn [event_loop]; rewrite E; destruct o as [[[]|r]|e| |]; done || by destruct (Ho ()). }
  assert (∀ t', step t = (o, t') → (∀ a, o ≠ Ok (Next a)) →
    run t = (match o with Ok (Next _) => Fuel | Ok (Return r) => Ok r | Err e => Err e | Panic => Panic | Fuel => Fuel end, t')) as Hrunt.
  { intros t' Et Ho. unfold run. destruct (work t); cbn [event_loop]; rewrite Et; destruct o as [[[]|r]|e| |]; done || by destruct (Ho ()). }
  destruct o as [[[]|[[need|op data]|]]|e| |].
  - destruct Hrp as (t' & Et & Hs'). destruct (pass_inv s s' Hi E) as (Hi' & Hw & _ & He').
    destruct (pass_inv t t' Hit Et) as (Hit' & _ & _).
    rewrite (run_pass s s') by done.
    assert (plain_run t') as Hpl' by (intros t2 Ht2; apply Hpl; by eapply rtc_l).
    specialize (IH (work s') Hw s' t' eq_refl Hi' Hit' Hpl' ltac:(congruence) Hs').
    rewrite (run_pass t t') by done.
    destruct (run s') as [[[[need|op data]|]|e| |] s2]; try done.
    destruct IH as (t2 & ? & ?). exists t2. split; [by eapply rtc_l|done].
  - destruct Hrp as [-> _]. rewrite (Hrun _ eq_refl) by done. exists t. split_and!; done.
  - destruct Hrp as (t' & Et & Hs'). rewrite (Hrun _ eq_refl) by done. exists t'. split; [by apply Hrunt|done].
  - destruct Hrp as (t' & Et & Hs'). rewrite (Hrun _ eq_refl) by done. exists t'. split; [by apply Hrunt|done].
  - destruct Hrp as (t' & Et & Hs'). rewrite (Hrun _ eq_refl) by done. exists t'. split; [by apply Hrunt|done].
  - destruct Hrp as (t' & Et & Hs'). rewrite (Hrun _ eq_refl) by done. exists t'. split; [by apply Hrunt|done].
  - destruct Hrp as (t' & Et & Hs'). rewrite (Hrun _ eq_refl) by done. exists t'. split; [by apply Hrunt|done].
Qed.

(** ** Feeding *)

Lemma feed_spec m d s s' : lr_inv s → (zlen d ≤ m)%Z → feed m d s = Ok s' →
  ∃ b, s' = set_at_eof (at_eof s || bool_decide (d = [])) (set_file_data b s) ∧ rb_wf b ∧
    rb_unread b = rb_unread (file_data s) ++ d ∧ rb_hasher b = rb_hasher (file_data s).
Proof.
  intros Hi Hm. unfold feed, insert, notify_read. zlen_facts.
  destruct (tail_with_size m (file_data s)) as [b1|e| |] eqn:E1; try done.
  apply tail_with_size_inv in E1 as (W1 & U1 & L1 & H1'); [|apply Hi|lia].
  destruct (fill_written_spec d b1 W1 ltac:(lia)) as (b2 & E2 & W2 & U2 & H2' & _).
  cbn. unfold rassert. destruct (_ <=? _)%Z; [|done]. cbn.
  intros Hf. exists b2. rewrite U2, H2', U1, H1'. split_and!; try done.
  destruct (Z.eqb_spec (zlen d) 0) as [Hz|Hz].
  - apply zlen_zero_nil in Hz as ->. cbn in Hf. rewrite E2 in Hf. injection Hf as <-.
    by rewrite bool_decide_true, orb_true_r.
  - cbn in Hf. rewrite E2 in Hf. injection Hf as <-.
    rewrite bool_decide_false by by intros ->. by rewrite orb_false_r; destruct s.
Qed.

Lemma sim_eof f s t : sim f s t → sim f (set_at_eof true s) (set_at_eof true t).
Proof. intros []. by split. Qed.

Lemma sim_eof_ok s t : sim [] s t → eof_ok t = eof_ok s.
Proof.
  intros Hs. pose proof (sim_len _ _ _ Hs) as Hl. rewrite zlen_nil, Z.add_0_r in Hl.
  unfold eof_ok. by rewrite Hl, (sm_reading _ _ _ Hs), (sm_chunk _ _ _ Hs), (sm_dec _ _ _ Hs), (sm_options _ _ _ Hs).
Qed.

(** At the end of the input nothing is read any more. *)
Lemma next_event_eof s : at_eof s = true →
  next_event s = (if eof_ok s then (Ok None, s) else (Err UnexpectedEof, s)).
Proof. unfold next_event. by intros ->. Qed.

(** All of a client's input, in one buffer. *)
Definition all_input (c : bytes) (s : LinearReader) : LinearReader :=
  let b := rb_unread (file_data s) ++ c in
  set_file_data (mkRwBuf b 0 (zlen b) (rb_hasher (file_data s))) s.

Lemma all_input_sim c s : rb_wf (file_data s) → sim c s (all_input c s).
Proof.
  intros Hw. split; try done; cbn.
  - unfold rb_wf. cbn. zlen_facts. lia.
  - unfold rb_unread at 1. cbn. rewrite Z.sub_0_r, zdrop_0, ztake_all by done. done.
Qed.

Lemma sim_lr_inv f s t : sim f s t → lr_inv s → lr_inv t.
Proof.
  intros [] []. split; [done|by rewrite sm_dec0|by rewrite sm_reading0, sm_chunk0|by rewrite sm_chunk0
    |by rewrite sm_options0, sm_reading0|by rewrite sm_options0, sm_dec0].
Qed.

Lemma sim_lr_inv_l f s t : sim f s t → lr_inv t → lr_inv s.
Proof.
  intros [] []. split; [done|by rewrite <-sm_dec0|by rewrite <-sm_reading0, <-sm_chunk0
    |by rewrite <-sm_chunk0|by rewrite <-sm_options0, <-sm_reading0|by rewrite <-sm_options0, <-sm_dec0].
Qed.

(** What a client sees is what the reader does on all of the input. *)
Lemma client_next_read_all s c o s' c' : client_next s c o s' c' →
  ∀ t, lr_inv s → at_eof s = false → sim c s t → plain_run t →
  ∃ t', read_all t = (o, t') ∧ sim c' s' t'.
Proof.
  intros Hc. induction Hc as [s c r s' Hn Hr|s c e s' Hn|s c s' Hn|s n s1 m d c s2 o s' c' Hn Hd Hm Hf Hc IH];
    intros t Hi He Hs Hp; pose proof (sim_lr_inv _ _ _ Hs Hi) as Hit;
    pose proof (run_sim c s t Hi Hit Hp He Hs) as Hrun || pose proof (run_sim (d ++ c) s t Hi Hit Hp He Hs) as Hrun;
    rewrite <-next_event_run, Hn in Hrun by done;
    assert (next_event t = run t) as Ht by (apply next_event_run; [done|by rewrite (sm_eof _ _ _ Hs)]).
  - destruct r as [[|op data]|]; try done; destruct Hrun as (t' & Et & Hs');
      exists t'; unfold read_all; by rewrite Ht, Et.
  - destruct Hrun as (t' & Et & Hs'). exists t'. unfold read_all. by rewrite Ht, Et.
  - destruct Hrun as (t' & Et & Hs'). exists t'. unfold read_all. by rewrite Ht, Et.
  - destruct Hrun as (t1 & Hrt & Hs1 & Hi1 & Hit1 & He1 & Hstep).
    destruct (feed_spec m d s1 s2 Hi1 Hm Hf) as (b & -> & Wb & Ub & Hb).
    assert (∀ s0 s0', rtc pass s0 s0' → lr_inv s0 → run s0 = run s0') as Hrtc.
    { intros s0 s0' Hx. induction Hx as [|x y z Hxy Hyz IHx]; [done|]. intros Hix.
      destruct (pass_inv x y Hix Hxy) as (Hiy & _). rewrite (run_pass x y) by done. by apply IHx. }
    assert (at_eof t1 = false) as Het1 by by rewrite (sm_eof _ _ _ Hs1).
    destruct d as [|x d].
    + rewrite (Hd eq_refl) in *. cbn in Hs1.
      assert (plain t1) as Hp1 by by apply Hp.
      pose proof (step_rp [] t1 s1 Hit1 Hp1 Het1 (sim_sym _ _ Hs1)) as Hrp.
      unfold rp in Hrp. rewrite Hstep in Hrp.
      assert (∃ n', step t1 = (Ok (Return (Some (ReadRequest n'))), t1)) as [n' Et1].
      { destruct (step t1) as [[[[]|[[need|op data]|]]|e| |] t2]; try (by destruct Hrp as (? & [=] & _)).
        destruct Hrp as [-> _]. by exists need. }
      set (s2 := set_at_eof _ _) in Hc.
      assert (sim [] s2 (set_at_eof true t1)) as Hs2.
      { subst s2. rewrite bool_decide_true, orb_true_r by done. apply sim_eof.
        destruct Hs1. split; try done; cbn; rewrite ?Ub, ?Hb, ?app_nil_r; congruence || (rewrite sm_unread0; by rewrite app_nil_r). }
      assert (at_eof s2 = true) as He2 by (subst s2; cbn; by rewrite orb_true_r).
      exists (set_at_eof true t1). unfold read_all. rewrite Ht, (Hrtc t t1) by done.
      assert (run t1 = (Ok (Some (ReadRequest n')), t1)) as ->.
      { unfold run. destruct (work t1); cbn [event_loop]; by rewrite Et1. }
      rewrite (next_event_eof (set_at_eof true t1)), (sim_eof_ok _ _ Hs2) by done.
      inversion Hc; subst; match goal with Hx : next_event s2 = _ |- _ => rewrite (next_event_eof s2) in Hx by done end;
        destruct (eof_ok s2); simplify_eq; done.
    + rewrite bool_decide_false in IH, Hc by done. rewrite He1 in IH, Hc. cbn [orb] in IH, Hc.
      set (s2 := set_at_eof false (set_file_data b s1)) in IH, Hc.
      assert (s2 = set_file_data b s1) as Hs2e by (subst s2; destruct s1; cbn in *; by subst).
      destruct (IH t1) as (t' & Et' & Hs'); [| | | |].
      * rewrite Hs2e. by destruct Hi1.
      * done.
      * rewrite Hs2e. destruct Hs1. split; try done; cbn; rewrite ?Ub, ?Hb; try congruence.
        by rewrite sm_unread0, <-app_assoc.
      * intros t2 Ht2. apply Hp. by etrans.
      * exists t'. split; [|done]. rewrite <-Et'. unfold read_all.
        rewrite Ht, (Hrtc t t1), <-(next_event_run t1) by done. done.
Qed.
End arms.
