(* ===== verification/LinearReaderFile.v ===== *)
(** What the linear reader makes of a file, whoever feeds it.

    [client_run] is a client's whole conversation with the reader.  Two clients with
    the same input get the same records, as long as nothing is decompressed; and on a well-formed file it is the
    list of the file's records, with checksum errors where checksums are wrong. *)

From S2P Require Import Prelude Utf8 BTree Errors Bin Records Crc Codec RwBuf Decompressor LinearReader LinearReaderTheory LinearReaderClient.

Section runs.
Context `{Crc, ZstdLib, Lz4Lib}.

(** [client_run s c rs o]: a client that starts from [s] with the bytes [c] may get
    the records [rs] and then [o]: the end, an error or a panic. *)
Inductive client_run : LinearReader → bytes → list (Z * bytes) → McapResult () → Prop :=
| run_end s c s' c' : client_next s c (Ok None) s' c' → client_run s c [] (Ok ())
| run_fails s c e s' c' : client_next s c (Err e) s' c' → client_run s c [] (Err e)
| run_panics s c s' c' : client_next s c Panic s' c' → client_run s c [] Panic
| run_record s c r s1 c1 rs o :
    client_next s c (Ok (Some r)) s1 c1 → client_run s1 c1 rs o → client_run s c (r :: rs) o.

(** A client that gives [piece] bytes at a time. *)
Fixpoint feed_pieces (piece : Z) (fuel : nat) (s : LinearReader) (c : bytes)
    : option (list (Z * bytes) * McapResult ()) :=
  match fuel with
  | 0 => None
  | S fuel =>
      match next_event s with
      | (Ok (Some (ReadRequest _)), s1) =>
          let d := ztake piece c in
          match feed piece d s1 with
          | Ok s2 => feed_pieces piece fuel s2 (zdrop piece c)
          | _ => None
          end
      | (Ok (Some (EvRecord op b)), s1) =>
          '(rs, o) ← feed_pieces piece fuel s1 c; Some ((op, b) :: rs, o)
      | (Ok None, _) => Some ([], Ok ())
      | (Err e, _) => Some ([], Err e)
      | (Panic, _) => Some ([], Panic)
      | (Fuel, _) => None
      end
  end.

Lemma feed_pieces_run piece fuel s c rs o : (0 < piece)%Z →
  feed_pieces piece fuel s c = Some (rs, o) → client_run s c rs o.
Proof.
  intros Hp. revert s c rs o. induction fuel as [|fuel IH]; intros s c rs o; [done|]. cbn [feed_pieces].
  destruct (next_event s) as [[[[n|op b]|]|e| |] s1] eqn:E; try done.
  - destruct (feed piece (ztake piece c) s1) as [s2|e| |] eqn:Hf; try done. intros Hr%IH.
    assert (∀ o' s' c', client_next s2 (zdrop piece c) o' s' c' → client_next s c o' s' c') as Hn.
    { intros o' s' c' Hc. rewrite <-(ztake_zdrop piece c). eapply client_feeds; [exact E| | |exact Hf|exact Hc].
      - intros Hnil. apply (f_equal zlen) in Hnil. apply zlen_zero_nil. zlia.
      - zlia. }
    inversion Hr; subst; [eapply run_end|eapply run_fails|eapply run_panics|eapply run_record]; eauto.
  - destruct (feed_pieces piece fuel s1 c) as [[rs' o']|] eqn:Hr; [|done]. intros [= <- <-].
    eapply run_record; [by eapply (client_event _ _ (Some (EvRecord op b)))|by apply IH].
  - intros [= <- <-]. eapply run_end. by eapply (client_event _ _ None).
  - intros [= <- <-]. eapply run_fails. by eapply client_fails.
  - intros [= <- <-]. eapply run_panics. by eapply client_panics.
Qed.

(** The reader on all of its input. *)
Inductive reads_all : LinearReader → list (Z * bytes) → McapResult () → Prop :=
| all_end t t' : read_all t = (Ok None, t') → reads_all t [] (Ok ())
| all_fails t e t' : read_all t = (Err e, t') → reads_all t [] (Err e)
| all_panics t t' : read_all t = (Panic, t') → reads_all t [] Panic
| all_record t r t1 rs o : read_all t = (Ok (Some r), t1) → reads_all t1 rs o → reads_all t (r :: rs) o.

Lemma reads_all_det t rs1 o1 rs2 o2 : reads_all t rs1 o1 → reads_all t rs2 o2 → rs1 = rs2 ∧ o1 = o2.
Proof.
  intros H1'. revert rs2 o2. induction H1' as [t t' E|t e t' E|t t' E|t r t1 rs o E _ IH];
    intros rs2 o2 H2'; inversion H2' as [? ? E2|? ? ? E2|? ? E2|? ? ? ? ? E2 Hr]; subst;
    rewrite E in E2; simplify_eq; try done.
  by destruct (IH _ _ Hr) as [-> ->].
Qed.
End runs.

Section independent.
Context `{Crc, ZstdLib, Lz4Lib, !ZstdLibOk, !Lz4LibOk}.

Lemma file_level_plain t : lr_inv t → emit_chunks (options t) = true → plain t.
Proof.
  intros Hi He. unfold plain. pose proof (li_emit _ Hi He) as Hf. pose proof (li_reading _ Hi) as Hr.
  destruct (currently_reading t); cbn in Hf, Hr; try done; try (by rewrite Hr); by destruct Hr as [_ ->].
Qed.

Lemma rtc_pass_inv t t' : rtc pass t t' → lr_inv t →
  lr_inv t' ∧ options t' = options t ∧ at_eof t' = at_eof t.
Proof.
  intros Hp. induction Hp as [|x y z Hxy _ IH]; [done|]. intros Hi.
  destruct (pass_inv x y Hi Hxy) as (Hiy & _ & Ho & He). destruct (IH Hiy) as (? & ? & ?).
  split_and!; [done|congruence|congruence].
Qed.

Lemma emit_plain_run t : lr_inv t → emit_chunks (options t) = true → plain_run t.
Proof.
  intros Hi He t' Hp. destruct (rtc_pass_inv t t' Hp Hi) as (Hi' & Ho & _).
  apply file_level_plain; [done|by rewrite Ho].
Qed.

(** What a record leaves of the reader's state. *)
Lemma read_all_record t r t' : lr_inv t → at_eof t = false → read_all t = (Ok (Some r), t') →
  lr_inv t' ∧ options t' = options t ∧ at_eof t' = false.
Proof.
  intros Hi He. unfold read_all. pose proof (next_event_ok t Hi) as Hn.
  destruct (next_event t) as [[[[n|op data]|]|e| |] t1]; cbn in Hn; try done.
  - rewrite (next_event_eof (set_at_eof true t1)) by done. by destruct (eof_ok _).
  - intros [= <- <-]. destruct Hn as (? & ? & ? & _). split_and!; [done|done|congruence].
Qed.

(** The states a reader goes through while it answers, from one record to the next. *)
Definition turn (t t' : LinearReader) : Prop :=
  ∃ a, step t = (Ok a, t') ∧ (a = Next () ∨ ∃ opcode data, a = Return (Some (EvRecord opcode data))).

(** A reader that meets no compressed chunk in its input: it emits chunks whole, or
    the chunks it opens are stored as they are. *)
Definition never_decompresses (t : LinearReader) : Prop := ∀ t', rtc turn t t' → plain t'.

Lemma pass_turn t t' : pass t t' → turn t t'.
Proof. intros Hp. exists (Next ()). auto. Qed.

Lemma never_decompresses_run t : never_decompresses t → plain_run t.
Proof. intros Hn t' Hp. apply Hn. eapply rtc_subrel; [apply pass_turn|exact Hp]. Qed.

Lemma never_decompresses_later t t' : never_decompresses t → rtc turn t t' → never_decompresses t'.
Proof. intros Hn Ht t2 Ht2. apply Hn. by etrans. Qed.

Lemma rtc_turn_inv t t' : rtc turn t t' → lr_inv t → lr_inv t' ∧ options t' = options t.
Proof.
  intros Ht. induction Ht as [|x y z (a & Hs & Ha) _ IH]; [done|]. intros Hi.
  pose proof (step_ok x Hi) as Hok. unfold fpost in Hok. rewrite Hs in Hok. cbn [fst snd] in Hok. destruct Hok as [[Ho _] Hok].
  assert (lr_inv y) as Hy by (destruct Ha as [-> | (? & ? & ->)]; cbn in Hok; apply Hok).
  destruct (IH Hy) as [? ?]. split; [done|congruence].
Qed.

Lemma emit_never_decompresses t : lr_inv t → emit_chunks (options t) = true → never_decompresses t.
Proof.
  intros Hi He t' Ht. destruct (rtc_turn_inv t t' Ht Hi) as (Hi' & Ho).
  apply file_level_plain; [done|by rewrite Ho].
Qed.

Lemma event_loop_turns fuel t op b t' : event_loop fuel t = (Ok (Some (EvRecord op b)), t') → rtc turn t t'.
Proof.
  revert t. induction fuel as [|fuel IH]; intros t; cbn [event_loop];
    destruct (step t) as [[[[]|r]|e| |] t1] eqn:E; try done.
  - intros [= -> ->]. apply rtc_once. eexists. eauto.
  - intros Hl%IH. eapply rtc_l; [by apply pass_turn|done].
  - intros [= -> ->]. apply rtc_once. eexists. eauto.
Qed.

Lemma read_all_turns t r t' : at_eof t = false → read_all t = (Ok (Some r), t') → rtc turn t t'.
Proof.
  intros He. unfold read_all. unfold next_event at 1. rewrite He.
  destruct (event_loop _ t) as [[[[n|op b]|]|e| |] t1] eqn:E; try done.
  - rewrite (next_event_eof (set_at_eof true t1)) by done. by destruct (eof_ok _).
  - intros [= <- <-]. by eapply event_loop_turns.
Qed.

Lemma client_run_reads_all s c rs o : client_run s c rs o →
  ∀ t, lr_inv s → at_eof s = false → never_decompresses t → sim c s t → reads_all t rs o.
Proof.
  intros Hr. induction Hr as [s c s' c' Hn|s c e s' c' Hn|s c s' c' Hn|s c r s1 c1 rs o Hn _ IH];
    intros t Hi He Hem Hs;
    pose proof (sim_lr_inv _ _ _ Hs Hi) as Hit;
    destruct (client_next_read_all _ _ _ _ _ Hn t Hi He Hs (never_decompresses_run t Hem)) as (t' & Et & Hs').
  - by eapply all_end.
  - by eapply all_fails.
  - by eapply all_panics.
  - assert (at_eof t = false) as Het by by rewrite (sm_eof _ _ _ Hs).
    destruct (read_all_record t r t' Hit Het Et) as (Hi' & Ho' & He').
    eapply all_record; [exact Et|]. apply IH; [by eapply sim_lr_inv_l|..|done].
    + by rewrite <-(sm_eof _ _ _ Hs').
    + eapply never_decompresses_later; [done|by eapply read_all_turns].
Qed.

(** What the theorems on feeding assume of a reader with options [o] and its input:
    it emits chunks whole, or no chunk of the input is compressed. *)
Definition stays_plain (o : LinearReaderOptions) (file : bytes) : Prop :=
  emit_chunks o = true ∨ never_decompresses (all_input file (LinearReader_new o)).

Lemma all_input_new_sim o file : sim file (LinearReader_new o) (all_input file (LinearReader_new o)).
Proof. apply all_input_sim, (li_file _ (LinearReader_new_inv o)). Qed.

Lemma stays_plain_never o file : stays_plain o file → never_decompresses (all_input file (LinearReader_new o)).
Proof.
  intros [He|Hn]; [|done]. apply emit_never_decompresses; [|done].
  eapply sim_lr_inv; [apply all_input_new_sim|apply LinearReader_new_inv].
Qed.

Lemma stays_plain_run o file rs out : stays_plain o file →
  client_run (LinearReader_new o) file rs out →
  reads_all (all_input file (LinearReader_new o)) rs out.
Proof.
  intros Hp Hr. eapply client_run_reads_all; [exact Hr|apply LinearReader_new_inv|done| |].
  - by apply stays_plain_never.
  - apply all_input_new_sim.
Qed.

Lemma client_run_all_input o file rs out : emit_chunks o = true →
  client_run (LinearReader_new o) file rs out →
  reads_all (all_input file (LinearReader_new o)) rs out.
Proof. intros Hem. apply stays_plain_run. by left. Qed.
End independent.

(** Running a reader to see that it never decompresses. *)
Definition plainb `{Crc, ZstdLib, Lz4Lib} (s : LinearReader) : bool :=
  match chunk_state s with Some c => match cs_decompressor c with None => true | _ => false end | None => true end.

Fixpoint plain_turns `{Crc, ZstdLib, Lz4Lib} (fuel : nat) (t : LinearReader) : bool :=
  plainb t &&
  match fuel with
  | 0 => false
  | S fuel =>
      match step t with
      | (Ok (Next _), t') => plain_turns fuel t'
      | (Ok (Return (Some (EvRecord _ _))), t') => plain_turns fuel t'
      | _ => true
      end
  end.

Lemma plain_turns_sound `{Crc, ZstdLib, Lz4Lib} fuel t : plain_turns fuel t = true → never_decompresses t.
Proof.
  revert t. induction fuel as [|fuel IH]; intros t; cbn [plain_turns]; rewrite andb_true_iff; [by intros [_ [=]]|].
  intros [Hb Ht] t' Hr. inversion Hr as [|? t1 ? (a & Hs & Ha) Hr1]; subst.
  - unfold plain, plainb in *. destruct (chunk_state t') as [c|]; [|done]. by destruct (cs_decompressor c).
  - rewrite Hs in Ht. destruct Ha as [-> | (? & ? & ->)]; by apply (IH t1).
Qed.

(** ** A well-formed file *)

Record mcap_file := mkFile {
  file_records : list (Z * bytes);
  file_data_end : DataEnd;
  file_summary : list (Z * bytes);
  file_footer : Footer;
}.

Definition data_end_rec (f : mcap_file) : Z * bytes := (op.DATA_END, c_enc DataEnd_codec (file_data_end f)).
Definition footer_rec (f : mcap_file) : Z * bytes := (op.FOOTER, c_enc Footer_codec (file_footer f)).

Definition data_section (f : mcap_file) : bytes := MAGIC ++ frames (file_records f).
(** What the summary checksum covers ends inside the footer, before that checksum. *)
Definition summary_section (f : mcap_file) : bytes :=
  frames (file_summary f) ++ ztake (9 + 16) (frames [footer_rec f]).
Definition file_bytes (f : mcap_file) : bytes :=
  data_section f ++ frames [data_end_rec f] ++ frames (file_summary f) ++ frames [footer_rec f] ++ MAGIC.

Section file.
Context `{Crc, ZstdLib, Lz4Lib, !ZstdLibOk, !Lz4LibOk}.

(** A body that the reader's limit and a [usize] admit. *)
Definition body_fits (o : LinearReaderOptions) (b : bytes) : bool :=
  (OPCODE_LEN_SIZE + zlen b <=? usize_max)%Z && bool_decide (is_Some (check_len (zlen b) (record_length_limit o))).
Definition ordinary (o : LinearReaderOptions) (r : Z * bytes) : bool :=
  c_wf u8 r.1 && negb (r.1 =? op.DATA_END)%Z && negb (r.1 =? op.FOOTER)%Z && body_fits o r.2.
Definition file_ok (o : LinearReaderOptions) (f : mcap_file) : bool :=
  forallb (ordinary o) (file_records f) && forallb (ordinary o) (file_summary f) &&
  c_wf DataEnd_codec (file_data_end f) && c_wf Footer_codec (file_footer f) &&
  body_fits o (data_end_rec f).2 && body_fits o (footer_rec f).2.

Definition bad_crc (validate : bool) (saved calculated : Z) : bool :=
  validate && negb (saved =? 0)%Z && negb (calculated =? saved)%Z.

(** The records a reader gives, and how it ends. *)
Definition expected (o : LinearReaderOptions) (f : mcap_file) : list (Z * bytes) * McapResult () :=
  let data_crc := de_data_section_crc (file_data_end f) in
  let summary_crc := f_summary_crc (file_footer f) in
  if bad_crc (validate_data_section_crc o) data_crc (crc32 (data_section f))
  then (file_records f, Err (BadDataCrc data_crc (crc32 (data_section f))))
  else if bad_crc (validate_summary_section_crc o) summary_crc (crc32 (summary_section f))
  then (file_records f ++ data_end_rec f :: file_summary f,
        Err (BadSummaryCrc summary_crc (crc32 (summary_section f))))
  else (file_records f ++ data_end_rec f :: file_summary f ++ [footer_rec f], Ok ()).

(** ** One record at a time *)

Record at_state (r : CurrentlyReading) (o : LinearReaderOptions) (u : bytes) (h : option hasher)
    (t : LinearReader) : Prop := {
  as_inv : lr_inv t;
  as_options : options t = o;
  as_eof : at_eof t = false;
  as_reading : currently_reading t = r;
  as_unread : rb_unread (file_data t) = u;
  as_hasher : rb_hasher (file_data t) = h;
}.

Lemma at_len r o u h t : at_state r o u h t → rb_len (file_data t) = zlen u.
Proof. intros []. rewrite <-as_unread0. symmetry. by apply zlen_unread, as_inv0. Qed.

Lemma read_all_pass t t' : lr_inv t → at_eof t = false → pass t t' → read_all t = read_all t'.
Proof.
  intros Hi He Hp. destruct (pass_inv t t' Hi Hp) as (Hi' & _ & _ & He').
  unfold read_all. by rewrite !next_event_run, (run_pass t t') by (done || congruence).
Qed.

Lemma reads_all_pass t t' rs out : lr_inv t → at_eof t = false → pass t t' →
  reads_all t' rs out → reads_all t rs out.
Proof.
  intros Hi He Hp Hr. pose proof (read_all_pass t t' Hi He Hp) as Hra.
  inversion Hr; subst; rewrite <-Hra in *; econstructor; eauto.
Qed.

Lemma run_return t r t' : step t = (Ok (Return r), t') → run t = (Ok r, t').
Proof. intros E. unfold run. destruct (work t); cbn [event_loop]; by rewrite E. Qed.
Lemma run_error t e t' : step t = (Err e, t') → run t = (Err e, t').
Proof. intros E. unfold run. destruct (work t); cbn [event_loop]; by rewrite E. Qed.

Lemma reads_all_record t op data t' rs out : lr_inv t → at_eof t = false →
  step t = (Ok (Return (Some (EvRecord op data))), t') → reads_all t' rs out →
  reads_all t ((op, data) :: rs) out.
Proof.
  intros Hi He E Hr. eapply all_record; [|exact Hr]. unfold read_all.
  by rewrite next_event_run, (run_return _ _ _ E).
Qed.

Lemma reads_all_error t e t' : lr_inv t → at_eof t = false →
  step t = (Err e, t') → reads_all t [] (Err e).
Proof.
  intros Hi He E. eapply all_fails. unfold read_all. by rewrite next_event_run, (run_error _ _ _ E).
Qed.

(** The arm for a state. *)
Definition arm (r : CurrentlyReading) : flow LinearReader (option LinearReadEvent) () :=
  match r with
  | StartMagic => step_start_magic
  | FileRecord => step_file_record
  | CRDataEnd len calculated => step_data_end len calculated
  | CRFooter len h => step_footer len h
  | CRChunkHeader len => step_chunk_header len
  | ValidatingChunkCrc => step_validating_chunk_crc
  | ChunkRecord => step_chunk_record
  | PaddingAfterChunk => step_padding_after_chunk
  | EndMagic => step_end_magic
  | AfterEndMagic => step_after_end_magic
  end.

Lemma fpost_step r s Q : currently_reading s = r → fpost (arm r) s Q → fpost step s Q.
Proof. intros <-. unfold fpost, step, arm. by destruct (currently_reading s). Qed.

(** Steps, from what their arms do to what is read next and to the input. *)
Lemma step_next r o u h t (P : LinearReader → Prop) : at_state r o u h t →
  fpost step t (λ out t', out = Ok (Next ()) ∧ P t') →
  ∃ t', pass t t' ∧ lr_inv t' ∧ options t' = o ∧ at_eof t' = false ∧ P t'.
Proof.
  intros Ht. pose proof (step_ok t (as_inv _ _ _ _ _ Ht)) as Hs. unfold fpost in *. unfold pass.
  destruct (step t) as [out t']. cbn in *. intros [-> HP]. destruct Hs as [[Ho He] [Hi _]].
  exists t'. split_and!; try done; [by rewrite Ho, (as_options _ _ _ _ _ Ht)|by rewrite He, (as_eof _ _ _ _ _ Ht)].
Qed.

Lemma step_record r o u h t op data (P : LinearReader → Prop) : at_state r o u h t →
  fpost step t (λ out t', out = Ok (Return (Some (EvRecord op data))) ∧ P t') →
  ∃ t', step t = (Ok (Return (Some (EvRecord op data))), t') ∧
    lr_inv t' ∧ options t' = o ∧ at_eof t' = false ∧ P t'.
Proof.
  intros Ht. pose proof (step_ok t (as_inv _ _ _ _ _ Ht)) as Hs. unfold fpost in *.
  destruct (step t) as [out t']. cbn in *. intros [-> HP]. destruct Hs as [[Ho He] [Hi _]].
  exists t'. split_and!; try done; [by rewrite Ho, (as_options _ _ _ _ _ Ht)|by rewrite He, (as_eof _ _ _ _ _ Ht)].
Qed.

Lemma fpost_consume_ok n s u v (Q : _ → _ → Prop) : lr_inv s → rb_unread (file_data s) = u ++ v →
  n = zlen u →
  (∀ b, rb_wf b → rb_unread b = v → rb_hasher b = hash_opt (rb_hasher (file_data s)) u →
     Q (Ok (Next u)) (set_file_data b s)) →
  fpost (consume_file n) s Q.
Proof.
  intros Hi Hu -> Hq. pose proof (zlen_nonneg u). pose proof (zlen_nonneg v).
  assert (rb_len (file_data s) = zlen u + zlen v)%Z as Hl.
  { rewrite <-zlen_unread by apply Hi. rewrite Hu. zlia. }
  apply fpost_consume; [done|lia|intros; lia|]. intros b _ W U _ Hh.
  rewrite Hu, zdrop_app in U by done. rewrite Hu, ztake_app in Hh by done.
  rewrite Hu, ztake_app by done. auto.
Qed.

Lemma fpost_load_ok n s u v (Q : _ → _ → Prop) : lr_inv s → rb_unread (file_data s) = u ++ v →
  n = zlen u → Q (Ok (Next u)) s → fpost (load n) s Q.
Proof.
  intros Hi Hu -> Hq. pose proof (zlen_nonneg u). pose proof (zlen_nonneg v).
  assert (rb_len (file_data s) = zlen u + zlen v)%Z as Hl.
  { rewrite <-zlen_unread by apply Hi. rewrite Hu. zlia. }
  apply fpost_load; [done|intros; lia|]. intros _. by rewrite Hu, ztake_app.
Qed.

Lemma fpost_mark_file_read_ok n s u v (Q : _ → _ → Prop) : lr_inv s →
  rb_unread (file_data s) = u ++ v → n = zlen u →
  (∀ b, rb_wf b → rb_unread b = v → rb_hasher b = hash_opt (rb_hasher (file_data s)) u →
     Q (Ok (Next ())) (set_file_data b s)) →
  fpost (mark_file_read n) s Q.
Proof.
  intros Hi Hu -> Hq. pose proof (zlen_nonneg u). pose proof (zlen_nonneg v).
  assert (rb_len (file_data s) = zlen u + zlen v)%Z as Hl.
  { rewrite <-zlen_unread by apply Hi. rewrite Hu. zlia. }
  apply fpost_mark_file_read; [done|lia|]. intros b W U Hh.
  rewrite Hu, zdrop_app in U by done. rewrite Hu, ztake_app in Hh by done. auto.
Qed.

Lemma start_magic_step o u h t : at_state StartMagic o (MAGIC ++ u) h t → skip_start_magic o = false →
  ∃ t', pass t t' ∧ at_state FileRecord o u (hash_opt h MAGIC) t'.
Proof.
  intros Ht Ho. pose proof Ht as [Hi Hop He Hr Hu Hh].
  destruct (step_next _ _ _ _ t (λ t', currently_reading t' = FileRecord ∧ rb_unread (file_data t') = u ∧
    rb_hasher (file_data t') = hash_opt h MAGIC) Ht) as (t' & ? & ? & ? & ? & ? & ? & ?);
    [|exists t'; split; [done|by split]].
  apply (fpost_step _ _ _ Hr). cbn [arm]. unfold step_start_magic. fstep. fstep. rewrite Hop, Ho. fstep. fstep.
  apply (fpost_consume_ok _ _ MAGIC u); [done|done|done|]. intros b W U Hb.
  rewrite decide_True by done. fsteps. rewrite <-Hh. done.
Qed.

(** The head of a frame. *)
Definition head (opcode : Z) (body : bytes) : bytes := le_enc 1 opcode ++ le_enc 8 (zlen body).
Lemma frame_head opcode body : frame opcode body = head opcode body ++ body.
Proof. unfold frame, head. by rewrite <-app_assoc. Qed.
Lemma zlen_head opcode body : OPCODE_LEN_SIZE = zlen (head opcode body).
Proof. unfold head, OPCODE_LEN_SIZE. zlia. Qed.
Lemma opcode_of_head opcode body : c_wf u8 opcode = true → opcode_of (head opcode body) = opcode.
Proof.
  intros Hw. unfold opcode_of, head. rewrite ztake_app by done. apply le_dec_enc_u.
  by apply (uint_wf_in 1) in Hw.
Qed.
Lemma length_of_head opcode body : (zlen body ≤ usize_max)%Z → length_of (head opcode body) = zlen body.
Proof.
  intros Hl. unfold length_of, head. rewrite zdrop_app by done. apply le_dec_enc_u.
  zlen_facts. unfold in_u, usize_max, u64_max in *. cbn in *. lia.
Qed.
Lemma body_fits_spec o b : body_fits o b = true →
  (OPCODE_LEN_SIZE + zlen b ≤ usize_max)%Z ∧ check_len (zlen b) (record_length_limit o) = Some (zlen b).
Proof.
  unfold body_fits. rewrite andb_true_iff, Z.leb_le, bool_decide_eq_true. intros [? [n Hn]].
  split; [done|]. pose proof (check_len_Ok _ _ _ Hn) as (-> & _). done.
Qed.

Lemma ordinary_step o opcode body u h t :
  at_state FileRecord o (frame opcode body ++ u) h t → emit_chunks o = true ∨ opcode ≠ op.CHUNK →
  ordinary o (opcode, body) = true →
  ∃ t', step t = (Ok (Return (Some (EvRecord opcode body))), t') ∧
    at_state FileRecord o u (hash_opt h (frame opcode body)) t'.
Proof.
  intros Ht Hem Hor. pose proof Ht as [Hi Hop He Hr Hu Hh].
  unfold ordinary in Hor. cbn in Hor. rewrite !andb_true_iff, !negb_true_iff in Hor.
  destruct Hor as [[[Hw Hd] Hf] [Hm Hk]%body_fits_spec].
  assert (zlen body ≤ usize_max)%Z as Hle by (unfold OPCODE_LEN_SIZE in *; lia).
  destruct (step_record _ _ _ _ t opcode body (λ t', currently_reading t' = FileRecord ∧
    rb_unread (file_data t') = u ∧ rb_hasher (file_data t') = hash_opt h (frame opcode body)) Ht)
    as (t' & ? & ? & ? & ? & ? & ? & ?); [|exists t'; split; [done|by split]].
  apply (fpost_step _ _ _ Hr). cbn [arm]. unfold step_file_record. fstep.
  rewrite frame_head, <-app_assoc in Hu.
  apply (fpost_load_ok _ _ (head opcode body) (body ++ u)); [done|done|apply zlen_head|].
  rewrite opcode_of_head, length_of_head by done.
  assert ((opcode =? op.CHUNK)%Z && negb (emit_chunks o) = false) as Hch.
  { destruct Hem as [->|Hne]; [apply andb_false_r|]. by rewrite (proj2 (Z.eqb_neq _ _) Hne). }
  fstep. fstep. rewrite Hop, Hch, Hd, Hf, Hk. fsteps. cbn. fstep. fstep. rewrite add_Ok by done. cbn. fstep.
  apply (fpost_consume_ok _ _ (head opcode body ++ body) u); [done|by rewrite Hu, app_assoc| |].
  { rewrite zlen_app, <-zlen_head. done. }
  intros b W U Hb. fstep. rewrite zdrop_app by apply zlen_head.
  rewrite frame_head, <-Hh. done.
Qed.

(** The records whose checksum is looked at are read in two steps. *)
Lemma data_end_pass o body u h t :
  at_state FileRecord o (frame op.DATA_END body ++ u) h t → (zlen body ≤ usize_max)%Z →
  ∃ t', pass t t' ∧
    at_state (CRDataEnd (zlen body) (hasher_finalize <$> h)) o (body ++ u) None t'.
Proof.
  intros Ht Hl. pose proof Ht as [Hi Hop He Hr Hu Hh].
  destruct (step_next _ _ _ _ t (λ t', currently_reading t' = CRDataEnd (zlen body) (hasher_finalize <$> h) ∧
    rb_unread (file_data t') = body ++ u ∧ rb_hasher (file_data t') = None) Ht)
    as (t' & ? & ? & ? & ? & ? & ? & ?); [|exists t'; split; [done|by split]].
  apply (fpost_step _ _ _ Hr). cbn [arm]. unfold step_file_record. fstep.
  rewrite frame_head, <-app_assoc in Hu.
  apply (fpost_load_ok _ _ (head op.DATA_END body) (body ++ u)); [done|done|apply zlen_head|].
  rewrite opcode_of_head, length_of_head by done.
  fstep. fstep. replace (op.DATA_END =? op.CHUNK)%Z with false by done. cbn [andb].
  rewrite Z.eqb_refl. fstep. fstep. fstep. fstep. fstep.
  apply (fpost_mark_file_read_ok _ _ (head op.DATA_END body) (body ++ u)); [by destruct Hi|done|apply zlen_head|].
  intros b W U Hb. fstep. cbn. rewrite Hh, U, Hb. done.
Qed.

Lemma data_end_body d : read_record DataEnd_codec (c_enc DataEnd_codec d) = Ok d ↔ c_wf DataEnd_codec d = true.
Proof.
  split.
  - unfold read_record. destruct (read_le _ _) as [[d' c]|e| |] eqn:E; try done. intros [= <-].
    by apply (read_le_canon DataEnd_codec) in E as (? & _).
  - intros Hw. rewrite <-(app_nil_r (c_enc _ _)). by apply (read_record_enc DataEnd_codec).
Qed.

Section data_end.
Context (o : LinearReaderOptions) (d : DataEnd) (u : bytes) (calculated : option Z) (t : LinearReader).
Let body := c_enc DataEnd_codec d.
Context (Ht : at_state (CRDataEnd (zlen body) calculated) o (body ++ u) None t)
  (Hw : c_wf DataEnd_codec d = true) (Hfit : body_fits o body = true).

(** The arm up to the checksum. *)
Lemma data_end_to_crc Q :
  fpost (check_data_crc (de_data_section_crc d) calculated) t (λ out s', match out with
    | Ok (Next _) => fpost (
        _ ← fset (λ s, if validate_summary_section_crc o
                       then set_file_data (set_hasher (Some hasher_new) (file_data s)) s else s);
        data ← consume_file_without_hashing (zlen body);
        _ ← fset (set_reading FileRecord);
        freturn (Some (EvRecord op.DATA_END data))) s' Q
    | Ok (Return r) => Q (Ok (Return r)) s'
    | Err e => Q (Err e) s'
    | Panic => Q Panic s'
    | Fuel => Q Fuel s'
    end) → fpost step t Q.
Proof.
  intros HQ. pose proof Ht as [Hi Hop He Hr Hu Hh]. pose proof (body_fits_spec _ _ Hfit) as [Hm Hk].
  apply (fpost_step _ _ _ Hr). cbn [arm]. unfold step_data_end.
  fstep. fstep. fstep. fstep. rewrite Hop, Hk. cbn. fstep.
  apply (fpost_load_ok _ _ body u); [done|done|done|]. fstep. fstep.
  rewrite (proj2 (data_end_body d) Hw : read_record DataEnd_codec body = Ok d). cbn. fstep. exact HQ.
Qed.

Lemma data_end_ok :
  check_data_crc (de_data_section_crc d) calculated t = (Ok (Next ()), t) →
  ∃ t', step t = (Ok (Return (Some (EvRecord op.DATA_END body))), t') ∧
    at_state FileRecord o u (if validate_summary_section_crc o then Some hasher_new else None) t'.
Proof.
  intros Hcrc. pose proof Ht as [Hi Hop He Hr Hu Hh].
  set (h := if validate_summary_section_crc o then Some hasher_new else None).
  destruct (step_record _ _ _ _ t op.DATA_END body (λ t', currently_reading t' = FileRecord ∧
    rb_unread (file_data t') = u ∧ rb_hasher (file_data t') = h) Ht)
    as (t' & ? & ? & ? & ? & ? & ? & ?); [|exists t'; split; [done|by split]].
  apply data_end_to_crc. unfold fpost at 1. rewrite Hcrc. cbn. fstep. fstep.
  set (s1 := if validate_summary_section_crc o then _ else t).
  assert (s1 = set_file_data (set_hasher h (file_data t)) t) as ->.
  { subst s1 h. destruct (validate_summary_section_crc o); [done|]. rewrite <-Hh.
    by destruct t as [? ? []]. }
  fstep. unfold consume_file_without_hashing. pose proof (zlen_nonneg body). pose proof (zlen_nonneg u).
  destruct (consume_without_hashing_spec (zlen body) (set_hasher h (file_data t)) (li_file _ Hi))
    as (b & E & W & U & L & Hb).
  { rewrite len_set_hasher, <-zlen_unread, Hu by apply Hi. zlia. }
  rewrite unread_set_hasher, Hu in U, E. rewrite zdrop_app in U by done. rewrite ztake_app in E by done.
  fsteps. cbn [file_data set_file_data]. change (c_enc u32 (de_data_section_crc d)) with body.
  rewrite E. cbn. fsteps. split; [done|]. split_and!; done.
Qed.

Lemma data_end_bad e :
  check_data_crc (de_data_section_crc d) calculated t = (Err e, t) →
  ∃ t', step t = (Err e, t').
Proof.
  intros Hcrc. assert (fpost step t (λ out _, out = Err e)) as Hs.
  { apply data_end_to_crc. unfold fpost. by rewrite Hcrc. }
  unfold fpost in Hs. destruct (step t) as [out t']. cbn in Hs. subst out. by exists t'.
Qed.
End data_end.

Lemma footer_pass o body u h t :
  at_state FileRecord o (frame op.FOOTER body ++ u) h t → (zlen body ≤ usize_max)%Z →
  ∃ t', pass t t' ∧
    at_state (CRFooter (zlen body) (hash_opt h (head op.FOOTER body))) o (body ++ u) None t'.
Proof.
  intros Ht Hl. pose proof Ht as [Hi Hop He Hr Hu Hh].
  destruct (step_next _ _ _ _ t (λ t', currently_reading t' = CRFooter (zlen body) (hash_opt h (head op.FOOTER body)) ∧
    rb_unread (file_data t') = body ++ u ∧ rb_hasher (file_data t') = None) Ht)
    as (t' & ? & ? & ? & ? & ? & ? & ?); [|exists t'; split; [done|by split]].
  apply (fpost_step _ _ _ Hr). cbn [arm]. unfold step_file_record. fstep.
  rewrite frame_head, <-app_assoc in Hu.
  apply (fpost_load_ok _ _ (head op.FOOTER body) (body ++ u)); [done|done|apply zlen_head|].
  rewrite opcode_of_head, length_of_head by done.
  fstep. fstep. replace (op.FOOTER =? op.CHUNK)%Z with false by done. cbn [andb].
  replace (op.FOOTER =? op.DATA_END)%Z with false by done. rewrite Z.eqb_refl. fstep.
  apply (fpost_mark_file_read_ok _ _ (head op.FOOTER body) (body ++ u)); [done|done|apply zlen_head|].
  intros b W U Hb. fsteps. cbn. rewrite Hb, Hh, unread_set_hasher, U. done.
Qed.

Section footer.
Context (o : LinearReaderOptions) (f : Footer) (u : bytes) (h : option hasher) (t : LinearReader).
Let body := c_enc Footer_codec f.
Context (Ht : at_state (CRFooter (zlen body) h) o (body ++ u) None t)
  (Hw : c_wf Footer_codec f = true) (Hfit : body_fits o body = true).

Lemma footer_body : read_record Footer_codec body = Ok f.
Proof. rewrite <-(app_nil_r body). by apply (read_record_enc Footer_codec). Qed.

Lemma footer_to_crc Q :
  (∀ b, rb_wf b → rb_unread b = u → rb_hasher b = None →
    fpost (check_summary_crc (f_summary_crc f) body h) (set_file_data b t) (λ out s', match out with
    | Ok (Next _) => fpost (
        _ ← fset (set_reading EndMagic);
        freturn (Some (EvRecord op.FOOTER body))) s' Q
    | Ok (Return r) => Q (Ok (Return r)) s'
    | Err e => Q (Err e) s'
    | Panic => Q Panic s'
    | Fuel => Q Fuel s'
    end)) → fpost step t Q.
Proof.
  intros HQ. pose proof Ht as [Hi Hop He Hr Hu Hh]. pose proof (body_fits_spec _ _ Hfit) as [Hm Hk].
  apply (fpost_step _ _ _ Hr). cbn [arm]. unfold step_footer.
  fstep. fstep. fstep. fstep. rewrite Hop, Hk. cbn. fstep.
  apply (fpost_consume_ok _ _ body u); [done|done|done|]. intros b W U Hb. fstep. fstep.
  rewrite footer_body. cbn. fstep. apply HQ; [done..|]. by rewrite Hb, Hh.
Qed.

Lemma footer_ok :
  (∀ s, check_summary_crc (f_summary_crc f) body h s = (Ok (Next ()), s)) →
  ∃ t', step t = (Ok (Return (Some (EvRecord op.FOOTER body))), t') ∧ at_state EndMagic o u None t'.
Proof.
  intros Hcrc. pose proof Ht as [Hi Hop He Hr Hu Hh].
  destruct (step_record _ _ _ _ t op.FOOTER body (λ t', currently_reading t' = EndMagic ∧
    rb_unread (file_data t') = u ∧ rb_hasher (file_data t') = None) Ht)
    as (t' & ? & ? & ? & ? & ? & ? & ?); [|exists t'; split; [done|by split]].
  apply footer_to_crc. intros b W U Hb. unfold fpost at 1. rewrite Hcrc.
  cbn [fst snd]. fsteps. done.
Qed.

Lemma footer_bad e :
  (∀ s, check_summary_crc (f_summary_crc f) body h s = (Err e, s)) → ∃ t', step t = (Err e, t').
Proof.
  intros Hcrc. assert (fpost step t (λ out _, out = Err e)) as Hs.
  { apply footer_to_crc. intros b _ _ _. unfold fpost. by rewrite Hcrc. }
  unfold fpost in Hs. destruct (step t) as [out t']. cbn in Hs. subst out. by exists t'.
Qed.
End footer.

(** After the footer there is only the magic, and the end. *)
Lemma end_magic_reads o t : at_state EndMagic o MAGIC None t → skip_end_magic o = false →
  emit_chunks o = true → reads_all t [] (Ok ()).
Proof.
  intros Ht Ho Hem. pose proof Ht as [Hi Hop He Hr Hu Hh].
  destruct (step_next _ _ _ _ t (λ t', currently_reading t' = AfterEndMagic ∧ rb_unread (file_data t') = []) Ht)
    as (t1 & Hp & Hi1 & Ho1 & He1 & Hr1 & Hu1).
  { apply (fpost_step _ _ _ Hr). cbn [arm]. unfold step_end_magic. fstep. fstep. rewrite Hop, Ho. fstep.
    apply (fpost_consume_ok _ _ MAGIC []); [done|by rewrite app_nil_r|done|]. intros b W U Hb.
    rewrite decide_True by done. fsteps. done. }
  eapply (reads_all_pass t t1); [done|done|exact Hp|].
  assert (rb_len (file_data t1) = 0)%Z as Hl.
  { rewrite <-zlen_unread by apply Hi1. by rewrite Hu1. }
  assert (∃ r, step t1 = (Ok (Return r), t1) ∧ r = if check_finishes_after_end_magic o then Some (ReadRequest 1) else None)
    as (r & Hs & Hreq).
  { unfold step. rewrite Hr1. unfold step_after_end_magic, mbind, flow_bind, fget, read_request, freturn.
    rewrite Ho1. destruct (check_finishes_after_end_magic o); [|by eexists].
    rewrite Hl. cbn. rewrite He1. by eexists. }
  destruct (check_finishes_after_end_magic o); subst r;
    (eapply all_end; unfold read_all; rewrite next_event_run, (run_return _ _ _ Hs) by done); [|done].
  rewrite next_event_eof by done.
  assert (eof_ok (set_at_eof true t1) = true) as ->; [|done].
  unfold eof_ok. cbn. rewrite Hr1, orb_true_r, Hl.
  rewrite (li_idle _ Hi1) by by rewrite Ho1.
  pose proof (li_reading _ Hi1) as Hc. rewrite Hr1 in Hc. cbn in Hc. by rewrite Hc.
Qed.

Lemma hash_opt_app `{!CrcLaws} h a b : hash_opt (hash_opt h a) b = hash_opt h (a ++ b).
Proof. destruct h; cbn; [|done]. by rewrite hasher_update_app. Qed.

Lemma ordinary_reads `{!CrcLaws} o rs u h t rs' out :
  at_state FileRecord o (frames rs ++ u) h t → emit_chunks o = true → forallb (ordinary o) rs = true →
  (∀ t', at_state FileRecord o u (hash_opt h (frames rs)) t' → reads_all t' rs' out) →
  reads_all t (rs ++ rs') out.
Proof.
  revert h t. induction rs as [|[op b] rs IH]; intros h t Ht Hem Hor Hrest.
  - apply Hrest. cbn in *. destruct Ht. split; try done. by rewrite as_hasher0; destruct h; cbn; rewrite ?hasher_update_nil.
  - cbn [forallb] in Hor. apply andb_true_iff in Hor as [Ho1 Ho2].
    rewrite frames_cons, <-app_assoc in Ht.
    destruct (ordinary_step _ _ _ _ _ _ Ht (or_introl Hem) Ho1) as (t' & E & Ht').
    eapply reads_all_record; [apply Ht|apply Ht|exact E|].
    eapply IH; [exact Ht'|done|done|]. intros t2 Ht2. apply Hrest.
    by rewrite hash_opt_app in Ht2.
Qed.

Lemma check_data_crc_eval (validate : bool) (saved : Z) (b : bytes) (s : LinearReader) :
  check_data_crc saved (hasher_finalize <$> hash_opt (if validate then Some hasher_new else None) b) s =
    (if bad_crc validate saved (crc32 b) then Err (BadDataCrc saved (crc32 b)) else Ok (Next ()), s).
Proof. destruct validate; cbn; [|done]. unfold bad_crc. cbn. by destruct (_ && _). Qed.

Lemma check_summary_crc_eval `{!CrcLaws} (validate : bool) (saved : Z) (b data : bytes) (s : LinearReader) : (16 ≤ zlen data)%Z →
  check_summary_crc saved data (hash_opt (if validate then Some hasher_new else None) b) s =
    (if bad_crc validate saved (crc32 (b ++ ztake 16 data))
     then Err (BadSummaryCrc saved (crc32 (b ++ ztake 16 data))) else Ok (Next ()), s).
Proof.
  intros Hl. destruct validate; cbn; [|done]. unfold bad_crc, mbind, flow_bind, check.
  rewrite slice_Ok by lia. cbn. rewrite Z.sub_0_r, zdrop_0, hasher_update_app by done.
  change (hasher_finalize (hasher_update hasher_new ?x)) with (crc32 x).
  rewrite (Z.eqb_sym saved (crc32 _)). by destruct (_ && _).
Qed.

(** The summary section, the footer and the magic. *)
Lemma summary_reads `{!CrcLaws} o sum ft t :
  let ft_body := c_enc Footer_codec ft in
  let section := frames sum ++ ztake (9 + 16) (frames [(op.FOOTER, ft_body)]) in
  at_state FileRecord o (frames sum ++ frames [(op.FOOTER, ft_body)] ++ MAGIC)
    (if validate_summary_section_crc o then Some hasher_new else None) t →
  emit_chunks o = true → skip_end_magic o = false → forallb (ordinary o) sum = true →
  c_wf Footer_codec ft = true → body_fits o ft_body = true →
  if bad_crc (validate_summary_section_crc o) (f_summary_crc ft) (crc32 section)
  then reads_all t sum (Err (BadSummaryCrc (f_summary_crc ft) (crc32 section)))
  else reads_all t (sum ++ [(op.FOOTER, ft_body)]) (Ok ()).
Proof.
  intros ft_body section Ht Hem Hse Hsum Hw Hf. pose proof (body_fits_spec _ _ Hf) as [Hl _].
  assert (16 ≤ zlen ft_body)%Z as H16 by (subst ft_body; cbn; zlia).
  assert (section = frames sum ++ head op.FOOTER ft_body ++ ztake 16 ft_body) as Hsec.
  { reflexivity. }
  set (h1 := if validate_summary_section_crc o then Some hasher_new else None) in *.
  assert (∀ rs' out, (∀ t2, at_state (CRFooter (zlen ft_body)
        (hash_opt h1 (frames sum ++ head op.FOOTER ft_body))) o (ft_body ++ MAGIC) None t2 → reads_all t2 rs' out) →
      reads_all t (sum ++ rs') out) as Hstart.
  { intros rs' out Hk. eapply ordinary_reads; [exact Ht|done|done|]. intros t2 Ht2.
    rewrite frames_one in Ht2.
    destruct (footer_pass _ _ _ _ _ Ht2) as (t3 & P3 & Ht3); [unfold OPCODE_LEN_SIZE in *; lia|].
    rewrite hash_opt_app in Ht3. eapply reads_all_pass; [apply Ht2|apply Ht2|exact P3|]. by apply Hk. }
  assert (∀ s, check_summary_crc (f_summary_crc ft) ft_body (hash_opt h1 (frames sum ++ head op.FOOTER ft_body)) s =
    (if bad_crc (validate_summary_section_crc o) (f_summary_crc ft) (crc32 section)
     then Err (BadSummaryCrc (f_summary_crc ft) (crc32 section)) else Ok (Next ()), s)) as Hcrc.
  { intros s. rewrite Hsec, app_assoc. by apply check_summary_crc_eval. }
  destruct (bad_crc _ _ _).
  - rewrite <-(app_nil_r sum). apply Hstart. intros t2 Ht2.
    destruct (footer_bad o ft MAGIC _ t2 Ht2 Hw Hf _ Hcrc) as (t3 & E). eapply reads_all_error; [apply Ht2|apply Ht2|exact E].
  - apply Hstart. intros t2 Ht2. destruct (footer_ok o ft MAGIC _ t2 Ht2 Hw Hf Hcrc) as (t3 & E & Ht3).
    eapply reads_all_record; [apply Ht2|apply Ht2|exact E|]. by eapply end_magic_reads.
Qed.

Lemma file_reads `{!CrcLaws} o f :
  emit_chunks o = true → skip_start_magic o = false → skip_end_magic o = false → file_ok o f = true →
  reads_all (all_input (file_bytes f) (LinearReader_new o)) (expected o f).1 (expected o f).2.
Proof.
  intros Hem Hss Hse Hok. unfold file_ok in Hok. rewrite !andb_true_iff in Hok.
  destruct Hok as [[[[[Hrec Hsum] Hwd] Hwf] Hfd] Hff].
  pose proof (body_fits_spec _ _ Hfd) as [Hld _].
  set (t0 := all_input _ _).
  assert (at_state StartMagic o (file_bytes f) (if validate_data_section_crc o then Some hasher_new else None) t0) as H0'.
  { pose proof (all_input_sim (file_bytes f) (LinearReader_new o) (li_file _ (LinearReader_new_inv o))) as Hs.
    split; try done; [by eapply sim_lr_inv, LinearReader_new_inv|cbn; by rewrite Hss|].
    etrans; [apply (sm_unread _ _ _ Hs)|done]. }
  set (h0 := if validate_data_section_crc o then Some hasher_new else None) in *.
  unfold file_bytes, data_section in H0'. rewrite <-app_assoc in H0'.
  destruct (start_magic_step _ _ _ _ H0' Hss) as (t1 & P1 & H1').
  eapply reads_all_pass; [apply H0'|apply H0'|exact P1|].
  set (bd := (data_end_rec f).2) in *.
  assert (∀ rs' out, (∀ t2, at_state (CRDataEnd (zlen bd) (hasher_finalize <$> hash_opt h0 (data_section f)))
      o (bd ++ frames (file_summary f) ++ frames [footer_rec f] ++ MAGIC) None t2 → reads_all t2 rs' out) →
      reads_all t1 (file_records f ++ rs') out) as Hdata.
  { intros rs' out Hk. eapply ordinary_reads; [exact H1'|done|done|]. intros t2 Ht2.
    rewrite hash_opt_app in Ht2. unfold data_end_rec in Ht2. rewrite frames_one in Ht2.
    destruct (data_end_pass _ _ _ _ _ Ht2) as (t3 & P3 & Ht3); [unfold OPCODE_LEN_SIZE in *; cbn in *; lia|].
    eapply reads_all_pass; [apply Ht2|apply Ht2|exact P3|]. by apply Hk. }
  pose proof (λ s, check_data_crc_eval (validate_data_section_crc o)
    (de_data_section_crc (file_data_end f)) (data_section f) s) as Hcrc. fold h0 in Hcrc.
  unfold expected. destruct (bad_crc (validate_data_section_crc o) _ _).
  { cbn [fst snd]. pose proof (λ out, Hdata [] out) as Hnil.
    rewrite app_nil_r in Hnil. apply Hnil. intros t2 Ht2.
    destruct (data_end_bad o (file_data_end f) _ _ t2 Ht2 Hwd Hfd _ (Hcrc t2)) as (t3 & E).
    eapply reads_all_error; [apply Ht2|apply Ht2|exact E]. }
  assert (∀ rs out, (∀ t3, at_state FileRecord o (frames (file_summary f) ++ frames [footer_rec f] ++ MAGIC)
      (if validate_summary_section_crc o then Some hasher_new else None) t3 → reads_all t3 rs out) →
      reads_all t1 (file_records f ++ data_end_rec f :: rs) out) as Hafter.
  { intros rs out Hk. apply Hdata. intros t2 Ht2.
    destruct (data_end_ok o (file_data_end f) _ _ t2 Ht2 Hwd Hfd (Hcrc t2)) as (t3 & E & Ht3).
    eapply reads_all_record; [apply Ht2|apply Ht2|exact E|]. by apply Hk. }
  pose proof (λ t3 Ht3, summary_reads o (file_summary f) (file_footer f) t3 Ht3 Hem Hse Hsum Hwf Hff) as Hs.
  fold (footer_rec f) in Hs. fold (summary_section f) in Hs.
  destruct (bad_crc (validate_summary_section_crc o) _ _); cbn [fst snd]; by apply Hafter.
Qed.

(** ** Less input *)

Lemma all_input_app c d s : rb_wf (file_data s) → sim d (all_input c s) (all_input (c ++ d) s).
Proof.
  intros Hw. pose proof (all_input_sim c s Hw) as S1. pose proof (all_input_sim (c ++ d) s Hw) as S2.
  split; try done; [apply S1|apply S2|]. by rewrite (sm_unread _ _ _ S1), (sm_unread _ _ _ S2), app_assoc.
Qed.

(** At the end of its input a reader that expects the end magic is not done. *)
Lemma truncated_end s n : skip_end_magic (options s) = false →
  check_finishes_after_end_magic (options s) = false →
  step s = (Ok (Return (Some (ReadRequest n))), s) →
  next_event (set_at_eof true s) = (Err UnexpectedEof, set_at_eof true s).
Proof.
  intros Hse Hcf Hs. rewrite next_event_eof by done. unfold eof_ok. cbn. rewrite Hse. cbn.
  destruct (currently_reading s) eqn:Hr; try done.
  unfold step in Hs. rewrite Hr in Hs. unfold step_after_end_magic, mbind, flow_bind, fget, freturn in Hs.
  by rewrite Hcf in Hs.
Qed.

(** A reader that is given only the beginning of its input either does as one that
    is given all of it, or stops at its end. *)
Lemma truncated_read d s t : lr_inv s → at_eof s = false → never_decompresses t →
  skip_end_magic (options s) = false → check_finishes_after_end_magic (options s) = false → sim d s t →
  (∃ s', read_all s = (Err UnexpectedEof, s')) ∨
  (∃ o s' t', read_all s = (o, s') ∧ read_all t = (o, t') ∧ sim d s' t').
Proof.
  intros Hi He Hem Hse Hcf Hs. pose proof (sim_lr_inv _ _ _ Hs Hi) as Hit.
  pose proof (never_decompresses_run t Hem) as Hp.
  pose proof (run_sim d s t Hi Hit Hp He Hs) as Hrun. pose proof (next_event_ok s Hi) as Hok.
  unfold read_all. rewrite (next_event_run s), (next_event_run t) in * by (done || by rewrite (sm_eof _ _ _ Hs)).
  destruct (run s) as [[[[n|op b]|]|e'| |] s1];
    try (destruct Hrun as (t' & -> & Hs'); right; by eexists _, _, _).
  left. cbn in Hok. destruct Hok as (_ & Ho & _). destruct Hrun as (_ & _ & _ & _ & _ & _ & Hstep).
  rewrite (truncated_end s1 n) by (done || by rewrite Ho). by eexists.
Qed.

Lemma never_decompresses_sim d s t : sim d s t → lr_inv s → at_eof s = false → never_decompresses t → never_decompresses s.
Proof.
  intros Hs Hi He Hn s' Ht. revert t Hs Hi He Hn.
  induction Ht as [|s s1 s' (a & E & Ha) _ IH]; intros t Hs Hi He Hn.
  { eapply sim_plain; [exact Hs|]. by apply Hn. }
  assert (plain s) as Hp by (eapply sim_plain; [exact Hs|]; by apply Hn).
  pose proof (step_rp d s t Hi Hp He Hs) as Hrp. unfold rp in Hrp. rewrite E in Hrp.
  pose proof (step_ok s Hi) as Hok. unfold fpost in Hok. rewrite E in Hok. cbn [fst snd] in Hok. destruct Hok as [[_ He1] Hok].
  assert (∃ t1, step t = (Ok a, t1) ∧ sim d s1 t1) as (t1 & Et & Hs1).
  { by destruct Ha as [-> | (? & ? & ->)]; destruct Hrp as (t1 & ? & ?); exists t1. }
  apply (IH t1); [done| |congruence|].
  - destruct Ha as [-> | (? & ? & ->)]; cbn in Hok; apply Hok.
  - eapply never_decompresses_later; [exact Hn|]. apply rtc_once. by exists a.
Qed.

Lemma truncated_reads d s rs1 out1 : reads_all s rs1 out1 → ∀ t rs2 out2,
  lr_inv s → at_eof s = false → never_decompresses t → skip_end_magic (options s) = false →
  check_finishes_after_end_magic (options s) = false →
  sim d s t → reads_all t rs2 out2 →
  (rs1 = rs2 ∧ out1 = out2) ∨ (rs1 `prefix_of` rs2 ∧ out1 = Err UnexpectedEof).
Proof.
  intros Hr. induction Hr as [s s' E|s e s' E|s s' E|s r s' rs o E _ IH];
    intros t rs2 out2 Hi He Hem Hse Hcf Hs H2';
    destruct (truncated_read d s t Hi He Hem Hse Hcf Hs) as [(s1 & E1)|(o1 & s1 & t1 & E1 & Et & Hs1)];
    rewrite E in E1; simplify_eq; try (right; split; [apply prefix_nil|done]);
    inversion H2' as [? ? E2|? ? ? E2|? ? E2|? ? ? ? ? E2 Hr2]; subst;
    rewrite Et in E2; simplify_eq; try (by left).
  destruct (read_all_record s _ s1 Hi He E) as (Hi' & Ho' & He').
  eapply read_all_turns in Et; [|by rewrite (sm_eof _ _ _ Hs)].
  edestruct IH as [[-> ->]|[Hpre ->]]; [done|done|by eapply never_decompresses_later|by rewrite Ho'|by rewrite Ho'|exact Hs1|exact Hr2| |].
  - by left.
  - right. split; [by apply prefix_cons|done].
Qed.
End file.

Section properties.
Context `{Crc, ZstdLib, Lz4Lib, !ZstdLibOk, !Lz4LibOk}.

(** C25: how a client cuts its input into pieces does not matter: two clients that
    feed the same bytes to readers with the same options get the same records and
    end the same way, whatever the bytes are, if the readers emit chunks whole or
    meet no compressed chunk in these bytes. (With compressed chunks the pieces
    reach the decompression library: C23 gives the answer on well-formed files.) *)
Theorem schedule_independent o file rs1 out1 rs2 out2 :
  stays_plain o file →
  client_run (LinearReader_new o) file rs1 out1 → client_run (LinearReader_new o) file rs2 out2 →
  rs1 = rs2 ∧ out1 = out2.
Proof.
  intros Hp R1 R2. eapply reads_all_det; by apply stays_plain_run.
Qed.

(** C22: reading a well-formed file, whoever feeds it and in whatever pieces, gives its
    records, the end of the data section and the footer included, in order, and
    then the end; with checksum validation on, a wrong data (or summary) checksum is
    reported in place of the record that holds it, with the checksum computed over
    the section's bytes. *)
Theorem linear_reader_file `{!CrcLaws} o f rs out :
  emit_chunks o = true → skip_start_magic o = false → skip_end_magic o = false → file_ok o f = true →
  client_run (LinearReader_new o) (file_bytes f) rs out → (rs, out) = expected o f.
Proof.
  intros Hem Hss Hse Hok Hr. apply client_run_all_input in Hr; [|done].
  destruct (reads_all_det _ _ _ _ _ Hr (file_reads o f Hem Hss Hse Hok)) as [-> ->]. by destruct expected.
Qed.

(** C29: a file cut short gives no record the whole file does not give: a reader
    that expects the end magic (neither the option that skips it nor the one that
    goes on after it is set), and that emits chunks whole or meets no compressed
    chunk, yields a prefix of the whole file's records, and unless the cut changed
    nothing it ends in [UnexpectedEof]. *)
Theorem truncated_prefix o c d rs1 out1 rs2 out2 :
  skip_end_magic o = false → check_finishes_after_end_magic o = false → stays_plain o (c ++ d) →
  client_run (LinearReader_new o) c rs1 out1 → client_run (LinearReader_new o) (c ++ d) rs2 out2 →
  (rs1 = rs2 ∧ out1 = out2) ∨ (rs1 `prefix_of` rs2 ∧ out1 = Err UnexpectedEof).
Proof.
  intros Hse Hcf Hp R1 R2. pose proof (stays_plain_never _ _ Hp) as Hn.
  assert (lr_inv (all_input c (LinearReader_new o))) as Hi
    by (eapply sim_lr_inv; [apply all_input_new_sim|apply LinearReader_new_inv]).
  assert (sim d (all_input c (LinearReader_new o)) (all_input (c ++ d) (LinearReader_new o))) as Hs
    by apply all_input_app, (li_file _ (LinearReader_new_inv o)).
  eapply truncated_reads; [|done..|exact Hs|by apply stays_plain_run].
  apply stays_plain_run; [|done]. right. by eapply never_decompresses_sim.
Qed.
End properties.

(** ** Examples *)

Module LinearReaderFileExamples.
Import BitCrc CopyLib.

Definition opts : LinearReaderOptions :=
  with_validate_data_section_crc true (with_emit_chunks true LinearReaderOptions_default).
Definition example_file : mcap_file :=
  mkFile [(op.HEADER, c_enc Header_codec (mkHeader [] (lit "lib"))); (128%Z, lit "private")]
    (mkDataEnd 3) [] (mkFooter 0 0 0).
Definition ends_badly : McapResult () := Err (BadDataCrc 3 (crc32 (data_section example_file))).

Lemma example_run piece : (piece = 1 ∨ piece = 1000)%Z →
  client_run (LinearReader_new opts) (file_bytes example_file) (file_records example_file) ends_badly.
Proof.
  intros Hp. apply (feed_pieces_run piece 100); [lia|].
  destruct Hp as [-> | ->]; vm_compute; reflexivity.
Qed.

Lemma linear_reader_file_witness :
  file_ok opts example_file = true ∧
  (file_records example_file, ends_badly) = expected opts example_file.
Proof.
  split; [vm_compute; reflexivity|].
  apply (linear_reader_file opts); [reflexivity..|vm_compute; reflexivity|].
  apply (example_run 1). by left.
Defined.

(** The default reader, on a file with a chunk that is stored as it is. *)
Definition stored : bytes := frame 128 (lit "private").
Definition default_opts : LinearReaderOptions := LinearReaderOptions_default.
Definition chunked_file : bytes :=
  MAGIC ++ frame op.HEADER (c_enc Header_codec (mkHeader [] (lit "lib"))) ++
  frame op.CHUNK (c_enc ChunkHeader_codec (mkChunkHeader 0 0 (zlen stored) 0 [] (zlen stored)) ++ stored) ++
  frame op.DATA_END (c_enc DataEnd_codec (mkDataEnd 0)) ++
  frame op.FOOTER (c_enc Footer_codec (mkFooter 0 0 0)) ++ MAGIC.
Definition chunked_records : list (Z * bytes) :=
  [(op.HEADER, c_enc Header_codec (mkHeader [] (lit "lib"))); (128%Z, lit "private");
   (op.DATA_END, c_enc DataEnd_codec (mkDataEnd 0)); (op.FOOTER, c_enc Footer_codec (mkFooter 0 0 0))].

Lemma stored_stays_plain : stays_plain default_opts chunked_file.
Proof. right. apply (plain_turns_sound 100). vm_compute. reflexivity. Qed.

Lemma schedule_independent_witness :
  emit_chunks default_opts = false ∧ chunked_records = chunked_records ∧ @Ok McapError () () = Ok ().
Proof.
  split; [reflexivity|].
  apply (schedule_independent default_opts chunked_file); [exact stored_stays_plain|..].
  - apply (feed_pieces_run 1 1000); [lia|]. vm_compute. reflexivity.
  - apply (feed_pieces_run 1000 100); [lia|]. vm_compute. reflexivity.
Defined.

(** Cut in the middle of the second record. *)
Definition cut : bytes := ztake 40 chunked_file.

Lemma truncated_prefix_witness :
  let one := take 1 chunked_records in
  (one = chunked_records ∧ @Err McapError () UnexpectedEof = Ok ()) ∨
  (one `prefix_of` chunked_records ∧ @Err McapError () UnexpectedEof = Err UnexpectedEof).
Proof.
  apply (truncated_prefix default_opts cut (zdrop 40 chunked_file)); [reflexivity..| | |].
  - replace (cut ++ zdrop 40 chunked_file) with chunked_file by (vm_compute; reflexivity). exact stored_stays_plain.
  - apply (feed_pieces_run 7 100); [lia|]. vm_compute. reflexivity.
  - apply (feed_pieces_run 7 1000); [lia|]. vm_compute. reflexivity.
Defined.
End LinearReaderFileExamples.
