(* ===== verification/Channels.v ===== *)
(** Schemas, channels and messages (lib.rs), and the [ChannelAccumulator] of read.rs,
    which gathers the schemas and channels of a file and checks that they agree. *)

From S2P Require Import Prelude Utf8 BTree Errors Bin Records.

Inductive Compression := Zstd | Lz4.

(** ** The structs of lib.rs *)

Record Schema := mkSchema {
  schema_id : Z;
  schema_name : rstring;
  schema_encoding : rstring;
  schema_data : bytes;
}.

(** An [Arc] is the value it points to: nothing behind one is mutated. *)
Record Channel := mkChannel {
  channel_id : Z;
  channel_topic : rstring;
  channel_schema : option Schema;
  channel_message_encoding : rstring;
  channel_metadata : list (rstring * rstring);
}.

Record Message := mkMessage {
  message_channel : Channel;
  message_sequence : Z;
  message_log_time : Z;
  message_publish_time : Z;
  message_data : bytes;
}.

Record Attachment := mkAttachment {
  attachment_log_time : Z;
  attachment_create_time : Z;
  attachment_name : rstring;
  attachment_media_type : rstring;
  attachment_data : bytes;
}.

#[export] Instance Compression_eq_dec : EqDecision Compression.
Proof. solve_decision. Defined.
#[export] Instance Schema_eq_dec : EqDecision Schema.
Proof. solve_decision. Defined.
#[export] Instance Channel_eq_dec : EqDecision Channel.
Proof. solve_decision. Defined.
#[export] Instance Message_eq_dec : EqDecision Message.
Proof. solve_decision. Defined.

(** ** The accumulator *)

Record ChannelAccumulator := mkChannelAccumulator {
  acc_schemas : gmap Z Schema;
  acc_channels : gmap Z Channel;
}.

Definition ChannelAccumulator_default : ChannelAccumulator := mkChannelAccumulator ∅ ∅.

Definition add_schema (header : SchemaHeader) (data : bytes)
    : method ChannelAccumulator McapError () := λ a,
  if (sh_id header =? 0)%Z then (Err InvalidSchemaId, a) else
  match acc_schemas a !! sh_id header with
  | Some schema =>
      if bool_decide (schema_name schema = sh_name header) &&
         bool_decide (schema_encoding schema = sh_encoding header) &&
         bool_decide (schema_data schema = data)
      then (Ok (), a) else (Err (ConflictingSchemas (sh_name header)), a)
  | None =>
      (Ok (), mkChannelAccumulator
        (<[sh_id header := mkSchema (sh_id header) (sh_name header) (sh_encoding header) data]>
           (acc_schemas a)) (acc_channels a))
  end.

(** [channel.schema.as_ref().map(|s| s.id).unwrap_or(0)] *)
Definition channel_schema_id (c : Channel) : Z := default 0%Z (schema_id <$> channel_schema c).

Definition add_channel (chan : ChannelRecord) : method ChannelAccumulator McapError () := λ a,
  match
    (if (c_schema_id chan =? 0)%Z then Ok None
     else match acc_schemas a !! c_schema_id chan with
          | Some s => Ok (Some s)
          | None => Err (UnknownSchema (c_topic chan) (c_schema_id chan))
          end)
  with
  | Ok schema =>
      match acc_channels a !! c_id chan with
      | Some channel =>
          if bool_decide (channel_topic channel = c_topic chan) &&
             (channel_schema_id channel =? c_schema_id chan)%Z &&
             bool_decide (channel_message_encoding channel = c_message_encoding chan) &&
             bool_decide (channel_metadata channel = c_metadata chan)
          then (Ok (), a) else (Err (ConflictingChannels (c_topic chan)), a)
      | None =>
          (Ok (), mkChannelAccumulator (acc_schemas a)
            (<[c_id chan := mkChannel (c_id chan) (c_topic chan) schema
                 (c_message_encoding chan) (c_metadata chan)]> (acc_channels a)))
      end
  | Err e => (Err e, a)
  | Panic => (Panic, a)
  | Fuel => (Fuel, a)
  end.

(** [get] *)
Definition acc_get (chan_id : Z) (a : ChannelAccumulator) : option Channel := acc_channels a !! chan_id.

(** ** What it promises *)

(** The maps are keyed by identifier, no schema has the identifier 0, and a
    channel's schema is the one of that identifier. *)
Record acc_ok (a : ChannelAccumulator) : Prop := {
  ao_schema i s : acc_schemas a !! i = Some s → schema_id s = i ∧ i ≠ 0%Z;
  ao_channel i c : acc_channels a !! i = Some c → channel_id c = i;
  ao_linked i c s : acc_channels a !! i = Some c → channel_schema c = Some s →
    acc_schemas a !! schema_id s = Some s;
}.

(** A declaration of a schema or of a channel. *)
Inductive declaration :=
| DeclSchema (header : SchemaHeader) (data : bytes)
| DeclChannel (chan : ChannelRecord).

Definition declare (d : declaration) : method ChannelAccumulator McapError () :=
  match d with
  | DeclSchema header data => add_schema header data
  | DeclChannel chan => add_channel chan
  end.

(** What a declaration says is what the accumulator holds. *)
Definition declared (d : declaration) (a : ChannelAccumulator) : Prop :=
  match d with
  | DeclSchema h data =>
      acc_schemas a !! sh_id h = Some (mkSchema (sh_id h) (sh_name h) (sh_encoding h) data)
  | DeclChannel c => ∃ s,
      acc_channels a !! c_id c =
        Some (mkChannel (c_id c) (c_topic c) s (c_message_encoding c) (c_metadata c)) ∧
      match s with
      | Some s => acc_schemas a !! c_schema_id c = Some s ∧ schema_id s = c_schema_id c
      | None => c_schema_id c = 0%Z
      end
  end.

(** The accumulator grows: nothing in it is replaced. *)
Definition acc_extends (a a' : ChannelAccumulator) : Prop :=
  acc_schemas a ⊆ acc_schemas a' ∧ acc_channels a ⊆ acc_channels a'.

Lemma acc_default_ok : acc_ok ChannelAccumulator_default.
Proof. by split; intros *; rewrite ?lookup_empty. Qed.

#[export] Instance acc_extends_preorder : PreOrder acc_extends.
Proof. split; [by split|]. intros a b c [] []. split; by etrans. Qed.

Lemma declared_extends d a a' : acc_extends a a' → declared d a → declared d a'.
Proof.
  intros [Hs Hc]. destruct d as [h data|c]; cbn.
  - intros Hd. by eapply lookup_weaken.
  - intros (s & Hd & Hs'). exists s. split; [by eapply lookup_weaken|].
    destruct s; [|done]. destruct Hs' as [? ?]. split; [|done]. by eapply lookup_weaken.
Qed.

Lemma add_schema_spec h data a : acc_ok a →
  let '(o, a') := add_schema h data a in
  acc_ok a' ∧ acc_extends a a' ∧
  match o with
  | Ok _ => declared (DeclSchema h data) a'
  | Err InvalidSchemaId => sh_id h = 0%Z ∧ a' = a
  | Err (ConflictingSchemas n) => n = sh_name h ∧ a' = a ∧ ¬ declared (DeclSchema h data) a
  | _ => False
  end.
Proof.
  intros Ha. unfold add_schema. destruct (Z.eqb_spec (sh_id h) 0) as [Hz|Hz]; [done|].
  destruct (acc_schemas a !! sh_id h) as [[i n e d]|] eqn:Hl.
  - destruct (ao_schema _ Ha _ _ Hl) as [Hi _]. cbn in Hi. subst i. cbn.
    destruct (_ && _) eqn:Hb; split_and!; try done.
    + rewrite !andb_true_iff, !bool_decide_eq_true in Hb. destruct Hb as [[-> ->] ->]. done.
    + intros Hd. cbn in Hd. rewrite Hl in Hd. injection Hd as -> -> ->.
      by rewrite !bool_decide_true in Hb.
  - destruct Ha as [As Ac Al]. split_and!.
    + split; cbn; [|done|].
      * intros i s. destruct (decide (sh_id h = i)) as [<-|].
        -- rewrite lookup_insert_eq. intros [= <-]. done.
        -- rewrite lookup_insert_ne by done. apply As.
      * intros i c s Hc Hs. rewrite lookup_insert_ne; [by eapply Al|].
        intros E. pose proof (Al i c s Hc Hs) as Hk. congruence.
    + split; cbn; [|done]. by apply insert_subseteq.
    + cbn. apply lookup_insert_eq.
Qed.

Lemma add_channel_spec c a : acc_ok a →
  let '(o, a') := add_channel c a in
  acc_ok a' ∧ acc_extends a a' ∧
  match o with
  | Ok _ => declared (DeclChannel c) a'
  | Err (UnknownSchema t i) => a' = a ∧ t = c_topic c ∧ i = c_schema_id c ∧ i ≠ 0%Z ∧ acc_schemas a !! i = None
  | Err (ConflictingChannels t) => t = c_topic c ∧ a' = a ∧ ¬ declared (DeclChannel c) a
  | _ => False
  end.
Proof.
  intros Ha. unfold add_channel.
  assert (∀ s, match s with Some s => acc_schemas a !! c_schema_id c = Some s | None => c_schema_id c = 0%Z end →
    let '(o, a') := match acc_channels a !! c_id c with
      | Some channel =>
          if bool_decide (channel_topic channel = c_topic c) &&
             (channel_schema_id channel =? c_schema_id c)%Z &&
             bool_decide (channel_message_encoding channel = c_message_encoding c) &&
             bool_decide (channel_metadata channel = c_metadata c)
          then (Ok (), a) else (Err (ConflictingChannels (c_topic c)), a)
      | None =>
          (Ok (), mkChannelAccumulator (acc_schemas a)
            (<[c_id c := mkChannel (c_id c) (c_topic c) s
                 (c_message_encoding c) (c_metadata c)]> (acc_channels a)))
      end in
    acc_ok a' ∧ acc_extends a a' ∧
    match o with
    | Ok _ => declared (DeclChannel c) a'
    | Err (UnknownSchema t i) => a' = a ∧ t = c_topic c ∧ i = c_schema_id c ∧ i ≠ 0%Z ∧ acc_schemas a !! i = None
    | Err (ConflictingChannels t) => t = c_topic c ∧ a' = a ∧ ¬ declared (DeclChannel c) a
    | _ => False
    end) as Hrest.
  { intros s Hs. destruct (acc_channels a !! c_id c) as [[i t os e m]|] eqn:Hl.
    - pose proof (ao_channel _ Ha _ _ Hl) as Hi. cbn in Hi. subst i. unfold channel_schema_id. cbn.
      destruct (_ && _) eqn:Hb; split_and!; try done.
      + rewrite !andb_true_iff, !bool_decide_eq_true, Z.eqb_eq in Hb. destruct Hb as [[[-> Hid] ->] ->].
        exists os. split; [done|]. destruct os as [s'|]; cbn in Hid; [|done].
        pose proof (ao_linked _ Ha _ _ s' Hl eq_refl) as Hk. by rewrite Hid in Hk.
      + intros (s' & Hd & Hs'). rewrite Hl in Hd. injection Hd as -> -> -> ->.
        rewrite !bool_decide_true in Hb by done. rewrite !andb_true_r in Hb.
        apply Z.eqb_neq in Hb. destruct s' as [s'|]; cbn in Hb; [by destruct Hs'|congruence].
    - destruct Ha as [As Ac Al]. split_and!.
      + split; cbn; [done| |].
        * intros i ch. destruct (decide (c_id c = i)) as [<-|].
          -- rewrite lookup_insert_eq. by intros [= <-].
          -- rewrite lookup_insert_ne by done. apply Ac.
        * intros i ch s'. destruct (decide (c_id c = i)) as [<-|].
          -- rewrite lookup_insert_eq. intros [= <-]. cbn. intros ->. by destruct (As _ _ Hs) as [-> _].
          -- rewrite lookup_insert_ne by done. apply Al.
      + split; cbn; [done|]. by apply insert_subseteq.
      + exists s. cbn. rewrite lookup_insert_eq. split; [done|].
        destruct s as [s|]; [|done]. split; [done|]. by apply (As (c_schema_id c)). }
  destruct (Z.eqb_spec (c_schema_id c) 0) as [Hz|Hz]; [by apply Hrest|].
  destruct (acc_schemas a !! c_schema_id c) as [s|] eqn:Hs; [by apply Hrest|].
  split_and!; done.
Qed.

(** ** Properties *)

(** A successful declaration of a schema or a channel puts what it says into the
    accumulator; a failing one changes nothing; and in either case everything
    declared before stays as it was, channels linked to the schemas they name. *)
Theorem declare_sound d0 d a : acc_ok a → declared d0 a →
  let '(o, a') := declare d a in
  acc_ok a' ∧ declared d0 a' ∧ (o = Ok () → declared d a') ∧ (o ≠ Ok () → a' = a).
Proof.
  intros Ha H0. destruct d as [h data|c]; cbn [declare].
  - pose proof (add_schema_spec h data a Ha) as Hs. destruct (add_schema h data a) as [o a'].
    destruct Hs as (Ha' & He & Hs). split_and!; [done|by eapply declared_extends| |].
    + by intros ->.
    + destruct o as [[]|[]| |]; try done; by intros; destruct_and?.
  - pose proof (add_channel_spec c a Ha) as Hs. destruct (add_channel c a) as [o a'].
    destruct Hs as (Ha' & He & Hs). split_and!; [done|by eapply declared_extends| |].
    + by intros ->.
    + destruct o as [[]|[]| |]; try done; by intros; destruct_and?.
Qed.

(** The accumulator accepts a declaration without changing exactly when it holds
    that declaration already: repeating one is harmless, and a different one for the
    same identifier is never accepted. *)
Theorem declare_again_iff d a : acc_ok a → declare d a = (Ok (), a) ↔ declared d a.
Proof.
  intros Ha. split.
  - destruct d as [h data|c]; cbn [declare]; intros E;
      [pose proof (add_schema_spec h data a Ha) as Hs|pose proof (add_channel_spec c a Ha) as Hs];
      rewrite E in Hs; by destruct Hs as (_ & _ & ?).
  - destruct d as [h data|c]; cbn [declare declared].
    + intros Hd. destruct (ao_schema _ Ha _ _ Hd) as [_ Hz]. unfold add_schema.
      rewrite (proj2 (Z.eqb_neq _ _)) by done. rewrite Hd. cbn. by rewrite !bool_decide_true.
    + intros (s & Hd & Hs). unfold add_channel. rewrite Hd. unfold channel_schema_id. cbn.
      destruct s as [s|]; cbn.
      * destruct Hs as [Hs Hi]. destruct (ao_schema _ Ha _ _ Hs) as [_ Hz].
        rewrite (proj2 (Z.eqb_neq _ 0)) by done. rewrite Hs, Hi, Z.eqb_refl. by rewrite !bool_decide_true.
      * rewrite Hs, Z.eqb_refl. by rewrite !bool_decide_true.
Qed.

Module ChannelsExamples.
Definition h1 : SchemaHeader := mkSchemaHeader 1 (lit "Pose") (lit "jsonschema").
Definition c1 : ChannelRecord := mkChannelRecord 0 1 (lit "/pose") (lit "json") [].
Definition a1 : ChannelAccumulator := (declare (DeclSchema h1 (lit "{}")) ChannelAccumulator_default).2.

Lemma declare_sound_witness :
  acc_ok a1 ∧ declared (DeclSchema h1 (lit "{}")) a1 ∧
  (declare (DeclChannel c1) a1).1 = Ok () ∧ declared (DeclChannel c1) (declare (DeclChannel c1) a1).2.
Proof.
  assert (acc_ok a1) as Ha.
  { apply (add_schema_spec h1 (lit "{}") ChannelAccumulator_default), acc_default_ok. }
  pose proof (declare_sound (DeclSchema h1 (lit "{}")) (DeclChannel c1) a1 Ha eq_refl) as Hs.
  split; [exact Ha|]. split; [reflexivity|]. split; [reflexivity|].
  apply Hs. reflexivity.
Defined.

Lemma declare_again_iff_witness :
  declare (DeclSchema h1 (lit "[]")) a1 = (Err (ConflictingSchemas (lit "Pose")), a1) ∧
  declare (DeclSchema h1 (lit "{}")) a1 = (Ok (), a1).
Proof.
  split; [vm_compute; reflexivity|].
  apply (declare_again_iff (DeclSchema h1 (lit "{}")) a1); [|reflexivity].
  apply (add_schema_spec h1 (lit "{}") ChannelAccumulator_default), acc_default_ok.
Defined.
End ChannelsExamples.
