(* ===== verification/Read.v ===== *)
(** Reading a mapped file (read.rs): the iterators over its records and messages.

    [linear] (the [LinearReader] of read.rs), [ChunkReader] and [ChunkFlattener] are
    one iterator, [InnerReader], over a byte slice and the sans-io reader, set up with
    different options.  [RawMessageStream] and [MessageStream] filter it. *)

From S2P Require Import Prelude Utf8 BTree Errors Bin Records Crc Codec RwBuf Decompressor LinearReader Channels.

(** [enum Options], as the members of an [EnumSet]. *)
Inductive Options := IgnoreEndMagic.
#[export] Instance Options_eq_dec : EqDecision Options.
Proof. solve_decision. Defined.

Section read.
Context `{Crc, ZstdLib, Lz4Lib}.

(** ** [InnerReader] *)

Record InnerReader := mkInnerReader {
  ir_buf : bytes;
  ir_reader : LinearReader;
}.

(** The arm for a [ReadRequest]: [insert(len).copy_from_slice(&buf[..len])],
    [notify_read(len)], [buf = &buf[len..]]. *)
Definition serve (need : Z) (buf : bytes) (r : LinearReader) : McapResult (bytes * LinearReader) :=
  let len := Z.min (zlen buf) need in
  r ← insert len r;
  _ ← rassert (zlen (rb_unwritten (file_data r)) =? len)%Z;
  src ← slice 0 len buf;
  r ← notify_read len (set_file_data (fill src (file_data r)) r);
  rest ← slice len (zlen buf) buf;
  mret (rest, r).

(** The loop of [next]: [Ok None] for the end, [Ok (Some r)] for a record. *)
Fixpoint inner_loop (fuel : nat) : method InnerReader McapError (option record) := λ i,
  match next_event (ir_reader i) with
  | (Ok None, r) => (Ok None, mkInnerReader (ir_buf i) r)
  | (Ok (Some (ReadRequest need)), r) =>
      match serve need (ir_buf i) r, fuel with
      | Ok (buf, r), S fuel => inner_loop fuel (mkInnerReader buf r)
      | Ok (buf, r), 0 => (Fuel, mkInnerReader buf r)
      | Err e, _ => (Err e, mkInnerReader (ir_buf i) r)
      | Panic, _ => (Panic, mkInnerReader (ir_buf i) r)
      | Fuel, _ => (Fuel, mkInnerReader (ir_buf i) r)
      end
  | (Ok (Some (EvRecord opcode data)), r) =>
      (Some <$> parse_record opcode data, mkInnerReader (ir_buf i) r)
  | (Err e, r) => (Err e, mkInnerReader (ir_buf i) r)
  | (Panic, r) => (Panic, mkInnerReader (ir_buf i) r)
  | (Fuel, r) => (Fuel, mkInnerReader (ir_buf i) r)
  end.

(** [InnerReader::next]: a request takes a byte off the buffer, or finds it empty,
    after which there is no other. *)
Definition InnerReader_next : method InnerReader McapError (option record) := λ i,
  inner_loop (2 + length (ir_buf i)) i.

End read.

(** ** The iterators over records *)

(** [read::LinearReader]. *)
Module linear.
Section linear.
Context `{Crc, ZstdLib, Lz4Lib}.

Definition new_with_options (buf : bytes) (options : list Options) : InnerReader :=
  mkInnerReader buf (LinearReader_new (with_emit_chunks true (with_validate_chunk_crcs true
    (with_skip_end_magic (bool_decide (IgnoreEndMagic ∈ options))
      (with_record_length_limit (zlen buf) LinearReaderOptions_default))))).
Definition new (buf : bytes) : InnerReader := new_with_options buf [].
Definition sans_magic (buf : bytes) : InnerReader :=
  mkInnerReader buf (LinearReader_new (with_skip_start_magic true (with_skip_end_magic true
    (with_record_length_limit (zlen buf) LinearReaderOptions_default)))).
End linear.
End linear.

Section read.
Context `{Crc, ZstdLib, Lz4Lib}.

Definition ChunkReader_new (header : ChunkHeader) (buf : bytes) : McapResult InnerReader :=
  reader ← for_chunk header;
  mret (mkInnerReader buf reader).

Definition ChunkFlattener_new_with_options (buf : bytes) (options : list Options) : InnerReader :=
  mkInnerReader buf (LinearReader_new (with_validate_chunk_crcs true
    (with_skip_end_magic (bool_decide (IgnoreEndMagic ∈ options)) LinearReaderOptions_default))).
Definition ChunkFlattener_new (buf : bytes) : InnerReader := ChunkFlattener_new_with_options buf [].

(** ** The iterators over messages *)

Record RawMessageStream := mkRawMessageStream {
  rms_records : InnerReader;
  rms_done : bool;
  rms_channeler : ChannelAccumulator;
}.

Definition RawMessageStream_new_with_options (buf : bytes) (options : list Options) : RawMessageStream :=
  mkRawMessageStream (ChunkFlattener_new_with_options buf options) false ChannelAccumulator_default.
Definition RawMessageStream_new (buf : bytes) : RawMessageStream :=
  RawMessageStream_new_with_options buf [].
Definition get_channel (channel_id : Z) (s : RawMessageStream) : option Channel :=
  acc_get channel_id (rms_channeler s).

Record RawMessage := mkRawMessage {
  raw_header : MessageHeader;
  raw_data : bytes;
}.

(** The loop of [next]; [fuel] bounds the records it skips. *)
Fixpoint raw_loop (fuel : nat) : method RawMessageStream McapError (option RawMessage) := λ s,
  match fuel with
  | 0 => (Fuel, s)
  | S fuel =>
      let '(o, records) := InnerReader_next (rms_records s) in
      let s := mkRawMessageStream records (rms_done s) (rms_channeler s) in
      let declared (r : outcome McapError () * ChannelAccumulator) :=
        let '(o, acc) := r in
        let s := mkRawMessageStream records (rms_done s) acc in
        match o with
        | Ok _ => raw_loop fuel s
        | Err e => (Err e, s)
        | Panic => (Panic, s)
        | Fuel => (Fuel, s)
        end in
      match o with
      | Ok (Some (RSchema header data)) => declared (add_schema header data (rms_channeler s))
      | Ok (Some (RChannel chan)) => declared (add_channel chan (rms_channeler s))
      | Ok (Some (RMessage header data)) => (Ok (Some (mkRawMessage header data)), s)
      | Ok (Some _) => raw_loop fuel s
      | Ok None => (Ok None, s)
      | Err e => (Err e, s)
      | Panic => (Panic, s)
      | Fuel => (Fuel, s)
      end
  end.

Definition RawMessageStream_next (fuel : nat) : method RawMessageStream McapError (option RawMessage) := λ s,
  if rms_done s then (Ok None, s) else
  let '(n, s) := raw_loop fuel s in
  match n with
  | Ok (Some _) => (n, s)
  | _ => (n, mkRawMessageStream (rms_records s) true (rms_channeler s))
  end.

(** [MessageStream::next] *)
Definition MessageStream_next (fuel : nat) : method RawMessageStream McapError (option Message) := λ s,
  let '(o, s) := RawMessageStream_next fuel s in
  (raw ← o;
   match raw with
   | Some (mkRawMessage header data) =>
       match acc_get (m_channel_id header) (rms_channeler s) with
       | Some channel =>
           Ok (Some (mkMessage channel (m_sequence header) (m_log_time header)
                       (m_publish_time header) data))
       | None => Err (UnknownChannel (m_sequence header) (m_channel_id header))
       end
   | None => Ok None
   end, s).

(** ** The footer *)

Definition FOOTER_LEN : Z := 8 + 8 + 4.
Definition FOOTER_RECORD_LEN : Z := 1 + 8 + FOOTER_LEN.

Definition starts_with (p l : bytes) : bool := bool_decide (ztake (zlen p) l = p).
Definition ends_with (p l : bytes) : bool :=
  (zlen p <=? zlen l)%Z && bool_decide (zdrop (zlen l - zlen p) l = p).

Definition footer (mcap : bytes) : McapResult Footer :=
  if (zlen mcap <? zlen MAGIC + FOOTER_RECORD_LEN + zlen MAGIC)%Z then mthrow UnexpectedEof else
  if negb (starts_with MAGIC mcap) || negb (ends_with MAGIC mcap) then mthrow BadMagic else
  start ← sub_ (zlen mcap) (zlen MAGIC);
  start ← sub_ start FOOTER_LEN;
  footer_buf ← slice start (zlen mcap) mcap;
  '(f, _) ← read_le Footer_codec (rcursor_new footer_buf);
  mret f.
End read.
