(* ===== verification/ReadTheory.v ===== *)
(** The iterators of read.rs as clients of the sans-io reader.

    [InnerReader_next] is one of the clients of LinearReaderClient.v, and it always
    comes to an end; so reading a mapped file gives what LinearReaderFile.v says. *)

From S2P Require Import Prelude Utf8 BTree Errors Bin Records Crc Codec RwBuf Decompressor LinearReader LinearReaderTheory LinearReaderClient LinearReaderFile Channels Read.

(** ** The buffer never grows by reading from it *)

Section keeps.
Context `{Crc, ZstdLib, Lz4Lib}.

(** [m] leaves the end of the input buffer where it is. *)
Definition keeps {R A} (m : flow LinearReader R A) : Prop :=
  ∀ s, rb_end (file_data (m s).2) = rb_end (file_data s).

Lemma keeps_bind {R A B} (m : flow LinearReader R A) (f : A → flow LinearReader R B) :
  keeps m → (∀ a, keeps (f a)) → keeps (m ≫= f).
Proof.
  intros Hm Hf s. specialize (Hm s). unfold mbind, flow_bind.
  destruct (m s) as [[[a|r]|e| |] s']; cbn in *; try done. by rewrite Hf.
Qed.
Lemma keeps_ret {R A} (a : A) : keeps (mret a : flow LinearReader R A). Proof. done. Qed.
Lemma keeps_fget {R A} (f : LinearReader → A) : keeps (fget (R:=R) f). Proof. done. Qed.
Lemma keeps_freturn {R A} (r : R) : keeps (freturn r : flow LinearReader R A). Proof. done. Qed.
Lemma keeps_fthrow {R A} e : keeps (fthrow e : flow LinearReader R A). Proof. done. Qed.
Lemma keeps_check {R A} (o : McapResult A) : keeps (check (R:=R) o). Proof. done. Qed.
Lemma keeps_fset {R} (f : LinearReader → LinearReader) :
  (∀ s, rb_end (file_data (f s)) = rb_end (file_data s)) → keeps (fset (R:=R) f).
Proof. done. Qed.

Lemma mark_read_end n b b' : mark_read n b = Ok b' → rb_end b' = rb_end b.
Proof.
  unfold mark_read, rassert. destruct (_ <=? _)%Z; [|done]. cbn.
  destruct (rb_hasher b) as [h|]; [|by intros [= <-]].
  destruct (slice _ _ _); cbn; [|done..]. by intros [= <-].
Qed.
Lemma consume_end n b d b' : consume n b = Ok (d, b') → rb_end b' = rb_end b.
Proof.
  unfold consume. rewrite bind_Ok. intros (b1 & E%mark_read_end & Hs).
  apply bind_Ok in Hs as (? & _ & [= _ <-]). done.
Qed.
Lemma consume_without_hashing_end n b d b' : consume_without_hashing n b = Ok (d, b') → rb_end b' = rb_end b.
Proof.
  unfold consume_without_hashing, rassert. destruct (_ <=? _)%Z; [|done]. cbn. rewrite bind_Ok.
  by intros (? & _ & [= _ <-]).
Qed.

Lemma keeps_load n : keeps (load n).
Proof. intros s. unfold load, mbind, flow_bind, fget, read_request, freturn. by destruct (_ <? _)%Z. Qed.
Lemma keeps_consume n : keeps (consume_file n).
Proof.
  intros s. unfold consume_file, mbind, flow_bind, fget, read_request, freturn, check.
  destruct (_ <? _)%Z; [done|]. destruct (consume n (file_data s)) as [[d b]|e| |] eqn:E; try done.
  cbn. by apply consume_end in E.
Qed.
Lemma keeps_consume_without_hashing n : keeps (consume_file_without_hashing n).
Proof.
  intros s. unfold consume_file_without_hashing, mbind, flow_bind, fget, check.
  destruct (consume_without_hashing n (file_data s)) as [[d b]|e| |] eqn:E; try done.
  cbn. by apply consume_without_hashing_end in E.
Qed.
Lemma keeps_mark_read n : keeps (mark_file_read n).
Proof.
  intros s. unfold mark_file_read, mbind, flow_bind, fget, check.
  destruct (mark_read n (file_data s)) as [b|e| |] eqn:E; try done. cbn. by apply mark_read_end in E.
Qed.

Lemma decompress_step_end {D} `{Decompressor D} (s : dstate D) :
  rb_end (ds_src (decompress_step s).2) = rb_end (ds_src s).
Proof.
  unfold decompress_step. repeat case_match; try done; cbn in *; simplify_eq; try done.
  by eapply mark_read_end.
Qed.
Lemma decompress_loop_end {D} `{Decompressor D} fuel (s : dstate D) :
  rb_end (ds_src (decompress_loop fuel s).2) = rb_end (ds_src s).
Proof.
  revert s. induction fuel as [|fuel IH]; intros s; cbn [decompress_loop];
    pose proof (decompress_step_end s) as Hs; destruct (decompress_step s) as [[[[n|]|]|e| |] s']; cbn in *; try done.
  by rewrite IH.
Qed.
Lemma keeps_decompress n c d : keeps (decompress n c d).
Proof.
  intros s. unfold decompress. set (ds := mkDstate _ _ _ _ _).
  assert (rb_end (ds_src (decompress_inner n ds).2) = rb_end (file_data s)) as Hd.
  { unfold decompress_inner. destruct (_ =? _)%Z; [done|].
    destruct (reserve_exact _ _); try done. by rewrite decompress_loop_end. }
  destruct (decompress_inner n ds) as [[[?|]|?| |] ds']; cbn in *; done.
Qed.

Hint Resolve keeps_ret keeps_fget keeps_freturn keeps_fthrow keeps_check keeps_load keeps_consume
  keeps_consume_without_hashing keeps_mark_read keeps_decompress : keeps.

Ltac keeps := repeat first
  [ progress eauto with keeps
  | apply keeps_bind; [|intros ?]
  | apply keeps_fset; intros ?; first [done|by repeat case_match]
  | case_match ].

Lemma keeps_step : keeps step.
Proof.
  intros s. unfold step.
  destruct (currently_reading s); match goal with |- rb_end (file_data (?m s).2) = _ => cut (keeps m); [auto|] end;
    unfold step_start_magic, step_file_record, step_data_end, step_footer, step_chunk_header,
      step_validating_chunk_crc, step_chunk_record, step_plain_chunk_record, step_compressed_chunk_record,
      step_padding_after_chunk, step_end_magic, step_after_end_magic, check_data_crc, check_summary_crc,
      check_chunk_crc, get_chunk_state, read_request; keeps.
Qed.

Lemma event_loop_end fuel s : rb_end (file_data (event_loop fuel s).2) = rb_end (file_data s).
Proof.
  revert s. induction fuel as [|fuel IH]; intros s; cbn [event_loop];
    pose proof (keeps_step s) as Hs; destruct (step s) as [[[[]|r]|e| |] s']; cbn in *; try done.
  by rewrite IH.
Qed.
Lemma next_event_end s : rb_end (file_data (next_event s).2) = rb_end (file_data s).
Proof.
  unfold next_event. destruct (at_eof s); [by destruct (eof_ok s)|]. apply event_loop_end.
Qed.
End keeps.

(** ** [InnerReader_next] *)

Section inner.
Context `{Crc, ZstdLib, Lz4Lib, !ZstdLibOk, !Lz4LibOk}.

(** The reader is well-formed, and what it holds and will be given fits a [usize]. *)
Record inner_ok (i : InnerReader) : Prop := {
  io_inv : lr_inv (ir_reader i);
  io_size : (rb_end (file_data (ir_reader i)) + zlen (ir_buf i) ≤ usize_max)%Z;
}.

Lemma tail_with_size_end n b b' : tail_with_size n b = Ok b' → (rb_start b ≤ rb_end b)%Z → (0 ≤ rb_start b)%Z →
  (rb_end b' ≤ rb_end b)%Z.
Proof.
  unfold tail_with_size. destruct (_ && _)%Z; cbn; unfold add_; destruct (_ <=? _)%Z; try done;
    intros [= <-]; cbn; lia.
Qed.

Lemma tail_with_size_ok n b : rb_wf b → (0 ≤ n)%Z → (rb_end b + n ≤ usize_max)%Z →
  ∃ b', tail_with_size n b = Ok b'.
Proof.
  intros [Hs He] Hn Hm. unfold tail_with_size.
  destruct (_ && _)%Z; cbn; rewrite add_Ok by lia; by eexists.
Qed.

(** A client that gives some of the bytes it made room for. *)
Lemma feed_ok m d r : lr_inv r → (zlen d ≤ m)%Z → (rb_end (file_data r) + m ≤ usize_max)%Z →
  ∃ b r', insert m r = Ok (set_file_data b r) ∧ zlen (rb_unwritten b) = m ∧
    notify_read (zlen d) (set_file_data (fill d b) (set_file_data b r)) = Ok r' ∧ feed m d r = Ok r' ∧ lr_inv r' ∧
    at_eof r' = at_eof r || bool_decide (d = []) ∧ options r' = options r ∧ (rb_end (file_data r') ≤ rb_end (file_data r) + zlen d)%Z.
Proof.
  intros Hi Hm Hsize. pose proof (zlen_nonneg d). pose proof (li_file _ Hi) as [Hs0 He0].
  destruct (tail_with_size_ok m _ (li_file _ Hi) ltac:(lia) Hsize) as [b1 E1].
  pose proof (tail_with_size_inv m _ _ (li_file _ Hi) ltac:(lia) E1) as (W1 & U1 & L1 & H1').
  pose proof (tail_with_size_end _ _ _ E1 ltac:(lia) ltac:(lia)) as Hend1.
  destruct (fill_written_spec d b1 W1 ltac:(lia)) as (b2 & E2 & W2 & U2 & H2' & _).
  assert (rb_end b2 = rb_end b1 + zlen d)%Z as Hend2 by (revert E2; unfold mark_written, rassert; destruct (_ <=? _)%Z; [by intros [= <-]|done]).
  assert (∃ r', feed m d r = Ok r' ∧ file_data r' = b2) as (r' & Ef & Hb2).
  { unfold feed, insert, notify_read. rewrite E1. cbn. unfold rassert.
    assert (zlen d <=? zlen (rb_unwritten (fill d b1)) = true)%Z as Hle by (revert E2; unfold mark_written, rassert; by destruct (_ <=? _)%Z).
    destruct (zlen d =? 0)%Z; cbn; rewrite Hle; cbn; rewrite E2; by eexists. }
  destruct (feed_spec m d r r' Hi Hm Ef) as (b & Hr' & Wb & Ub & Hb). exists b1, r'. split_and!; try done.
  - unfold insert. by rewrite E1.
  - revert Ef. unfold feed, insert. by rewrite E1.
  - rewrite Hr'. by destruct Hi.
  - by rewrite Hr'.
  - by rewrite Hr'.
  - rewrite Hb2. lia.
Qed.

Lemma serve_spec need buf r : lr_inv r → (0 < need)%Z → (rb_end (file_data r) + zlen buf ≤ usize_max)%Z →
  ∃ d rest r', buf = d ++ rest ∧ (d = [] → rest = []) ∧ serve need buf r = Ok (rest, r') ∧
    feed (zlen d) d r = Ok r' ∧ lr_inv r' ∧ at_eof r' = at_eof r || bool_decide (d = []) ∧
    options r' = options r ∧ (rb_end (file_data r') + zlen rest ≤ usize_max)%Z.
Proof.
  intros Hi Hneed Hsize. set (len := Z.min (zlen buf) need). pose proof (zlen_nonneg buf) as Hnn.
  set (d := ztake len buf). assert (zlen d = len) as Hd by (subst d len; zlia).
  destruct (feed_ok len d r Hi ltac:(lia) ltac:(lia)) as (b & r' & Ei & Hl & En & Ef & Hi' & He' & Ho' & Hend).
  exists d, (zdrop len buf), r'. split_and!; try done.
  - subst d. by rewrite ztake_zdrop.
  - intros Hnil. rewrite Hnil in Hd. change (zlen (@nil byte)) with 0%Z in Hd. apply zlen_zero_nil. zlia.
  - unfold serve. fold len. rewrite Ei. cbn -[fill set_file_data]. change (file_data (set_file_data b r)) with b. unfold rassert. rewrite Hl, Z.eqb_refl. cbn -[fill set_file_data].
    assert (slice (E:=McapError) 0 len buf = Ok d) as -> by (rewrite slice_Ok by lia; by rewrite Z.sub_0_r, zdrop_0).
    cbn -[fill set_file_data]. change (file_data (set_file_data b r)) with b. rewrite <-Hd at 1. rewrite En. cbn. by rewrite slice_tail by lia.
  - by rewrite Hd.
  - rewrite Hd in Hend. zlia.
Qed.

(** A record is parsed as it comes out. *)
Definition parsed (o : McapResult (option (Z * bytes))) : McapResult (option record) :=
  r ← o;
  match r with
  | Some (opcode, body) => Some <$> parse_record opcode body
  | None => mret None
  end.

Lemma inner_loop_spec fuel i : inner_ok i →
  (at_eof (ir_reader i) = true ∨ length (ir_buf i) < fuel) →
  let '(o, i') := inner_loop fuel i in
  (∃ o', client_next (ir_reader i) (ir_buf i) o' (ir_reader i') (ir_buf i') ∧ o = parsed o' ∧
     (o' ≠ Panic → inner_ok i' ∧ options (ir_reader i') = options (ir_reader i))) ∨
  (o = Fuel ∧ emit_chunks (options (ir_reader i)) = false).
Proof.
  revert i. induction fuel as [|fuel IH]; intros i Hok Hf;
    pose proof (next_event_ok _ (io_inv _ Hok)) as Hn; pose proof (next_event_end (ir_reader i)) as Hend;
    pose proof (io_size _ Hok) as Hsz;
    cbn [inner_loop]; destruct (next_event (ir_reader i)) as [[[[need|op b]|]|e| |] r] eqn:E; cbn in Hn, Hend.
  all: try (left; eexists; split; [by eapply client_event|]; split; [done|]; intros _; destruct Hn as (? & ? & _);
            split; [by split; cbn; rewrite ?Hend|done]).
  all: try (left; eexists; split; [by eapply client_fails|]; split; [done|]; intros _; destruct Hn as (? & ? & _);
            split; [by split; cbn; rewrite ?Hend|done]).
  all: try (left; eexists; split; [by eapply client_panics|]; split; [done|]; done).
  all: try (right; split; [done|]; pose proof (next_event_emit _ (io_inv _ Hok)) as Hem; rewrite E in Hem;
            destruct (emit_chunks _); [by destruct (Hem eq_refl)|done]).
  - destruct Hf as [Heof|]; [|lia]. rewrite next_event_eof in E by done. by destruct (eof_ok _).
  - destruct Hf as [Heof|Hf]; [rewrite next_event_eof in E by done; by destruct (eof_ok _)|].
    destruct Hn as (Hi & Ho & He & Hneed).
    destruct (serve_spec need (ir_buf i) r Hi (Hneed _ eq_refl) ltac:(by rewrite Hend))
      as (d & rest & r' & Hbuf & Hnil & Es & Ef & Hi' & He' & Ho' & Hsz'). rewrite Es.
    specialize (IH (mkInnerReader rest r')). cbn [ir_reader ir_buf] in IH.
    assert (at_eof r' = true ∨ length rest < fuel) as Hf'.
    { destruct d as [|x d]; [left; by rewrite He', bool_decide_true, orb_true_r|right].
      rewrite Hbuf in Hf. cbn in Hf. rewrite length_app in Hf. lia. }
    specialize (IH ltac:(by split) Hf').
    destruct (inner_loop fuel (mkInnerReader rest r')) as [o i'].
    destruct IH as [(o' & Hc & -> & Hok')|[-> Hem]]; [left|right; split; [done|congruence]].
    exists o'. split; [|split; [done|]].
    + rewrite Hbuf. eapply client_feeds; [exact E|done|done|exact Ef|exact Hc].
    + intros Hp. destruct (Hok' Hp) as [? ?]. split; [done|congruence].
Qed.

Lemma InnerReader_next_spec i : inner_ok i →
  let '(o, i') := InnerReader_next i in
  (∃ o', client_next (ir_reader i) (ir_buf i) o' (ir_reader i') (ir_buf i') ∧ o = parsed o' ∧
     (o' ≠ Panic → inner_ok i' ∧ options (ir_reader i') = options (ir_reader i))) ∨
  (o = Fuel ∧ emit_chunks (options (ir_reader i)) = false).
Proof. intros Hok. apply inner_loop_spec; [done|]. right. lia. Qed.

(** ** A whole file *)

(** What a loop over the iterator sees, until it ends or fails. *)
Fixpoint collect (fuel : nat) (i : InnerReader) : list record * McapResult () :=
  match fuel with
  | 0 => ([], Fuel)
  | S fuel =>
      match InnerReader_next i with
      | (Ok None, _) => ([], Ok ())
      | (Ok (Some r), i) => let '(rs, o) := collect fuel i in (r :: rs, o)
      | (Err e, _) => ([], Err e)
      | (Panic, _) => ([], Panic)
      | (Fuel, _) => ([], Fuel)
      end
  end.

Definition parses (e : Z * bytes) (r : record) : Prop := parse_record e.1 e.2 = Ok r.

Lemma collect_reads t es out recs fuel i : reads_all t es out → Forall2 parses es recs →
  inner_ok i → emit_chunks (options (ir_reader i)) = true → at_eof (ir_reader i) = false →
  sim (ir_buf i) (ir_reader i) t → length es < fuel → collect fuel i = (recs, out).
Proof.
  intros Hr. revert recs fuel i.
  induction Hr as [t t' E|t e t' E|t t' E|t [op b] t' es o E _ IH]; intros recs [|fuel] i Hp Hok Hem He Hs Hf;
    cbn in Hf; try lia; cbn [collect]; pose proof (InnerReader_next_spec i Hok) as Hn;
    destruct (InnerReader_next i) as [o1 i1]; destruct Hn as [(o' & Hc & -> & Hok')|[_ Hne]]; try congruence;
    pose proof (sim_lr_inv _ _ _ Hs (io_inv _ Hok)) as Hit;
    assert (emit_chunks (options t) = true) as Hemt by (by rewrite (sm_options _ _ _ Hs));
    destruct (client_next_read_all _ _ _ _ _ Hc t (io_inv _ Hok) He Hs (emit_plain_run _ Hit Hemt)) as (t1 & Et & Hs1);
    rewrite E in Et; simplify_eq; inversion Hp as [|? r ? recs' Hp1 Hp2]; subst; try done.
  destruct (Hok' ltac:(done)) as [Hok1 Ho1]. cbn. unfold parses in Hp1. cbn in Hp1. rewrite Hp1. cbn.
  assert (at_eof t = false) as Het by by rewrite (sm_eof _ _ _ Hs).
  destruct (read_all_record t _ t1 Hit Het E) as (_ & _ & Het1).
  rewrite (IH recs' fuel i1); first [done|by rewrite Ho1|by rewrite <-(sm_eof _ _ _ Hs1)|lia].
Qed.

(** A file, by its records. *)
Definition event_of (r : record) : Z * bytes := (record_opcode r, record_body r).
Definition file_of (data : list record) (de : DataEnd) (summary : list record) (ft : Footer) : mcap_file :=
  mkFile (event_of <$> data) de (event_of <$> summary) ft.
Definition file_record (r : record) : bool :=
  record_wf r && match r with RDataEnd _ | RFooter _ => false | _ => true end.

Lemma record_opcode_u8 r : record_wf r = true → c_wf u8 (record_opcode r) = true.
Proof. intros Hw. destruct r; try done. split_wf. done. Qed.

Lemma zlen_frames_in rs e : e ∈ rs → (OPCODE_LEN_SIZE + zlen e.2 ≤ zlen (frames rs))%Z.
Proof.
  intros Hin. unfold OPCODE_LEN_SIZE. induction Hin as [[op b] rs|[op b] [op' b'] rs Hin IH]; rewrite frames_cons; unfold frame; cbn in *; zlia.
Qed.

Lemma file_record_ordinary o r : file_record r = true → body_fits o (record_body r) = true →
  ordinary o (event_of r) = true.
Proof.
  unfold file_record, ordinary. rewrite andb_true_iff. intros [Hw Hn] Hb. cbn [fst snd event_of].
  rewrite (record_opcode_u8 r Hw), Hb. destruct r; try done. split_wf.
  match goal with Ho : _ || _ = true |- _ => apply orb_true_iff in Ho end.
  cbn [record_opcode]. unfold op.DATA_END, op.FOOTER.
  rewrite !(proj2 (Z.eqb_neq _ _)); [done|..]; rewrite ?Z.eqb_eq, ?Z.ltb_lt in *; lia.
Qed.

Lemma body_fits_limit o n b : record_length_limit o = Some n → (OPCODE_LEN_SIZE + zlen b ≤ n ≤ usize_max)%Z →
  body_fits o b = true.
Proof.
  intros Ho Hb. unfold body_fits, check_len. rewrite Ho. unfold OPCODE_LEN_SIZE in *.
  rewrite (proj2 (Z.leb_le _ _)) by lia. cbn. rewrite (proj2 (Z.leb_le _ _)) by lia.
  rewrite (proj2 (Z.ltb_ge _ _)) by lia. by apply bool_decide_true.
Qed.

Lemma file_of_ok o data de summary ft :
  let f := file_of data de summary ft in
  record_length_limit o = Some (zlen (file_bytes f)) → (zlen (file_bytes f) ≤ usize_max)%Z →
  forallb file_record data = true → forallb file_record summary = true →
  record_wf (RDataEnd de) = true → record_wf (RFooter ft) = true → file_ok o f = true.
Proof.
  intros f Ho Hm Hd Hs Hwd Hwf.
  assert (∀ rs e, zlen (frames rs) ≤ zlen (file_bytes f) → e ∈ rs → body_fits o e.2 = true)%Z as Hfit.
  { intros rs e Hl Hin%zlen_frames_in. eapply body_fits_limit; [exact Ho|lia]. }
  assert (∀ l, forallb file_record l = true → (∀ e, e ∈ event_of <$> l → body_fits o e.2 = true) →
    forallb (ordinary o) (event_of <$> l) = true) as Hall.
  { intros l. induction l as [|r l IH]; [done|]. cbn [forallb fmap list_fmap]. rewrite !andb_true_iff.
    intros [Hr Hl] Hin. split.
    - apply file_record_ordinary; [done|]. apply (Hin (event_of r)). left.
    - apply IH; [done|]. intros e He. apply Hin. by right. }
  assert (zlen (file_bytes f) = zlen (data_section f) + (zlen (frames [data_end_rec f]) +
    (zlen (frames (file_summary f)) + (zlen (frames [footer_rec f]) + zlen MAGIC))))%Z as Hz.
  { unfold file_bytes. by rewrite !zlen_app. }
  unfold data_section in Hz. rewrite zlen_app in Hz.
  pose proof (zlen_nonneg (frames (file_records f))). pose proof (zlen_nonneg (frames [data_end_rec f])).
  pose proof (zlen_nonneg (frames (file_summary f))). pose proof (zlen_nonneg (frames [footer_rec f])).
  pose proof zlen_MAGIC. unfold file_ok. split_wf. rewrite !andb_true_iff. split_and!; try done.
  - apply Hall; [done|]. intros e He. by apply (Hfit (file_records f)); [lia|].
  - apply Hall; [done|]. intros e He. by apply (Hfit (file_summary f)); [lia|].
  - apply (Hfit [data_end_rec f] (data_end_rec f)); [lia|left].
  - apply (Hfit [footer_rec f] (footer_rec f)); [lia|left].
Qed.

Lemma file_events_parse data de summary ft :
  forallb file_record data = true → forallb file_record summary = true →
  record_wf (RDataEnd de) = true → record_wf (RFooter ft) = true →
  let f := file_of data de summary ft in
  Forall2 parses (file_records f ++ data_end_rec f :: file_summary f ++ [footer_rec f])
    (data ++ RDataEnd de :: summary ++ [RFooter ft]).
Proof.
  intros Hd Hs Hwd Hwf f.
  assert (∀ l, forallb file_record l = true → Forall2 parses (event_of <$> l) l) as Hall.
  { intros l. induction l as [|r l IH]; [done|]. cbn [forallb fmap list_fmap]. rewrite andb_true_iff.
    intros [Hr Hl]. constructor; [|by apply IH]. unfold file_record in Hr.
    apply andb_true_iff in Hr as [Hr _]. by apply parse_record_body. }
  apply Forall2_app; [by apply Hall|]. constructor; [by apply (parse_record_body (RDataEnd de))|].
  apply Forall2_app; [by apply Hall|]. constructor; [by apply (parse_record_body (RFooter ft))|done].
Qed.

Lemma linear_new_ok buf opts : (zlen buf ≤ usize_max)%Z → inner_ok (linear.new_with_options buf opts).
Proof. intros Hl. split; [apply LinearReader_new_inv|cbn; lia]. Qed.

(** A limit below the end of the address space keeps lengths from overflowing. *)
Lemma client_next_no_panic s c o s' c' l : client_next s c o s' c' →
  lr_inv s → emit_chunks (options s) = true → record_length_limit (options s) = Some l →
  (l + OPCODE_LEN_SIZE ≤ usize_max)%Z → o ≠ Panic ∧ o ≠ Fuel.
Proof.
  intros Hc Hi Hem Hl Hm.
  induction Hc as [s c r s' Hn Hr|s c e s' Hn|s c s' Hn|s n s1 m d c s2 o s' c' Hn Hd Hm' Hf Hc IH]; try (by split).
  - pose proof (next_event_emit s Hi Hem) as Hp. rewrite Hn in Hp. destruct Hp as (s1 & Hp & Hov & Hsome).
    destruct (rtc_pass_inv s s1 Hp Hi) as (_ & Ho & _). rewrite Ho, Hl in Hsome.
    destruct Hsome as [k (-> & _ & Hk)%check_len_Ok]. lia.
  - pose proof (next_event_ok s Hi) as Hok. rewrite Hn in Hok. cbn in Hok. destruct Hok as (Hi1 & Ho1 & _).
    destruct (feed_spec m d s1 s2 Hi1 Hm' Hf) as (b & -> & Wb & _). apply IH; cbn; [by destruct Hi1|congruence..].
Qed.
End inner.

Section properties.
Context `{Crc, !CrcLaws, ZstdLib, Lz4Lib, !ZstdLibOk, !Lz4LibOk}.

(** A mapped file made of well-formed records reads back as exactly those records:
    the iterator of [read::LinearReader] gives the data records, the end of the data
    section, the summary records and the footer, in order, and then ends. *)
Theorem read_mapped_file data de summary ft fuel :
  let buf := file_bytes (file_of data de summary ft) in
  forallb file_record data = true → forallb file_record summary = true →
  record_wf (RDataEnd de) = true → record_wf (RFooter ft) = true →
  (zlen buf ≤ usize_max)%Z → length data + length summary + 2 < fuel →
  collect fuel (linear.new buf) = (data ++ RDataEnd de :: summary ++ [RFooter ft], Ok ()).
Proof.
  intros buf Hd Hs Hwd Hwf Hm Hf. set (f := file_of data de summary ft) in *.
  set (i := linear.new buf). set (o := options (ir_reader i)).
  assert (file_ok o f = true) as Hok by by apply file_of_ok.
  pose proof (file_reads o f eq_refl eq_refl eq_refl Hok) as Hr.
  eapply collect_reads; [exact Hr|by apply file_events_parse|by apply linear_new_ok|done|done| |].
  - apply all_input_sim. apply (li_file _ (LinearReader_new_inv o)).
  - unfold expected, bad_crc. cbn [validate_data_section_crc validate_summary_section_crc o i]. cbn.
    rewrite !length_app. cbn. rewrite !length_app, !length_fmap. cbn. lia.
Qed.

(** C28: the iterator is safe on any bytes at all: with a record length limit below the
    end of the address space, [InnerReader::next] of a reader of whole chunks always
    returns, and it panics only when the next record is a cut attachment. *)
Theorem inner_next_safe i l :
  inner_ok i → at_eof (ir_reader i) = false →
  emit_chunks (options (ir_reader i)) = true → record_length_limit (options (ir_reader i)) = Some l →
  (l + OPCODE_LEN_SIZE ≤ usize_max)%Z →
  (InnerReader_next i).1 ≠ Fuel ∧
  ((InnerReader_next i).1 = Panic → ∃ body r' buf', attachment_cut body = true ∧
     client_next (ir_reader i) (ir_buf i) (Ok (Some (op.ATTACHMENT, body))) r' buf').
Proof.
  intros Hok He Hem Hl Hm. pose proof (InnerReader_next_spec i Hok) as Hn.
  destruct (InnerReader_next i) as [o i']. cbn [fst].
  destruct Hn as [(o' & Hc & -> & _)|[_ ?]]; [|congruence].
  destruct o' as [[[op b]|]|e| |]; cbn.
  - pose proof (parse_record_not_fuel op b) as Hf. pose proof (parse_record_panic op b) as Hp.
    split; [by destruct (parse_record op b)|]. intros HP.
    destruct Hp as [-> Hcut]; [by destruct (parse_record op b)|]. by eexists _, _, _.
  - done.
  - done.
  - by destruct (client_next_no_panic _ _ _ _ _ _ Hc (io_inv _ Hok) Hem Hl Hm).
  - by destruct (client_next_no_panic _ _ _ _ _ _ Hc (io_inv _ Hok) Hem Hl Hm).
Qed.
End properties.

(** ** Examples *)

Module ReadExamples.
Import BitCrc CopyLib.

Definition data : list record :=
  [RHeader (mkHeader [] (lit "lib")); RSchema (mkSchemaHeader 1 (lit "S") (lit "json")) (lit "{}");
   RChannel (mkChannelRecord 0 1 (lit "/t") (lit "json") []);
   RMessage (mkMessageHeader 0 7 10 11) (lit "hello")].
Definition buf : bytes := file_bytes (file_of data (mkDataEnd 0) [] (mkFooter 0 0 0)).

Lemma read_mapped_file_witness :
  collect 10 (linear.new buf) = (data ++ [RDataEnd (mkDataEnd 0); RFooter (mkFooter 0 0 0)], Ok ()).
Proof.
  apply (read_mapped_file data (mkDataEnd 0) [] (mkFooter 0 0 0) 10);
    [vm_compute; reflexivity..|vm_compute; discriminate|cbn; lia].
Defined.

(** An attachment cut before its checksum. *)
Definition cut_body : bytes :=
  c_enc AttachmentHeader_codec (mkAttachmentHeader 3 4 (lit "log") (lit "text/plain")) ++ le_enc 8 0.
Definition cut_reader : InnerReader :=
  mkInnerReader (frame op.ATTACHMENT cut_body)
    (LinearReader_new (with_emit_chunks true (with_skip_start_magic true (with_record_length_limit 1000
      LinearReaderOptions_default)))).

Lemma inner_next_safe_witness :
  (InnerReader_next cut_reader).1 = Panic ∧
  ∃ body r' buf', attachment_cut body = true ∧
    client_next (ir_reader cut_reader) (ir_buf cut_reader) (Ok (Some (op.ATTACHMENT, body))) r' buf'.
Proof.
  assert ((InnerReader_next cut_reader).1 = Panic) as Hp by (vm_compute; reflexivity).
  split; [exact Hp|].
  apply (inner_next_safe cut_reader 1000);
    [split; [apply LinearReader_new_inv|vm_compute; discriminate]|reflexivity..|vm_compute; discriminate|exact Hp].
Defined.
End ReadExamples.
