(* ===== verification/Conversation.v ===== *)
(** What a reader owes its client, whoever the client is.

    [will Q s c] says of a reader in the state [s] and a client with the bytes [c] left
    that, however the client serves the requests, the next thing that is not a request
    comes, and is one that [Q] describes.  When it is [strict], no request is for more
    than the client has.  [delivers rs out s c] says so of the whole
    conversation.  Both are total: no client is left waiting.  They are proved a pass
    of the reader at a time, and used for the loops that are clients. *)

From S2P Require Import Prelude Utf8 BTree Errors Bin Records Crc Codec RwBuf Decompressor LinearReader LinearReaderTheory LinearReaderClient LinearReaderFile Channels Read ReadTheory.

Class Strict := strict : bool.
#[export] Instance lenient : Strict | 100 := false.

Section will.
Context `{Crc, ZstdLib, Lz4Lib, !Strict}.

Inductive will (Q : McapResult (option (Z * bytes)) → LinearReader → bytes → Prop) : LinearReader → bytes → Prop :=
| will_event s c r s' :
    next_event s = (Ok r, s') → is_request r = false → Q (Ok (record_event r)) s' c → will Q s c
| will_fail s c e s' : next_event s = (Err e, s') → Q (Err e) s' c → will Q s c
| will_panic s c s' : next_event s = (Panic, s') → Q Panic s' c → will Q s c
| will_feed s c n s1 :
    next_event s = (Ok (Some (ReadRequest n)), s1) → (strict = true → (n ≤ zlen c)%Z) →
    (∀ m d c' s2, c = d ++ c' → (d = [] → c = []) → (zlen d ≤ m)%Z → feed m d s1 = Ok s2 → will Q s2 c') → will Q s c.

(** The records [rs] come, and then [out]. *)
Fixpoint delivers (rs : list (Z * bytes)) (out : McapResult ()) (s : LinearReader) (c : bytes) : Prop :=
  match rs with
  | [] => will (λ o _ _, o = (λ _, None) <$> out) s c
  | r :: rs => will (λ o s' c', o = Ok (Some r) ∧ delivers rs out s' c') s c
  end.

Lemma will_mono (Q1 Q2 : _ → _ → _ → Prop) s c : (∀ o s' c', Q1 o s' c' → Q2 o s' c') → will Q1 s c → will Q2 s c.
Proof.
  intros HQ. induction 1; [eapply will_event|eapply will_fail|eapply will_panic|eapply will_feed]; eauto.
Qed.

(** Any client gets what is owed. *)
Lemma will_client_next Q s c o s' c' : will Q s c → client_next s c o s' c' → Q o s' c'.
Proof.
  intros Hw. revert o s' c'. induction Hw as [s c r s1 E Hr HQ|s c e s1 E HQ|s c s1 E HQ|s c n s1 E _ _ IH];
    intros o s' c' Hc; inversion Hc as [? ? ? ? E2 Hr2|? ? ? ? E2|? ? ? E2|? ? ? m d c2 s2 ? ? ? E2 Hd Hm Hf Hn]; subst;
    rewrite E in E2; simplify_eq; try done.
  eapply IH; [done| |done|done|done]. intros ->. by rewrite Hd.
Qed.
Lemma delivers_client_run rs out s c rs' out' : delivers rs out s c → client_run s c rs' out' → rs' = rs ∧ out' = out.
Proof.
  intros Hd Hr. revert rs Hd. induction Hr as [s c s' c' Hn|s c e s' c' Hn|s c s' c' Hn|s c r s1 c1 rs1 o Hn _ IH];
    intros [|r0 rs] Hd; cbn [delivers] in Hd; pose proof (will_client_next _ _ _ _ _ _ Hd Hn) as HQ; cbn in HQ;
    try (by destruct HQ as [? _]); try (destruct out as [[]|?| |]; cbn in HQ; by simplify_eq).
  destruct HQ as [[= <-] HQ]. by destruct (IH _ HQ) as [-> ->].
Qed.
End will.

(** ** A pass at a time *)

Section passes.
Context `{Crc, ZstdLib, Lz4Lib, !ZstdLibOk, !Lz4LibOk, !Strict}.

Lemma will_pass Q s s' c : lr_inv s → at_eof s = false → pass s s' → will Q s' c → will Q s c.
Proof.
  intros Hi He Hp Hw. destruct (pass_inv s s' Hi Hp) as (Hi' & _ & _ & He').
  assert (next_event s = next_event s') as E by by rewrite !next_event_run, (run_pass s s') by (done || congruence).
  inversion Hw; subst; [eapply will_event|eapply will_fail|eapply will_panic|eapply will_feed]; by rewrite ?E.
Qed.

Lemma feed_inv m d s s' : lr_inv s → (zlen d ≤ m)%Z → feed m d s = Ok s' → lr_inv s'.
Proof. intros Hi Hm Hf. destruct (feed_spec m d s s' Hi Hm Hf) as (b & -> & Wb & _). by destruct Hi. Qed.

(** What a step does, from the states [I]; a request is made only while the client has
    something, and leads from [I] to [I]. *)
Definition step_will (Q : McapResult (option (Z * bytes)) → LinearReader → bytes → Prop) (I : LinearReader → bytes → Prop)
    (c : bytes) (out : outcome McapError (ctl (option LinearReadEvent) ())) (s' : LinearReader) : Prop :=
  match out with
  | Ok (Next _) => will Q s' c
  | Ok (Return (Some (ReadRequest n))) => (c ≠ [] ∧ (strict = true → (n ≤ zlen c)%Z)) ∧
      (∀ m d c' s2, c = d ++ c' → d ≠ [] → (zlen d ≤ m)%Z → feed m d s' = Ok s2 → I s2 c')
  | Ok (Return r) => Q (Ok (record_event r)) s' c
  | Err e => Q (Err e) s' c
  | Panic => Q Panic s' c
  | Fuel => False
  end.
Lemma will_steps Q I s c : (∀ s c, I s c → lr_inv s ∧ at_eof s = false ∧ fpost step s (step_will Q I c)) → I s c → will Q s c.
Proof.
  intros HI. remember (length c) as n eqn:Hn. revert s c Hn. induction n as [n IH] using lt_wf_ind. intros s c -> Hs.
  destruct (HI s c Hs) as (Hi & He & Hst). unfold fpost in Hst. destruct (step s) as [out s'] eqn:E. cbn in Hst.
  assert (∀ o : outcome McapError (ctl (option LinearReadEvent) ()), out = o → (∀ a, o ≠ Ok (Next a)) →
    next_event s = (match o with Ok (Next _) => Fuel | Ok (Return r) => Ok r | Err e => Err e | Panic => Panic | Fuel => Fuel end, s')) as Hrun.
  { intros o <- Ho. rewrite next_event_run by done. unfold run.
    destruct (work s); cbn [event_loop]; rewrite E; destruct out as [[[]|r]|e| |]; done || by destruct (Ho ()). }
  destruct out as [[[]|[[need|op data]|]]|e| |]; cbn in Hst; try done.
  - by apply (will_pass Q s s').
  - eapply will_feed; [rewrite (Hrun _ eq_refl) by done; reflexivity|apply Hst|]. destruct Hst as [[Hc _] Hst]. intros m d c' s2 -> Hd Hm Hf.
    destruct d as [|x d]; [by destruct (Hc (Hd eq_refl))|]. eapply IH; [|done|by eapply Hst]. rewrite length_app. cbn. lia.
  - by eapply will_event; [rewrite (Hrun _ eq_refl) by done; reflexivity| |].
  - by eapply will_event; [rewrite (Hrun _ eq_refl) by done; reflexivity| |].
  - by eapply will_fail; [rewrite (Hrun _ eq_refl) by done; reflexivity|].
  - by eapply will_panic; [rewrite (Hrun _ eq_refl) by done; reflexivity|].
Qed.

Lemma sim_feed c d m s t s2 : lr_inv s → sim (d ++ c) s t → d ≠ [] → (zlen d ≤ m)%Z → feed m d s = Ok s2 → at_eof s = false →
  sim c s2 t ∧ lr_inv s2 ∧ at_eof s2 = false.
Proof.
  intros Hi [] Hd Hm Hf He. pose proof (feed_inv m d s s2 Hi Hm Hf) as Hi2. destruct (feed_spec m d s s2 Hi Hm Hf) as (b & -> & Wb & Ub & Hb).
  rewrite bool_decide_false, orb_false_r in Hi2 |- * by done. split_and!; [|exact Hi2|exact He].
  split; cbn; try congruence; try done.
  by rewrite Ub, <-app_assoc.
Qed.

(** A step without a decompressor is the step of a reader that has all of the input. *)
Lemma will_plain_step Q s c t out t' : lr_inv s → plain s → at_eof s = false → sim c s t → step t = (out, t') →
  match out with
  | Ok (Next _) => ∀ s' c', sim c' s' t' → lr_inv s' → at_eof s' = false → will Q s' c'
  | Ok (Return (Some (ReadRequest _))) => False
  | Ok (Return r) => ∀ s' c', sim c' s' t' → lr_inv s' → Q (Ok (record_event r)) s' c'
  | Err e => ∀ s' c', sim c' s' t' → Q (Err e) s' c'
  | _ => False
  end → will Q s c.
Proof.
  intros Hi Hp He Hs Et HQ.
  apply (will_steps Q (λ s c, lr_inv s ∧ plain s ∧ at_eof s = false ∧ sim c s t)); [|done].
  clear s c Hi Hp He Hs. intros s c (Hi & Hp & He & Hs). split_and!; [done..|].
  pose proof (step_rp c s t Hi Hp He Hs) as Hrp. pose proof (step_ok s Hi) as Hok. unfold rp, fpost in *.
  destruct (step s) as [o s'] eqn:E. cbn in *. destruct o as [[[]|[[need|op data]|]]|e| |]; cbn.
  - destruct Hrp as (t2 & Et2 & Hs'). rewrite Et in Et2. simplify_eq. destruct Hok as ([_ He'] & [Hi' _]). apply HQ; [done|done|congruence].
  - destruct Hrp as [-> Hrp]. split.
    { split; [|intros _; rewrite Et in Hrp; by destruct out as [[[]|[[?|? ?]|]]|e| |]]. clear Hrp.
      intros ->. pose proof (sim_sym s t Hs) as Hts. pose proof (sim_lr_inv _ _ _ Hs Hi) as Hit.
      pose proof (step_rp [] t s Hit (sim_plain _ _ _ Hts Hp) ltac:(by rewrite (sm_eof _ _ _ Hs)) Hts) as Hrp. unfold rp in Hrp.
      rewrite Et in Hrp. destruct out as [[[]|[[?|? ?]|]]|e| |]; try (by destruct Hrp as (? & E2 & _); rewrite E in E2); done. }
    intros m d c' s2 -> Hd Hm Hf. destruct (sim_feed c' d m s t s2 Hi Hs Hd Hm Hf He) as (Hs2 & Hi2 & He2). split_and!; try done.
      apply (sim_plain _ _ _ Hs2). revert Hp. unfold plain. by rewrite (sm_chunk _ _ _ Hs).
  - destruct Hrp as (t2 & Et2 & Hs'). rewrite Et in Et2. simplify_eq. apply HQ; [done|]. by destruct Hok as (_ & Hi' & _).
  - destruct Hrp as (t2 & Et2 & Hs'). rewrite Et in Et2. simplify_eq. apply HQ; [done|]. by destruct Hok as (_ & Hi' & _).
  - destruct Hrp as (t2 & Et2 & Hs'). rewrite Et in Et2. simplify_eq. by apply HQ.
  - destruct Hrp as (t2 & Et2 & Hs'). rewrite Et in Et2. by simplify_eq.
  - destruct Hrp as (t2 & Et2 & Hs'). rewrite Et in Et2. by simplify_eq.
Qed.

End passes.

Section answers.
Context `{Crc, ZstdLib, Lz4Lib, !ZstdLibOk, !Lz4LibOk}.

(** A reader of whole chunks always answers. *)
Lemma will_answer s c : lr_inv s → emit_chunks (options s) = true → will (λ o s' c', client_next s c o s' c') s c.
Proof.
  remember (length c + if at_eof s then 0 else 1) as n eqn:Hn. revert s c Hn. induction n as [n IH] using lt_wf_ind. intros s c -> Hi Hem.
  pose proof (next_event_ok s Hi) as Hok. pose proof (next_event_emit s Hi) as Hfuel.
  destruct (next_event s) as [[[[need|op data]|]|e| |] s1] eqn:E; cbn in Hok.
  - destruct (at_eof s) eqn:He; [rewrite next_event_eof in E by done; by destruct (eof_ok s)|].
    destruct Hok as (Hi1 & Ho1 & He1 & _).
    eapply will_feed; [exact E|done|]. intros m d c' s2 -> Hd Hm Hf.
    pose proof (feed_inv m d s1 s2 Hi1 Hm Hf) as Hi2. destruct (feed_spec m d s1 s2 Hi1 Hm Hf) as (b & Hs2 & _).
    eapply will_mono; [|eapply IH; [|reflexivity|exact Hi2|by rewrite Hs2; cbn; rewrite Ho1]].
    + intros o s' c2 Hc. eapply client_feeds; [exact E| |exact Hm|exact Hf|exact Hc]. intros ->. by apply Hd.
    + rewrite Hs2. cbn. rewrite length_app. destruct d as [|x d]; cbn; [|destruct (at_eof s1); cbn; lia].
      rewrite orb_true_r. lia.
  - by eapply will_event; [exact E|done|]; eapply (client_event _ _ (Some (EvRecord op data))).
  - by eapply will_event; [exact E|done|]; eapply (client_event _ _ None).
  - by eapply will_fail; [exact E|]; eapply client_fails.
  - by eapply will_panic; [exact E|]; eapply client_panics.
  - by destruct (Hfuel Hem).
Qed.

(** What it does on all of the input it owes to every client. *)
Lemma reads_all_delivers t rs out s c : reads_all t rs out → lr_inv s → at_eof s = false → emit_chunks (options s) = true → sim c s t →
  delivers rs out s c.
Proof.
  intros Hr. revert s c. induction Hr as [t t' E|t e t' E|t t' E|t r t1 rs o E _ IH]; intros s c Hi He Hem Hs;
    pose proof (sim_lr_inv _ _ _ Hs Hi) as Hit;
    assert (plain_run t) as Hp by (apply emit_plain_run; [done|by rewrite (sm_options _ _ _ Hs)]);
    cbn [delivers]; eapply will_mono; try (by apply will_answer);
    intros o' s' c' Hc; destruct (client_next_read_all _ _ _ _ _ Hc t Hi He Hs Hp) as (t2 & Et & Hs');
    rewrite E in Et; simplify_eq; try done.
  split; [done|]. assert (at_eof t = false) as Het by by rewrite (sm_eof _ _ _ Hs).
  destruct (read_all_record t r t2 Hit Het E) as (Hi' & Ho' & He'). apply IH; [by eapply sim_lr_inv_l|..|done].
  - by rewrite <-(sm_eof _ _ _ Hs').
  - by rewrite <-(sm_options _ _ _ Hs'), Ho', (sm_options _ _ _ Hs).
Qed.

(** ** The iterators over a mapped file *)

Lemma inner_loop_will Q fuel i : will Q (ir_reader i) (ir_buf i) → inner_ok i →
  (at_eof (ir_reader i) = true ∨ length (ir_buf i) < fuel) →
  ∃ o i', inner_loop fuel i = (parsed o, i') ∧ Q o (ir_reader i') (ir_buf i') ∧ (o ≠ Panic → inner_ok i').
Proof.
  intros Hw. remember (ir_reader i) as s eqn:Hs. remember (ir_buf i) as c eqn:Hc. revert fuel i Hs Hc.
  induction Hw as [s c r s1 E Hr HQ|s c e s1 E HQ|s c s1 E HQ|s c n s1 E _ _ IH]; intros fuel i -> -> Hok Hf;
    pose proof (next_event_ok _ (io_inv _ Hok)) as Hn; pose proof (next_event_end (ir_reader i)) as Hend; pose proof (io_size _ Hok) as Hsz;
    rewrite E in Hn, Hend; cbn in Hn, Hend.
  - exists (Ok (record_event r)), (mkInnerReader (ir_buf i) s1).
    split; [|split; [done|]; intros _; split; cbn; [by destruct Hn|by rewrite Hend]].
    destruct fuel; cbn [inner_loop]; rewrite E; destruct r as [[?|? ?]|]; done.
  - exists (Err e), (mkInnerReader (ir_buf i) s1).
    split; [|split; [done|]; intros _; split; cbn; [by destruct Hn|by rewrite Hend]].
    destruct fuel; cbn [inner_loop]; rewrite E; done.
  - exists Panic, (mkInnerReader (ir_buf i) s1). split; [|done]. destruct fuel; cbn [inner_loop]; rewrite E; done.
  - destruct Hf as [Heof|Hf]; [rewrite next_event_eof in E by done; by destruct (eof_ok _)|].
    destruct Hn as (Hi1 & _ & He1 & Hneed).
    destruct (serve_spec n (ir_buf i) s1 Hi1 (Hneed _ eq_refl) ltac:(by rewrite Hend))
      as (d & rest & r' & Hbuf & Hnil & Es & Ef & Hi' & He' & _ & Hsz').
    destruct fuel as [|fuel]; [lia|]. cbn [inner_loop]. rewrite E, Es.
    edestruct (IH (zlen d) d rest r' Hbuf) with (i := mkInnerReader rest r') (fuel := fuel) as (o & i' & El & HQ & Hok');
      [|done|done|done|done|by split| |by exists o, i'].
    + intros Hd. rewrite Hbuf, Hd. by rewrite (Hnil Hd).
    + cbn. destruct d as [|x d]; [left; by rewrite He', bool_decide_true, orb_true_r|right].
      rewrite Hbuf in Hf. cbn in Hf. rewrite length_app in Hf. lia.
Qed.

Lemma InnerReader_next_delivers es out i : delivers es out (ir_reader i) (ir_buf i) → inner_ok i →
  match es with
  | [] => ∃ i', InnerReader_next i = ((λ _, None) <$> out, i')
  | (opcode, body) :: es => ∃ i', InnerReader_next i = (Some <$> parse_record opcode body, i') ∧
      delivers es out (ir_reader i') (ir_buf i') ∧ inner_ok i'
  end.
Proof.
  intros Hd Hok. unfold InnerReader_next. destruct es as [|[opcode body] es]; cbn [delivers] in Hd;
    destruct (inner_loop_will _ (2 + length (ir_buf i)) i Hd Hok ltac:(right; lia)) as (o & i' & -> & HQ & Hok').
  - subst o. exists i'. by destruct out as [[]|?| |].
  - destruct HQ as [-> HQ]. exists i'. split; [done|]. split; [done|by apply Hok'].
Qed.

Lemma collect_delivers es out recs fuel i : delivers es out (ir_reader i) (ir_buf i) → Forall2 parses es recs → inner_ok i →
  length es < fuel → collect fuel i = (recs, out).
Proof.
  intros Hd Hp. revert fuel i Hd. induction Hp as [|[op b] r es recs Hr _ IH]; intros [|fuel] i Hd Hok Hf; cbn in Hf; try lia;
    cbn [collect]; pose proof (InnerReader_next_delivers _ _ _ Hd Hok) as Hn.
  - destruct Hn as [i' ->]. by destruct out as [[]|?| |].
  - destruct Hn as (i' & -> & Hd' & Hok'). unfold parses in Hr. cbn in Hr. rewrite Hr. cbn.
    rewrite (IH fuel i'); [done..|lia].
Qed.
End answers.
