(* ===== verification/LinearReaderSound.v ===== *)
(** What the linear reader accepts.

    LinearReaderFile.v says what a well-formed file gives.  Here, the other way round:
    the reader comes to an end on any bytes at all, and what it reads without an error
    is a file: a start magic, the frames of exactly the records it gave, the last one a
    footer, and an end magic. *)

From S2P Require Import Prelude Utf8 BTree Errors Bin Records Crc Codec RwBuf Decompressor LinearReader LinearReaderTheory LinearReaderClient LinearReaderFile Channels Read ReadTheory Conversation.

Section sound.
Context `{Crc, ZstdLib, Lz4Lib, !ZstdLibOk, !Lz4LibOk}.

(** The bytes not yet accounted for: those buffered, after the head of the record
    that is being read. *)
Definition raw_head (opcode len : Z) : bytes := le_enc 1 opcode ++ le_enc 8 len.
Definition owed (t : LinearReader) : bytes :=
  match currently_reading t with
  | CRDataEnd len _ => raw_head op.DATA_END len ++ rb_unread (file_data t)
  | CRFooter len _ => raw_head op.FOOTER len ++ rb_unread (file_data t)
  | _ => rb_unread (file_data t)
  end.

Lemma raw_head_of b : zlen b = OPCODE_LEN_SIZE → b = raw_head (opcode_of b) (length_of b).
Proof.
  intros Hl. unfold raw_head, opcode_of, length_of, OPCODE_LEN_SIZE in *.
  rewrite <-(ztake_zdrop 1 b) at 1. f_equal.
  - assert (length (ztake 1 b) = 1) as <- by (apply Nat2Z.inj; change (Z.of_nat (length ?l)) with (zlen l); zlia).
    by rewrite le_enc_dec.
  - assert (length (zdrop 1 b) = 8) as <- by (apply Nat2Z.inj; change (Z.of_nat (length ?l)) with (zlen l); zlia).
    by rewrite le_enc_dec.
Qed.
Lemma raw_head_frame opcode body : raw_head opcode (zlen body) ++ body = frame opcode body.
Proof. unfold raw_head, frame. by rewrite <-app_assoc. Qed.

(** The records end with the first footer. *)
Definition after_record (opcode : Z) : CurrentlyReading := if (opcode =? op.FOOTER)%Z then EndMagic else FileRecord.

Definition at_record (r : CurrentlyReading) : Prop :=
  match r with FileRecord | CRDataEnd _ _ | CRFooter _ _ => True | _ => False end.

(** What a step of a reader of whole chunks does with what it was owed. *)
Definition step_owed (t : LinearReader) (out : outcome McapError (ctl (option LinearReadEvent) ())) (t' : LinearReader) : Prop :=
  match out with
  | Ok (Next _) =>
      match currently_reading t with
      | StartMagic => owed t = MAGIC ++ owed t' ∧ currently_reading t' = FileRecord
      | EndMagic => owed t = MAGIC ++ owed t' ∧ currently_reading t' = AfterEndMagic
      | r => at_record r ∧ owed t = owed t' ∧ at_record (currently_reading t')
      end
  | Ok (Return (Some (EvRecord opcode body))) =>
      at_record (currently_reading t) ∧ owed t = frame opcode body ++ owed t' ∧
      currently_reading t' = after_record opcode
  | Ok (Return None) => currently_reading t = AfterEndMagic ∧ check_finishes_after_end_magic (options t) = false
  | _ => True
  end.

Lemma start_magic_owed t : currently_reading t = StartMagic → skip_start_magic (options t) = false → lr_inv t →
  fpost step_start_magic t (step_owed t).
Proof.
  intros Hr Hs Hi. unfold step_start_magic. fstep. fstep. rewrite Hs. fstep. fstep.
  apply fpost_consume; [done|done|done|]. intros b Hl W U _ _. destruct (decide _) as [Hm|]; [|fstep; done]. fsteps.
  unfold step_owed, owed. rewrite Hr. cbn [file_data set_file_data set_reading currently_reading]. split; [|done].
  rewrite U, <-(ztake_zdrop (zlen MAGIC) (rb_unread (file_data t))) at 1. by rewrite Hm.
Qed.
Lemma file_record_owed t : currently_reading t = FileRecord → emit_chunks (options t) = true → lr_inv t →
  fpost step_file_record t (step_owed t).
Proof.
  intros Hr Hem Hi. pose proof (nonneg_len t Hi). unfold step_file_record. fstep. apply fpost_load; [done|done|]. intros Hl.
  pose proof (length_of_range (rb_unread (file_data t)) ltac:(rewrite zlen_unread by apply Hi; done)) as Hlen.
  assert (ztake OPCODE_LEN_SIZE (rb_unread (file_data t)) =
    raw_head (opcode_of (ztake OPCODE_LEN_SIZE (rb_unread (file_data t)))) (length_of (ztake OPCODE_LEN_SIZE (rb_unread (file_data t))))) as Hhead.
  { apply raw_head_of. rewrite zlen_ztake, (zlen_unread _ (li_file _ Hi)). unfold OPCODE_LEN_SIZE in *. lia. }
  set (hd := ztake OPCODE_LEN_SIZE (rb_unread (file_data t))) in *. cbn beta match zeta.
  assert (0 ≤ OPCODE_LEN_SIZE ≤ rb_len (file_data t))%Z as Hb by done.
  assert (rb_unread (file_data t) = hd ++ zdrop OPCODE_LEN_SIZE (rb_unread (file_data t))) as Hsplit by (symmetry; apply ztake_zdrop).
  fstep. fstep. rewrite Hem, andb_false_r. fstep; [|fstep].
  - fsteps. apply fpost_mark_file_read; [by destruct Hi|done|]. intros b W U _. fsteps.
    unfold step_owed, owed. rewrite Hr. cbn [file_data set_file_data set_reading currently_reading at_record] in *. split_and!; try done.
    rewrite unread_set_hasher in U. rewrite U, Hsplit at 1. rewrite Hhead at 1. f_equal. by apply Z.eqb_eq in Heqb as ->.
  - fstep. apply fpost_mark_file_read; [done|done|]. intros b W U _. fsteps.
    unfold step_owed, owed. rewrite Hr. cbn [file_data set_file_data set_reading currently_reading at_record] in *. split_and!; try done.
    rewrite unread_set_hasher. rewrite U, Hsplit at 1. rewrite Hhead at 1. f_equal. by apply Z.eqb_eq in Heqb0 as ->.
  - fstep. fstep. destruct (check_len _ _) as [m|] eqn:Hk; cbn; [|done].
    apply check_len_Ok in Hk as (-> & Hm & _). fstep. fstep. unfold add_. zcase; cbn; [|done].
    fstep. unfold in_u in Hlen. apply fpost_consume; [done|unfold OPCODE_LEN_SIZE; lia|done|].
    intros b Hl2 W U L _. fsteps. unfold step_owed, owed. rewrite Hr. cbn [file_data set_file_data currently_reading].
    unfold after_record. rewrite Heqb0, Hr. split_and!; try done.
    rewrite U. set (n := (OPCODE_LEN_SIZE + _)%Z) in *. set (u := rb_unread (file_data t)) in *.
    rewrite <-(ztake_zdrop n u) at 1. f_equal.
    assert (zlen (zdrop OPCODE_LEN_SIZE (ztake n u)) = length_of hd) as Hz.
    { assert (zlen u = rb_len (file_data t)) as Hu by apply (zlen_unread _ (li_file _ Hi)).
      rewrite zlen_zdrop, zlen_ztake, Hu. subst n. unfold OPCODE_LEN_SIZE in *. lia. }
    rewrite <-raw_head_frame, Hz, <-Hhead. unfold hd. rewrite <-(ztake_zdrop OPCODE_LEN_SIZE (ztake n u)) at 1. f_equal.
    rewrite !ztake_take, take_take. f_equal. subst n. unfold OPCODE_LEN_SIZE in *. lia.
Qed.
Lemma data_end_owed t len calculated : currently_reading t = CRDataEnd len calculated → lr_inv t →
  fpost (step_data_end len calculated) t (step_owed t).
Proof.
  intros Hr Hi. pose proof (li_reading _ Hi) as Hc. rewrite Hr in Hc. destruct Hc as [Hu Hc]. unfold in_u in Hu.
  unfold step_data_end. fstep. fstep. fstep. fstep. destruct (check_len _ _) as [m|] eqn:Hk; cbn; [|done].
  apply check_len_Ok in Hk as (-> & _ & _). fstep. apply fpost_load; [done|done|]. intros Hl. fstep. fstep.
  pose proof (read_record_settles DataEnd_codec (ztake len (rb_unread (file_data t)))) as Hs.
  destruct (read_record _ _) as [rec|e| |]; cbn; try done. clear Hs. fstep. apply fpost_check_data_crc; [|done]. fsteps.
  set (s1 := if validate_summary_section_crc _ then _ else _).
  assert (∃ h, s1 = set_file_data (set_hasher h (file_data t)) t) as [h ->].
  { subst s1. destruct (validate_summary_section_crc _); [by eexists|]. exists (rb_hasher (file_data t)). by destruct t as [? ? []]. }
  destruct (consume_without_hashing_spec len (set_hasher h (file_data t)) (li_file _ Hi)) as (b & E & W & U & L & _); [rewrite len_set_hasher; lia|].
  unfold consume_file_without_hashing. fsteps. cbn [file_data set_file_data]. rewrite E. cbn. fsteps.
  rewrite unread_set_hasher in *. unfold step_owed, owed. rewrite Hr. cbn [file_data set_file_data set_reading currently_reading at_record].
  split_and!; try done. rewrite U. assert (zlen (ztake len (rb_unread (file_data t))) = len) as Hz by (rewrite zlen_ztake, (zlen_unread _ (li_file _ Hi)); lia).
  rewrite <-raw_head_frame, Hz, <-app_assoc. by rewrite ztake_zdrop.
Qed.
Lemma footer_owed t len h : currently_reading t = CRFooter len h → lr_inv t →
  fpost (step_footer len h) t (step_owed t).
Proof.
  intros Hr Hi. pose proof (li_reading _ Hi) as Hc. rewrite Hr in Hc. destruct Hc as [Hu Hc]. unfold in_u in Hu.
  unfold step_footer. fstep. fstep. fstep. fstep. destruct (check_len _ _) as [m|] eqn:Hk; cbn; [|done].
  apply check_len_Ok in Hk as (-> & _ & _). fstep. apply fpost_consume; [done|lia|done|]. intros b Hl W U L _. fstep. fstep.
  pose proof (read_record_settles Footer_codec (ztake len (rb_unread (file_data t)))) as Hs.
  destruct (read_record _ _) as [rec|e| |] eqn:Hf; cbn; try done. clear Hs. apply footer_length in Hf.
  fstep. apply fpost_check_summary_crc; [lia| |done]. fsteps.
  unfold step_owed, owed. rewrite Hr. cbn [file_data set_file_data set_reading currently_reading at_record].
  split_and!; try done. rewrite U. assert (zlen (ztake len (rb_unread (file_data t))) = len) as Hz by (rewrite zlen_ztake, (zlen_unread _ (li_file _ Hi)); lia).
  rewrite <-raw_head_frame, Hz, <-app_assoc. by rewrite ztake_zdrop.
Qed.
Lemma end_magic_owed t : currently_reading t = EndMagic → skip_end_magic (options t) = false → lr_inv t →
  fpost step_end_magic t (step_owed t).
Proof.
  intros Hr Hs Hi. unfold step_end_magic. fstep. fstep. rewrite Hs. fstep.
  apply fpost_consume; [done|done|done|]. intros b Hl W U _ _. destruct (decide _) as [Hm|]; [|fstep; done]. fsteps.
  unfold step_owed, owed. rewrite Hr. cbn [file_data set_file_data set_reading currently_reading]. split; [|done].
  rewrite U, <-(ztake_zdrop (zlen MAGIC) (rb_unread (file_data t))) at 1. by rewrite Hm.
Qed.
Lemma after_end_magic_owed t : currently_reading t = AfterEndMagic → at_eof t = false →
  fpost step_after_end_magic t (step_owed t).
Proof.
  intros Hr He. unfold step_after_end_magic. fstep. fstep. fstep; [|by fstep].
  fstep. fstep. fstep; [by fstep|]. fstep. fstep. by rewrite He.
Qed.

(** A reader of whole files in whole chunks, that has all of its input. *)
Record whole_reader (o : LinearReaderOptions) (t : LinearReader) : Prop := {
  wr_inv : lr_inv t;
  wr_options : options t = o;
  wr_eof : at_eof t = false;
}.
Definition whole_file_options (o : LinearReaderOptions) : Prop :=
  emit_chunks o = true ∧ skip_start_magic o = false ∧ skip_end_magic o = false.

Lemma step_owed_ok o t : whole_file_options o → whole_reader o t → fpost step t (step_owed t).
Proof.
  intros (Hem & Hss & Hse) [Hi Ho He]. pose proof (li_emit _ Hi) as Hf. rewrite Ho in Hf. specialize (Hf Hem).
  unfold fpost, step. destruct (currently_reading t) eqn:Hr; try done;
    [apply start_magic_owed|apply file_record_owed|apply footer_owed|apply data_end_owed|apply end_magic_owed|apply after_end_magic_owed];
    done || by rewrite Ho.
Qed.

(** What is accepted, from where the reader stands. *)
Definition ends_in_footer (rs : list (Z * bytes)) : Prop :=
  ∃ init body, rs = init ++ [(op.FOOTER, body)] ∧ Forall (λ r, r.1 ≠ op.FOOTER) init.
Definition accepts (t : LinearReader) (rs : list (Z * bytes)) (tail : bytes) : Prop :=
  match currently_reading t with
  | StartMagic => ends_in_footer rs ∧ owed t = MAGIC ++ frames rs ++ MAGIC ++ tail
  | EndMagic => rs = [] ∧ owed t = MAGIC ++ tail
  | AfterEndMagic => rs = [] ∧ owed t = tail
  | _ => ends_in_footer rs ∧ owed t = frames rs ++ MAGIC ++ tail
  end.

Lemma accepts_next o t t' rs tail : whole_reader o t → whole_file_options o → step_owed t (Ok (Next ())) t' → accepts t' rs tail → accepts t rs tail.
Proof.
  intros Ht Ho. unfold step_owed, accepts. destruct (currently_reading t); try done.
  all: try (intros [-> ->]; [intros [? ->]; by rewrite ?app_assoc]).
  all: try (by intros ([] & _)).
  all: intros (_ & -> & Hat); destruct (currently_reading t'); done.
Qed.
Lemma accepts_record t t' opcode body rs tail : step_owed t (Ok (Return (Some (EvRecord opcode body)))) t' → accepts t' rs tail →
  accepts t ((opcode, body) :: rs) tail.
Proof.
  intros (Hat & Ho & Hr) Ha. unfold accepts in *. rewrite Hr in Ha. unfold after_record in Ha.
  assert (ends_in_footer ((opcode, body) :: rs) ∧ owed t = frames ((opcode, body) :: rs) ++ MAGIC ++ tail) as Hg.
  { rewrite frames_cons, Ho. destruct (Z.eqb_spec opcode op.FOOTER) as [->|Hne].
    - destruct Ha as [-> ->]. split; [by exists [], body|]. change (frames []) with (@nil byte). by rewrite app_nil_r.
    - destruct Ha as [(init & b & -> & Hf) ->]. split; [|by rewrite <-app_assoc]. exists ((opcode, body) :: init), b. split; [done|by constructor]. }
  by destruct (currently_reading t).
Qed.

Lemma after_record_rank opcode : match after_record opcode with FileRecord | EndMagic => True | _ => False end.
Proof. unfold after_record. by destruct (_ =? _)%Z. Qed.

(** A limit on the records keeps their lengths from overflowing. *)
Definition limited (o : LinearReaderOptions) : Prop :=
  ∃ l, record_length_limit o = Some l ∧ (OPCODE_LEN_SIZE + l ≤ usize_max)%Z.
Lemma limited_no_panic t : lr_inv t → emit_chunks (options t) = true → limited (options t) → ¬ may_panic t.
Proof.
  intros Hi Hem (l & Hl & Hm) Hp. pose proof (li_emit _ Hi Hem) as Hf. unfold may_panic, head_overflows in Hp. rewrite Hl in Hp.
  assert (usize_max < OPCODE_LEN_SIZE + length_of (ztake OPCODE_LEN_SIZE (rb_unread (file_data t))) ∧
    is_Some (check_len (length_of (ztake OPCODE_LEN_SIZE (rb_unread (file_data t)))) (Some l)))%Z as [Hov [n Hn]]
    by by destruct (currently_reading t), (chunk_state t).
  apply check_len_Ok in Hn as (-> & _ & Hn). lia.
Qed.

(** The reader comes to an end, and at a proper end it accepted a file. *)
Lemma reads_all_total o t : whole_file_options o → whole_reader o t →
  ∃ rs out, reads_all t rs out ∧ length (frames rs) ≤ length (owed t) ∧ out ≠ Fuel ∧ (limited o → out ≠ Panic) ∧
    (out = Ok () → ∃ tail, accepts t rs tail ∧ (check_finishes_after_end_magic o = true → tail = [])).
Proof.
  intros Hopt. remember (length (owed t) + work t) as n eqn:Hn. revert t Hn.
  induction n as [n IH] using lt_wf_ind. intros t -> Ht. pose proof Ht as [Hi Ho He].
  pose proof (step_owed_ok o t Hopt Ht) as Hst. pose proof (step_ok t Hi) as Hok. unfold fpost in *.
  destruct (step t) as [out t'] eqn:E. cbn in Hst, Hok. destruct Hok as [[Ho' He'] Hok].
  destruct out as [[[]|[[need|op data]|]]|e| |].
  - destruct Hok as [Hi' Hw]. assert (whole_reader o t') as Ht' by (split; congruence || done).
    assert (length (owed t') ≤ length (owed t)) as Hle.
    { revert Hst. cbn [step_owed]. destruct (currently_reading t); first [intros (_ & -> & _); lia|intros [-> _]; rewrite length_app; lia]. }
    destruct (IH (length (owed t') + work t') ltac:(lia) t' eq_refl Ht') as (rs & out & Hr & Hl & Hfu & Hpa & Ha).
    exists rs, out. split; [by apply (reads_all_pass t t')|]. split; [lia|]. split; [done|]. split; [done|]. intros Hout. destruct (Ha Hout) as (tail & Hacc & Htail).
    exists tail. split; [|done]. by apply (accepts_next o t t').
  - pose proof (next_event_eof (set_at_eof true t') eq_refl) as Heof.
    assert (read_all t = (let '(o2, t2) := next_event (set_at_eof true t') in (record_event <$> o2, t2))) as Hra.
    { unfold read_all. by rewrite next_event_run, (run_return _ _ _ E). }
    destruct (step_ok t Hi) as [_ _]. rewrite Heof in Hra.
    destruct (eof_ok (set_at_eof true t')) eqn:Hend; cbn in Hra.
    2:{ exists [], (Err UnexpectedEof). by split_and!; [eapply all_fails|cbn; lia|..]. }
    exists [], (Ok ()). split; [by eapply all_end|]. split; [cbn; lia|]. split; [done|]. split; [done|]. intros _.
    assert (t' = t) as ->.
    { pose proof (step_rp [] t t Hi (file_level_plain t Hi ltac:(rewrite Ho; by apply Hopt)) He ltac:(split; rewrite ?app_nil_r; done || apply Hi)) as Hrp.
      unfold rp in Hrp. rewrite E in Hrp. by destruct Hrp. }
    unfold eof_ok in Hend. cbn in Hend. rewrite Ho, (proj2 (proj2 Hopt)) in Hend. cbn in Hend.
    destruct (currently_reading t) eqn:Hr; try done. cbn in Hend. rewrite !andb_true_iff, Z.eqb_eq in Hend. destruct Hend as [[Hz _] _].
    assert (rb_unread (file_data t) = []) as Hnil by (apply zlen_zero_nil; by rewrite (zlen_unread _ (li_file _ Hi))).
    exists []. split; [|done]. unfold accepts, owed. by rewrite Hr, Hnil.
  - destruct Hok as [Hi' _]. assert (whole_reader o t') as Ht' by (split; congruence || done).
    pose proof Hst as (Hat & Hown & Hrd).
    assert (owed t' = rb_unread (file_data t')) as Howed.
    { unfold owed. rewrite Hrd. unfold after_record. by destruct (_ =? _)%Z. }
    assert (length (owed t) ≤ 9 + length (rb_unread (file_data t))) as Hbig.
    { unfold owed. destruct (currently_reading t); unfold raw_head; rewrite ?length_app, ?length_le_enc; lia. }
    assert (9 ≤ length (frame op data)) as Hframe by (unfold frame; rewrite !length_app, !length_le_enc; lia).
    assert (length (owed t) = length (frame op data) + length (owed t')) as Hlen by by rewrite Hown, length_app.
    assert (work t' ≤ 3 + length (owed t')) as Hwork.
    { unfold work, rank. rewrite Hrd, Howed. unfold after_record. destruct (_ =? _)%Z; lia. }
    assert (length (rb_unread (file_data t)) ≤ work t) by (unfold work; lia).
    destruct (IH (length (owed t') + work t') ltac:(lia) t' eq_refl Ht') as (rs & out & Hr & Hl & Hfu & Hpa & Ha).
    exists ((op, data) :: rs), out. split; [by eapply reads_all_record|]. split; [rewrite frames_cons, length_app; lia|]. split; [done|]. split; [done|]. intros Hout.
    destruct (Ha Hout) as (tail & Hacc & Htail). exists tail. split; [|done]. by eapply accepts_record.
  - exists [], (Ok ()). destruct Hst as [Hr Hc]. split_and!; [|cbn; lia|done|done|].
    { eapply (all_end t t'). unfold read_all. by rewrite next_event_run, (run_return _ _ _ E). }
    intros _. exists (owed t). split; [by unfold accepts; rewrite Hr|congruence].
  - exists [], (Err e). by split_and!; [eapply reads_all_error|cbn; lia|..].
  - exists [], Panic. split_and!; [|cbn; lia|done| |done].
    2:{ intros Hlim. rewrite <-Ho in Hlim. destruct (limited_no_panic t Hi ltac:(rewrite Ho; by apply Hopt) Hlim Hok). }
    eapply (all_panics t t'). unfold read_all. rewrite next_event_run by done.
    unfold run. destruct (work t); cbn [event_loop]; by rewrite E.
  - pose proof (li_emit _ Hi) as Hf. rewrite Ho in Hf. specialize (Hf (proj1 Hopt)). unfold may_hang in Hok.
    by destruct (currently_reading t), (chunk_state t).
Qed.

(** A file, and nothing but the records. *)
Definition accepted_bytes (o : LinearReaderOptions) (file : bytes) (rs : list (Z * bytes)) : Prop :=
  ends_in_footer rs ∧ ∃ tail, file = MAGIC ++ frames rs ++ MAGIC ++ tail ∧ (check_finishes_after_end_magic o = true → tail = []).

(** Each record has its frame in the file. *)
Lemma new_delivers_frames o file : whole_file_options o →
  ∃ rs out, delivers rs out (LinearReader_new o) file ∧ length (frames rs) ≤ length file ∧ out ≠ Fuel ∧ (limited o → out ≠ Panic) ∧
    (out = Ok () → accepted_bytes o file rs).
Proof.
  intros Ho. pose proof (LinearReader_new_inv o) as Hi. set (t := all_input file (LinearReader_new o)).
  pose proof (all_input_sim file _ (li_file _ Hi)) as Hs. fold t in Hs.
  assert (whole_reader o t) as Ht by (split; [by eapply sim_lr_inv|done..]).
  assert (owed t = file) as Hown.
  { unfold owed. rewrite (sm_reading _ _ _ Hs), (sm_unread _ _ _ Hs). cbn. by rewrite (proj1 (proj2 Ho)). }
  destruct (reads_all_total o t Ho Ht) as (rs & out & Hr & Hl & Hf & Hp & Ha). rewrite Hown in Hl.
  exists rs, out. split_and!; try done; [by eapply reads_all_delivers; [exact Hr|exact Hi|done|apply Ho|]|].
  intros Hout. destruct (Ha Hout) as (tail & Hacc & Htail). unfold accepts in Hacc. rewrite Hown in Hacc.
  assert (currently_reading t = StartMagic) as Hrd by (unfold t; cbn; by rewrite (proj1 (proj2 Ho))).
  rewrite Hrd in Hacc. destruct Hacc as [? ?]. split; [done|]. by exists tail.
Qed.
Lemma length_frames_le rs : length rs ≤ length (frames rs).
Proof. induction rs as [|[op b] rs IH]; [done|]. rewrite frames_cons, length_app. unfold frame. rewrite !length_app, !length_le_enc. cbn [length]. lia. Qed.
Lemma new_delivers o file : whole_file_options o →
  ∃ rs out, delivers rs out (LinearReader_new o) file ∧ length rs ≤ length file ∧ out ≠ Fuel ∧ (limited o → out ≠ Panic) ∧
    (out = Ok () → accepted_bytes o file rs).
Proof.
  intros Ho. destruct (new_delivers_frames o file Ho) as (rs & out & Hd & Hl & Hr). exists rs, out. pose proof (length_frames_le rs). split_and!; [done|lia|apply Hr..].
Qed.

(** The iterator over a mapped file, record by record. *)
Lemma collect_total es out i : delivers es out (ir_reader i) (ir_buf i) → inner_ok i → out ≠ Fuel →
  ∃ recs out', (∀ fuel, length es < fuel → collect fuel i = (recs, out')) ∧ out' ≠ Fuel ∧ length recs ≤ length es ∧
    (out' = Ok () → out = Ok () ∧ Forall2 parses es recs).
Proof.
  intros Hd Hok Hout. revert i Hd Hok. induction es as [|[op b] es IH]; intros i Hd Hok;
    pose proof (InnerReader_next_delivers _ _ _ Hd Hok) as Hn.
  - destruct Hn as [i' Hn]. exists [], out. split_and!; [|done|done|intros ->; by split].
    intros [|fuel] Hf; [cbn in Hf; lia|]. cbn [collect]. rewrite Hn. by destruct out as [[]|e| |].
  - destruct Hn as (i' & Hn & Hd' & Hok').
    pose proof (parse_record_not_fuel op b) as Hpf. destruct (parse_record op b) as [r|e| |] eqn:Hp; try done.
    + destruct (IH i' Hd' Hok') as (recs & out' & Hc & Hf' & Hl & Ha). exists (r :: recs), out'. split_and!; [|done|cbn; lia|].
      * intros [|fuel] Hf; cbn in Hf; [lia|]. cbn [collect]. rewrite Hn. cbn. by rewrite Hc by lia.
      * intros Ho. destruct (Ha Ho) as [? ?]. split; [done|]. by constructor.
    + exists [], (Err e). split_and!; [|done|cbn; lia|done]. intros [|fuel] Hf; cbn in Hf; [lia|]. cbn [collect]. by rewrite Hn.
    + exists [], Panic. split_and!; [|done|cbn; lia|done]. intros [|fuel] Hf; cbn in Hf; [lia|]. cbn [collect]. by rewrite Hn.
Qed.
End sound.

Section properties.
Context `{Crc, ZstdLib, Lz4Lib, !ZstdLibOk, !Lz4LibOk}.

(** C39: what a reader of whole chunks accepts, fed in any way, is a file made of exactly
    the records it gave: the start magic, their frames, of which the last is the only
    footer, and the end magic; only with [check_finishes_after_end_magic] is it sure
    that nothing follows. *)
Theorem accepted_file o file rs :
  whole_file_options o → client_run (LinearReader_new o) file rs (Ok ()) → accepted_bytes o file rs.
Proof.
  intros Ho Hr. destruct (new_delivers o file Ho) as (rs' & out & Hd & _ & _ & _ & Ha).
  by destruct (delivers_client_run _ _ _ _ _ _ Hd Hr) as [-> <-]; apply Ha.
Qed.

(** C40: iterating over the records of a mapped file ends, whatever its bytes are: after
    no more records than it has bytes the iterator has given an error or the end; and
    what ends without an error is the frames of the records given, between magics. *)
Theorem mapped_reader_total buf : (zlen buf ≤ usize_max)%Z →
  ∃ recs out, (∀ fuel, length buf < fuel → collect fuel (linear.new buf) = (recs, out)) ∧ out ≠ Fuel ∧
    length recs ≤ length buf ∧
    (out = Ok () → ∃ es tail, Forall2 parses es recs ∧ ends_in_footer es ∧ buf = MAGIC ++ frames es ++ MAGIC ++ tail).
Proof.
  intros Hm. destruct (new_delivers (options (ir_reader (linear.new buf))) buf ltac:(done)) as (es & out & Hd & Hl & Hf & _ & Ha).
  destruct (collect_total es out (linear.new buf) Hd (linear_new_ok buf [] Hm) Hf) as (recs & out' & Hc & Hf' & Hl' & Ha').
  exists recs, out'. split_and!; [|done|lia|].
  - intros fuel Hlt. apply Hc. lia.
  - intros Ho. destruct (Ha' Ho) as [Hout Hp]. destruct (Ha Hout) as (He & tail & Hb & _). by exists es, tail.
Qed.
End properties.

(** ** Examples *)

Module LinearReaderSoundExamples.
Import BitCrc CopyLib.

Definition opts : LinearReaderOptions := with_emit_chunks true LinearReaderOptions_default.
Definition records : list (Z * bytes) :=
  [(op.HEADER, lit "h"); (op.DATA_END, le_enc 4 0); (op.FOOTER, le_enc 8 0 ++ le_enc 8 0 ++ le_enc 4 0)].
(** A file, with something after it that goes unnoticed. *)
Definition file : bytes := MAGIC ++ frames records ++ MAGIC ++ lit "junk".

Lemma accepted_file_witness :
  client_run (LinearReader_new opts) file records (Ok ()) ∧ accepted_bytes opts file records.
Proof.
  assert (client_run (LinearReader_new opts) file records (Ok ())) as Hr.
  { apply (feed_pieces_run 7 100); [lia|]. vm_compute. reflexivity. }
  split; [exact Hr|]. apply (accepted_file opts file records); [|exact Hr]. split; [reflexivity|]. split; reflexivity.
Defined.

(** Bytes that are no file. *)
Definition garbage : bytes := MAGIC ++ lit "not a record" ++ MAGIC.

Lemma mapped_reader_total_witness : ∃ recs out,
  (∀ fuel, length garbage < fuel → collect fuel (linear.new garbage) = (recs, out)) ∧ out ≠ Fuel ∧ length recs ≤ length garbage ∧
  (out = Ok () → ∃ es tail, Forall2 parses es recs ∧ ends_in_footer es ∧ garbage = MAGIC ++ frames es ++ MAGIC ++ tail).
Proof. apply (mapped_reader_total garbage). vm_compute. discriminate. Defined.
End LinearReaderSoundExamples.
