(* ===== verification/Streaming.v ===== *)
(** What a streaming decompressor makes of a frame.

    The two C libraries decompress a chunk piece by piece.  [Streaming] is the contract
    of such a decoder: a frame, given to it in any pieces, comes out as the content
    that was compressed.  [boxed_decodes] and its lemmas carry the contract over to the
    boxed decoders that the reader keeps by name. *)

From S2P Require Import Prelude Utf8 Errors Decompressor.

(** [frame u z]: [z] is a frame with the content [u].  [decodes d z u]: [d] is in the
    middle of a frame of which [z] is still to come, and [u] of the content.  The hint
    asks for no more than the frame has left. *)
Class Streaming (D : Type) `{Decompressor D} (new : McapResult D) (frame : bytes → bytes → Prop) := {
  decodes : D → bytes → bytes → Prop;
  fresh : D → Prop;
  st_new : ∃ d, new = Ok d ∧ fresh d;
  st_fresh d u z : fresh d → frame u z → u ≠ [] → decodes d z u;
  st_need d z u : decodes d z u → (d_next_read_size d ≤ zlen z)%Z;
  st_step d z u k n : decodes d z u → u ≠ [] → (0 < n)%Z →
    ∃ c out u' d', d_decompress (ztake k z) n d = (Ok (c, out), d') ∧ u = out ++ u' ∧ decodes d' (zdrop c z) u';
  st_reset d : fresh d ∨ (∃ z, decodes d z []) → ∃ d', d_reset d = (Ok (), d') ∧ fresh d';
}.
Arguments decodes {D _ new frame _}. Arguments fresh {D _ new frame _}.

(** The contract for both libraries, with the frames of each. *)
Class Frames `{ZstdLib, Lz4Lib} := {
  zstd_frame : bytes → bytes → Prop;
  lz4_frame : bytes → bytes → Prop;
  zstd_streaming :: Streaming ZstdDecoder ZstdDecoder_new zstd_frame;
  lz4_streaming :: Streaming Lz4Decoder Lz4Decoder_new lz4_frame;
}.

Section boxed.
Context `{ZstdLib, Lz4Lib, !Frames, !ZstdLibOk, !Lz4LibOk}.

(** [z] is [u] compressed, in the format called [name]. *)
Definition compressed_as (name : rstring) (u z : bytes) : Prop :=
  (name = lit "zstd" ∧ zstd_frame u z) ∨ (name = lit "lz4" ∧ lz4_frame u z).

Definition boxed_decodes (d : decoder) (z u : bytes) : Prop :=
  match d with BoxZstd d => decodes d z u | BoxLz4 d => decodes d z u end.
Definition boxed_fresh (d : decoder) : Prop := match d with BoxZstd d => fresh d | BoxLz4 d => fresh d end.
(** The decoders that are kept are ready for another frame. *)
Definition decoders_ok (m : gmap bytes decoder) : Prop := map_Forall (λ name d, d_name d = name ∧ boxed_fresh d) m.

Lemma boxed_need d z u : boxed_decodes d z u → (d_next_read_size d ≤ zlen z)%Z.
Proof. destruct d as [d|d]; intros Hd; exact (st_need d z u Hd). Qed.

Lemma boxed_step d z u k n : boxed_decodes d z u → u ≠ [] → (0 < n)%Z →
  ∃ c out u' d', d_decompress (ztake k z) n d = (Ok (c, out), d') ∧ u = out ++ u' ∧ boxed_decodes d' (zdrop c z) u' ∧ d_name d' = d_name d.
Proof.
  destruct d as [d|d]; intros Hd Hu Hn; destruct (st_step d z u k n Hd Hu Hn) as (c & out & u' & d' & E & Eu & Hd');
    [exists c, out, u', (BoxZstd d')|exists c, out, u', (BoxLz4 d')];
    unfold d_decompress at 1; cbn [decoder_Decompressor]; rewrite E; done.
Qed.

Lemma boxed_reset d : boxed_fresh d ∨ (∃ z, boxed_decodes d z []) → ∃ d', d_reset d = (Ok (), d') ∧ d_name d' = d_name d ∧ boxed_fresh d'.
Proof.
  destruct d as [d|d]; intros Hd; destruct (st_reset d Hd) as (d' & E & Hf); [exists (BoxZstd d')|exists (BoxLz4 d')];
    unfold d_reset at 1; cbn [decoder_Decompressor]; rewrite E; done.
Qed.

(** A chunk's decoder is ready for its frame, and those that stay are ready for theirs. *)
Lemma get_decompressor_fresh m name u z : decoders_ok m → compressed_as name u z →
  ∃ d m', get_decompressor m name = (Ok (Some d), m') ∧ decoders_ok m' ∧ boxed_fresh d ∧ d_name d = name ∧ name ≠ [] ∧
    (u ≠ [] → boxed_decodes d z u).
Proof.
  intros Hm Hz. assert (name ≠ []) as Hne by by destruct Hz as [[-> _]|[-> _]].
  unfold get_decompressor. destruct (m !! name) as [d|] eqn:Hd.
  - pose proof (Hm _ _ Hd) as [Hn Hf]. exists d, (delete name m). split_and!; try done; [by apply map_Forall_delete|].
    destruct Hz as [[-> Hz]|[-> Hz]], d as [d|d]; cbn in *; try done; intros; by apply st_fresh.
  - destruct Hz as [[-> Hz]|[-> Hz]].
    + rewrite decide_True by done. destruct (st_new (D := ZstdDecoder)) as (d & E & Hf). rewrite E. exists (BoxZstd d), m.
      split_and!; try done. intros. by apply st_fresh.
    + rewrite decide_False, decide_True by done. destruct (st_new (D := Lz4Decoder)) as (d & E & Hf). rewrite E. exists (BoxLz4 d), m.
      split_and!; try done. intros. by apply st_fresh.
Qed.

(** A chunk that is not compressed has no decoder: none is kept under an empty name. *)
Lemma get_decompressor_plain m : decoders_ok m → get_decompressor m [] = (Ok None, m).
Proof.
  intros Hm. unfold get_decompressor. destruct (m !! []) as [d|] eqn:Hd; [|done].
  destruct (Hm _ _ Hd) as [Hn _]. by destruct d.
Qed.
End boxed.

(** ** An instance *)

(** A library whose frames have a mark before each byte of the content, and another at
    their end, so that its decoder knows when a frame is over. *)
Module MarkLib.
Inductive mark_state := AtMark | AtByte | AtEnd.

Fixpoint mark_frame (u : bytes) : bytes := match u with [] => [Byte.x00] | b :: u => Byte.x01 :: b :: mark_frame u end.

(** The bytes consumed and written, and the state after them. *)
Fixpoint mark_stream (src : bytes) (n : Z) (st : mark_state) : Z * bytes * mark_state :=
  match src with
  | [] => (0%Z, [], st)
  | b :: src =>
      match st with
      | AtByte =>
          if (n <=? 0)%Z then (0%Z, [], st) else
          let '(c, out, st) := mark_stream src (n - 1) AtMark in ((1 + c)%Z, b :: out, st)
      | _ =>
          if bool_decide (b = Byte.x00) then (1%Z, [], AtEnd) else
          let '(c, out, st) := mark_stream src n AtByte in ((1 + c)%Z, out, st)
      end
  end.
Definition mark_hint (src : bytes) (st : mark_state) : Z := match src, st with _ :: _, AtEnd => 0 | _, _ => 1 end.

#[export] Instance mark_zstd : ZstdLib := {|
  DStream := mark_state;
  dstream_create := AtMark;
  dstream_init := λ s, (Ok 1%Z, AtMark);
  decompress_stream := λ src n s, let '(c, out, s) := mark_stream src n s in (Ok (mark_hint src s), c, out, s);
  dstream_reset := λ _, (Ok 0%Z, AtMark);
|}.
#[export] Instance mark_lz4 : Lz4Lib := {|
  LZ4FContext := mark_state;
  lz4f_create := Ok AtMark;
  lz4f_decompress := λ src n s, let '(c, out, s) := mark_stream src n s in (Ok (mark_hint src s), c, out, s);
  lz4f_reset := λ _, AtMark;
|}.

Lemma mark_stream_ok src n st : let '(c, out, st') := mark_stream src n st in
  (0 ≤ c ≤ zlen src)%Z ∧ (zlen out ≤ Z.max 0 n)%Z ∧ ((0 < n)%Z → (0 < zlen src)%Z → (0 < c + zlen out)%Z) ∧
  (src = [] → out = [] → (0 < mark_hint src st')%Z).
Proof.
  revert n st. induction src as [|b src IH]; intros n st; cbn [mark_stream]; [split_and!; done || zlia|]. zlen_facts.
  destruct st.
  - case_bool_decide; [split_and!; done || zlia|]. specialize (IH n AtByte). destruct (mark_stream src n AtByte) as [[c out] st'].
    destruct IH as (? & ? & _). split_and!; done || zlia.
  - zcase; [split_and!; done || zlia|]. specialize (IH (n - 1)%Z AtMark). destruct (mark_stream src (n - 1) AtMark) as [[c out] st'].
    destruct IH as (? & ? & _). split_and!; done || zlia.
  - case_bool_decide; [split_and!; done || zlia|]. specialize (IH n AtByte). destruct (mark_stream src n AtByte) as [[c out] st'].
    destruct IH as (? & ? & _). split_and!; done || zlia.
Qed.
#[export] Instance mark_zstd_ok : ZstdLibOk.
Proof.
  split; [by exists 1%Z, AtMark| |done]. intros src n st. cbn. pose proof (mark_stream_ok src n st) as Hs. by destruct (mark_stream src n st) as [[c out] st'].
Qed.
#[export] Instance mark_lz4_ok : Lz4LibOk.
Proof.
  split; [done|]. intros src n st. cbn. pose proof (mark_stream_ok src n st) as Hs. by destruct (mark_stream src n st) as [[c out] st'].
Qed.

(** What is left of a frame, in each of the states. *)
Definition mark_left (st : mark_state) (z u : bytes) : Prop :=
  match st with
  | AtMark => z = mark_frame u
  | AtByte => ∃ b u', u = b :: u' ∧ z = b :: mark_frame u'
  | AtEnd => z = [] ∧ u = []
  end.
Lemma mark_stream_left st z u k n : mark_left st z u →
  let '(c, out, st') := mark_stream (ztake k z) n st in ∃ u', u = out ++ u' ∧ mark_left st' (zdrop c z) u'.
Proof.
  intros Hz. revert st u k n Hz. induction z as [|b z IH]; intros st u k n Hz; [by exists u|].
  unfold ztake; fold (@ztake byte). destruct (Z.leb_spec k 0) as [Hk|Hk]; [exists u; cbn; by rewrite zdrop_0 by done|]. cbn [mark_stream].
  assert (∀ c, (0 ≤ c)%Z → zdrop (1 + c) (b :: z) = zdrop c z) as Hdrop.
  { intros c Hc. rewrite !zdrop_drop. replace (Z.to_nat (1 + c)) with (S (Z.to_nat c)) by lia. done. }
  destruct st as [| |]; cbn in Hz.
  - destruct u as [|x u]; cbn in Hz; injection Hz as -> ->.
    + case_bool_decide; [|done]. by exists [].
    + case_bool_decide; [done|]. specialize (IH AtByte (x :: u) (k - 1)%Z n ltac:(by exists x, u)).
      pose proof (mark_stream_ok (ztake (k - 1) (x :: mark_frame u)) n AtByte) as Hok.
      destruct (mark_stream (ztake (k - 1) _) n AtByte) as [[c out] st']. destruct Hok as ([Hc _] & _). by rewrite Hdrop.
  - destruct Hz as (x & u' & -> & Hz). injection Hz as -> ->.
    destruct (Z.leb_spec n 0); [exists (x :: u'); rewrite zdrop_0 by done; split; [done|]; by exists x, u'|].
    specialize (IH AtMark u' (k - 1)%Z (n - 1)%Z eq_refl).
    pose proof (mark_stream_ok (ztake (k - 1) (mark_frame u')) (n - 1) AtMark) as Hok.
    destruct (mark_stream (ztake (k - 1) _) (n - 1) AtMark) as [[c out] st']. destruct Hok as ([Hc _] & _). rewrite Hdrop by done.
    destruct IH as (u2 & -> & ?). by exists u2.
  - by destruct Hz.
Qed.

(** What the decoder asks for next, too, is left of the frame. *)
Definition mark_need (need : Z) (z : bytes) : Prop := need = 0%Z ∨ need = 1%Z ∧ z ≠ [].
Lemma mark_need_le need z : mark_need need z → (need ≤ zlen z)%Z.
Proof. zlen_facts. intros [->|[-> Hz]]; [done|]. destruct z; [done|]. zlia. Qed.
Lemma mark_decodes_step st z u k n : mark_left st z u → u ≠ [] →
  let '(c, out, st') := mark_stream (ztake k z) n st in
  ∃ u', u = out ++ u' ∧ mark_left st' (zdrop c z) u' ∧ mark_need (mark_hint (ztake k z) st') (zdrop c z).
Proof.
  intros Hz Hu. pose proof (mark_stream_left st z u k n Hz) as Hl.
  assert (st ≠ AtEnd) as Hst by by intros ->; destruct Hz.
  assert (ztake k z = [] → (mark_stream (ztake k z) n st).2 = st) as Hnil by by intros ->.
  destruct (mark_stream (ztake k z) n st) as [[c out] st']. destruct Hl as (u' & -> & Hl). exists u'. split; [done|]. split; [done|].
  assert (st' ≠ AtEnd → zdrop c z ≠ []) as Hne.
  { intros He Hd. rewrite Hd in Hl. destruct st'; cbn in Hl; [by destruct u'|by destruct Hl as (? & ? & _ & ?)|done]. }
  cbn in Hnil. unfold mark_hint. destruct (ztake k z); [right; split; [done|]; apply Hne; by rewrite Hnil|].
  destruct st'; [right; split; [done|by apply Hne]..|by left].
Qed.

#[export, refine] Instance mark_zstd_streaming : Streaming ZstdDecoder ZstdDecoder_new (λ u z, z = mark_frame u) := {|
  decodes := λ d z u, mark_left (zd_s d) z u ∧ mark_need (zd_need d) z;
  fresh := λ d, zd_s d = AtMark ∧ (zd_need d = 0 ∨ zd_need d = 1)%Z;
|}.
Proof.
  - eexists. split; [reflexivity|]. split; [done|by right].
  - intros [s need] u z [Hs Hn] ->. cbn in *. subst s. intros Hu. split; [done|]. destruct Hn as [->| ->]; [by left|right].
    split; [done|]. by destruct u.
  - intros d z u [_ Hn]. by apply mark_need_le.
  - intros d z u k n [Hd _] Hu _. pose proof (mark_decodes_step _ z u k n Hd Hu) as Hs. unfold d_decompress. cbn.
    destruct (mark_stream (ztake k z) n (zd_s d)) as [[c out] st']. destruct Hs as (u' & -> & Hs). by eexists c, out, u', _.
  - intros [s need] Hd. eexists. split; [reflexivity|]. split; [done|]. cbn.
    destruct Hd as [[_ ?]|(z & _ & [?|[? _]])]; [done|by left|by right].
Defined.

(** The first hint of the other decoder is the size of the smallest frame. *)
#[export, refine] Instance mark_lz4_streaming : Streaming Lz4Decoder Lz4Decoder_new (λ u z, z = mark_frame u ∧ (13 ≤ zlen z)%Z) := {|
  decodes := λ d z u, mark_left (ld_c d) z u ∧ (mark_need (ld_next_read_size d) z ∨ (ld_next_read_size d = 13 ∧ 13 ≤ zlen z)%Z);
  fresh := λ d, ld_c d = AtMark ∧ (ld_next_read_size d = 0 ∨ ld_next_read_size d = 1 ∨ ld_next_read_size d = 13)%Z;
|}.
Proof.
  - eexists. split; [reflexivity|]. split; [done|by right; right].
  - intros [s need] u z [Hs Hn] [-> Hl]. cbn in *. subst s. intros Hu. split; [done|]. destruct Hn as [->|[->| ->]].
    + by left; left.
    + left; right. split; [done|]. by destruct u.
    + by right.
  - intros d z u [_ [Hn|[Hn Hl]]]; [by apply mark_need_le|]. unfold d_next_read_size. cbn. lia.
  - intros d z u k n [Hd _] Hu _. pose proof (mark_decodes_step _ z u k n Hd Hu) as Hs. unfold d_decompress. cbn.
    destruct (mark_stream (ztake k z) n (ld_c d)) as [[c out] st']. destruct Hs as (u1 & -> & Hs & Hn). eexists c, out, u1, _.
    split; [done|]. split; [done|]. split; [done|by left].
  - intros [s need] Hd. eexists. split; [reflexivity|]. split; [done|]. cbn.
    destruct Hd as [[_ ?]|(z & _ & [[?|[? _]]|[? _]])]; [done|by left|by right; left|by right; right].
Defined.
#[export] Instance mark_frames : Frames := {|
  zstd_frame := λ u z, z = mark_frame u;
  lz4_frame := λ u z, z = mark_frame u ∧ (13 ≤ zlen z)%Z;
|}.
End MarkLib.
