(* ===== verification/LinearReaderFlat.v ===== *)
(** The linear reader looking into chunks: a file's records, those in chunks included.

    With [emit_chunks] off the reader gives the records of a chunk one by one, whether
    the chunk is compressed or not.  A plain chunk is read like the rest of the file; in
    a compressed one the reader and its decoder are in the middle of a frame, which
    [in_frame] describes, and how far they get depends on how much a client gives. *)

From S2P Require Import Prelude Utf8 BTree Errors Bin Records Crc Codec RwBuf Decompressor LinearReader LinearReaderTheory LinearReaderClient LinearReaderFile Conversation Streaming.

(** ** Decompressing a frame *)

Section frame.
Context `{Crc, ZstdLib, Lz4Lib, !ZstdLibOk, !Lz4LibOk, !Frames}.

(** [c] is what the client has left, [v] what is still to be read of the content: some
    of it is decompressed, and the decoder is to make the rest, [u], out of [z]; [rest]
    comes after the frame. *)
Record in_frame (name : rstring) (c rest v z u : bytes) (h : option hasher) (s : dstate decoder) : Prop := {
  if_wf : ds_wf s;
  if_name : d_name (ds_decompressor s) = name;
  if_decodes : boxed_decodes (ds_decompressor s) z u ∨ boxed_fresh (ds_decompressor s) ∧ v = [];
  if_input : rb_unread (ds_src s) ++ c = z ++ rest;
  if_compressed : ds_compressed_remaining s = zlen z;
  if_uncompressed : ds_uncompressed_remaining s = zlen u;
  if_content : v = rb_unread (ds_dest s) ++ u;
  if_start : rb_start (ds_dest s) = 0%Z;
  if_hasher : rb_hasher (ds_dest s) = h;
  if_file_hasher : rb_hasher (ds_src s) = None;
}.

(** The client can give the bytes that it is asked for. *)
Definition can_give (c : bytes) (need : Z) : Prop := c ≠ [] ∧ (need ≤ zlen c)%Z.

(** As much of the frame as is buffered. *)
Lemma frame_prefix (a c z rest : bytes) k : a ++ c = z ++ rest → (k ≤ zlen a)%Z → (k ≤ zlen z)%Z → ztake k a = ztake k z.
Proof.
  intros E Ha Hz. rewrite <-(ztake_app_le k a c), E by done. by apply ztake_app_le.
Qed.
Lemma frame_drop (a c z rest : bytes) k : a ++ c = z ++ rest → (k ≤ zlen a)%Z → (k ≤ zlen z)%Z → zdrop k a ++ c = zdrop k z ++ rest.
Proof. intros E Ha Hz. by rewrite <-!zdrop_app_le, E by done. Qed.

(** A decoder at the end of what it is given writes what it still has. *)
Lemma drained_writes d u n c out d' u' : d_decompress [] n d = (Ok (c, out), d') → u = out ++ u' → boxed_decodes d' [] u' → out ≠ [].
Proof.
  intros E Hu Hd ->. pose proof (d_hint _ _ _ _ E) as Hn. pose proof (boxed_need _ _ _ Hd) as Hm. rewrite zlen_nil in Hm. lia.
Qed.

Lemma frame_step name c rest v z u h s : v ≠ [] → in_frame name c rest v z u h s → (zlen (rb_unwritten (ds_dest s)) ≤ zlen u)%Z →
  match decompress_step s with
  | (Ok None, s') => ds_work s' < ds_work s ∧
      (∃ z' u', in_frame name c rest v z' u' h s' ∧ (zlen (rb_unwritten (ds_dest s')) ≤ zlen u')%Z ∧ (zlen u' ≤ zlen u)%Z)
  | (Ok (Some None), s') => s' = s ∧ rb_unwritten (ds_dest s) = []
  | (Ok (Some (Some need)), s') => s' = s ∧ can_give c need
  | _ => False
  end.
Proof.
  intros Hvne [Hw Hnm [Hd|[_ ?]] Hin Hc Hu Hv Hst Hh Hfh] Hroom; [|done]. pose proof Hw as [Ws Wd Wc Wu]. pose proof (decompress_step_spec s Hw) as Hspec.
  pose proof (zlen_unread _ Ws) as Hlen. pose proof (boxed_need _ _ _ Hd) as Hneed.
  assert (rb_len (ds_src s) + zlen c = zlen z + zlen rest)%Z as Hsum by (rewrite <-Hlen, <-!zlen_app; by rewrite Hin).
  unfold decompress_step in *. zcase; [split; [done|]; split; [intros Hnil; rewrite Hnil, zlen_nil in Hsum; zlia|zlen_facts; lia]|]. zcase; [split; [done|by apply zlen_zero_nil]|].
  zcase; [zlen_facts; lia|].
  pose proof (zlen_nonneg (rb_unwritten (ds_dest s))). set (room := zlen (rb_unwritten (ds_dest s))) in *. set (k := Z.min (rb_len (ds_src s)) (clamp_to_usize (ds_compressed_remaining s))) in *.
  assert (k = Z.min (rb_len (ds_src s)) (zlen z)) as Hk by (subst k; unfold clamp_to_usize; rewrite Hc in *; lia).
  rewrite (frame_prefix _ c z rest k Hin) in * by lia. zlen_facts.
  assert (u ≠ []) as Hune by (intros ->; zlia).
  destruct (boxed_step (ds_decompressor s) z u k room Hd Hune ltac:(lia)) as (m & out & u' & d' & E & -> & Hd' & Hnm').
  rewrite E in *. pose proof (d_bounds _ _ _ _ _ _ E) as [Hn Ho].
  assert (zlen (ztake k z) = k) as Hkl by (rewrite zlen_ztake; zlen_facts; pose proof (rb_len_nonneg _ Ws); lia).
  rewrite Hkl in Hn. rewrite zlen_app in *.
  destruct (mark_read_spec m (ds_src s) Ws ltac:(lia)) as (b1 & E1 & W1 & U1 & L1 & Hh1 & _). rewrite E1 in *.
  destruct (fill_written_spec out (ds_dest s) Wd ltac:(subst room; lia)) as (b2 & E2 & W2 & U2 & Hh2 & L2 & R2). rewrite E2 in *.
  zlen_facts. rewrite !sub_Ok in * by lia. destruct Hspec as (Hw' & _ & Hwork). split.
  - destruct Hwork as [(Hs & Hs2 & _)|]; [|done].
    assert (z = []) as -> by (apply zlen_zero_nil; lia). assert (m = 0%Z) as -> by (change (zlen []) with 0%Z in *; lia).
    change (ztake k []) with (@nil byte) in E. change (zdrop 0 []) with (@nil byte) in Hd'.
    pose proof (drained_writes _ _ _ _ _ _ _ E eq_refl Hd') as Hout. destruct out as [|x out]; [done|].
    rewrite zlen_cons in R2. pose proof (zlen_unread _ W1). unfold ds_work. cbn [ds_decompressor ds_src ds_dest]. zlen_facts.
    unfold zlen in *. destruct (_ <=? _)%Z, (_ <=? _)%Z; lia.
  - exists (zdrop m z), u'. split_and!; [|cbn; subst room; lia|lia]. split; cbn [ds_decompressor ds_src ds_dest ds_compressed_remaining ds_uncompressed_remaining]; try done.
    + by rewrite Hnm'.
    + by left.
    + rewrite U1. apply frame_drop; [done|lia..].
    + rewrite Hc, zlen_zdrop. lia.
    + lia.
    + by rewrite U2, Hv, app_assoc.
    + rewrite <-Hst. revert E2. unfold mark_written, rassert. destruct (_ <=? _)%Z; [|done]. by intros [= <-].
    + by rewrite Hh2.
    + by rewrite Hh1, Hfh.
Qed.

Lemma frame_loop name c rest v h fuel z u s : v ≠ [] → in_frame name c rest v z u h s → (zlen (rb_unwritten (ds_dest s)) ≤ zlen u)%Z → ds_work s ≤ fuel →
  match decompress_loop fuel s with
  | (Ok None, s') => (∃ z' u', in_frame name c rest v z' u' h s') ∧ rb_unwritten (ds_dest s') = [] 
  | (Ok (Some need), s') => (∃ z' u', in_frame name c rest v z' u' h s') ∧ can_give c need
  | _ => False
  end.
Proof.
  intros Hvne. revert z u s. induction fuel as [|fuel IH]; intros z u s Hs Hr Hf; cbn [decompress_loop]; pose proof (frame_step _ _ _ _ _ _ _ _ Hvne Hs Hr) as Hst;
    destruct (decompress_step s) as [[[[need|]|]|e| |] s1]; try done; try (destruct Hst as [-> Hst]; eauto); destruct Hst as (Hw & z' & u' & Hs1 & Hr1 & _).
  - lia.
  - eapply IH; [exact Hs1|done|lia].
Qed.

(** The reader asks for [n] bytes in all: it has them at the end, and no more. *)
Lemma frame_inner name c rest v z u h n s : v ≠ [] → in_frame name c rest v z u h s → (n ≤ zlen v)%Z → (n ≤ usize_max)%Z →
  match decompress_inner n s with
  | (Ok None, s') => (∃ z' u', in_frame name c rest v z' u' h s') ∧ rb_len (ds_dest s') = Z.max n (rb_len (ds_dest s)) ∧
      (ds_compressed_remaining s' ≤ ds_compressed_remaining s)%Z
  | (Ok (Some need), s') => (∃ z' u', in_frame name c rest v z' u' h s') ∧ (rb_len (ds_dest s') ≤ Z.max n (rb_len (ds_dest s)))%Z ∧
      (ds_compressed_remaining s' ≤ ds_compressed_remaining s)%Z ∧ can_give c need
  | _ => False
  end.
Proof.
  intros Hvne Hs Hv Hn. pose proof Hs as [Hw Hnm Hd Hin Hc Hu Hcont Hst Hh Hfh]. pose proof Hw as [Ws Wd Wc Wu].
  pose proof (rb_len_nonneg _ Wd). pose proof (zlen_unread _ Wd) as Hlen.
  assert (zlen v = rb_len (ds_dest s) + zlen u)%Z as Hvl by (rewrite Hcont, zlen_app; lia).
  unfold decompress_inner, saturating_sub. zcase; [split; [eauto|split; [lia|done]]|].
  assert (rb_end (ds_dest s) = rb_len (ds_dest s)) as Hend by (unfold rb_len; lia).
  destruct (reserve_exact_spec (Z.max 0 (n - rb_len (ds_dest s))) (ds_dest s) Wd ltac:(lia) ltac:(lia)) as (dest & E & W1 & U1 & R1 & L1 & Hh1 & End1). rewrite E.
  set (s0 := mkDstate _ _ _ _ _).
  assert (in_frame name c rest v z u h s0) as Hs0.
  { split; cbn; try done; [by rewrite U1| |by rewrite Hh1]. unfold rb_len in L1. lia. }
  match goal with |- context [ decompress_loop ?f s0 ] => set (fuel := f) end.
  pose proof (decompress_loop_spec fuel s0 (if_wf _ _ _ _ _ _ _ _ Hs0)) as Hspec.
  pose proof (frame_loop name c rest v h fuel z u s0 Hvne Hs0 ltac:(cbn; lia) ltac:(unfold ds_work; cbn; subst fuel; destruct (_ <=? _)%Z; lia)) as Hl.
  destruct (decompress_loop fuel s0) as [[[need|]|e| |] s1]; try done.
  - destruct Hl as (Hf & Hcne). destruct Hspec as (_ & [(_ & _ & Hcr) Ha] & _). cbn in Ha, Hcr. split; [done|]. split; [|done]. zlen_facts. lia.
  - destruct Hl as (Hf & Hun). destruct Hspec as (_ & [(_ & _ & Hcr) Ha] & _). cbn in Ha, Hcr. rewrite Hun, zlen_nil in Ha. split; [done|]. lia.
Qed.
End frame.

(** ** In the middle of a compressed chunk *)

Section stream.
Context `{Crc, ZstdLib, Lz4Lib, !ZstdLibOk, !Lz4LibOk, !Frames, !Strict}.
Context (o : LinearReaderOptions) (name : rstring) (pad crc bound : Z).

(** The reader's fields, as the decoder's loop sees them. *)
Definition chunk_dstate (cs : ChunkState) (d : decoder) (s : LinearReader) : dstate decoder :=
  mkDstate d (file_data s) (decompressed_content s) (cs_compressed_remaining cs) (cs_uncompressed_remaining cs).

(** The reader is at a record of the chunk: [v] is what the records left are made of. *)
Record in_stream (rest v : bytes) (h : option hasher) (cs : ChunkState) (d : decoder) (s : LinearReader) (c : bytes) : Prop := {
  is_inv : lr_inv s;
  is_options : options s = o;
  is_eof : at_eof s = false;
  is_reading : currently_reading s = ChunkRecord;
  is_decoders : decoders_ok (decompressors s);
  is_chunk : chunk_state s = Some cs;
  is_decoder : cs_decompressor cs = Some d;
  is_padding : cs_padding_after_compressed_data cs = pad;
  is_crc : cs_crc cs = crc;
  is_bound : (cs_compressed_remaining cs ≤ bound)%Z;
  is_frame : ∃ z u, in_frame name c rest v z u h (chunk_dstate cs d s);
}.

Lemma decompress_frame n rest v h cs d s c : in_stream rest v h cs d s c → (n ≤ zlen v)%Z → (n ≤ usize_max)%Z → (0 ≤ n)%Z → v ≠ [] →
  fpost (decompress n cs d) s (λ out s', match out with
    | Ok (Next b) => b = ztake n v ∧ ∃ cs' d', in_stream rest v h cs' d' s' c ∧ rb_len (decompressed_content s') = Z.max n (rb_len (decompressed_content s))
    | Ok (Return r) => ∃ need, r = Some (ReadRequest need) ∧ can_give c need ∧
        ∃ cs' d', in_stream rest v h cs' d' s' c ∧ (rb_len (decompressed_content s') ≤ Z.max n (rb_len (decompressed_content s)))%Z
    | _ => False
    end).
Proof.
  intros [Hi Ho He Hr Hdec Hc Hd Hpad Hcrc Hbd (z & u & Hf)] Hv Hn H0n Hvne.
  assert (fpost (decompress n cs d) s (λ out s', match out with
    | Panic | Fuel => True
    | _ => ∃ c' d', decompressing s s' c' d'
    end)) as Hdg by by apply fpost_decompress; rewrite ?Hr; eauto.
  pose proof (frame_inner _ _ _ _ _ _ _ n _ Hvne Hf Hv Hn) as Hin. unfold fpost, decompress in *.
  fold (chunk_dstate cs d s) in *. destruct (decompress_inner n (chunk_dstate cs d s)) as [[[need|]|e| |] ds]; try done; cbn in *.
  - destruct Hdg as (c' & d' & [I2 O2 E2 R2 C2 D2 L2 F2]). cbn in C2, D2. injection C2 as <-. injection D2 as <-. destruct Hin as ((z' & u' & Hf') & Hl & Hcr & Hcne). cbn in Hcr. exists need. split; [done|]. split; [done|].
    do 2 eexists. split; [split; cbn; try done; try congruence; [cbn; lia|exists z', u'; by destruct ds]|done].
  - destruct Hin as ((z' & u' & Hf') & Hl & Hcr). cbn in Hcr. pose proof (dw_dest _ (if_wf _ _ _ _ _ _ _ _ Hf')) as Wd.
    rewrite slice_Ok in * by (rewrite ?zlen_unread by done; lia). cbn in *.
    destruct Hdg as (c' & d' & [I2 O2 E2 R2 C2 D2 L2 F2]). cbn in C2, D2. injection C2 as <-. injection D2 as <-. split.
    + rewrite (if_content _ _ _ _ _ _ _ _ Hf'), Z.sub_0_r, zdrop_0 by done. rewrite ztake_app_le; [done|]. rewrite zlen_unread by done. lia.
    + do 2 eexists. split; [split; cbn; try done; try congruence; [cbn; lia|exists z', u'; by destruct ds]|done].
Qed.

(** Between records the buffer is cleared. *)
Definition cleared (s : LinearReader) : LinearReader :=
  if (rb_len (decompressed_content s) =? 0)%Z then set_decompressed (rb_clear (decompressed_content s)) s else s.

Lemma in_stream_cleared rest v h cs d s c : in_stream rest v h cs d s c → in_stream rest v h cs d (cleared s) c.
Proof.
  intros Hs. unfold cleared. destruct (Z.eqb_spec (rb_len (decompressed_content s)) 0) as [Hl|]; [|done].
  destruct Hs as [Hi Ho He Hr Hdec Hc Hd Hpad Hcrc Hbd (z & u & [Hw Hnm Hdd Hin Hcm Hu Hv Hst Hh Hfh])]. split; try done.
  - destruct Hi. by split.
  - assert (rb_unread (decompressed_content s) = []) as Hnil by (apply zlen_zero_nil; by rewrite zlen_unread by apply Hi).
    exists z, u. split; try done; [by destruct Hw|]. cbn in *. by rewrite Hnil in Hv.
Qed.

Lemma stream_feed rest v h cs d s c a m s' : in_stream rest v h cs d s (a ++ c) → a ≠ [] → (zlen a ≤ m)%Z → feed m a s = Ok s' →
  in_stream rest v h cs d s' c.
Proof.
  intros [Hi Ho He Hr Hdec Hc Hd Hpad Hcrc Hbd (z & u & [Hw Hnm Hdd Hin Hcm Hu Hv Hst Hh Hfh])] Ha Hm Hf.
  pose proof (feed_inv m a s s' Hi Hm Hf) as Hi'. destruct (feed_spec m a s s' Hi Hm Hf) as (b & -> & Wb & Ub & Hb).
  rewrite bool_decide_false, orb_false_r in Hi' |- * by done. split; try done. exists z, u. split; try done; cbn in *.
  - destruct Hw. by split.
  - by rewrite Ub, <-app_assoc.
  - by rewrite Hb.
Qed.

(** The reader comes to a record, or is in it. *)
Definition at_record (rest v : bytes) (h : option hasher) (s : LinearReader) (c : bytes) : Prop :=
  lr_inv s ∧ at_eof s = false ∧ currently_reading s = ChunkRecord ∧ ∃ cs d, in_stream rest v h cs d (cleared s) c.

Lemma in_stream_at_record rest v h cs d s c : in_stream rest v h cs d s c → at_record rest v h s c.
Proof. intros Hs. split_and!; try apply Hs. exists cs, d. by apply in_stream_cleared. Qed.

Lemma fpost_and {S R A} (m : flow S R A) s (Q1 Q2 : _ → _ → Prop) : fpost m s Q1 → fpost m s Q2 → fpost m s (λ o s', Q1 o s' ∧ Q2 o s').
Proof. done. Qed.

(** The record comes, and the reader is at the next. *)
Lemma stream_record `{!CrcLaws} Q rest op body v h s c : at_record rest (frame op body ++ v) h s c →
  c_wf u8 op = true → body_fits o body = true → (rb_len (decompressed_content s) ≤ zlen (frame op body))%Z →
  (∀ s' c', at_record rest v (hash_opt h (frame op body)) s' c' → rb_len (decompressed_content s') = 0%Z → Q (Ok (Some (op, body))) s' c') → will Q s c.
Proof.
  intros Hs Hop [Hfit Hlim]%body_fits_spec Hle HQ.
  apply (will_steps Q (λ s c, at_record rest (frame op body ++ v) h s c ∧ (rb_len (decompressed_content s) ≤ zlen (frame op body))%Z)); [|done].
  clear s c Hs Hle. intros s c [(Hi & He & Hr & cs & d & Hs) Hle]. split_and!; [done..|].
  assert (zlen (frame op body) = OPCODE_LEN_SIZE + zlen body)%Z as Hfl by (rewrite frame_head, zlen_app, <-zlen_head; done).
  assert (rb_len (decompressed_content (cleared s)) = rb_len (decompressed_content s)) as Hlc.
  { unfold cleared. by destruct (Z.eqb_spec (rb_len (decompressed_content s)) 0). }
  assert (chunk_state s = Some cs) as Hcs by (rewrite <-(is_chunk _ _ _ _ _ _ _ Hs); unfold cleared; by destruct (_ =? _)%Z).
  assert (options s = o) as Ho by (rewrite <-(is_options _ _ _ _ _ _ _ Hs); unfold cleared; by destruct (_ =? _)%Z).
  pose proof (zlen_nonneg body). pose proof (zlen_nonneg v).
  assert (OPCODE_LEN_SIZE = 9)%Z as H9 by done.
  assert (frame op body ++ v ≠ []) as Hne by (intros Hnil; apply (f_equal zlen) in Hnil; rewrite zlen_app, zlen_nil in Hnil; lia).
  set (post := λ (out : outcome McapError (ctl (option LinearReadEvent) ())) s', match out with
    | Ok (Return (Some (ReadRequest need))) => can_give c need ∧ ∃ cs d, in_stream rest (frame op body ++ v) h cs d s' c ∧
        (rb_len (decompressed_content s') ≤ zlen (frame op body))%Z
    | Ok (Return (Some (EvRecord op' b))) => op' = op ∧ b = body ∧ rb_len (decompressed_content s') = 0%Z ∧
        at_record rest v (hash_opt h (frame op body)) s' c
    | _ => False
    end).
  assert (fpost step s post) as Hpost.
  { apply (fpost_step _ _ _ Hr). cbn [arm]. unfold step_chunk_record, get_chunk_state. fstep. fstep. fstep. fstep. fstep. fstep.
    rewrite Hcs. cbn. rewrite (is_decoder _ _ _ _ _ _ _ Hs). unfold step_compressed_chunk_record. fstep. fstep. fold (cleared s).
    fstep. fstep. rewrite Hlc.
    assert ((cs_uncompressed_remaining cs =? 0) && (rb_len (decompressed_content s) =? 0) = false)%Z as ->.
    { destruct (is_frame _ _ _ _ _ _ _ Hs) as (z & u & Hf). pose proof (if_content _ _ _ _ _ _ _ _ Hf) as Hc. apply (f_equal zlen) in Hc.
      pose proof (if_uncompressed _ _ _ _ _ _ _ _ Hf) as Hu. cbn in Hc, Hu. rewrite !zlen_app, zlen_unread, Hlc in Hc by apply (if_wf _ _ _ _ _ _ _ _ Hf).
      rewrite Hu. apply andb_false_iff. rewrite !Z.eqb_neq. lia. }
    fstep. eapply fpost_mono; [apply (decompress_frame OPCODE_LEN_SIZE _ _ _ _ _ _ _ Hs); rewrite ?zlen_app; try done; try lia; unfold usize_max, u64_max; lia|].
    intros out s1 Hout. rewrite Hlc in Hout. destruct out as [[b|r]|e| |]; try done.
    2:{ destruct Hout as (need & -> & Hc & cs1 & d1 & Hs1 & Hl1). split; [done|]. exists cs1, d1. split; [done|lia]. }
    destruct Hout as (-> & cs1 & d1 & Hs1 & Hl1). rewrite frame_head, <-app_assoc, ztake_app by apply zlen_head.
    rewrite opcode_of_head, length_of_head by (done || lia). fstep. fstep. rewrite Ho, Hlim. cbn. fstep. fstep. rewrite add_Ok by lia. cbn.
    unfold get_chunk_state. fstep. fstep. fstep. fstep. rewrite (is_chunk _ _ _ _ _ _ _ Hs1). cbn. fstep. fstep. rewrite (is_decoder _ _ _ _ _ _ _ Hs1). cbn.
    fstep. eapply fpost_mono; [apply (decompress_frame (OPCODE_LEN_SIZE + zlen body) _ _ _ _ _ _ _ Hs1); rewrite ?zlen_app; done || lia|].
    intros out s2 Hout. destruct out as [[b|r]|e| |]; try done.
    2:{ destruct Hout as (need & -> & Hc & cs2 & d2 & Hs2 & Hl2). split; [done|]. exists cs2, d2. split; [done|lia]. }
    destruct Hout as (_ & cs2 & d2 & Hs2 & Hl2). rewrite Hl1 in Hl2.
    assert (rb_len (decompressed_content s2) = zlen (frame op body)) as Hl3 by lia. clear Hl2.
    destruct Hs2 as [I2 O2 E2 R2 Dec2 C2 D2 Pad2 Crc2 Bd2 (z & u & [Hw2 Hnm2 Hdd2 Hin2 Hcm2 Hu2 Hc2 Hst2 Hh2 Hfh2])]. cbn in *.
    pose proof (li_dec _ I2) as Wd. apply app_inj_1 in Hc2 as [Hun Huv]; [|pose proof (zlen_unread _ Wd); unfold zlen in *; lia].
    fstep. fstep. fstep. fstep.
    destruct (mark_read_spec OPCODE_LEN_SIZE _ Wd ltac:(lia)) as (b1 & -> & W1 & U1 & L1 & Hh1 & _). cbn. fstep. fstep.
    destruct (consume_spec (zlen body) b1 W1 ltac:(lia)) as (b2 & -> & W2 & U2 & L2 & Hh3). cbn.
    rewrite <-Hun, frame_head, zdrop_app in U1 by apply zlen_head. rewrite U1, ztake_all in * by done.
    assert (rb_len b2 = 0%Z) as Hl2 by lia.
    fsteps. split_and!; [done..|]. split_and!; [destruct I2; by split|done|done|]. unfold cleared. cbn. rewrite Hl2. cbn.
    exists cs2, d2. split; cbn; try done; [destruct I2; by split|]. exists z, u. split; cbn; try done; [destruct Hw2; by split|destruct Hdd2 as [?|[_ ?]]; [by left|done]|].
    rewrite Hh3, Hh1, Hh2, <-Hun, frame_head, ztake_app by apply zlen_head. by rewrite hash_opt_app. }
  pose proof (fpost_and _ _ _ _ (step_ok s Hi) Hpost) as Hboth. eapply fpost_mono; [exact Hboth|].
  intros out s' [Hok Hp]. destruct out as [[[]|[[need|op' b]|]]|e| |]; try done; cbn in Hp |- *.
  - destruct Hp as ([Hc Hg] & cs' & d' & Hs' & Hl'). split; [done|]. intros m a c' s2 -> Ha Hm Hf.
    pose proof (stream_feed _ _ _ _ _ _ _ _ _ _ Hs' Ha Hm Hf) as Hs2. split; [by eapply in_stream_at_record|].
    destruct (feed_spec m a s' s2 (is_inv _ _ _ _ _ _ _ Hs') Hm Hf) as (b & -> & _). done.
  - destruct Hp as (-> & -> & Hl & Hat). by apply HQ.
Qed.

(** ** After the records of a compressed chunk *)

(** [skip] is what is left of the frame, and the padding. *)
Record in_padding (skip rest : bytes) (h : option hasher) (s : LinearReader) (c : bytes) : Prop := {
  ip_inv : lr_inv s;
  ip_options : options s = o;
  ip_eof : at_eof s = false;
  ip_reading : currently_reading s = PaddingAfterChunk;
  ip_decoders : decoders_ok (decompressors s);
  ip_chunk : ∃ cs d, chunk_state s = Some cs ∧ cs_decompressor cs = Some d ∧ cs_padding_after_compressed_data cs = zlen skip ∧
    cs_crc cs = crc ∧ (boxed_fresh d ∨ ∃ z, boxed_decodes d z []);
  ip_input : rb_unread (file_data s) ++ c = skip ++ rest;
  ip_empty : rb_len (decompressed_content s) = 0%Z;
  ip_hasher : rb_hasher (decompressed_content s) = h;
  ip_file_hasher : rb_hasher (file_data s) = None;
}.

Lemma stream_end Q padding rest h s c : at_record (padding ++ rest) [] h s c → pad = zlen padding →
  (∀ n, (0 ≤ n ≤ bound)%Z → check_len n (record_length_limit o) = Some n) → (pad + bound ≤ usize_max)%Z →
  (∀ skip s', in_padding skip rest h s' c → will Q s' c) → will Q s c.
Proof.
  intros (Hi & He & Hr & cs & d & Hs) Hpad Hlim Hmax HQ. destruct (is_frame _ _ _ _ _ _ _ Hs) as (z & u & Hf).
  assert (rb_len (decompressed_content (cleared s)) = rb_len (decompressed_content s)) as Hlc.
  { unfold cleared. by destruct (Z.eqb_spec (rb_len (decompressed_content s)) 0). }
  pose proof (if_wf _ _ _ _ _ _ _ _ Hf) as Hw. pose proof (zlen_unread _ (dw_dest _ Hw)) as Hlen. cbn in Hlen.
  pose proof (if_content _ _ _ _ _ _ _ _ Hf) as Hc. symmetry in Hc. apply app_nil in Hc as [Hun ->]. cbn in Hun.
  rewrite Hun, zlen_nil in Hlen.
  assert (chunk_state s = Some cs) as Hcs by (rewrite <-(is_chunk _ _ _ _ _ _ _ Hs); unfold cleared; by destruct (_ =? _)%Z).
  assert (options s = o) as Ho by (rewrite <-(is_options _ _ _ _ _ _ _ Hs); unfold cleared; by destruct (_ =? _)%Z).
  pose proof (if_compressed _ _ _ _ _ _ _ _ Hf) as Hcm. pose proof (if_uncompressed _ _ _ _ _ _ _ _ Hf) as Hum. cbn in Hcm, Hum.
  pose proof (is_bound _ _ _ _ _ _ _ Hs) as Hb. rewrite Hcm in Hb. zlen_facts.
  assert (fpost step s (λ out s', out = Ok (Next ()) ∧ (lr_inv s' → at_eof s' = false → in_padding (z ++ padding) rest h s' c))) as Hpost.
  { apply (fpost_step _ _ _ Hr). cbn [arm]. unfold step_chunk_record, get_chunk_state. fstep. fstep. fstep. fstep. fstep. fstep.
    rewrite Hcs. cbn. rewrite (is_decoder _ _ _ _ _ _ _ Hs). unfold step_compressed_chunk_record. fstep. fstep. fold (cleared s).
    fstep. fstep. rewrite Hum, <-Hlen. change ((zlen (@nil byte) =? 0)%Z && (0 =? 0)%Z) with true. cbn iota. fstep. fstep.
    rewrite Hcm, Ho, Hlim by done. cbn. fstep. fstep. rewrite (is_padding _ _ _ _ _ _ _ Hs), add_Ok by lia. cbn. fsteps.
    split; [done|]. intros Hi' He'. destruct Hs as [Is Os Es Rs Decs Cs Ds Ps Crs Bds _]. split; cbn; try done.
    - eexists _, d. split; [done|]. cbn. split_and!; try done; [rewrite zlen_app; lia|].
      destruct (if_decodes _ _ _ _ _ _ _ _ Hf) as [?|[? _]]; [right; by exists z|by left].
    - rewrite <-app_assoc. apply (if_input _ _ _ _ _ _ _ _ Hf).
    - apply (if_hasher _ _ _ _ _ _ _ _ Hf).
    - apply (if_file_hasher _ _ _ _ _ _ _ _ Hf). }
  pose proof (step_ok s Hi) as Hok. unfold fpost in *. destruct (step s) as [out s'] eqn:E. cbn in *. destruct Hpost as [-> Hp].
  destruct Hok as ([_ He'] & Hi' & _). rewrite He in He'. eapply will_pass; [exact Hi|exact He|exact E|]. by eapply HQ, Hp.
Qed.
End stream.

(** ** The file *)

Section flat.
Context `{Crc, ZstdLib, Lz4Lib, !ZstdLibOk, !Lz4LibOk, !Frames, !CrcLaws, !Strict}.
Context (o : LinearReaderOptions).

(** The reader is outside of any chunk, with [u] to come. *)
Record client_at (r : CurrentlyReading) (u : bytes) (s : LinearReader) (c : bytes) : Prop := {
  ca_inv : lr_inv s;
  ca_options : options s = o;
  ca_eof : at_eof s = false;
  ca_reading : currently_reading s = r;
  ca_input : rb_unread (file_data s) ++ c = u;
  ca_hasher : rb_hasher (file_data s) = None;
  ca_empty : rb_len (decompressed_content s) = 0%Z;
  ca_decoders : decoders_ok (decompressors s);
}.

(** The error for the checksum of a chunk, by what was hashed. *)
Definition chunk_crc_error (crc : Z) (h : option hasher) : option McapError :=
  match h with
  | Some h => if negb (crc =? 0)%Z && negb (crc =? hasher_finalize h)%Z then Some (BadChunkCrc crc (hasher_finalize h)) else None
  | None => None
  end.

Lemma stream_padding Q crc skip rest h s c : in_padding o crc skip rest h s c →
  match chunk_crc_error crc h with
  | Some e => ∀ s' c', Q (Err e) s' c'
  | None => ∀ s' c', client_at FileRecord rest s' c' → will Q s' c'
  end → will Q s c.
Proof.
  intros Hs HQ. apply (will_steps Q (in_padding o crc skip rest h)); [|done]. clear s c Hs. intros s c Hs.
  pose proof Hs as [Hi Ho He Hr Hdec (cs & d & Hc & Hd & Hpad & Hcrc & Hdd) Hin Hemp Hh Hfh]. split_and!; [done..|].
  pose proof (zlen_unread _ (li_file _ Hi)) as Hlen. pose proof (zlen_nonneg rest). pose proof (zlen_nonneg skip).
  set (post := λ (out : outcome McapError (ctl (option LinearReadEvent) ())) s', match out with
    | Ok (Return (Some (ReadRequest need))) => can_give c need ∧ s' = s
    | Ok (Next _) => chunk_crc_error crc h = None ∧ (lr_inv s' → options s' = options s → at_eof s' = at_eof s → client_at FileRecord rest s' c)
    | Err e => chunk_crc_error crc h = Some e
    | _ => False
    end).
  assert (fpost step s post) as Hpost.
  { apply (fpost_step _ _ _ Hr). cbn [arm]. unfold step_padding_after_chunk, get_chunk_state. fstep. fstep. fstep. fstep. rewrite Hc. cbn. fstep.
    apply fpost_consume; [done|rewrite Hpad; done| |].
    { intros Hl. split; [|done]. apply (f_equal zlen) in Hin. rewrite !zlen_app in Hin. split; [intros ->; rewrite zlen_nil in Hin|rewrite Hpad]; lia. }
    intros b Hl W U L Hb. fstep. rewrite Hd.
    assert (rb_unread b ++ c = rest) as Hrest.
    { rewrite U, Hpad, <-zdrop_app_le, Hin by lia. by apply zdrop_app. }
    destruct (boxed_reset d Hdd) as (d' & -> & Hn & Hf). cbn. fstep. fstep. fstep. fstep. cbn. fsteps. cbn. rewrite Hh.
    assert (∀ s', lr_inv s' → options s' = options s → at_eof s' = at_eof s → currently_reading s' = FileRecord → file_data s' = b →
      decompressed_content s' = set_hasher None (decompressed_content s) → decompressors s' = <[d_name d' := d']> (decompressors s) → client_at FileRecord rest s' c) as Hca.
    { intros s' Hi' Ho' He' Hr' Hfd Hdc Hds. split; rewrite ?Hfd, ?Hdc, ?Hds; try done; try congruence.
      - by rewrite Hb, Hfh.
      - by apply map_Forall_insert_2. }
    unfold chunk_crc_error in post. subst post. destruct h as [h|]; cbn beta match.
    - unfold check_chunk_crc. rewrite Hcrc. cbv zeta. destruct (negb (crc =? 0)%Z && negb (crc =? hasher_finalize h)%Z) eqn:Eb; fstep; [unfold chunk_crc_error; by rewrite Eb|].
      fsteps. split; [unfold chunk_crc_error; by rewrite ?Eb|]. intros. by apply Hca.
    - fsteps. split; [done|]. intros. by apply Hca. }
  pose proof (fpost_and _ _ _ _ (step_ok s Hi) Hpost) as Hboth. eapply fpost_mono; [exact Hboth|].
  intros out s' [Hok Hp]. destruct out as [[[]|[[need|op' b]|]]|e| |]; try done; cbn in Hp |- *.
  - destruct Hp as [Hn Hp]. rewrite Hn in HQ. destruct Hok as ([] & Hi' & _). by apply HQ, Hp.
  - destruct Hp as [[Hcne Hg] ->]. split; [done|]. intros m a c' s2 -> Ha Hm Hf.
    pose proof (feed_inv m a s s2 Hi Hm Hf) as Hi'. destruct (feed_spec m a s s2 Hi Hm Hf) as (b & -> & Wb & Ub & Hb).
    rewrite bool_decide_false, orb_false_r in Hi' |- * by done. split; try done; cbn.
    + by exists cs, d.
    + by rewrite Ub, <-app_assoc.
    + by rewrite Hb.
  - by rewrite Hp in HQ.
Qed.

(** A reader that has all of its input, for one that is still being given it. *)
Lemma client_at_all r u s c : client_at r u s c → client_at r u (all_input c s) [] ∧ sim c s (all_input c s).
Proof.
  intros [Hi Ho He Hr Hin Hh Hemp Hd]. pose proof (all_input_sim c s (li_file _ Hi)) as Hs. split; [|done].
  split; try done; [by eapply sim_lr_inv|]. by rewrite app_nil_r, (sm_unread _ _ _ Hs).
Qed.
Lemma client_at_sim r u s c t : client_at r u t [] → sim c s t → lr_inv s → client_at r u s c.
Proof.
  intros [Hi Ho He Hr Hin Hh Hemp Hd] Hs Hi'. rewrite app_nil_r, (sm_unread _ _ _ Hs) in Hin. destruct Hs.
  split; try done; try congruence. by rewrite <-sm_decs.
Qed.
Lemma client_at_state r u t : client_at r u t [] → at_state r o u None t.
Proof. intros [Hi Ho He Hr Hin Hh Hemp Hd]. rewrite app_nil_r in Hin. by split. Qed.

(** Outside of chunks nothing is decompressed. *)
Definition quiet {A} (m : flow LinearReader (option LinearReadEvent) A) : Prop := ∀ s,
  decompressed_content (m s).2 = decompressed_content s ∧ decompressors (m s).2 = decompressors s.
Lemma quiet_bind {A B} (m : flow LinearReader (option LinearReadEvent) A) (f : A → flow LinearReader (option LinearReadEvent) B) :
  quiet m → (∀ a, quiet (f a)) → quiet (m ≫= f).
Proof.
  intros Hm Hf s. specialize (Hm s). unfold mbind, flow_bind. destruct (m s) as [[[a|r]|e| |] s']; cbn in *; try done.
  destruct Hm as [<- <-]. apply Hf.
Qed.
Lemma quiet_load n : quiet (load n).
Proof. intros s. unfold load, mbind, flow_bind, fget, read_request, freturn. by destruct (_ <? _)%Z. Qed.
Lemma quiet_check {A} (x : McapResult A) : quiet (check x).
Proof. done. Qed.
Lemma quiet_fset f : (∀ s, decompressed_content (f s) = decompressed_content s ∧ decompressors (f s) = decompressors s) → quiet (fset f).
Proof. intros Hf s. apply Hf. Qed.

Ltac quiet := repeat first
  [ done | apply quiet_bind; [|intros ?] | apply quiet_load | apply quiet_check
  | apply quiet_fset; intros ?; first [done|by repeat case_match] | case_match ].

Lemma quiet_arm r : file_level r → quiet (arm r).
Proof.
  destruct r; try done; intros _; unfold arm, step_start_magic, step_file_record, step_data_end, step_footer, step_end_magic,
    step_after_end_magic, consume_file, consume_file_without_hashing, mark_file_read, check_data_crc, check_summary_crc, read_request; quiet.
Qed.
Lemma quiet_step t : file_level (currently_reading t) →
  decompressed_content (step t).2 = decompressed_content t ∧ decompressors (step t).2 = decompressors t.
Proof. intros Hf. pose proof (quiet_arm _ Hf t) as Hq. unfold step, arm in *. by destruct (currently_reading t). Qed.

Lemma at_state_client r r' u u' t out t' : client_at r u t [] → file_level r → step t = (out, t') → at_state r' o u' None t' → client_at r' u' t' [].
Proof.
  intros [Hi Ho He Hr Hin Hh Hemp Hd] Hf E [Hi' Ho' He' Hr' Hin' Hh']. destruct (quiet_step t) as [Hq1 Hq2]; [by rewrite Hr|].
  rewrite E in *. cbn in *. split; try done; [by rewrite app_nil_r|by rewrite Hq1|by rewrite Hq2].
Qed.
Lemma client_plain r u s c : client_at r u s c → file_level r → plain s.
Proof. intros [Hi _ _ Hr _ _ _ _] Hf. unfold plain. pose proof (li_reading _ Hi) as Hc. rewrite Hr in Hc. destruct r; cbn in *; try done; try (by rewrite Hc); by destruct Hc as [_ ->]. Qed.

(** One step at the level of the file. *)
Lemma will_file_step Q r u s c : client_at r u s c → file_level r →
  (∀ t, client_at r u t [] → ∃ out t' r' u', step t = (out, t') ∧ at_state r' o u' None t' ∧ match out with
    | Ok (Next _) => ∀ s' c', client_at r' u' s' c' → will Q s' c'
    | Ok (Return (Some (EvRecord op d))) => ∀ s' c', client_at r' u' s' c' → Q (Ok (Some (op, d))) s' c'
    | Ok (Return None) => ∀ s' c', client_at r' u' s' c' → Q (Ok None) s' c'
    | _ => False
    end) → will Q s c.
Proof.
  intros Hs Hf Ht. destruct (client_at_all _ _ _ _ Hs) as [Hall Hsim]. destruct (Ht _ Hall) as (out & t' & r' & u' & E & Hat & HQ).
  pose proof (at_state_client _ _ _ _ _ _ _ Hall Hf E Hat) as Hct.
  assert (∀ s' c', sim c' s' t' → lr_inv s' → client_at r' u' s' c') as Hc by (intros s' c' Hs' Hi'; by eapply client_at_sim).
  eapply (will_plain_step Q s c _ out t' (ca_inv _ _ _ _ Hs) (client_plain _ _ _ _ Hs Hf) (ca_eof _ _ _ _ Hs) Hsim E).
  destruct out as [[[]|[[need|op d]|]]|e| |]; try done; eauto.
Qed.

Lemma will_start Q u s c : client_at StartMagic (MAGIC ++ u) s c → skip_start_magic o = false →
  (∀ s' c', client_at FileRecord u s' c' → will Q s' c') → will Q s c.
Proof.
  intros Hs Ho HQ. apply (will_file_step Q _ _ _ _ Hs); [done|]. intros t Ht.
  destruct (start_magic_step _ _ _ _ (client_at_state _ _ _ Ht) Ho) as (t' & E & Ht'). by exists (Ok (Next ())), t', FileRecord, u.
Qed.

Lemma will_record Q op body u s c : client_at FileRecord (frame op body ++ u) s c → ordinary o (op, body) = true →
  emit_chunks o = true ∨ op ≠ op.CHUNK →
  (∀ s' c', client_at FileRecord u s' c' → Q (Ok (Some (op, body))) s' c') → will Q s c.
Proof.
  intros Hs Hor Hem HQ. apply (will_file_step Q _ _ _ _ Hs); [done|]. intros t Ht.
  destruct (ordinary_step _ _ _ _ _ _ (client_at_state _ _ _ Ht) Hem Hor) as (t' & E & Ht'). by exists (Ok (Return (Some (EvRecord op body)))), t', FileRecord, u.
Qed.

(** The sections' checksums are not looked at. *)
Lemma will_data_end Q d u s c : let body := c_enc DataEnd_codec d in
  client_at FileRecord (frame op.DATA_END body ++ u) s c → c_wf DataEnd_codec d = true → body_fits o body = true → validate_summary_section_crc o = false →
  (∀ s' c', client_at FileRecord u s' c' → Q (Ok (Some (op.DATA_END, body))) s' c') → will Q s c.
Proof.
  intros body Hs Hw Hfit Hv HQ. apply (will_file_step Q _ _ _ _ Hs); [done|]. intros t Ht.
  pose proof (body_fits_spec _ _ Hfit) as [Hl _].
  destruct (data_end_pass _ _ _ _ _ (client_at_state _ _ _ Ht)) as (t' & E & Ht'); [unfold OPCODE_LEN_SIZE in *; lia|].
  exists (Ok (Next ())), t'. do 2 eexists. split_and!; [exact E|exact Ht'|]. clear t Ht t' E Ht' s c Hs. intros s c Hs.
  apply (will_file_step Q _ _ _ _ Hs); [done|]. intros t Ht.
  destruct (data_end_ok o d u _ t (client_at_state _ _ _ Ht) Hw Hfit) as (t' & E & Ht'); [done|].
  rewrite Hv in Ht'. by exists (Ok (Return (Some (EvRecord op.DATA_END body)))), t', FileRecord, u.
Qed.
Lemma will_footer Q f u s c : let body := c_enc Footer_codec f in
  client_at FileRecord (frame op.FOOTER body ++ u) s c → c_wf Footer_codec f = true → body_fits o body = true →
  (∀ s' c', client_at EndMagic u s' c' → Q (Ok (Some (op.FOOTER, body))) s' c') → will Q s c.
Proof.
  intros body Hs Hw Hfit HQ. apply (will_file_step Q _ _ _ _ Hs); [done|]. intros t Ht.
  pose proof (body_fits_spec _ _ Hfit) as [Hl _].
  destruct (footer_pass _ _ _ _ _ (client_at_state _ _ _ Ht)) as (t' & E & Ht'); [unfold OPCODE_LEN_SIZE in *; lia|].
  exists (Ok (Next ())), t'. do 2 eexists. split_and!; [exact E|exact Ht'|]. clear t Ht t' E Ht' s c Hs. intros s c Hs.
  apply (will_file_step Q _ _ _ _ Hs); [done|]. intros t Ht.
  destruct (footer_ok o f u _ t (client_at_state _ _ _ Ht) Hw Hfit) as (t' & E & Ht'); [done|].
  by exists (Ok (Return (Some (EvRecord op.FOOTER body)))), t', EndMagic, u.
Qed.

Lemma will_end Q s c : client_at EndMagic MAGIC s c → check_finishes_after_end_magic o = false →
  (∀ s' c', Q (Ok None) s' c') → will Q s c.
Proof.
  intros Hs Hcf HQ. apply (will_file_step Q _ _ _ _ Hs); [done|]. intros t Ht. pose proof (client_at_state _ _ _ Ht) as [Hi Ho He Hr Hu Hh].
  destruct (skip_end_magic o) eqn:Hsk.
  - exists (Ok (Return None)), t, EndMagic, MAGIC. split_and!; [|by split|by eauto].
    unfold step, step_end_magic, mbind, flow_bind, fget, freturn. by rewrite Hr, Ho, Hsk.
  - destruct (step_next _ _ _ _ t (λ t', currently_reading t' = AfterEndMagic ∧ rb_unread (file_data t') = [] ∧ rb_hasher (file_data t') = None)
      (client_at_state _ _ _ Ht)) as (t' & E & ? & ? & ? & ? & ? & ?).
    { apply (fpost_step _ _ _ Hr). cbn [arm]. unfold step_end_magic. fstep. fstep. rewrite Ho, Hsk. fstep.
      apply (fpost_consume_ok _ _ MAGIC []); [done|by rewrite app_nil_r|done|]. intros b W U Hb.
      rewrite decide_True by done. fsteps. split_and!; try done. cbn. by rewrite Hb, Hh. }
    exists (Ok (Next ())), t', AfterEndMagic, []. split_and!; [exact E|by split|]. clear s c Hs Ht t Hi Ho He Hr Hu Hh E. intros s c Hs.
    apply (will_file_step Q _ _ _ _ Hs); [done|]. intros t Ht. exists (Ok (Return None)), t, AfterEndMagic, [].
    split_and!; [|by apply client_at_state|by eauto]. destruct Ht as [Hi Ho He Hr _ _ _ _].
    unfold step, step_after_end_magic, mbind, flow_bind, fget, freturn. by rewrite Hr, Ho, Hcf.
Qed.

(** ** A plain chunk *)

(** A reader that is, but for the input it still has to be given, as [P] says. *)
Definition clients (P : LinearReader → Prop) (s : LinearReader) (c : bytes) : Prop :=
  lr_inv s ∧ at_eof s = false ∧ ∃ t, sim c s t ∧ P t.

Lemma will_clients Q P s c : clients P s c → (∀ t, P t → plain t ∧ ∃ out t', step t = (out, t') ∧ match out with
    | Ok (Next _) => ∀ s' c', clients (eq t') s' c' → will Q s' c'
    | Ok (Return (Some (ReadRequest _))) => False
    | Ok (Return r) => ∀ s' c', clients (eq t') s' c' → Q (Ok (record_event r)) s' c'
    | Err e => ∀ s' c', Q (Err e) s' c'
    | _ => False
    end) → will Q s c.
Proof.
  intros (Hi & He & t & Hs & Ht) HP. destruct (HP t Ht) as (Hp & out & t' & E & HQ).
  pose proof (sim_lr_inv _ _ _ Hs Hi) as Hit. pose proof (step_ok t Hit) as Hok. unfold fpost in Hok. rewrite E in Hok.
  assert (at_eof t = false) as Het by by rewrite (sm_eof _ _ _ Hs).
  eapply (will_plain_step Q s c t out t' Hi); [|done|done|done|].
  { revert Hp. unfold plain. by rewrite (sm_chunk _ _ _ Hs). }
  cbn in Hok. destruct Hok as ([_ He'] & _). rewrite Het in He'.
  assert (∀ s' c', sim c' s' t' → lr_inv s' → clients (eq t') s' c') as Hcl.
  { intros s' c' Hs' Hi'. split_and!; [done| |by exists t']. by rewrite <-(sm_eof _ _ _ Hs'). }
  destruct out as [[[]|[[need|op d]|]]|e| |]; try done; cbn in HQ |- *; auto.
Qed.

(** Outside of chunks this is what [client_at] says. *)
Lemma clients_client_at r u s c t : clients (eq t) s c → client_at r u t [] → client_at r u s c.
Proof. intros (Hi & _ & ? & Hs & <-) Ht. by eapply client_at_sim. Qed.

Section plain_chunk.
Context (us padding_len crc : Z).

Definition plain_state (h : option hasher) (v : bytes) : ChunkState :=
  mkChunkState None h (zlen v) us us padding_len crc.
(** The reader, with all of its input, is in the chunk with the records [v] to come. *)
Record plain_at (r : CurrentlyReading) (h : option hasher) (v rest : bytes) (t : LinearReader) : Prop := {
  pa_state : at_state r o (v ++ rest) None t;
  pa_chunk : chunk_state t = Some (plain_state h v);
  pa_empty : rb_len (decompressed_content t) = 0%Z;
  pa_decoders : decoders_ok (decompressors t);
}.

Lemma plain_at_plain r h v rest t : plain_at r h v rest t → plain t.
Proof. intros [_ Hc _ _]. unfold plain. by rewrite Hc. Qed.

(** A step of such a reader, from what its arm does. *)
Lemma plain_step r h v rest t (P : _ → LinearReader → Prop) : plain_at r h v rest t → fpost (arm r) t P →
  ∃ out t', step t = (out, t') ∧ P out t' ∧ options t' = o ∧ at_eof t' = false ∧
    match out with Ok _ | Err _ => lr_inv t' | _ => True end.
Proof.
  intros [Ht _ _ _] HP. pose proof (fpost_step _ _ _ (as_reading _ _ _ _ _ Ht) HP) as Hst. pose proof (step_ok t (as_inv _ _ _ _ _ Ht)) as Hok.
  unfold fpost in *. destruct (step t) as [out t']. cbn in *. exists out, t'. destruct Hok as [[Ho He] Hok].
  split_and!; try done; [by rewrite Ho, (as_options _ _ _ _ _ Ht)|by rewrite He, (as_eof _ _ _ _ _ Ht)|].
  destruct out as [[|]|e| |]; try done; by destruct Hok.
Qed.

Lemma plain_record_step h op body v rest t : plain_at ChunkRecord h (frame op body ++ v) rest t → c_wf u8 op = true → body_fits o body = true →
  ∃ t', step t = (Ok (Return (Some (EvRecord op body))), t') ∧ plain_at ChunkRecord (hash_opt h (frame op body)) v rest t'.
Proof.
  intros Ht Hop [Hfit Hlim]%body_fits_spec. pose proof Ht as [Hst Hc Hemp Hdec]. pose proof Hst as [Hi Ho He Hr Hu Hh].
  assert (zlen (frame op body) = OPCODE_LEN_SIZE + zlen body)%Z as Hfl by (rewrite frame_head, zlen_app, <-zlen_head; done).
  pose proof (zlen_nonneg body). pose proof (zlen_nonneg v). assert (OPCODE_LEN_SIZE = 9)%Z as H9 by done.
  rewrite <-app_assoc in Hu.
  edestruct (plain_step _ _ _ _ t (λ out t', out = Ok (Return (Some (EvRecord op body))) ∧ (lr_inv t' → options t' = o → at_eof t' = false →
    plain_at ChunkRecord (hash_opt h (frame op body)) v rest t')) Ht) as (out & t' & E & [-> HP] & Ho' & He' & Hi').
  2:{ exists t'. split; [done|by apply HP]. }
  cbn [arm]. unfold step_chunk_record, get_chunk_state. fstep. fstep. fstep. fstep. fstep. fstep. rewrite Hc. cbn -[zlen]. unfold step_plain_chunk_record.
  cbn [plain_state cs_compressed_remaining]. rewrite zlen_app. zcase; [lia|]. fstep.
  apply (fpost_load_ok _ _ (head op body) (body ++ v ++ rest)); [done|by rewrite Hu, frame_head, <-app_assoc|apply zlen_head|].
  rewrite opcode_of_head, length_of_head by (done || lia). fstep. fstep. rewrite Ho, Hlim. cbn -[zlen]. fstep. fstep. rewrite add_Ok by lia. cbn -[zlen].
  fstep. apply (fpost_consume_ok _ _ (frame op body) (v ++ rest)); [done|done|lia|]. intros b W U Hb.
  fstep. fstep. rewrite sub_Ok by lia. cbn -[zlen]. fsteps. rewrite frame_head, zdrop_app by apply zlen_head.
  split; [done|]. intros Hi' Ho' He'. split; cbn -[zlen]; try done.
  - split; try done. cbn. by rewrite Hb, Hh.
  - unfold plain_state, set_compressed_remaining. cbn -[zlen]. do 2 f_equal. rewrite frame_head in Hfl. lia.
Qed.

Lemma plain_end_step h rest t : plain_at ChunkRecord h [] rest t →
  ∃ t', step t = (Ok (Next ()), t') ∧ plain_at PaddingAfterChunk h [] rest t'.
Proof.
  intros Ht. pose proof Ht as [Hst Hc Hemp Hdec]. pose proof Hst as [Hi Ho He Hr Hu Hh].
  edestruct (plain_step _ _ _ _ t (λ out t', out = Ok (Next ()) ∧ (lr_inv t' → options t' = o → at_eof t' = false →
    plain_at PaddingAfterChunk h [] rest t')) Ht) as (out & t' & E & [-> HP] & Ho' & He' & Hi').
  2:{ exists t'. split; [done|by apply HP]. }
  cbn [arm]. unfold step_chunk_record, get_chunk_state. fstep. fstep. fstep. fstep. fstep. fstep. rewrite Hc. cbn. unfold step_plain_chunk_record. cbn [plain_state cs_compressed_remaining]. change (zlen (@nil byte) =? 0)%Z with true. cbn iota. fstep.
  split; [done|]. intros. by split.
Qed.

Lemma plain_padding_step h padding rest t : plain_at PaddingAfterChunk h [] (padding ++ rest) t → padding_len = zlen padding →
  ∃ out t', step t = (out, t') ∧ match chunk_crc_error crc h with
    | Some e => out = Err e
    | None => out = Ok (Next ()) ∧ client_at FileRecord rest t' []
    end.
Proof.
  intros Ht Hlen. pose proof Ht as [Hst Hc Hemp Hdec]. pose proof Hst as [Hi Ho He Hr Hu Hh].
  edestruct (plain_step _ _ _ _ t (λ out t', match chunk_crc_error crc h with
    | Some e => out = Err e
    | None => out = Ok (Next ()) ∧ (lr_inv t' → options t' = o → at_eof t' = false → client_at FileRecord rest t' [])
    end) Ht) as (out & t' & E & HP & Ho' & He' & Hi').
  2:{ exists out, t'. split; [done|]. destruct (chunk_crc_error crc h); [done|]. destruct HP as [-> HP]. split; [done|by apply HP]. }
  cbn [arm]. unfold step_padding_after_chunk, get_chunk_state. fstep. fstep. fstep. fstep. rewrite Hc. cbn -[zlen]. fstep. rewrite Hlen.
  apply (fpost_consume_ok _ _ padding rest); [done|done|done|]. intros b W U Hb. fstep. unfold chunk_crc_error, check_chunk_crc.
  destruct h as [h|]; cbn -[zlen]; [fstep; fstep; cbv zeta; destruct (_ && _); [by fstep|]|]; fsteps;
    (split; [done|]; intros; split; try done; cbn; [by rewrite app_nil_r, U|by rewrite Hb, Hh]).
Qed.
End plain_chunk.

(** ** The head of a chunk *)

Section chunk.
Context (h : ChunkHeader) (es : list (Z * bytes)) (z padding rest : bytes).
Let body := c_enc ChunkHeader_codec h ++ z ++ padding.
Context (Hwf : c_wf ChunkHeader_codec h = true) (Hcs : ch_compressed_size h = zlen z)
  (Hus : ch_uncompressed_size h = zlen (frames es)) (Hfit : body_fits o body = true)
  (Hem : emit_chunks o = false) (Hpre : prevalidate_chunk_crcs o = false).

(** What is hashed starts anew, if it is hashed at all. *)
Definition chunk_hasher (crc : Z) : option hasher := if validate_chunk_crcs o && negb (crc =? 0)%Z then Some hasher_new else None.

Lemma chunk_pass t : client_at FileRecord (frame op.CHUNK body ++ rest) t [] →
  ∃ t', step t = (Ok (Next ()), t') ∧ at_state (CRChunkHeader (zlen body)) o (body ++ rest) None t'.
Proof.
  intros Ht. pose proof (client_at_state _ _ _ Ht) as [Hi Hop He Hr Hu Hh]. pose proof (body_fits_spec _ _ Hfit) as [Hl _].
  destruct (step_next _ _ _ _ t (λ t', currently_reading t' = CRChunkHeader (zlen body) ∧ rb_unread (file_data t') = body ++ rest ∧
    rb_hasher (file_data t') = None) (client_at_state _ _ _ Ht)) as (t' & E & ? & ? & ? & ? & ? & ?); [|exists t'; split; [done|by split]].
  apply (fpost_step _ _ _ Hr). cbn [arm]. unfold step_file_record. fstep. rewrite frame_head, <-app_assoc in Hu.
  apply (fpost_load_ok _ _ (head op.CHUNK body) (body ++ rest)); [done|done|apply zlen_head|].
  rewrite opcode_of_head, length_of_head by (done || unfold OPCODE_LEN_SIZE in *; lia).
  fstep. fstep. rewrite Hop, Hem. change ((op.CHUNK =? op.CHUNK)%Z && negb false) with true. cbn iota. fstep.
  apply (fpost_mark_file_read_ok _ _ (head op.CHUNK body) (body ++ rest)); [done|done|apply zlen_head|].
  intros b W U Hb. fstep. cbn. by rewrite U, Hb, Hh.
Qed.

(** The state after the header, for the decoder [d] and with the decoders [m] left. *)
Definition after_header (d : option decoder) (m : gmap bytes decoder) (t : LinearReader) : Prop :=
  at_state ChunkRecord o (z ++ padding ++ rest) None t ∧ decompressors t = m ∧
  chunk_state t = Some (mkChunkState d (if bool_decide (ch_compression h = []) then chunk_hasher (ch_uncompressed_crc h) else None)
    (zlen z) (zlen (frames es)) (zlen (frames es)) (zlen padding) (ch_uncompressed_crc h)) ∧
  decompressed_content t = mkRwBuf [] 0 0 (if bool_decide (ch_compression h = []) then None else chunk_hasher (ch_uncompressed_crc h)).

Lemma check_len_le a b limit : check_len b limit = Some b → (a ≤ b)%Z → check_len a limit = Some a.
Proof.
  intros Hb Ha. apply check_len_Ok in Hb as (_ & Hb & Hl). unfold check_len. rewrite (proj2 (Z.leb_le _ _)) by lia.
  destruct limit as [l|]; [|done]. by rewrite (proj2 (Z.ltb_ge _ _)) by lia.
Qed.

Lemma ztake_app_ge {A} n (l k : list A) : (zlen l ≤ n)%Z → ztake n (l ++ k) = l ++ ztake (n - zlen l) k.
Proof. intros. rewrite !ztake_take. unfold zlen in *. rewrite take_app_ge by lia. f_equal. f_equal. lia. Qed.

Lemma header_parts : ∃ pre post, c_enc ChunkHeader_codec h = pre ++ le_enc 4 (zlen (ch_compression h)) ++ post ∧ zlen pre = 28%Z ∧
  zlen (c_enc ChunkHeader_codec h) = (40 + zlen (ch_compression h))%Z ∧ (zlen (ch_compression h) ≤ u32_max)%Z.
Proof.
  destruct h as [st en us crc name cs]. exists (((le_enc 8 st ++ le_enc 8 en) ++ le_enc 8 us) ++ le_enc 4 crc), (name ++ le_enc 8 cs).
  change (c_enc ChunkHeader_codec _) with (((((le_enc 8 st ++ le_enc 8 en) ++ le_enc 8 us) ++ le_enc 4 crc) ++ (le_enc 4 (zlen name) ++ name)) ++ le_enc 8 cs).
  pose proof Hwf as Hw. change (c_wf ChunkHeader_codec _) with (((((c_wf u64 st && c_wf u64 en) && c_wf u64 us) && c_wf u32 crc) && c_wf rstr name) && c_wf u64 cs) in Hw.
  rewrite !andb_true_iff in Hw. destruct Hw as [[_ [_ Hn]%string_wf_iff] _].
  cbn [ch_compression]. split_and!; [by rewrite <-!app_assoc|zlia|zlia|]. unfold in_u, u32_max in *. lia.
Qed.

Lemma header_step d m t : at_state (CRChunkHeader (zlen body)) o (body ++ rest) None t →
  get_decompressor (decompressors t) (ch_compression h) = (Ok d, m) →
  ∃ t', step t = (Ok (Next ()), t') ∧ after_header d m t'.
Proof.
  intros Ht Hg. pose proof Ht as [Hi Hop He Hr Hu Hh]. pose proof (body_fits_spec _ _ Hfit) as [Hl Hlim].
  destruct header_parts as (pre & post & Henc & Hpre28 & Hhl & Hnl). set (hdr := c_enc ChunkHeader_codec h) in *.
  set (cs := mkChunkState d (if bool_decide (ch_compression h = []) then chunk_hasher (ch_uncompressed_crc h) else None)
    (zlen z) (zlen (frames es)) (zlen (frames es)) (zlen padding) (ch_uncompressed_crc h)).
  set (dec := mkRwBuf [] 0 0 (if bool_decide (ch_compression h = []) then None else chunk_hasher (ch_uncompressed_crc h))).
  destruct (step_next _ _ _ _ t (λ t', currently_reading t' = ChunkRecord ∧ rb_unread (file_data t') = z ++ padding ++ rest ∧
    rb_hasher (file_data t') = None ∧ decompressors t' = m ∧ chunk_state t' = Some cs ∧ decompressed_content t' = dec) Ht)
    as (t' & E & ? & ? & ? & ? & ? & ? & ? & ? & ?); [|exists t'; split; [done|by split]].
  assert (zlen body = zlen hdr + zlen z + zlen padding)%Z as Hbl by (unfold body; rewrite !zlen_app; lia).
  pose proof (zlen_nonneg z). pose proof (zlen_nonneg padding). pose proof (zlen_nonneg (ch_compression h)).
  assert (rb_unread (file_data t) = hdr ++ z ++ padding ++ rest) as Hu' by (rewrite Hu; unfold body; by rewrite <-!app_assoc).
  assert (read_record ChunkHeader_codec hdr = Ok h) as Hrd by (rewrite <-(app_nil_r hdr); by apply (read_record_enc ChunkHeader_codec)).
  clearbody hdr. clear Hu Ht Hfit Hl. clearbody body.
  apply (fpost_step _ _ _ Hr). cbn [arm]. unfold step_chunk_header. fstep. fstep. fstep.
  apply (fpost_load_ok _ _ (ztake MIN_CHUNK_HEADER_SIZE hdr) (zdrop MIN_CHUNK_HEADER_SIZE hdr ++ z ++ padding ++ rest)); [done| | |].
  { rewrite Hu'. by rewrite (app_assoc (ztake _ _)), ztake_zdrop. }
  { rewrite zlen_ztake. unfold MIN_CHUNK_HEADER_SIZE. lia. }
  assert (le_dec (ztake 4 (zdrop 28 (ztake MIN_CHUNK_HEADER_SIZE hdr))) = zlen (ch_compression h)) as ->.
  { rewrite Henc, app_assoc, ztake_app_ge, <-app_assoc, zdrop_app, ztake_app by (rewrite ?zlen_app, ?zlen_le_enc, ?Hpre28; done).
    apply le_dec_enc_u. unfold in_u, u32_max in *. lia. }
  assert (MIN_CHUNK_HEADER_SIZE + zlen (ch_compression h) = zlen hdr)%Z as -> by (unfold MIN_CHUNK_HEADER_SIZE; lia).
  fstep. apply (fpost_consume_ok _ _ hdr (z ++ padding ++ rest)); [done|done|done|]. intros b W U Hb. fstep. fstep.
  rewrite Hrd. cbn -[ok_or check_len checked_sub]. fstep. fstep. cbn [decompressors set_file_data]. rewrite Hg. fstep. fstep. fstep. fstep. cbn -[ok_or check_len checked_sub].
  fstep. fstep. rewrite Hcs, Hus, Hop. unfold checked_sub at 1. rewrite (proj2 (Z.leb_le _ _)) by lia. cbn -[check_len checked_sub].
  fstep. fstep. unfold checked_sub at 1. rewrite (proj2 (Z.leb_le _ _)) by lia. cbn -[check_len checked_sub].
  fstep. fstep. replace (zlen body - zlen hdr - zlen z)%Z with (zlen padding) by lia. rewrite (check_len_le _ _ _ Hlim) by lia. cbn -[check_len checked_sub].
  fsteps. split; [done|]. rewrite Hpre. cbn.
  split_and!; try done; [by rewrite Hb, Hh|..]; subst cs dec; unfold chunk_hasher, rb_clear, set_hasher; cbn;
    rewrite ?andb_true_r; by destruct (bool_decide (ch_compression h = [])), (validate_chunk_crcs o), (ch_uncompressed_crc h =? 0)%Z.
Qed.

(** ** The records of a chunk, compressed or not *)

Definition stored_as (name : rstring) (u z : bytes) : Prop := (name = [] ∧ z = u) ∨ (name ≠ [] ∧ compressed_as name u z).
Context (Hstored : stored_as (ch_compression h) (frames es) z).

(** The records left are [v], and [hh] has hashed those before. *)
Definition in_chunk (v : bytes) (hh : option hasher) (s : LinearReader) (c : bytes) : Prop :=
  if decide (ch_compression h = [])
  then clients (plain_at (zlen (frames es)) (zlen padding) (ch_uncompressed_crc h) ChunkRecord hh v (padding ++ rest)) s c
  else at_record o (ch_compression h) (zlen padding) (ch_uncompressed_crc h) (zlen z) (padding ++ rest) v hh s c ∧
    rb_len (decompressed_content s) = 0%Z.

Lemma chunk_sizes : (zlen z + zlen padding + OPCODE_LEN_SIZE ≤ usize_max)%Z ∧
  (∀ n, (0 ≤ n ≤ zlen z)%Z → check_len n (record_length_limit o) = Some n).
Proof.
  pose proof (body_fits_spec _ _ Hfit) as [Hl Hlim]. unfold body in *. rewrite !zlen_app in *.
  pose proof (zlen_nonneg (c_enc ChunkHeader_codec h)). pose proof (zlen_nonneg padding). split; [lia|].
  intros n Hn. apply (check_len_le _ _ _ Hlim). lia.
Qed.

Lemma chunk_record Q op b v hh s c : in_chunk (frame op b ++ v) hh s c → c_wf u8 op = true → body_fits o b = true →
  (∀ s' c', in_chunk v (hash_opt hh (frame op b)) s' c' → Q (Ok (Some (op, b))) s' c') → will Q s c.
Proof.
  unfold in_chunk. intros Hs Hop Hb HQ. destruct (decide _) as [Hn|Hn].
  - eapply (will_clients _ _ _ _ Hs). intros t Ht. split; [by eapply plain_at_plain|].
    destruct (plain_record_step _ _ _ _ _ _ _ _ _ Ht Hop Hb) as (t' & E & Ht'). eexists _, t'. split; [exact E|]. cbn.
    intros s' c' (Hi & He & ? & Hs' & <-). apply HQ. split_and!; [done..|by exists t'].
  - destruct Hs as [Hs Hl]. eapply (stream_record _ _ _ _ _ Q _ _ _ _ _ _ _ Hs Hop Hb); [rewrite Hl; apply zlen_nonneg|].
    intros s' c' Hat Hl'. by apply HQ.
Qed.

Lemma chunk_end Q hh s c : in_chunk [] hh s c →
  match chunk_crc_error (ch_uncompressed_crc h) hh with
  | Some e => ∀ s' c', Q (Err e) s' c'
  | None => ∀ s' c', client_at FileRecord rest s' c' → will Q s' c'
  end → will Q s c.
Proof.
  unfold in_chunk. intros Hs HQ. pose proof chunk_sizes as [Hsz Hlim]. destruct (decide _) as [Hn|Hn].
  - eapply (will_clients _ _ _ _ Hs). intros t Ht. split; [by eapply plain_at_plain|].
    destruct (plain_end_step _ _ _ _ _ _ Ht) as (t' & E & Ht'). eexists _, t'. split; [exact E|]. clear s c Hs E. intros s c Hs.
    eapply (will_clients _ _ _ _ Hs). intros ? <-. split; [by eapply plain_at_plain|].
    destruct (plain_padding_step _ _ _ _ _ _ _ Ht' eq_refl) as (out & t2 & E & Hout). exists out, t2. split; [done|].
    destruct (chunk_crc_error _ _); [by subst out|]. destruct Hout as [-> Hc]. intros s2 c2 Hs2. apply HQ. by eapply clients_client_at.
  - destruct Hs as [Hs Hl]. eapply (stream_end _ _ _ _ _ Q padding rest _ _ _ Hs); [done|done|unfold OPCODE_LEN_SIZE in *; lia|].
    intros skip s' Hs'. by eapply stream_padding.
Qed.

Lemma chunk_start Q s c : client_at FileRecord (frame op.CHUNK body ++ rest) s c →
  (∀ s' c', in_chunk (frames es) (chunk_hasher (ch_uncompressed_crc h)) s' c' → will Q s' c') → will Q s c.
Proof.
  intros Hs HQ. apply (will_file_step Q _ _ _ _ Hs); [done|]. intros t Ht. destruct (chunk_pass t Ht) as (t' & E & Ht').
  exists (Ok (Next ())), t'. do 2 eexists. split_and!; [exact E|exact Ht'|]. clear s c Hs t Ht t' E Ht'. intros s c Hs.
  destruct (client_at_all _ _ _ _ Hs) as [Hall Hsim].
  apply (will_clients Q (λ t, client_at (CRChunkHeader (zlen body)) (body ++ rest) t []) s c).
  { split_and!; [apply Hs..|]. eexists. by split. }
  clear s c Hs Hall Hsim. intros t Ht. split.
  { unfold plain. pose proof (li_reading _ (ca_inv _ _ _ _ Ht)) as Hr. rewrite (ca_reading _ _ _ _ Ht) in Hr. by destruct Hr as [_ ->]. }
  assert (∃ d m, get_decompressor (decompressors t) (ch_compression h) = (Ok d, m) ∧ decoders_ok m ∧
    if decide (ch_compression h = []) then d = None ∧ z = frames es
    else ∃ x, d = Some x ∧ boxed_fresh x ∧ d_name x = ch_compression h ∧ (frames es ≠ [] → boxed_decodes x z (frames es))) as (d & m & Hg & Hm & Hd).
  { destruct (decide _) as [Hn|Hn], Hstored as [[Hn2 Hz]|[Hn2 Hz]]; try done.
    - exists None, (decompressors t). split_and!; [|apply Ht|done|done]. rewrite Hn. apply get_decompressor_plain, Ht.
    - destruct (get_decompressor_fresh _ _ _ _ (ca_decoders _ _ _ _ Ht) Hz) as (x & m & Hg & Hm & Hf & Hx & _ & Hdec).
      exists (Some x), m. split_and!; try done. by exists x. }
  destruct (header_step d m t (client_at_state _ _ _ Ht) Hg) as (t' & E & Hat & Hms & Hc & Hdc).
  exists (Ok (Next ())), t'. split; [done|]. intros s c (Hi & He & ? & Hs & <-). apply HQ. unfold in_chunk. destruct (decide _) as [Hn|Hn].
  - destruct Hd as [-> Hz]. split_and!; [done..|]. exists t'. split; [done|]. rewrite bool_decide_true in Hc, Hdc by done. split.
    + by rewrite <-Hz.
    + by rewrite Hc, Hz.
    + by rewrite Hdc.
    + by rewrite Hms.
  - destruct Hd as (x & -> & Hf & Hx & Hdec). rewrite bool_decide_false in Hc, Hdc by done.
    assert (decompressed_content s = decompressed_content t') as Hds by (symmetry; apply (sm_dec _ _ _ Hs)).
    split; [|by rewrite Hds, Hdc]. eapply in_stream_at_record. destruct Hs as [Ws Wt Eu Eh Er Ec Ed Eds Eo Ee].
    pose proof chunk_sizes as [Hsz Hlim]. zlen_facts. destruct Hat as [_ Ho' _ Hr' Hu' Hh'].
    split; rewrite <-?Er, <-?Eo, <-?Ec, <-?Eds, ?Hms; try done.
    exists z, (frames es). split; cbn; rewrite ?Hds, ?Hdc; try done.
    + split; cbn; try done; [apply Hi|unfold OPCODE_LEN_SIZE in *; lia].
    + destruct (frames es) eqn:Hfr; [by right|left; by apply Hdec].
    + by rewrite <-Eu.
    + by rewrite <-Eh.
Qed.
End chunk.

(** ** What comes of a file *)

(** What a client is owed next. *)
Definition owes (rs : list (Z * bytes)) (out : McapResult ()) (r : McapResult (option (Z * bytes))) (s : LinearReader) (c : bytes) : Prop :=
  match rs with
  | [] => r = (λ _, None) <$> out
  | r0 :: rs => r = Ok (Some r0) ∧ delivers rs out s c
  end.
Lemma delivers_will rs out s c : will (owes rs out) s c ↔ delivers rs out s c.
Proof. by destruct rs. Qed.

Lemma ordinary_delivers rs u rs' out s c : client_at FileRecord (frames rs ++ u) s c →
  forallb (λ r, ordinary o r && (emit_chunks o || negb (r.1 =? op.CHUNK)%Z)) rs = true →
  (∀ s' c', client_at FileRecord u s' c' → delivers rs' out s' c') → delivers (rs ++ rs') out s c.
Proof.
  revert s c. induction rs as [|[op b] rs IH]; intros s c Hs Hrs HQ; [by apply HQ|].
  cbn [forallb] in Hrs. rewrite !andb_true_iff, orb_true_iff in Hrs. destruct Hrs as [[Hor Hem] Hrs].
  rewrite frames_cons, <-app_assoc in Hs. cbn [app delivers]. eapply (will_record _ op b); [exact Hs|done| |].
  { destruct Hem as [?|Hem]; [by left|right]. cbn in Hem. by apply negb_true_iff, Z.eqb_neq in Hem. }
  intros s' c' Hs'. split; [done|]. by apply IH.
Qed.

(** A part of the data section: a record that is not a chunk, or a chunk with its
    header, the records in it, those records as they are stored, and padding. *)
Inductive part :=
| One (r : Z * bytes)
| Chunked (h : ChunkHeader) (es : list (Z * bytes)) (z padding : bytes).

Definition part_record (i : part) : Z * bytes :=
  match i with
  | One r => r
  | Chunked h es z padding => (op.CHUNK, c_enc ChunkHeader_codec h ++ z ++ padding)
  end.
Definition part_ok (i : part) : Prop :=
  match i with
  | One r => ordinary o r = true ∧ r.1 ≠ op.CHUNK
  | Chunked h es z padding =>
      c_wf ChunkHeader_codec h = true ∧ ch_compressed_size h = zlen z ∧ ch_uncompressed_size h = zlen (frames es) ∧
      body_fits o (part_record i).2 = true ∧ stored_as (ch_compression h) (frames es) z ∧
      forallb (λ r, c_wf u8 r.1 && body_fits o r.2) es = true
  end.
(** The records that come of it, and the error if its checksum is wrong. *)
Definition part_records (i : part) : list (Z * bytes) := match i with One r => [r] | Chunked _ es _ _ => es end.
Definition part_error (i : part) : option McapError :=
  match i with
  | One _ => None
  | Chunked h es _ _ =>
      if bad_crc (validate_chunk_crcs o) (ch_uncompressed_crc h) (crc32 (frames es))
      then Some (BadChunkCrc (ch_uncompressed_crc h) (crc32 (frames es))) else None
  end.
(** What comes of parts with [rs] after them. *)
Fixpoint parts_expected (ps : list part) (rs : list (Z * bytes)) : list (Z * bytes) * McapResult () :=
  match ps with
  | [] => (rs, Ok ())
  | i :: ps =>
      match part_error i with
      | Some e => (part_records i, Err e)
      | None => let '(rs, out) := parts_expected ps rs in (part_records i ++ rs, out)
      end
  end.

Lemma chunk_crc_error_eval crc b : chunk_crc_error crc (hash_opt (chunk_hasher crc) b) =
  if bad_crc (validate_chunk_crcs o) crc (crc32 b) then Some (BadChunkCrc crc (crc32 b)) else None.
Proof.
  unfold chunk_hasher, bad_crc, chunk_crc_error. destruct (validate_chunk_crcs o); [|done]. cbn.
  destruct (Z.eqb_spec crc 0) as [->|Hne]; [done|]. cbn.
  change (hasher_finalize (hasher_update hasher_new b)) with (crc32 b). rewrite (Z.eqb_sym crc). by destruct (crc32 b =? crc)%Z eqn:?.
Qed.

Lemma chunk_records_deliver h es0 z padding rest es hh s c rs out : 
  forallb (λ r, c_wf u8 r.1 && body_fits o r.2) es = true → in_chunk h es0 z padding rest (frames es) hh s c →
  (∀ s' c', in_chunk h es0 z padding rest [] (hash_opt hh (frames es)) s' c' → delivers rs out s' c') → delivers (es ++ rs) out s c.
Proof.
  revert hh s c. induction es as [|[op b] es IH]; intros hh s c Hes Hs HQ.
  - cbn [app]. apply HQ. destruct hh; cbn; by rewrite ?hasher_update_nil.
  - cbn [forallb] in Hes. rewrite !andb_true_iff in Hes. destruct Hes as [[Hop Hb] Hes]. rewrite frames_cons in Hs.
    cbn [app delivers]. eapply (chunk_record h es0 z padding rest); [exact Hs|done..|]. intros s' c' Hs'. split; [done|].
    eapply IH; [done|exact Hs'|]. intros s2 c2 Hs2. apply HQ. by rewrite frames_cons, <-hash_opt_app.
Qed.

Lemma parts_deliver ps u rs s c : emit_chunks o = false → prevalidate_chunk_crcs o = false → Forall part_ok ps →
  client_at FileRecord (frames (part_record <$> ps) ++ u) s c →
  (∀ s' c', client_at FileRecord u s' c' → delivers rs (Ok ()) s' c') →
  delivers (parts_expected ps rs).1 (parts_expected ps rs).2 s c.
Proof.
  intros Hem Hpre. revert s c. induction ps as [|i ps IH]; intros s c Hok Hs HQ; [by apply HQ|].
  apply Forall_cons in Hok as [Hi Hok]. cbn [fmap list_fmap] in Hs. cbn [parts_expected].
  destruct i as [r|h es z padding]; cbn [part_record part_records part_error] in *.
  - destruct Hi as [Hor Hne]. destruct (parts_expected ps rs) as [rs' out'] eqn:Hex. cbn [fst snd] in *.
    eapply (ordinary_delivers [r]); [|cbn [forallb]; rewrite Hor, Hem; by rewrite (proj2 (Z.eqb_neq _ _))|].
    { destruct r as [op b]. rewrite frames_cons in Hs. rewrite frames_one. rewrite <-app_assoc in Hs. exact Hs. }
    intros s' c' Hs'. by apply IH.
  - destruct Hi as (Hwf & Hcs & Hus & Hfit & Hst & Hes). rewrite frames_cons, <-app_assoc in Hs.
    pose proof (λ Q s' c', chunk_end h es z padding (frames (part_record <$> ps) ++ u) Hfit Q (hash_opt (chunk_hasher (ch_uncompressed_crc h)) (frames es)) s' c') as Hend.
    rewrite chunk_crc_error_eval in Hend.
    assert (∀ rs out, (∀ s' c', in_chunk h es z padding (frames (part_record <$> ps) ++ u) [] (hash_opt (chunk_hasher (ch_uncompressed_crc h)) (frames es)) s' c' →
      delivers rs out s' c') → delivers (es ++ rs) out s c) as Hstart.
    { intros rs' out' Hk. rewrite <-delivers_will. eapply (chunk_start h es z padding _ Hwf Hcs Hus Hfit Hem Hpre Hst); [exact Hs|].
      intros s' c' Hs'. rewrite delivers_will. by eapply chunk_records_deliver. }
    destruct (bad_crc _ _ _).
    + cbn [fst snd]. rewrite <-(app_nil_r es) at 1. apply Hstart. intros s' c' Hs'. rewrite <-delivers_will. eapply Hend; [exact Hs'|]. intros. done.
    + destruct (parts_expected ps rs) as [rs' out'] eqn:Hex. cbn [fst snd] in *. apply Hstart. intros s' c' Hs'.
      rewrite <-delivers_will. eapply Hend; [exact Hs'|]. intros s2 c2 Hs2. rewrite delivers_will. by apply IH.
Qed.

(** The options of the readers of messages: chunks are looked into, their checksums may
    be validated as the records come, and those of the sections are not. *)
Record flat_options : Prop := {
  fo_emit : emit_chunks o = false;
  fo_prevalidate : prevalidate_chunk_crcs o = false;
  fo_start : skip_start_magic o = false;
  fo_finishes : check_finishes_after_end_magic o = false;
  fo_data : validate_data_section_crc o = false;
  fo_summary : validate_summary_section_crc o = false;
}.
Record flat_ok (ps : list part) (f : mcap_file) : Prop := {
  fk_records : file_records f = part_record <$> ps;
  fk_parts : Forall part_ok ps;
  fk_summary : forallb (λ r, ordinary o r && negb (r.1 =? op.CHUNK)%Z) (file_summary f) = true;
  fk_data_end : c_wf DataEnd_codec (file_data_end f) = true;
  fk_data_end_fits : body_fits o (data_end_rec f).2 = true;
  fk_footer : c_wf Footer_codec (file_footer f) = true;
  fk_footer_fits : body_fits o (footer_rec f).2 = true;
}.
Definition flat_expected (ps : list part) (f : mcap_file) : list (Z * bytes) * McapResult () :=
  parts_expected ps (data_end_rec f :: file_summary f ++ [footer_rec f]).

Lemma new_client_at u : flat_options → client_at StartMagic u (LinearReader_new o) u.
Proof.
  intros [Hem Hpre Hst Hfin Hd Hs]. split; try done; [apply LinearReader_new_inv|cbn; by rewrite Hst|cbn; by rewrite Hd].
Qed.

Lemma flat_delivers ps f : flat_options → flat_ok ps f →
  delivers (flat_expected ps f).1 (flat_expected ps f).2 (LinearReader_new o) (file_bytes f).
Proof.
  intros Hop [Hrec Hits Hsum Hde Hdf Hft Hff]. pose proof Hop as [Hem Hpre Hst Hfin Hd Hs].
  assert (file_bytes f = MAGIC ++ frames (file_records f) ++ frames [data_end_rec f] ++ frames (file_summary f) ++ frames [footer_rec f] ++ MAGIC) as Hb
    by (unfold file_bytes, data_section; by rewrite <-app_assoc).
  pose proof (new_client_at (file_bytes f) Hop) as Hnew. rewrite Hb in Hnew at 1.
  rewrite <-delivers_will. eapply will_start; [exact Hnew|done|]. clear Hnew. intros s c Hc. rewrite delivers_will. rewrite Hrec in Hc.
  eapply parts_deliver; [done..|exact Hc|]. clear s c Hc. intros s c Hc. unfold data_end_rec in Hc. rewrite frames_one in Hc.
  cbn [delivers]. eapply will_data_end; [exact Hc|done..|]. clear s c Hc. intros s c Hc. split; [done|].
  eapply ordinary_delivers; [exact Hc| |].
  { rewrite Hem. exact Hsum. }
  clear s c Hc. intros s c Hc. unfold footer_rec in Hc. rewrite frames_one in Hc. cbn [delivers].
  eapply will_footer; [exact Hc|done..|]. clear s c Hc. intros s c Hc. split; [done|]. by eapply will_end.
Qed.
End flat.

Section properties.
Context `{Crc, !CrcLaws, ZstdLib, Lz4Lib, !ZstdLibOk, !Lz4LibOk, !Frames}.

(** C23: a reader that looks into chunks gives, to any client, the records of the file one
    by one and in order, those of a chunk in its place, whether they are stored as they
    are or compressed in a format whose decoder keeps its contract; then the end of the
    data section, the summary and the footer, and the end.  With the validation of
    chunks on, the records of the first chunk whose checksum is wrong come, and then the
    error, with the checksum over those records. *)
Theorem linear_reader_flat o ps f rs out : flat_options o → flat_ok o ps f →
  client_run (LinearReader_new o) (file_bytes f) rs out → (rs, out) = flat_expected o ps f.
Proof.
  intros Ho Hf Hr. destruct (delivers_client_run _ _ _ _ _ _ (flat_delivers o ps f Ho Hf) Hr) as [-> ->]. by destruct flat_expected.
Qed.
End properties.

(** ** Examples *)

Module LinearReaderFlatExamples.
Import BitCrc MarkLib.

Definition opts : LinearReaderOptions := with_validate_chunk_crcs true LinearReaderOptions_default.
Definition events : list (Z * bytes) := [(op.SCHEMA, lit "one"); (128%Z, lit "two")].
Definition chunk (name : rstring) (crc : Z) (z : bytes) : part :=
  Chunked (mkChunkHeader 0 0 (zlen (frames events)) crc name (zlen z)) events z (lit "pad").
(** A plain chunk, two that are compressed, the second with a wrong checksum, and a
    record that does not come. *)
Definition parts : list part :=
  [chunk [] (crc32 (frames events)) (frames events); One (129%Z, lit "between");
   chunk (lit "zstd") 0 (mark_frame (frames events)); chunk (lit "lz4") 7 (mark_frame (frames events)); One (129%Z, [])].
Definition file : mcap_file := mkFile (part_record <$> parts) (mkDataEnd 0) [] (mkFooter 0 0 0).
Definition ends : McapResult () := Err (BadChunkCrc 7 (crc32 (frames events))).

Lemma file_is_flat : flat_ok opts parts file.
Proof.
  split; [reflexivity| |vm_compute; reflexivity..].
  assert (∀ name crc z, (let c := chunk name crc z in c_wf ChunkHeader_codec (mkChunkHeader 0 0 (zlen (frames events)) crc name (zlen z)) &&
    body_fits opts (part_record c).2) = true → stored_as name (frames events) z → part_ok opts (chunk name crc z)) as Hchunk.
  { intros name crc z [Hw Hfit]%andb_true_iff Hs. split_and!; try done. }
  repeat apply Forall_cons_2; [..|constructor].
  - apply Hchunk; [vm_compute; reflexivity|]. left. split; reflexivity.
  - split; [vm_compute; reflexivity|]. intros E. discriminate E.
  - apply Hchunk; [vm_compute; reflexivity|]. right. split; [discriminate|]. left. split; reflexivity.
  - apply Hchunk; [vm_compute; reflexivity|]. right. split; [discriminate|]. right. split; [reflexivity|]. split; [reflexivity|]. vm_compute. discriminate.
  - split; [vm_compute; reflexivity|]. intros E. discriminate E.
Qed.
Lemma linear_reader_flat_witness : flat_ok opts parts file ∧
  (events ++ [(129%Z, lit "between")] ++ events ++ events, ends) = flat_expected opts parts file.
Proof.
  split; [exact file_is_flat|]. apply (linear_reader_flat opts parts file); [split; reflexivity|exact file_is_flat|].
  apply (feed_pieces_run 3 1000); [lia|]. vm_compute. reflexivity.
Defined.
End LinearReaderFlatExamples.
