(* ===== verification/Tokio.v ===== *)
(** The asynchronous adapter of the linear reader (tokio/linear_reader.rs): it reads for the
    reader from a source, a read of which is awaited, and copies records to a buffer of
    its caller.

    Between two awaits nothing else touches the adapter, which a call borrows as its own,
    so that a call is a sequence of reads of the source.  Reading a file that is well
    formed from a source that works, in whatever pieces it gives its bytes, the adapter
    gives the records of the file. *)

From S2P Require Import Prelude Utf8 BTree Errors Bin Records Crc Io Codec RwBuf Decompressor LinearReader LinearReaderTheory LinearReaderClient LinearReaderFile Channels Read ReadTheory Conversation Streaming LinearReaderFlat.

(** ** The adapter *)

Section tokio.
Context `{Crc, ZstdLib, Lz4Lib} {R : Type} `{Io.Read R}.

Record TokioReader := mkTokioReader {
  tk_source : R;
  tk_reader : LinearReader;
}.

Definition TokioReader_new_with_options (source : R) (options : LinearReaderOptions) : TokioReader :=
  mkTokioReader source (LinearReader_new options).
Definition TokioReader_new (reader : R) : TokioReader := TokioReader_new_with_options reader LinearReaderOptions_default.
Definition into_inner (t : TokioReader) : McapResult R := Ok (tk_source t).

(** A call has the adapter and the [data] of its caller. *)
Definition call : Type → Type := method (TokioReader * bytes) McapError.

Definition on_reader {A} (m : method LinearReader McapError A) : call A := λ '(t, data),
  let '(o, reader) := m (tk_reader t) in (o, (mkTokioReader (tk_source t) reader, data)).
Definition change_reader (f : LinearReader → McapResult LinearReader) : call () := on_reader (λ r,
  match f r with Ok r' => (Ok (), r') | Err e => (Err e, r) | Panic => (Panic, r) | Fuel => (Fuel, r) end).
Definition on_source {A} (m : method R io_error A) : call A := λ '(t, data),
  let '(o, source) := m (tk_source t) in (map_err Io o, (mkTokioReader source (tk_reader t), data)).
Definition set_data (content : bytes) : call () := λ '(t, _), (Ok (), (t, content)).

(** [next_record], with the opcode of the record or none at the end *)
Fixpoint next_record (fuel : nat) : call (option Z) :=
  event ← on_reader next_event;
  match event with
  | Some (ReadRequest n) =>
      _ ← change_reader (insert n);
      buf ← on_source (read n);
      _ ← change_reader (λ r, notify_read (zlen buf) (set_file_data (fill buf (file_data r)) r));
      match fuel with 0 => lift Fuel | S fuel => next_record fuel end
  | Some (EvRecord opcode content) => _ ← set_data content; mret (Some opcode)
  | None => mret None
  end.

(** The loop that its documentation shows, over the records that it gets. *)
Fixpoint read_records (fuel : nat) (n : nat) (t : TokioReader) (record_buf : bytes) : list (Z * bytes) * McapResult () :=
  match n with
  | 0 => ([], Fuel)
  | S n =>
      match next_record fuel (t, record_buf) with
      | (Ok (Some opcode), (t, record_buf)) => let '(rs, o) := read_records fuel n t record_buf in ((opcode, record_buf) :: rs, o)
      | (Ok None, _) => ([], Ok ())
      | (Err e, _) => ([], Err e)
      | (Panic, _) => ([], Panic)
      | (Fuel, _) => ([], Fuel)
      end
  end.
End tokio.
Arguments TokioReader {_ _ _} _.

(** ** What it gives *)

Section theory.
Context `{Crc, ZstdLib, Lz4Lib, !ZstdLibOk, !Lz4LibOk} `{ReadOk R rep}.
(** No more is asked for than there is. *)
#[local] Instance asks_strictly : Strict := true.

(** The source has [c] left, and with what is buffered that is no more than memory. *)
Record served (t : TokioReader R) (c : bytes) : Prop := {
  sv_source : rep (tk_source t) c;
  sv_inv : lr_inv (tk_reader t);
  sv_size : (rb_end (file_data (tk_reader t)) + zlen c ≤ usize_max)%Z;
}.

(** An answer of the reader, as the caller gets it. *)
Definition answer (o : McapResult (option (Z * bytes))) (data : bytes) : McapResult (option Z) * bytes :=
  match o with
  | Ok (Some (opcode, content)) => (Ok (Some opcode), content)
  | Ok None => (Ok None, data)
  | Err e => (Err e, data)
  | Panic => (Panic, data)
  | Fuel => (Fuel, data)
  end.

Lemma next_record_will Q fuel t data c : will Q (tk_reader t) c → served t c → length c ≤ fuel →
  ∃ o t' c', next_record fuel (t, data) = ((answer o data).1, (t', (answer o data).2)) ∧ Q o (tk_reader t') c' ∧
    (o ≠ Panic → served t' c' ∧ length c' ≤ length c).
Proof.
  intros Hw. remember (tk_reader t) as s eqn:Hs. revert fuel t Hs.
  induction Hw as [s c r s1 E Hr HQ|s c e s1 E HQ|s c s1 E HQ|s c n s1 E Hstr _ IH]; intros fuel t -> [Hsrc Hi Hsz] Hf;
    pose proof (next_event_ok _ Hi) as Hn; pose proof (next_event_end (tk_reader t)) as Hend; rewrite E in Hn, Hend; cbn in Hn, Hend.
  - exists (Ok (record_event r)), (mkTokioReader (tk_source t) s1), c. split_and!; [|done|].
    + destruct fuel; cbn [next_record]; unfold mbind at 1, method_bind at 1, on_reader at 1; rewrite E; by destruct r as [[]|].
    + intros _. split; [|done]. split; cbn; [done|by destruct Hn|by rewrite Hend].
  - exists (Err e), (mkTokioReader (tk_source t) s1), c. split_and!; [|done|].
    + destruct fuel; cbn [next_record]; unfold mbind at 1, method_bind at 1, on_reader at 1; by rewrite E.
    + intros _. split; [|done]. split; cbn; [done|by destruct Hn|by rewrite Hend].
  - exists Panic, (mkTokioReader (tk_source t) s1), c. split_and!; [|done|done].
    destruct fuel; cbn [next_record]; unfold mbind at 1, method_bind at 1, on_reader at 1; by rewrite E.
  - destruct Hn as (Hi1 & _ & _ & Hneed). specialize (Hneed _ eq_refl). specialize (Hstr eq_refl).
    destruct (read_ok (tk_source t) c n Hsrc Hneed) as (d & c' & src & Er & -> & Hd & Hnil & Hsrc').
    rewrite zlen_app in *. pose proof (zlen_nonneg c').
    destruct (feed_ok n d s1 Hi1 Hd ltac:(lia)) as (b & r' & Ei & _ & En & Ef & Hi' & _ & _ & Hend').
    assert (d ≠ []) as Hne by (intros ->; rewrite (Hnil eq_refl), zlen_nil in *; lia).
    assert (length c' < length (d ++ c')) as Hlt by (rewrite length_app; destruct d; [done|cbn; lia]).
    destruct fuel as [|fuel]; [lia|].
    destruct (IH n d c' r' eq_refl ltac:(done) Hd Ef fuel (mkTokioReader src r') eq_refl) as (o & t' & c2 & E2 & HQ & Hok);
      [split; cbn; [done..|lia]|lia|].
    exists o, t', c2. split_and!; [|done|intros Ho; destruct (Hok Ho); split; [done|lia]].
    rewrite <-E2. cbn [next_record]. unfold mbind at 1, method_bind at 1, on_reader at 1. rewrite E.
    unfold mbind at 1, method_bind at 1, change_reader at 1, on_reader at 1. cbn [tk_reader tk_source]. rewrite Ei.
    unfold mbind at 1, method_bind at 1, on_source at 1. cbn [tk_reader tk_source]. rewrite Er. cbn [map_err].
    unfold mbind at 1, method_bind at 1, change_reader at 1, on_reader at 1. cbn [tk_reader tk_source].
    change (file_data (set_file_data b s1)) with b. by rewrite En.
Qed.

Lemma read_records_delivers rs out fuel n t data c : delivers rs out (tk_reader t) c → served t c → length c ≤ fuel → length rs < n →
  read_records fuel n t data = (rs, out).
Proof.
  revert n t data c. induction rs as [|[op b] rs IH]; intros [|n] t data c Hd Hs Hf Hn; cbn [length] in Hn; try lia; cbn [delivers] in Hd;
    destruct (next_record_will _ fuel t data c Hd Hs Hf) as (o & t' & c' & E & HQ & Hok); cbn [read_records]; rewrite E.
  - subst o. by destruct out as [[]|e| |].
  - destruct HQ as [-> HQ]. cbn. destruct (Hok ltac:(done)) as [Hs' Hl]. by rewrite (IH n t' b c') by (done || lia).
Qed.

(** An error of the source is an error of the call, which leaves the caller's data. *)
Lemma source_error fuel t data n s1 b e src : next_event (tk_reader t) = (Ok (Some (ReadRequest n)), s1) → insert n s1 = Ok b →
  read n (tk_source t) = (Err e, src) → next_record fuel (t, data) = (Err (Io e), (mkTokioReader src b, data)).
Proof.
  intros E Ei Er. destruct fuel; cbn [next_record]; unfold mbind at 1, method_bind at 1, on_reader at 1; rewrite E;
    unfold mbind at 1, method_bind at 1, change_reader at 1, on_reader at 1; cbn [tk_reader tk_source]; rewrite Ei;
    unfold mbind at 1, method_bind at 1, on_source at 1; cbn [tk_reader tk_source]; by rewrite Er.
Qed.
End theory.

Section properties.
Context `{Crc, !CrcLaws, ZstdLib, Lz4Lib, !ZstdLibOk, !Lz4LibOk, !Frames} `{ReadOk R rep}.

(** C24: the asynchronous reader, on a source that works, gives what the linear reader gives to
    any client: of a file that is well formed, in whatever pieces its bytes come, the
    records one by one and in order, those of chunks in their place, each copied whole
    over what the caller's buffer held before, and then the end or the error for a
    wrong checksum.  Every call ends after no more reads than the source has bytes. *)
Theorem async_reader_reads o ps f source data n : flat_options o → flat_ok o ps f → rep source (file_bytes f) → (zlen (file_bytes f) ≤ usize_max)%Z →
  length (flat_expected o ps f).1 < n →
  read_records (length (file_bytes f)) n (TokioReader_new_with_options source o) data = flat_expected o ps f.
Proof.
  intros Ho Hf Hs Hsz Hn. rewrite (surjective_pairing (flat_expected o ps f)).
  apply (read_records_delivers (rep := rep) _ _ _ _ _ _ (file_bytes f)); [|split; [done|apply LinearReader_new_inv|]|done|done].
  - by apply (flat_delivers o ps f).
  - exact Hsz.
Qed.
End properties.

(** ** Examples *)

Module TokioExamples.
Import BitCrc MarkLib LinearReaderFlatExamples.

(** The file with plain and compressed chunks, from a cursor. *)
Lemma async_reader_reads_witness : flat_ok opts parts file ∧
  read_records (length (file_bytes file)) 20 (TokioReader_new_with_options (VecCursor_new (file_bytes file)) opts) (lit "old") = flat_expected opts parts file.
Proof.
  split; [exact file_is_flat|].
  apply (async_reader_reads (rep := cursor_rest) opts parts); [split; reflexivity|exact file_is_flat|apply cursor_new_rest|vm_compute; discriminate|].
  vm_compute. lia.
Defined.

(** The first call asks for a magic; the source's error is passed on. *)
#[local] Instance broken_Read : Io.Read () := λ _ u, (Err (OtherIo 5), u).
Example broken_source : (next_record 5 (TokioReader_new (), lit "old")).1 = Err (Io (OtherIo 5)).
Proof. reflexivity. Qed.
End TokioExamples.
