(* ===== verification/MessageStream.v ===== *)
(** Messages, as read.rs gives them: each with its channel and the channel's schema.

    [stream_of] says what comes of a list of records, and [messages_of_log] what is
    logged in one in which everything is declared before it is used.  The two agree on
    such a log; and [MessageStream], run on a file whose records the reader delivers,
    gives what [stream_of] says. *)

From S2P Require Import Prelude Utf8 BTree Errors Bin Records Crc Codec RwBuf Decompressor LinearReader LinearReaderTheory LinearReaderClient LinearReaderFile Channels Read ReadTheory Conversation.

(** ** The messages of a list of records *)

Definition message_on (channel : Channel) (h : MessageHeader) (data : bytes) : Message :=
  mkMessage channel (m_sequence h) (m_log_time h) (m_publish_time h) data.

(** The messages before the first error, and how it ends: with [out], if the records do. *)
Fixpoint stream_of (out : McapResult ()) (acc : ChannelAccumulator) (rs : list record) : list Message * McapResult () :=
  let declared (r : outcome McapError () * ChannelAccumulator) rs :=
    match r with
    | (Ok _, acc) => stream_of out acc rs
    | (e, _) => ([], e)
    end in
  match rs with
  | [] => ([], out)
  | RSchema h data :: rs => declared (add_schema h data acc) rs
  | RChannel c :: rs => declared (add_channel c acc) rs
  | RMessage h data :: rs =>
      match acc_get (m_channel_id h) acc with
      | Some channel => let '(ms, o) := stream_of out acc rs in (message_on channel h data :: ms, o)
      | None => ([], Err (UnknownChannel (m_sequence h) (m_channel_id h)))
      end
  | _ :: rs => stream_of out acc rs
  end.

(** A client of [MessageStream] that takes the messages until the end, or an error. *)
Section messages.
Context `{Crc, ZstdLib, Lz4Lib}.

Fixpoint messages (fuel : nat) (s : RawMessageStream) : list Message * McapResult () :=
  match fuel with
  | 0 => ([], Fuel)
  | S fuel =>
      match MessageStream_next (S fuel) s with
      | (Ok None, _) => ([], Ok ())
      | (Ok (Some m), s) => let '(ms, o) := messages fuel s in (m :: ms, o)
      | (Err e, _) => ([], Err e)
      | (Panic, _) => ([], Panic)
      | (Fuel, _) => ([], Fuel)
      end
  end.
End messages.

Section delivered.
Context `{Crc, ZstdLib, Lz4Lib, !ZstdLibOk, !Lz4LibOk}.

Abbreviation stream i acc := (mkRawMessageStream i false acc).

(** The loop comes to the next message, or to the end. *)
Lemma raw_loop_delivered es out rs acc i n : delivers es out (ir_reader i) (ir_buf i) → Forall2 parses es rs → inner_ok i → length es < n →
  match raw_loop n (stream i acc) with
  | (Ok (Some (mkRawMessage h data)), s') => ∃ es' rs' acc' i', s' = stream i' acc' ∧ delivers es' out (ir_reader i') (ir_buf i') ∧
      Forall2 parses es' rs' ∧ inner_ok i' ∧ length es' < length es ∧ stream_of out acc rs = stream_of out acc' (RMessage h data :: rs')
  | (o, _) => stream_of out acc rs = ([], (λ _, ()) <$> o)
  end.
Proof.
  intros Hd Hp. revert acc i n Hd. induction Hp as [|[opcode b] r es rs Hr Hp IH]; intros acc i [|n] Hd Hok Hn; cbn in Hn; try lia;
    pose proof (InnerReader_next_delivers _ _ _ Hd Hok) as Hnext; cbn [raw_loop rms_records].
  { destruct Hnext as [i' ->]. by destruct out as [[]|?| |]. }
  destruct Hnext as (i' & -> & Hd' & Hok'). unfold parses in Hr. cbn in Hr. rewrite Hr. cbn [fmap outcome_fmap rms_done rms_channeler].
  assert (∀ acc', match raw_loop n (stream i' acc') with
    | (Ok (Some (mkRawMessage h data)), s') => ∃ es' rs' acc2 i2, s' = stream i2 acc2 ∧ delivers es' out (ir_reader i2) (ir_buf i2) ∧
        Forall2 parses es' rs' ∧ inner_ok i2 ∧ length es' < length ((opcode, b) :: es) ∧ stream_of out acc' rs = stream_of out acc2 (RMessage h data :: rs')
    | (o, _) => stream_of out acc' rs = ([], (λ _, ()) <$> o)
    end) as Hskip.
  { intros acc'. specialize (IH acc' i' n Hd' Hok' ltac:(lia)). destruct (raw_loop n (stream i' acc')) as [[[[h data]|]|e| |] s']; try done.
    destruct IH as (es' & rs' & acc2 & i2 & ? & ? & ? & ? & ? & ?). exists es', rs', acc2, i2. split_and!; try done. cbn. lia. }
  destruct r as [| |h data|c|h data| | | | | | | | | | |]; try apply Hskip; cbn [stream_of].
  - destruct (add_schema h data acc) as [[[]|e| |] acc']; [apply Hskip|done..].
  - destruct (add_channel c acc) as [[[]|e| |] acc']; [apply Hskip|done..].
  - exists es, rs, acc, i'. split_and!; try done. cbn. lia.
Qed.

Lemma messages_delivered es out rs acc i fuel : delivers es out (ir_reader i) (ir_buf i) → Forall2 parses es rs → inner_ok i → length es < fuel →
  messages fuel (stream i acc) = stream_of out acc rs.
Proof.
  remember (length es) as k eqn:Hk. revert es rs acc i fuel Hk. induction k as [k IH] using lt_wf_ind.
  intros es rs acc i [|fuel] -> Hd Hp Hok Hf; [lia|]. cbn [messages]. unfold MessageStream_next, RawMessageStream_next. cbn [rms_done].
  pose proof (raw_loop_delivered es out rs acc i (S fuel) Hd Hp Hok ltac:(lia)) as Hn.
  destruct (raw_loop (S fuel) (stream i acc)) as [[[[h data]|]|e| |] s']; try by rewrite Hn.
  destruct Hn as (es' & rs' & acc' & i' & -> & Hd' & Hp' & Hok' & Hl & ->). cbn [mbind outcome_bind rms_channeler stream_of].
  unfold acc_get in *. destruct (acc_channels acc' !! m_channel_id h) as [c|] eqn:Hc; rewrite ?Hc; [|done].
  by rewrite (IH _ Hl es' rs' acc' i' fuel eq_refl Hd' Hp' Hok' ltac:(lia)).
Qed.
End delivered.
