(* ===== verification/Summary.v ===== *)
(** The summary of a file and what it is used for (struct [Summary] of read.rs and
    the functions that follow it): the messages of an indexed chunk, its message
    indexes, one message of it, and the attachments and metadata of the file.

    [Summary::read] is in SummaryReader.v. *)

From S2P Require Import Prelude Utf8 BTree Errors Bin Records Crc Codec RwBuf Decompressor LinearReader Channels Read.

(** [struct Summary] *)
Record Summary := mkSummary {
  stats : option Statistics;
  channels : gmap Z Channel;
  schemas : gmap Z Schema;
  chunk_indexes : list ChunkIndex;
  attachment_indexes : list AttachmentIndex;
  metadata_indexes : list MetadataIndex;
}.

Definition Summary_default : Summary := mkSummary None ∅ ∅ [] [] [].

(** [Hash] on a channel, derived from its fields. *)
#[export] Instance Schema_countable : Countable Schema.
Proof.
  refine (inj_countable' (λ s, (schema_id s, schema_name s, schema_encoding s, schema_data s))
    (λ '(i, n, e, d), mkSchema i n e d) _). by intros [].
Defined.
#[export] Instance Channel_countable : Countable Channel.
Proof.
  refine (inj_countable' (λ c, (channel_id c, channel_topic c, channel_schema c,
    channel_message_encoding c, channel_metadata c))
    (λ '(i, t, s, e, m), mkChannel i t s e m) _). by intros [].
Defined.

Section summary.
Context `{Crc, ZstdLib, Lz4Lib}.

(** The chunk an index points to: both functions that look into one start so. *)
Definition indexed_chunk (mcap : bytes) (index : ChunkIndex) : McapResult (ChunkHeader * bytes) :=
  end_ ← add_ u64_max (ci_chunk_start_offset index) (ci_chunk_length index);
  if (zlen mcap <? end_)%Z then mthrow BadIndex else
  start ← add_ usize_max (ci_chunk_start_offset index) 9;
  chunk_record_buf ← slice start end_ mcap;
  chunk ← parse_record op.CHUNK chunk_record_buf;
  match chunk with
  | RChunk header data => mret (header, data)
  | _ => mthrow BadIndex
  end.

(** A message, if the summary knows its channel. *)
Definition message_of (s : Summary) (header : MessageHeader) (data : bytes) : McapResult Message :=
  match channels s !! m_channel_id header with
  | Some c => mret (mkMessage c (m_sequence header) (m_log_time header) (m_publish_time header) data)
  | None => mthrow (UnknownChannel (m_sequence header) (m_channel_id header))
  end.

(** ** [stream_chunk] *)

(** The iterator it returns is its chunk reader with the filter below. *)
Definition stream_chunk (mcap : bytes) (index : ChunkIndex) : McapResult InnerReader :=
  '(h, d) ← indexed_chunk mcap index;
  ChunkReader_new h d.

(** [next] of the iterator; [fuel] bounds the records it filters out. *)
Fixpoint stream_next (fuel : nat) (s : Summary) : method InnerReader McapError (option Message) := λ i,
  match fuel with
  | 0 => (Fuel, i)
  | S fuel =>
      match InnerReader_next i with
      | (Ok (Some (RMessage header data)), i) => (Some <$> message_of s header data, i)
      | (Ok (Some _), i) => stream_next fuel s i
      | (Ok None, i) => (Ok None, i)
      | (Err e, i) => (Err e, i)
      | (Panic, i) => (Panic, i)
      | (Fuel, i) => (Fuel, i)
      end
  end.

(** ** [read_message_indexes] *)

Definition MIN_MESSAGE_INDEX_BYTES : Z := 1 + 8 + 2 + 4.

(** [mcap[offset..]], which panics past the end. *)
Definition slice_from (offset : Z) (mcap : bytes) : McapResult bytes := slice offset (zlen mcap) mcap.

(** [reader.next().ok_or(McapError::BadIndex)?], and the reader after it. *)
Definition next_or_bad_index (i : InnerReader) : McapResult (record * InnerReader) :=
  let '(o, i) := InnerReader_next i in
  r ← o;
  r ← ok_or BadIndex r;
  mret (r, i).

(** The body of its loop. *)
Definition read_message_index (s : Summary) (mcap : bytes) (channel_id offset : Z)
    (indexes : gmap Channel (list MessageIndexEntry)) : McapResult (gmap Channel (list MessageIndexEntry)) :=
  least ← add_ usize_max offset MIN_MESSAGE_INDEX_BYTES;
  if (zlen mcap <? least)%Z then mthrow BadIndex else
  rest ← slice_from offset mcap;
  '(r, _) ← next_or_bad_index (linear.sans_magic rest);
  match r with
  | RMessageIndex index =>
      if negb (channel_id =? mi_channel_id index)%Z then mthrow BadIndex else
      match channels s !! mi_channel_id index with
      | Some channel =>
          match indexes !! channel with
          | Some _ => mthrow (ConflictingChannels (channel_topic channel))
          | None => mret (<[channel := mi_records index]> indexes)
          end
      | None => mthrow (UnknownChannel 0 (mi_channel_id index))
      end
  | _ => mthrow BadIndex
  end.

Fixpoint read_message_indexes_from (s : Summary) (mcap : bytes) (offsets : list (Z * Z))
    (indexes : gmap Channel (list MessageIndexEntry)) : McapResult (gmap Channel (list MessageIndexEntry)) :=
  match offsets with
  | [] => mret indexes
  | (channel_id, offset) :: offsets =>
      indexes ← read_message_index s mcap channel_id offset indexes;
      read_message_indexes_from s mcap offsets indexes
  end.

Definition read_message_indexes (s : Summary) (mcap : bytes) (index : ChunkIndex)
    : McapResult (gmap Channel (list MessageIndexEntry)) :=
  if bool_decide (ci_message_index_offsets index = []) then mthrow BadIndex
  else read_message_indexes_from s mcap (ci_message_index_offsets index) ∅.

(** ** [seek_message] *)

(** Its loop; [fuel] bounds the events. *)
Fixpoint seek_loop (fuel : nat) (s : Summary) (message : MessageIndexEntry)
    (reader : LinearReader) (remaining : bytes) (uncompressed_offset : Z) : McapResult Message :=
  match fuel with
  | 0 => Fuel
  | S fuel =>
      let '(o, reader) := next_event reader in
      event ← o;
      match event with
      | Some (ReadRequest need) =>
          '(remaining, reader) ← serve need remaining reader;
          seek_loop fuel s message reader remaining uncompressed_offset
      | Some (EvRecord opcode data) =>
          if (uncompressed_offset <? mie_offset message)%Z then
            uncompressed_offset ← add_ usize_max uncompressed_offset (9 + zlen data);
            seek_loop fuel s message reader remaining uncompressed_offset
          else if negb (uncompressed_offset =? mie_offset message)%Z then mthrow BadIndex
          else
            r ← parse_record opcode data;
            match r with
            | RMessage header data => message_of s header data
            | _ => mthrow BadIndex
            end
      | None => mthrow BadIndex
      end
  end.

Definition seek_message (fuel : nat) (s : Summary) (mcap : bytes) (index : ChunkIndex)
    (message : MessageIndexEntry) : McapResult Message :=
  '(h, d) ← indexed_chunk mcap index;
  reader ← for_chunk h;
  seek_loop fuel s message reader d 0.

(** ** Attachments and metadata *)

(** The slice an index of a record points to. *)
Definition indexed_record (mcap : bytes) (offset length : Z) : McapResult bytes :=
  end_ ← add_ u64_max offset length;
  if (zlen mcap <? end_)%Z then mthrow BadIndex else slice offset end_ mcap.

(** [if reader.next().is_some() { return Err(BadIndex) }] *)
Definition no_more_records (i : InnerReader) : McapResult () :=
  match (InnerReader_next i).1 with
  | Ok None => mret ()
  | Ok (Some _) | Err _ => mthrow BadIndex
  | Panic => Panic
  | Fuel => Fuel
  end.

(** [attachment] *)
Definition attachment (mcap : bytes) (index : AttachmentIndex) : McapResult Attachment :=
  buf ← indexed_record mcap (ai_offset index) (ai_length index);
  '(r, reader) ← next_or_bad_index (linear.sans_magic buf);
  match r with
  | RAttachment h d _ =>
      _ ← no_more_records reader;
      mret (mkAttachment (ah_log_time h) (ah_create_time h) (ah_name h) (ah_media_type h) d)
  | _ => mthrow BadIndex
  end.

(** [metadata] *)
Definition metadata (mcap : bytes) (index : MetadataIndex) : McapResult Metadata :=
  buf ← indexed_record mcap (mx_offset index) (mx_length index);
  '(r, reader) ← next_or_bad_index (linear.sans_magic buf);
  match r with
  | RMetadata m => _ ← no_more_records reader; mret m
  | _ => mthrow BadIndex
  end.
End summary.
