(* ===== verification/IndexedRecords.v ===== *)
(** What an index points to: the reader of a single record gives that record and ends, so
    the attachment or the metadata at an index that tells the truth is read. *)

From S2P Require Import Prelude Utf8 BTree Errors Bin Records Crc Io Codec RwBuf Decompressor LinearReader LinearReaderTheory LinearReaderClient LinearReaderFile Channels Read ReadTheory Conversation Streaming LinearReaderFlat Summary.

Section records.
Context `{Crc, !CrcLaws, ZstdLib, Lz4Lib, !ZstdLibOk, !Lz4LibOk, !Frames}.

(** Where no end magic is asked for, the end of the input is an end. *)
Lemma will_nothing o Q s c : client_at o FileRecord [] s c → skip_end_magic o = true → (∀ s' c', Q (Ok None) s' c') → will Q s c.
Proof.
  intros Hs Ho HQ. pose proof (ca_inv _ _ _ _ _ Hs) as Hi. pose proof (ca_eof _ _ _ _ _ Hs) as He. pose proof (ca_reading _ _ _ _ _ Hs) as Hr.
  destruct (app_eq_nil _ _ (ca_input _ _ _ _ _ Hs)) as [Hu ->].
  assert (rb_len (file_data s) = 0%Z) as Hl by (rewrite <-(zlen_unread _ (li_file _ Hi)), Hu; done).
  assert (next_event s = (Ok (Some (ReadRequest OPCODE_LEN_SIZE)), s)) as E.
  { unfold next_event. rewrite He. assert (step s = (Ok (Return (Some (ReadRequest OPCODE_LEN_SIZE))), s)) as Es.
    { unfold step. rewrite Hr. unfold step_file_record, load, mbind, flow_bind, fget. rewrite Hl. done. }
    cbn [event_loop Nat.add]. by rewrite Es. }
  eapply will_feed; [exact E|done|]. intros m d c' s2 Hd _ Hm Hf. destruct (app_eq_nil d c' (eq_sym Hd)) as [-> ->].
  pose proof (feed_inv m [] s s2 Hi Hm Hf) as Hi2. destruct (feed_spec m [] s s2 Hi Hm Hf) as (b & -> & Wb & Ub & Hb).
  rewrite bool_decide_true, orb_true_r in Hi2 |- * by done. eapply (will_event _ _ _ None); [|done|apply HQ].
  unfold next_event. cbn [at_eof set_at_eof set_file_data]. unfold eof_ok. cbn [at_eof set_at_eof set_file_data options file_data decompressed_content chunk_state currently_reading].
  rewrite (ca_options _ _ _ _ _ Hs), Ho, (ca_empty _ _ _ _ _ Hs). rewrite <-(zlen_unread _ Wb), Ub, Hu.
  pose proof (li_reading _ Hi) as Hc. rewrite Hr in Hc. cbn in Hc. by rewrite Hc.
Qed.

(** The reader of the bytes of one record. *)
Lemma one_record r : file_record r = true → record_opcode r ≠ op.CHUNK → (zlen (record_frame r) ≤ usize_max)%Z →
  ∃ i, InnerReader_next (linear.sans_magic (record_frame r)) = (Ok (Some r), i) ∧ no_more_records i = Ok ().
Proof.
  intros Hr Hch Hsz. set (b := record_frame r) in *. set (o := with_skip_start_magic true (with_skip_end_magic true (with_record_length_limit (zlen b) LinearReaderOptions_default))).
  assert (delivers [event_of r] (Ok ()) (LinearReader_new o) b) as Hd.
  { assert (client_at o FileRecord (frames [event_of r] ++ []) (LinearReader_new o) b) as Hc.
    { rewrite app_nil_r. change (frames [event_of r]) with (record_frame r ++ []). rewrite app_nil_r. split; done || apply LinearReader_new_inv. }
    apply (ordinary_delivers o [event_of r] [] [] (Ok ()) _ _ Hc).
    - cbn [forallb event_of fst]. rewrite (proj2 (Z.eqb_neq _ _) Hch), orb_true_r, !andb_true_r. apply file_record_ordinary; [done|].
      assert (zlen b = 9 + zlen (record_body r))%Z as Hl by (unfold b, record_frame, frame; rewrite !zlen_app, !zlen_le_enc; lia). unfold body_fits, check_len, OPCODE_LEN_SIZE. zlen_facts. rewrite !(proj2 (Z.leb_le _ _)) by lia. cbn [andb].
      apply bool_decide_true. cbn. rewrite (proj2 (Z.ltb_ge _ _)) by lia. by eexists.
    - intros s' c' Hs'. cbn [delivers]. by eapply will_nothing. }
  assert (inner_ok (linear.sans_magic b)) as Hok by (split; [apply LinearReader_new_inv|cbn; lia]).
  destruct (InnerReader_next_delivers [event_of r] (Ok ()) (linear.sans_magic b) Hd Hok) as (i & Hn & Hd' & Hok').
  exists i. split.
  - rewrite Hn. unfold file_record in Hr. apply andb_true_iff in Hr as [Hw _]. by rewrite (parse_record_body r Hw).
  - destruct (InnerReader_next_delivers [] (Ok ()) i Hd' Hok') as (i' & Hn').
    unfold no_more_records. by rewrite Hn'.
Qed.

(** ** At an index *)

Section at_index.
Context (pre post : bytes) (r : record) (Hr : file_record r = true) (Hch : record_opcode r ≠ op.CHUNK).
Abbreviation mcap := (pre ++ record_frame r ++ post).
Context (Hsz : (zlen mcap ≤ usize_max)%Z).

Lemma indexed_record_at : indexed_record mcap (zlen pre) (zlen (record_frame r)) = Ok (record_frame r).
Proof.
  rewrite !zlen_app in Hsz. zlen_facts. unfold indexed_record. rewrite add_Ok by (unfold usize_max in Hsz; lia). cbn [mbind outcome_bind].
  rewrite (proj2 (Z.ltb_ge _ _)) by (rewrite !zlen_app; lia). rewrite slice_Ok by (rewrite ?zlen_app; lia).
  rewrite Z.add_simpl_l, zdrop_app, ztake_app by done. done.
Qed.
Lemma record_short : (zlen (record_frame r) ≤ usize_max)%Z.
Proof. rewrite !zlen_app in Hsz. zlen_facts. lia. Qed.

(** An attachment, by an index of it. *)
Lemma attachment_at h d crc index : r = RAttachment h d crc → ai_offset index = zlen pre → ai_length index = zlen (record_frame r) →
  attachment mcap index = Ok (mkAttachment (ah_log_time h) (ah_create_time h) (ah_name h) (ah_media_type h) d).
Proof.
  intros E Ho Hl. unfold attachment. rewrite Ho, Hl, indexed_record_at. cbn [mbind outcome_bind].
  destruct (one_record r Hr Hch record_short) as (i & Hi & Hn). unfold next_or_bad_index. rewrite Hi. cbn. rewrite Hn. by rewrite E.
Qed.
Lemma metadata_at_index m index : r = RMetadata m → mx_offset index = zlen pre → mx_length index = zlen (record_frame r) →
  metadata mcap index = Ok m.
Proof.
  intros E Ho Hl. unfold metadata. rewrite Ho, Hl, indexed_record_at. cbn [mbind outcome_bind].
  destruct (one_record r Hr Hch record_short) as (i & Hi & Hn). unfold next_or_bad_index. rewrite Hi. cbn. rewrite E. cbn. by rewrite Hn.
Qed.
End at_index.
End records.
