(* ===== verification/SummaryReader.v ===== *)
(** The sans-io summary reader (sans_io/summary_reader.rs): it seeks to the footer,
    reads it, seeks to the summary section it points to, and reads that section with
    a linear reader into a [Summary]. *)

From S2P Require Import Prelude Utf8 BTree Errors Bin Records Crc Io Codec RwBuf Decompressor LinearReader Channels Read Summary.

Definition FOOTER_RECORD_AND_END_MAGIC : Z := 1 + 8 + 8 + 8 + 4 + 8.

(** [SummaryReadEvent] *)
Inductive SummaryReadEvent :=
| SumReadRequest (n : Z)
| SumSeekRequest (to : SeekFrom).

Record SummaryReaderOptions := mkSummaryReaderOptions {
  sro_file_size : option Z;
  sro_record_length_limit : option Z;
}.
Definition SummaryReaderOptions_default : SummaryReaderOptions := mkSummaryReaderOptions None None.
Definition sro_with_file_size (size : Z) (o : SummaryReaderOptions) : SummaryReaderOptions :=
  mkSummaryReaderOptions (Some size) (sro_record_length_limit o).
Definition sro_with_record_length_limit (limit : Z) (o : SummaryReaderOptions) : SummaryReaderOptions :=
  mkSummaryReaderOptions (sro_file_size o) (Some limit).

(** [compute_record_length_limit] *)
Definition compute_record_length_limit (pos : Z) (file_size record_length_limit : option Z) : option Z :=
  let remain := (λ size, Z.min (saturating_sub size pos) usize_max) <$> file_size in
  match remain, record_length_limit with
  | Some remain, Some limit => Some (Z.min remain limit)
  | Some remain, None => Some remain
  | None, Some limit => Some limit
  | None, None => None
  end.

Section summary_reader.
Context `{Crc, ZstdLib, Lz4Lib}.

(** [enum State] *)
Inductive State :=
| SeekingToFooter
| ReadingFooter (loaded_bytes : Z)
| SeekingToSummary (summary_start : Z)
| ReadingSummary (summary_start : Z) (reader : LinearReader) (channeler : ChannelAccumulator).

(** [struct SummaryReader] *)
Record SummaryReader := mkSummaryReader {
  sr_pos : Z;
  sr_footer_buf : bytes;
  sr_file_size : option Z;
  sr_state : State;
  sr_summary : Summary;
  sr_summary_present : bool;
  sr_at_eof : bool;
  sr_options : SummaryReaderOptions;
}.

(** [new_with_options], [new] *)
Definition SummaryReader_new (o : SummaryReaderOptions) : SummaryReader :=
  mkSummaryReader 0 [] (sro_file_size o) SeekingToFooter Summary_default false false o.
Definition SummaryReader_default : SummaryReader := SummaryReader_new SummaryReaderOptions_default.

(** Assignments to the fields. *)
Definition sr_set_state (st : State) (s : SummaryReader) : SummaryReader :=
  mkSummaryReader (sr_pos s) (sr_footer_buf s) (sr_file_size s) st (sr_summary s)
    (sr_summary_present s) (sr_at_eof s) (sr_options s).
Definition sr_set_summary (sum : Summary) (s : SummaryReader) : SummaryReader :=
  mkSummaryReader (sr_pos s) (sr_footer_buf s) (sr_file_size s) (sr_state s) sum
    (sr_summary_present s) (sr_at_eof s) (sr_options s).
Definition sr_set_footer_buf (buf : bytes) (s : SummaryReader) : SummaryReader :=
  mkSummaryReader (sr_pos s) buf (sr_file_size s) (sr_state s) (sr_summary s)
    (sr_summary_present s) (sr_at_eof s) (sr_options s).
Definition sr_set_present (b : bool) (s : SummaryReader) : SummaryReader :=
  mkSummaryReader (sr_pos s) (sr_footer_buf s) (sr_file_size s) (sr_state s) (sr_summary s)
    b (sr_at_eof s) (sr_options s).
Definition sr_set_at_eof (b : bool) (s : SummaryReader) : SummaryReader :=
  mkSummaryReader (sr_pos s) (sr_footer_buf s) (sr_file_size s) (sr_state s) (sr_summary s)
    (sr_summary_present s) b (sr_options s).
Definition sr_set_pos (p : Z) (s : SummaryReader) : SummaryReader :=
  mkSummaryReader p (sr_footer_buf s) (sr_file_size s) (sr_state s) (sr_summary s)
    (sr_summary_present s) (sr_at_eof s) (sr_options s).
Definition sr_set_file_size (n : option Z) (s : SummaryReader) : SummaryReader :=
  mkSummaryReader (sr_pos s) (sr_footer_buf s) n (sr_state s) (sr_summary s)
    (sr_summary_present s) (sr_at_eof s) (sr_options s).

(** ** The arms of [next_event_inner] *)

Abbreviation sflow := (flow SummaryReader (option SummaryReadEvent)).

Definition arm_seeking_to_footer : sflow () :=
  size ← fget sr_file_size;
  match size with
  | None => freturn (Some (SumSeekRequest (SeekEnd (- FOOTER_RECORD_AND_END_MAGIC))))
  | Some file_size =>
      if (file_size <? FOOTER_RECORD_AND_END_MAGIC + 8)%Z then fthrow UnexpectedEof else
      footer_start_pos ← check (sub_ file_size FOOTER_RECORD_AND_END_MAGIC);
      pos ← fget sr_pos;
      if (pos =? footer_start_pos)%Z then fset (sr_set_state (ReadingFooter 0))
      else freturn (Some (SumSeekRequest (SeekStart footer_start_pos)))
  end.

Definition arm_reading_footer (loaded_bytes : Z) : sflow () :=
  if (FOOTER_RECORD_AND_END_MAGIC <=? loaded_bytes)%Z then
    footer_buf ← fget sr_footer_buf;
    opcode ← check (slice 0 1 footer_buf);
    footer_body ← check (slice 9 (FOOTER_RECORD_AND_END_MAGIC - 8) footer_buf);
    end_magic ← check (slice (FOOTER_RECORD_AND_END_MAGIC - 8) loaded_bytes footer_buf);
    if negb (bool_decide (end_magic = MAGIC)) then fthrow BadMagic else
    if negb (le_dec opcode =? op.FOOTER)%Z then fthrow BadFooter else
    footer ← check (read_record Footer_codec footer_body);
    if (f_summary_start footer =? 0)%Z then freturn None else
    _ ← fset (sr_set_present true);
    fset (sr_set_state (SeekingToSummary (f_summary_start footer)))
  else
    eof ← fget sr_at_eof;
    if (eof : bool) then fthrow UnexpectedEof
    else freturn (Some (SumReadRequest (FOOTER_RECORD_AND_END_MAGIC - loaded_bytes))).

(** The options of the reader of the summary section. *)
Definition section_options (pos : Z) (file_size limit : option Z) : LinearReaderOptions :=
  let o := with_skip_start_magic true LinearReaderOptions_default in
  match compute_record_length_limit pos file_size limit with
  | Some limit => with_record_length_limit limit o
  | None => o
  end.

Definition arm_seeking_to_summary (summary_start : Z) : sflow () :=
  s ← fget id;
  if (sr_pos s =? summary_start)%Z then
    fset (sr_set_state (ReadingSummary summary_start
      (LinearReader_new (section_options (sr_pos s) (sr_file_size s)
         (sro_record_length_limit (sr_options s))))
      ChannelAccumulator_default))
  else freturn (Some (SumSeekRequest (SeekStart summary_start))).

(** What a record of the section adds. *)
Definition absorb (r : record) (sum : Summary) (acc : ChannelAccumulator)
    : McapResult () * (Summary * ChannelAccumulator) :=
  let add chunks attachments metadatas stats :=
    mkSummary stats (channels sum) (schemas sum) chunks attachments metadatas in
  let keep := add (chunk_indexes sum) (attachment_indexes sum) (metadata_indexes sum) (stats sum) in
  match r with
  | RAttachmentIndex i =>
      (Ok (), (add (chunk_indexes sum) (attachment_indexes sum ++ [i]) (metadata_indexes sum) (stats sum), acc))
  | RMetadataIndex i =>
      (Ok (), (add (chunk_indexes sum) (attachment_indexes sum) (metadata_indexes sum ++ [i]) (stats sum), acc))
  | RStatistics st =>
      (Ok (), (add (chunk_indexes sum) (attachment_indexes sum) (metadata_indexes sum) (Some st), acc))
  | RChannel chan => let '(o, acc) := add_channel chan acc in (o, (keep, acc))
  | RSchema header data => let '(o, acc) := add_schema header data acc in (o, (keep, acc))
  | RChunkIndex i =>
      (Ok (), (add (chunk_indexes sum ++ [i]) (attachment_indexes sum) (metadata_indexes sum) (stats sum), acc))
  | _ => (Ok (), (keep, acc))
  end.

(** [summary.schemas = channeler.schemas.clone()], and the channels. *)
Definition with_channels (acc : ChannelAccumulator) (sum : Summary) : Summary :=
  mkSummary (stats sum) (acc_channels acc) (acc_schemas acc) (chunk_indexes sum)
    (attachment_indexes sum) (metadata_indexes sum).

Definition arm_reading_summary (start : Z) (reader : LinearReader) (channeler : ChannelAccumulator) : sflow () :=
  let '(o, reader) := next_event reader in
  _ ← fset (sr_set_state (ReadingSummary start reader channeler));
  event ← check o;
  match event with
  | Some (EvRecord opcode data) =>
      r ← check (parse_record opcode data);
      sum ← fget sr_summary;
      let '(o, (sum, channeler)) := absorb r sum channeler in
      _ ← fset (sr_set_summary sum);
      _ ← fset (sr_set_state (ReadingSummary start reader channeler));
      _ ← check o;
      mret ()
  | Some (ReadRequest n) => freturn (Some (SumReadRequest n))
  | None =>
      _ ← fset (λ s, sr_set_summary (with_channels channeler (sr_summary s)) s);
      freturn None
  end.

(** One iteration of the loop. *)
Definition sr_step : sflow () := λ s,
  match sr_state s with
  | SeekingToFooter => arm_seeking_to_footer s
  | ReadingFooter loaded_bytes => arm_reading_footer loaded_bytes s
  | SeekingToSummary summary_start => arm_seeking_to_summary summary_start s
  | ReadingSummary start reader channeler => arm_reading_summary start reader channeler s
  end.

(** [next_event_inner]; [fuel] bounds the records read from what is buffered. *)
Fixpoint sr_next_event (fuel : nat) : method SummaryReader McapError (option SummaryReadEvent) := λ s,
  match fuel with
  | 0 => (Fuel, s)
  | S fuel =>
      match sr_step s with
      | (Ok (Return r), s) => (Ok r, s)
      | (Ok (Next _), s) => sr_next_event fuel s
      | (Err e, s) => (Err e, s)
      | (Panic, s) => (Panic, s)
      | (Fuel, s) => (Fuel, s)
      end
  end.

(** ** The answers to its requests *)

(** [notify_read] *)
Definition sr_notify_read (n : Z) (s : SummaryReader) : McapResult SummaryReader :=
  let s := sr_set_at_eof (n =? 0)%Z s in
  s ← match sr_state s with
      | ReadingFooter loaded_bytes =>
          least ← add_ usize_max loaded_bytes n;
          _ ← rassert (least <=? zlen (sr_footer_buf s))%Z;
          mret (sr_set_state (ReadingFooter least) s)
      | ReadingSummary start reader channeler =>
          reader ← notify_read n reader;
          mret (sr_set_state (ReadingSummary start reader channeler) s)
      | _ => mret s
      end;
  pos ← add_ u64_max (sr_pos s) n;
  mret (sr_set_pos pos s).

(** [notify_seeked] *)
Definition sr_notify_seeked (pos : Z) (s : SummaryReader) : McapResult SummaryReader :=
  let moved := negb (sr_pos s =? pos)%Z in
  let s := if sr_at_eof s && moved then sr_set_at_eof false s else s in
  s ← match sr_file_size s with
      | None =>
          size ← add_ u64_max pos FOOTER_RECORD_AND_END_MAGIC;
          mret (sr_set_file_size (Some size) s)
      | Some _ => mret s
      end;
  let s :=
    if moved then
      match sr_state s with
      | ReadingFooter _ => sr_set_state SeekingToFooter (sr_set_footer_buf [] s)
      | ReadingSummary start _ _ =>
          sr_set_summary Summary_default (sr_set_state (SeekingToSummary start) s)
      | _ => s
      end
    else s in
  mret (sr_set_pos pos s).

(** [insert]: the reader, and the length of the slice handed out, which is the end
    of the footer buffer or the unwritten part of the linear reader's. *)
Definition sr_insert (n : Z) (s : SummaryReader) : McapResult (Z * SummaryReader) :=
  match sr_state s with
  | ReadingFooter loaded_bytes =>
      size ← add_ usize_max loaded_bytes n;
      let buf := resize size (sr_footer_buf s) in
      mret ((zlen buf - loaded_bytes)%Z, sr_set_footer_buf buf s)
  | ReadingSummary start reader channeler =>
      reader ← insert n reader;
      mret (zlen (rb_unwritten (file_data reader)),
            sr_set_state (ReadingSummary start reader channeler) s)
  | _ => mret (n, sr_set_footer_buf (resize n (sr_footer_buf s)) s)
  end.

(** The caller writing [d] at the start of that slice. *)
Definition sr_fill (d : bytes) (s : SummaryReader) : SummaryReader :=
  match sr_state s with
  | ReadingFooter loaded_bytes =>
      let buf := sr_footer_buf s in
      sr_set_footer_buf (ztake loaded_bytes buf ++ d ++ zdrop (loaded_bytes + zlen d) buf) s
  | ReadingSummary start reader channeler =>
      sr_set_state (ReadingSummary start (set_file_data (fill d (file_data reader)) reader) channeler) s
  | _ => sr_set_footer_buf (d ++ zdrop (zlen d) (sr_footer_buf s)) s
  end.

(** [finish] *)
Definition sr_finish (s : SummaryReader) : option Summary :=
  if sr_summary_present s then Some (sr_summary s) else None.

(** ** [Summary::read] *)

(** [std::io::Cursor] over the file: a read copies what there is, up to the size of
    the slice, and a seek before the start is an error. *)
Definition cursor_seek (mcap : bytes) (to : SeekFrom) : McapResult Z :=
  let pos := match to with SeekStart p => p | SeekEnd d => zlen mcap + d end%Z in
  if (0 <=? pos)%Z then mret pos else mthrow (Io InvalidInputIo).

(** Its loop, with the position of the cursor. *)
Fixpoint summary_loop (fuel : nat) (mcap : bytes) (pos : Z) (s : SummaryReader) : McapResult (option Summary) :=
  match fuel with
  | 0 => Fuel
  | S fuel =>
      let '(o, s) := sr_next_event fuel s in
      event ← o;
      match event with
      | Some (SumReadRequest n) =>
          '(room, s) ← sr_insert n s;
          let d := ztake room (zdrop pos mcap) in
          s ← sr_notify_read (zlen d) (sr_fill d s);
          summary_loop fuel mcap (pos + zlen d) s
      | Some (SumSeekRequest to) =>
          pos ← cursor_seek mcap to;
          s ← sr_notify_seeked pos s;
          summary_loop fuel mcap pos s
      | None => mret (sr_finish s)
      end
  end.

Definition Summary_read (fuel : nat) (mcap : bytes) : McapResult (option Summary) :=
  summary_loop fuel mcap 0
    (SummaryReader_new (sro_with_file_size (zlen mcap) SummaryReaderOptions_default)).
End summary_reader.
