(* ===== verification/SummaryTheory.v ===== *)
(** What [Summary::read] makes of a file: the records of its summary section, gathered in
    order. *)

From S2P Require Import Prelude Utf8 BTree Errors Bin Records Crc Io Codec RwBuf Decompressor LinearReader LinearReaderTheory LinearReaderClient LinearReaderFile Channels Read ReadTheory Conversation Streaming LinearReaderFlat Summary SummaryReader.

(** ** Gathering records *)

Fixpoint absorb_all (rs : list record) (sum : Summary) (acc : ChannelAccumulator) : McapResult (Summary * ChannelAccumulator) :=
  match rs with
  | [] => mret (sum, acc)
  | r :: rs => let '(o, (sum, acc)) := absorb r sum acc in _ ← o; absorb_all rs sum acc
  end.
(** The summary that the records of a section are. *)
Definition summary_of_section (rs : list record) : McapResult Summary :=
  '(sum, acc) ← absorb_all rs Summary_default ChannelAccumulator_default;
  mret (with_channels acc sum).

Section section.
Context `{Crc, !CrcLaws, ZstdLib, Lz4Lib, !ZstdLibOk, !Lz4LibOk, !Frames}.

(** The reader of the section is only asked for what there is of the file. *)
#[local] Instance strictly : Strict := true.

(** ** The loop over the section *)

(** What [summary_loop] does after it called [sr_next_event]. *)
Definition served (fuel : nat) (mcap : bytes) (pos : Z) (fuel' : nat) (s : SummaryReader) : McapResult (option Summary) :=
  let '(o, s) := sr_next_event fuel' s in
  event ← o;
  match event with
  | Some (SumReadRequest n) =>
      '(room, s) ← sr_insert n s;
      let d := ztake room (zdrop pos mcap) in
      s ← sr_notify_read (zlen d) (sr_fill d s);
      summary_loop fuel mcap (pos + zlen d) s
  | Some (SumSeekRequest to) =>
      pos ← cursor_seek mcap to;
      s ← sr_notify_seeked pos s;
      summary_loop fuel mcap pos s
  | None => mret (sr_finish s)
  end.
Lemma summary_loop_S fuel mcap pos s : summary_loop (S fuel) mcap pos s = served fuel mcap pos fuel s.
Proof. done. Qed.

(** The section is being read by [reader], which is to come to the bytes [c]. *)
Record in_section (mcap : bytes) (pos start : Z) (reader : LinearReader) (acc : ChannelAccumulator) (sum : Summary) (c : bytes)
    (s : SummaryReader) : Prop := {
  sec_state : sr_state s = ReadingSummary start reader acc;
  sec_summary : sr_summary s = sum;
  sec_present : sr_summary_present s = true;
  sec_pos : sr_pos s = pos;
  sec_left : zdrop pos mcap = c;
  sec_bounds : (0 ≤ pos)%Z ∧ (pos + zlen c ≤ u64_max)%Z;
  sec_inv : lr_inv reader;
  sec_fits : (rb_end (file_data reader) + zlen c ≤ usize_max)%Z;
}.

(** A request that the rest of the file is enough for. *)
Lemma section_serves mcap pos start reader acc sum c s n : in_section mcap pos start reader acc sum c s → (0 < n ≤ zlen c)%Z →
  ∃ reader' room s1 s2, sr_insert n s = Ok (room, s1) ∧ room = n ∧ sr_notify_read (zlen (ztake n c)) (sr_fill (ztake n c) s1) = Ok s2 ∧
    feed n (ztake n c) reader = Ok reader' ∧ in_section mcap (pos + n) start reader' acc sum (zdrop n c) s2.
Proof.
  intros [Hst Hsum Hpr Hpos Hc [Hp0 Hp1] Hi Hf] Hn. pose proof (li_file _ Hi) as Hwf.
  destruct (serve_spec n c reader Hi ltac:(lia) Hf) as (d & rest & r' & Hcd & _ & Es & Ef & Hi' & _ & _ & Hf').
  destruct (tail_with_size_ok n _ Hwf ltac:(lia) ltac:(lia)) as [b1 E1].
  pose proof (tail_with_size_inv n _ _ Hwf ltac:(lia) E1) as (_ & _ & L1 & _).
  assert (zlen (ztake n c) = n) as Hd by (rewrite zlen_ztake; lia).
  assert (insert n reader = Ok (set_file_data b1 reader)) as Ei by (unfold insert; by rewrite E1).
  assert (d = ztake n c ∧ rest = zdrop n c) as [-> ->].
  { revert Es. unfold serve. rewrite Z.min_r, Ei by lia. cbn [mbind outcome_bind]. change (file_data (set_file_data b1 reader)) with b1. rewrite L1.
    unfold rassert. rewrite Z.eqb_refl. cbn [mbind outcome_bind]. rewrite (slice_Ok 0 n) by lia. cbn [mbind outcome_bind].
    destruct (notify_read _ _) as [r2|e| |]; cbn [mbind outcome_bind]; [|done..]. rewrite slice_tail by lia. cbn [mbind outcome_bind].
    intros E2. injection E2 as <- _. split; [|done]. rewrite <-(ztake_zdrop n c) in Hcd at 1. by apply app_inv_tail in Hcd. }
  rewrite Hd in Ef. unfold sr_insert. rewrite Hst, Ei. cbn [mbind outcome_bind]. change (file_data (set_file_data b1 reader)) with b1. rewrite L1.
  exists r', n. do 2 eexists. split; [done|]. split; [done|]. revert Ef. unfold feed. rewrite Ei. cbn [mbind outcome_bind].
  unfold sr_fill. cbn [sr_set_state sr_state]. unfold sr_notify_read. cbn [sr_set_state sr_set_at_eof sr_state]. rewrite Hd. intros ->. cbn [mbind outcome_bind].
  cbn [mret outcome_ret mbind outcome_bind sr_set_state sr_set_at_eof sr_pos]. rewrite Hpos, add_Ok by lia. split; [done|]. split; [done|].
  split; cbn; try done.
  - by rewrite <-zdrop_zdrop, Hc by lia.
  - rewrite zlen_zdrop. split; lia.
Qed.

(** A record of the section, or its end, after the requests for it are served. *)
Lemma section_will Q k start acc sum : ∀ reader c, will Q reader c → ∀ fuel fuel' mcap pos s,
  in_section mcap pos start reader acc sum c s → length c + S k < fuel → S k ≤ fuel' →
  ∃ o reader' c', Q o reader' c' ∧ match o with
    | Ok (Some (opcode, body)) => ∃ pos' fuel1 fuel1' s', length c' + k < fuel1 ∧ k ≤ fuel1' ∧ in_section mcap pos' start reader' acc sum c' s' ∧
        served fuel mcap pos fuel' s = (r ← parse_record opcode body;
          let '(o, (sum, acc)) := absorb r sum acc in _ ← o;
          served fuel1 mcap pos' fuel1' (sr_set_state (ReadingSummary start reader' acc) (sr_set_summary sum s')))
    | Ok None => served fuel mcap pos fuel' s = Ok (Some (with_channels acc sum))
    | Err e => served fuel mcap pos fuel' s = Err e
    | _ => True
    end.
Proof.
  intros reader c Hw. induction Hw as [reader c r reader' E Hr HQ|reader c e reader' E HQ|reader c reader' E HQ|reader c n reader1 E Hn _ IH];
    intros fuel fuel' mcap pos s Hs Hf Hf'; pose proof (next_event_ok _ (sec_inv _ _ _ _ _ _ _ _ Hs)) as Hok;
    pose proof (next_event_end reader) as Hend; rewrite E in Hok, Hend; cbn in Hok, Hend;
    (destruct fuel' as [|fuel']; [lia|]);
    assert (sr_next_event (S fuel') s = match arm_reading_summary start reader acc s with
      | (Ok (Return r), s) => (Ok r, s) | (Ok (Next _), s) => sr_next_event fuel' s
      | (Err e, s) => (Err e, s) | (Panic, s) => (Panic, s) | (Fuel, s) => (Fuel, s) end) as Enext
      by (cbn [sr_next_event]; unfold sr_step; by rewrite (sec_state _ _ _ _ _ _ _ _ Hs));
    unfold arm_reading_summary in Enext; rewrite E in Enext; unfold mbind, flow_bind, fset, check, fget, freturn in Enext;
    cbn [sr_summary sr_set_state] in Enext; rewrite ?(sec_summary _ _ _ _ _ _ _ _ Hs) in Enext.
  - exists (Ok (record_event r)), reader', c. split; [done|]. destruct r as [[need|opcode body]|]; [done|..]; cbn [record_event].
    + set (s1 := sr_set_state (ReadingSummary start reader' acc) s) in *.
      exists pos, fuel, fuel', s1. split; [lia|]. split; [lia|]. split.
      { destruct Hs. split; try done; [by destruct Hok|by rewrite Hend]. }
      unfold served. rewrite Enext. cbn -[absorb parse_record sr_next_event sr_insert sr_notify_read summary_loop].
      destruct (parse_record opcode body) as [rc|e| |]; cbn -[absorb sr_next_event sr_insert sr_notify_read summary_loop]; [|done..].
      rewrite (sec_summary _ _ _ _ _ _ _ _ Hs). destruct (absorb rc sum acc) as [o [sum1 acc1]]. by destruct o as [[]|e| |].
    + unfold served. rewrite Enext. cbn. unfold sr_finish. cbn. by rewrite (sec_present _ _ _ _ _ _ _ _ Hs), (sec_summary _ _ _ _ _ _ _ _ Hs).
  - exists (Err e), reader', c. split; [done|]. unfold served. by rewrite Enext.
  - exists Panic, reader', c. done.
  - destruct Hok as (Hi1 & _ & _ & Hpos). specialize (Hpos _ eq_refl). specialize (Hn eq_refl).
    set (s1 := sr_set_state (ReadingSummary start reader1 acc) s) in *.
    assert (in_section mcap pos start reader1 acc sum c s1) as Hs1.
    { destruct Hs. split; try done. by rewrite Hend. }
    destruct (section_serves _ _ _ _ _ _ _ _ n Hs1 ltac:(lia)) as (reader2 & room & s2 & s3 & E1 & -> & E2 & Ef & Hs3).
    assert (zlen (ztake n c) = n) as Hd by (rewrite zlen_ztake; lia).
    destruct fuel as [|fuel]; [lia|].
    destruct (IH n (ztake n c) (zdrop n c) reader2) with (fuel := fuel) (fuel' := fuel) (mcap := mcap) (pos := (pos + n)%Z) (s := s3) as (o & r' & c' & HQ & Ho).
    + by rewrite ztake_zdrop.
    + intros Hnil. rewrite Hnil in Hd. change (zlen []) with 0%Z in Hd. lia.
    + lia.
    + done.
    + done.
    + assert (zlen (zdrop n c) = zlen c - n)%Z as Hl by (rewrite zlen_zdrop; lia). unfold zlen in Hl. lia.
    + lia.
    + exists o, r', c'. split; [done|].
      assert (served (S fuel) mcap pos (S fuel') s = served fuel mcap (pos + n) fuel s3) as ->; [|done].
      unfold served at 1. rewrite Enext. cbn -[sr_insert sr_notify_read sr_fill sr_set_state summary_loop zlen ztake zdrop]. fold s1.
      rewrite E1. cbn -[sr_notify_read sr_fill summary_loop zlen ztake zdrop]. rewrite (sec_left _ _ _ _ _ _ _ _ Hs), E2, Hd. done.
Qed.

Lemma section_loop start : ∀ es rs reader c, delivers es (Ok ()) reader c → Forall2 parses es rs → ∀ acc sum fuel fuel' mcap pos s,
  in_section mcap pos start reader acc sum c s → length c + S (length es) < fuel → S (length es) ≤ fuel' →
  served fuel mcap pos fuel' s = ('(sum, acc) ← absorb_all rs sum acc; mret (Some (with_channels acc sum))).
Proof.
  intros es rs reader c Hd Hp. revert reader c Hd. induction Hp as [|[opcode body] r es rs Hr _ IH]; intros reader c Hd acc sum fuel fuel' mcap pos s Hs Hf Hf'; cbn [delivers] in Hd;
    destruct (section_will _ _ _ _ _ _ _ Hd fuel fuel' mcap pos s Hs Hf Hf') as (o & reader' & c' & HQ & Ho).
  - subst o. cbn in Ho. by rewrite Ho.
  - destruct HQ as [-> HQ]. destruct Ho as (pos' & fuel1 & fuel1' & s' & Hf1 & Hf1' & Hs' & ->).
    unfold parses in Hr. cbn [fst snd] in Hr. rewrite Hr. cbn [mbind outcome_bind absorb_all].
    destruct (absorb r sum acc) as [o [sum1 acc1]]. destruct o as [[]|e| |]; cbn [mbind outcome_bind]; [|done..].
    eapply IH; [done| |done|done]. by destruct Hs'.
Qed.

(** ** To the footer, and from there to the section *)

Lemma zlen_footer_body ft : zlen (c_enc Footer_codec ft) = 20%Z.
Proof. change (zlen (le_enc 8 (f_summary_start ft) ++ le_enc 8 (f_summary_offset_start ft) ++ le_enc 4 (f_summary_crc ft)) = 20%Z). zlia. Qed.

Section start.
Context (pre : bytes) (ft : Footer) (Hft : c_wf Footer_codec ft = true).
Abbreviation footer_bytes := (frame op.FOOTER (c_enc Footer_codec ft)).
Abbreviation mcap := (pre ++ footer_bytes ++ MAGIC).
Context (Hpre : (8 ≤ zlen pre)%Z) (Hsize : (zlen mcap ≤ u64_max)%Z).

Lemma zlen_footer_bytes : zlen footer_bytes = 29%Z.
Proof. unfold frame. rewrite !zlen_app, !zlen_le_enc, zlen_footer_body. lia. Qed.
Lemma zlen_mcap : zlen mcap = (zlen pre + 37)%Z.
Proof. rewrite !zlen_app, zlen_footer_bytes. change (zlen MAGIC) with 8%Z. lia. Qed.

(** The reader after the footer came. *)
Definition footer_state : SummaryReader :=
  mkSummaryReader (zlen mcap) (footer_bytes ++ MAGIC) (Some (zlen mcap)) (ReadingFooter 37) Summary_default false false
    (sro_with_file_size (zlen mcap) SummaryReaderOptions_default).

Lemma to_footer fuel : Summary_read (S (S (S (S fuel)))) mcap = served (S fuel) mcap (zlen mcap) (S fuel) footer_state.
Proof.
  pose proof zlen_mcap as Hl. zlen_facts. unfold Summary_read. set (o := sro_with_file_size (zlen mcap) SummaryReaderOptions_default).
  set (at_pos := λ p buf st, mkSummaryReader p buf (Some (zlen mcap)) st Summary_default false false o).
  change (SummaryReader_new o) with (at_pos 0%Z [] SeekingToFooter).
  assert (∀ n p, sr_next_event (S n) (at_pos p [] SeekingToFooter) =
    if (p =? zlen pre)%Z then sr_next_event n (at_pos p [] (ReadingFooter 0)) else (Ok (Some (SumSeekRequest (SeekStart (zlen pre)))), at_pos p [] SeekingToFooter)) as Hseek.
  { intros n p. cbn [sr_next_event]. unfold sr_step. cbn [sr_state at_pos]. unfold arm_seeking_to_footer, mbind, flow_bind, fget, check, fset, freturn, fthrow. cbn [sr_file_size at_pos sr_pos].
    unfold FOOTER_RECORD_AND_END_MAGIC. rewrite (proj2 (Z.ltb_ge _ _)) by lia. rewrite sub_Ok by lia. cbn [fmap outcome_fmap].
    replace (zlen mcap - (1 + 8 + 8 + 8 + 4 + 8))%Z with (zlen pre) by lia.
    change (sr_pos (at_pos p [] SeekingToFooter)) with p. by destruct (Z.eqb_spec p (zlen pre)). }
  rewrite summary_loop_S. unfold served at 1. rewrite Hseek. rewrite (proj2 (Z.eqb_neq _ _)) by lia. cbn [mbind outcome_bind].
  unfold cursor_seek. rewrite (proj2 (Z.leb_le _ _)) by lia. cbn [mret outcome_ret mbind outcome_bind].
  unfold sr_notify_seeked. cbn [sr_pos at_pos sr_at_eof andb sr_file_size]. rewrite (proj2 (Z.eqb_neq 0 (zlen pre))) by lia. cbn [negb andb mret outcome_ret mbind outcome_bind sr_state at_pos].
  change (sr_set_pos (zlen pre) (at_pos 0%Z [] SeekingToFooter)) with (at_pos (zlen pre) [] SeekingToFooter).
  rewrite summary_loop_S. unfold served at 1. rewrite Hseek, Z.eqb_refl.
  assert (∀ n, sr_next_event (S n) (at_pos (zlen pre) [] (ReadingFooter 0)) = (Ok (Some (SumReadRequest 37)), at_pos (zlen pre) [] (ReadingFooter 0))) as -> by done.
  cbn [mbind outcome_bind]. unfold sr_insert. cbn [sr_state at_pos]. rewrite add_Ok by (unfold usize_max, u64_max; lia). cbn [mret outcome_ret mbind outcome_bind].
  set (d := ztake _ (zdrop (zlen pre) mcap)).
  assert (d = footer_bytes ++ MAGIC) as Hd.
  { unfold d. rewrite zdrop_app by done. apply ztake_all. rewrite zlen_app, zlen_footer_bytes, zlen_resize by lia. change (zlen MAGIC) with 8%Z. lia. }
  assert (zlen d = 37)%Z as Hdl by (rewrite Hd, zlen_app, zlen_footer_bytes; done). rewrite Hdl.
  assert (sr_fill d (sr_set_footer_buf (resize (0 + 37) (sr_footer_buf (at_pos (zlen pre) [] (ReadingFooter 0)))) (at_pos (zlen pre) [] (ReadingFooter 0))) =
    at_pos (zlen pre) (footer_bytes ++ MAGIC) (ReadingFooter 0)) as ->.
  { unfold sr_fill. cbn [sr_set_footer_buf sr_state at_pos sr_footer_buf]. unfold at_pos, sr_set_footer_buf. cbn [sr_pos sr_file_size sr_state sr_summary sr_summary_present sr_at_eof sr_options].
    f_equal. rewrite Hdl. assert (zdrop (0 + 37) (resize (0 + 37) []) = []) as -> by (apply zlen_zero_nil; rewrite zlen_zdrop, zlen_resize; lia).
    by rewrite app_nil_r, Hd. }
  unfold sr_notify_read. cbn [sr_set_at_eof at_pos sr_state]. rewrite add_Ok by (unfold usize_max, u64_max; lia). cbn [mbind outcome_bind sr_footer_buf]. 
  change (sr_footer_buf (sr_set_at_eof (37 =? 0)%Z (at_pos (zlen pre) (footer_bytes ++ MAGIC) (ReadingFooter 0)))) with (footer_bytes ++ MAGIC).
  unfold rassert. rewrite (proj2 (Z.leb_le _ _)) by (rewrite zlen_app, zlen_footer_bytes; change (zlen MAGIC) with 8%Z; lia). cbn [mbind outcome_bind].
  set (s1 := sr_set_state _ _). cbn [mret outcome_ret mbind outcome_bind]. change (sr_pos s1) with (zlen pre). rewrite add_Ok by lia. cbn [mret outcome_ret mbind outcome_bind].
  replace (zlen pre + 37)%Z with (zlen mcap) by lia. rewrite summary_loop_S. done.
Qed.

(** What the footer says. *)
Lemma footer_arm : let start := f_summary_start ft in
  arm_reading_footer 37 footer_state =
  if (start =? 0)%Z then (Ok (Return None), footer_state)
  else (Ok (Next ()), sr_set_state (SeekingToSummary start) (sr_set_present true footer_state)).
Proof.
  intros start. unfold arm_reading_footer, mbind, flow_bind, fget, check, fset, freturn, fthrow.
  change (sr_footer_buf footer_state) with (footer_bytes ++ MAGIC). set (buf := footer_bytes ++ MAGIC). assert (zlen buf = 37)%Z as Hl by (unfold buf; rewrite zlen_app, zlen_footer_bytes; done).
  assert (buf = (le_enc 1 op.FOOTER ++ le_enc 8 20) ++ c_enc Footer_codec ft ++ MAGIC) as Hb.
  { unfold buf, frame. rewrite zlen_footer_body. by rewrite <-!app_assoc. }
  rewrite (proj2 (Z.leb_le _ 37)) by (unfold FOOTER_RECORD_AND_END_MAGIC; lia). unfold FOOTER_RECORD_AND_END_MAGIC.
  change (sr_footer_buf footer_state) with buf. rewrite (slice_Ok 0 1), (slice_Ok 9 _), (slice_Ok _ 37) by lia. cbn [fmap outcome_fmap].
  assert (ztake (1 - 0) (zdrop 0 buf) = le_enc 1 op.FOOTER) as ->.
  { rewrite zdrop_0 by done. rewrite Hb, <-app_assoc. by apply ztake_app. }
  assert (zdrop 9 buf = c_enc Footer_codec ft ++ MAGIC) as Hd9 by (rewrite Hb; apply zdrop_app; done).
  assert (ztake (1 + 8 + 8 + 8 + 4 + 8 - 8 - 9) (zdrop 9 buf) = c_enc Footer_codec ft) as ->.
  { rewrite Hd9. apply ztake_app. by rewrite zlen_footer_body. }
  assert (ztake (37 - (1 + 8 + 8 + 8 + 4 + 8 - 8)) (zdrop (1 + 8 + 8 + 8 + 4 + 8 - 8) buf) = MAGIC) as ->.
  { change (1 + 8 + 8 + 8 + 4 + 8 - 8)%Z with (9 + 20)%Z. rewrite <-zdrop_zdrop, Hd9 by lia. rewrite zdrop_app by (by rewrite zlen_footer_body). by apply ztake_all. }
  rewrite bool_decide_true by done. cbn [negb].
  assert ((le_dec (le_enc 1 op.FOOTER) =? op.FOOTER)%Z = true) as -> by done. cbn [negb].
  pose proof (read_record_enc Footer_codec ft [] Hft) as Hr. rewrite app_nil_r in Hr. rewrite Hr. cbn [fmap outcome_fmap]. fold start.
  by destruct (start =? 0)%Z.
Qed.

Lemma no_summary fuel : f_summary_start ft = 0%Z → Summary_read (4 + fuel) mcap = Ok None.
Proof.
  intros Hs. cbn [Nat.add]. rewrite to_footer. unfold served. cbn [sr_next_event]. unfold sr_step. cbn [sr_state footer_state]. fold footer_state.
  rewrite footer_arm, Hs. done.
Qed.

(** The section starts where the footer says, and goes on to the end of the file. *)
Definition section_reader (start : Z) : LinearReader := LinearReader_new (section_options start (Some (zlen mcap)) None).

Lemma to_section fuel : let start := f_summary_start ft in (0 < start ≤ zlen pre)%Z →
  ∃ s, Summary_read (6 + fuel) mcap = served (S (S fuel)) mcap start (S fuel) s ∧
    in_section mcap start start (section_reader start) ChannelAccumulator_default Summary_default (zdrop start mcap) s.
Proof.
  intros start Hst. pose proof zlen_mcap as Hl. cbn [Nat.add]. rewrite to_footer. unfold served at 1. cbn [sr_next_event]. unfold sr_step at 1. cbn [sr_state footer_state]. fold footer_state.
  rewrite footer_arm. fold start. rewrite (proj2 (Z.eqb_neq _ _)) by lia. unfold sr_step at 1. cbn [sr_state sr_set_state].
  set (s1 := sr_set_state (SeekingToSummary start) (sr_set_present true footer_state)).
  assert (arm_seeking_to_summary start s1 = (Ok (Return (Some (SumSeekRequest (SeekStart start)))), s1)) as ->.
  { unfold arm_seeking_to_summary, mbind, flow_bind, fget, freturn. change (sr_pos (id s1)) with (zlen mcap). by rewrite (proj2 (Z.eqb_neq _ _)) by lia. }
  cbn [mbind outcome_bind]. unfold cursor_seek. rewrite (proj2 (Z.leb_le _ _)) by lia. cbn [mret outcome_ret mbind outcome_bind].
  unfold sr_notify_seeked. change (sr_pos s1) with (zlen mcap). rewrite (proj2 (Z.eqb_neq _ _)) by lia.
  cbn [negb andb s1 sr_set_state sr_set_present footer_state sr_at_eof sr_file_size mret outcome_ret mbind outcome_bind sr_state].
  rewrite summary_loop_S. set (s2 := sr_set_pos start _).
  exists (sr_set_state (ReadingSummary start (section_reader start) ChannelAccumulator_default) s2). split.
  - unfold served. assert (sr_next_event (S (S fuel)) s2 = sr_next_event (S fuel) (sr_set_state (ReadingSummary start (section_reader start) ChannelAccumulator_default) s2)) as ->; [|done].
    assert (sr_step s2 = (Ok (Next ()), sr_set_state (ReadingSummary start (section_reader start) ChannelAccumulator_default) s2)) as Es.
    { unfold sr_step. change (sr_state s2) with (SeekingToSummary start). unfold arm_seeking_to_summary, mbind, flow_bind, fget, fset.
      change (sr_pos (id s2)) with start. by rewrite Z.eqb_refl. }
    cbn [sr_next_event]. by rewrite Es.
  - split; try done; [split; [lia|]|..].
    + rewrite zlen_zdrop. lia.
    + change (rb_end (file_data (section_reader start))) with 0%Z. rewrite zlen_zdrop. unfold usize_max. lia.
Qed.
End start.

(** ** A file *)

Section file.
Context (f : mcap_file) (rs : list record).
Hypothesis Hft : c_wf Footer_codec (file_footer f) = true.
Hypothesis Hsize : (zlen (file_bytes f) ≤ u64_max)%Z.
Abbreviation ft := (file_footer f).
Abbreviation pre := (data_section f ++ frames [data_end_rec f] ++ frames (file_summary f)).

Lemma file_bytes_footer : file_bytes f = pre ++ frame op.FOOTER (c_enc Footer_codec ft) ++ MAGIC.
Proof. unfold file_bytes, footer_rec. rewrite frames_one. by rewrite <-!app_assoc. Qed.
Lemma pre_long : (8 ≤ zlen pre)%Z.
Proof. unfold data_section. rewrite !zlen_app. zlen_facts. change (zlen MAGIC) with 8%Z. lia. Qed.

Lemma Summary_read_none fuel : f_summary_start ft = 0%Z → 4 ≤ fuel → Summary_read fuel (file_bytes f) = Ok None.
Proof.
  intros Hs Hf. replace fuel with (4 + (fuel - 4)) by lia. rewrite file_bytes_footer in *. by apply no_summary; [done|apply pre_long|done|].
Qed.

(** The records of the section, with what it takes for them to be read. *)
Definition section_start_of : Z := zlen (data_section f ++ frames [data_end_rec f]).
Hypothesis Hstart : f_summary_start ft = section_start_of.
Hypothesis Hwhole : forallb (λ r, file_record r && negb (record_opcode r =? op.CHUNK)%Z) rs = true.
Hypothesis Hrs : file_summary f = event_of <$> rs.

Lemma section_left : zdrop section_start_of (file_bytes f) = frames (file_summary f) ++ frame op.FOOTER (c_enc Footer_codec ft) ++ MAGIC.
Proof. unfold file_bytes, footer_rec. rewrite frames_one, app_assoc. by apply zdrop_app. Qed.

(** The section, then the footer and the end, are delivered to whoever asks for no more
    than there is. *)
Lemma section_delivers : delivers (file_summary f ++ [footer_rec f]) (Ok ())
  (LinearReader_new (section_options section_start_of (Some (zlen (file_bytes f))) None)) (zdrop section_start_of (file_bytes f)).
Proof.
  set (o := section_options _ _ _). set (c := zdrop _ _).
  assert (c = frames (file_summary f) ++ frame op.FOOTER (c_enc Footer_codec ft) ++ MAGIC) as Hc by apply section_left.
  assert (record_length_limit o = Some (zlen c)) as Hlim.
  { change (record_length_limit o) with (Some (Z.min (saturating_sub (zlen (file_bytes f)) section_start_of) usize_max)).
    subst c. rewrite zlen_zdrop. unfold saturating_sub, usize_max. assert (0 ≤ section_start_of)%Z by (unfold section_start_of; zlen_facts; lia).
    f_equal. zlen_facts. lia. }
  assert (∀ b, (OPCODE_LEN_SIZE + zlen b ≤ zlen c)%Z → body_fits o b = true) as Hfits.
  { intros b Hb. unfold body_fits, check_len. rewrite Hlim. assert (zlen c ≤ usize_max)%Z by (subst c; rewrite zlen_zdrop; zlen_facts; unfold usize_max; lia).
    rewrite (proj2 (Z.leb_le _ _)) by lia. cbn [andb]. apply bool_decide_true. unfold OPCODE_LEN_SIZE in *. zlen_facts.
    rewrite (proj2 (Z.leb_le _ _)), (proj2 (Z.ltb_ge _ _)) by lia. by eexists. }
  assert (client_at o FileRecord c (LinearReader_new o) c) as Hcl by (split; try done; apply LinearReader_new_inv).
  rewrite Hc in Hcl at 1. eapply ordinary_delivers; [exact Hcl| |].
  - apply forallb_forall. intros e He%list_elem_of_In. rewrite Hrs in He. pose proof He as Hin. apply list_elem_of_fmap in He as (r & -> & Hr).
    rewrite forallb_forall in Hwhole. specialize (Hwhole r (proj1 (list_elem_of_In _ _) Hr)). apply andb_true_iff in Hwhole as [Hf Hch]. rewrite orb_comm. cbn [event_of fst]. rewrite Hch. cbn [orb]. rewrite andb_true_r.
    apply (file_record_ordinary o r Hf). apply Hfits. rewrite Hc, zlen_app. rewrite <-Hrs in Hin. pose proof (zlen_frames_in _ _ Hin) as Hl. cbn [event_of snd] in Hl. zlen_facts. lia.
  - intros s' c' Hs'. cbn [delivers footer_rec]. eapply will_footer; [exact Hs'|exact Hft| |].
    + apply Hfits. rewrite Hc, !zlen_app. zlen_facts. unfold frame, OPCODE_LEN_SIZE. rewrite !zlen_app, !zlen_le_enc. lia.
    + intros s2 c2 Hs2. split; [done|]. by eapply will_end.
Qed.

Lemma section_parses : Forall2 parses (file_summary f ++ [footer_rec f]) (rs ++ [RFooter ft]).
Proof.
  apply Forall2_app.
  - rewrite Hrs. apply Forall2_fmap_l. apply Forall_Forall2_diag. apply Forall_forall. intros r Hr.
    rewrite forallb_forall in Hwhole. specialize (Hwhole r (proj1 (list_elem_of_In _ _) Hr)). apply andb_true_iff in Hwhole as [Hf _].
    unfold file_record in Hf. apply andb_true_iff in Hf as [Hf _]. by apply parse_record_body.
  - constructor; [|constructor]. unfold parses, footer_rec. cbn [fst snd]. apply (parse_record_body (RFooter ft)).
    unfold record_wf. rewrite Hft. cbn [record_body]. apply Z.ltb_lt. by rewrite zlen_footer_body.
Qed.

Lemma absorb_all_snoc l sum acc : absorb_all (l ++ [RFooter ft]) sum acc = absorb_all l sum acc.
Proof.
  revert sum acc. induction l as [|r l IH]; intros sum acc; [by destruct sum|].
  cbn [app absorb_all]. destruct (absorb r sum acc) as [o [sum1 acc1]]. destruct o as [[]|e| |]; cbn [mbind outcome_bind]; [apply IH|done..].
Qed.

(** [Summary::read] gives the summary that the records of the section are, or the error
    that they come to. *)
Lemma Summary_read_section fuel : length (file_bytes f) + length rs + 16 ≤ fuel →
  Summary_read fuel (file_bytes f) = Some <$> summary_of_section rs.
Proof.
  intros Hf. assert (8 ≤ section_start_of)%Z as Hs.
  { unfold section_start_of, data_section. rewrite !zlen_app. zlen_facts. change (zlen MAGIC) with 8%Z. lia. }
  pose proof section_delivers as Hd. pose proof section_parses as Hp.
  assert (length (zdrop section_start_of (file_bytes f)) ≤ length (file_bytes f)) as Hlen.
  { rewrite zdrop_drop, length_drop. lia. }
  replace fuel with (6 + (fuel - 6)) by lia. rewrite file_bytes_footer in *.
  destruct (to_section pre ft Hft pre_long Hsize (fuel - 6)) as (s & -> & Hs').
  { rewrite Hstart. split; [lia|]. unfold section_start_of. rewrite !zlen_app. zlen_facts. lia. }
  rewrite Hstart in *. assert (length (file_summary f ++ [footer_rec f]) = S (length rs)) as Hl by (rewrite length_app, Hrs, length_fmap; cbn; lia).
  rewrite (section_loop _ _ _ _ _ Hd Hp _ _ _ _ _ _ _ Hs') by (rewrite Hl; lia). rewrite absorb_all_snoc. unfold summary_of_section.
  by destruct (absorb_all rs Summary_default ChannelAccumulator_default) as [[]|e| |].
Qed.
End file.
End section.
