(* ===== verification/Sorting.v ===== *)
(** [slice::sort_by_key]: a stable sort, for an order given as a boolean function;
    and the orders of the keys it is used with, tuples of integers and their
    [Reverse]. *)

From S2P Require Import Prelude.

(** What an order on keys promises: a total preorder. *)
Class TotalPreorder {A} (leb : A → A → bool) : Prop := {
  leb_trans x y z : leb x y = true → leb y z = true → leb x z = true;
  leb_total x y : leb x y = true ∨ leb y x = true;
}.

Section sort.
Context {A : Type} (leb : A → A → bool).

Fixpoint sorted_insert (x : A) (l : list A) : list A :=
  match l with
  | [] => [x]
  | y :: l' => if leb x y then x :: l else y :: sorted_insert x l'
  end.
Definition sort_by (l : list A) : list A := foldr sorted_insert [] l.

Abbreviation sorted := (StronglySorted (λ x y, leb x y = true)).

Lemma sorted_insert_perm x l : sorted_insert x l ≡ₚ x :: l.
Proof.
  induction l as [|y l IH]; cbn; [done|]. destruct (leb x y); [done|]. rewrite IH. constructor.
Qed.
Lemma sort_by_perm l : sort_by l ≡ₚ l.
Proof. induction l as [|x l IH]; cbn; [done|]. by rewrite sorted_insert_perm, IH. Qed.

Context `{!TotalPreorder leb}.

Lemma sorted_insert_sorted x l : sorted l → sorted (sorted_insert x l).
Proof.
  induction l as [|y l IH]; intros Hs; cbn; [by repeat constructor|].
  apply StronglySorted_inv in Hs as [Hs Hy].
  destruct (leb x y) eqn:Hx.
  - constructor; [by constructor|]. constructor; [done|].
    eapply Forall_impl; [exact Hy|]. cbn. intros z Hz. by eapply leb_trans.
  - constructor; [by apply IH|]. rewrite sorted_insert_perm. constructor; [|done].
    destruct (leb_total x y) as [Hxy|Hyx]; [congruence|done].
Qed.
Lemma sort_by_sorted l : sorted (sort_by l).
Proof. induction l as [|x l IH]; cbn; [constructor|]. by apply sorted_insert_sorted. Qed.
End sort.

(** The lexicographic order on tuples of integers. *)
Fixpoint lex_leb (a b : list Z) : bool :=
  match a, b with
  | [], _ => true
  | _ :: _, [] => false
  | x :: a, y :: b => (x <? y)%Z || ((x =? y)%Z && lex_leb a b)
  end.

(** Comparison by a key, and by [Reverse] of it. *)
Definition by_key {A} (key : A → list Z) (a b : A) : bool := lex_leb (key a) (key b).
Definition by_key_rev {A} (key : A → list Z) (a b : A) : bool := lex_leb (key b) (key a).

#[export] Instance lex_preorder : TotalPreorder lex_leb.
Proof.
  split.
  - intros a. induction a as [|x a IH]; intros [|y b] [|z c]; cbn; try done.
    rewrite !orb_true_iff, !andb_true_iff, !Z.ltb_lt, !Z.eqb_eq.
    intros [?|[-> ?]] [?|[-> ?]]; [left; lia|by left|by left|right]. split; [done|by eapply IH].
  - intros a. induction a as [|x a IH]; intros [|y b]; cbn; try (by left); [by right|].
    rewrite !orb_true_iff, !andb_true_iff, !Z.ltb_lt, !Z.eqb_eq.
    destruct (Z.lt_trichotomy x y) as [|[->|]]; [by left; left| |by right; left].
    destruct (IH b); [left|right]; by right.
Qed.
#[export] Instance by_key_preorder {A} (key : A → list Z) : TotalPreorder (by_key key).
Proof. split; unfold by_key; intros *; [apply leb_trans|apply leb_total]. Qed.
#[export] Instance by_key_rev_preorder {A} (key : A → list Z) : TotalPreorder (by_key_rev key).
Proof.
  split; unfold by_key_rev; intros *; [intros; by eapply leb_trans|].
  destruct (leb_total (leb:=lex_leb) (key x) (key y)); [by right|by left].
Qed.

(** The first components are in order. *)
Lemma lex_leb_head x a y b : lex_leb (x :: a) (y :: b) = true → (x ≤ y)%Z.
Proof. cbn. rewrite orb_true_iff, andb_true_iff, Z.ltb_lt, Z.eqb_eq. lia. Qed.
Lemma by_key_head {A} (h : A → Z) (key : A → list Z) a b :
  by_key (λ a, h a :: key a) a b = true → (h a ≤ h b)%Z.
Proof. apply lex_leb_head. Qed.
Lemma by_key_rev_head {A} (h : A → Z) (key : A → list Z) a b :
  by_key_rev (λ a, h a :: key a) a b = true → (h b ≤ h a)%Z.
Proof. apply lex_leb_head. Qed.

(** ** Sorted lists *)

Lemma StronglySorted_impl_in {A} (R S : A → A → Prop) l :
  (∀ x y, x ∈ l → y ∈ l → R x y → S x y) → StronglySorted R l → StronglySorted S l.
Proof.
  intros Himp Hs. induction Hs as [|x l Hs IH Hx]; [constructor|].
  constructor; [apply IH; intros; apply Himp; by (done || right)|].
  apply Forall_forall. intros y Hy. rewrite Forall_forall in Hx. apply Himp; [left|by right|by apply Hx].
Qed.

Lemma StronglySorted_app {A} (R : A → A → Prop) l k :
  StronglySorted R l → StronglySorted R k → (∀ x y, x ∈ l → y ∈ k → R x y) → StronglySorted R (l ++ k).
Proof.
  intros Hl Hk Hlk. induction Hl as [|x l Hl IH Hx]; [done|]. cbn. constructor.
  - apply IH. intros y z Hy. apply Hlk. by right.
  - apply Forall_app. split; [done|]. apply Forall_forall. intros y Hy. apply Hlk; [left|done].
Qed.

Lemma StronglySorted_reverse {A} (R : A → A → Prop) l :
  StronglySorted R l → StronglySorted (λ x y, R y x) (reverse l).
Proof.
  intros Hl. induction Hl as [|x l Hl IH Hx]; [constructor|]. rewrite reverse_cons.
  apply StronglySorted_app; [done|by repeat constructor|].
  intros y z Hy Hz. apply list_elem_of_singleton in Hz as ->. rewrite elem_of_reverse in Hy.
  rewrite Forall_forall in Hx. by apply Hx.
Qed.

Lemma StronglySorted_drop {A} (R : A → A → Prop) n l : StronglySorted R l → StronglySorted R (drop n l).
Proof.
  revert n. induction l as [|x l IH]; intros [|n] Hs; try done. cbn.
  apply IH. by destruct (StronglySorted_inv Hs).
Qed.

Lemma StronglySorted_delete {A} (R : A → A → Prop) i l : StronglySorted R l → StronglySorted R (delete i l).
Proof.
  revert i. induction l as [|x l IH]; intros i Hs; [done|].
  apply StronglySorted_inv in Hs as [Hs Hx]. destruct i as [|i]; cbn; [done|].
  constructor; [by apply IH|by apply Forall_delete].
Qed.
