(* ===== verification/IndexedReader.v ===== *)
(** The sans-io indexed reader (sans_io/indexed_reader.rs): the messages of the chunks
    a summary lists, filtered by time and topic, in file, log-time or reverse
    log-time order.  The client loads the chunks the reader asks for. *)

From S2P Require Import Prelude Utf8 BTree Errors Bin Records Crc Codec RwBuf Decompressor LinearReader Channels Summary Sorting.

(** ** Decompression in one call *)

(** [zstd::zstd_safe::decompress] into an empty vector with room for at least [n]
    bytes, or an error name; and [lz4::Decoder::new] with [read_exact] of [n] bytes. *)
Class ChunkCodecs := {
  zstd_decompress : Z → bytes → outcome rstring bytes;
  lz4_read_exact : Z → bytes → outcome io_error bytes;
}.

(** ** Data *)

Inductive ReadOrder := LogTime | ReverseLogTime | FileOrder.

(** [MessageIndex] of this file: where a message is in the loaded chunks. *)
Record MessageSlot := mkMessageSlot {
  chunk_slot_idx : nat;
  ms_log_time : Z;
  ms_offset : Z;
}.

Inductive IndexedReadEvent :=
| ReadChunkRequest (offset length : Z)
| EvMessage (header : MessageHeader) (data : bytes).

Record ChunkSlot := mkChunkSlot {
  slot_buf : bytes;
  data_start : Z;
  message_count : Z;
}.

Record Filter := mkFilter {
  filter_start : option Z;
  filter_end : option Z;
  filter_channel_ids : gset Z;
}.

Record IndexedReaderOptions := mkIndexedReaderOptions {
  iro_start : option Z;
  iro_end : option Z;
  iro_order : ReadOrder;
  iro_include_topics : option (gset rstring);
  iro_record_length_limit : option Z;
}.
Definition IndexedReaderOptions_default : IndexedReaderOptions :=
  mkIndexedReaderOptions None None LogTime None None.
Definition with_order (order : ReadOrder) (o : IndexedReaderOptions) : IndexedReaderOptions :=
  mkIndexedReaderOptions (iro_start o) (iro_end o) order (iro_include_topics o) (iro_record_length_limit o).
Definition include_topics (topics : list rstring) (o : IndexedReaderOptions) : IndexedReaderOptions :=
  mkIndexedReaderOptions (iro_start o) (iro_end o) (iro_order o) (Some (list_to_set topics))
    (iro_record_length_limit o).
Definition log_time_on_or_after (start : Z) (o : IndexedReaderOptions) : IndexedReaderOptions :=
  mkIndexedReaderOptions (Some start) (iro_end o) (iro_order o) (iro_include_topics o)
    (iro_record_length_limit o).
Definition log_time_before (end_ : Z) (o : IndexedReaderOptions) : IndexedReaderOptions :=
  mkIndexedReaderOptions (iro_start o) (Some end_) (iro_order o) (iro_include_topics o)
    (iro_record_length_limit o).
Definition iro_with_record_length_limit (limit : Z) (o : IndexedReaderOptions) : IndexedReaderOptions :=
  mkIndexedReaderOptions (iro_start o) (iro_end o) (iro_order o) (iro_include_topics o) (Some limit).

Record IndexedReader := mkIndexedReader {
  ix_chunk_indexes : list ChunkIndex;
  ix_cur_chunk_index : nat;
  ix_chunk_slots : list ChunkSlot;
  ix_message_indexes : list MessageSlot;
  ix_cur_message_index : nat;
  ix_order : ReadOrder;
  ix_filter : Filter;
  ix_record_length_limit : option Z;
}.

(** [index.compressed_data_offset().expect(..)] *)
Definition data_offset {E} (index : ChunkIndex) : outcome E Z :=
  match compressed_data_offset index with Ok o => Ok o | Fuel => Fuel | _ => Panic end.

(** [chunk_request] *)
Definition chunk_request (index : ChunkIndex) (limit : option Z) : McapResult IndexedReadEvent :=
  match check_len (ci_compressed_size index) limit with
  | None => mthrow (ChunkTooLarge (ci_compressed_size index))
  | Some length => offset ← data_offset index; mret (ReadChunkRequest offset length)
  end.

(** ** Construction *)

(** The channels of the topics asked for. *)
Definition included_channel_ids (s : Summary) (o : IndexedReaderOptions) : gset Z :=
  match iro_include_topics o with
  | Some topics =>
      dom (filter (λ p : Z * Channel, channel_topic p.2 ∈ topics) (channels s))
  | None => ∅
  end.

(** The chunks that are not filtered out. *)
Definition keep_chunk (o : IndexedReaderOptions) (channel_ids : gset Z) (c : ChunkIndex) : bool :=
  (match iro_start o with Some start => negb (ci_message_end_time c <? start)%Z | None => true end) &&
  (match iro_end o with Some end_ => negb (end_ <=? ci_message_start_time c)%Z | None => true end) &&
  (bool_decide (channel_ids = ∅) || bool_decide (ci_message_index_offsets c = []) ||
   existsb (λ p : Z * Z, bool_decide (p.1 ∈ channel_ids)) (ci_message_index_offsets c)).

(** The order the chunks are visited in. *)
Definition chunk_leb (order : ReadOrder) : ChunkIndex → ChunkIndex → bool :=
  match order with
  | FileOrder => by_key (λ c, [ci_chunk_start_offset c])
  | LogTime => by_key (λ c, [ci_message_start_time c; ci_chunk_start_offset c])
  | ReverseLogTime => by_key_rev (λ c, [ci_message_end_time c; ci_chunk_start_offset c])
  end.

(** The last check of [new_with_options]. *)
Definition check_sizes (limit : option Z) (c : ChunkIndex) : McapResult () :=
  _ ← ok_or (ChunkTooLarge (ci_compressed_size c)) (check_len (ci_compressed_size c) limit);
  _ ← ok_or (ChunkTooLarge (ci_compressed_size c)) (check_len (ci_uncompressed_size c) limit);
  mret ().

(** [f] on each element, up to the first error. *)
Fixpoint for_each {A} (f : A → McapResult ()) (l : list A) : McapResult () :=
  match l with
  | [] => mret ()
  | x :: l => _ ← f x; for_each f l
  end.

(** [new_with_options] *)
Definition IndexedReader_new_with_options (s : Summary) (o : IndexedReaderOptions) : McapResult IndexedReader :=
  let channel_ids := included_channel_ids s o in
  let kept := filter (λ c, keep_chunk o channel_ids c = true) (chunk_indexes s) in
  _ ← for_each (λ c, _ ← compressed_data_offset c; mret ()) kept;
  let sorted := sort_by (chunk_leb (iro_order o)) kept in
  _ ← for_each (check_sizes (iro_record_length_limit o)) sorted;
  mret (mkIndexedReader sorted 0 [] [] 0 (iro_order o)
          (mkFilter (iro_start o) (iro_end o) channel_ids) (iro_record_length_limit o)).
Definition IndexedReader_new (s : Summary) : McapResult IndexedReader :=
  IndexedReader_new_with_options s IndexedReaderOptions_default.

(** ** [next_event] *)

(** [yield_chunk_first] *)
Definition yield_chunk_first (r : IndexedReader) (c : ChunkIndex) (m : MessageSlot) : McapResult bool :=
  match ix_order r with
  | FileOrder =>
      slot ← expect (ix_chunk_slots r !! chunk_slot_idx m);
      offset ← data_offset c;
      mret (offset <? data_start slot)%Z
  | LogTime => mret (ci_message_start_time c <? ms_log_time m)%Z
  | ReverseLogTime => mret (ms_log_time m <? ci_message_end_time c)%Z
  end.

(** [buf.split_first_chunk::<n>()] *)
Definition split_first_chunk (n : Z) (buf : bytes) : option (bytes * bytes) :=
  if (n <=? zlen buf)%Z then Some (ztake n buf, zdrop n buf) else None.

(** The opcode of the record at [offset], its length and what follows. *)
Definition split_record (offset : Z) (data : bytes) : McapResult (Z * bytes) :=
  buf ← slice offset (zlen data) data;
  '(opcode, buf) ← ok_or UnexpectedEoc (split_first_chunk 1 buf);
  mret (le_dec opcode, buf).
Definition split_body (limit : option Z) (opcode : Z) (buf : bytes) : McapResult bytes :=
  '(len_buf, buf) ← ok_or UnexpectedEoc (split_first_chunk 8 buf);
  let len := le_dec len_buf in
  len ← ok_or (RecordTooLarge opcode len) (check_len len limit);
  if (zlen buf <? len)%Z then mthrow UnexpectedEoc else slice 0 len buf.

(** The message an index points to. *)
Definition indexed_message (limit : option Z) (m : MessageSlot) (slot : ChunkSlot)
    : McapResult (MessageHeader * bytes) :=
  '(opcode, buf) ← split_record (ms_offset m) (slot_buf slot);
  _ ← rassert (opcode =? op.MESSAGE)%Z;
  msg_data ← split_body limit opcode buf;
  '(header, c) ← read_le MessageHeader_codec (rcursor_new msg_data);
  data ← slice (rpos c) (zlen msg_data) msg_data;
  mret (header, data).

(** Assignments to the fields. *)
Definition ix_set_slots (slots : list ChunkSlot) (r : IndexedReader) : IndexedReader :=
  mkIndexedReader (ix_chunk_indexes r) (ix_cur_chunk_index r) slots (ix_message_indexes r)
    (ix_cur_message_index r) (ix_order r) (ix_filter r) (ix_record_length_limit r).
Definition ix_set_messages (ms : list MessageSlot) (cur : nat) (r : IndexedReader) : IndexedReader :=
  mkIndexedReader (ix_chunk_indexes r) (ix_cur_chunk_index r) (ix_chunk_slots r) ms cur
    (ix_order r) (ix_filter r) (ix_record_length_limit r).
Definition ix_set_chunks (cs : list ChunkIndex) (cur : nat) (r : IndexedReader) : IndexedReader :=
  mkIndexedReader cs cur (ix_chunk_slots r) (ix_message_indexes r) (ix_cur_message_index r)
    (ix_order r) (ix_filter r) (ix_record_length_limit r).

Definition set_message_count (n : Z) (slot : ChunkSlot) : ChunkSlot :=
  mkChunkSlot (slot_buf slot) (data_start slot) n.

(** The chunk to load before the message [m], if there is one. *)
Definition chunk_first (r : IndexedReader) (m : MessageSlot) : McapResult (option ChunkIndex) :=
  match ix_chunk_indexes r !! ix_cur_chunk_index r with
  | Some c => first ← yield_chunk_first r c m; mret (if (first : bool) then Some c else None)
  | None => mret None
  end.

(** The rest of it, for the message [m]: the message, and the reader past it. *)
Definition yield_message (r : IndexedReader) (m : MessageSlot) : McapResult (IndexedReadEvent * IndexedReader) :=
  slot ← expect (ix_chunk_slots r !! chunk_slot_idx m);
  '(header, data) ← indexed_message (ix_record_length_limit r) m slot;
  n ← sub_ (message_count slot) 1;
  mret (EvMessage header data,
        ix_set_slots (<[chunk_slot_idx m := set_message_count n slot]> (ix_chunk_slots r))
          (ix_set_messages (ix_message_indexes r) (S (ix_cur_message_index r)) r)).

Definition ix_next_event : method IndexedReader McapError (option IndexedReadEvent) := λ r,
  match ix_message_indexes r !! ix_cur_message_index r with
  | Some m =>
      match chunk_first r m with
      | Ok (Some c) => (Some <$> chunk_request c (ix_record_length_limit r), r)
      | Ok None =>
          match yield_message r m with
          | Ok (ev, r) => (Ok (Some ev), r)
          | Err e => (Err e, r)
          | Panic => (Panic, r)
          | Fuel => (Fuel, r)
          end
      | Err e => (Err e, r)
      | Panic => (Panic, r)
      | Fuel => (Fuel, r)
      end
  | None =>
      match ix_chunk_indexes r !! ix_cur_chunk_index r with
      | None => (Ok None, r)
      | Some c => (Some <$> chunk_request c (ix_record_length_limit r), r)
      end
  end.

(** ** [insert_chunk_record_data] *)

(** The slots after the search, and the slot found. *)
Fixpoint find_or_make_chunk_slot (start : Z) (slots : list ChunkSlot) : nat * list ChunkSlot :=
  match slots with
  | [] => (0, [mkChunkSlot [] start 0])
  | slot :: slots =>
      if (message_count slot =? 0)%Z then (0, mkChunkSlot [] start 0 :: slots)
      else let '(i, slots) := find_or_make_chunk_slot start slots in (S i, slot :: slots)
  end.

(** What [index_messages] keeps as it goes through a chunk. *)
Record scan := mkScan {
  sc_indexes : list MessageSlot;
  sc_sorting_required : bool;
  sc_latest : Z;
}.

Definition passes (f : Filter) (m : MessageHeader) : bool :=
  (match filter_end f with Some end_ => negb (end_ <=? m_log_time m)%Z | None => true end) &&
  (match filter_start f with Some start => negb (m_log_time m <? start)%Z | None => true end) &&
  (bool_decide (filter_channel_ids f = ∅) || bool_decide (m_channel_id m ∈ filter_channel_ids f)).

(** The body of the loop: the next offset, and what was found. *)
Definition index_record (slot_idx : nat) (order : ReadOrder) (f : Filter) (limit : option Z)
    (chunk_data : bytes) (offset : Z) (s : scan) : McapResult (Z * scan) :=
  '(opcode, buf) ← split_record offset chunk_data;
  record_data ← split_body limit opcode buf;
  next_offset ← add_ usize_max offset 9;
  next_offset ← add_ usize_max next_offset (zlen record_data);
  if negb (opcode =? op.MESSAGE)%Z then mret (next_offset, s) else
  msg ← read_record MessageHeader_codec record_data;
  if negb (passes f msg) then mret (next_offset, s) else
  let sorting := sc_sorting_required s ||
    (match order with FileOrder => false | _ => true end && (m_log_time msg <? sc_latest s)%Z) in
  mret (next_offset,
        mkScan (sc_indexes s ++ [mkMessageSlot slot_idx (m_log_time msg) offset]) sorting
          (Z.max (sc_latest s) (m_log_time msg))).

(** The loop: every record takes bytes, so the data bounds it. *)
Fixpoint index_loop (fuel : nat) (slot_idx : nat) (order : ReadOrder) (f : Filter) (limit : option Z)
    (chunk_data : bytes) (offset : Z) (s : scan) : McapResult () * scan :=
  if negb (offset <? zlen chunk_data)%Z then (Ok (), s) else
  match index_record slot_idx order f limit chunk_data offset s, fuel with
  | Ok (offset, s), S fuel => index_loop fuel slot_idx order f limit chunk_data offset s
  | Ok (_, s), 0 => (Fuel, s)
  | Err e, _ => (Err e, s)
  | Panic, _ => (Panic, s)
  | Fuel, _ => (Fuel, s)
  end.

(** [chunk_slots[index.chunk_slot_idx].data_start]: the slot is there. *)
Definition start_of (slots : list ChunkSlot) (m : MessageSlot) : Z :=
  default 0%Z (data_start <$> slots !! chunk_slot_idx m).

(** The order messages are yielded in. *)
Definition message_leb (order : ReadOrder) (slots : list ChunkSlot) : MessageSlot → MessageSlot → bool :=
  match order with
  | FileOrder => by_key (λ m, [start_of slots m; ms_offset m])
  | LogTime => by_key (λ m, [ms_log_time m; start_of slots m; ms_offset m])
  | ReverseLogTime => by_key_rev (λ m, [ms_log_time m; start_of slots m; ms_offset m])
  end.

(** [l[i..].sort_by_key(..)] *)
Definition sort_from (i : nat) (leb : MessageSlot → MessageSlot → bool) (l : list MessageSlot) : list MessageSlot :=
  take i l ++ sort_by leb (drop i l).

(** The indexes after a chunk went through. *)
Definition put_in_order (order : ReadOrder) (slots : list ChunkSlot) (sorting_required : bool)
    (new_start cur : nat) (l : list MessageSlot) : list MessageSlot :=
  let l := match order with
           | ReverseLogTime => take new_start l ++ reverse (drop new_start l)
           | _ => l
           end in
  if sorting_required then sort_from cur (message_leb order slots) l else l.

(** [index_messages] *)
Definition index_messages (slot_idx : nat) (slots : list ChunkSlot) (order : ReadOrder) (f : Filter)
    (cur : nat) (limit : option Z) : method (list MessageSlot) McapError Z := λ l,
  match slots !! slot_idx with
  | None => (Panic, l)
  | Some slot =>
      let data := slot_buf slot in
      let new_start := length l in
      match index_loop (length data) slot_idx order f limit data 0
              (mkScan l (negb (bool_decide (l = []))) 0) with
      | (Ok _, s) =>
          let l := put_in_order order slots (sc_sorting_required s) new_start cur (sc_indexes s) in
          (Ok (Z.of_nat (length l - new_start)), l)
      | (Err e, s) => (Err e, sc_indexes s)
      | (Panic, s) => (Panic, sc_indexes s)
      | (Fuel, s) => (Fuel, sc_indexes s)
      end
  end.

(** The search for the chunk index with that offset: its place in the list. *)
Fixpoint find_chunk (offset : Z) (cs : list ChunkIndex) : McapResult (option (nat * ChunkIndex)) :=
  match cs with
  | [] => mret None
  | c :: cs =>
      o ← data_offset c;
      if (o =? offset)%Z then mret (Some (0, c)) else
      r ← find_chunk offset cs;
      mret (prod_map S id <$> r)
  end.

Section insert.
Context `{ChunkCodecs}.

(** The contents of the slot. *)
Definition decompress_chunk (compression : rstring) (uncompressed_size : Z) (data : bytes) : McapResult bytes :=
  if bool_decide (compression = []) then
    _ ← rassert (zlen data =? uncompressed_size)%Z; mret data
  else if bool_decide (compression = lit "zstd") then
    out ← map_err DecompressionError (zstd_decompress uncompressed_size data);
    if negb (zlen out =? uncompressed_size)%Z
    then mthrow (DecompressionError (lit "zstd decompression error")) else mret out
  else if bool_decide (compression = lit "lz4") then
    map_err Io (lz4_read_exact uncompressed_size data)
  else mthrow (UnsupportedCompression compression).

(** [insert_chunk_record_data], from the point where the slot is filled. *)
Definition index_slot (i slot_idx : nat) : method IndexedReader McapError () := λ r,
  let r := if length (ix_message_indexes r) <=? ix_cur_message_index r
           then ix_set_messages [] 0 r else r in
  let '(o, l) := index_messages slot_idx (ix_chunk_slots r) (ix_order r) (ix_filter r)
                   (ix_cur_message_index r) (ix_record_length_limit r) (ix_message_indexes r) in
  let r := ix_set_messages l (ix_cur_message_index r) r in
  match o with
  | Ok n =>
      let r := ix_set_slots (alter (set_message_count n) slot_idx (ix_chunk_slots r)) r in
      let r := if (n <? Z.of_nat (ix_cur_message_index r))%Z
               then ix_set_messages (drop (ix_cur_message_index r) (ix_message_indexes r)) 0 r else r in
      (Ok (), match i with
              | 0 => ix_set_chunks (ix_chunk_indexes r) (S (ix_cur_chunk_index r)) r
              | _ => ix_set_chunks (delete (ix_cur_chunk_index r + i) (ix_chunk_indexes r))
                       (ix_cur_chunk_index r) r
              end)
  | Err e => (Err e, r)
  | Panic => (Panic, r)
  | Fuel => (Fuel, r)
  end.

Definition insert_chunk_record_data (offset : Z) (compressed_data : bytes)
    : method IndexedReader McapError () := λ r,
  if length (ix_chunk_indexes r) <? ix_cur_chunk_index r then (Panic, r) else
  match find_chunk offset (drop (ix_cur_chunk_index r) (ix_chunk_indexes r)) with
  | Ok (Some (i, c)) =>
      if negb (zlen compressed_data =? ci_compressed_size c)%Z then (Err UnexpectedChunkDataInserted, r) else
      let '(slot_idx, slots) := find_or_make_chunk_slot offset (ix_chunk_slots r) in
      let r := ix_set_slots slots r in
      match decompress_chunk (ci_compression c) (ci_uncompressed_size c) compressed_data with
      | Ok buf =>
          index_slot i slot_idx
            (ix_set_slots (alter (λ slot, mkChunkSlot buf (data_start slot) (message_count slot)) slot_idx slots) r)
      | Err e => (Err e, r)
      | Panic => (Panic, r)
      | Fuel => (Fuel, r)
      end
  | Ok None => (Err UnexpectedChunkDataInserted, r)
  | Err e => (Err e, r)
  | Panic => (Panic, r)
  | Fuel => (Fuel, r)
  end.
End insert.
