(* ===== verification/IndexedReaderTheory.v ===== *)
(** What the indexed reader promises: from a state that satisfies [ir_inv] it never
    panics, every message of the chunks that the filter admits is yielded once, and
    in the order asked for when the index tells the truth about the chunks. *)

From S2P Require Import Prelude Utf8 BTree Errors Bin Records Crc Codec RwBuf Decompressor LinearReader LinearReaderTheory Channels Summary Sorting IndexedReader.

#[export] Instance chunk_leb_preorder order : TotalPreorder (chunk_leb order).
Proof. destruct order; apply _. Qed.
#[export] Instance message_leb_preorder order slots : TotalPreorder (message_leb order slots).
Proof. destruct order; apply _. Qed.

(** ** The records of a chunk *)

(** A record that indexing accepts: its length fits, and a message has its header. *)
Definition indexable (limit : option Z) (e : Z * bytes) : bool :=
  c_wf u8 e.1 && bool_decide (check_len (zlen e.2) limit = Some (zlen e.2)) &&
  (negb (e.1 =? op.MESSAGE)%Z ||
   match read_le MessageHeader_codec (rcursor_new e.2) with Ok _ => true | _ => false end).
Definition chunk_records_ok (limit : option Z) (rs : list (Z * bytes)) : bool :=
  forallb (indexable limit) rs && (zlen (frames rs) <=? usize_max)%Z.

(** The message a record is, if the filter admits it. *)
Definition message_in (f : Filter) (e : Z * bytes) : option (MessageHeader * bytes) :=
  if (e.1 =? op.MESSAGE)%Z then
    match read_le MessageHeader_codec (rcursor_new e.2) with
    | Ok (h, c) => if passes f h then Some (h, zdrop (rpos c) e.2) else None
    | _ => None
    end
  else None.

(** The messages of a chunk that are to be yielded, and the entries for them. *)
Definition messages_of (f : Filter) (rs : list (Z * bytes)) : list (MessageHeader * bytes) :=
  omap (message_in f) rs.
Fixpoint slots_of (slot_idx : nat) (f : Filter) (offset : Z) (rs : list (Z * bytes)) : list MessageSlot :=
  match rs with
  | [] => []
  | e :: rs =>
      let rest := slots_of slot_idx f (offset + (9 + zlen e.2)) rs in
      match message_in f e with
      | Some (h, _) => mkMessageSlot slot_idx (m_log_time h) offset :: rest
      | None => rest
      end
  end.

(** The places of those messages in the chunk. *)
Fixpoint offsets_of (f : Filter) (offset : Z) (rs : list (Z * bytes)) : list Z :=
  match rs with
  | [] => []
  | e :: rs => (match message_in f e with Some _ => [offset] | None => [] end) ++ offsets_of f (offset + (9 + zlen e.2)) rs
  end.
Lemma slots_offsets slot_idx f off rs : ms_offset <$> slots_of slot_idx f off rs = offsets_of f off rs.
Proof.
  revert off. induction rs as [|e rs IH]; intros off; [done|]. cbn [slots_of offsets_of].
  destruct (message_in f e) as [[h d]|]; cbn; by rewrite <-IH.
Qed.

Lemma zlen_frame o b : zlen (frame o b) = (9 + zlen b)%Z.
Proof. unfold frame. zlia. Qed.
Lemma zlen_frames_cons e rs : zlen (frames (e :: rs)) = (9 + zlen e.2 + zlen (frames rs))%Z.
Proof. destruct e as [o b]. rewrite frames_cons, zlen_app, zlen_frame. done. Qed.

(** The record at an offset between two records. *)
Lemma split_record_at rs o b rest : c_wf u8 o = true →
  split_record (zlen (frames rs)) (frames rs ++ frame o b ++ rest) =
    Ok (o, le_enc 8 (zlen b) ++ b ++ rest).
Proof.
  intros Ho. unfold split_record. zlen_facts.
  rewrite slice_tail by zlia. rewrite zdrop_app by done. cbn [mbind outcome_bind].
  unfold split_first_chunk. rewrite (proj2 (Z.leb_le _ _)) by (unfold frame; zlia).
  unfold frame. rewrite <-!app_assoc. cbn [ok_or mbind outcome_bind].
  rewrite ztake_app, zdrop_app by done. cbn. do 2 f_equal.
  apply le_dec_enc_u. by apply (uint_wf_in 1) in Ho.
Qed.
Lemma split_body_at limit o b rest : check_len (zlen b) limit = Some (zlen b) →
  split_body limit o (le_enc 8 (zlen b) ++ b ++ rest) = Ok b.
Proof.
  intros Hl. pose proof (check_len_Ok _ _ _ Hl) as (_ & Hm & _). zlen_facts. unfold split_body, split_first_chunk.
  rewrite (proj2 (Z.leb_le _ _)) by zlia. cbn [ok_or mbind outcome_bind].
  rewrite ztake_app, zdrop_app by done. rewrite le_dec_enc_u; [|split; [lia|unfold usize_max, u64_max in Hm; cbn; lia]].
  rewrite Hl. cbn [ok_or mbind outcome_bind]. rewrite (proj2 (Z.ltb_ge _ _)) by zlia.
  rewrite slice_Ok by zlia. by rewrite Z.sub_0_r, (zdrop_0 0), ztake_app by done.
Qed.

Lemma indexable_spec limit o b : indexable limit (o, b) = true →
  c_wf u8 o = true ∧ check_len (zlen b) limit = Some (zlen b) ∧
  (o = op.MESSAGE → ∃ h c, read_le MessageHeader_codec (rcursor_new b) = Ok (h, c) ∧
     (0 ≤ rpos c ≤ zlen b)%Z).
Proof.
  unfold indexable. cbn. rewrite !andb_true_iff, bool_decide_eq_true, orb_true_iff, negb_true_iff, Z.eqb_neq.
  intros [[Ho Hl] Hm]. split_and!; [done|done|]. intros ->. destruct Hm as [?|Hm]; [done|].
  destruct (read_le_cases MessageHeader_codec b) as [(h & c & E & Hp & _)|(e & E)]; rewrite E in Hm; [|done].
  by exists h, c.
Qed.

(** An entry of a chunk points to its message. *)
Lemma indexed_message_at limit rs1 o b rs2 slot_idx lt start n f h d :
  indexable limit (o, b) = true → message_in f (o, b) = Some (h, d) →
  indexed_message limit (mkMessageSlot slot_idx lt (zlen (frames rs1)))
    (mkChunkSlot (frames (rs1 ++ (o, b) :: rs2)) start n) = Ok (h, d) ∧ passes f h = true.
Proof.
  intros Hi Hm. apply indexable_spec in Hi as (Ho & Hl & Hh).
  unfold message_in in Hm. cbn in Hm. destruct (Z.eqb_spec o op.MESSAGE) as [->|]; [|done].
  destruct (Hh eq_refl) as (h' & c & E & Hp). rewrite E in Hm. destruct (passes f h') eqn:Hf; [|done].
  injection Hm as -> <-. split; [|done]. unfold indexed_message. cbn [ms_offset slot_buf].
  rewrite frames_app, frames_cons, split_record_at by done. cbn [mbind outcome_bind].
  unfold rassert. cbn [Z.eqb Pos.eqb op.MESSAGE mbind outcome_bind].
  rewrite split_body_at by done. cbn [mbind outcome_bind]. rewrite E. cbn [mbind outcome_bind].
  rewrite slice_tail by done. done.
Qed.

(** *** Indexing *)

(** The flag that tells whether the new entries need sorting, and the latest time. *)
Fixpoint scan_flags (order : ReadOrder) (sorting : bool) (latest : Z) (ms : list MessageSlot) : bool * Z :=
  match ms with
  | [] => (sorting, latest)
  | m :: ms =>
      scan_flags order
        (sorting || (match order with FileOrder => false | _ => true end && (ms_log_time m <? latest)%Z))
        (Z.max latest (ms_log_time m)) ms
  end.

Lemma index_loop_spec fuel slot_idx order f limit rs1 rs2 s :
  chunk_records_ok limit (rs1 ++ rs2) = true → length (frames rs2) ≤ fuel →
  let new := slots_of slot_idx f (zlen (frames rs1)) rs2 in
  let flags := scan_flags order (sc_sorting_required s) (sc_latest s) new in
  index_loop fuel slot_idx order f limit (frames (rs1 ++ rs2)) (zlen (frames rs1)) s =
    (Ok (), mkScan (sc_indexes s ++ new) flags.1 flags.2).
Proof.
  revert fuel rs1 s. induction rs2 as [|[o b] rs2 IH]; intros fuel rs1 s Hok Hf.
  - rewrite app_nil_r. destruct s, fuel; cbn [index_loop]; rewrite Z.ltb_irrefl; cbn; by rewrite app_nil_r.
  - pose proof Hok as Hok'. unfold chunk_records_ok in Hok'.
    rewrite forallb_app, !andb_true_iff, Z.leb_le in Hok'. destruct Hok' as [[_ Hi] Hsz].
    cbn [forallb] in Hi. apply andb_true_iff in Hi as [Hi _].
    pose proof (indexable_spec _ _ _ Hi) as (Ho & Hl & Hh).
    rewrite frames_app, zlen_app, zlen_frames_cons in Hsz. cbn [snd] in Hsz.
    pose proof (zlen_nonneg b). pose proof (zlen_nonneg (frames rs1)). pose proof (zlen_nonneg (frames rs2)).
    assert (∃ fuel', fuel = S fuel' ∧ length (frames rs2) ≤ fuel') as (fuel' & -> & Hf').
    { rewrite frames_cons, length_app in Hf. pose proof (zlen_frame o b) as Hz. unfold zlen in Hz.
      destruct fuel as [|fuel]; [lia|]. exists fuel. split; [done|lia]. }
    cbn [index_loop]. rewrite (proj2 (Z.ltb_lt _ _)) by (rewrite frames_app, zlen_app, zlen_frames_cons; cbn; lia).
    cbn [negb]. unfold index_record.
    rewrite frames_app, frames_cons, split_record_at by done. cbn [mbind outcome_bind].
    rewrite split_body_at by done. cbn [mbind outcome_bind].
    rewrite add_Ok by lia. cbn [mbind outcome_bind]. rewrite add_Ok by lia. cbn [mbind outcome_bind].
    assert (zlen (frames rs1) + 9 + zlen b = zlen (frames (rs1 ++ [(o, b)])))%Z as Hz.
    { rewrite frames_app, zlen_app, zlen_frames_cons. change (frames []) with (@nil byte). cbn [snd]. zlia. }
    cbn [slots_of snd].
    rewrite !(Z.add_assoc (zlen (frames rs1)) 9), Hz.
    assert (∀ s', index_loop fuel' slot_idx order f limit (frames rs1 ++ frame o b ++ frames rs2)
      (zlen (frames (rs1 ++ [(o, b)]))) s' =
      let new := slots_of slot_idx f (zlen (frames (rs1 ++ [(o, b)]))) rs2 in
      let flags := scan_flags order (sc_sorting_required s') (sc_latest s') new in
      (Ok (), mkScan (sc_indexes s' ++ new) flags.1 flags.2)) as IH'.
    { intros s'. rewrite <-frames_cons, <-frames_app. specialize (IH fuel' (rs1 ++ [(o, b)]) s').
      rewrite <-app_assoc in IH. by apply IH. }
    unfold message_in. cbn [fst snd]. destruct (Z.eqb_spec o op.MESSAGE) as [->|Hne]; cbn [negb].
    + destruct (Hh eq_refl) as (h & c & E & _). unfold read_record. rewrite E. cbn [fmap outcome_fmap fst mbind outcome_bind].
      destruct (passes f h); cbn [negb mret outcome_ret]; rewrite IH'; [|done]. cbn. by rewrite <-app_assoc.
    + cbn [mret outcome_ret]. by rewrite IH'.
Qed.

(** *** The entries of a chunk *)

Lemma slots_of_elem slot_idx f off rs m : m ∈ slots_of slot_idx f off rs →
  ∃ rs1 e rs2 h d, rs = rs1 ++ e :: rs2 ∧ message_in f e = Some (h, d) ∧
    m = mkMessageSlot slot_idx (m_log_time h) (off + zlen (frames rs1)).
Proof.
  revert off. induction rs as [|e rs IH]; intros off; cbn [slots_of]; [by intros ?%not_elem_of_nil|].
  assert (m ∈ slots_of slot_idx f (off + (9 + zlen e.2)) rs →
    ∃ rs1 e' rs2 h d, e :: rs = rs1 ++ e' :: rs2 ∧ message_in f e' = Some (h, d) ∧
      m = mkMessageSlot slot_idx (m_log_time h) (off + zlen (frames rs1))) as Hrest.
  { intros (rs1 & e' & rs2 & h & d & -> & Hm & ->)%IH. exists (e :: rs1), e', rs2, h, d.
    split_and!; [done|done|]. f_equal. rewrite zlen_frames_cons. lia. }
  destruct (message_in f e) as [[h d]|] eqn:He; [|done].
  intros [->|?]%elem_of_cons; [|auto]. exists [], e, rs, h, d. split_and!; [done|done|].
  f_equal. change (frames []) with (@nil byte). zlia.
Qed.

Lemma slots_of_offsets slot_idx f off rs :
  StronglySorted (λ a b, ms_offset a < ms_offset b)%Z (slots_of slot_idx f off rs).
Proof.
  revert off. induction rs as [|e rs IH]; intros off; cbn [slots_of]; [constructor|].
  destruct (message_in f e) as [[h d]|]; [|apply IH]. constructor; [apply IH|].
  apply Forall_forall. intros m (rs1 & e' & rs2 & h' & d' & _ & _ & ->)%slots_of_elem. cbn.
  pose proof (zlen_nonneg e.2). pose proof (zlen_nonneg (frames rs1)). lia.
Qed.

Lemma scan_flags_false order sorting latest ms : (scan_flags order sorting latest ms).1 = false →
  sorting = false ∧ (order ≠ FileOrder →
    StronglySorted (λ a b, ms_log_time a ≤ ms_log_time b)%Z ms ∧ Forall (λ m, latest ≤ ms_log_time m)%Z ms).
Proof.
  revert sorting latest. induction ms as [|m ms IH]; intros sorting latest; cbn [scan_flags fst].
  { intros ->. split; [done|]. intros _. split; constructor. }
  intros [Hs Hrest]%IH. apply orb_false_iff in Hs as [-> Hs]. split; [done|]. intros Ho.
  destruct (Hrest Ho) as [Hsort Hall].
  assert (latest ≤ ms_log_time m)%Z by (destruct order; [apply Z.ltb_ge in Hs; lia..|done]).
  split; constructor; try done; eapply Forall_impl; try exact Hall; cbn; intros; lia.
Qed.

(** Entries that came in order are in the order the reader wants. *)
Lemma in_order_sorted order slots slot_idx f off rs latest :
  let new := slots_of slot_idx f off rs in
  (scan_flags order false latest new).1 = false →
  StronglySorted (λ a b, message_leb order slots a b = true)
    (match order with ReverseLogTime => reverse new | _ => new end).
Proof.
  intros new Hf. apply scan_flags_false in Hf as [_ Hlog]. pose proof (slots_of_offsets slot_idx f off rs) as Hoff.
  fold new in Hoff.
  assert (∀ a b, a ∈ new → b ∈ new → start_of slots a = start_of slots b) as Hst.
  { intros a b (? & ? & ? & ? & ? & _ & _ & ->)%slots_of_elem (? & ? & ? & ? & ? & _ & _ & ->)%slots_of_elem. done. }
  assert (order ≠ FileOrder → StronglySorted (λ a b, by_key (λ m, [ms_log_time m; start_of slots m; ms_offset m]) a b = true) new) as Ht.
  { intros Ho. destruct (Hlog Ho) as [Hl _]. clear Hlog.
    assert (StronglySorted (λ a b, ms_log_time a ≤ ms_log_time b ∧ ms_offset a < ms_offset b)%Z new) as Hboth.
    { clear Hst. induction Hl as [|m l Hl IH Hm]; [constructor|]. apply StronglySorted_inv in Hoff as [Ho1 Ho2].
      constructor; [by apply IH|]. apply Forall_and. by split. }
    eapply StronglySorted_impl_in; [|exact Hboth]. cbn. intros a b Ha Hb [Hl1 Hl2]. unfold by_key. cbn.
    rewrite (Hst a b Ha Hb), Z.eqb_refl, (proj2 (Z.ltb_lt _ _) Hl2). cbn.
    rewrite !orb_true_r, andb_true_r, orb_true_iff, Z.ltb_lt, Z.eqb_eq. lia. }
  destruct order; cbn [message_leb].
  - by apply Ht.
  - apply StronglySorted_reverse. by apply Ht.
  - eapply StronglySorted_impl_in; [|exact Hoff]. cbn. intros a b Ha Hb Hl. unfold by_key. cbn.
    by rewrite (Hst a b Ha Hb), Z.eqb_refl, (proj2 (Z.ltb_lt _ _) Hl), orb_true_r.
Qed.

Lemma put_in_order_spec order slots slot_idx f rs l0 cur :
  let new := slots_of slot_idx f 0 rs in
  let l := put_in_order order slots (scan_flags order (negb (bool_decide (l0 = []))) 0 new).1
             (length l0) cur (l0 ++ new) in
  cur ≤ length l0 →
  StronglySorted (λ a b, message_leb order slots a b = true) (drop cur l) ∧
  drop cur l ≡ₚ drop cur l0 ++ new ∧ length l = length l0 + length new.
Proof.
  intros new l Hc. set (l1 := match order with ReverseLogTime => l0 ++ reverse new | _ => l0 ++ new end).
  assert (l = if (scan_flags order (negb (bool_decide (l0 = []))) 0 new).1
              then sort_from cur (message_leb order slots) l1 else l1) as Hl.
  { subst l l1. unfold put_in_order. destruct order; try done. by rewrite take_app_length, drop_app_length. }
  assert (l1 ≡ₚ l0 ++ new ∧ drop cur l1 ≡ₚ drop cur l0 ++ new) as [Hp Hd].
  { subst l1. destruct order; rewrite !drop_app_le by done; [done| |done]. by rewrite reverse_Permutation. }
  assert (length l1 = length l0 + length new) as Hlen by by rewrite Hp, length_app.
  clearbody l. subst l. destruct (scan_flags _ _ _ _).1 eqn:Hflag.
  - unfold sort_from. rewrite drop_app_length' by (rewrite length_take; lia). split_and!.
    + apply sort_by_sorted, _.
    + by rewrite sort_by_perm.
    + rewrite length_app, sort_by_perm, length_take, length_drop. lia.
  - split_and!; [|done|done]. pose proof (scan_flags_false _ _ _ _ Hflag) as [Hn _].
    apply negb_false_iff, bool_decide_eq_true in Hn. subst l0. cbn in Hc. replace cur with 0 by lia.
    rewrite bool_decide_true in Hflag by done. subst l1. rewrite drop_0.
    pose proof (in_order_sorted order slots slot_idx f 0 rs 0 Hflag) as Hs. by destruct order.
Qed.

(** ** The invariant *)

(** The entries not yielded yet, and the chunks not loaded yet. *)
Definition unread (r : IndexedReader) : list MessageSlot := drop (ix_cur_message_index r) (ix_message_indexes r).
Definition remaining (r : IndexedReader) : list ChunkIndex := drop (ix_cur_chunk_index r) (ix_chunk_indexes r).

Definition in_slot (i : nat) (l : list MessageSlot) : Z :=
  Z.of_nat (length (filter (λ m, chunk_slot_idx m = i) l)).

(** Where in the file an entry is: its chunk, and its place in there; and the messages with
    their places. *)
Definition place (slots : list ChunkSlot) (m : MessageSlot) : Z * Z := (start_of slots m, ms_offset m).
Definition placed (r : IndexedReader) (ms : list (MessageHeader * bytes)) : list ((Z * Z) * (MessageHeader * bytes)) :=
  zip (place (ix_chunk_slots r) <$> unread r) ms.

(** An entry, and the message it stands for. *)
Definition entry_ok (limit : option Z) (f : Filter) (slots : list ChunkSlot) (m : MessageSlot)
    (hd : MessageHeader * bytes) : Prop :=
  ∃ slot, slots !! chunk_slot_idx m = Some slot ∧ indexed_message limit m slot = Ok hd ∧
    passes f hd.1 = true ∧ m_log_time hd.1 = ms_log_time m.

Definition chunk_loadable (limit : option Z) (c : ChunkIndex) : Prop :=
  is_ok (compressed_data_offset c) ∧ check_len (ci_compressed_size c) limit = Some (ci_compressed_size c).

(** [ms] are the messages loaded and not yielded yet, in the order they will come. *)
Record ir_inv (r : IndexedReader) (ms : list (MessageHeader * bytes)) : Prop := {
  ii_cur : ix_cur_message_index r ≤ length (ix_message_indexes r);
  ii_chunk : ix_cur_chunk_index r ≤ length (ix_chunk_indexes r);
  ii_loadable : Forall (chunk_loadable (ix_record_length_limit r)) (remaining r);
  ii_entries : Forall2 (entry_ok (ix_record_length_limit r) (ix_filter r) (ix_chunk_slots r)) (unread r) ms;
  ii_counts i slot : ix_chunk_slots r !! i = Some slot → message_count slot = in_slot i (unread r);
  ii_sorted : StronglySorted (λ a b, message_leb (ix_order r) (ix_chunk_slots r) a b = true) (unread r);
  ii_order : StronglySorted (λ a b, chunk_leb (ix_order r) a b = true) (remaining r);
}.

Lemma in_slot_perm i l k : l ≡ₚ k → in_slot i l = in_slot i k.
Proof. intros Hp. unfold in_slot. by rewrite Hp. Qed.
Lemma in_slot_app i l k : in_slot i (l ++ k) = (in_slot i l + in_slot i k)%Z.
Proof. unfold in_slot. rewrite filter_app, length_app. lia. Qed.
Lemma in_slot_cons i m l : in_slot i (m :: l) = ((if decide (chunk_slot_idx m = i) then 1 else 0) + in_slot i l)%Z.
Proof. unfold in_slot. rewrite filter_cons. destruct (decide _); cbn [length]; lia. Qed.
Lemma in_slot_nonneg i l : (0 ≤ in_slot i l)%Z.
Proof. unfold in_slot. lia. Qed.

(** The data of a slot, which is all the order looks at, may stay while its count changes. *)
Lemma message_leb_starts order slots slots' a b :
  start_of slots a = start_of slots' a → start_of slots b = start_of slots' b →
  message_leb order slots a b = message_leb order slots' a b.
Proof. intros Ha Hb. destruct order; unfold message_leb, by_key, by_key_rev; by rewrite Ha, Hb. Qed.

Lemma indexed_message_count limit m slot n : indexed_message limit m (set_message_count n slot) = indexed_message limit m slot.
Proof. done. Qed.

(** [compressed_data_offset] of a chunk that can be loaded. *)
Lemma chunk_loadable_request limit c : chunk_loadable limit c →
  ∃ o, (∀ E, data_offset (E:=E) c = Ok o) ∧
    chunk_request c limit = Ok (ReadChunkRequest o (ci_compressed_size c)).
Proof.
  intros [[o Ho] Hl]. exists o. unfold chunk_request, data_offset. rewrite Hl, Ho. done.
Qed.

(** ** [next_event] *)

(** When the message [m] may come before the chunk [c]. *)
Definition message_first (r : IndexedReader) (m : MessageSlot) (c : ChunkIndex) : Prop :=
  yield_chunk_first r c m = Ok false.

Lemma remaining_head r : ix_chunk_indexes r !! ix_cur_chunk_index r = head (remaining r).
Proof. unfold remaining. rewrite <-(Nat.add_0_r (ix_cur_chunk_index r)) at 1. rewrite <-lookup_drop. by destruct (drop _ _). Qed.
Lemma unread_head r : ix_message_indexes r !! ix_cur_message_index r = head (unread r).
Proof. unfold unread. rewrite <-(Nat.add_0_r (ix_cur_message_index r)) at 1. rewrite <-lookup_drop. by destruct (drop _ _). Qed.

Lemma yield_message_spec r ms m hd ms' : ir_inv r ms → head (unread r) = Some m → ms = hd :: ms' →
  ∃ r', yield_message r m = Ok (EvMessage hd.1 hd.2, r') ∧ ir_inv r' ms' ∧ remaining r' = remaining r ∧
    ix_order r' = ix_order r ∧ ix_filter r' = ix_filter r ∧ ix_record_length_limit r' = ix_record_length_limit r ∧
    placed r ms = (place (ix_chunk_slots r) m, hd) :: placed r' ms'.
Proof.
  intros Hi Hm ->. pose proof Hi as [Hcur Hchunk Hload Hent Hcnt Hsort Hord].
  destruct (unread r) as [|m0 ums] eqn:Hu; [done|]. injection Hm as ->.
  apply Forall2_cons in Hent as [(slot & Hs & Hmsg & Hp & Ht) Hent].
  unfold yield_message. rewrite Hs. cbn [expect mbind outcome_bind]. rewrite Hmsg. cbn [mbind outcome_bind].
  destruct hd as [h d]. pose proof (Hcnt _ _ Hs) as Hn. rewrite in_slot_cons, decide_True in Hn by done.
  pose proof (in_slot_nonneg (chunk_slot_idx m) ums). rewrite sub_Ok by lia. cbn [mbind outcome_bind].
  eexists. split; [done|]. set (r' := ix_set_slots _ _).
  assert (unread r' = ums) as Hu'.
  { unfold unread in *. cbn. rewrite <-Nat.add_1_r, <-drop_drop, Hu. done. }
  assert (∀ a, start_of (ix_chunk_slots r') a = start_of (ix_chunk_slots r) a) as Hst.
  { intros a. unfold start_of. cbn. destruct (decide (chunk_slot_idx m = chunk_slot_idx a)) as [He|];
      [rewrite <-He, list_lookup_insert_eq, Hs by (by eapply lookup_lt_Some)|rewrite list_lookup_insert_ne by done]; done. }
  split_and!; try done.
  2:{ unfold placed. rewrite Hu, Hu'. cbn. f_equal. f_equal. apply list_fmap_ext. intros _ a _. unfold place. by rewrite Hst. }
  split; rewrite ?Hu'; cbn [r' ix_cur_message_index ix_set_slots ix_set_messages ix_message_indexes]; try done.
  - apply (f_equal length) in Hu. unfold unread in Hu. rewrite length_drop in Hu. cbn in Hu. lia.
  - eapply Forall2_impl; [exact Hent|]. intros a b (slot' & Hs' & Hb). unfold entry_ok. cbn.
    destruct (decide (chunk_slot_idx m = chunk_slot_idx a)) as [He|].
    + rewrite <-He, list_lookup_insert_eq by (by eapply lookup_lt_Some). rewrite <-He, Hs in Hs'. injection Hs' as <-.
      by eexists.
    + rewrite list_lookup_insert_ne by done. by exists slot'.
  - intros i slot'. cbn. destruct (decide (chunk_slot_idx m = i)) as [<-|Hne].
    + rewrite list_lookup_insert_eq by (by eapply lookup_lt_Some). intros [= <-]. cbn. lia.
    + rewrite list_lookup_insert_ne by done. intros Hs'%Hcnt. rewrite Hs', in_slot_cons, decide_False by done. lia.
  - apply StronglySorted_inv in Hsort as [Hsort _]. eapply StronglySorted_impl_in; [|exact Hsort].
    cbn. intros a b _ _ <-. by apply message_leb_starts.
Qed.

Lemma next_event_spec r ms : ir_inv r ms →
  (ix_next_event r = (Ok None, r) ∧ ms = [] ∧ remaining r = []) ∨
  (∃ c cs o, remaining r = c :: cs ∧ (∀ E, data_offset (E:=E) c = Ok o) ∧
     ix_next_event r = (Ok (Some (ReadChunkRequest o (ci_compressed_size c))), r)) ∨
  (∃ m h d ms' r', ms = (h, d) :: ms' ∧ ix_next_event r = (Ok (Some (EvMessage h d)), r') ∧ ir_inv r' ms' ∧
     remaining r' = remaining r ∧ ix_order r' = ix_order r ∧ ix_filter r' = ix_filter r ∧
     ix_record_length_limit r' = ix_record_length_limit r ∧ m_log_time h = ms_log_time m ∧
     (∀ c, head (remaining r) = Some c → message_first r m c) ∧
     head (unread r) = Some m ∧ placed r ms = (place (ix_chunk_slots r) m, (h, d)) :: placed r' ms').
Proof.
  intros Hi. pose proof Hi as [Hcur Hchunk Hload Hent Hcnt Hsort Hord].
  unfold ix_next_event. rewrite unread_head. destruct (unread r) as [|m ums] eqn:Hu; cbn [head].
  - inversion Hent; subst. rewrite remaining_head. destruct (remaining r) as [|c cs] eqn:Hr; cbn [head]; [by left|].
    right; left. apply Forall_cons in Hload as [Hc _]. destruct (chunk_loadable_request _ _ Hc) as (o & Ho & Hq).
    exists c, cs, o. rewrite Hq. done.
  - inversion Hent as [|? [h d] ? ms' Hm Hent']; subst.
    destruct Hm as (slot & Hs & Hmsg & Hp & Ht). cbn in Ht.
    assert (∃ b, ∀ c, head (remaining r) = Some c → yield_chunk_first r c m = Ok (b c)) as [b Hb].
    { exists (λ c, match yield_chunk_first r c m with Ok b => b | _ => false end). intros c Hc.
      unfold yield_chunk_first. destruct (ix_order r); try done. rewrite Hs. cbn.
      destruct (remaining r) as [|c' cs]; [done|]. injection Hc as ->. apply Forall_cons in Hload as [[[o Ho] _] _].
      unfold data_offset. by rewrite Ho. }
    unfold chunk_first. rewrite remaining_head.
    assert (∀ c, head (remaining r) = Some c → b c = true → ∃ o, (∀ E, data_offset (E:=E) c = Ok o) ∧
      chunk_request c (ix_record_length_limit r) = Ok (ReadChunkRequest o (ci_compressed_size c))) as Hreq.
    { intros c Hc _. apply chunk_loadable_request. destruct (remaining r); [done|]. injection Hc as ->.
      by apply Forall_cons in Hload as [? _]. }
    destruct (yield_message_spec r ((h, d) :: ms') m (h, d) ms' Hi ltac:(by rewrite Hu) eq_refl)
      as (r' & Hy & Hi' & Hrem & Ho' & Hf' & Hl' & Hplaced).
    destruct (remaining r) as [|c cs] eqn:Hr; cbn [head] in *.
    + right; right. exists m, h, d, ms', r'. cbn. rewrite Hy. split_and!; done.
    + rewrite (Hb c eq_refl). cbn. destruct (b c) eqn:Hbc; cbn.
      * right; left. destruct (Hreq c eq_refl Hbc) as (o & Ho & Hq). exists c, cs, o. rewrite Hq. done.
      * right; right. exists m, h, d, ms', r'. rewrite Hy. split_and!; try done.
        intros c' [= <-]. unfold message_first. by rewrite (Hb c eq_refl), Hbc.
Qed.

(** ** [insert_chunk_record_data] *)

Lemma find_slot_spec start slots i slots' : find_or_make_chunk_slot start slots = (i, slots') →
  (∀ slot, slots !! i = Some slot → message_count slot = 0%Z) ∧
  slots' !! i = Some (mkChunkSlot [] start 0) ∧ (∀ j, j ≠ i → slots' !! j = slots !! j).
Proof.
  revert i slots'. induction slots as [|slot slots IH]; intros i slots'; cbn [find_or_make_chunk_slot].
  - intros [= <- <-]. split_and!; [done|done|]. by intros [|j] Hj.
  - destruct (Z.eqb_spec (message_count slot) 0) as [Hz|Hz].
    + intros [= <- <-]. split_and!; [by intros ? [= <-]|done|]. by intros [|j] Hj.
    + destruct (find_or_make_chunk_slot start slots) as [i' s'] eqn:E. intros [= <- <-].
      destruct (IH _ _ eq_refl) as (H1 & H2 & H3). split_and!; [done|done|].
      intros [|j] Hj; [done|]. cbn. apply H3. congruence.
Qed.

Lemma find_chunk_spec limit o cs : Forall (chunk_loadable limit) cs →
  (find_chunk o cs = Ok None ∧ Forall (λ c, ∃ o', data_offset (E:=McapError) c = Ok o' ∧ o' ≠ o) cs) ∨
  (∃ i c, find_chunk o cs = Ok (Some (i, c)) ∧ cs !! i = Some c ∧ (∀ E, data_offset (E:=E) c = Ok o)).
Proof.
  intros Hc. induction Hc as [|c cs Hc _ IH]; cbn [find_chunk]; [by left|].
  destruct (chunk_loadable_request _ _ Hc) as (o' & Ho & _). rewrite Ho. cbn [mbind outcome_bind].
  destruct (Z.eqb_spec o' o) as [->|Hne]; [right; by exists 0, c|].
  destruct IH as [[-> Hall]|(i & c' & -> & Hi & Ho')]; cbn.
  - left. split; [done|]. constructor; [|done]. by exists o'.
  - right. by exists (S i), c'.
Qed.

Lemma drop_delete {A} n i (l : list A) : drop n (delete (n + i) l) = delete i (drop n l).
Proof. revert l. induction n as [|n IH]; intros [|x l]; cbn; done || apply IH. Qed.
Lemma drop_S_delete {A} n (l : list A) : drop (S n) l = delete 0 (drop n l).
Proof. revert l. induction n as [|n IH]; intros [|x l]; cbn; done || apply IH. Qed.

Lemma elem_of_in_slot m l : m ∈ l → (0 < in_slot (chunk_slot_idx m) l)%Z.
Proof.
  intros Hm. unfold in_slot. assert (m ∈ filter (λ m', chunk_slot_idx m' = chunk_slot_idx m) l) as Hf.
  { by apply list_elem_of_filter. }
  destruct (filter _ l); [by apply not_elem_of_nil in Hf|]. cbn. lia.
Qed.

Lemma in_slot_0 i l : (∀ m, m ∈ l → chunk_slot_idx m ≠ i) → in_slot i l = 0%Z.
Proof.
  intros Hl. unfold in_slot. replace (filter _ l) with (@nil MessageSlot); [done|]. symmetry.
  induction l as [|m l IH]; [done|]. rewrite filter_cons, decide_False by (apply Hl; left).
  apply IH. intros ? ?. apply Hl. by right.
Qed.
Lemma in_slot_all i l : (∀ m, m ∈ l → chunk_slot_idx m = i) → in_slot i l = zlen l.
Proof.
  intros Hl. induction l as [|m l IH]; [done|].
  rewrite in_slot_cons, decide_True, IH, zlen_cons by (try (apply Hl; left); intros; apply Hl; by right). done.
Qed.

(** The entries of a chunk stand for its messages. *)
Lemma slots_of_messages limit f slots i slot rs1 rs2 :
  forallb (indexable limit) rs2 = true → slots !! i = Some slot → slot_buf slot = frames (rs1 ++ rs2) →
  Forall2 (entry_ok limit f slots) (slots_of i f (zlen (frames rs1)) rs2) (messages_of f rs2).
Proof.
  revert rs1. induction rs2 as [|[o b] rs2 IH]; intros rs1 Hok Hs Hb; cbn [slots_of messages_of omap list_omap]; [constructor|].
  cbn [forallb] in Hok. apply andb_true_iff in Hok as [Hi Hok].
  assert (Forall2 (entry_ok limit f slots) (slots_of i f (zlen (frames rs1) + (9 + zlen b)) rs2) (messages_of f rs2)) as Hrest.
  { specialize (IH (rs1 ++ [(o, b)]) Hok Hs). rewrite <-app_assoc in IH. specialize (IH Hb).
    replace (zlen (frames rs1) + (9 + zlen b))%Z with (zlen (frames (rs1 ++ [(o, b)]))); [done|].
    rewrite frames_app, zlen_app, zlen_frames_cons. change (frames []) with (@nil byte). cbn [snd]. zlia. }
  destruct (message_in f (o, b)) as [[h d]|] eqn:Hm; [|done]. constructor; [|exact Hrest].
  exists slot. cbn [chunk_slot_idx ms_log_time fst]. destruct slot as [buf start n]. cbn in Hb. subst buf.
  destruct (indexed_message_at limit rs1 o b rs2 i (m_log_time h) start n f h d Hi Hm) as [Hx Hf].
  by split_and!.
Qed.

Section insert.
Context `{ChunkCodecs}.

Lemma entry_ok_other limit f slots slots' m hd i : chunk_slot_idx m ≠ i →
  (∀ j, j ≠ i → slots' !! j = slots !! j) → entry_ok limit f slots m hd → entry_ok limit f slots' m hd.
Proof. intros Hm Hs (slot & Hl & ?). exists slot. by rewrite Hs. Qed.

Lemma zip_fmap_places {A B C} (g : A → C) (l : list A) (k : list B) : zip (g <$> l) k = (λ p, (g p.1, p.2)) <$> zip l k.
Proof. revert k. induction l as [|x l IH]; intros [|y k]; try done. cbn. f_equal. apply IH. Qed.
Lemma perm_forall2 {A B} (P : A → B → Prop) l l' k : l ≡ₚ l' → Forall2 P l k →
  ∃ k', k ≡ₚ k' ∧ Forall2 P l' k' ∧ zip l k ≡ₚ zip l' k'.
Proof.
  intros Hl. revert k. induction Hl as [|x l l' _ IH|x y l|l1 l2 l3 _ IH1 _ IH2]; intros k Hk.
  - exists k. split_and!; [done|by inversion Hk|by destruct k].
  - inversion Hk as [|? b ? k0 Hx Hk0]; subst. destruct (IH _ Hk0) as (k' & ? & ? & ?). exists (b :: k').
    split_and!; [by constructor|by constructor|by constructor].
  - inversion Hk as [|? b ? k0 Hx Hk0]; subst. inversion Hk0 as [|? b' ? k1 Hy Hk1]; subst.
    exists (b' :: b :: k1). split_and!; [constructor|by repeat constructor|constructor].
  - destruct (IH1 _ Hk) as (k' & Hk' & ? & ?). destruct (IH2 k') as (k'' & ? & ? & ?); [done|].
    exists k''. split_and!; [by etrans|done|by etrans].
Qed.

(** A chunk is loaded: its messages join those waiting. *)
Lemma insert_spec r ms o data i c rs : ir_inv r ms →
  find_chunk o (remaining r) = Ok (Some (i, c)) → remaining r !! i = Some c →
  zlen data = ci_compressed_size c →
  decompress_chunk (ci_compression c) (ci_uncompressed_size c) data = Ok (frames rs) →
  chunk_records_ok (ix_record_length_limit r) rs = true →
  ∃ r' ms', insert_chunk_record_data o data r = (Ok (), r') ∧ ir_inv r' ms' ∧
    ms' ≡ₚ ms ++ messages_of (ix_filter r) rs ∧ remaining r' = delete i (remaining r) ∧
    ix_order r' = ix_order r ∧ ix_filter r' = ix_filter r ∧ ix_record_length_limit r' = ix_record_length_limit r ∧
    placed r' ms' ≡ₚ placed r ms ++ zip ((o,.) <$> offsets_of (ix_filter r) 0 rs) (messages_of (ix_filter r) rs).
Proof.
  intros Hi Hfind Hc Hsize Hdec Hrs. pose proof Hi as [Hcur Hchunk Hload Hent Hcnt Hsort Hord].
  unfold insert_chunk_record_data. rewrite (proj2 (Nat.ltb_ge _ _)) by done.
  fold (remaining r). rewrite Hfind, Hsize, Z.eqb_refl. cbn [negb].
  destruct (find_or_make_chunk_slot o (ix_chunk_slots r)) as [k slots'] eqn:Hk.
  destruct (find_slot_spec _ _ _ _ Hk) as (Hfree & Hnew & Hother). rewrite Hdec.
  set (slots2 := alter _ k slots').
  assert (slots2 !! k = Some (mkChunkSlot (frames rs) o 0)) as Hk2 by (subst slots2; by rewrite list_lookup_alter_eq, Hnew).
  assert (∀ j, j ≠ k → slots2 !! j = ix_chunk_slots r !! j) as Ho2.
  { intros j Hj. subst slots2. rewrite list_lookup_alter_ne by done. by apply Hother. }
  assert (∀ m, m ∈ unread r → chunk_slot_idx m ≠ k) as Hnot.
  { intros m Hm <-. pose proof (elem_of_in_slot m _ Hm). apply list_elem_of_lookup in Hm as [j Hj].
    destruct (Forall2_lookup_l _ _ _ _ _ Hent Hj) as (hd & _ & slot & Hs & _).
    pose proof (Hfree _ Hs). pose proof (Hcnt _ _ Hs). lia. }
  change (ix_set_slots slots2 (ix_set_slots slots' r)) with (ix_set_slots slots2 r).
  clearbody slots2. clear Hk Hnew Hother Hfree slots'.
  unfold index_slot. cbn [ix_message_indexes ix_set_slots ix_cur_message_index].
  set (cur := if length (ix_message_indexes r) <=? ix_cur_message_index r then 0 else ix_cur_message_index r).
  set (l0 := if length (ix_message_indexes r) <=? ix_cur_message_index r then [] else ix_message_indexes r).
  assert (drop cur l0 = unread r ∧ cur ≤ length l0) as [Hu0 Hc0].
  { subst cur l0. unfold unread. destruct (Nat.leb_spec (length (ix_message_indexes r)) (ix_cur_message_index r)); [|done].
    split; [by rewrite (drop_ge (ix_message_indexes r))|done]. }
  set (r0 := if length (ix_message_indexes r) <=? ix_cur_message_index r then _ else _).
  assert (r0 = mkIndexedReader (ix_chunk_indexes r) (ix_cur_chunk_index r) slots2 l0 cur (ix_order r) (ix_filter r)
    (ix_record_length_limit r)) as ->.
  { subst r0 l0 cur. by destruct (_ <=? _). }
  cbn [ix_chunk_slots ix_order ix_filter ix_cur_message_index ix_record_length_limit ix_message_indexes].
  unfold index_messages. rewrite Hk2. cbn [slot_buf].
  pose proof (index_loop_spec (length (frames rs)) k (ix_order r) (ix_filter r) (ix_record_length_limit r) [] rs
    (mkScan l0 (negb (bool_decide (l0 = []))) 0) Hrs ltac:(lia)) as Hloop.
  cbn [app sc_indexes sc_sorting_required sc_latest] in Hloop. change (zlen (frames [])) with 0%Z in Hloop.
  cbn zeta in Hloop. rewrite Hloop. clear Hloop. cbn [sc_indexes sc_sorting_required].
  pose proof (put_in_order_spec (ix_order r) slots2 k (ix_filter r) rs l0 cur Hc0) as Hput.
  set (new := slots_of k (ix_filter r) 0 rs) in *.
  set (l := put_in_order _ _ _ _ _ _) in *. rewrite Hu0 in Hput. destruct Hput as (Hs' & Hp' & Hlen').
  assert (∀ m, m ∈ new → chunk_slot_idx m = k) as Hnewk by (by intros m (?&?&?&?&?&_&_&->)%slots_of_elem).
  set (n := Z.of_nat (length l - length l0)).
  assert (n = zlen new) as Hn by (subst n; unfold zlen; lia).
  set (slots3 := alter (set_message_count n) k slots2).
  assert (slots3 !! k = Some (mkChunkSlot (frames rs) o n)) as Hk3 by (subst slots3; by rewrite list_lookup_alter_eq, Hk2).
  assert (∀ j, j ≠ k → slots3 !! j = ix_chunk_slots r !! j) as Ho3.
  { intros j Hj. subst slots3. rewrite list_lookup_alter_ne by done. by apply Ho2. }
  set (cur' := if (n <? Z.of_nat cur)%Z then 0 else cur). set (l' := if (n <? Z.of_nat cur)%Z then drop cur l else l).
  assert (drop cur' l' = drop cur l ∧ cur' ≤ length l') as [Hd' Hc'].
  { subst cur' l'. destruct (n <? Z.of_nat cur)%Z; [split; [done|lia]|split; [done|lia]]. }
  assert (Forall2 (entry_ok (ix_record_length_limit r) (ix_filter r) slots3) (unread r ++ new)
    (ms ++ messages_of (ix_filter r) rs)) as Hent3.
  { apply Forall2_app.
    - eapply Forall2_impl with (P := λ m hd, m ∈ unread r ∧ entry_ok _ _ (ix_chunk_slots r) m hd).
      + apply Forall2_same_length_lookup. apply Forall2_same_length_lookup in Hent as [Hl Hx].
        split; [done|]. intros j m hd Hm Hhd. split; [by eapply list_elem_of_lookup_2|by eapply Hx].
      + intros m hd [Hm He]. by apply (entry_ok_other _ _ _ _ _ _ k (Hnot m Hm) Ho3).
    - apply andb_true_iff in Hrs as [Hall _].
      by apply (slots_of_messages _ _ _ _ _ [] rs Hall Hk3). }
  destruct (perm_forall2 _ _ (drop cur l) _ (symmetry Hp') Hent3) as (ms' & Hms' & Hent' & Hzip).
  eexists _, ms'. split; [reflexivity|]. set (r' := match i with 0 => _ | S _ => _ end).
  assert (ix_message_indexes r' = l' ∧ ix_cur_message_index r' = cur' ∧ ix_chunk_slots r' = slots3 ∧
    ix_order r' = ix_order r ∧ ix_filter r' = ix_filter r ∧ ix_record_length_limit r' = ix_record_length_limit r)
    as (E1 & E2 & E3 & E4 & E5 & E6).
  { subst r' l' cur' slots3 n. cbn [ix_cur_message_index ix_set_messages ix_set_slots]. destruct i, (_ <? _)%Z; done. }
  assert (remaining r' = delete i (remaining r) ∧ ix_cur_chunk_index r' ≤ length (ix_chunk_indexes r')) as [Er Ec].
  { unfold remaining. assert (ix_cur_chunk_index r + i < length (ix_chunk_indexes r)) as Hlt.
    { apply lookup_lt_Some in Hc. unfold remaining in Hc. rewrite length_drop in Hc. lia. }
    subst r'. cbn [ix_cur_message_index ix_set_messages ix_set_slots]. destruct i as [|i]; destruct (_ <? _)%Z;
      cbn [ix_chunk_indexes ix_cur_chunk_index ix_set_chunks ix_set_messages ix_set_slots];
      (split; [first [apply drop_S_delete|apply drop_delete]|]);
      rewrite ?length_delete by (by apply lookup_lt_is_Some); lia. }
  clearbody r'.
  split_and!; try done.
  2:{ assert (unread r' = drop cur l) as Hur by by unfold unread; rewrite E1, E2.
      unfold placed. rewrite Hur, E3, !zip_fmap_places, <-Hzip. pose proof (Forall2_length _ _ _ Hent) as Hlms.
      rewrite zip_with_app, fmap_app by done. apply reflexive_eq. f_equal.
      - apply list_fmap_ext. intros j [m hd] Hj. cbn. f_equal. unfold place, start_of. rewrite Ho3; [done|].
        apply Hnot. apply list_elem_of_lookup_2 in Hj. by apply elem_of_zip_l in Hj.
      - unfold new. rewrite <-(slots_offsets k). fold new. rewrite !zip_fmap_places, <-list_fmap_compose.
        apply list_fmap_ext. intros j [m hd] Hj. cbn. f_equal. unfold place, start_of.
        apply list_elem_of_lookup_2, elem_of_zip_l in Hj. by rewrite (Hnewk m Hj), Hk3. }
  split; unfold unread; rewrite ?E1, ?E2, ?E3, ?E4, ?E5, ?E6, ?Hd'; try done.
  - rewrite Er. by apply Forall_delete.
  - intros j slot. rewrite (in_slot_perm _ _ _ Hp'), in_slot_app. destruct (decide (j = k)) as [->|Hj].
    + rewrite Hk3. intros [= <-]. cbn. rewrite (in_slot_0 k (unread r)) by done. by rewrite in_slot_all.
    + rewrite Ho3 by done. intros Hs%Hcnt. rewrite Hs, (in_slot_0 j new); [lia|]. intros m ->%Hnewk. done.
  - eapply StronglySorted_impl_in; [|exact Hs']. cbn. intros a b _ _ <-. symmetry.
    apply message_leb_starts; unfold start_of;
      subst slots3; match goal with |- context [chunk_slot_idx ?x] =>
        destruct (decide (k = chunk_slot_idx x)) as [<-|];
          [by rewrite list_lookup_alter_eq, Hk2|by rewrite list_lookup_alter_ne] end.
  - rewrite Er. by apply StronglySorted_delete.
Qed.
End insert.

(** ** Clients *)

Section clients.
Context `{ChunkCodecs}.

(** A client that has the chunk data [src offset] at hand: it loads a chunk when the
    reader asks for one (that one, or any other) until the messages end. *)
Inductive ir_run (src : Z → bytes) : IndexedReader → list (MessageHeader * bytes) → Prop :=
| ir_end r r' : ix_next_event r = (Ok None, r') → ir_run src r []
| ir_message r r' h d ms :
    ix_next_event r = (Ok (Some (EvMessage h d)), r') → ir_run src r' ms → ir_run src r ((h, d) :: ms)
| ir_load r r1 o len o' r2 ms :
    ix_next_event r = (Ok (Some (ReadChunkRequest o len)), r1) →
    insert_chunk_record_data o' (src o') r1 = (Ok (), r2) → ir_run src r2 ms → ir_run src r ms.

(** The client that loads what it is asked for. *)
Fixpoint drain (fuel : nat) (src : Z → bytes) (r : IndexedReader)
    : list (MessageHeader * bytes) * McapResult () :=
  match fuel with
  | 0 => ([], Fuel)
  | S fuel =>
      match ix_next_event r with
      | (Ok None, _) => ([], Ok ())
      | (Ok (Some (EvMessage h d)), r) => let '(ms, o) := drain fuel src r in ((h, d) :: ms, o)
      | (Ok (Some (ReadChunkRequest offset _)), r) =>
          match insert_chunk_record_data offset (src offset) r with
          | (Ok _, r) => drain fuel src r
          | (Err e, _) => ([], Err e)
          | (Panic, _) => ([], Panic)
          | (Fuel, _) => ([], Fuel)
          end
      | (Err e, _) => ([], Err e)
      | (Panic, _) => ([], Panic)
      | (Fuel, _) => ([], Fuel)
      end
  end.

(** The data at the chunk's offset is its records [recs offset], compressed as the
    index says. *)
Definition offset_of (c : ChunkIndex) : Z := match compressed_data_offset c with Ok o => o | _ => 0 end.
Definition served (limit : option Z) (src : Z → bytes) (recs : Z → list (Z * bytes)) (c : ChunkIndex) : Prop :=
  zlen (src (offset_of c)) = ci_compressed_size c ∧
  decompress_chunk (ci_compression c) (ci_uncompressed_size c) (src (offset_of c)) = Ok (frames (recs (offset_of c))) ∧
  chunk_records_ok limit (recs (offset_of c)) = true.

(** The messages of some chunks. *)
Definition chunk_messages (f : Filter) (recs : Z → list (Z * bytes)) (c : ChunkIndex) : list (MessageHeader * bytes) :=
  messages_of f (recs (offset_of c)).
Definition all_messages (f : Filter) (recs : Z → list (Z * bytes)) (cs : list ChunkIndex) : list (MessageHeader * bytes) :=
  concat (chunk_messages f recs <$> cs).

(** With their places. *)
Definition chunk_placed (f : Filter) (recs : Z → list (Z * bytes)) (c : ChunkIndex) : list ((Z * Z) * (MessageHeader * bytes)) :=
  zip ((offset_of c,.) <$> offsets_of f 0 (recs (offset_of c))) (chunk_messages f recs c).
Definition all_placed (f : Filter) (recs : Z → list (Z * bytes)) (cs : list ChunkIndex) : list ((Z * Z) * (MessageHeader * bytes)) :=
  concat (chunk_placed f recs <$> cs).

Lemma elem_of_all_messages f recs cs x : x ∈ all_messages f recs cs ↔ ∃ c, c ∈ cs ∧ x ∈ chunk_messages f recs c.
Proof.
  unfold all_messages. rewrite list_elem_of_In, in_concat. setoid_rewrite <-list_elem_of_In. split.
  - intros (l & (c & -> & Hc)%list_elem_of_fmap & Hx). by exists c.
  - intros (c & Hc & Hx). exists (chunk_messages f recs c). split; [|done]. by apply list_elem_of_fmap_2.
Qed.

(** The times an index gives hold for the chunk's messages. *)
Definition timed (f : Filter) (recs : Z → list (Z * bytes)) (c : ChunkIndex) : Prop :=
  ∀ hd, hd ∈ chunk_messages f recs c →
    (ci_message_start_time c ≤ m_log_time hd.1 ≤ ci_message_end_time c)%Z.

Definition in_time_order (order : ReadOrder) (ms : list (MessageHeader * bytes)) : Prop :=
  match order with
  | LogTime => StronglySorted (λ a b, m_log_time a.1 ≤ m_log_time b.1)%Z ms
  | ReverseLogTime => StronglySorted (λ a b, m_log_time b.1 ≤ m_log_time a.1)%Z ms
  | FileOrder => True
  end.

Lemma offset_of_data c o : (∀ E, data_offset (E:=E) c = Ok o) → offset_of c = o.
Proof.
  intros Ho. specialize (Ho McapError). unfold data_offset, offset_of in *.
  destruct (compressed_data_offset c); congruence.
Qed.

Lemma Forall2_sorted {A B} (P : A → B → Prop) (R : A → A → Prop) (S : B → B → Prop) l k :
  (∀ a a' b b', P a b → P a' b' → R a a' → S b b') → Forall2 P l k → StronglySorted R l → StronglySorted S k.
Proof.
  intros HS Hlk. induction Hlk as [|a b l k Hab Hlk IH]; intros Hs; [constructor|].
  apply StronglySorted_inv in Hs as [Hs Ha]. constructor; [by apply IH|].
  clear IH Hs. induction Hlk as [|a' b' l k Hab' Hlk IH]; [constructor|].
  apply Forall_cons in Ha as [Ha1 Ha]. constructor; [by eapply HS|by apply IH].
Qed.

Lemma waiting_in_order r ms : ir_inv r ms → in_time_order (ix_order r) ms.
Proof.
  intros [? ? ? Hent _ Hsort _]. unfold in_time_order. destruct (ix_order r); [..|done];
    (eapply Forall2_sorted; [|exact Hent|exact Hsort]);
    intros a a' b b' (? & _ & _ & _ & ->) (? & _ & _ & _ & ->); cbn beta; unfold message_leb;
    [apply (by_key_head ms_log_time)|apply (by_key_rev_head ms_log_time)].
Qed.

(** A message that comes first is not after anything left. *)
Lemma first_of_all r m h recs hd cs : timed (ix_filter r) recs hd → 
  StronglySorted (λ a b, chunk_leb (ix_order r) a b = true) cs →
  hd ∈ cs → (∀ c, head cs = Some c → message_first r m c) → m_log_time h = ms_log_time m →
  ∀ x, x ∈ chunk_messages (ix_filter r) recs hd → in_time_order (ix_order r) [(h, []); x].
Proof.
  intros Ht Hs Hin Hfirst Hm x Hx. specialize (Ht x Hx). destruct cs as [|c cs]; [by apply not_elem_of_nil in Hin|].
  specialize (Hfirst c eq_refl). unfold message_first, yield_chunk_first in Hfirst.
  apply StronglySorted_inv in Hs as [_ Hs]. rewrite Forall_forall in Hs.
  unfold in_time_order. destruct (ix_order r); [..|done]; injection Hfirst as Hfirst; apply Z.ltb_ge in Hfirst;
    (constructor; [repeat constructor|constructor; [|constructor]]); cbn;
    apply elem_of_cons in Hin as [->|Hin]; try lia; specialize (Hs _ Hin); cbn beta in Hs; unfold chunk_leb in Hs;
    [apply (by_key_head ci_message_start_time) in Hs|apply (by_key_rev_head ci_message_end_time) in Hs]; lia.
Qed.

Lemma in_time_order_cons order h d ms :
  (∀ x, x ∈ ms → in_time_order order [(h, []); x]) → in_time_order order ms → in_time_order order ((h, d) :: ms).
Proof.
  intros Hx Hs. unfold in_time_order in *. destruct order; [..|done]; (constructor; [done|]); apply Forall_forall;
    intros x Hin; specialize (Hx x Hin); apply StronglySorted_inv in Hx as [_ Hx]; by apply Forall_cons in Hx as [? _].
Qed.

Lemma delete_perm {A} i (l : list A) x : l !! i = Some x → l ≡ₚ x :: delete i l.
Proof. intros Hl. by apply delete_Permutation. Qed.

Lemma all_messages_delete f recs cs i c : cs !! i = Some c →
  all_messages f recs cs ≡ₚ chunk_messages f recs c ++ all_messages f recs (delete i cs).
Proof.
  intros Hi. unfold all_messages. rewrite (delete_perm i cs c Hi) at 1. done.
Qed.

(** Loading a chunk from the source. *)
Lemma load_spec src recs r ms o : ir_inv r ms → Forall (served (ix_record_length_limit r) src recs) (remaining r) →
  (∃ i c, remaining r !! i = Some c ∧ offset_of c = o ∧
     ∃ r' ms', insert_chunk_record_data o (src o) r = (Ok (), r') ∧ ir_inv r' ms' ∧
       ms' ≡ₚ ms ++ chunk_messages (ix_filter r) recs c ∧ remaining r' = delete i (remaining r) ∧
       ix_order r' = ix_order r ∧ ix_filter r' = ix_filter r ∧ ix_record_length_limit r' = ix_record_length_limit r ∧
       placed r' ms' ≡ₚ placed r ms ++ chunk_placed (ix_filter r) recs c) ∨
  ((∀ c, c ∈ remaining r → offset_of c ≠ o) ∧
   insert_chunk_record_data o (src o) r = (Err UnexpectedChunkDataInserted, r)).
Proof.
  intros Hi Hs. destruct (find_chunk_spec _ o _ (ii_loadable _ _ Hi)) as [[Hf Hnone]|(i & c & Hf & Hc & Ho)].
  - right. split.
    + intros c Hc. rewrite Forall_forall in Hnone. destruct (Hnone c Hc) as (o' & Ho' & Hne).
      unfold offset_of. unfold data_offset in Ho'. destruct (compressed_data_offset c); congruence.
    + unfold insert_chunk_record_data. rewrite (proj2 (Nat.ltb_ge _ _)) by apply Hi. unfold remaining in Hf. by rewrite Hf.
  - left. pose proof (offset_of_data _ _ Ho) as Hoc. exists i, c. split; [done|]. split; [done|].
    rewrite Forall_forall in Hs. destruct (Hs c (list_elem_of_lookup_2 _ _ _ Hc)) as (Hsz & Hd & Hrs).
    rewrite Hoc in Hsz, Hd, Hrs. unfold chunk_placed, chunk_messages. rewrite Hoc. by eapply insert_spec.
Qed.

(** What any client gets. *)
Lemma ir_run_spec src recs r ms out : ir_run src r out → ir_inv r ms →
  Forall (served (ix_record_length_limit r) src recs) (remaining r) →
  out ≡ₚ ms ++ all_messages (ix_filter r) recs (remaining r) ∧
  (Forall (timed (ix_filter r) recs) (remaining r) → in_time_order (ix_order r) out).
Proof.
  intros Hr. revert ms. induction Hr as [r r' E|r r' h d out E _ IH|r r1 o len o' r2 out E Eins _ IH]; intros ms Hi Hs.
  - destruct (next_event_spec r ms Hi) as [(En & -> & Hrem)|[(c & cs & o & Hrem & _ & En)|(m & h & d & ms' & r1 & -> & En & _)]];
      rewrite En in E; try congruence.
    rewrite Hrem. split; [done|]. intros _. destruct (ix_order r); cbn; constructor.
  - destruct (next_event_spec r ms Hi) as [(En & -> & Hrem)|[(c & cs & o & Hrem & _ & En)|(m & h1 & d1 & ms' & r1 & -> & En & Hi' & Hrem & Ho & Hf & Hl & Hm & Hfirst & _)]];
      rewrite En in E; try congruence. injection E as <- <- <-.
    destruct (IH ms' Hi') as [Hp Hord]; [by rewrite Hl, Hrem|]. rewrite Hrem, Hf in Hp. split; [by rewrite Hp|].
    intros Ht. rewrite Hrem, Hf, Ho in Hord. apply in_time_order_cons; [|by apply Hord].
    intros x Hx. rewrite Hp, elem_of_app in Hx. destruct Hx as [Hx|Hx].
    + pose proof (waiting_in_order _ _ Hi) as Hw. unfold in_time_order in *. destruct (ix_order r); [..|done];
        apply StronglySorted_inv in Hw as [_ Hw]; rewrite Forall_forall in Hw; repeat constructor; by apply Hw.
    + apply elem_of_all_messages in Hx as (c & Hc & Hxl). rewrite Forall_forall in Ht.
      eapply first_of_all; [by apply Ht|apply Hi|done|by rewrite <-Hrem in *|done|done].
  - destruct (next_event_spec r ms Hi) as [(En & -> & Hrem)|[(c & cs & o1 & Hrem & _ & En)|(m & h1 & d1 & ms' & r3 & -> & En & _)]];
      rewrite En in E; try congruence. injection E as <- <- <-.
    destruct (load_spec src recs r ms o' Hi Hs) as [(i & c' & Hc & Hoc & r' & ms' & Ei & Hi' & Hp & Hrem' & Ho & Hf & Hl & _)|[_ Ei]];
      rewrite Ei in Eins; [|congruence]. injection Eins as <-.
    destruct (IH ms' Hi') as [Hp' Hord]; [rewrite Hl, Hrem'; by apply Forall_delete|].
    rewrite Hrem', Hf in Hp'. rewrite Hrem', Hf, Ho in Hord. split.
    + rewrite Hp', Hp, (all_messages_delete _ _ _ _ _ Hc). by rewrite <-app_assoc.
    + intros Ht. apply Hord. by apply Forall_delete.
Qed.

(** And the one that loads what it is asked for gets to the end. *)
Lemma drain_total src recs fuel r ms : ir_inv r ms →
  Forall (served (ix_record_length_limit r) src recs) (remaining r) →
  length (remaining r) + length (ms ++ all_messages (ix_filter r) recs (remaining r)) < fuel →
  ∃ out, drain fuel src r = (out, Ok ()) ∧ ir_run src r out.
Proof.
  revert r ms. induction fuel as [|fuel IH]; intros r ms Hi Hs Hf; [lia|]. cbn [drain].
  destruct (next_event_spec r ms Hi) as [(En & -> & Hrem)|[(c & cs & o & Hrem & Ho & En)|(m & h & d & ms' & r' & -> & En & Hi' & Hrem & Ho & Hfl & Hl & _)]];
    rewrite En.
  - exists []. split; [done|]. by eapply ir_end.
  - destruct (load_spec src recs r ms o Hi Hs) as [(i & c' & Hc & Hoc & r' & ms' & Ei & Hi' & Hp & Hrem' & Ho' & Hf' & Hl & _)|[Hno _]].
    + rewrite Ei. destruct (IH r' ms' Hi') as (out & Hd & Hrun).
      * rewrite Hl, Hrem'. by apply Forall_delete.
      * rewrite Hrem', Hf'. rewrite (length_app ms) in Hf. rewrite (all_messages_delete _ _ _ _ _ Hc), length_app in Hf.
        rewrite !length_app, Hp, length_app. pose proof (delete_perm _ _ _ Hc) as Hlen. apply Permutation_length in Hlen.
        cbn in Hlen. lia.
      * exists out. split; [done|]. by eapply ir_load.
    + exfalso. apply (Hno c); [rewrite Hrem; left|by apply offset_of_data].
  - destruct (IH r' ms' Hi') as (out & Hd & Hrun).
    + by rewrite Hl, Hrem.
    + rewrite Hrem, Hfl. rewrite length_app in *. cbn in Hf. lia.
    + rewrite Hd. exists ((h, d) :: out). split; [done|]. by eapply ir_message.
Qed.
(** *** In the order of the file *)

Lemma StronglySorted_filter {A} (R : A → A → Prop) (P : A → Prop) `{!∀ x, Decision (P x)} l : StronglySorted R l → StronglySorted R (filter P l).
Proof.
  induction 1 as [|x l _ IH Hx]; [constructor|]. rewrite filter_cons. destruct (decide _); [|done]. constructor; [done|].
  apply Forall_forall. intros y [_ Hy]%list_elem_of_filter. rewrite Forall_forall in Hx. by apply Hx.
Qed.

Lemma sorted_same {A} (R S : A → A → Prop) l k : (∀ a b, R a b → S b a → False) → l ≡ₚ k → StronglySorted R l → StronglySorted S k → l = k.
Proof.
  intros HRS. revert l. induction k as [|b k IH]; intros l Hp Hl Hk; [by apply Permutation_nil_r in Hp|].
  destruct l as [|a l]; [by apply Permutation_nil_l in Hp|]. apply StronglySorted_inv in Hl as [Hl Ha], Hk as [Hk Hb]. rewrite Forall_forall in Ha, Hb.
  assert (a = b) as ->; [|f_equal; apply IH; [by apply Permutation_cons_inv in Hp|done..]].
  assert (a ∈ b :: k) as Hin by (rewrite <-Hp; left). assert (b ∈ a :: l) as Hin' by (rewrite Hp; left).
  apply elem_of_cons in Hin as [?|Hin], Hin' as [?|Hin']; try done. destruct (HRS a b); auto.
Qed.

Definition place_le (a b : (Z * Z) * (MessageHeader * bytes)) : Prop := by_key (λ t : (Z * Z) * (MessageHeader * bytes), [t.1.1; t.1.2]) a b = true.
Definition place_lt (a b : (Z * Z) * (MessageHeader * bytes)) : Prop := (a.1.1 < b.1.1 ∨ a.1.1 = b.1.1 ∧ a.1.2 < b.1.2)%Z.
Lemma place_le_lt a b : place_le a b → place_lt b a → False.
Proof.
  unfold place_le, place_lt, by_key, lex_leb. intros Ha Hb.
  destruct (Z.ltb_spec a.1.1 b.1.1), (Z.eqb_spec a.1.1 b.1.1), (Z.ltb_spec a.1.2 b.1.2), (Z.eqb_spec a.1.2 b.1.2); cbn in Ha; try done; lia.
Qed.
Lemma place_le_starts a b : (a.1.1 < b.1.1)%Z → place_le a b.
Proof. intros Hab. unfold place_le, by_key, lex_leb. by rewrite (proj2 (Z.ltb_lt _ _) Hab). Qed.

Lemma offsets_after f off rs x : x ∈ offsets_of f off rs → (off ≤ x)%Z.
Proof.
  revert off. induction rs as [|e rs IH]; intros off; cbn [offsets_of]; [by intros ?%not_elem_of_nil|].
  pose proof (zlen_nonneg e.2). rewrite elem_of_app. intros [Hx|Hx%IH]; [|lia].
  destruct (message_in f e); [apply list_elem_of_singleton in Hx|by apply not_elem_of_nil in Hx]. lia.
Qed.
Lemma offsets_messages f off rs : length (offsets_of f off rs) = length (messages_of f rs).
Proof.
  revert off. induction rs as [|e rs IH]; intros off; [done|]. unfold messages_of in *. cbn [offsets_of omap list_omap]. rewrite length_app, (IH (off + (9 + zlen e.2))%Z).
  by destruct (message_in f e).
Qed.
Lemma chunk_placed_messages f recs c : (chunk_placed f recs c).*2 = chunk_messages f recs c.
Proof. unfold chunk_placed, chunk_messages. apply snd_zip. rewrite length_fmap. by rewrite offsets_messages. Qed.
Lemma all_placed_messages f recs cs : (all_placed f recs cs).*2 = all_messages f recs cs.
Proof. unfold all_placed, all_messages. induction cs as [|c cs IH]; [done|]. rewrite !fmap_cons. cbn [concat]. by rewrite fmap_app, IH, chunk_placed_messages. Qed.

Lemma chunk_placed_sorted f o off rs : StronglySorted place_lt (zip ((o,.) <$> offsets_of f off rs) (messages_of f rs)).
Proof.
  revert off. induction rs as [|e rs IH]; intros off; [constructor|]. unfold messages_of in *. cbn [offsets_of omap list_omap].
  destruct (message_in f e) as [hd|]; [|apply IH]. cbn. constructor; [apply IH|]. apply Forall_forall. intros [pl hd'] Hin.
  apply elem_of_zip_l, list_elem_of_fmap in Hin as (x & -> & Hx%offsets_after). right. cbn. pose proof (zlen_nonneg e.2). split; [done|lia].
Qed.

(** The messages waiting are in the order of their places. *)
Lemma placed_sorted r ms : ir_inv r ms → ix_order r = FileOrder → StronglySorted place_le (placed r ms).
Proof.
  intros [? ? ? Hent _ Hsort _] Ho. rewrite Ho in Hsort. unfold placed. rewrite zip_fmap_places. revert Hent. generalize (unread r) Hsort.
  intros l Hl Hent. clear Hsort. induction Hent as [|m hd l ms Hm Hent IH]; [constructor|]. apply StronglySorted_inv in Hl as [Hl Hall]. cbn. constructor; [by apply IH|].
  apply Forall_fmap, Forall_forall. intros [m' hd'] Hin. apply elem_of_zip_l in Hin. rewrite Forall_forall in Hall. exact (Hall _ Hin).
Qed.

Lemma elem_of_all_placed f recs cs t : t ∈ all_placed f recs cs → ∃ c, c ∈ cs ∧ t ∈ chunk_placed f recs c ∧ t.1.1 = offset_of c.
Proof.
  unfold all_placed. rewrite list_elem_of_In, in_concat. intros (l & Hl%list_elem_of_In & Ht%list_elem_of_In).
  apply list_elem_of_fmap in Hl as (c & -> & Hc). exists c. split; [done|]. split; [done|]. destruct t as [pl hd]. unfold chunk_placed in Ht.
  apply elem_of_zip_l, list_elem_of_fmap in Ht as (off & -> & _). done.
Qed.
Lemma all_placed_sorted f recs cs : StronglySorted (λ c c', offset_of c < offset_of c')%Z cs → StronglySorted place_lt (all_placed f recs cs).
Proof.
  induction 1 as [|c cs _ IH Hc]; [constructor|]. unfold all_placed. rewrite fmap_cons. cbn [concat]. apply StronglySorted_app; [apply chunk_placed_sorted|done|].
  intros [pl hd] t Hx (c' & Hc' & _ & Ht)%elem_of_all_placed. apply elem_of_zip_l, list_elem_of_fmap in Hx as (off & -> & _).
  left. rewrite Ht. cbn. rewrite Forall_forall in Hc. by apply Hc.
Qed.
Lemma all_placed_delete f recs cs i c : cs !! i = Some c → all_placed f recs cs ≡ₚ chunk_placed f recs c ++ all_placed f recs (delete i cs).
Proof. intros Hi. unfold all_placed. rewrite (delete_perm i cs c Hi) at 1. done. Qed.

Lemma strictly_sorted_delete {A} (key : A → Z) i (l : list A) c x : StronglySorted (λ a b, key a < key b)%Z l → l !! i = Some c → x ∈ delete i l → key c ≠ key x.
Proof.
  intros Hs. revert i. induction Hs as [|a l Hs IH Ha]; intros i; [done|]. rewrite Forall_forall in Ha. destruct i as [|i]; cbn.
  - intros [= ->] Hx. specialize (Ha x Hx). lia.
  - intros Hc [->|Hx]%elem_of_cons; [|by apply (IH i)]. apply list_elem_of_lookup_2 in Hc. specialize (Ha c Hc). lia.
Qed.

(** What any client gets when the reader reads in the order of the file, the chunks left to
    load being in that order: it is in the order of its places. *)
Lemma ir_run_file_order src recs r ms out : ir_run src r out → ir_inv r ms → ix_order r = FileOrder →
  Forall (served (ix_record_length_limit r) src recs) (remaining r) →
  StronglySorted (λ c c', offset_of c < offset_of c')%Z (remaining r) →
  (∀ t c, t ∈ placed r ms → c ∈ remaining r → t.1.1 ≠ offset_of c) →
  ∃ ts, ts.*2 = out ∧ ts ≡ₚ placed r ms ++ all_placed (ix_filter r) recs (remaining r) ∧ StronglySorted place_le ts.
Proof.
  intros Hr. revert ms. induction Hr as [r r' E|r r' h d out E _ IH|r r1 o len o' r2 out E Eins _ IH]; intros ms Hi Hfo Hs Hoff Hap.
  - destruct (next_event_spec r ms Hi) as [(En & -> & Hrem)|[(c & cs & o & Hrem & _ & En)|(m & h & d & ms' & r1 & -> & En & _)]];
      rewrite En in E; try congruence. exists []. rewrite Hrem. split_and!; [done| |constructor]. unfold placed. by destruct (_ <$> _).
  - destruct (next_event_spec r ms Hi) as [(En & -> & Hrem)|[(c & cs & o & Hrem & _ & En)|(m & h1 & d1 & ms' & r1 & -> & En & Hi' & Hrem & Ho & Hf & Hl & Hm & Hfirst & Hhead & Hpl)]];
      rewrite En in E; try congruence. injection E as <- <- <-.
    destruct (IH ms' Hi') as (ts & Hts & Hp & Hsort); [congruence|by rewrite Hl, Hrem|by rewrite Hrem| |].
    { rewrite Hrem. intros t c Ht. apply Hap. rewrite Hpl. by right. }
    rewrite Hrem, Hf in Hp. exists ((place (ix_chunk_slots r) m, (h1, d1)) :: ts). split; [cbn; by rewrite Hts|]. rewrite Hpl. split; [by rewrite Hp|].
    constructor; [done|]. apply Forall_forall. intros t Ht. rewrite Hp, elem_of_app in Ht. destruct Ht as [Ht|Ht].
    + pose proof (placed_sorted _ _ Hi Hfo) as Hw. rewrite Hpl in Hw. apply StronglySorted_inv in Hw as [_ Hw]. rewrite Forall_forall in Hw. by apply Hw.
    + apply elem_of_all_placed in Ht as (c & Hc & _ & Htc). apply place_le_starts. rewrite Htc. cbn.
      assert (start_of (ix_chunk_slots r) m ≠ offset_of c) as Hne by (apply (Hap (place (ix_chunk_slots r) m, (h1, d1)) c); [rewrite Hpl; left|done]).
      assert (start_of (ix_chunk_slots r) m ≤ offset_of c)%Z; [|lia].
      destruct (remaining r) as [|c0 cs] eqn:Hrm; [by apply not_elem_of_nil in Hc|].
      specialize (Hfirst c0 eq_refl). unfold message_first, yield_chunk_first in Hfirst. rewrite Hfo in Hfirst.
      assert (start_of (ix_chunk_slots r) m ≤ offset_of c0)%Z as H0.
      { unfold start_of. destruct (ix_chunk_slots r !! chunk_slot_idx m) as [slot|]; [|done]. cbn in Hfirst |- *.
        pose proof (ii_loadable _ _ Hi) as Hload. rewrite Hrm in Hload. apply Forall_cons in Hload as [[[o Ho'] _] _].
        unfold data_offset in Hfirst. unfold offset_of. rewrite Ho' in *. cbn in Hfirst. injection Hfirst as Hfirst. by apply Z.ltb_ge in Hfirst. }
      apply StronglySorted_inv in Hoff as [_ Hall]. rewrite Forall_forall in Hall. apply elem_of_cons in Hc as [->|Hc]; [done|]. specialize (Hall c Hc). lia.
  - destruct (next_event_spec r ms Hi) as [(En & -> & Hrem)|[(c & cs & o1 & Hrem & _ & En)|(m & h1 & d1 & ms' & r3 & -> & En & _)]];
      rewrite En in E; try congruence. injection E as <- <- <-.
    destruct (load_spec src recs r ms o' Hi Hs) as [(i & c' & Hc & Hoc & r' & ms' & Ei & Hi' & Hp & Hrem' & Ho & Hf & Hl & Hpl)|[_ Ei]];
      rewrite Ei in Eins; [|congruence]. injection Eins as <-.
    destruct (IH ms' Hi') as (ts & Hts & Hp' & Hsort); [congruence|rewrite Hl, Hrem'; by apply Forall_delete|rewrite Hrem'; by apply StronglySorted_delete| |].
    { rewrite Hrem'. intros t x Ht Hx. rewrite Hpl, elem_of_app in Ht. destruct Ht as [Ht|Ht].
      - apply (Hap t x Ht). eapply elem_of_sublist; [exact Hx|apply sublist_delete].
      - assert (t.1.1 = offset_of c') as ->; [|by eapply strictly_sorted_delete].
        destruct t as [pl hd]. by apply elem_of_zip_l, list_elem_of_fmap in Ht as (off & -> & _). }
    exists ts. split; [done|]. split; [|done]. rewrite Hp', Hpl, Hrem', Hf, (all_placed_delete _ _ _ _ _ Hc). by rewrite <-app_assoc.
Qed.
End clients.

(** ** Construction *)

(** A filter that admits everything, and what the reader filters by. *)
Definition no_filter : Filter := mkFilter None None ∅.
Definition filter_of (s : Summary) (o : IndexedReaderOptions) : Filter :=
  mkFilter (iro_start o) (iro_end o) (included_channel_ids s o).

(** A chunk index that tells the truth: its times hold, and its message indexes, if it
    has any, name every channel of the chunk. *)
Definition honest (recs : Z → list (Z * bytes)) (c : ChunkIndex) : Prop :=
  ∀ hd, hd ∈ chunk_messages no_filter recs c →
    (ci_message_start_time c ≤ m_log_time hd.1 ≤ ci_message_end_time c)%Z ∧
    (ci_message_index_offsets c = [] ∨ m_channel_id hd.1 ∈ (ci_message_index_offsets c).*1).

Lemma passes_no_filter h : passes no_filter h = true.
Proof. unfold passes. cbn [filter_channel_ids no_filter]. by rewrite bool_decide_true. Qed.

Lemma messages_of_filtered f rs hd : hd ∈ messages_of f rs → hd ∈ messages_of no_filter rs ∧ passes f hd.1 = true.
Proof.
  unfold messages_of. rewrite !list_elem_of_omap. intros (e & He & Hm). unfold message_in in *.
  destruct (_ =? _)%Z eqn:Eo; [|done]. destruct (read_le _ _) as [[h c]|?| |] eqn:E; [|done..].
  destruct (passes f h) eqn:Hf; [|done]. injection Hm as <-. split; [|done].
  exists e. split; [done|]. by rewrite Eo, E, passes_no_filter.
Qed.

Lemma message_in_filtered f e : message_in f e = match message_in no_filter e with Some m => if passes f m.1 then Some m else None | None => None end.
Proof.
  unfold message_in. destruct (_ =? _)%Z; [|done]. destruct (read_le _ _) as [[h c]|e'| |]; [|done..]. by rewrite passes_no_filter.
Qed.
Lemma all_messages_filtered f recs cs : all_messages f recs cs = List.filter (λ m, passes f m.1) (all_messages no_filter recs cs).
Proof.
  unfold all_messages, chunk_messages, messages_of. induction cs as [|c cs IH]; [done|]. rewrite !fmap_cons. cbn [concat]. rewrite List.filter_app, IH. f_equal.
  induction (recs (offset_of c)) as [|e rs IHr]; [done|]. cbn. rewrite message_in_filtered. destruct (message_in no_filter e) as [m|]; [|done].
  cbn [List.filter]. destruct (passes f m.1); by rewrite IHr.
Qed.

Lemma honest_timed f recs c : honest recs c → timed f recs c.
Proof. intros Hc hd [Hhd _]%messages_of_filtered. by destruct (Hc hd Hhd). Qed.

(** What is pruned has nothing to yield. *)
Lemma pruned_empty s o recs c : honest recs c → keep_chunk o (included_channel_ids s o) c = false →
  chunk_messages (filter_of s o) recs c = [].
Proof.
  intros Hh Hk. unfold chunk_messages. destruct (messages_of _ _) as [|hd l] eqn:E; [done|]. exfalso.
  assert (hd ∈ chunk_messages (filter_of s o) recs c) as [Hin Hp]%messages_of_filtered
    by (unfold chunk_messages; rewrite E; left).
  destruct (Hh hd Hin) as [Ht Hc]. unfold passes in Hp. cbn in Hp. rewrite !andb_true_iff in Hp.
  destruct Hp as [[Hend Hstart] Hch]. unfold keep_chunk in Hk. apply andb_false_iff in Hk as [Hk|Hk];
    [apply andb_false_iff in Hk as [Hk|Hk]|].
  - destruct (iro_start o); [|done]. apply negb_false_iff, Z.ltb_lt in Hk. apply negb_true_iff, Z.ltb_ge in Hstart. lia.
  - destruct (iro_end o); [|done]. apply negb_false_iff, Z.leb_le in Hk. apply negb_true_iff, Z.leb_gt in Hend. lia.
  - rewrite !orb_false_iff, !bool_decide_eq_false in Hk. destruct Hk as [[Hne Hno] Hex].
    rewrite orb_true_iff, !bool_decide_eq_true in Hch. destruct Hch as [|Hch]; [done|]. destruct Hc as [|Hc]; [done|].
    apply list_elem_of_fmap in Hc as (p & Hp & Hin'). rewrite <-not_true_iff_false in Hex. apply Hex.
    apply existsb_exists. exists p. rewrite <-list_elem_of_In, <-Hp. split; [done|]. by apply bool_decide_eq_true.
Qed.

Lemma all_messages_kept s o recs cs : Forall (honest recs) cs →
  all_messages (filter_of s o) recs (filter (λ c, keep_chunk o (included_channel_ids s o) c = true) cs) =
  all_messages (filter_of s o) recs cs.
Proof.
  intros Hh. induction Hh as [|c cs Hc _ IH]; [done|]. rewrite filter_cons. unfold all_messages in *. cbn.
  destruct (decide _) as [|Hk]; cbn; [by rewrite IH|]. rewrite IH.
  apply not_true_is_false in Hk. by rewrite (pruned_empty s o recs c).
Qed.

Lemma for_each_Ok {A} (f : A → McapResult ()) l : for_each f l = Ok () → Forall (λ x, f x = Ok ()) l.
Proof.
  induction l as [|x l IH]; cbn; [constructor|]. rewrite bind_Ok. intros ([] & Hx & Hl). by constructor; [|apply IH].
Qed.

Lemma IndexedReader_new_spec s o r : IndexedReader_new_with_options s o = Ok r →
  ir_inv r [] ∧ ix_filter r = filter_of s o ∧ ix_order r = iro_order o ∧
  ix_record_length_limit r = iro_record_length_limit o ∧
  remaining r ≡ₚ filter (λ c, keep_chunk o (included_channel_ids s o) c = true) (chunk_indexes s).
Proof.
  unfold IndexedReader_new_with_options. set (kept := filter _ _).
  rewrite bind_Ok. intros ([] & Ho%for_each_Ok & Hr). apply bind_Ok in Hr as ([] & Hs%for_each_Ok & [= <-]).
  pose proof (sort_by_perm (chunk_leb (iro_order o)) kept) as Hp.
  split_and!; try done. split; unfold remaining, unread; cbn; rewrite ?drop_0; try done.
  - lia.
  - rewrite Forall_forall in Ho, Hs. apply Forall_forall. intros c Hc. specialize (Hs c Hc). rewrite Hp in Hc.
    specialize (Ho c Hc). apply bind_Ok in Ho as (off & Ho & _). split; [by exists off|].
    unfold check_sizes in Hs. apply bind_Ok in Hs as (n & Hn%ok_or_Ok & _).
    pose proof (check_len_Ok _ _ _ Hn) as (-> & _). done.
  - constructor.
  - apply sort_by_sorted, _.
Qed.

(** ** What was asked for *)

(** Whether a message, on a channel of which [topic_of] knows the topic, is one that was
    asked for: its time is in the range, and its topic is one of those to include. *)
Definition wanted (o : IndexedReaderOptions) (topic_of : Z → option rstring) (m : MessageHeader * bytes) : bool :=
  (match iro_start o with Some start => (start <=? m_log_time m.1)%Z | None => true end) &&
  (match iro_end o with Some end_ => (m_log_time m.1 <? end_)%Z | None => true end) &&
  match iro_include_topics o with
  | Some topics => match topic_of (m_channel_id m.1) with Some topic => bool_decide (topic ∈ topics) | None => false end
  | None => true
  end.
Definition wanted_messages (o : IndexedReaderOptions) (topic_of : Z → option rstring) (recs : Z → list (Z * bytes)) (cs : list ChunkIndex)
    : list (MessageHeader * bytes) := List.filter (wanted o topic_of) (all_messages no_filter recs cs).
(** The messages are in the order asked for: that of their times, the reverse of it, or,
    if the chunks are one after the other in the file, that of the file. *)
Definition as_asked (o : IndexedReaderOptions) (topic_of : Z → option rstring) (recs : Z → list (Z * bytes)) (cs : list ChunkIndex)
    (ms : list (MessageHeader * bytes)) : Prop :=
  match iro_order o with
  | LogTime => StronglySorted (λ a b, m_log_time a.1 ≤ m_log_time b.1)%Z ms
  | ReverseLogTime => StronglySorted (λ a b, m_log_time b.1 ≤ m_log_time a.1)%Z ms
  | FileOrder => ∀ in_file, in_file ≡ₚ cs →
      StronglySorted (λ a b, ci_chunk_start_offset a < ci_chunk_start_offset b ∧ offset_of a < offset_of b)%Z in_file →
      ms = wanted_messages o topic_of recs in_file
  end.

Definition summary_topic (s : Summary) (i : Z) : option rstring := channel_topic <$> channels s !! i.
(** If topics are asked for, there is a channel of one of them: else the reader
    includes every topic ([unknown_topics_not_filtered]). *)
Definition topics_known (o : IndexedReaderOptions) (topic_of : Z → option rstring) : Prop :=
  ∀ topics, iro_include_topics o = Some topics → ∃ i topic, topic_of i = Some topic ∧ topic ∈ topics.

Lemma elem_of_included s o topics i : iro_include_topics o = Some topics →
  i ∈ included_channel_ids s o ↔ ∃ topic, summary_topic s i = Some topic ∧ topic ∈ topics.
Proof.
  intros Ht. unfold included_channel_ids, summary_topic. rewrite Ht, elem_of_dom. split.
  - intros [c [Hc Hin]%map_lookup_filter_Some]. exists (channel_topic c). by rewrite Hc.
  - intros (topic & Hc & Hin). destruct (channels s !! i) as [c|] eqn:E; [|done]. injection Hc as <-. exists c. by apply map_lookup_filter_Some.
Qed.
Lemma passes_wanted s o m : topics_known o (summary_topic s) → passes (filter_of s o) m.1 = wanted o (summary_topic s) m.
Proof.
  intros Hk. unfold passes, wanted. cbn [filter_of filter_start filter_end filter_channel_ids].
  rewrite (andb_comm (match iro_end o with Some _ => _ | None => _ end)). f_equal; [f_equal|].
  - destruct (iro_start o); [|done]. by rewrite <-Z.leb_antisym.
  - destruct (iro_end o); [|done]. by rewrite <-Z.ltb_antisym.
  - destruct (iro_include_topics o) as [topics|] eqn:Et; [|unfold included_channel_ids; rewrite Et; by rewrite bool_decide_true].
    destruct (Hk topics Et) as (i & topic & Hi & Hin). rewrite bool_decide_false; [cbn [orb]|].
    + apply eq_bool_prop_intro. rewrite bool_decide_spec, (elem_of_included _ _ _ _ Et). destruct (summary_topic s (m_channel_id m.1)) as [t|]; cbn; rewrite ?bool_decide_spec; naive_solver.
    + intros He. assert (i ∈ included_channel_ids s o) as Hx; [apply (elem_of_included _ _ _ _ Et); by exists topic|set_solver].
Qed.
Lemma wanted_admitted s o recs cs : topics_known o (summary_topic s) → all_messages (filter_of s o) recs cs = wanted_messages o (summary_topic s) recs cs.
Proof. intros Hk. rewrite all_messages_filtered. apply List.filter_ext. intros m. by apply passes_wanted. Qed.

(** ** When inserting a chunk panics *)

(** What the decompressors return is a vector, or an error. *)
Class ChunkCodecsOk `{ChunkCodecs} : Prop := {
  zstd_settles n data : settles (zstd_decompress n data);
  zstd_length n data out : zstd_decompress n data = Ok out → (zlen out ≤ usize_max)%Z;
  lz4_settles n data : settles (lz4_read_exact n data);
  lz4_length n data out : lz4_read_exact n data = Ok out → (zlen out ≤ usize_max)%Z;
}.

Lemma split_first_chunk_Some n buf a b : (0 ≤ n)%Z → split_first_chunk n buf = Some (a, b) →
  zlen b = (zlen buf - n)%Z ∧ (n ≤ zlen buf)%Z.
Proof.
  intros Hn. unfold split_first_chunk. destruct (Z.leb_spec n (zlen buf)); [|done]. intros [= <- <-].
  split; [by zlia|done].
Qed.

(** A record that indexing goes through ends in the data. *)
Lemma index_record_cases slot_idx order f limit data off s : (0 ≤ off < zlen data)%Z → (zlen data ≤ usize_max)%Z →
  (∃ e, index_record slot_idx order f limit data off s = Err e) ∨
  (∃ off' s', index_record slot_idx order f limit data off s = Ok (off', s') ∧ (off + 9 ≤ off' ≤ zlen data)%Z).
Proof.
  intros Ho Hm. unfold index_record, split_record. rewrite slice_tail by lia. cbn [mbind outcome_bind].
  destruct (split_first_chunk 1 (zdrop off data)) as [[o1 b1]|] eqn:E1; cbn; [|by eauto].
  apply split_first_chunk_Some in E1 as [E1 _]; [|done]. rewrite zlen_zdrop in E1.
  unfold split_body. destruct (split_first_chunk 8 b1) as [[o2 b2]|] eqn:E2; cbn; [|by eauto].
  apply split_first_chunk_Some in E2 as [E2 E2']; [|done].
  destruct (check_len (le_dec o2) limit) as [len|] eqn:El; cbn; [|by eauto].
  apply check_len_Ok in El as (-> & _). pose proof (proj1 (le_dec_range o2)).
  destruct (Z.ltb_spec (zlen b2) (le_dec o2)) as [|Hb2]; cbn; [by eauto|].
  rewrite (slice_Ok 0 (le_dec o2) b2) by lia. cbn [mbind outcome_bind].
  rewrite Z.sub_0_r, (zdrop_0 0) by done. assert (zlen (ztake (le_dec o2) b2) = le_dec o2) as -> by (rewrite zlen_ztake; lia). rewrite (add_Ok _ off 9) by lia. cbn [mbind outcome_bind].
  rewrite add_Ok by lia. cbn [mbind outcome_bind].
  destruct (negb _); [right; eexists _, _; split; [done|lia]|].
  destruct (read_le_cases MessageHeader_codec (ztake (le_dec o2) b2)) as [(h & c & E & _)|(e & E)];
    unfold read_record; rewrite E; cbn; [|by eauto].
  right. destruct (negb _); eexists _, _; (split; [done|lia]).
Qed.

Lemma index_loop_settles fuel slot_idx order f limit data off s :
  (0 ≤ off)%Z → (zlen data ≤ usize_max)%Z → (zlen data - off ≤ Z.of_nat fuel)%Z →
  settles (index_loop fuel slot_idx order f limit data off s).1.
Proof.
  intros Ho Hm. revert off s Ho. induction fuel as [|fuel IH]; intros off s Ho Hf; cbn [index_loop];
    destruct (Z.ltb_spec off (zlen data)) as [Hlt|Hlt]; cbn [negb]; try done; [lia|].
  destruct (index_record_cases slot_idx order f limit data off s) as [[e ->]|(off' & s' & -> & Hoff)]; try done.
  apply IH; lia.
Qed.

Lemma index_slot_settles i k r slot : ix_chunk_slots r !! k = Some slot → (zlen (slot_buf slot) ≤ usize_max)%Z →
  settles (index_slot i k r).1.
Proof.
  intros Hk Hl. unfold index_slot. set (r1 := if _ <=? _ then _ else _).
  assert (ix_chunk_slots r1 = ix_chunk_slots r) as -> by (subst r1; by destruct (_ <=? _)).
  unfold index_messages. rewrite Hk.
  pose proof (index_loop_settles (length (slot_buf slot)) k (ix_order r1) (ix_filter r1) (ix_record_length_limit r1)
    (slot_buf slot) 0 (mkScan (ix_message_indexes r1) (negb (bool_decide (ix_message_indexes r1 = []))) 0)) as Hs.
  specialize (Hs ltac:(lia) Hl ltac:(unfold zlen; lia)).
  destruct (index_loop _ _ _ _ _ _ _ _) as [[[]|?| |] ?]; done.
Qed.

Lemma decompress_chunk_cases `{ChunkCodecsOk} c data : (zlen data ≤ usize_max)%Z →
  if bool_decide (ci_compression c = [] ∧ ci_uncompressed_size c ≠ zlen data)
  then decompress_chunk (ci_compression c) (ci_uncompressed_size c) data = Panic
  else settles (decompress_chunk (ci_compression c) (ci_uncompressed_size c) data) ∧
    ∀ buf, decompress_chunk (ci_compression c) (ci_uncompressed_size c) data = Ok buf → (zlen buf ≤ usize_max)%Z.
Proof.
  intros Hl. unfold decompress_chunk. destruct (bool_decide_reflect (ci_compression c = [])) as [->|Hne].
  - destruct (Z.eqb_spec (zlen data) (ci_uncompressed_size c)) as [He|He].
    + rewrite bool_decide_eq_false_2 by (intros [_ ?]; congruence). cbn. split; [done|]. by intros ? [= <-].
    + by rewrite bool_decide_eq_true_2.
  - rewrite bool_decide_eq_false_2 by (by intros [? _]).
    destruct (bool_decide _); [|destruct (bool_decide _); [|done]].
    + pose proof (zstd_settles (ci_uncompressed_size c) data) as Hs.
      pose proof (zstd_length (ci_uncompressed_size c) data) as Hz.
      destruct (zstd_decompress _ _) as [out|?| |]; try done. cbn. destruct (negb _); cbn; [done|].
      split; [done|]. intros ? [= <-]. by apply Hz.
    + pose proof (lz4_settles (ci_uncompressed_size c) data) as Hs.
      pose proof (lz4_length (ci_uncompressed_size c) data) as Hz.
      destruct (lz4_read_exact _ _) as [out|?| |]; try done. cbn. split; [done|]. intros ? [= <-]. by apply Hz.
Qed.

(** Whatever bytes a client inserts, [insert_chunk_record_data] returns, and panics
    in one case only: the chunk is stored uncompressed, the bytes are as many as its
    index says they are stored in, and the index gives another uncompressed size. *)
Theorem insert_panics_iff `{ChunkCodecsOk} r ms offset data : ir_inv r ms → (zlen data ≤ usize_max)%Z →
  (insert_chunk_record_data offset data r).1 ≠ Fuel ∧
  ((insert_chunk_record_data offset data r).1 = Panic ↔
   ∃ i c, find_chunk offset (remaining r) = Ok (Some (i, c)) ∧ zlen data = ci_compressed_size c ∧
     ci_compression c = [] ∧ ci_uncompressed_size c ≠ ci_compressed_size c).
Proof.
  intros Hi Hl. unfold insert_chunk_record_data. rewrite (proj2 (Nat.ltb_ge _ _)) by apply Hi. fold (remaining r).
  destruct (find_chunk_spec _ offset _ (ii_loadable _ _ Hi)) as [[-> _]|(i & c & -> & Hc & Ho)];
    [split; [done|]; split; [done|]; by intros (? & ? & [=] & _)|].
  destruct (Z.eqb_spec (zlen data) (ci_compressed_size c)) as [Hs|Hs]; cbn [negb]; last first.
  { split; [done|]. split; [done|]. intros (? & ? & [= <- <-] & ? & _). done. }
  destruct (find_or_make_chunk_slot offset (ix_chunk_slots r)) as [k slots] eqn:Hk.
  destruct (find_slot_spec _ _ _ _ Hk) as (_ & Hnew & _).
  pose proof (decompress_chunk_cases c data Hl) as Hd.
  destruct (bool_decide_reflect (ci_compression c = [] ∧ ci_uncompressed_size c ≠ zlen data)) as [[Hcomp Hu]|Hno].
  { rewrite Hd. split; [done|]. split; [|done]. intros _. exists i, c. by rewrite <-Hs. }
  destruct Hd as [Hd Hbuf].
  assert (∀ o : McapResult () * IndexedReader, settles o.1 → o.1 ≠ Fuel ∧ (o.1 = Panic ↔
    ∃ i' c', @Ok McapError _ (Some (i, c)) = Ok (Some (i', c')) ∧ ci_compressed_size c = ci_compressed_size c' ∧
      ci_compression c' = [] ∧ ci_uncompressed_size c' ≠ ci_compressed_size c')) as Hcut.
  { intros o Hset. split; [by destruct o.1|]. split; [by destruct o.1|]. intros (? & ? & [= <- <-] & _ & ? & ?).
    destruct Hno. by rewrite Hs. }
  rewrite <-Hs in Hcut. apply Hcut. destruct (decompress_chunk _ _ _) as [buf|e| |] eqn:E; try done.
  eapply index_slot_settles; [cbn; by rewrite list_lookup_alter_eq, Hnew|]. cbn. by apply Hbuf.
Qed.

(** ** Properties *)

Section properties.
Context `{ChunkCodecs}.

(** What both clients start from. *)
Lemma new_run_spec s o src recs r : IndexedReader_new_with_options s o = Ok r →
  Forall (λ c, keep_chunk o (included_channel_ids s o) c = true → served (iro_record_length_limit o) src recs c) (chunk_indexes s) →
  Forall (honest recs) (chunk_indexes s) →
  ir_inv r [] ∧ Forall (served (ix_record_length_limit r) src recs) (remaining r) ∧
  length (remaining r) ≤ length (chunk_indexes s) ∧
  all_messages (ix_filter r) recs (remaining r) ≡ₚ all_messages (filter_of s o) recs (chunk_indexes s) ∧
  Forall (timed (ix_filter r) recs) (remaining r).
Proof.
  intros Hr Hs Hh. destruct (IndexedReader_new_spec s o r Hr) as (Hi & -> & _ & -> & Hp). split; [done|].
  split_and!.
  - rewrite Hp. apply Forall_forall. intros c [Hk Hc]%list_elem_of_filter. rewrite Forall_forall in Hs. by apply Hs.
  - rewrite Hp. apply length_filter.
  - unfold all_messages at 1. rewrite Hp. by rewrite <-(all_messages_kept s o recs) by done.
  - rewrite Hp. apply Forall_forall. intros c [_ Hc]%list_elem_of_filter. rewrite Forall_forall in Hh.
    by apply honest_timed, Hh.
Qed.

Lemma drain_runs s o src recs r fuel : IndexedReader_new_with_options s o = Ok r →
  Forall (λ c, keep_chunk o (included_channel_ids s o) c = true → served (iro_record_length_limit o) src recs c) (chunk_indexes s) →
  Forall (honest recs) (chunk_indexes s) →
  length (chunk_indexes s) + length (all_messages (filter_of s o) recs (chunk_indexes s)) < fuel →
  ∃ ms, drain fuel src r = (ms, Ok ()) ∧ ir_run src r ms.
Proof.
  intros Hr Hs Hh Hf. destruct (new_run_spec s o src recs r Hr Hs Hh) as (Hi & Hserved & Hlen & Hp & Ht).
  apply (drain_total src recs fuel r [] Hi Hserved). rewrite app_nil_l, Hp. lia.
Qed.
Lemma drain_reads s o src recs r fuel :
  IndexedReader_new_with_options s o = Ok r →
  Forall (λ c, keep_chunk o (included_channel_ids s o) c = true → served (iro_record_length_limit o) src recs c) (chunk_indexes s) →
  Forall (honest recs) (chunk_indexes s) →
  let expected := all_messages (filter_of s o) recs (chunk_indexes s) in
  length (chunk_indexes s) + length expected < fuel →
  ∃ ms, drain fuel src r = (ms, Ok ()) ∧ ms ≡ₚ expected ∧ in_time_order (iro_order o) ms.
Proof.
  intros Hr Hs Hh expected Hf. destruct (new_run_spec s o src recs r Hr Hs Hh) as (Hi & Hserved & Hlen & Hp & Ht).
  destruct (IndexedReader_new_spec s o r Hr) as (_ & _ & Ho & _).
  destruct (drain_runs s o src recs r fuel Hr Hs Hh Hf) as (out & Hd & Hrun).
  destruct (ir_run_spec src recs r [] out Hrun Hi Hserved) as [Hperm Hord]. exists out.
  split; [done|]. rewrite <-Ho. split; [by rewrite Hperm, app_nil_l, Hp|by apply Hord].
Qed.

(** In the order of the file nothing is left of the order the chunks came in. *)
Lemma run_in_file_order s o src recs r ms in_file : IndexedReader_new_with_options s o = Ok r → iro_order o = FileOrder →
  Forall (λ c, keep_chunk o (included_channel_ids s o) c = true → served (iro_record_length_limit o) src recs c) (chunk_indexes s) →
  Forall (honest recs) (chunk_indexes s) → ir_run src r ms → in_file ≡ₚ chunk_indexes s →
  StronglySorted (λ a b, ci_chunk_start_offset a < ci_chunk_start_offset b ∧ offset_of a < offset_of b)%Z in_file →
  ms = all_messages (filter_of s o) recs in_file.
Proof.
  intros Hr Hfo Hs Hh Hrun Hp Hsort. destruct (new_run_spec s o src recs r Hr Hs Hh) as (Hi & Hserved & _).
  destruct (IndexedReader_new_spec s o r Hr) as (_ & Hf & Ho & _ & Hrem). set (keep c := keep_chunk o (included_channel_ids s o) c = true) in *.
  assert (remaining r = filter keep in_file) as E.
  { apply (sorted_same (λ a b, ci_chunk_start_offset a ≤ ci_chunk_start_offset b)%Z (λ a b, ci_chunk_start_offset a < ci_chunk_start_offset b)%Z); [lia|by rewrite Hrem, Hp|..].
    - pose proof (ii_order _ _ Hi) as Hord. rewrite Ho, Hfo in Hord. eapply StronglySorted_impl_in; [|exact Hord]. intros a b _ _. apply (by_key_head ci_chunk_start_offset).
    - apply StronglySorted_filter. eapply StronglySorted_impl_in; [|exact Hsort]. by intros a b _ _ [? _]. }
  assert (StronglySorted (λ c c', offset_of c < offset_of c')%Z (remaining r)) as Hoff.
  { rewrite E. apply StronglySorted_filter. eapply StronglySorted_impl_in; [|exact Hsort]. by intros a b _ _ [_ ?]. }
  assert (placed r [] = []) as Hnil by (unfold placed; by destruct (_ <$> _)).
  destruct (ir_run_file_order src recs r [] ms Hrun Hi ltac:(congruence) Hserved Hoff) as (ts & <- & Hts & Hle).
  { rewrite Hnil. by intros t c ?%not_elem_of_nil. }
  rewrite Hnil, app_nil_l in Hts.
  rewrite (sorted_same _ _ _ _ place_le_lt Hts Hle (all_placed_sorted _ _ _ Hoff)), all_placed_messages, E, Hf.
  apply all_messages_kept. by rewrite Hp.
Qed.
Lemma run_as_asked s o src recs r ms : IndexedReader_new_with_options s o = Ok r → topics_known o (summary_topic s) →
  Forall (λ c, keep_chunk o (included_channel_ids s o) c = true → served (iro_record_length_limit o) src recs c) (chunk_indexes s) →
  Forall (honest recs) (chunk_indexes s) → ir_run src r ms →
  ms ≡ₚ wanted_messages o (summary_topic s) recs (chunk_indexes s) ∧ as_asked o (summary_topic s) recs (chunk_indexes s) ms.
Proof.
  intros Hr Hk Hs Hh Hrun. destruct (new_run_spec s o src recs r Hr Hs Hh) as (Hi & Hserved & _ & Hp & Ht).
  destruct (IndexedReader_new_spec s o r Hr) as (_ & _ & Ho & _).
  destruct (ir_run_spec src recs r [] ms Hrun Hi Hserved) as [Hperm Hord]. specialize (Hord Ht). rewrite <-(wanted_admitted s o) by done.
  split; [by rewrite Hperm, app_nil_l, Hp|]. rewrite Ho in Hord. unfold as_asked, in_time_order in *. destruct (iro_order o) eqn:Eo; [done..|].
  intros in_file Hin Hsort. rewrite <-(wanted_admitted s o) by done. by eapply run_in_file_order.
Qed.

(** C26: given a summary whose chunk indexes are truthful (the times of each hold for the
    messages of its chunk, and the channels it names, if it names any, are all of theirs),
    and a channel of one of the topics asked for, if topics are asked for, a client that
    loads the chunks the reader asks for, which decompress to records within the limit,
    gets to the end without an error, having been given each message of the time range and
    the topics asked for exactly once, in the order asked for: that of the log times, the
    reverse of it, or that of the file. *)
Theorem indexed_reader_reads s o src recs r fuel :
  IndexedReader_new_with_options s o = Ok r → topics_known o (summary_topic s) →
  Forall (λ c, keep_chunk o (included_channel_ids s o) c = true → served (iro_record_length_limit o) src recs c) (chunk_indexes s) →
  Forall (honest recs) (chunk_indexes s) →
  let expected := wanted_messages o (summary_topic s) recs (chunk_indexes s) in
  length (chunk_indexes s) + length expected < fuel →
  ∃ ms, drain fuel src r = (ms, Ok ()) ∧ ms ≡ₚ expected ∧ as_asked o (summary_topic s) recs (chunk_indexes s) ms.
Proof.
  intros Hr Hk Hs Hh expected Hf. destruct (drain_runs s o src recs r fuel Hr Hs Hh) as (ms & Hd & Hrun).
  { by rewrite (wanted_admitted s o). }
  exists ms. split; [done|]. by apply (run_as_asked s o src recs r).
Qed.

(** C27: under the same conditions the order in which a client loads the chunks does not
    matter: one that answers a request for a chunk with any other one left, and comes to
    the end, was given the same messages, in the order asked for. *)
Theorem indexed_reader_any_load_order s o src recs r ms :
  IndexedReader_new_with_options s o = Ok r → topics_known o (summary_topic s) →
  Forall (λ c, keep_chunk o (included_channel_ids s o) c = true → served (iro_record_length_limit o) src recs c) (chunk_indexes s) →
  Forall (honest recs) (chunk_indexes s) →
  ir_run src r ms →
  ms ≡ₚ wanted_messages o (summary_topic s) recs (chunk_indexes s) ∧ as_asked o (summary_topic s) recs (chunk_indexes s) ms.
Proof. apply run_as_asked. Qed.

(** Topics that no channel of the summary has are not a filter: asking for them
    only makes the same reader as asking for every topic. *)
Theorem unknown_topics_not_filtered s o topics :
  (∀ i c, channels s !! i = Some c → channel_topic c ∉ topics) →
  IndexedReader_new_with_options s (mkIndexedReaderOptions (iro_start o) (iro_end o) (iro_order o) (Some topics)
    (iro_record_length_limit o)) =
  IndexedReader_new_with_options s (mkIndexedReaderOptions (iro_start o) (iro_end o) (iro_order o) None
    (iro_record_length_limit o)).
Proof.
  intros Hno. unfold IndexedReader_new_with_options.
  assert (included_channel_ids s (mkIndexedReaderOptions (iro_start o) (iro_end o) (iro_order o) (Some topics)
    (iro_record_length_limit o)) = ∅) as ->; [|done].
  unfold included_channel_ids. cbn. apply dom_empty_iff_L. apply map_empty_filter_2.
  intros i c Hc. cbn. by apply Hno in Hc.
Qed.
End properties.

(** ** Witnesses *)

Module IndexedReaderExamples.

(** A decompressor for data that was not compressed; it fails on other lengths. *)
Definition copy {E} (e : E) (n : Z) (data : bytes) : outcome E bytes :=
  if ((zlen data =? n) && (zlen data <=? usize_max))%Z then Ok data else Err e.
#[export] Instance copy_codecs : ChunkCodecs := {
  zstd_decompress := copy (lit "wrong size");
  lz4_read_exact := copy UnexpectedEofIo;
}.

(** Two chunks whose times overlap, with messages on two channels. *)
Definition msg (channel time : Z) (data : string) : Z * bytes :=
  (op.MESSAGE, c_enc MessageHeader_codec (mkMessageHeader channel 0 time time) ++ lit data).
Definition chunk1 : list (Z * bytes) :=
  [(op.SCHEMA, c_enc SchemaHeader_codec (mkSchemaHeader 1 (lit "S") (lit "json")));
   msg 0 30 "c"; msg 1 10 "a"; msg 0 12 "b"].
Definition chunk2 : list (Z * bytes) := [msg 0 20 "d"; msg 1 25 "e"; msg 0 40 "f"].
Definition recs (o : Z) : list (Z * bytes) := if (o =? 149)%Z then chunk1 else chunk2.
Definition src (o : Z) : bytes := frames (recs o).
Definition index (start from to : Z) (comp : string) (rs : list (Z * bytes)) : ChunkIndex :=
  mkChunkIndex from to start 0 [(0%Z, 0%Z); (1%Z, 0%Z)] 0 (lit comp) (zlen (frames rs)) (zlen (frames rs)).
Definition topic0 : Channel := mkChannel 0 (lit "/zero") None (lit "json") [].
Definition topic1 : Channel := mkChannel 1 (lit "/one") None (lit "json") [].
Definition summary : Summary :=
  mkSummary None {[0%Z := topic0; 1%Z := topic1]} ∅
    [index 1000 20 40 "zstd" chunk2; index 100 10 30 "" chunk1] [] [].
Definition options : IndexedReaderOptions :=
  with_order ReverseLogTime (include_topics [lit "/zero"] (log_time_before 40 IndexedReaderOptions_default)).

Definition reader : IndexedReader :=
  match IndexedReader_new_with_options summary options with
  | Ok r => r
  | _ => mkIndexedReader [] 0 [] [] 0 FileOrder no_filter None
  end.
Lemma reader_new : IndexedReader_new_with_options summary options = Ok reader.
Proof. vm_compute. reflexivity. Qed.
Lemma all_served :
  Forall (λ c, keep_chunk options (included_channel_ids summary options) c = true →
    served (iro_record_length_limit options) src recs c) (chunk_indexes summary).
Proof.
  apply Forall_cons; split; [|apply Forall_cons; split; [|apply Forall_nil; done]];
    intros _; split_and!; vm_compute; reflexivity.
Qed.
Lemma all_honest : Forall (honest recs) (chunk_indexes summary).
Proof.
  apply Forall_cons; split; [|apply Forall_cons; split; [|apply Forall_nil; done]];
    intros hd Hhd; vm_compute in Hhd; repeat (apply elem_of_cons in Hhd as [->|Hhd]);
    try (by apply not_elem_of_nil in Hhd); (split; [cbn; lia|right]); vm_compute; set_solver.
Qed.

Definition m (channel time : Z) (data : string) : MessageHeader * bytes :=
  (mkMessageHeader channel 0 time time, lit data).
Definition yielded : list (MessageHeader * bytes) := [m 0 30 "c"; m 0 20 "d"; m 0 12 "b"].
Example drains : drain 20 src reader = (yielded, Ok ()).
Proof. vm_compute. reflexivity. Qed.

(** In file order the chunk that is first in the file comes first, and within a chunk the
    messages are as they were written. *)
Example drains_in_file_order :
  match IndexedReader_new_with_options summary (with_order FileOrder IndexedReaderOptions_default) with
  | Ok r => drain 20 src r
  | _ => ([], Panic)
  end = ([m 0 30 "c"; m 1 10 "a"; m 0 12 "b"; m 0 20 "d"; m 1 25 "e"; m 0 40 "f"], Ok ()).
Proof. vm_compute. reflexivity. Qed.

Lemma topic_known : topics_known options (summary_topic summary).
Proof. intros topics [= <-]. exists 0%Z, (lit "/zero"). split; [reflexivity|]. apply (bool_decide_unpack _). vm_compute. exact I. Qed.

Lemma indexed_reader_reads_witness :
  ∃ ms, drain 20 src reader = (ms, Ok ()) ∧
    ms ≡ₚ wanted_messages options (summary_topic summary) recs (chunk_indexes summary) ∧
    StronglySorted (λ a b, m_log_time b.1 ≤ m_log_time a.1)%Z ms.
Proof.
  apply (indexed_reader_reads summary options src recs reader 20);
    [exact reader_new|exact topic_known|exact all_served|exact all_honest|vm_compute; lia].
Defined.

(** A client that answers the first request, for the later chunk, with the earlier one. *)
Definition after {A} (p : A * IndexedReader) : IndexedReader := p.2.
Definition requested : IndexedReader := after (ix_next_event reader).
Definition loaded1 : IndexedReader := after (insert_chunk_record_data 149 (src 149) requested).
Definition loaded2 : IndexedReader :=
  after (insert_chunk_record_data 1053 (src 1053) (after (ix_next_event loaded1))).
Lemma other_order : ir_run src reader yielded.
Proof.
  eapply (ir_load src reader requested 1053 _ 149 loaded1); [vm_compute; reflexivity..|].
  eapply (ir_load src loaded1 _ 1053 _ 1053 loaded2); [vm_compute; reflexivity..|].
  do 3 (eapply ir_message; [vm_compute; reflexivity|]). eapply ir_end. vm_compute. reflexivity.
Qed.

Lemma indexed_reader_any_load_order_witness :
  yielded ≡ₚ wanted_messages options (summary_topic summary) recs (chunk_indexes summary) ∧
  StronglySorted (λ a b, m_log_time b.1 ≤ m_log_time a.1)%Z yielded.
Proof.
  apply (indexed_reader_any_load_order summary options src recs reader yielded);
    [exact reader_new|exact topic_known|exact all_served|exact all_honest|exact other_order].
Defined.
(** What was asked for, in the order of the summary. *)
Example wanted_here : wanted_messages options (summary_topic summary) recs (chunk_indexes summary) = [m 0 20 "d"; m 0 30 "c"; m 0 12 "b"].
Proof. vm_compute. reflexivity. Qed.

Lemma unknown_topics_not_filtered_witness :
  IndexedReader_new_with_options summary (include_topics [lit "/two"] IndexedReaderOptions_default) =
  IndexedReader_new_with_options summary IndexedReaderOptions_default.
Proof.
  apply (unknown_topics_not_filtered summary IndexedReaderOptions_default (list_to_set [lit "/two"])).
  intros i c Hc. apply elem_of_map_to_list in Hc. vm_compute in Hc.
  repeat (apply elem_of_cons in Hc as [[= -> ->]|Hc]); [..|by apply not_elem_of_nil in Hc];
    apply (bool_decide_unpack _); vm_compute; exact I.
Defined.

#[export] Instance copy_codecs_ok : ChunkCodecsOk.
Proof.
  split; intros n data; cbn; unfold copy; try intros out;
    destruct ((zlen data =? n) && (zlen data <=? usize_max))%Z eqn:E; try done;
    apply andb_true_iff in E as [_ E%Z.leb_le]; by intros [= <-].
Qed.

(** A chunk whose index counts one byte too many. *)
Definition lying : ChunkIndex := mkChunkIndex 10 30 100 0 [] 0 [] (zlen (frames chunk1)) (zlen (frames chunk1) + 1).
Definition lying_reader : IndexedReader :=
  mkIndexedReader [lying] 0 [] [] 0 LogTime no_filter None.
Lemma insert_panics_iff_witness : (insert_chunk_record_data 149 (frames chunk1) lying_reader).1 = Panic.
Proof.
  apply (insert_panics_iff lying_reader [] 149 (frames chunk1)).
  - split; unfold remaining, unread; cbn.
    + lia.
    + lia.
    + apply Forall_cons; split; [|by apply Forall_nil]. split; [by eexists|vm_compute; reflexivity].
    + constructor.
    + done.
    + constructor.
    + repeat constructor.
  - vm_compute. discriminate.
  - exists 0, lying. split_and!; vm_compute; reflexivity || discriminate.
Defined.

(** A chunk that ends inside a record leaves the entries before the cut behind, with a
    count of zero for their slot: the error is reported, and the next event panics. *)
Definition broken : list (Z * bytes) := [msg 0 30 "c"].
Definition broken_data : bytes := frames broken ++ [Byte.x05].
Definition broken_index : ChunkIndex := mkChunkIndex 30 30 100 0 [] 0 [] (zlen broken_data) (zlen broken_data).
Definition after_error : IndexedReader :=
  after (insert_chunk_record_data 149 broken_data (mkIndexedReader [broken_index] 0 [] [] 0 LogTime no_filter None)).
Example error_then_panic :
  (insert_chunk_record_data 149 broken_data (mkIndexedReader [broken_index] 0 [] [] 0 LogTime no_filter None)).1 =
    Err UnexpectedEoc ∧
  (ix_next_event after_error).1 = Panic.
Proof. split; vm_compute; reflexivity. Qed.

(** Two messages with one log time in two chunks: the chunk that starts earlier in time
    is loaded first, and its message comes first although it is later in the file. *)
Definition early_src (o : Z) : bytes := if (o =? 149)%Z then frames [msg 0 10 "first"] else frames [msg 0 5 "x"; msg 0 10 "second"].
Definition tied : Summary :=
  mkSummary None ∅ ∅
    [index 100 10 10 "" [msg 0 10 "first"]; index 1000 5 10 "" [msg 0 5 "x"; msg 0 10 "second"]] [] [].
Example ties_not_in_file_order :
  match IndexedReader_new tied with
  | Ok r => drain 20 early_src r
  | _ => ([], Panic)
  end = ([m 0 5 "x"; m 0 10 "second"; m 0 10 "first"], Ok ()).
Proof. vm_compute. reflexivity. Qed.
End IndexedReaderExamples.
