(* ===== verification/ChunkWriter.v ===== *)
(** The parts of the writer that write one chunk or one attachment (write.rs):
    [Compressor], [ChunkWriter] and [AttachmentWriter]. *)

From S2P Require Import Prelude Utf8 BTree Errors Bin Records Crc Io Codec Channels.

(** ** The compression libraries *)

(** [zstd]: [raw::Encoder] and [zio::Writer]. *)
Class ZstdEncoderLib := {
  zraw_encoder : Type;
  zraw_with_dictionary : Z → outcome io_error zraw_encoder;
  zraw_set_workers : Z → zraw_encoder → outcome io_error zraw_encoder;
  zio_writer : Type → Type;
  zio_new : ∀ {W}, W → zraw_encoder → zio_writer W;
  zio_write : ∀ {W} `{Write W}, bytes → method (zio_writer W) io_error Z;
  zio_flush : ∀ {W} `{Write W}, method (zio_writer W) io_error ();
  zio_finish : ∀ {W} `{Write W}, method (zio_writer W) io_error ();
  zio_into_inner : ∀ {W}, zio_writer W → W;
}.

(** [lz4]: [EncoderBuilder], with block checksums off, and [Encoder]. *)
Class Lz4EncoderLib := {
  lz4_encoder : Type → Type;
  lz4_build : ∀ {W} `{Write W}, Z → W → outcome io_error (lz4_encoder W);
  lz4_write : ∀ {W} `{Write W}, bytes → method (lz4_encoder W) io_error Z;
  lz4_flush : ∀ {W} `{Write W}, method (lz4_encoder W) io_error ();
  lz4_finish : ∀ {W} `{Write W}, lz4_encoder W → outcome io_error () * W;
}.

(** ** Running a method where its state is a local variable *)

(** [m?] on [s]: an error drops [s]. *)
Definition run {S E A} (m : method S E A) (s : S) : outcome E (A * S) :=
  let '(o, s) := m s in (λ a, (a, s)) <$> o.

(** [if let Err(err) = m { return Err((f(s), err.into())) }] *)
Definition run_or {S W E A} (f : S → W) (into : E → McapError) (m : method S E A) (s : S)
    : outcome (W * McapError) (A * S) :=
  let '(o, s) := m s in (λ a, (a, s)) <$> map_err (λ e, (f s, into e)) o.

(** [write_le] of a struct on a destination: its fields one after the other. *)
Definition bin_io {W A} (m : method W io_error A) : method W bin_error A := λ w,
  let '(o, w) := m w in (map_err BinIo o, w).
Definition write_string_le {W} `{Write W} (s : rstring) : method W io_error () :=
  _ ← write_all (le_enc 4 (as_u32 (zlen s)));
  write_all s.
Definition write_chunk_header {W} `{Write W} (h : ChunkHeader) : method W bin_error () := bin_io (
  _ ← write_all (le_enc 8 (ch_message_start_time h));
  _ ← write_all (le_enc 8 (ch_message_end_time h));
  _ ← write_all (le_enc 8 (ch_uncompressed_size h));
  _ ← write_all (le_enc 4 (ch_uncompressed_crc h));
  _ ← write_string_le (ch_compression h);
  write_all (le_enc 8 (ch_compressed_size h))).

(** [Cursor::new(&mut buf).write_le(b)?] on an empty [buf]. *)
Definition to_buf_le {A} (c : codec A) (a : A) : McapResult bytes :=
  wdata <$> map_err Parse (c_write c a (WCursor [] 0)).

Section compressor.
Context `{ZstdEncoderLib, Lz4EncoderLib} {W : Type}.

(** [Compressor] *)
Inductive Compressor :=
| CNull (w : W)
| CZstd (w : zio_writer W)
| CLz4 (w : lz4_encoder W).

#[export] Instance Compressor_Write `{Write W} : Write Compressor := {|
  write := λ buf c,
    match c with
    | CNull w => let '(o, w) := write buf w in (o, CNull w)
    | CZstd w => let '(o, w) := zio_write buf w in (o, CZstd w)
    | CLz4 w => let '(o, w) := lz4_write buf w in (o, CLz4 w)
    end;
  flush := λ c,
    match c with
    | CNull w => let '(o, w) := flush w in (o, CNull w)
    | CZstd w => let '(o, w) := zio_flush w in (o, CZstd w)
    | CLz4 w => let '(o, w) := lz4_flush w in (o, CLz4 w)
    end;
|}.

(** [finish] *)
Definition Compressor_finish `{Write W} (c : Compressor) : outcome io_error () * W :=
  match c with
  | CNull w => (Ok (), w)
  | CZstd w => let '(o, w) := zio_finish w in (o, zio_into_inner w)
  | CLz4 w => lz4_finish w
  end.

(** [into_inner] *)
Definition Compressor_into_inner `{Write W} (c : Compressor) : W :=
  match c with
  | CNull w => w
  | CZstd w => zio_into_inner w
  | CLz4 w => (lz4_finish w).2
  end.
End compressor.
Arguments Compressor {_ _} W.

(** ** [ChunkWriter] *)

Section chunk_writer.
Context `{Crc, ZstdEncoderLib, Lz4EncoderLib} {W : Type} `{Write W, Seek W}.

(** The stack of wrappers a chunk is written through. *)
Abbreviation sink_writer := (CountingCrcWriter (ChunkSink W)).
Abbreviation chunk_stream := (CountingCrcWriter (Compressor sink_writer)).

Record ChunkWriter := mkChunkWriter {
  cw_chunk_offset : Z;
  cw_header_start : Z;
  cw_data_start : Z;
  cw_message_bounds : option (Z * Z);
  cw_compression_name : rstring;
  cw_compressor : chunk_stream;
  cw_indexes : list (Z * list MessageIndexEntry);
  cw_pre_chunk_crc : option hasher;
  cw_emit_message_indexes : bool;
}.

Definition compression_name (c : option Compression) : rstring :=
  match c with
  | Some Zstd => lit "zstd"
  | Some Lz4 => lit "lz4"
  | None => []
  end.

(** [level as i32] *)
Definition as_i32 (z : Z) : Z := ((z + 2 ^ 31) `mod` 2 ^ 32 - 2 ^ 31)%Z.

(** The compressor over the sink. *)
Definition make_compressor (compression : option Compression) (level threads : Z) (sink : sink_writer)
    : McapResult (Compressor sink_writer) :=
  match compression with
  | Some Zstd =>
      enc ← map_err Io (zraw_with_dictionary (as_i32 level));
      enc ← map_err Io (zraw_set_workers threads enc);
      mret (CZstd (zio_new sink enc))
  | Some Lz4 => CLz4 <$> map_err Io (lz4_build level sink)
  | None => mret (CNull sink)
  end.

(** [!0] in a field of 64 bits, and of 32. *)
Definition dummy_header (name : rstring) : ChunkHeader := mkChunkHeader 0 0 u64_max u32_max name u64_max.

(** [new] *)
Definition ChunkWriter_new (writer : CountingCrcWriter W) (compression : option Compression)
    (mode : ChunkMode) (emit_message_indexes calculate_chunk_crcs : bool) (level threads : Z)
    : McapResult ChunkWriter :=
  '(chunk_offset, writer) ← map_err Io (run stream_position writer);
  let '(writer, pre_chunk_crc) := ccw_finalize writer in
  let sink := ChunkSink_new writer mode in
  '(header_start, sink) ← map_err Io (run stream_position sink);
  '(_, sink) ← map_err Io (run (op_and_len op.CHUNK u64_max) sink);
  '(_, sink) ← map_err Parse (run (write_chunk_header (dummy_header (compression_name compression))) sink);
  '(data_start, sink) ← map_err Io (run stream_position sink);
  compressor ← make_compressor compression level threads (ccw_new sink calculate_chunk_crcs);
  mret (mkChunkWriter chunk_offset header_start data_start None (compression_name compression)
          (ccw_new compressor calculate_chunk_crcs) [] pre_chunk_crc emit_message_indexes).

Definition cw_set_compressor (c : chunk_stream) (s : ChunkWriter) : ChunkWriter :=
  mkChunkWriter (cw_chunk_offset s) (cw_header_start s) (cw_data_start s) (cw_message_bounds s)
    (cw_compression_name s) c (cw_indexes s) (cw_pre_chunk_crc s) (cw_emit_message_indexes s).

(** [io?] in a function that returns a [McapResult]. *)
Definition mcap_io {S A} (m : method S io_error A) : method S McapError A := λ s,
  let '(o, s) := m s in (map_err Io o, s).

(** [ChunkWriter::write_record] *)
Definition cw_write_record (r : record) : method ChunkWriter McapError () :=
  zoom cw_compressor cw_set_compressor (mcap_io (write_record r)).

(** The bounds with one more time. *)
Definition extend_bounds (bounds : option (Z * Z)) (log_time : Z) : option (Z * Z) :=
  Some match bounds with
       | None => (log_time, log_time)
       | Some (start, end_) => (Z.min start log_time, Z.max end_ log_time)
       end.

(** [self.indexes.entry(channel_id).or_default().push(entry)] *)
Definition push_index (channel_id : Z) (e : MessageIndexEntry) (m : list (Z * list MessageIndexEntry))
    : list (Z * list MessageIndexEntry) :=
  bt_insert channel_id (default [] (bt_get channel_id m) ++ [e]) m.

(** [ChunkWriter::write_message], up to the record. *)
Definition note_message (h : MessageHeader) (s : ChunkWriter) : ChunkWriter :=
  mkChunkWriter (cw_chunk_offset s) (cw_header_start s) (cw_data_start s)
    (extend_bounds (cw_message_bounds s) (m_log_time h)) (cw_compression_name s) (cw_compressor s)
    (if cw_emit_message_indexes s
     then push_index (m_channel_id h) (mkMessageIndexEntry (m_log_time h) (ccw_count (cw_compressor s))) (cw_indexes s)
     else cw_indexes s)
    (cw_pre_chunk_crc s) (cw_emit_message_indexes s).

Definition cw_write_message (h : MessageHeader) (data : bytes) : method ChunkWriter McapError () :=
  _ ← modify (note_message h);
  cw_write_record (RMessage h data).

(** [unwrap_writer] *)
Definition unwrap_writer (w : sink_writer) : W := cks_inner (ccw_finalize w).1.

(** The message indexes after a chunk, and where each one is. *)
Fixpoint write_message_indexes (indexes : list (Z * list MessageIndexEntry)) (offsets : list (Z * Z))
    (writer : CountingCrcWriter W) : outcome (W * McapError) (list (Z * Z) * CountingCrcWriter W) :=
  match indexes with
  | [] => mret (offsets, writer)
  | (channel_id, records) :: indexes =>
      let inner (w : CountingCrcWriter W) := (ccw_finalize w).1 in
      '(position, writer) ← run_or inner Io stream_position writer;
      _ ← rassert (negb (bt_contains channel_id offsets));
      index_buf ← map_err (λ e, (inner writer, e)) (to_buf_le MessageIndex_codec (mkMessageIndex channel_id records));
      '(_, writer) ← run_or inner Io (op_and_len op.MESSAGE_INDEX (zlen index_buf)) writer;
      '(_, writer) ← run_or inner Io (write_all index_buf) writer;
      write_message_indexes indexes (bt_insert channel_id position offsets) writer
  end.

(** The true header. *)
Definition finished_header (s : ChunkWriter) (uncompressed_size : Z) (uncompressed_crc : option hasher)
    (compressed_size : Z) : ChunkHeader :=
  let bounds := default (0, 0)%Z (cw_message_bounds s) in
  mkChunkHeader bounds.1 bounds.2 uncompressed_size
    (default 0%Z (hasher_finalize <$> uncompressed_crc)) (cw_compression_name s) compressed_size.

(** [finish], to the end of the chunk record: the writer (with its hasher), the mode
    and the length of the record. *)
Definition finish_chunk_record (s : ChunkWriter) (header : ChunkHeader) (sink : ChunkSink W)
    (compressed_crc : option hasher)
    : outcome (W * McapError) (CountingCrcWriter W * ChunkMode * Z) :=
  '(data_end, sink) ← run_or cks_inner Io stream_position sink;
  record_size ← sub_ data_end (cw_header_start s);
  record_size ← sub_ record_size 9;
  '(_, sink) ← run_or cks_inner Io (seek (SeekStart (cw_header_start s))) sink;
  let writer := ccw_with_hasher sink (cw_pre_chunk_crc s) in
  '(_, writer) ← run_or unwrap_writer Io (op_and_len op.CHUNK record_size) writer;
  '(_, writer) ← run_or unwrap_writer Parse (write_chunk_header header) writer;
  let '(sink, post_chunk_header_crc) := ccw_finalize writer in
  '(position, sink) ← run_or cks_inner Io stream_position sink;
  _ ← rassert (cw_data_start s =? position)%Z;
  '(_, sink) ← run_or cks_inner Io (seek (SeekEnd 0)) sink;
  chunk_length ← sub_ data_end (cw_header_start s);
  let '(mode, writer) := ChunkSink_finish sink in
  mode ← map_err (λ e, (writer, Io e)) mode;
  let crc := match post_chunk_header_crc, compressed_crc with
             | Some hasher, Some compressed_crc => Some (hasher_combine hasher compressed_crc)
             | crc, _ => crc
             end in
  mret (ccw_with_hasher writer crc, mode, chunk_length).

(** [finish] *)
Definition ChunkWriter_finish (s : ChunkWriter)
    : outcome (W * McapError) (CountingCrcWriter W * ChunkMode * ChunkIndex) :=
  let uncompressed_size := ccw_count (cw_compressor s) in
  let '(stream, uncompressed_crc) := ccw_finalize (cw_compressor s) in
  let '(result, writer) := Compressor_finish stream in
  _ ← map_err (λ e, (unwrap_writer writer, Io e)) result;
  let compressed_size := ccw_count writer in
  let '(sink, compressed_crc) := ccw_finalize writer in
  let header := finished_header s uncompressed_size uncompressed_crc compressed_size in
  '(writer, mode, chunk_length) ← finish_chunk_record s header sink compressed_crc;
  let inner (w : CountingCrcWriter W) := (ccw_finalize w).1 in
  '(data_end, writer) ← run_or inner Io stream_position writer;
  '(offsets, writer) ← write_message_indexes (cw_indexes s) [] writer;
  '(position, writer) ← run_or inner Io stream_position writer;
  message_index_length ← sub_ position data_end;
  mret (writer, mode,
        mkChunkIndex (ch_message_start_time header) (ch_message_end_time header) (cw_chunk_offset s)
          chunk_length offsets message_index_length (ch_compression header)
          (ch_compressed_size header) (ch_uncompressed_size header)).
End chunk_writer.
Arguments ChunkWriter {_ _ _} W.

(** ** [AttachmentWriter] *)

Section attachment_writer.
Context `{Crc} {W : Type} `{Write W, Seek W}.

Record AttachmentWriter := mkAttachmentWriter {
  aw_record_offset : Z;
  aw_attachment_offset : Z;
  aw_attachment_length : Z;
  aw_header : AttachmentHeader;
  aw_writer : CountingCrcWriter W;
}.

(** [new] *)
Definition AttachmentWriter_new (writer : W) (attachment_length : Z) (header : AttachmentHeader)
    (calculate_crc : bool) : McapResult AttachmentWriter :=
  '(record_offset, writer) ← map_err Io (run stream_position writer);
  header_buf ← to_buf_le AttachmentHeader_codec header;
  len ← add_ u64_max (zlen header_buf) 8;
  len ← add_ u64_max len attachment_length;
  len ← add_ u64_max len 4;
  '(_, writer) ← map_err Io (run (op_and_len op.ATTACHMENT len) writer);
  let writer := ccw_new writer calculate_crc in
  '(_, writer) ← map_err Io (run (write_all header_buf) writer);
  '(_, writer) ← map_err Io (run (write_all (le_enc 8 attachment_length)) writer);
  mret (mkAttachmentWriter record_offset (ccw_count writer) attachment_length header writer).

Definition aw_set_writer (w : CountingCrcWriter W) (s : AttachmentWriter) : AttachmentWriter :=
  mkAttachmentWriter (aw_record_offset s) (aw_attachment_offset s) (aw_attachment_length s) (aw_header s) w.

(** [put_bytes] *)
Definition put_bytes (b : bytes) : method AttachmentWriter McapError () :=
  s ← get;
  attachment_position ← lift (sub_ (ccw_count (aw_writer s)) (aw_attachment_offset s));
  space ← lift (sub_ (aw_attachment_length s) attachment_position);
  if (space <? zlen b)%Z then mthrow (AttachmentTooLarge (zlen b - space) (aw_attachment_length s))
  else zoom aw_writer aw_set_writer (mcap_io (write_all b)).

(** [finish] *)
Definition AttachmentWriter_finish (s : AttachmentWriter) : McapResult (W * AttachmentIndex) :=
  let expected := aw_attachment_length s in
  current ← sub_ (ccw_count (aw_writer s)) (aw_attachment_offset s);
  if negb (expected =? current)%Z then mthrow (AttachmentIncomplete current expected) else
  let '(writer, h) := ccw_finalize (aw_writer s) in
  let crc := default 0%Z (hasher_finalize <$> h) in
  '(_, writer) ← map_err Io (run (write_all (le_enc 4 crc)) writer);
  let offset := aw_record_offset s in
  '(position, writer) ← map_err Io (run stream_position writer);
  length ← sub_ position offset;
  mret (writer, mkAttachmentIndex offset length (ah_log_time (aw_header s)) (ah_create_time (aw_header s))
          (aw_attachment_length s) (ah_name (aw_header s)) (ah_media_type (aw_header s))).
End attachment_writer.
Arguments AttachmentWriter {_} W.
