(* ===== verification/ChunkWriterTheory.v ===== *)
(** What the chunk writer promises: on a file it writes to the end of, over a
    compressor that keeps its promise [EncoderOk], it appends one chunk record with a
    true header, the message indexes after it, and returns the chunk's index. *)

From S2P Require Import Prelude Utf8 BTree Errors Bin Records Crc Io Codec Channels ChunkWriter.

(** ** Running methods *)

Lemma run_Ok {S E A} (m : method S E A) s a s' : m s = (Ok a, s') → run m s = Ok (a, s').
Proof. intros E1. unfold run. by rewrite E1. Qed.
Lemma run_or_Ok {S W E A} (f : S → W) into (m : method S E A) s a s' :
  m s = (Ok a, s') → run_or f into m s = Ok (a, s').
Proof. intros E1. unfold run_or. by rewrite E1. Qed.
Lemma mcap_io_Ok {S A} (m : method S io_error A) s a s' : m s = (Ok a, s') → mcap_io m s = (Ok a, s').
Proof. intros E1. unfold mcap_io. by rewrite E1. Qed.
Lemma zoom_eq {S T E A} (get : S → T) set (m : method T E A) s o t :
  m (get s) = (o, t) → zoom get set m s = (o, set t s).
Proof. intros E1. unfold zoom. by rewrite E1. Qed.
Lemma bind_method_Ok {S E A B} (m : method S E A) (f : A → method S E B) s a s' :
  m s = (Ok a, s') → (m ≫= f) s = f a s'.
Proof. intros E1. unfold mbind, method_bind. by rewrite E1. Qed.

Lemma bind_get {S E B} (f : S → method S E B) s : (get ≫= f) s = f s s.
Proof. done. Qed.
Lemma bind_gets {S E A B} (g : S → A) (f : A → method S E B) s : (gets g ≫= f) s = f (g s) s.
Proof. done. Qed.
Lemma bind_modify {S E B} (g : S → S) (f : () → method S E B) s : (modify g ≫= f) s = f () (g s).
Proof. done. Qed.
Lemma bind_lift {S E A B} (x : A) (f : A → method S E B) s : (lift (Ok x) ≫= f) s = f x s.
Proof. done. Qed.
Lemma bind_ret {S E A B} (x : A) (f : A → method S E B) s : (mret x ≫= f) s = f x s.
Proof. done. Qed.

(** ** The sink of a chunk *)

Section sink_file.
Context `{FileOk W file}.

(** A sink with local contents [c], of a file with the bytes [pre]: the file itself,
    or a buffer. *)
Definition sink_file (pre : bytes) (buffered : bool) (s : ChunkSink W) (c : bytes) (p : Z) : Prop :=
  match cks_buffer s with
  | None => buffered = false ∧ file (cks_inner s) c p
  | Some b => buffered = true ∧ cursor_file b c p ∧ file (cks_inner s) pre (zlen pre)
  end.

#[export] Instance sink_FileOk pre buffered : FileOk (ChunkSink W) (sink_file pre buffered).
Proof.
  split; intros [w [b|]] c p; unfold sink_file; cbn [cks_buffer cks_inner].
  - intros q (? & Hb & Hw) Hp Hq Hm. destruct (file_write b c p q Hb Hp Hq Hm) as (n & b' & E & Hn & Hb').
    exists n, (mkChunkSink w (Some b')). cbn [write sink_Write on_sink cks_buffer cks_inner]. unfold on_sink. cbn [cks_buffer cks_inner].
    rewrite E. split_and!; done || lia.
  - intros q [? Hw] Hp Hq Hm. destruct (file_write w c p q Hw Hp Hq Hm) as (n & w' & E & Hn & Hw').
    exists n, (mkChunkSink w' None). cbn [write sink_Write]. unfold on_sink. cbn [cks_buffer cks_inner].
    rewrite E. split_and!; done || lia.
  - intros (? & Hb & Hw). destruct (file_flush b c p Hb) as (b' & E & Hb'). exists (mkChunkSink w (Some b')).
    cbn [flush sink_Write]. unfold on_sink. cbn [cks_buffer cks_inner]. rewrite E. split_and!; done || lia.
  - intros [? Hw]. destruct (file_flush w c p Hw) as (w' & E & Hw'). exists (mkChunkSink w' None).
    cbn [flush sink_Write]. unfold on_sink. cbn [cks_buffer cks_inner]. rewrite E. split_and!; done || lia.
  - intros (? & Hb & Hw). destruct (file_position b c p Hb) as (b' & E & Hb'). exists (mkChunkSink w (Some b')).
    cbn [stream_position sink_Seek]. unfold on_sink. cbn [cks_buffer cks_inner]. rewrite E. split_and!; done || lia.
  - intros [? Hw]. destruct (file_position w c p Hw) as (w' & E & Hw'). exists (mkChunkSink w' None).
    cbn [stream_position sink_Seek]. unfold on_sink. cbn [cks_buffer cks_inner]. rewrite E. split_and!; done || lia.
  - intros q (? & Hb & Hw) Hq. destruct (file_seek_start b c p q Hb Hq) as (b' & E & Hb').
    exists (mkChunkSink w (Some b')).
    cbn [seek sink_Seek]. unfold on_sink. cbn [cks_buffer cks_inner]. rewrite E. split_and!; done || lia.
  - intros q [? Hw] Hq. destruct (file_seek_start w c p q Hw Hq) as (w' & E & Hw'). exists (mkChunkSink w' None).
    cbn [seek sink_Seek]. unfold on_sink. cbn [cks_buffer cks_inner]. rewrite E. split_and!; done || lia.
  - intros (? & Hb & Hw). destruct (file_seek_end b c p Hb) as (b' & E & Hb'). exists (mkChunkSink w (Some b')).
    cbn [seek sink_Seek]. unfold on_sink. cbn [cks_buffer cks_inner]. rewrite E. split_and!; done || lia.
  - intros [? Hw]. destruct (file_seek_end w c p Hw) as (w' & E & Hw'). exists (mkChunkSink w' None).
    cbn [seek sink_Seek]. unfold on_sink. cbn [cks_buffer cks_inner]. rewrite E. split_and!; done || lia.
Qed.

(** At the end of the file. *)
Definition at_end (w : W) (c : bytes) : Prop := over file [] w c.

Definition is_buffered (m : ChunkMode) : bool := match m with Buffered _ => true | Direct => false end.

(** What the file has before the chunk, as far as the sink's contents go. *)
Definition lead (pre : bytes) (buffered : bool) : bytes := if buffered then [] else pre.

Lemma ChunkSink_new_spec pre mode w : at_end w pre →
  sink_file pre (is_buffered mode) (ChunkSink_new w mode)
    (lead pre (is_buffered mode)) (zlen (lead pre (is_buffered mode))).
Proof. unfold at_end. rewrite over_nil. by destruct mode. Qed.

Lemma ChunkSink_finish_spec pre buffered s k :
  sink_file pre buffered s (lead pre buffered ++ k) (zlen (lead pre buffered ++ k)) →
  (zlen (pre ++ k) ≤ u64_max)%Z →
  ∃ mode w, ChunkSink_finish s = (Ok mode, w) ∧ is_buffered mode = buffered ∧ at_end w (pre ++ k).
Proof.
  destruct s as [w [b|]]; unfold sink_file, at_end, ChunkSink_finish; cbn [cks_buffer cks_inner].
  - intros (-> & -> & Hw) Hm. cbn [vc_data lead app] in *.
    destruct (write_all_ok (rep:=over file []) k w pre) as (w' & E & Hw'); [by rewrite over_nil|done|].
    rewrite E. by exists (Buffered k), w'.
  - intros [-> Hw] _. exists Direct, w. split_and!; try done. by rewrite over_nil.
Qed.
End sink_file.

(** ** The compressor's promise *)

(** [enc_rep rep base e d]: an encoder over a destination that had the bytes [base]
    and was given [d]. What finishing it adds, [encodes d], is bounded by [enc_bound].
    These are the documented promises of the compression libraries (and of no
    compression). *)
Class EncoderOk `{Crc, ZstdEncoderLib, Lz4EncoderLib} (compression : option Compression) (level threads : Z) := {
  enc_bound : Z → Z;
  encodes : bytes → bytes → Prop;
  enc_rep : ∀ {S} `{Write S}, (S → bytes → Prop) → bytes → Compressor S → bytes → Prop;
  enc_bound_ge n : (n ≤ enc_bound n)%Z;
  enc_bound_add n m : (0 ≤ n)%Z → (0 ≤ m)%Z → (enc_bound (n + m) ≤ enc_bound n + enc_bound m)%Z;
  enc_bound_mono n m : (n ≤ m)%Z → (enc_bound n ≤ enc_bound m)%Z;
  enc_make {W} `{Write W, Seek W} (rep : CountingCrcWriter (ChunkSink W) → bytes → Prop) s c : rep s c →
    ∃ e, make_compressor compression level threads s = Ok e ∧ enc_rep rep c e [];
  enc_write {S} `{WriteOk S rep cap} base e d b : enc_rep rep base e d → b ≠ [] →
    (zlen base + enc_bound (zlen (d ++ b)) ≤ cap)%Z →
    ∃ n e', write b e = (Ok n, e') ∧ (0 < n ≤ zlen b)%Z ∧ enc_rep rep base e' (d ++ ztake n b);
  enc_finish {S} `{WriteOk S rep cap} base e d : enc_rep rep base e d → (zlen base + enc_bound (zlen d) ≤ cap)%Z →
    ∃ w z, Compressor_finish e = (Ok (), w) ∧ rep w (base ++ z) ∧ encodes d z ∧ (zlen z ≤ enc_bound (zlen d))%Z;
}.

(** No compression. *)
#[export, refine] Instance null_EncoderOk `{Crc, ZstdEncoderLib, Lz4EncoderLib} level threads :
    EncoderOk None level threads := {
  enc_bound n := n;
  encodes d z := z = d;
  enc_rep S _ rep base e d := ∃ w, e = CNull w ∧ rep w (base ++ d);
}.
Proof.
  - done.
  - done.
  - done.
  - intros W ? ? rep s c Hs. exists (CNull s). split; [done|]. exists s. by rewrite app_nil_r.
  - intros S ? rep cap ? base e d b (w & -> & Hw) Hb Hm.
    destruct (write_ok w _ b Hw Hb) as (n & w' & E & Hn & Hw'); [zlia|].
    exists n, (CNull w'). cbn [write Compressor_Write]. rewrite E. split_and!; [done|lia..|].
    exists w'. by rewrite app_assoc.
  - intros S ? rep cap ? base e d (w & -> & Hw) Hm. exists w, d. by split_and!.
Defined.

Lemma enc_WriteOk `{EncoderOk compression level threads} {S} `{WriteOk S rep cap} base most :
  (zlen base + enc_bound most ≤ cap)%Z → (most ≤ u64_max)%Z →
  WriteOk (Compressor S) (enc_rep rep base) most.
Proof.
  intros Hm Hu. split; [done|]. intros e d b He Hb Hl. eapply enc_write; try done.
  pose proof (enc_bound_mono _ _ Hl). lia.
Qed.

(** ** What a chunk holds *)

Definition records_data (rs : list record) : bytes := concat (record_frame <$> rs).

Definition bounds_step (b : option (Z * Z)) (r : record) : option (Z * Z) :=
  match r with RMessage h _ => extend_bounds b (m_log_time h) | _ => b end.
Definition bounds_of (rs : list record) : option (Z * Z) := foldl bounds_step None rs.

(** The entries of the message indexes, each with the offset of its message. *)
Definition index_step (acc : Z * list (Z * list MessageIndexEntry)) (r : record)
    : Z * list (Z * list MessageIndexEntry) :=
  (acc.1 + zlen (record_frame r),
   match r with
   | RMessage h _ => push_index (m_channel_id h) (mkMessageIndexEntry (m_log_time h) acc.1) acc.2
   | _ => acc.2
   end)%Z.
Definition indexes_of (rs : list record) : list (Z * list MessageIndexEntry) :=
  (foldl index_step (0%Z, []) rs).2.

Lemma records_data_snoc rs r : records_data (rs ++ [r]) = records_data rs ++ record_frame r.
Proof. unfold records_data. rewrite fmap_app, concat_app. cbn. by rewrite app_nil_r. Qed.
Lemma bounds_of_snoc rs r : bounds_of (rs ++ [r]) = bounds_step (bounds_of rs) r.
Proof. unfold bounds_of. by rewrite foldl_app. Qed.
Lemma index_fold_offset rs : (foldl index_step (0%Z, []) rs).1 = zlen (records_data rs).
Proof.
  induction rs as [|r rs IH] using rev_ind; [done|]. rewrite foldl_app, records_data_snoc, zlen_app, <-IH. done.
Qed.
Lemma indexes_of_snoc rs r : indexes_of (rs ++ [r]) =
  match r with
  | RMessage h _ => push_index (m_channel_id h) (mkMessageIndexEntry (m_log_time h) (zlen (records_data rs))) (indexes_of rs)
  | _ => indexes_of rs
  end.
Proof. unfold indexes_of. rewrite foldl_app. cbn. by rewrite index_fold_offset. Qed.

(** ** The fields of a header, one by one *)

Lemma sinks_string `{WriteOk W rep cap} s : in_u 32 (zlen s) → sinks rep cap (write_string_le s) (c_enc rstr s).
Proof.
  intros Hs. unfold write_string_le. rewrite as_u32_small by done. cbn. unfold string_enc.
  apply sinks_bind; apply sinks_write, _.
Qed.

Lemma sinks_bin_io `{WriteOk W rep cap} (m : method W io_error ()) e : sinks rep cap m e → sinks rep cap (bin_io m) e.
Proof. intros Hm w c Hw Hl. destruct (Hm w c Hw Hl) as (w' & E & Hw'). exists w'. unfold bin_io. by rewrite E. Qed.

Lemma sinks_chunk_header `{WriteOk W rep cap} h : in_u 32 (zlen (ch_compression h)) →
  sinks rep cap (write_chunk_header h) (c_enc ChunkHeader_codec h).
Proof.
  intros Hs. unfold write_chunk_header. apply sinks_bin_io. destruct h as [s e u k n z]. cbn -[c_enc write_string_le].
  change (c_enc ChunkHeader_codec (mkChunkHeader s e u k n z))
    with (((((le_enc 8 s ++ le_enc 8 e) ++ le_enc 8 u) ++ le_enc 4 k) ++ c_enc rstr n) ++ le_enc 8 z).
  rewrite <-!app_assoc. repeat (apply sinks_bind; [by apply sinks_write || by apply sinks_string|]).
  by apply sinks_write.
Qed.

Lemma zlen_chunk_header s e u k n z : zlen (c_enc ChunkHeader_codec (mkChunkHeader s e u k n z)) = (40 + zlen n)%Z.
Proof.
  change (c_enc ChunkHeader_codec (mkChunkHeader s e u k n z))
    with (((((le_enc 8 s ++ le_enc 8 e) ++ le_enc 8 u) ++ le_enc 4 k) ++ (le_enc 4 (zlen n) ++ n)) ++ le_enc 8 z).
  zlia.
Qed.

Lemma compression_name_len c : (0 ≤ zlen (compression_name c) ≤ 4)%Z.
Proof. destruct c as [[]|]; vm_compute; by split. Qed.

(** ** A chunk writer at work *)

Lemma ccw_position `{Crc} `{FileOk W file} (s : CountingCrcWriter W) c p : file (ccw_inner s) c p →
  ∃ w', stream_position s = (Ok p, ccw_set_inner w' s) ∧ file w' c p.
Proof.
  intros Hs. destruct (file_position _ _ _ Hs) as (w' & E & Hw'). exists w'. split; [|done].
  cbn [stream_position ccw_Seek]. unfold on_inner. by rewrite (zoom_eq _ _ _ _ _ _ E).
Qed.
Lemma run_position `{FileOk W file} w c p : file w c p →
  ∃ w', run stream_position w = Ok (p, w') ∧ file w' c p.
Proof. intros Hs. destruct (file_position _ _ _ Hs) as (w' & E & Hw'). exists w'. split; [by apply run_Ok|done]. Qed.
Lemma run_sinks `{WriteOk W rep cap} {E} (m : method W E ()) e w c : sinks rep cap m e → rep w c →
  (zlen (c ++ e) ≤ cap)%Z → ∃ w', run m w = Ok ((), w') ∧ rep w' (c ++ e).
Proof. intros Hm Hw Hl. destruct (Hm w c Hw Hl) as (w' & E1 & Hw'). exists w'. split; [by apply run_Ok|done]. Qed.

Definition start_hash `{Crc} (on : bool) : option hasher := if on then Some hasher_new else None.

Lemma run_tell `{TellOk W rep} w c : rep w c → ∃ w', run stream_position w = Ok (zlen c, w') ∧ rep w' c.
Proof. intros Hs. destruct (tell_ok _ _ Hs) as (w' & E & Hw'). exists w'. split; [by apply run_Ok|done]. Qed.

Section chunk.
Context `{Crc, !CrcLaws, ZstdEncoderLib, Lz4EncoderLib} `{FileOk W file}.
Context {compression : option Compression} {level threads : Z} `{!EncoderOk compression level threads}.
(** One chunk: what the file has before it, the options, and how many bytes of records
    there is room for. *)
Context (pre : bytes) (buffered calculate emit : bool) (most : Z).

(** The start of the chunk record before it is finished. *)
Definition dummy_start : bytes :=
  (le_enc 1 op.CHUNK ++ le_enc 8 u64_max) ++ c_enc ChunkHeader_codec (dummy_header (compression_name compression)).
Definition sink_base : bytes := lead pre buffered ++ dummy_start.

Definition roomy : Prop := (zlen pre + zlen dummy_start + enc_bound most ≤ u64_max)%Z ∧ (0 ≤ most ≤ u64_max)%Z.

Definition sink_rep : CountingCrcWriter (ChunkSink W) → bytes → Prop :=
  ccw_rep (over (sink_file pre buffered) []) sink_base (start_hash calculate).
Definition stream_rep : CountingCrcWriter (Compressor (CountingCrcWriter (ChunkSink W))) → bytes → Prop :=
  ccw_rep (enc_rep sink_rep sink_base) [] (start_hash calculate).

Record cw_rep (h : option hasher) (rs : list record) (s : ChunkWriter W) : Prop := {
  cwr_chunk_offset : cw_chunk_offset s = zlen pre;
  cwr_header_start : cw_header_start s = zlen (lead pre buffered);
  cwr_data_start : cw_data_start s = zlen sink_base;
  cwr_bounds : cw_message_bounds s = bounds_of rs;
  cwr_name : cw_compression_name s = compression_name compression;
  cwr_stream : stream_rep (cw_compressor s) (records_data rs);
  cwr_indexes : cw_indexes s = if emit then indexes_of rs else [];
  cwr_hasher : cw_pre_chunk_crc s = h;
  cwr_emit : cw_emit_message_indexes s = emit;
}.

Lemma lead_le : (zlen (lead pre buffered) ≤ zlen pre)%Z.
Proof. destruct buffered; cbn; zlia. Qed.

Hypothesis Hroom : roomy.

#[local] Instance sink_WriteOk : WriteOk _ sink_rep u64_max.
Proof. unfold sink_rep. apply _. Qed.
#[local] Instance stream_WriteOk : WriteOk _ stream_rep most.
Proof.
  assert (WriteOk _ (enc_rep sink_rep sink_base) most); [|unfold stream_rep; apply _].
  apply (enc_WriteOk (cap := u64_max)); [|apply Hroom].
  destruct Hroom as [Hr _]. unfold sink_base. pose proof lead_le. zlia.
Qed.

Lemma ChunkWriter_new_spec writer mode : is_buffered mode = buffered → at_end (ccw_inner writer) pre →
  ∃ cw, ChunkWriter_new writer compression mode emit calculate level threads = Ok cw ∧
    cw_rep (ccw_hasher writer) [] cw.
Proof.
  intros Hb Hw. unfold at_end in Hw. rewrite over_nil in Hw. unfold ChunkWriter_new. destruct Hroom as [Hr [Hpos _]].
  pose proof (enc_bound_ge most) as Hbound. pose proof lead_le as Hlead.
  destruct (ccw_position writer pre _ Hw) as (w1 & E1 & Hw1). rewrite (run_Ok _ _ _ _ E1). cbn [map_err mbind outcome_bind ccw_finalize ccw_inner ccw_hasher ccw_set_inner].
  pose proof (ChunkSink_new_spec pre mode w1) as Hs. rewrite Hb in Hs. unfold at_end in Hs. rewrite over_nil in Hs.
  specialize (Hs Hw1). destruct (run_position _ _ _ Hs) as (s1 & -> & Hs1). cbn [map_err mbind outcome_bind].
  apply over_nil in Hs1.
  destruct (run_sinks (rep:=over (sink_file pre buffered) []) (cap:=u64_max) _ _ _ _
    (sinks_op_and_len _ _ op.CHUNK u64_max) Hs1) as (s2 & -> & Hs2).
  { unfold dummy_start in Hr. zlia. }
  cbn [map_err mbind outcome_bind].
  destruct (run_sinks (rep:=over (sink_file pre buffered) []) (cap:=u64_max) _ _ _ _
    (sinks_chunk_header (dummy_header (compression_name compression))
       ltac:(pose proof (compression_name_len compression); unfold in_u; cbn [dummy_header ch_compression]; lia)) Hs2) as (s3 & -> & Hs3).
  { unfold dummy_start in Hr. zlia. }
  rewrite <-app_assoc in Hs3. change (_ ++ c_enc ChunkHeader_codec _) with dummy_start in Hs3. fold sink_base in Hs3.
  cbn [map_err mbind outcome_bind]. pose proof (proj1 (over_nil _ _) Hs3) as Hs3'.
  destruct (run_position _ _ _ Hs3') as (s4 & -> & Hs4%over_nil). cbn [map_err mbind outcome_bind].
  destruct (enc_make (level:=level) (threads:=threads) sink_rep (ccw_new s4 calculate) sink_base) as (e & -> & He).
  { by apply ccw_new_rep. }
  cbn [mbind outcome_bind]. eexists. split; [done|]. split; try done; cbn; [|by destruct emit].
  by apply ccw_new_rep.
Qed.

(** Records go in one after the other. *)
Lemma cw_put_spec h rs s r : cw_rep h rs s → record_wf r = true → writable r = true →
  (zlen (records_data (rs ++ [r])) ≤ most)%Z →
  ∃ c, cw_write_record r s = (Ok (), cw_set_compressor c s) ∧ stream_rep c (records_data (rs ++ [r])).
Proof.
  intros Hs Hw Hwr Hl. rewrite records_data_snoc in *.
  destruct (sinks_record stream_rep most r Hw Hwr _ _ (cwr_stream _ _ _ Hs) Hl) as (c & E & Hc).
  exists c. split; [|done]. unfold cw_write_record. by apply zoom_eq, mcap_io_Ok.
Qed.

Lemma cw_write_record_spec h rs s r : cw_rep h rs s → record_wf r = true → writable r = true →
  record_opcode r ≠ op.MESSAGE → (zlen (records_data (rs ++ [r])) ≤ most)%Z →
  ∃ s', cw_write_record r s = (Ok (), s') ∧ cw_rep h (rs ++ [r]) s'.
Proof.
  intros Hs Hw Hwr Hno Hl. destruct (cw_put_spec h rs s r Hs Hw Hwr Hl) as (c & E & Hc).
  exists (cw_set_compressor c s). split; [done|]. destruct Hs. split; try done; cbn.
  - rewrite bounds_of_snoc. destruct r; done.
  - rewrite indexes_of_snoc. destruct r; done.
Qed.

Lemma cw_write_message_spec h rs s m data : cw_rep h rs s → record_wf (RMessage m data) = true →
  (zlen (records_data (rs ++ [RMessage m data])) ≤ most)%Z →
  ∃ s', cw_write_message m data s = (Ok (), s') ∧ cw_rep h (rs ++ [RMessage m data]) s'.
Proof.
  intros Hs Hw Hl. unfold cw_write_message. rewrite (bind_method_Ok _ _ s () (note_message m s)) by done.
  assert (stream_rep (cw_compressor (note_message m s)) (records_data rs)) as Hst by apply Hs.
  rewrite records_data_snoc in Hl.
  destruct (sinks_record stream_rep most (RMessage m data) Hw eq_refl _ _ Hst Hl) as (c & E & Hc).
  exists (cw_set_compressor c (note_message m s)).
  split; [unfold cw_write_record; by apply zoom_eq, mcap_io_Ok|].
  assert (ccw_count (cw_compressor s) = zlen (records_data rs)) as Hcount.
  { destruct (cwr_stream _ _ _ Hs) as (d & -> & _ & Hd & _). done. }
  destruct Hs. split; try done; cbn.
  - rewrite bounds_of_snoc. cbn. congruence.
  - by rewrite records_data_snoc.
  - rewrite indexes_of_snoc, cwr_emit0, Hcount, cwr_indexes0. by destruct emit.
Qed.
End chunk.

(** ** Finishing a chunk *)

Lemma push_index_sorted c e m : bt_sorted m = true → bt_sorted (push_index c e m) = true.
Proof. intros Hs. by apply bt_insert_sorted. Qed.
Lemma indexes_of_sorted rs : bt_sorted (indexes_of rs) = true.
Proof.
  induction rs as [|r rs IH] using rev_ind; [done|]. rewrite indexes_of_snoc.
  destruct r; try done. by apply push_index_sorted.
Qed.

Lemma to_buf_le_enc {A} (c : codec A) `{!CodecOk c} a : c_wf c a = true → to_buf_le c a = Ok (c_enc c a).
Proof. intros Ha. unfold to_buf_le. by rewrite (codec_appends a Ha). Qed.

(** The message index records after a chunk, and where each of them is. *)
Definition index_record (i : Z * list MessageIndexEntry) : Z * bytes :=
  (op.MESSAGE_INDEX, c_enc MessageIndex_codec (mkMessageIndex i.1 i.2)).
Definition index_frames (idx : list (Z * list MessageIndexEntry)) : bytes := frames (index_record <$> idx).
Fixpoint index_offsets (pos : Z) (idx : list (Z * list MessageIndexEntry)) : list (Z * Z) :=
  match idx with
  | [] => []
  | i :: idx => (i.1, pos) :: index_offsets (pos + zlen (frame (index_record i).1 (index_record i).2)) idx
  end.
Definition index_wf (i : Z * list MessageIndexEntry) : bool :=
  c_wf MessageIndex_codec (mkMessageIndex i.1 i.2).

Lemma index_frames_cons i idx :
  index_frames (i :: idx) = frame (index_record i).1 (index_record i).2 ++ index_frames idx.
Proof. done. Qed.

Lemma write_message_indexes_spec `{Crc, !CrcLaws} `{FileOk W file} base h idx : ∀ offsets writer c,
  ccw_rep (over file []) base h writer c → bt_sorted idx = true → forallb index_wf idx = true →
  match idx with [] => True | i :: _ => bt_below offsets i.1 end →
  (zlen (c ++ index_frames idx) ≤ u64_max)%Z →
  ∃ writer', write_message_indexes idx offsets writer = Ok (offsets ++ index_offsets (zlen c) idx, writer') ∧
    ccw_rep (over file []) base h writer' (c ++ index_frames idx).
Proof.
  induction idx as [|[ch es] idx IH]; intros offsets writer c Hw Hs Hwf Hb Hl.
  { exists writer. cbn. change (index_frames []) with (@nil byte). by rewrite !app_nil_r. }
  rewrite index_frames_cons in *. cbn [write_message_indexes index_offsets fst snd].
  apply andb_true_iff in Hwf as [Hi Hwf]. apply bt_sorted_cons in Hs as [Ha Hs].
  destruct Hw as (d & -> & Hin & Hd). unfold over in Hin. pose proof Hin as Hpos.
  rewrite zdrop_drop, drop_nil, app_nil_r in Hpos.
  destruct (ccw_position writer _ _ Hpos) as (w1 & E1 & Hw1). rewrite (run_or_Ok _ _ _ _ _ _ E1).
  cbn [mbind outcome_bind]. unfold bt_contains. rewrite bt_get_below by done. cbn [negb rassert mbind outcome_bind].
  unfold index_wf in Hi. cbn [fst snd] in Hi. rewrite (to_buf_le_enc MessageIndex_codec) by done.
  cbn [map_err mbind outcome_bind].
  assert (ccw_rep (over file []) base h (ccw_set_inner w1 writer) (base ++ d)) as Hr1.
  { eapply ccw_set_inner_rep; [by exists d|by apply over_nil]. }
  unfold frame in Hl. unfold index_record in Hl. cbn [fst snd] in Hl.
  set (body := c_enc MessageIndex_codec _) in *.
  destruct (sinks_op_and_len (ccw_rep (over file []) base h) u64_max op.MESSAGE_INDEX (zlen body) _ _ Hr1)
    as (w2 & E2 & Hr2); [zlia|].
  rewrite (run_or_Ok _ _ _ _ _ _ E2). cbn [mbind outcome_bind].
  destruct (sinks_write (ccw_rep (over file []) base h) u64_max body _ _ Hr2) as (w3 & E3 & Hr3); [zlia|].
  rewrite (run_or_Ok _ _ _ _ _ _ E3). cbn [mbind outcome_bind].
  rewrite bt_insert_below by done.
  rewrite <-(app_assoc (base ++ d)) in Hr3.
  change ((le_enc 1 op.MESSAGE_INDEX ++ le_enc 8 (zlen body)) ++ body) with (frame op.MESSAGE_INDEX body) in Hr3.
  destruct (IH (offsets ++ [(ch, zlen (base ++ d))]) w3 _ Hr3 Hs Hwf) as (w4 & E4 & Hr4).
  { destruct idx as [|i idx]; [done|]. apply Forall_cons in Ha as [Ha _].
    apply Forall_app. split; [|by repeat constructor].
    eapply Forall_impl; [exact Hb|]. intros kv Hkv. exact (kltb_trans _ _ _ Hkv Ha). }
  { unfold frame. zlia. }
  exists w4. rewrite <-app_assoc in E4. cbn [app] in E4. rewrite (app_assoc (base ++ d)). split; [|done].
  rewrite E4. unfold index_record. cbn [fst snd]. fold body. by rewrite (zlen_app (base ++ d) (frame _ _)).
Qed.

Section finish.
Context `{Crc, !CrcLaws, ZstdEncoderLib, Lz4EncoderLib} `{FileOk W file}.
Context {compression : option Compression} {level threads : Z} `{!EncoderOk compression level threads}.
Context (pre : bytes) (buffered calculate emit : bool) (most : Z).

Abbreviation dummy := (dummy_start (compression:=compression)).
Abbreviation base := (sink_base (compression:=compression) pre buffered).
Abbreviation sink_at := (sink_file (file:=file) pre buffered).

(** The header, the record and the index of a finished chunk: [z] is what the
    compressor made of the records [rs]. *)
Definition chunk_header (rs : list record) (z : bytes) : ChunkHeader :=
  let bounds := default (0, 0)%Z (bounds_of rs) in
  mkChunkHeader bounds.1 bounds.2 (zlen (records_data rs))
    (if calculate then crc32 (records_data rs) else 0) (compression_name compression) (zlen z).
Definition chunk_body (rs : list record) (z : bytes) : bytes := c_enc ChunkHeader_codec (chunk_header rs z) ++ z.
Definition chunk_start (rs : list record) (z : bytes) : bytes :=
  (le_enc 1 op.CHUNK ++ le_enc 8 (zlen (chunk_body rs z))) ++ c_enc ChunkHeader_codec (chunk_header rs z).
Definition chunk_frame (rs : list record) (z : bytes) : bytes := frame op.CHUNK (chunk_body rs z).
Definition chunk_indexes_of (rs : list record) : list (Z * list MessageIndexEntry) :=
  if emit then indexes_of rs else [].
Definition chunk_index (rs : list record) (z : bytes) : ChunkIndex :=
  let h := chunk_header rs z in
  mkChunkIndex (ch_message_start_time h) (ch_message_end_time h) (zlen pre) (zlen (chunk_frame rs z))
    (index_offsets (zlen pre + zlen (chunk_frame rs z)) (chunk_indexes_of rs))
    (zlen (index_frames (chunk_indexes_of rs))) (compression_name compression) (zlen z) (zlen (records_data rs)).

(** The hasher of the data section after the chunk: it covers the whole record only if
    the checksums of chunks are calculated too. *)
Definition hash_chunk (h : option hasher) (rs : list record) (z : bytes) : option hasher :=
  (λ h, hasher_update h (if calculate then chunk_frame rs z else chunk_start rs z)) <$> h.

Lemma chunk_frame_split rs z : chunk_frame rs z = chunk_start rs z ++ z.
Proof. unfold chunk_frame, frame, chunk_start, chunk_body. by rewrite <-!app_assoc. Qed.
Lemma zlen_chunk_start rs z : zlen (chunk_start rs z) = zlen dummy.
Proof.
  unfold chunk_start, dummy_start, chunk_header, dummy_header. rewrite !zlen_app, !zlen_chunk_header. zlia.
Qed.


Lemma finish_chunk_record_spec h rs z s sink :
  cw_rep (level:=level) (threads:=threads) pre buffered calculate emit h rs s →
  sink_at sink (base ++ z) (zlen (base ++ z)) →
  (zlen (pre ++ chunk_frame rs z) ≤ u64_max)%Z →
  ∃ w mode, finish_chunk_record s (chunk_header rs z) sink ((λ h, hasher_update h z) <$> start_hash calculate) =
      Ok (ccw_with_hasher w (hash_chunk h rs z), mode, zlen (chunk_frame rs z)) ∧
    is_buffered mode = buffered ∧ at_end (file:=file) w (pre ++ chunk_frame rs z).
Proof.
  intros Hs Hk Hl. pose proof (lead_le pre buffered) as Hlead.
  pose proof (zlen_chunk_start rs z) as Hstart. pose proof (chunk_frame_split rs z) as Hframe.
  assert (zlen (chunk_frame rs z) = 9 + zlen (chunk_body rs z))%Z as Hflen by (unfold chunk_frame, frame; zlia).
  assert (zlen (chunk_frame rs z) = zlen (chunk_start rs z) + zlen z)%Z as Hflen2 by (rewrite Hframe; zlia).
  assert (base ++ z = lead pre buffered ++ dummy ++ z) as Hbase by (unfold sink_base; by rewrite app_assoc).
  assert (zlen (base ++ z) = zlen (lead pre buffered) + zlen (chunk_frame rs z))%Z as Hend.
  { rewrite Hbase, Hframe. zlia. }
  unfold finish_chunk_record. destruct (file_position _ _ _ Hk) as (s1 & E1 & Hs1).
  rewrite (run_or_Ok _ _ _ _ _ _ E1). cbn [mbind outcome_bind].
  rewrite (cwr_header_start _ _ _ _ _ _ _ Hs), Hend. rewrite sub_Ok by zlia. cbn [mbind outcome_bind].
  rewrite sub_Ok by zlia. cbn [mbind outcome_bind].
  destruct (file_seek_start _ _ _ (zlen (lead pre buffered)) Hs1) as (s2 & E2 & Hs2); [rewrite Hend; zlia|].
  rewrite (run_or_Ok _ _ _ _ _ _ E2). cbn [mbind outcome_bind].
  rewrite Hbase in Hs2.
  assert (over sink_at (lead pre buffered ++ dummy ++ z) s2 (lead pre buffered)) as Ho2.
  { unfold over. by rewrite zdrop_app by done. }
  set (c0 := lead pre buffered ++ dummy ++ z) in *.
  assert (ccw_rep (over sink_at c0) (lead pre buffered) (cw_pre_chunk_crc s)
    (ccw_with_hasher s2 (cw_pre_chunk_crc s)) (lead pre buffered)) as Hr2.
  { by apply ccw_with_hasher_rep. }
  replace (zlen (lead pre buffered) + zlen (chunk_frame rs z) - zlen (lead pre buffered) - 9)%Z
    with (zlen (chunk_body rs z)) by lia.
  destruct (sinks_op_and_len (ccw_rep (over sink_at c0) (lead pre buffered) (cw_pre_chunk_crc s))
    u64_max op.CHUNK (zlen (chunk_body rs z)) _ _ Hr2) as (s3 & E3 & Hr3); [zlia|].
  rewrite (run_or_Ok _ _ _ _ _ _ E3). cbn [mbind outcome_bind].
  rewrite app_assoc in Hr3.
  destruct (sinks_chunk_header (rep:=ccw_rep (over sink_at c0) (lead pre buffered) (cw_pre_chunk_crc s))
    (cap:=u64_max) (chunk_header rs z)) with (w:=s3) (c:=(lead pre buffered ++ le_enc 1 op.CHUNK) ++ le_enc 8 (zlen (chunk_body rs z)))
    as (s4 & E4 & Hr4); [..|done|unfold chunk_start in *; zlia|].
  { cbn [chunk_header ch_compression]. pose proof (compression_name_len compression). unfold in_u. lia. }
  rewrite (run_or_Ok _ _ _ _ _ _ E4). cbn [mbind outcome_bind ccw_finalize].
  rewrite <-!app_assoc in Hr4. rewrite (app_assoc (le_enc 1 op.CHUNK)) in Hr4. fold (chunk_start rs z) in Hr4.
  destruct Hr4 as (d & Hd%(inj (app _)) & Ho4 & _ & Hh4). subst d. unfold over in Ho4.
  destruct (file_position _ _ _ Ho4) as (s5 & E5 & Hs5). rewrite (run_or_Ok _ _ _ _ _ _ E5). cbn [mbind outcome_bind].
  rewrite (cwr_data_start _ _ _ _ _ _ _ Hs).
  replace (zlen base) with (zlen (lead pre buffered ++ chunk_start rs z)) by (unfold sink_base; zlia).
  rewrite Z.eqb_refl. cbn [rassert mbind outcome_bind].
  destruct (file_seek_end _ _ _ Hs5) as (s6 & E6 & Hs6). rewrite (run_or_Ok _ _ _ _ _ _ E6). cbn [mbind outcome_bind].
  assert ((lead pre buffered ++ chunk_start rs z) ++ zdrop (zlen (lead pre buffered ++ chunk_start rs z)) c0 =
    lead pre buffered ++ chunk_frame rs z) as Hc6.
  { subst c0. rewrite Hframe. rewrite (app_assoc (lead pre buffered) dummy z), zdrop_app by zlia. by rewrite app_assoc. }
  rewrite Hc6 in Hs6.
  destruct (ChunkSink_finish_spec pre buffered s6 (chunk_frame rs z) Hs6 Hl) as (mode & w & E7 & Hmode & Hw).
  rewrite E7. cbn [map_err mbind outcome_bind]. exists w, mode. split_and!; [|done|done].
  rewrite Hh4, (cwr_hasher _ _ _ _ _ _ _ Hs). f_equal. f_equal; [|lia]. f_equal. f_equal. unfold hash_chunk, start_hash.
  destruct h as [h|], calculate; cbn; try done. by rewrite hasher_combine_spec, hasher_update_app, Hframe.
Qed.

(** The room a chunk of these records and its indexes take at most. *)
Definition chunk_fits (rs : list record) : Prop :=
  (zlen pre + zlen dummy + enc_bound (zlen (records_data rs)) + zlen (index_frames (chunk_indexes_of rs)) ≤ u64_max)%Z.

Lemma ChunkWriter_finish_spec h rs s :
  cw_rep (level:=level) (threads:=threads) (file:=file) pre buffered calculate emit h rs s →
  (zlen (records_data rs) ≤ u64_max)%Z → chunk_fits rs → forallb index_wf (chunk_indexes_of rs) = true →
  ∃ writer mode z, ChunkWriter_finish s = Ok (writer, mode, chunk_index rs z) ∧ is_buffered mode = buffered ∧
    encodes (records_data rs) z ∧ (zlen z ≤ enc_bound (zlen (records_data rs)))%Z ∧
    ccw_rep (over file []) (pre ++ chunk_frame rs z) (hash_chunk h rs z) writer
      (pre ++ chunk_frame rs z ++ index_frames (chunk_indexes_of rs)).
Proof.
  intros Hs Hmost Hfits Hwf. unfold chunk_fits in Hfits. pose proof (lead_le pre buffered) as Hlead.
  destruct (cwr_stream _ _ _ _ _ _ _ Hs) as (d & Hd & He & Hcount & Hhash). cbn in Hd. subst d.
  destruct (enc_finish (cap:=u64_max) (rep:=sink_rep (compression:=compression) (file:=file) pre buffered calculate)
    _ _ _ He) as (w & z & E1 & Hw & Hz & Hzl); [unfold sink_base; zlia|].
  unfold ChunkWriter_finish. cbn [ccw_finalize]. rewrite E1. cbn [map_err mbind outcome_bind ccw_finalize].
  destruct Hw as (d & Hd%(inj (app _)) & Hsink & Hzc & Hzh). subst d. rewrite Hzc, Hzh.
  apply over_nil in Hsink.
  assert (finished_header s (ccw_count (cw_compressor s)) (ccw_hasher (cw_compressor s)) (zlen z) = chunk_header rs z) as ->.
  { unfold finished_header, chunk_header. rewrite (cwr_bounds _ _ _ _ _ _ _ Hs), (cwr_name _ _ _ _ _ _ _ Hs), Hcount, Hhash.
    f_equal. unfold start_hash. by destruct calculate. }
  pose proof (zlen_chunk_start rs z) as Hstart. pose proof (chunk_frame_split rs z) as Hframe.
  destruct (finish_chunk_record_spec h rs z s (ccw_inner w) Hs Hsink) as (w1 & mode & E2 & Hmode & Hw1).
  { rewrite Hframe. zlia. }
  rewrite E2. cbn [mbind outcome_bind]. clear E2. unfold at_end in Hw1.
  pose proof (proj1 (over_nil _ _) Hw1) as Hw1'.
  destruct (ccw_position (ccw_with_hasher w1 (hash_chunk h rs z)) _ _ Hw1') as (w2 & E3 & Hw2%over_nil).
  rewrite (run_or_Ok _ _ _ _ _ _ E3).
  cbn [mbind outcome_bind]. rewrite (cwr_indexes _ _ _ _ _ _ _ Hs). fold (chunk_indexes_of rs).
  destruct (write_message_indexes_spec (file:=file) (pre ++ chunk_frame rs z) (hash_chunk h rs z) (chunk_indexes_of rs) []
    (ccw_set_inner w2 (ccw_with_hasher w1 (hash_chunk h rs z))) (pre ++ chunk_frame rs z)) as (w3 & E4 & Hw3).
  { eapply ccw_set_inner_rep; [by apply ccw_with_hasher_rep|done]. }
  { unfold chunk_indexes_of. destruct emit; [apply indexes_of_sorted|done]. }
  { done. }
  { destruct (chunk_indexes_of rs); constructor. }
  { rewrite Hframe. zlia. }
  rewrite E4. cbn [mbind outcome_bind app].
  pose proof Hw3 as (d & Hd & Hi & _). pose proof (proj1 (over_nil _ _) Hi) as Hi'.
  destruct (ccw_position w3 _ _ Hi') as (w4 & E5 & Hw4%over_nil). rewrite (run_or_Ok _ _ _ _ _ _ E5).
  cbn [mbind outcome_bind]. rewrite sub_Ok by zlia. cbn [mbind outcome_bind].
  eexists _, mode, z. split_and!; [|done..|].
  - cbn [mret outcome_ret]. do 2 f_equal. unfold chunk_index.
    f_equal; [apply Hs|by rewrite zlen_app|zlia].
  - rewrite app_assoc. destruct Hw3 as (d' & Hd' & _ & Hc). exists d'. split; [done|]. split; [done|]. done.
Qed.
End finish.

(** ** Attachments *)

Section attachment.
Context `{Crc, !CrcLaws} `{WriteOk W rep cap, !Seek W, !TellOk W rep}.
Context (base : bytes) (header : AttachmentHeader) (len : Z) (calculate : bool).

(** The record of an attachment, up to its data. *)
Definition attachment_prefix : bytes := c_enc AttachmentHeader_codec header ++ le_enc 8 len.
Definition attachment_body_len : Z := (zlen attachment_prefix + len + 4)%Z.
Definition attachment_start : bytes := base ++ le_enc 1 op.ATTACHMENT ++ le_enc 8 attachment_body_len.

(** An attachment writer that was given [data]. *)
Record aw_rep (data : bytes) (s : AttachmentWriter W) : Prop := {
  awr_record_offset : aw_record_offset s = zlen base;
  awr_attachment_offset : aw_attachment_offset s = zlen attachment_prefix;
  awr_length : aw_attachment_length s = len;
  awr_header : aw_header s = header;
  awr_writer : ccw_rep rep attachment_start (start_hash calculate) (aw_writer s)
    (attachment_start ++ attachment_prefix ++ data);
}.

Definition attachment_crc (data : bytes) : Z :=
  if calculate then crc32 (attachment_prefix ++ data) else 0.

Hypothesis Hheader : c_wf AttachmentHeader_codec header = true.
Hypothesis Hlen : (0 ≤ len)%Z.
Hypothesis Hcap : (zlen attachment_start + attachment_body_len ≤ cap)%Z.

Lemma AttachmentWriter_new_spec w : rep w base →
  ∃ s, AttachmentWriter_new w len header calculate = Ok s ∧ aw_rep [] s.
Proof.
  intros Hw. pose proof (write_cap_le (rep:=rep) (cap:=cap)) as Hu. unfold AttachmentWriter_new.
  unfold attachment_body_len in *. unfold attachment_prefix in Hcap.
  destruct (run_tell _ _ Hw) as (w1 & E1 & Hw1). rewrite E1. cbn [map_err mbind outcome_bind].
  rewrite (to_buf_le_enc AttachmentHeader_codec) by done. cbn [mbind outcome_bind].
  rewrite add_Ok by zlia. cbn [mbind outcome_bind]. rewrite add_Ok by zlia. cbn [mbind outcome_bind].
  rewrite add_Ok by zlia. cbn [mbind outcome_bind].
  replace (zlen (c_enc AttachmentHeader_codec header) + 8 + len + 4)%Z with attachment_body_len
    by (unfold attachment_body_len, attachment_prefix; zlia).
  destruct (run_sinks (rep:=rep) (cap:=cap) _ _ _ _ (sinks_op_and_len _ _ op.ATTACHMENT attachment_body_len) Hw1) as (w2 & E2 & Hw2).
  { unfold attachment_start in Hcap. zlia. }
  rewrite E2. cbn [map_err mbind outcome_bind]. fold attachment_start in Hw2.
  pose proof (ccw_new_rep rep w2 _ calculate Hw2) as Hc. fold (start_hash calculate) in Hc.
  destruct (run_sinks (rep:=ccw_rep rep attachment_start (start_hash calculate)) (cap:=cap) _ _ _ _
    (sinks_write _ _ (c_enc AttachmentHeader_codec header)) Hc) as (c1 & E3 & Hc1); [zlia|].
  rewrite E3. cbn [map_err mbind outcome_bind].
  destruct (run_sinks (rep:=ccw_rep rep attachment_start (start_hash calculate)) (cap:=cap) _ _ _ _
    (sinks_write _ _ (le_enc 8 len)) Hc1) as (c2 & E4 & Hc2); [zlia|].
  rewrite E4. cbn [map_err mbind outcome_bind]. eexists. split; [done|].
  rewrite <-app_assoc in Hc2. fold attachment_prefix in Hc2. split; cbn; try done.
  - destruct Hc2 as (d & <-%(inj (app _)) & _ & Hcount & _). done.
  - by rewrite app_nil_r.
Qed.

Lemma aw_position data s : aw_rep data s →
  sub_ (E:=McapError) (ccw_count (aw_writer s)) (aw_attachment_offset s) = Ok (zlen data).
Proof.
  intros [_ -> _ _ (d & <-%(inj (app _)) & _ & Hcount & _)]. rewrite Hcount. rewrite sub_Ok by zlia. f_equal. zlia.
Qed.

(** More data, if there is room for it. *)
Lemma put_bytes_spec data b s : aw_rep data s → (zlen data ≤ len)%Z →
  if (len <? zlen data + zlen b)%Z
  then put_bytes b s = (Err (AttachmentTooLarge (zlen b - (len - zlen data)) len), s)
  else ∃ s', put_bytes b s = (Ok (), s') ∧ aw_rep (data ++ b) s'.
Proof.
  intros Hs Hl. unfold put_bytes. rewrite (bind_method_Ok _ _ s s s) by done.
  rewrite (bind_method_Ok _ _ s (zlen data) s) by (unfold lift; by rewrite (aw_position _ _ Hs)).
  rewrite (bind_method_Ok _ _ s (len - zlen data)%Z s)
    by (unfold lift; rewrite (awr_length _ _ Hs); by rewrite sub_Ok by lia).
  rewrite (awr_length _ _ Hs). unfold attachment_body_len in Hcap.
  destruct (Z.ltb_spec len (zlen data + zlen b)), (Z.ltb_spec (len - zlen data) (zlen b)); try lia; [done|].
  destruct (sinks_write (ccw_rep rep attachment_start (start_hash calculate)) cap b _ _ (awr_writer _ _ Hs)) as (c & E & Hc);
    [zlia|].
  exists (aw_set_writer c s). split; [by apply zoom_eq, mcap_io_Ok|]. destruct Hs. split; try done. cbn.
  by rewrite <-!app_assoc in Hc.
Qed.

(** And the end, if all of it was given. *)
Lemma AttachmentWriter_finish_spec data s : aw_rep data s →
  if (len =? zlen data)%Z
  then ∃ w, AttachmentWriter_finish s =
      Ok (w, mkAttachmentIndex (zlen base) (zlen (record_frame (RAttachment header data (attachment_crc data))))
               (ah_log_time header) (ah_create_time header) len (ah_name header) (ah_media_type header)) ∧
    rep w (base ++ record_frame (RAttachment header data (attachment_crc data)))
  else AttachmentWriter_finish s = Err (AttachmentIncomplete (zlen data) len).
Proof.
  intros Hs. unfold AttachmentWriter_finish. rewrite (aw_position _ _ Hs), (awr_length _ _ Hs). cbn [mbind outcome_bind].
  destruct (Z.eqb_spec len (zlen data)) as [Hd|Hd]; cbn [negb]; [|done].
  destruct (awr_writer _ _ Hs) as (d & <-%(inj (app _)) & Hw & _ & Hh). cbn [ccw_finalize]. rewrite Hh.
  unfold attachment_body_len in Hcap.
  assert (default 0%Z (hasher_finalize <$> ((λ h, hasher_update h (attachment_prefix ++ data)) <$> start_hash calculate)) =
    attachment_crc data) as -> by (unfold attachment_crc, start_hash, crc32; by destruct calculate).
  destruct (run_sinks (rep:=rep) (cap:=cap) _ _ _ _ (sinks_write _ _ (le_enc 4 (attachment_crc data))) Hw) as (w1 & E1 & Hw1);
    [zlia|].
  rewrite E1. cbn [map_err mbind outcome_bind].
  destruct (run_tell _ _ Hw1) as (w2 & E2 & Hw2). rewrite E2. cbn [map_err mbind outcome_bind].
  rewrite (awr_record_offset _ _ Hs), (awr_header _ _ Hs).
  assert ((attachment_start ++ attachment_prefix ++ data) ++ le_enc 4 (attachment_crc data) =
    base ++ record_frame (RAttachment header data (attachment_crc data))) as Heq.
  { unfold attachment_start, record_frame, frame. cbn [record_opcode record_body].
    replace (zlen (c_enc AttachmentHeader_codec header ++ le_enc 8 (zlen data) ++ data ++ le_enc 4 (attachment_crc data)))
      with attachment_body_len by (unfold attachment_body_len, attachment_prefix; zlia).
    unfold attachment_prefix. rewrite Hd. by rewrite <-!app_assoc. }
  rewrite Heq in *. rewrite sub_Ok by zlia. cbn [mbind outcome_bind]. exists w2. split; [|done].
  do 3 f_equal. zlia.
Qed.
End attachment.
