(* ===== verification/Writer.v ===== *)
(** The writer of MCAP files (write.rs): [WriteOptions] and [Writer], over the chunk
    and attachment writers of ChunkWriter.v. *)

From S2P Require Import Prelude Utf8 BTree Errors Bin Records Crc Io Codec Decompressor Channels Summary ChunkWriter.

(** ** The containers *)

(** [bimap::BiHashMap]: pairs with distinct left and distinct right values. *)
Class BiMap (L R : Type) := {
  bimap : Type;
  bm_empty : bimap;
  bm_get_by_left : L → bimap → option R;
  bm_get_by_right : R → bimap → option L;
  bm_insert_no_overwrite : L → R → bimap → option bimap;
}.
Arguments bimap L R {_}.

(** [insert_no_overwrite] fails if either side is there, and else adds the pair. *)
Class BiMapOk (L R : Type) `{BiMap L R, EqDecision L, EqDecision R} : Prop := {
  bm_empty_left l : bm_get_by_left l bm_empty = None;
  bm_sides l r m : bm_get_by_left l m = Some r ↔ bm_get_by_right r m = Some l;
  bm_insert_fails l r m : bm_insert_no_overwrite l r m = None ↔
    is_Some (bm_get_by_left l m) ∨ is_Some (bm_get_by_right r m);
  bm_insert_left l r m m' l' : bm_insert_no_overwrite l r m = Some m' →
    bm_get_by_left l' m' = if decide (l' = l) then Some r else bm_get_by_left l' m;
}.

(** The order a [HashMap] is iterated in: any. *)
Class HashOrder := hash_iter : ∀ {A}, gmap Z A → list (Z * A).
Class HashOrderOk `{HashOrder} : Prop := hash_iter_perm A (m : gmap Z A) : hash_iter m ≡ₚ map_to_list m.

(** ** [WriteOptions] *)

(** [PrivateRecordOptions] *)
Inductive PrivateRecordOptions := IncludeInChunks.
#[export] Instance PrivateRecordOptions_eq_dec : EqDecision PrivateRecordOptions.
Proof. solve_decision. Defined.

Record WriteOptions := mkWriteOptions {
  wo_compression : option Compression;
  wo_profile : rstring;
  wo_library : rstring;
  wo_chunk_size : option Z;
  wo_use_chunks : bool;
  wo_disable_seeking : bool;
  wo_emit_statistics : bool;
  wo_emit_summary_offsets : bool;
  wo_emit_message_indexes : bool;
  wo_emit_chunk_indexes : bool;
  wo_emit_attachment_indexes : bool;
  wo_emit_metadata_indexes : bool;
  wo_repeat_channels : bool;
  wo_repeat_schemas : bool;
  wo_calculate_chunk_crcs : bool;
  wo_calculate_data_section_crc : bool;
  wo_calculate_summary_section_crc : bool;
  wo_calculate_attachment_crcs : bool;
  wo_compression_level : Z;
  wo_compression_threads : Z;
}.

(** [default], given the version of the crate and the number of processors. *)
Definition WriteOptions_default (version : rstring) (cpus : Z) : WriteOptions :=
  mkWriteOptions (Some Zstd) [] (lit "mcap-rs-" ++ version) (Some (1024 * 768)%Z) true false true true true
    true true true true true true true true true 0 (as_u32 cpus).

(** The builder methods. *)
Module options.
Definition compression (v : option Compression) (o : WriteOptions) : WriteOptions :=
  mkWriteOptions v (wo_profile o) (wo_library o) (wo_chunk_size o) (wo_use_chunks o)
    (wo_disable_seeking o) (wo_emit_statistics o) (wo_emit_summary_offsets o)
    (wo_emit_message_indexes o) (wo_emit_chunk_indexes o) (wo_emit_attachment_indexes o)
    (wo_emit_metadata_indexes o) (wo_repeat_channels o) (wo_repeat_schemas o)
    (wo_calculate_chunk_crcs o) (wo_calculate_data_section_crc o) (wo_calculate_summary_section_crc
    o) (wo_calculate_attachment_crcs o) (wo_compression_level o) (wo_compression_threads o).
Definition profile (v : rstring) (o : WriteOptions) : WriteOptions :=
  mkWriteOptions (wo_compression o) v (wo_library o) (wo_chunk_size o) (wo_use_chunks o)
    (wo_disable_seeking o) (wo_emit_statistics o) (wo_emit_summary_offsets o)
    (wo_emit_message_indexes o) (wo_emit_chunk_indexes o) (wo_emit_attachment_indexes o)
    (wo_emit_metadata_indexes o) (wo_repeat_channels o) (wo_repeat_schemas o)
    (wo_calculate_chunk_crcs o) (wo_calculate_data_section_crc o) (wo_calculate_summary_section_crc
    o) (wo_calculate_attachment_crcs o) (wo_compression_level o) (wo_compression_threads o).
Definition library (v : rstring) (o : WriteOptions) : WriteOptions :=
  mkWriteOptions (wo_compression o) (wo_profile o) v (wo_chunk_size o) (wo_use_chunks o)
    (wo_disable_seeking o) (wo_emit_statistics o) (wo_emit_summary_offsets o)
    (wo_emit_message_indexes o) (wo_emit_chunk_indexes o) (wo_emit_attachment_indexes o)
    (wo_emit_metadata_indexes o) (wo_repeat_channels o) (wo_repeat_schemas o)
    (wo_calculate_chunk_crcs o) (wo_calculate_data_section_crc o) (wo_calculate_summary_section_crc
    o) (wo_calculate_attachment_crcs o) (wo_compression_level o) (wo_compression_threads o).
Definition chunk_size (v : option Z) (o : WriteOptions) : WriteOptions :=
  mkWriteOptions (wo_compression o) (wo_profile o) (wo_library o) v (wo_use_chunks o)
    (wo_disable_seeking o) (wo_emit_statistics o) (wo_emit_summary_offsets o)
    (wo_emit_message_indexes o) (wo_emit_chunk_indexes o) (wo_emit_attachment_indexes o)
    (wo_emit_metadata_indexes o) (wo_repeat_channels o) (wo_repeat_schemas o)
    (wo_calculate_chunk_crcs o) (wo_calculate_data_section_crc o) (wo_calculate_summary_section_crc
    o) (wo_calculate_attachment_crcs o) (wo_compression_level o) (wo_compression_threads o).
Definition use_chunks (v : bool) (o : WriteOptions) : WriteOptions :=
  mkWriteOptions (wo_compression o) (wo_profile o) (wo_library o) (wo_chunk_size o) v
    (wo_disable_seeking o) (wo_emit_statistics o) (wo_emit_summary_offsets o)
    (wo_emit_message_indexes o) (wo_emit_chunk_indexes o) (wo_emit_attachment_indexes o)
    (wo_emit_metadata_indexes o) (wo_repeat_channels o) (wo_repeat_schemas o)
    (wo_calculate_chunk_crcs o) (wo_calculate_data_section_crc o) (wo_calculate_summary_section_crc
    o) (wo_calculate_attachment_crcs o) (wo_compression_level o) (wo_compression_threads o).
Definition disable_seeking (v : bool) (o : WriteOptions) : WriteOptions :=
  mkWriteOptions (wo_compression o) (wo_profile o) (wo_library o) (wo_chunk_size o) (wo_use_chunks
    o) v (wo_emit_statistics o) (wo_emit_summary_offsets o) (wo_emit_message_indexes o)
    (wo_emit_chunk_indexes o) (wo_emit_attachment_indexes o) (wo_emit_metadata_indexes o)
    (wo_repeat_channels o) (wo_repeat_schemas o) (wo_calculate_chunk_crcs o)
    (wo_calculate_data_section_crc o) (wo_calculate_summary_section_crc o)
    (wo_calculate_attachment_crcs o) (wo_compression_level o) (wo_compression_threads o).
Definition emit_statistics (v : bool) (o : WriteOptions) : WriteOptions :=
  mkWriteOptions (wo_compression o) (wo_profile o) (wo_library o) (wo_chunk_size o) (wo_use_chunks
    o) (wo_disable_seeking o) v (wo_emit_summary_offsets o) (wo_emit_message_indexes o)
    (wo_emit_chunk_indexes o) (wo_emit_attachment_indexes o) (wo_emit_metadata_indexes o)
    (wo_repeat_channels o) (wo_repeat_schemas o) (wo_calculate_chunk_crcs o)
    (wo_calculate_data_section_crc o) (wo_calculate_summary_section_crc o)
    (wo_calculate_attachment_crcs o) (wo_compression_level o) (wo_compression_threads o).
Definition emit_summary_offsets (v : bool) (o : WriteOptions) : WriteOptions :=
  mkWriteOptions (wo_compression o) (wo_profile o) (wo_library o) (wo_chunk_size o) (wo_use_chunks
    o) (wo_disable_seeking o) (wo_emit_statistics o) v (wo_emit_message_indexes o)
    (wo_emit_chunk_indexes o) (wo_emit_attachment_indexes o) (wo_emit_metadata_indexes o)
    (wo_repeat_channels o) (wo_repeat_schemas o) (wo_calculate_chunk_crcs o)
    (wo_calculate_data_section_crc o) (wo_calculate_summary_section_crc o)
    (wo_calculate_attachment_crcs o) (wo_compression_level o) (wo_compression_threads o).
Definition emit_message_indexes (v : bool) (o : WriteOptions) : WriteOptions :=
  mkWriteOptions (wo_compression o) (wo_profile o) (wo_library o) (wo_chunk_size o) (wo_use_chunks
    o) (wo_disable_seeking o) (wo_emit_statistics o) (wo_emit_summary_offsets o) v
    (wo_emit_chunk_indexes o) (wo_emit_attachment_indexes o) (wo_emit_metadata_indexes o)
    (wo_repeat_channels o) (wo_repeat_schemas o) (wo_calculate_chunk_crcs o)
    (wo_calculate_data_section_crc o) (wo_calculate_summary_section_crc o)
    (wo_calculate_attachment_crcs o) (wo_compression_level o) (wo_compression_threads o).
Definition emit_chunk_indexes (v : bool) (o : WriteOptions) : WriteOptions :=
  mkWriteOptions (wo_compression o) (wo_profile o) (wo_library o) (wo_chunk_size o) (wo_use_chunks
    o) (wo_disable_seeking o) (wo_emit_statistics o) (wo_emit_summary_offsets o)
    (wo_emit_message_indexes o) v (wo_emit_attachment_indexes o) (wo_emit_metadata_indexes o)
    (wo_repeat_channels o) (wo_repeat_schemas o) (wo_calculate_chunk_crcs o)
    (wo_calculate_data_section_crc o) (wo_calculate_summary_section_crc o)
    (wo_calculate_attachment_crcs o) (wo_compression_level o) (wo_compression_threads o).
Definition emit_attachment_indexes (v : bool) (o : WriteOptions) : WriteOptions :=
  mkWriteOptions (wo_compression o) (wo_profile o) (wo_library o) (wo_chunk_size o) (wo_use_chunks
    o) (wo_disable_seeking o) (wo_emit_statistics o) (wo_emit_summary_offsets o)
    (wo_emit_message_indexes o) (wo_emit_chunk_indexes o) v (wo_emit_metadata_indexes o)
    (wo_repeat_channels o) (wo_repeat_schemas o) (wo_calculate_chunk_crcs o)
    (wo_calculate_data_section_crc o) (wo_calculate_summary_section_crc o)
    (wo_calculate_attachment_crcs o) (wo_compression_level o) (wo_compression_threads o).
Definition emit_metadata_indexes (v : bool) (o : WriteOptions) : WriteOptions :=
  mkWriteOptions (wo_compression o) (wo_profile o) (wo_library o) (wo_chunk_size o) (wo_use_chunks
    o) (wo_disable_seeking o) (wo_emit_statistics o) (wo_emit_summary_offsets o)
    (wo_emit_message_indexes o) (wo_emit_chunk_indexes o) (wo_emit_attachment_indexes o) v
    (wo_repeat_channels o) (wo_repeat_schemas o) (wo_calculate_chunk_crcs o)
    (wo_calculate_data_section_crc o) (wo_calculate_summary_section_crc o)
    (wo_calculate_attachment_crcs o) (wo_compression_level o) (wo_compression_threads o).
Definition repeat_channels (v : bool) (o : WriteOptions) : WriteOptions :=
  mkWriteOptions (wo_compression o) (wo_profile o) (wo_library o) (wo_chunk_size o) (wo_use_chunks
    o) (wo_disable_seeking o) (wo_emit_statistics o) (wo_emit_summary_offsets o)
    (wo_emit_message_indexes o) (wo_emit_chunk_indexes o) (wo_emit_attachment_indexes o)
    (wo_emit_metadata_indexes o) v (wo_repeat_schemas o) (wo_calculate_chunk_crcs o)
    (wo_calculate_data_section_crc o) (wo_calculate_summary_section_crc o)
    (wo_calculate_attachment_crcs o) (wo_compression_level o) (wo_compression_threads o).
Definition repeat_schemas (v : bool) (o : WriteOptions) : WriteOptions :=
  mkWriteOptions (wo_compression o) (wo_profile o) (wo_library o) (wo_chunk_size o) (wo_use_chunks
    o) (wo_disable_seeking o) (wo_emit_statistics o) (wo_emit_summary_offsets o)
    (wo_emit_message_indexes o) (wo_emit_chunk_indexes o) (wo_emit_attachment_indexes o)
    (wo_emit_metadata_indexes o) (wo_repeat_channels o) v (wo_calculate_chunk_crcs o)
    (wo_calculate_data_section_crc o) (wo_calculate_summary_section_crc o)
    (wo_calculate_attachment_crcs o) (wo_compression_level o) (wo_compression_threads o).
Definition calculate_chunk_crcs (v : bool) (o : WriteOptions) : WriteOptions :=
  mkWriteOptions (wo_compression o) (wo_profile o) (wo_library o) (wo_chunk_size o) (wo_use_chunks
    o) (wo_disable_seeking o) (wo_emit_statistics o) (wo_emit_summary_offsets o)
    (wo_emit_message_indexes o) (wo_emit_chunk_indexes o) (wo_emit_attachment_indexes o)
    (wo_emit_metadata_indexes o) (wo_repeat_channels o) (wo_repeat_schemas o) v
    (wo_calculate_data_section_crc o) (wo_calculate_summary_section_crc o)
    (wo_calculate_attachment_crcs o) (wo_compression_level o) (wo_compression_threads o).
Definition calculate_data_section_crc (v : bool) (o : WriteOptions) : WriteOptions :=
  mkWriteOptions (wo_compression o) (wo_profile o) (wo_library o) (wo_chunk_size o) (wo_use_chunks
    o) (wo_disable_seeking o) (wo_emit_statistics o) (wo_emit_summary_offsets o)
    (wo_emit_message_indexes o) (wo_emit_chunk_indexes o) (wo_emit_attachment_indexes o)
    (wo_emit_metadata_indexes o) (wo_repeat_channels o) (wo_repeat_schemas o)
    (wo_calculate_chunk_crcs o) v (wo_calculate_summary_section_crc o) (wo_calculate_attachment_crcs
    o) (wo_compression_level o) (wo_compression_threads o).
Definition calculate_summary_section_crc (v : bool) (o : WriteOptions) : WriteOptions :=
  mkWriteOptions (wo_compression o) (wo_profile o) (wo_library o) (wo_chunk_size o) (wo_use_chunks
    o) (wo_disable_seeking o) (wo_emit_statistics o) (wo_emit_summary_offsets o)
    (wo_emit_message_indexes o) (wo_emit_chunk_indexes o) (wo_emit_attachment_indexes o)
    (wo_emit_metadata_indexes o) (wo_repeat_channels o) (wo_repeat_schemas o)
    (wo_calculate_chunk_crcs o) (wo_calculate_data_section_crc o) v (wo_calculate_attachment_crcs o)
    (wo_compression_level o) (wo_compression_threads o).
Definition calculate_attachment_crcs (v : bool) (o : WriteOptions) : WriteOptions :=
  mkWriteOptions (wo_compression o) (wo_profile o) (wo_library o) (wo_chunk_size o) (wo_use_chunks
    o) (wo_disable_seeking o) (wo_emit_statistics o) (wo_emit_summary_offsets o)
    (wo_emit_message_indexes o) (wo_emit_chunk_indexes o) (wo_emit_attachment_indexes o)
    (wo_emit_metadata_indexes o) (wo_repeat_channels o) (wo_repeat_schemas o)
    (wo_calculate_chunk_crcs o) (wo_calculate_data_section_crc o) (wo_calculate_summary_section_crc
    o) v (wo_compression_level o) (wo_compression_threads o).
Definition compression_level (v : Z) (o : WriteOptions) : WriteOptions :=
  mkWriteOptions (wo_compression o) (wo_profile o) (wo_library o) (wo_chunk_size o) (wo_use_chunks
    o) (wo_disable_seeking o) (wo_emit_statistics o) (wo_emit_summary_offsets o)
    (wo_emit_message_indexes o) (wo_emit_chunk_indexes o) (wo_emit_attachment_indexes o)
    (wo_emit_metadata_indexes o) (wo_repeat_channels o) (wo_repeat_schemas o)
    (wo_calculate_chunk_crcs o) (wo_calculate_data_section_crc o) (wo_calculate_summary_section_crc
    o) (wo_calculate_attachment_crcs o) v (wo_compression_threads o).
Definition compression_threads (v : Z) (o : WriteOptions) : WriteOptions :=
  mkWriteOptions (wo_compression o) (wo_profile o) (wo_library o) (wo_chunk_size o) (wo_use_chunks
    o) (wo_disable_seeking o) (wo_emit_statistics o) (wo_emit_summary_offsets o)
    (wo_emit_message_indexes o) (wo_emit_chunk_indexes o) (wo_emit_attachment_indexes o)
    (wo_emit_metadata_indexes o) (wo_repeat_channels o) (wo_repeat_schemas o)
    (wo_calculate_chunk_crcs o) (wo_calculate_data_section_crc o) (wo_calculate_summary_section_crc
    o) (wo_calculate_attachment_crcs o) (wo_compression_level o) v.
Definition emit_summary_records (v : bool) (o : WriteOptions) : WriteOptions :=
  mkWriteOptions (wo_compression o) (wo_profile o) (wo_library o) (wo_chunk_size o) (wo_use_chunks
    o) (wo_disable_seeking o) v (wo_emit_summary_offsets o) (wo_emit_message_indexes o) v v v v v
    (wo_calculate_chunk_crcs o) (wo_calculate_data_section_crc o) (wo_calculate_summary_section_crc
    o) (wo_calculate_attachment_crcs o) (wo_compression_level o) (wo_compression_threads o).
End options.

(** ** The summary section *)

(** [ChannelContent] and [SchemaContent] *)
Record ChannelContent := mkChannelContent {
  cc_topic : rstring;
  cc_schema_id : Z;
  cc_message_encoding : rstring;
  cc_metadata : list (rstring * rstring);
}.
Record SchemaContent := mkSchemaContent {
  sc_name : rstring;
  sc_encoding : rstring;
  sc_data : bytes;
}.
#[export] Instance ChannelContent_eq_dec : EqDecision ChannelContent.
Proof. solve_decision. Defined.
#[export] Instance SchemaContent_eq_dec : EqDecision SchemaContent.
Proof. solve_decision. Defined.

Section footer.
Context `{Crc, HashOrder} {W : Type} `{Write W, Seek W}.

Fixpoint write_records {X} `{Write X} (rs : list record) : method X io_error () :=
  match rs with
  | [] => mret ()
  | r :: rs => _ ← write_record r; write_records rs
  end.

(** [posit] *)
Definition posit : method (CountingCrcWriter W) io_error Z := on_inner stream_position.

(** One group of the summary section, if it is wanted and not empty: where the
    section ends after it, and its summary offset. *)
Definition write_group (wanted : bool) (opcode : Z) (rs : list record) (summary_end : Z)
    (offsets : list SummaryOffset) : method (CountingCrcWriter W) McapError (Z * list SummaryOffset) :=
  if wanted && negb (bool_decide (rs = [])) then
    let start := summary_end in
    _ ← mcap_io (write_records rs);
    summary_end ← mcap_io posit;
    length ← lift (sub_ summary_end start);
    mret (summary_end, offsets ++ [mkSummaryOffset opcode start length])
  else mret (summary_end, offsets).

(** The records of the summary's channels and schemas. *)
Definition channel_record (id : Z) (c : Channel) : record :=
  RChannel (mkChannelRecord id (channel_schema_id c) (channel_topic c) (channel_message_encoding c)
    (channel_metadata c)).
Definition schema_record (id : Z) (s : Schema) : record :=
  RSchema (mkSchemaHeader id (schema_name s) (schema_encoding s)) (schema_data s).
Definition all_channels (s : Summary) : list record := (λ p, channel_record p.1 p.2) <$> hash_iter (channels s).
Definition all_schemas (s : Summary) : list record := (λ p, schema_record p.1 p.2) <$> hash_iter (schemas s).

(** The groups and the offsets: the start of the section, its end before the offsets
    (both as the footer wants them) and the start of the offsets. *)
Definition write_summary_section (s : Summary) (o : WriteOptions) (summary_start : Z)
    : method (CountingCrcWriter W) McapError (Z * Z) :=
  let '(summary_end, offsets) := (summary_start, []) in
  '(summary_end, offsets) ← write_group (wo_repeat_schemas o) op.SCHEMA (all_schemas s) summary_end offsets;
  '(summary_end, offsets) ← write_group (wo_repeat_channels o) op.CHANNEL (all_channels s) summary_end offsets;
  stats ← (if wo_emit_statistics o then lift (expect (stats s)) ≫= λ st, mret [RStatistics st] else mret []);
  '(summary_end, offsets) ← write_group (wo_emit_statistics o) op.STATISTICS stats summary_end offsets;
  '(summary_end, offsets) ← write_group (wo_emit_chunk_indexes o) op.CHUNK_INDEX
    (RChunkIndex <$> chunk_indexes s) summary_end offsets;
  '(summary_end, offsets) ← write_group (wo_emit_attachment_indexes o) op.ATTACHMENT_INDEX
    (RAttachmentIndex <$> attachment_indexes s) summary_end offsets;
  '(summary_end, offsets) ← write_group (wo_emit_metadata_indexes o) op.METADATA_INDEX
    (RMetadataIndex <$> metadata_indexes s) summary_end offsets;
  summary_offset_start ←
    (if wo_emit_summary_offsets o
     then _ ← mcap_io (write_records (RSummaryOffset <$> offsets)); mret summary_end
     else mret 0%Z);
  mret ((if summary_start <? summary_end then summary_start else 0)%Z, summary_offset_start).

(** [m] on [w] wrapped to count and hash what it writes. *)
Definition hashing {A} (calculate_crc : bool) (m : method (CountingCrcWriter W) McapError A)
    : method W McapError (A * option hasher) := λ w,
  let '(o, ccw) := m (ccw_new w calculate_crc) in
  let '(w, h) := ccw_finalize ccw in
  ((λ a, (a, h)) <$> o, w).

(** The footer's frame up to its checksum, which covers that much of it. *)
Definition write_footer_start (summary_start summary_offset_start : Z) : method (CountingCrcWriter W) io_error () :=
  _ ← op_and_len op.FOOTER (8 + 8 + 4);
  _ ← write_all (le_enc 8 summary_start);
  write_all (le_enc 8 summary_offset_start).

(** [write_summary_and_footer_magic] *)
Definition write_summary_and_footer_magic (s : Summary) (o : WriteOptions) : method W McapError () :=
  summary_start ← mcap_io stream_position;
  '(_, h) ← hashing (wo_calculate_summary_section_crc o) (
    '(summary_start, summary_offset_start) ← write_summary_section s o summary_start;
    mcap_io (write_footer_start summary_start summary_offset_start));
  mcap_io (
    _ ← write_all (le_enc 4 (default 0%Z (hasher_finalize <$> h)));
    _ ← write_all MAGIC;
    flush).
End footer.

(** ** [Writer] *)

Section writer.
Context `{Crc, HashOrder, ZstdEncoderLib, Lz4EncoderLib}.
Context `{BiMap ChannelContent Z, BiMap SchemaContent Z}.
Context {W : Type} `{Write W, Seek W}.

(** [WriteMode] *)
Inductive WriteMode :=
| Raw (w : CountingCrcWriter W)
| Chunking (c : ChunkWriter W)
| Attaching (a : AttachmentWriter (CountingCrcWriter W))
| Failed (w : W).

Record Writer := mkWriter {
  wr_writer : option WriteMode;
  wr_finished_summary : option Summary;
  wr_chunk_mode : ChunkMode;
  wr_options : WriteOptions;
  wr_canonical_channels : bimap ChannelContent Z;
  wr_all_channel_ids : list (Z * Z);
  wr_canonical_schemas : bimap SchemaContent Z;
  wr_all_schema_ids : list (Z * Z);
  wr_next_schema_id : Z;
  wr_next_channel_id : Z;
  wr_chunk_indexes : list ChunkIndex;
  wr_attachment_count : Z;
  wr_attachment_indexes : list AttachmentIndex;
  wr_metadata_count : Z;
  wr_metadata_indexes : list MetadataIndex;
  wr_message_bounds : option (Z * Z);
  wr_channel_message_counts : list (Z * Z);
}.

(** Assignments to the fields. *)
Definition set_writer (m : option WriteMode) (s : Writer) : Writer :=
  mkWriter m (wr_finished_summary s) (wr_chunk_mode s) (wr_options s) (wr_canonical_channels s)
    (wr_all_channel_ids s) (wr_canonical_schemas s) (wr_all_schema_ids s) (wr_next_schema_id s)
    (wr_next_channel_id s) (wr_chunk_indexes s) (wr_attachment_count s) (wr_attachment_indexes s)
    (wr_metadata_count s) (wr_metadata_indexes s) (wr_message_bounds s) (wr_channel_message_counts s).
Definition set_chunk_mode (m : ChunkMode) (s : Writer) : Writer :=
  mkWriter (wr_writer s) (wr_finished_summary s) m (wr_options s) (wr_canonical_channels s)
    (wr_all_channel_ids s) (wr_canonical_schemas s) (wr_all_schema_ids s) (wr_next_schema_id s)
    (wr_next_channel_id s) (wr_chunk_indexes s) (wr_attachment_count s) (wr_attachment_indexes s)
    (wr_metadata_count s) (wr_metadata_indexes s) (wr_message_bounds s) (wr_channel_message_counts s).
Definition set_schemas (canonical : bimap SchemaContent Z) (ids : list (Z * Z)) (next : Z) (s : Writer) : Writer :=
  mkWriter (wr_writer s) (wr_finished_summary s) (wr_chunk_mode s) (wr_options s) (wr_canonical_channels s)
    (wr_all_channel_ids s) canonical ids next
    (wr_next_channel_id s) (wr_chunk_indexes s) (wr_attachment_count s) (wr_attachment_indexes s)
    (wr_metadata_count s) (wr_metadata_indexes s) (wr_message_bounds s) (wr_channel_message_counts s).
Definition set_channels (canonical : bimap ChannelContent Z) (ids : list (Z * Z)) (next : Z) (s : Writer) : Writer :=
  mkWriter (wr_writer s) (wr_finished_summary s) (wr_chunk_mode s) (wr_options s) canonical ids
    (wr_canonical_schemas s) (wr_all_schema_ids s) (wr_next_schema_id s)
    next (wr_chunk_indexes s) (wr_attachment_count s) (wr_attachment_indexes s)
    (wr_metadata_count s) (wr_metadata_indexes s) (wr_message_bounds s) (wr_channel_message_counts s).
Definition set_chunk_indexes (l : list ChunkIndex) (s : Writer) : Writer :=
  mkWriter (wr_writer s) (wr_finished_summary s) (wr_chunk_mode s) (wr_options s) (wr_canonical_channels s)
    (wr_all_channel_ids s) (wr_canonical_schemas s) (wr_all_schema_ids s) (wr_next_schema_id s)
    (wr_next_channel_id s) l (wr_attachment_count s) (wr_attachment_indexes s)
    (wr_metadata_count s) (wr_metadata_indexes s) (wr_message_bounds s) (wr_channel_message_counts s).
Definition set_attachments (count : Z) (l : list AttachmentIndex) (s : Writer) : Writer :=
  mkWriter (wr_writer s) (wr_finished_summary s) (wr_chunk_mode s) (wr_options s) (wr_canonical_channels s)
    (wr_all_channel_ids s) (wr_canonical_schemas s) (wr_all_schema_ids s) (wr_next_schema_id s)
    (wr_next_channel_id s) (wr_chunk_indexes s) count l
    (wr_metadata_count s) (wr_metadata_indexes s) (wr_message_bounds s) (wr_channel_message_counts s).
Definition set_metadatas (count : Z) (l : list MetadataIndex) (s : Writer) : Writer :=
  mkWriter (wr_writer s) (wr_finished_summary s) (wr_chunk_mode s) (wr_options s) (wr_canonical_channels s)
    (wr_all_channel_ids s) (wr_canonical_schemas s) (wr_all_schema_ids s) (wr_next_schema_id s)
    (wr_next_channel_id s) (wr_chunk_indexes s) (wr_attachment_count s) (wr_attachment_indexes s)
    count l (wr_message_bounds s) (wr_channel_message_counts s).
Definition set_counts (bounds : option (Z * Z)) (counts : list (Z * Z)) (s : Writer) : Writer :=
  mkWriter (wr_writer s) (wr_finished_summary s) (wr_chunk_mode s) (wr_options s) (wr_canonical_channels s)
    (wr_all_channel_ids s) (wr_canonical_schemas s) (wr_all_schema_ids s) (wr_next_schema_id s)
    (wr_next_channel_id s) (wr_chunk_indexes s) (wr_attachment_count s) (wr_attachment_indexes s)
    (wr_metadata_count s) (wr_metadata_indexes s) bounds counts.
Definition set_finished (sum : Summary) (s : Writer) : Writer :=
  mkWriter (wr_writer s) (Some sum) (wr_chunk_mode s) (wr_options s) (wr_canonical_channels s)
    (wr_all_channel_ids s) (wr_canonical_schemas s) (wr_all_schema_ids s) (wr_next_schema_id s)
    (wr_next_channel_id s) (wr_chunk_indexes s) (wr_attachment_count s) (wr_attachment_indexes s)
    (wr_metadata_count s) (wr_metadata_indexes s) (wr_message_bounds s) (wr_channel_message_counts s).

Definition isize_max : Z := 2 ^ 63 - 1.

(** [Vec::with_capacity(n)], which panics on more than [isize::MAX]. *)
Definition with_capacity {E} (n : Z) : outcome E bytes := if (n <=? isize_max)%Z then Ok [] else Panic.

(** [with_options] *)
Definition Writer_with_options (w : W) (opts : WriteOptions) : McapResult Writer :=
  let writer := ccw_new w (wo_calculate_data_section_crc opts) in
  '(_, writer) ← map_err Io (run (write_all MAGIC) writer);
  '(_, writer) ← map_err Io (run (write_record (RHeader (mkHeader (wo_profile opts) (wo_library opts)))) writer);
  mode ← (if wo_use_chunks opts && wo_disable_seeking opts
          then buffer ← with_capacity (default 0%Z (wo_chunk_size opts)); mret (Buffered buffer)
          else mret Direct);
  mret (mkWriter (Some (Raw writer)) None mode opts bm_empty [] bm_empty [] 1 1 [] 0 [] 0 [] None []).

(** ** Chunks *)

Abbreviation wmethod := (method Writer McapError).

(** [assert_not_finished] *)
Definition assert_not_finished : wmethod () := λ s,
  match wr_finished_summary s with Some _ => (Panic, s) | None => (Ok (), s) end.

(** On the value a chunk or a raw writer is borrowed from. *)
Definition on_raw {A} (m : method (CountingCrcWriter W) McapError A) : wmethod A := λ s,
  match wr_writer s with
  | Some (Raw w) => let '(o, w) := m w in (o, set_writer (Some (Raw w)) s)
  | _ => (Panic, s)
  end.
Definition on_chunk {A} (m : method (ChunkWriter W) McapError A) : wmethod A := λ s,
  match wr_writer s with
  | Some (Chunking c) => let '(o, c) := m c in (o, set_writer (Some (Chunking c)) s)
  | _ => (Panic, s)
  end.

(** [start_chunk]: the mode taken out of the writer is lost if the chunk cannot be
    started. *)
Definition start_chunk_unfinished : wmethod () := λ s,
  let o := wr_options s in
  match wr_writer s with
  | Some (Attaching _) => (Err AttachmentNotInProgress, s)
  | None => (Panic, s)
  | Some mode =>
      if negb (wo_use_chunks o) then (Panic, s) else
      match mode with
      | Raw w =>
          match ChunkWriter_new w (wo_compression o) (wr_chunk_mode s) (wo_emit_message_indexes o)
                  (wo_calculate_chunk_crcs o) (wo_compression_level o) (wo_compression_threads o) with
          | Ok c => (Ok (), set_writer (Some (Chunking c)) (set_chunk_mode ChunkMode_default s))
          | Err e => (Err e, set_writer None (set_chunk_mode ChunkMode_default s))
          | Panic => (Panic, s)
          | Fuel => (Fuel, s)
          end
      | Failed _ => (Err AttemptedWriteAfterFailure, s)
      | _ => (Ok (), s)
      end
  end.
Definition start_chunk : wmethod () := _ ← assert_not_finished; start_chunk_unfinished.

(** [finish_chunk]: after it the mode is [Raw]. *)
Definition finish_chunk_unfinished : wmethod () := λ s,
  match wr_writer s with
  | Some (Attaching _) => (Err AttachmentNotInProgress, s)
  | None => (Panic, s)
  | Some (Chunking c) =>
      match ChunkWriter_finish c with
      | Ok (w, mode, index) =>
          (Ok (), set_writer (Some (Raw w)) (set_chunk_mode mode
                    (set_chunk_indexes (wr_chunk_indexes s ++ [index]) s)))
      | Err (w, e) => (Err e, set_writer (Some (Failed w)) s)
      | Panic => (Panic, s)
      | Fuel => (Fuel, s)
      end
  | Some (Failed _) => (Err AttemptedWriteAfterFailure, s)
  | Some (Raw _) => (Ok (), s)
  end.
Definition finish_chunk : wmethod () := _ ← assert_not_finished; finish_chunk_unfinished.

(** A record, into a chunk or at the level of the file. *)
Definition put_record (in_chunk : bool) (r : record) : wmethod () :=
  if in_chunk then _ ← start_chunk; on_chunk (cw_write_record r)
  else _ ← finish_chunk; on_raw (mcap_io (write_record r)).

(** ** Schemas and channels *)

(** [write_schema], [write_channel] *)
Definition write_schema (schema : Schema) : wmethod () :=
  o ← gets wr_options;
  put_record (wo_use_chunks o)
    (RSchema (mkSchemaHeader (schema_id schema) (schema_name schema) (schema_encoding schema)) (schema_data schema)).
Definition write_channel (channel : ChannelRecord) : wmethod () :=
  o ← gets wr_options;
  put_record (wo_use_chunks o) (RChannel channel).

(** The first identifier from [next] on that is not taken, if there is one; and where
    the counter stops. *)
Fixpoint next_free (fuel : nat) (ids : list (Z * Z)) (next : Z) : bool * Z :=
  if bt_contains next ids then
    match fuel with
    | 0 => (false, next)
    | S fuel => if (next =? u16_max)%Z then (false, next) else next_free fuel ids (next + 1)
    end
  else (true, next).

(** [add_schema] *)
Definition wr_add_schema (name encoding : rstring) (data : bytes) : wmethod Z :=
  let content := mkSchemaContent name encoding data in
  s ← get;
  match bm_get_by_left content (wr_canonical_schemas s) with
  | Some id => mret id
  | None =>
      let '(free, id) := next_free (Z.to_nat u16_max) (wr_all_schema_ids s) (wr_next_schema_id s) in
      _ ← modify (set_schemas (wr_canonical_schemas s) (wr_all_schema_ids s) id);
      if negb free then mthrow TooManySchemas else
      next ← lift (add_ u16_max id 1);
      canonical ← lift (expect (bm_insert_no_overwrite content id (wr_canonical_schemas s)));
      _ ← lift (rassert (negb (bt_contains id (wr_all_schema_ids s))));
      _ ← modify (set_schemas canonical (bt_insert id id (wr_all_schema_ids s)) next);
      _ ← write_schema (mkSchema id name encoding data);
      mret id
  end.

(** [add_channel] *)
Definition wr_add_channel (schema_id : Z) (topic message_encoding : rstring)
    (metadata : list (rstring * rstring)) : wmethod Z :=
  let content := mkChannelContent topic schema_id message_encoding metadata in
  s ← get;
  match bm_get_by_left content (wr_canonical_channels s) with
  | Some id => mret id
  | None =>
      if negb (schema_id =? 0)%Z && negb (bt_contains schema_id (wr_all_schema_ids s))
      then mthrow (UnknownSchema topic schema_id) else
      let '(free, id) := next_free (Z.to_nat u16_max) (wr_all_channel_ids s) (wr_next_channel_id s) in
      _ ← modify (set_channels (wr_canonical_channels s) (wr_all_channel_ids s) id);
      if negb free then mthrow TooManyChannels else
      next ← lift (add_ u16_max id 1);
      canonical ← lift (expect (bm_insert_no_overwrite content id (wr_canonical_channels s)));
      _ ← lift (rassert (negb (bt_contains id (wr_all_channel_ids s))));
      _ ← modify (set_channels canonical (bt_insert id id (wr_all_channel_ids s)) next);
      _ ← write_channel (mkChannelRecord id schema_id topic message_encoding metadata);
      mret id
  end.

(** ** Messages *)

(** [write_to_known_channel] *)
Definition write_to_known_channel (header : MessageHeader) (data : bytes) : wmethod () :=
  s ← get;
  if negb (bt_contains (m_channel_id header) (wr_all_channel_ids s))
  then mthrow (UnknownChannel (m_sequence header) (m_channel_id header)) else
  count ← lift (add_ u64_max (default 0%Z (bt_get (m_channel_id header) (wr_channel_message_counts s))) 1);
  _ ← modify (set_counts (extend_bounds (wr_message_bounds s) (m_log_time header))
        (bt_insert (m_channel_id header) count (wr_channel_message_counts s)));
  _ ← match wr_writer s, wo_chunk_size (wr_options s) with
      | Some (Chunking cw), Some target =>
          if (target <? ccw_count (cw_compressor cw))%Z then finish_chunk else mret ()
      | _, _ => mret ()
      end;
  if wo_use_chunks (wr_options s)
  then _ ← start_chunk; on_chunk (cw_write_message header data)
  else put_record false (RMessage header data).

(** The schema of a message, written if its identifier is new. *)
Definition ensure_schema (schema : Schema) : wmethod () :=
  let content := mkSchemaContent (schema_name schema) (schema_encoding schema) (schema_data schema) in
  let id := schema_id schema in
  s ← get;
  let canonical := bm_get_by_left content (wr_canonical_schemas s) in
  match bt_get id (wr_all_schema_ids s) with
  | Some other =>
      canonical ← lift (expect canonical);
      if negb (other =? canonical)%Z then mthrow (ConflictingSchemas (schema_name schema)) else mret ()
  | None =>
      _ ← match canonical with
          | Some c => modify (set_schemas (wr_canonical_schemas s) (bt_insert id c (wr_all_schema_ids s)) (wr_next_schema_id s))
          | None =>
              m ← lift (expect (bm_insert_no_overwrite content id (wr_canonical_schemas s)));
              modify (set_schemas m (bt_insert id id (wr_all_schema_ids s)) (wr_next_schema_id s))
          end;
      write_schema schema
  end.

(** And its channel. *)
Definition ensure_channel (channel : Channel) : wmethod () :=
  let content := mkChannelContent (channel_topic channel) (channel_schema_id channel)
                   (channel_message_encoding channel) (channel_metadata channel) in
  let id := channel_id channel in
  s ← get;
  let canonical := bm_get_by_left content (wr_canonical_channels s) in
  match bt_get id (wr_all_channel_ids s) with
  | Some other =>
      canonical ← lift (expect canonical);
      if negb (canonical =? other)%Z then mthrow (ConflictingChannels (channel_topic channel)) else mret ()
  | None =>
      _ ← match canonical with
          | Some c => modify (set_channels (wr_canonical_channels s) (bt_insert id c (wr_all_channel_ids s)) (wr_next_channel_id s))
          | None =>
              m ← lift (expect (bm_insert_no_overwrite content id (wr_canonical_channels s)));
              modify (set_channels m (bt_insert id id (wr_all_channel_ids s)) (wr_next_channel_id s))
          end;
      write_channel (mkChannelRecord id (channel_schema_id channel) (channel_topic channel)
        (channel_message_encoding channel) (channel_metadata channel))
  end.

(** [Writer::write] *)
Definition wr_write (message : Message) : wmethod () :=
  let channel := message_channel message in
  _ ← match channel_schema channel with Some schema => ensure_schema schema | None => mret () end;
  _ ← ensure_channel channel;
  write_to_known_channel
    (mkMessageHeader (channel_id channel) (message_sequence message) (message_log_time message)
       (message_publish_time message)) (message_data message).

(** [write_private_record] *)
Definition write_private_record (opcode : Z) (data : bytes) (options : list PrivateRecordOptions) : wmethod () :=
  if (opcode <? 128)%Z then mthrow (PrivateRecordOpcodeIsReserved opcode) else
  o ← gets wr_options;
  put_record (wo_use_chunks o && bool_decide (IncludeInChunks ∈ options)) (RUnknown opcode data).

(** ** Attachments and metadata *)

(** [start_attachment]: the raw writer is taken, and lost on an error. *)
Definition begin_attachment (attachment_length : Z) (header : AttachmentHeader) : wmethod () := λ s,
  match wr_writer s with
  | Some (Raw w) =>
      match AttachmentWriter_new w attachment_length header (wo_calculate_attachment_crcs (wr_options s)) with
      | Ok a => (Ok (), set_writer (Some (Attaching a)) s)
      | Err e => (Err e, set_writer None s)
      | Panic => (Panic, s)
      | Fuel => (Fuel, s)
      end
  | Some (Failed _) => (Err AttemptedWriteAfterFailure, s)
  | _ => (Panic, s)
  end.
Definition start_attachment (attachment_length : Z) (header : AttachmentHeader) : wmethod () :=
  _ ← finish_chunk;
  begin_attachment attachment_length header.

(** [put_attachment_bytes] *)
Definition put_attachment_bytes (b : bytes) : wmethod () := λ s,
  match wr_writer s with
  | Some (Attaching a) => let '(o, a) := put_bytes b a in (o, set_writer (Some (Attaching a)) s)
  | _ => (Err AttachmentNotInProgress, s)
  end.

(** [finish_attachment]: the attachment writer is taken, and lost on an error. *)
Definition finish_attachment : wmethod () := λ s,
  match wr_writer s with
  | Some (Attaching a) =>
      match AttachmentWriter_finish a with
      | Ok (w, index) =>
          match add_ u32_max (wr_attachment_count s) 1 with
          | Ok n =>
              (Ok (), set_writer (Some (Raw w)) (set_attachments n
                 (if wo_emit_attachment_indexes (wr_options s)
                  then wr_attachment_indexes s ++ [index] else wr_attachment_indexes s) s))
          | Err e => (Err e, s)
          | Panic => (Panic, s)
          | Fuel => (Fuel, s)
          end
      | Err e => (Err e, set_writer None s)
      | Panic => (Panic, s)
      | Fuel => (Fuel, s)
      end
  | _ => (Err AttachmentNotInProgress, s)
  end.

(** [attach] *)
Definition attach (a : Attachment) : wmethod () :=
  _ ← start_attachment (zlen (attachment_data a))
        (mkAttachmentHeader (attachment_log_time a) (attachment_create_time a) (attachment_name a)
           (attachment_media_type a));
  _ ← put_attachment_bytes (attachment_data a);
  finish_attachment.

(** [write_metadata] *)
Definition write_metadata (m : Metadata) : wmethod () :=
  _ ← finish_chunk;
  offset ← on_raw (mcap_io stream_position);
  _ ← on_raw (mcap_io (write_record (RMetadata m)));
  position ← on_raw (mcap_io stream_position);
  length ← lift (sub_ position offset);
  s ← get;
  n ← lift (add_ u32_max (wr_metadata_count s) 1);
  modify (set_metadatas n
    (if wo_emit_metadata_indexes (wr_options s)
     then wr_metadata_indexes s ++ [mkMetadataIndex offset length (md_name m)] else wr_metadata_indexes s)).

(** [Writer::flush] *)
Definition wr_flush : wmethod () :=
  _ ← finish_chunk;
  on_raw (mcap_io flush).

(** ** The end of the file *)

(** The schemas and the channels of the summary, from the identifiers written. *)
Fixpoint summary_schemas (canonical : bimap SchemaContent Z) (ids : list (Z * Z)) (m : gmap Z Schema)
    : McapResult (gmap Z Schema) :=
  match ids with
  | [] => mret m
  | (id, canonical_id) :: ids =>
      c ← expect (bm_get_by_right canonical_id canonical);
      summary_schemas canonical ids (<[id := mkSchema id (sc_name c) (sc_encoding c) (sc_data c)]> m)
  end.
Fixpoint summary_channels (canonical : bimap ChannelContent Z) (schemas : gmap Z Schema)
    (ids : list (Z * Z)) (m : gmap Z Channel) : McapResult (gmap Z Channel) :=
  match ids with
  | [] => mret m
  | (id, canonical_id) :: ids =>
      c ← expect (bm_get_by_right canonical_id canonical);
      summary_channels canonical schemas ids
        (<[id := mkChannel id (cc_topic c) (schemas !! cc_schema_id c) (cc_message_encoding c) (cc_metadata c)]> m)
  end.

(** [counts.values().sum()] *)
Fixpoint sum_counts (counts : list (Z * Z)) (acc : Z) : McapResult Z :=
  match counts with
  | [] => mret acc
  | (_, n) :: counts => acc ← add_ u64_max acc n; sum_counts counts acc
  end.

Definition statistics (s : Writer) : McapResult Statistics :=
  let bounds := default (0, 0)%Z (wr_message_bounds s) in
  n ← sum_counts (wr_channel_message_counts s) 0;
  mret (mkStatistics n (as_u16 (zlen (wr_all_schema_ids s))) (as_u32 (zlen (wr_all_channel_ids s)))
          (wr_attachment_count s) (wr_metadata_count s) (as_u32 (zlen (wr_chunk_indexes s)))
          bounds.1 bounds.2 (wr_channel_message_counts s)).

(** [take_summary] *)
Definition take_summary : wmethod Summary :=
  s ← get;
  stats ← lift (statistics s);
  schemas ← lift (summary_schemas (wr_canonical_schemas s) (wr_all_schema_ids s) ∅);
  channels ← lift (summary_channels (wr_canonical_channels s) schemas (wr_all_channel_ids s) ∅);
  _ ← modify (λ s, set_counts (wr_message_bounds s) [] (set_chunk_indexes []
        (set_attachments (wr_attachment_count s) [] (set_metadatas (wr_metadata_count s) [] s))));
  mret (mkSummary (Some stats) channels schemas (wr_chunk_indexes s) (wr_attachment_indexes s)
          (wr_metadata_indexes s)).

(** [Writer::finish] *)
Definition wr_finish : wmethod Summary :=
  s ← get;
  match wr_finished_summary s with
  | Some summary => mret summary
  | None =>
      _ ← finish_chunk;
      summary ← take_summary;
      _ ← modify (set_finished summary);
      data_section_crc ← on_raw (gets current_checksum);
      _ ← on_raw (on_inner (mcap_io (write_record (RDataEnd (mkDataEnd data_section_crc)))));
      _ ← on_raw (on_inner (write_summary_and_footer_magic summary (wr_options s)));
      mret summary
  end.

(** [drop]: errors are ignored, panics are not. *)
Definition wr_drop (s : Writer) : outcome McapError () :=
  match (wr_finish s).1 with
  | Panic => Panic
  | Fuel => Fuel
  | _ => Ok ()
  end.

(** [into_inner] *)
Definition wr_into_inner (s : Writer) : McapResult W :=
  '(_, s) ← match wr_finished_summary s with
            | Some _ => mret ((), s)
            | None => run (summary ← take_summary; modify (set_finished summary)) s
            end;
  mode ← expect (wr_writer s);
  mret match mode with
       | Raw w => (ccw_finalize w).1
       | Attaching a => (ccw_finalize (ccw_finalize (aw_writer a)).1).1
       | Chunking c => cks_inner (ccw_finalize (Compressor_into_inner (ccw_finalize (cw_compressor c)).1)).1
       | Failed w => w
       end.
End writer.
