(* ===== verification/WriterTheory.v ===== *)
(** What the writer promises: the bytes it has written and the indexes it keeps are
    those of an abstract list of items - records, attachments, metadata and chunks -
    and every method either adds the items it is meant to or fails as documented. *)

From S2P Require Import Prelude Utf8 BTree Errors Bin Records Crc Io Codec Channels Summary ChunkWriter ChunkWriterTheory Writer.

(** ** What a file has in its data section *)

(** An item of the data section. A chunk is what it was compressed to, and the records
    that went into it. *)
Inductive item :=
| IRecord (r : record)
| IAttachment (header : AttachmentHeader) (data : bytes)
| IMetadata (m : Metadata)
| IChunk (rs : list record) (z : bytes).

(** The state of a writer as far as its file goes: what is done, and the records of the
    chunk that is open, if one is. *)
Record astate := mkState {
  a_items : list item;
  a_open : option (list record);
}.

(** What a writer knows of identifiers, times and counts. *)
Section id_state.
Context `{!BiMap ChannelContent Z, !BiMap SchemaContent Z}.
Record id_state := mkIds {
  i_channels : bimap ChannelContent Z;
  i_channel_ids : list (Z * Z);
  i_next_channel : Z;
  i_schemas : bimap SchemaContent Z;
  i_schema_ids : list (Z * Z);
  i_next_schema : Z;
  i_bounds : option (Z * Z);
  i_counts : list (Z * Z);
}.
End id_state.

Section contents.
Context `{Crc}.
Context (o : WriteOptions).

Definition record_entry (r : record) : Z * bytes := (record_opcode r, record_body r).

Abbreviation the_chunk_body := (chunk_body (compression := wo_compression o) (wo_calculate_chunk_crcs o)).
Abbreviation the_indexes_of := (chunk_indexes_of (wo_emit_message_indexes o)).

(** The records an item is in the file. *)
Definition attachment_record (header : AttachmentHeader) (data : bytes) : record :=
  RAttachment header data (attachment_crc header (zlen data) (wo_calculate_attachment_crcs o) data).
Definition item_records (i : item) : list (Z * bytes) :=
  match i with
  | IRecord r => [record_entry r]
  | IAttachment header data => [record_entry (attachment_record header data)]
  | IMetadata m => [record_entry (RMetadata m)]
  | IChunk rs z => (op.CHUNK, the_chunk_body rs z) :: (index_record <$> the_indexes_of rs)
  end.
Definition item_bytes (i : item) : bytes := frames (item_records i).
Definition items_bytes (l : list item) : bytes := concat (item_bytes <$> l).

(** The start of every file. *)
Definition header_item : item := IRecord (RHeader (mkHeader (wo_profile o) (wo_library o))).
Definition contents (l : list item) : bytes := MAGIC ++ items_bytes l.

(** The part of it that the checksum of the data section covers: the data of a chunk is
    left out if the checksums of chunks are not calculated. *)
Definition item_hashed (i : item) : bytes :=
  match i with
  | IChunk rs z =>
      (if wo_calculate_chunk_crcs o then chunk_frame (compression := wo_compression o) (wo_calculate_chunk_crcs o) rs z
       else chunk_start (compression := wo_compression o) (wo_calculate_chunk_crcs o) rs z) ++
      index_frames (the_indexes_of rs)
  | _ => item_bytes i
  end.
Definition hashed (l : list item) : bytes := MAGIC ++ concat (item_hashed <$> l).
Definition data_hash (l : list item) : option hasher :=
  if wo_calculate_data_section_crc o then Some (hasher_update hasher_new (hashed l)) else None.

(** The index of an item that starts after the bytes [pre]. *)
Definition item_chunk_index (pre : bytes) (i : item) : option ChunkIndex :=
  match i with
  | IChunk rs z =>
      Some (chunk_index (compression := wo_compression o) pre (wo_calculate_chunk_crcs o) (wo_emit_message_indexes o) rs z)
  | _ => None
  end.
Definition attachment_index (pre : bytes) (header : AttachmentHeader) (data : bytes) : AttachmentIndex :=
  mkAttachmentIndex (zlen pre) (zlen (record_frame (attachment_record header data))) (ah_log_time header)
    (ah_create_time header) (zlen data) (ah_name header) (ah_media_type header).
Definition item_attachment_index (pre : bytes) (i : item) : option AttachmentIndex :=
  match i with IAttachment header data => Some (attachment_index pre header data) | _ => None end.
Definition item_metadata_index (pre : bytes) (i : item) : option MetadataIndex :=
  match i with
  | IMetadata m => Some (mkMetadataIndex (zlen pre) (zlen (record_frame (RMetadata m))) (md_name m))
  | _ => None
  end.
Fixpoint indexed {A} (f : bytes → item → option A) (pre : bytes) (l : list item) : list A :=
  match l with
  | [] => []
  | i :: l => option_list (f pre i) ++ indexed f (pre ++ item_bytes i) l
  end.
Definition count_of (p : item → bool) (l : list item) : Z := zlen (List.filter p l).
Definition is_attachment (i : item) : bool := match i with IAttachment _ _ => true | _ => false end.
Definition is_metadata (i : item) : bool := match i with IMetadata _ => true | _ => false end.

Lemma items_bytes_snoc l i : items_bytes (l ++ [i]) = items_bytes l ++ item_bytes i.
Proof. unfold items_bytes. rewrite fmap_app, concat_app. cbn. by rewrite app_nil_r. Qed.
Lemma contents_snoc l i : contents (l ++ [i]) = contents l ++ item_bytes i.
Proof. unfold contents. by rewrite items_bytes_snoc, app_assoc. Qed.
Lemma hashed_snoc l i : hashed (l ++ [i]) = hashed l ++ item_hashed i.
Proof.
  unfold hashed. rewrite fmap_app, concat_app. change (concat (item_hashed <$> [i])) with (item_hashed i ++ []).
  by rewrite app_nil_r, app_assoc.
Qed.
Lemma indexed_snoc {A} (f : bytes → item → option A) pre l i :
  indexed f pre (l ++ [i]) = indexed f pre l ++ option_list (f (pre ++ items_bytes l) i).
Proof.
  revert pre. induction l as [|j l IH]; intros pre; cbn [indexed app].
  - unfold items_bytes. cbn. by rewrite !app_nil_r.
  - rewrite IH, <-(app_assoc pre). change (item_bytes j ++ items_bytes l) with (items_bytes (j :: l)). by rewrite app_assoc.
Qed.
Lemma count_of_snoc p l i : count_of p (l ++ [i]) = (count_of p l + if p i then 1 else 0)%Z.
Proof. unfold count_of. rewrite List.filter_app, zlen_app. cbn. by destruct (p i). Qed.
Lemma item_bytes_record r : item_bytes (IRecord r) = record_frame r.
Proof. exact (frames_one _ _). Qed.
Lemma item_bytes_attachment header data :
  item_bytes (IAttachment header data) = record_frame (attachment_record header data).
Proof. exact (frames_one _ _). Qed.
Lemma item_bytes_metadata m : item_bytes (IMetadata m) = record_frame (RMetadata m).
Proof. exact (frames_one _ _). Qed.
Lemma item_bytes_chunk rs z : item_bytes (IChunk rs z) =
  chunk_frame (compression := wo_compression o) (wo_calculate_chunk_crcs o) rs z ++ index_frames (the_indexes_of rs).
Proof. done. Qed.

Lemma data_hash_snoc `{!CrcLaws} l i : data_hash (l ++ [i]) = (λ h, hasher_update h (item_hashed i)) <$> data_hash l.
Proof.
  unfold data_hash. destruct (wo_calculate_data_section_crc o); [|done].
  by rewrite hashed_snoc, <-hasher_update_app.
Qed.

(** The whole data section is covered if the checksums of chunks are calculated, or if
    there are no chunks. *)
Definition hashes_all : Prop :=
  wo_calculate_chunk_crcs o = true ∨ wo_use_chunks o = false.
Lemma item_hashed_all i : wo_calculate_chunk_crcs o = true ∨ (∀ rs z, i ≠ IChunk rs z) → item_hashed i = item_bytes i.
Proof.
  destruct i as [| | |rs z]; try done. intros [Hc|Hno]; [|by destruct (Hno rs z)]. cbn. by rewrite Hc.
Qed.
End contents.

(** ** The state of a writer *)

Section writer.
Context `{Crc, !CrcLaws, ZstdEncoderLib, Lz4EncoderLib} `{FileOk W file}.
Context `{!BiMap ChannelContent Z, !BiMap SchemaContent Z}.
Context (o : WriteOptions).
Abbreviation compression := (wo_compression o).
Context `{!EncoderOk compression (wo_compression_level o) (wo_compression_threads o)}.
Abbreviation writer := (Writer (W := W)).
Abbreviation dummy := (dummy_start (compression := compression)).
Abbreviation open_indexes := (chunk_indexes_of (wo_emit_message_indexes o)).

(** Chunks go through a buffer if seeking is disabled. *)
Definition buffered : bool := wo_use_chunks o && wo_disable_seeking o.

(** There is room for the file, with the open chunk closed in the worst case. *)
Definition open_size (rs : list record) : Z :=
  (zlen dummy + enc_bound (zlen (records_data rs)) + zlen (index_frames (open_indexes rs)))%Z.
Definition state_size (a : astate) : Z :=
  (zlen (contents o (a_items a)) + match a_open a with Some rs => open_size rs | None => 0 end)%Z.
Record fits (a : astate) : Prop := {
  fits_size : (state_size a ≤ u64_max)%Z;
  fits_data : match a_open a with Some rs => (zlen (records_data rs) ≤ u64_max)%Z | None => True end;
  fits_index : match a_open a with Some rs => forallb index_wf (open_indexes rs) = true | None => True end;
}.

(** The file below the writer is at its end, after the contents. *)
Definition raw_rep (l : list item) (w : CountingCrcWriter W) : Prop :=
  ∃ base h, ccw_rep (over file []) base h w (contents o l) ∧ ccw_hasher w = data_hash o l.

Definition mode_rep (a : astate) (s : writer) : Prop :=
  match a_open a with
  | None => (∃ w, wr_writer s = Some (Raw w) ∧ raw_rep (a_items a) w) ∧ is_buffered (wr_chunk_mode s) = buffered
  | Some rs => wo_use_chunks o = true ∧ ∃ c, wr_writer s = Some (Chunking c) ∧
      cw_rep (compression := compression) (level := wo_compression_level o) (threads := wo_compression_threads o)
        (file := file) (contents o (a_items a)) buffered (wo_calculate_chunk_crcs o) (wo_emit_message_indexes o)
        (data_hash o (a_items a)) rs c
  end.

Record wrep (a : astate) (s : writer) : Prop := {
  wrep_options : wr_options s = o;
  wrep_live : wr_finished_summary s = None;
  wrep_mode : mode_rep a s;
  wrep_chunks : wr_chunk_indexes s = indexed o (item_chunk_index o) MAGIC (a_items a);
  wrep_attachments : wr_attachment_indexes s =
    if wo_emit_attachment_indexes o then indexed o (item_attachment_index o) MAGIC (a_items a) else [];
  wrep_attachment_count : wr_attachment_count s = count_of is_attachment (a_items a);
  wrep_metadatas : wr_metadata_indexes s =
    if wo_emit_metadata_indexes o then indexed o item_metadata_index MAGIC (a_items a) else [];
  wrep_metadata_count : wr_metadata_count s = count_of is_metadata (a_items a);
  wrep_fits : fits a;
}.

(** The rest of the state: what writing to the file leaves alone. *)
Definition ids (s : writer) : id_state :=
  mkIds (wr_canonical_channels s) (wr_all_channel_ids s) (wr_next_channel_id s) (wr_canonical_schemas s)
    (wr_all_schema_ids s) (wr_next_schema_id s) (wr_message_bounds s) (wr_channel_message_counts s).

(** *** Starting and finishing a chunk *)

Definition opened (a : astate) : astate :=
  match a_open a with None => mkState (a_items a) (Some []) | Some _ => a end.

(** What closing the open chunk makes of a state: the compressor has a say in it. *)
Inductive closes : astate → list item → Prop :=
| closes_none l : closes (mkState l None) l
| closes_chunk l rs z : encodes (records_data rs) z → (zlen z ≤ enc_bound (zlen (records_data rs)))%Z →
    closes (mkState l (Some rs)) (l ++ [IChunk rs z]).

Lemma opened_open l rs : opened (mkState l (Some rs)) = mkState l (Some rs).
Proof. done. Qed.

Lemma roomy_open l rs : fits (mkState l (Some rs)) →
  roomy (compression := compression) (contents o l) (zlen (records_data rs)).
Proof.
  intros [Hs Hd _]. unfold state_size, open_size in Hs. cbn [a_items a_open] in *. zlen_facts. split; lia.
Qed.

Lemma start_chunk_spec a s : wrep a s → wo_use_chunks o = true → fits (opened a) →
  ∃ s', start_chunk s = (Ok (), s') ∧ wrep (opened a) s' ∧ ids s' = ids s.
Proof.
  intros [Ho Hl Hm Hc Ha Hac Hmd Hmc Hf] Hu Hf'. unfold start_chunk.
  rewrite (bind_method_Ok _ _ s () s) by (unfold assert_not_finished; by rewrite Hl).
  unfold start_chunk_unfinished. rewrite Ho, Hu. cbn [negb]. destruct a as [l [rs|]].
  - destruct Hm as (_ & c & Hw & Hcw). cbn [a_items a_open] in *. rewrite Hw. exists s. split_and!; [done| |done].
    split; try done. by split; [|exists c].
  - destruct Hm as ((w & Hw & base & h & Hr & Hh) & Hbuf). cbn [a_items a_open] in *. rewrite Hw.
    destruct Hr as (d & Hd & Hin & Hcnt).
    destruct (ChunkWriter_new_spec (compression := compression) (level := wo_compression_level o)
      (threads := wo_compression_threads o) (contents o l) buffered (wo_calculate_chunk_crcs o) (wo_emit_message_indexes o)
      _ (roomy_open l [] Hf') w (wr_chunk_mode s) Hbuf Hin) as (cw & E & Hcw).
    rewrite E. eexists. split_and!; [done| |done]. split; try done; cbn.
    split; [done|]. exists cw. split; [done|]. by rewrite <-Hh.
Qed.

Lemma zlen_item_chunk rs z : (zlen (item_bytes o (IChunk rs z)) = zlen dummy + zlen z + zlen (index_frames (open_indexes rs)))%Z.
Proof. rewrite item_bytes_chunk, zlen_app, chunk_frame_split, zlen_app, zlen_chunk_start. done. Qed.

Lemma closes_fits a l : fits a → closes a l → fits (mkState l None).
Proof.
  intros [Hs _ _] Hc. destruct Hc as [|l rs z _ Hz]; [by split|]. split; try done. unfold state_size in *. cbn [a_items a_open] in *.
  rewrite contents_snoc, zlen_app, zlen_item_chunk. unfold open_size in Hs. lia.
Qed.

Lemma finish_chunk_spec a s : wrep a s →
  ∃ s' l, finish_chunk s = (Ok (), s') ∧ closes a l ∧ wrep (mkState l None) s' ∧ ids s' = ids s.
Proof.
  intros Hs. pose proof Hs as [Ho Hl Hm Hc Ha Hac Hmd Hmc Hf]. unfold finish_chunk.
  rewrite (bind_method_Ok _ _ s () s) by (unfold assert_not_finished; by rewrite Hl).
  unfold finish_chunk_unfinished. destruct a as [l [rs|]].
  - destruct Hm as (Hu & c & Hw & Hcw). cbn [a_items a_open] in *. rewrite Hw.
    destruct (ChunkWriter_finish_spec (compression := compression) (level := wo_compression_level o)
      (threads := wo_compression_threads o) (contents o l) buffered (wo_calculate_chunk_crcs o) (wo_emit_message_indexes o)
      _ rs c Hcw) as (w & mode & z & E & Hmode & Hz & Hzl & Hr).
    { apply Hf. } { destruct Hf as [Hf _ _]. unfold chunk_fits. unfold state_size, open_size in Hf.
      cbn [a_items a_open] in Hf. lia. } { apply Hf. }
    rewrite E. assert (closes (mkState l (Some rs)) (l ++ [IChunk rs z])) as Hcl by by constructor.
    eexists _, (l ++ [IChunk rs z]). split_and!; [done|done| |done].
    split; try done; cbn; rewrite ?indexed_snoc, ?count_of_snoc, ?app_nil_r, ?Z.add_0_r; try done.
    + split; [|done]. exists w. split; [done|]. eexists _, _. split.
      * rewrite contents_snoc, item_bytes_chunk. exact Hr.
      * destruct Hr as (d & Hd & _ & _ & ->). rewrite app_assoc in Hd. apply (inj (app _)) in Hd as <-.
        rewrite data_hash_snoc by done. unfold hash_chunk. destruct (data_hash o l); cbn; [|done].
        rewrite hasher_update_app. done.
    + by rewrite Hc.
    + by eapply closes_fits.
  - destruct Hm as ((w & Hw & Hr) & Hb). cbn [a_items a_open] in *. rewrite Hw. exists s, l.
    split_and!; [done|constructor|done|done].
Qed.

(** *** Writing below the level of chunks *)

(** A method of the raw writer that adds the bytes of one item. *)
Definition adds_item {A} (m : method (CountingCrcWriter W) McapError A) (a : A) (l : list item) (i : item) : Prop :=
  ∀ w base h, ccw_rep (over file []) base h w (contents o l) →
  ∃ w', m w = (Ok a, w') ∧ ccw_rep (over file []) base h w' (contents o l ++ item_bytes o i).

Lemma ccw_hasher_after (base : bytes) h (w w' : CountingCrcWriter W) c e :
  ccw_rep (over file []) base h w c → ccw_rep (over file []) base h w' (c ++ e) →
  ccw_hasher w' = (λ h, hasher_update h e) <$> ccw_hasher w.
Proof.
  intros (d & -> & _ & _ & ->) (d' & Hd & _ & _ & ->). rewrite <-app_assoc in Hd. apply (inj (app _)) in Hd as <-.
  destruct h; cbn; [|done]. by rewrite hasher_update_app.
Qed.

(** The state after an item was added to it, the indexes still to be updated. *)
Lemma raw_rep_adds l i w w' base h : (∀ rs z, i ≠ IChunk rs z) →
  ccw_rep (over file []) base h w (contents o l) → ccw_hasher w = data_hash o l →
  ccw_rep (over file []) base h w' (contents o l ++ item_bytes o i) → raw_rep (l ++ [i]) w'.
Proof.
  intros Hi Hw Hh Hw'. exists base, h. rewrite contents_snoc. split; [done|].
  rewrite (ccw_hasher_after _ _ _ _ _ _ Hw Hw'), Hh, data_hash_snoc by done. by rewrite item_hashed_all by by right.
Qed.

Lemma raw_write_spec l r s : wrep (mkState l None) s → record_wf r = true → writable r = true →
  (∀ m, r ≠ RMetadata m) → fits (mkState (l ++ [IRecord r]) None) →
  ∃ s', on_raw (mcap_io (write_record r)) s = (Ok (), s') ∧ wrep (mkState (l ++ [IRecord r]) None) s' ∧ ids s' = ids s.
Proof.
  intros [Ho Hl Hm Hc Ha Hac Hmd Hmc Hf] Hw Hwr Hno Hf'. destruct Hm as ((w & Hwr' & base & h & Hr & Hh) & Hb).
  cbn [a_items a_open] in *. pose proof (fits_size _ Hf') as Hsz. unfold state_size in Hsz. cbn [a_items a_open] in Hsz.
  rewrite contents_snoc, item_bytes_record, Z.add_0_r in Hsz.
  destruct (sinks_record _ u64_max r Hw Hwr _ _ Hr Hsz) as (w' & E & Hr').
  unfold on_raw. rewrite Hwr', (mcap_io_Ok _ _ _ _ E). eexists. split_and!; [done| |done].
  split; try done; cbn; rewrite ?indexed_snoc, ?count_of_snoc, ?app_nil_r, ?Z.add_0_r; try done.
  split; [|done]. exists w'. split; [done|]. eapply raw_rep_adds; try done. by rewrite item_bytes_record.
Qed.

(** ** A record, in a chunk or not *)

Inductive puts : bool → record → astate → astate → Prop :=
| puts_chunk l open r : puts true r (mkState l open) (mkState l (Some (default [] open ++ [r])))
| puts_raw r a l : closes a l → puts false r a (mkState (l ++ [IRecord r]) None).

Lemma index_frames_nonneg idx : (0 ≤ zlen (index_frames idx))%Z.
Proof. apply zlen_nonneg. Qed.

Lemma fits_empty l r : fits (mkState l (Some [r])) → fits (mkState l (Some [])).
Proof.
  intros [Hs Hd Hi]. unfold state_size, open_size in *. cbn [a_items a_open] in *.
  pose proof (enc_bound_mono 0 (zlen (records_data [r])) (zlen_nonneg _)).
  pose proof (zlen_nonneg (index_frames (open_indexes [r]))).
  assert (open_indexes [] = []) as Hnil by (unfold chunk_indexes_of; by destruct (wo_emit_message_indexes o)).
  split; unfold state_size, open_size; cbn [a_items a_open].
  - rewrite Hnil. change (zlen (index_frames [])) with 0%Z. change (zlen (records_data [])) with 0%Z. lia.
  - done.
  - by rewrite Hnil.
Qed.

Lemma opened_puts a r : puts true r a (mkState (a_items a) (Some (default [] (a_open a) ++ [r]))).
Proof. destruct a. constructor. Qed.

(** The chunk is open. *)
Lemma start_chunk_fits a s r : wrep a s → fits (mkState (a_items a) (Some (default [] (a_open a) ++ [r]))) → fits (opened a).
Proof. intros Hs Hf. destruct a as [l [rs|]]; [apply Hs|]. exact (fits_empty _ _ Hf). Qed.

Lemma on_chunk_spec a s r (m : method (ChunkWriter W) McapError ()) : wrep (opened a) s →
  fits (mkState (a_items a) (Some (default [] (a_open a) ++ [r]))) →
  (∀ h rs c, roomy (compression := compression) (contents o (a_items a)) (zlen (records_data (rs ++ [r]))) →
     cw_rep (compression := compression) (level := wo_compression_level o) (threads := wo_compression_threads o)
       (file := file) (contents o (a_items a)) buffered (wo_calculate_chunk_crcs o) (wo_emit_message_indexes o) h rs c →
     ∃ c', m c = (Ok (), c') ∧
       cw_rep (compression := compression) (level := wo_compression_level o) (threads := wo_compression_threads o)
         (file := file) (contents o (a_items a)) buffered (wo_calculate_chunk_crcs o) (wo_emit_message_indexes o) h (rs ++ [r]) c') →
  ∃ s', on_chunk m s = (Ok (), s') ∧ wrep (mkState (a_items a) (Some (default [] (a_open a) ++ [r]))) s' ∧ ids s' = ids s.
Proof.
  intros Hs Hf Hm.
  assert (opened a = mkState (a_items a) (Some (default [] (a_open a)))) as Ho by by destruct a as [l [rs|]].
  rewrite Ho in Hs. destruct Hs as [Hop Hl (Hu & c & Hw & Hc) Hci Ha Hac Hmd Hmc _]. cbn [a_items a_open] in *.
  destruct (Hm _ _ c (roomy_open _ _ Hf) Hc) as (c' & E & Hc'). unfold on_chunk. rewrite Hw, E.
  eexists. split_and!; [done| |done]. split; try done. split; [done|]. by exists c'.
Qed.

Lemma put_record_spec in_chunk a r s : wrep a s → (in_chunk = true → wo_use_chunks o = true ∧ record_opcode r ≠ op.MESSAGE) →
  record_wf r = true → writable r = true → (∀ m, r ≠ RMetadata m) → (∀ a', puts in_chunk r a a' → fits a') →
  ∃ s' a', put_record in_chunk r s = (Ok (), s') ∧ puts in_chunk r a a' ∧ wrep a' s' ∧ ids s' = ids s.
Proof.
  intros Hs Hin Hw Hwr Hmd Hf. unfold put_record. destruct in_chunk.
  - destruct (Hin eq_refl) as [Hu Hop]. pose proof (Hf _ (opened_puts a r)) as Hf'.
    destruct (start_chunk_spec a s Hs Hu (start_chunk_fits _ _ _ Hs Hf')) as (s1 & E1 & Hs1 & Hi1).
    rewrite (bind_method_Ok _ _ _ _ _ E1).
    destruct (on_chunk_spec a s1 r (cw_write_record r) Hs1 Hf') as (s2 & E2 & Hs2 & Hi2).
    { intros h rs c Hroom Hc. by eapply cw_write_record_spec. }
    eexists _, _. split_and!; [exact E2|apply opened_puts|done|by rewrite Hi2].
  - destruct (finish_chunk_spec a s Hs) as (s1 & l & E1 & Hcl & Hs1 & Hi1). rewrite (bind_method_Ok _ _ _ _ _ E1).
    destruct (raw_write_spec l r s1 Hs1 Hw Hwr Hmd) as (s2 & E2 & Hs2 & Hi2); [by apply Hf; constructor|].
    eexists _, _. split_and!; [exact E2|by constructor|done|by rewrite Hi2].
Qed.

Lemma put_message_spec a m data s : wrep a s → wo_use_chunks o = true → record_wf (RMessage m data) = true →
  fits (mkState (a_items a) (Some (default [] (a_open a) ++ [RMessage m data]))) →
  ∃ s', (_ ← start_chunk; on_chunk (cw_write_message m data)) s = (Ok (), s') ∧
    wrep (mkState (a_items a) (Some (default [] (a_open a) ++ [RMessage m data]))) s' ∧ ids s' = ids s.
Proof.
  intros Hs Hu Hw Hf. destruct (start_chunk_spec a s Hs Hu (start_chunk_fits _ _ _ Hs Hf)) as (s1 & E1 & Hs1 & Hi1).
  rewrite (bind_method_Ok _ _ _ _ _ E1).
  destruct (on_chunk_spec a s1 (RMessage m data) (cw_write_message m data) Hs1 Hf) as (s2 & E2 & Hs2 & Hi2).
  { intros h rs c Hroom Hc. by eapply cw_write_message_spec. }
  exists s2. split_and!; [exact E2|done|by rewrite Hi2].
Qed.

(** *** Attachments and metadata *)

Lemma raw_item_step l i s w' mode : wrep (mkState l None) s → (∀ rs z, i ≠ IChunk rs z) →
  wr_writer s = Some (Raw mode) → raw_rep (l ++ [i]) w' → fits (mkState (l ++ [i]) None) →
  wrep (mkState (l ++ [i]) None)
    (set_writer (Some (Raw w')) (set_attachments (wr_attachment_count s + if is_attachment i then 1 else 0)
       (wr_attachment_indexes s ++
        (if wo_emit_attachment_indexes o then option_list (item_attachment_index o (contents o l) i) else []))
       (set_metadatas (wr_metadata_count s + if is_metadata i then 1 else 0)
          (wr_metadata_indexes s ++
           (if wo_emit_metadata_indexes o then option_list (item_metadata_index (contents o l) i) else [])) s))).
Proof.
  intros [Ho Hl Hm Hc Ha Hac Hmd Hmc Hf] Hi Hw Hr Hf'. cbn [a_items a_open] in *.
  split; try done; cbn; rewrite ?indexed_snoc, ?count_of_snoc.
  - split; [|apply Hm]. by exists w'.
  - rewrite Hc. destruct i; try by rewrite app_nil_r. by destruct (Hi rs z).
  - rewrite Ha. by destruct (wo_emit_attachment_indexes o).
  - by rewrite Hac.
  - rewrite Hmd. by destruct (wo_emit_metadata_indexes o).
  - by rewrite Hmc.
Qed.

(** What the hasher of the data section has covered since it was wrapped around [base]. *)
Definition hash_from (base : bytes) (h : option hasher) (l : list item) : Prop :=
  ∃ d, contents o l = base ++ d ∧ data_hash o l = (λ h, hasher_update h d) <$> h.

Lemma raw_rep_hash l w : raw_rep l w ↔
  ∃ base h, ccw_rep (over file []) base h w (contents o l) ∧ hash_from base h l.
Proof.
  split; intros (base & h & Hr & Hh); exists base, h; (split; [done|]).
  - destruct Hr as (d & Hd & _ & _ & Hw). exists d. by rewrite <-Hh.
  - destruct Hh as (d & Hd & ->), Hr as (d' & Hd' & _ & _ & ->). rewrite Hd in Hd'. by apply (inj (app _)) in Hd' as <-.
Qed.

(** A writer with an attachment of [len] bytes begun, [data] of it given. *)
Record att_rep (l : list item) (header : AttachmentHeader) (len : Z) (data : bytes) (s : writer) : Prop := {
  att_writer : ∃ a base h, wr_writer s = Some (Attaching a) ∧ hash_from base h l ∧
    aw_rep (rep := ccw_rep (over file []) base h) (contents o l) header len (wo_calculate_attachment_crcs o) data a;
  att_begun : ∃ w, wrep (mkState l None) (set_writer (Some (Raw w)) s);
  att_header : c_wf AttachmentHeader_codec header = true;
  att_len : (zlen data ≤ len)%Z;
  att_room : (zlen (attachment_start (contents o l) header len) + attachment_body_len header len ≤ u64_max)%Z;
}.

Lemma start_attachment_spec a s header len : wrep a s → c_wf AttachmentHeader_codec header = true → (0 ≤ len)%Z →
  (∀ l, closes a l → (zlen (attachment_start (contents o l) header len) + attachment_body_len header len ≤ u64_max)%Z) →
  ∃ s' l, start_attachment len header s = (Ok (), s') ∧ closes a l ∧ att_rep l header len [] s' ∧ ids s' = ids s.
Proof.
  intros Hs Hh Hl Hroom. unfold start_attachment. destruct (finish_chunk_spec a s Hs) as (s1 & l & E1 & Hcl & Hs1 & Hi1).
  rewrite (bind_method_Ok _ _ _ _ _ E1). specialize (Hroom l Hcl).
  pose proof (wrep_mode _ _ Hs1) as ((w & Hw & (base & h & Hr & Hhash)%raw_rep_hash) & Hb). cbn [a_items] in *.
  unfold begin_attachment. rewrite Hw, (wrep_options _ _ Hs1).
  destruct (AttachmentWriter_new_spec (rep := ccw_rep (over file []) base h) (cap := u64_max) (contents o l) header len
    (wo_calculate_attachment_crcs o) Hh Hl Hroom w Hr) as (aw & E & Haw).
  rewrite E. eexists _, l. split_and!; [done|done| |done]. split; try done.
  - exists aw, base, h. by split_and!.
  - exists w. destruct Hs1 as [????????]. split; try done. split; [|done]. exists w. split; [done|]. apply raw_rep_hash. by exists base, h.
Qed.

Lemma put_attachment_spec l header len data b s : att_rep l header len data s →
  if (len <? zlen data + zlen b)%Z
  then put_attachment_bytes b s = (Err (AttachmentTooLarge (zlen b - (len - zlen data)) len), s)
  else ∃ s', put_attachment_bytes b s = (Ok (), s') ∧ att_rep l header len (data ++ b) s' ∧ ids s' = ids s.
Proof.
  intros [(a & base & h & Hw & Hh & Ha) (w & Hs) Hhd Hl Hroom]. unfold put_attachment_bytes. rewrite Hw.
  pose proof (put_bytes_spec (cap := u64_max) (contents o l) header len (wo_calculate_attachment_crcs o) Hroom data b a Ha Hl) as Hp.
  destruct (Z.ltb_spec len (zlen data + zlen b)).
  - rewrite Hp. by destruct s; cbn in *; rewrite Hw.
  - destruct Hp as (a' & E & Ha'). rewrite E. eexists. split_and!; [done| |done]. split; try done.
    + exists a', base, h. by split_and!.
    + by exists w.
    + zlia.
Qed.

Lemma finish_attachment_spec l header len data s : att_rep l header len data s →
  fits (mkState (l ++ [IAttachment header data]) None) → (wr_attachment_count s < u32_max)%Z →
  if (len =? zlen data)%Z
  then ∃ s', finish_attachment s = (Ok (), s') ∧ wrep (mkState (l ++ [IAttachment header data]) None) s' ∧ ids s' = ids s
  else finish_attachment s = (Err (AttachmentIncomplete (zlen data) len), set_writer None s).
Proof.
  intros [(a & base & h & Hw & Hh & Ha) (w & Hs) Hhd Hl Hroom] Hf Hc. unfold finish_attachment. rewrite Hw.
  pose proof (AttachmentWriter_finish_spec (cap := u64_max) (contents o l) header len (wo_calculate_attachment_crcs o) Hroom data a Ha) as Hp.
  destruct (Z.eqb_spec len (zlen data)) as [->|Hne]; [|by rewrite Hp].
  destruct Hp as (w' & E & Hr). rewrite E, add_Ok by lia.
  pose proof (wrep_options _ _ Hs) as Ho. cbn in Ho. rewrite Ho. eexists. split_and!; [done| |done].
  change (record_frame _) with (record_frame (attachment_record o header data)) in Hr.
  assert (raw_rep (l ++ [IAttachment header data]) w') as Hraw.
  { apply raw_rep_hash. exists base, h. rewrite contents_snoc. split; [by rewrite item_bytes_attachment|].
    destruct Hh as (d & Hd & Hh). eexists. split; [by rewrite contents_snoc, Hd, <-app_assoc|].
    rewrite data_hash_snoc, Hh by done. rewrite item_hashed_all by by right. destruct h; cbn; [|done]. by rewrite hasher_update_app. }
  pose proof (raw_item_step l (IAttachment header data) _ w' w Hs ltac:(done) eq_refl Hraw Hf) as Hstep.
  cbn in Hstep. rewrite Z.add_0_r in Hstep.
  destruct (wo_emit_attachment_indexes o), (wo_emit_metadata_indexes o); rewrite ?app_nil_r in Hstep; exact Hstep.
Qed.

Lemma attachment_size l header data :
  zlen (contents o (l ++ [IAttachment header data])) =
  (zlen (attachment_start (contents o l) header (zlen data)) + attachment_body_len header (zlen data))%Z.
Proof.
  rewrite contents_snoc, item_bytes_attachment. unfold attachment_start, attachment_body_len, attachment_prefix, record_frame, frame.
  cbn [record_opcode record_body attachment_record]. zlia.
Qed.

Definition attachment_of (header : AttachmentHeader) (data : bytes) : Attachment :=
  mkAttachment (ah_log_time header) (ah_create_time header) (ah_name header) (ah_media_type header) data.

(** [attach], up to the last call: the data is in place. *)
Lemma attach_prepare a s header data : wrep a s → c_wf AttachmentHeader_codec header = true →
  (∀ l, closes a l → fits (mkState (l ++ [IAttachment header data]) None)) →
  ∃ s' l, attach (attachment_of header data) s = finish_attachment s' ∧ closes a l ∧
    att_rep l header (zlen data) data s' ∧ wr_attachment_count s' = wr_attachment_count s ∧ ids s' = ids s.
Proof.
  intros Hs Hh Hf. destruct header as [lt ct nm mt] eqn:Hheader. rewrite <-Hheader in *. unfold attach, attachment_of.
  cbn [attachment_log_time attachment_create_time attachment_name attachment_media_type attachment_data].
  replace (mkAttachmentHeader _ _ _ _) with header by (by rewrite Hheader).
  destruct (start_attachment_spec a s header (zlen data) Hs Hh (zlen_nonneg _)) as (s1 & l & E1 & Hcl & Hs1 & Hi1).
  { intros l Hcl. rewrite <-attachment_size. pose proof (fits_size _ (Hf l Hcl)) as Hsz.
    unfold state_size in Hsz. cbn [a_items a_open] in Hsz. lia. }
  rewrite (bind_method_Ok _ _ _ _ _ E1).
  pose proof (put_attachment_spec l header (zlen data) [] data s1 Hs1) as Hp.
  rewrite (proj2 (Z.ltb_ge _ _)) in Hp by zlia. destruct Hp as (s2 & E2 & Hs2 & Hi2).
  rewrite (bind_method_Ok _ _ _ _ _ E2). cbn [app] in Hs2. exists s2, l. split_and!; [done..| |by rewrite Hi2].
  destruct (att_begun _ _ _ _ _ Hs2) as (w2 & Hw2). pose proof (wrep_attachment_count _ _ Hw2) as Hc2.
  cbn in Hc2. rewrite Hc2, (wrep_attachment_count _ _ Hs). destruct Hcl; cbn [a_items]; [done|]. by rewrite count_of_snoc, Z.add_0_r.
Qed.

Lemma attach_spec a s header data : wrep a s → c_wf AttachmentHeader_codec header = true →
  (∀ l, closes a l → fits (mkState (l ++ [IAttachment header data]) None)) →
  if (wr_attachment_count s <? u32_max)%Z
  then ∃ s' l, attach (attachment_of header data) s = (Ok (), s') ∧ closes a l ∧
    wrep (mkState (l ++ [IAttachment header data]) None) s' ∧ ids s' = ids s
  else (attach (attachment_of header data) s).1 = Panic.
Proof.
  intros Hs Hh Hf. destruct (attach_prepare a s header data Hs Hh Hf) as (s2 & l & -> & Hcl & Hs2 & Hc2 & Hi2).
  rewrite <-Hc2. destruct (Z.ltb_spec (wr_attachment_count s2) u32_max) as [Hlt|Hge].
  - pose proof (finish_attachment_spec l header (zlen data) data s2 Hs2 (Hf l Hcl) Hlt) as Hfin.
    rewrite Z.eqb_refl in Hfin. destruct Hfin as (s3 & E3 & Hs3 & Hi3).
    exists s3, l. split_and!; [exact E3|done|done|]. by rewrite Hi3, Hi2.
  - destruct Hs2 as [(aw & base & h & Hw & Hh2 & Ha) _ _ _ Hroom]. unfold finish_attachment. rewrite Hw.
    pose proof (AttachmentWriter_finish_spec (cap := u64_max) (contents o l) header (zlen data) (wo_calculate_attachment_crcs o) Hroom data aw Ha) as Hp.
    rewrite Z.eqb_refl in Hp. destruct Hp as (w' & E & _). rewrite E. unfold add_. by rewrite (proj2 (Z.leb_gt _ _)) by lia.
Qed.

Lemma on_raw_Ok {A} (m : method (CountingCrcWriter W) McapError A) s w x w' : wr_writer s = Some (Raw w) →
  m w = (Ok x, w') → on_raw m s = (Ok x, set_writer (Some (Raw w')) s).
Proof. intros Hw E. unfold on_raw. by rewrite Hw, E. Qed.
Lemma on_raw_again {A} (m : method (CountingCrcWriter W) McapError A) s w x w' : m w = (Ok x, w') →
  on_raw m (set_writer (Some (Raw w)) s) = (Ok x, set_writer (Some (Raw w')) s).
Proof. intros E. by rewrite (on_raw_Ok m _ w x w'). Qed.
Lemma mcap_tell (w : CountingCrcWriter W) base h c : ccw_rep (over file []) base h w c →
  ∃ w', mcap_io stream_position w = (Ok (zlen c), w') ∧ ccw_rep (over file []) base h w' c.
Proof. intros Hw. destruct (tell_ok _ _ Hw) as (w' & E & Hw'). exists w'. split; [by apply mcap_io_Ok|done]. Qed.

Lemma write_metadata_spec a s m : wrep a s → record_wf (RMetadata m) = true →
  (∀ l, closes a l → fits (mkState (l ++ [IMetadata m]) None)) →
  if (wr_metadata_count s <? u32_max)%Z
  then ∃ s' l, write_metadata m s = (Ok (), s') ∧ closes a l ∧ wrep (mkState (l ++ [IMetadata m]) None) s' ∧ ids s' = ids s
  else (write_metadata m s).1 = Panic.
Proof.
  intros Hs Hm Hf. unfold write_metadata. destruct (finish_chunk_spec a s Hs) as (s1 & l & E1 & Hcl & Hs1 & Hi1).
  rewrite (bind_method_Ok _ _ _ _ _ E1). specialize (Hf l Hcl).
  pose proof (wrep_mode _ _ Hs1) as ((w & Hw & (base & h & Hr & Hh)%raw_rep_hash) & Hb). cbn [a_items] in *.
  destruct (mcap_tell w _ _ _ Hr) as (w1 & E2 & Hr1). rewrite (bind_method_Ok _ _ _ _ _ (on_raw_Ok _ _ _ _ _ Hw E2)).
  pose proof (fits_size _ Hf) as Hsz. unfold state_size in Hsz. cbn [a_items a_open] in Hsz.
  rewrite contents_snoc, item_bytes_metadata, Z.add_0_r in Hsz.
  destruct (sinks_record _ u64_max (RMetadata m) Hm eq_refl _ _ Hr1 Hsz) as (w2 & E3 & Hr2).
  rewrite (bind_method_Ok _ _ _ _ _ (on_raw_again _ _ _ _ _ (mcap_io_Ok _ _ _ _ E3))).
  destruct (mcap_tell w2 _ _ _ Hr2) as (w3 & E4 & Hr3). rewrite (bind_method_Ok _ _ _ _ _ (on_raw_again _ _ _ _ _ E4)).
  rewrite (bind_method_Ok _ _ _ (zlen (record_frame (RMetadata m))) (set_writer (Some (Raw w3)) s1))
    by (unfold lift; rewrite sub_Ok by zlia; f_equal; f_equal; zlia).
  rewrite (bind_method_Ok _ _ _ _ _ (eq_refl : get (E:=McapError) _ = (Ok _, _))). cbn [wr_metadata_count set_writer].
  assert (wr_metadata_count s1 = wr_metadata_count s) as Hcount.
  { rewrite (wrep_metadata_count _ _ Hs1), (wrep_metadata_count _ _ Hs). destruct Hcl; cbn [a_items]; [done|].
    by rewrite count_of_snoc, Z.add_0_r. }
  rewrite <-Hcount. destruct (Z.ltb_spec (wr_metadata_count s1) u32_max) as [Hc|Hc]; last first.
  { unfold add_. by rewrite (proj2 (Z.leb_gt _ _)) by lia. }
  rewrite (bind_method_Ok _ _ _ (wr_metadata_count s1 + 1)%Z (set_writer (Some (Raw w3)) s1))
    by (unfold lift; by rewrite add_Ok by lia).
  eexists _, l. split_and!; [done|done| |exact Hi1].
  assert (raw_rep (l ++ [IMetadata m]) w3) as Hraw.
  { apply raw_rep_hash. exists base, h. rewrite contents_snoc. split; [by rewrite item_bytes_metadata|].
    destruct Hh as (d & Hd & Hh). eexists. split; [by rewrite contents_snoc, Hd, <-app_assoc|].
    rewrite data_hash_snoc, Hh by done. rewrite item_hashed_all by by right. destruct h; cbn; [|done]. by rewrite hasher_update_app. }
  pose proof (raw_item_step l (IMetadata m) _ w3 w Hs1 ltac:(done) Hw Hraw Hf) as Hstep. cbn in Hstep. rewrite Z.add_0_r in Hstep.
  pose proof (wrep_options _ _ Hs1) as Ho. cbn [wr_options set_writer]. rewrite Ho. unfold item_metadata_index in Hstep.
  destruct (wo_emit_attachment_indexes o), (wo_emit_metadata_indexes o); rewrite ?app_nil_r in Hstep; exact Hstep.
Qed.

Lemma flush_spec a s : wrep a s →
  ∃ s' l, wr_flush s = (Ok (), s') ∧ closes a l ∧ wrep (mkState l None) s' ∧ ids s' = ids s.
Proof.
  intros Hs. unfold wr_flush. destruct (finish_chunk_spec a s Hs) as (s1 & l & E1 & Hcl & Hs1 & Hi1).
  rewrite (bind_method_Ok _ _ _ _ _ E1).
  pose proof (wrep_mode _ _ Hs1) as ((w & Hw & (base & h & Hr & Hh)%raw_rep_hash) & Hb). cbn [a_items] in *.
  destruct (flush_ok _ _ Hr) as (w' & E & Hr'). rewrite (on_raw_Ok _ _ _ _ _ Hw (mcap_io_Ok _ _ _ _ E)).
  eexists _, l. split_and!; [done|done| |exact Hi1]. destruct Hs1 as [????????]. split; try done.
  split; [|done]. exists w'. split; [done|]. apply raw_rep_hash. by exists base, h.
Qed.
End writer.
