(* ===== verification/WriterSpec.v ===== *)
(** The abstract specification of the writer and that the writer refines it: to a client
    it is an append-only log of records with a registry of schemas and a registry of
    channels. Chunks, compression, indexes and checksums do not show. *)

From S2P Require Import Prelude Utf8 BTree Errors Bin Records Crc Io Codec Channels Summary ChunkWriter ChunkWriterTheory Writer WriterTheory.

(** ** Registries *)

(** What holds of the contents known, the identifiers in use and the next one to try:
    the schemas of a writer, and its channels. *)
Section registry.
Context {C : Type} `{EqDecision C, !BiMap C Z, !BiMapOk C Z}.

Record reg_ok (known : bimap C Z) (all : list (Z * Z)) (next : Z) : Prop := {
  reg_sorted : bt_sorted all = true;
  reg_canonical id k : bt_get id all = Some k → is_Some (bm_get_by_right k known);
  reg_known c id : bm_get_by_left c known = Some id → bt_get id all = Some id;
  reg_range id k : bt_get id all = Some k → (0 ≤ id ≤ u16_max)%Z;
  reg_next : (0 ≤ next ≤ u16_max)%Z;
}.

Lemma reg_empty : reg_ok bm_empty [] 1.
Proof. split; try done. intros c id. by rewrite bm_empty_left. Qed.

Lemma reg_with_next known all next next' : reg_ok known all next → (0 ≤ next' ≤ u16_max)%Z → reg_ok known all next'.
Proof. intros []. by split. Qed.

Lemma bt_get_insert_case {V} (id id' : Z) (k : V) all : bt_sorted all = true →
  bt_get id' (bt_insert id k all) = if decide (id' = id) then Some k else bt_get id' all.
Proof.
  intros Hs. destruct (decide (id' = id)) as [->|Hne]; [apply bt_insert_get_eq|]. by apply bt_insert_get_ne.
Qed.

Lemma right_insert c id known known' id' : bm_insert_no_overwrite c id known = Some known' →
  is_Some (bm_get_by_right id' known) ∨ id' = id → is_Some (bm_get_by_right id' known').
Proof.
  intros Hi [[c' Hc']| ->].
  - exists c'. apply bm_sides. apply bm_sides in Hc'. rewrite (bm_insert_left _ _ _ _ _ Hi).
    destruct (decide (c' = c)) as [->|]; [|done]. exfalso.
    assert (bm_insert_no_overwrite c id known = None) as Hn by (apply bm_insert_fails; left; by exists id').
    congruence.
  - exists c. apply bm_sides. rewrite (bm_insert_left _ _ _ _ _ Hi). by rewrite decide_True.
Qed.

(** A content that is new gets an identifier that is free. *)
Lemma reg_register known all next c id next' : reg_ok known all next → bm_get_by_left c known = None →
  bt_get id all = None → (0 ≤ id ≤ u16_max)%Z → (0 ≤ next' ≤ u16_max)%Z →
  ∃ known', bm_insert_no_overwrite c id known = Some known' ∧ reg_ok known' (bt_insert id id all) next'.
Proof.
  intros [Hs Hcan Hk Hr Hn] Hc Hid Hrange Hnext'.
  destruct (bm_insert_no_overwrite c id known) as [known'|] eqn:E; last first.
  { apply bm_insert_fails in E as [[x Hx]|[c' Hc']]; [congruence|]. apply bm_sides, Hk in Hc'. congruence. }
  exists known'. split; [done|]. split; [by apply bt_insert_sorted|..|done].
  - intros id' k. rewrite bt_get_insert_case by done. destruct (decide _) as [->|].
    + intros [= <-]. eapply right_insert; [done|by right].
    + intros Hg. eapply right_insert; [done|left; by eapply Hcan].
  - intros c' id'. rewrite (bm_insert_left _ _ _ _ _ E), bt_get_insert_case by done. destruct (decide (c' = c)) as [->|].
    + intros [= <-]. by rewrite decide_True.
    + intros Hg%Hk. destruct (decide (id' = id)) as [->|]; [congruence|done].
  - intros id' k. rewrite bt_get_insert_case by done. destruct (decide _) as [->|]; [done|apply Hr].
Qed.

(** A content that is known may be given another identifier too. *)
Lemma reg_alias known all next c k id : reg_ok known all next → bm_get_by_left c known = Some k →
  bt_get id all = None → (0 ≤ id ≤ u16_max)%Z → reg_ok known (bt_insert id k all) next.
Proof.
  intros [Hs Hcan Hk Hr Hn] Hc Hid Hrange. split; [by apply bt_insert_sorted|..|done].
  - intros id' k'. rewrite bt_get_insert_case by done. destruct (decide _) as [->|]; [|apply Hcan].
    intros [= <-]. eapply Hcan. by eapply Hk.
  - intros c' id' Hg%Hk. rewrite bt_get_insert_case by done. destruct (decide (id' = id)) as [->|]; [congruence|done].
  - intros id' k'. rewrite bt_get_insert_case by done. destruct (decide _) as [->|]; [done|apply Hr].
Qed.
End registry.

(** The search for an identifier gives the first free one from where it starts. *)
Lemma next_free_spec fuel all next : (0 ≤ next ≤ u16_max)%Z → (u16_max - next ≤ Z.of_nat fuel)%Z →
  match next_free fuel all next with
  | (true, id) => (next ≤ id ≤ u16_max)%Z ∧ bt_get id all = None ∧
      ∀ j, (next ≤ j < id)%Z → bt_contains j all = true
  | (false, id) => id = u16_max ∧ ∀ j, (next ≤ j ≤ u16_max)%Z → bt_contains j all = true
  end.
Proof.
  revert next. induction fuel as [|fuel IH]; intros next Hn Hf; cbn [next_free];
    destruct (bt_contains next all) eqn:Hc; unfold bt_contains in Hc;
    try (destruct (bt_get next all) eqn:Hg; [done|]; split_and!; [lia|lia|done|]; intros; lia).
  - split; [lia|]. intros j Hj. replace j with next by lia. unfold bt_contains. by destruct (bt_get next all).
  - destruct (Z.eqb_spec next u16_max) as [->|Hne].
    + split; [done|]. intros j Hj. replace j with u16_max by lia. unfold bt_contains. by destruct (bt_get u16_max all).
    + specialize (IH (next + 1)%Z ltac:(lia) ltac:(lia)). destruct (next_free fuel all (next + 1)) as [[] id].
      * destruct IH as (Hr & Hg & Hj). split_and!; [lia|lia|done|]. intros j Hj'.
        destruct (decide (j = next)) as [->|]; [|apply Hj; lia]. unfold bt_contains. by destruct (bt_get next all).
      * destruct IH as (-> & Hj). split; [done|]. intros j Hj'.
        destruct (decide (j = next)) as [->|]; [|apply Hj; lia]. unfold bt_contains. by destruct (bt_get next all).
Qed.

(** ** The specification *)

Section spec.
Context `{!BiMap ChannelContent Z, !BiMap SchemaContent Z}.

(** The log, and the identifiers. *)
Record spec_state := mkSpec {
  sp_ids : id_state;
  sp_log : list record;
}.
Abbreviation spec := (method spec_state McapError).

Definition emit (r : record) : spec () := modify (λ st, mkSpec (sp_ids st) (sp_log st ++ [r])).

(** The registries, with a content added, and the counts. *)
Definition or_same {L R} `{BiMap L R} (l : L) (r : R) (m : bimap L R) : bimap L R :=
  default m (bm_insert_no_overwrite l r m).
Definition i_set_schemas (m : bimap SchemaContent Z) (all : list (Z * Z)) (next : Z) (i : id_state) : id_state :=
  mkIds (i_channels i) (i_channel_ids i) (i_next_channel i) m all next (i_bounds i) (i_counts i).
Definition i_set_channels (m : bimap ChannelContent Z) (all : list (Z * Z)) (next : Z) (i : id_state) : id_state :=
  mkIds m all next (i_schemas i) (i_schema_ids i) (i_next_schema i) (i_bounds i) (i_counts i).
Definition i_set_counts (b : option (Z * Z)) (c : list (Z * Z)) (i : id_state) : id_state :=
  mkIds (i_channels i) (i_channel_ids i) (i_next_channel i) (i_schemas i) (i_schema_ids i) (i_next_schema i) b c.
Definition on_ids (f : id_state → id_state) : spec () := modify (λ st, mkSpec (f (sp_ids st)) (sp_log st)).
Definition get_ids : spec id_state := gets sp_ids.

(** A schema is declared once; its identifier is the first free one. The identifier
    65535 can be given, but then the next one does not fit. *)
Definition spec_add_schema (name encoding : rstring) (data : bytes) : spec Z :=
  let content := mkSchemaContent name encoding data in
  i ← get_ids;
  match bm_get_by_left content (i_schemas i) with
  | Some id => mret id
  | None =>
      let '(free, id) := next_free (Z.to_nat u16_max) (i_schema_ids i) (i_next_schema i) in
      _ ← on_ids (i_set_schemas (i_schemas i) (i_schema_ids i) id);
      if negb free then mthrow TooManySchemas else
      if (id =? u16_max)%Z then lift Panic else
      _ ← on_ids (i_set_schemas (or_same content id (i_schemas i)) (bt_insert id id (i_schema_ids i)) (id + 1));
      _ ← emit (RSchema (mkSchemaHeader id name encoding) data);
      mret id
  end.

Definition spec_add_channel (schema_id : Z) (topic message_encoding : rstring)
    (metadata : list (rstring * rstring)) : spec Z :=
  let content := mkChannelContent topic schema_id message_encoding metadata in
  i ← get_ids;
  match bm_get_by_left content (i_channels i) with
  | Some id => mret id
  | None =>
      if negb (schema_id =? 0)%Z && negb (bt_contains schema_id (i_schema_ids i))
      then mthrow (UnknownSchema topic schema_id) else
      let '(free, id) := next_free (Z.to_nat u16_max) (i_channel_ids i) (i_next_channel i) in
      _ ← on_ids (i_set_channels (i_channels i) (i_channel_ids i) id);
      if negb free then mthrow TooManyChannels else
      if (id =? u16_max)%Z then lift Panic else
      _ ← on_ids (i_set_channels (or_same content id (i_channels i)) (bt_insert id id (i_channel_ids i)) (id + 1));
      _ ← emit (RChannel (mkChannelRecord id schema_id topic message_encoding metadata));
      mret id
  end.

(** A message on a channel that was declared. *)
Definition spec_write_to_known_channel (header : MessageHeader) (data : bytes) : spec () :=
  i ← get_ids;
  if negb (bt_contains (m_channel_id header) (i_channel_ids i))
  then mthrow (UnknownChannel (m_sequence header) (m_channel_id header)) else
  count ← lift (add_ u64_max (default 0%Z (bt_get (m_channel_id header) (i_counts i))) 1);
  _ ← on_ids (i_set_counts (extend_bounds (i_bounds i) (m_log_time header))
        (bt_insert (m_channel_id header) count (i_counts i)));
  emit (RMessage header data).

(** The schema of a message under the identifier it has: declared if the identifier is
    new; if the identifier is in use, for the same content, or that is an error - a panic
    if the content was never seen. *)
Definition spec_ensure_schema (schema : Schema) : spec () :=
  let content := mkSchemaContent (schema_name schema) (schema_encoding schema) (schema_data schema) in
  let id := schema_id schema in
  i ← get_ids;
  match bt_get id (i_schema_ids i), bm_get_by_left content (i_schemas i) with
  | Some _, None => lift Panic
  | Some other, Some k => if (other =? k)%Z then mret () else mthrow (ConflictingSchemas (schema_name schema))
  | None, k =>
      _ ← on_ids (i_set_schemas (or_same content id (i_schemas i)) (bt_insert id (default id k) (i_schema_ids i))
            (i_next_schema i));
      emit (RSchema (mkSchemaHeader id (schema_name schema) (schema_encoding schema)) (schema_data schema))
  end.
Definition spec_ensure_channel (channel : Channel) : spec () :=
  let content := mkChannelContent (channel_topic channel) (channel_schema_id channel)
                   (channel_message_encoding channel) (channel_metadata channel) in
  let id := channel_id channel in
  i ← get_ids;
  match bt_get id (i_channel_ids i), bm_get_by_left content (i_channels i) with
  | Some _, None => lift Panic
  | Some other, Some k => if (other =? k)%Z then mret () else mthrow (ConflictingChannels (channel_topic channel))
  | None, k =>
      _ ← on_ids (i_set_channels (or_same content id (i_channels i)) (bt_insert id (default id k) (i_channel_ids i))
            (i_next_channel i));
      emit (RChannel (mkChannelRecord id (channel_schema_id channel) (channel_topic channel)
        (channel_message_encoding channel) (channel_metadata channel)))
  end.
Definition spec_write (message : Message) : spec () :=
  let channel := message_channel message in
  _ ← match channel_schema channel with Some schema => spec_ensure_schema schema | None => mret () end;
  _ ← spec_ensure_channel channel;
  spec_write_to_known_channel
    (mkMessageHeader (channel_id channel) (message_sequence message) (message_log_time message)
       (message_publish_time message)) (message_data message).

Definition spec_write_private_record (opcode : Z) (data : bytes) : spec () :=
  if (opcode <? 128)%Z then mthrow (PrivateRecordOpcodeIsReserved opcode) else emit (RUnknown opcode data).

(** Attachments and metadata: there may be [u32_max] of each. *)
Definition logged (p : record → bool) (log : list record) : Z := zlen (List.filter p log).
Definition is_attachment_record (r : record) : bool := match r with RAttachment _ _ _ => true | _ => false end.
Definition is_metadata_record (r : record) : bool := match r with RMetadata _ => true | _ => false end.
Definition emit_counted (p : record → bool) (r : record) : spec () :=
  n ← gets (λ st, logged p (sp_log st));
  if (n <? u32_max)%Z then emit r else lift Panic.
Definition spec_attach `{Crc} (crc : bool) (a : Attachment) : spec () :=
  let header := mkAttachmentHeader (attachment_log_time a) (attachment_create_time a) (attachment_name a)
                  (attachment_media_type a) in
  emit_counted is_attachment_record
    (RAttachment header (attachment_data a)
       (if crc then crc32 (attachment_hashed header (attachment_data a)) else 0)).
Definition spec_write_metadata (m : Metadata) : spec () := emit_counted is_metadata_record (RMetadata m).
End spec.

(** ** Sizes *)

Definition is_message (r : record) : bool := match r with RMessage _ _ => true | _ => false end.
Definition messages_in (rs : list record) : Z := zlen (List.filter is_message rs).
Lemma messages_in_snoc rs r : messages_in (rs ++ [r]) = (messages_in rs + if is_message r then 1 else 0)%Z.
Proof. unfold messages_in. rewrite List.filter_app, zlen_app. cbn. by destruct (is_message r). Qed.

Lemma zlen_record_frame r : zlen (record_frame r) = (9 + zlen (record_body r))%Z.
Proof. unfold record_frame, frame. zlia. Qed.

Lemma messages_size rs : (31 * messages_in rs ≤ zlen (records_data rs))%Z.
Proof.
  induction rs as [|r rs IH] using rev_ind; [done|]. rewrite messages_in_snoc, records_data_snoc, zlen_app, zlen_record_frame.
  pose proof (zlen_nonneg (record_body r)). destruct r; cbn [is_message]; try lia.
  cbn [record_body] in *. rewrite zlen_app, MessageHeader_enc_len. unfold MessageHeader_serialized_len. zlen_facts. lia.
Qed.

(** The entries of some message indexes. *)
Definition entries_in (idx : list (Z * list MessageIndexEntry)) : Z := foldr (λ i n, (zlen i.2 + n)%Z) 0%Z idx.
Definition index_size (idx : list (Z * list MessageIndexEntry)) : Z := foldr (λ i n, (15 + 16 * zlen i.2 + n)%Z) 0%Z idx.

Lemma zlen_vec_body (es : list MessageIndexEntry) : zlen (vec_body MessageIndexEntry_codec es) = (16 * zlen es)%Z.
Proof.
  unfold vec_body. induction es as [|e es IH]; [done|]. change (mjoin (c_enc MessageIndexEntry_codec <$> e :: es))
    with ((le_enc 8 (mie_log_time e) ++ le_enc 8 (mie_offset e)) ++ mjoin (c_enc MessageIndexEntry_codec <$> es)).
  rewrite zlen_app, IH. zlia.
Qed.
Lemma zlen_index_frames idx : zlen (index_frames idx) = index_size idx.
Proof.
  induction idx as [|[c es] idx IH]; [done|]. rewrite index_frames_cons, zlen_app, IH. cbn [index_size foldr fst snd].
  change (frame _ _) with (frame op.MESSAGE_INDEX (le_enc 2 c ++ le_enc 4 (zlen (vec_body MessageIndexEntry_codec es)) ++ vec_body MessageIndexEntry_codec es)).
  unfold frame. pose proof (zlen_vec_body es). fold (index_size idx). zlia.
Qed.

Lemma push_index_size c e idx : (index_size (push_index c e idx) ≤ index_size idx + 31)%Z ∧
  entries_in (push_index c e idx) = (entries_in idx + 1)%Z.
Proof.
  unfold push_index. induction idx as [|[k es] idx IH]; [done|]. cbn [bt_get bt_insert].
  destruct (kltb c k) eqn:E1.
  { cbn [index_size entries_in foldr snd from_option id app]. fold (index_size idx) (entries_in idx). change (zlen [e]) with 1%Z. lia. }
  destruct (kltb k c) eqn:E2.
  - cbn [index_size entries_in foldr snd]. fold (index_size idx) (entries_in idx).
    fold (index_size (bt_insert c (default [] (bt_get c idx) ++ [e]) idx)) (entries_in (bt_insert c (default [] (bt_get c idx) ++ [e]) idx)).
    lia.
  - cbn [index_size entries_in foldr snd from_option id]. fold (index_size idx) (entries_in idx). rewrite zlen_app. change (zlen [e]) with 1%Z. lia.
Qed.
Lemma entries_of rs : entries_in (indexes_of rs) = messages_in rs.
Proof.
  induction rs as [|r rs IH] using rev_ind; [done|]. rewrite indexes_of_snoc, messages_in_snoc.
  destruct r; cbn [is_message]; rewrite ?Z.add_0_r; try done. by rewrite (proj2 (push_index_size _ _ _)), IH.
Qed.

(** The records of a chunk that can be written, and what their indexes are then. *)
Definition plain_record (r : record) : bool := match r with RMetadata _ | RDataEnd _ => false | _ => true end.
Definition record_ok `{Crc} (r : record) : bool := record_wf r && writable r && plain_record r.
Lemma push_index_forall (P : Z * list MessageIndexEntry → Prop) c e idx : Forall P idx →
  (∀ es, P (c, es) → P (c, es ++ [e])) → P (c, [e]) → Forall P (push_index c e idx).
Proof.
  intros Hf Hp He. unfold push_index. induction Hf as [|[k es] idx Hk Hf IH]; [by repeat constructor|]. cbn [bt_get bt_insert].
  destruct (kltb c k) eqn:E1; [by repeat constructor|]. destruct (kltb k c) eqn:E2; [by constructor|].
  assert (c = k) as <- by by apply kltb_total. cbn [from_option id]. constructor; [by apply Hp|done].
Qed.

Lemma indexes_of_wf `{Crc} rs : forallb record_ok rs = true → (zlen (records_data rs) ≤ u64_max)%Z →
  (16 * messages_in rs < 2 ^ 32)%Z → forallb index_wf (indexes_of rs) = true.
Proof.
  intros Hrs Hd Hm.
  cut (Forall (λ i : Z * list MessageIndexEntry, c_wf u16 i.1 = true ∧ forallb (c_wf MessageIndexEntry_codec) i.2 = true) (indexes_of rs)).
  - intros Hf. rewrite <-entries_of in Hm. clear Hrs Hd. induction Hf as [|[c es] idx [Hc He] _ IH]; [done|].
    cbn [entries_in foldr snd] in Hm. fold (entries_in idx) in Hm.
    assert (0 ≤ entries_in idx)%Z by (clear; induction idx as [|i idx IH]; cbn; [done|]; zlen_facts; fold (entries_in idx) in *; lia).
    cbn [forallb]. apply andb_true_iff. zlen_facts. split; [|apply IH; lia].
    change (c_wf u16 c && vec_wf MessageIndexEntry_codec es = true). cbn [fst snd] in *. rewrite Hc. cbn.
    unfold vec_wf. rewrite He. cbn. apply Z.ltb_lt. rewrite zlen_vec_body. lia.
  - clear Hm. induction rs as [|r rs IH] using rev_ind; [constructor|]. rewrite forallb_app in Hrs. apply andb_true_iff in Hrs as [Hrs Hr].
    rewrite records_data_snoc, zlen_app in Hd. zlen_facts. specialize (IH Hrs ltac:(lia)).
    rewrite indexes_of_snoc. destruct r as [| | | |h data| | | | | | | | | | |]; try done.
    cbn in Hr. rewrite andb_true_r in Hr. unfold record_ok in Hr. cbn [writable plain_record] in Hr. rewrite !andb_true_r in Hr. split_wf.
    destruct h as [ch sq lt pt]. cbn [m_channel_id m_log_time] in *.
    repeat match goal with H : c_wf MessageHeader_codec _ = true |- _ => change (c_wf u16 ch && c_wf u32 sq && c_wf u64 lt && c_wf u64 pt = true) in H end.
    split_wf. apply push_index_forall; [done|..].
    + cbn [fst snd]. intros es [? He]. split; [done|]. rewrite forallb_app, He. cbn [forallb]. rewrite andb_true_r.
      change (c_wf u64 lt && c_wf u64 (zlen (records_data rs)) = true). apply andb_true_iff. split; [done|].
      cbn. apply uint_wf_in. unfold in_u, u64_max in *. cbn. lia.
    + cbn [fst snd]. split; [done|]. cbn [forallb]. rewrite andb_true_r.
      change (c_wf u64 lt && c_wf u64 (zlen (records_data rs)) = true). apply andb_true_iff. split; [done|].
      cbn. apply uint_wf_in. unfold in_u, u64_max in *. cbn. lia.
Qed.

(** ** The refinement *)

Section refinement.
Context `{Crc, !CrcLaws, ZstdEncoderLib, Lz4EncoderLib} `{FileOk W file}.
Context `{!BiMap ChannelContent Z, !BiMap SchemaContent Z, !BiMapOk ChannelContent Z, !BiMapOk SchemaContent Z}.
Context (o : WriteOptions).
Abbreviation compression := (wo_compression o).
Context `{!EncoderOk compression (wo_compression_level o) (wo_compression_threads o)}.
Abbreviation writer := (Writer (W := W)).
Abbreviation dummy := (dummy_start (compression := compression)).
Abbreviation state_size := (state_size o).
Abbreviation closes := (closes o).
Abbreviation puts := (puts o).

(** A message index has at most 2^32 bytes of entries: chunks must not grow without
    limit if message indexes are wanted. *)
Definition chunks_bounded : Prop :=
  wo_use_chunks o = true → wo_emit_message_indexes o = true → ∃ t, wo_chunk_size o = Some t ∧ (t ≤ 2 ^ 32)%Z.
Definition few (rs : list record) : Prop := wo_emit_message_indexes o = true → (16 * messages_in rs < 2 ^ 32)%Z.

(** The records of a state, in the order they were written, chunked or not. *)
Definition item_log (i : item) : list record :=
  match i with
  | IRecord r => [r]
  | IAttachment header data => [attachment_record o header data]
  | IMetadata m => [RMetadata m]
  | IChunk rs _ => rs
  end.
Definition log (a : astate) : list record := concat (item_log <$> a_items a) ++ default [] (a_open a).

Definition item_ok (i : item) : Prop :=
  match i with
  | IRecord r => record_ok r = true ∧ record_opcode r ≠ op.CHUNK ∧ (wo_use_chunks o = true → is_message r = false)
  | IAttachment header data => record_wf (attachment_record o header data) = true
  | IMetadata m => record_wf (RMetadata m) = true
  | IChunk rs z => wo_use_chunks o = true ∧ forallb record_ok rs = true ∧ few rs ∧
      encodes (records_data rs) z ∧ (zlen z ≤ enc_bound (zlen (records_data rs)))%Z
  end.
Record astate_ok (a : astate) : Prop := {
  items_ok : Forall item_ok (a_items a);
  open_ok : match a_open a with
            | Some rs => wo_use_chunks o = true ∧ forallb record_ok rs = true ∧ few rs
            | None => True
            end;
}.

(** What a record can add to the size of a state. *)
Definition record_cost (r : record) : Z :=
  (zlen dummy + enc_bound 0 + enc_bound (zlen (record_frame r)) + zlen (record_frame r) + 31)%Z.

Lemma record_cost_frame r : (zlen (record_frame r) ≤ record_cost r)%Z.
Proof. unfold record_cost. pose proof (enc_bound_ge (zlen (record_frame r))). pose proof (enc_bound_ge 0). zlen_facts. lia. Qed.

Lemma open_size_data rs : (zlen (records_data rs) ≤ open_size o rs)%Z.
Proof. unfold open_size. pose proof (enc_bound_ge (zlen (records_data rs))). zlen_facts. lia. Qed.

Lemma fits_of a : astate_ok a → (state_size a ≤ u64_max)%Z → fits o a.
Proof.
  intros [_ Ho] Hs. split; [done|..]; destruct (a_open a) as [rs|] eqn:E; try done; unfold WriterTheory.state_size in Hs; rewrite E in Hs;
    pose proof (open_size_data rs); pose proof (zlen_nonneg (contents o (a_items a))); [lia|].
  destruct Ho as (Hu & Hrs & Hfew). unfold chunk_indexes_of. destruct (wo_emit_message_indexes o) eqn:Ei; [|done].
  apply indexes_of_wf; [done|lia|by apply Hfew].
Qed.

Lemma log_snoc l i : log (mkState (l ++ [i]) None) = log (mkState l None) ++ item_log i.
Proof. unfold log. cbn [a_items a_open default from_option]. rewrite fmap_app, concat_app. cbn. by rewrite !app_nil_r. Qed.

Lemma closes_ok a l : astate_ok a → closes a l →
  astate_ok (mkState l None) ∧ (state_size (mkState l None) ≤ state_size a)%Z ∧ log (mkState l None) = log a.
Proof.
  intros [Hi Ho] Hc. destruct Hc as [l|l rs z Hz Hzl]; cbn [a_items a_open] in *.
  - split_and!; [by split|lia|done].
  - destruct Ho as (Hu & Hrs & Hfew). split_and!.
    + split; [|done]. cbn [a_items]. apply Forall_app. split; [done|]. repeat constructor; done.
    + unfold WriterTheory.state_size. cbn [a_items a_open]. rewrite contents_snoc, zlen_app, zlen_item_chunk. unfold open_size. lia.
    + rewrite log_snoc. unfold log. cbn [a_items a_open item_log]. by rewrite app_nil_r.
Qed.

Lemma open_size_snoc rs r : (open_size o (rs ++ [r]) ≤ open_size o rs + enc_bound (zlen (record_frame r)) + 31)%Z.
Proof.
  unfold open_size. rewrite records_data_snoc, zlen_app.
  pose proof (enc_bound_add (zlen (records_data rs)) (zlen (record_frame r)) (zlen_nonneg _) (zlen_nonneg _)).
  cut (zlen (index_frames (chunk_indexes_of (wo_emit_message_indexes o) (rs ++ [r]))) ≤
    zlen (index_frames (chunk_indexes_of (wo_emit_message_indexes o) rs)) + 31)%Z; [lia|].
  unfold chunk_indexes_of. destruct (wo_emit_message_indexes o); [|cbn; lia]. rewrite indexes_of_snoc, !zlen_index_frames.
  destruct r; try lia. apply push_index_size.
Qed.
Lemma open_size_nil : (open_size o [] ≤ zlen dummy + enc_bound 0)%Z.
Proof.
  unfold open_size. assert (chunk_indexes_of (wo_emit_message_indexes o) [] = []) as ->
    by (unfold chunk_indexes_of; by destruct (wo_emit_message_indexes o)).
  change (zlen (index_frames [])) with 0%Z. change (zlen (records_data [])) with 0%Z. lia.
Qed.

Lemma chunk_put_ok l open r : astate_ok (mkState l open) → wo_use_chunks o = true → record_ok r = true →
  few (default [] open ++ [r]) →
  let a' := mkState l (Some (default [] open ++ [r])) in
  astate_ok a' ∧ (state_size a' ≤ state_size (mkState l open) + record_cost r)%Z ∧ log a' = log (mkState l open) ++ [r].
Proof.
  intros [Hi Ho] Hu Hr Hfew a'. split_and!.
  - split; [done|]. cbn [a_open a']. split_and!; [done| |done]. rewrite forallb_app. cbn [forallb]. rewrite Hr, !andb_true_r.
    destruct open as [rs|]; [|done]. by destruct Ho as (_ & ? & _).
  - subst a'. unfold WriterTheory.state_size. cbn [a_items a_open]. unfold record_cost.
    pose proof (open_size_snoc (default [] open) r) as Hs. pose proof (zlen_nonneg (record_frame r)).
    pose proof (zlen_nonneg dummy). pose proof open_size_nil. pose proof (enc_bound_ge 0).
    destruct open as [rs|]; cbn [from_option id] in *; lia.
  - subst a'. unfold log. cbn [a_items a_open from_option id]. by rewrite app_assoc.
Qed.

Lemma raw_put_ok a l i : astate_ok a → closes a l → item_ok i →
  let a' := mkState (l ++ [i]) None in
  astate_ok a' ∧ (state_size a' ≤ state_size a + zlen (item_bytes o i))%Z ∧ log a' = log a ++ item_log i.
Proof.
  intros Ha Hc Hi a'. destruct (closes_ok a l Ha Hc) as ([Hl _] & Hs & Hlog). split_and!.
  - split; [|done]. apply Forall_app. split; [done|by repeat constructor].
  - subst a'. unfold WriterTheory.state_size in *. cbn [a_items a_open] in *. rewrite contents_snoc, zlen_app. lia.
  - subst a'. by rewrite log_snoc, Hlog.
Qed.

Lemma puts_ok in_chunk r a a' : astate_ok a → puts in_chunk r a a' → record_ok r = true → record_opcode r ≠ op.CHUNK →
  (in_chunk = true → wo_use_chunks o = true ∧ is_message r = false) →
  (in_chunk = false → wo_use_chunks o = true → is_message r = false) →
  astate_ok a' ∧ (state_size a' ≤ state_size a + record_cost r)%Z ∧ log a' = log a ++ [r].
Proof.
  intros Ha Hp Hr Hop Hin Hout. destruct Hp as [l open r|r a l Hc].
  - destruct (Hin eq_refl) as [Hu Hm]. apply chunk_put_ok; try done. intros He.
    rewrite messages_in_snoc, Hm, Z.add_0_r. destruct Ha as [_ Ho]. cbn [a_open] in Ho.
    destruct open as [rs|]; [by apply Ho|done].
  - destruct (raw_put_ok a l (IRecord r) Ha Hc) as (? & ? & ?); [by split_and!; [..|apply Hout]|]. split_and!; try done.
    pose proof (record_cost_frame r). rewrite item_bytes_record in *. lia.
Qed.

(** *** The simulation *)

Record ids_ok (i : id_state) : Prop := {
  schemas_ok : reg_ok (i_schemas i) (i_schema_ids i) (i_next_schema i);
  channels_ok : reg_ok (i_channels i) (i_channel_ids i) (i_next_channel i);
}.

(** A writer that stands for the abstract state [st], with room for [n] more bytes. *)
Definition represents (n : Z) (s : writer) (st : spec_state) : Prop :=
  ∃ a, wrep o a s ∧ astate_ok a ∧ log a = sp_log st ∧ ids s = sp_ids st ∧ ids_ok (sp_ids st) ∧
    (0 ≤ n)%Z ∧ (state_size a + n ≤ u64_max)%Z.

(** Two runs end alike, and unless in a panic in states that correspond. *)
Definition sim {A} (n : Z) (r1 : McapResult A * writer) (r2 : McapResult A * spec_state) : Prop :=
  r1.1 = r2.1 ∧ match r1.1 with Ok _ | Err _ => represents n r1.2 r2.2 | Panic => True | Fuel => False end.
Definition refines {A} (cost : Z) (m : method writer McapError A) (spec : method spec_state McapError A) : Prop :=
  ∀ n s st, (0 ≤ n)%Z → represents (n + cost) s st → sim n (m s) (spec st).

Lemma represents_weaken n m s st : represents m s st → (0 ≤ n ≤ m)%Z → represents n s st.
Proof. intros (a & Hs & Ha & Hl & Hi & Hok & Hn & Hm) Hnm. exists a. split_and!; try done; lia. Qed.

Lemma sim_bind {A B} n1 n2 (m : method writer McapError A) (spec : method spec_state McapError A)
    (f : A → method writer McapError B) (g : A → method spec_state McapError B) s st :
  sim n1 (m s) (spec st) → (∀ a s' st', represents n1 s' st' → sim n2 (f a s') (g a st')) →
  (0 ≤ n2 ≤ n1)%Z → sim n2 ((m ≫= f) s) ((spec ≫= g) st).
Proof.
  intros [Ho Hr] Hf Hn. unfold mbind, method_bind. destruct (m s) as [o1 s1], (spec st) as [o2 st1]. cbn in *. subst o2.
  destruct o1; try done; cbn; [by apply Hf|]. split; [done|]. by eapply represents_weaken.
Qed.
Lemma sim_ret {A} n (a : A) s st : represents n s st → sim n (Ok a, s) (Ok a, st).
Proof. by split. Qed.
Lemma sim_err {A} n e s st : represents n s st → sim (A:=A) n (Err e, s) (Err e, st).
Proof. by split. Qed.

Lemma refines_bind {A B} c1 c2 (m : method writer McapError A) (spec : method spec_state McapError A)
    (f : A → method writer McapError B) (g : A → method spec_state McapError B) :
  (0 ≤ c2)%Z → refines c1 m spec → (∀ a, refines c2 (f a) (g a)) → refines (c1 + c2) (m ≫= f) (spec ≫= g).
Proof.
  intros Hc Hm Hf n s st Hn Hr. eapply (sim_bind (n + c2)); [|intros a s' st' Hr'; by apply Hf|lia].
  apply Hm; [lia|]. by replace (n + c2 + c1)%Z with (n + (c1 + c2))%Z by lia.
Qed.

Lemma refines_weaken {A} c c' (m : method writer McapError A) spec : (0 ≤ c ≤ c')%Z → refines c m spec → refines c' m spec.
Proof. intros Hc Hm n s st Hn Hr. apply Hm; [done|]. eapply represents_weaken; [done|lia]. Qed.

(** The identifiers are changed alike. *)
Lemma represents_ids n s st s' i : represents n s st → ids_ok i → ids s' = i →
  (∀ a, wrep o a s → wrep o a s') → represents n s' (mkSpec i (sp_log st)).
Proof.
  intros (a & Hs & Ha & Hl & Hi & Hok & Hn & Hm) Hiok Hi' Hw. exists a. split_and!; try done. by apply Hw.
Qed.

Lemma not_message_opcode r : record_wf r = true → is_message r = false → record_opcode r ≠ op.MESSAGE.
Proof.
  intros Hw Hm. destruct r; try done. cbn. intros ->. unfold record_wf in Hw. cbn in Hw. done.
Qed.

Lemma put_refines in_chunk r : record_ok r = true → record_opcode r ≠ op.CHUNK →
  (in_chunk = true → wo_use_chunks o = true ∧ is_message r = false) →
  (in_chunk = false → wo_use_chunks o = true → is_message r = false) →
  refines (record_cost r) (put_record in_chunk r) (emit r).
Proof.
  intros Hr Hop Hin Hout n s st Hn (a & Hs & Ha & Hl & Hi & Hok & Hn' & Hm).
  pose proof Hr as Hr'. unfold record_ok in Hr'. rewrite !andb_true_iff in Hr'. destruct Hr' as [[Hwf Hwr] Hmeta].
  destruct (put_record_spec o in_chunk a r s Hs) as (s' & a' & E & Hp & Hs' & Hi'); try done.
  - intros Hc. destruct (Hin Hc) as [Hu Hmsg]. split; [done|]. by apply not_message_opcode.
  - by intros m ->.
  - intros a' Hp. destruct (puts_ok in_chunk r a a' Ha Hp Hr Hop Hin Hout) as (Ha' & Hsz & _). apply fits_of; [done|lia].
  - destruct (puts_ok in_chunk r a a' Ha Hp Hr Hop Hin Hout) as (Ha' & Hsz & Hlog). rewrite E. apply sim_ret.
    exists a'. split_and!; try done; [|by rewrite Hi', Hi|lia]. by rewrite Hlog, Hl.
Qed.

Lemma record_cost_pos r : (0 ≤ record_cost r)%Z.
Proof. pose proof (record_cost_frame r). pose proof (zlen_nonneg (record_frame r)). lia. Qed.

Lemma write_schema_refines s : record_ok (RSchema (mkSchemaHeader (schema_id s) (schema_name s) (schema_encoding s)) (schema_data s)) = true →
  refines (record_cost (RSchema (mkSchemaHeader (schema_id s) (schema_name s) (schema_encoding s)) (schema_data s)))
    (write_schema s) (emit (RSchema (mkSchemaHeader (schema_id s) (schema_name s) (schema_encoding s)) (schema_data s))).
Proof.
  intros Hr n w st Hn Hw. unfold write_schema. rewrite (bind_method_Ok _ _ w o w); last first.
  { destruct Hw as (a & Hw & _). unfold gets. by rewrite (wrep_options _ _ _ Hw). }
  by apply put_refines.
Qed.
Lemma write_channel_refines c : record_ok (RChannel c) = true →
  refines (record_cost (RChannel c)) (write_channel c) (emit (RChannel c)).
Proof.
  intros Hr n w st Hn Hw. unfold write_channel. rewrite (bind_method_Ok _ _ w o w); last first.
  { destruct Hw as (a & Hw & _). unfold gets. by rewrite (wrep_options _ _ _ Hw). }
  by apply put_refines.
Qed.

Lemma write_private_record_refines opcode data opts :
  (opcode <? 128)%Z = true ∨ record_ok (RUnknown opcode data) = true →
  refines (record_cost (RUnknown opcode data)) (write_private_record opcode data opts) (spec_write_private_record opcode data).
Proof.
  intros Hr n w st Hn Hw. unfold write_private_record, spec_write_private_record.
  pose proof (record_cost_pos (RUnknown opcode data)).
  destruct (opcode <? 128)%Z eqn:Hop; [apply sim_err; eapply represents_weaken; [done|lia]|]. destruct Hr as [|Hr]; [done|].
  rewrite (bind_method_Ok _ _ w o w); last first.
  { destruct Hw as (a & Hw & _). unfold gets. by rewrite (wrep_options _ _ _ Hw). }
  apply put_refines; try done.
  - cbn. intros ->. done.
  - intros [Hu _]%andb_true_iff. done.
Qed.

Lemma wrep_set_schemas a s m l n : wrep o a s → wrep o a (set_schemas m l n s).
Proof. intros []. by split. Qed.
Lemma wrep_set_channels a s m l n : wrep o a s → wrep o a (set_channels m l n s).
Proof. intros []. by split. Qed.
Lemma wrep_set_counts a s b c : wrep o a s → wrep o a (set_counts b c s).
Proof. intros []. by split. Qed.

Lemma set_schemas_represents n s st m l next : represents n s st → reg_ok m l next →
  represents n (set_schemas m l next s) (mkSpec (i_set_schemas m l next (sp_ids st)) (sp_log st)).
Proof.
  intros Hr Hok. eapply represents_ids; [done|..].
  - destruct Hr as (a & _ & _ & _ & _ & [_ Hc] & _). by split.
  - destruct Hr as (a & _ & _ & _ & <- & _). done.
  - intros a. apply wrep_set_schemas.
Qed.
Lemma set_channels_represents n s st m l next : represents n s st → reg_ok m l next →
  represents n (set_channels m l next s) (mkSpec (i_set_channels m l next (sp_ids st)) (sp_log st)).
Proof.
  intros Hr Hok. eapply represents_ids; [done|..].
  - destruct Hr as (a & _ & _ & _ & _ & [Hs _] & _). by split.
  - destruct Hr as (a & _ & _ & _ & <- & _). done.
  - intros a. apply wrep_set_channels.
Qed.
Lemma set_counts_represents n s st b c : represents n s st →
  represents n (set_counts b c s) (mkSpec (i_set_counts b c (sp_ids st)) (sp_log st)).
Proof.
  intros Hr. eapply represents_ids; [done|..].
  - destruct Hr as (a & _ & _ & _ & _ & [Hs Hc] & _). by split.
  - destruct Hr as (a & _ & _ & _ & <- & _). done.
  - intros a. apply wrep_set_counts.
Qed.
Lemma represents_regs n s st : represents n s st → ids s = sp_ids st ∧ ids_ok (ids s).
Proof. intros (a & _ & _ & _ & Hi & Hok & _). by rewrite Hi. Qed.

(** *** Schemas and channels *)

Definition schema_cost (name encoding : rstring) (data : bytes) : Z :=
  record_cost (RSchema (mkSchemaHeader 0 name encoding) data).
Definition schema_ok (name encoding : rstring) (data : bytes) : Prop :=
  ∀ id, (0 ≤ id ≤ u16_max)%Z → record_ok (RSchema (mkSchemaHeader id name encoding) data) = true.
Lemma schema_cost_id id name encoding data :
  record_cost (RSchema (mkSchemaHeader id name encoding) data) = schema_cost name encoding data.
Proof.
  unfold schema_cost, record_cost. rewrite !zlen_record_frame. cbn [record_body]. rewrite !zlen_app.
  change (c_enc SchemaHeader_codec (mkSchemaHeader id name encoding)) with ((le_enc 2 id ++ c_enc rstr name) ++ c_enc rstr encoding).
  change (c_enc SchemaHeader_codec (mkSchemaHeader 0 name encoding)) with ((le_enc 2 0 ++ c_enc rstr name) ++ c_enc rstr encoding).
  rewrite !zlen_app. done.
Qed.

Lemma schema_cost_pos name encoding data : (0 ≤ schema_cost name encoding data)%Z.
Proof. apply record_cost_pos. Qed.

(** What both registrations do once the content is known to be new. *)
Lemma add_id_overflow {S E A} (id : Z) (f : Z → method S E A) s : (0 ≤ id ≤ u16_max)%Z →
  (lift (add_ u16_max id 1) ≫= f) s = if (id =? u16_max)%Z then (Panic, s) else f (id + 1)%Z s.
Proof.
  intros Hid. unfold add_. destruct (Z.eqb_spec id u16_max) as [->|]; [done|].
  rewrite (proj2 (Z.leb_le _ _)) by lia. done.
Qed.

Lemma add_schema_refines name encoding data : schema_ok name encoding data →
  refines (schema_cost name encoding data) (wr_add_schema name encoding data) (spec_add_schema name encoding data).
Proof.
  intros Hok n s st Hn Hr. destruct (represents_regs _ _ _ Hr) as [Hi [Hs Hc]].
  pose proof (schema_cost_pos name encoding data) as Hcost.
  assert (represents n s st) as Hrn by (eapply represents_weaken; [done|lia]).
  unfold wr_add_schema, spec_add_schema. rewrite bind_get. unfold get_ids. rewrite bind_gets, <-Hi.
  cbn [ids i_schemas i_schema_ids i_next_schema] in *.
  destruct (bm_get_by_left _ (wr_canonical_schemas s)) as [id|] eqn:Hk; [by apply sim_ret|].
  pose proof (reg_next _ _ _ Hs) as Hnext.
  pose proof (next_free_spec (Z.to_nat u16_max) (wr_all_schema_ids s) (wr_next_schema_id s) Hnext ltac:(lia)) as Hfree.
  destruct (next_free _ _ _) as [free id]. rewrite bind_modify. unfold on_ids. rewrite bind_modify.
  assert (0 ≤ id ≤ u16_max)%Z as Hid by (destruct free; [lia|destruct Hfree as [-> _]; done]).
  pose proof (set_schemas_represents _ s st _ _ id Hr (reg_with_next _ _ _ id Hs Hid)) as Hr1.
  destruct free; cbn [negb]; [|apply sim_err; eapply represents_weaken; [exact Hr1|lia]].
  destruct Hfree as (_ & Hg & _). rewrite add_id_overflow by done.
  destruct (Z.eqb_spec id u16_max) as [|Hne]; [done|].
  destruct (reg_register _ _ _ _ id (id + 1)%Z Hs Hk Hg Hid ltac:(lia)) as (known & E & Hreg).
  rewrite E. cbn [expect]. rewrite bind_lift. unfold bt_contains. rewrite Hg. cbn [negb rassert]. rewrite bind_lift, bind_modify, bind_modify.
  cbn [sp_ids sp_log]. unfold or_same. rewrite E. cbn [from_option Datatypes.id].
  pose proof (set_schemas_represents _ _ _ _ _ (id + 1)%Z Hr1 Hreg) as Hr2.
  eapply (sim_bind n); [|intros [] s' st' Hr'; by apply sim_ret|lia].
  apply write_schema_refines; [by apply Hok|done|]. rewrite schema_cost_id. exact Hr2.
Qed.

Definition channel_cost (schema_id : Z) (topic encoding : rstring) (metadata : list (rstring * rstring)) : Z :=
  record_cost (RChannel (mkChannelRecord 0 schema_id topic encoding metadata)).
Definition channel_ok (schema_id : Z) (topic encoding : rstring) (metadata : list (rstring * rstring)) : Prop :=
  ∀ id, (0 ≤ id ≤ u16_max)%Z → record_ok (RChannel (mkChannelRecord id schema_id topic encoding metadata)) = true.
Lemma channel_cost_id id schema_id topic encoding metadata :
  record_cost (RChannel (mkChannelRecord id schema_id topic encoding metadata)) = channel_cost schema_id topic encoding metadata.
Proof.
  unfold channel_cost, record_cost. rewrite !zlen_record_frame. cbn [record_body].
  assert (∀ i, c_enc Channel_codec (mkChannelRecord i schema_id topic encoding metadata) =
    (((le_enc 2 i ++ le_enc 2 schema_id) ++ c_enc rstr topic) ++ c_enc rstr encoding) ++ c_enc string_map metadata) as He by done.
  rewrite !He, !zlen_app. done.
Qed.
Lemma channel_cost_pos schema_id topic encoding metadata : (0 ≤ channel_cost schema_id topic encoding metadata)%Z.
Proof. apply record_cost_pos. Qed.

Lemma add_channel_refines schema_id topic encoding metadata : channel_ok schema_id topic encoding metadata →
  refines (channel_cost schema_id topic encoding metadata) (wr_add_channel schema_id topic encoding metadata)
    (spec_add_channel schema_id topic encoding metadata).
Proof.
  intros Hok n s st Hn Hr. destruct (represents_regs _ _ _ Hr) as [Hi [Hs Hc]].
  pose proof (channel_cost_pos schema_id topic encoding metadata) as Hcost.
  assert (represents n s st) as Hrn by (eapply represents_weaken; [done|lia]).
  unfold wr_add_channel, spec_add_channel. rewrite bind_get. unfold get_ids. rewrite bind_gets, <-Hi.
  cbn [ids i_channels i_channel_ids i_next_channel i_schema_ids] in *.
  destruct (bm_get_by_left _ (wr_canonical_channels s)) as [id|] eqn:Hk; [by apply sim_ret|].
  destruct (negb (schema_id =? 0)%Z && negb (bt_contains schema_id (wr_all_schema_ids s))); [by apply sim_err|].
  pose proof (reg_next _ _ _ Hc) as Hnext.
  pose proof (next_free_spec (Z.to_nat u16_max) (wr_all_channel_ids s) (wr_next_channel_id s) Hnext ltac:(lia)) as Hfree.
  destruct (next_free _ _ _) as [free id]. rewrite bind_modify. unfold on_ids. rewrite bind_modify.
  assert (0 ≤ id ≤ u16_max)%Z as Hid by (destruct free; [lia|destruct Hfree as [-> _]; done]).
  pose proof (set_channels_represents _ s st _ _ id Hr (reg_with_next _ _ _ id Hc Hid)) as Hr1.
  destruct free; cbn [negb]; [|apply sim_err; eapply represents_weaken; [exact Hr1|lia]].
  destruct Hfree as (_ & Hg & _). rewrite add_id_overflow by done.
  destruct (Z.eqb_spec id u16_max) as [|Hne]; [done|].
  destruct (reg_register _ _ _ _ id (id + 1)%Z Hc Hk Hg Hid ltac:(lia)) as (known & E & Hreg).
  rewrite E. cbn [expect]. rewrite bind_lift. unfold bt_contains. rewrite Hg. cbn [negb rassert]. rewrite bind_lift, bind_modify, bind_modify.
  cbn [sp_ids sp_log]. unfold or_same. rewrite E. cbn [from_option Datatypes.id].
  pose proof (set_channels_represents _ _ _ _ _ (id + 1)%Z Hr1 Hreg) as Hr2.
  eapply (sim_bind n); [|intros [] s' st' Hr'; by apply sim_ret|lia].
  apply write_channel_refines; [by apply Hok|done|]. rewrite channel_cost_id. exact Hr2.
Qed.

(** *** Messages *)

Hypothesis Hchunks : chunks_bounded.

(** A chunk that has grown beyond its size is closed before the next message. *)
Definition close_if_full (s : writer) : method writer McapError () :=
  match wr_writer s, wo_chunk_size (wr_options s) with
  | Some (Chunking cw), Some target =>
      if (target <? ccw_count (cw_compressor cw))%Z then finish_chunk else mret ()
  | _, _ => mret ()
  end.

Lemma few_bounded t rs r : wo_chunk_size o = Some t → (t ≤ 2 ^ 32)%Z → (zlen (records_data rs) ≤ t)%Z → few (rs ++ [r]).
Proof.
  intros Ht Hle Hd He. rewrite messages_in_snoc. pose proof (messages_size rs). destruct (is_message r); lia.
Qed.
Lemma few_empty r : few [r].
Proof. intros _. unfold messages_in. cbn. by destruct (is_message r). Qed.

Lemma close_if_full_spec a s r : wrep o a s → astate_ok a →
  ∃ s' a', close_if_full s s = (Ok (), s') ∧ wrep o a' s' ∧ ids s' = ids s ∧ astate_ok a' ∧ log a' = log a ∧
    (state_size a' ≤ state_size a)%Z ∧ (wo_use_chunks o = true → few (default [] (a_open a') ++ [r])).
Proof.
  intros Hs Ha. unfold close_if_full. rewrite (wrep_options _ _ _ Hs). pose proof (wrep_mode _ _ _ Hs) as Hm.
  unfold mode_rep in Hm. destruct (a_open a) as [rs|] eqn:Eo.
  - destruct Hm as (Hu & c & Hw & Hc). rewrite Hw.
    assert (ccw_count (cw_compressor c) = zlen (records_data rs)) as Hcount.
    { destruct (cwr_stream _ _ _ _ _ _ _ Hc) as (d & -> & _ & Hd & _). done. }
    destruct (wo_chunk_size o) as [t|] eqn:Et; [rewrite Hcount; destruct (Z.ltb_spec t (zlen (records_data rs)))|].
    + destruct (finish_chunk_spec o a s Hs) as (s' & l & E & Hcl & Hs' & Hi). destruct (closes_ok a l Ha Hcl) as (Ha' & Hsz & Hlog).
      exists s', (mkState l None). split_and!; try done. intros _. apply few_empty.
    + exists s, a. split_and!; try done. intros _. rewrite Eo. cbn [from_option Datatypes.id]. intros He.
      destruct (Hchunks Hu He) as (t' & Ht & Hle). rewrite Ht in Et. injection Et as ->. by eapply few_bounded.
    + exists s, a. split_and!; try done. intros _ He. destruct (Hchunks Hu He) as (t' & Ht & _). congruence.
  - destruct Hm as ((w & Hw & _) & _). rewrite Hw. exists s, a. split_and!; try done. rewrite Eo. intros _. apply few_empty.
Qed.

Lemma put_message_refines header data s0 : record_ok (RMessage header data) = true → ∀ n s st, (0 ≤ n)%Z →
  represents (n + record_cost (RMessage header data)) s st → wr_writer s0 = wr_writer s → wr_options s0 = wr_options s →
  sim n ((_ ← close_if_full s0; if wo_use_chunks (wr_options s0) then _ ← start_chunk; on_chunk (cw_write_message header data)
          else put_record false (RMessage header data)) s) (emit (RMessage header data) st).
Proof.
  intros Hr n s st Hn (a & Hs & Ha & Hl & Hi & Hok & Hn' & Hsz) Hw Hop.
  pose proof Hr as Hr'. unfold record_ok in Hr'. rewrite !andb_true_iff in Hr'. destruct Hr' as [[Hwf _] _].
  destruct (close_if_full_spec a s (RMessage header data) Hs Ha) as (s1 & a1 & E1 & Hs1 & Hi1 & Ha1 & Hl1 & Hsz1 & Hfew).
  assert (close_if_full s0 = close_if_full s) as -> by (unfold close_if_full; by rewrite Hw, Hop).
  rewrite (bind_method_Ok _ _ _ _ _ E1), Hop, (wrep_options _ _ _ Hs).
  destruct (wo_use_chunks o) eqn:Hu.
  - destruct (chunk_put_ok (a_items a1) (a_open a1) (RMessage header data)) as (Ha2 & Hsz2 & Hl2); try done; [by destruct a1|by apply Hfew|].
    replace (mkState (a_items a1) (a_open a1)) with a1 in * by by destruct a1.
    destruct (put_message_spec o a1 header data s1 Hs1 Hu Hwf) as (s2 & E2 & Hs2 & Hi2); [apply fits_of; [done|lia]|].
    rewrite E2. apply sim_ret. eexists. split_and!; try done; [by rewrite Hl2, Hl1, Hl|by rewrite Hi2, Hi1, Hi|lia].
  - apply put_refines; try done; [by rewrite Hu|]. exists a1. split_and!; try done; [by rewrite Hl1|by rewrite Hi1|lia].
Qed.

Lemma write_to_known_channel_refines header data : record_ok (RMessage header data) = true →
  refines (record_cost (RMessage header data)) (write_to_known_channel header data) (spec_write_to_known_channel header data).
Proof.
  intros Hr n s st Hn Hrep. destruct (represents_regs _ _ _ Hrep) as [Hi [Hs Hc]].
  pose proof (record_cost_pos (RMessage header data)) as Hcost.
  unfold write_to_known_channel, spec_write_to_known_channel. rewrite bind_get. unfold get_ids. rewrite bind_gets, <-Hi.
  cbn [ids i_channel_ids i_counts i_bounds].
  destruct (bt_contains _ _); cbn [negb]; [|apply sim_err; eapply represents_weaken; [done|lia]].
  unfold add_. destruct (_ <=? _)%Z; [|done]. rewrite !bind_lift, bind_modify. unfold on_ids. rewrite bind_modify.
  pose proof (set_counts_represents _ s st (extend_bounds (wr_message_bounds s) (m_log_time header))
    (bt_insert (m_channel_id header) (default 0%Z (bt_get (m_channel_id header) (wr_channel_message_counts s)) + 1)%Z
       (wr_channel_message_counts s)) Hrep) as Hr1.
  apply (put_message_refines header data s Hr); done.
Qed.

Definition schema_record_of (s : Schema) : record :=
  RSchema (mkSchemaHeader (schema_id s) (schema_name s) (schema_encoding s)) (schema_data s).

Lemma or_same_known {C} `{EqDecision C, !BiMap C Z, !BiMapOk C Z} (c : C) (id : Z) m k :
  bm_get_by_left c m = Some k → or_same c id m = m.
Proof.
  intros Hk. unfold or_same. destruct (bm_insert_no_overwrite c id m) eqn:E; [|done]. exfalso.
  assert (bm_insert_no_overwrite c id m = None) by (apply bm_insert_fails; left; by exists k). congruence.
Qed.

Lemma ensure_schema_refines s : record_ok (schema_record_of s) = true → (0 ≤ schema_id s ≤ u16_max)%Z →
  refines (record_cost (schema_record_of s)) (ensure_schema s) (spec_ensure_schema s).
Proof.
  intros Hr Hid n w st Hn Hrep. destruct (represents_regs _ _ _ Hrep) as [Hi [Hs Hc]].
  pose proof (record_cost_pos (schema_record_of s)) as Hcost.
  assert (represents n w st) as Hrn by (eapply represents_weaken; [done|lia]).
  unfold ensure_schema, spec_ensure_schema. rewrite bind_get. unfold get_ids. rewrite bind_gets, <-Hi.
  cbn [ids i_schemas i_schema_ids i_next_schema] in *.
  destruct (bt_get (schema_id s) (wr_all_schema_ids w)) as [other|] eqn:Hg; destruct (bm_get_by_left _ _) as [k|] eqn:Hk; try done.
  - cbn [expect]. rewrite bind_lift. destruct (other =? k)%Z; cbn [negb]; [by apply sim_ret|by apply sim_err].
  - cbn [from_option Datatypes.id]. rewrite bind_modify. unfold on_ids. rewrite bind_modify.
    assert (or_same (mkSchemaContent (schema_name s) (schema_encoding s) (schema_data s)) (schema_id s) (wr_canonical_schemas w) =
      wr_canonical_schemas w) as ->.
    { by apply (or_same_known _ _ _ k). }
    apply write_schema_refines; [done|done|]. apply set_schemas_represents; [done|]. by eapply reg_alias.
  - destruct (reg_register _ _ _ _ (schema_id s) (wr_next_schema_id w) Hs Hk Hg Hid (reg_next _ _ _ Hs)) as (known & E & Hreg).
    rewrite E. cbn [expect from_option Datatypes.id]. unfold mbind at 1 2, method_bind at 1 2, lift at 1, modify at 1. 
    unfold on_ids. rewrite bind_modify. unfold or_same. rewrite E. cbn [from_option Datatypes.id].
    apply write_schema_refines; [done|done|]. by apply set_schemas_represents.
Qed.

Definition channel_record_of (c : Channel) : record :=
  RChannel (mkChannelRecord (channel_id c) (channel_schema_id c) (channel_topic c) (channel_message_encoding c) (channel_metadata c)).

Lemma ensure_channel_refines c : record_ok (channel_record_of c) = true → (0 ≤ channel_id c ≤ u16_max)%Z →
  refines (record_cost (channel_record_of c)) (ensure_channel c) (spec_ensure_channel c).
Proof.
  intros Hr Hid n w st Hn Hrep. destruct (represents_regs _ _ _ Hrep) as [Hi [Hs Hc]].
  pose proof (record_cost_pos (channel_record_of c)) as Hcost.
  assert (represents n w st) as Hrn by (eapply represents_weaken; [done|lia]).
  unfold ensure_channel, spec_ensure_channel. rewrite bind_get. unfold get_ids. rewrite bind_gets, <-Hi.
  cbn [ids i_channels i_channel_ids i_next_channel] in *.
  destruct (bt_get (channel_id c) (wr_all_channel_ids w)) as [other|] eqn:Hg; destruct (bm_get_by_left _ _) as [k|] eqn:Hk; try done.
  - cbn [expect]. rewrite bind_lift, (Z.eqb_sym k). destruct (other =? k)%Z; cbn [negb]; [by apply sim_ret|by apply sim_err].
  - cbn [from_option Datatypes.id]. rewrite bind_modify. unfold on_ids. rewrite bind_modify. rewrite (or_same_known _ _ _ k) by done.
    apply write_channel_refines; [done|done|]. apply set_channels_represents; [done|]. by eapply reg_alias.
  - destruct (reg_register _ _ _ _ (channel_id c) (wr_next_channel_id w) Hc Hk Hg Hid (reg_next _ _ _ Hc)) as (known & E & Hreg).
    rewrite E. cbn [expect from_option Datatypes.id]. unfold mbind at 1 2, method_bind at 1 2, lift at 1, modify at 1.
    unfold on_ids. rewrite bind_modify. unfold or_same. rewrite E. cbn [from_option Datatypes.id].
    apply write_channel_refines; [done|done|]. by apply set_channels_represents.
Qed.

(** What a message brings along is well-formed. *)
Definition message_header_of (m : Message) : MessageHeader :=
  mkMessageHeader (channel_id (message_channel m)) (message_sequence m) (message_log_time m) (message_publish_time m).
Definition message_ok (m : Message) : bool :=
  let c := message_channel m in
  match channel_schema c with
  | Some s => record_ok (schema_record_of s) && c_wf u16 (schema_id s)
  | None => true
  end && record_ok (channel_record_of c) && c_wf u16 (channel_id c) && record_ok (RMessage (message_header_of m) (message_data m)).
Definition message_cost (m : Message) : Z :=
  match channel_schema (message_channel m) with Some s => record_cost (schema_record_of s) | None => 0 end +
  (record_cost (channel_record_of (message_channel m)) + record_cost (RMessage (message_header_of m) (message_data m))).

Lemma u16_range z : c_wf u16 z = true → (0 ≤ z ≤ u16_max)%Z.
Proof. intros Hz. apply (uint_wf_in 2) in Hz. unfold in_u, u16_max in *. cbn in Hz. lia. Qed.

Lemma write_refines m : message_ok m = true → refines (message_cost m) (wr_write m) (spec_write m).
Proof.
  unfold message_ok. rewrite !andb_true_iff. intros [[[Hs Hc] Hid%u16_range] Hm]. unfold message_cost, wr_write, spec_write.
  pose proof (record_cost_pos (channel_record_of (message_channel m))).
  pose proof (record_cost_pos (RMessage (message_header_of m) (message_data m))).
  apply refines_bind; [lia| |].
  - destruct (channel_schema (message_channel m)) as [s|]; [|intros n w st Hn Hr; apply sim_ret; by rewrite Z.add_0_r in Hr].
    apply andb_true_iff in Hs as [Hs Hsid%u16_range]. by apply ensure_schema_refines.
  - intros _. apply refines_bind; [lia|by apply ensure_channel_refines|]. intros _. by apply write_to_known_channel_refines.
Qed.

(** *** Attachments and metadata *)

Lemma logged_app p l k : logged p (l ++ k) = (logged p l + logged p k)%Z.
Proof. unfold logged. by rewrite List.filter_app, zlen_app. Qed.
Lemma logged_none p rs : (∀ r, record_ok r = true → p r = false) → forallb record_ok rs = true → logged p rs = 0%Z.
Proof.
  intros Hp. unfold logged. induction rs as [|r rs IH]; [done|]. cbn [forallb]. intros [Hr Hrs]%andb_true_iff. cbn.
  rewrite (Hp r Hr). by apply IH.
Qed.

(** The records counted by a predicate are the items it is about. *)
Lemma logged_items (p : record → bool) (q : item → bool) a : (∀ r, record_ok r = true → p r = false) →
  (∀ i, item_ok i → logged p (item_log i) = if q i then 1 else 0)%Z → astate_ok a →
  logged p (log a) = count_of q (a_items a).
Proof.
  intros Hp Hq [Hi Ho]. unfold log. rewrite logged_app.
  assert (logged p (default [] (a_open a)) = 0)%Z as ->.
  { destruct (a_open a) as [rs|]; [|done]. apply logged_none; [done|apply Ho]. }
  rewrite Z.add_0_r. induction Hi as [|i l Hi _ IH]; [done|]. rewrite fmap_cons. cbn [concat].
  rewrite logged_app, Hq by done. unfold count_of in *. rewrite IH.
  cbn [List.filter]. destruct (q i); [|lia]. zlia.
Qed.

Lemma attachments_logged a : astate_ok a → logged is_attachment_record (log a) = count_of is_attachment (a_items a).
Proof.
  assert (∀ r, record_ok r = true → is_attachment_record r = false) as Hp.
  { intros r. unfold record_ok. destruct r; try done. rewrite andb_false_r. done. }
  intros Ha. apply logged_items; [done| |done]. intros [r|h d|m|rs z] Hi; try done.
  - destruct Hi as [Hr _]. unfold logged. cbn. by rewrite Hp.
  - destruct Hi as (_ & Hrs & _). by apply logged_none.
Qed.
Lemma metadatas_logged a : astate_ok a → logged is_metadata_record (log a) = count_of is_metadata (a_items a).
Proof.
  assert (∀ r, record_ok r = true → is_metadata_record r = false) as Hp.
  { intros r. unfold record_ok. destruct r; try done. rewrite andb_false_r. done. }
  intros Ha. apply logged_items; [done| |done]. intros [r|h d|m|rs z] Hi; try done.
  - destruct Hi as [Hr _]. unfold logged. cbn. by rewrite Hp.
  - destruct Hi as (_ & Hrs & _). by apply logged_none.
Qed.

Lemma attach_refines header data : record_wf (attachment_record o header data) = true →
  refines (zlen (record_frame (attachment_record o header data))) (attach (attachment_of header data))
    (spec_attach (wo_calculate_attachment_crcs o) (attachment_of header data)).
Proof.
  intros Hr n s st Hn (a & Hs & Ha & Hl & Hi & Hok & Hn' & Hm).
  assert (item_ok (IAttachment header data)) as Hitem by done.
  pose proof (attach_spec o a s header data Hs) as Hspec. rewrite (wrep_attachment_count _ _ _ Hs), <-attachments_logged, Hl in Hspec by done.
  assert (spec_attach (wo_calculate_attachment_crcs o) (attachment_of header data) st =
    emit_counted is_attachment_record (attachment_record o header data) st) as ->.
  { destruct header as [lt ct nm mt]. unfold spec_attach, attachment_record, attachment_crc, attachment_prefix, attachment_of, attachment_hashed.
    cbn -[crc32 c_enc emit_counted]. by rewrite <-app_assoc. }
  unfold emit_counted. rewrite bind_gets.
  assert (∀ l, closes a l → fits o (mkState (l ++ [IAttachment header data]) None)) as Hf.
  { intros l Hcl. destruct (raw_put_ok a l _ Ha Hcl Hitem) as (? & Hsz & _). apply fits_of; [done|]. rewrite item_bytes_attachment in Hsz. lia. }
  specialize (Hspec ltac:(by unfold attachment_record in Hr; split_wf) Hf).
  destruct (Z.ltb_spec (logged is_attachment_record (sp_log st)) u32_max) as [Hlt|Hge].
  - destruct Hspec as (s' & l & E & Hcl & Hs' & Hi'). destruct (raw_put_ok a l _ Ha Hcl Hitem) as (Ha' & Hsz & Hlog).
    rewrite item_bytes_attachment in Hsz. rewrite E. apply sim_ret. eexists. split_and!; [exact Hs'|done|..]; try done; [by rewrite Hlog, Hl|by rewrite Hi'|lia].
  - split; [by rewrite Hspec|by rewrite Hspec].
Qed.

Lemma write_metadata_refines m : record_wf (RMetadata m) = true →
  refines (zlen (record_frame (RMetadata m))) (write_metadata m) (spec_write_metadata m).
Proof.
  intros Hr n s st Hn (a & Hs & Ha & Hl & Hi & Hok & Hn' & Hm).
  assert (item_ok (IMetadata m)) as Hitem by done.
  pose proof (write_metadata_spec o a s m Hs Hr) as Hspec. rewrite (wrep_metadata_count _ _ _ Hs), <-metadatas_logged, Hl in Hspec by done.
  unfold spec_write_metadata, emit_counted. rewrite bind_gets.
  assert (∀ l, closes a l → fits o (mkState (l ++ [IMetadata m]) None)) as Hf.
  { intros l Hcl. destruct (raw_put_ok a l _ Ha Hcl Hitem) as (? & Hsz & _). apply fits_of; [done|]. rewrite item_bytes_metadata in Hsz. lia. }
  specialize (Hspec Hf).
  destruct (Z.ltb_spec (logged is_metadata_record (sp_log st)) u32_max) as [Hlt|Hge].
  - destruct Hspec as (s' & l & E & Hcl & Hs' & Hi'). destruct (raw_put_ok a l _ Ha Hcl Hitem) as (Ha' & Hsz & Hlog).
    rewrite item_bytes_metadata in Hsz. rewrite E. apply sim_ret. eexists. split_and!; [exact Hs'|done|..]; try done; [by rewrite Hlog, Hl|by rewrite Hi'|lia].
  - split; [by rewrite Hspec|by rewrite Hspec].
Qed.

Lemma flush_refines : refines 0 wr_flush (mret ()).
Proof.
  intros n s st Hn (a & Hs & Ha & Hl & Hi & Hok & Hn' & Hm).
  destruct (flush_spec o a s Hs) as (s' & l & E & Hcl & Hs' & Hi'). destruct (closes_ok a l Ha Hcl) as (Ha' & Hsz & Hlog).
  rewrite E. apply sim_ret. eexists. split_and!; [exact Hs'|done|..]; try done; [by rewrite Hlog|by rewrite Hi'|lia].
Qed.

(** *** Any sequence of calls *)

(** The calls a client makes. *)
Inductive call :=
| AddSchema (name encoding : rstring) (data : bytes)
| AddChannel (schema_id : Z) (topic message_encoding : rstring) (metadata : list (rstring * rstring))
| WriteMessage (m : Message)
| WriteKnown (header : MessageHeader) (data : bytes)
| WritePrivate (opcode : Z) (data : bytes) (options : list PrivateRecordOptions)
| Attach (header : AttachmentHeader) (data : bytes)
| WriteMetadata (m : Metadata)
| Flush.

Definition no_id {S A} (m : method S McapError A) : method S McapError Z := (λ _, 0%Z) <$> m.

(** The call on the writer, and on the specification. *)
Definition perform (c : call) : method writer McapError Z :=
  match c with
  | AddSchema name encoding data => wr_add_schema name encoding data
  | AddChannel schema_id topic encoding metadata => wr_add_channel schema_id topic encoding metadata
  | WriteMessage m => no_id (wr_write m)
  | WriteKnown header data => no_id (write_to_known_channel header data)
  | WritePrivate opcode data options => no_id (write_private_record opcode data options)
  | Attach header data => no_id (attach (attachment_of header data))
  | WriteMetadata m => no_id (write_metadata m)
  | Flush => no_id wr_flush
  end.
Definition spec_perform (c : call) : method spec_state McapError Z :=
  match c with
  | AddSchema name encoding data => spec_add_schema name encoding data
  | AddChannel schema_id topic encoding metadata => spec_add_channel schema_id topic encoding metadata
  | WriteMessage m => no_id (spec_write m)
  | WriteKnown header data => no_id (spec_write_to_known_channel header data)
  | WritePrivate opcode data options => no_id (spec_write_private_record opcode data)
  | Attach header data => no_id (spec_attach (wo_calculate_attachment_crcs o) (attachment_of header data))
  | WriteMetadata m => no_id (spec_write_metadata m)
  | Flush => mret 0%Z
  end.

(** The arguments have the ranges of their types and lengths that fit the format. *)
Definition call_ok (c : call) : Prop :=
  match c with
  | AddSchema name encoding data => schema_ok name encoding data
  | AddChannel schema_id topic encoding metadata => channel_ok schema_id topic encoding metadata
  | WriteMessage m => message_ok m = true
  | WriteKnown header data => record_ok (RMessage header data) = true
  | WritePrivate opcode data _ => (opcode <? 128)%Z = true ∨ record_ok (RUnknown opcode data) = true
  | Attach header data => record_wf (attachment_record o header data) = true
  | WriteMetadata m => record_wf (RMetadata m) = true
  | Flush => True
  end.
Definition call_cost (c : call) : Z :=
  match c with
  | AddSchema name encoding data => schema_cost name encoding data
  | AddChannel schema_id topic encoding metadata => channel_cost schema_id topic encoding metadata
  | WriteMessage m => message_cost m
  | WriteKnown header data => record_cost (RMessage header data)
  | WritePrivate opcode data _ => record_cost (RUnknown opcode data)
  | Attach header data => zlen (record_frame (attachment_record o header data))
  | WriteMetadata m => zlen (record_frame (RMetadata m))
  | Flush => 0
  end.
Lemma call_cost_pos c : (0 ≤ call_cost c)%Z.
Proof.
  destruct c; cbn [call_cost]; try apply record_cost_pos; try apply zlen_nonneg; [|done].
  unfold message_cost. pose proof (record_cost_pos (channel_record_of (message_channel m))).
  pose proof (record_cost_pos (RMessage (message_header_of m) (message_data m))).
  destruct (channel_schema _) as [s|]; [pose proof (record_cost_pos (schema_record_of s))|]; lia.
Qed.

Lemma refines_no_id {A} c (m : method writer McapError A) (spec : method spec_state McapError A) :
  refines c m spec → refines c (no_id m) (no_id spec).
Proof.
  intros Hm n s st Hn Hr. destruct (Hm n s st Hn Hr) as [Ho Hrep]. unfold no_id, fmap, method_fmap.
  destruct (m s) as [o1 s1], (spec st) as [o2 st1]. cbn in *. subst o2. split; [done|]. by destruct o1.
Qed.

Lemma perform_refines c : call_ok c → refines (call_cost c) (perform c) (spec_perform c).
Proof.
  destruct c; cbn [call_ok call_cost perform spec_perform]; intros Hc.
  - by apply add_schema_refines.
  - by apply add_channel_refines.
  - by apply refines_no_id, write_refines.
  - by apply refines_no_id, write_to_known_channel_refines.
  - by apply refines_no_id, write_private_record_refines.
  - by apply refines_no_id, attach_refines.
  - by apply refines_no_id, write_metadata_refines.
  - exact (refines_no_id _ _ _ flush_refines).
Qed.

(** A client that goes on after an error; a panic is the end. *)
Fixpoint perform_all {S} (f : call → method S McapError Z) (cs : list call) (s : S) : list (McapResult Z) * S :=
  match cs with
  | [] => ([], s)
  | c :: cs =>
      match f c s with
      | (Panic, s) => ([Panic], s)
      | (Fuel, s) => ([Fuel], s)
      | (r, s) => let '(rs, s) := perform_all f cs s in (r :: rs, s)
      end
  end.
Definition calls_cost (cs : list call) : Z := foldr (λ c n, (call_cost c + n)%Z) 0%Z cs.
Lemma calls_cost_pos cs : (0 ≤ calls_cost cs)%Z.
Proof. induction cs as [|c cs IH]; cbn; [done|]. pose proof (call_cost_pos c). unfold calls_cost in IH. lia. Qed.

Lemma perform_all_refines n cs : ∀ s st, (0 ≤ n)%Z → Forall call_ok cs → represents (n + calls_cost cs) s st →
  (perform_all perform cs s).1 = (perform_all spec_perform cs st).1 ∧
  (Panic ∉ (perform_all perform cs s).1 → represents n (perform_all perform cs s).2 (perform_all spec_perform cs st).2).
Proof.
  induction cs as [|c cs IH]; intros s st Hn Hok Hr.
  - split; [done|]. intros _. by rewrite Z.add_0_r in Hr.
  - apply Forall_cons in Hok as [Hc Hok]. cbn [calls_cost foldr] in Hr. fold (calls_cost cs) in Hr.
    pose proof (calls_cost_pos cs) as Hpos.
    destruct (perform_refines c Hc (n + calls_cost cs)%Z s st ltac:(lia)) as [Ho Hrep].
    { by replace (n + calls_cost cs + call_cost c)%Z with (n + (call_cost c + calls_cost cs))%Z by lia. }
    cbn [perform_all]. destruct (perform c s) as [r s1], (spec_perform c st) as [r2 st1]. cbn [fst snd] in *. subst r2.
    destruct r as [x|e| |]; try done.
    + destruct (IH s1 st1 Hn Hok Hrep) as [Hl Hrep'].
      destruct (perform_all perform cs s1), (perform_all spec_perform cs st1). cbn [fst snd] in *. subst. split; [done|].
      intros Hp. apply Hrep'. intros Hin. apply Hp. by right.
    + destruct (IH s1 st1 Hn Hok Hrep) as [Hl Hrep'].
      destruct (perform_all perform cs s1), (perform_all spec_perform cs st1). cbn [fst snd] in *. subst. split; [done|].
      intros Hp. apply Hrep'. intros Hin. apply Hp. by right.
    + split; [done|]. intros Hp. destruct Hp. left.
Qed.

(** *** A new writer *)

Definition spec_new : spec_state :=
  mkSpec (mkIds bm_empty [] 1 bm_empty [] 1 None []) [RHeader (mkHeader (wo_profile o) (wo_library o))].

Lemma new_represents w n : file w [] 0 → record_wf (RHeader (mkHeader (wo_profile o) (wo_library o))) = true →
  (default 0 (wo_chunk_size o) ≤ isize_max)%Z → (0 ≤ n)%Z →
  (zlen MAGIC + zlen (record_frame (RHeader (mkHeader (wo_profile o) (wo_library o)))) + n ≤ u64_max)%Z →
  ∃ s, Writer_with_options w o = Ok s ∧ represents n s spec_new.
Proof.
  intros Hw Hh Hcs Hn Hroom. unfold Writer_with_options.
  assert (over file [] w []) as Hw0 by by apply over_nil.
  pose proof (ccw_new_rep (over file []) w [] (wo_calculate_data_section_crc o) Hw0) as Hc. fold (start_hash (wo_calculate_data_section_crc o)) in Hc.
  set (header := RHeader (mkHeader (wo_profile o) (wo_library o))) in *.
  destruct (run_sinks (rep:=ccw_rep (over file []) [] (start_hash (wo_calculate_data_section_crc o))) (cap:=u64_max) _ _ _ _
    (sinks_write _ _ MAGIC) Hc) as (c1 & E1 & Hc1); [zlen_facts; cbn [app]; lia|].
  rewrite E1. cbn [map_err mbind outcome_bind].
  destruct (run_sinks (rep:=ccw_rep (over file []) [] (start_hash (wo_calculate_data_section_crc o))) (cap:=u64_max) _ _ _ _
    (sinks_record _ _ header Hh eq_refl) Hc1) as (c2 & E2 & Hc2).
  { rewrite app_nil_l, zlen_app. lia. }
  rewrite E2. cbn [map_err mbind outcome_bind]. rewrite app_nil_l in Hc2.
  set (mode := if wo_use_chunks o && wo_disable_seeking o then Buffered [] else Direct).
  assert (is_buffered mode = buffered o) as Hmode by (unfold mode, buffered; by destruct (_ && _)).
  unfold with_capacity. rewrite (proj2 (Z.leb_le _ _)) by done.
  match goal with |- context [if wo_use_chunks o && wo_disable_seeking o then ?x else ?y] =>
    replace (if wo_use_chunks o && wo_disable_seeking o then x else y) with (Ok (E:=McapError) mode)
      by (unfold mode; by destruct (_ && _)) end.
  cbn [mbind outcome_bind]. eexists. split; [done|].
  assert (contents o [header_item o] = MAGIC ++ record_frame header) as Hcont.
  { unfold contents. change (items_bytes o [header_item o]) with (item_bytes o (header_item o) ++ []).
    rewrite app_nil_r. unfold header_item. by rewrite item_bytes_record. }
  exists (mkState [header_item o] None). split_and!; try done.
  - split; try done.
    + split; [|done]. exists c2. split; [done|]. apply raw_rep_hash. exists [], (start_hash (wo_calculate_data_section_crc o)).
      cbn [a_items]. rewrite Hcont. split; [done|]. exists (MAGIC ++ record_frame header). rewrite Hcont. split; [done|].
      assert (hashed o [header_item o] = contents o [header_item o]) as Hhash by reflexivity.
      unfold data_hash, start_hash. rewrite Hhash, Hcont. by destruct (wo_calculate_data_section_crc o).
    + by destruct (wo_emit_attachment_indexes o).
    + by destruct (wo_emit_metadata_indexes o).
    + split; try done. unfold WriterTheory.state_size. cbn [a_items a_open]. rewrite Hcont, zlen_app. lia.
  - split; [|done]. apply Forall_cons. split; [|constructor]. split; [|done].
    change (record_wf header && true && true = true). by rewrite Hh.
  - split; apply reg_empty.
  - unfold WriterTheory.state_size. cbn [a_items a_open]. rewrite Hcont, zlen_app. lia.
Qed.
End refinement.
