(* ===== verification/Instances.v ===== *)
(** Concrete instances of what the writer uses of other crates: a bidirectional map as a
    list of pairs, a hash map iterated in the order of its keys, and compression libraries
    that have no encoder. The examples run the writer with them. *)

From S2P Require Import Prelude Utf8 BTree Errors Bin Records Crc Io Channels Summary ChunkWriter Writer.

Module Instances.

(** ** A bidirectional map *)

Section pairs.
Context {L R : Type} `{EqDecision L, EqDecision R}.

Fixpoint get_left (x : L) (l : list (L * R)) : option R :=
  match l with
  | [] => None
  | (y, r) :: l => if decide (x = y) then Some r else get_left x l
  end.
Fixpoint get_right (x : R) (l : list (L * R)) : option L :=
  match l with
  | [] => None
  | (y, r) :: l => if decide (x = r) then Some y else get_right x l
  end.

(** No two pairs share a side. *)
Definition fresh (x : L) (r : R) (l : list (L * R)) : bool :=
  match get_left x l, get_right r l with None, None => true | _, _ => false end.
Fixpoint good (l : list (L * R)) : bool :=
  match l with
  | [] => true
  | (x, r) :: l => fresh x r l && good l
  end.
Definition insert_pair (x : L) (r : R) (m : { l | good l = true }) : option { l | good l = true } :=
  match Bool.bool_dec (good ((x, r) :: `m)) true with
  | left H => Some (exist _ _ H)
  | right _ => None
  end.

Lemma fresh_true x r l : fresh x r l = true ↔ get_left x l = None ∧ get_right r l = None.
Proof. unfold fresh. destruct (get_left x l), (get_right r l); naive_solver. Qed.

Lemma get_sides x r l : good l = true → get_left x l = Some r ↔ get_right r l = Some x.
Proof.
  induction l as [|[y s] l IH]; [done|]. cbn [good get_left get_right]. rewrite andb_true_iff, fresh_true.
  intros [[Hl Hr] Hg]. specialize (IH Hg). destruct (decide (x = y)) as [->|], (decide (r = s)) as [->|]; naive_solver.
Qed.
End pairs.

#[export] Instance pairs_BiMap {L R} `{EqDecision L, EqDecision R} : BiMap L R := {|
  bimap := { l : list (L * R) | good l = true };
  bm_empty := exist _ [] eq_refl;
  bm_get_by_left x m := get_left x (`m);
  bm_get_by_right r m := get_right r (`m);
  bm_insert_no_overwrite := insert_pair;
|}.

#[export] Instance pairs_BiMapOk {L R} `{EqDecision L, EqDecision R} : BiMapOk L R.
Proof.
  split; cbn.
  - done.
  - intros x r [l Hl]. by apply get_sides.
  - intros x r [l Hl]. unfold insert_pair.
    destruct (Bool.bool_dec _ _) as [Hf|Hf]; pose proof Hf as Hf'; cbn [proj1_sig good] in Hf' |- *; rewrite Hl, andb_true_r in Hf'.
    + apply fresh_true in Hf' as [-> ->]. split; [done|]. by intros [[]|[]].
    + split; [intros _|done]. clear Hf. rename Hf' into Hf. unfold fresh in Hf. destruct (get_left x l), (get_right r l); eauto. done.
  - intros x r [l Hl] m' y. unfold insert_pair. destruct (Bool.bool_dec _ _); [|done]. intros [= <-]. done.
Qed.

(** ** A hash map *)

#[export] Instance sorted_order : HashOrder := λ A m, map_to_list m.
#[export] Instance sorted_order_ok : HashOrderOk.
Proof. intros A m. done. Qed.

(** ** Compression libraries without an encoder *)

#[export] Instance no_zstd : ZstdEncoderLib := {|
  zraw_encoder := unit;
  zraw_with_dictionary _ := Err (OtherIo 0);
  zraw_set_workers _ _ := Err (OtherIo 0);
  zio_writer W := W;
  zio_new W w _ := w;
  zio_write W _ _ w := (Err (OtherIo 0), w);
  zio_flush W _ w := (Err (OtherIo 0), w);
  zio_finish W _ w := (Err (OtherIo 0), w);
  zio_into_inner W w := w;
|}.
#[export] Instance no_lz4 : Lz4EncoderLib := {|
  lz4_encoder W := W;
  lz4_build W _ _ _ := Err (OtherIo 0);
  lz4_write W _ _ w := (Err (OtherIo 0), w);
  lz4_flush W _ w := (Err (OtherIo 0), w);
  lz4_finish W _ w := (Err (OtherIo 0), w);
|}.
End Instances.
