(* ===== verification/WriterLog.v ===== *)
(** The log of the writer's specification: whatever a client calls, every record in it
    refers to what was declared before it, no identifier is declared twice, and the
    registries and the counts are those of the log. *)

From S2P Require Import Prelude Utf8 BTree Errors Bin Records Crc Io Codec Channels Summary ChunkWriter ChunkWriterTheory Writer WriterTheory WriterSpec Instances.

(** ** What a log declares *)

Definition declared_schema (r : record) : option (Z * SchemaContent) :=
  match r with
  | RSchema h data => Some (sh_id h, mkSchemaContent (sh_name h) (sh_encoding h) data)
  | _ => None
  end.
Definition declared_channel (r : record) : option (Z * ChannelContent) :=
  match r with
  | RChannel c => Some (c_id c, mkChannelContent (c_topic c) (c_schema_id c) (c_message_encoding c) (c_metadata c))
  | _ => None
  end.
Definition log_schemas (l : list record) : list (Z * SchemaContent) := omap declared_schema l.
Definition log_channels (l : list record) : list (Z * ChannelContent) := omap declared_channel l.

(** A record that may follow the log [l]. *)
Definition admissible (l : list record) (r : record) : Prop :=
  match r with
  | RSchema h _ => sh_id h ∉ (log_schemas l).*1
  | RChannel c => c_id c ∉ (log_channels l).*1 ∧ (c_schema_id c = 0%Z ∨ c_schema_id c ∈ (log_schemas l).*1)
  | RMessage h _ => m_channel_id h ∈ (log_channels l).*1
  | _ => True
  end.
Inductive scoped : list record → Prop :=
| scoped_nil : scoped []
| scoped_snoc l r : scoped l → admissible l r → scoped (l ++ [r]).

Definition on_channel (id : Z) (r : record) : bool :=
  match r with RMessage h _ => (m_channel_id h =? id)%Z | _ => false end.

Lemma log_schemas_snoc l r : log_schemas (l ++ [r]) = log_schemas l ++ option_list (declared_schema r).
Proof. unfold log_schemas. rewrite omap_app. cbn. by destruct (declared_schema r). Qed.
Lemma log_channels_snoc l r : log_channels (l ++ [r]) = log_channels l ++ option_list (declared_channel r).
Proof. unfold log_channels. rewrite omap_app. cbn. by destruct (declared_channel r). Qed.

(** The sum of the counts. *)
Definition total (m : list (Z * Z)) : Z := foldr (λ p n, (p.2 + n)%Z) 0%Z m.
Lemma total_insert k v m : (total (bt_insert k v m) = total m - default 0 (bt_get k m) + v)%Z.
Proof.
  unfold total. induction m as [|[k' v'] m IH]; [cbn; lia|]. cbn [bt_get bt_insert].
  destruct (kltb k k'); [cbn; lia|]. destruct (kltb k' k); cbn [foldr snd from_option]; [rewrite IH|unfold Datatypes.id]; lia.
Qed.

(** ** A registry and what was declared *)

Section registry.
Context {C : Type} `{EqDecision C, !BiMap C Z, !BiMapOk C Z}.

Record reg_log (known : bimap C Z) (all : list (Z * Z)) (decls : list (Z * C)) : Prop := {
  rl_decl id c : (id, c) ∈ decls ↔ ∃ k, bt_get id all = Some k ∧ bm_get_by_right k known = Some c;
  rl_count : length all = length decls;
}.

Lemma reg_log_empty : reg_log bm_empty [] [].
Proof. split; [|done]. intros id c. split; [by intros ?%not_elem_of_nil|]. by intros (k & [=] & _). Qed.

Lemma or_same_left c id (known : bimap C Z) c' : bm_get_by_right id known = None →
  bm_get_by_left c' (or_same c id known) =
    if decide (c' = c) then Some (default id (bm_get_by_left c known)) else bm_get_by_left c' known.
Proof.
  intros Hid. unfold or_same. destruct (bm_insert_no_overwrite c id known) as [known'|] eqn:E; cbn [from_option Datatypes.id].
  - rewrite (bm_insert_left _ _ _ _ _ E). destruct (decide _); [|done].
    destruct (bm_get_by_left c known) as [k|] eqn:Hk; [|done]. exfalso.
    assert (bm_insert_no_overwrite c id known = None) as Hn by (apply bm_insert_fails; left; by exists k). congruence.
  - apply bm_insert_fails in E as [[k Hk]|[c0 Hc]]; [|congruence]. rewrite Hk. by destruct (decide _) as [->|].
Qed.

Lemma not_known_id known all next id : reg_ok known all next → bt_get id all = None → bm_get_by_right id known = None.
Proof.
  intros Hok Hid. destruct (bm_get_by_right id known) as [c|] eqn:Hc; [|done].
  apply bm_sides, (reg_known _ _ _ Hok) in Hc. congruence.
Qed.

(** A content under an identifier that is new. *)
Lemma reg_declare known all next c id next' : reg_ok known all next → bt_get id all = None →
  (0 ≤ id ≤ u16_max)%Z → (0 ≤ next' ≤ u16_max)%Z →
  reg_ok (or_same c id known) (bt_insert id (default id (bm_get_by_left c known)) all) next'.
Proof.
  intros Hok Hid Hr Hn. destruct (bm_get_by_left c known) as [k|] eqn:Hk; cbn [from_option Datatypes.id].
  - rewrite (or_same_known _ _ _ k) by done. apply reg_with_next with next; [|done]. by eapply reg_alias.
  - destruct (reg_register _ _ _ _ id next' Hok Hk Hid Hr Hn) as (known' & E & Hreg). unfold or_same. by rewrite E.
Qed.

Lemma reg_log_declare known all next decls c id : reg_ok known all next → reg_log known all decls → bt_get id all = None →
  reg_log (or_same c id known) (bt_insert id (default id (bm_get_by_left c known)) all) (decls ++ [(id, c)]).
Proof.
  intros Hok [Hd Hl] Hid. pose proof (not_known_id _ _ _ _ Hok Hid) as Hr. split; last first.
  { rewrite bt_insert_length, length_app, Hl by done. cbn. lia. }
  intros id' c'. rewrite elem_of_app, list_elem_of_singleton, Hd.
  setoid_rewrite <-bm_sides. setoid_rewrite or_same_left; [|done].
  rewrite bt_get_insert_case by apply Hok. destruct (decide (id' = id)) as [->|Hne].
  - split.
    + intros [(k & Hk & _)|[= ->]]; [congruence|]. eexists. split; [done|]. by rewrite decide_True.
    + intros (k & [= <-] & Hc). right. f_equal. destruct (decide (c' = c)) as [|Hc']; [done|]. exfalso.
      destruct (bm_get_by_left c known) as [k|] eqn:Hk; cbn in Hc.
      * apply Hc'. apply bm_sides in Hc, Hk. congruence.
      * apply (reg_known _ _ _ Hok) in Hc. congruence.
  - split.
    + intros [(k & Hk & Hc)|[= ]]; [|done]. exists k. split; [done|]. destruct (decide (c' = c)) as [->|]; [|done]. by rewrite Hc.
    + intros (k & Hk & Hc). left. exists k. split; [done|]. destruct (decide (c' = c)) as [->|]; [|done].
      destruct (bm_get_by_left c known) as [k0|] eqn:Hk0; [done|]. cbn in Hc. injection Hc as <-.
      destruct (reg_canonical _ _ _ Hok _ _ Hk) as [x Hx]. congruence.
Qed.

Lemma reg_log_fresh known all decls id : reg_log known all decls → bt_get id all = None → id ∉ decls.*1.
Proof. intros [Hd _] Hid ([i c] & -> & (k & Hk & _)%Hd)%list_elem_of_fmap. cbn in Hid. congruence. Qed.
Lemma reg_log_known known all next decls id k : reg_ok known all next → reg_log known all decls →
  bt_get id all = Some k → id ∈ decls.*1.
Proof.
  intros Hok [Hd _] Hk. destruct (reg_canonical _ _ _ Hok _ _ Hk) as [c Hc]. apply list_elem_of_fmap.
  exists (id, c). split; [done|]. apply Hd. by exists k.
Qed.
End registry.

(** ** The invariant *)

Section log.
Context `{!BiMap ChannelContent Z, !BiMap SchemaContent Z, !BiMapOk ChannelContent Z, !BiMapOk SchemaContent Z}.

Record log_ok (st : spec_state) : Prop := {
  lo_ids : ids_ok (sp_ids st);
  lo_scoped : scoped (sp_log st);
  lo_schemas : reg_log (i_schemas (sp_ids st)) (i_schema_ids (sp_ids st)) (log_schemas (sp_log st));
  lo_channels : reg_log (i_channels (sp_ids st)) (i_channel_ids (sp_ids st)) (log_channels (sp_log st));
  lo_sorted : bt_sorted (i_counts (sp_ids st)) = true;
  lo_counts id : default 0%Z (bt_get id (i_counts (sp_ids st))) = logged (on_channel id) (sp_log st);
  lo_total : total (i_counts (sp_ids st)) = messages_in (sp_log st);
  lo_bounds : i_bounds (sp_ids st) = bounds_of (sp_log st);
  lo_counted id n : bt_get id (i_counts (sp_ids st)) = Some n → is_Some (bt_get id (i_channel_ids (sp_ids st)));
  lo_attachments : (logged is_attachment_record (sp_log st) ≤ u32_max)%Z;
  lo_metadatas : (logged is_metadata_record (sp_log st) ≤ u32_max)%Z;
}.

Lemma logged_snoc p l r : logged p (l ++ [r]) = (logged p l + if p r then 1 else 0)%Z.
Proof. rewrite logged_app. unfold logged at 2. cbn. by destruct (p r). Qed.

(** A record that is no declaration and no message leaves it all alone. *)
Lemma log_ok_other st r : log_ok st → declared_schema r = None → declared_channel r = None → is_message r = false →
  (logged is_attachment_record (sp_log st ++ [r]) ≤ u32_max)%Z → (logged is_metadata_record (sp_log st ++ [r]) ≤ u32_max)%Z →
  log_ok (mkSpec (sp_ids st) (sp_log st ++ [r])).
Proof.
  intros [Hi Hs Hls Hlc Hso Hc Ht Hb Hk Ha Hm] Ds Dc Dm Ha' Hm'. split; cbn [sp_ids sp_log]; try done.
  - constructor; [done|]. by destruct r.
  - by rewrite log_schemas_snoc, Ds, app_nil_r.
  - by rewrite log_channels_snoc, Dc, app_nil_r.
  - intros id. rewrite logged_snoc, Hc. destruct r; cbn; try done; lia.
  - by rewrite messages_in_snoc, Dm, Z.add_0_r.
  - rewrite bounds_of_snoc, Hb. by destruct r.
Qed.

Lemma log_ok_ids st i : log_ok st → ids_ok i → i_schemas i = i_schemas (sp_ids st) → i_schema_ids i = i_schema_ids (sp_ids st) →
  i_channels i = i_channels (sp_ids st) → i_channel_ids i = i_channel_ids (sp_ids st) →
  i_counts i = i_counts (sp_ids st) → i_bounds i = i_bounds (sp_ids st) → log_ok (mkSpec i (sp_log st)).
Proof. intros [Hi Hs Hls Hlc Hso Hc Ht Hb Hk Ha Hm] Hok E1 E2 E3 E4 E5 E6. split; cbn [sp_ids sp_log]; by rewrite ?E1, ?E2, ?E3, ?E4, ?E5, ?E6. Qed.

(** A schema under an identifier that is new. *)
Definition schema_of_content (id : Z) (c : SchemaContent) : record :=
  RSchema (mkSchemaHeader id (sc_name c) (sc_encoding c)) (sc_data c).
Definition channel_of_content (id : Z) (c : ChannelContent) : record :=
  RChannel (mkChannelRecord id (cc_schema_id c) (cc_topic c) (cc_message_encoding c) (cc_metadata c)).

Lemma log_ok_schema st c id next : log_ok st → bt_get id (i_schema_ids (sp_ids st)) = None →
  (0 ≤ id ≤ u16_max)%Z → (0 ≤ next ≤ u16_max)%Z → let i := sp_ids st in
  log_ok (mkSpec (i_set_schemas (or_same c id (i_schemas i)) (bt_insert id (default id (bm_get_by_left c (i_schemas i))) (i_schema_ids i)) next i)
    (sp_log st ++ [schema_of_content id c])).
Proof.
  intros [[His Hic] Hs Hls Hlc Hso Hc Ht Hb Hcd Ha Hm] Hid Hr Hn i. split; cbn [sp_ids sp_log i_set_schemas i_schemas i_schema_ids i_channels i_channel_ids i_counts i_bounds]; try done.
  - split; [|done]. by eapply reg_declare.
  - constructor; [done|]. cbn. by eapply reg_log_fresh.
  - rewrite log_schemas_snoc. cbn. destruct c. by eapply reg_log_declare.
  - by rewrite log_channels_snoc, app_nil_r.
  - intros id'. rewrite logged_snoc, Hc. cbn. lia.
  - by rewrite messages_in_snoc, Z.add_0_r.
  - subst i. by rewrite bounds_of_snoc, Hb.
  - by rewrite logged_snoc, Z.add_0_r.
  - by rewrite logged_snoc, Z.add_0_r.
Qed.

Definition schema_known (st : spec_state) (id : Z) : Prop :=
  id = 0%Z ∨ is_Some (bt_get id (i_schema_ids (sp_ids st))).

Lemma log_ok_channel st c id next : log_ok st → bt_get id (i_channel_ids (sp_ids st)) = None → schema_known st (cc_schema_id c) →
  (0 ≤ id ≤ u16_max)%Z → (0 ≤ next ≤ u16_max)%Z → let i := sp_ids st in
  log_ok (mkSpec (i_set_channels (or_same c id (i_channels i)) (bt_insert id (default id (bm_get_by_left c (i_channels i))) (i_channel_ids i)) next i)
    (sp_log st ++ [channel_of_content id c])).
Proof.
  intros [[His Hic] Hs Hls Hlc Hso Hc Ht Hb Hcd Ha Hm] Hid Hk Hr Hn i. split; cbn [sp_ids sp_log i_set_channels i_schemas i_schema_ids i_channels i_channel_ids i_counts i_bounds]; try done.
  - split; [done|]. by eapply reg_declare.
  - constructor; [done|]. cbn. split; [by eapply reg_log_fresh|]. destruct Hk as [|[k Hk]]; [by left|right]. by eapply reg_log_known.
  - by rewrite log_schemas_snoc, app_nil_r.
  - rewrite log_channels_snoc. cbn. destruct c. by eapply reg_log_declare.
  - intros id'. rewrite logged_snoc, Hc. cbn. lia.
  - by rewrite messages_in_snoc, Z.add_0_r.
  - subst i. by rewrite bounds_of_snoc, Hb.
  - intros id' n. rewrite bt_get_insert_case by apply Hic. destruct (decide _); [by eexists|]. apply Hcd.
  - by rewrite logged_snoc, Z.add_0_r.
  - by rewrite logged_snoc, Z.add_0_r.
Qed.

Lemma log_ok_message st h data : log_ok st → is_Some (bt_get (m_channel_id h) (i_channel_ids (sp_ids st))) → let i := sp_ids st in
  log_ok (mkSpec (i_set_counts (extend_bounds (i_bounds i) (m_log_time h))
      (bt_insert (m_channel_id h) (default 0 (bt_get (m_channel_id h) (i_counts i)) + 1)%Z (i_counts i)) i)
    (sp_log st ++ [RMessage h data])).
Proof.
  intros [[His Hic] Hs Hls Hlc Hso Hc Ht Hb Hcd Ha Hm] [k Hk] i. split; cbn [sp_ids sp_log i_set_counts i_schemas i_schema_ids i_channels i_channel_ids i_counts i_bounds]; try done.
  - constructor; [done|]. by eapply reg_log_known.
  - by rewrite log_schemas_snoc, app_nil_r.
  - by rewrite log_channels_snoc, app_nil_r.
  - by apply bt_insert_sorted.
  - intros id. rewrite logged_snoc, bt_get_insert_case by done. cbn [on_channel]. destruct (decide (id = m_channel_id h)) as [->|Hne].
    + by rewrite Z.eqb_refl, <-Hc.
    + rewrite (proj2 (Z.eqb_neq _ _)) by done. by rewrite Z.add_0_r.
  - subst i. rewrite total_insert, messages_in_snoc, Ht. cbn [is_message]. lia.
  - rewrite bounds_of_snoc. cbn. subst i. by rewrite Hb.
  - intros id n. subst i. rewrite bt_get_insert_case by done. destruct (decide _) as [->|]; [by exists k|]. apply Hcd.
  - by rewrite logged_snoc, Z.add_0_r.
  - by rewrite logged_snoc, Z.add_0_r.
Qed.

(** ** Every call keeps it *)

Definition keeps_log {A} (m : method spec_state McapError A) : Prop := ∀ st, log_ok st → log_ok (m st).2.

Lemma bind_panic {S E A B} (f : A → method S E B) s : (lift Panic ≫= f) s = (Panic, s).
Proof. done. Qed.

Lemma add_schema_keeps name encoding data : keeps_log (spec_add_schema name encoding data).
Proof.
  intros st Hst. unfold spec_add_schema, get_ids. rewrite bind_gets.
  destruct (bm_get_by_left _ _) as [id|] eqn:Hk; [done|]. pose proof Hst as [[His Hic] _ _ _ _ _ _ _ _ _ _].
  pose proof (next_free_spec (Z.to_nat u16_max) (i_schema_ids (sp_ids st)) (i_next_schema (sp_ids st)) (reg_next _ _ _ His)
    ltac:(pose proof (reg_next _ _ _ His); lia)) as Hfree. pose proof (reg_next _ _ _ His).
  destruct (next_free _ _ _) as [free id].
  assert (0 ≤ id ≤ u16_max)%Z as Hid by (destruct free; [lia|destruct Hfree as [-> _]; done]).
  unfold on_ids, emit. rewrite bind_modify.
  assert (log_ok (mkSpec (i_set_schemas (i_schemas (sp_ids st)) (i_schema_ids (sp_ids st)) id (sp_ids st)) (sp_log st))) as Hst'.
  { apply log_ok_ids; try done. split; [|done]. by eapply reg_with_next. }
  destruct free; cbn [negb]; [|done]. destruct (Z.eqb_spec id u16_max) as [|Hne]; [done|]. rewrite !bind_modify. cbn.
  destruct Hfree as (_ & Hg & _).
  pose proof (log_ok_schema st (mkSchemaContent name encoding data) id (id + 1)%Z Hst Hg Hid ltac:(lia)) as Hok.
  cbn -[bt_get bt_insert] in Hok. by rewrite Hk in Hok.
Qed.

Lemma add_channel_keeps schema_id topic encoding metadata : keeps_log (spec_add_channel schema_id topic encoding metadata).
Proof.
  intros st Hst. unfold spec_add_channel, get_ids. rewrite bind_gets.
  destruct (bm_get_by_left _ _) as [id|] eqn:Hk; [done|]. pose proof Hst as [[His Hic] _ _ _ _ _ _ _ _ _ _].
  destruct (negb (schema_id =? 0)%Z && negb (bt_contains schema_id (i_schema_ids (sp_ids st)))) eqn:Hsc; [done|].
  pose proof (reg_next _ _ _ Hic).
  pose proof (next_free_spec (Z.to_nat u16_max) (i_channel_ids (sp_ids st)) (i_next_channel (sp_ids st)) (reg_next _ _ _ Hic)
    ltac:(lia)) as Hfree.
  destruct (next_free _ _ _) as [free id].
  assert (0 ≤ id ≤ u16_max)%Z as Hid by (destruct free; [lia|destruct Hfree as [-> _]; done]).
  unfold on_ids, emit. rewrite bind_modify.
  assert (log_ok (mkSpec (i_set_channels (i_channels (sp_ids st)) (i_channel_ids (sp_ids st)) id (sp_ids st)) (sp_log st))) as Hst'.
  { apply log_ok_ids; try done. split; [done|]. by eapply reg_with_next. }
  destruct free; cbn [negb]; [|done]. destruct (Z.eqb_spec id u16_max) as [|Hne]; [done|]. rewrite !bind_modify. cbn.
  destruct Hfree as (_ & Hg & _).
  assert (schema_known st schema_id) as Hkn.
  { unfold schema_known. unfold bt_contains in Hsc. destruct (Z.eqb_spec schema_id 0); [by left|right]. cbn in Hsc. by destruct (bt_get _ _). }
  pose proof (log_ok_channel st (mkChannelContent topic schema_id encoding metadata) id (id + 1)%Z Hst Hg Hkn Hid ltac:(lia)) as Hok.
  cbn -[bt_get bt_insert] in Hok. by rewrite Hk in Hok.
Qed.

Lemma write_to_known_keeps h data : keeps_log (spec_write_to_known_channel h data).
Proof.
  intros st Hst. unfold spec_write_to_known_channel, get_ids. rewrite bind_gets. unfold bt_contains.
  destruct (bt_get (m_channel_id h) (i_channel_ids (sp_ids st))) as [k|] eqn:Hk; cbn [negb]; [|done].
  unfold add_. destruct (_ <=? _)%Z; [|done]. rewrite bind_lift. unfold on_ids, emit. rewrite bind_modify. cbn.
  by apply log_ok_message.
Qed.

Lemma ensure_schema_keeps s st : log_ok st → (0 ≤ schema_id s ≤ u16_max)%Z →
  log_ok (spec_ensure_schema s st).2 ∧
  match (spec_ensure_schema s st).1 with Ok _ => is_Some (bt_get (schema_id s) (i_schema_ids (sp_ids (spec_ensure_schema s st).2))) | _ => True end.
Proof.
  intros Hst Hid. unfold spec_ensure_schema, get_ids. rewrite bind_gets.
  destruct (bt_get _ _) as [other|] eqn:Hg.
  - destruct (bm_get_by_left _ _); [|done]. destruct (_ =? _)%Z; [|done]. split; [done|]. by eexists.
  - unfold on_ids, emit. rewrite bind_modify. cbn [snd modify fst sp_ids sp_log].
    pose proof Hst as [[His Hic] _ _ _ _ _ _ _ _ _ _].
    split; [exact (log_ok_schema st (mkSchemaContent (schema_name s) (schema_encoding s) (schema_data s)) _ _ Hst Hg Hid (reg_next _ _ _ His))|].
    cbn. rewrite bt_insert_get_eq. by eexists.
Qed.
Lemma ensure_channel_keeps c st : log_ok st → (0 ≤ channel_id c ≤ u16_max)%Z → schema_known st (channel_schema_id c) →
  log_ok (spec_ensure_channel c st).2.
Proof.
  intros Hst Hid Hkn. unfold spec_ensure_channel, get_ids. rewrite bind_gets.
  destruct (bt_get _ _) as [other|] eqn:Hg.
  - destruct (bm_get_by_left _ _); [|done]. by destruct (_ =? _)%Z.
  - unfold on_ids, emit. rewrite bind_modify. cbn [snd modify fst sp_ids sp_log].
    pose proof Hst as [[His Hic] _ _ _ _ _ _ _ _ _ _].
    exact (log_ok_channel st (mkChannelContent (channel_topic c) (channel_schema_id c) (channel_message_encoding c) (channel_metadata c)) _ _ Hst Hg Hkn Hid (reg_next _ _ _ Hic)).
Qed.

Lemma log_ok_bind {A B} (m : method spec_state McapError A) (f : A → method spec_state McapError B) st :
  log_ok (m st).2 → (∀ a, (m st).1 = Ok a → log_ok (f a (m st).2).2) → log_ok ((m ≫= f) st).2.
Proof. unfold mbind, method_bind. destruct (m st) as [[a|e| |] st']; cbn; intros Hm Hf; [by apply Hf|done..]. Qed.

Definition message_ids_ok (m : Message) : Prop :=
  (0 ≤ channel_id (message_channel m) ≤ u16_max)%Z ∧
  match channel_schema (message_channel m) with Some s => (0 ≤ schema_id s ≤ u16_max)%Z | None => True end.

Lemma write_keeps m : message_ids_ok m → keeps_log (spec_write m).
Proof.
  intros [Hc Hs] st Hst. unfold spec_write.
  set (ensure := match channel_schema (message_channel m) with Some schema => spec_ensure_schema schema | None => mret () end).
  assert (log_ok (ensure st).2 ∧ ((ensure st).1 = Ok () → schema_known (ensure st).2 (channel_schema_id (message_channel m)))) as [He Hk].
  { subst ensure. unfold channel_schema_id, schema_known. destruct (channel_schema _) as [s|]; cbn [fmap option_fmap option_map from_option Datatypes.id].
    - destruct (ensure_schema_keeps s st Hst Hs) as [Hok Hkn]. split; [done|]. intros E. rewrite E in Hkn. by right.
    - split; [done|]. by left. }
  apply log_ok_bind; [done|]. intros [] E. specialize (Hk E).
  apply log_ok_bind; [by apply ensure_channel_keeps|]. intros [] _. apply write_to_known_keeps. by apply ensure_channel_keeps.
Qed.

Lemma emit_counted_keeps p r : declared_schema r = None → declared_channel r = None → is_message r = false →
  (∀ st, log_ok st → (logged p (sp_log st) < u32_max)%Z →
     (logged is_attachment_record (sp_log st ++ [r]) ≤ u32_max)%Z ∧ (logged is_metadata_record (sp_log st ++ [r]) ≤ u32_max)%Z) →
  keeps_log (emit_counted p r).
Proof.
  intros Ds Dc Dm Hp st Hst. unfold emit_counted, emit. rewrite bind_gets.
  destruct (Z.ltb_spec (logged p (sp_log st)) u32_max) as [Hlt|]; [|done].
  destruct (Hp st Hst Hlt). by apply log_ok_other.
Qed.

Lemma keeps_no_id {A} (m : method spec_state McapError A) : keeps_log m → keeps_log (no_id m).
Proof. intros Hm st Hst. specialize (Hm st Hst). unfold no_id, fmap, method_fmap. by destruct (m st). Qed.

Lemma perform_keeps `{Crc} o c : call_ok o c → keeps_log (spec_perform o c).
Proof.
  destruct c; cbn [call_ok spec_perform]; intros Hc.
  - apply add_schema_keeps.
  - apply add_channel_keeps.
  - apply keeps_no_id, write_keeps. unfold message_ok in Hc. rewrite !andb_true_iff in Hc. destruct Hc as [[[Hs _] Hid] _].
    split; [by apply u16_range|]. destruct (channel_schema _); [|done]. apply andb_true_iff in Hs as [_ Hs]. by apply u16_range.
  - apply keeps_no_id, write_to_known_keeps.
  - apply keeps_no_id. intros st Hst. unfold spec_write_private_record. destruct (_ <? _)%Z; [done|].
    apply log_ok_other; try done; rewrite logged_snoc, Z.add_0_r; apply Hst.
  - apply keeps_no_id. apply emit_counted_keeps; try done. intros st Hst Hlt. rewrite !logged_snoc. cbn [is_attachment_record is_metadata_record].
    pose proof (lo_metadatas _ Hst). lia.
  - apply keeps_no_id. apply emit_counted_keeps; try done. intros st Hst Hlt. rewrite !logged_snoc. cbn [is_attachment_record is_metadata_record].
    pose proof (lo_attachments _ Hst). lia.
  - by intros st Hst.
Qed.

Lemma perform_all_keeps `{Crc} o cs : Forall (call_ok o) cs → ∀ st, log_ok st → log_ok (perform_all (spec_perform o) cs st).2.
Proof.
  induction 1 as [|c cs Hc _ IH]; intros st Hst; [done|]. cbn [perform_all]. pose proof (perform_keeps o c Hc st Hst) as Hk.
  destruct (spec_perform o c st) as [[x|e| |] st1]; cbn [snd] in Hk; try done;
    specialize (IH _ Hk); by destruct (perform_all _ cs st1).
Qed.

Lemma spec_new_ok o : log_ok (spec_new o).
Proof.
  split; cbn; try done.
  - split; apply reg_empty.
  - apply (scoped_snoc []); [constructor|done].
  - apply reg_log_empty.
  - apply reg_log_empty.
Qed.
End log.

(** ** How much is logged *)

Section size.
Context `{!BiMap ChannelContent Z, !BiMap SchemaContent Z}.

Definition log_size (st : spec_state) : Z := zlen (records_data (sp_log st)).
Definition grows {A} (k : Z) (m : method spec_state McapError A) : Prop := ∀ st, (log_size (m st).2 ≤ log_size st + k)%Z.

Lemma grows_bind {A B} k1 k2 (m : method spec_state McapError A) (f : A → method spec_state McapError B) :
  (0 ≤ k2)%Z → grows k1 m → (∀ a, grows k2 (f a)) → grows (k1 + k2) (m ≫= f).
Proof.
  intros Hk Hm Hf st. specialize (Hm st). unfold mbind, method_bind. destruct (m st) as [[a|e| |] st']; cbn in *; try lia.
  specialize (Hf a st'). lia.
Qed.
Lemma grows_weaken {A} k k' (m : method spec_state McapError A) : (k ≤ k')%Z → grows k m → grows k' m.
Proof. intros Hk Hm st. specialize (Hm st). lia. Qed.
Lemma grows_same {A} (m : method spec_state McapError A) : (∀ st, sp_log (m st).2 = sp_log st) → grows 0 m.
Proof. intros Hm st. unfold log_size. rewrite Hm. lia. Qed.
Lemma grows_emit r : grows (zlen (record_frame r)) (emit r).
Proof. intros st. unfold log_size, emit. cbn [modify snd sp_log]. rewrite records_data_snoc, zlen_app. lia. Qed.
Lemma grows_on_ids f : grows 0 (on_ids f).
Proof. by apply grows_same. Qed.
Lemma grows_emit_counted p r : grows (zlen (record_frame r)) (emit_counted p r).
Proof.
  intros st. unfold emit_counted. rewrite bind_gets. destruct (_ <? _)%Z; [apply grows_emit|].
  pose proof (zlen_nonneg (record_frame r)). cbn [lift snd]. lia.
Qed.
Lemma grows_lift {A} (x : McapResult A) : grows 0 (lift x).
Proof. by apply grows_same. Qed.
Lemma grows_get_ids {A} (f : id_state → method spec_state McapError A) k : (∀ i, grows k (f i)) → grows k (get_ids ≫= f).
Proof. intros Hf st. unfold get_ids. rewrite bind_gets. apply Hf. Qed.
Lemma grows_no_id {A} k (m : method spec_state McapError A) : grows k m → grows k (no_id m).
Proof. intros Hm st. specialize (Hm st). unfold no_id, fmap, method_fmap. by destruct (m st). Qed.

(** The identifiers, a record, and what follows writes nothing. *)
Lemma grows_declare {A} k f r (a : A) : (zlen (record_frame r) ≤ k)%Z → grows k (_ ← on_ids f; _ ← emit r; mret a).
Proof.
  intros Hk st. unfold on_ids, emit. rewrite !bind_modify. unfold log_size. cbn [mret method_ret snd sp_log]. rewrite records_data_snoc, zlen_app. lia.
Qed.

Lemma grows_add_schema k name encoding data : (∀ id, zlen (record_frame (RSchema (mkSchemaHeader id name encoding) data)) ≤ k)%Z →
  grows k (spec_add_schema name encoding data).
Proof.
  intros Hk. apply grows_get_ids. intros i. pose proof (Hk 0%Z). pose proof (zlen_nonneg (record_frame (RSchema (mkSchemaHeader 0 name encoding) data))).
  destruct (bm_get_by_left _ _); [apply (grows_weaken 0); [lia|by apply grows_same]|].
  destruct (next_free _ _ _) as [free id]. apply (grows_bind 0 k); [lia|apply grows_on_ids|]. intros _.
  destruct free; cbn [negb]; [|apply (grows_weaken 0); [lia|by apply grows_same]].
  destruct (_ =? _)%Z; [apply (grows_weaken 0); [lia|by apply grows_same]|]. by apply grows_declare.
Qed.
Lemma grows_add_channel k schema_id topic encoding metadata :
  (∀ id, zlen (record_frame (RChannel (mkChannelRecord id schema_id topic encoding metadata))) ≤ k)%Z →
  grows k (spec_add_channel schema_id topic encoding metadata).
Proof.
  intros Hk. apply grows_get_ids. intros i. pose proof (Hk 0%Z).
  pose proof (zlen_nonneg (record_frame (RChannel (mkChannelRecord 0 schema_id topic encoding metadata)))).
  destruct (bm_get_by_left _ _); [apply (grows_weaken 0); [lia|by apply grows_same]|].
  destruct (_ && _); [apply (grows_weaken 0); [lia|by apply grows_same]|].
  destruct (next_free _ _ _) as [free id]. apply (grows_bind 0 k); [lia|apply grows_on_ids|]. intros _.
  destruct free; cbn [negb]; [|apply (grows_weaken 0); [lia|by apply grows_same]].
  destruct (_ =? _)%Z; [apply (grows_weaken 0); [lia|by apply grows_same]|]. by apply grows_declare.
Qed.
Lemma grows_write_known h data : grows (zlen (record_frame (RMessage h data))) (spec_write_to_known_channel h data).
Proof.
  pose proof (zlen_nonneg (record_frame (RMessage h data))).
  apply grows_get_ids. intros i. destruct (negb _); [apply (grows_weaken 0); [lia|by apply grows_same]|].
  apply (grows_bind 0 _); [lia|apply grows_lift|]. intros n. apply (grows_bind 0 _); [lia|apply grows_on_ids|]. intros _. apply grows_emit.
Qed.
Lemma grows_ensure_schema s : grows (zlen (record_frame (schema_record_of s))) (spec_ensure_schema s).
Proof.
  pose proof (zlen_nonneg (record_frame (schema_record_of s))). apply grows_get_ids. intros i.
  destruct (bt_get _ _), (bm_get_by_left _ _); try (apply (grows_weaken 0); [lia|]; apply grows_same; intros st; by try destruct (_ =? _)%Z);
    (apply (grows_bind 0 _); [lia|apply grows_on_ids|]; intros _; apply grows_emit).
Qed.
Lemma grows_ensure_channel c : grows (zlen (record_frame (channel_record_of c))) (spec_ensure_channel c).
Proof.
  pose proof (zlen_nonneg (record_frame (channel_record_of c))). apply grows_get_ids. intros i.
  destruct (bt_get _ _), (bm_get_by_left _ _); try (apply (grows_weaken 0); [lia|]; apply grows_same; intros st; by try destruct (_ =? _)%Z);
    (apply (grows_bind 0 _); [lia|apply grows_on_ids|]; intros _; apply grows_emit).
Qed.

Section calls.
Context `{Crc, ZstdEncoderLib, Lz4EncoderLib} (o : WriteOptions).
Context `{!EncoderOk (wo_compression o) (wo_compression_level o) (wo_compression_threads o)}.

Lemma grows_perform c : grows (call_cost o c) (spec_perform o c).
Proof.
  destruct c as [name encoding data|sid topic encoding metadata|m|h data|opcode data opts|h data|m|]; cbn [spec_perform call_cost].
  - apply grows_add_schema. intros id. rewrite <-(schema_cost_id o id). apply record_cost_frame.
  - apply grows_add_channel. intros id. rewrite <-(channel_cost_id o id). apply record_cost_frame.
  - apply grows_no_id. unfold spec_write, message_cost.
    pose proof (record_cost_pos o (channel_record_of (message_channel m))).
    pose proof (record_cost_pos o (RMessage (message_header_of m) (message_data m))).
    apply grows_bind; [lia| |].
    + destruct (channel_schema (message_channel m)) as [s|]; [|by apply grows_same].
      eapply grows_weaken; [apply record_cost_frame|apply grows_ensure_schema].
    + intros _. apply grows_bind; [lia| |].
      * eapply grows_weaken; [apply record_cost_frame|apply grows_ensure_channel].
      * intros _. eapply grows_weaken; [apply record_cost_frame|apply grows_write_known].
  - apply grows_no_id. eapply grows_weaken; [apply record_cost_frame|apply grows_write_known].
  - apply grows_no_id. unfold spec_write_private_record. pose proof (record_cost_pos o (RUnknown opcode data)).
    destruct (_ <? _)%Z; [apply (grows_weaken 0); [lia|by apply grows_same]|].
    eapply grows_weaken; [apply record_cost_frame|apply grows_emit].
  - apply grows_no_id. destruct h as [lt ct nm mt]. unfold spec_attach, attachment_of, attachment_record, attachment_crc, attachment_prefix, attachment_hashed.
    cbn -[crc32 c_enc emit_counted record_frame]. rewrite <-app_assoc. apply grows_emit_counted.
  - apply grows_no_id, grows_emit_counted.
  - by apply grows_same.
Qed.

Lemma grows_perform_all cs : grows (calls_cost o cs) (λ st, (Ok (E:=McapError) (), (perform_all (spec_perform o) cs st).2)).
Proof.
  induction cs as [|c cs IH]; intros st; [cbn; lia|]. cbn [perform_all]. pose proof (grows_perform c st) as Hc.
  cbn [calls_cost foldr]. fold (calls_cost o cs). pose proof (calls_cost_pos o cs).
  destruct (spec_perform o c st) as [[x|e| |] st1]; cbn [snd] in *; try lia;
    specialize (IH st1); cbn [snd] in IH; destruct (perform_all _ cs st1); cbn [snd] in *; lia.
Qed.
End calls.
End size.

(** ** The arguments of calls, decided *)

Lemma schema_ok_intro `{Crc} name encoding data :
  record_ok (RSchema (mkSchemaHeader 0 name encoding) data) = true → schema_ok name encoding data.
Proof.
  intros Hr id Hid. unfold record_ok, record_wf in *. cbn [writable plain_record record_body] in *.
  rewrite !andb_true_r in *.
  change (c_wf SchemaHeader_codec (mkSchemaHeader id name encoding)) with (c_wf u16 id && c_wf rstr name && c_wf rstr encoding).
  change (c_wf SchemaHeader_codec (mkSchemaHeader 0 name encoding)) with (c_wf u16 0%Z && c_wf rstr name && c_wf rstr encoding) in Hr.
  change (c_enc SchemaHeader_codec (mkSchemaHeader id name encoding)) with ((le_enc 2 id ++ c_enc rstr name) ++ c_enc rstr encoding).
  change (c_enc SchemaHeader_codec (mkSchemaHeader 0 name encoding)) with ((le_enc 2 0%Z ++ c_enc rstr name) ++ c_enc rstr encoding) in Hr.
  rewrite !zlen_app in *. change (zlen (le_enc 2 0%Z)) with 2%Z in Hr. rewrite zlen_le_enc.
  assert (c_wf u16 id = true) as -> by (apply (uint_wf_in 2); unfold in_u, u16_max in *; cbn; lia). exact Hr.
Qed.
Lemma channel_ok_intro `{Crc} schema_id topic encoding metadata :
  record_ok (RChannel (mkChannelRecord 0 schema_id topic encoding metadata)) = true → channel_ok schema_id topic encoding metadata.
Proof.
  intros Hr id Hid. unfold record_ok, record_wf in *. cbn [writable plain_record record_body] in *.
  rewrite !andb_true_r in *.
  set (rest := c_wf u16 schema_id && c_wf rstr topic && c_wf rstr encoding && c_wf string_map metadata).
  assert (∀ i, c_wf Channel_codec (mkChannelRecord i schema_id topic encoding metadata) = c_wf u16 i && rest) as Hwf
    by (intros i; unfold rest; rewrite !andb_assoc; done).
  assert (∀ i, c_enc Channel_codec (mkChannelRecord i schema_id topic encoding metadata) =
    (((le_enc 2 i ++ le_enc 2 schema_id) ++ c_enc rstr topic) ++ c_enc rstr encoding) ++ c_enc string_map metadata) as He by done.
  rewrite Hwf, He in *. rewrite !zlen_app in *. rewrite !zlen_le_enc in *.
  assert (c_wf u16 id = true) as -> by (apply (uint_wf_in 2); unfold in_u, u16_max in *; cbn; lia). exact Hr.
Qed.

(** ** A whole run *)

Section run.
Context `{Crc, !CrcLaws, ZstdEncoderLib, Lz4EncoderLib} `{FileOk W file}.
Context `{!BiMap ChannelContent Z, !BiMap SchemaContent Z, !BiMapOk ChannelContent Z, !BiMapOk SchemaContent Z}.
Context (o : WriteOptions).
Context `{!EncoderOk (wo_compression o) (wo_compression_level o) (wo_compression_threads o)}.

Definition the_header : record := RHeader (mkHeader (wo_profile o) (wo_library o)).

(** What a client may ask for: options that fit, arguments in range, and not more than
    an unsigned 64-bit offset can address. *)
Definition run_size (cs : list call) : Z := (zlen MAGIC + zlen (record_frame the_header) + calls_cost o cs)%Z.
Record options_ok : Prop := {
  oo_chunks : chunks_bounded o;
  oo_header : record_wf the_header = true;
  oo_buffer : (default 0 (wo_chunk_size o) ≤ isize_max)%Z;
}.

(** The run of the specification, and of the writer. *)
Definition spec_run (cs : list call) : list (McapResult Z) * spec_state := perform_all (spec_perform o) cs (spec_new o).
Definition writer_run (w : W) (cs : list call) : McapResult (list (McapResult Z) * Writer (W := W)) :=
  s ← Writer_with_options w o; mret (perform_all perform cs s).

Lemma run_represents w cs n : file w [] 0 → options_ok → Forall (call_ok o) cs → (0 ≤ n)%Z → (run_size cs + n ≤ u64_max)%Z →
  ∃ s, writer_run w cs = Ok ((spec_run cs).1, s) ∧
    (Panic ∉ (spec_run cs).1 → represents o n s (spec_run cs).2 ∧ log_ok (spec_run cs).2 ∧ (log_size (spec_run cs).2 ≤ run_size cs)%Z).
Proof.
  intros Hw [Hch Hh Hb] Hcs Hn Hsz. unfold run_size in Hsz. pose proof (calls_cost_pos o cs) as Hpos.
  destruct (new_represents o w (n + calls_cost o cs) Hw Hh Hb) as (s0 & E & Hr); [lia|unfold the_header in *; lia|].
  destruct (perform_all_refines o Hch n cs s0 (spec_new o) Hn Hcs Hr) as [Ho Hrep].
  exists (perform_all perform cs s0).2. unfold writer_run. rewrite E. cbn [mbind outcome_bind mret outcome_ret].
  unfold spec_run. rewrite <-Ho, <-surjective_pairing. split; [done|]. intros Hp. split_and!.
  - by apply Hrep.
  - apply perform_all_keeps; [done|apply spec_new_ok].
  - pose proof (grows_perform_all o cs (spec_new o)) as Hg. cbn [snd] in Hg. unfold run_size.
    assert (log_size (spec_new o) = zlen (record_frame the_header)) as Hs0.
    { unfold log_size, spec_new. cbn [sp_log]. exact (f_equal zlen (app_nil_r (record_frame the_header))). }
    rewrite Hs0 in Hg. pose proof (zlen_nonneg MAGIC). lia.
Qed.

(** *** The statistics *)

Lemma sum_counts_total m acc : (∀ id n, (id, n) ∈ m → (0 ≤ n)%Z) → (0 ≤ acc)%Z → (acc + total m ≤ u64_max)%Z →
  sum_counts m acc = Ok (acc + total m)%Z.
Proof.
  revert acc. induction m as [|[id n] m IH]; intros acc Hm Ha Hsz; cbn [sum_counts total foldr snd]; [by rewrite Z.add_0_r|].
  fold (total m). cbn [total foldr snd] in Hsz. fold (total m) in Hsz.
  assert (0 ≤ total m)%Z as Ht.
  { clear -Hm. induction m as [|[i k] m IH]; [done|]. cbn [total foldr snd]. fold (total m).
    pose proof (Hm i k ltac:(right; left)). assert (0 ≤ total m)%Z; [|lia]. apply IH. intros i' k' Hin. apply (Hm i').
    apply elem_of_cons in Hin as [[= -> ->]|Hin]; [left|]. by do 2 right. }
  pose proof (Hm id n ltac:(left)). rewrite add_Ok by lia. cbn [mbind outcome_bind].
  rewrite IH by (try lia; intros i k Hin; apply (Hm i); by right). f_equal. lia.
Qed.

(** What the statistics of a log say. *)
Definition log_statistics (l : list record) (chunks : Z) (counts : list (Z * Z)) : Statistics :=
  let bounds := default (0, 0)%Z (bounds_of l) in
  mkStatistics (messages_in l) (as_u16 (zlen (log_schemas l))) (as_u32 (zlen (log_channels l)))
    (logged is_attachment_record l) (logged is_metadata_record l) (as_u32 chunks) bounds.1 bounds.2 counts.

Lemma logged_nonneg p l : (0 ≤ logged p l)%Z.
Proof. apply zlen_nonneg. Qed.

Lemma statistics_spec n s st : represents o n s st → log_ok st → (messages_in (sp_log st) ≤ u64_max)%Z →
  let counts := i_counts (sp_ids st) in
  statistics (W:=W) s = Ok (log_statistics (sp_log st) (zlen (wr_chunk_indexes s)) counts).
Proof.
  intros (a & Hs & Ha & Hl & Hi & _) Hok Hm counts. unfold statistics.
  assert (wr_channel_message_counts s = counts) as -> by (unfold counts; by rewrite <-Hi).
  rewrite (sum_counts_total counts 0%Z); [|..|lia|]; last first.
  - unfold counts. rewrite (lo_total _ Hok). lia.
  - intros id k Hin. pose proof (lo_counts _ Hok id) as Hc. unfold counts in Hin.
    rewrite (bt_get_in _ _ _ (lo_sorted _ Hok) Hin) in Hc. cbn in Hc. rewrite Hc. apply logged_nonneg.
  - cbn [mbind outcome_bind]. unfold log_statistics.
    assert (∀ {A B} (x : list A) (y : list B), length x = length y → zlen x = zlen y) as Hlen by (intros ?? x y E; unfold zlen; by rewrite E).
    rewrite <-(Hlen _ _ _ _ (rl_count _ _ _ (lo_schemas _ Hok))), <-(Hlen _ _ _ _ (rl_count _ _ _ (lo_channels _ Hok))).
    rewrite <-(lo_bounds _ Hok), <-Hi. cbn [ids i_schema_ids i_channel_ids i_bounds]. 
    rewrite Z.add_0_l. unfold counts. rewrite (lo_total _ Hok).
    rewrite (wrep_attachment_count _ _ _ Hs), (wrep_metadata_count _ _ _ Hs), <-Hl.
    by rewrite (attachments_logged o), (metadatas_logged o).
Qed.
End run.

Section properties.
Context `{Crc, !CrcLaws, ZstdEncoderLib, Lz4EncoderLib} `{FileOk W file}.
Context `{!BiMap ChannelContent Z, !BiMap SchemaContent Z, !BiMapOk ChannelContent Z, !BiMapOk SchemaContent Z}.
Context (o : WriteOptions).
Context `{!EncoderOk (wo_compression o) (wo_compression_level o) (wo_compression_threads o)}.

(** C18: the writer refines its specification, an append-only log with two registries:
    whatever calls a client makes, their outcomes - identifiers, errors and panics - are
    those of the specification, and unless one panics the bytes written (with the open
    chunk) hold the records of the specification's log, in order, whatever the chunking,
    the compression, the indexes and the checksums asked for. *)
Theorem writer_refines_log w cs : file w [] 0 → options_ok o → Forall (call_ok o) cs → (run_size o cs ≤ u64_max)%Z →
  ∃ s, writer_run o w cs = Ok ((spec_run o cs).1, s) ∧
    (Panic ∉ (spec_run o cs).1 → represents o 0 s (spec_run o cs).2).
Proof.
  intros Hw Ho Hcs Hsz. destruct (run_represents o w cs 0 Hw Ho Hcs) as (s & E & Hr); [done|lia|].
  exists s. split; [done|]. intros Hp. by apply Hr.
Qed.

(** C19: whatever calls a client makes, what is written is well scoped - each channel
    comes after its schema, each message after its channel, no identifier is declared
    twice - and the statistics of the writer count what is written, channel by channel. *)
Theorem writer_log_sound w cs rs s : file w [] 0 → options_ok o → Forall (call_ok o) cs → (run_size o cs ≤ u64_max)%Z →
  writer_run o w cs = Ok (rs, s) → Panic ∉ rs →
  ∃ a counts, wrep o a s ∧ scoped (log o a) ∧
    statistics s = Ok (log_statistics (log o a) (zlen (wr_chunk_indexes s)) counts) ∧
    ∀ id, default 0%Z (bt_get id counts) = logged (on_channel id) (log o a).
Proof.
  intros Hw Ho Hcs Hsz E Hp. destruct (run_represents o w cs 0 Hw Ho Hcs) as (s' & E' & Hr); [done|lia|].
  rewrite E in E'. injection E' as -> ->. destruct (Hr Hp) as (Hrep & Hok & Hls).
  pose proof Hrep as (a & Hs & _ & Hl & _). exists a, (i_counts (sp_ids (spec_run o cs).2)). rewrite Hl. split_and!.
  - done.
  - apply Hok.
  - eapply statistics_spec; [done|done|]. pose proof (messages_size (sp_log (spec_run o cs).2)) as Hm.
    unfold log_size in Hls. pose proof (zlen_nonneg (List.filter is_message (sp_log (spec_run o cs).2))). unfold messages_in in *. lia.
  - apply Hok.
Qed.
End properties.

Module WriterLogExamples.
Import BitCrc Instances.

(** Chunks that are closed after twenty bytes, no compression, all checksums. *)
Definition opts : WriteOptions :=
  options.chunk_size (Some 20%Z) (options.compression None (WriteOptions_default (lit "0.24.0") 4)).
Definition opts_ok : options_ok opts.
Proof. split; [|vm_compute; reflexivity|done]. intros _ _. by exists 20%Z. Qed.

Definition pose : Schema := mkSchema 7 (lit "Pose") (lit "jsonschema") (lit "{}").
Definition channel7 (id : Z) : Channel := mkChannel id (lit "/pose") (Some pose) (lit "json") [].
Definition message (c : Channel) (time : Z) (data : string) : Message := mkMessage c 0 time time (lit data).
Definition header : AttachmentHeader := mkAttachmentHeader 1 2 (lit "a.txt") (lit "text/plain").

(** A client that makes mistakes and goes on. *)
Definition calls : list call := [
  AddSchema (lit "Pose") (lit "jsonschema") (lit "{}");
  AddChannel 1 (lit "/pose") (lit "json") [];
  AddChannel 1 (lit "/pose") (lit "json") [];
  AddChannel 9 (lit "/odd") (lit "json") [];
  WriteKnown (mkMessageHeader 1 0 30 30) (lit "a");
  WriteKnown (mkMessageHeader 5 0 30 30) (lit "b");
  WriteMessage (message (channel7 3) 10 "c");
  WriteMessage (message (mkChannel 1 (lit "/pose") (Some pose) (lit "json") []) 10 "d");
  Attach header (lit "hello");
  WriteMetadata (mkMetadata (lit "m") [(lit "k", lit "v")]);
  WritePrivate 5 (lit "x") [];
  WritePrivate 200 (lit "y") [IncludeInChunks];
  Flush].

Lemma calls_ok : Forall (call_ok opts) calls.
Proof.
  assert (∀ c, match c with
    | AddSchema n e d => record_ok (RSchema (mkSchemaHeader 0 n e) d) = true
    | AddChannel i t e m => record_ok (RChannel (mkChannelRecord 0 i t e m)) = true
    | c => call_ok opts c end → call_ok opts c) as Hc.
  { intros []; cbn [call_ok]; [apply schema_ok_intro|apply channel_ok_intro|done..]. }
  unfold calls. repeat (apply Forall_cons_2; [apply Hc|]); [..|constructor];
    first [vm_compute; reflexivity|left; reflexivity|right; vm_compute; reflexivity|exact I].
Qed.
Definition empty : VecCursor := mkVecCursor [] 0.

Definition outcomes : list (McapResult Z) := [
  Ok 1; Ok 1; Ok 1; Err (UnknownSchema (lit "/odd") 9); Ok 0; Err (UnknownChannel 0 5); Ok 0;
  Err (ConflictingChannels (lit "/pose")); Ok 0; Ok 0; Err (PrivateRecordOpcodeIsReserved 5); Ok 0; Ok 0]%Z.

Lemma outcomes_ok : (spec_run opts calls).1 = outcomes.
Proof. vm_compute. reflexivity. Qed.

Lemma writer_refines_log_witness :
  ∃ s, writer_run opts empty calls = Ok (outcomes, s) ∧
    represents (file := cursor_file) opts 0 s (spec_run opts calls).2 ∧
    length (sp_log (spec_run opts calls).2) = 10.
Proof.
  destruct (writer_refines_log (file := cursor_file) opts empty calls) as (s & E & Hr);
    [reflexivity|exact opts_ok|exact calls_ok|vm_compute; discriminate|].
  exists s. split; [rewrite <-outcomes_ok; exact E|]. split; [|vm_compute; reflexivity].
  apply Hr. apply (bool_decide_unpack _). vm_compute. exact I.
Defined.

(** A message on a known identifier with another content panics where an error is meant:
    the content is looked up before the identifiers are compared. *)
Definition redefined : list call := [
  WriteMessage (message (channel7 1) 10 "a");
  WriteMessage (message (mkChannel 2 (lit "/other") (Some (mkSchema 7 (lit "Twist") (lit "jsonschema") (lit "{}"))) (lit "json") []) 20 "b")].
Example redefinition_panics : fst <$> writer_run opts empty redefined = Ok [Ok 0%Z; Panic].
Proof. vm_compute. reflexivity. Qed.

(** The last identifier there is cannot be given out, although it is free. *)
Example last_id_panics : (spec_add_schema (lit "Pose") (lit "jsonschema") [] (mkSpec (mkIds bm_empty [] 1 bm_empty [] u16_max None []) [])).1 = Panic.
Proof. vm_compute. reflexivity. Qed.

Lemma writer_log_sound_witness : ∃ s, (∃ rs, writer_run opts empty calls = Ok (rs, s)) ∧
  ∃ a counts, wrep (file := cursor_file) opts a s ∧ scoped (log opts a) ∧
    statistics s = Ok (log_statistics (log opts a) (zlen (wr_chunk_indexes s)) counts) ∧
    ∀ id, default 0%Z (bt_get id counts) = logged (on_channel id) (log opts a).
Proof.
  destruct (run_represents (file := cursor_file) opts empty calls 0) as (s & E & _);
    [reflexivity|exact opts_ok|exact calls_ok|done|vm_compute; discriminate|].
  rewrite outcomes_ok in E. exists s. split; [by exists outcomes|].
  apply (writer_log_sound (file := cursor_file) opts empty calls outcomes s);
    [reflexivity|exact opts_ok|exact calls_ok|vm_compute; discriminate|exact E|].
  apply (bool_decide_unpack _). vm_compute. exact I.
Defined.

(** The statistics there: two messages on two channels, an attachment and a metadata
    record, four chunks and times from 10 to 30. *)
Example the_statistics : (λ p, statistics (W := VecCursor) p.2) <$> writer_run opts empty calls =
  Ok (Ok (mkStatistics 2 2 2 1 1 4 10 30 [(1, 1); (3, 1)]%Z)).
Proof. vm_compute. reflexivity. Qed.
End WriterLogExamples.
