(* ===== verification/WriterFile.v ===== *)
(** The file a writer leaves behind: [finish] completes it to a well-formed file whose
    data section is the log, whose checksums are right and whose summary and footer
    point where they say. *)

From S2P Require Import Prelude Utf8 BTree Errors Bin Records Crc Io Codec Decompressor LinearReader LinearReaderTheory LinearReaderClient LinearReaderFile Channels Summary ChunkWriter ChunkWriterTheory Writer WriterTheory WriterSpec.

(** ** The summary section *)

Section footer.
Context `{Crc, !CrcLaws, HashOrder} `{FileOk W file}.
Abbreviation rep := (ccw_rep (over file [])).

(** The groups of the section, in order; the groups that are there, and where. *)
Definition summary_groups (s : Summary) (stats : Statistics) (o : WriteOptions) : list (Z * list record) :=
  [(op.SCHEMA, if wo_repeat_schemas o then all_schemas s else []);
   (op.CHANNEL, if wo_repeat_channels o then all_channels s else []);
   (op.STATISTICS, if wo_emit_statistics o then [RStatistics stats] else []);
   (op.CHUNK_INDEX, if wo_emit_chunk_indexes o then RChunkIndex <$> chunk_indexes s else []);
   (op.ATTACHMENT_INDEX, if wo_emit_attachment_indexes o then RAttachmentIndex <$> attachment_indexes s else []);
   (op.METADATA_INDEX, if wo_emit_metadata_indexes o then RMetadataIndex <$> metadata_indexes s else [])].
Fixpoint group_offsets (pos : Z) (gs : list (Z * list record)) : list SummaryOffset :=
  match gs with
  | [] => []
  | (opcode, rs) :: gs =>
      (if bool_decide (rs = []) then [] else [mkSummaryOffset opcode pos (zlen (records_data rs))]) ++
      group_offsets (pos + zlen (records_data rs)) gs
  end.
Definition summary_records (start : Z) (s : Summary) (stats : Statistics) (o : WriteOptions) : list record :=
  let gs := summary_groups s stats o in
  concat gs.*2 ++ if wo_emit_summary_offsets o then RSummaryOffset <$> group_offsets start gs else [].

Definition summary_record_ok (r : record) : bool := record_wf r && writable r.

Lemma records_data_app l k : records_data (l ++ k) = records_data l ++ records_data k.
Proof. unfold records_data. by rewrite fmap_app, concat_app. Qed.
Lemma records_data_frames rs : records_data rs = frames (record_entry <$> rs).
Proof.
  unfold records_data, frames. f_equal. rewrite <-list_fmap_compose. apply list_fmap_ext. done.
Qed.

Lemma sinks_records `{WriteOk X xrep cap} rs : forallb summary_record_ok rs = true →
  sinks xrep cap (write_records rs) (records_data rs).
Proof.
  induction rs as [|r rs IH]; intros Hrs.
  - intros w c Hw _. exists w. split; [done|]. by rewrite app_nil_r.
  - cbn [forallb] in Hrs. apply andb_true_iff in Hrs as [[Hw Hwr]%andb_true_iff Hrs]. cbn [write_records].
    change (records_data (r :: rs)) with (record_frame r ++ records_data rs). apply sinks_bind; [by apply sinks_record|by apply IH].
Qed.

Lemma posit_spec (base : bytes) (h : option hasher) (w : CountingCrcWriter W) c : rep base h w c →
  ∃ w', mcap_io posit w = (Ok (zlen c), w') ∧ rep base h w' c.
Proof.
  intros Hw. destruct (tell_ok _ _ Hw) as (w' & E & Hw'). exists w'. split; [|done]. apply mcap_io_Ok.
  unfold posit. cbn in E. exact E.
Qed.

(** A group, after which its place is known. *)
Lemma write_group_spec (base : bytes) (h : option hasher) (wanted : bool) (opcode : Z) (rs : list record) offsets (w : CountingCrcWriter W) (c : bytes) :
  let rs' := if wanted then rs else [] in
  rep base h w c → forallb summary_record_ok rs' = true → (zlen (c ++ records_data rs') ≤ u64_max)%Z →
  ∃ w', write_group wanted opcode rs (zlen c) offsets w =
      (Ok (zlen (c ++ records_data rs'), offsets ++ group_offsets (zlen c) [(opcode, rs')]), w') ∧
    rep base h w' (c ++ records_data rs').
Proof.
  intros rs' Hw Hrs Hl. unfold write_group. subst rs'. destruct wanted; cbn [andb]; last first.
  { exists w. cbn. by rewrite !app_nil_r. }
  unfold group_offsets. destruct (bool_decide_reflect (rs = [])) as [->|Hne]; cbn [negb].
  { exists w. cbn. by rewrite !app_nil_r. }
  destruct (sinks_records (xrep := rep base h) (cap := u64_max) rs Hrs w c Hw Hl) as (w1 & E1 & Hw1).
  rewrite (bind_method_Ok _ _ _ _ _ (mcap_io_Ok _ _ _ _ E1)).
  destruct (posit_spec _ _ _ _ Hw1) as (w2 & E2 & Hw2). rewrite (bind_method_Ok _ _ _ _ _ E2).
  rewrite sub_Ok by zlia. rewrite bind_lift. exists w2. split; [|done].
  by replace (zlen (c ++ records_data rs) - zlen c)%Z with (zlen (records_data rs)) by zlia.
Qed.

Lemma group_offsets_app pos gs gs' : group_offsets pos (gs ++ gs') =
  group_offsets pos gs ++ group_offsets (pos + zlen (records_data (concat gs.*2))) gs'.
Proof.
  revert pos. induction gs as [|[opcode rs] gs IH]; intros pos; cbn [group_offsets app fmap list_fmap concat snd].
  - f_equal. change (records_data []) with (@nil byte). zlia.
  - rewrite IH, app_assoc. f_equal. f_equal. rewrite records_data_app. zlia.
Qed.

Section section.
Context (s : Summary) (stats : Statistics) (o : WriteOptions).

Definition section_start (start : Z) : Z :=
  if (start <? start + zlen (records_data (concat (summary_groups s stats o).*2)))%Z then start else 0.
Definition section_offsets_start (start : Z) : Z :=
  if wo_emit_summary_offsets o then start + zlen (records_data (concat (summary_groups s stats o).*2)) else 0.

(** The bytes of some groups. *)
Definition groups_data (gs : list (Z * list record)) : bytes := records_data (concat gs.*2).
Lemma groups_data_app gs gs' : groups_data (gs ++ gs') = groups_data gs ++ groups_data gs'.
Proof. unfold groups_data. by rewrite fmap_app, concat_app, records_data_app. Qed.

(** One more group. *)
Lemma group_step base h (wanted : bool) opcode rs gs rest (w : CountingCrcWriter W) c :
  let g := (opcode, if wanted then rs else []) in
  rep base h w (c ++ groups_data gs) → forallb summary_record_ok g.2 = true →
  (zlen (c ++ groups_data (gs ++ g :: rest)) ≤ u64_max)%Z →
  ∃ w', write_group wanted opcode rs (zlen (c ++ groups_data gs)) (group_offsets (zlen c) gs) w =
      (Ok (zlen (c ++ groups_data (gs ++ [g])), group_offsets (zlen c) (gs ++ [g])), w') ∧
    rep base h w' (c ++ groups_data (gs ++ [g])).
Proof.
  intros g Hw Hok Hl.
  assert (groups_data (gs ++ [g]) = groups_data gs ++ records_data g.2) as Hg.
  { rewrite groups_data_app. unfold groups_data at 2. cbn [fmap list_fmap concat snd]. by rewrite app_nil_r. }
  assert (groups_data (gs ++ g :: rest) = groups_data gs ++ records_data g.2 ++ groups_data rest) as Hall.
  { rewrite (app_assoc gs [g] rest : gs ++ g :: rest = (gs ++ [g]) ++ rest), groups_data_app, Hg. by rewrite app_assoc. }
  destruct (write_group_spec base h wanted opcode rs (group_offsets (zlen c) gs) w (c ++ groups_data gs) Hw Hok) as (w' & E & Hw').
  { rewrite Hall in Hl. subst g. cbn [snd] in Hl. zlia. }
  exists w'. rewrite E, Hg, app_assoc. split; [|done]. rewrite group_offsets_app. fold (groups_data gs). by rewrite (zlen_app c (groups_data gs)).
Qed.

Lemma write_summary_section_spec base h (w : CountingCrcWriter W) c : rep base h w c → Summary.stats s = Some stats →
  forallb summary_record_ok (summary_records (zlen c) s stats o) = true →
  (zlen (c ++ records_data (summary_records (zlen c) s stats o)) ≤ u64_max)%Z →
  ∃ w', write_summary_section s o (zlen c) w = (Ok (section_start (zlen c), section_offsets_start (zlen c)), w') ∧
    rep base h w' (c ++ records_data (summary_records (zlen c) s stats o)).
Proof.
  intros Hw Hstats. unfold summary_records, section_start, section_offsets_start, write_summary_section.
  set (gs := summary_groups s stats o). fold (groups_data gs). rewrite forallb_app, andb_true_iff, records_data_app.
  fold (groups_data gs). intros [Hgs Hoff] Hl.
  assert (zlen (c ++ groups_data gs) ≤ u64_max)%Z as Hlg by zlia. pose proof Hgs as Hok.
  subst gs. cbn [summary_groups fmap list_fmap snd concat] in Hok. rewrite !forallb_app, !andb_true_iff in Hok.
  destruct Hok as (Hg1 & Hg2 & Hg3 & Hg4 & Hg5 & Hg6 & _).
  assert (c = c ++ groups_data []) as Hc0 by by rewrite app_nil_r. rewrite Hc0 in Hw.
  assert (groups_data [] = []) as Hnil by done.
  change (@nil SummaryOffset) with (group_offsets (zlen c) []).
  assert (∀ e off, write_group (W:=W) (wo_emit_statistics o) op.STATISTICS (if wo_emit_statistics o then [RStatistics stats] else []) e off =
    write_group (wo_emit_statistics o) op.STATISTICS [RStatistics stats] e off) as Hst by (intros; by destruct (wo_emit_statistics o)).
  assert (∀ w2 : CountingCrcWriter W,
    (if wo_emit_statistics o then lift (expect (Summary.stats s)) ≫= λ st, mret [RStatistics st] else mret []) w2 =
    (Ok (E:=McapError) (if wo_emit_statistics o then [RStatistics stats] else []), w2)) as Est
    by (intros; rewrite Hstats; by destruct (wo_emit_statistics o)).
  unfold summary_groups in *.
  match type of Hlg with (zlen (_ ++ groups_data [?g1; ?g2; ?g3; ?g4; ?g5; ?g6]) ≤ _)%Z =>
    destruct (group_step base h _ _ (all_schemas s) [] [g2; g3; g4; g5; g6] w c Hw Hg1 Hlg) as (w1 & E1 & Hw1);
    rewrite Hnil, app_nil_r in E1; rewrite (bind_method_Ok _ _ _ _ _ E1); cbn beta iota;
    destruct (group_step base h _ _ (all_channels s) [g1] [g3; g4; g5; g6] w1 c Hw1 Hg2 Hlg) as (w2 & E2 & Hw2);
    rewrite (bind_method_Ok _ _ _ _ _ E2); cbn beta iota; rewrite (bind_method_Ok _ _ _ _ _ (Est _)), Hst;
    destruct (group_step base h _ op.STATISTICS [RStatistics stats] [g1; g2] [g4; g5; g6] w2 c Hw2 Hg3 Hlg) as (w3 & E3 & Hw3);
    rewrite (bind_method_Ok _ _ _ _ _ E3); cbn beta iota;
    destruct (group_step base h _ _ (RChunkIndex <$> chunk_indexes s) [g1; g2; g3] [g5; g6] w3 c Hw3 Hg4 Hlg) as (w4 & E4 & Hw4);
    rewrite (bind_method_Ok _ _ _ _ _ E4); cbn beta iota;
    destruct (group_step base h _ _ (RAttachmentIndex <$> attachment_indexes s) [g1; g2; g3; g4] [g6] w4 c Hw4 Hg5 Hlg) as (w5 & E5 & Hw5);
    rewrite (bind_method_Ok _ _ _ _ _ E5); cbn beta iota;
    destruct (group_step base h _ _ (RMetadataIndex <$> metadata_indexes s) [g1; g2; g3; g4; g5] [] w5 c Hw5 Hg6 Hlg) as (w6 & E6 & Hw6);
    rewrite (bind_method_Ok _ _ _ _ _ E6); cbn beta iota
  end.
  cbn [app] in Hw6 |- *. rewrite zlen_app, app_assoc. destruct (wo_emit_summary_offsets o).
  - destruct (sinks_records (xrep := rep base h) (cap := u64_max) _ Hoff w6 _ Hw6) as (w7 & E7 & Hw7); [by rewrite <-app_assoc|].
    rewrite (bind_method_Ok _ _ _ (zlen c + zlen (groups_data (summary_groups s stats o)))%Z w7).
    + exists w7. by split.
    + by rewrite (bind_method_Ok _ _ _ _ _ (mcap_io_Ok _ _ _ _ E7)).
  - rewrite (bind_method_Ok _ _ _ 0%Z w6) by done. exists w6. split; [done|]. by rewrite app_nil_r.
Qed.

(** The end of the file, from the summary section on. *)
Definition footer_start (start : Z) : bytes :=
  (le_enc 1 op.FOOTER ++ le_enc 8 (8 + 8 + 4)) ++ le_enc 8 (section_start start) ++ le_enc 8 (section_offsets_start start).
Definition the_footer (start : Z) : Footer :=
  mkFooter (section_start start) (section_offsets_start start)
    (if wo_calculate_summary_section_crc o
     then crc32 (records_data (summary_records start s stats o) ++ footer_start start) else 0).

Lemma footer_frame start : record_frame (RFooter (the_footer start)) =
  footer_start start ++ le_enc 4 (f_summary_crc (the_footer start)).
Proof. unfold footer_start. by rewrite <-!app_assoc. Qed.

Lemma sinks_footer_start base h start :
  sinks (rep base h) u64_max (write_footer_start (section_start start) (section_offsets_start start)) (footer_start start).
Proof. unfold footer_start. apply sinks_bind; [by apply sinks_op_and_len, _|]. apply sinks_bind; by apply sinks_write, _. Qed.

Lemma mcap_io_sinks {X} `{Write X} (xrep : X → bytes → Prop) cap (m : method X io_error ()) e :
  sinks xrep cap m e → sinks xrep cap (mcap_io m) e.
Proof. intros Hm w c Hw Hl. destruct (Hm w c Hw Hl) as (w' & E & Hw'). exists w'. split; [by apply mcap_io_Ok|done]. Qed.

Lemma write_summary_and_footer_spec w c : over file [] w c → Summary.stats s = Some stats →
  forallb summary_record_ok (summary_records (zlen c) s stats o) = true →
  let e := records_data (summary_records (zlen c) s stats o) ++ record_frame (RFooter (the_footer (zlen c))) ++ MAGIC in
  (zlen (c ++ e) ≤ u64_max)%Z →
  ∃ w', write_summary_and_footer_magic s o w = (Ok (), w') ∧ over file [] w' (c ++ e).
Proof.
  intros Hw Hst Hok e Hl. subst e. rewrite footer_frame in *. unfold write_summary_and_footer_magic.
  set (sec := records_data (summary_records (zlen c) s stats o)) in *.
  destruct (tell_ok _ _ Hw) as (w1 & E1 & Hw1). rewrite (bind_method_Ok _ _ _ _ _ (mcap_io_Ok _ _ _ _ E1)).
  pose proof (ccw_new_rep (over file []) w1 c (wo_calculate_summary_section_crc o) Hw1) as Hc.
  fold (start_hash (wo_calculate_summary_section_crc o)) in Hc.
  destruct (write_summary_section_spec _ _ _ _ Hc Hst Hok) as (c1 & E2 & Hc1); [fold sec; zlia|]. fold sec in Hc1.
  destruct (mcap_io_sinks _ _ _ _ (sinks_footer_start c (start_hash (wo_calculate_summary_section_crc o)) (zlen c)) _ _ Hc1) as (c2 & E3 & Hc2); [zlia|].
  pose proof Hc2 as (d & Hd & Hin & _ & Hh). rewrite <-app_assoc in Hd. apply (inj (app _)) in Hd. subst d.
  rewrite (bind_method_Ok _ _ w1 ((), ccw_hasher c2) (ccw_inner c2)); last first.
  { unfold hashing. rewrite (bind_method_Ok _ _ _ _ _ E2), E3. done. }
  assert (default 0%Z (hasher_finalize <$> ccw_hasher c2) = f_summary_crc (the_footer (zlen c))) as ->.
  { rewrite Hh. unfold the_footer, start_hash. fold sec. by destruct (wo_calculate_summary_section_crc o). }
  destruct (sinks_write (over file []) u64_max (le_enc 4 (f_summary_crc (the_footer (zlen c)))) _ _ Hin) as (w3 & E4 & Hw3); [zlia|].
  destruct (sinks_write (over file []) u64_max MAGIC _ _ Hw3) as (w4 & E5 & Hw4); [zlia|].
  destruct (flush_ok _ _ Hw4) as (w5 & E6 & Hw5).
  exists w5. split.
  - apply mcap_io_Ok. rewrite (bind_method_Ok _ _ _ _ _ E4), (bind_method_Ok _ _ _ _ _ E5). exact E6.
  - by rewrite <-!app_assoc in *.
Qed.
End section.
End footer.

(** ** The summary that [finish] returns *)

Section finish.
Context `{Crc, !CrcLaws, HashOrder, ZstdEncoderLib, Lz4EncoderLib} `{FileOk W file}.
Context `{!BiMap ChannelContent Z, !BiMap SchemaContent Z, !BiMapOk ChannelContent Z, !BiMapOk SchemaContent Z}.
Context (o : WriteOptions).
Context `{!EncoderOk (wo_compression o) (wo_compression_level o) (wo_compression_threads o)}.
Abbreviation writer := (Writer (W := W)).

(** The schemas and channels written, from the registries. *)
Lemma summary_schemas_total known all m : (∀ id k, (id, k) ∈ all → is_Some (bm_get_by_right k known)) →
  ∃ m', summary_schemas known all m = Ok m'.
Proof.
  revert m. induction all as [|[id k] all IH]; intros m Hk; [by exists m|]. cbn [summary_schemas].
  destruct (Hk id k ltac:(left)) as [c ->]. cbn [expect mbind outcome_bind]. apply IH. intros id' k' Hin. apply (Hk id'). by right.
Qed.
Lemma summary_channels_total known schemas all m : (∀ id k, (id, k) ∈ all → is_Some (bm_get_by_right k known)) →
  ∃ m', summary_channels known schemas all m = Ok m'.
Proof.
  revert m. induction all as [|[id k] all IH]; intros m Hk; [by exists m|]. cbn [summary_channels].
  destruct (Hk id k ltac:(left)) as [c ->]. cbn [expect mbind outcome_bind]. apply IH. intros id' k' Hin. apply (Hk id'). by right.
Qed.

(** What [take_summary] takes. *)
Lemma take_summary_spec a s stats : wrep o a s → ids_ok (ids s) → statistics s = Ok stats →
  ∃ sum s', take_summary s = (Ok sum, s') ∧ wr_writer s' = wr_writer s ∧ wr_options s' = o ∧ wr_finished_summary s' = None ∧
    Summary.stats sum = Some stats ∧ chunk_indexes sum = indexed o (item_chunk_index o) MAGIC (a_items a) ∧
    attachment_indexes sum = (if wo_emit_attachment_indexes o then indexed o (item_attachment_index o) MAGIC (a_items a) else []) ∧
    metadata_indexes sum = (if wo_emit_metadata_indexes o then indexed o item_metadata_index MAGIC (a_items a) else []) ∧
    summary_schemas (wr_canonical_schemas s) (wr_all_schema_ids s) ∅ = Ok (schemas sum) ∧
    summary_channels (wr_canonical_channels s) (schemas sum) (wr_all_channel_ids s) ∅ = Ok (channels sum).
Proof.
  intros Hs [Hsc Hch] Hst. unfold take_summary. rewrite bind_get, Hst, bind_lift.
  destruct (summary_schemas_total (wr_canonical_schemas s) (wr_all_schema_ids s) ∅) as [ms Hms].
  { intros id k Hin%bt_get_in; [by eapply (reg_canonical _ _ _ Hsc)|apply Hsc]. }
  rewrite Hms, bind_lift.
  destruct (summary_channels_total (wr_canonical_channels s) ms (wr_all_channel_ids s) ∅) as [mc Hmc].
  { intros id k Hin%bt_get_in; [by eapply (reg_canonical _ _ _ Hch)|apply Hch]. }
  rewrite Hmc, bind_lift, bind_modify. eexists _, _. split; [done|]. destruct Hs. by split_and!.
Qed.

(** The file. *)
Definition final_file (l : list item) (sum : Summary) (stats : Statistics) : mcap_file :=
  let data_end := mkDataEnd (if wo_calculate_data_section_crc o then crc32 (hashed o l) else 0) in
  let start := zlen (contents o l ++ record_frame (RDataEnd data_end)) in
  mkFile (concat (item_records o <$> l)) data_end
    (record_entry <$> summary_records start sum stats o) (the_footer sum stats o start).

Lemma frames_concat (ls : list (list (Z * bytes))) : frames (concat ls) = concat (frames <$> ls).
Proof.
  induction ls as [|l ls IH]; [done|]. cbn [concat fmap list_fmap]. unfold frames in *. rewrite fmap_app, concat_app. by rewrite IH.
Qed.
Lemma contents_data_section l sum stats : data_section (final_file l sum stats) = contents o l.
Proof. unfold data_section, contents, items_bytes. cbn [file_records final_file]. by rewrite frames_concat, <-list_fmap_compose. Qed.
Lemma final_file_bytes l sum stats : let f := final_file l sum stats in
  file_bytes f = (contents o l ++ record_frame (RDataEnd (file_data_end f))) ++
    records_data (summary_records (zlen (contents o l ++ record_frame (RDataEnd (file_data_end f)))) sum stats o) ++
    record_frame (RFooter (file_footer f)) ++ MAGIC.
Proof.
  intros f. unfold file_bytes. subst f. rewrite contents_data_section. unfold data_end_rec, footer_rec. rewrite !frames_one.
  rewrite <-!app_assoc. f_equal. f_equal. rewrite records_data_frames. done.
Qed.

End finish.
