(* ===== verification/WriterSummary.v ===== *)
(** The summary of a finished file: it repeats the schemas and the channels of the log,
    its records are well-formed, and it is not much larger than the log. *)

From S2P Require Import Prelude Utf8 BTree Errors Bin Records Crc Io Codec Channels Summary ChunkWriter ChunkWriterTheory Writer WriterTheory WriterSpec WriterLog WriterFile.

(** ** Schemas and channels *)

Section declared.
Context `{!BiMap ChannelContent Z, !BiMap SchemaContent Z, !BiMapOk ChannelContent Z, !BiMapOk SchemaContent Z}.

Definition is_schema (r : record) : bool := match r with RSchema _ _ => true | _ => false end.
Definition is_channel (r : record) : bool := match r with RChannel _ => true | _ => false end.
Definition the_schema (id : Z) (c : SchemaContent) : Schema := mkSchema id (sc_name c) (sc_encoding c) (sc_data c).
Definition the_channel (schemas : gmap Z Schema) (id : Z) (c : ChannelContent) : Channel :=
  mkChannel id (cc_topic c) (schemas !! cc_schema_id c) (cc_message_encoding c) (cc_metadata c).

Lemma schemas_of_log l : List.filter is_schema l = (λ p, schema_of_content p.1 p.2) <$> log_schemas l.
Proof.
  unfold log_schemas. induction l as [|r l IH]; [done|]. cbn [List.filter omap list_omap].
  destruct r; cbn; try done. rewrite IH. unfold schema_of_content. cbn. by destruct header.
Qed.
Lemma channels_of_log l : List.filter is_channel l = (λ p, channel_of_content p.1 p.2) <$> log_channels l.
Proof.
  unfold log_channels. induction l as [|r l IH]; [done|]. cbn [List.filter omap list_omap].
  destruct r as [| | |c| | | | | | | | | | | |]; cbn; try done. rewrite IH. unfold channel_of_content. cbn. by destruct c.
Qed.

Lemma scoped_schemas_NoDup l : scoped l → NoDup (log_schemas l).*1.
Proof.
  induction 1 as [|l r Hl IH Ha]; [constructor|]. rewrite log_schemas_snoc, fmap_app. destruct r as [| |h d| | | | | | | | | | | | |]; cbn; rewrite ?app_nil_r; try done.
  apply NoDup_app. split; [done|]. split; [|apply NoDup_singleton]. intros x Hx. rewrite list_elem_of_singleton. by intros ->.
Qed.
Lemma scoped_channels_NoDup l : scoped l → NoDup (log_channels l).*1.
Proof.
  induction 1 as [|l r Hl IH Ha]; [constructor|]. rewrite log_channels_snoc, fmap_app. destruct r as [| | |c| | | | | | | | | | | |]; cbn; rewrite ?app_nil_r; try done.
  apply NoDup_app. split; [done|]. split; [|apply NoDup_singleton]. intros x Hx. rewrite list_elem_of_singleton. intros ->. by destruct Ha.
Qed.
(** The schema of a channel is there, unless it is none. *)
Lemma scoped_channel_schema l id c : scoped l → (id, c) ∈ log_channels l → cc_schema_id c = 0%Z ∨ cc_schema_id c ∈ (log_schemas l).*1.
Proof.
  induction 1 as [|l r Hl IH Ha]; [by intros ?%not_elem_of_nil|]. rewrite log_channels_snoc, log_schemas_snoc, fmap_app, !elem_of_app.
  intros [Hin|Hin].
  - destruct (IH Hin); [by left|right; by left].
  - destruct r as [| | |ch| | | | | | | | | | | |]; cbn in Hin; try by apply not_elem_of_nil in Hin.
    apply list_elem_of_singleton in Hin as [= -> ->]. cbn. destruct Ha as [_ [|]]; [by left|right; by left].
Qed.

(** What the loops over the identifiers leave in the maps. *)
Lemma before_all {V} (k k' : Z) (m : list (Z * V)) : kltb k k' = true → bt_above k' m → bt_get k m = None.
Proof. intros Hk Ha. apply bt_get_above. eapply Forall_impl; [exact Ha|]. intros p. by apply kltb_trans. Qed.
Lemma summary_schemas_lookup known all m m' id : bt_sorted all = true → summary_schemas known all m = Ok m' →
  m' !! id = match bt_get id all with
             | Some k => the_schema id <$> bm_get_by_right k known
             | None => m !! id
             end.
Proof.
  revert m. induction all as [|[id1 k1] all IH]; intros m; [by intros _ [= <-]|]. rewrite bt_sorted_cons. intros [Ha Hs]. cbn [summary_schemas].
  destruct (bm_get_by_right k1 known) as [c|] eqn:Hc; [|done]. cbn [expect mbind outcome_bind]. intros E.
  rewrite (IH _ Hs E). cbn [bt_get]. destruct (kltb id id1) eqn:E1.
  - rewrite (before_all _ _ _ E1 Ha), lookup_insert_ne; [done|]. intros ->. by rewrite kltb_irrefl in E1.
  - destruct (kltb id1 id) eqn:E2.
    + rewrite lookup_insert_ne; [done|]. intros ->. by rewrite kltb_irrefl in E2.
    + assert (id = id1) as -> by by apply kltb_total. rewrite bt_get_above, lookup_insert_eq, Hc by done. done.
Qed.
Lemma summary_channels_lookup known schemas all m m' id : bt_sorted all = true → summary_channels known schemas all m = Ok m' →
  m' !! id = match bt_get id all with
             | Some k => the_channel schemas id <$> bm_get_by_right k known
             | None => m !! id
             end.
Proof.
  revert m. induction all as [|[id1 k1] all IH]; intros m; [by intros _ [= <-]|]. rewrite bt_sorted_cons. intros [Ha Hs]. cbn [summary_channels].
  destruct (bm_get_by_right k1 known) as [c|] eqn:Hc; [|done]. cbn [expect mbind outcome_bind]. intros E.
  rewrite (IH _ Hs E). cbn [bt_get]. destruct (kltb id id1) eqn:E1.
  - rewrite (before_all _ _ _ E1 Ha), lookup_insert_ne; [done|]. intros ->. by rewrite kltb_irrefl in E1.
  - destruct (kltb id1 id) eqn:E2.
    + rewrite lookup_insert_ne; [done|]. intros ->. by rewrite kltb_irrefl in E2.
    + assert (id = id1) as -> by by apply kltb_total. rewrite bt_get_above, lookup_insert_eq, Hc by done. done.
Qed.

(** A registry as a map, and what was declared in it. *)
Lemma registry_map {C A} `{EqDecision C, !BiMap C Z, !BiMapOk C Z} (f : Z → C → A) known all decls (m : gmap Z A) :
  reg_log known all decls → NoDup decls.*1 →
  (∀ id, m !! id = match bt_get id all with Some k => f id <$> bm_get_by_right k known | None => None end) →
  map_to_list m ≡ₚ (λ p, (p.1, f p.1 p.2)) <$> decls.
Proof.
  intros [Hd _] Hnd Hm. apply NoDup_Permutation.
  - apply NoDup_map_to_list.
  - apply (NoDup_fmap_1 fst). rewrite <-list_fmap_compose. exact Hnd.
  - intros [id a]. rewrite elem_of_map_to_list, Hm, list_elem_of_fmap. split.
    + destruct (bt_get id all) as [k|] eqn:Hk; [|done]. destruct (bm_get_by_right k known) as [c|] eqn:Hc; [|done].
      intros [= <-]. exists (id, c). split; [done|]. apply Hd. by exists k.
    + intros ([id' c] & [= -> ->] & (k & -> & Hk)%Hd). cbn [fst snd]. by rewrite Hk.
Qed.

Context `{HashOrder, !HashOrderOk}.

(** The summary section repeats the schemas and the channels of the log. *)
Lemma all_schemas_log sum known all l : bt_sorted all = true → summary_schemas known all ∅ = Ok (schemas sum) →
  reg_log known all (log_schemas l) → scoped l → all_schemas sum ≡ₚ List.filter is_schema l.
Proof.
  intros Hs E Hr Hl. unfold all_schemas. rewrite (hash_iter_perm _ (schemas sum)).
  rewrite (registry_map the_schema known all (log_schemas l)); [|done|by apply scoped_schemas_NoDup|].
  - by rewrite schemas_of_log, <-list_fmap_compose.
  - intros id. by rewrite (summary_schemas_lookup _ _ _ _ id Hs E), lookup_empty.
Qed.
Lemma all_channels_log sum kc ac ks as_ l : bt_sorted ac = true → bt_sorted as_ = true →
  summary_schemas ks as_ ∅ = Ok (schemas sum) → summary_channels kc (schemas sum) ac ∅ = Ok (channels sum) →
  reg_log ks as_ (log_schemas l) → reg_log kc ac (log_channels l) → scoped l → all_channels sum ≡ₚ List.filter is_channel l.
Proof.
  intros Hac Has Es Ec Hrs Hrc Hl. unfold all_channels. rewrite (hash_iter_perm _ (channels sum)).
  rewrite (registry_map (the_channel (schemas sum)) kc ac (log_channels l)); [|done|by apply scoped_channels_NoDup|].
  - rewrite channels_of_log, <-list_fmap_compose. match goal with |- ?a ≡ₚ ?b => enough (a = b) as E by by rewrite E end. apply Forall_fmap_ext_1, Forall_forall.
    intros [id c] Hin. cbn [compose fst snd]. unfold channel_record, channel_of_content, the_channel, channel_schema_id. cbn.
    do 2 f_equal. destruct (scoped_channel_schema _ _ _ Hl Hin) as [Hz|Hk].
    + rewrite Hz, (summary_schemas_lookup _ _ _ _ 0%Z Has Es), lookup_empty.
      destruct (bt_get 0%Z as_); [|done]. by destruct (bm_get_by_right _ ks).
    + apply list_elem_of_fmap in Hk as ([id' c'] & Heq & (k & Hk & Hc)%(rl_decl _ _ _ Hrs)). cbn in Heq. subst id'.
      by rewrite (summary_schemas_lookup _ _ _ _ _ Has Es), Hk, Hc.
  - intros id. by rewrite (summary_channels_lookup _ _ _ _ _ id Hac Ec), lookup_empty.
Qed.
(** The maps are keyed by identifier, and the channels refer to schemas that are there. *)
Record linked (sum : Summary) : Prop := {
  ld_schema i s : schemas sum !! i = Some s → schema_id s = i;
  ld_channel i c : channels sum !! i = Some c → channel_id c = i;
  ld_link i c s : channels sum !! i = Some c → channel_schema c = Some s → schemas sum !! schema_id s = Some s;
}.

Lemma summary_linked sum kc ac ks as_ : bt_sorted ac = true → bt_sorted as_ = true →
  summary_schemas ks as_ ∅ = Ok (schemas sum) → summary_channels kc (schemas sum) ac ∅ = Ok (channels sum) → linked sum.
Proof.
  intros Hac Has Es Ec.
  assert (∀ i s, schemas sum !! i = Some s → schema_id s = i) as Hid.
  { intros i s. rewrite (summary_schemas_lookup _ _ _ _ i Has Es), lookup_empty. destruct (bt_get i as_) as [k|]; [|done].
    destruct (bm_get_by_right k ks); [|done]. by intros [= <-]. }
  assert (∀ i c, channels sum !! i = Some c → ∃ cc, c = the_channel (schemas sum) i cc) as Hch.
  { intros i c. rewrite (summary_channels_lookup _ _ _ _ _ i Hac Ec), lookup_empty. destruct (bt_get i ac) as [k|]; [|done].
    destruct (bm_get_by_right k kc) as [cc|]; [|done]. intros [= <-]. by exists cc. }
  split; [done|by intros i c [cc ->]%Hch|]. intros i c s [cc ->]%Hch Hs. cbn in Hs. by rewrite (Hid _ _ Hs).
Qed.
End declared.

(** ** The records of the summary are well-formed *)

Section wf.
Context `{Crc, !CrcLaws}.

(** Keys that are identifiers are not many. *)
Lemma bt_few_keys {V} lo hi (m : list (Z * V)) : bt_sorted m = true → (lo ≤ hi + 1)%Z →
  Forall (λ p, lo ≤ p.1 ≤ hi)%Z m → (zlen m ≤ hi - lo + 1)%Z.
Proof.
  revert lo. induction m as [|[k v] m IH]; intros lo; [intros; change (zlen []) with 0%Z; lia|].
  rewrite bt_sorted_cons. intros [Ha Hs] Hlo [Hk Hm]%Forall_cons. cbn [fst] in Hk. rewrite zlen_cons.
  specialize (IH (k + 1)%Z Hs ltac:(lia)). assert (zlen m ≤ hi - (k + 1) + 1)%Z; [|lia]. apply IH.
  unfold bt_above in Ha. rewrite Forall_forall in Ha, Hm |- *. intros p Hp. specialize (Ha p Hp). specialize (Hm p Hp).
  change (Z.ltb k p.1 = true) in Ha. apply Z.ltb_lt in Ha. lia.
Qed.

Lemma u16_in z : c_wf u16 z = true ↔ (0 ≤ z ≤ u16_max)%Z.
Proof. change (c_wf u16 z) with (uint_wf 2 z). rewrite uint_wf_in. unfold in_u, u16_max. cbn. lia. Qed.
Lemma u32_in z : c_wf u32 z = true ↔ (0 ≤ z ≤ u32_max)%Z.
Proof. change (c_wf u32 z) with (uint_wf 4 z). rewrite uint_wf_in. unfold in_u, u32_max. cbn. lia. Qed.
Lemma u64_in z : c_wf u64 z = true ↔ (0 ≤ z ≤ u64_max)%Z.
Proof. change (c_wf u64 z) with (uint_wf 8 z). rewrite uint_wf_in. unfold in_u, u64_max. cbn. lia. Qed.

Lemma zlen_int_map (m : list (Z * Z)) : zlen (c_enc int_map m) = (4 + 10 * zlen m)%Z.
Proof.
  change (c_enc int_map m) with (map_enc u16 u64 m). unfold map_enc. rewrite zlen_app.
  assert (zlen (map_body u16 u64 m) = 10 * zlen m)%Z as ->; [|zlia].
  induction m as [|[k v] m IH]; [done|]. rewrite map_body_cons, !zlen_app, IH. change (c_enc u16 k) with (le_enc 2 k). 
  change (c_enc u64 v) with (le_enc 8 v). zlia.
Qed.

Lemma bounds_in rs : Forall (λ r, record_wf r = true) rs →
  c_wf u64 (default (0, 0)%Z (bounds_of rs)).1 = true ∧ c_wf u64 (default (0, 0)%Z (bounds_of rs)).2 = true.
Proof.
  rewrite !u64_in. induction rs as [|r rs IH] using rev_ind; [done|]. rewrite Forall_app, bounds_of_snoc.
  intros [Hrs [Hr _]%Forall_cons]. specialize (IH Hrs). destruct r as [| | | |h d| | | | | | | | | | |]; try done.
  cbn beta in Hr. unfold record_wf in Hr. rewrite !andb_true_iff in Hr. destruct Hr as [Hh _].
  change (c_wf u16 (m_channel_id h) && c_wf u32 (m_sequence h) && c_wf u64 (m_log_time h) && c_wf u64 (m_publish_time h) = true) in Hh.
  rewrite !andb_true_iff, !u64_in in Hh. destruct (bounds_of rs) as [[b e]|]; cbn in *; lia.
Qed.
Lemma record_ok_wf rs : forallb record_ok rs = true → Forall (λ r, record_wf r = true) rs.
Proof.
  rewrite forallb_forall. intros Hrs. apply Forall_forall. intros r Hr%list_elem_of_In. specialize (Hrs r Hr).
  unfold record_ok in Hrs. rewrite !andb_true_iff in Hrs. by destruct Hrs as [[? _] _].
Qed.

Lemma index_offsets_sorted pos idx : bt_sorted (index_offsets pos idx) = bt_sorted idx.
Proof.
  revert pos. induction idx as [|[c es] idx IH]; intros pos; [done|]. cbn [index_offsets bt_sorted fst]. rewrite IH.
  by destruct idx as [|[]].
Qed.
Lemma index_offsets_in pos idx : (0 ≤ pos)%Z → (pos + zlen (index_frames idx) ≤ u64_max)%Z → forallb index_wf idx = true →
  forallb (λ '(k, v), c_wf u16 k && c_wf u64 v) (index_offsets pos idx) = true.
Proof.
  revert pos. induction idx as [|[c es] idx IH]; intros pos Hpos Hsz; [done|]. cbn [forallb index_offsets]. rewrite !andb_true_iff.
  rewrite index_frames_cons, zlen_app in Hsz. zlen_facts. intros [Hc Hidx]. split; [split|].
  - change (c_wf u16 c && vec_wf MessageIndexEntry_codec es = true) in Hc. by apply andb_true_iff in Hc as [? _].
  - apply u64_in. lia.
  - apply IH; [lia|lia|done].
Qed.

Lemma int_map_wf_of (m : list (Z * Z)) : bt_sorted m = true → forallb (λ '(k, v), c_wf u16 k && c_wf u64 v) m = true →
  c_wf int_map m = true ∧ (zlen m ≤ 65536)%Z.
Proof.
  intros Hs Hm. assert (zlen m ≤ 65536)%Z as Hl.
  { apply (bt_few_keys 0 u16_max m Hs); [done|]. rewrite forallb_forall in Hm. apply Forall_forall.
    intros [k v] Hin. specialize (Hm _ (proj1 (list_elem_of_In _ _) Hin)). cbn in Hm. apply andb_true_iff in Hm as [Hk _]. by apply u16_in. }
  split; [|done]. apply map_wf_iff. split_and!; [done|done|]. pose proof (zlen_int_map m) as Hb.
  change (c_enc int_map m) with (le_enc 4 (zlen (map_body u16 u64 m)) ++ map_body u16 u64 m) in Hb. rewrite zlen_app, zlen_le_enc in Hb. lia.
Qed.

Lemma compression_name_wf c : c_wf rstr (compression_name c) = true.
Proof. by destruct c as [[]|]. Qed.

(** A record that is small is well-formed as soon as its fields are. *)
Lemma small_body n (b : bytes) : zlen b = n → (n < 2 ^ 64)%Z → (zlen b <? 2 ^ 64)%Z = true.
Proof. intros -> Hn. by apply Z.ltb_lt. Qed.
Lemma zlen_string s : zlen (c_enc rstr s) = (4 + zlen s)%Z.
Proof. change (c_enc rstr s) with (le_enc 4 (zlen s) ++ s). zlia. Qed.

Lemma zlen_chunk_index (i : ChunkIndex) :
  zlen (c_enc ChunkIndex_codec i) = (64 + 10 * zlen (ci_message_index_offsets i) + zlen (ci_compression i))%Z.
Proof.
  change (c_enc ChunkIndex_codec i) with
    ((((((((le_enc 8 (ci_message_start_time i) ++ le_enc 8 (ci_message_end_time i)) ++ le_enc 8 (ci_chunk_start_offset i)) ++
       le_enc 8 (ci_chunk_length i)) ++ c_enc int_map (ci_message_index_offsets i)) ++ le_enc 8 (ci_message_index_length i)) ++
       c_enc rstr (ci_compression i)) ++ le_enc 8 (ci_compressed_size i)) ++ le_enc 8 (ci_uncompressed_size i)).
  rewrite !zlen_app, zlen_int_map, zlen_string, !zlen_le_enc. lia.
Qed.
Lemma chunk_index_wf (i : ChunkIndex) :
  c_wf ChunkIndex_codec i = c_wf u64 (ci_message_start_time i) && c_wf u64 (ci_message_end_time i) && c_wf u64 (ci_chunk_start_offset i) &&
    c_wf u64 (ci_chunk_length i) && c_wf int_map (ci_message_index_offsets i) && c_wf u64 (ci_message_index_length i) &&
    c_wf rstr (ci_compression i) && c_wf u64 (ci_compressed_size i) && c_wf u64 (ci_uncompressed_size i).
Proof. done. Qed.
Lemma zlen_statistics (s : Statistics) : zlen (c_enc Statistics_codec s) = (46 + 10 * zlen (st_channel_message_counts s))%Z.
Proof.
  change (c_enc Statistics_codec s) with
    ((((((((le_enc 8 (st_message_count s) ++ le_enc 2 (st_schema_count s)) ++ le_enc 4 (st_channel_count s)) ++
       le_enc 4 (st_attachment_count s)) ++ le_enc 4 (st_metadata_count s)) ++ le_enc 4 (st_chunk_count s)) ++
       le_enc 8 (st_message_start_time s)) ++ le_enc 8 (st_message_end_time s)) ++ c_enc int_map (st_channel_message_counts s)).
  rewrite !zlen_app, zlen_int_map, !zlen_le_enc. lia.
Qed.
Lemma statistics_wf (s : Statistics) :
  c_wf Statistics_codec s = c_wf u64 (st_message_count s) && c_wf u16 (st_schema_count s) && c_wf u32 (st_channel_count s) &&
    c_wf u32 (st_attachment_count s) && c_wf u32 (st_metadata_count s) && c_wf u32 (st_chunk_count s) &&
    c_wf u64 (st_message_start_time s) && c_wf u64 (st_message_end_time s) && c_wf int_map (st_channel_message_counts s).
Proof. done. Qed.
End wf.

(** ** How large its records are *)

Section items.
Context `{Crc, !CrcLaws, ZstdEncoderLib, Lz4EncoderLib} (o : WriteOptions).
Context `{!EncoderOk (wo_compression o) (wo_compression_level o) (wo_compression_threads o)}.

(** An index of the item [i]: well-formed, and at most twice as large as the item. *)
Definition index_ok (i : item) (r : record) : Prop :=
  summary_record_ok r = true ∧ (zlen (record_frame r) ≤ 2 * zlen (item_bytes o i))%Z.

Lemma chunk_item_index pre rs z : item_ok o (IChunk rs z) → (zlen (pre ++ item_bytes o (IChunk rs z)) ≤ u64_max)%Z →
  (zlen (records_data rs) ≤ u64_max)%Z →
  index_ok (IChunk rs z)
    (RChunkIndex (chunk_index (compression := wo_compression o) pre (wo_calculate_chunk_crcs o) (wo_emit_message_indexes o) rs z)).
Proof.
  intros (Hu & Hrs & Hfew & Hz & _) Hsz Hd. set (idx := chunk_indexes_of (wo_emit_message_indexes o) rs).
  assert (bt_sorted idx = true ∧ forallb index_wf idx = true) as [Hs Hwf].
  { unfold idx, chunk_indexes_of. destruct (wo_emit_message_indexes o) eqn:Em; [|done].
    split; [apply indexes_of_sorted|]. apply indexes_of_wf; [done|done|by apply Hfew]. }
  rewrite zlen_app, zlen_item_chunk in Hsz. fold idx in Hsz. zlen_facts.
  assert (zlen (chunk_frame (compression := wo_compression o) (wo_calculate_chunk_crcs o) rs z) =
    zlen (dummy_start (compression := wo_compression o)) + zlen z)%Z as Hf by by rewrite chunk_frame_split, zlen_app, zlen_chunk_start.
  assert (zlen (dummy_start (compression := wo_compression o)) = 49 + zlen (compression_name (wo_compression o)))%Z as Hdu.
  { unfold dummy_start, dummy_header. rewrite !zlen_app, zlen_chunk_header. zlia. }
  set (i := chunk_index _ _ _ _ _).
  destruct (int_map_wf_of (ci_message_index_offsets i)) as [Hm Hml].
  { unfold i. cbn. by rewrite index_offsets_sorted. }
  { unfold i. cbn. apply index_offsets_in; fold idx; [lia|lia|done]. }
  pose proof (compression_name_len (wo_compression o)) as Hn. destruct (bounds_in rs (record_ok_wf _ Hrs)) as [Hb1 Hb2].
  split.
  - unfold summary_record_ok, record_wf. cbn [writable record_body]. rewrite andb_true_r, chunk_index_wf.
    apply andb_true_iff. split; [|apply (small_body _ _ (zlen_chunk_index i)); cbn in *; lia].
    rewrite !andb_true_iff. split_and!; try first [exact Hb1|exact Hb2|exact Hm|apply compression_name_wf];
      apply u64_in; unfold i; cbn [chunk_index ci_chunk_start_offset ci_chunk_length ci_message_index_length ci_compressed_size ci_uncompressed_size]; fold idx; lia.
  - rewrite zlen_record_frame. cbn [record_body]. rewrite zlen_chunk_index, zlen_item_chunk. fold idx.
    assert (10 * zlen (ci_message_index_offsets i) ≤ zlen (index_frames idx))%Z as Hidx.
    { unfold i. cbn. fold idx. rewrite zlen_index_frames. clear. generalize (zlen pre + zlen (chunk_frame (compression := wo_compression o)
        (wo_calculate_chunk_crcs o) rs z))%Z. induction idx as [|[c es] l IH]; intros p; [done|].
      cbn [index_offsets index_size foldr]. rewrite zlen_cons. specialize (IH (p + zlen (frame (index_record (c, es)).1 (index_record (c, es)).2))%Z).
      fold (index_size l). zlen_facts. lia. }
    change (ci_compression i) with (compression_name (wo_compression o)). lia.
Qed.

Lemma attachment_item_index pre header data : item_ok o (IAttachment header data) →
  (zlen (pre ++ item_bytes o (IAttachment header data)) ≤ u64_max)%Z →
  index_ok (IAttachment header data) (RAttachmentIndex (attachment_index o pre header data)).
Proof.
  intros Hi Hsz. cbn [item_ok] in Hi. rewrite item_bytes_attachment, zlen_app in Hsz. zlen_facts.
  unfold record_wf, attachment_record in Hi. rewrite !andb_true_iff in Hi. destruct Hi as [[[[Hh Hc] Hd] _] _].
  change (c_wf u64 (ah_log_time header) && c_wf u64 (ah_create_time header) && c_wf rstr (ah_name header) && c_wf rstr (ah_media_type header) = true) in Hh.
  rewrite !andb_true_iff in Hh. destruct Hh as [[[Hl Hct] Hn] Hm]. pose proof Hn as Hn'. pose proof Hm as Hm'.
  apply string_wf_iff in Hn' as [_ Hn']. apply string_wf_iff in Hm' as [_ Hm']. unfold in_u in Hn', Hm'.
  set (i := attachment_index o pre header data).
  assert (zlen (c_enc AttachmentIndex_codec i) = 48 + zlen (ah_name header) + zlen (ah_media_type header))%Z as Hlen.
  { change (c_enc AttachmentIndex_codec i) with
      ((((((le_enc 8 (ai_offset i) ++ le_enc 8 (ai_length i)) ++ le_enc 8 (ai_log_time i)) ++ le_enc 8 (ai_create_time i)) ++
        le_enc 8 (ai_data_size i)) ++ c_enc rstr (ah_name header)) ++ c_enc rstr (ah_media_type header)).
    rewrite !zlen_app, !zlen_string, !zlen_le_enc. lia. }
  split.
  - unfold summary_record_ok, record_wf. cbn [writable record_body]. rewrite andb_true_r. apply andb_true_iff. split; [|apply (small_body _ _ Hlen); lia].
    change (c_wf u64 (ai_offset i) && c_wf u64 (ai_length i) && c_wf u64 (ai_log_time i) && c_wf u64 (ai_create_time i) &&
      c_wf u64 (ai_data_size i) && c_wf rstr (ah_name header) && c_wf rstr (ah_media_type header) = true).
    rewrite !andb_true_iff. split_and!; try done; apply u64_in; cbn [i attachment_index ai_offset ai_length ai_data_size]; lia.
  - rewrite item_bytes_attachment, !zlen_record_frame. cbn [record_body attachment_record]. rewrite Hlen.
    change (c_enc AttachmentHeader_codec header) with
      (((le_enc 8 (ah_log_time header) ++ le_enc 8 (ah_create_time header)) ++ c_enc rstr (ah_name header)) ++ c_enc rstr (ah_media_type header)).
    rewrite !zlen_app, !zlen_string, !zlen_le_enc. zlia.
Qed.

Lemma metadata_item_index pre m : item_ok o (IMetadata m) → (zlen (pre ++ item_bytes o (IMetadata m)) ≤ u64_max)%Z →
  index_ok (IMetadata m) (RMetadataIndex (mkMetadataIndex (zlen pre) (zlen (record_frame (RMetadata m))) (md_name m))).
Proof.
  intros Hi Hsz. cbn [item_ok] in Hi. rewrite item_bytes_metadata, zlen_app in Hsz. zlen_facts.
  unfold record_wf in Hi. rewrite !andb_true_iff in Hi. destruct Hi as [Hm _].
  change (c_wf rstr (md_name m) && c_wf string_map (md_metadata m) = true) in Hm. apply andb_true_iff in Hm as [Hn _].
  pose proof Hn as Hn'. apply string_wf_iff in Hn' as [_ Hn']. unfold in_u in Hn'.
  set (i := mkMetadataIndex _ _ _).
  assert (zlen (c_enc MetadataIndex_codec i) = 20 + zlen (md_name m))%Z as Hlen.
  { change (c_enc MetadataIndex_codec i) with ((le_enc 8 (mx_offset i) ++ le_enc 8 (mx_length i)) ++ c_enc rstr (md_name m)).
    rewrite !zlen_app, !zlen_string, !zlen_le_enc. lia. }
  split.
  - unfold summary_record_ok, record_wf. cbn [writable record_body]. rewrite andb_true_r. apply andb_true_iff. split; [|apply (small_body _ _ Hlen); lia].
    change (c_wf u64 (mx_offset i) && c_wf u64 (mx_length i) && c_wf rstr (md_name m) = true).
    rewrite !andb_true_iff. split_and!; try done; apply u64_in; cbn [i mx_offset mx_length]; lia.
  - rewrite item_bytes_metadata, !zlen_record_frame. cbn [record_body]. rewrite Hlen.
    change (c_enc Metadata_codec m) with (c_enc rstr (md_name m) ++ c_enc string_map (md_metadata m)).
    assert (4 ≤ zlen (c_enc string_map (md_metadata m)))%Z.
    { change (c_enc string_map (md_metadata m)) with (map_enc rstr rstr (md_metadata m)). unfold map_enc. zlia. }
    rewrite !zlen_app, zlen_string. zlia.
Qed.

(** The indexes of one kind. *)
Lemma indexed_ok {A} (f : bytes → item → option A) (g : A → record) pre l :
  (∀ pre i a, i ∈ l → f pre i = Some a → (zlen (pre ++ item_bytes o i) ≤ u64_max)%Z → index_ok i (g a)) →
  (zlen (pre ++ items_bytes o l) ≤ u64_max)%Z →
  forallb summary_record_ok (g <$> indexed o f pre l) = true ∧
  (zlen (records_data (g <$> indexed o f pre l)) ≤ 2 * zlen (items_bytes o l))%Z.
Proof.
  revert pre. induction l as [|i l IH]; intros pre Hf Hsz; [done|].
  change (items_bytes o (i :: l)) with (item_bytes o i ++ items_bytes o l) in *. cbn [indexed].
  destruct (IH (pre ++ item_bytes o i)) as [Hok Hlen].
  { intros pre' j a Hj. apply Hf. by right. } { by rewrite <-app_assoc. }
  rewrite !zlen_app in Hsz. zlen_facts. rewrite fmap_app, forallb_app, records_data_app, !zlen_app.
  destruct (f pre i) as [a|] eqn:E.
  - change (g <$> option_list (Some a)) with [g a]. cbn [forallb]. destruct (Hf pre i a ltac:(left) E) as [Ha Hal]; [rewrite zlen_app; lia|]. rewrite Ha, Hok. split; [done|].
    change (records_data [g a]) with (record_frame (g a) ++ []). rewrite app_nil_r. lia.
  - change (g <$> option_list None) with (@nil record). split; [done|]. change (zlen (records_data [])) with 0%Z. lia.
Qed.
End items.

(** ** All of it *)

Section all.
Context `{Crc, !CrcLaws, HashOrder, ZstdEncoderLib, Lz4EncoderLib}.
Context `{!BiMap ChannelContent Z, !BiMap SchemaContent Z, !BiMapOk ChannelContent Z, !BiMapOk SchemaContent Z}.
Context (o : WriteOptions).
Context `{!EncoderOk (wo_compression o) (wo_compression_level o) (wo_compression_threads o)}.

Lemma zlen_records_perm l k : l ≡ₚ k → zlen (records_data l) = zlen (records_data k).
Proof.
  induction 1 as [|r l k _ IH|r r' l|l1 l2 l3 _ IH1 _ IH2]; [done|..].
  - change (records_data (r :: l)) with (record_frame r ++ records_data l).
    change (records_data (r :: k)) with (record_frame r ++ records_data k). by rewrite !zlen_app, IH.
  - change (records_data (r' :: r :: l)) with (record_frame r' ++ record_frame r ++ records_data l).
    change (records_data (r :: r' :: l)) with (record_frame r ++ record_frame r' ++ records_data l). rewrite !zlen_app. lia.
  - by rewrite IH1.
Qed.
Lemma zlen_records_filter p l : (zlen (records_data (List.filter p l)) ≤ zlen (records_data l))%Z.
Proof.
  induction l as [|r l IH]; [done|]. change (records_data (r :: l)) with (record_frame r ++ records_data l). cbn [List.filter].
  destruct (p r); [change (records_data (r :: List.filter p l)) with (record_frame r ++ records_data (List.filter p l))|];
    rewrite ?zlen_app; zlen_facts; lia.
Qed.
Lemma zlen_records_in r l : r ∈ l → (zlen (record_frame r) ≤ zlen (records_data l))%Z.
Proof.
  intros (l1 & l2 & ->)%list_elem_of_split. rewrite records_data_app, zlen_app.
  change (records_data (r :: l2)) with (record_frame r ++ records_data l2). rewrite zlen_app. zlen_facts. lia.
Qed.

(** Every record of a log is well-formed. *)
Lemma item_log_wf i : item_ok o i → Forall (λ r, record_wf r = true) (item_log o i).
Proof.
  destruct i as [r|h d|m|rs z]; cbn [item_ok item_log].
  - intros [Hr _]. unfold record_ok in Hr. rewrite !andb_true_iff in Hr. repeat constructor. by destruct Hr as [[? _] _].
  - by repeat constructor.
  - by repeat constructor.
  - intros (_ & Hrs & _). by apply record_ok_wf.
Qed.
Lemma log_wf l : astate_ok o (mkState l None) → Forall (λ r, record_wf r = true) (log o (mkState l None)).
Proof.
  intros [Hi _]. unfold log. cbn [a_items a_open default from_option] in *. rewrite app_nil_r. apply Forall_concat, Forall_fmap.
  eapply Forall_impl; [exact Hi|]. intros i. apply item_log_wf.
Qed.
(** A chunk's records are part of the log. *)
Lemma chunk_in_log l rs z : IChunk rs z ∈ l → (zlen (records_data rs) ≤ zlen (records_data (log o (mkState l None))))%Z.
Proof.
  intros (l1 & l2 & ->)%list_elem_of_split. unfold log. cbn [a_items a_open default from_option].
  rewrite app_nil_r, fmap_app, concat_app, records_data_app. cbn [fmap list_fmap concat item_log]. rewrite records_data_app, !zlen_app. zlen_facts. lia.
Qed.

(** The part of the log that the summary repeats. *)
Lemma repeated_ok p l k : Forall (λ r, record_wf r = true) l → (∀ r, p r = true → writable r = true) → k ≡ₚ List.filter p l →
  forallb summary_record_ok k = true ∧ (zlen (records_data k) ≤ zlen (records_data l))%Z.
Proof.
  intros Hl Hp Hk. split; [|rewrite (zlen_records_perm _ _ Hk); apply zlen_records_filter].
  apply forallb_forall. intros r Hr%list_elem_of_In. rewrite Hk in Hr. apply list_elem_of_In, filter_In in Hr as [Hr Hpr].
  unfold summary_record_ok. rewrite (Hp r Hpr). rewrite Forall_forall in Hl. rewrite (Hl r); [done|]. by apply list_elem_of_In.
Qed.

(** The statistics. *)
Lemma mod_range a n : (0 < n)%Z → (0 ≤ a `mod` n ≤ n - 1)%Z.
Proof. intros Hn. pose proof (Z.mod_pos_bound a n Hn). lia. Qed.
Lemma statistics_ok (st : spec_state) chunks : log_ok st → Forall (λ r, record_wf r = true) (sp_log st) →
  (messages_in (sp_log st) ≤ u64_max)%Z →
  let r := RStatistics (log_statistics (sp_log st) chunks (i_counts (sp_ids st))) in
  summary_record_ok r = true ∧ (zlen (record_frame r) ≤ 655500)%Z.
Proof.
  intros Hok Hwf Hm r. set (counts := i_counts (sp_ids st)).
  assert (∀ id n, (id, n) ∈ counts → (0 ≤ id ≤ u16_max)%Z ∧ (0 ≤ n ≤ u64_max)%Z) as Hin.
  { intros id n Hin. pose proof (bt_get_in _ _ _ (lo_sorted _ Hok) Hin) as Hg. split.
    - destruct (lo_counted _ Hok _ _ Hg) as [k Hk]. destruct (lo_ids _ Hok) as [_ Hc]. by apply (reg_range _ _ _ Hc id k).
    - pose proof (lo_counts _ Hok id) as Hc. unfold counts in Hg. rewrite Hg in Hc. cbn in Hc. rewrite Hc. split; [apply logged_nonneg|].
      assert (logged (on_channel id) (sp_log st) ≤ messages_in (sp_log st))%Z; [|lia]. unfold logged, messages_in. clear.
      induction (sp_log st) as [|x l IH]; [done|]. cbn [List.filter]. destruct x as [| | | |h d| | | | | | | | | | |]; try done.
      cbn [on_channel is_message]. destruct (_ =? _)%Z; zlia. }
  destruct (int_map_wf_of counts (lo_sorted _ Hok)) as [Hmap Hlen].
  { apply forallb_forall. intros [id n] Hi%list_elem_of_In. destruct (Hin _ _ Hi). by rewrite (proj2 (u16_in id)), (proj2 (u64_in n)). }
  destruct (bounds_in _ Hwf) as [Hb1 Hb2]. unfold r. set (s := log_statistics _ _ _).
  assert (zlen (c_enc Statistics_codec s) = 46 + 10 * zlen counts)%Z as Hs by by rewrite zlen_statistics.
  split; [|rewrite zlen_record_frame; cbn [record_body]; lia].
  unfold summary_record_ok, record_wf. cbn [writable record_body]. rewrite andb_true_r, statistics_wf.
  apply andb_true_iff. split; [|apply (small_body _ _ Hs); lia].
  pose proof (lo_attachments _ Hok). pose proof (lo_metadatas _ Hok).
  pose proof (logged_nonneg is_attachment_record (sp_log st)). pose proof (logged_nonneg is_metadata_record (sp_log st)).
  pose proof (logged_nonneg is_message (sp_log st)).
  rewrite !andb_true_iff. split_and!; try done; [apply u64_in|apply u16_in|apply u32_in|apply u32_in|apply u32_in|apply u32_in];
    unfold s; cbn [log_statistics st_message_count st_schema_count st_channel_count st_attachment_count st_metadata_count st_chunk_count].
  - done.
  - by apply mod_range.
  - by apply mod_range.
  - done.
  - done.
  - by apply mod_range.
Qed.

(** The offsets of the groups. *)
Lemma group_offsets_ok pos gs : (0 ≤ pos)%Z → (pos + zlen (groups_data gs) ≤ u64_max)%Z → Forall (λ g, c_wf u8 g.1 = true) gs →
  forallb summary_record_ok (RSummaryOffset <$> group_offsets pos gs) = true ∧
  (zlen (records_data (RSummaryOffset <$> group_offsets pos gs)) ≤ 26 * zlen gs)%Z.
Proof.
  revert pos. induction gs as [|[opcode rs] gs IH]; intros pos Hpos Hsz Hg; [done|]. apply Forall_cons in Hg as [Hop Hg]. cbn [fst] in Hop.
  change (groups_data ((opcode, rs) :: gs)) with (records_data (rs ++ concat gs.*2)) in Hsz. rewrite records_data_app, zlen_app in Hsz.
  fold (groups_data gs) in Hsz. zlen_facts. destruct (IH (pos + zlen (records_data rs))%Z) as [Hok Hlen]; [lia|lia|done|].
  cbn [group_offsets]. rewrite fmap_app, forallb_app, records_data_app, zlen_app, Hok, zlen_cons, andb_true_r.
  destruct (bool_decide _); [split; [done|]; change (RSummaryOffset <$> []) with (@nil record); change (zlen (records_data [])) with 0%Z; lia|].
  set (x := mkSummaryOffset _ _ _). change (RSummaryOffset <$> [x]) with [RSummaryOffset x].
  assert (zlen (c_enc SummaryOffset_codec x) = 17)%Z as Hx.
  { change (c_enc SummaryOffset_codec x) with ((le_enc 1 (so_group_opcode x) ++ le_enc 8 (so_group_start x)) ++ le_enc 8 (so_group_length x)). zlia. }
  split.
  - cbn [forallb]. rewrite andb_true_r. unfold summary_record_ok, record_wf. cbn [writable record_body]. rewrite andb_true_r.
    apply andb_true_iff. split; [|by apply (small_body _ _ Hx)].
    change (c_wf u8 opcode && c_wf u64 pos && c_wf u64 (zlen (records_data rs)) = true). rewrite Hop, !andb_true_iff, !u64_in. split_and!; done || lia.
  - change (records_data [RSummaryOffset x]) with (record_frame (RSummaryOffset x) ++ []). rewrite app_nil_r, zlen_record_frame. cbn [record_body]. lia.
Qed.

(** The summary of a writer whose file has the items [l] when it is finished. *)
Record summary_of (l : list item) (st : spec_state) (sum : Summary) (stats : Statistics) : Prop := {
  so_stats : Summary.stats sum = Some stats;
  so_counts : stats = log_statistics (sp_log st) (zlen (indexed o (item_chunk_index o) MAGIC l)) (i_counts (sp_ids st));
  so_schemas : all_schemas sum ≡ₚ List.filter is_schema (sp_log st);
  so_channels : all_channels sum ≡ₚ List.filter is_channel (sp_log st);
  so_linked : linked sum;
  so_chunks : chunk_indexes sum = indexed o (item_chunk_index o) MAGIC l;
  so_attachments : attachment_indexes sum = if wo_emit_attachment_indexes o then indexed o (item_attachment_index o) MAGIC l else [];
  so_metadatas : metadata_indexes sum = if wo_emit_metadata_indexes o then indexed o item_metadata_index MAGIC l else [];
}.

Lemma if_ok (b : bool) (k : list record) n : (0 ≤ n)%Z → forallb summary_record_ok k = true ∧ (zlen (records_data k) ≤ n)%Z →
  forallb summary_record_ok (if b then k else []) = true ∧ (zlen (records_data (if b then k else [])) ≤ n)%Z.
Proof. intros Hn [Hk Hl]. by destruct b. Qed.

Lemma summary_indexes_ok l : astate_ok o (mkState l None) → (zlen (contents o l) ≤ u64_max)%Z →
  (zlen (records_data (log o (mkState l None))) ≤ u64_max)%Z →
  let ok k := forallb summary_record_ok k = true ∧ (zlen (records_data k) ≤ 2 * zlen (items_bytes o l))%Z in
  ok (RChunkIndex <$> indexed o (item_chunk_index o) MAGIC l) ∧
  ok (RAttachmentIndex <$> indexed o (item_attachment_index o) MAGIC l) ∧
  ok (RMetadataIndex <$> indexed o item_metadata_index MAGIC l).
Proof.
  intros [Hi _] Hsz Hl ok. cbn [a_items] in Hi. rewrite Forall_forall in Hi. split_and!; apply indexed_ok; try done; intros pre i a Hin Hf Hp; specialize (Hi i Hin).
  - destruct i as [| | |rs z]; try done. injection Hf as <-. apply (chunk_item_index o); [done|done|]. pose proof (chunk_in_log _ _ _ Hin). lia.
  - destruct i as [|h d| |]; try done. injection Hf as <-. by apply (attachment_item_index o).
  - destruct i as [| |m|]; try done. injection Hf as <-. by apply (metadata_item_index o).
Qed.

Lemma summary_records_ok l st sum stats B start : summary_of l st sum stats → log_ok st → astate_ok o (mkState l None) →
  log o (mkState l None) = sp_log st → (zlen (contents o l) ≤ B)%Z → (log_size st ≤ B)%Z → (0 ≤ start ≤ B + 13)%Z → (B ≤ 2 ^ 59)%Z →
  forallb summary_record_ok (summary_records start sum stats o) = true ∧
  (zlen (records_data (summary_records start sum stats o)) ≤ 9 * B + 655700)%Z.
Proof.
  intros [Hst Hcn Hs Hc _ Hci Hai Hmi] Hok Ha Hlog Hsz Hls Hstart HB. unfold log_size in Hls.
  pose proof (zlen_nonneg (contents o l)) as H0B. pose proof (log_wf l Ha) as Hwf. rewrite Hlog in Hwf.
  assert (zlen (items_bytes o l) ≤ B)%Z as Hit by (unfold contents in Hsz; rewrite zlen_app in Hsz; zlen_facts; lia).
  destruct (repeated_ok is_schema _ _ Hwf ltac:(by intros []) Hs) as [S1 S2].
  destruct (repeated_ok is_channel _ _ Hwf ltac:(by intros []) Hc) as [C1 C2].
  destruct (summary_indexes_ok l Ha) as ([I1 I2] & [A1 A2] & [M1 M2]); [unfold u64_max; lia|rewrite Hlog; unfold u64_max; lia|].
  assert (messages_in (sp_log st) ≤ u64_max)%Z as Hm by (pose proof (messages_size (sp_log st)); pose proof (logged_nonneg is_message (sp_log st));
    unfold messages_in, logged, u64_max in *; lia).
  destruct (statistics_ok st (zlen (indexed o (item_chunk_index o) MAGIC l)) Hok Hwf Hm) as [T1 T2]. rewrite <-Hcn in T1, T2.
  unfold summary_records. set (gs := summary_groups sum stats o). fold (groups_data gs).
  assert (forallb summary_record_ok (concat gs.*2) = true ∧ (zlen (groups_data gs) ≤ 8 * B + 655500)%Z) as [Hg Hgl].
  { unfold groups_data, gs, summary_groups. cbn [fmap list_fmap snd concat]. rewrite !forallb_app, !records_data_app, !zlen_app.
    rewrite Hci, Hai, Hmi.
    destruct (if_ok (wo_repeat_schemas o) (all_schemas sum) B ltac:(lia)) as [-> ?]; [by split; [|lia]|].
    destruct (if_ok (wo_repeat_channels o) (all_channels sum) B ltac:(lia)) as [-> ?]; [by split; [|lia]|].
    destruct (if_ok (wo_emit_statistics o) [RStatistics stats] 655500 ltac:(lia)) as [-> ?].
    { cbn [forallb]. rewrite T1. split; [done|]. change (records_data [RStatistics stats]) with (record_frame (RStatistics stats) ++ []).
      by rewrite app_nil_r. }
    destruct (if_ok (wo_emit_chunk_indexes o) (RChunkIndex <$> indexed o (item_chunk_index o) MAGIC l) (2 * B) ltac:(lia)) as [-> ?]; [by split; [|lia]|].
    assert (∀ b, RAttachmentIndex <$> (if b : bool then indexed o (item_attachment_index o) MAGIC l else []) =
      if b then RAttachmentIndex <$> indexed o (item_attachment_index o) MAGIC l else []) as Eb by by intros [].
    assert (∀ b, RMetadataIndex <$> (if b : bool then indexed o item_metadata_index MAGIC l else []) =
      if b then RMetadataIndex <$> indexed o item_metadata_index MAGIC l else []) as Ec by by intros [].
    rewrite Eb, Ec.
    destruct (if_ok (wo_emit_attachment_indexes o) (if wo_emit_attachment_indexes o then RAttachmentIndex <$> indexed o (item_attachment_index o) MAGIC l else []) (2 * B) ltac:(lia)) as [-> ?];
      [apply if_ok; [lia|by split; [|lia]]|].
    destruct (if_ok (wo_emit_metadata_indexes o) (if wo_emit_metadata_indexes o then RMetadataIndex <$> indexed o item_metadata_index MAGIC l else []) (2 * B) ltac:(lia)) as [-> ?];
      [apply if_ok; [lia|by split; [|lia]]|].
    split; [done|]. change (zlen (records_data [])) with 0%Z. lia. }
  destruct (group_offsets_ok start gs) as [Ho Hol]; [lia|unfold u64_max; lia|repeat constructor|].
  change (zlen gs) with 6%Z in Hol.
  destruct (if_ok (wo_emit_summary_offsets o) (RSummaryOffset <$> group_offsets start gs) 156 ltac:(lia)) as [Hf ?]; [by split; [|lia]|].
  rewrite forallb_app, records_data_app, zlen_app, Hg, Hf. fold (groups_data gs). split; [done|lia].
Qed.
End all.
