(* ===== verification/WriterRoundtrip.v ===== *)
(** From the first call to the last byte, and back: finishing a writer leaves a
    well-formed file whose data section holds the log, and reading that file gives the
    log's records. *)

From S2P Require Import Prelude Utf8 BTree Errors Bin Records Crc Io Codec RwBuf Decompressor LinearReader LinearReaderTheory LinearReaderClient LinearReaderFile Channels Read ReadTheory Summary ChunkWriter ChunkWriterTheory Writer WriterTheory WriterSpec Instances WriterLog WriterFile WriterSummary.

(** ** Finishing *)

Section finish.
Context `{Crc, !CrcLaws, HashOrder, !HashOrderOk, ZstdEncoderLib, Lz4EncoderLib} `{FileOk W file}.
Context `{!BiMap ChannelContent Z, !BiMap SchemaContent Z, !BiMapOk ChannelContent Z, !BiMapOk SchemaContent Z}.
Context (o : WriteOptions).
Context `{!EncoderOk (wo_compression o) (wo_compression_level o) (wo_compression_threads o)}.
Abbreviation writer := (Writer (W := W)).

(** The chunk that is open is closed, and the summary is taken. *)
Lemma finish_summary n B s st : represents o n s st → log_ok st → (log_size st ≤ B)%Z → (u64_max - n ≤ B)%Z → (B ≤ 2 ^ 59)%Z →
  ∃ s1 s2 l w sum stats, finish_chunk s = (Ok (), s1) ∧ take_summary s1 = (Ok sum, s2) ∧
    wr_writer s2 = Some (Raw w) ∧ wr_options s2 = o ∧ raw_rep (file := file) o l w ∧ summary_of o l st sum stats ∧
    astate_ok o (mkState l None) ∧ log o (mkState l None) = sp_log st ∧ (zlen (contents o l) ≤ B)%Z.
Proof.
  intros (a & Hs & Ha & Hl & Hi & Hids & Hn & Hsz) Hok Hls HnB HB.
  destruct (finish_chunk_spec o a s Hs) as (s1 & l & E1 & Hcl & Hs1 & Hi1).
  destruct (closes_ok o a l Ha Hcl) as (Hal & Hszl & Hlogl).
  assert (represents o n s1 st) as Hr1.
  { exists (mkState l None). split_and!; try done; [by rewrite Hlogl|by rewrite Hi1|lia]. }
  pose proof (messages_size (sp_log st)) as Hmsg. pose proof (logged_nonneg is_message (sp_log st)) as Hm0.
  unfold log_size in Hls.
  pose proof (statistics_spec o n s1 st Hr1 Hok) as Hst.
  rewrite (wrep_chunks _ _ _ Hs1) in Hst. cbn [a_items] in Hst.
  set (stats := log_statistics _ _ _) in Hst.
  assert (statistics (W:=W) s1 = Ok stats) as Hst' by (apply Hst; unfold logged, messages_in, u64_max in *; lia).
  destruct (take_summary_spec o (mkState l None) s1 stats Hs1) as (sum & s2 & E2 & Hw2 & Ho2 & _ & Hsum & Hci & Hai & Hmi & Hsc & Hch).
  { by rewrite Hi1, Hi. } { done. }
  pose proof (wrep_mode _ _ _ Hs1) as ((w & Hw & Hr) & _). cbn [a_items] in *.
  assert (wr_all_schema_ids s1 = i_schema_ids (sp_ids st) ∧ wr_canonical_schemas s1 = i_schemas (sp_ids st) ∧
    wr_all_channel_ids s1 = i_channel_ids (sp_ids st) ∧ wr_canonical_channels s1 = i_channels (sp_ids st)) as (X1 & X2 & X3 & X4)
    by by rewrite <-Hi, <-Hi1.
  rewrite X1, X2 in Hsc. rewrite X3, X4 in Hch.
  pose proof (reg_sorted _ _ _ (schemas_ok _ (lo_ids _ Hok))) as Hss. pose proof (reg_sorted _ _ _ (channels_ok _ (lo_ids _ Hok))) as Hsc'.
  exists s1, s2, l, w, sum, stats. split_and!; try done.
  - by rewrite Hw2.
  - split; try done.
    + eapply all_schemas_log; [exact Hss|exact Hsc|apply Hok|apply Hok].
    + eapply (all_channels_log sum _ _ _ _ _ Hsc' Hss Hsc Hch); apply Hok.
    + exact (summary_linked _ _ _ _ _ Hsc' Hss Hsc Hch).
  - by rewrite Hlogl.
  - unfold WriterTheory.state_size in *. cbn [a_items a_open] in *. lia.
Qed.

Lemma raw_checksum l w : raw_rep (file := file) o l w →
  current_checksum w = if wo_calculate_data_section_crc o then crc32 (hashed o l) else 0%Z.
Proof. intros (base & h & _ & Hh). unfold current_checksum. rewrite Hh. unfold data_hash. by destruct (wo_calculate_data_section_crc o). Qed.

Lemma zlen_data_end d : zlen (record_frame (RDataEnd d)) = 13%Z.
Proof. rewrite zlen_record_frame. cbn [record_body]. change (c_enc DataEnd_codec d) with (le_enc 4 (de_data_section_crc d)). zlia. Qed.
Lemma zlen_footer start sum stats : zlen (record_frame (RFooter (the_footer sum stats o start))) = 29%Z.
Proof. rewrite footer_frame. unfold footer_start. zlia. Qed.

(** [finish] succeeds, and the file is what the writer said it would be. *)
Lemma finish_spec n B s st : represents (file := file) o n s st → log_ok st → (log_size st ≤ B)%Z → (u64_max - n ≤ B)%Z → (B ≤ 2 ^ 59)%Z →
  ∃ s' sum stats l w, wr_finish s = (Ok sum, s') ∧ wr_into_inner s' = Ok w ∧
    let f := final_file o l sum stats in
    over file [] w (file_bytes f) ∧ (zlen (file_bytes f) ≤ 2 ^ 63)%Z ∧ summary_of o l st sum stats ∧
    astate_ok o (mkState l None) ∧ log o (mkState l None) = sp_log st ∧
    forallb summary_record_ok (summary_records (zlen (contents o l ++ record_frame (RDataEnd (file_data_end f)))) sum stats o) = true.
Proof.
  intros Hr Hok Hls HnB HB. pose proof Hr as (a & Hs & _).
  destruct (finish_summary n B s st Hr Hok Hls HnB HB) as (s1 & s2 & l & w & sum & stats & E1 & E2 & Hw & Ho & Hraw & Hsum & Hal & Hlog & Hsz).
  unfold wr_finish. rewrite bind_get, (wrep_live _ _ _ Hs), (bind_method_Ok _ _ _ _ _ E1), (bind_method_Ok _ _ _ _ _ E2), bind_modify.
  set (s3 := set_finished sum s2).
  assert (wr_writer s3 = Some (Raw w)) as Hw3 by done.
  rewrite (bind_method_Ok _ _ _ _ _ (on_raw_Ok (gets current_checksum) s3 w _ w Hw3 eq_refl)), (raw_checksum l w Hraw).
  set (data_end := mkDataEnd _). set (f := final_file o l sum stats). set (start := zlen (contents o l ++ record_frame (RDataEnd data_end))).
  pose proof (zlen_data_end data_end) as Hde.
  destruct (summary_records_ok o l st sum stats B start Hsum Hok Hal Hlog Hsz Hls) as [Hrecs Hlen]; [|done|].
  { unfold start. rewrite zlen_app, Hde. zlen_facts. lia. }
  destruct Hraw as (base & h & (d & Hd & Hin & _) & _).
  assert (record_wf (RDataEnd data_end) = true) as Hdewf.
  { unfold record_wf. cbn [record_body]. apply andb_true_iff. split.
    - change (c_wf u32 (de_data_section_crc data_end) = true). unfold data_end. cbn [de_data_section_crc].
      destruct (wo_calculate_data_section_crc o); [|done]. apply (uint_wf_in 4), crc32_u32.
    - apply Z.ltb_lt. rewrite zlen_record_frame in Hde. cbn [record_body] in Hde. lia. }
  destruct (sinks_record (over file []) u64_max (RDataEnd data_end) Hdewf eq_refl _ _ Hin) as (w4 & E4 & Hw4); [rewrite zlen_app, Hde; unfold u64_max; lia|].
  assert (on_inner (mcap_io (write_record (RDataEnd data_end))) w = (Ok (E:=McapError) (), ccw_set_inner w4 w)) as E4'
    by (unfold on_inner, zoom; by rewrite (mcap_io_Ok _ _ _ _ E4)).
  rewrite (bind_method_Ok _ _ _ _ _ (on_raw_again _ s3 w _ _ E4')). rewrite (wrep_options _ _ _ Hs).
  destruct (write_summary_and_footer_spec sum stats o w4 _ Hw4 (so_stats _ _ _ _ _ Hsum) Hrecs) as (w5 & E5 & Hw5).
  { fold start. rewrite !zlen_app, zlen_footer, Hde. change (zlen MAGIC) with 8%Z. unfold u64_max. lia. }
  assert (on_inner (write_summary_and_footer_magic sum o) (ccw_set_inner w4 w) = (Ok (E:=McapError) (), ccw_set_inner w5 (ccw_set_inner w4 w))) as E5'
    by (unfold on_inner, zoom; cbn [ccw_inner ccw_set_inner]; by rewrite E5).
  rewrite (bind_method_Ok _ _ _ _ _ (on_raw_again _ s3 _ _ _ E5')).
  eexists _, sum, stats, l, w5. split; [done|]. split; [done|]. cbn zeta. rewrite final_file_bytes. split_and!; try done.
  change (file_data_end (final_file o l sum stats)) with data_end. fold start. change (file_footer (final_file o l sum stats)) with (the_footer sum stats o start).
  rewrite !zlen_app, zlen_footer, Hde. change (zlen MAGIC) with 8%Z.
  lia.
Qed.
End finish.

(** ** The file is well-formed *)

Section wellformed.
Context `{Crc, !CrcLaws, HashOrder, ZstdEncoderLib, Lz4EncoderLib, ZstdLib, Lz4Lib}.
Context (o : WriteOptions).
Context `{!EncoderOk (wo_compression o) (wo_compression_level o) (wo_compression_threads o)}.

Lemma body_fits_within (opts : LinearReaderOptions) n b : (9 + zlen b ≤ n)%Z → (n ≤ usize_max)%Z →
  (∀ k, record_length_limit opts = Some k → (n ≤ k)%Z) → body_fits opts b = true.
Proof.
  intros Hb Hn Hk. unfold body_fits, check_len, OPCODE_LEN_SIZE. rewrite !(proj2 (Z.leb_le _ _)) by lia. cbn.
  apply bool_decide_true. destruct (record_length_limit opts) as [k|]; [|by eexists]. specialize (Hk k eq_refl).
  rewrite (proj2 (Z.ltb_ge _ _)) by (pose proof (zlen_nonneg b); lia). by eexists.
Qed.

Section within.
Context (opts : LinearReaderOptions) (n : Z).
Hypothesis Hn : (n ≤ usize_max)%Z.
Hypothesis Hlimit : ∀ k, record_length_limit opts = Some k → (n ≤ k)%Z.

Lemma record_entry_ordinary r : file_record r = true → (zlen (record_frame r) ≤ n)%Z → ordinary opts (record_entry r) = true.
Proof.
  intros Hr Hl. apply (file_record_ordinary opts r Hr). apply (body_fits_within opts n); [|done..]. by rewrite zlen_record_frame in Hl.
Qed.
Lemma plain_file_record r : record_ok r = true → file_record r = true.
Proof.
  unfold record_ok, file_record. rewrite !andb_true_iff. intros [[Hw Hwr] Hp]. split; [done|]. by destruct r.
Qed.
Lemma entry_ordinary opcode b : c_wf u8 opcode = true → opcode ≠ op.DATA_END → opcode ≠ op.FOOTER → (zlen (frame opcode b) ≤ n)%Z →
  ordinary opts (opcode, b) = true.
Proof.
  intros Hu Hd Hf Hl. unfold ordinary. cbn [fst snd]. rewrite Hu, !(proj2 (Z.eqb_neq _ _)) by done. cbn [negb andb].
  apply (body_fits_within opts n); [|done..]. unfold frame in Hl. zlia.
Qed.

Lemma index_entries_ordinary idx : (zlen (index_frames idx) ≤ n)%Z → forallb (ordinary opts) (index_record <$> idx) = true.
Proof.
  induction idx as [|i idx IH]; [done|]. rewrite index_frames_cons, zlen_app. intros Hl. zlen_facts. rewrite fmap_cons. cbn [forallb].
  rewrite IH, andb_true_r by lia. unfold index_record in *. cbn [fst snd] in *. apply entry_ordinary; done || lia.
Qed.
Lemma item_ordinary i : item_ok o i → (zlen (item_bytes o i) ≤ n)%Z → forallb (ordinary opts) (item_records o i) = true.
Proof.
  destruct i as [r|h d|m|rs z]; cbn [item_ok item_records forallb]; rewrite ?andb_true_r.
  - intros [Hr _] Hl. rewrite item_bytes_record in Hl. by apply record_entry_ordinary, Hl; apply plain_file_record.
  - intros Hr Hl. rewrite item_bytes_attachment in Hl. apply record_entry_ordinary; [|done]. unfold file_record. by rewrite Hr.
  - intros Hr Hl. rewrite item_bytes_metadata in Hl. apply record_entry_ordinary; [|done]. unfold file_record. by rewrite Hr.
  - intros _ Hl. rewrite item_bytes_chunk, zlen_app in Hl. zlen_facts. apply andb_true_iff. split; [|apply index_entries_ordinary; lia].
    apply entry_ordinary; try done. unfold chunk_frame in Hl. lia.
Qed.
Lemma items_ordinary l : Forall (item_ok o) l → (zlen (items_bytes o l) ≤ n)%Z → forallb (ordinary opts) (concat (item_records o <$> l)) = true.
Proof.
  induction 1 as [|i l Hi _ IH]; [done|]. change (items_bytes o (i :: l)) with (item_bytes o i ++ items_bytes o l). rewrite zlen_app.
  intros Hl. zlen_facts. rewrite fmap_cons. cbn [concat]. rewrite forallb_app, (item_ordinary i Hi), IH; done || lia.
Qed.
Lemma summary_ordinary rs : forallb summary_record_ok rs = true → forallb file_record rs = true → (zlen (records_data rs) ≤ n)%Z →
  forallb (ordinary opts) (record_entry <$> rs) = true.
Proof.
  induction rs as [|r rs IH]; [done|]. change (records_data (r :: rs)) with (record_frame r ++ records_data rs). rewrite zlen_app. cbn [forallb].
  rewrite !andb_true_iff. intros [_ Hs] [Hr Hrs] Hl. zlen_facts. rewrite fmap_cons. cbn [forallb]. rewrite record_entry_ordinary, IH; done || lia.
Qed.
End within.

(** No record of the summary ends the data section or the file. *)
Lemma forallb_perm {A} (p : A → bool) l k : l ≡ₚ k → forallb p l = forallb p k.
Proof. induction 1; cbn; [done|congruence| |congruence]. by rewrite !andb_assoc, (andb_comm (p y)). Qed.
Lemma summary_file_records `{!BiMap ChannelContent Z, !BiMap SchemaContent Z} start l st sum stats : summary_of o l st sum stats → forallb summary_record_ok (summary_records start sum stats o) = true →
  forallb file_record (summary_records start sum stats o) = true.
Proof.
  intros Hs. rewrite !forallb_forall. intros Hok r Hr. specialize (Hok r Hr). apply andb_true_iff in Hok as [Hw Hwr].
  unfold file_record. rewrite Hw. cbn. destruct r; try done. exfalso.
  assert (∀ (p : record → bool) l d, RDataEnd d ∈ l → l ≡ₚ List.filter p (sp_log st) → p (RDataEnd d) = true) as Hperm.
  { intros p k d' Hin Hk. rewrite Hk in Hin. by apply list_elem_of_In, filter_In in Hin as [_ ?]. }
  apply list_elem_of_In in Hr. unfold summary_records, summary_groups in Hr. cbn [fmap list_fmap snd concat] in Hr.
  rewrite !elem_of_app in Hr.
  assert (∀ {A} (g : A → record) k, (∀ a, g a ≠ RDataEnd d) → RDataEnd d ∈ g <$> k → False) as Hmap
    by (intros A g k Hg (a & Ha & _)%list_elem_of_fmap; by destruct (Hg a)).
  assert (∀ (b : bool) k, RDataEnd d ∈ (if b then k else []) → RDataEnd d ∈ k) as Hif by (intros [] k; [done|by intros ?%not_elem_of_nil]).
  destruct Hr as [[Hr|[Hr|[Hr|[Hr|[Hr|[Hr|Hr]]]]]]|Hr]; try apply Hif in Hr.
  - by pose proof (Hperm _ _ _ Hr (so_schemas _ _ _ _ _ Hs)).
  - by pose proof (Hperm _ _ _ Hr (so_channels _ _ _ _ _ Hs)).
  - by apply list_elem_of_singleton in Hr.
  - by eapply Hmap in Hr.
  - by eapply Hmap in Hr.
  - by eapply Hmap in Hr.
  - by apply not_elem_of_nil in Hr.
  - by eapply Hmap in Hr.
Qed.
End wellformed.

(** ** Properties *)

Section properties.
Context `{Crc, !CrcLaws, HashOrder, !HashOrderOk, ZstdEncoderLib, Lz4EncoderLib} `{FileOk W file}.
Context `{!BiMap ChannelContent Z, !BiMap SchemaContent Z, !BiMapOk ChannelContent Z, !BiMapOk SchemaContent Z}.
Context `{ZstdLib, Lz4Lib, !ZstdLibOk, !Lz4LibOk}.
Context (o : WriteOptions).
Context `{!EncoderOk (wo_compression o) (wo_compression_level o) (wo_compression_threads o)}.

(** The entries [es] of a data section hold the records [lg], in order: some of them in
    chunks, which are followed by their message indexes. *)
Definition holds (es : list (Z * bytes)) (lg : list record) : Prop :=
  ∃ l, Forall (item_ok o) l ∧ es = concat (item_records o <$> l) ∧ lg = concat (item_log o <$> l).

(** What the reader is to find: the checksums it validates are over all of the data. *)
Definition reads_whole (opts : LinearReaderOptions) (f : mcap_file) : Prop :=
  emit_chunks opts = true ∧ skip_start_magic opts = false ∧ skip_end_magic opts = false ∧
  (∀ k, record_length_limit opts = Some k → (zlen (file_bytes f) ≤ k)%Z) ∧
  (validate_data_section_crc opts = true → hashes_all o).

Lemma hashed_all l : Forall (item_ok o) l → hashes_all o → hashed o l = contents o l.
Proof.
  intros Hl Ho. unfold hashed, contents, items_bytes. f_equal. f_equal. apply Forall_fmap_ext_1. eapply Forall_impl; [exact Hl|].
  intros i Hi. apply item_hashed_all. destruct Ho as [Ho|Ho]; [by left|right]. intros rs z ->. destruct Hi as [Hu _]. congruence.
Qed.

Lemma final_file_ok opts l st sum stats : let f := final_file o l sum stats in
  Forall (item_ok o) l → summary_of o l st sum stats → (zlen (file_bytes f) ≤ 2 ^ 63)%Z →
  (∀ k, record_length_limit opts = Some k → (zlen (file_bytes f) ≤ k)%Z) →
  forallb summary_record_ok (summary_records (zlen (contents o l ++ record_frame (RDataEnd (file_data_end f)))) sum stats o) = true →
  file_ok opts f = true.
Proof.
  intros f Hl Hs Hsz Hk Hok. pose proof (final_file_bytes o l sum stats) as Hb. cbv zeta in Hb. fold f in Hb.
  set (n := zlen (file_bytes f)) in *. assert (n ≤ usize_max)%Z as Hn by (unfold usize_max, u64_max; lia).
  set (start := zlen (contents o l ++ record_frame (RDataEnd (file_data_end f)))) in *.
  set (rs := summary_records start sum stats o) in *.
  assert (start = zlen (contents o l) + 13)%Z as Hstart by by unfold start; rewrite zlen_app, zlen_data_end.
  assert (n = start + zlen (records_data rs) + 29 + 8)%Z as Hnl.
  { unfold n. rewrite Hb, zlen_app. fold start. change (file_footer f) with (the_footer sum stats o start).
    rewrite !zlen_app, zlen_footer. change (zlen MAGIC) with 8%Z. lia. }
  unfold contents in Hstart. rewrite zlen_app in Hstart. change (zlen MAGIC) with 8%Z in Hstart. zlen_facts.
  unfold file_ok. rewrite !andb_true_iff. split_and!.
  - apply (items_ordinary o opts n Hn Hk l Hl). lia.
  - change (file_summary f) with (record_entry <$> rs). apply (summary_ordinary opts n Hn Hk); [done|by eapply summary_file_records|lia].
  - change (c_wf u32 (de_data_section_crc (file_data_end f)) = true). cbn [file_data_end f final_file de_data_section_crc].
    destruct (wo_calculate_data_section_crc o); [|done]. apply (uint_wf_in 4), crc32_u32.
  - change (c_wf u64 (f_summary_start (file_footer f)) && c_wf u64 (f_summary_offset_start (file_footer f)) && c_wf u32 (f_summary_crc (file_footer f)) = true).
    cbn [file_footer f final_file the_footer f_summary_start f_summary_offset_start f_summary_crc].
    change (mkDataEnd _) with (file_data_end f). fold start.
    unfold section_start, section_offsets_start.
    assert (zlen (records_data (concat (summary_groups sum stats o).*2)) ≤ zlen (records_data rs))%Z.
    { unfold rs, summary_records. rewrite records_data_app, zlen_app. zlen_facts. lia. }
    pose proof (zlen_nonneg (records_data (concat (summary_groups sum stats o).*2))).
    rewrite !andb_true_iff, !u64_in. split_and!.
    + destruct (_ <? _)%Z; unfold u64_max; lia.
    + destruct (_ <? _)%Z; unfold u64_max; lia.
    + destruct (wo_emit_summary_offsets o); unfold u64_max; lia.
    + destruct (wo_emit_summary_offsets o); unfold u64_max; lia.
    + destruct (wo_calculate_summary_section_crc o); [|done]. apply (uint_wf_in 4), crc32_u32.
  - apply (body_fits_within opts n); [|done..]. change (zlen (data_end_rec f).2) with (zlen (le_enc 4 (de_data_section_crc (file_data_end f)))). zlia.
  - apply (body_fits_within opts n); [|done..].
    change (zlen (footer_rec f).2) with (zlen (le_enc 8 (f_summary_start (file_footer f)) ++ le_enc 8 (f_summary_offset_start (file_footer f)) ++ le_enc 4 (f_summary_crc (file_footer f)))). zlia.
Qed.

(** The checksums are right. *)
Lemma final_expected opts l sum stats : let f := final_file o l sum stats in
  Forall (item_ok o) l → (validate_data_section_crc opts = true → hashes_all o) →
  expected opts f = (file_records f ++ data_end_rec f :: file_summary f ++ [footer_rec f], Ok ()).
Proof.
  intros f Hl Hv. unfold expected.
  assert (bad_crc (validate_data_section_crc opts) (de_data_section_crc (file_data_end f)) (crc32 (data_section f)) = false) as ->.
  { unfold bad_crc. destruct (validate_data_section_crc opts); [|done]. unfold f. rewrite contents_data_section. cbn [file_data_end final_file de_data_section_crc].
    rewrite (hashed_all l Hl (Hv eq_refl)). destruct (wo_calculate_data_section_crc o); [|done]. rewrite Z.eqb_refl. cbn. by rewrite andb_false_r. }
  assert (summary_section f = records_data (summary_records (zlen (contents o l ++ record_frame (RDataEnd (file_data_end f)))) sum stats o) ++
    footer_start sum stats o (zlen (contents o l ++ record_frame (RDataEnd (file_data_end f))))) as Hss.
  { unfold summary_section. cbn [file_summary f final_file]. by rewrite <-records_data_frames. }
  rewrite Hss. cbn [file_footer f final_file the_footer f_summary_crc].
  assert (∀ (v b : bool) x, bad_crc v (if b then x else 0) x = false) as ->; [|done].
  intros [] [] x; unfold bad_crc; try done. rewrite Z.eqb_refl. cbn. by rewrite andb_false_r.
Qed.

(** What a writer leaves behind that was used and finished. *)
Lemma run_finishes w cs : file w [] 0 → options_ok o → Forall (call_ok o) cs → (run_size o cs ≤ 2 ^ 59)%Z → Panic ∉ (spec_run o cs).1 →
  ∃ s s' sum stats l w', writer_run o w cs = Ok ((spec_run o cs).1, s) ∧ wr_finish s = (Ok sum, s') ∧ wr_into_inner s' = Ok w' ∧
    let f := final_file o l sum stats in
    over file [] w' (file_bytes f) ∧ (zlen (file_bytes f) ≤ 2 ^ 63)%Z ∧ summary_of o l (spec_run o cs).2 sum stats ∧
    Forall (item_ok o) l ∧ sp_log (spec_run o cs).2 = concat (item_log o <$> l) ∧ (log_size (spec_run o cs).2 ≤ 2 ^ 59)%Z ∧
    forallb summary_record_ok (summary_records (zlen (contents o l ++ record_frame (RDataEnd (file_data_end f)))) sum stats o) = true.
Proof.
  intros Hw Ho Hcs Hsz Hp. pose proof (calls_cost_pos o cs) as Hpos.
  assert (0 ≤ run_size o cs)%Z by (unfold run_size; zlen_facts; lia).
  destruct (run_represents o w cs (u64_max - run_size o cs) Hw Ho Hcs) as (s & E & Hr); [unfold u64_max; lia|lia|].
  destruct (Hr Hp) as (Hrep & Hok & Hls).
  destruct (finish_spec o _ (run_size o cs) s _ Hrep Hok Hls) as (s' & sum & stats & l & w' & Ef & Ei & Hfile & Hlen & Hsum & Ha & Hlog & Hrecs); [lia|done|].
  exists s, s', sum, stats, l, w'. cbv zeta. split_and!; try done.
  - by apply Ha.
  - rewrite <-Hlog. unfold log. cbn [a_items a_open default from_option]. by rewrite app_nil_r.
  - lia.
Qed.

(** C17: whatever calls a client makes, unless one panics [finish] succeeds, and what is in
    the destination then is a complete file: its data section holds the records of the
    log in order, its summary repeats exactly the schemas and the channels of the log,
    has its statistics and an index for every chunk, attachment and metadata record, and
    the footer and the summary offsets point to where these are. *)
Theorem finish_completes_file w cs : file w [] 0 → options_ok o → Forall (call_ok o) cs → (run_size o cs ≤ 2 ^ 59)%Z →
  Panic ∉ (spec_run o cs).1 →
  ∃ s s' sum stats w' f, writer_run o w cs = Ok ((spec_run o cs).1, s) ∧ wr_finish s = (Ok sum, s') ∧ wr_into_inner s' = Ok w' ∧
    over file [] w' (file_bytes f) ∧ holds (file_records f) (sp_log (spec_run o cs).2) ∧
    let start := zlen (data_section f ++ frames [data_end_rec f]) in
    file_summary f = record_entry <$> summary_records start sum stats o ∧ file_footer f = the_footer sum stats o start ∧
    ∃ l, file_records f = concat (item_records o <$> l) ∧ summary_of o l (spec_run o cs).2 sum stats.
Proof.
  intros Hw Ho Hcs Hsz Hp. destruct (run_finishes w cs Hw Ho Hcs Hsz Hp) as (s & s' & sum & stats & l & w' & E & Ef & Ei & Hfile & _ & Hsum & Hl & Hlog & _ & _).
  exists s, s', sum, stats, w', (final_file o l sum stats).
  assert (frames [data_end_rec (final_file o l sum stats)] = record_frame (RDataEnd (file_data_end (final_file o l sum stats)))) as Hd by exact (frames_one _ _).
  cbv zeta. rewrite contents_data_section, Hd. split_and!; try done; by exists l.
Qed.

(** C16: what is written can be read: after any calls that do not panic, and [finish], any
    client of a linear reader of whole chunks that feeds it the destination's bytes, in any
    pieces, gets the records of the log in order - the chunks whole - then the end of the
    data section, the summary and the footer, and no error, if the reader validates the
    checksum of the data section only when the writer calculates those of the chunks or
    makes none ([reads_whole]; otherwise the checksum written leaves the chunks out, and
    [data_crc_wrong] below is a file that is refused). *)
Theorem written_file_reads w cs opts : file w [] 0 → options_ok o → Forall (call_ok o) cs → (run_size o cs ≤ 2 ^ 59)%Z →
  Panic ∉ (spec_run o cs).1 →
  ∃ s s' sum w' f, writer_run o w cs = Ok ((spec_run o cs).1, s) ∧ wr_finish s = (Ok sum, s') ∧ wr_into_inner s' = Ok w' ∧
    over file [] w' (file_bytes f) ∧ holds (file_records f) (sp_log (spec_run o cs).2) ∧
    (reads_whole opts f → ∀ recs out, client_run (LinearReader_new opts) (file_bytes f) recs out →
       recs = file_records f ++ data_end_rec f :: file_summary f ++ [footer_rec f] ∧ out = Ok ()).
Proof.
  intros Hw Ho Hcs Hsz Hp. destruct (run_finishes w cs Hw Ho Hcs Hsz Hp) as (s & s' & sum & stats & l & w' & E & Ef & Ei & Hfile & Hlen & Hsum & Hl & Hlog & _ & Hrecs).
  exists s, s', sum, w', (final_file o l sum stats). split_and!; try done; [by exists l|].
  intros (Hem & Hss & Hse & Hk & Hv) recs out R. apply client_run_all_input in R; [|done].
  assert (file_ok opts (final_file o l sum stats) = true) as Hok by by eapply final_file_ok.
  destruct (reads_all_det _ _ _ _ _ R (file_reads opts _ Hem Hss Hse Hok)) as [-> ->]. by rewrite final_expected.
Qed.
End properties.

(** ** Examples *)

Module WriterRoundtripExamples.
Import BitCrc CopyLib Instances WriterLogExamples.

Lemma no_panic : Panic ∉ (spec_run opts calls).1.
Proof. rewrite outcomes_ok. apply (bool_decide_unpack _). vm_compute. exact I. Qed.

(** The bytes of the finished file, with the options [o]. *)
Definition finished (o : WriteOptions) : McapResult bytes :=
  '(_, s) ← writer_run o empty calls;
  vc_data <$> wr_into_inner (wr_finish s).2.

Lemma finish_completes_file_witness : ∃ s s' sum stats w' f,
  writer_run opts empty calls = Ok (outcomes, s) ∧ wr_finish s = (Ok sum, s') ∧ wr_into_inner s' = Ok w' ∧
  over cursor_file [] w' (file_bytes f) ∧ holds opts (file_records f) (sp_log (spec_run opts calls).2) ∧
  file_footer f = the_footer sum stats opts (zlen (data_section f ++ frames [data_end_rec f])).
Proof.
  destruct (finish_completes_file (file := cursor_file) opts empty calls) as (s & s' & sum & stats & w' & f & E & Ef & Ei & Hw & Hh & _ & Hft & _);
    [reflexivity|exact opts_ok|exact calls_ok|vm_compute; discriminate|exact no_panic|].
  rewrite outcomes_ok in E. exists s, s', sum, stats, w', f. split; [exact E|]. split; [exact Ef|]. split; [exact Ei|].
  split; [exact Hw|]. split; [exact Hh|exact Hft].
Defined.

Definition reader : LinearReaderOptions :=
  with_validate_summary_section_crc true (with_validate_data_section_crc true (with_emit_chunks true LinearReaderOptions_default)).

Lemma written_file_reads_witness : ∃ s s' sum w' f,
  writer_run opts empty calls = Ok (outcomes, s) ∧ wr_finish s = (Ok sum, s') ∧ wr_into_inner s' = Ok w' ∧
  over cursor_file [] w' (file_bytes f) ∧
  ∀ recs out, client_run (LinearReader_new reader) (file_bytes f) recs out →
    recs = file_records f ++ data_end_rec f :: file_summary f ++ [footer_rec f] ∧ out = Ok ().
Proof.
  destruct (written_file_reads (file := cursor_file) opts empty calls reader) as (s & s' & sum & w' & f & E & Ef & Ei & Hw & Hh & Hr);
    [reflexivity|exact opts_ok|exact calls_ok|vm_compute; discriminate|exact no_panic|].
  rewrite outcomes_ok in E. exists s, s', sum, w', f. split; [exact E|]. split; [exact Ef|]. split; [exact Ei|]. split; [exact Hw|].
  apply Hr. split; [reflexivity|]. split; [reflexivity|]. split; [reflexivity|]. split; [intros k Hk; discriminate Hk|].
  intros _. left. reflexivity.
Defined.

(** The file, read back: how the reader ends, and the opcodes it gives. *)
Definition read_back (o : WriteOptions) : McapResult (option (list Z * McapResult ())) :=
  (λ b, (λ p, (p.1.*1, p.2)) <$> feed_pieces 100 1000 (LinearReader_new reader) b) <$> finished o.

Example reads_back : read_back opts =
  Ok (Some ([1; 6; 6; 7; 6; 7; 9; 12; 6; 15; 3; 3; 4; 4; 11; 8; 8; 8; 8; 10; 13; 14; 14; 14; 14; 14; 14; 2]%Z, Ok ())).
Proof. vm_compute. reflexivity. Qed.

(** With the checksum of the data section but not those of the chunks, the one written
    leaves the chunks' data out, and a reader that validates it refuses the file. *)
Definition unchecked_chunks : WriteOptions := options.calculate_chunk_crcs false opts.
Example data_crc_wrong : (λ r, match r with Some (_, Err (BadDataCrc _ _)) => true | _ => false end) <$> read_back unchecked_chunks = Ok true.
Proof. vm_compute. reflexivity. Qed.
End WriterRoundtripExamples.
