(* ===== verification/WriterMessages.v ===== *)
(** Messages written are messages read: what [MessageStream] makes of a file that a
    writer finished is the messages of the writer's log, on the channels declared in it. *)

From S2P Require Import Prelude Utf8 BTree Errors Bin Records Crc Io Codec RwBuf Decompressor LinearReader LinearReaderTheory LinearReaderClient LinearReaderFile Channels Read ReadTheory Conversation Streaming LinearReaderFlat MessageStream Summary ChunkWriter ChunkWriterTheory Writer WriterTheory WriterSpec Instances WriterLog WriterFile WriterSummary WriterRoundtrip.

(** ** What a log declares, by identifier *)

Fixpoint assoc {A} (id : Z) (l : list (Z * A)) : option A :=
  match l with
  | [] => None
  | (i, a) :: l => if (i =? id)%Z then Some a else assoc id l
  end.

Lemma assoc_app {A} id (l k : list (Z * A)) : assoc id (l ++ k) = match assoc id l with Some a => Some a | None => assoc id k end.
Proof. induction l as [|[i a] l IH]; [done|]. cbn. by destruct (_ =? _)%Z. Qed.
Lemma assoc_None {A} id (l : list (Z * A)) : assoc id l = None ↔ id ∉ l.*1.
Proof.
  induction l as [|[i a] l IH]; [by split; [intros _ ?%not_elem_of_nil|]|]. cbn. rewrite not_elem_of_cons, <-IH.
  destruct (Z.eqb_spec i id); split; [done|by intros [? _]|by intros|by intros [_ ?]].
Qed.
Lemma assoc_in {A} id (l : list (Z * A)) : id ∈ l.*1 → is_Some (assoc id l).
Proof. intros Hin. destruct (assoc id l) eqn:E; [by eexists|]. by apply assoc_None in E. Qed.

Definition schema_named (id : Z) (c : SchemaContent) : Schema := mkSchema id (sc_name c) (sc_encoding c) (sc_data c).
Definition schema_in (lg : list record) (id : Z) : option Schema := schema_named id <$> assoc id (log_schemas lg).
Definition channel_in (lg : list record) (id : Z) : option Channel :=
  (λ c, mkChannel id (cc_topic c) (if (cc_schema_id c =? 0)%Z then None else schema_in lg (cc_schema_id c))
          (cc_message_encoding c) (cc_metadata c)) <$> assoc id (log_channels lg).

(** The messages of a log, each with the channel that the log declares. *)
Definition message_in_log (lg : list record) (r : record) : option Message :=
  match r with
  | RMessage h data => (λ c, message_on c h data) <$> channel_in lg (m_channel_id h)
  | _ => None
  end.
Definition messages_of_log (lg : list record) : list Message := omap (message_in_log lg) lg.

(** The accumulator of a reader that has seen the log. *)
Record acc_of (lg : list record) (acc : ChannelAccumulator) : Prop := {
  ac_schemas id : acc_schemas acc !! id = schema_in lg id;
  ac_channels id : acc_channels acc !! id = channel_in lg id;
}.
Lemma acc_of_nil : acc_of [] ChannelAccumulator_default.
Proof. by split. Qed.

Lemma scoped_app l k : scoped (l ++ k) → scoped l.
Proof.
  induction k as [|r k IH] using rev_ind; [by rewrite app_nil_r|]. rewrite app_assoc. intros Hs. apply IH.
  inversion Hs as [E|l' r' Hl _ E]; [by destruct (l ++ k)|]. apply app_inj_tail in E as [-> _]. done.
Qed.
Lemma scoped_admissible l r k : scoped (l ++ r :: k) → admissible l r.
Proof.
  rewrite (app_assoc l [r] k : l ++ r :: k = (l ++ [r]) ++ k). intros Hs%scoped_app.
  inversion Hs as [E|l' r' _ Ha E]; [by destruct l|]. by apply app_inj_tail in E as [-> ->].
Qed.

(** The schema of a channel is declared before it. *)
Lemma scoped_linked l id c : scoped l → (id, c) ∈ log_channels l → cc_schema_id c = 0%Z ∨ cc_schema_id c ∈ (log_schemas l).*1.
Proof.
  induction 1 as [|l r _ IH Ha]; [by intros ?%not_elem_of_nil|]. rewrite log_channels_snoc, log_schemas_snoc, fmap_app. intros [Hin|Hin]%elem_of_app.
  - destruct (IH Hin) as [|]; [by left|right]. apply elem_of_app. by left.
  - destruct r as [| | |ch| | | | | | | | | | | |]; cbn in Hin; try (by apply not_elem_of_nil in Hin). apply list_elem_of_singleton in Hin as [= -> ->].
    destruct Ha as [_ [?|?]]; [by left|right]. apply elem_of_app. by left.
Qed.

(** What the log declares does not change as it grows. *)
Lemma schema_in_app l k id s : schema_in l id = Some s → schema_in (l ++ k) id = Some s.
Proof. unfold schema_in, log_schemas. rewrite omap_app, assoc_app. destruct (assoc id _); [done|]. by intros [=]. Qed.
Lemma channel_in_app l k id c : scoped l → channel_in l id = Some c → channel_in (l ++ k) id = Some c.
Proof.
  intros Hl. unfold channel_in. destruct (assoc id (log_channels l)) as [x|] eqn:Hx; [|by intros [=]].
  assert (log_channels (l ++ k) = log_channels l ++ log_channels k) as -> by apply omap_app. rewrite assoc_app, Hx. cbn.
  intros [= <-]. do 2 f_equal. destruct (Z.eqb_spec (cc_schema_id x) 0) as [|Hne]; [done|].
  assert ((id, x) ∈ log_channels l) as Hin.
  { clear -Hx. induction (log_channels l) as [|[i a] m IH]; [done|]. cbn in Hx. destruct (Z.eqb_spec i id) as [->|].
    - injection Hx as ->. left.
    - right. by apply IH. }
  destruct (scoped_linked l id x Hl Hin) as [|[s Hs]%assoc_in]; [done|].
  assert (schema_in l (cc_schema_id x) = Some (schema_named (cc_schema_id x) s)) as Hsi by (unfold schema_in; by rewrite Hs).
  by rewrite Hsi, (schema_in_app l k _ _ Hsi).
Qed.

Lemma schema_in_snoc l r id : schema_in (l ++ [r]) id = match schema_in l id with
  | Some s => Some s
  | None => match r with RSchema h d => if (sh_id h =? id)%Z then Some (mkSchema id (sh_name h) (sh_encoding h) d) else None | _ => None end
  end.
Proof.
  unfold schema_in. rewrite log_schemas_snoc, assoc_app. destruct (assoc id (log_schemas l)); [done|]. destruct r; try done. cbn.
  by destruct (_ =? _)%Z.
Qed.
Lemma channel_in_snoc l r id : scoped (l ++ [r]) → channel_in (l ++ [r]) id = match channel_in l id with
  | Some c => Some c
  | None => match r with RChannel c => if (c_id c =? id)%Z then
      Some (mkChannel id (c_topic c) (if (c_schema_id c =? 0)%Z then None else schema_in l (c_schema_id c)) (c_message_encoding c) (c_metadata c)) else None | _ => None end
  end.
Proof.
  intros Hs. destruct (channel_in l id) as [c|] eqn:Hc; [by rewrite (channel_in_app l [r] id c) by (done || by eapply scoped_app)|].
  unfold channel_in in *. rewrite log_channels_snoc, assoc_app. destruct (assoc id (log_channels l)); [done|].
  destruct r as [| | |c| | | | | | | | | | | |]; try done. cbn. destruct (Z.eqb_spec (c_id c) id); [|done]. cbn.
  do 3 f_equal. by rewrite schema_in_snoc; destruct (schema_in l (c_schema_id c)).
Qed.

(** A reader sees one more record of a log. *)
Lemma acc_of_snoc l r acc : scoped (l ++ [r]) → (∀ h d, r = RSchema h d → sh_id h ≠ 0%Z) → acc_of l acc →
  match r with
  | RSchema h d => ∃ acc', add_schema h d acc = (Ok (), acc') ∧ acc_of (l ++ [r]) acc'
  | RChannel c => ∃ acc', add_channel c acc = (Ok (), acc') ∧ acc_of (l ++ [r]) acc'
  | _ => acc_of (l ++ [r]) acc
  end.
Proof.
  intros Hs Hz [Has Hac]. pose proof (scoped_admissible _ _ _ Hs) as Ha.
  assert (∀ id, acc_schemas acc !! id = schema_in (l ++ [r]) id ∨ ∃ h d, r = RSchema h d ∧ schema_in l id = None ∧ sh_id h = id) as Hsame.
  { intros id. rewrite Has, schema_in_snoc. destruct (schema_in l id); [by left|]. destruct r as [| |h d| | | | | | | | | | | | |]; try by left.
    destruct (Z.eqb_spec (sh_id h) id); [right; by exists h, d|by left]. }
  destruct r as [| |h d|c| | | | | | | | | | | |];
    try (split; intros id; [by rewrite Has, schema_in_snoc; destruct (schema_in l id)|by rewrite Hac, channel_in_snoc by done; destruct (channel_in l id)]).
  - cbn in Ha. apply assoc_None in Ha. unfold add_schema. rewrite (proj2 (Z.eqb_neq _ _)) by by eapply Hz. rewrite Has. unfold schema_in at 1. rewrite Ha. cbn.
    eexists. split; [done|]. split; intros id; cbn.
    + rewrite schema_in_snoc. destruct (decide (sh_id h = id)) as [<-|Hne].
      * rewrite lookup_insert_eq. unfold schema_in. rewrite Ha. cbn. by rewrite Z.eqb_refl.
      * rewrite lookup_insert_ne, Has by done. destruct (schema_in l id); [done|]. by rewrite (proj2 (Z.eqb_neq _ _)).
    + rewrite Hac, channel_in_snoc by done. by destruct (channel_in l id).
  - destruct Ha as [Hid Hlink]. apply assoc_None in Hid. unfold add_channel. rewrite !Has, Hac. unfold channel_in at 1. rewrite Hid. cbn.
    set (s := if (c_schema_id c =? 0)%Z then None else schema_in l (c_schema_id c)).
    assert ((if (c_schema_id c =? 0)%Z then Ok None else match schema_in l (c_schema_id c) with Some s => Ok (Some s) | None => Err (UnknownSchema (c_topic c) (c_schema_id c)) end) = Ok s) as ->.
    { subst s. destruct (Z.eqb_spec (c_schema_id c) 0); [done|]. destruct Hlink as [|[x Hx]%assoc_in]; [done|]. unfold schema_in. by rewrite Hx. }
    eexists. split; [done|]. split; intros id; cbn.
    + rewrite Has, schema_in_snoc. by destruct (schema_in l id).
    + rewrite channel_in_snoc by done. destruct (decide (c_id c = id)) as [<-|Hne].
      * rewrite lookup_insert_eq. unfold channel_in at 1. rewrite Hid. cbn. by rewrite Z.eqb_refl.
      * rewrite lookup_insert_ne, Hac by done. destruct (channel_in l id); [done|]. by rewrite (proj2 (Z.eqb_neq _ _)).
Qed.

(** ** The stream over a log *)

(** The records [MessageStream] looks at. *)
Definition streamed (r : record) : bool := match r with RSchema _ _ | RChannel _ | RMessage _ _ => true | _ => false end.
Lemma stream_of_streamed out acc rs : stream_of out acc rs = stream_of out acc (List.filter streamed rs).
Proof.
  revert acc. induction rs as [|r rs IH]; intros acc; [done|]. destruct r; cbn; try apply IH.
  - destruct (add_schema _ _ _) as [[[]|e| |] acc']; done.
  - destruct (add_channel _ _) as [[[]|e| |] acc']; done.
  - destruct (acc_get _ _); [|done]. by rewrite IH.
Qed.

(** No schema has the identifier that means there is none. *)
Definition schemas_nonzero (lg : list record) : Prop := 0%Z ∉ (log_schemas lg).*1.

Lemma stream_of_log l k acc out rs : scoped (l ++ k) → schemas_nonzero (l ++ k) → acc_of l acc →
  ∃ acc', acc_of (l ++ k) acc' ∧
    stream_of out acc (k ++ rs) = let '(ms, o) := stream_of out acc' rs in (omap (message_in_log (l ++ k)) k ++ ms, o).
Proof.
  revert l acc. induction k as [|r k IH]; intros l acc Hs Hz Ha.
  { exists acc. rewrite app_nil_r. split; [done|]. cbn. by destruct (stream_of _ _ _). }
  assert (l ++ r :: k = (l ++ [r]) ++ k) as E by by rewrite <-app_assoc. rewrite E in Hs, Hz |- *.
  pose proof (scoped_app _ _ Hs) as Hs1.
  assert (∀ h d, r = RSchema h d → sh_id h ≠ 0%Z) as Hrz.
  { intros h d -> H0'. apply Hz. unfold log_schemas. rewrite !omap_app, !fmap_app, !elem_of_app. left. right. cbn. rewrite H0'. left. }
  pose proof (acc_of_snoc l r acc Hs1 Hrz Ha) as Hstep.
  destruct r as [| |h d|c|h d| | | | | | | | | | |];
    try (destruct (IH _ _ Hs Hz Hstep) as (acc' & Ha' & Est); exists acc'; split; [done|]; cbn; rewrite Est; by destruct (stream_of _ acc' _)).
  - destruct Hstep as (acc1 & Ea & Hstep). destruct (IH _ _ Hs Hz Hstep) as (acc' & Ha' & Est). exists acc'. split; [done|]. cbn. rewrite Ea, Est. by destruct (stream_of _ acc' _).
  - destruct Hstep as (acc1 & Ea & Hstep). destruct (IH _ _ Hs Hz Hstep) as (acc' & Ha' & Est). exists acc'. split; [done|]. cbn. rewrite Ea, Est. by destruct (stream_of _ acc' _).
  - destruct (IH _ _ Hs Hz Hstep) as (acc' & Ha' & Est). exists acc'. split; [done|]. cbn -[message_in_log]. rewrite Est.
    pose proof (scoped_admissible _ _ _ Hs1) as Hadm. cbn in Hadm. apply assoc_in in Hadm as [x Hx].
    assert (∃ c, channel_in l (m_channel_id h) = Some c) as [c Hc] by (unfold channel_in; rewrite Hx; by eexists).
    unfold acc_get. rewrite (ac_channels _ _ Ha), Hc. cbn. rewrite <-app_assoc. cbn.
    rewrite (channel_in_app l _ _ _ (scoped_app _ _ Hs1) Hc). cbn. by destruct (stream_of _ acc' _).
Qed.

(** What is declared once more, as it was, changes nothing. *)
Lemma scoped_assoc_schema l id c : scoped l → (id, c) ∈ log_schemas l → assoc id (log_schemas l) = Some c.
Proof.
  induction 1 as [|l r _ IH Ha]; [by intros ?%not_elem_of_nil|]. rewrite log_schemas_snoc, assoc_app. intros [Hin|Hin]%elem_of_app; [by rewrite IH|].
  destruct r; cbn in Hin; try (by apply not_elem_of_nil in Hin). apply list_elem_of_singleton in Hin as [= -> ->]. cbn in Ha.
  apply assoc_None in Ha as ->. cbn. by rewrite Z.eqb_refl.
Qed.
Lemma scoped_assoc_channel l id c : scoped l → (id, c) ∈ log_channels l → assoc id (log_channels l) = Some c.
Proof.
  induction 1 as [|l r _ IH Ha]; [by intros ?%not_elem_of_nil|]. rewrite log_channels_snoc, assoc_app. intros [Hin|Hin]%elem_of_app; [by rewrite IH|].
  destruct r; cbn in Hin; try (by apply not_elem_of_nil in Hin). apply list_elem_of_singleton in Hin as [= -> ->]. destruct Ha as [Ha _].
  apply assoc_None in Ha as ->. cbn. by rewrite Z.eqb_refl.
Qed.
Lemma redeclared lg acc rs out : scoped lg → schemas_nonzero lg → acc_of lg acc →
  (∀ r, r ∈ rs → streamed r = true → r ∈ lg ∧ is_message r = false) → stream_of out acc rs = ([], out).
Proof.
  intros Hs Hz [Has Hac]. induction rs as [|r rs IH]; intros Hin; [done|]. specialize (IH ltac:(intros; apply Hin; [by right|done])).
  destruct r as [| |h d|c|h d| | | | | | | | | | |]; cbn [stream_of]; try apply IH.
  - destruct (Hin _ ltac:(left) eq_refl) as [Hr _].
    assert ((sh_id h, mkSchemaContent (sh_name h) (sh_encoding h) d) ∈ log_schemas lg) as Hl by (apply list_elem_of_omap; by eexists).
    unfold add_schema. destruct (Z.eqb_spec (sh_id h) 0) as [H0'|].
    { destruct Hz. rewrite <-H0'. apply list_elem_of_fmap. eexists. split; [|exact Hl]. done. }
    rewrite Has. unfold schema_in. rewrite (scoped_assoc_schema _ _ _ Hs Hl). cbn. by rewrite !bool_decide_true.
  - destruct (Hin _ ltac:(left) eq_refl) as [Hr _].
    assert ((c_id c, mkChannelContent (c_topic c) (c_schema_id c) (c_message_encoding c) (c_metadata c)) ∈ log_channels lg) as Hl by (apply list_elem_of_omap; by eexists).
    pose proof (scoped_linked _ _ _ Hs Hl) as Hlink. cbn in Hlink. unfold add_channel. rewrite Hac, Has. unfold channel_in. rewrite (scoped_assoc_channel _ _ _ Hs Hl). cbn.
    unfold channel_schema_id. cbn. destruct (Z.eqb_spec (c_schema_id c) 0) as [H0'|Hne].
    + cbn. rewrite H0', !bool_decide_true by done. done.
    + destruct Hlink as [|[x Hx]%assoc_in]; [done|]. unfold schema_in. rewrite Hx. cbn. rewrite Z.eqb_refl, !bool_decide_true by done. done.
  - by destruct (Hin _ ltac:(left) eq_refl).
Qed.

(** ** The parts of a file that was written *)

Section written.
Context `{Crc, !CrcLaws, HashOrder, !HashOrderOk, ZstdEncoderLib, Lz4EncoderLib} `{FileOk W file}.
Context `{!BiMap ChannelContent Z, !BiMap SchemaContent Z, !BiMapOk ChannelContent Z, !BiMapOk SchemaContent Z}.
Context `{ZstdLib, Lz4Lib, !ZstdLibOk, !Lz4LibOk, !Frames}.
Context (o : WriteOptions).
Context `{!EncoderOk (wo_compression o) (wo_compression_level o) (wo_compression_threads o)}.

(** What the encoder makes of a chunk's records is what the decoders of the reader take. *)
Definition streams : Prop := ∀ d z, encodes d z → stored_as (compression_name (wo_compression o)) d z.

Abbreviation index_of i := (RMessageIndex (mkMessageIndex i.1 i.2)).
(** The records of an item, those in a chunk on their own. *)
Definition item_flat (i : item) : list record :=
  match i with
  | IChunk rs _ => rs ++ ((λ i, index_of i) <$> chunk_indexes_of (wo_emit_message_indexes o) rs)
  | i => item_log o i
  end.
Definition item_parts (i : item) : list part :=
  match i with
  | IChunk rs z =>
      Chunked (chunk_header (compression := wo_compression o) (wo_calculate_chunk_crcs o) rs z) (record_entry <$> rs) z [] ::
      (One <$> (index_record <$> chunk_indexes_of (wo_emit_message_indexes o) rs))
  | i => One <$> item_records o i
  end.

Lemma one_records (es : list (Z * bytes)) : part_record <$> (One <$> es) = es.
Proof. rewrite <-list_fmap_compose. apply list_fmap_id. Qed.
Lemma one_parts (es : list (Z * bytes)) : concat (part_records <$> (One <$> es)) = es.
Proof. induction es as [|e es IH]; [done|]. by rewrite !fmap_cons; cbn; rewrite IH. Qed.

Lemma item_parts_records i : part_record <$> item_parts i = item_records o i.
Proof.
  destruct i as [r|h d|m|rs z]; cbn [item_parts item_records]; try apply one_records.
  rewrite fmap_cons, one_records. f_equal. cbn [part_record]. unfold chunk_body. by rewrite app_nil_r.
Qed.
Lemma item_parts_flat i : concat (part_records <$> item_parts i) = record_entry <$> item_flat i.
Proof.
  destruct i as [r|h d|m|rs z]; try done. cbn [item_parts item_flat]. rewrite fmap_cons. cbn [concat part_records].
  rewrite one_parts, fmap_app. f_equal. rewrite <-list_fmap_compose. by apply list_fmap_ext.
Qed.

Lemma body_fits_flat opts b : record_length_limit opts = None → (9 + zlen b ≤ usize_max)%Z → body_fits opts b = true.
Proof. intros Hl Hb. apply (body_fits_within opts (9 + zlen b)); [done|done|]. intros k. by rewrite Hl. Qed.

(** Everything in an item of a file is well-formed, and parses. *)
Lemma item_flat_wf i : item_ok o i → (zlen (item_bytes o i) ≤ 2 ^ 63)%Z → (zlen (records_data (item_log o i)) ≤ u64_max)%Z →
  Forall (λ r, record_wf r = true) (item_flat i).
Proof.
  intros Hi Hb Hl. pose proof (item_log_wf o i Hi) as Hwf. destruct i as [r|h d|m|rs z]; cbn [item_flat]; try exact Hwf.
  cbn [item_log] in *. apply Forall_app. split; [done|]. destruct Hi as (_ & Hrs & Hfew & _).
  apply Forall_fmap, Forall_forall. intros i Hi. rewrite item_bytes_chunk, zlen_app in Hb.
  pose proof (zlen_frames_in _ (index_record i) (list_elem_of_fmap_2 index_record _ _ Hi)) as Hin. fold (index_frames (chunk_indexes_of (wo_emit_message_indexes o) rs)) in Hin.
  unfold chunk_indexes_of in Hi. destruct (wo_emit_message_indexes o) eqn:Em; [|by apply not_elem_of_nil in Hi].
  pose proof (indexes_of_wf rs Hrs Hl (Hfew Em)) as Hx. rewrite forallb_forall in Hx. specialize (Hx i (proj1 (list_elem_of_In _ _) Hi)).
  unfold record_wf. cbn [record_body compose]. apply andb_true_iff. split; [exact Hx|]. zlen_facts.
  change (zlen (index_record i).2) with (zlen (c_enc MessageIndex_codec (mkMessageIndex i.1 i.2))) in Hin. unfold OPCODE_LEN_SIZE in Hin. apply Z.ltb_lt. lia.
Qed.
Lemma wf_parses rs : Forall (λ r, record_wf r = true) rs → Forall2 parses (record_entry <$> rs) rs.
Proof. induction 1 as [|r rs Hr _ IH]; [constructor|]. constructor; [|done]. by apply parse_record_body. Qed.

Lemma chunk_header_wf rs z : forallb record_ok rs = true → (zlen (records_data rs) ≤ u64_max)%Z → (zlen z ≤ u64_max)%Z →
  c_wf ChunkHeader_codec (chunk_header (compression := wo_compression o) (wo_calculate_chunk_crcs o) rs z) = true.
Proof.
  intros Hrs Hd Hz. destruct (bounds_in rs (record_ok_wf _ Hrs)) as [Hb1 Hb2]. set (h := chunk_header _ _ _).
  change (c_wf u64 (ch_message_start_time h) && c_wf u64 (ch_message_end_time h) && c_wf u64 (ch_uncompressed_size h) &&
    c_wf u32 (ch_uncompressed_crc h) && c_wf rstr (ch_compression h) && c_wf u64 (ch_compressed_size h) = true).
  rewrite !andb_true_iff. zlen_facts. split_and!; try first [exact Hb1|exact Hb2|apply compression_name_wf]; cbn [h chunk_header ch_uncompressed_size ch_uncompressed_crc ch_compressed_size].
  - by apply u64_in.
  - destruct (wo_calculate_chunk_crcs o); [|done]. apply (uint_wf_in 4), crc32_u32.
  - by apply u64_in.
Qed.

Section parts.
Context (opts : LinearReaderOptions).
Hypothesis Hlimit : record_length_limit opts = None.

Lemma ones_ok es : forallb (ordinary opts) es = true → Forall (λ e, e.1 ≠ op.CHUNK) es → Forall (part_ok opts) (One <$> es).
Proof.
  induction es as [|e es IH]; [constructor|]. cbn [forallb]. rewrite andb_true_iff. intros [He Hes] [Hc Hcs]%Forall_cons.
  rewrite fmap_cons. constructor; [done|by apply IH].
Qed.

Lemma record_entry_fits r : record_wf r = true → (zlen (record_frame r) ≤ usize_max)%Z → c_wf u8 (record_opcode r) && body_fits opts (record_body r) = true.
Proof.
  intros Hw Hl. rewrite record_opcode_u8 by done. cbn. apply body_fits_flat; [done|]. by rewrite zlen_record_frame in Hl.
Qed.

Lemma item_parts_ok i : streams → item_ok o i → (zlen (item_bytes o i) ≤ 2 ^ 63)%Z → (zlen (records_data (item_log o i)) ≤ 2 ^ 63)%Z →
  Forall (part_ok opts) (item_parts i).
Proof.
  intros Hst Hi Hb Hl.
  assert (forallb (ordinary opts) (item_records o i) = true) as Hor.
  { apply (item_ordinary o opts (2 ^ 63)); [done| |done|done]. intros k. by rewrite Hlimit. }
  destruct i as [r|h d|m|rs z]; cbn [item_parts item_records] in *.
  - apply ones_ok; [done|]. repeat constructor. apply Hi.
  - apply ones_ok; [done|]. by repeat constructor.
  - apply ones_ok; [done|]. by repeat constructor.
  - destruct Hi as (Hu & Hrs & Hfew & Henc & Hz). cbn [item_log] in Hl. rewrite item_bytes_chunk, zlen_app in Hb. unfold chunk_frame, frame in Hb. rewrite !zlen_app in Hb.
    cbn [forallb] in Hor. apply andb_true_iff in Hor as [_ Hor]. zlen_facts. constructor.
    + pose proof (zlen_chunk_header) as _. cbn [part_ok part_record]. rewrite app_nil_r. fold (chunk_body (compression := wo_compression o) (wo_calculate_chunk_crcs o) rs z).
      assert (zlen z ≤ 2 ^ 63)%Z as Hzl by (unfold chunk_body in Hb; rewrite zlen_app in Hb; zlen_facts; lia).
      split_and!.
      * apply chunk_header_wf; [done|unfold u64_max; lia..].
      * done.
      * by rewrite <-records_data_frames.
      * apply body_fits_flat; [done|]. unfold usize_max, u64_max. cbn [snd]. lia.
      * rewrite <-records_data_frames. by apply Hst.
      * apply forallb_forall. intros e (r & -> & Hr)%list_elem_of_In%list_elem_of_fmap. apply record_ok_wf in Hrs. rewrite Forall_forall in Hrs.
        apply record_entry_fits; [by apply Hrs|]. pose proof (zlen_records_in r rs Hr). unfold usize_max, u64_max. lia.
    + apply ones_ok; [done|]. apply Forall_fmap, Forall_forall. done.
Qed.
End parts.

Lemma parts_records l : part_record <$> concat (item_parts <$> l) = concat (item_records o <$> l).
Proof. induction l as [|i l IH]; [done|]. rewrite !fmap_cons. cbn [concat]. by rewrite fmap_app, item_parts_records, IH. Qed.
Lemma parts_flat l : concat (part_records <$> concat (item_parts <$> l)) = record_entry <$> concat (item_flat <$> l).
Proof. induction l as [|i l IH]; [done|]. rewrite !fmap_cons. cbn [concat]. by rewrite !fmap_app, concat_app, item_parts_flat, IH. Qed.

(** The checksums of the chunks are right, so everything comes. *)
Lemma parts_all_come opts l rs : parts_expected opts (concat (item_parts <$> l)) rs = (concat (part_records <$> concat (item_parts <$> l)) ++ rs, Ok ()).
Proof.
  assert (Forall (λ p, part_error opts p = None) (concat (item_parts <$> l))) as Hp.
  { apply Forall_concat, Forall_fmap, Forall_forall. intros i _.
    assert (∀ es : list (Z * bytes), Forall (λ p, part_error opts p = None) (One <$> es)) as Hone by (intros es; apply Forall_fmap, Forall_forall; done).
    destruct i as [r|h d|m|rs' z]; cbn [compose item_parts]; try apply Hone. constructor; [|apply Hone]. cbn [part_error]. rewrite <-records_data_frames.
    cbn [chunk_header ch_uncompressed_crc]. unfold bad_crc. destruct (wo_calculate_chunk_crcs o); [rewrite Z.eqb_refl|]; cbn; by rewrite ?andb_false_r. }
  induction Hp as [|p ps Hp _ IH]; [done|]. cbn [parts_expected]. rewrite Hp, IH, fmap_cons. cbn [concat]. by rewrite app_assoc.
Qed.

(** The stream makes of the items what it makes of the log. *)
Lemma flat_streamed l : List.filter streamed (concat (item_flat <$> l)) = List.filter streamed (concat (item_log o <$> l)).
Proof.
  induction l as [|i l IH]; [done|]. rewrite !fmap_cons. cbn [concat]. rewrite !List.filter_app, IH. f_equal. destruct i as [r|h d|m|rs z]; try done.
  cbn [item_flat item_log]. rewrite List.filter_app. rewrite <-(app_nil_r (List.filter streamed rs)) at 2. f_equal.
  by induction (chunk_indexes_of _ rs).
Qed.

(** The summary repeats declarations of the log, and no messages. *)
Lemma summary_redeclares l st sum stats start r : summary_of o l st sum stats → r ∈ summary_records start sum stats o → streamed r = true →
  r ∈ sp_log st ∧ is_message r = false.
Proof.
  intros Hs Hr Hst.
  assert (∀ (p : record → bool) k, r ∈ k → k ≡ₚ List.filter p (sp_log st) → r ∈ sp_log st ∧ p r = true) as Hperm.
  { intros p k Hin Hk. rewrite Hk in Hin. apply list_elem_of_In, filter_In in Hin as [Hin ?]. split; [by apply list_elem_of_In|done]. }
  unfold summary_records, summary_groups in Hr. cbn [fmap list_fmap snd concat] in Hr. rewrite !elem_of_app in Hr.
  assert (∀ {A} (g : A → record) (k : list A), (∀ a, streamed (g a) = false) → r ∈ g <$> k → False) as Hmap.
  { intros A g k Hg (a & -> & _)%list_elem_of_fmap. by rewrite Hg in Hst. }
  assert (∀ (b : bool) k, r ∈ (if b then k else []) → r ∈ k) as Hif by (intros [] k; [done|by intros ?%not_elem_of_nil]).
  destruct Hr as [[Hr|[Hr|[Hr|[Hr|[Hr|[Hr|Hr]]]]]]|Hr]; try apply Hif in Hr.
  - destruct (Hperm _ _ Hr (so_schemas _ _ _ _ _ Hs)) as [? Hp]. split; [done|]. by destruct r.
  - destruct (Hperm _ _ Hr (so_channels _ _ _ _ _ Hs)) as [? Hp]. split; [done|]. by destruct r.
  - apply list_elem_of_singleton in Hr as ->. done.
  - by eapply Hmap in Hr.
  - by eapply Hmap in Hr.
  - by eapply Hmap in Hr.
  - by apply not_elem_of_nil in Hr.
  - by eapply Hmap in Hr.
Qed.

Lemma items_sized l : Forall (λ i, (zlen (item_bytes o i) ≤ zlen (items_bytes o l))%Z ∧
  (zlen (records_data (item_log o i)) ≤ zlen (records_data (concat (item_log o <$> l))))%Z) l.
Proof.
  induction l as [|i l IH]; [constructor|]. change (items_bytes o (i :: l)) with (item_bytes o i ++ items_bytes o l).
  rewrite fmap_cons. cbn [concat]. rewrite records_data_app, !zlen_app. zlen_facts.
  pose proof (zlen_nonneg (records_data (item_log o i))). pose proof (zlen_nonneg (records_data (concat (item_log o <$> l)))).
  pose proof (zlen_nonneg (item_bytes o i)). pose proof (zlen_nonneg (items_bytes o l)).
  constructor; [lia|]. eapply Forall_impl; [exact IH|]. intros j [? ?]. lia.
Qed.

Section final.
Context (l : list item) (st : spec_state) (sum : Summary) (stats : Statistics).
Let f := final_file o l sum stats.
Let start := zlen (contents o l ++ record_frame (RDataEnd (file_data_end f))).
Let summary := summary_records start sum stats o.
Context (Hl : Forall (item_ok o) l) (Hs : summary_of o l st sum stats) (Hsz : (zlen (file_bytes f) ≤ 2 ^ 63)%Z)
  (Hls : (log_size st ≤ 2 ^ 59)%Z) (Hlog : sp_log st = concat (item_log o <$> l)) (Hsum : forallb summary_record_ok summary = true).

(** All of its records, those in chunks on their own. *)
Definition final_records : list record :=
  concat (item_flat <$> l) ++ RDataEnd (file_data_end f) :: summary ++ [RFooter (file_footer f)].

Lemma final_sizes : Forall (λ i, (zlen (item_bytes o i) ≤ 2 ^ 63)%Z ∧ (zlen (records_data (item_log o i)) ≤ 2 ^ 63)%Z) l.
Proof.
  pose proof (final_file_bytes o l sum stats) as Hb. cbv zeta in Hb. fold f in Hb. rewrite Hb, !zlen_app in Hsz. unfold contents in Hsz. rewrite zlen_app in Hsz.
  unfold log_size in Hls. rewrite Hlog in Hls. zlen_facts. eapply Forall_impl; [apply items_sized|]. cbn beta. intros i [? ?]. lia.
Qed.

Lemma final_ok opts : record_length_limit opts = None → file_ok opts f = true.
Proof. intros Hn. eapply final_file_ok; [done|exact Hs|done| |done]. intros k. by rewrite Hn. Qed.

Lemma final_wf : Forall (λ r, record_wf r = true) final_records.
Proof.
  pose proof (final_ok LinearReaderOptions_default eq_refl) as Hok. unfold file_ok in Hok. rewrite !andb_true_iff in Hok.
  destruct Hok as [[[[_ Hde] Hft] Hdf] Hff]. apply body_fits_spec in Hdf as [Hdf _]. apply body_fits_spec in Hff as [Hff _].
  unfold final_records. apply Forall_app. split.
  - apply Forall_concat, Forall_fmap. eapply Forall_impl; [exact (proj2 (Forall_and _ _) (conj Hl final_sizes))|]. intros i [Hi [Hb Hd]].
    apply item_flat_wf; [done|done|]. unfold u64_max. lia.
  - constructor; [|apply Forall_app; split; [|constructor; [|constructor]]].
    + unfold record_wf. rewrite Hde. apply Z.ltb_lt. change (record_body (RDataEnd (file_data_end f))) with (data_end_rec f).2.
      unfold OPCODE_LEN_SIZE, usize_max, u64_max in Hdf. lia.
    + apply Forall_forall. intros r Hr. rewrite forallb_forall in Hsum. specialize (Hsum r (proj1 (list_elem_of_In _ _) Hr)).
      unfold summary_record_ok in Hsum. by apply andb_true_iff in Hsum as [? _].
    + unfold record_wf. rewrite Hft. apply Z.ltb_lt. change (record_body (RFooter (file_footer f))) with (footer_rec f).2.
      unfold OPCODE_LEN_SIZE, usize_max, u64_max in Hff. lia.
Qed.

Lemma final_flat opts : streams → record_length_limit opts = None → flat_ok opts (concat (item_parts <$> l)) f.
Proof.
  intros Hst Hn. pose proof (final_ok opts Hn) as Hok. unfold file_ok in Hok. rewrite !andb_true_iff in Hok.
  destruct Hok as [[[[[_ Hsm] Hde] Hft] Hdf] Hff]. split; try done.
  - by rewrite parts_records.
  - apply Forall_concat, Forall_fmap. eapply Forall_impl; [exact (proj2 (Forall_and _ _) (conj Hl final_sizes))|]. intros i (Hi & Hb & Hd). by apply item_parts_ok.
  - apply forallb_forall. intros e He. rewrite forallb_forall in Hsm. rewrite (Hsm e He). cbn [andb].
    apply list_elem_of_In, list_elem_of_fmap in He as (r & -> & Hr). rewrite forallb_forall in Hsum. specialize (Hsum r (proj1 (list_elem_of_In _ _) Hr)).
    unfold summary_record_ok in Hsum. apply andb_true_iff in Hsum as [Hw Hr']. apply negb_true_iff, Z.eqb_neq. destruct r; try done.
    cbn. intros ->. by unfold record_wf in Hw.
Qed.

Lemma final_messages fuel ropts : streams → log_ok st → schemas_nonzero (sp_log st) → length final_records < fuel →
  messages fuel (RawMessageStream_new_with_options (file_bytes f) ropts) = (messages_of_log (sp_log st), Ok ()).
Proof.
  intros Hst Hok Hz Hfuel. unfold RawMessageStream_new_with_options. set (i := ChunkFlattener_new_with_options _ _). set (opts := options (ir_reader i)).
  pose proof (flat_delivers opts (concat (item_parts <$> l)) f ltac:(by split) (final_flat opts Hst eq_refl)) as Hd.
  unfold flat_expected in Hd. rewrite parts_all_come, parts_flat in Hd. cbn [fst snd] in Hd.
  assert (record_entry <$> final_records = (record_entry <$> concat (item_flat <$> l)) ++ data_end_rec f :: file_summary f ++ [footer_rec f]) as He
    by (unfold final_records; by rewrite fmap_app, fmap_cons, fmap_app).
  rewrite <-He in Hd. rewrite (messages_delivered _ (Ok ()) final_records ChannelAccumulator_default i fuel Hd).
  - unfold final_records. rewrite stream_of_streamed, List.filter_app, flat_streamed, <-Hlog, <-List.filter_app, <-stream_of_streamed.
    destruct (stream_of_log [] (sp_log st) ChannelAccumulator_default (Ok ()) (RDataEnd (file_data_end f) :: summary ++ [RFooter (file_footer f)])) as (acc' & Ha & ->);
      [apply Hok|done|apply acc_of_nil|]. cbn [app].
    rewrite (redeclared _ acc' _ (Ok ()) (lo_scoped _ Hok) Hz Ha); [by rewrite app_nil_r|].
    intros r [->|[Hr| ->%list_elem_of_singleton]%elem_of_app]%elem_of_cons; [done| |done]. intros Hr'. by eapply summary_redeclares.
  - apply wf_parses, final_wf.
  - split; [apply LinearReader_new_inv|]. change (0 + zlen (file_bytes f) ≤ usize_max)%Z. unfold usize_max, u64_max. lia.
  - by rewrite length_fmap.
Qed.
End final.

(** C15: what is written can be read back message by message: after any calls that do not
    panic and write no schema under the identifier 0 (which could not be read back), and
    [finish], [MessageStream] run on the destination's bytes gives every message of the
    log, in the order in which they were written, each with its channel and the channel's
    schema as they were declared, and then ends, whether the chunks are compressed or not,
    provided that the decoders take what the encoder made ([streams]). *)
Theorem written_messages_stream w cs ropts : file w [] 0 → options_ok o → Forall (call_ok o) cs → (run_size o cs ≤ 2 ^ 59)%Z →
  Panic ∉ (spec_run o cs).1 → streams → schemas_nonzero (sp_log (spec_run o cs).2) →
  ∃ s s' sum w' c n, writer_run o w cs = Ok ((spec_run o cs).1, s) ∧ wr_finish s = (Ok sum, s') ∧ wr_into_inner s' = Ok w' ∧ over file [] w' c ∧
    ∀ fuel, n < fuel → messages fuel (RawMessageStream_new_with_options c ropts) = (messages_of_log (sp_log (spec_run o cs).2), Ok ()).
Proof.
  intros Hw Ho Hcs Hsz Hp Hst Hz.
  destruct (run_finishes o w cs Hw Ho Hcs Hsz Hp) as (s & s' & sum & stats & l & w' & E & Ef & Ei & Hfile & Hlen & Hsum & Hl & Hlog & Hls & Hrecs).
  eexists s, s', sum, w', _, (length (final_records l sum stats)). split_and!; [done..|]. intros fuel Hf.
  pose proof (perform_all_keeps o cs Hcs (spec_new o) (spec_new_ok o)) as Hok.
  by apply (final_messages l (spec_run o cs).2 sum stats).
Qed.
End written.

(** ** Examples *)

(** The encoder of the library of marks: a mark goes before each byte, and another to
    the end. *)
Module MarkEncoder.
Import MarkLib Instances.

Definition marks (b : bytes) : bytes := concat ((λ x, [Byte.x01; x]) <$> b).
#[export] Instance mark_zstd_encoder : ZstdEncoderLib := {|
  zraw_encoder := unit;
  zraw_with_dictionary _ := Ok ();
  zraw_set_workers _ _ := Ok ();
  zio_writer W := W;
  zio_new W w _ := w;
  zio_write W _ b w := let '(o, w) := write_all (marks b) w in ((λ _, zlen b) <$> o, w);
  zio_flush W _ w := flush w;
  zio_finish W _ w := write_all [Byte.x00] w;
  zio_into_inner W w := w;
|}.

Lemma marks_app a b : marks (a ++ b) = marks a ++ marks b.
Proof. unfold marks. by rewrite fmap_app, concat_app. Qed.
Lemma zlen_marks b : zlen (marks b) = (2 * zlen b)%Z.
Proof. induction b as [|x b IH]; [done|]. change (marks (x :: b)) with ([Byte.x01; x] ++ marks b). rewrite zlen_app, IH, zlen_cons, !zlen_cons, zlen_nil. lia. Qed.
Lemma marks_frame b : marks b ++ [Byte.x00] = mark_frame b.
Proof. induction b as [|x b IH]; [done|]. cbn. by rewrite <-IH. Qed.

#[export, refine] Instance mark_EncoderOk `{Crc} level threads : EncoderOk (Some Zstd) level threads := {
  enc_bound n := (2 * Z.max 0 n + 1)%Z;
  encodes d z := z = mark_frame d;
  enc_rep S _ rep base e d := ∃ w, e = CZstd w ∧ rep w (base ++ marks d);
}.
Proof.
  - lia.
  - lia.
  - lia.
  - intros W ? ? rep s c Hs. eexists. split; [done|]. exists s. by rewrite app_nil_r.
  - intros S ? rep cap ? base e d b (w & -> & Hw) Hb Hm.
    destruct (write_all_ok (rep := rep) (marks b) w _ Hw) as (w' & E & Hw').
    { rewrite !zlen_app, !zlen_marks in *. lia. }
    eexists (zlen b), _. cbn. rewrite E. split; [reflexivity|]. split.
    + destruct b; [done|]. zlia.
    + exists w'. split; [done|]. by rewrite ztake_all, marks_app, app_assoc by done.
  - intros S ? rep cap ? base e d (w & -> & Hw) Hm.
    destruct (write_all_ok (rep := rep) [Byte.x00] w _ Hw) as (w' & E & Hw').
    { rewrite !zlen_app, zlen_marks in *. change (zlen [Byte.x00]) with 1%Z. lia. }
    exists w', (mark_frame d). unfold Compressor_finish. cbn [zio_finish mark_zstd_encoder]. rewrite E. split_and!; [done| |done|].
    + by rewrite <-marks_frame, app_assoc.
    + rewrite <-marks_frame, zlen_app, zlen_marks. change (zlen [Byte.x00]) with 1%Z. lia.
Defined.
End MarkEncoder.

Module WriterMessagesExamples.
Import BitCrc MarkLib Instances MarkEncoder WriterLogExamples.

(** Chunks that are compressed, and closed after twenty bytes. *)
Definition marked : WriteOptions :=
  options.chunk_size (Some 20%Z) (options.compression (Some Zstd) (WriteOptions_default (lit "0.24.0") 4)).
Lemma marked_ok : options_ok marked.
Proof. split; [|vm_compute; reflexivity|done]. intros _ _. by exists 20%Z. Qed.
Lemma marked_calls : Forall (call_ok marked) calls.
Proof. eapply Forall_impl; [exact calls_ok|]. intros []; exact id. Qed.
Lemma marked_outcomes : (spec_run marked calls).1 = outcomes.
Proof. vm_compute. reflexivity. Qed.
Lemma marked_streams : streams marked.
Proof. intros d z Hz. right. split; [discriminate|]. left. split; [reflexivity|exact Hz]. Qed.

Definition on_pose (id : Z) (s : Z) : Channel := mkChannel id (lit "/pose") (Some (mkSchema s (lit "Pose") (lit "jsonschema") (lit "{}"))) (lit "json") [].
Definition written_messages : list Message :=
  [mkMessage (on_pose 1 1) 0 30 30 (lit "a"); mkMessage (on_pose 3 7) 0 10 10 (lit "c")].

Lemma written_messages_stream_witness : ∃ s s' sum w' c n,
  writer_run marked empty calls = Ok (outcomes, s) ∧ wr_finish s = (Ok sum, s') ∧ wr_into_inner s' = Ok w' ∧ over cursor_file [] w' c ∧
  ∀ fuel, n < fuel → messages fuel (RawMessageStream_new_with_options c []) = (messages_of_log (sp_log (spec_run marked calls).2), Ok ()).
Proof.
  rewrite <-marked_outcomes.
  apply (written_messages_stream (file := cursor_file) marked empty calls []);
    [reflexivity|exact marked_ok|exact marked_calls|vm_compute; discriminate| |exact marked_streams|].
  - rewrite marked_outcomes. apply (bool_decide_unpack _). vm_compute. exact I.
  - apply (bool_decide_unpack _). vm_compute. exact I.
Defined.

(** The messages are these, and the reader run on the file gives them. *)
Example logged_messages : messages_of_log (sp_log (spec_run marked calls).2) = written_messages.
Proof. vm_compute. reflexivity. Qed.
Example streamed_messages :
  ('(_, s) ← writer_run marked empty calls;
   w ← wr_into_inner (wr_finish s).2;
   mret (messages 100 (RawMessageStream_new (vc_data w)))) = Ok (written_messages, Ok ()).
Proof. vm_compute. reflexivity. Qed.

(** A schema under the identifier 0 is written, but ends the reading. *)
Definition schema_zero : list call := [WriteMessage (message (mkChannel 1 (lit "/pose") (Some (mkSchema 0 (lit "Pose") (lit "jsonschema") (lit "{}"))) (lit "json") []) 10 "a")].
Example schema_zero_unreadable :
  ('(rs, s) ← writer_run marked empty schema_zero;
   w ← wr_into_inner (wr_finish s).2;
   mret (rs, messages 100 (RawMessageStream_new (vc_data w)))) = Ok ([Ok 0%Z], ([], Err InvalidSchemaId)).
Proof. vm_compute. reflexivity. Qed.
End WriterMessagesExamples.
