(* ===== verification/WriterIndexed.v ===== *)
(** The writer and the indexed reader together: the messages written into chunks come
    back from the summary and the file's bytes, each once and in the order asked for. *)

From S2P Require Import Prelude Utf8 BTree Errors Bin Records Crc Io Codec RwBuf Decompressor LinearReader LinearReaderTheory LinearReaderFile Channels Summary Sorting IndexedReader IndexedReaderTheory ChunkWriter ChunkWriterTheory Writer WriterTheory WriterSpec Instances WriterLog WriterFile WriterSummary WriterRoundtrip WriterMessages.

(** ** The records of a chunk, as the reader sees them *)

Section records.
Context `{Crc}.

Lemma read_message h data : record_wf (RMessage h data) = true →
  ∃ c, read_le MessageHeader_codec (rcursor_new (record_body (RMessage h data))) = Ok (h, c) ∧ zdrop (rpos c) (record_body (RMessage h data)) = data.
Proof.
  intros Hw. split_wf. cbn [record_body]. eexists. split; [by apply (read_le_enc MessageHeader_codec)|].
  cbn [rpos]. by rewrite zdrop_app.
Qed.

(** The message a record is, if the filter admits it. *)
Definition admitted (f : Filter) (r : record) : option (MessageHeader * bytes) :=
  match r with RMessage h data => if passes f h then Some (h, data) else None | _ => None end.
Lemma message_in_record f r : record_wf r = true → message_in f (record_entry r) = admitted f r.
Proof.
  intros Hw. unfold message_in, record_entry. cbn [fst snd]. destruct r as [| | | |h data| | | | | | | | | | |op data]; try done.
  - cbn [record_opcode]. rewrite Z.eqb_refl. destruct (read_message h data Hw) as (c & -> & ->). done.
  - cbn [record_opcode admitted]. destruct (Z.eqb_spec op op.MESSAGE) as [->|]; [|done]. unfold record_wf in Hw. by cbn in Hw.
Qed.
Lemma messages_of_records f rs : Forall (λ r, record_wf r = true) rs → messages_of f (record_entry <$> rs) = omap (admitted f) rs.
Proof.
  unfold messages_of. induction 1 as [|r rs Hr _ IH]; [done|]. rewrite fmap_cons. cbn [omap list_omap].
  rewrite message_in_record by done. destruct (admitted f r); by rewrite IH.
Qed.

Lemma indexable_record r : record_wf r = true → (zlen (record_body r) ≤ usize_max)%Z → indexable None (record_entry r) = true.
Proof.
  intros Hw Hl. unfold indexable, check_len. cbn [record_entry fst snd].
  assert (c_wf u8 (record_opcode r) = true) as -> by (destruct r; try done; by split_wf).
  rewrite (proj2 (Z.leb_le _ _)) by done. rewrite bool_decide_true by done. cbn [andb].
  destruct (Z.eqb_spec (record_opcode r) op.MESSAGE) as [Hm|]; [|done]. cbn [negb orb].
  destruct r as [| | | |h data| | | | | | | | | | |op data]; try done.
  - by destruct (read_message h data Hw) as (c & -> & _).
  - cbn in Hm. subst op. unfold record_wf in Hw. by cbn in Hw.
Qed.
Lemma frames_records rs : frames (record_entry <$> rs) = records_data rs.
Proof. by rewrite records_data_frames. Qed.
Lemma chunk_records_wf rs : Forall (λ r, record_wf r = true) rs → (zlen (records_data rs) ≤ usize_max)%Z → chunk_records_ok None (record_entry <$> rs) = true.
Proof.
  intros Hw Hl. unfold chunk_records_ok. rewrite frames_records, (proj2 (Z.leb_le _ _)) by done. rewrite andb_true_r.
  apply forallb_forall. intros e (r & -> & Hr)%list_elem_of_In%list_elem_of_fmap. rewrite Forall_forall in Hw. apply indexable_record; [by apply Hw|].
  pose proof (zlen_records_in r rs Hr) as Hlr. rewrite zlen_record_frame in Hlr. lia.
Qed.

(** The bounds of a chunk hold for its messages, and its indexes name their channels. *)
Lemma bounds_hold rs h data : RMessage h data ∈ rs →
  ((default (0, 0) (bounds_of rs)).1 ≤ m_log_time h ≤ (default (0, 0) (bounds_of rs)).2)%Z.
Proof.
  induction rs as [|r rs IH] using rev_ind; [by intros ?%not_elem_of_nil|]. rewrite elem_of_app, list_elem_of_singleton, bounds_of_snoc.
  intros [Hin|<-].
  - specialize (IH Hin). destruct (bounds_of rs) as [[b e]|] eqn:Hb; [|exfalso].
    + destruct r; cbn in *; lia.
    + clear IH. revert Hb. induction rs as [|r' rs IH] using rev_ind; [by apply not_elem_of_nil in Hin|].
      rewrite elem_of_app, list_elem_of_singleton in Hin. rewrite bounds_of_snoc. destruct Hin as [Hin|<-]; [|done].
      specialize (IH Hin). destruct (bounds_of rs); [by destruct r'|by specialize (IH eq_refl)].
  - destruct (bounds_of rs) as [[b e]|]; cbn; lia.
Qed.
Lemma push_index_keys c e idx c' : c' = c ∨ c' ∈ idx.*1 → c' ∈ (push_index c e idx).*1.
Proof.
  unfold push_index. induction idx as [|[k es] idx IH]; cbn [bt_get bt_insert].
  - intros [->|Hin]; [left|by apply not_elem_of_nil in Hin].
  - destruct (kltb c k) eqn:E1; [intros [->|Hin]; [left|by right]|]. destruct (kltb k c) eqn:E2.
    + intros [->|[->|Hin]%elem_of_cons]; [right; apply IH; by left|left|right; apply IH; by right].
    + assert (c = k) as <- by by apply kltb_total. intros [->|[->|Hin]%elem_of_cons]; [left..|by right].
Qed.
Lemma indexes_name rs h data : RMessage h data ∈ rs → m_channel_id h ∈ (indexes_of rs).*1.
Proof.
  induction rs as [|r rs IH] using rev_ind; [by intros ?%not_elem_of_nil|]. rewrite elem_of_app, list_elem_of_singleton, indexes_of_snoc.
  intros [Hin|<-]; [|apply push_index_keys; by left]. specialize (IH Hin). destruct r; try done. apply push_index_keys. by right.
Qed.
Lemma index_offsets_keys pos idx : (index_offsets pos idx).*1 = idx.*1.
Proof. revert pos. induction idx as [|i idx IH]; intros pos; [done|]. cbn. by rewrite IH. Qed.
End records.

(** ** The chunks of a file *)

Section chunks.
Context `{Crc, !CrcLaws, ZstdEncoderLib, Lz4EncoderLib} (o : WriteOptions).
Context `{!EncoderOk (wo_compression o) (wo_compression_level o) (wo_compression_threads o)}.

(** The chunks of [l], which starts after the bytes [pre]: each with its index, its
    records and what they were compressed to. *)
Definition the_chunk_index (pre : bytes) (rs : list record) (z : bytes) : ChunkIndex :=
  chunk_index (compression := wo_compression o) pre (wo_calculate_chunk_crcs o) (wo_emit_message_indexes o) rs z.
Fixpoint chunks_at (pre : bytes) (l : list item) : list (ChunkIndex * (list record * bytes)) :=
  match l with
  | [] => []
  | i :: l =>
      match i with IChunk rs z => [(the_chunk_index pre rs z, (rs, z))] | _ => [] end ++ chunks_at (pre ++ item_bytes o i) l
  end.

Lemma chunks_at_indexes pre l : (chunks_at pre l).*1 = indexed o (item_chunk_index o) pre l.
Proof.
  revert pre. induction l as [|i l IH]; intros pre; [done|]. cbn [chunks_at indexed]. rewrite fmap_app, IH. by destruct i.
Qed.

Abbreviation start_len := (zlen (dummy_start (compression := wo_compression o))).
Lemma start_len_eq : start_len = (49 + zlen (compression_name (wo_compression o)))%Z.
Proof. unfold dummy_start, dummy_header. rewrite !zlen_app, zlen_chunk_header. zlia. Qed.

(** Where the data of a chunk is. *)
Lemma chunk_offset pre rs z : (zlen pre + start_len ≤ u64_max)%Z →
  compressed_data_offset (the_chunk_index pre rs z) = Ok (zlen pre + start_len)%Z.
Proof.
  intros Hl. unfold compressed_data_offset, checked_add. cbn [the_chunk_index chunk_index ci_chunk_start_offset ci_compression].
  rewrite start_len_eq in *. rewrite (proj2 (Z.leb_le _ _)) by lia. cbn [ok_or].
  match goal with |- Ok ?a = Ok ?b => enough (a = b) as -> by done end. lia.
Qed.
Lemma chunk_data_at pre rs z rest c : c = pre ++ item_bytes o (IChunk rs z) ++ rest →
  ztake (zlen z) (zdrop (zlen pre + start_len) c) = z.
Proof.
  intros ->. rewrite item_bytes_chunk, chunk_frame_split.
  rewrite <-(zlen_chunk_start (compression := wo_compression o) (wo_calculate_chunk_crcs o) rs z), <-zlen_app.
  rewrite <-!app_assoc, (app_assoc pre), zdrop_app by done. by rewrite ztake_app.
Qed.

(** What holds of every chunk of a file that is not too large. *)
Record chunk_facts (c : bytes) (x : ChunkIndex * (list record * bytes)) : Prop := {
  cf_offset : ∃ off, compressed_data_offset x.1 = Ok off ∧ offset_of x.1 = off ∧ ztake (zlen x.2.2) (zdrop off c) = x.2.2;
  cf_index : ∃ pre, x.1 = the_chunk_index pre x.2.1 x.2.2;
  cf_ok : item_ok o (IChunk x.2.1 x.2.2);
  cf_size : (0 ≤ offset_of x.1 ∧ offset_of x.1 + zlen x.2.2 ≤ zlen c)%Z;
}.

Lemma chunks_facts pre l c rest : c = pre ++ items_bytes o l ++ rest → (zlen c ≤ u64_max)%Z → Forall (item_ok o) l →
  Forall (chunk_facts c) (chunks_at pre l).
Proof.
  revert pre. induction l as [|i l IH]; intros pre Hc Hl Hok; [constructor|]. apply Forall_cons in Hok as [Hi Hok]. cbn [chunks_at].
  change (items_bytes o (i :: l)) with (item_bytes o i ++ items_bytes o l) in Hc. rewrite <-app_assoc in Hc.
  assert (c = (pre ++ item_bytes o i) ++ items_bytes o l ++ rest) as Hc' by by rewrite <-app_assoc.
  apply Forall_app. split; [|by apply IH]. destruct i as [| | |rs z]; try constructor; [|constructor].
  assert (zlen c = zlen pre + (start_len + zlen z + zlen (index_frames (chunk_indexes_of (wo_emit_message_indexes o) rs))) + zlen (items_bytes o l ++ rest))%Z as Hlc
    by by rewrite Hc, zlen_app, zlen_app, zlen_item_chunk, Z.add_assoc.
  zlen_facts. split; cbn [fst snd].
  - exists (zlen pre + start_len)%Z. pose proof (chunk_offset pre rs z ltac:(lia)) as Ho. split; [done|]. split.
    + unfold offset_of. by rewrite Ho.
    + by eapply chunk_data_at.
  - by exists pre.
  - done.
  - unfold offset_of. rewrite chunk_offset by lia. lia.
Qed.

(** The offsets tell the chunks apart. *)
Lemma chunks_after pre l c rest : c = pre ++ items_bytes o l ++ rest → (zlen c ≤ u64_max)%Z →
  Forall (λ x, zlen pre < offset_of x.1)%Z (chunks_at pre l) ∧ NoDup (offset_of <$> (chunks_at pre l).*1).
Proof.
  revert pre. induction l as [|i l IH]; intros pre Hc Hl; [by split; constructor|]. cbn [chunks_at].
  change (items_bytes o (i :: l)) with (item_bytes o i ++ items_bytes o l) in Hc. rewrite <-app_assoc in Hc.
  assert (c = (pre ++ item_bytes o i) ++ items_bytes o l ++ rest) as Hc' by by rewrite <-app_assoc.
  destruct (IH _ Hc' Hl) as [Ha Hn]. pose proof (zlen_nonneg (item_bytes o i)).
  assert (Forall (λ x, zlen pre < offset_of x.1)%Z (chunks_at (pre ++ item_bytes o i) l)) as Ha'.
  { eapply Forall_impl; [exact Ha|]. intros x Hx. rewrite zlen_app in Hx. lia. }
  destruct i as [| | |rs z]; try by split.
  assert (zlen c = zlen pre + zlen (item_bytes o (IChunk rs z)) + zlen (items_bytes o l ++ rest))%Z as Hlc
    by by rewrite Hc, zlen_app, zlen_app, Z.add_assoc.
  pose proof (zlen_item_chunk o rs z) as Hic. pose proof start_len_eq. zlen_facts.
  assert (offset_of (the_chunk_index pre rs z) = zlen pre + start_len)%Z as Ho by (unfold offset_of; by rewrite chunk_offset by lia).
  split.
  - constructor; [|done]. cbn [fst]. rewrite Ho. pose proof (compression_name_len (wo_compression o)). lia.
  - cbn [fmap list_fmap fst app]. constructor; [|done]. intros (x & Hx & (y & -> & Hy)%list_elem_of_fmap)%list_elem_of_fmap.
    rewrite Forall_forall in Ha. specialize (Ha y Hy). rewrite <-Hx, Ho, zlen_app in Ha. lia.
Qed.

(** They are in the order of the file. *)
Lemma chunks_in_order pre l c rest : c = pre ++ items_bytes o l ++ rest → (zlen c ≤ u64_max)%Z →
  Forall (λ i, zlen pre ≤ ci_chunk_start_offset i ∧ zlen pre < offset_of i)%Z (chunks_at pre l).*1 ∧
  StronglySorted (λ a b, ci_chunk_start_offset a < ci_chunk_start_offset b ∧ offset_of a < offset_of b)%Z (chunks_at pre l).*1.
Proof.
  revert pre. induction l as [|i l IH]; intros pre Hc Hl; [by split; constructor|]. cbn [chunks_at]. rewrite fmap_app.
  change (items_bytes o (i :: l)) with (item_bytes o i ++ items_bytes o l) in Hc. rewrite <-app_assoc in Hc.
  assert (c = (pre ++ item_bytes o i) ++ items_bytes o l ++ rest) as Hc' by by rewrite <-app_assoc.
  destruct (IH _ Hc' Hl) as [Ha Hn]. rewrite zlen_app in Ha. pose proof (zlen_nonneg (item_bytes o i)).
  assert (Forall (λ i, zlen pre ≤ ci_chunk_start_offset i ∧ zlen pre < offset_of i)%Z (chunks_at (pre ++ item_bytes o i) l).*1) as Ha'.
  { eapply Forall_impl; [exact Ha|]. cbn. intros x Hx. lia. }
  destruct i as [| | |rs z]; try by split.
  assert (zlen c = zlen pre + zlen (item_bytes o (IChunk rs z)) + zlen (items_bytes o l ++ rest))%Z as Hlc
    by by rewrite Hc, zlen_app, zlen_app, Z.add_assoc.
  pose proof (zlen_item_chunk o rs z) as Hic. pose proof start_len_eq. pose proof (zlen_nonneg (compression_name (wo_compression o))). zlen_facts.
  assert (offset_of (the_chunk_index pre rs z) = zlen pre + start_len)%Z as Ho by (unfold offset_of; by rewrite chunk_offset by lia).
  cbn [fmap list_fmap fst app]. split; constructor; try done.
  - rewrite Ho. cbn [the_chunk_index chunk_index ci_chunk_start_offset]. lia.
  - eapply Forall_impl; [exact Ha|]. cbn beta. intros x Hx. rewrite Ho. cbn [the_chunk_index chunk_index ci_chunk_start_offset]. lia.
Qed.

(** The records of the chunk at an offset. *)
Fixpoint records_at (cs : list (ChunkIndex * (list record * bytes))) (off : Z) : list record :=
  match cs with
  | [] => []
  | x :: cs => if (offset_of x.1 =? off)%Z then x.2.1 else records_at cs off
  end.
Lemma records_at_in cs x : NoDup (offset_of <$> cs.*1) → x ∈ cs → records_at cs (offset_of x.1) = x.2.1.
Proof.
  induction cs as [|y cs IH]; [by intros _ ?%not_elem_of_nil|]. rewrite !fmap_cons, NoDup_cons. intros [Hy Hn] [->|Hx]%elem_of_cons; cbn [records_at].
  - by rewrite Z.eqb_refl.
  - destruct (Z.eqb_spec (offset_of y.1) (offset_of x.1)) as [E|]; [|by apply IH]. destruct Hy. rewrite E.
    by apply list_elem_of_fmap_2, list_elem_of_fmap_2.
Qed.

(** The messages of the chunks are those of the log. *)
Definition log_messages (f : Filter) (lg : list record) : list (MessageHeader * bytes) := omap (admitted f) lg.
Lemma chunks_messages f pre l : wo_use_chunks o = true → Forall (item_ok o) l →
  concat ((λ x : ChunkIndex * (list record * bytes), log_messages f x.2.1) <$> chunks_at pre l) = log_messages f (concat (item_log o <$> l)).
Proof.
  intros Hu. revert pre. induction l as [|i l IH]; intros pre Hok; [done|]. apply Forall_cons in Hok as [Hi Hok].
  cbn [chunks_at]. rewrite !fmap_app, concat_app, IH by done. unfold log_messages. rewrite fmap_cons. cbn [concat]. rewrite omap_app. f_equal.
  destruct i as [r|h d|m|rs z]; cbn [item_log]; try done.
  - destruct Hi as (_ & _ & Hm). specialize (Hm Hu). by destruct r.
  - cbn. by rewrite app_nil_r.
Qed.
End chunks.

(** ** The topics of the log *)

Lemma assoc_elem {A} id a (l : list (Z * A)) : NoDup l.*1 → assoc id l = Some a ↔ (id, a) ∈ l.
Proof.
  induction l as [|[i b] l IH]; [by split; [|intros ?%not_elem_of_nil]|]. cbn. rewrite NoDup_cons, elem_of_cons. intros [Hi Hl].
  destruct (Z.eqb_spec i id) as [->|Hne].
  - split; [intros [= ->]; by left|]. intros [[= ->]|Hin]; [done|]. destruct Hi. by apply (list_elem_of_fmap_2 fst) in Hin.
  - rewrite IH by done. split; [by right|]. by intros [[= -> _]|].
Qed.
Lemma assoc_perm {A} id (l k : list (Z * A)) : NoDup l.*1 → l ≡ₚ k → assoc id l = assoc id k.
Proof. intros Hl Hp. apply option_eq. intros a. rewrite !assoc_elem; [by rewrite Hp|by rewrite <-Hp|done]. Qed.

Lemma omap_declared_filter {A} (p : record → bool) (f : record → option A) lg : (∀ r, p r = false → f r = None) → omap f (List.filter p lg) = omap f lg.
Proof.
  intros Hp. induction lg as [|r lg IH]; [done|]. cbn. specialize (Hp r). destruct (p r); cbn; [by rewrite IH|]. by rewrite IH, Hp.
Qed.

Section topics.
Context `{HashOrder, !HashOrderOk}.

Lemma hash_iter_NoDup {A} (m : gmap Z A) : NoDup (hash_iter m).*1.
Proof. rewrite hash_iter_perm. apply NoDup_fst_map_to_list. Qed.
Lemma hash_iter_in {A} (m : gmap Z A) i a : (i, a) ∈ hash_iter m → m !! i = Some a.
Proof. rewrite hash_iter_perm. apply elem_of_map_to_list. Qed.
Lemma assoc_hash_iter {A B} (f : A → B) (m : gmap Z A) id : assoc id ((λ p, (p.1, f p.2)) <$> hash_iter m) = f <$> m !! id.
Proof.
  assert (NoDup ((λ p : Z * A, (p.1, f p.2)) <$> hash_iter m).*1) as Hn.
  { rewrite <-list_fmap_compose. pose proof (hash_iter_NoDup m) as Hn. unfold compose. cbn. done. }
  apply option_eq. intros b. rewrite assoc_elem, list_elem_of_fmap, fmap_Some by done. split.
  - intros ([i a] & [= -> ->] & Hin). exists a. split; [by apply hash_iter_in|done].
  - intros (a & Hl & ->). exists (id, a). split; [done|]. rewrite hash_iter_perm. by apply elem_of_map_to_list.
Qed.

Definition channel_content (c : Channel) : ChannelContent :=
  mkChannelContent (channel_topic c) (channel_schema_id c) (channel_message_encoding c) (channel_metadata c).

Lemma channels_in_log lg sum id : scoped lg → all_channels sum ≡ₚ List.filter is_channel lg →
  assoc id (log_channels lg) = channel_content <$> channels sum !! id.
Proof.
  intros Hs Hch. rewrite <-assoc_hash_iter. apply assoc_perm; [by apply scoped_channels_NoDup|]. unfold log_channels.
  rewrite <-(omap_declared_filter is_channel) by by intros []. rewrite <-Hch. unfold all_channels.
  clear. induction (hash_iter (channels sum)) as [|[i s] l IH]; [done|]. cbn. by rewrite IH.
Qed.

(** The topic under which a channel was declared. *)
Definition topic_in (lg : list record) (id : Z) : option rstring := cc_topic <$> assoc id (log_channels lg).
Lemma summary_topic_in lg sum id : scoped lg → all_channels sum ≡ₚ List.filter is_channel lg → summary_topic sum id = topic_in lg id.
Proof. intros Hs Hch. unfold topic_in, summary_topic. rewrite (channels_in_log lg sum) by done. by destruct (channels sum !! id). Qed.
End topics.

(** The messages that were written, as they were. *)
Definition written (lg : list record) : list (MessageHeader * bytes) := omap (λ r, match r with RMessage h d => Some (h, d) | _ => None end) lg.
Lemma log_messages_written lg : log_messages no_filter lg = written lg.
Proof. unfold log_messages, written. induction lg as [|r lg IH]; [done|]. destruct r; cbn [omap list_omap admitted]; rewrite ?passes_no_filter, IH; done. Qed.

(** ** There and back *)

Section roundtrip.
Context `{Crc, !CrcLaws, HashOrder, !HashOrderOk, ZstdEncoderLib, Lz4EncoderLib, ChunkCodecs} `{FileOk W file}.
Context `{!BiMap ChannelContent Z, !BiMap SchemaContent Z, !BiMapOk ChannelContent Z, !BiMapOk SchemaContent Z}.
Context (o : WriteOptions).
Context `{!EncoderOk (wo_compression o) (wo_compression_level o) (wo_compression_threads o)}.

(** What the encoder made, the decompressor of the reader takes apart. *)
Definition decompresses : Prop := ∀ d z, encodes d z → (zlen d ≤ usize_max)%Z →
  decompress_chunk (compression_name (wo_compression o)) (zlen d) z = Ok d.

(** [src] gives a client the data that the reader asks for, out of the file [c]. *)
Definition serves (src : Z → bytes) (c : bytes) (sum : Summary) : Prop := ∀ x, x ∈ chunk_indexes sum →
  src (offset_of x) = ztake (ci_compressed_size x) (zdrop (offset_of x) c).

Lemma chunk_served src c x recs : decompresses → chunk_facts o c x → Forall (λ r, record_wf r = true) x.2.1 →
  (zlen (records_data x.2.1) ≤ usize_max)%Z →
  src (offset_of x.1) = ztake (ci_compressed_size x.1) (zdrop (offset_of x.1) c) → recs (offset_of x.1) = record_entry <$> x.2.1 →
  served None src recs x.1.
Proof.
  intros Hd [(off & Ho & Hoff & Hz) (pre & Hx) (Hu & Hrs & Hfew & Henc & _) _] Hwf Hl Hsrc Hrecs. rewrite Hoff in Hsrc, Hrecs.
  assert (ci_compressed_size x.1 = zlen x.2.2) as Hcs by by rewrite Hx.
  rewrite Hcs, Hz in Hsrc. unfold served. rewrite Hoff, Hsrc, Hrecs, frames_records. split_and!; [done| |by apply chunk_records_wf].
  rewrite Hx. cbn [the_chunk_index chunk_index ci_compression ci_uncompressed_size]. by apply Hd.
Qed.

Lemma chunk_honest c x recs : chunk_facts o c x → Forall (λ r, record_wf r = true) x.2.1 →
  recs (offset_of x.1) = record_entry <$> x.2.1 → honest recs x.1.
Proof.
  intros [_ (pre & Hx) _ _] Hwf Hrecs hd Hhd. unfold chunk_messages in Hhd. rewrite Hrecs, messages_of_records in Hhd by done.
  apply list_elem_of_omap in Hhd as (r & Hr & Ha). destruct r as [| | | |h d| | | | | | | | | | |]; try done. cbn [admitted] in Ha.
  rewrite passes_no_filter in Ha. injection Ha as <-. cbn [fst]. rewrite Hx.
  cbn [the_chunk_index chunk_index ci_message_start_time ci_message_end_time ci_message_index_offsets]. split.
  - exact (bounds_hold _ _ _ Hr).
  - unfold chunk_indexes_of. destruct (wo_emit_message_indexes o); [right|by left]. rewrite index_offsets_keys. by eapply indexes_name.
Qed.

Lemma for_each_ok {A} (f : A → McapResult ()) l : Forall (λ x, f x = Ok ()) l → for_each f l = Ok ().
Proof. induction 1 as [|x l Hx _ IH]; [done|]. cbn. by rewrite Hx. Qed.

Lemma chunk_readable c x : chunk_facts o c x → (zlen c ≤ usize_max)%Z → (zlen (records_data x.2.1) ≤ usize_max)%Z →
  is_ok (compressed_data_offset x.1) ∧ check_sizes None x.1 = Ok ().
Proof.
  intros [(off & -> & _) (pre & Hx) _ Hsz] Hc Hl. split; [by eexists|]. unfold check_sizes. rewrite Hx.
  cbn [the_chunk_index chunk_index ci_compressed_size ci_uncompressed_size]. unfold check_len. by rewrite !(proj2 (Z.leb_le _ _)) by lia.
Qed.

Lemma accepts_summary sum io : Forall (λ i, is_ok (compressed_data_offset i) ∧ check_sizes None i = Ok ()) (chunk_indexes sum) →
  iro_record_length_limit io = None → ∃ r, IndexedReader_new_with_options sum io = Ok r.
Proof.
  rewrite Forall_forall. intros Hci Hlim. unfold IndexedReader_new_with_options. set (kept := filter _ _).
  assert (∀ i, i ∈ kept → is_ok (compressed_data_offset i) ∧ check_sizes None i = Ok ()) as Hk.
  { intros i Hi. unfold kept in Hi. apply list_elem_of_filter in Hi as [_ Hi]. by apply Hci. }
  rewrite for_each_ok; last first.
  { apply Forall_forall. intros i Hi. rewrite sort_by_perm in Hi. rewrite Hlim. by apply Hk. }
  cbn [mbind outcome_bind]. rewrite for_each_ok; [by eexists|].
  apply Forall_forall. intros i Hi. by destruct (Hk i Hi) as [[off ->] _].
Qed.

(** What the reader is told of the file [c], with the records [recs] in its chunks, is true,
    and the messages in them are those of the log. *)
Record told_truly (sum : Summary) (c : bytes) (recs : Z → list (Z * bytes)) (lg : list record) : Prop := {
  tt_readable : Forall (λ i, is_ok (compressed_data_offset i) ∧ check_sizes None i = Ok ()) (chunk_indexes sum);
  tt_room : Forall (λ i, 0 ≤ offset_of i ∧ offset_of i + ci_compressed_size i ≤ zlen c)%Z (chunk_indexes sum);
  tt_distinct : NoDup (offset_of <$> chunk_indexes sum);
  tt_served src : serves src c sum → Forall (served None src recs) (chunk_indexes sum);
  tt_honest : Forall (honest recs) (chunk_indexes sum);
  tt_messages f : all_messages f recs (chunk_indexes sum) = log_messages f lg;
  tt_in_order : StronglySorted (λ a b, ci_chunk_start_offset a < ci_chunk_start_offset b ∧ offset_of a < offset_of b)%Z (chunk_indexes sum);
}.

Lemma file_told_truly sum l rest lg : let c := contents o l ++ rest in
  chunk_indexes sum = indexed o (item_chunk_index o) MAGIC l → Forall (item_ok o) l → (zlen c ≤ u64_max)%Z → decompresses → wo_use_chunks o = true →
  lg = concat (item_log o <$> l) → Forall (λ r, record_wf r = true) lg → (zlen (records_data lg) ≤ usize_max)%Z → ∃ recs, told_truly sum c recs lg.
Proof.
  intros c Hci Hok Hc Hd Hu -> Hwf Hl. set (xs := chunks_at o MAGIC l). rewrite <-chunks_at_indexes in Hci. fold xs in Hci.
  assert (c = MAGIC ++ items_bytes o l ++ rest) as Hcc by by unfold c, contents; rewrite <-app_assoc.
  pose proof (chunks_facts o MAGIC l c rest Hcc Hc Hok) as Hf. fold xs in Hf.
  destruct (chunks_after o MAGIC l c rest Hcc Hc) as [_ Hnd]. fold xs in Hnd.
  assert (Forall (λ x : ChunkIndex * (list record * bytes), Forall (λ r, record_wf r = true) x.2.1 ∧ (zlen (records_data x.2.1) ≤ usize_max)%Z) xs) as Hx.
  { unfold xs. clear -Hwf Hl Hu. generalize MAGIC. induction l as [|i l IH]; intros pre; [constructor|]. cbn [chunks_at]. rewrite fmap_cons in Hwf, Hl.
    cbn [concat] in Hwf, Hl. rewrite records_data_app, zlen_app in Hl. apply Forall_app in Hwf as [Hwi Hwl]. zlen_facts. apply Forall_app. split; [|by apply IH; [|lia]].
    destruct i as [| | |rs z]; constructor; [|constructor]. cbn [fst snd item_log] in *. split; [done|lia]. }
  set (recs off := record_entry <$> records_at xs off).
  assert (∀ x, x ∈ xs → recs (offset_of x.1) = record_entry <$> x.2.1) as Hrecs.
  { intros x Hin. unfold recs. by rewrite records_at_in. }
  rewrite Forall_forall in Hf, Hx. exists recs.
  assert (∀ P : ChunkIndex → Prop, (∀ x, x ∈ xs → P x.1) → Forall P (chunk_indexes sum)) as Hall.
  { intros P HP. rewrite Hci. apply Forall_fmap, Forall_forall. exact HP. }
  split.
  - apply Hall. intros x Hin. apply (chunk_readable c x); [by apply Hf|done|by apply Hx].
  - apply Hall. intros x Hin. destruct (Hf x Hin) as [_ (pre & E) _ Hsz]. rewrite E. cbn [the_chunk_index chunk_index ci_compressed_size]. by rewrite E in Hsz.
  - by rewrite Hci.
  - intros src Hserve. apply Hall. intros x Hin. destruct (Hx x Hin). apply (chunk_served src c); auto. apply Hserve. rewrite Hci. by apply list_elem_of_fmap_2.
  - apply Hall. intros x Hin. destruct (Hx x Hin). eapply chunk_honest; auto.
  - intros f. unfold all_messages. rewrite Hci. rewrite <-(chunks_messages o f MAGIC l Hu Hok). fold xs.
    f_equal. rewrite <-list_fmap_compose. apply Forall_fmap_ext_1, Forall_forall. intros x Hin. unfold chunk_messages. cbn [compose].
    rewrite Hrecs by done. apply messages_of_records. by apply Hx.
  - rewrite Hci. by destruct (chunks_in_order o MAGIC l c rest Hcc Hc).
Qed.

(** The messages of a log that a reader asks for, in the order it asks for. *)
Definition asked_for (io : IndexedReaderOptions) (lg : list record) : list (MessageHeader * bytes) := List.filter (wanted io (topic_in lg)) (written lg).
Definition in_order_of (order : ReadOrder) (expected ms : list (MessageHeader * bytes)) : Prop :=
  match order with
  | LogTime => StronglySorted (λ a b, m_log_time a.1 ≤ m_log_time b.1)%Z ms
  | ReverseLogTime => StronglySorted (λ a b, m_log_time b.1 ≤ m_log_time a.1)%Z ms
  | FileOrder => ms = expected
  end.

(** The reader, given the summary of the writer, drains the file. *)
Lemma drain_file sum c recs lg io : told_truly sum c recs lg → iro_record_length_limit io = None →
  scoped lg → all_channels sum ≡ₚ List.filter is_channel lg → topics_known io (topic_in lg) →
  ∃ r, IndexedReader_new_with_options sum io = Ok r ∧
    (∀ src fuel, serves src c sum → length (chunk_indexes sum) + length (asked_for io lg) < fuel →
     ∃ ms, drain fuel src r = (ms, Ok ()) ∧ ms ≡ₚ asked_for io lg ∧ in_order_of (iro_order io) (asked_for io lg) ms).
Proof.
  intros [Hrd _ _ Hsv Hho Hms Hord] Hlim Hs Hch Hk. destruct (accepts_summary sum io Hrd Hlim) as [r Hr]. exists r. split; [done|]. intros src fuel Hserve Hfuel.
  assert (∀ id, summary_topic sum id = topic_in lg id) as Htopic by (intros id; by apply summary_topic_in).
  assert (topics_known io (summary_topic sum)) as Hk'.
  { intros topics Ht. destruct (Hk topics Ht) as (i & t & Hi & Hin). exists i, t. by rewrite Htopic. }
  assert (wanted_messages io (summary_topic sum) recs (chunk_indexes sum) = asked_for io lg) as Hw.
  { unfold wanted_messages, asked_for. rewrite Hms, log_messages_written. apply List.filter_ext. intros m. unfold wanted. by rewrite Htopic. }
  assert (Forall (λ c, keep_chunk io (included_channel_ids sum io) c = true → served (iro_record_length_limit io) src recs c) (chunk_indexes sum)) as Hserved.
  { eapply Forall_impl; [by apply Hsv|]. intros i Hi _. by rewrite Hlim. }
  destruct (drain_runs sum io src recs r fuel Hr Hserved Hho) as (ms & E & Hrun); [by rewrite (wanted_admitted sum io), Hw|].
  destruct (run_as_asked sum io src recs r ms Hr Hk' Hserved Hho Hrun) as [Hp Ho]. rewrite Hw in Hp. exists ms. split_and!; [done..|].
  unfold as_asked, in_order_of in *. destruct (iro_order io); [done..|]. rewrite (Ho (chunk_indexes sum)) by done. by rewrite Hw.
Qed.

(** C20: what is written into chunks can be found again through the summary: after any
    calls that do not panic, and [finish], the indexed reader accepts the summary that
    [finish] returned, and a client that serves it the chunks it asks for, out of the
    bytes of the destination, gets every message of the log that is in the range of times
    and on a channel declared with one of the topics asked for, each once: in the order of
    their log times, in the reverse of it, or as they were written, as it was asked for.
    If topics are asked for, a channel is declared with one of them; the decompressors
    undo what the encoder did ([decompresses]). *)
Theorem written_messages_read_indexed w cs io : file w [] 0 → options_ok o → Forall (call_ok o) cs → (run_size o cs ≤ 2 ^ 59)%Z →
  Panic ∉ (spec_run o cs).1 → decompresses → wo_use_chunks o = true → iro_record_length_limit io = None →
  let lg := sp_log (spec_run o cs).2 in topics_known io (topic_in lg) →
  ∃ s s' sum w' c r, writer_run o w cs = Ok ((spec_run o cs).1, s) ∧ wr_finish s = (Ok sum, s') ∧ wr_into_inner s' = Ok w' ∧ over file [] w' c ∧
    IndexedReader_new_with_options sum io = Ok r ∧
    ∀ src fuel, serves src c sum → length (chunk_indexes sum) + length (asked_for io lg) < fuel →
      ∃ ms, drain fuel src r = (ms, Ok ()) ∧ ms ≡ₚ asked_for io lg ∧ in_order_of (iro_order io) (asked_for io lg) ms.
Proof.
  intros Hw Ho Hcs Hsz Hp Hd Hu Hlim lg Hk. pose proof (perform_all_keeps o cs Hcs (spec_new o) (spec_new_ok o)) as Hok. fold (spec_run o cs) in Hok.
  destruct (run_finishes o w cs Hw Ho Hcs Hsz Hp) as (s & s' & sum & stats & l & w' & E & Ef & Ei & Hfile & Hlen & Hsum & Hl & Hlog & Hls & _).
  pose proof (final_file_bytes o l sum stats) as Hb. cbv zeta in Hb, Hfile, Hlen.
  rewrite <-app_assoc in Hb. rewrite Hb in Hfile, Hlen. match type of Hfile with over _ _ _ (_ ++ ?R) => set (rest := R) in * end.
  assert (Forall (λ r, record_wf r = true) (sp_log (spec_run o cs).2)) as Hwf.
  { rewrite Hlog. apply Forall_concat, Forall_fmap. eapply Forall_impl; [exact Hl|]. intros i. apply (item_log_wf o). }
  assert (zlen (records_data (sp_log (spec_run o cs).2)) ≤ usize_max)%Z as Hld.
  { unfold usize_max, u64_max. unfold log_size in Hls. lia. }
  assert (zlen (contents o l ++ rest) ≤ u64_max)%Z as Hlc by (unfold u64_max; lia).
  destruct (file_told_truly sum l rest _ (so_chunks _ _ _ _ _ Hsum) Hl Hlc Hd Hu Hlog Hwf Hld) as [recs Htrue].
  destruct (drain_file _ _ _ _ io Htrue Hlim (lo_scoped _ Hok) (so_channels _ _ _ _ _ Hsum) Hk) as (r & Hr & Hdr).
  eexists s, s', sum, w', _, r. split_and!; done.
Qed.
End roundtrip.

(** ** Examples *)

Module WriterIndexedExamples.
Import BitCrc CopyLib Instances WriterLogExamples WriterRoundtripExamples IndexedReaderExamples.

(** Newest first, and of one topic only. *)
Definition newest_first : IndexedReaderOptions := with_order ReverseLogTime (include_topics [lit "/pose"] IndexedReaderOptions_default).
Lemma pose_known : topics_known newest_first (topic_in (sp_log (spec_run opts calls).2)).
Proof. intros topics [= <-]. exists 1%Z, (lit "/pose"). split; [vm_compute; reflexivity|]. apply (bool_decide_unpack _). vm_compute. exact I. Qed.

Lemma copies : decompresses opts.
Proof. intros d z Hz _. change (z = d) in Hz. subst z. unfold decompress_chunk. cbn. by rewrite Z.eqb_refl. Qed.

Lemma written_messages_read_indexed_witness : let lg := sp_log (spec_run opts calls).2 in ∃ s s' sum w' c r,
  writer_run opts empty calls = Ok (outcomes, s) ∧ wr_finish s = (Ok sum, s') ∧ wr_into_inner s' = Ok w' ∧ over cursor_file [] w' c ∧
  IndexedReader_new_with_options sum newest_first = Ok r ∧
  ∀ src fuel, serves src c sum → length (chunk_indexes sum) + length (asked_for newest_first lg) < fuel →
    ∃ ms, drain fuel src r = (ms, Ok ()) ∧ ms ≡ₚ asked_for newest_first lg ∧ StronglySorted (λ a b, m_log_time b.1 ≤ m_log_time a.1)%Z ms.
Proof.
  rewrite <-outcomes_ok.
  apply (written_messages_read_indexed opts (file := cursor_file) empty calls newest_first);
    [reflexivity|exact opts_ok|exact calls_ok|vm_compute; discriminate|exact no_panic|exact copies|reflexivity|reflexivity|exact pose_known].
Defined.

(** The same file, the reader run on it: the chunks are read where the summary says. *)
Definition chunk_source (c : bytes) (sum : Summary) (off : Z) : bytes :=
  match filter (λ x, offset_of x = off) (chunk_indexes sum) with
  | x :: _ => ztake (ci_compressed_size x) (zdrop off c)
  | [] => []
  end.
Definition indexed_back : McapResult (list (Z * bytes)) :=
  '(_, s) ← writer_run opts empty calls;
  let '(sum, s) := wr_finish s in
  sum ← sum;
  w ← wr_into_inner s;
  r ← IndexedReader_new_with_options sum newest_first;
  let '(ms, _) := drain 100 (chunk_source (vc_data w) sum) r in
  mret ((λ m, (m_log_time m.1, m.2)) <$> ms).
Example messages_back : indexed_back = Ok [(30%Z, lit "a"); (10%Z, lit "c")].
Proof. vm_compute. reflexivity. Qed.
End WriterIndexedExamples.
