(* ===== verification/WriterSummaryRead.v ===== *)
(** The summary of a finished file, read back: [Summary::read] on what a writer leaves gives
    the summary that [finish] returned, as far as the options have it written. *)

From S2P Require Import Prelude Utf8 BTree Errors Bin Records Crc Io Codec RwBuf Decompressor LinearReader LinearReaderTheory LinearReaderClient LinearReaderFile Channels Read ReadTheory Conversation Streaming LinearReaderFlat Summary SummaryReader SummaryTheory MessageStream ChunkWriter ChunkWriterTheory Writer WriterTheory WriterSpec Instances WriterLog WriterFile WriterSummary WriterRoundtrip WriterMessages WriterIndexed.

(** ** Gathering what the summary section has *)

Section gather.
Context (rest : list record).

(** Schemas that are new go into the accumulator. *)
Lemma absorb_schemas l sum acc : NoDup l.*1 → Forall (λ p : Z * Schema, schema_id p.2 = p.1 ∧ p.1 ≠ 0%Z ∧ acc_schemas acc !! p.1 = None) l →
  absorb_all (((λ p, schema_record p.1 p.2) <$> l) ++ rest) sum acc =
  absorb_all rest sum (mkChannelAccumulator (list_to_map l ∪ acc_schemas acc) (acc_channels acc)).
Proof.
  revert acc. induction l as [|[i s] l IH]; intros [ss cs] Hnd Hl.
  - cbn. by rewrite (left_id_L ∅ (∪)).
  - apply NoDup_cons in Hnd as [Hi Hnd]. apply Forall_cons in Hl as [(Hs & Hz & Hn) Hl]. cbn [fst snd acc_schemas acc_channels] in *.
    cbn [fmap list_fmap fst snd app]. cbn [absorb_all absorb schema_record]. unfold add_schema. cbn [sh_id sh_name sh_encoding acc_schemas acc_channels].
    rewrite (proj2 (Z.eqb_neq _ _) Hz), Hn. cbn [mbind outcome_bind].
    assert (mkSchema i (schema_name s) (schema_encoding s) (schema_data s) = s) as -> by (destruct s; cbn in *; congruence).
    assert (mkSummary (stats sum) (channels sum) (schemas sum) (chunk_indexes sum) (attachment_indexes sum) (metadata_indexes sum) = sum) as -> by by destruct sum.
    etrans; [apply IH; [done|]|].
    + rewrite Forall_forall in *. intros [j t] Hj. destruct (Hl _ Hj) as (? & ? & ?). split_and!; [done..|]. cbn [fst acc_schemas] in *.
      rewrite lookup_insert_ne; [done|]. intros ->. apply Hi. apply list_elem_of_fmap. by exists (j, t).
    + cbn [acc_schemas acc_channels list_to_map foldr uncurry]. do 2 f_equal. cbn [fst snd].
      rewrite <-insert_union_l. symmetry. apply insert_union_r. by apply not_elem_of_list_to_map_1.
Qed.

(** So do channels, if the schemas that they refer to are there. *)
Lemma absorb_channels l sum acc : NoDup l.*1 →
  Forall (λ p : Z * Channel, channel_id p.2 = p.1 ∧ acc_channels acc !! p.1 = None ∧
    ∀ s, channel_schema p.2 = Some s → schema_id s ≠ 0%Z ∧ acc_schemas acc !! schema_id s = Some s) l →
  absorb_all (((λ p, channel_record p.1 p.2) <$> l) ++ rest) sum acc =
  absorb_all rest sum (mkChannelAccumulator (acc_schemas acc) (list_to_map l ∪ acc_channels acc)).
Proof.
  revert acc. induction l as [|[i c] l IH]; intros [ss cs] Hnd Hl.
  - cbn. by rewrite (left_id_L ∅ (∪)).
  - apply NoDup_cons in Hnd as [Hi Hnd]. apply Forall_cons in Hl as [(Hc & Hn & Hs) Hl]. cbn [fst snd acc_schemas acc_channels] in *.
    cbn [fmap list_fmap fst snd app]. cbn [absorb_all absorb channel_record]. unfold add_channel.
    cbn [c_id c_schema_id c_topic c_message_encoding c_metadata acc_schemas acc_channels]. rewrite Hn.
    assert ((if (channel_schema_id c =? 0)%Z then Ok None else match ss !! channel_schema_id c with Some s => Ok (Some s)
      | None => Err (UnknownSchema (channel_topic c) (channel_schema_id c)) end) = Ok (E:=McapError) (channel_schema c)) as ->.
    { unfold channel_schema_id. destruct (channel_schema c) as [s|]; [|done]. destruct (Hs s eq_refl) as [Hz Hk]. cbn [fmap option_fmap option_map default from_option id].
      by rewrite (proj2 (Z.eqb_neq _ _) Hz), Hk. }
    cbn [mbind outcome_bind].
    assert (mkChannel i (channel_topic c) (channel_schema c) (channel_message_encoding c) (channel_metadata c) = c) as -> by (destruct c; cbn in *; congruence).
    assert (mkSummary (stats sum) (channels sum) (schemas sum) (chunk_indexes sum) (attachment_indexes sum) (metadata_indexes sum) = sum) as -> by by destruct sum.
    etrans; [apply IH; [done|]|].
    + rewrite Forall_forall in *. intros [j t] Hj. destruct (Hl _ Hj) as (? & ? & ?). split_and!; [done| |done]. cbn [fst acc_channels] in *.
      rewrite lookup_insert_ne; [done|]. intros ->. apply Hi. apply list_elem_of_fmap. by exists (j, t).
    + cbn [acc_schemas acc_channels list_to_map foldr uncurry]. do 2 f_equal. cbn [fst snd].
      rewrite <-insert_union_l. symmetry. apply insert_union_r. by apply not_elem_of_list_to_map_1.
Qed.

Lemma absorb_chunk_indexes l st cs ss ci ai mi acc : absorb_all ((RChunkIndex <$> l) ++ rest) (mkSummary st cs ss ci ai mi) acc =
  absorb_all rest (mkSummary st cs ss (ci ++ l) ai mi) acc.
Proof. revert ci. induction l as [|i l IH]; intros ci; [by rewrite app_nil_r|]. etrans; [apply IH|]. by rewrite <-app_assoc. Qed.
Lemma absorb_attachment_indexes l st cs ss ci ai mi acc : absorb_all ((RAttachmentIndex <$> l) ++ rest) (mkSummary st cs ss ci ai mi) acc =
  absorb_all rest (mkSummary st cs ss ci (ai ++ l) mi) acc.
Proof. revert ai. induction l as [|i l IH]; intros ai; [by rewrite app_nil_r|]. etrans; [apply IH|]. by rewrite <-app_assoc. Qed.
Lemma absorb_metadata_indexes l st cs ss ci ai mi acc : absorb_all ((RMetadataIndex <$> l) ++ rest) (mkSummary st cs ss ci ai mi) acc =
  absorb_all rest (mkSummary st cs ss ci ai (mi ++ l)) acc.
Proof. revert mi. induction l as [|i l IH]; intros mi; [by rewrite app_nil_r|]. etrans; [apply IH|]. by rewrite <-app_assoc. Qed.
Lemma absorb_offsets l sum acc : absorb_all (RSummaryOffset <$> l) sum acc = Ok (sum, acc).
Proof.
  induction l as [|i l IH]; [done|]. cbn [fmap list_fmap absorb_all absorb].
  assert (mkSummary (stats sum) (channels sum) (schemas sum) (chunk_indexes sum) (attachment_indexes sum) (metadata_indexes sum) = sum) as -> by by destruct sum.
  done.
Qed.
End gather.

(** ** The section that a writer writes *)

Section written.
Context `{HashOrder, !HashOrderOk}.
Context (o : WriteOptions).

(** What the options have of the summary written. *)
Definition kept (sum : Summary) : Summary :=
  mkSummary (if wo_emit_statistics o then stats sum else None)
    (if wo_repeat_channels o then channels sum else ∅)
    (if wo_repeat_schemas o then schemas sum else ∅)
    (if wo_emit_chunk_indexes o then chunk_indexes sum else [])
    (if wo_emit_attachment_indexes o then attachment_indexes sum else [])
    (if wo_emit_metadata_indexes o then metadata_indexes sum else []).

Lemma hash_iter_map {A} (m : gmap Z A) : list_to_map (hash_iter m) ∪ ∅ = m.
Proof.
  rewrite (right_id_L ∅ (∪)). transitivity (list_to_map (map_to_list m) : gmap Z A); [|apply list_to_map_to_list].
  apply list_to_map_proper; [apply hash_iter_NoDup|apply hash_iter_perm].
Qed.

Definition nonzero (sum : Summary) : Prop := schemas sum !! 0%Z = None.

Lemma gathered start sum st : linked sum → nonzero sum → Summary.stats sum = Some st →
  (wo_repeat_channels o = true → wo_repeat_schemas o = true) →
  summary_of_section (summary_records start sum st o) = Ok (kept sum).
Proof.
  intros [Hs Hc Hl] Hz Hst Ho. assert (∀ i s, schemas sum !! i = Some s → i ≠ 0%Z) as Hnz by (intros i s Hi ->; unfold nonzero in Hz; congruence).
  unfold summary_of_section, summary_records, summary_groups. set (offsets := if wo_emit_summary_offsets o then _ else _).
  assert (∀ k acc, absorb_all offsets k acc = Ok (k, acc)) as Hoff.
  { intros k acc. unfold offsets. destruct (wo_emit_summary_offsets o); [apply absorb_offsets|done]. }
  cbn [fmap list_fmap snd concat]. rewrite <-!app_assoc. cbn [app].
  set (rest3 := _ ++ (if wo_emit_chunk_indexes o then _ else _) ++ _).
  assert (∀ acc, absorb_all rest3 Summary_default acc = Ok (mkSummary (Summary.stats (kept sum)) ∅ ∅ (chunk_indexes (kept sum))
    (attachment_indexes (kept sum)) (metadata_indexes (kept sum)), acc)) as H3.
  { intros acc. unfold rest3, kept, Summary_default. rewrite Hst. cbn [Summary.stats chunk_indexes attachment_indexes metadata_indexes].
    destruct (wo_emit_statistics o), (wo_emit_chunk_indexes o), (wo_emit_attachment_indexes o), (wo_emit_metadata_indexes o);
      cbn [app absorb_all absorb mbind outcome_bind mret outcome_ret Summary.stats channels schemas chunk_indexes attachment_indexes metadata_indexes];
      rewrite ?absorb_chunk_indexes, ?absorb_attachment_indexes, ?absorb_metadata_indexes; apply Hoff. }
  set (rest2 := (if wo_repeat_channels o then _ else _) ++ rest3).
  assert (absorb_all rest2 Summary_default (mkChannelAccumulator (schemas (kept sum)) ∅) =
    absorb_all rest3 Summary_default (mkChannelAccumulator (schemas (kept sum)) (channels (kept sum)))) as H2.
  { unfold rest2, kept. cbn [channels schemas]. destruct (wo_repeat_channels o); [|done]. rewrite Ho by done. unfold all_channels.
    rewrite absorb_channels; [cbn [acc_schemas acc_channels]; by rewrite hash_iter_map|apply hash_iter_NoDup|].
    apply Forall_forall. intros [i c] Hin%hash_iter_in. cbn [fst snd acc_channels acc_schemas]. split; [by eapply Hc|]. split; [done|].
    intros s Hcs. pose proof (Hl _ _ _ Hin Hcs) as Hk. split; [by eapply Hnz|done]. }
  assert (absorb_all ((if wo_repeat_schemas o then all_schemas sum else []) ++ rest2) Summary_default ChannelAccumulator_default =
    absorb_all rest2 Summary_default (mkChannelAccumulator (schemas (kept sum)) ∅)) as ->.
  { unfold kept. cbn [schemas]. destruct (wo_repeat_schemas o); [|done]. unfold all_schemas.
    rewrite absorb_schemas; [cbn [ChannelAccumulator_default acc_schemas acc_channels]; by rewrite hash_iter_map|apply hash_iter_NoDup|].
    apply Forall_forall. intros [i s] Hin%hash_iter_in. cbn [fst snd]. split; [by eapply Hs|]. split; [by eapply Hnz|done]. }
  rewrite H2, H3. done.
Qed.

(** An empty section says nothing. *)
Lemma nothing_kept (start : Z) sum st : linked sum → nonzero sum → Summary.stats sum = Some st →
  (wo_repeat_channels o = true → wo_repeat_schemas o = true) →
  concat (summary_groups sum st o).*2 = [] → kept sum = Summary_default.
Proof.
  intros Hl Hz Hst Ho Hg. pose proof (gathered start sum st Hl Hz Hst Ho) as Hk. unfold summary_records in Hk. rewrite Hg in Hk. cbn [app] in Hk.
  assert (∀ offsets, summary_of_section (RSummaryOffset <$> offsets) = Ok Summary_default) as Hd by (intros l; unfold summary_of_section; by rewrite absorb_offsets).
  assert (Ok (E:=McapError) Summary_default = Ok (kept sum)) as E; [|congruence].
  rewrite <-Hk. destruct (wo_emit_summary_offsets o); [by rewrite Hd|done].
Qed.
(** And a section with something in it says something. *)
Lemma hash_iter_nil {A} (m : gmap Z A) : m = ∅ → hash_iter m = [].
Proof. intros ->. apply Permutation_nil_r. by rewrite hash_iter_perm, map_to_list_empty. Qed.
Lemma something_kept sum st : Summary.stats sum = Some st → kept sum = Summary_default → concat (summary_groups sum st o).*2 = [].
Proof.
  unfold kept, Summary_default, summary_groups, all_schemas, all_channels. intros Hst [= E1 E2 E3 E4 E5 E6]. rewrite Hst in E1.
  destruct (wo_emit_statistics o); [done|]. cbn [fmap list_fmap snd concat].
  assert ((if wo_emit_chunk_indexes o then RChunkIndex <$> chunk_indexes sum else []) = []) as -> by (destruct (wo_emit_chunk_indexes o); [by rewrite E4|done]).
  assert ((if wo_emit_attachment_indexes o then RAttachmentIndex <$> attachment_indexes sum else []) = []) as -> by (destruct (wo_emit_attachment_indexes o); [by rewrite E5|done]).
  assert ((if wo_emit_metadata_indexes o then RMetadataIndex <$> metadata_indexes sum else []) = []) as -> by (destruct (wo_emit_metadata_indexes o); [by rewrite E6|done]).
  destruct (wo_repeat_schemas o), (wo_repeat_channels o); by rewrite ?(hash_iter_nil (schemas sum)), ?(hash_iter_nil (channels sum)) by done.
Qed.

(** What reading a summary section gives: nothing if the options left nothing in it. *)
Definition reads_kept (sum : Summary) (r : option Summary) : Prop :=
  kept sum = Summary_default ∧ r = None ∨ kept sum ≠ Summary_default ∧ r = Some (kept sum).
Lemma reads_kept_statistics sum r : reads_kept sum r → is_Some (Summary.stats (kept sum)) → r = Some (kept sum).
Proof. intros [[E _]|[_ ->]]; [|done]. rewrite E. by intros [? ?]. Qed.
End written.

(** ** The file *)

Section final.
Context `{Crc, !CrcLaws, HashOrder, !HashOrderOk, ZstdEncoderLib, Lz4EncoderLib} `{FileOk W file}.
Context `{!BiMap ChannelContent Z, !BiMap SchemaContent Z, !BiMapOk ChannelContent Z, !BiMapOk SchemaContent Z}.
Context `{ZstdLib, Lz4Lib, !ZstdLibOk, !Lz4LibOk, !Frames}.
Context (o : WriteOptions).
Context `{!EncoderOk (wo_compression o) (wo_compression_level o) (wo_compression_threads o)}.

(** No schema of the log has the identifier 0, so none of the summary has. *)
Lemma summary_nonzero l st sum stats : summary_of o l st sum stats → schemas_nonzero (sp_log st) → nonzero sum.
Proof.
  intros Hs Hz. unfold nonzero. destruct (schemas sum !! 0%Z) as [s|] eqn:E; [|done]. destruct Hz.
  assert (schema_record 0 s ∈ List.filter is_schema (sp_log st)) as Hin.
  { rewrite <-(so_schemas _ _ _ _ _ Hs). apply list_elem_of_fmap. exists (0%Z, s). split; [done|].
    rewrite hash_iter_perm. by apply elem_of_map_to_list. }
  apply list_elem_of_In, filter_In in Hin as [Hin%list_elem_of_In _].
  apply list_elem_of_fmap. eexists (0%Z, _). split; [done|]. apply list_elem_of_omap. by exists (schema_record 0 s).
Qed.

(** There are no more records than bytes. *)
Lemma records_short rs : length rs ≤ length (records_data rs).
Proof.
  induction rs as [|r rs IH]; [done|]. change (records_data (r :: rs)) with (record_frame r ++ records_data rs). rewrite length_app.
  pose proof (zlen_record_frame r). zlen_facts. unfold zlen in *. cbn [length]. lia.
Qed.

Lemma summary_whole l st sum stats start : summary_of o l st sum stats → forallb summary_record_ok (summary_records start sum stats o) = true →
  forallb (λ r, file_record r && negb (record_opcode r =? op.CHUNK)%Z) (summary_records start sum stats o) = true.
Proof.
  intros Hs Hok. pose proof (summary_file_records o start l st sum stats Hs Hok) as Hf. rewrite forallb_forall in *. intros r Hr.
  rewrite (Hf r Hr). specialize (Hok r Hr). apply andb_true_iff in Hok as [Hw Hwr]. destruct r; try done.
  unfold record_wf in Hw. rewrite !andb_true_iff, orb_true_iff in Hw. destruct Hw as [[_ Hop] _]. cbn [record_opcode andb].
  apply negb_true_iff, Z.eqb_neq. unfold op.CHUNK. lia.
Qed.

Lemma footer_wf l st sum stats : let f := final_file o l sum stats in
  Forall (item_ok o) l → summary_of o l st sum stats → (zlen (file_bytes f) ≤ 2 ^ 63)%Z →
  forallb summary_record_ok (summary_records (zlen (contents o l ++ record_frame (RDataEnd (file_data_end f)))) sum stats o) = true →
  c_wf Footer_codec (file_footer f) = true.
Proof.
  intros f Hl Hs Hsz Hok. assert (file_ok LinearReaderOptions_default f = true) as Hf by by eapply final_file_ok.
  unfold file_ok in Hf. rewrite !andb_true_iff in Hf. tauto.
Qed.

(** The summary of the file is what was kept of the summary. *)
Lemma final_summary l st sum stats fuel : let f := final_file o l sum stats in
  Forall (item_ok o) l → summary_of o l st sum stats → (zlen (file_bytes f) ≤ 2 ^ 63)%Z →
  forallb summary_record_ok (summary_records (zlen (contents o l ++ record_frame (RDataEnd (file_data_end f)))) sum stats o) = true →
  schemas_nonzero (sp_log st) → (wo_repeat_channels o = true → wo_repeat_schemas o = true) → 2 * length (file_bytes f) + 16 ≤ fuel →
  ∃ r, Summary_read fuel (file_bytes f) = Ok r ∧ reads_kept o sum r.
Proof.
  intros f Hl Hs Hsz Hok Hz Ho Hfuel. pose proof (summary_nonzero _ _ _ _ Hs Hz) as Hnz.
  pose proof (footer_wf l st sum stats Hl Hs Hsz Hok) as Hft. cbv zeta in Hft. fold f in Hft.
  assert (section_start_of f = zlen (contents o l ++ record_frame (RDataEnd (file_data_end f)))) as Hst.
  { unfold section_start_of, data_end_rec. rewrite frames_one. f_equal. f_equal. apply contents_data_section. }
  set (start := zlen (contents o l ++ record_frame (RDataEnd (file_data_end f)))) in *.
  assert (f_summary_start (file_footer f) = section_start sum stats o start) as Hss by done.
  pose proof (final_file_bytes o l sum stats) as Hb. cbv zeta in Hb. fold f in Hb. fold start in Hb.
  assert (length (summary_records start sum stats o) ≤ length (file_bytes f)) as Hn.
  { etrans; [apply records_short|]. rewrite Hb, !length_app. lia. }
  unfold section_start in Hss. destruct (Z.ltb_spec start (start + zlen (records_data (concat (summary_groups sum stats o).*2)))) as [Hlt|Hge].
  - rewrite (Summary_read_section f (summary_records start sum stats o)); [|done|unfold u64_max; lia|congruence|by eapply summary_whole|done|lia].
    rewrite (gathered o start sum stats (so_linked _ _ _ _ _ Hs) Hnz (so_stats _ _ _ _ _ Hs) Ho). eexists. split; [done|]. right. split; [|done].
    intros Hk. rewrite (something_kept o sum stats (so_stats _ _ _ _ _ Hs) Hk) in Hlt. change (zlen (records_data [])) with 0%Z in Hlt. lia.
  - rewrite (Summary_read_none f) by (try done; unfold u64_max; lia). eexists. split; [done|]. left. split; [|done].
    assert (concat (summary_groups sum stats o).*2 = []) as Hnil.
    { pose proof (records_short (concat (summary_groups sum stats o).*2)) as Hr. zlen_facts. unfold zlen in *. apply nil_length_inv. lia. }
    by apply (nothing_kept o start sum stats (so_linked _ _ _ _ _ Hs) Hnz (so_stats _ _ _ _ _ Hs) Ho Hnil).
Qed.

(** C14: the summary that is written is the one that is read: after any calls that do not
    panic, and [finish], [Summary::read] on the destination's bytes gives the summary that
    [finish] returned, less what the options have left out; when that leaves nothing there
    is no summary section, and [Summary::read] says that there is no summary.  Channels
    are not repeated without their schemas, and no schema has the identifier 0: neither
    could be read back. *)
Theorem written_summary_reads w cs : file w [] 0 → options_ok o → Forall (call_ok o) cs → (run_size o cs ≤ 2 ^ 59)%Z →
  Panic ∉ (spec_run o cs).1 → schemas_nonzero (sp_log (spec_run o cs).2) → (wo_repeat_channels o = true → wo_repeat_schemas o = true) →
  ∃ s s' sum w' c, writer_run o w cs = Ok ((spec_run o cs).1, s) ∧ wr_finish s = (Ok sum, s') ∧ wr_into_inner s' = Ok w' ∧ over file [] w' c ∧
    ∀ fuel, 2 * length c + 16 ≤ fuel → ∃ r, Summary_read fuel c = Ok r ∧
      (kept o sum = Summary_default ∧ r = None ∨ kept o sum ≠ Summary_default ∧ r = Some (kept o sum)).
Proof.
  intros Hw Ho Hcs Hsz Hp Hz Hr.
  destruct (run_finishes o w cs Hw Ho Hcs Hsz Hp) as (s & s' & sum & stats & l & w' & E & Ef & Ei & Hfile & Hlen & Hsum & Hl & Hlog & Hls & Hrecs).
  eexists s, s', sum, w', _. split_and!; [done..|]. intros fuel Hf. by apply (final_summary l (spec_run o cs).2).
Qed.
End final.

(** ** Examples *)

Module WriterSummaryReadExamples.
Import BitCrc MarkLib Instances MarkEncoder WriterLogExamples WriterMessagesExamples.

Lemma written_summary_reads_witness : ∃ s s' sum w' c,
  writer_run marked empty calls = Ok (outcomes, s) ∧ wr_finish s = (Ok sum, s') ∧ wr_into_inner s' = Ok w' ∧ over cursor_file [] w' c ∧
  ∀ fuel, 2 * length c + 16 ≤ fuel → ∃ r, Summary_read fuel c = Ok r ∧
    (kept marked sum = Summary_default ∧ r = None ∨ kept marked sum ≠ Summary_default ∧ r = Some (kept marked sum)).
Proof.
  rewrite <-marked_outcomes.
  apply (written_summary_reads (file := cursor_file) marked empty calls);
    [reflexivity|exact marked_ok|exact marked_calls|vm_compute; discriminate| | |reflexivity].
  - rewrite marked_outcomes. apply (bool_decide_unpack _). vm_compute. exact I.
  - apply (bool_decide_unpack _). vm_compute. exact I.
Defined.

(** What [Summary::read] makes of the file, with the options [o]. *)
Definition summary_read (o : WriteOptions) : McapResult (option Summary) :=
  '(_, s) ← writer_run o empty calls;
  w ← wr_into_inner (wr_finish s).2;
  Summary_read 5000 (vc_data w).
Definition sizes (r : option Summary) : option (list nat) := (λ sum,
  [size (channels sum); size (schemas sum); length (chunk_indexes sum); length (attachment_indexes sum); length (metadata_indexes sum)]) <$> r.

Example summary_sizes : sizes <$> summary_read marked = Ok (Some [2; 2; 4; 1; 1]).
Proof. vm_compute. reflexivity. Qed.
Example no_summary_section :
  sizes <$> summary_read (options.emit_statistics false (options.emit_chunk_indexes false (options.emit_attachment_indexes false
    (options.emit_metadata_indexes false (options.repeat_channels false (options.repeat_schemas false marked)))))) = Ok None.
Proof. vm_compute. reflexivity. Qed.

(** Channels that are repeated without their schemas make the summary one that cannot be
    read. *)
Example channels_without_schemas :
  sizes <$> summary_read (options.repeat_schemas false marked) = Err (UnknownSchema (lit "/pose") 7).
Proof. vm_compute. reflexivity. Qed.
End WriterSummaryReadExamples.
