(* ===== verification/WriterExtras.v ===== *)
(** Attachments and metadata written are found: each index of the summary that [finish]
    returned leads to the record that was written. *)

From S2P Require Import Prelude Utf8 BTree Errors Bin Records Crc Io Codec RwBuf Decompressor LinearReader LinearReaderTheory LinearReaderClient LinearReaderFile Channels Read ReadTheory Conversation Streaming LinearReaderFlat Summary IndexedRecords ChunkWriter ChunkWriterTheory Writer WriterTheory WriterSpec Instances WriterLog WriterFile WriterSummary WriterRoundtrip WriterMessages.

(** The attachments and the metadata of a log. *)
Definition log_attachment (r : record) : option Attachment :=
  match r with
  | RAttachment h d _ => Some (mkAttachment (ah_log_time h) (ah_create_time h) (ah_name h) (ah_media_type h) d)
  | _ => None
  end.
Definition log_metadata (r : record) : option Metadata := match r with RMetadata m => Some m | _ => None end.
Definition log_attachments (l : list record) : list Attachment := omap log_attachment l.
Definition log_metadatas (l : list record) : list Metadata := omap log_metadata l.

Section extras.
Context `{Crc, !CrcLaws, HashOrder, !HashOrderOk, ZstdEncoderLib, Lz4EncoderLib} `{FileOk W file}.
Context `{!BiMap ChannelContent Z, !BiMap SchemaContent Z, !BiMapOk ChannelContent Z, !BiMapOk SchemaContent Z}.
Context `{ZstdLib, Lz4Lib, !ZstdLibOk, !Lz4LibOk, !Frames}.
Context (o : WriteOptions).
Context `{!EncoderOk (wo_compression o) (wo_compression_level o) (wo_compression_threads o)}.

(** A plain record that is written whole is neither. *)
Lemma no_extras rs : forallb record_ok rs = true → log_attachments rs = [] ∧ log_metadatas rs = [].
Proof.
  induction rs as [|r rs IH]; [done|]. cbn [forallb]. rewrite andb_true_iff. intros [Hr Hrs]. unfold record_ok in Hr. rewrite !andb_true_iff in Hr.
  unfold log_attachments, log_metadatas in *. cbn [omap list_omap]. destruct Hr as [[_ Hw] Hp], (IH Hrs) as [-> ->]. by destruct r.
Qed.

Lemma item_extras i : item_ok o i →
  log_attachments (item_log o i) = match i with
    | IAttachment h d => [mkAttachment (ah_log_time h) (ah_create_time h) (ah_name h) (ah_media_type h) d]
    | _ => []
    end ∧
  log_metadatas (item_log o i) = match i with IMetadata m => [m] | _ => [] end.
Proof.
  destruct i as [r|h d|m|rs z]; cbn [item_ok item_log]; [|done..|].
  - intros [Hr _]. apply no_extras. cbn. by rewrite Hr.
  - intros (_ & Hr & _). by apply no_extras.
Qed.

(** The indexes of the items point to the records of the items. *)
Lemma indexed_read (l : list item) : ∀ pre post mcap, Forall (item_ok o) l → mcap = pre ++ items_bytes o l ++ post → (zlen mcap ≤ usize_max)%Z →
  Forall2 (λ i a, attachment mcap i = Ok a) (indexed o (item_attachment_index o) pre l) (log_attachments (concat (item_log o <$> l))) ∧
  Forall2 (λ i m, metadata mcap i = Ok m) (indexed o item_metadata_index pre l) (log_metadatas (concat (item_log o <$> l))).
Proof.
  induction l as [|i l IH]; intros pre post mcap Hl Hm Hsz; [split; constructor|]. apply Forall_cons in Hl as [Hi Hl].
  change (items_bytes o (i :: l)) with (item_bytes o i ++ items_bytes o l) in Hm. rewrite <-app_assoc in Hm.
  destruct (IH (pre ++ item_bytes o i) post mcap Hl) as [IHa IHm]; [by rewrite <-app_assoc|done|].
  cbn [indexed]. rewrite fmap_cons. cbn [concat]. destruct (item_extras i Hi) as [Ea Em]. unfold log_attachments, log_metadatas in *. rewrite !omap_app, Ea, Em.
  split; (apply Forall2_app; [|done]); clear IH IHa IHm Ea Em; destruct i as [r|h d|m|rs z]; try constructor; try constructor; cbn [item_ok] in Hi.
  - rewrite item_bytes_attachment in Hm. subst mcap.
    assert (file_record (attachment_record o h d) = true) as Hr by (unfold file_record; by rewrite Hi).
    by apply (attachment_at pre _ (attachment_record o h d) Hr ltac:(done) Hsz h d _ _ eq_refl).
  - rewrite item_bytes_metadata in Hm. subst mcap.
    assert (file_record (RMetadata m) = true) as Hr by (unfold file_record; by rewrite Hi).
    by apply (metadata_at_index pre _ (RMetadata m) Hr ltac:(done) Hsz m).
Qed.

(** C21: what is written besides messages is found: after any calls that do not panic, and
    [finish], the attachment indexes of the summary that it returned, if any are kept,
    lead to the attachments of the log, one each and in order, and so do the metadata
    indexes to the metadata. *)
Theorem written_extras_found w cs : file w [] 0 → options_ok o → Forall (call_ok o) cs → (run_size o cs ≤ 2 ^ 59)%Z →
  Panic ∉ (spec_run o cs).1 →
  ∃ s s' sum w' c, writer_run o w cs = Ok ((spec_run o cs).1, s) ∧ wr_finish s = (Ok sum, s') ∧ wr_into_inner s' = Ok w' ∧ over file [] w' c ∧
    (wo_emit_attachment_indexes o = true →
       Forall2 (λ i a, attachment c i = Ok a) (attachment_indexes sum) (log_attachments (sp_log (spec_run o cs).2))) ∧
    (wo_emit_metadata_indexes o = true →
       Forall2 (λ i m, metadata c i = Ok m) (metadata_indexes sum) (log_metadatas (sp_log (spec_run o cs).2))).
Proof.
  intros Hw Ho Hcs Hsz Hp.
  destruct (run_finishes o w cs Hw Ho Hcs Hsz Hp) as (s & s' & sum & stats & l & w' & E & Ef & Ei & Hfile & Hlen & Hsum & Hl & Hlog & _ & _).
  cbv zeta in Hfile, Hlen. set (c := file_bytes (final_file o l sum stats)) in *. exists s, s', sum, w', c. split_and!; [done..| |];
    (assert (∃ post, c = MAGIC ++ items_bytes o l ++ post) as [post Hc]
      by (unfold c, file_bytes; rewrite contents_data_section; unfold contents; rewrite <-!app_assoc; by eexists));
    destruct (indexed_read l MAGIC post c Hl Hc) as [Ha Hm]; [unfold usize_max, u64_max; lia| |unfold usize_max, u64_max; lia|]; intros Hem;
    rewrite Hlog, ?(so_attachments _ _ _ _ _ Hsum), ?(so_metadatas _ _ _ _ _ Hsum), Hem; done.
Qed.
End extras.

(** ** Examples *)

Module WriterExtrasExamples.
Import BitCrc MarkLib Instances MarkEncoder WriterLogExamples WriterMessagesExamples.

Lemma written_extras_found_witness : ∃ s s' sum w' c,
  writer_run marked empty calls = Ok (outcomes, s) ∧ wr_finish s = (Ok sum, s') ∧ wr_into_inner s' = Ok w' ∧ over cursor_file [] w' c ∧
  Forall2 (λ i a, attachment c i = Ok a) (attachment_indexes sum) [mkAttachment 1 2 (lit "a.txt") (lit "text/plain") (lit "hello")] ∧
  Forall2 (λ i m, metadata c i = Ok m) (metadata_indexes sum) [mkMetadata (lit "m") [(lit "k", lit "v")]].
Proof.
  destruct (written_extras_found (file := cursor_file) marked empty calls) as (s & s' & sum & w' & c & E & Ef & Ei & Hw & Ha & Hm);
    [reflexivity|exact marked_ok|exact marked_calls|vm_compute; discriminate| |].
  - rewrite marked_outcomes. apply (bool_decide_unpack _). vm_compute. exact I.
  - rewrite marked_outcomes in E. exists s, s', sum, w', c. split; [exact E|]. split; [exact Ef|]. split; [exact Ei|]. split; [exact Hw|].
    assert (log_attachments (sp_log (spec_run marked calls).2) = [mkAttachment 1 2 (lit "a.txt") (lit "text/plain") (lit "hello")]) as Ea by (vm_compute; reflexivity).
    assert (log_metadatas (sp_log (spec_run marked calls).2) = [mkMetadata (lit "m") [(lit "k", lit "v")]]) as Em by (vm_compute; reflexivity).
    rewrite Ea in Ha. rewrite Em in Hm. split; [exact (Ha eq_refl)|exact (Hm eq_refl)].
Defined.
End WriterExtrasExamples.
