(* ===== verification/Cli.v ===== *)
(** What the commands of the command line tool share (src/rust/mcap_cli): the error
    type, and the loops that take a file apart record by record.

    Nearly every command is a [while let Some(event) = reader.next_event()] loop or a
    [for record in reader] loop around a body that updates some state.  [scan] and
    [for_each] are those loops for any body; what they do is said once, in terms of
    [each], which runs the body over the list of the records there are. *)

From S2P Require Import Prelude Utf8 BTree Errors Bin Records Crc Codec RwBuf Decompressor LinearReader LinearReaderTheory LinearReaderClient LinearReaderFile Channels Read ReadTheory Conversation LinearReaderSound.

(** ** Errors *)

(** What a message interpolates. *)
Inductive arg := Num (z : Z) | Str (s : rstring).

(** [anyhow::Error]: an error of the library, a message of the tool with the values in
    it, or a message put around an error. *)
Inductive anyhow :=
| FromMcap (e : McapError)
| Msg (format : string) (args : list arg)
| Context (format : string) (args : list arg) (e : anyhow).

#[export] Instance arg_eq_dec : EqDecision arg.
Proof. solve_decision. Defined.
#[export] Instance anyhow_eq_dec : EqDecision anyhow.
Proof. solve_decision. Defined.

(** [anyhow::Result] *)
Abbreviation Result := (outcome anyhow).

(** [?] on a result of the library. *)
Definition from_mcap {A} (o : McapResult A) : Result A := map_err FromMcap o.
(** [bail!] *)
Definition bail {A} (format : string) (args : list arg) : Result A := Err (Msg format args).
(** [.with_context(..)] and [.context(..)] *)
Definition with_context {A} (format : string) (args : list arg) (o : Result A) : Result A := map_err (Context format args) o.

(** ** Loops *)

(** The body for each of [l] in turn, until one fails; then [last]. *)
Fixpoint each {St A} (body : A → method St anyhow ()) (l : list A) (last : method St anyhow ()) : method St anyhow () :=
  match l with
  | [] => last
  | a :: l => _ ← body a; each body l last
  end.
Abbreviation for_all body l := (each body l (mret ())).

Section loops.
Context `{Crc, ZstdLib, Lz4Lib} {St : Type}.

(** [while let Some(event) = reader.next_event() { match event { .. } }], where a request
    for input is served from [remaining], a record goes to [process] and an error, with
    which the loop ends, to [on_error]. *)
Fixpoint scan_loop (fuel : nat) (process : Z → bytes → method St anyhow ()) (on_error : McapError → method St anyhow ())
    (i : InnerReader) : method St anyhow () :=
  match fuel with
  | 0 => lift Fuel
  | S fuel =>
      let '(event, r) := next_event (ir_reader i) in
      match event with
      | Ok (Some (ReadRequest need)) =>
          '(remaining, r) ← lift (from_mcap (serve need (ir_buf i) r));
          scan_loop fuel process on_error (mkInnerReader remaining r)
      | Ok (Some (EvRecord opcode data)) =>
          _ ← process opcode data;
          scan_loop fuel process on_error (mkInnerReader (ir_buf i) r)
      | Ok None => mret ()
      | Err e => on_error e
      | Panic => lift Panic
      | Fuel => lift Fuel
      end
  end.

(** The loop over a whole file: each turn takes a byte of the input, finds that there is
    none left, or gives a record, which has a byte of its own. *)
Definition scan_with (on_error : McapError → method St anyhow ()) (o : LinearReaderOptions) (mcap : bytes)
    (process : Z → bytes → method St anyhow ()) : method St anyhow () :=
  scan_loop (2 * length mcap + 3) process on_error (mkInnerReader mcap (LinearReader_new o)).
(** With [event?], the command fails with the reader. *)
Definition scan : LinearReaderOptions → bytes → (Z → bytes → method St anyhow ()) → method St anyhow () :=
  scan_with (λ e, mthrow (FromMcap e)).

(** What is left to do when the reader is done. *)
Definition ending (on_error : McapError → method St anyhow ()) (out : McapResult ()) : method St anyhow () :=
  match out with Ok _ => mret () | Err e => on_error e | Panic => lift Panic | Fuel => lift Fuel end.

(** [for record in reader { let record = record?; .. }]; [fuel] bounds the records. *)
Fixpoint for_each (fuel : nat) (body : record → method St anyhow ()) (i : InnerReader) : method St anyhow () :=
  match fuel with
  | 0 => lift Fuel
  | S fuel =>
      let '(next, i) := InnerReader_next i in
      next ← lift (from_mcap next);
      match next with
      | Some r => _ ← body r; for_each fuel body i
      | None => mret ()
      end
  end.
End loops.

(** ** What the loops do *)

Lemma each_app {St A} (body : A → method St anyhow ()) l1 l2 last s :
  each body (l1 ++ l2) last s = each body l1 (each body l2 last) s.
Proof.
  revert s. induction l1 as [|a l1 IH]; intros s; [done|]. cbn [app each]. unfold mbind, method_bind in *.
  by destruct (body a s) as [[[]|e| |] s'].
Qed.

(** An invariant of the body is one of the loop. *)
Lemma each_invariant {St A} (body : A → method St anyhow ()) (P : list A → St → Prop) l s s' o :
  for_all body l s = (Ok o, s') → P [] s → 
  (∀ l1 a l2 s s1, l = l1 ++ a :: l2 → P l1 s → body a s = (Ok (), s1) → P (l1 ++ [a]) s1) → P l s'.
Proof.
  intros Hrun HP Hb. assert (∀ l1 l2 s, l = l1 ++ l2 → P l1 s → for_all body l2 s = (Ok o, s') → P l s') as Hg; [|by eapply (Hg [])].
  clear s Hrun HP. intros l1 l2. revert l1. induction l2 as [|a l2 IH]; intros l1 s Hl HP; cbn [each].
  - intros [= _ <-]. by rewrite Hl, app_nil_r.
  - unfold mbind, method_bind. destruct (body a s) as [[[]|e| |] s1] eqn:E; try done.
    apply (IH (l1 ++ [a])); [by rewrite <-app_assoc|by eapply Hb].
Qed.

(** What a method keeps, whether it succeeds or not. *)
Definition preserves {St A} (P : St → Prop) (m : method St anyhow A) : Prop := ∀ s, P s → P (m s).2.
Lemma preserves_bind {St A B} (P : St → Prop) (m : method St anyhow A) (f : A → method St anyhow B) :
  preserves P m → (∀ a, preserves P (f a)) → preserves P (m ≫= f).
Proof.
  intros Hm Hf s Hs. specialize (Hm s Hs). unfold mbind, method_bind. destruct (m s) as [[a|e| |] s1]; cbn in *; try done. by apply Hf.
Qed.
Lemma preserves_ret {St A} (P : St → Prop) (a : A) : preserves P (mret a). Proof. by intros s. Qed.
Lemma preserves_lift {St A} (P : St → Prop) (o : Result A) : preserves P (lift o). Proof. by intros s. Qed.
Lemma preserves_throw {St A} (P : St → Prop) (e : anyhow) : preserves P (mthrow e : method St anyhow A). Proof. by intros s. Qed.
Lemma preserves_each {St A} (P : St → Prop) (body : A → method St anyhow ()) l last :
  (∀ a, preserves P (body a)) → preserves P last → preserves P (each body l last).
Proof. intros Hb Hl. induction l as [|a l IH]; [done|]. cbn [each]. apply preserves_bind; [done|by intros []]. Qed.
Lemma preserves_for_each `{Crc, ZstdLib, Lz4Lib} {St} (P : St → Prop) fuel body i : (∀ r, preserves P (body r)) → preserves P (for_each fuel body i).
Proof.
  intros Hb. revert i. induction fuel as [|fuel IH]; intros i; cbn [for_each]; [apply preserves_lift|].
  destruct (InnerReader_next i) as [next i']. apply preserves_bind; [apply preserves_lift|]. intros [r|]; [|apply preserves_ret].
  apply preserves_bind; [done|by intros []].
Qed.
#[export] Hint Resolve preserves_ret preserves_lift preserves_throw : preserves.

Section loops.
Context `{Crc, ZstdLib, Lz4Lib, !ZstdLibOk, !Lz4LibOk} {St : Type}.
Implicit Types process : Z → bytes → method St anyhow ().

(** What is left of the input, and whether its end is still to be found. *)
Definition input_left (i : InnerReader) : nat := length (ir_buf i) + if at_eof (ir_reader i) then 0 else 1.

(** The turns that serve requests lead to one that does not. *)
Lemma scan_turns Q i : will Q (ir_reader i) (ir_buf i) → inner_ok i →
  ∃ n i2 o r', (∀ fuel process on_error s, scan_loop (n + fuel) process on_error i s = scan_loop fuel process on_error i2 s) ∧
    next_event (ir_reader i2) = (o, r') ∧ (match o with Ok r => is_request r = false | Fuel => False | _ => True end) ∧
    Q (record_event <$> o) r' (ir_buf i2) ∧ n + input_left (mkInnerReader (ir_buf i2) r') ≤ input_left i ∧
    (o ≠ Panic → inner_ok (mkInnerReader (ir_buf i2) r')).
Proof.
  intros Hw. remember (ir_reader i) as s eqn:Hs. remember (ir_buf i) as c eqn:Hc. revert i Hs Hc.
  induction Hw as [s c r s1 E Hr HQ|s c e s1 E HQ|s c s1 E HQ|s c need s1 E _ _ IH]; intros i -> -> Hok;
    pose proof (next_event_ok _ (io_inv _ Hok)) as Hn; pose proof (next_event_end (ir_reader i)) as Hend; pose proof (io_size _ Hok) as Hsz;
    rewrite E in Hn, Hend; cbn in Hn, Hend.
  - destruct Hn as (Hi & _ & He & _). exists 0, i, (Ok r), s1. split_and!; try done; [unfold input_left; cbn; rewrite He; lia|].
    intros _. split; cbn; [done|by rewrite Hend].
  - destruct Hn as (Hi & _ & He). exists 0, i, (Err e), s1. split_and!; try done; [unfold input_left; cbn; rewrite He; lia|].
    intros _. split; cbn; [done|by rewrite Hend].
  - exists 0, i, Panic, s1. split_and!; try done. unfold input_left. cbn. destruct Hn as (s2 & Hp & _).
    assert (at_eof (ir_reader i) = false) as ->; [|destruct (at_eof s1); lia].
    destruct (at_eof (ir_reader i)) eqn:He; [|done]. rewrite next_event_eof in E by done. by destruct (eof_ok _).
  - destruct Hn as (Hi1 & _ & He1 & Hneed).
    assert (at_eof (ir_reader i) = false) as Heof.
    { destruct (at_eof (ir_reader i)) eqn:He; [|done]. rewrite next_event_eof in E by done. by destruct (eof_ok _). }
    destruct (serve_spec need (ir_buf i) s1 Hi1 (Hneed _ eq_refl) ltac:(by rewrite Hend))
      as (d & rest & r' & Hbuf & Hnil & Es & Ef & Hi' & He' & _ & Hsz').
    destruct (IH (zlen d) d rest r' Hbuf ltac:(intros Hd; rewrite Hbuf, Hd; by rewrite (Hnil Hd)) ltac:(done) Ef (mkInnerReader rest r') eq_refl eq_refl ltac:(by split))
      as (n & i2 & o & r2 & Hsc & En & Hr & HQ & Hle & Hok2).
    exists (S n), i2, o, r2. split_and!; try done.
    + intros fuel process on_error s0. rewrite <-Hsc. cbn [Nat.add scan_loop]. rewrite E. unfold mbind, method_bind, lift. cbn. by rewrite Es.
    + unfold input_left in Hle |- *. rewrite Heof. cbn in Hle. rewrite He', He1, Heof in Hle. cbn [orb] in Hle. rewrite Hbuf, length_app.
      destruct d as [|x d]; [rewrite bool_decide_true in Hle by done|rewrite bool_decide_false in Hle by done]; cbn in *; lia.
Qed.

(** The loop is its body run over what the reader delivers. *)
Lemma scan_loop_delivers rs out process on_error i s fuel : delivers rs out (ir_reader i) (ir_buf i) → inner_ok i → out ≠ Fuel →
  length rs + input_left i < fuel →
  scan_loop fuel process on_error i s = each (λ r, process r.1 r.2) rs (ending on_error out) s.
Proof.
  intros Hd Hok Hout. revert i s fuel Hd Hok. induction rs as [|[op b] rs IH]; intros i s fuel Hd Hok Hf; cbn [delivers] in Hd;
    destruct (scan_turns _ i Hd Hok) as (n & i2 & o & r' & Hsc & En & Hr & HQ & Hle & Hok2);
    replace fuel with (n + S (fuel - n - 1)) by (cbn [length] in Hf; lia); rewrite Hsc; cbn [scan_loop each]; rewrite En.
  - destruct o as [[[?|? ?]|]|e| |]; cbn in HQ, Hr; try done; destruct out as [[]|e'| |]; cbn in HQ; by simplify_eq.
  - destruct HQ as [Ho Hd']. destruct o as [[[?|op' b']|]|e| |]; cbn in Ho; simplify_eq. unfold mbind, method_bind. cbn [fst snd].
    destruct (process op b s) as [[]  s']; try done. apply IH; [done|by apply Hok2|cbn [length] in Hf; lia].
Qed.

Lemma new_inner_ok o mcap : (zlen mcap ≤ usize_max)%Z → inner_ok (mkInnerReader mcap (LinearReader_new o)).
Proof. intros Hm. split; [apply LinearReader_new_inv|cbn; lia]. Qed.

(** A scan, for what a reader is known to deliver. *)
Lemma scan_delivers rs out process on_error o mcap s : delivers rs out (LinearReader_new o) mcap → (zlen mcap ≤ usize_max)%Z → out ≠ Fuel →
  length rs ≤ length mcap →
  scan_with on_error o mcap process s = each (λ r, process r.1 r.2) rs (ending on_error out) s.
Proof.
  intros Hd Hm Hf Hl. apply scan_loop_delivers; [done|by apply new_inner_ok|done|]. unfold input_left. cbn. lia.
Qed.

(** A scan of whole chunks, whatever the bytes. *)
Lemma scan_each o mcap process on_error s : whole_file_options o → (zlen mcap ≤ usize_max)%Z →
  ∃ rs out, scan_with on_error o mcap process s = each (λ r, process r.1 r.2) rs (ending on_error out) s ∧
    length rs ≤ length mcap ∧ out ≠ Fuel ∧ (limited o → out ≠ Panic) ∧ (out = Ok () → accepted_bytes o mcap rs).
Proof.
  intros Ho Hm. destruct (new_delivers o mcap Ho) as (rs & out & Hd & Hl & Hf & Hp & Ha).
  exists rs, out. split_and!; try done. by apply scan_delivers.
Qed.

(** A scan that is known to come to an end with a file. *)
Lemma scan_Ok o mcap process s s' : whole_file_options o → (zlen mcap ≤ usize_max)%Z → scan o mcap process s = (Ok (), s') →
  ∃ rs, for_all (λ r, process r.1 r.2) rs s = (Ok (), s') ∧ accepted_bytes o mcap rs.
Proof.
  unfold scan. intros Ho Hm Hs. destruct (scan_each o mcap process (λ e, mthrow (FromMcap e)) s Ho Hm) as (rs & out & He & _ & _ & _ & Ha). rewrite He in Hs.
  exists rs. assert (out = Ok ()) as ->; [|by split; [|apply Ha]].
  clear -Hs. revert s Hs. induction rs as [|r rs IH]; intros s; cbn [each].
  - unfold ending, lift. destruct out as [[]|e| |]; by intros [= ?].
  - unfold mbind, method_bind. destruct (process r.1 r.2 s) as [[]  s1]; try done. apply IH.
Qed.

Lemma for_each_collect fuel (body : record → method St anyhow ()) i s recs out : collect fuel i = (recs, out) → out ≠ Fuel →
  for_each fuel body i s = each body recs (lift (from_mcap out)) s.
Proof.
  revert i s recs. induction fuel as [|fuel IH]; intros i s recs; cbn [collect for_each]; [by intros [= <- <-]|].
  destruct (InnerReader_next i) as [[[r|]|e| |] i']; try (by intros [= <- <-]).
  destruct (collect fuel i') as [recs' out'] eqn:Hc. intros [= <- <-] Ho. cbn [each]. unfold mbind, method_bind, lift. cbn.
  destruct (body r s) as [[]  s']; try done. by apply IH.
Qed.
End loops.
