(* ===== verification/Sink.v ===== *)
(** Where a command writes to.

    A command that makes a file calls a writer.  [Sink] is what it needs of one, and a
    command is a method of a job: a sink and the command's own state.  The writer is a
    sink, and so is its specification, the log of records; SinkTheory.v shows that a
    command does the same on both. *)

From S2P Require Import Prelude Utf8 BTree Errors Bin Records Crc Io Channels Summary ChunkWriter Writer WriterSpec Cli.

(** ** The interface *)

(** A sink answers calls, a schema or a channel with its identifier. *)
Class Sink (Wr : Type) := sink_call : call → method Wr McapError Z.

Section operations.
Context `{Sink Wr}.
Abbreviation wr A := (method Wr McapError A).

Definition sink_add_schema (name encoding : rstring) (data : bytes) : wr Z := sink_call (AddSchema name encoding data).
Definition sink_add_channel (schema_id : Z) (topic message_encoding : rstring) (metadata : list (rstring * rstring)) : wr Z :=
  sink_call (AddChannel schema_id topic message_encoding metadata).
Definition sink_write_to_known_channel (header : MessageHeader) (data : bytes) : wr () := (λ _, ()) <$> sink_call (WriteKnown header data).
Definition sink_write (message : Message) : wr () := (λ _, ()) <$> sink_call (WriteMessage message).
Definition sink_attach (a : Attachment) : wr () :=
  (λ _, ()) <$> sink_call (Attach (mkAttachmentHeader (attachment_log_time a) (attachment_create_time a) (attachment_name a)
                                     (attachment_media_type a)) (attachment_data a)).
Definition sink_write_metadata (metadata : Metadata) : wr () := (λ _, ()) <$> sink_call (WriteMetadata metadata).
End operations.

(** The calls that were made, kept beside a sink. *)
#[export] Instance traced {Wr} (sink : Sink Wr) : Sink (Wr * list call) | 10 := λ c '(w, calls),
  let '(o, w) := sink c w in (o, (w, calls ++ [c])).

(** ** Jobs *)

Record Job (Wr St : Type) := mkJob {
  job_writer : Wr;
  job_state : St;
}.
Arguments mkJob {Wr St}.
Arguments job_writer {Wr St}.
Arguments job_state {Wr St}.

(** [writer.m()?] *)
Definition on_writer {Wr St A} (m : method Wr McapError A) : method (Job Wr St) anyhow A := λ j,
  let '(o, w) := m (job_writer j) in (from_mcap o, mkJob w (job_state j)).
(** What concerns the command's state alone. *)
Definition on_state {Wr St A} (m : method St anyhow A) : method (Job Wr St) anyhow A := λ j,
  let '(o, s) := m (job_state j) in (o, mkJob (job_writer j) s).
(** [m.with_context(..)] *)
Definition in_context {S A} (format : string) (args : list arg) (m : method S anyhow A) : method S anyhow A := λ s,
  let '(o, s) := m s in (with_context format args o, s).


(** The writer and its specification. *)
Section sinks.
Context `{Crc, ZstdEncoderLib, Lz4EncoderLib} `{Write W, Seek W}.
Context `{!BiMap ChannelContent Z, !BiMap SchemaContent Z}.

#[export] Instance writer_sink : Sink (Writer (W := W)) := perform.
Definition spec_sink (o : WriteOptions) : Sink spec_state := spec_perform o.
End sinks.
