(* ===== verification/Common.v ===== *)
(** What a command knows of a file (common.rs): its header, and what its summary says,
    or, when there is no summary, what a scan of all its records says.

    A [BTreeMap] is an association list in key order (BTree.v); a [HashMap] is a [gmap],
    walked in an order that may be any ([HashOrder]). *)

From S2P Require Import Prelude Utf8 BTree Errors Bin Records Crc Codec RwBuf Decompressor LinearReader Channels Read Summary SummaryReader ChunkWriter Writer Cli.

Record ParsedSchema := mkParsedSchema {
  ps_header : SchemaHeader;
  ps_data : bytes;
}.
#[export] Instance Header_eq_dec : EqDecision Header.
Proof. solve_decision. Defined.
#[export] Instance SchemaHeader_eq_dec : EqDecision SchemaHeader.
Proof. solve_decision. Defined.
#[export] Instance ChannelRecord_eq_dec : EqDecision ChannelRecord.
Proof. solve_decision. Defined.
#[export] Instance ParsedSchema_eq_dec : EqDecision ParsedSchema.
Proof. solve_decision. Defined.

Record ParsedMcap := mkParsedMcap {
  pm_header : option Header;
  pm_statistics : option Statistics;
  pm_channels : list (Z * ChannelRecord);
  pm_schemas : list (Z * ParsedSchema);
  pm_chunk_indexes : list ChunkIndex;
  pm_attachment_indexes : list AttachmentIndex;
  pm_metadata_indexes : list MetadataIndex;
}.
Definition ParsedMcap_default : ParsedMcap := mkParsedMcap None None [] [] [] [] [].

(** Assignments to the fields. *)
Definition set_pm_header (h : option Header) (p : ParsedMcap) : ParsedMcap :=
  mkParsedMcap h (pm_statistics p) (pm_channels p) (pm_schemas p) (pm_chunk_indexes p) (pm_attachment_indexes p) (pm_metadata_indexes p).
Definition set_pm_statistics (s : option Statistics) (p : ParsedMcap) : ParsedMcap :=
  mkParsedMcap (pm_header p) s (pm_channels p) (pm_schemas p) (pm_chunk_indexes p) (pm_attachment_indexes p) (pm_metadata_indexes p).
Definition set_pm_channels (c : list (Z * ChannelRecord)) (p : ParsedMcap) : ParsedMcap :=
  mkParsedMcap (pm_header p) (pm_statistics p) c (pm_schemas p) (pm_chunk_indexes p) (pm_attachment_indexes p) (pm_metadata_indexes p).
Definition set_pm_schemas (s : list (Z * ParsedSchema)) (p : ParsedMcap) : ParsedMcap :=
  mkParsedMcap (pm_header p) (pm_statistics p) (pm_channels p) s (pm_chunk_indexes p) (pm_attachment_indexes p) (pm_metadata_indexes p).
Definition set_pm_chunk_indexes (l : list ChunkIndex) (p : ParsedMcap) : ParsedMcap :=
  mkParsedMcap (pm_header p) (pm_statistics p) (pm_channels p) (pm_schemas p) l (pm_attachment_indexes p) (pm_metadata_indexes p).
Definition set_pm_attachment_indexes (l : list AttachmentIndex) (p : ParsedMcap) : ParsedMcap :=
  mkParsedMcap (pm_header p) (pm_statistics p) (pm_channels p) (pm_schemas p) (pm_chunk_indexes p) l (pm_metadata_indexes p).
Definition set_pm_metadata_indexes (l : list MetadataIndex) (p : ParsedMcap) : ParsedMcap :=
  mkParsedMcap (pm_header p) (pm_statistics p) (pm_channels p) (pm_schemas p) (pm_chunk_indexes p) (pm_attachment_indexes p) l.

Section common.
Context `{Crc, ZstdLib, Lz4Lib, HashOrder}.

Definition read_header (mcap : bytes) : Result (option Header) :=
  match (InnerReader_next (linear.new mcap)).1 with
  | Ok (Some (RHeader header)) => mret (Some header)
  | Ok (Some _) | Ok None => mret None
  | Err e => mthrow (FromMcap e)
  | Panic => Panic
  | Fuel => Fuel
  end.

Definition parsed_schema (s : Schema) : ParsedSchema :=
  mkParsedSchema (mkSchemaHeader (schema_id s) (schema_name s) (schema_encoding s)) (schema_data s).
Definition parsed_channel (c : Channel) : ChannelRecord :=
  mkChannelRecord (channel_id c) (channel_schema_id c) (channel_topic c) (channel_message_encoding c) (channel_metadata c).

Definition parse_mcap_from_summary (fuel : nat) (mcap : bytes) (header : option Header) : Result (option ParsedMcap) :=
  summary ← from_mcap (Summary_read fuel mcap);
  mret match summary with
  | None => None
  | Some summary => Some (mkParsedMcap header (stats summary)
      (foldl (λ m p, bt_insert (channel_id p.2) (parsed_channel p.2) m) [] (hash_iter (channels summary)))
      (foldl (λ m p, bt_insert (schema_id p.2) (parsed_schema p.2) m) [] (hash_iter (schemas summary)))
      (chunk_indexes summary) (attachment_indexes summary) (metadata_indexes summary))
  end.

Definition collect_record (r : record) : method ParsedMcap anyhow () :=
  out ← get;
  match r with
  | RHeader header =>
      match pm_header out with
      | Some existing => if bool_decide (existing = header) then mret () else mthrow (Msg "conflicting MCAP header records" [])
      | None => put (set_pm_header (Some header) out)
      end
  | RStatistics statistics => put (set_pm_statistics (Some statistics) out)
  | RChannel channel =>
      match bt_get (c_id channel) (pm_channels out) with
      | Some existing =>
          if bool_decide (existing = channel) then mret ()
          else mthrow (Msg "conflicting channel definition for id {}" [Num (c_id channel)])
      | None => put (set_pm_channels (bt_insert (c_id channel) channel (pm_channels out)) out)
      end
  | RSchema header data =>
      let schema := mkParsedSchema header data in
      match bt_get (sh_id header) (pm_schemas out) with
      | Some existing =>
          if bool_decide (existing = schema) then mret ()
          else mthrow (Msg "conflicting schema definition for id {}" [Num (sh_id header)])
      | None => put (set_pm_schemas (bt_insert (sh_id header) schema (pm_schemas out)) out)
      end
  | RChunkIndex index => put (set_pm_chunk_indexes (pm_chunk_indexes out ++ [index]) out)
  | RAttachmentIndex index => put (set_pm_attachment_indexes (pm_attachment_indexes out ++ [index]) out)
  | RMetadataIndex index => put (set_pm_metadata_indexes (pm_metadata_indexes out ++ [index]) out)
  | _ => mret ()
  end.

(** The body of the loop: a chunk is collected record by record. *)
Definition collect_nested (fuel : nat) (r : record) : method ParsedMcap anyhow () :=
  match r with
  | RChunk header data =>
      reader ← lift (from_mcap (ChunkReader_new header data));
      for_each fuel collect_record reader
  | _ => collect_record r
  end.
Definition parse_mcap_linear (fuel : nat) (mcap : bytes) (header : option Header) : Result ParsedMcap :=
  let '(o, out) := for_each fuel (collect_nested fuel) (linear.new mcap) (set_pm_header header ParsedMcap_default) in
  _ ← o;
  mret out.

Definition parse_mcap (fuel : nat) (mcap : bytes) : Result ParsedMcap :=
  header ← read_header mcap;
  parsed ← parse_mcap_from_summary fuel mcap header;
  match parsed with
  | Some parsed => mret parsed
  | None => parse_mcap_linear fuel mcap header
  end.

(** [parse_output_compression] *)
Definition parse_output_compression (value : rstring) : Result (option Compression) :=
  if bool_decide (value = lit "zstd") then mret (Some Zstd)
  else if bool_decide (value = lit "lz4") then mret (Some Lz4)
  else if bool_decide (value = lit "none") || bool_decide (value = []) then mret None
  else bail "unrecognized compression format '{value}': valid options are 'lz4', 'zstd', or 'none'" [Str value].

(** *** Times *)

(** [{t}], and [{t:09}] of nine digits. *)
Fixpoint digits (fuel : nat) (n : Z) : rstring :=
  match fuel with
  | 0 => []
  | S fuel => (if (n <? 10)%Z then [] else digits fuel (n / 10)) ++ [byte_of_Z (48 + n `mod` 10)]
  end.
Definition show_u64 (n : Z) : rstring := digits 20 n.
Fixpoint padded (width : nat) (n : Z) : rstring :=
  match width with
  | 0 => []
  | S width => padded width (n / 10) ++ [byte_of_Z (48 + n `mod` 10)]
  end.
Definition decimal_time (t : Z) : rstring := show_u64 (t / 1000000000) ++ lit "." ++ padded 9 (t `mod` 1000000000).
Definition raw_time (t : Z) : rstring := show_u64 t.
End common.

Example decimal_time_pads : decimal_time 1000000007 = lit "1.000000007".
Proof. reflexivity. Qed.
Example raw_time_zero : raw_time 0 = lit "0".
Proof. reflexivity. Qed.
