(* ===== verification/Du.v ===== *)
(** The disk usage command (du.rs): how many bytes of a file go to each kind of record,
    and how many to the messages of each topic.

    The exact usage comes of a scan of the file; the approximate one of the indexes of
    its summary, which worker threads go through.  The workers are a transition system:
    a step is one access of a worker to what they share, and any worker may be next. *)

From S2P Require Import Prelude Utf8 BTree Errors Bin Records Crc Codec RwBuf Decompressor LinearReader Channels Read Summary SummaryReader ChunkWriter Writer Cli Common.

Definition MCAP_MAGIC_SIZE : Z := zlen MAGIC.
Definition FOOTER_RECORD_SIZE : Z := 29.
Definition RECORD_ENVELOPE_SIZE : Z := 9.
Definition MESSAGE_HEADER_SIZE : Z := 22.
Definition MESSAGE_OVERHEAD : Z := RECORD_ENVELOPE_SIZE + MESSAGE_HEADER_SIZE.
Definition MAX_APPROX_WORKERS : nat := 16.

(** The sizes of a [BTreeMap<String, u64>]. *)
Abbreviation sizes := (list (rstring * Z)).

Record Usage := mkUsage {
  total_size : Z;
  total_message_size : Z;
  record_kind_size : sizes;
  topic_message_size : sizes;
}.

(** [*m.entry(k).or_default() += n] *)
Definition entry_add (k : rstring) (n : Z) (m : sizes) : Result sizes :=
  v ← add_ u64_max (default 0%Z (bt_get k m)) n;
  mret (bt_insert k v m).
(** [for (topic, size) in from { *m.entry(topic).or_default() += size }] *)
Fixpoint merge_sizes (from m : sizes) : Result sizes :=
  match from with
  | [] => mret m
  | (topic, size) :: from => m ← entry_add topic size m; merge_sizes from m
  end.

Definition record_kind_name (opcode : Z) : rstring :=
  if (opcode =? op.HEADER)%Z then lit "header" else
  if (opcode =? op.FOOTER)%Z then lit "footer" else
  if (opcode =? op.SCHEMA)%Z then lit "schema" else
  if (opcode =? op.CHANNEL)%Z then lit "channel" else
  if (opcode =? op.MESSAGE)%Z then lit "message" else
  if (opcode =? op.CHUNK)%Z then lit "chunk" else
  if (opcode =? op.MESSAGE_INDEX)%Z then lit "message index" else
  if (opcode =? op.CHUNK_INDEX)%Z then lit "chunk index" else
  if (opcode =? op.ATTACHMENT)%Z then lit "attachment" else
  if (opcode =? op.ATTACHMENT_INDEX)%Z then lit "attachment index" else
  if (opcode =? op.STATISTICS)%Z then lit "statistics" else
  if (opcode =? op.METADATA)%Z then lit "metadata" else
  if (opcode =? op.METADATA_INDEX)%Z then lit "metadata index" else
  if (opcode =? op.SUMMARY_OFFSET)%Z then lit "summary offset" else
  if (opcode =? op.DATA_END)%Z then lit "data end" else lit "unknown".

(** ** The exact usage *)

(** What the closure of the scan captures: the usage and the channels' topics. *)
Record exact_state := mkExact {
  ex_usage : Usage;
  ex_channels : list (Z * rstring);
}.
Abbreviation exact := (method exact_state anyhow).

Definition put_usage (u : Usage) : exact () := modify (λ s, mkExact u (ex_channels s)).
Definition add_topic (channel : ChannelRecord) : exact () :=
  modify (λ s, mkExact (ex_usage s) (bt_insert (c_id channel) (c_topic channel) (ex_channels s))).

Definition process_message (channel_id data_size : Z) : exact () :=
  s ← get;
  let usage := ex_usage s in
  match bt_get channel_id (ex_channels s) with
  | None => mthrow (Msg "got a Message record for unknown channel: {channel_id}" [Num channel_id])
  | Some topic =>
      total ← lift (add_ u64_max (total_message_size usage) data_size);
      topics ← lift (entry_add topic data_size (topic_message_size usage));
      put_usage (mkUsage (total_size usage) total (record_kind_size usage) topics)
  end.

Section du.
Context `{Crc, ZstdLib, Lz4Lib, HashOrder}.

Definition process_nested (r : record) : exact () :=
  match r with
  | RChannel channel => add_topic channel
  | RMessage header data => process_message (m_channel_id header) (zlen data)
  | _ => mret ()
  end.
Definition process_chunk (fuel : nat) (header : ChunkHeader) (data : bytes) : exact () :=
  chunk_reader ← lift (from_mcap (ChunkReader_new header data));
  for_each fuel process_nested chunk_reader.

(** The closure of the scan. *)
Definition process_record (fuel : nat) (opcode : Z) (data : bytes) : exact () :=
  let kind := record_kind_name opcode in
  record_size ← lift (add_ usize_max RECORD_ENVELOPE_SIZE (zlen data));
  s ← get;
  let usage := ex_usage s in
  total ← lift (add_ u64_max (total_size usage) record_size);
  kinds ← lift (entry_add kind record_size (record_kind_size usage));
  _ ← put_usage (mkUsage total (total_message_size usage) kinds (topic_message_size usage));
  r ← lift (from_mcap (parse_record opcode data));
  match r with
  | RChannel channel => add_topic channel
  | RMessage header data => process_message (m_channel_id header) (zlen data)
  | RChunk header data => process_chunk fuel header data
  | _ => mret ()
  end.

Definition scan_options (mcap : bytes) : LinearReaderOptions :=
  with_record_length_limit (zlen mcap) (with_validate_chunk_crcs true (with_emit_chunks true LinearReaderOptions_default)).
Definition scan_top_level_records {St} (mcap : bytes) (process : Z → bytes → method St anyhow ()) : method St anyhow () :=
  scan (scan_options mcap) mcap process.

Definition collect_usage_exact (fuel : nat) (mcap : bytes) : Result Usage :=
  let '(o, s) := scan_top_level_records mcap (process_record fuel)
                   (mkExact (mkUsage (2 * MCAP_MAGIC_SIZE) 0 [] []) []) in
  _ ← o;
  mret (ex_usage s).

(** ** The approximate usage *)

Record OffsetEntry := mkOffsetEntry {
  oe_offset : Z;
  oe_channel_id : Z;
}.

(** The loop over the message indexes behind a chunk; each turn moves on by a record. *)
Fixpoint index_entries (fuel : nat) (buf : bytes) (pos : Z) (entries : list OffsetEntry) : Result (Z * list OffsetEntry) :=
  head_end ← add_ usize_max pos RECORD_ENVELOPE_SIZE;
  if (zlen buf <? head_end)%Z then mret (pos, entries) else
  match fuel with
  | 0 => Fuel
  | S fuel =>
      opcode ← slice pos (pos + 1) buf;
      let opcode := le_dec opcode in
      if negb (opcode =? op.MESSAGE_INDEX)%Z
      then bail "unexpected opcode 0x{opcode:02x} at offset {pos}, expected MessageIndex (0x{:02x})" [Num opcode; Num pos; Num op.MESSAGE_INDEX] else
      len ← slice (pos + 1) head_end buf;
      let record_len := le_dec len in
      if (zlen buf <? record_len)%Z
      then bail "message index record length {} exceeds buffer size at offset {}" [Num record_len; Num pos] else
      record_end ← add_ usize_max head_end record_len;
      if (zlen buf <? record_end)%Z
      then bail "message index record extends beyond buffer at offset {pos}" [Num pos] else
      body ← slice head_end record_end buf;
      r ← from_mcap (parse_record op.MESSAGE_INDEX body);
      match r with
      | RMessageIndex message_index =>
          index_entries fuel buf record_end
            (entries ++ ((λ e, mkOffsetEntry (mie_offset e) (mi_channel_id message_index)) <$> mi_records message_index))
      | _ => bail "failed to parse message index at offset {pos}" [Num pos]
      end
  end.

(** [sort_by_key(|entry| entry.offset)], a stable sort. *)
Fixpoint sort_insert (e : OffsetEntry) (l : list OffsetEntry) : list OffsetEntry :=
  match l with
  | [] => [e]
  | x :: l' => if (oe_offset e <? oe_offset x)%Z then e :: l else x :: sort_insert e l'
  end.
Definition sort_by_offset (l : list OffsetEntry) : list OffsetEntry := foldl (λ l e, sort_insert e l) [] l.

(** The loop over the sorted entries: a message ends where the next one starts. *)
Fixpoint entry_sizes (uncompressed_size : Z) (channel_topics : list (Z * rstring)) (entries : list OffsetEntry)
    (topic_sizes : sizes) (total_size : Z) : Result (sizes * Z) :=
  match entries with
  | [] => mret (topic_sizes, total_size)
  | entry :: rest =>
      if (uncompressed_size <? oe_offset entry)%Z
      then bail "message offset {} exceeds chunk uncompressed size {}" [Num (oe_offset entry); Num uncompressed_size] else
      let record_size := match rest with
                         | next :: _ => saturating_sub (oe_offset next) (oe_offset entry)
                         | [] => saturating_sub uncompressed_size (oe_offset entry)
                         end in
      if (record_size <=? MESSAGE_OVERHEAD)%Z then entry_sizes uncompressed_size channel_topics rest topic_sizes total_size else
      data_size ← sub_ record_size MESSAGE_OVERHEAD;
      match bt_get (oe_channel_id entry) channel_topics with
      | None => bail "message references unknown channel: {}" [Num (oe_channel_id entry)]
      | Some topic =>
          topic_sizes ← entry_add topic data_size topic_sizes;
          total_size ← add_ u64_max total_size data_size;
          entry_sizes uncompressed_size channel_topics rest topic_sizes total_size
      end
  end.

Definition parse_chunk_message_indexes (buf : bytes) (uncompressed_size : Z) (channel_topics : list (Z * rstring)) : Result (sizes * Z) :=
  '(pos, entries) ← index_entries (length buf) buf 0 [];
  if negb (pos =? zlen buf)%Z then bail "message index buffer has {} trailing bytes" [Num (zlen buf - pos)] else
  match entries with
  | [] => mret ([], 0%Z)
  | _ => entry_sizes uncompressed_size channel_topics (sort_by_offset entries) [] 0
  end.

Definition compute_topic_sizes_for_chunk (mcap : bytes) (chunk : ChunkIndex) (channel_topics : list (Z * rstring)) : Result (sizes * Z) :=
  if (ci_message_index_length chunk =? 0)%Z then mret ([], 0%Z) else
  start ← add_ u64_max (ci_chunk_start_offset chunk) (ci_chunk_length chunk);
  end_ ← add_ u64_max start (ci_message_index_length chunk);
  if (zlen mcap <? end_)%Z then bail "message index section extends beyond file ({} > {})" [Num end_; Num (zlen mcap)] else
  buf ← slice start end_ mcap;
  parse_chunk_message_indexes buf (ci_uncompressed_size chunk) channel_topics.

Fixpoint sequential_from (mcap : bytes) (chunk_indexes : list ChunkIndex) (channel_topics : list (Z * rstring))
    (topic_sizes : sizes) (total_size : Z) : Result (sizes * Z) :=
  match chunk_indexes with
  | [] => mret (topic_sizes, total_size)
  | chunk :: chunk_indexes =>
      '(chunk_topic_sizes, chunk_total_size) ← compute_topic_sizes_for_chunk mcap chunk channel_topics;
      topic_sizes ← merge_sizes chunk_topic_sizes topic_sizes;
      total_size ← add_ u64_max total_size chunk_total_size;
      sequential_from mcap chunk_indexes channel_topics topic_sizes total_size
  end.
Definition compute_topic_sizes_from_index_sequential (mcap : bytes) (chunk_indexes : list ChunkIndex)
    (channel_topics : list (Z * rstring)) : Result (sizes * Z) :=
  sequential_from mcap chunk_indexes channel_topics [] 0.

(** *** The workers *)

(** Where a worker is in its loop, with its [local_sizes] and [local_total]. *)
Inductive worker :=
| Checking (local : sizes * Z)                 (* at the load of [stop] *)
| Claiming (local : sizes * Z)                 (* at the [fetch_add] *)
| Working (index : Z) (local : sizes * Z)      (* at the chunk it claimed *)
| Reporting (err : anyhow) (local : sizes * Z) (* at the lock of [first_error] *)
| Leaving (local : sizes * Z)                  (* out of the loop, at the lock of [partials] *)
| Finished
| Panicked.

(** What the threads share, and the threads. *)
Record pool := mkPool {
  next_index : Z;
  stop : bool;
  first_error : option anyhow;
  partials : list (sizes * Z);
  workers : list worker;
}.

Definition pool_start (worker_count : nat) : pool :=
  mkPool 0 false None [] (replicate worker_count (Checking ([], 0%Z))).

(** The chunk of a worker, added to what it has. *)
Definition add_chunk (chunk : Result (sizes * Z)) (local : sizes * Z) : Result (sizes * Z) :=
  '(chunk_sizes, chunk_total) ← chunk;
  local_sizes ← merge_sizes chunk_sizes local.1;
  local_total ← add_ u64_max local.2 chunk_total;
  mret (local_sizes, local_total).

(** The next access of worker [w] to what they share.  The load of [stop] is relaxed:
    it may miss a store, which [stale] decides. *)
Definition worker_step (mcap : bytes) (chunk_indexes : list ChunkIndex) (channel_topics : list (Z * rstring))
    (w : nat) (stale : bool) (p : pool) : option pool :=
  let become x := <[w := x]> (workers p) in
  state ← workers p !! w;
  match state with
  | Checking local =>
      Some (mkPool (next_index p) (stop p) (first_error p) (partials p)
        (become (if stop p && negb stale then Leaving local else Claiming local)))
  | Claiming local =>
      let index := next_index p in
      Some (mkPool (as_u64 (index + 1)) (stop p) (first_error p) (partials p)
        (become (if (zlen chunk_indexes <=? index)%Z then Leaving local else Working index local)))
  | Working index local =>
      chunk ← chunk_indexes !! Z.to_nat index;
      match add_chunk (compute_topic_sizes_for_chunk mcap chunk channel_topics) local with
      | Ok local => Some (mkPool (next_index p) (stop p) (first_error p) (partials p) (become (Checking local)))
      | Err err => Some (mkPool (next_index p) true (first_error p) (partials p) (become (Reporting err local)))
      | _ => Some (mkPool (next_index p) (stop p) (first_error p) (partials p) (become Panicked))
      end
  | Reporting err local =>
      Some (mkPool (next_index p) (stop p) (Some (default err (first_error p))) (partials p) (become (Leaving local)))
  | Leaving local =>
      let '(local_sizes, local_total) := local in
      Some (mkPool (next_index p) (stop p) (first_error p)
        (if negb (bool_decide (local_sizes = [])) || (0 <? local_total)%Z then partials p ++ [local] else partials p)
        (become Finished))
  | Finished | Panicked => None
  end.

(** Every thread has ended. *)
Definition pool_done (p : pool) : bool :=
  forallb (λ w, match w with Finished | Panicked => true | _ => false end) (workers p).

Fixpoint merge_partials (partials : list (sizes * Z)) (merged : sizes * Z) : Result (sizes * Z) :=
  match partials with
  | [] => mret merged
  | p :: partials => merged ← add_chunk (Ok p) merged; merge_partials partials merged
  end.

(** After the scope, which panics if a thread did. *)
Definition pool_result (p : pool) : Result (sizes * Z) :=
  if existsb (λ w, match w with Panicked => true | _ => false end) (workers p) then Panic else
  match first_error p with
  | Some err => mthrow err
  | None => merge_partials (partials p) ([], 0%Z)
  end.

(** A schedule: who takes the next step, and what a load of [stop] sees. *)
Fixpoint run_pool (mcap : bytes) (chunk_indexes : list ChunkIndex) (channel_topics : list (Z * rstring))
    (schedule : list (nat * bool)) (p : pool) : pool :=
  match schedule with
  | [] => p
  | (w, stale) :: schedule =>
      run_pool mcap chunk_indexes channel_topics schedule
        (default p (worker_step mcap chunk_indexes channel_topics w stale p))
  end.

(** A schedule that leaves a thread running is no run of the function. *)
Definition compute_topic_sizes_from_index_parallel (schedule : list (nat * bool)) (mcap : bytes) (chunk_indexes : list ChunkIndex)
    (channel_topics : list (Z * rstring)) (worker_count : nat) : Result (sizes * Z) :=
  let p := run_pool mcap chunk_indexes channel_topics schedule (pool_start worker_count) in
  if pool_done p then pool_result p else Fuel.

(** [available] is what [available_parallelism] says, or 1. *)
Definition compute_topic_sizes_from_index (available : nat) (schedule : list (nat * bool)) (mcap : bytes)
    (chunk_indexes : list ChunkIndex) (channel_topics : list (Z * rstring)) : Result (sizes * Z) :=
  let worker_count := (available `min` MAX_APPROX_WORKERS) `min` length chunk_indexes in
  if (worker_count <=? 1) || (length chunk_indexes <=? 1)
  then compute_topic_sizes_from_index_sequential mcap chunk_indexes channel_topics
  else compute_topic_sizes_from_index_parallel schedule mcap chunk_indexes channel_topics worker_count.

(** *** The command *)

Fixpoint chunk_totals (chunks : list ChunkIndex) (on_disk message_indexes : Z) : Result (Z * Z) :=
  match chunks with
  | [] => mret (on_disk, message_indexes)
  | chunk :: chunks =>
      on_disk ← add_ u64_max on_disk (ci_chunk_length chunk);
      message_indexes ← add_ u64_max message_indexes (ci_message_index_length chunk);
      chunk_totals chunks on_disk message_indexes
  end.

Definition collect_usage_approximate (fuel available : nat) (schedule : list (nat * bool)) (mcap : bytes) : Result (option Usage) :=
  match Summary_read fuel mcap with
  | Panic => Panic
  | Fuel => Fuel
  | Ok None | Err _ => mret None
  | Ok (Some summary) =>
      if bool_decide (chunk_indexes summary = []) then mret None else
      match footer mcap with
      | Panic => Panic
      | Fuel => Fuel
      | Err _ => mret None
      | Ok footer =>
          if (f_summary_start footer =? 0)%Z then mret None else
          let total_file_size := zlen mcap in
          '(total_chunk_on_disk, total_message_indexes_on_disk) ← chunk_totals (chunk_indexes summary) 0 0;
          let kinds := bt_insert (lit "message index") total_message_indexes_on_disk
                         (bt_insert (lit "chunk") total_chunk_on_disk []) in
          let minimum_file_size := (MCAP_MAGIC_SIZE + FOOTER_RECORD_SIZE + MCAP_MAGIC_SIZE)%Z in
          let footer_start := (total_file_size - MCAP_MAGIC_SIZE - FOOTER_RECORD_SIZE)%Z in
          let kinds :=
            if (minimum_file_size <=? total_file_size)%Z && (f_summary_start footer <? footer_start)%Z
            then bt_insert (lit "summary section") (footer_start - f_summary_start footer)%Z kinds else kinds in
          accounted ← add_ u64_max total_chunk_on_disk total_message_indexes_on_disk;
          accounted ← match bt_get (lit "summary section") kinds with
                      | Some summary_section_size => add_ u64_max accounted summary_section_size
                      | None => mret accounted
                      end;
          if (total_file_size <? accounted)%Z
          then bail "chunk index metadata exceeds file size ({} > {})" [Num accounted; Num total_file_size] else
          let other := (total_file_size - accounted)%Z in
          let kinds := if (0 <? other)%Z then bt_insert (lit "other") other kinds else kinds in
          let channel_topics := foldl (λ m p, bt_insert p.1 (channel_topic p.2) m) [] (hash_iter (channels summary)) in
          '(topic_message_size, total_message_size) ←
            compute_topic_sizes_from_index available schedule mcap (chunk_indexes summary) channel_topics;
          mret (Some (mkUsage total_file_size total_message_size kinds topic_message_size))
      end
  end.

(** [run]: the usage, and whether it is approximate. *)
Definition du_run (fuel available : nat) (schedule : list (nat * bool)) (approximate : bool) (mcap : bytes) : Result (Usage * bool) :=
  if approximate then
    usage ← collect_usage_approximate fuel available schedule mcap;
    match usage with
    | Some usage => mret (usage, true)
    | None => usage ← collect_usage_exact fuel mcap; mret (usage, false)
    end
  else usage ← collect_usage_exact fuel mcap; mret (usage, false).
End du.

(** The rows of a table: the largest first, and those of a size in order of their names. *)
Definition row_before (a b : rstring * Z) : bool :=
  ((b.2 <? a.2) || ((b.2 =? a.2) && negb (kltb b.1 a.1)))%Z.
Fixpoint insert_row (a : rstring * Z) (l : sizes) : sizes :=
  match l with
  | [] => [a]
  | b :: l' => if row_before a b then a :: l else b :: insert_row a l'
  end.
Definition sorted_rows (m : sizes) : sizes := foldr insert_row [] m.
