(* ===== verification/DuTheory.v ===== *)
(** What the disk usage command promises.

    The exact usage accounts for every byte of the file.  The worker threads of the
    approximate one agree with a sequential run, whatever their schedule, and end. *)

From S2P Require Import Prelude Utf8 BTree Errors Bin Records Crc Codec RwBuf Decompressor LinearReader Channels Read Summary SummaryReader ChunkWriter Writer LinearReaderSound Cli Common Du.

(** ** Sums of sizes *)

(** Maps in order are determined by their lookups. *)
Lemma bt_ext `{KeyOrd K} {V} (m1 m2 : list (K * V)) : bt_sorted m1 = true → bt_sorted m2 = true →
  (∀ k, bt_get k m1 = bt_get k m2) → m1 = m2.
Proof.
  revert m2. induction m1 as [|[k1 v1] m1 IH]; intros [|[k2 v2] m2] Hs1 Hs2 Hg; [done|..].
  - specialize (Hg k2). cbn in Hg. by rewrite kltb_irrefl in Hg.
  - specialize (Hg k1). cbn in Hg. by rewrite kltb_irrefl in Hg.
  - apply bt_sorted_cons in Hs1 as [Ha1 Hs1], Hs2 as [Ha2 Hs2].
    assert (k1 = k2 ∧ v1 = v2) as [-> ->].
    { pose proof (Hg k1) as Hg1. pose proof (Hg k2) as Hg2. cbn in Hg1, Hg2. rewrite !kltb_irrefl in *.
      destruct (kltb k1 k2) eqn:E1; [done|]. destruct (kltb k2 k1) eqn:E2; [done|].
      assert (k1 = k2) as -> by by apply kltb_total. by simplify_eq. }
    f_equal. apply IH; [done..|]. intros k. specialize (Hg k). cbn in Hg. destruct (kltb k k2) eqn:E1.
    + rewrite !bt_get_above; [done|..]; (eapply Forall_impl; [eassumption|]; cbn; intros ? ?; by eapply kltb_trans).
    + destruct (kltb k2 k) eqn:E2; [done|]. assert (k = k2) as -> by by apply kltb_total. by rewrite !bt_get_above.
Qed.

Lemma bt_insert_get `{KeyOrd K, EqDecision K} {V} (k k' : K) (v : V) m : bt_sorted m = true →
  bt_get k' (bt_insert k v m) = if decide (k = k') then Some v else bt_get k' m.
Proof. intros Hs. case_decide as E; [subst; apply bt_insert_get_eq|by apply bt_insert_get_ne]. Qed.

Lemma bt_get_cons `{KeyOrd K, EqDecision K} {V} (k k' : K) (v : V) m : bt_above k m →
  bt_get k' ((k, v) :: m) = if decide (k = k') then Some v else bt_get k' m.
Proof.
  intros Ha. cbn. case_decide as E; [subst k'; by rewrite kltb_irrefl|]. destruct (kltb k' k) eqn:E1.
  - rewrite bt_get_above; [done|]. eapply Forall_impl; [exact Ha|]. cbn. intros ? ?. by eapply kltb_trans.
  - destruct (kltb k k') eqn:E2; [done|]. destruct E. by apply kltb_total.
Qed.

(** A size that may be missing. *)
Definition plus_size (a b : option Z) : option Z :=
  match a, b with Some x, Some y => Some (x + y)%Z | Some x, None => Some x | None, b => b end.
#[export] Instance plus_size_comm : Comm (=) plus_size.
Proof. intros [x|] [y|]; cbn; try done. by rewrite Z.add_comm. Qed.
#[export] Instance plus_size_assoc : Assoc (=) plus_size.
Proof. intros [x|] [y|] [z|]; cbn; try done. by rewrite Z.add_assoc. Qed.

(** What is known of a value that is now given. *)
Ltac some_eqs := repeat match goal with Hx : ∀ v, Some ?x = Some v → _ |- _ => specialize (Hx x eq_refl) end.

(** Amounts: the sizes of some topics, and a total. *)
Abbreviation amount := (sizes * Z)%type.
Record amount_ok (a : amount) : Prop := {
  am_sorted : bt_sorted a.1 = true;
  am_sizes k v : bt_get k a.1 = Some v → (0 ≤ v)%Z;
  am_total : (0 ≤ a.2)%Z;
}.
(** What amounts come to. *)
Fixpoint at_topic (k : rstring) (l : list amount) : option Z :=
  match l with [] => None | a :: l => plus_size (bt_get k a.1) (at_topic k l) end.
Fixpoint in_total (l : list amount) : Z := match l with [] => 0 | a :: l => a.2 + in_total l end.

Lemma at_topic_app k l1 l2 : at_topic k (l1 ++ l2) = plus_size (at_topic k l1) (at_topic k l2).
Proof. induction l1 as [|a l1 IH]; cbn; [done|]. by rewrite IH, (assoc_L plus_size). Qed.
Lemma in_total_app l1 l2 : in_total (l1 ++ l2) = (in_total l1 + in_total l2)%Z.
Proof. induction l1 as [|a l1 IH]; cbn; [done|]. rewrite IH. lia. Qed.
#[export] Instance at_topic_proper k : Proper (Permutation ==> (=)) (at_topic k).
Proof.
  induction 1 as [|a l1 l2 _ IH|a b l|l1 l2 l3 _ IH1 _ IH2]; cbn; [done|by rewrite IH| |congruence].
  rewrite !(assoc_L plus_size). by rewrite (comm_L plus_size (bt_get k a.1)).
Qed.
#[export] Instance in_total_proper : Proper (Permutation ==> (=)) in_total.
Proof. induction 1; cbn; lia. Qed.

Lemma at_topic_nonneg k l v : Forall amount_ok l → at_topic k l = Some v → (0 ≤ v)%Z.
Proof.
  intros Hl. revert v. induction Hl as [|a l Ha _ IH]; cbn; [done|]. intros v. pose proof (am_sizes _ Ha k).
  destruct (bt_get k a.1) as [x|], (at_topic k l) as [y|]; cbn; intros [= <-]; some_eqs; lia.
Qed.
Lemma in_total_nonneg l : Forall amount_ok l → (0 ≤ in_total l)%Z.
Proof. induction 1 as [|a l Ha _ IH]; cbn; [done|]. pose proof (am_total _ Ha). lia. Qed.

(** Amounts that 64 bits hold. *)
Definition fits (l : list amount) : Prop := (∀ k v, at_topic k l = Some v → v ≤ u64_max)%Z ∧ (in_total l ≤ u64_max)%Z.
Lemma fits_app_l l1 l2 : Forall amount_ok l2 → fits (l1 ++ l2) → fits l1.
Proof.
  intros H2 [Hk Ht]. rewrite in_total_app in Ht. pose proof (in_total_nonneg _ H2). split; [|lia]. intros k v Hv.
  specialize (Hk k). rewrite at_topic_app, Hv in Hk. pose proof (at_topic_nonneg k l2) as Hn.
  destruct (at_topic k l2) as [y|]; cbn in Hk; [|by apply Hk]. specialize (Hk _ eq_refl). specialize (Hn y H2 eq_refl). lia.
Qed.

(** Two collections of amounts that come to the same. *)
Definition same_sum (l1 l2 : list amount) : Prop := (∀ k, at_topic k l1 = at_topic k l2) ∧ in_total l1 = in_total l2.
Lemma same_sum_fits l1 l2 : same_sum l1 l2 → fits l1 → fits l2.
Proof. intros [Hk Ht] [F1 F2]. split; [|by rewrite <-Ht]. intros k v. rewrite <-Hk. apply F1. Qed.
#[export] Instance same_sum_equiv : Equivalence same_sum.
Proof.
  split; [by split|by intros l1 l2 [Hk Ht]; split|].
  intros l1 l2 l3 [Hk Ht] [Hk2 Ht2]. split; [intros k; by rewrite Hk|lia].
Qed.
#[export] Instance same_sum_app : Proper (same_sum ==> same_sum ==> same_sum) app.
Proof.
  intros l1 l2 [Hk Ht] l3 l4 [Hk2 Ht2]. split; [intros k; by rewrite !at_topic_app, Hk, Hk2|]. rewrite !in_total_app. lia.
Qed.
Lemma same_sum_perm l1 l2 : l1 ≡ₚ l2 → same_sum l1 l2.
Proof. intros Hp. split; [intros k|]; by rewrite Hp. Qed.
#[export] Instance same_sum_proper : Proper (Permutation ==> Permutation ==> iff) same_sum.
Proof. intros l1 l2 Hp1 l3 l4 Hp2. apply same_sum_perm in Hp1, Hp2. split; intros Hs; [by rewrite <-Hp1, Hs|by rewrite Hp1, Hs]. Qed.
Lemma same_sum_single a b : amount_ok a → amount_ok b → same_sum [a] [b] → a = b.
Proof.
  destruct a as [m1 t1], b as [m2 t2]. intros [S1 _ _] [S2 _ _] [Hk Ht]. cbn in *. f_equal; [|lia].
  apply bt_ext; [done..|]. intros k. specialize (Hk k). cbn in Hk.
  by destruct (bt_get k m1), (bt_get k m2).
Qed.

Lemma entry_add_spec k n m : bt_sorted m = true →
  match entry_add k n m with
  | Ok m' => bt_sorted m' = true ∧ (∀ k', bt_get k' m' = plus_size (if decide (k = k') then Some n else None) (bt_get k' m)) ∧
      (default 0 (bt_get k m) + n ≤ u64_max)%Z
  | Panic => (u64_max < default 0 (bt_get k m) + n)%Z
  | _ => False
  end.
Proof.
  intros Hs. unfold entry_add, add_. zcase; cbn; [|lia]. split_and!; [by apply bt_insert_sorted| |done].
  intros k'. rewrite bt_insert_get by done. case_decide; [subst k'|by destruct (bt_get k' m)].
  destruct (bt_get k m); cbn; f_equal; lia.
Qed.

Lemma merge_sizes_spec from m : bt_sorted from = true → bt_sorted m = true →
  match merge_sizes from m with
  | Ok m' => bt_sorted m' = true ∧ (∀ k, bt_get k m' = plus_size (bt_get k from) (bt_get k m)) ∧
      (∀ k v w, bt_get k from = Some v → plus_size (Some v) (bt_get k m) = Some w → w ≤ u64_max)%Z
  | Panic => ∃ k v w, bt_get k from = Some v ∧ plus_size (Some v) (bt_get k m) = Some w ∧ (u64_max < w)%Z
  | _ => False
  end.
Proof.
  revert m. induction from as [|[k n] from IH]; intros m Hf Hm; cbn [merge_sizes].
  { split_and!; [done|by intros k|done]. }
  apply bt_sorted_cons in Hf as [Ha Hf]. pose proof (entry_add_spec k n m Hm) as He.
  assert (∀ k', bt_get k' ((k, n) :: from) = plus_size (if decide (k = k') then Some n else None) (bt_get k' from)) as Hget.
  { intros k'. rewrite bt_get_cons by done. case_decide as E; [subst k'; by rewrite (bt_get_above from)|done]. }
  assert (bt_get k from = None) as Hnone by by apply bt_get_above.
  destruct (entry_add k n m) as [m1|e| |]; cbn [mbind outcome_bind]; try done.
  - destruct He as (Hs1 & Hg1 & Hle). specialize (IH m1 Hf Hs1). destruct (merge_sizes from m1) as [m2|e| |]; try done.
    + destruct IH as (Hs2 & Hg2 & Hle2). split_and!; [done|..].
      * intros k'. by rewrite Hg2, Hg1, Hget, (assoc_L plus_size), (comm_L plus_size (bt_get k' from)).
      * intros k' v w. rewrite Hget. case_decide as E; [subst k'; rewrite Hnone; cbn; intros [= <-]|].
        { destruct (bt_get k m); cbn in *; intros [= <-]; lia. }
        intros Hv Hw. apply (Hle2 k' v w Hv). rewrite Hg1, decide_False by done. done.
    + destruct IH as (k' & v & w & Hv & Hw & Hlt). exists k', v, w. assert (k ≠ k') as Hne by congruence.
      rewrite Hget, decide_False by done. rewrite Hg1, decide_False in Hw by done. done.
  - exists k, n. rewrite Hget, decide_True, Hnone by done. destruct (bt_get k m); cbn in *; eexists; (split; [done|]; split; [done|lia]).
Qed.

(** Adding an amount is exact, and panics only where 64 bits do not hold the sum. *)
Lemma add_chunk_spec c a : amount_ok c → amount_ok a →
  match add_chunk (Ok c) a with
  | Ok a' => amount_ok a' ∧ same_sum [a'] [c; a] ∧ (fits [a] → fits [a'])
  | Panic => ¬ fits [c; a]
  | _ => False
  end.
Proof.
  intros [Sc Nc Tc] [Sa Na Ta]. unfold add_chunk. cbn [mbind outcome_bind]. destruct c as [cs ct], a as [ms mt]. cbn [fst snd] in *.
  pose proof (merge_sizes_spec cs ms Sc Sa) as Hm. destruct (merge_sizes cs ms) as [m'|e| |]; cbn [mbind outcome_bind]; try done.
  - destruct Hm as (Sm & Hg & Hle). unfold add_. zcase; cbn.
    + split_and!.
      * split; cbn; [done| |lia]. intros k v. rewrite Hg. specialize (Nc k). specialize (Na k).
        destruct (bt_get k cs), (bt_get k ms); cbn; intros [= <-]; some_eqs; lia.
      * split; cbn; [|lia]. intros k. rewrite Hg. by destruct (bt_get k cs), (bt_get k ms).
      * intros [Hf _]. split; cbn; [|lia]. intros k v. rewrite Hg. specialize (Hf k). specialize (Hle k). cbn in Hf.
        destruct (bt_get k cs) as [x|]; cbn in *; [|apply Hf]. intros Hv. apply (Hle x v eq_refl). by destruct (bt_get k ms).
    + intros [_ Hf]. cbn in Hf. lia.
  - destruct Hm as (k & v & w & Hv & Hw & Hlt). intros [Hf _]. specialize (Hf k w). cbn in Hf.
    rewrite Hv in Hf. assert (plus_size (bt_get k ms) None = bt_get k ms) as Hn by by destruct (bt_get k ms). rewrite Hn in Hf. apply Hf in Hw. lia.
Qed.

(** ** The chunks *)

Lemma add_ok_inv m a b n : add_ (E:=anyhow) m a b = Ok n → n = (a + b)%Z ∧ (a + b ≤ m)%Z.
Proof. unfold add_. zcase; [|done]. by intros [= <-]. Qed.
Lemma sub_ok_inv a b n : sub_ (E:=anyhow) a b = Ok n → n = (a - b)%Z ∧ (b ≤ a)%Z.
Proof. unfold sub_. zcase; [|done]. by intros [= <-]. Qed.

Lemma entry_amount k n a m' : amount_ok a → (0 ≤ n)%Z → entry_add k n a.1 = Ok m' → amount_ok (m', (a.2 + n)%Z).
Proof.
  intros [Sa Na Ta] Hn He. pose proof (entry_add_spec k n a.1 Sa) as Hs. rewrite He in Hs. destruct Hs as (Hs & Hg & _).
  split; cbn; [done| |lia]. intros k' v. rewrite Hg. specialize (Na k'). case_decide; destruct (bt_get k' a.1); cbn; intros [= <-]; some_eqs; lia.
Qed.

Lemma entry_sizes_ok u topics es a v : amount_ok a → entry_sizes u topics es a.1 a.2 = Ok v → amount_ok v.
Proof.
  revert a. induction es as [|e es IH]; intros [m t] Ha; cbn [entry_sizes fst snd]; [by intros [= <-]|].
  destruct (_ <? _)%Z; [done|]. set (rs := match es with [] => _ | _ => _ end). clearbody rs. destruct (Z.leb_spec rs MESSAGE_OVERHEAD) as [Hl|Hl].
  { apply (IH (m, t) Ha). }
  rewrite bind_Ok. intros (n & [-> _]%sub_ok_inv & Hb). destruct (bt_get _ topics) as [topic|]; [|done].
  apply bind_Ok in Hb as (m' & Hm & Hb). apply bind_Ok in Hb as (t' & [-> _]%add_ok_inv & Hb).
  eapply (IH (m', _)); [|exact Hb]. eapply (entry_amount topic _ (m, t)); [done|lia|exact Hm].
Qed.

Lemma nil_amount : amount_ok ([], 0%Z).
Proof. by split. Qed.

Section chunks.
Context `{Crc, ZstdLib, Lz4Lib, HashOrder}.

Lemma chunk_amount mcap chunk topics c : compute_topic_sizes_for_chunk mcap chunk topics = Ok c → amount_ok c.
Proof.
  unfold compute_topic_sizes_for_chunk, parse_chunk_message_indexes. destruct (_ =? _)%Z; [intros [= <-]; apply nil_amount|].
  intros (? & _ & Hb)%bind_Ok. apply bind_Ok in Hb as (? & _ & Hb). destruct (_ <? _)%Z; [done|].
  apply bind_Ok in Hb as (? & _ & Hb). apply bind_Ok in Hb as ([pos es] & _ & Hb). destruct (negb _); [done|].
  destruct es; [injection Hb as <-; apply nil_amount|]. eapply (entry_sizes_ok _ _ _ ([], 0%Z)); [apply nil_amount|exact Hb].
Qed.

Context (mcap : bytes) (chunks : list ChunkIndex) (topics : list (Z * rstring)).
Abbreviation R chunk := (compute_topic_sizes_for_chunk mcap chunk topics).
Definition yields (chunk : ChunkIndex) (c : amount) : Prop := R chunk = Ok c.

Lemma add_chunk_inv chunk a : amount_ok a →
  match add_chunk (R chunk) a with
  | Ok a' => ∃ c, yields chunk c ∧ amount_ok a' ∧ same_sum [a'] [c; a] ∧ (fits [a] → fits [a'])
  | Err e => R chunk = Err e
  | Panic => ∀ c, yields chunk c → ¬ fits [c; a]
  | Fuel => R chunk = Fuel
  end.
Proof.
  intros Ha. unfold yields. pose proof (chunk_amount mcap chunk topics) as Hc.
  destruct (R chunk) as [c|e| |] eqn:E; try done. pose proof (add_chunk_spec c a (Hc c eq_refl) Ha) as Hs.
  destruct (add_chunk (Ok c) a) as [a'|e| |]; try done; [by exists c|]. by intros c' [= <-].
Qed.

Lemma sequential_step chunk l a : sequential_from mcap (chunk :: l) topics a.1 a.2 =
  (a' ← add_chunk (R chunk) a; sequential_from mcap l topics a'.1 a'.2).
Proof.
  cbn [sequential_from]. unfold add_chunk. destruct (R chunk) as [[cs ct]|e| |]; cbn [mbind outcome_bind fst snd]; try done.
  destruct (merge_sizes cs a.1); cbn [mbind outcome_bind]; try done. by destruct (add_ u64_max a.2 ct).
Qed.

(** A sequential run gives the sum of the chunks, if there is one. *)
Lemma yields_ok l C : Forall2 yields l C → Forall amount_ok C.
Proof. induction 1 as [|chunk c l C Hc _ IH]; constructor; [by eapply chunk_amount|done]. Qed.

(** A sequential run gives the sum of the chunks, if 64 bits hold it. *)
Lemma sequential_spec l a v : amount_ok a → fits [a] →
  sequential_from mcap l topics a.1 a.2 = Ok v ↔
  ∃ C, Forall2 yields l C ∧ amount_ok v ∧ same_sum [v] (C ++ [a]) ∧ fits (C ++ [a]).
Proof.
  revert a. induction l as [|chunk l IH]; intros a Ha Hf.
  { destruct a as [m t]. cbn [sequential_from fst snd]. split.
    - intros [= <-]. by exists [].
    - intros (C & HC & Hv & Hs & _). inversion HC; subst. f_equal. symmetry. by apply same_sum_single. }
  rewrite sequential_step. pose proof (add_chunk_inv chunk a Ha) as Hc. split.
  - intros (a' & E & Hq)%bind_Ok. rewrite E in Hc. destruct Hc as (c & Hc & Ha' & Hs & Hf').
    apply (IH a' Ha' (Hf' Hf)) in Hq as (C & HC & Hv & Hsv & Hfv).
    assert (same_sum (C ++ [a']) ((c :: C) ++ [a])) as Hsum.
    { rewrite Hs. apply same_sum_perm. change [c; a] with ([c] ++ [a]). by rewrite (assoc_L (++)), (comm (++) C [c]). }
    exists (c :: C). split_and!; [by constructor|done|by etrans|by eapply same_sum_fits].
  - intros (C & HC & Hv & Hsv & Hfv). inversion HC as [|? c ? C' Hc' HC']; subst.
    assert (fits [c; a]) as Hfc.
    { apply (fits_app_l [c; a] C'); [by eapply yields_ok|]. eapply same_sum_fits; [|exact Hfv]. apply same_sum_perm. cbn. by rewrite (comm (++) C' [a]). }
    unfold yields in *. destruct (add_chunk (R chunk) a) as [a'|e| |] eqn:E; cbn [mbind outcome_bind].
    + destruct Hc as (c2 & Hc2 & Ha' & Hs & Hf'). rewrite Hc' in Hc2. simplify_eq. apply (IH a' Ha' (Hf' Hf)). exists C'.
      assert (same_sum ((c2 :: C') ++ [a]) (C' ++ [a'])) as Hsum.
      { rewrite Hs. apply same_sum_perm. change [c2; a] with ([c2] ++ [a]). by rewrite (assoc_L (++)), (comm (++) C' [c2]). }
      split_and!; [done|done|by etrans|by eapply same_sum_fits].
    + congruence.
    + by destruct (Hc _ Hc').
    + congruence.
Qed.
End chunks.

(** ** The exact usage *)

Fixpoint size_sum (m : sizes) : Z := match m with [] => 0 | (_, n) :: m => n + size_sum m end.
Lemma size_sum_insert k v m : bt_sorted m = true → size_sum (bt_insert k v m) = (size_sum m - default 0 (bt_get k m) + v)%Z.
Proof.
  induction m as [|[k' v'] m IH]; [cbn; lia|]. intros [_ Hs]%bt_sorted_cons. cbn [bt_insert bt_get size_sum].
  destruct (kltb k k') eqn:E1; [cbn [size_sum]; cbn; lia|]. destruct (kltb k' k) eqn:E2; cbn [size_sum]; [rewrite IH by done; lia|cbn; lia].
Qed.
Lemma entry_add_sum k n m m' : bt_sorted m = true → entry_add k n m = Ok m' → bt_sorted m' = true ∧ size_sum m' = (size_sum m + n)%Z.
Proof.
  intros Hs. unfold entry_add. intros (v & [-> _]%add_ok_inv & [= <-])%bind_Ok. split; [by apply bt_insert_sorted|].
  rewrite size_sum_insert by done. lia.
Qed.

(** The bytes of the records of a kind. *)
Definition of_kind (k : rstring) (rs : list (Z * bytes)) : bytes := frames (List.filter (λ r, bool_decide (record_kind_name r.1 = k)) rs).
Lemma of_kind_snoc k rs r : zlen (of_kind k (rs ++ [r])) = (zlen (of_kind k rs) + if decide (record_kind_name r.1 = k) then zlen (frames [r]) else 0)%Z.
Proof.
  unfold of_kind. rewrite List.filter_app. cbn [List.filter].
  case_decide; [rewrite bool_decide_true by done|rewrite bool_decide_false by done]; by rewrite frames_app, zlen_app.
Qed.

(** What reading the messages keeps: the sizes of the records, and that the sizes of the
    topics add up. *)
Record topics_add_up (total : Z) (kinds : sizes) (s : exact_state) : Prop := {
  tu_total : total_size (ex_usage s) = total;
  tu_kinds : record_kind_size (ex_usage s) = kinds;
  tu_sorted : bt_sorted (topic_message_size (ex_usage s)) = true;
  tu_sum : size_sum (topic_message_size (ex_usage s)) = total_message_size (ex_usage s);
}.
Lemma add_topic_preserves t m c : preserves (topics_add_up t m) (add_topic c).
Proof. by intros s []. Qed.
Lemma process_message_preserves t m id n : preserves (topics_add_up t m) (process_message id n).
Proof.
  intros s [Ht Hk Hs Hsum]. unfold process_message, mbind, method_bind, get. cbn. destruct (bt_get id _) as [topic|]; [|done].
  unfold lift. destruct (add_ _ _ _) as [total|e| |] eqn:Ha; cbn; try done. apply add_ok_inv in Ha as [-> _].
  destruct (entry_add topic n _) as [m'|e| |] eqn:He; cbn; try done. apply entry_add_sum in He as [Hs' Hm']; [|done].
  split; cbn; try done. lia.
Qed.
#[local] Hint Resolve add_topic_preserves process_message_preserves : preserves.

Section exact.
Context `{Crc, ZstdLib, Lz4Lib, !ZstdLibOk, !Lz4LibOk}.

Lemma process_chunk_preserves t m fuel h d : preserves (topics_add_up t m) (process_chunk fuel h d).
Proof.
  apply preserves_bind; [apply preserves_lift|]. intros reader. apply preserves_for_each. intros r. unfold process_nested. destruct r; auto with preserves.
Qed.

(** The usage after the records [rs]. *)
Record accounted (rs : list (Z * bytes)) (s : exact_state) : Prop := {
  ac_total : total_size (ex_usage s) = (2 * zlen MAGIC + zlen (frames rs))%Z;
  ac_sorted : bt_sorted (record_kind_size (ex_usage s)) = true;
  ac_kinds k : default 0%Z (bt_get k (record_kind_size (ex_usage s))) = zlen (of_kind k rs);
  ac_sum : size_sum (record_kind_size (ex_usage s)) = zlen (frames rs);
  ac_topics : topics_add_up (total_size (ex_usage s)) (record_kind_size (ex_usage s)) s;
}.
Lemma process_record_accounts fuel rs op b s s' : accounted rs s → process_record fuel op b s = (Ok (), s') → accounted (rs ++ [(op, b)]) s'.
Proof.
  intros [Ht Hs Hk Hsum [_ _ Hts Htm]]. unfold process_record. cbv zeta. unfold mbind at 1, method_bind at 1, lift at 1.
  destruct (add_ usize_max RECORD_ENVELOPE_SIZE (zlen b)) as [n|e| |] eqn:Hn; cbn beta iota; try done.
  apply add_ok_inv in Hn as [-> _]. unfold mbind at 1, method_bind at 1, get at 1. unfold mbind at 1, method_bind at 1, lift at 1.
  destruct (add_ u64_max (total_size (ex_usage s)) _) as [total|e| |] eqn:Ha; cbn beta iota; try done. apply add_ok_inv in Ha as [-> _].
  unfold mbind at 1, method_bind at 1, lift at 1.
  pose proof (entry_add_spec (record_kind_name op) (RECORD_ENVELOPE_SIZE + zlen b) (record_kind_size (ex_usage s)) Hs) as He.
  destruct (entry_add _ _ _) as [kinds|e| |] eqn:Hadd; cbn beta iota; try done. destruct He as (Hs' & Hg & _).
  apply entry_add_sum in Hadd as [_ Hsum']; [|done].
  unfold mbind at 1, method_bind at 1, put_usage, modify. cbn beta iota.
  set (total := (total_size (ex_usage s) + _)%Z). set (s1 := mkExact _ _).
  match goal with |- ?m s1 = _ → _ => assert (preserves (topics_add_up total kinds) m) as Hkeep end.
  { apply preserves_bind; [apply preserves_lift|]. intros r. destruct r; auto with preserves. apply process_chunk_preserves. }
  specialize (Hkeep s1 ltac:(by split)). intros Hrun. rewrite Hrun in Hkeep. destruct Hkeep as [Ht1 Hk1 Hs1 Hsum1]. cbn in Ht1, Hk1, Hs1, Hsum1.
  assert (zlen (frames [(op, b)]) = RECORD_ENVELOPE_SIZE + zlen b)%Z as Hfr.
  { rewrite frames_one. unfold frame, RECORD_ENVELOPE_SIZE. zlia. }
  split; rewrite ?Ht1, ?Hk1; try done.
  - subst total. rewrite frames_app, zlen_app, Hfr. lia.
  - intros k. rewrite of_kind_snoc, Hg, Hfr, <-Hk. cbn [fst]. case_decide; destruct (bt_get k (record_kind_size (ex_usage s))); cbn; lia.
  - rewrite Hsum', Hsum, frames_app, zlen_app, Hfr. lia.
Qed.
End exact.

Section properties.
Context `{Crc, ZstdLib, Lz4Lib, !ZstdLibOk, !Lz4LibOk}.

(** C34: whatever the bytes of a file, an exact disk usage that is given accounts for all of
    them: the file is the frames of some records between magics, with perhaps a tail that
    the command does not see; the total is the size without that tail; every kind of
    record has the bytes of its frames, and with the magics they sum up to the total; and
    the sizes of the topics sum up to that of the messages. *)
Theorem exact_usage_accounts fuel mcap u : (zlen mcap ≤ usize_max)%Z → collect_usage_exact fuel mcap = Ok u →
  ∃ rs tail, mcap = MAGIC ++ frames rs ++ MAGIC ++ tail ∧
    total_size u = (zlen mcap - zlen tail)%Z ∧
    (∀ k, default 0%Z (bt_get k (record_kind_size u)) = zlen (of_kind k rs)) ∧
    (2 * zlen MAGIC + size_sum (record_kind_size u))%Z = total_size u ∧
    size_sum (topic_message_size u) = total_message_size u.
Proof.
  intros Hm. unfold collect_usage_exact, scan_top_level_records. set (s0 := mkExact _ _).
  destruct (scan _ mcap _ s0) as [o s] eqn:E. intros ([] & -> & [= <-])%bind_Ok.
  apply scan_Ok in E as (rs & Hrun & _ & tail & Hb & _); [|done|done].
  assert (accounted rs s) as [Ht _ Hk Hsum [_ _ _ Htm]].
  { eapply each_invariant; [exact Hrun|by split|].
    intros l1 [op b] l2 s1 s2 _ Hs1 Hs2. by eapply process_record_accounts. }
  exists rs, tail. split_and!; [done| |done|lia|done]. rewrite Ht, Hb. rewrite !zlen_app. lia.
Qed.
End properties.

Module DuTheoryExamples.
Import BitCrc CopyLib.

Definition records : list record :=
  [RHeader (mkHeader [] []); RChannel (mkChannelRecord 3 0 (lit "/t") (lit "json") []);
   RMessage (mkMessageHeader 3 0 0 0) (lit "hello"); RDataEnd (mkDataEnd 0); RFooter (mkFooter 0 0 0)].
Definition file : bytes := MAGIC ++ frames ((λ r, (record_opcode r, record_body r)) <$> records) ++ MAGIC ++ lit "tail".
Definition usage : Usage :=
  mkUsage (zlen file - 4) 5
    [(lit "channel", 31%Z); (lit "data end", 13%Z); (lit "footer", 29%Z); (lit "header", 17%Z); (lit "message", 36%Z)] [(lit "/t", 5%Z)].

Lemma exact_usage_accounts_witness : collect_usage_exact 10 file = Ok usage ∧
  ∃ rs tail, file = MAGIC ++ frames rs ++ MAGIC ++ tail ∧
    total_size usage = (zlen file - zlen tail)%Z ∧
    (∀ k, default 0%Z (bt_get k (record_kind_size usage)) = zlen (of_kind k rs)) ∧
    (2 * zlen MAGIC + size_sum (record_kind_size usage))%Z = total_size usage ∧
    size_sum (topic_message_size usage) = total_message_size usage.
Proof.
  assert (collect_usage_exact 10 file = Ok usage) as E by (vm_compute; reflexivity).
  split; [exact E|]. apply (exact_usage_accounts 10 file usage); [vm_compute; discriminate|exact E].
Defined.
End DuTheoryExamples.
