(* ===== verification/DuWorkers.v ===== *)
(** The worker threads of the approximate disk usage (du.rs).

    [move] is the step of one worker, as a relation on what the threads share and where
    the worker is.  Every schedule ends, and when it has, the result is that of the
    sequential run, or an error when the sequential run has one. *)

From S2P Require Import Prelude Utf8 BTree Errors Bin Records Crc Codec RwBuf Decompressor LinearReader Channels Read Summary SummaryReader ChunkWriter Writer LinearReaderSound Cli Common Du DuTheory.

Section workers.
Context `{Crc, ZstdLib, Lz4Lib, HashOrder}.
Context (mcap : bytes) (chunks : list ChunkIndex) (topics : list (Z * rstring)).
Abbreviation R chunk := (compute_topic_sizes_for_chunk mcap chunk topics).
Abbreviation yields := (DuTheory.yields mcap topics).

(** A step of a worker; the pools are given without the worker. *)
Inductive move (p : pool) : worker → Z → bool → option anyhow → list amount → worker → Prop :=
| sees_stop l : stop p = true → move p (Checking l) (next_index p) (stop p) (first_error p) (partials p) (Leaving l)
| goes_on l : move p (Checking l) (next_index p) (stop p) (first_error p) (partials p) (Claiming l)
| claims l : (next_index p < zlen chunks)%Z →
    move p (Claiming l) (as_u64 (next_index p + 1)) (stop p) (first_error p) (partials p) (Working (next_index p) l)
| runs_out l : (zlen chunks ≤ next_index p)%Z →
    move p (Claiming l) (as_u64 (next_index p + 1)) (stop p) (first_error p) (partials p) (Leaving l)
| adds i l chunk l' : chunks !! Z.to_nat i = Some chunk → add_chunk (R chunk) l = Ok l' →
    move p (Working i l) (next_index p) (stop p) (first_error p) (partials p) (Checking l')
| fails i l chunk e : chunks !! Z.to_nat i = Some chunk → add_chunk (R chunk) l = Err e →
    move p (Working i l) (next_index p) true (first_error p) (partials p) (Reporting e l)
| panics i l chunk : chunks !! Z.to_nat i = Some chunk → ¬ settles (add_chunk (R chunk) l) →
    move p (Working i l) (next_index p) (stop p) (first_error p) (partials p) Panicked
| reports e l : move p (Reporting e l) (next_index p) (stop p) (Some (default e (first_error p))) (partials p) (Leaving l)
| pushes l : move p (Leaving l) (next_index p) (stop p) (first_error p) (partials p ++ [l]) Finished
| keeps_none : move p (Leaving ([], 0%Z)) (next_index p) (stop p) (first_error p) (partials p) Finished.

Definition local_of (x : worker) : option amount :=
  match x with Checking l | Claiming l | Working _ l | Reporting _ l | Leaving l => Some l | Finished | Panicked => None end.
(** Everything the threads have summed up. *)
Definition holdings (p : pool) : list amount := partials p ++ omap local_of (workers p).

Lemma worker_step_move w stale p p' : worker_step mcap chunks topics w stale p = Some p' → Forall amount_ok (holdings p) →
  ∃ l1 x l2 x', workers p = l1 ++ x :: l2 ∧ workers p' = l1 ++ x' :: l2 ∧
    move p x (next_index p') (stop p') (first_error p') (partials p') x'.
Proof.
  unfold worker_step. destruct (workers p !! w) as [x|] eqn:Hw; [cbn [mbind option_bind]|done]. intros Hx Hh.
  assert (∀ n s e l x', p' = mkPool n s e l (<[w := x']> (workers p)) → move p x n s e l x' →
    ∃ l1 x l2 x', workers p = l1 ++ x :: l2 ∧ workers p' = l1 ++ x' :: l2 ∧
      move p x (next_index p') (stop p') (first_error p') (partials p') x') as Hgo.
  { intros n s e l x' -> Hm. exists (take w (workers p)), x, (drop (S w) (workers p)), x'. cbn. split_and!; [|..|done].
    - symmetry. by apply take_drop_middle.
    - rewrite insert_take_drop by by eapply lookup_lt_Some. done. }
  assert (∀ l, local_of x = Some l → amount_ok l) as Hl.
  { intros l Hxl. apply (proj1 (Forall_forall _ _) Hh). unfold holdings. apply elem_of_app. right. apply list_elem_of_omap.
    exists x. split; [by eapply list_elem_of_lookup_2|done]. }
  destruct x as [l|l|i l|e l|l| |]; try done.
  - destruct (stop p && negb stale) eqn:Hs; injection Hx as <-; eapply Hgo; try done; [|constructor].
    apply andb_true_iff in Hs as [Hs _]. by apply sees_stop.
  - destruct (Z.leb_spec (zlen chunks) (next_index p)); injection Hx as <-; (eapply Hgo; [done|]); by constructor.
  - destruct (chunks !! Z.to_nat i) as [chunk|] eqn:Hc; [|done]. cbn in Hx.
    destruct (add_chunk _ l) as [l'|e| |] eqn:Ha; injection Hx as <-; (eapply Hgo; [done|]).
    + by eapply adds.
    + by eapply fails.
    + eapply panics; [done|]. rewrite Ha. by intros [].
    + eapply panics; [done|]. rewrite Ha. by intros [].
  - injection Hx as <-. eapply Hgo; [done|constructor].
  - destruct l as [m t]. pose proof (Hl _ eq_refl) as [_ _ Ht]. cbn in Ht.
    destruct m as [|kv m]; cbn in Hx; [destruct (Z.ltb_spec 0 t)|]; injection Hx as <-; (eapply Hgo; [done|]); try by constructor.
    replace t with 0%Z by lia. constructor.
Qed.

(** ** What always holds *)

Definition ended (x : worker) : Z := match x with Leaving _ | Finished => 1 | _ => 0 end.
Fixpoint count_ended (l : list worker) : Z := match l with [] => 0 | x :: l => ended x + count_ended l end.
Lemma count_ended_app l1 l2 : count_ended (l1 ++ l2) = (count_ended l1 + count_ended l2)%Z.
Proof. induction l1 as [|x l1 IH]; cbn; [done|]. rewrite IH. lia. Qed.
Lemma count_ended_le l : (0 ≤ count_ended l ≤ zlen l)%Z.
Proof. induction l as [|x l IH]; [done|]. rewrite zlen_cons. cbn. destruct x; cbn; lia. Qed.

Definition worker_ok (x : worker) : Prop :=
  match x with
  | Working i _ => (0 ≤ i < zlen chunks)%Z
  | Reporting e _ => ∃ chunk, chunk ∈ chunks ∧ R chunk = Err e
  | _ => True
  end.

(** The counter has not wrapped round, and an error is that of a chunk. *)
Record pool_ok (k : nat) (p : pool) : Prop := {
  po_workers : length (workers p) = k;
  po_next : (0 ≤ next_index p ≤ zlen chunks + count_ended (workers p))%Z;
  po_each : Forall worker_ok (workers p);
  po_amounts : Forall amount_ok (holdings p);
  po_error e : first_error p = Some e → ∃ chunk, chunk ∈ chunks ∧ R chunk = Err e;
}.

Lemma pool_start_ok k : pool_ok k (pool_start k).
Proof.
  split; cbn; [by rewrite length_replicate|pose proof (count_ended_le (replicate k (Checking ([], 0%Z)))); zlen_facts; lia| | |done].
  - by apply Forall_replicate.
  - unfold holdings. cbn. apply Forall_forall. intros a (x & Hx & Ha)%list_elem_of_omap.
    apply elem_of_replicate_inv in Hx as ->. injection Ha as <-. apply nil_amount.
Qed.

Lemma holdings_split (ps : list amount) l1 x l2 : ps ++ omap local_of (l1 ++ x :: l2) ≡ₚ
  match local_of x with Some l => l :: ps ++ omap local_of (l1 ++ l2) | None => ps ++ omap local_of (l1 ++ l2) end.
Proof.
  rewrite !omap_app. cbn. destruct (local_of x) as [l|]; [|done].
  rewrite !(assoc_L (++)). symmetry. apply Permutation_middle.
Qed.

Context (k : nat) (Hroom : (zlen chunks + Z.of_nat k ≤ u64_max)%Z).

Definition with_local (x : worker) (l : list amount) : list amount := match local_of x with Some a => a :: l | None => l end.
Lemma holdings_with (ps : list amount) l1 x l2 : ps ++ omap local_of (l1 ++ x :: l2) ≡ₚ with_local x (ps ++ omap local_of (l1 ++ l2)).
Proof. apply holdings_split. Qed.

Lemma move_ok p x n s fe ps x' rest c : move p x n s fe ps x' → worker_ok x →
  (0 ≤ next_index p ≤ zlen chunks + (ended x + c))%Z → (0 ≤ c)%Z → (1 + c ≤ Z.of_nat k)%Z →
  Forall amount_ok (with_local x (partials p ++ rest)) →
  (∀ e, first_error p = Some e → ∃ chunk, chunk ∈ chunks ∧ R chunk = Err e) →
  worker_ok x' ∧ (0 ≤ n ≤ zlen chunks + (ended x' + c))%Z ∧ Forall amount_ok (with_local x' (ps ++ rest)) ∧
  (∀ e, fe = Some e → ∃ chunk, chunk ∈ chunks ∧ R chunk = Err e).
Proof.
  intros Hm Hx Hn Hc Hk Ham Herr.
  destruct Hm as [l Hs|l|l Hlt|l Hge|i l chunk l' Hch Hadd|i l chunk e Hch Hadd|i l chunk Hch Hadd|e l|l|]; cbn in *;
    unfold as_u64; rewrite ?Z.mod_small by (unfold u64_max in *; lia); try (split_and!; done || lia).
  - apply Forall_cons in Ham as [Hl Ham]. pose proof (add_chunk_inv mcap topics chunk l Hl) as Ha. rewrite Hadd in Ha.
    destruct Ha as (c' & _ & Hl' & _). split_and!; try done; lia || by constructor.
  - apply Forall_cons in Ham as [Hl Ham']. pose proof (add_chunk_inv mcap topics chunk l Hl) as Ha. rewrite Hadd in Ha.
    split_and!; [|lia|lia|by constructor|done]. exists chunk. split; [by eapply list_elem_of_lookup_2|done].
  - apply Forall_cons in Ham as [_ Ham]. split_and!; done || lia.
  - split_and!; [done|lia|lia|done|]. intros e' He'. destruct (first_error p) as [e0|] eqn:E0; cbn in He'; simplify_eq; [by apply Herr|done].
  - split_and!; [done|lia|lia| |done]. apply Forall_cons in Ham as [Hl Ham]. rewrite <-(assoc_L (++)). apply Forall_app in Ham as [? ?]. apply Forall_app. split; [done|]. by constructor.
  - apply Forall_cons in Ham as [_ Ham]. split_and!; done || lia.
Qed.

Lemma pool_step_ok w stale p p' : worker_step mcap chunks topics w stale p = Some p' → pool_ok k p → pool_ok k p'.
Proof.
  intros Hst [Hlen Hnext Heach Ham Herr]. destruct (worker_step_move _ _ _ _ Hst Ham) as (l1 & x & l2 & x' & Hw & Hw' & Hm).
  rewrite Hw in *. apply Forall_app in Heach as [He1 [Hx He2]%Forall_cons]. rewrite count_ended_app in Hnext. cbn [count_ended] in Hnext.
  unfold holdings in Ham. rewrite Hw, holdings_with in Ham.
  pose proof (count_ended_le l1). pose proof (count_ended_le l2).
  assert (zlen l1 + (1 + zlen l2) = Z.of_nat k)%Z as Hk by (rewrite <-Hlen, length_app; unfold zlen; cbn; lia).
  destruct (move_ok _ _ _ _ _ _ _ _ (count_ended l1 + count_ended l2) Hm Hx ltac:(lia) ltac:(lia) ltac:(lia) Ham Herr) as (? & ? & Hh & ?).
  split; rewrite ?Hw', ?count_ended_app; cbn [count_ended]; try done.
  - rewrite <-Hlen, !length_app. done.
  - lia.
  - apply Forall_app. split; [done|]. by constructor.
  - unfold holdings. by rewrite Hw', holdings_with.
Qed.

(** ** Every schedule ends *)

Definition pool_step (p p' : pool) : Prop := ∃ w stale, worker_step mcap chunks topics w stale p = Some p'.

(** The steps a worker may still take, and the chunks still to be claimed. *)
Definition steps_left (x : worker) : nat :=
  match x with Checking _ => 4 | Claiming _ => 3 | Working _ _ => 5 | Reporting _ _ => 2 | Leaving _ => 1 | Finished | Panicked => 0 end.
Definition pool_work (p : pool) : nat := sum_list_with steps_left (workers p) + 3 * Z.to_nat (zlen chunks - next_index p).

Lemma pool_step_work p p' : pool_step p p' → pool_ok k p → pool_ok k p' ∧ pool_work p' < pool_work p.
Proof.
  intros (w & stale & Hst) Hok. split; [by eapply pool_step_ok|]. pose proof Hok as [Hlen Hnext _ Ham _].
  destruct (worker_step_move _ _ _ _ Hst Ham) as (l1 & x & l2 & x' & Hw & Hw' & Hm).
  unfold pool_work. rewrite Hw, Hw', !sum_list_with_app. cbn [sum_list_with].
  rewrite Hw in Hlen, Hnext. rewrite length_app in Hlen. rewrite count_ended_app in Hnext. cbn [length count_ended] in *.
  pose proof (count_ended_le l1). pose proof (count_ended_le l2). unfold zlen in *.
  assert (next_index p + 1 ≤ u64_max ∨ ended x = 1)%Z as Hmax by (destruct x; cbn [ended] in *; auto; left; lia).
  revert Hm Hmax. generalize (next_index p'), (stop p'), (first_error p'), (partials p'). intros n sb fe ps Hm Hmax.
  destruct Hm; cbn [steps_left ended] in *; unfold as_u64; rewrite ?Z.mod_small by (unfold u64_max in *; lia); unfold zlen in *; lia.
Qed.

Lemma pool_progress p : pool_ok k p → pool_done p = false → ∃ p', pool_step p p'.
Proof.
  intros [_ _ Heach _ _] Hd. unfold pool_done in Hd.
  assert (∃ w x, workers p !! w = Some x ∧ (match x with Finished | Panicked => True | _ => False end → False)) as (w & x & Hw & Hx).
  { clear Heach. induction (workers p) as [|x l IH]; [done|]. cbn [forallb] in Hd.
    destruct x; try (by exists 0; eexists; split; [done|intros []]); destruct (IH Hd) as (w & y & Hw & Hy); by exists (S w), y. }
  exists (default p (worker_step mcap chunks topics w false p)). exists w, false.
  assert (is_Some (worker_step mcap chunks topics w false p)) as [q ->]; [|done]. unfold worker_step. rewrite Hw. cbn [mbind option_bind].
  pose proof (Forall_lookup_1 _ _ _ _ Heach Hw) as Hok. destruct x as [l|l|i l|e l|[m t]| |]; try (by destruct (Hx I)); try (by eexists).
  cbn in Hok. destruct (lookup_lt_is_Some_2 chunks (Z.to_nat i) ltac:(unfold zlen in Hok; lia)) as [chunk ->]. cbn.
  destruct (add_chunk _ l); by eexists.
Qed.

Lemma pool_steps_ok n p : nsteps pool_step n (pool_start k) p → pool_ok k p ∧ n + pool_work p ≤ pool_work (pool_start k).
Proof.
  revert p. induction n as [|n IH]; intros p Hn.
  - inversion Hn; subst. split; [apply pool_start_ok|lia].
  - apply nsteps_inv_r in Hn as (q & Hn & Hs). destruct (IH q Hn) as [Hq Hw]. destruct (pool_step_work q p Hs Hq) as [? ?]. split; [done|lia].
Qed.
Lemma pool_start_work : pool_work (pool_start k) = 4 * k + 3 * length chunks.
Proof.
  unfold pool_work, pool_start. cbn [workers next_index]. f_equal; [|unfold zlen; lia].
  clear. induction k as [|n IH]; [done|]. cbn [replicate sum_list_with steps_left]. lia.
Qed.

(** ** What comes out *)

Lemma merge_partials_spec ps a v : Forall amount_ok ps → amount_ok a → fits [a] →
  merge_partials ps a = Ok v ↔ amount_ok v ∧ same_sum [v] (ps ++ [a]) ∧ fits (ps ++ [a]).
Proof.
  intros Hps. revert a. induction Hps as [|c ps Hc Hps IH]; intros a Ha Hf; cbn [merge_partials].
  - split; [by intros [= <-]|]. intros (Hv & Hs & _). f_equal. symmetry. by apply same_sum_single.
  - pose proof (add_chunk_spec c a Hc Ha) as Hadd.
    assert (∀ a', same_sum [a'] [c; a] → same_sum (ps ++ [a']) ((c :: ps) ++ [a])) as Hsum.
    { intros a' ->. apply same_sum_perm. change [c; a] with ([c] ++ [a]). by rewrite (assoc_L (++)), (comm (++) ps [c]). }
    destruct (add_chunk (Ok c) a) as [a'|e| |]; cbn [mbind outcome_bind]; try done.
    + destruct Hadd as (Ha' & Hs & Hf'). rewrite (IH a' Ha' (Hf' Hf)). specialize (Hsum a' Hs).
      split; intros (? & ? & ?); (split; [done|]); (split; [by etrans; [|done]|]); eapply same_sum_fits; done.
    + split; [done|]. intros (_ & _ & Hfit). destruct Hadd. apply (fits_app_l [c; a] ps); [done|]. eapply same_sum_fits; [|exact Hfit].
      apply same_sum_perm. cbn. by rewrite (comm (++) ps [a]).
Qed.

Definition working_on (x : worker) : option nat := match x with Working i _ => Some (Z.to_nat i) | _ => None end.
Definition chunk_yields (i : nat) (c : amount) : Prop := ∃ chunk, chunks !! i = Some chunk ∧ yields chunk c.
Definition bad_worker (x : worker) : Prop := match x with Reporting _ _ | Panicked => True | _ => False end.

(** A run in which no chunk has failed: the amounts [C] of the chunks [D] are summed up. *)
Record clean (p : pool) (D : list nat) (C : list amount) : Prop := {
  cl_stop : stop p = false;
  cl_error : first_error p = None;
  cl_workers : Forall (λ x, ¬ bad_worker x) (workers p);
  cl_out : Exists (λ x, ended x = 1%Z) (workers p) → (zlen chunks ≤ next_index p)%Z;
  cl_yields : Forall2 chunk_yields D C;
  cl_claimed : D ++ omap working_on (workers p) ≡ₚ seq 0 (Z.to_nat (Z.min (next_index p) (zlen chunks)));
  cl_sum : same_sum (holdings p) C;
}.
(** One in which a chunk has. *)
Definition failed (p : pool) : Prop := first_error p ≠ None ∨ Exists bad_worker (workers p).

Lemma failed_result p v : pool_done p = true → failed p → pool_result p ≠ Ok v.
Proof.
  intros Hd Hf. unfold pool_result. destruct (existsb _ _) eqn:Hex; [done|]. destruct Hf as [Hf|Hf]; [by destruct (first_error p)|].
  exfalso. unfold pool_done in Hd. induction Hf as [x l Hx|x l _ IH]; cbn in Hex, Hd; destruct x; try done; by apply IH.
Qed.

Lemma failed_step p p' : pool_step p p' → pool_ok k p → failed p → failed p'.
Proof.
  intros (w & stale & Hst) [_ _ _ Ham _]. destruct (worker_step_move _ _ _ _ Hst Ham) as (l1 & x & l2 & x' & Hw & Hw' & Hm).
  unfold failed. rewrite Hw, Hw', !Exists_app, !Exists_cons.
  revert Hm. generalize (next_index p'), (stop p'), (first_error p'), (partials p'). intros n sb fe ps Hm.
  destruct Hm; cbn; intros [?|[?|[?|?]]]; auto.
Qed.

(** The indexes of all chunks have all amounts. *)
Lemma all_yields D C : D ≡ₚ seq 0 (length chunks) → Forall2 chunk_yields D C → ∃ C', C ≡ₚ C' ∧ Forall2 yields chunks C'.
Proof.
  intros Hp Hy. destruct (Permutation_Forall2 Hp Hy) as (C' & HC & Hy'). exists C'. split; [done|].
  apply Forall2_same_length_lookup. pose proof (Forall2_length _ _ _ Hy') as Hl. rewrite length_seq in Hl. split; [done|].
  intros i chunk c Hi Hc. destruct (Forall2_lookup_r _ _ _ _ _ Hy' Hc) as (j & Hj & chunk' & Hch & Hyc).
  apply lookup_seq in Hj as [-> _]. cbn in Hch. by simplify_eq.
Qed.
Lemma yields_indexes C : Forall2 yields chunks C → Forall2 chunk_yields (seq 0 (length chunks)) C.
Proof.
  intros Hy. apply Forall2_same_length_lookup. rewrite length_seq. split; [by eapply Forall2_length|].
  intros i j c [-> _]%lookup_seq Hc. destruct (Forall2_lookup_r _ _ _ _ _ Hy Hc) as (chunk & Hch & Hyc). by exists chunk.
Qed.
Lemma yields_det C1 C2 : Forall2 yields chunks C1 → Forall2 yields chunks C2 → C1 = C2.
Proof.
  clear Hroom. intros H1'. revert C2. induction H1' as [|chunk c l C1 Hc _ IH]; intros C2 H2'; inversion H2' as [|? c2 ? C2' Hc2]; subst; [done|].
  unfold DuTheory.yields in *. f_equal; [congruence|by apply IH].
Qed.

(** With a sum that fits, no chunk fails. *)
Definition all_fit (C0 : list amount) : Prop := Forall2 yields chunks C0 ∧ fits C0.
Lemma all_fit_some C0 i D C others c : all_fit C0 → i :: D ++ others ≡ₚ seq 0 (length chunks) → Forall2 chunk_yields D C → chunk_yields i c → fits (c :: C).
Proof.
  intros [Hy Hf] Hp HD Hi.
  assert (∃ E, Forall2 chunk_yields others E) as [E HE].
  { apply yields_indexes in Hy. assert (∀ j, j ∈ others → ∃ c, chunk_yields j c) as Hj.
    { intros j Hj. assert (j ∈ seq 0 (length chunks)) as Hin by (rewrite <-Hp; right; apply elem_of_app; by right).
      apply list_elem_of_lookup_1 in Hin as [n Hn]. destruct (Forall2_lookup_l _ _ _ _ _ Hy Hn) as (c' & _ & ?). by exists c'. }
    clear -Hj. induction others as [|j others IH]; [by exists []|]. destruct (Hj j ltac:(left)) as [c Hc].
    destruct IH as [E HE]; [intros j' ?; apply Hj; by right|]. exists (c :: E). by constructor. }
  destruct (all_yields (i :: D ++ others) (c :: C ++ E) Hp) as (C' & HC & HC'); [constructor; [done|by apply Forall2_app]|].
  rewrite (yields_det C' C0 HC' Hy) in HC. apply (fits_app_l (c :: C) E).
  - clear -HE. induction HE as [|j c' others E (chunk & _ & Hc) _ IH]; constructor; [by eapply chunk_amount|done].
  - cbn. eapply same_sum_fits; [|exact Hf]. apply same_sum_perm. by symmetry.
Qed.

Lemma omap_split {A B} (f : A → option B) l1 x l2 : omap f (l1 ++ x :: l2) ≡ₚ match f x with Some a => a :: omap f (l1 ++ l2) | None => omap f (l1 ++ l2) end.
Proof. rewrite !omap_app. cbn. destruct (f x); [|done]. symmetry. apply Permutation_middle. Qed.

Lemma all_fit_yields C0 chunk : all_fit C0 → chunk ∈ chunks → ∃ c, yields chunk c.
Proof.
  intros [Hy _] [i Hi]%list_elem_of_lookup_1. destruct (Forall2_lookup_l _ _ _ _ _ Hy Hi) as (c & _ & ?). by exists c.
Qed.

(** A chunk that cannot be added shows that the amounts do not all fit. *)
Lemma panic_no_fit p D C l1 i l l2 chunk C0 : clean p D C → workers p = l1 ++ Working i l :: l2 → (0 ≤ next_index p)%Z → amount_ok l →
  Forall amount_ok (partials p ++ omap local_of (l1 ++ l2)) →
  chunks !! Z.to_nat i = Some chunk → ¬ settles (add_chunk (R chunk) l) → all_fit C0 → False.
Proof.
  intros [_ _ _ _ Hy Hcl Hsum] Hw Hn0 Hl Hrest Hch Hset Hfit.
  destruct (all_fit_yields C0 chunk Hfit ltac:(by eapply list_elem_of_lookup_2)) as [c Hc].
  pose proof (add_chunk_inv mcap topics chunk l Hl) as Hadd. unfold DuTheory.yields in *.
  destruct (add_chunk (R chunk) l) as [l'|e| |]; try (by apply Hset); [|congruence].
  apply (Hadd c Hc). rewrite Hw, omap_split in Hcl. cbn [working_on] in Hcl.
  set (m := Z.to_nat (Z.min (next_index p) (zlen chunks))) in *.
  assert (seq 0 (length chunks) = seq 0 m ++ seq m (length chunks - m)) as Hseq.
  { rewrite <-seq_app. f_equal. subst m. unfold zlen. lia. }
  assert (fits (c :: C)) as Hf.
  { apply (all_fit_some C0 (Z.to_nat i) D C (omap working_on (l1 ++ l2) ++ seq m (length chunks - m)) c Hfit); [|done|by exists chunk].
    rewrite Hseq, <-Hcl, <-(assoc_L (++)). cbn. by rewrite Permutation_middle. }
  unfold holdings in Hsum. rewrite Hw, holdings_split in Hsum. cbn [local_of] in Hsum.
  apply (fits_app_l [c; l] (partials p ++ omap local_of (l1 ++ l2))); [done|].
  eapply same_sum_fits; [|exact Hf]. change (same_sum ([c] ++ C) ([c] ++ (l :: partials p ++ omap local_of (l1 ++ l2)))). by rewrite Hsum.
Qed.

Lemma clean_step p p' D C : pool_step p p' → pool_ok k p → clean p D C →
  (∃ D' C', clean p' D' C') ∨ (failed p' ∧ ∀ C0, ¬ all_fit C0).
Proof.
  intros (w & stale & Hst) [Hlen Hnext _ Ham _] Hcl. destruct (worker_step_move _ _ _ _ Hst Ham) as (l1 & x & l2 & x' & Hw & Hw' & Hm).
  pose proof Hcl as [Hs He Hwk Hout Hy Hcld Hsum]. unfold holdings in Ham, Hsum. rewrite Hw in *.
  rewrite holdings_split in Ham, Hsum. rewrite omap_split in Hcld. rewrite Exists_app, Exists_cons in Hout.
  apply Forall_app in Hwk as [Hk1 [Hkx Hk2]%Forall_cons]. rewrite length_app in Hlen. rewrite count_ended_app in Hnext. cbn [length count_ended] in *.
  pose proof (count_ended_le l1). pose proof (count_ended_le l2). unfold zlen in *.
  assert (next_index p + 1 ≤ u64_max ∨ ended x = 1)%Z as Hmax by (destruct x; cbn [ended] in *; auto; left; lia).
  destruct p' as [n sb fe ps ws]. cbn in Hw', Hm. subst ws.
  assert (∀ D' C', sb = false → fe = None → ¬ bad_worker x' → (next_index p ≤ n)%Z →
    (ended x' = 1 → ended x = 1 ∨ Z.of_nat (length chunks) ≤ n)%Z → Forall2 chunk_yields D' C' →
    D' ++ match working_on x' with Some a => a :: omap working_on (l1 ++ l2) | None => omap working_on (l1 ++ l2) end ≡ₚ seq 0 (Z.to_nat (Z.min n (Z.of_nat (length chunks)))) →
    same_sum (match local_of x' with Some a => a :: ps ++ omap local_of (l1 ++ l2) | None => ps ++ omap local_of (l1 ++ l2) end) C' →
    (∃ D' C', clean (mkPool n sb fe ps (l1 ++ x' :: l2)) D' C') ∨ (failed (mkPool n sb fe ps (l1 ++ x' :: l2)) ∧ ∀ C0, ¬ all_fit C0)) as Hclean.
  { intros D' C' -> -> Hb Hle Hend HD Hp HC. left. exists D', C'. split; cbn; try done.
    - apply Forall_app. split; [done|]. by constructor.
    - rewrite Exists_app, Exists_cons. unfold zlen. intros [?|[Hx|?]]; [etrans; [apply Hout; auto|done]| |etrans; [apply Hout; auto|done]].
      destruct (Hend Hx) as [?|?]; [|done]. etrans; [apply Hout; auto|done].
    - by rewrite omap_split.
    - unfold holdings. cbn [partials workers]. by rewrite holdings_split. }
  destruct Hm as [l Hsp|l|l Hlt|l Hge|i l chunk l' Hch Hadd|i l chunk e Hch Hadd|i l chunk Hch Hadd|e l|l|]; cbn [ended bad_worker working_on local_of] in *;
    unfold as_u64 in *; rewrite ?Z.mod_small in * by (unfold u64_max in *; lia); unfold zlen in *.
  - congruence.
  - apply (Hclean D C); done || lia.
  - apply (Hclean D C); try done; try lia. rewrite Z.min_l in Hcld |- * by lia.
    replace (Z.to_nat (next_index p + 1)) with (S (Z.to_nat (next_index p))) by lia. rewrite seq_S, <-Hcld. cbn.
    rewrite <-Permutation_middle. by rewrite <-Permutation_cons_append.
  - apply (Hclean D C); try done; try lia. rewrite Z.min_r in Hcld |- * by lia. done.
  - apply Forall_cons in Ham as [Hl Ham]. pose proof (add_chunk_inv mcap topics chunk l Hl) as Ha. rewrite Hadd in Ha. destruct Ha as (c & Hc & _ & Hcs & _).
    apply (Hclean (Z.to_nat i :: D) (c :: C)); try done; try lia; [constructor; [by exists chunk|done]|by rewrite <-Hcld, <-Permutation_middle|].
    change (same_sum ([l'] ++ (partials p ++ omap local_of (l1 ++ l2))) ([c] ++ C)). rewrite <-Hsum, Hcs. done.
  - apply Forall_cons in Ham as [Hl Ham]. pose proof (add_chunk_inv mcap topics chunk l Hl) as Ha. rewrite Hadd in Ha.
    right. split; [right; cbn [workers]; rewrite Exists_app, Exists_cons; by right; left|]. intros C0 HC0.
    destruct (all_fit_yields C0 chunk HC0 ltac:(by eapply list_elem_of_lookup_2)) as [c Hc]. unfold DuTheory.yields in Hc. congruence.
  - apply Forall_cons in Ham as [Hl Ham]. right. split; [right; cbn [workers]; rewrite Exists_app, Exists_cons; by right; left|]. intros C0 HC0.
    eapply (panic_no_fit p D C l1 i l l2 chunk C0); done || lia.
  - destruct Hkx. done.
  - apply (Hclean D C); try done; try lia. rewrite <-(assoc_L (++)). cbn. rewrite <-Permutation_middle. done.
  - apply (Hclean D C); try done; try lia.
Qed.

Lemma pool_start_clean : clean (pool_start k) [] [].
Proof.
  assert (∀ n, same_sum (omap local_of (replicate n (Checking ([], 0%Z)))) [] ∧ omap working_on (replicate n (Checking ([], 0%Z))) = []) as Hk.
  { intros n. split; (induction n as [|n IH]; [done|]); cbn; [|done]. destruct IH as [IH1 IH2]. split; [intros k0; apply IH1|]. cbn in *. lia. }
  split; cbn [stop first_error next_index workers pool_start]; try done.
  - apply Forall_replicate. by intros [].
  - intros (x & Hx & Hend)%Exists_exists. by apply elem_of_replicate_inv in Hx as ->.
  - rewrite (proj2 (Hk k)). zlen_facts. by rewrite Z.min_l by lia.
  - apply Hk.
Qed.

Definition reach : pool → Prop := rtc pool_step (pool_start k).
Lemma reach_inv p : reach p → pool_ok k p ∧ ((∃ D C, clean p D C) ∨ (failed p ∧ ∀ C0, ¬ all_fit C0)).
Proof.
  intros Hr. unfold reach in Hr. pattern p. revert p Hr. apply rtc_ind_r; [|intros p p' Hr Hs [Hok IH]].
  - split; [apply pool_start_ok|]. left. exists [], []. apply pool_start_clean.
  - split; [by apply (pool_step_work p p')|]. destruct IH as [(D & C & Hc)|[Hf Hn]].
    + by apply (clean_step p p' D C).
    + right. split; [by eapply failed_step|done].
Qed.

Lemma sequential_all_fit v : compute_topic_sizes_from_index_sequential mcap chunks topics = Ok v ↔
  ∃ C, all_fit C ∧ amount_ok v ∧ same_sum [v] C.
Proof.
  assert (∀ C, same_sum (C ++ [([], 0%Z)]) C) as Hnil.
  { intros C. rewrite <-(app_nil_r C) at 2. apply same_sum_app; [done|]. by split. }
  unfold compute_topic_sizes_from_index_sequential. rewrite (sequential_spec mcap topics chunks ([], 0%Z)) by (apply nil_amount || by split).
  split; intros (C & Hx); exists C; unfold all_fit.
  - destruct Hx as (Hy & Hv & Hs & Hf). split_and!; [done|eapply same_sum_fits; [apply Hnil|done]|done|rewrite Hs; apply Hnil].
  - destruct Hx as ((Hy & Hf) & Hv & Hs). split_and!; [done|done|by rewrite Hnil|eapply same_sum_fits; [symmetry; apply Hnil|done]].
Qed.

(** A clean run that is over has summed up all chunks. *)
Lemma clean_done p D C : 0 < k → pool_ok k p → clean p D C → pool_done p = true →
  existsb (λ w, match w with Panicked => true | _ => false end) (workers p) = false ∧
  holdings p = partials p ∧ ∃ C', C ≡ₚ C' ∧ Forall2 yields chunks C'.
Proof.
  intros Hk [Hlen [Hn _] _ _ _] [_ _ Hwk Hout Hy Hcl _] Hd.
  assert (Forall (λ x, x = Finished) (workers p)) as Hfin.
  { clear -Hwk Hd. unfold pool_done in Hd. induction Hwk as [|x l Hx _ IH]; constructor; cbn in Hd; destruct x; try done; try (by destruct Hx); by apply IH. }
  assert (existsb (λ w, match w with Panicked => true | _ => false end) (workers p) = false ∧ omap working_on (workers p) = [] ∧ omap local_of (workers p) = []) as (H1' & H2' & H3').
  { clear -Hfin. induction Hfin as [|x l -> _ IH]; done. }
  split; [done|]. split; [unfold holdings; by rewrite H3', app_nil_r|].
  assert (zlen chunks ≤ next_index p)%Z as Hge.
  { apply Hout. destruct (workers p) as [|x l]; [cbn in Hlen; lia|]. apply Forall_cons in Hfin as [-> _]. by left. }
  rewrite H2', app_nil_r, Z.min_r in Hcl by done. unfold zlen in Hcl. rewrite Nat2Z.id in Hcl. by apply (all_yields D C).
Qed.

Lemma reach_agrees p v : 0 < k → reach p → pool_done p = true →
  pool_result p = Ok v ↔ compute_topic_sizes_from_index_sequential mcap chunks topics = Ok v.
Proof.
  intros Hk Hr Hd. destruct (reach_inv p Hr) as [Hok [(D & C & Hc)|[Hf Hn]]].
  - destruct (clean_done p D C Hk Hok Hc Hd) as (Hex & Hh & C' & HC & Hy). rewrite sequential_all_fit.
    unfold pool_result. rewrite Hex, (cl_error _ _ _ Hc). pose proof (po_amounts _ _ Hok) as Ham. rewrite Hh in Ham.
    rewrite (merge_partials_spec _ ([], 0%Z)) by (done || apply nil_amount || by split).
    assert (same_sum (partials p ++ [([], 0%Z)]) C') as Hs.
    { rewrite <-HC, <-(cl_sum _ _ _ Hc), Hh. rewrite <-(app_nil_r (partials p)) at 2. apply same_sum_app; [done|]. by split. }
    split.
    + intros (Hv & Hsv & Hfv). exists C'. split; [split; [done|by eapply same_sum_fits]|]. split; [done|]. by rewrite Hsv.
    + intros (C2 & [Hy2 Hf2] & Hv & Hsv). assert (C2 = C') as -> by by eapply yields_det. split_and!; [done|by rewrite Hs|].
      by eapply same_sum_fits.
  - split; [by intros Hx; destruct (failed_result p v Hd Hf)|]. intros (C & HC & _)%sequential_all_fit. by destruct (Hn C).
Qed.

Lemma run_pool_reach schedule p : reach p → reach (run_pool mcap chunks topics schedule p).
Proof.
  revert p. induction schedule as [|[w stale] schedule IH]; intros p Hr; [done|]. cbn [run_pool]. apply IH.
  destruct (worker_step mcap chunks topics w stale p) as [p'|] eqn:E; [|done]. cbn. eapply rtc_r; [exact Hr|]. by exists w, stale.
Qed.
End workers.

Section properties.
Context `{Crc, ZstdLib, Lz4Lib, HashOrder}.
Context (mcap : bytes) (chunks : list ChunkIndex) (topics : list (Z * rstring)) (k : nat).

(** C35: the worker threads refine the sequential loop. However [k] threads are scheduled,
    and even if their loads of [stop] miss its store, once they are all done the result
    is [Ok] exactly when the sequential loop gives that value; an error is that of a chunk. *)
Theorem workers_agree schedule : let p := run_pool mcap chunks topics schedule (pool_start k) in
  (zlen chunks + Z.of_nat k ≤ u64_max)%Z → 0 < k → pool_done p = true →
  (∀ v, pool_result p = Ok v ↔ compute_topic_sizes_from_index_sequential mcap chunks topics = Ok v) ∧
  (∀ e, pool_result p = Err e → ∃ chunk, chunk ∈ chunks ∧ compute_topic_sizes_for_chunk mcap chunk topics = Err e).
Proof.
  intros p Hroom Hk Hd. assert (reach mcap chunks topics k p) as Hr by by apply run_pool_reach, rtc_refl.
  split; [intros v; by eapply reach_agrees|]. intros e. destruct (reach_inv mcap chunks topics k Hroom p Hr) as [[_ _ _ Ham Herr] _].
  unfold pool_result. destruct (existsb _ _); [done|]. destruct (first_error p) as [e'|].
  - intros [= <-]. by apply Herr.
  - intros Hm. exfalso. unfold holdings in Ham. apply Forall_app in Ham as [Ham _]. revert Hm. generalize nil_amount. generalize (([], 0%Z) : amount).
    clear -Ham. induction Ham as [|c ps Hc _ IH]; intros a Ha; [done|]. cbn [merge_partials]. pose proof (add_chunk_spec c a Hc Ha) as Hadd.
    destruct (add_chunk (Ok c) a); cbn [mbind outcome_bind]; try done. apply IH. by apply Hadd.
Qed.

(** C36: no schedule runs for ever and none gets stuck. After any number of steps that
    number is at most four for a thread and three for a chunk, and either all threads
    have ended or one can take a step. *)
Theorem workers_end n p : (zlen chunks + Z.of_nat k ≤ u64_max)%Z → nsteps (pool_step mcap chunks topics) n (pool_start k) p →
  n ≤ 4 * k + 3 * length chunks ∧ (pool_done p = true ∨ ∃ p', pool_step mcap chunks topics p p').
Proof.
  intros Hroom Hn. destruct (pool_steps_ok mcap chunks topics k Hroom n p Hn) as [Hok Hw]. rewrite pool_start_work in Hw. split; [lia|].
  destruct (pool_done p) eqn:Hd; [by left|right]. by eapply pool_progress.
Qed.
End properties.

(** ** Examples *)

Module DuWorkersExamples.
Import BitCrc CopyLib.
#[local] Instance map_order : HashOrder := λ A m, map_to_list m.

(** Two chunks with a message each, as their message indexes tell. *)
Definition index_of (offset : Z) : bytes :=
  frame op.MESSAGE_INDEX (c_enc MessageIndex_codec (mkMessageIndex 1 [mkMessageIndexEntry 0 offset])).
Definition file : bytes := index_of 0 ++ index_of 5.
Definition chunk_at (start : Z) : ChunkIndex := mkChunkIndex 0 0 start 0 [] (zlen (index_of 0)) [] 0 50.
Definition chunks : list ChunkIndex := [chunk_at 0; chunk_at (zlen (index_of 0))].
Definition topics : list (Z * rstring) := [(1%Z, lit "/a")].
Definition schedule : list (nat * bool) := concat (replicate 12 [(0, false); (1, true)]).

Example workers_finish : pool_done (run_pool file chunks topics schedule (pool_start 2)) = true.
Proof. vm_compute. reflexivity. Qed.

Lemma workers_agree_witness :
  (∀ v, pool_result (run_pool file chunks topics schedule (pool_start 2)) = Ok v ↔
     compute_topic_sizes_from_index_sequential file chunks topics = Ok v) ∧
  (∀ e, pool_result (run_pool file chunks topics schedule (pool_start 2)) = Err e →
     ∃ chunk, chunk ∈ chunks ∧ compute_topic_sizes_for_chunk file chunk topics = Err e).
Proof. apply (workers_agree file chunks topics 2 schedule); [vm_compute; discriminate|lia|vm_compute; reflexivity]. Defined.

Example workers_sum : pool_result (run_pool file chunks topics schedule (pool_start 2)) = Ok ([(lit "/a", 33%Z)], 33%Z).
Proof. vm_compute. reflexivity. Qed.

Lemma workers_end_witness : 1 ≤ 4 * 2 + 3 * length chunks ∧
  (pool_done (default (pool_start 2) (worker_step file chunks topics 0 false (pool_start 2))) = true ∨
   ∃ p', pool_step file chunks topics (default (pool_start 2) (worker_step file chunks topics 0 false (pool_start 2))) p').
Proof.
  apply (workers_end file chunks topics 2 1); [vm_compute; discriminate|].
  apply nsteps_once. exists 0, false. reflexivity.
Defined.
End DuWorkersExamples.
