(* ===== verification/SinkTheory.v ===== *)
(** A command does on a writer what it does on the writer's specification.

    [follows] says so of a job, for as many calls as the writer has room for, and the ways
    in which commands are put together of calls keep it; so what a command writes is known
    once its run on the specification is, and that the file it leaves reads back follows. *)

From S2P Require Import Prelude Utf8 BTree Errors Bin Records Crc Io Codec RwBuf Decompressor LinearReader LinearReaderTheory LinearReaderClient LinearReaderFile Channels Read ReadTheory Conversation Streaming LinearReaderFlat MessageStream Summary ChunkWriter ChunkWriterTheory Writer WriterTheory WriterSpec Instances WriterLog WriterFile WriterSummary WriterRoundtrip WriterMessages Cli Sink.

(** ** The writer and its specification *)

Section follows.
Context `{Crc, !CrcLaws, ZstdEncoderLib, Lz4EncoderLib} `{FileOk W file}.
Context `{!BiMap ChannelContent Z, !BiMap SchemaContent Z, !BiMapOk ChannelContent Z, !BiMapOk SchemaContent Z}.
Context (o : WriteOptions).
Context `{!EncoderOk (wo_compression o) (wo_compression_level o) (wo_compression_threads o)}.

#[local] Hint Extern 0 (Sink spec_state) => exact (spec_sink o) : typeclass_instances.
#[local] Abbreviation writer_job St := (Job (Writer (W := W)) St).
#[local] Abbreviation spec_job St := (Job (spec_state * list call) St).

(** The log stays sound and grows by no more than the calls cost. *)
Definition grown (st : spec_state) (made : list call) (st' : spec_state) : Prop :=
  (log_ok st → log_ok st') ∧ (log_size st' ≤ log_size st + calls_cost o made)%Z.

(** What a command does on the specification, keeping the calls it makes, it does on a
    writer that stands for it and has room for the calls. *)
Definition follows {St A} (m1 : method (writer_job St) anyhow A) (m2 : method (spec_job St) anyhow A) : Prop :=
  ∀ st calls s, let '(o2, mkJob (st', calls') s') := m2 (mkJob (st, calls) s) in
    ∃ made, calls' = calls ++ made ∧ (Forall (call_ok o) made → grown st made st' ∧
    ∀ n w, (0 ≤ n)%Z → represents o (n + calls_cost o made) w st →
      let '(o1, mkJob w' s1') := m1 (mkJob w s) in
      o1 = o2 ∧ match o2 with Ok _ | Err _ => s1' = s' ∧ represents o n w' st' | _ => True end).

Lemma calls_cost_app c1 c2 : calls_cost o (c1 ++ c2) = (calls_cost o c1 + calls_cost o c2)%Z.
Proof. unfold calls_cost. induction c1 as [|c c1 IH]; [done|]. cbn. rewrite IH. lia. Qed.

Lemma grown_refl st : grown st [] st.
Proof. split; [done|]. cbn. lia. Qed.
Lemma grown_trans st1 m1 st2 m2 st3 : grown st1 m1 st2 → grown st2 m2 st3 → grown st1 (m1 ++ m2) st3.
Proof. intros [Ho1 Hs1] [Ho2 Hs2]. split; [by eauto|]. rewrite calls_cost_app. lia. Qed.

Lemma follows_on_state {St A} (m : method St anyhow A) : follows (on_state m) (on_state m).
Proof.
  intros st calls s. unfold on_state. cbn. destruct (m s) as [r s'] eqn:E. exists []. rewrite app_nil_r. split; [done|]. intros _. split; [apply grown_refl|].
  intros n w Hn Hw. rewrite Z.add_0_r in Hw. by destruct r.
Qed.
Lemma follows_lift {St A} (r : Result A) : follows (St:=St) (lift r) (lift r).
Proof. exact (follows_on_state (lift r)). Qed.
Lemma follows_ret {St A} (a : A) : follows (St:=St) (mret a) (mret a).
Proof. exact (follows_lift (Ok a)). Qed.
Lemma follows_throw {St A} (e : anyhow) : follows (St:=St) (A:=A) (mthrow e) (mthrow e).
Proof. exact (follows_lift (Err e)). Qed.

Lemma follows_bind {St A B} m1 m2 (f1 : A → method (writer_job St) anyhow B) f2 :
  follows m1 m2 → (∀ a, follows (f1 a) (f2 a)) → follows (m1 ≫= f1) (m2 ≫= f2).
Proof.
  intros Hm Hf st calls s. specialize (Hm st calls s). unfold mbind, method_bind.
  destruct (m2 (mkJob (st, calls) s)) as [o2 [[st' calls'] s']]. destruct Hm as (made & -> & Hm).
  destruct o2 as [a|e| |]; [|exists made; split; [done|]; intros Hok; destruct (Hm Hok) as [Hg Hr]; (split; [done|]);
    intros n w Hn Hw; specialize (Hr n w Hn Hw); destruct (m1 (mkJob w s)) as [o1 [w' s1']]; destruct Hr as [-> Hr]; by cbn..].
  specialize (Hf a st' (calls ++ made) s'). destruct (f2 a (mkJob (st', calls ++ made) s')) as [o3 [[st3 calls3] s3]].
  destruct Hf as (made' & -> & Hf). exists (made ++ made'). rewrite app_assoc. split; [done|].
  intros [Hok Hok']%Forall_app. destruct (Hm Hok) as [Hg Hr], (Hf Hok') as [Hg' Hr']. split; [by eapply grown_trans|].
  intros n w Hn Hw. rewrite calls_cost_app in Hw. assert (0 ≤ n + calls_cost o made')%Z as Hn' by (pose proof (calls_cost_pos o made'); lia).
  specialize (Hr _ w Hn'). rewrite <-Z.add_assoc, (Z.add_comm (calls_cost o made')) in Hr. specialize (Hr Hw).
  destruct (m1 (mkJob w s)) as [o1 [w' s1']]. destruct Hr as (-> & -> & Hr). by apply Hr'.
Qed.

(** A call. *)
Lemma follows_calls {St A} c (m1 : method _ McapError A) m2 (f : outcome McapError Z → outcome McapError A) : chunks_bounded o →
  (∀ w, m1 w = let '(r, w) := perform c w in (f r, w)) → (∀ st calls, m2 (st, calls) = let '(r, st) := spec_perform o c st in (f r, (st, calls ++ [c]))) →
  (∀ r, match r with Ok _ => ∃ a, f r = Ok a | Err e => f r = Err e | Panic => f r = Panic | Fuel => f r = Fuel end) →
  follows (St:=St) (on_writer m1) (on_writer m2).
Proof.
  intros Hb E1 E2 Hf st calls s. unfold on_writer. cbn [job_writer]. rewrite E2.
  destruct (spec_perform o c st) as [o2 st'] eqn:E. exists [c]. split; [done|]. rewrite Forall_singleton. intros Hok. split.
  - split; [intros Hst; pose proof (perform_keeps o c Hok st Hst) as Hk; by rewrite E in Hk|].
    pose proof (grows_perform o c st) as Hg. rewrite E in Hg. cbn [calls_cost foldr]. by rewrite Z.add_0_r.
  - intros n w Hn Hw. cbn [calls_cost foldr] in Hw. rewrite Z.add_0_r in Hw. cbn [job_writer]. rewrite E1.
    destruct (perform_refines o Hb c Hok n w st Hn Hw) as [Ho Hr]. rewrite E in Ho, Hr. destruct (perform c w) as [o1 w']. cbn in Ho, Hr. subst o1.
    split; [done|]. specialize (Hf o2). destruct o2 as [a|e| |]; [destruct Hf as [x ->]|rewrite Hf..]; by cbn.
Qed.
Lemma follows_call {St} c : chunks_bounded o → follows (St:=St) (on_writer (sink_call c)) (on_writer (sink_call c)).
Proof.
  intros Hb. eapply (follows_calls c _ _ (λ r, r) Hb); [|done|by intros []; [eexists|..]].
  intros w. unfold sink_call, writer_sink. by destruct (perform c w).
Qed.
Lemma follows_call_unit {St A} (f : Z → A) c : chunks_bounded o →
  follows (St:=St) (on_writer (f <$> sink_call c)) (on_writer (f <$> sink_call c)).
Proof.
  intros Hb. eapply (follows_calls c _ _ (fmap f) Hb); [done| |by intros []; [eexists|..]].
  intros st calls. unfold fmap at 1, method_fmap, sink_call, traced, spec_sink. by destruct (spec_perform o c st).
Qed.
Lemma follows_in_context {St A} format args (m1 : method _ anyhow A) m2 : follows (St:=St) m1 m2 →
  follows (in_context format args m1) (in_context format args m2).
Proof.
  intros Hm st calls s. specialize (Hm st calls s). unfold in_context. destruct (m2 _) as [o2 [[st' calls'] s']].
  destruct Hm as (made & -> & Hm). exists made. split; [done|]. intros Hok. destruct (Hm Hok) as [Hg Hr]. split; [done|].
  intros n w Hn Hw. specialize (Hr n w Hn Hw). destruct (m1 _) as [o1 [w' s1']]. destruct Hr as [-> Hr]. split; [done|]. by destruct o2.
Qed.

(** Loops. *)
Lemma follows_each {St A} (body1 : A → method (Job _ St) anyhow ()) body2 l last1 last2 :
  (∀ a, follows (body1 a) (body2 a)) → follows last1 last2 → follows (each body1 l last1) (each body2 l last2).
Proof. intros Hb Hl. induction l as [|a l IH]; [done|]. cbn [each]. apply follows_bind; [done|by intros []]. Qed.
Lemma follows_scan_loop `{ZstdLib, Lz4Lib} {St} fuel (process1 : Z → bytes → method (Job _ St) anyhow ()) process2 on_error1 on_error2 i :
  (∀ op b, follows (process1 op b) (process2 op b)) → (∀ e, follows (on_error1 e) (on_error2 e)) →
  follows (scan_loop fuel process1 on_error1 i) (scan_loop fuel process2 on_error2 i).
Proof.
  intros Hp He. revert i. induction fuel as [|fuel IH]; intros i; cbn [scan_loop]; [apply follows_lift|].
  destruct (next_event (ir_reader i)) as [[[[need|op b]|]|e| |] r]; try apply follows_lift; [..|done].
  - apply follows_bind; [apply follows_lift|]. by intros [remaining r'].
  - apply follows_bind; [done|by intros []].
Qed.
Lemma follows_for_each `{ZstdLib, Lz4Lib} {St} fuel (body1 : record → method (Job _ St) anyhow ()) body2 i :
  (∀ r, follows (body1 r) (body2 r)) → follows (for_each fuel body1 i) (for_each fuel body2 i).
Proof.
  intros Hb. revert i. induction fuel as [|fuel IH]; intros i; cbn [for_each]; [apply follows_lift|].
  destruct (InnerReader_next i) as [next i']. apply follows_bind; [apply follows_lift|]. intros [r|]; [|apply follows_ret].
  apply follows_bind; [done|by intros []].
Qed.
End follows.
#[export] Hint Resolve follows_ret follows_on_state follows_lift follows_throw follows_call follows_call_unit follows_in_context follows_each : follows.

(** What a command leaves, when the writer is finished after it. *)
Section written.
Context `{Crc, !CrcLaws, HashOrder, !HashOrderOk, ZstdEncoderLib, Lz4EncoderLib} `{FileOk W file}.
Context `{!BiMap ChannelContent Z, !BiMap SchemaContent Z, !BiMapOk ChannelContent Z, !BiMapOk SchemaContent Z}.
Context `{ZstdLib, Lz4Lib, !ZstdLibOk, !Lz4LibOk, !Frames}.
Context (o : WriteOptions).
Context `{!EncoderOk (wo_compression o) (wo_compression_level o) (wo_compression_threads o)}.

(** The destination holds a whole file, whose records are those of the log and which reads
    back, message by message, as the messages of the log. *)
Definition holds_log (w : W) (lg : list record) : Prop :=
  ∃ f n, over file [] w (file_bytes f) ∧ holds o (file_records f) lg ∧
    ∀ ropts fuel, n < fuel → messages fuel (RawMessageStream_new_with_options (file_bytes f) ropts) = (messages_of_log lg, Ok ()).

Lemma job_writes {St A} (m1 : method (Job (Writer (W := W)) St) anyhow A) m2 w s r st calls s' :
  follows o m1 m2 → m2 (mkJob (spec_new o, []) s) = (r, mkJob (st, calls) s') → (match r with Ok _ | Err _ => True | _ => False end) →
  file w [] 0 → options_ok o → Forall (call_ok o) calls → (run_size o calls ≤ 2 ^ 59)%Z →
  ∃ wr wr', Writer_with_options w o = Ok wr ∧ m1 (mkJob wr s) = (r, mkJob wr' s') ∧ log_ok st ∧
    ∃ sum wr'' w', wr_finish wr' = (Ok sum, wr'') ∧ wr_into_inner wr'' = Ok w' ∧
      (streams o → schemas_nonzero (sp_log st) → holds_log w' (sp_log st)).
Proof.
  intros Hf E Hr Hw [Hch Hh Hb] Hcalls Hsz. pose proof (calls_cost_pos o calls) as Hpos.
  assert (0 ≤ run_size o calls)%Z by (unfold run_size; zlen_facts; lia). set (n := (u64_max - run_size o calls)%Z).
  assert (0 ≤ n)%Z as Hn by (unfold n, u64_max; lia).
  destruct (new_represents o w (n + calls_cost o calls) Hw Hh Hb) as (wr & Ew & Hrep); [lia|unfold n, run_size, the_header in *; lia|].
  specialize (Hf (spec_new o) [] s). rewrite E in Hf. destruct Hf as (made & [= <-] & Hm). destruct (Hm Hcalls) as [[Hok Hls] Hr1].
  specialize (Hr1 n wr Hn Hrep). destruct (m1 (mkJob wr s)) as [o1 [wr' s1']] eqn:E1. destruct Hr1 as [-> Hr1].
  assert (s1' = s' ∧ represents o n wr' st) as [-> Hrep'] by by destruct r. specialize (Hok (spec_new_ok o)).
  assert (log_size (spec_new o) = zlen (record_frame (the_header o))) as Hs0.
  { unfold log_size, spec_new. cbn [sp_log]. exact (f_equal zlen (app_nil_r (record_frame (the_header o)))). }
  assert (log_size st ≤ run_size o calls)%Z as Hsize by (unfold run_size; pose proof (zlen_nonneg MAGIC); lia).
  destruct (finish_spec o n (run_size o calls) wr' st Hrep' Hok Hsize) as (wr'' & sum & stats & l & w' & Ef & Ei & Hfile & Hlen & Hsum & Ha & Hlog & Hrecs);
    [unfold n; lia|done|].
  exists wr, wr'. split_and!; [done..|]. exists sum, wr'', w'. split_and!; [done..|]. intros Hst Hz.
  assert (sp_log st = concat (item_log o <$> l)) as Hl by (rewrite <-Hlog; unfold log; cbn [a_items a_open default from_option]; by rewrite app_nil_r).
  exists (final_file o l sum stats), (length (final_records o l sum stats)). split_and!; [done|exists l; by destruct Ha|]. intros ropts fuel Hfuel.
  apply (final_messages o l st sum stats); try done; [by destruct Ha|lia].
Qed.
End written.
