(* ===== verification/SinkCost.v ===== *)
(** The calls that copy a record to another file, under other identifiers: the writer
    takes them if the record is well-formed, and they cost no more than the record. *)

From S2P Require Import Prelude Utf8 BTree Errors Bin Records Crc Io Codec Channels Summary ChunkWriter ChunkWriterTheory Writer WriterTheory WriterSpec Instances WriterLog.

Section copies.
Context `{Crc, !CrcLaws, ZstdEncoderLib, Lz4EncoderLib} (o : WriteOptions).
Context `{!EncoderOk (wo_compression o) (wo_compression_level o) (wo_compression_threads o)}.

Lemma u16_wf z : (0 ≤ z ≤ u16_max)%Z → c_wf u16 z = true.
Proof. intros Hz. apply (uint_wf_in 2). unfold in_u, u16_max in *. cbn. lia. Qed.

(** Records of the same length cost the same. *)
Lemma record_cost_len r r' : zlen (record_body r) = zlen (record_body r') → record_cost o r = record_cost o r'.
Proof. intros E. unfold record_cost. by rewrite !zlen_record_frame, E. Qed.

Lemma copy_schema h data : record_wf (RSchema h data) = true →
  let c := AddSchema (sh_name h) (sh_encoding h) data in call_ok o c ∧ (call_cost o c ≤ record_cost o (RSchema h data))%Z.
Proof.
  intros Hw c. split.
  - intros id Hid. destruct h as [i n e]. unfold record_ok, record_wf in *. cbn [writable plain_record record_body sh_name sh_encoding] in *. rewrite !andb_true_r.
    change (c_wf SchemaHeader_codec (mkSchemaHeader id n e)) with (c_wf u16 id && c_wf rstr n && c_wf rstr e).
    change (c_wf SchemaHeader_codec (mkSchemaHeader i n e)) with (c_wf u16 i && c_wf rstr n && c_wf rstr e) in Hw.
    rewrite !zlen_app in *. rewrite (u16_wf id Hid).
    assert (zlen (c_enc SchemaHeader_codec (mkSchemaHeader id n e)) = zlen (c_enc SchemaHeader_codec (mkSchemaHeader i n e))) as ->; [|rewrite !andb_true_iff in *; tauto].
    change (zlen ((le_enc 2 id ++ c_enc rstr n) ++ c_enc rstr e) = zlen ((le_enc 2 i ++ c_enc rstr n) ++ c_enc rstr e)).
    by rewrite !zlen_app, !zlen_le_enc.
  - destruct h as [i n e]. cbn [call_cost c sh_name sh_encoding]. by rewrite <-(schema_cost_id o i).
Qed.

Lemma channel_len c id schema_id : zlen (record_body (RChannel c)) =
  zlen (record_body (RChannel (mkChannelRecord id schema_id (c_topic c) (c_message_encoding c) (c_metadata c)))).
Proof.
  destruct c as [i s t e m]. change (zlen ((((le_enc 2 i ++ le_enc 2 s) ++ c_enc rstr t) ++ c_enc rstr e) ++ c_enc string_map m) =
    zlen ((((le_enc 2 id ++ le_enc 2 schema_id) ++ c_enc rstr t) ++ c_enc rstr e) ++ c_enc string_map m)). rewrite !zlen_app, !zlen_le_enc. done.
Qed.
Lemma copy_channel ch schema_id : record_wf (RChannel ch) = true → (0 ≤ schema_id ≤ u16_max)%Z →
  let c := AddChannel schema_id (c_topic ch) (c_message_encoding ch) (c_metadata ch) in
  call_ok o c ∧ (call_cost o c ≤ record_cost o (RChannel ch))%Z.
Proof.
  intros Hw Hs c. split.
  - intros id Hid. unfold record_ok, record_wf in *. cbn [writable plain_record] in *. rewrite !andb_true_r. rewrite <-channel_len. revert Hw.
    destruct ch as [i s t e m]. cbn [c_topic c_message_encoding c_metadata].
    change (c_wf Channel_codec (mkChannelRecord id schema_id t e m)) with (c_wf u16 id && c_wf u16 schema_id && c_wf rstr t && c_wf rstr e && c_wf string_map m).
    change (c_wf Channel_codec (mkChannelRecord i s t e m)) with (c_wf u16 i && c_wf u16 s && c_wf rstr t && c_wf rstr e && c_wf string_map m).
    rewrite (u16_wf id Hid), (u16_wf schema_id Hs). rewrite !andb_true_iff. tauto.
  - cbn [call_cost c]. unfold channel_cost. by rewrite (record_cost_len _ (RChannel ch)) by by rewrite <-channel_len.
Qed.

Lemma copy_message h data id : record_wf (RMessage h data) = true → (0 ≤ id ≤ u16_max)%Z →
  let c := WriteKnown (mkMessageHeader id (m_sequence h) (m_log_time h) (m_publish_time h)) data in
  call_ok o c ∧ (call_cost o c ≤ record_cost o (RMessage h data))%Z.
Proof.
  intros Hw Hid c. destruct h as [i s l p]. cbn [m_sequence m_log_time m_publish_time] in c.
  assert (zlen (record_body (RMessage (mkMessageHeader id s l p) data)) = zlen (record_body (RMessage (mkMessageHeader i s l p) data))) as Hlen
    by (cbn [record_body]; by rewrite !zlen_app, !MessageHeader_enc_len).
  split.
  - cbn [call_ok c]. unfold record_ok, record_wf in *. cbn [writable plain_record] in *. rewrite !andb_true_r, Hlen. revert Hw.
    change (c_wf MessageHeader_codec (mkMessageHeader id s l p)) with (c_wf u16 id && c_wf u32 s && c_wf u64 l && c_wf u64 p).
    change (c_wf MessageHeader_codec (mkMessageHeader i s l p)) with (c_wf u16 i && c_wf u32 s && c_wf u64 l && c_wf u64 p).
    rewrite (u16_wf id Hid), !andb_true_iff. tauto.
  - cbn [call_cost c]. by rewrite (record_cost_len _ _ Hlen).
Qed.

Lemma copy_attachment h data crc : record_wf (RAttachment h data crc) = true →
  call_ok o (Attach h data) ∧ (call_cost o (Attach h data) ≤ record_cost o (RAttachment h data crc))%Z.
Proof.
  intros Hw. unfold call_ok, call_cost.
  assert (zlen (record_body (attachment_record o h data)) = zlen (record_body (RAttachment h data crc))) as Hlen.
  { unfold attachment_record. cbn [record_body]. by rewrite !zlen_app, !zlen_le_enc. }
  split.
  - revert Hw. unfold record_wf. rewrite Hlen. unfold attachment_record. rewrite !andb_true_iff. intros [[[[Hh _] Hd] _] Hl]. split_and!; try done.
    + unfold attachment_crc. destruct (wo_calculate_attachment_crcs o); [|done]. apply (uint_wf_in 4). apply crc32_u32.
    + apply orb_true_iff. unfold attachment_crc, attachment_prefix, attachment_hashed. destruct (wo_calculate_attachment_crcs o); [right|by left].
      apply Z.eqb_eq. by rewrite <-app_assoc.
  - rewrite zlen_record_frame, Hlen, <-zlen_record_frame. apply record_cost_frame.
Qed.
Lemma copy_metadata m : record_wf (RMetadata m) = true →
  call_ok o (WriteMetadata m) ∧ (call_cost o (WriteMetadata m) ≤ record_cost o (RMetadata m))%Z.
Proof. intros Hw. split; [done|]. apply record_cost_frame. Qed.
End copies.
