(* ===== verification/SpecClient.v ===== *)
(** What a client of the writer's specification can rely on when it lets the writer choose
    the identifiers: they are given out one after the other, a call that has room for one
    succeeds, and what an identifier stands for does not change. *)

From S2P Require Import Prelude Utf8 BTree Errors Bin Records Crc Io Codec Channels Read ReadTheory Conversation MessageStream Summary ChunkWriter ChunkWriterTheory Writer WriterTheory WriterSpec Instances WriterLog WriterMessages.

(** Identifiers given out in order. *)
Record dense (all : list (Z * Z)) (next : Z) : Prop := {
  dn_used j : bt_contains j all = true → (1 ≤ j < next)%Z;
  dn_next : (1 ≤ next)%Z;
}.

Lemma dense_free fuel all next : dense all next → (next ≤ u16_max)%Z → (u16_max - next ≤ Z.of_nat fuel)%Z → next_free fuel all next = (true, next).
Proof.
  intros [Hu Hn] Hr Hf. pose proof (next_free_spec fuel all next ltac:(lia) Hf) as Hs. destruct (next_free fuel all next) as [[] id].
  - destruct Hs as (Hid & _ & Hj). destruct (decide (id = next)) as [->|]; [done|]. specialize (Hu next (Hj next ltac:(lia))). lia.
  - destruct Hs as (_ & Hj). specialize (Hu next (Hj next ltac:(lia))). lia.
Qed.
Lemma dense_insert all next v : bt_sorted all = true → dense all next → dense (bt_insert next v all) (next + 1).
Proof.
  intros Hs [Hu Hn]. split; [|lia]. intros j. unfold bt_contains. rewrite bt_get_insert_case by done.
  destruct (decide (j = next)) as [->|]; [lia|]. intros Hj. specialize (Hu j Hj). lia.
Qed.

Section client.
Context `{Crc, !BiMap ChannelContent Z, !BiMap SchemaContent Z, !BiMapOk ChannelContent Z, !BiMapOk SchemaContent Z}.
Implicit Types st : spec_state.

Abbreviation next_schema st := (i_next_schema (sp_ids st)).
Abbreviation next_channel st := (i_next_channel (sp_ids st)).
Definition dense_schemas st : Prop := dense (i_schema_ids (sp_ids st)) (next_schema st).
Definition dense_channels st : Prop := dense (i_channel_ids (sp_ids st)) (next_channel st).

(** A log that went on, with declarations only. *)
Definition is_declaration (r : record) : bool := match r with RSchema _ _ | RChannel _ => true | _ => false end.
Definition extends st st' : Prop := ∃ k, sp_log st' = sp_log st ++ k ∧ forallb is_declaration k = true ∧ log_ok st'.

Lemma extends_refl st : log_ok st → extends st st.
Proof. intros. exists []. by rewrite app_nil_r. Qed.
Lemma extends_trans st1 st2 st3 : extends st1 st2 → extends st2 st3 → extends st1 st3.
Proof.
  intros (k1 & E1 & H1' & _) (k2 & E2 & H2' & Hok). exists (k1 ++ k2). rewrite E2, E1, app_assoc, forallb_app, H1', H2'. done.
Qed.

(** What is declared stays. *)
Lemma extends_schema st st' id s : extends st st' → schema_in (sp_log st) id = Some s → schema_in (sp_log st') id = Some s.
Proof. intros (k & -> & _). apply schema_in_app. Qed.
Lemma extends_channel st st' id c : log_ok st → extends st st' → channel_in (sp_log st) id = Some c → channel_in (sp_log st') id = Some c.
Proof. intros Hok (k & -> & _). apply channel_in_app, Hok. Qed.
Lemma extends_filter (p : record → bool) st st' : extends st st' → (∀ r, is_declaration r = true → p r = false) →
  List.filter p (sp_log st') = List.filter p (sp_log st).
Proof.
  intros (k & -> & Hk & _) Hp. rewrite List.filter_app. assert (List.filter p k = []) as ->; [|by rewrite app_nil_r].
  clear -Hk Hp. induction k as [|r k IH]; [done|]. cbn in *. apply andb_true_iff in Hk as [Hr Hk]. rewrite (Hp r Hr). by apply IH.
Qed.

(** The channel of a message that is logged is declared before it. *)
Lemma scoped_message l r id : scoped l → r ∈ l → (∃ h d, r = RMessage h d ∧ m_channel_id h = id) → is_Some (channel_in l id).
Proof.
  intros Hs Hr (h & d & -> & <-). unfold channel_in. rewrite fmap_is_Some. apply assoc_in.
  apply list_elem_of_split in Hr as (l1 & l2 & ->). pose proof (scoped_admissible _ _ _ Hs) as Ha. cbn in Ha.
  unfold log_channels. rewrite omap_app, fmap_app. apply elem_of_app. by left.
Qed.
Lemma messages_of_log_app l k : scoped l → messages_of_log (l ++ k) = messages_of_log l ++ omap (M:=list) (message_in_log (l ++ k)) k.
Proof.
  intros Hs. unfold messages_of_log. rewrite omap_app. f_equal.
  assert (∀ m, (∀ r, r ∈ m → r ∈ l) → omap (M:=list) (message_in_log (l ++ k)) m = omap (M:=list) (message_in_log l) m) as Hm; [|by apply Hm].
  induction m as [|r m IH]; intros Hin; [done|]. cbn. rewrite IH by (intros r' ?; apply Hin; by right).
  assert (message_in_log (l ++ k) r = message_in_log l r) as ->; [|done].
  destruct r as [| | | |h d| | | | | | | | | | |]; try done. cbn.
  destruct (scoped_message l _ (m_channel_id h) Hs (Hin _ ltac:(left)) ltac:(by eexists _, _)) as [c Hc].
  by rewrite Hc, (channel_in_app l k _ c Hs Hc).
Qed.
Lemma extends_messages st st' : log_ok st → extends st st' → messages_of_log (sp_log st') = messages_of_log (sp_log st).
Proof.
  intros Hok (k & -> & Hk & _). rewrite messages_of_log_app by apply Hok.
  assert (∀ lg m, forallb is_declaration m = true → omap (M:=list) (message_in_log lg) m = []) as ->; [|by rewrite app_nil_r|done].
  clear. intros lg m. induction m as [|r m IH]; [done|]. cbn. rewrite andb_true_iff. intros [Hr Hm]. rewrite (IH Hm). by destruct r.
Qed.

(** What an identifier stands for. *)
Lemma known_schema st c id : log_ok st → bm_get_by_left c (i_schemas (sp_ids st)) = Some id → schema_in (sp_log st) id = Some (schema_named id c).
Proof.
  intros Hok Hk. unfold schema_in. rewrite (scoped_assoc_schema _ _ c (lo_scoped _ Hok)); [done|].
  apply (rl_decl _ _ _ (lo_schemas _ Hok)). exists id. split; [|by apply bm_sides]. eapply reg_known; [apply Hok|done].
Qed.
Definition channel_named (lg : list record) (id : Z) (c : ChannelContent) : Channel :=
  mkChannel id (cc_topic c) (if (cc_schema_id c =? 0)%Z then None else schema_in lg (cc_schema_id c)) (cc_message_encoding c) (cc_metadata c).
Lemma known_channel st c id : log_ok st → bm_get_by_left c (i_channels (sp_ids st)) = Some id → channel_in (sp_log st) id = Some (channel_named (sp_log st) id c).
Proof.
  intros Hok Hk. unfold channel_in. rewrite (scoped_assoc_channel _ _ c (lo_scoped _ Hok)); [done|].
  apply (rl_decl _ _ _ (lo_channels _ Hok)). exists id. split; [|by apply bm_sides]. exact (reg_known _ _ _ (channels_ok _ (lo_ids _ Hok)) _ _ Hk).
Qed.
Lemma schema_in_used st id s : log_ok st → schema_in (sp_log st) id = Some s → bt_contains id (i_schema_ids (sp_ids st)) = true.
Proof.
  intros Hok. unfold schema_in. rewrite fmap_Some. intros (c & Hc & _).
  assert (id ∈ (log_schemas (sp_log st)).*1) as Hin by (destruct (decide (id ∈ (log_schemas (sp_log st)).*1)) as [|Hn%assoc_None]; [done|congruence]).
  apply list_elem_of_fmap in Hin as ([i c'] & -> & Hin). apply (rl_decl _ _ _ (lo_schemas _ Hok)) in Hin as (k & Hk & _). unfold bt_contains. cbn. by rewrite Hk.
Qed.
Lemma channel_in_used st id c : log_ok st → channel_in (sp_log st) id = Some c → bt_contains id (i_channel_ids (sp_ids st)) = true.
Proof.
  intros Hok. unfold channel_in. rewrite fmap_Some. intros (x & Hc & _).
  assert (id ∈ (log_channels (sp_log st)).*1) as Hin by (destruct (decide (id ∈ (log_channels (sp_log st)).*1)) as [|Hn%assoc_None]; [done|congruence]).
  apply list_elem_of_fmap in Hin as ([i c'] & -> & Hin). apply (rl_decl _ _ _ (lo_channels _ Hok)) in Hin as (k & Hk & _). unfold bt_contains. cbn. by rewrite Hk.
Qed.

(** *** The calls *)

(** A call that gives out an identifier: the log goes on, with declarations, and the
    identifiers of schemas and of channels stay dense and are at most one more. *)
Record registered (st st' : spec_state) (schemas channels : Z) : Prop := {
  rd_extends : extends st st';
  rd_schemas : dense_schemas st';
  rd_channels : dense_channels st';
  rd_next_schema : (next_schema st' ≤ next_schema st + schemas)%Z;
  rd_next_channel : (next_channel st' ≤ next_channel st + channels)%Z;
}.

(** A schema that is not known is declared under the next identifier. *)
Record schema_added st st' (name encoding : rstring) (data : bytes) : Prop := {
  sa_log : sp_log st' = sp_log st ++ [RSchema (mkSchemaHeader (next_schema st) name encoding) data];
  sa_ok : log_ok st';
  sa_dense : dense_schemas st';
  sa_next : next_schema st' = (next_schema st + 1)%Z;
  sa_known : bm_get_by_left (mkSchemaContent name encoding data) (i_schemas (sp_ids st')) = Some (next_schema st);
  sa_keeps c id : bm_get_by_left c (i_schemas (sp_ids st)) = Some id → bm_get_by_left c (i_schemas (sp_ids st')) = Some id;
  sa_channels : (i_channel_ids (sp_ids st'), next_channel st') = (i_channel_ids (sp_ids st), next_channel st);
}.
Lemma add_schema_new st name encoding data : log_ok st → dense_schemas st → (next_schema st < u16_max)%Z →
  bm_get_by_left (mkSchemaContent name encoding data) (i_schemas (sp_ids st)) = None →
  ∃ st', spec_add_schema name encoding data st = (Ok (next_schema st), st') ∧ schema_added st st' name encoding data.
Proof.
  intros Hok Hd Hn Hk. pose proof (dn_next _ _ Hd) as Hn1. pose proof (add_schema_keeps name encoding data st Hok) as Hok'.
  revert Hok'. unfold spec_add_schema, get_ids, on_ids, emit. rewrite bind_gets, Hk, (dense_free _ _ _ Hd) by lia. rewrite bind_modify. cbn [negb].
  rewrite (proj2 (Z.eqb_neq _ _)) by lia. rewrite !bind_modify. intros Hok'.
  eexists. split; [reflexivity|]. assert (bm_get_by_right (next_schema st) (i_schemas (sp_ids st)) = None) as Hfree.
  { eapply not_known_id; [apply (schemas_ok _ (lo_ids _ Hok))|]. destruct (bt_get _ _) eqn:Hg; [|done].
    assert (bt_contains (next_schema st) (i_schema_ids (sp_ids st)) = true) as Hc by (unfold bt_contains; by rewrite Hg).
    apply (dn_used _ _ Hd) in Hc. lia. }
  split; [done|exact Hok'| |done| | |done].
  - apply dense_insert; [|done]. apply (reg_sorted _ _ _ (schemas_ok _ (lo_ids _ Hok))).
  - cbn [sp_ids i_set_schemas i_schemas]. rewrite or_same_left by done. by rewrite decide_True, Hk.
  - intros c id Hc. cbn [sp_ids i_set_schemas i_schemas]. rewrite or_same_left by done. rewrite decide_False; [done|]. intros ->. congruence.
Qed.
Lemma add_schema_known st name encoding data id : bm_get_by_left (mkSchemaContent name encoding data) (i_schemas (sp_ids st)) = Some id →
  spec_add_schema name encoding data st = (Ok id, st).
Proof. intros Hk. unfold spec_add_schema, get_ids. by rewrite bind_gets, Hk. Qed.
Lemma client_add_schema st name encoding data : log_ok st → dense_schemas st → dense_channels st → (next_schema st < u16_max)%Z →
  ∃ k st', spec_add_schema name encoding data st = (Ok k, st') ∧ registered st st' 1 0 ∧ (1 ≤ k)%Z ∧
    schema_in (sp_log st') k = Some (mkSchema k name encoding data).
Proof.
  intros Hok Hd Hdc Hn. destruct (bm_get_by_left (mkSchemaContent name encoding data) (i_schemas (sp_ids st))) as [id|] eqn:Hk.
  - exists id, st. split_and!; [by apply add_schema_known| | |exact (known_schema _ _ _ Hok Hk)].
    + split; try done; [by apply extends_refl|lia..].
    + assert (bt_get id (i_schema_ids (sp_ids st)) = Some id) as Hid by exact (reg_known _ _ _ (schemas_ok _ (lo_ids _ Hok)) _ _ Hk).
      apply (dn_used _ _ Hd). unfold bt_contains. by rewrite Hid.
  - destruct (add_schema_new _ _ _ _ Hok Hd Hn Hk) as (st' & E & [Hlog Hok' Hd' Hnext Hk' _ Hch]). pose proof (dn_next _ _ Hd).
    exists (next_schema st), st'. split_and!; [done| |done|exact (known_schema _ _ _ Hok' Hk')]. injection Hch as Hids Hnc. split.
    + eexists [_]. by split_and!.
    + done.
    + unfold dense_channels. by rewrite Hids, Hnc.
    + lia.
    + lia.
Qed.

Lemma client_add_channel st schema_id topic encoding metadata : log_ok st → dense_schemas st → dense_channels st → (next_channel st < u16_max)%Z →
  (schema_id = 0%Z ∨ is_Some (schema_in (sp_log st) schema_id)) →
  ∃ k st', spec_add_channel schema_id topic encoding metadata st = (Ok k, st') ∧ registered st st' 0 1 ∧
    channel_in (sp_log st') k = Some (channel_named (sp_log st') k (mkChannelContent topic schema_id encoding metadata)).
Proof.
  intros Hok Hd Hdc Hn Hs. pose proof (dn_next _ _ Hdc) as Hn1. pose proof (add_channel_keeps schema_id topic encoding metadata st Hok) as Hok'.
  set (content := mkChannelContent topic schema_id encoding metadata).
  assert (∀ k st', spec_add_channel schema_id topic encoding metadata st = (Ok k, st') → bm_get_by_left content (i_channels (sp_ids st')) = Some k →
    channel_in (sp_log st') k = Some (channel_named (sp_log st') k content)) as Hin.
  { intros k st' E Hk. rewrite E in Hok'. exact (known_channel st' content k Hok' Hk). }
  assert (negb (schema_id =? 0)%Z && negb (bt_contains schema_id (i_schema_ids (sp_ids st))) = false) as Hknown.
  { destruct Hs as [->|[s Hs]]; [done|]. rewrite (schema_in_used st _ s Hok Hs). by destruct (_ =? _)%Z. }
  revert Hok' Hin. unfold spec_add_channel, get_ids. rewrite bind_gets, Hknown. fold content.
  destruct (bm_get_by_left content (i_channels (sp_ids st))) as [id|] eqn:Hk.
  - intros _ Hin. exists id, st. split_and!; [done| |by apply Hin]. split; try done; [by apply extends_refl|lia..].
  - unfold on_ids, emit. rewrite (dense_free _ _ _ Hdc) by lia. rewrite bind_modify. cbn [negb].
    rewrite (proj2 (Z.eqb_neq _ _)) by lia. rewrite !bind_modify. intros Hok' Hin.
    eexists _, _. split; [reflexivity|]. assert (bm_get_by_right (next_channel st) (i_channels (sp_ids st)) = None) as Hfree.
    { eapply not_known_id; [apply (channels_ok _ (lo_ids _ Hok))|]. destruct (bt_get _ _) eqn:Hg; [|done].
      assert (bt_contains (next_channel st) (i_channel_ids (sp_ids st)) = true) as Hc by (unfold bt_contains; by rewrite Hg).
      apply (dn_used _ _ Hdc) in Hc. lia. }
    split.
    + split.
      * eexists [_]. split; [reflexivity|]. split; [done|exact Hok'].
      * done.
      * apply dense_insert; [|done]. apply (reg_sorted _ _ _ (channels_ok _ (lo_ids _ Hok))).
      * cbn. lia.
      * cbn. lia.
    + apply Hin; [done|]. cbn [sp_ids i_set_channels i_channels]. rewrite or_same_left by done. by rewrite decide_True, Hk.
Qed.

(** A record that goes to the end of the log; the identifiers are not touched. *)
Definition logs (r : record) (st st' : spec_state) : Prop :=
  sp_log st' = sp_log st ++ [r] ∧ log_ok st' ∧ (i_schema_ids (sp_ids st'), next_schema st') = (i_schema_ids (sp_ids st), next_schema st) ∧
  (i_channel_ids (sp_ids st'), next_channel st') = (i_channel_ids (sp_ids st), next_channel st).
Lemma logs_dense r st st' : logs r st st' → (dense_schemas st ↔ dense_schemas st') ∧ (dense_channels st ↔ dense_channels st').
Proof. unfold dense_schemas, dense_channels. by intros (_ & _ & [= -> ->] & [= -> ->]). Qed.

Lemma logged_imp (p q : record → bool) l : (∀ r, p r = true → q r = true) → (logged p l ≤ logged q l)%Z.
Proof.
  intros Hpq. unfold logged. induction l as [|r l IH]; [done|]. cbn [List.filter]. specialize (Hpq r).
  destruct (p r), (q r); rewrite ?zlen_cons; lia.
Qed.

Lemma client_write_known st h data c : log_ok st → channel_in (sp_log st) (m_channel_id h) = Some c → (messages_in (sp_log st) < u64_max)%Z →
  ∃ st', spec_write_to_known_channel h data st = (Ok (), st') ∧ logs (RMessage h data) st st'.
Proof.
  intros Hok Hc Hm. pose proof (write_to_known_keeps h data st Hok) as Hok'. revert Hok'.
  unfold spec_write_to_known_channel, get_ids. rewrite bind_gets, (channel_in_used st _ c Hok Hc). cbn [negb].
  assert (0 ≤ default 0 (bt_get (m_channel_id h) (i_counts (sp_ids st))) < u64_max)%Z as Hcount.
  { rewrite (lo_counts _ Hok). split; [apply logged_nonneg|]. eapply Z.le_lt_trans; [|exact Hm]. by apply logged_imp; intros []. }
  rewrite add_Ok by lia. unfold on_ids, emit. intros Hok'. eexists. split; [reflexivity|]. split_and!; try done.
Qed.

Definition is_extra (r : record) : bool := is_attachment_record r || is_metadata_record r.

Lemma emit_counted_spec st p r : log_ok st → declared_schema r = None → declared_channel r = None → is_message r = false →
  (logged is_attachment_record (sp_log st ++ [r]) ≤ u32_max)%Z → (logged is_metadata_record (sp_log st ++ [r]) ≤ u32_max)%Z →
  (logged p (sp_log st) < u32_max)%Z → ∃ st', emit_counted p r st = (Ok (), st') ∧ logs r st st'.
Proof.
  intros Hok Hs Hc Hm Ha Hmd Hp. unfold emit_counted. rewrite bind_gets. rewrite (proj2 (Z.ltb_lt _ _)) by done.
  eexists. split; [reflexivity|]. split_and!; try done. by apply log_ok_other.
Qed.
Lemma client_attach st o header data : log_ok st → (logged is_attachment_record (sp_log st) < u32_max)%Z →
  ∃ st', spec_attach (wo_calculate_attachment_crcs o) (attachment_of header data) st = (Ok (), st') ∧ logs (attachment_record o header data) st st'.
Proof.
  intros Hok Ha. pose proof (lo_metadatas _ Hok).
  assert (spec_attach (wo_calculate_attachment_crcs o) (attachment_of header data) st =
    emit_counted is_attachment_record (attachment_record o header data) st) as ->.
  { destruct header as [lt ct nm mt]. unfold spec_attach, attachment_record, attachment_crc, attachment_prefix, attachment_of, attachment_hashed.
    cbn -[crc32 c_enc emit_counted]. by rewrite <-app_assoc. }
  apply emit_counted_spec; try done; rewrite logged_snoc; cbn [is_attachment_record is_metadata_record attachment_record]; rewrite ?Z.add_0_r; [lia|done].
Qed.
Lemma client_write_metadata st m : log_ok st → (logged is_metadata_record (sp_log st) < u32_max)%Z →
  ∃ st', spec_write_metadata m st = (Ok (), st') ∧ logs (RMetadata m) st st'.
Proof.
  intros Hok Ha. pose proof (lo_attachments _ Hok). apply emit_counted_spec; try done; rewrite logged_snoc; cbn [is_attachment_record is_metadata_record]; rewrite ?Z.add_0_r; [done|lia].
Qed.
End client.
