(* ===== verification/SpecMessages.v ===== *)
(** What a client of the writer's specification can rely on when it writes messages under
    the identifiers that their channels and schemas have: if no two of them share an
    identifier, every message is written, and is in the log as it was given. *)

From S2P Require Import Prelude Utf8 BTree Errors Bin Records Crc Io Codec Channels Read ReadTheory Conversation MessageStream Summary ChunkWriter ChunkWriterTheory Writer WriterTheory WriterSpec Instances WriterLog WriterMessages SpecClient.

(** Channels by identifier: they agree on the schemas. *)
Record consistent (chans : gmap Z Channel) : Prop := {
  cs_id i c : chans !! i = Some c → channel_id c = i ∧ (0 ≤ i ≤ u16_max)%Z;
  cs_range i c s : chans !! i = Some c → channel_schema c = Some s → (1 ≤ schema_id s ≤ u16_max)%Z;
  cs_schema i j c d s t : chans !! i = Some c → chans !! j = Some d → channel_schema c = Some s → channel_schema d = Some t →
    schema_id s = schema_id t → s = t;
}.

Section messages.
Context `{Crc, !BiMap ChannelContent Z, !BiMap SchemaContent Z, !BiMapOk ChannelContent Z, !BiMapOk SchemaContent Z}.
Context (chans : gmap Z Channel) (Hc : consistent chans).
Implicit Types st : spec_state.

(** A log that declares those channels and their schemas only. *)
Record uses st : Prop := {
  us_ok : log_ok st;
  us_schema id s : schema_in (sp_log st) id = Some s → ∃ i c, chans !! i = Some c ∧ channel_schema c = Some s;
  us_channel id c : channel_in (sp_log st) id = Some c → chans !! id = Some c;
}.

Lemma schema_in_id lg id s : schema_in lg id = Some s → schema_id s = id.
Proof. unfold schema_in. rewrite fmap_Some. by intros (c & _ & ->). Qed.

(** An identifier that is in use, and the content that it has. *)
Lemma used_schema st id k : log_ok st → bt_get id (i_schema_ids (sp_ids st)) = Some k →
  ∃ c, bm_get_by_left c (i_schemas (sp_ids st)) = Some k ∧ schema_in (sp_log st) id = Some (schema_named id c).
Proof.
  intros Hok Hg. destruct (reg_canonical _ _ _ (schemas_ok _ (lo_ids _ Hok)) _ _ Hg) as [c Hk]. exists c. split; [by apply bm_sides|].
  unfold schema_in. rewrite (scoped_assoc_schema _ _ c (lo_scoped _ Hok)); [done|]. apply (rl_decl _ _ _ (lo_schemas _ Hok)). by exists k.
Qed.
Lemma used_channel st id k : log_ok st → bt_get id (i_channel_ids (sp_ids st)) = Some k →
  ∃ c, bm_get_by_left c (i_channels (sp_ids st)) = Some k ∧ channel_in (sp_log st) id = Some (channel_named (sp_log st) id c).
Proof.
  intros Hok Hg. destruct (reg_canonical _ _ _ (channels_ok _ (lo_ids _ Hok)) _ _ Hg) as [c Hk]. exists c. split; [by apply bm_sides|].
  unfold channel_in. rewrite (scoped_assoc_channel _ _ c (lo_scoped _ Hok)); [done|]. apply (rl_decl _ _ _ (lo_channels _ Hok)). by exists k.
Qed.

Lemma ensure_schema_spec st i c s : uses st → chans !! i = Some c → channel_schema c = Some s →
  ∃ st', spec_ensure_schema s st = (Ok (), st') ∧ uses st' ∧ extends st st' ∧ schema_in (sp_log st') (schema_id s) = Some s.
Proof.
  intros [Hok Hus Huc] Hi Hs. pose proof (cs_range _ Hc _ _ _ Hi Hs) as Hr. unfold spec_ensure_schema, get_ids. rewrite bind_gets.
  set (content := mkSchemaContent (schema_name s) (schema_encoding s) (schema_data s)).
  assert (schema_named (schema_id s) content = s) as Hnamed by by destruct s.
  destruct (bt_get (schema_id s) (i_schema_ids (sp_ids st))) as [k|] eqn:Hg.
  - destruct (used_schema _ _ _ Hok Hg) as (c' & Hk & Hin). destruct (Hus _ _ Hin) as (j & d & Hj & Hd).
    assert (schema_named (schema_id s) c' = s) as He by (symmetry; by eapply (cs_schema _ Hc i j)).
    assert (c' = content) as -> by (rewrite <-Hnamed in He; destruct c'; unfold schema_named in He; cbn in He; by simplify_eq).
    rewrite Hk, Z.eqb_refl. exists st. split_and!; [done|done|by apply extends_refl|by rewrite Hin, Hnamed].
  - pose proof (log_ok_schema st content (schema_id s) (i_next_schema (sp_ids st)) Hok Hg ltac:(lia) (reg_next _ _ _ (schemas_ok _ (lo_ids _ Hok)))) as Hok'.
    unfold on_ids, emit. rewrite bind_modify. eexists. split; [reflexivity|]. cbn -[bt_insert] in Hok' |- *.
    assert (∀ id, schema_in (sp_log st ++ [RSchema (mkSchemaHeader (schema_id s) (schema_name s) (schema_encoding s)) (schema_data s)]) id =
      match schema_in (sp_log st) id with Some t => Some t | None => if (schema_id s =? id)%Z then Some s else None end) as Hsi.
    { intros id. rewrite schema_in_snoc. cbn. destruct (schema_in _ id); [done|]. destruct (Z.eqb_spec (schema_id s) id) as [<-|]; [|done]. by destruct s. }
    assert (schema_in (sp_log st) (schema_id s) = None) as Hnone.
    { destruct (schema_in _ _) as [t|] eqn:Ht; [|done]. pose proof (schema_in_used _ _ _ Hok Ht) as Hu. unfold bt_contains in Hu. by rewrite Hg in Hu. }
    split_and!.
    + split; cbn [sp_log]; [exact Hok'|..].
      * intros id t. rewrite Hsi. destruct (schema_in (sp_log st) id) eqn:E; [intros [= <-]; by eapply Hus|].
        destruct (schema_id s =? id)%Z; [|done]. intros [= <-]. by exists i, c.
      * intros id d. rewrite channel_in_snoc by apply (lo_scoped _ Hok'). destruct (channel_in (sp_log st) id) eqn:E; [intros [= <-]; by apply Huc|done].
    + eexists [_]. split; [done|]. by split.
    + etransitivity; [exact (Hsi _)|]. by rewrite Hnone, Z.eqb_refl.
Qed.

Lemma ensure_channel_spec st i c : uses st → chans !! i = Some c → (∀ s, channel_schema c = Some s → schema_in (sp_log st) (schema_id s) = Some s) →
  ∃ st', spec_ensure_channel c st = (Ok (), st') ∧ uses st' ∧ extends st st' ∧ channel_in (sp_log st') i = Some c.
Proof.
  intros [Hok Hus Huc] Hi Hs. destruct (cs_id _ Hc _ _ Hi) as [Hid Hr]. unfold spec_ensure_channel, get_ids. rewrite bind_gets, Hid.
  set (content := mkChannelContent (channel_topic c) (channel_schema_id c) (channel_message_encoding c) (channel_metadata c)).
  assert (schema_known st (channel_schema_id c)) as Hknown.
  { unfold schema_known, channel_schema_id. destruct (channel_schema c) as [s|] eqn:Es; [right|by left]. cbn.
    pose proof (schema_in_used _ _ _ Hok (Hs s eq_refl)) as Hu. unfold bt_contains in Hu. by destruct (bt_get _ _). }
  assert ((if (channel_schema_id c =? 0)%Z then None else schema_in (sp_log st) (channel_schema_id c)) = channel_schema c) as Hsch.
  { unfold channel_schema_id. destruct (channel_schema c) as [s|] eqn:Es; [|done]. cbn. pose proof (cs_range _ Hc _ _ _ Hi Es).
    rewrite (proj2 (Z.eqb_neq _ _)) by lia. by apply Hs. }
  destruct (bt_get i (i_channel_ids (sp_ids st))) as [k|] eqn:Hg.
  - destruct (used_channel _ _ _ Hok Hg) as (c' & Hk & Hin). pose proof (Huc _ _ Hin) as Hi'. rewrite Hi in Hi'. injection Hi' as Hcc.
    assert (c' = content) as ->.
    { unfold content. rewrite Hcc. unfold channel_schema_id. unfold channel_named. destruct c' as [t sid e m]. cbn. f_equal.
      destruct (Z.eqb_spec sid 0) as [->|Hne]; [done|].
      pose proof (lo_scoped _ Hok) as Hsc. assert ((i, mkChannelContent t sid e m) ∈ log_channels (sp_log st)) as Hlc.
      { apply (rl_decl _ _ _ (lo_channels _ Hok)). exists k. split; [done|by apply bm_sides]. }
      destruct (scoped_linked _ _ _ Hsc Hlc) as [|[x Hx]%assoc_in]; [done|]. cbn in Hx. unfold schema_in. by rewrite Hx. }
    rewrite Hk, Z.eqb_refl. exists st. split_and!; [done|done|by apply extends_refl|by rewrite Hin, <-Hcc].
  - pose proof (log_ok_channel st content i (i_next_channel (sp_ids st)) Hok Hg Hknown Hr (reg_next _ _ _ (channels_ok _ (lo_ids _ Hok)))) as Hok'.
    unfold on_ids, emit. rewrite bind_modify. eexists. split; [reflexivity|]. cbn -[bt_insert] in Hok' |- *.
    assert (∀ id, channel_in (sp_log st ++ [RChannel (mkChannelRecord i (channel_schema_id c) (channel_topic c) (channel_message_encoding c) (channel_metadata c))]) id =
      match channel_in (sp_log st) id with Some t => Some t | None => if (i =? id)%Z then Some c else None end) as Hci.
    { intros id. rewrite channel_in_snoc by apply (lo_scoped _ Hok'). destruct (channel_in _ id); [done|]. cbn [c_id c_topic c_schema_id c_message_encoding c_metadata].
      destruct (Z.eqb_spec i id) as [<-|]; [|done]. rewrite Hsch, <-Hid. by destruct c. }
    assert (channel_in (sp_log st) i = None) as Hnone.
    { destruct (channel_in _ _) as [t|] eqn:Ht; [|done]. pose proof (channel_in_used _ _ _ Hok Ht) as Hu. unfold bt_contains in Hu. by rewrite Hg in Hu. }
    split_and!.
    + split; cbn [sp_log]; [exact Hok'|..].
      * intros id t. rewrite schema_in_snoc. destruct (schema_in (sp_log st) id) eqn:E; [intros [= <-]; by eapply Hus|done].
      * intros id d. rewrite Hci. destruct (channel_in (sp_log st) id) eqn:E; [intros [= <-]; by apply Huc|].
        destruct (Z.eqb_spec i id) as [<-|]; [|done]. by intros [= <-].
    + eexists [_]. split; [done|]. by split.
    + etransitivity; [exact (Hci _)|]. by rewrite Hnone, Z.eqb_refl.
Qed.

(** A message on one of the channels. *)
Lemma client_write st m : uses st → chans !! channel_id (message_channel m) = Some (message_channel m) → (messages_in (sp_log st) < u64_max)%Z →
  ∃ st', spec_write m st = (Ok (), st') ∧ uses st' ∧ messages_of_log (sp_log st') = messages_of_log (sp_log st) ++ [m] ∧
    List.filter is_extra (sp_log st') = List.filter is_extra (sp_log st) ∧ messages_in (sp_log st') = (messages_in (sp_log st) + 1)%Z.
Proof.
  intros Hu Hi Hm. set (c := message_channel m) in *. pose proof Hu as [Hok _ _].
  assert (∃ st1, match channel_schema c with Some s => spec_ensure_schema s | None => mret () end st = (Ok (), st1) ∧ uses st1 ∧ extends st st1 ∧
    ∀ s, channel_schema c = Some s → schema_in (sp_log st1) (schema_id s) = Some s) as (st1 & E1 & Hu1 & Hx1 & Hs1).
  { destruct (channel_schema c) as [s|] eqn:Hs.
    - destruct (ensure_schema_spec st _ _ _ Hu Hi Hs) as (st1 & E & Hu1 & Hx & Hin). exists st1. split_and!; try done. by intros t [= <-].
    - exists st. split_and!; try done. by apply extends_refl. }
  destruct (ensure_channel_spec st1 _ _ Hu1 Hi Hs1) as (st2 & E2 & Hu2 & Hx2 & Hin). pose proof (extends_trans _ _ _ Hx1 Hx2) as Hx.
  set (h := mkMessageHeader (channel_id c) (message_sequence m) (message_log_time m) (message_publish_time m)).
  assert (∀ p : record → bool, (∀ r, is_declaration r = true → p r = false) → List.filter p (sp_log st2) = List.filter p (sp_log st)) as Hf
    by (intros p Hp; by apply (extends_filter _ _ _ Hx)).
  assert (messages_in (sp_log st2) = messages_in (sp_log st)) as Hm2 by (unfold messages_in; rewrite Hf; [done|by intros []]).
  destruct (client_write_known st2 h (message_data m) c (us_ok _ Hu2) Hin ltac:(lia)) as (st3 & E3 & Hlog & Hok3 & _).
  exists st3. split_and!.
  - unfold spec_write. fold c. rewrite (bind_method_Ok _ _ _ _ _ E1), (bind_method_Ok _ _ _ _ _ E2). exact E3.
  - destruct Hu2 as [Hok2 Hus2 Huc2]. split; rewrite ?Hlog; [done|..].
    + intros id s. rewrite schema_in_snoc. destruct (schema_in (sp_log st2) id) eqn:E; [intros [= <-]; by eapply Hus2|done].
    + intros id d. rewrite channel_in_snoc by (rewrite <-Hlog; apply (lo_scoped _ Hok3)).
      destruct (channel_in (sp_log st2) id) eqn:E; [intros [= <-]; by apply Huc2|done].
  - rewrite Hlog, messages_of_log_app by apply Hu2. rewrite (extends_messages _ _ Hok Hx). f_equal. cbn.
    rewrite (channel_in_app _ _ _ c (lo_scoped _ (us_ok _ Hu2)) Hin). cbn. unfold message_on. by destruct m.
  - rewrite Hlog, List.filter_app, app_nil_r. apply Hf. by intros [].
  - by rewrite Hlog, messages_in_snoc, Hm2.
Qed.
End messages.
