(* ===== verification/Recover.v ===== *)
(** The recover command (recover.rs): what can be read of a file that may be cut short or
    damaged is written to a new one.

    Schemas and channels get new identifiers, a message goes to the channel that its own
    channel became, and what cannot be placed is left out.  The warnings are not modelled;
    that a channel was warned of is. *)

From S2P Require Import Prelude Utf8 BTree Errors Bin Records Crc Io Codec RwBuf Decompressor LinearReader Channels Read Summary ChunkWriter Writer WriterSpec Cli Common Sink.

Record RecoverOptions := mkRecoverOptions {
  rec_compression : option Compression;
  rec_chunk_size : Z;
  rec_always_decode_chunk : bool;
}.
Record RecoverStats := mkRecoverStats {
  rec_messages : Z;
  rec_attachments : Z;
  rec_metadata : Z;
}.
Record SchemaDef := mkSchemaDef {
  sd_name : rstring;
  sd_encoding : rstring;
  sd_data : bytes;
}.
#[export] Instance SchemaDef_eq_dec : EqDecision SchemaDef.
Proof. solve_decision. Defined.

Record RecoveryState := mkRecoveryState {
  schema_map : list (Z * Z);
  channel_map : list (Z * Z);
  seen_schemas : list (Z * SchemaDef);
  seen_channels : list (Z * ChannelRecord);
  pending_channels : list (Z * ChannelRecord);
  warned_missing_channels : list (Z * ());
}.
Definition RecoveryState_default : RecoveryState := mkRecoveryState [] [] [] [] [] [].

(** ** The start of the input *)

Definition validate_start_magic (input : bytes) : Result () :=
  if (zlen input <? zlen MAGIC)%Z || negb (bool_decide (ztake (zlen MAGIC) input = MAGIC)) then mthrow (FromMcap BadMagic) else mret ().

Section sniff.
Context `{Crc}.

Definition sniff_header (input : bytes) : outcome anyhow (option Header) :=
  let offset := zlen MAGIC in
  if (zlen input <? offset + 9)%Z then mret None else
  opcode ← expect (head (zdrop offset input));
  if negb (byte_to_Z opcode =? op.HEADER)%Z then mret None else
  let length := le_dec (ztake 8 (zdrop (offset + 1) input)) in
  let body_start := (offset + 9)%Z in
  let body_end := (body_start + length)%Z in
  if (usize_max <? body_end)%Z || (zlen input <? body_end)%Z then mret None else
  match parse_record op.HEADER (ztake length (zdrop body_start input)) with
  | Ok (RHeader header) => mret (Some header)
  | Panic => Panic
  | Fuel => Fuel
  | _ => mret None
  end.
End sniff.

(** ** The records *)

(** What [recover_records] keeps while it reads. *)
Record recovery := mkRecovery {
  rc_state : RecoveryState;
  rc_stats : RecoverStats;
  saw_any_record : bool;
}.
Definition recovery_default : recovery := mkRecovery RecoveryState_default (mkRecoverStats 0 0 0) false.

Section recover.
Context `{Crc, ZstdLib, Lz4Lib} `{Sink Wr}.
Abbreviation recover A := (method (Job Wr recovery) anyhow A).

(** [state.f], and assignments to the fields. *)
Definition from_state {A} (f : RecoveryState → A) : recover A := on_state (gets (λ c, f (rc_state c))).
Definition in_state (f : RecoveryState → RecoveryState) : recover () :=
  on_state (modify (λ c, mkRecovery (f (rc_state c)) (rc_stats c) (saw_any_record c))).
Definition set_schema_map m s := mkRecoveryState m (channel_map s) (seen_schemas s) (seen_channels s) (pending_channels s) (warned_missing_channels s).
Definition set_channel_map m s := mkRecoveryState (schema_map s) m (seen_schemas s) (seen_channels s) (pending_channels s) (warned_missing_channels s).
Definition set_seen_schemas m s := mkRecoveryState (schema_map s) (channel_map s) m (seen_channels s) (pending_channels s) (warned_missing_channels s).
Definition set_seen_channels m s := mkRecoveryState (schema_map s) (channel_map s) (seen_schemas s) m (pending_channels s) (warned_missing_channels s).
Definition set_pending m s := mkRecoveryState (schema_map s) (channel_map s) (seen_schemas s) (seen_channels s) m (warned_missing_channels s).
Definition set_warned m s := mkRecoveryState (schema_map s) (channel_map s) (seen_schemas s) (seen_channels s) (pending_channels s) m.

(** [stats.f += 1] *)
Definition count (f : RecoverStats → Result RecoverStats) : recover () :=
  on_state (c ← get; stats ← lift (f (rc_stats c)); put (mkRecovery (rc_state c) stats (saw_any_record c))).
Definition count_message : recover () :=
  count (λ s, n ← add_ u64_max (rec_messages s) 1; mret (mkRecoverStats n (rec_attachments s) (rec_metadata s))).
Definition count_attachment : recover () :=
  count (λ s, n ← add_ u64_max (rec_attachments s) 1; mret (mkRecoverStats (rec_messages s) n (rec_metadata s))).
Definition count_metadata : recover () :=
  count (λ s, n ← add_ u64_max (rec_metadata s) 1; mret (mkRecoverStats (rec_messages s) (rec_attachments s) n)).

Definition write_channel_mapping (channel : ChannelRecord) : recover () :=
  state ← from_state (λ s, s);
  match (if (c_schema_id channel =? 0)%Z then Some 0%Z else bt_get (c_schema_id channel) (schema_map state)) with
  | None => mret ()
  | Some output_schema_id =>
      output_channel_id ← on_writer (sink_add_channel output_schema_id (c_topic channel) (c_message_encoding channel) (c_metadata channel));
      _ ← in_state (λ s, set_channel_map (bt_insert (c_id channel) output_channel_id (channel_map s)) s);
      in_state (λ s, set_seen_channels (bt_insert (c_id channel) channel (seen_channels s)) s)
  end.

(** The channels that waited for a schema, by identifier. *)
Definition waiting_for (schema_id : Z) (pending : list (Z * ChannelRecord)) : list Z :=
  (List.filter (λ p, (c_schema_id p.2 =? schema_id)%Z) pending).*1.
Definition resolve_pending_channel (channel_id : Z) : recover () :=
  pending ← from_state pending_channels;
  match bt_get channel_id pending with
  | None => mret ()
  | Some channel =>
      _ ← in_state (set_pending (bt_remove channel_id pending));
      write_channel_mapping channel
  end.
Definition resolve_pending_channels (schema_id : Z) : recover () :=
  to_resolve ← from_state (λ s, waiting_for schema_id (pending_channels s));
  for_all resolve_pending_channel to_resolve.

Definition register_schema (input_schema_id : Z) (name encoding : rstring) (data : bytes) : recover () :=
  let schema := mkSchemaDef name encoding data in
  seen ← from_state seen_schemas;
  match bt_get input_schema_id seen with
  | Some existing => mret ()
  | None =>
      output_schema_id ← on_writer (sink_add_schema name encoding data);
      _ ← in_state (λ s, set_schema_map (bt_insert input_schema_id output_schema_id (schema_map s)) s);
      _ ← in_state (λ s, set_seen_schemas (bt_insert input_schema_id schema (seen_schemas s)) s);
      resolve_pending_channels input_schema_id
  end.

Definition register_channel (channel : ChannelRecord) : recover () :=
  state ← from_state (λ s, s);
  match bt_get (c_id channel) (seen_channels state) with
  | Some existing => mret ()
  | None =>
      if negb (c_schema_id channel =? 0)%Z && negb (bt_contains (c_schema_id channel) (schema_map state))
      then in_state (λ s, set_pending (bt_insert (c_id channel) channel (pending_channels s)) s)
      else write_channel_mapping channel
  end.

Definition recover_record (r : record) : recover () :=
  match r with
  | RSchema header data => register_schema (sh_id header) (sh_name header) (sh_encoding header) data
  | RChannel channel => register_channel channel
  | RMessage header data =>
      channels ← from_state channel_map;
      match bt_get (m_channel_id header) channels with
      | None => in_state (λ s, set_warned (bt_insert (m_channel_id header) () (warned_missing_channels s)) s)
      | Some channel_id =>
          let recovered_header := mkMessageHeader channel_id (m_sequence header) (m_log_time header) (m_publish_time header) in
          _ ← on_writer (sink_write_to_known_channel recovered_header data);
          count_message
      end
  | RAttachment header data _ =>
      _ ← on_writer (sink_attach (mkAttachment (ah_log_time header) (ah_create_time header) (ah_name header) (ah_media_type header) data));
      count_attachment
  | RMetadata metadata =>
      _ ← on_writer (sink_write_metadata metadata);
      count_metadata
  | _ => mret ()
  end.

Definition recover_reader (input : bytes) : LinearReaderOptions :=
  with_record_length_limit (zlen input) (with_validate_chunk_crcs false (with_emit_chunks false
    (with_skip_end_magic true LinearReaderOptions_default))).

(** A record that does not parse is skipped. *)
Definition recover_event (opcode : Z) (data : bytes) : recover () :=
  _ ← on_state (modify (λ c, mkRecovery (rc_state c) (rc_stats c) true));
  match parse_record opcode data with
  | Ok record => recover_record record
  | Err err => mret ()
  | Panic => lift Panic
  | Fuel => lift Fuel
  end.
(** An error of the reader ends the scan. *)
Definition recover_error (err : McapError) : recover () :=
  saw_any_record ← on_state (gets saw_any_record);
  if negb saw_any_record then mthrow (FromMcap err) else mret ().

Definition recover_records (fuel : nat) (input : bytes) : recover () :=
  scan_loop fuel recover_event recover_error (mkInnerReader input (LinearReader_new (recover_reader input))).
End recover.

(** ** The command *)

Section command.
Context `{Crc, ZstdLib, Lz4Lib, HashOrder, ZstdEncoderLib, Lz4EncoderLib} `{Write W, Seek W}.
Context `{!BiMap ChannelContent Z, !BiMap SchemaContent Z}.

(** [run]: the options, from the arguments. *)
Definition recover_options (compression : rstring) (chunk_size : Z) (always_decode_chunk : bool) : Result RecoverOptions :=
  compression ← parse_output_compression compression;
  mret (mkRecoverOptions compression chunk_size always_decode_chunk).

(** The options of the writer; [version] and [cpus] are those of its defaults. *)
Definition recover_write_options (version : rstring) (cpus : Z) (header : option Header) (opts : RecoverOptions) (disable_seeking : bool) : WriteOptions :=
  let write_options := options.disable_seeking disable_seeking (options.compression (rec_compression opts)
    (options.chunk_size (Some (rec_chunk_size opts)) (WriteOptions_default version cpus))) in
  match header with
  | Some header => options.library (h_library header) (options.profile (h_profile header) write_options)
  | None => write_options
  end.

Definition recover_to_sink (version : rstring) (cpus : Z) (fuel : nat) (input : bytes) (sink : W) (opts : RecoverOptions) (disable_seeking : bool)
    : Result (RecoverStats * W) :=
  _ ← validate_start_magic input;
  header ← sniff_header input;
  writer ← with_context "failed to create output MCAP writer" []
    (from_mcap (Writer_with_options sink (recover_write_options version cpus header opts disable_seeking)));
  '(_, job) ← run (_ ← recover_records fuel input;
                   in_context "failed to finish recovered MCAP" [] (on_writer wr_finish)) (mkJob writer recovery_default);
  sink ← from_mcap (wr_into_inner (job_writer job));
  mret (rc_stats (job_state job), sink).
End command.
