(* ===== verification/RecoverTheory.v ===== *)
(** What recover saves.

    First for records in any order, with anything missing: recover always comes to its
    end, no attachment and no metadata is lost, and what it calls the writer with is in
    order.  Then for records that a reader accepts: no message is lost either. *)

From S2P Require Import Prelude Utf8 BTree Errors Bin Records Crc Io Codec RwBuf Decompressor LinearReader LinearReaderTheory LinearReaderClient LinearReaderFile Channels Read ReadTheory Conversation Streaming LinearReaderFlat MessageStream Summary ChunkWriter ChunkWriterTheory Writer WriterTheory WriterSpec Instances WriterLog WriterFile WriterSummary WriterRoundtrip WriterMessages Cli Sink SinkTheory SinkCost SpecClient Common Recover.

(** ** Recover makes calls of the writer, and nothing else *)

Section calls.
Context `{Crc, !CrcLaws, ZstdEncoderLib, Lz4EncoderLib} `{FileOk W file}.
Context `{!BiMap ChannelContent Z, !BiMap SchemaContent Z, !BiMapOk ChannelContent Z, !BiMapOk SchemaContent Z}.
Context `{ZstdLib, Lz4Lib}.
Context (o : WriteOptions).
Context `{!EncoderOk (wo_compression o) (wo_compression_level o) (wo_compression_threads o)}.
#[local] Hint Extern 0 (Sink spec_state) => exact (spec_sink o) : typeclass_instances.

Ltac follow := repeat first [progress intros | solve [eauto with follows] | apply follows_bind | apply follows_each | case_match].

Lemma from_state_follows {A} (f : RecoveryState → A) : follows o (from_state f) (from_state f).
Proof. apply follows_on_state. Qed.
Lemma in_state_follows f : follows o (in_state f) (in_state f).
Proof. apply follows_on_state. Qed.
Lemma count_follows f : follows o (count f) (count f).
Proof. apply follows_on_state. Qed.
#[local] Hint Resolve from_state_follows in_state_follows count_follows : follows.

Lemma write_channel_mapping_follows channel : chunks_bounded o → follows o (write_channel_mapping channel) (write_channel_mapping channel).
Proof. intros Hb. unfold write_channel_mapping, sink_add_channel. follow. Qed.
#[local] Hint Resolve write_channel_mapping_follows : follows.
Lemma resolve_pending_channels_follows schema_id : chunks_bounded o → follows o (resolve_pending_channels schema_id) (resolve_pending_channels schema_id).
Proof. intros Hb. unfold resolve_pending_channels, resolve_pending_channel. follow. Qed.
#[local] Hint Resolve resolve_pending_channels_follows : follows.
Lemma recover_record_follows r : chunks_bounded o → follows o (recover_record r) (recover_record r).
Proof.
  intros Hb. destruct r; unfold recover_record, register_schema, register_channel, count_message, count_attachment, count_metadata,
    sink_add_schema, sink_write_to_known_channel, sink_attach, sink_write_metadata; follow.
Qed.
Lemma recover_records_follows fuel input : chunks_bounded o → follows o (recover_records fuel input) (recover_records fuel input).
Proof.
  intros Hb. apply follows_scan_loop.
  - intros op b. unfold recover_event. follow. by apply recover_record_follows.
  - intros e. unfold recover_error. follow.
Qed.
End calls.

(** ** What holds after any records *)

Definition is_schema_record (r : record) : bool := match r with RSchema _ _ => true | _ => false end.
Definition is_channel_record (r : record) : bool := match r with RChannel _ => true | _ => false end.

(** Few enough for the identifiers and the counts there are. *)
Record within_limits (rs : list record) : Prop := {
  wl_schemas : (logged is_schema_record rs < u16_max)%Z;
  wl_channels : (logged is_channel_record rs < u16_max)%Z;
  wl_attachments : (logged is_attachment_record rs ≤ u32_max)%Z;
  wl_metadata : (logged is_metadata_record rs ≤ u32_max)%Z;
  wl_messages : (messages_in rs ≤ u64_max)%Z;
}.
Lemma within_limits_app l k : within_limits (l ++ k) → within_limits l.
Proof.
  intros [Hs Hc Ha Hm Hms]. assert (messages_in (l ++ k) = messages_in l + messages_in k)%Z as Hmsg by exact (logged_app is_message l k).
  rewrite !logged_app in *. pose proof (logged_nonneg is_schema_record k). pose proof (logged_nonneg is_channel_record k).
  pose proof (logged_nonneg is_attachment_record k). pose proof (logged_nonneg is_metadata_record k). pose proof (zlen_nonneg (List.filter is_message k)).
  unfold messages_in in *. split; try unfold messages_in; lia.
Qed.

Section salvage.
Context `{Crc, !CrcLaws, ZstdEncoderLib, Lz4EncoderLib}.
Context `{!BiMap ChannelContent Z, !BiMap SchemaContent Z, !BiMapOk ChannelContent Z, !BiMapOk SchemaContent Z}.
Context `{ZstdLib, Lz4Lib}.
Context (o : WriteOptions).
Context `{!EncoderOk (wo_compression o) (wo_compression_level o) (wo_compression_threads o)}.
#[local] Hint Extern 0 (Sink spec_state) => exact (spec_sink o) : typeclass_instances.
Abbreviation next_schema st := (i_next_schema (sp_ids st)).
Abbreviation next_channel st := (i_next_channel (sp_ids st)).
Abbreviation job := (Job (spec_state * list call) recovery).
Implicit Types (st : spec_state) (c : recovery).

(** An attachment gets the checksum the options ask for. *)
Definition rewritten (r : record) : record :=
  match r with RAttachment header data _ => attachment_record o header data | _ => r end.
(** What some records cost to copy. *)
Definition price (rs : list record) : Z := foldr (λ r n, (record_cost o r + n)%Z) 0%Z rs.
Lemma price_app l k : price (l ++ k) = (price l + price k)%Z.
Proof. unfold price. induction l as [|r l IH]; [done|]. cbn. rewrite IH. lia. Qed.
Lemma price_cons r l : price (r :: l) = (record_cost o r + price l)%Z.
Proof. done. Qed.
Lemma price_pos l : (0 ≤ price l)%Z.
Proof. unfold price. induction l as [|r l IH]; [done|]. cbn. pose proof (record_cost_pos o r). lia. Qed.
Definition waiting (l : list (Z * ChannelRecord)) : list record := (λ p, RChannel p.2) <$> l.

(** The records [done] were recovered; [hand], of the channels that waited, are about to
    be written. *)
Record salvage (done hand : list record) st (calls : list call) c : Prop := {
  sv_log : log_ok st;
  sv_schemas : dense_schemas st;
  sv_channels : dense_channels st;
  sv_next_schema : (next_schema st ≤ 1 + logged is_schema_record done)%Z;
  sv_next_channel : (next_channel st + zlen (pending_channels (rc_state c)) + zlen hand ≤ 1 + logged is_channel_record done)%Z;
  sv_schema_map i k : bt_get i (schema_map (rc_state c)) = Some k → is_Some (schema_in (sp_log st) k);
  sv_channel_map i k : bt_get i (channel_map (rc_state c)) = Some k → is_Some (channel_in (sp_log st) k);
  sv_sorted : bt_sorted (schema_map (rc_state c)) = true ∧ bt_sorted (channel_map (rc_state c)) = true ∧
    bt_sorted (seen_schemas (rc_state c)) = true ∧ bt_sorted (seen_channels (rc_state c)) = true ∧ bt_sorted (pending_channels (rc_state c)) = true;
  sv_extra : List.filter is_extra (sp_log st) = rewritten <$> List.filter is_extra done;
  sv_messages : (messages_in (sp_log st) ≤ messages_in done)%Z;
  sv_stats : rc_stats c = mkRecoverStats (messages_in (sp_log st)) (logged is_attachment_record (sp_log st)) (logged is_metadata_record (sp_log st));
  sv_calls : Forall (λ r, record_wf r = true) done → Forall (call_ok o) calls ∧
    Forall (λ r, record_wf r = true) (waiting (pending_channels (rc_state c)) ++ hand) ∧
    (calls_cost o calls + price (waiting (pending_channels (rc_state c))) + price hand ≤ price done)%Z;
}.

(** What the log has of attachments and of metadata. *)
Lemma logged_extra (p : record → bool) st done : (∀ r, p r = true → is_extra r = true) → (∀ r, is_extra r = true → p (rewritten r) = p r) →
  List.filter is_extra (sp_log st) = rewritten <$> List.filter is_extra done → logged p (sp_log st) = logged p done.
Proof.
  intros Hp Hr He. assert (∀ l, List.filter p l = List.filter p (List.filter is_extra l)) as Hf.
  { induction l as [|r l IH]; [done|]. cbn [List.filter]. pose proof (Hp r) as Hpr. destruct (is_extra r) eqn:E; cbn [List.filter]; rewrite IH; [done|].
    destruct (p r); [by specialize (Hpr eq_refl)|done]. }
  unfold logged. rewrite (Hf (sp_log st)), (Hf done), He. clear He Hf.
  assert (∀ l, forallb is_extra l = true → zlen (List.filter p (rewritten <$> l)) = zlen (List.filter p l)) as Hz.
  { induction l as [|r l IH]; [done|]. cbn. rewrite andb_true_iff. intros [Hx Hl]. rewrite (Hr r Hx). destruct (p r); rewrite ?zlen_cons, (IH Hl); done. }
  apply Hz. apply forallb_forall. intros r Hin. by apply filter_In in Hin as [_ ?].
Qed.
Lemma salvage_attachments done hand st calls c : salvage done hand st calls c → logged is_attachment_record (sp_log st) = logged is_attachment_record done.
Proof. intros [_ _ _ _ _ _ _ _ He _ _ _]. apply logged_extra; [..|done]; by intros []. Qed.
Lemma salvage_metadata done hand st calls c : salvage done hand st calls c → logged is_metadata_record (sp_log st) = logged is_metadata_record done.
Proof. intros [_ _ _ _ _ _ _ _ He _ _ _]. apply logged_extra; [..|done]; by intros []. Qed.

(** *** A channel is written *)

Definition mapped (ch : ChannelRecord) (k : Z) c : recovery :=
  mkRecovery (set_seen_channels (bt_insert (c_id ch) ch (seen_channels (rc_state c)))
    (set_channel_map (bt_insert (c_id ch) k (channel_map (rc_state c))) (rc_state c))) (rc_stats c) (saw_any_record c).
Definition output_schema (ch : ChannelRecord) c : option Z :=
  if (c_schema_id ch =? 0)%Z then Some 0%Z else bt_get (c_schema_id ch) (schema_map (rc_state c)).
Abbreviation add_call ch sid := (AddChannel sid (c_topic ch) (c_message_encoding ch) (c_metadata ch)).

Lemma mapping_eval ch c st calls sid k st' : output_schema ch c = Some sid →
  spec_add_channel sid (c_topic ch) (c_message_encoding ch) (c_metadata ch) st = (Ok k, st') →
  write_channel_mapping ch (mkJob (st, calls) c) = (Ok (), mkJob (st', calls ++ [add_call ch sid]) (mapped ch k c)).
Proof.
  intros Hs E. unfold write_channel_mapping, output_schema in *. unfold mbind, method_bind, from_state, on_state. cbn.
  rewrite Hs. unfold on_writer, sink_add_channel, sink_call, traced, spec_sink. cbn. by rewrite E.
Qed.

(** What a log that goes on with declarations keeps. *)
Lemma extends_counts st st' : extends st st' → List.filter is_extra (sp_log st') = List.filter is_extra (sp_log st) ∧
  messages_in (sp_log st') = messages_in (sp_log st) ∧ logged is_attachment_record (sp_log st') = logged is_attachment_record (sp_log st) ∧
  logged is_metadata_record (sp_log st') = logged is_metadata_record (sp_log st).
Proof.
  intros He. unfold messages_in, logged. split_and!; [|f_equal..]; apply (extends_filter _ _ _ He); by intros [].
Qed.
Lemma output_schema_known done hand st calls c ch sid : salvage done hand st calls c → output_schema ch c = Some sid →
  sid = 0%Z ∨ is_Some (schema_in (sp_log st) sid).
Proof.
  intros Hsv. unfold output_schema. destruct (_ =? _)%Z; [intros [= <-]; by left|]. intros Hg. right. by eapply (sv_schema_map _ _ _ _ _ Hsv).
Qed.
Lemma schema_id_range st sid : log_ok st → dense_schemas st → (sid = 0%Z ∨ is_Some (schema_in (sp_log st) sid)) → (0 ≤ sid ≤ u16_max)%Z.
Proof.
  intros Hok Hd [->|[s Hs]]; [done|]. pose proof (dn_used _ _ Hd _ (schema_in_used _ _ _ Hok Hs)).
  pose proof (reg_next _ _ _ (schemas_ok _ (lo_ids _ Hok))). lia.
Qed.

Lemma mapping_salvages done hand st calls c ch sid : salvage done (RChannel ch :: hand) st calls c → within_limits done →
  output_schema ch c = Some sid → ∃ k st',
    write_channel_mapping ch (mkJob (st, calls) c) = (Ok (), mkJob (st', calls ++ [add_call ch sid]) (mapped ch k c)) ∧
    salvage done hand st' (calls ++ [add_call ch sid]) (mapped ch k c) ∧ extends st st' ∧
    channel_in (sp_log st') k = Some (channel_named (sp_log st') k (mkChannelContent (c_topic ch) sid (c_message_encoding ch) (c_metadata ch))).
Proof.
  intros Hsv Hl Hs. pose proof Hsv as [Hok Hds Hdc Hns Hnc Hsm Hcm (Hs1 & Hs2 & Hs3 & Hs4 & Hs5) He Hm Hst Hcalls].
  rewrite zlen_cons in Hnc. pose proof (zlen_nonneg (pending_channels (rc_state c))). pose proof (zlen_nonneg hand).
  pose proof (wl_channels _ Hl). pose proof (output_schema_known _ _ _ _ _ _ _ Hsv Hs) as Hknown.
  destruct (client_add_channel st sid (c_topic ch) (c_message_encoding ch) (c_metadata ch) Hok Hds Hdc ltac:(lia) Hknown) as (k & st' & E & Hr & Hin).
  destruct Hr as [Hext Hds' Hdc' Hns' Hnc']. pose proof Hext as (_ & _ & _ & Hok'). destruct (extends_counts _ _ Hext) as (Ex & Em & Ea & Emd).
  exists k, st'. split_and!; [by apply mapping_eval| |done|done]. split; try done; cbn [mapped rc_state rc_stats schema_map channel_map seen_schemas seen_channels pending_channels set_seen_channels set_channel_map].
  - lia.
  - lia.
  - intros i j Hg. destruct (Hsm i j Hg) as [s Hsi]. exists s. by apply (extends_schema _ _ _ _ Hext).
  - intros i j. rewrite bt_get_insert_case by done. destruct (decide (i = c_id ch)) as [->|].
    + intros [= <-]. by eexists.
    + intros Hg. destruct (Hcm i j Hg) as [x Hx]. exists x. by apply (extends_channel _ _ _ _ Hok Hext).
  - split_and!; try done; by apply bt_insert_sorted.
  - by rewrite Ex.
  - by rewrite Em.
  - by rewrite Em, Ea, Emd.
  - intros Hw. destruct (Hcalls Hw) as (Hc1 & Hc2 & Hc3). apply Forall_app in Hc2 as [Hc2 Hc4]. apply Forall_cons in Hc4 as [Hch Hc4].
    destruct (copy_channel o ch sid Hch (schema_id_range _ _ Hok Hds Hknown)) as [Hco Hcost].
    split_and!; [by apply Forall_app; split; [|by constructor]|by apply Forall_app|].
    rewrite calls_cost_app. cbn [calls_cost foldr price] in *. fold (price hand) in Hc3. lia.
Qed.

(** *** The channels that waited *)

Lemma price_perm l k : l ≡ₚ k → price l = price k.
Proof. unfold price. induction 1; cbn; lia. Qed.
Lemma price_sublist l k : l `sublist_of` k → (price l ≤ price k)%Z.
Proof. unfold price. induction 1 as [|r l k _ IH|r l k _ IH]; cbn; [lia..|]. pose proof (record_cost_pos o r). lia. Qed.
Lemma zlen_perm {A} (l k : list A) : l ≡ₚ k → zlen l = zlen k.
Proof. intros Hp. unfold zlen. by rewrite (Permutation_length Hp). Qed.

Definition pending_set m c : recovery := mkRecovery (set_pending m (rc_state c)) (rc_stats c) (saw_any_record c).

(** A change of the channels that wait, and of what is in hand. *)
Lemma salvage_pending done hand st calls c m hand' : salvage done hand st calls c → bt_sorted m = true →
  (zlen m + zlen hand' ≤ zlen (pending_channels (rc_state c)) + zlen hand)%Z →
  (price (waiting m) + price hand' ≤ price (waiting (pending_channels (rc_state c))) + price hand)%Z →
  (∀ r, r ∈ waiting m ++ hand' → r ∈ waiting (pending_channels (rc_state c)) ++ hand) →
  salvage done hand' st calls (pending_set m c).
Proof.
  intros [Hok Hds Hdc Hns Hnc Hsm Hcm (Hs1 & Hs2 & Hs3 & Hs4 & Hs5) He Hm Hst Hcalls] Hsort Hlen Hp Hin.
  split; try done; cbn [pending_set rc_state set_pending pending_channels]; [lia|]. intros Hw. destruct (Hcalls Hw) as (Hc1 & Hc2 & Hc3).
  split_and!; [done| |lia]. rewrite Forall_forall in *. intros r Hr. apply Hc2. by apply Hin.
Qed.
Lemma salvage_drop done r hand st calls c : salvage done (r :: hand) st calls c → salvage done hand st calls c.
Proof.
  intros [Hok Hds Hdc Hns Hnc Hsm Hcm Hs He Hm Hst Hcalls]. rewrite zlen_cons in Hnc. split; try done; [lia|]. intros Hw.
  destruct (Hcalls Hw) as (Hc1 & Hc2 & Hc3). cbn [price foldr] in Hc3. fold (price hand) in Hc3. pose proof (record_cost_pos o r).
  split_and!; [done| |lia]. apply Forall_app in Hc2 as [Hc2 Hc4]. inversion Hc4; subst. by apply Forall_app.
Qed.
Lemma salvage_remove done st calls c id ch : salvage done [] st calls c → bt_get id (pending_channels (rc_state c)) = Some ch →
  salvage done [RChannel ch] st calls (pending_set (bt_remove id (pending_channels (rc_state c))) c).
Proof.
  intros Hsv Hg. pose proof (bt_remove_perm _ _ _ Hg) as Hp. set (m := pending_channels (rc_state c)) in *.
  assert (waiting m ≡ₚ RChannel ch :: waiting (bt_remove id m)) as Hw by (unfold waiting; by rewrite Hp at 1).
  apply (salvage_pending _ _ _ _ _ _ _ Hsv).
  - apply bt_remove_sorted. by destruct (sv_sorted _ _ _ _ _ Hsv) as (_ & _ & _ & _ & ?).
  - fold m. rewrite (zlen_perm _ _ Hp), zlen_cons. unfold zlen. cbn. lia.
  - fold m. rewrite (price_perm _ _ Hw), !price_cons. lia.
  - fold m. intros r. rewrite app_nil_r, Hw, elem_of_app, list_elem_of_singleton, elem_of_cons. tauto.
Qed.

Lemma resolve_one_salvages done id st calls c : salvage done [] st calls c → within_limits done →
  ∃ st' calls' c', resolve_pending_channel id (mkJob (st, calls) c) = (Ok (), mkJob (st', calls') c') ∧ salvage done [] st' calls' c'.
Proof.
  intros Hsv Hl. unfold resolve_pending_channel. unfold mbind, method_bind, from_state, on_state, gets. cbn [job_state].
  destruct (bt_get id (pending_channels (rc_state c))) as [ch|] eqn:Hg; [|by eexists _, _, _].
  pose proof (salvage_remove _ _ _ _ _ _ Hsv Hg) as Hsv'. unfold in_state, on_state, modify. cbn [job_state job_writer].
  change (mkRecovery (set_pending _ _) _ _) with (pending_set (bt_remove id (pending_channels (rc_state c))) c).
  set (c1 := pending_set _ c) in *. destruct (output_schema ch c1) as [sid|] eqn:Hs.
  - destruct (mapping_salvages _ _ _ _ _ _ _ Hsv' Hl Hs) as (k & st' & E & Hsv2 & _). rewrite E. by eexists _, _, _.
  - apply salvage_drop in Hsv'. eexists _, _, _. split; [|exact Hsv'].
    unfold write_channel_mapping, output_schema in *. unfold mbind, method_bind, from_state, on_state, gets. cbn [job_state]. by rewrite Hs.
Qed.
Lemma resolve_salvages done ids st calls c : salvage done [] st calls c → within_limits done →
  ∃ st' calls' c', for_all resolve_pending_channel ids (mkJob (st, calls) c) = (Ok (), mkJob (st', calls') c') ∧ salvage done [] st' calls' c'.
Proof.
  intros Hsv Hl. revert st calls c Hsv. induction ids as [|id ids IH]; intros st calls c Hsv; [by eexists _, _, _|].
  destruct (resolve_one_salvages _ id _ _ _ Hsv Hl) as (st1 & calls1 & c1 & E & Hsv1). cbn [each]. unfold mbind, method_bind. rewrite E. by apply IH.
Qed.

(** *** One more record *)

Lemma price_snoc done r : price (done ++ [r]) = (price done + record_cost o r)%Z.
Proof. rewrite price_app, price_cons. cbn. lia. Qed.

(** A record that adds nothing to the output. *)
Lemma salvage_skip done st calls c r : salvage done [] st calls c → is_extra r = false → salvage (done ++ [r]) [] st calls c.
Proof.
  intros [Hok Hds Hdc Hns Hnc Hsm Hcm Hs He Hm Hst Hcalls] Hx. split; try done.
  - rewrite logged_snoc. destruct (is_schema_record r); lia.
  - rewrite logged_snoc. destruct (is_channel_record r); lia.
  - rewrite List.filter_app. cbn. by rewrite Hx, app_nil_r.
  - rewrite messages_in_snoc. destruct (is_message r); lia.
  - intros [Hw _]%Forall_app. destruct (Hcalls Hw) as (Hc1 & Hc2 & Hc3). split_and!; try done. rewrite price_snoc. pose proof (record_cost_pos o r). lia.
Qed.
(** A channel that is in hand. *)
Lemma salvage_take done st calls c ch : salvage done [] st calls c → salvage (done ++ [RChannel ch]) [RChannel ch] st calls c.
Proof.
  intros [Hok Hds Hdc Hns Hnc Hsm Hcm Hs He Hm Hst Hcalls]. split; try done.
  - by rewrite logged_snoc, Z.add_0_r.
  - rewrite logged_snoc. cbn [is_channel_record]. change (zlen [RChannel ch]) with 1%Z. change (zlen (@nil record)) with 0%Z in Hnc. lia.
  - by rewrite List.filter_app, app_nil_r.
  - by rewrite messages_in_snoc, Z.add_0_r.
  - intros [Hw Hch]%Forall_app. destruct (Hcalls Hw) as (Hc1 & Hc2 & Hc3). rewrite app_nil_r in Hc2. split_and!; [done|by apply Forall_app|].
    rewrite price_snoc, price_cons. cbn [price foldr] in *. lia.
Qed.

(** A schema that has its identifier. *)
Definition schema_mapped (h : SchemaHeader) (data : bytes) (k : Z) c : recovery :=
  mkRecovery (set_seen_schemas (bt_insert (sh_id h) (mkSchemaDef (sh_name h) (sh_encoding h) data) (seen_schemas (rc_state c)))
    (set_schema_map (bt_insert (sh_id h) k (schema_map (rc_state c))) (rc_state c))) (rc_stats c) (saw_any_record c).
Lemma register_schema_eval h data st calls c k st' : bt_get (sh_id h) (seen_schemas (rc_state c)) = None →
  spec_add_schema (sh_name h) (sh_encoding h) data st = (Ok k, st') →
  recover_record (RSchema h data) (mkJob (st, calls) c) =
    resolve_pending_channels (sh_id h) (mkJob (st', calls ++ [AddSchema (sh_name h) (sh_encoding h) data]) (schema_mapped h data k c)).
Proof.
  intros Hg E. unfold recover_record, register_schema. unfold mbind at 1, method_bind at 1, from_state at 1, on_state at 1, gets at 1. cbn [job_state].
  rewrite Hg. unfold mbind at 1, method_bind at 1, on_writer, sink_add_schema, sink_call, traced, spec_sink. cbn [job_writer spec_perform]. by rewrite E.
Qed.

Lemma schema_salvages done h data st calls c : salvage done [] st calls c → within_limits (done ++ [RSchema h data]) →
  bt_get (sh_id h) (seen_schemas (rc_state c)) = None →
  ∃ k st', spec_add_schema (sh_name h) (sh_encoding h) data st = (Ok k, st') ∧ extends st st' ∧ (1 ≤ k)%Z ∧
    schema_in (sp_log st') k = Some (mkSchema k (sh_name h) (sh_encoding h) data) ∧
    salvage (done ++ [RSchema h data]) [] st' (calls ++ [AddSchema (sh_name h) (sh_encoding h) data]) (schema_mapped h data k c).
Proof.
  intros Hsv Hl Hg. pose proof Hsv as [Hok Hds Hdc Hns Hnc Hsm Hcm (Hs1 & Hs2 & Hs3 & Hs4 & Hs5) He Hm Hst Hcalls].
  pose proof (wl_schemas _ Hl) as Hls. rewrite logged_snoc in Hls. cbn [is_schema_record] in Hls.
  destruct (client_add_schema st (sh_name h) (sh_encoding h) data Hok Hds Hdc ltac:(lia)) as (k & st' & E & Hr & Hk & Hin).
  destruct Hr as [Hext Hds' Hdc' Hns' Hnc']. pose proof Hext as (_ & _ & _ & Hok'). destruct (extends_counts _ _ Hext) as (Ex & Em & Ea & Emd).
  exists k, st'. split_and!; [done..|]. split; try done; cbn [schema_mapped rc_state rc_stats schema_map channel_map seen_schemas seen_channels pending_channels set_seen_schemas set_schema_map].
  - rewrite logged_snoc. cbn [is_schema_record]. lia.
  - rewrite logged_snoc. cbn [is_channel_record]. lia.
  - intros i j. rewrite bt_get_insert_case by done. destruct (decide (i = sh_id h)) as [->|].
    + intros [= <-]. by eexists.
    + intros Hgi. destruct (Hsm i j Hgi) as [x Hx]. exists x. by apply (extends_schema _ _ _ _ Hext).
  - intros i j Hgi. destruct (Hcm i j Hgi) as [x Hx]. exists x. by apply (extends_channel _ _ _ _ Hok Hext).
  - split_and!; try done; by apply bt_insert_sorted.
  - by rewrite Ex, List.filter_app, app_nil_r.
  - by rewrite Em, messages_in_snoc, Z.add_0_r.
  - by rewrite Em, Ea, Emd.
  - intros [Hw Hr]%Forall_app. destruct (Hcalls Hw) as (Hc1 & Hc2 & Hc3). rewrite Forall_singleton in Hr.
    destruct (copy_schema o h data Hr) as [Hco Hcost]. split_and!; [by apply Forall_app; split; [|by constructor]|done|].
    rewrite calls_cost_app, price_snoc. cbn [calls_cost foldr]. lia.
Qed.

(** A record that is copied. *)
Definition one_if (b : bool) : Z := if b then 1 else 0.
Definition counted (r : record) c : recovery :=
  let s := rc_stats c in
  mkRecovery (rc_state c) (mkRecoverStats (rec_messages s + one_if (is_message r)) (rec_attachments s + one_if (is_attachment_record r))
    (rec_metadata s + one_if (is_metadata_record r))) (saw_any_record c).
Lemma logged_one p l r : logged p (l ++ [r]) = (logged p l + one_if (p r))%Z.
Proof. by rewrite logged_snoc. Qed.

Lemma salvage_logs done r r' st st' calls c cl : salvage done [] st calls c → logs r' st st' → is_declaration r = false →
  (is_extra r = true → r' = rewritten r) → is_extra r' = is_extra r → is_message r' = is_message r →
  is_attachment_record r' = is_attachment_record r → is_metadata_record r' = is_metadata_record r →
  (record_wf r = true → call_ok o cl ∧ (call_cost o cl ≤ record_cost o r)%Z) →
  salvage (done ++ [r]) [] st' (calls ++ [cl]) (counted r c).
Proof.
  intros Hsv Hlogs Hd Hx Ex Em Ea Emd Hcl. pose proof Hsv as [Hok Hds Hdc Hns Hnc Hsm Hcm Hs He Hm Hst Hcalls].
  destruct (logs_dense _ _ _ Hlogs) as [Hd1 Hd2]. pose proof Hlogs as (Hlog & Hok' & [= Ei1 Ei2] & [= Ei3 Ei4]).
  assert (is_schema_record r = false ∧ is_channel_record r = false) as [Hr1 Hr2] by by destruct r.
  split; cbn [counted rc_state rc_stats]; rewrite ?Hlog, ?Ei2, ?Ei4; try (by done || by apply Hd1 || by apply Hd2).
  - rewrite logged_one, Hr1. cbn [one_if]. lia.
  - rewrite logged_one, Hr2. cbn [one_if]. lia.
  - intros i k Hg. destruct (Hsm i k Hg) as [x Hy]. exists x. by apply schema_in_app.
  - intros i k Hg. destruct (Hcm i k Hg) as [x Hy]. exists x. apply channel_in_app; [apply Hok|done].
  - rewrite !List.filter_app, fmap_app, He. f_equal. cbn [List.filter]. rewrite Ex. destruct (is_extra r) eqn:E; [|done]. by rewrite Hx.
  - rewrite !messages_in_snoc, Em. unfold one_if. lia.
  - rewrite Hst, messages_in_snoc, !logged_one, Em, Ea, Emd. done.
  - intros [Hw Hr]%Forall_app. destruct (Hcalls Hw) as (Hc1 & Hc2 & Hc3). rewrite Forall_singleton in Hr. destruct (Hcl Hr) as [Hco Hcost].
    split_and!; [by apply Forall_app; split; [|by constructor]|done|].
    rewrite calls_cost_app, price_snoc. cbn [calls_cost foldr]. lia.
Qed.

(** The calls of the copies. *)
Lemma on_writer_unit c {A} (f : Z → A) cl st calls x st' : spec_perform o cl st = (Ok x, st') →
  on_writer (f <$> sink_call cl) (mkJob (st, calls) c) = (Ok (f x), mkJob (st', calls ++ [cl]) c).
Proof. intros E. unfold on_writer, fmap, method_fmap, sink_call, traced, spec_sink. cbn [job_writer]. by rewrite E. Qed.
Lemma no_id_Ok {S A} (m : method S McapError A) s a s' : m s = (Ok a, s') → no_id m s = (Ok 0%Z, s').
Proof. intros E. unfold no_id, fmap, method_fmap. by rewrite E. Qed.

Lemma count_eval j c f stats : f (rc_stats c) = Ok stats →
  count (Wr:=spec_state * list call) f (mkJob j c) = (Ok (), mkJob j (mkRecovery (rc_state c) stats (saw_any_record c))).
Proof. intros E. unfold count, on_state, mbind, method_bind, get, lift. cbn [job_state]. by rewrite E. Qed.

Lemma message_salvages done h data st calls c k ch : salvage done [] st calls c → within_limits (done ++ [RMessage h data]) →
  bt_get (m_channel_id h) (channel_map (rc_state c)) = Some k → channel_in (sp_log st) k = Some ch →
  let h' := mkMessageHeader k (m_sequence h) (m_log_time h) (m_publish_time h) in
  ∃ st', recover_record (RMessage h data) (mkJob (st, calls) c) = (Ok (), mkJob (st', calls ++ [WriteKnown h' data]) (counted (RMessage h data) c)) ∧
    logs (RMessage h' data) st st' ∧ salvage (done ++ [RMessage h data]) [] st' (calls ++ [WriteKnown h' data]) (counted (RMessage h data) c).
Proof.
  intros Hsv Hl Hg Hch h'. pose proof (wl_messages _ Hl) as Hml. rewrite messages_in_snoc in Hml. cbn [is_message] in Hml.
  pose proof (sv_messages _ _ _ _ _ Hsv) as Hm. pose proof (sv_log _ _ _ _ _ Hsv) as Hok.
  destruct (client_write_known st h' data ch Hok Hch ltac:(lia)) as (st' & E & Hlogs). exists st'. split_and!; [|done|].
  - unfold recover_record. unfold mbind at 1, method_bind at 1, from_state, on_state at 1, gets. cbn [job_state job_writer]. rewrite Hg. fold h'.
    unfold mbind at 1, method_bind at 1. unfold sink_write_to_known_channel. rewrite (on_writer_unit c (λ _, ()) (WriteKnown h' data) st calls 0%Z st') by by eapply no_id_Ok.
    unfold count_message. pose proof (sv_stats _ _ _ _ _ Hsv) as Hst. apply (count_eval _ _ _ _).
    rewrite Hst. cbn [rec_messages rec_attachments rec_metadata]. assert (0 ≤ messages_in (sp_log st))%Z by apply zlen_nonneg.
    rewrite add_Ok by lia. cbn [mbind outcome_bind mret outcome_ret counted is_message is_attachment_record is_metadata_record one_if]. by rewrite !Z.add_0_r.
  - apply (salvage_logs done (RMessage h data) (RMessage h' data) st st'); try done. intros Hw. apply copy_message; [done|].
    pose proof (channel_in_used st k ch Hok Hch) as Hu. pose proof (dn_used _ _ (sv_channels _ _ _ _ _ Hsv) _ Hu).
    pose proof (reg_next _ _ _ (channels_ok _ (lo_ids _ Hok))). lia.
Qed.

Lemma attachment_salvages done h data crc st calls c : salvage done [] st calls c → within_limits (done ++ [RAttachment h data crc]) →
  ∃ st', recover_record (RAttachment h data crc) (mkJob (st, calls) c) = (Ok (), mkJob (st', calls ++ [Attach h data]) (counted (RAttachment h data crc) c)) ∧
    logs (attachment_record o h data) st st' ∧ salvage (done ++ [RAttachment h data crc]) [] st' (calls ++ [Attach h data]) (counted (RAttachment h data crc) c).
Proof.
  intros Hsv Hl. pose proof (wl_attachments _ Hl) as Hal. rewrite logged_one in Hal. cbn [is_attachment_record one_if] in Hal.
  pose proof (salvage_attachments _ _ _ _ _ Hsv) as Ha. pose proof (sv_log _ _ _ _ _ Hsv) as Hok.
  destruct (client_attach st o h data Hok ltac:(lia)) as (st' & E & Hlogs). exists st'. split_and!; [|done|].
  - unfold recover_record. unfold mbind at 1, method_bind at 1. unfold sink_attach. cbn [attachment_log_time attachment_create_time attachment_name attachment_media_type attachment_data].
    assert (mkAttachmentHeader (ah_log_time h) (ah_create_time h) (ah_name h) (ah_media_type h) = h) as -> by by destruct h.
    rewrite (on_writer_unit c (λ _, ()) (Attach h data) st calls 0%Z st') by by eapply no_id_Ok.
    unfold count_attachment. pose proof (sv_stats _ _ _ _ _ Hsv) as Hst. apply (count_eval _ _ _ _).
    rewrite Hst. cbn [rec_messages rec_attachments rec_metadata]. pose proof (logged_nonneg is_attachment_record (sp_log st)).
    rewrite add_Ok by (unfold u32_max, u64_max in *; lia). cbn [mbind outcome_bind mret outcome_ret counted is_message is_attachment_record is_metadata_record one_if]. by rewrite !Z.add_0_r.
  - apply (salvage_logs done (RAttachment h data crc) (attachment_record o h data) st st'); try done. by apply copy_attachment.
Qed.
Lemma metadata_salvages done m st calls c : salvage done [] st calls c → within_limits (done ++ [RMetadata m]) →
  ∃ st', recover_record (RMetadata m) (mkJob (st, calls) c) = (Ok (), mkJob (st', calls ++ [WriteMetadata m]) (counted (RMetadata m) c)) ∧
    logs (RMetadata m) st st' ∧ salvage (done ++ [RMetadata m]) [] st' (calls ++ [WriteMetadata m]) (counted (RMetadata m) c).
Proof.
  intros Hsv Hl. pose proof (wl_metadata _ Hl) as Hal. rewrite logged_one in Hal. cbn [is_metadata_record one_if] in Hal.
  pose proof (salvage_metadata _ _ _ _ _ Hsv) as Ha. pose proof (sv_log _ _ _ _ _ Hsv) as Hok.
  destruct (client_write_metadata st m Hok ltac:(lia)) as (st' & E & Hlogs). exists st'. split_and!; [|done|].
  - unfold recover_record. unfold mbind at 1, method_bind at 1. unfold sink_write_metadata.
    rewrite (on_writer_unit c (λ _, ()) (WriteMetadata m) st calls 0%Z st') by by eapply no_id_Ok.
    unfold count_metadata. pose proof (sv_stats _ _ _ _ _ Hsv) as Hst. apply (count_eval _ _ _ _).
    rewrite Hst. cbn [rec_messages rec_attachments rec_metadata]. pose proof (logged_nonneg is_metadata_record (sp_log st)).
    rewrite add_Ok by (unfold u32_max, u64_max in *; lia). cbn [mbind outcome_bind mret outcome_ret counted is_message is_attachment_record is_metadata_record one_if]. by rewrite !Z.add_0_r.
  - apply (salvage_logs done (RMetadata m) (RMetadata m) st st'); try done. by apply copy_metadata.
Qed.

Lemma in_state_eval f j c : in_state (Wr:=spec_state * list call) f (mkJob j c) = (Ok (), mkJob j (mkRecovery (f (rc_state c)) (rc_stats c) (saw_any_record c))).
Proof. done. Qed.

(** A channel whose schema is not there yet waits. *)
Lemma pending_salvages done ch st calls c : salvage done [] st calls c →
  salvage (done ++ [RChannel ch]) [] st calls (pending_set (bt_insert (c_id ch) ch (pending_channels (rc_state c))) c).
Proof.
  intros Hsv. set (m := pending_channels (rc_state c)). pose proof (bt_insert_perm (c_id ch) ch m) as Hp. pose proof (bt_remove_sublist (c_id ch) m) as Hsub.
  assert (waiting (bt_insert (c_id ch) ch m) ≡ₚ RChannel ch :: waiting (bt_remove (c_id ch) m)) as Hw by (unfold waiting; by rewrite Hp).
  assert (waiting (bt_remove (c_id ch) m) `sublist_of` waiting m) as Hsub' by by apply fmap_sublist.
  apply (salvage_pending _ _ _ _ _ _ _ (salvage_take _ _ _ _ ch Hsv)); fold m.
  - apply bt_insert_sorted. by destruct (sv_sorted _ _ _ _ _ Hsv) as (_ & _ & _ & _ & ?).
  - rewrite (zlen_perm _ _ Hp), zlen_cons. apply sublist_length in Hsub. unfold zlen. cbn. lia.
  - rewrite (price_perm _ _ Hw), !price_cons. pose proof (price_sublist _ _ Hsub'). cbn [price foldr]. lia.
  - intros r. rewrite app_nil_r, Hw, elem_of_app, list_elem_of_singleton, elem_of_cons. intros [->|Hr]; [by right|left]. by eapply elem_of_sublist.
Qed.
Lemma channel_salvages done ch st calls c : salvage done [] st calls c → within_limits (done ++ [RChannel ch]) →
  ∃ st' calls' c', recover_record (RChannel ch) (mkJob (st, calls) c) = (Ok (), mkJob (st', calls') c') ∧ salvage (done ++ [RChannel ch]) [] st' calls' c'.
Proof.
  intros Hsv Hl. unfold recover_record, register_channel. unfold mbind at 1, method_bind at 1, from_state, on_state, gets. cbn [job_state job_writer].
  destruct (bt_get (c_id ch) (seen_channels (rc_state c))); [eexists _, _, _; split; [done|by apply salvage_skip]|].
  destruct (output_schema ch c) as [sid|] eqn:Hs.
  - destruct (mapping_salvages _ [] _ _ _ _ _ (salvage_take _ _ _ _ ch Hsv) Hl Hs) as (k & st' & E & Hsv' & _).
    assert (negb (c_schema_id ch =? 0)%Z && negb (bt_contains (c_schema_id ch) (schema_map (rc_state c))) = false) as ->.
    { unfold output_schema, bt_contains in *. destruct (_ =? _)%Z; [done|]. by rewrite Hs. }
    rewrite E. by eexists _, _, _.
  - assert (negb (c_schema_id ch =? 0)%Z && negb (bt_contains (c_schema_id ch) (schema_map (rc_state c))) = true) as ->.
    { unfold output_schema, bt_contains in *. destruct (_ =? _)%Z; [done|]. by rewrite Hs. }
    rewrite in_state_eval. eexists _, _, _. split; [done|]. by apply pending_salvages.
Qed.

(** Whatever the record, recover goes on. *)
Lemma recover_record_salvages done r st calls c : salvage done [] st calls c → within_limits (done ++ [r]) →
  ∃ st' calls' c', recover_record r (mkJob (st, calls) c) = (Ok (), mkJob (st', calls') c') ∧ salvage (done ++ [r]) [] st' calls' c'.
Proof.
  intros Hsv Hl. destruct r as [| |h data|ch|h data| | | |h data crc| | |m| | | |];
    try (eexists _, _, _; split; [done|by apply salvage_skip]).
  - destruct (bt_get (sh_id h) (seen_schemas (rc_state c))) as [d|] eqn:Hg.
    + eexists _, _, _. split; [|by apply salvage_skip]. unfold recover_record, register_schema. unfold mbind, method_bind, from_state, on_state, gets.
      cbn [job_state job_writer]. by rewrite Hg.
    + destruct (schema_salvages _ _ _ _ _ _ Hsv Hl Hg) as (k & st' & E & _ & _ & _ & Hsv'). rewrite (register_schema_eval _ _ _ _ _ _ _ Hg E).
      unfold resolve_pending_channels. unfold mbind, method_bind, from_state, on_state, gets. cbn [job_state job_writer]. by apply resolve_salvages.
  - by apply channel_salvages.
  - destruct (bt_get (m_channel_id h) (channel_map (rc_state c))) as [k|] eqn:Hg.
    + destruct (sv_channel_map _ _ _ _ _ Hsv _ _ Hg) as [ch Hch]. destruct (message_salvages _ _ _ _ _ _ _ _ Hsv Hl Hg Hch) as (st' & E & _ & Hsv').
      by eexists _, _, _.
    + eexists _, _, (mkRecovery (set_warned (bt_insert (m_channel_id h) () (warned_missing_channels (rc_state c))) (rc_state c)) (rc_stats c) (saw_any_record c)). split.
      * unfold recover_record. unfold mbind, method_bind, from_state, on_state, gets. cbn [job_state job_writer]. rewrite Hg. by rewrite in_state_eval.
      * apply (salvage_skip _ _ _ _ (RMessage h data)) in Hsv as []; [by split|done].
  - destruct (attachment_salvages _ _ _ _ _ _ _ Hsv Hl) as (st' & E & _ & Hsv'). by eexists _, _, _.
  - destruct (metadata_salvages _ _ _ _ _ Hsv Hl) as (st' & E & _ & Hsv'). by eexists _, _, _.
Qed.

(** *** The scan *)

(** The records that parse, of those the reader gives. *)
Definition parsed (es : list (Z * bytes)) : list record :=
  omap (M:=list) (λ e, match parse_record e.1 e.2 with Ok r => Some r | _ => None end) es.
Lemma parsed_cons e es : parsed (e :: es) = match parse_record e.1 e.2 with Ok r => r :: parsed es | _ => parsed es end.
Proof. unfold parsed. cbn. by destruct (parse_record e.1 e.2). Qed.
Definition parses_settle (es : list (Z * bytes)) : Prop := Forall (λ e, settles (parse_record e.1 e.2)) es.

Definition seen_one c : recovery := mkRecovery (rc_state c) (rc_stats c) true.
Lemma salvage_seen done hand st calls c : salvage done hand st calls c → salvage done hand st calls (seen_one c).
Proof. by intros []. Qed.
Lemma salvage_new : salvage [] [] (spec_new o) [] recovery_default.
Proof.
  split; try done; try (by intros i k). apply spec_new_ok.
Qed.

Lemma recover_event_eval op b (j : spec_state * list call) c : recover_event op b (mkJob j c) = match parse_record op b with
  | Ok r => recover_record r (mkJob j (seen_one c)) | Err _ => (Ok (), mkJob j (seen_one c)) | Panic => (Panic, mkJob j (seen_one c)) | Fuel => (Fuel, mkJob j (seen_one c)) end.
Proof. unfold recover_event. unfold mbind at 1, method_bind at 1, on_state, modify. cbn [job_state job_writer]. by destruct (parse_record op b). Qed.

Abbreviation event e := (recover_event e.1 e.2).
Lemma events_salvage es done st calls c : salvage done [] st calls c → parses_settle es → within_limits (done ++ parsed es) →
  ∃ st' calls' c', for_all (λ e, event e) es (mkJob (st, calls) c) = (Ok (), mkJob (st', calls') c') ∧ salvage (done ++ parsed es) [] st' calls' c'.
Proof.
  revert done st calls c. induction es as [|[op b] es IH]; intros done st calls c Hsv Hp Hl.
  { eexists _, _, _. split; [done|]. by rewrite app_nil_r. }
  apply Forall_cons in Hp as [Hp Hps]. cbn [each]. unfold mbind, method_bind. cbn [fst snd] in *. rewrite recover_event_eval. apply salvage_seen in Hsv.
  rewrite parsed_cons in *. cbn [fst snd] in *.
  destruct (parse_record op b) as [r|e| |]; try done; [|by apply IH].
  assert (done ++ r :: parsed es = (done ++ [r]) ++ parsed es) as Ha by by rewrite <-app_assoc. rewrite Ha in *.
  destruct (recover_record_salvages _ r _ _ _ Hsv ltac:(by eapply within_limits_app)) as (st' & calls' & c' & E & Hsv'). rewrite E. by apply IH.
Qed.

(** ** What holds after records that a reader accepts *)

(** What a schema, a channel or a message is, whatever the identifiers. *)
Definition schema_content (s : Schema) := (schema_name s, schema_encoding s, schema_data s).
Definition channel_content (ch : Channel) :=
  (channel_topic ch, schema_content <$> channel_schema ch, channel_message_encoding ch, channel_metadata ch).
Definition message_content (m : Message) :=
  (channel_content (message_channel m), message_sequence m, message_log_time m, message_publish_time m, message_data m).

(** What the accumulator of a reader knows, recover has in its maps; and the messages so
    far are in the log. *)
Record faithful (acc : ChannelAccumulator) (ms : list Message) st c : Prop := {
  ff_pending : pending_channels (rc_state c) = [];
  ff_schemas i : match acc_schemas acc !! i with
    | Some s => is_Some (bt_get i (seen_schemas (rc_state c))) ∧ ∃ k s', bt_get i (schema_map (rc_state c)) = Some k ∧
        schema_in (sp_log st) k = Some s' ∧ schema_content s' = schema_content s
    | None => bt_get i (seen_schemas (rc_state c)) = None
    end;
  ff_channels i : match acc_channels acc !! i with
    | Some ch => is_Some (bt_get i (seen_channels (rc_state c))) ∧ ∃ k ch', bt_get i (channel_map (rc_state c)) = Some k ∧
        channel_in (sp_log st) k = Some ch' ∧ channel_content ch' = channel_content ch
    | None => bt_get i (seen_channels (rc_state c)) = None
    end;
  ff_messages : message_content <$> messages_of_log (sp_log st) = message_content <$> ms;
}.

(** One more record, to a reader. *)
Definition accepts_record (acc : ChannelAccumulator) (r : record) (acc' : ChannelAccumulator) (ms : list Message) : Prop :=
  match r with
  | RSchema h data => add_schema h data acc = (Ok (), acc') ∧ ms = []
  | RChannel ch => add_channel ch acc = (Ok (), acc') ∧ ms = []
  | RMessage h data => acc' = acc ∧ ∃ ch, acc_get (m_channel_id h) acc = Some ch ∧ ms = [message_on ch h data]
  | _ => acc' = acc ∧ ms = []
  end.
Lemma stream_of_cons acc r rs ms : stream_of (Ok ()) acc (r :: rs) = (ms, Ok ()) →
  ∃ acc' ms1 ms2, accepts_record acc r acc' ms1 ∧ stream_of (Ok ()) acc' rs = (ms2, Ok ()) ∧ ms = ms1 ++ ms2.
Proof.
  destruct r as [| |h data|ch|h data| | | | | | | | | | |]; cbn [stream_of accepts_record]; try (intros E; by exists acc, [], ms).
  - destruct (add_schema h data acc) as [[[]|e| |] acc'] eqn:E; try done. intros E'. by exists acc', [], ms.
  - destruct (add_channel ch acc) as [[[]|e| |] acc'] eqn:E; try done. intros E'. by exists acc', [], ms.
  - destruct (acc_get (m_channel_id h) acc) as [ch|] eqn:E; [|done]. destruct (stream_of (Ok ()) acc rs) as [ms' out] eqn:E'. intros [= <- ->].
    exists acc, [message_on ch h data], ms'. split_and!; try done. by exists ch.
Qed.

(** What the log gains leaves the rest as it was. *)
Lemma faithful_grows acc ms st st' c c' k ms1 : log_ok st → faithful acc ms st c → sp_log st' = sp_log st ++ k →
  messages_of_log (sp_log st') = messages_of_log (sp_log st) ++ ms1 → rc_state c' = rc_state c →
  ∀ ms1', message_content <$> ms1 = message_content <$> ms1' → faithful acc (ms ++ ms1') st' c'.
Proof.
  intros Hok [Hp Hs Hc Hm] Hl Hml Hst ms1' Hms. split; rewrite ?Hst, ?Hl; try done.
  - intros i. specialize (Hs i). destruct (acc_schemas acc !! i); [|done]. destruct Hs as (Hx & k' & s' & Hk & Hin & He). split; [done|].
    exists k', s'. split_and!; try done. by apply schema_in_app.
  - intros i. specialize (Hc i). destruct (acc_channels acc !! i); [|done]. destruct Hc as (Hx & k' & s' & Hk & Hin & He). split; [done|].
    exists k', s'. split_and!; try done. apply channel_in_app; [apply Hok|done].
  - by rewrite <-Hl, Hml, !fmap_app, Hm, Hms.
Qed.
Lemma faithful_logs acc ms st st' c r r' : log_ok st → faithful acc ms st c → logs r' st st' → is_message r' = false → faithful acc ms st' (counted r c).
Proof.
  intros Hok Hf (Hl & _) Hr. rewrite <-(app_nil_r ms). apply (faithful_grows acc ms st st' c _ [r'] [] Hok Hf Hl); try done.
  rewrite Hl, messages_of_log_app by apply Hok. by destruct r'.
Qed.
Lemma faithful_same acc ms st c c' : faithful acc ms st c → rc_state c' = rc_state c → faithful acc ms st c'.
Proof. intros [Hp Hs Hc Hm] E. by split; rewrite ?E. Qed.

(** A step of recover that keeps both. *)
Definition goes_on (done : list record) (r : record) acc' ms' st (calls : list call) c : Prop :=
  ∃ st' calls' c', recover_record r (mkJob (st, calls) c) = (Ok (), mkJob (st', calls') c') ∧
    salvage (done ++ [r]) [] st' calls' c' ∧ faithful acc' ms' st' c'.

Lemma schema_goes_on done h data acc acc' ms st calls c : salvage done [] st calls c → faithful acc ms st c → within_limits (done ++ [RSchema h data]) →
  add_schema h data acc = (Ok (), acc') → goes_on done (RSchema h data) acc' ms st calls c.
Proof.
  intros Hsv Hf Hl. unfold add_schema. destruct (sh_id h =? 0)%Z; [done|]. pose proof Hf as [Hp Hs Hc Hm]. specialize (Hs (sh_id h)) as Hsh.
  destruct (acc_schemas acc !! sh_id h) as [s|] eqn:Ha.
  - destruct (_ && _ && _); [|done]. intros [= <-]. destruct Hsh as [[d Hd] _].
    exists st, calls, c. split_and!; [|by apply salvage_skip|done].
    unfold recover_record, register_schema. unfold mbind, method_bind, from_state, on_state, gets. cbn [job_state job_writer]. by rewrite Hd.
  - intros [= <-]. destruct (schema_salvages _ _ _ _ _ _ Hsv Hl Hsh) as (k & st' & E & Hext & Hk & Hin & Hsv').
    eexists st', _, (schema_mapped h data k c). split_and!; [|done|].
    + rewrite (register_schema_eval _ _ _ _ _ _ _ Hsh E). unfold resolve_pending_channels. unfold mbind, method_bind, from_state, on_state, gets.
      cbn [job_state job_writer schema_mapped rc_state set_seen_schemas set_schema_map pending_channels]. by rewrite Hp.
    + pose proof (sv_log _ _ _ _ _ Hsv) as Hok. destruct (sv_sorted _ _ _ _ _ Hsv) as (Hs1 & Hs2 & Hs3 & _).
      split; cbn [schema_mapped rc_state rc_stats schema_map channel_map seen_schemas seen_channels pending_channels set_seen_schemas set_schema_map acc_schemas acc_channels]; try done.
      * intros i. rewrite !bt_get_insert_case by done. destruct (decide (i = sh_id h)) as [->|Hne].
        -- rewrite lookup_insert_eq. split; [by eexists|]. eexists k, _. split_and!; [done|exact Hin|done].
        -- rewrite lookup_insert_ne by done. specialize (Hs i). destruct (acc_schemas acc !! i); [|done].
           destruct Hs as (Hx & k' & s' & Hk' & Hin' & He). split; [done|]. exists k', s'. split_and!; try done. by eapply extends_schema.
      * intros i. specialize (Hc i). destruct (acc_channels acc !! i); [|done]. destruct Hc as (Hx & k' & s' & Hk' & Hin' & He). split; [done|].
        exists k', s'. split_and!; try done. by eapply extends_channel.
      * by rewrite (extends_messages _ _ Hok Hext).
Qed.

Lemma channel_goes_on done ch acc acc' ms st calls c : salvage done [] st calls c → faithful acc ms st c → within_limits (done ++ [RChannel ch]) →
  add_channel ch acc = (Ok (), acc') → goes_on done (RChannel ch) acc' ms st calls c.
Proof.
  intros Hsv Hf Hl. unfold add_channel. pose proof Hf as [Hp Hs Hc Hm]. specialize (Hc (c_id ch)) as Hch.
  set (schema := if (c_schema_id ch =? 0)%Z then Ok None else match acc_schemas acc !! c_schema_id ch with Some s => Ok (Some s) | None => Err _ end).
  destruct schema as [schema'|e| |] eqn:Hschema; try done.
  destruct (acc_channels acc !! c_id ch) as [x|] eqn:Ha.
  - destruct (_ && _ && _ && _); [|done]. intros [= <-]. destruct Hch as [[d Hd] _].
    exists st, calls, c. split_and!; [|by apply salvage_skip|done].
    unfold recover_record, register_channel. unfold mbind, method_bind, from_state, on_state, gets. cbn [job_state job_writer]. by rewrite Hd.
  - intros [= <-]. pose proof (sv_log _ _ _ _ _ Hsv) as Hok. destruct (sv_sorted _ _ _ _ _ Hsv) as (Hs1 & Hs2 & Hs3 & Hs4 & _).
    assert (∃ sid, output_schema ch c = Some sid ∧ (schema' = None ∧ sid = 0%Z ∨
      ∃ s s', schema' = Some s ∧ (1 ≤ sid)%Z ∧ schema_in (sp_log st) sid = Some s' ∧ schema_content s' = schema_content s)) as (sid & Ho & Hsid).
    { unfold output_schema. subst schema. destruct (c_schema_id ch =? 0)%Z; [injection Hschema as <-; eexists; split; [done|by left]|].
      specialize (Hs (c_schema_id ch)). destruct (acc_schemas acc !! c_schema_id ch) as [s|]; [|done]. injection Hschema as <-.
      destruct Hs as (_ & k & s' & Hk & Hin & He). exists k. split; [done|]. right. exists s, s'. split_and!; try done.
      by destruct (dn_used _ _ (sv_schemas _ _ _ _ _ Hsv) _ (schema_in_used _ _ _ Hok Hin)). }
    destruct (mapping_salvages _ [] _ _ _ _ _ (salvage_take _ _ _ _ ch Hsv) Hl Ho) as (k & st' & E & Hsv' & Hext & Hin).
    eexists st', _, (mapped ch k c). split_and!; [|done|].
    + unfold recover_record, register_channel. unfold mbind at 1, method_bind at 1, from_state, on_state, gets. cbn [job_state job_writer]. rewrite Hch.
      assert (negb (c_schema_id ch =? 0)%Z && negb (bt_contains (c_schema_id ch) (schema_map (rc_state c))) = false) as ->; [|done].
      unfold output_schema, bt_contains in *. destruct (_ =? _)%Z; [done|]. by rewrite Ho.
    + split; cbn [mapped rc_state rc_stats schema_map channel_map seen_schemas seen_channels pending_channels set_seen_channels set_channel_map acc_schemas acc_channels]; try done.
      * intros i. specialize (Hs i). destruct (acc_schemas acc !! i); [|done]. destruct Hs as (Hx & k' & s' & Hk' & Hin' & He). split; [done|].
        exists k', s'. split_and!; try done. by eapply extends_schema.
      * intros i. rewrite !bt_get_insert_case by done. destruct (decide (i = c_id ch)) as [->|Hne].
        -- rewrite lookup_insert_eq. split; [by eexists|]. eexists k, _. split_and!; [done|exact Hin|]. unfold channel_content, channel_named.
           cbn [channel_topic channel_schema channel_message_encoding channel_metadata cc_topic cc_schema_id cc_message_encoding cc_metadata].
           destruct Hsid as [[-> ->]|(s & s' & -> & Hk1 & Hin' & He)]; [done|]. rewrite (proj2 (Z.eqb_neq _ _)) by lia.
           rewrite (extends_schema _ _ _ _ Hext Hin'). cbn. by rewrite He.
        -- rewrite lookup_insert_ne by done. specialize (Hc i). destruct (acc_channels acc !! i); [|done].
           destruct Hc as (Hx & k' & s' & Hk' & Hin' & He). split; [done|]. exists k', s'. split_and!; try done. by eapply extends_channel.
      * by rewrite (extends_messages _ _ Hok Hext).
Qed.

Lemma message_goes_on done h data ch acc ms st calls c : salvage done [] st calls c → faithful acc ms st c → within_limits (done ++ [RMessage h data]) →
  acc_get (m_channel_id h) acc = Some ch → goes_on done (RMessage h data) acc (ms ++ [message_on ch h data]) st calls c.
Proof.
  intros Hsv Hf Hl Ha. pose proof Hf as [Hp Hs Hc Hm]. specialize (Hc (m_channel_id h)). unfold acc_get in Ha. rewrite Ha in Hc.
  destruct Hc as (_ & k & ch' & Hk & Hin & He). pose proof (sv_log _ _ _ _ _ Hsv) as Hok.
  destruct (message_salvages _ _ _ _ _ _ _ _ Hsv Hl Hk Hin) as (st' & E & Hlogs & Hsv'). eexists st', _, _. split_and!; [exact E|done|].
  set (h' := mkMessageHeader k (m_sequence h) (m_log_time h) (m_publish_time h)) in *. destruct Hlogs as (Hlog & Hok' & _).
  apply (faithful_grows acc ms st st' c _ [RMessage h' data] [message_on ch' h' data] Hok Hf Hlog); [|done|].
  - rewrite Hlog, messages_of_log_app by apply Hok. f_equal. cbn.
    assert (channel_in (sp_log st ++ [RMessage h' data]) k = Some ch') as -> by (apply channel_in_app; [apply Hok|done]). done.
  - unfold message_content. cbn. by rewrite He.
Qed.

Lemma record_goes_on done r acc acc' ms ms1 st calls c : salvage done [] st calls c → faithful acc ms st c → within_limits (done ++ [r]) →
  accepts_record acc r acc' ms1 → goes_on done r acc' (ms ++ ms1) st calls c.
Proof.
  intros Hsv Hf Hl Ha. pose proof (sv_log _ _ _ _ _ Hsv) as Hok. destruct r as [| |h data|ch|h data| | | |h data crc| | |m| | | |]; cbn [accepts_record] in Ha;
    try (destruct Ha as [-> ->]; rewrite app_nil_r; eexists _, _, _; split_and!; [reflexivity|by apply salvage_skip|done]).
  - destruct Ha as [Ha ->]. rewrite app_nil_r. by eapply schema_goes_on.
  - destruct Ha as [Ha ->]. rewrite app_nil_r. by eapply channel_goes_on.
  - destruct Ha as (-> & ch & Ha & ->). by apply message_goes_on.
  - destruct Ha as [-> ->]. rewrite app_nil_r. destruct (attachment_salvages _ _ _ _ _ _ _ Hsv Hl) as (st' & E & Hlogs & Hsv').
    eexists _, _, _. split_and!; [done..|]. by eapply faithful_logs.
  - destruct Ha as [-> ->]. rewrite app_nil_r. destruct (metadata_salvages _ _ _ _ _ Hsv Hl) as (st' & E & Hlogs & Hsv').
    eexists _, _, _. split_and!; [done..|]. by eapply faithful_logs.
Qed.

Lemma events_faithful es done acc ms ms' st calls c : salvage done [] st calls c → faithful acc ms st c → parses_settle es → within_limits (done ++ parsed es) →
  stream_of (Ok ()) acc (parsed es) = (ms', Ok ()) →
  ∃ st' calls' c' acc', for_all (λ e, event e) es (mkJob (st, calls) c) = (Ok (), mkJob (st', calls') c') ∧
    salvage (done ++ parsed es) [] st' calls' c' ∧ faithful acc' (ms ++ ms') st' c'.
Proof.
  revert done acc ms ms' st calls c. induction es as [|[op b] es IH]; intros done acc ms ms' st calls c Hsv Hf Hp Hl Hstream.
  { injection Hstream as <-. eexists _, _, _, acc. split; [done|]. by rewrite !app_nil_r. }
  apply Forall_cons in Hp as [Hp Hps]. cbn [each]. unfold mbind, method_bind. cbn [fst snd] in *. rewrite recover_event_eval.
  apply salvage_seen in Hsv. apply (faithful_same _ _ _ _ (seen_one c)) in Hf; [|done].
  rewrite parsed_cons in *. cbn [fst snd] in *. destruct (parse_record op b) as [r|e| |]; try done; [|by eapply IH].
  apply stream_of_cons in Hstream as (acc' & ms1 & ms2 & Ha & Hstream & ->).
  assert (done ++ r :: parsed es = (done ++ [r]) ++ parsed es) as Hd by by rewrite <-app_assoc. rewrite Hd in *.
  destruct (record_goes_on _ r acc acc' ms ms1 _ _ _ Hsv Hf ltac:(by eapply within_limits_app) Ha) as (st' & calls' & c' & E & Hsv' & Hf').
  rewrite E, app_assoc. by eapply IH.
Qed.
Lemma faithful_new : faithful ChannelAccumulator_default [] (spec_new o) recovery_default.
Proof. by split. Qed.
End salvage.

(** ** The command *)

Section command.
Context `{Crc, !CrcLaws, HashOrder, !HashOrderOk, ZstdEncoderLib, Lz4EncoderLib} `{FileOk W file}.
Context `{!BiMap ChannelContent Z, !BiMap SchemaContent Z, !BiMapOk ChannelContent Z, !BiMapOk SchemaContent Z}.
Context `{ZstdLib, Lz4Lib, !ZstdLibOk, !Lz4LibOk, !Frames}.

(** What is seen once stays seen. *)
Section seen.
Context `{Sink Wr}.
Definition saw (j : Job Wr recovery) : Prop := saw_any_record (job_state j) = true.
Lemma on_writer_saw {A} (m : method Wr McapError A) : preserves saw (on_writer m).
Proof. intros j. unfold on_writer. by destruct (m (job_writer j)). Qed.
Lemma from_state_saw {A} (f : RecoveryState → A) : preserves saw (from_state f).
Proof. intros j Hj. exact Hj. Qed.
Lemma in_state_saw f : preserves saw (in_state f).
Proof. intros j Hj. exact Hj. Qed.
Lemma count_saw f : preserves saw (count f).
Proof. intros j. unfold count, on_state, mbind, method_bind, get, lift, put, saw. cbn. by destruct (f _). Qed.
#[local] Hint Resolve on_writer_saw from_state_saw in_state_saw count_saw : preserves.
Ltac keep := repeat first [progress intros | solve [auto with preserves] | apply preserves_bind | apply preserves_each | case_match].
Lemma recover_event_saw op b j : saw_any_record (job_state (recover_event op b j).2) = true.
Proof.
  unfold recover_event. unfold mbind at 1, method_bind at 1, on_state at 1, modify. destruct (parse_record op b) as [r|e| |]; [|reflexivity..].
  assert (preserves saw (recover_record r)) as Hp; [|by apply Hp].
  destruct r; unfold recover_record, register_schema, register_channel, resolve_pending_channels, resolve_pending_channel, write_channel_mapping,
    count_message, count_attachment, count_metadata; keep.
Qed.
End seen.

(** The input: what the reader makes of it, and that there is room for a copy. *)
Record recoverable (o : WriteOptions) `{!EncoderOk (wo_compression o) (wo_compression_level o) (wo_compression_threads o)}
    (input : bytes) (es : list (Z * bytes)) (out : McapResult ()) : Prop := {
  rb_size : (zlen input ≤ usize_max)%Z;
  rb_delivers : delivers es out (LinearReader_new (recover_reader input)) input;
  rb_out : settles out;
  rb_some : es ≠ [];
  rb_parses : parses_settle es;
  rb_wf : Forall (λ r, record_wf r = true) (parsed es);
  rb_limits : within_limits (parsed es);
  rb_room : (zlen MAGIC + zlen (record_frame (the_header o)) + price o (parsed es) ≤ 2 ^ 59)%Z;
}.

Context (version : rstring) (cpus : Z) (header : option Header) (opts : RecoverOptions) (disable_seeking : bool).
Abbreviation o := (recover_write_options version cpus header opts disable_seeking).
Context `{!EncoderOk (wo_compression o) (wo_compression_level o) (wo_compression_threads o)}.
#[local] Hint Extern 0 (Sink spec_state) => exact (spec_sink o) : typeclass_instances.

(** The run of the records on the specification. *)
Lemma each_last {St A} (body : A → method St anyhow ()) l last s s' : for_all body l s = (Ok (), s') → each body l last s = last s'.
Proof.
  revert s. induction l as [|a l IH]; intros s; cbn [each]; [by intros [= ->]|]. unfold mbind, method_bind.
  destruct (body a s) as [[[]|e| |] s1]; try done. apply IH.
Qed.
Lemma for_all_saw es (j j' : Job (spec_state * list call) recovery) : es ≠ [] → for_all (λ e : Z * bytes, recover_event e.1 e.2) es j = (Ok (), j') → saw_any_record (job_state j') = true.
Proof.
  destruct es as [|e es]; [done|]. intros _. cbn [each]. unfold mbind, method_bind.
  pose proof (recover_event_saw e.1 e.2 j) as Hs. destruct (recover_event e.1 e.2 j) as [[[]|err| |] j1]; try done. cbn [snd] in Hs.
  assert (preserves saw (for_all (λ e : Z * bytes, recover_event (Wr:=spec_state * list call) e.1 e.2) es)) as Hp.
  { apply preserves_each; [|apply preserves_ret]. intros e' j0 _. apply recover_event_saw. }
  intros E. specialize (Hp j1 Hs). by rewrite E in Hp.
Qed.
Lemma recover_records_eval input es out fuel (j j' : Job (spec_state * list call) recovery) : (zlen input ≤ usize_max)%Z →
  delivers es out (LinearReader_new (recover_reader input)) input → settles out → es ≠ [] → length es + length input + 1 < fuel →
  for_all (λ e : Z * bytes, recover_event e.1 e.2) es j = (Ok (), j') → recover_records fuel input j = (Ok (), j').
Proof.
  intros Hsz Hd Hout Hes Hf E. unfold recover_records. rewrite (scan_loop_delivers es out); [|done|by apply new_inner_ok|by intros ->|].
  - rewrite (each_last _ _ _ _ _ E). pose proof (for_all_saw _ _ _ Hes E) as Hs. destruct j' as [x c]. destruct out as [[]|e| |]; try done.
    cbn [ending]. unfold recover_error, mbind, method_bind, on_state, gets. cbn [job_state job_writer] in *. by rewrite Hs.
  - unfold input_left. cbn. lia.
Qed.

Lemma recovered fuel input es out w : recoverable o input es out → validate_start_magic input = Ok () → sniff_header input = Ok header →
  options_ok o → file w [] 0 → streams o → length es + length input + 1 < fuel →
  ∃ stats w' st, recover_to_sink version cpus fuel input w opts disable_seeking = Ok (stats, w') ∧ holds_log o w' (sp_log st) ∧
    List.filter is_extra (sp_log st) = rewritten o <$> List.filter is_extra (parsed es) ∧
    stats = mkRecoverStats (messages_in (sp_log st)) (logged is_attachment_record (parsed es)) (logged is_metadata_record (parsed es)) ∧
    ∀ ms, stream_of (Ok ()) ChannelAccumulator_default (parsed es) = (ms, Ok ()) →
      message_content <$> messages_of_log (sp_log st) = message_content <$> ms.
Proof.
  intros [Hsz Hd Hout Hes Hp Hwf Hl Hroom] Hv Hsn Hopts Hw Hst Hfuel.
  destruct (events_salvage o es [] _ _ _ (salvage_new o) Hp Hl) as (st & calls & c & E & Hsv).
  pose proof (recover_records_eval _ _ _ _ _ _ Hsz Hd Hout Hes Hfuel E) as Er.
  destruct (sv_calls _ _ _ _ _ _ Hsv Hwf) as (Hcalls & _ & Hcost). cbn [app] in Hcost.
  pose proof (price_pos o (waiting (pending_channels (rc_state c)))). pose proof (price_pos o []).
  destruct (job_writes o _ _ w recovery_default _ _ _ _ (recover_records_follows o fuel input (oo_chunks _ Hopts)) Er I Hw Hopts Hcalls) as
    (wr & wr' & Ew & E1 & Hok & sum & wr'' & w' & Ef & Ei & Hholds).
  { unfold run_size. lia. }
  exists (rc_stats c), w', st. split_and!.
  - unfold recover_to_sink. rewrite Hv. cbn [mbind outcome_bind]. rewrite Hsn. cbn [mbind outcome_bind]. rewrite Ew. cbn [with_context from_mcap map_err mbind outcome_bind].
    unfold run. rewrite (bind_method_Ok _ _ _ _ _ E1). unfold in_context, on_writer. cbn [job_writer job_state]. rewrite Ef.
    cbn [fmap outcome_fmap with_context from_mcap map_err mbind outcome_bind job_writer job_state]. by rewrite Ei.
  - apply Hholds; [done|]. intros Hin. apply list_elem_of_fmap in Hin as ([k x] & Hk & Hin). cbn in Hk. subst k.
    pose proof (scoped_assoc_schema _ _ _ (lo_scoped _ Hok) Hin) as Ha.
    assert (schema_in (sp_log st) 0 = Some (schema_named 0 x)) as Hs by (unfold schema_in; by rewrite Ha).
    pose proof (dn_used _ _ (sv_schemas _ _ _ _ _ _ Hsv) _ (schema_in_used _ _ _ Hok Hs)). lia.
  - apply (sv_extra _ _ _ _ _ _ Hsv).
  - rewrite (sv_stats _ _ _ _ _ _ Hsv), (salvage_attachments _ _ _ _ _ _ Hsv), (salvage_metadata _ _ _ _ _ _ Hsv). done.
  - intros ms Hms. destruct (events_faithful o es [] _ [] _ _ _ _ (salvage_new o) (faithful_new o) Hp Hl Hms) as (st2 & calls2 & c2 & acc & E2 & _ & Hf).
    rewrite E in E2. injection E2 as <- <- <-. by apply (ff_messages _ _ _ _ Hf).
Qed.

(** C13: recover does not give up and loses nothing that does not need a channel, unless an
    attachment is cut so that parsing it panics: if no record that the reader gives before
    the input ends or fails is such an attachment, then whatever else they are - out of
    order, contradicting each other, on channels or schemas that are missing, or not
    parsing at all - recover writes a whole file that holds every attachment and every
    metadata record that parses, in order, each attachment with the checksum of its data,
    and the counts it reports are right.  [recoverable] says so and that there is room for
    the copy. *)
Theorem recover_keeps_extras fuel input es out w : recoverable o input es out → validate_start_magic input = Ok () → sniff_header input = Ok header →
  options_ok o → file w [] 0 → streams o → length es + length input + 1 < fuel →
  ∃ stats w' lg, recover_to_sink version cpus fuel input w opts disable_seeking = Ok (stats, w') ∧ holds_log o w' lg ∧
    List.filter is_extra lg = rewritten o <$> List.filter is_extra (parsed es) ∧
    stats = mkRecoverStats (messages_in lg) (logged is_attachment_record (parsed es)) (logged is_metadata_record (parsed es)).
Proof.
  intros Hr Hv Hsn Hopts Hw Hst Hf. destruct (recovered fuel input es out w Hr Hv Hsn Hopts Hw Hst Hf) as (stats & w' & st & E & Hh & Hx & Hs & _).
  by exists stats, w', (sp_log st).
Qed.

(** C12: recover loses no message: if the records that the reader gives before the input
    ends or fails are ones that MessageStream accepts, the file that recover writes reads
    back as the same messages, in the same order, each with its topic, its schema and its
    encoding; only the identifiers of schemas and channels may be others. *)
Theorem recover_keeps_messages fuel input es out ms w : recoverable o input es out → validate_start_magic input = Ok () → sniff_header input = Ok header →
  options_ok o → file w [] 0 → streams o → length es + length input + 1 < fuel →
  stream_of (Ok ()) ChannelAccumulator_default (parsed es) = (ms, Ok ()) →
  ∃ stats w' c ms' n, recover_to_sink version cpus fuel input w opts disable_seeking = Ok (stats, w') ∧ over file [] w' c ∧
    (∀ ropts fuel, n < fuel → messages fuel (RawMessageStream_new_with_options c ropts) = (ms', Ok ())) ∧
    message_content <$> ms' = message_content <$> ms.
Proof.
  intros Hr Hv Hsn Hopts Hw Hst Hf Hms.
  destruct (recovered fuel input es out w Hr Hv Hsn Hopts Hw Hst Hf) as (stats & w' & st & E & (f & n & Hfile & _ & Hm) & _ & _ & Hc).
  exists stats, w', (file_bytes f), (messages_of_log (sp_log st)), n. split_and!; try done. by apply Hc.
Qed.
End command.

(** ** Examples *)

Module RecoverExamples.
Import BitCrc MarkLib Instances MarkEncoder.

(** A chunk whose checksum is wrong, and records after it. *)
Definition in_chunk : list record :=
  [RSchema (mkSchemaHeader 5 (lit "Pose") (lit "jsonschema")) (lit "{}"); RChannel (mkChannelRecord 9 5 (lit "/pose") (lit "json") []);
   RMessage (mkMessageHeader 9 3 10 20) (lit "a")].
Definition events : list (Z * bytes) := record_entry <$> in_chunk.
Definition the_attachment : record := RAttachment (mkAttachmentHeader 1 2 (lit "log") (lit "text/plain")) (lit "hello") 0.
Definition rest : list record := [RMetadata (mkMetadata (lit "run") [(lit "id", lit "7")]); the_attachment].
Definition parts : list part :=
  [One (record_entry (RHeader (mkHeader (lit "ros2") (lit "robot"))));
   Chunked (mkChunkHeader 10 10 (zlen (frames events)) 7 (lit "zstd") (zlen (mark_frame (frames events)))) events (mark_frame (frames events)) []] ++ (One <$> (record_entry <$> rest)).
Definition damaged : mcap_file := mkFile (part_record <$> parts) (mkDataEnd 0) [] (mkFooter 0 0 0).
Definition input : bytes := file_bytes damaged.
Definition es : list (Z * bytes) := (flat_expected (recover_reader input) parts damaged).1.
Definition opts : RecoverOptions := mkRecoverOptions (Some Zstd) 20 false.
Definition header : option Header := Some (mkHeader (lit "ros2") (lit "robot")).
Definition to : WriteOptions := recover_write_options (lit "0.24.0") 4 header opts false.
#[export] Instance to_encoder : EncoderOk (wo_compression to) (wo_compression_level to) (wo_compression_threads to) := mark_EncoderOk _ _.

Lemma flat_damaged : flat_ok (recover_reader input) parts damaged.
Proof.
  split; [reflexivity| |vm_compute; reflexivity..]. repeat apply Forall_cons_2; [..|constructor];
    try (split; [vm_compute; reflexivity|intros E; discriminate E]).
  split_and!; try (vm_compute; reflexivity). right. split; [discriminate|]. left. split; reflexivity.
Qed.
Lemma es_delivered : delivers es (Ok ()) (LinearReader_new (recover_reader input)) input.
Proof. apply (flat_delivers (recover_reader input) parts damaged); [split; reflexivity|exact flat_damaged]. Qed.

Lemma damaged_recoverable : recoverable to input es (Ok ()).
Proof.
  assert (parsed es = RHeader (mkHeader (lit "ros2") (lit "robot")) :: in_chunk ++ rest ++ [RDataEnd (mkDataEnd 0); RFooter (mkFooter 0 0 0)]) as Hp by (vm_compute; reflexivity).
  split; rewrite ?Hp; [vm_compute; discriminate|apply es_delivered|done|vm_compute; discriminate| | | |vm_compute; discriminate].
  - assert (forallb (λ e, match parse_record e.1 e.2 with Ok _ => true | _ => false end) es = true) as Hs by (vm_compute; reflexivity).
    generalize es Hs. clear. intros es Hs. apply Forall_forall. intros e He%list_elem_of_In. rewrite forallb_forall in Hs.
    specialize (Hs e He). by destruct (parse_record e.1 e.2).
  - repeat apply Forall_cons_2; [vm_compute; reflexivity..|constructor].
  - split; first [apply Z.ltb_lt|apply Z.leb_le]; vm_compute; reflexivity.
Qed.
Lemma to_ok : options_ok to.
Proof. split; [|vm_compute; reflexivity|vm_compute; discriminate]. intros _ _. exists 20%Z. split; [reflexivity|lia]. Qed.
Lemma to_streams : streams to.
Proof. intros d z Hz. right. split; [discriminate|]. left. split; [reflexivity|exact Hz]. Qed.

Definition ms : list Message :=
  [mkMessage (mkChannel 9 (lit "/pose") (Some (mkSchema 5 (lit "Pose") (lit "jsonschema") (lit "{}"))) (lit "json") []) 3 10 20 (lit "a")].
Definition fuel : nat := S (length es + length input + 1).

Lemma recover_keeps_extras_witness : ∃ stats w' lg,
  recover_to_sink (lit "0.24.0") 4 fuel input WriterLogExamples.empty opts false = Ok (stats, w') ∧ holds_log (file := cursor_file) to w' lg ∧
  List.filter is_extra lg = rewritten to <$> List.filter is_extra (parsed es) ∧
  stats = mkRecoverStats (messages_in lg) (logged is_attachment_record (parsed es)) (logged is_metadata_record (parsed es)).
Proof.
  apply (recover_keeps_extras (file := cursor_file) (lit "0.24.0") 4 header opts false fuel input es (Ok ()) WriterLogExamples.empty damaged_recoverable);
    [vm_compute; reflexivity|vm_compute; reflexivity|exact to_ok|split; reflexivity|exact to_streams|unfold fuel; lia].
Defined.

Lemma recover_keeps_messages_witness : ∃ stats w' c ms' n,
  recover_to_sink (lit "0.24.0") 4 fuel input WriterLogExamples.empty opts false = Ok (stats, w') ∧ over cursor_file [] w' c ∧
  (∀ ropts fuel, n < fuel → messages fuel (RawMessageStream_new_with_options c ropts) = (ms', Ok ())) ∧
  message_content <$> ms' = message_content <$> ms.
Proof.
  apply (recover_keeps_messages (file := cursor_file) (lit "0.24.0") 4 header opts false fuel input es (Ok ()) ms WriterLogExamples.empty damaged_recoverable);
    [vm_compute; reflexivity|vm_compute; reflexivity|exact to_ok|split; reflexivity|exact to_streams|unfold fuel; lia|vm_compute; reflexivity].
Defined.

(** A channel that waits for its schema and is declared again is replaced: the first
    declaration is kept only of channels that have been written. *)
Definition waiting_twice : list record :=
  [RChannel (mkChannelRecord 9 5 (lit "/first") (lit "json") []); RChannel (mkChannelRecord 9 5 (lit "/second") (lit "json") []);
   RSchema (mkSchemaHeader 5 (lit "Pose") (lit "jsonschema")) (lit "{}")].
Definition written_once : list record :=
  [RSchema (mkSchemaHeader 5 (lit "Pose") (lit "jsonschema")) (lit "{}"); RChannel (mkChannelRecord 9 5 (lit "/first") (lit "json") []);
   RChannel (mkChannelRecord 9 5 (lit "/second") (lit "json") [])].
#[local] Instance to_sink : Sink spec_state := spec_sink to.
Definition recovered_topics (rs : list record) : list rstring :=
  (λ p, cc_topic p.2) <$> log_channels (sp_log (job_writer (for_all recover_record rs (mkJob (spec_new to) recovery_default)).2)).
Lemma keeps_last_of_waiting : recovered_topics waiting_twice = [lit "/second"] ∧ recovered_topics written_once = [lit "/first"].
Proof. split; vm_compute; reflexivity. Qed.
End RecoverExamples.
