(* ===== verification/Sort.v ===== *)
(** The sort command (sort.rs): the messages of an indexed file are written to another in
    the order of their log times, after the attachments and the metadata.

    The loop over the events of an indexed reader, [indexed_loop], is that of the filter
    command too. *)

From S2P Require Import Prelude Utf8 BTree Errors Bin Records Crc Io Codec RwBuf Decompressor LinearReader Channels Read Summary SummaryReader Sorting IndexedReader ChunkWriter Writer WriterSpec Cli Sink Common.

Record SortOptions := mkSortOptions {
  so_compression : option Compression;
  so_chunk_size : Z;
  so_include_crc : bool;
  so_chunked : bool;
}.

(** [ConvertCompression] of the arguments. *)
Inductive ConvertCompression := CompressZstd | CompressLz4 | CompressNone.
Definition convert_compression (value : ConvertCompression) : option Compression :=
  match value with CompressZstd => Some Zstd | CompressLz4 => Some Lz4 | CompressNone => None end.
Definition build_sort_options (compression : ConvertCompression) (chunk_size : Z) (include_crc chunked : bool) : SortOptions :=
  mkSortOptions (convert_compression compression) chunk_size include_crc chunked.

(** ** Reading *)

Definition checked_slice (input : bytes) (offset length : Z) : Result bytes :=
  let end_ := (offset + length)%Z in
  if (usize_max <? end_)%Z then bail "chunk read overflow at offset {offset}" [Num offset]
  else if (zlen input <? end_)%Z then bail "chunk read out of bounds at offset {offset} length {length}" [Num offset; Num length]
  else mret (ztake length (zdrop offset input)).

(** [summary.channels.get(id).ok_or_else(..)] *)
Definition known_channel_or (summary : Summary) (id : Z) : Result Channel :=
  match channels summary !! id with
  | Some channel => mret channel
  | None => bail "message references unknown channel {}" [Num id]
  end.

Section indexed.
Context `{ChunkCodecs} {St : Type}.

(** [while let Some(event) = reader.next_event() { match event? { .. } }]: a chunk is
    loaded from the input; [body] takes a message, and says whether to go on. *)
Fixpoint indexed_loop (fuel : nat) (input : bytes) (body : MessageHeader → bytes → method St anyhow bool) (reader : IndexedReader) : method St anyhow () :=
  match fuel with
  | 0 => lift Fuel
  | S fuel =>
      let '(event, reader) := ix_next_event reader in
      event ← lift (from_mcap event);
      match event with
      | Some (ReadChunkRequest offset length) =>
          chunk_data ← lift (checked_slice input offset length);
          let '(inserted, reader) := insert_chunk_record_data offset chunk_data reader in
          _ ← lift (from_mcap inserted);
          indexed_loop fuel input body reader
      | Some (EvMessage header data) =>
          go_on ← body header data;
          if go_on : bool then indexed_loop fuel input body reader else mret ()
      | None => mret ()
      end
  end.
End indexed.

Section validate.
Context `{Crc, ZstdLib, Lz4Lib}.

Definition file_has_messages (fuel : nat) (input : bytes) : Result bool :=
  match (MessageStream_next fuel (RawMessageStream_new input)).1 with
  | Ok (Some _) => mret true
  | Ok None => mret false
  | Err err => mthrow (FromMcap err)
  | Panic => Panic
  | Fuel => Fuel
  end.

Definition validate_sort_input (fuel : nat) (input : bytes) : Result (option Summary) :=
  summary ← with_context "failed to read file index" [] (from_mcap (Summary_read fuel input));
  let has_chunk_indexes := match summary with Some summary => match chunk_indexes summary with [] => false | _ => true end | None => false end in
  if has_chunk_indexes then mret summary else
  has_messages ← file_has_messages fuel input;
  if (has_messages : bool)
  then bail "Error reading file index: {reason}. You may need to run `mcap recover` if the file is corrupt or not chunk indexed."
    [Str (match summary with None => lit "summary section not available" | Some _ => lit "no chunk index records" end)]
  else mret summary.
End validate.

(** ** Copying *)

Section copy.
Context `{Crc, ZstdLib, Lz4Lib, ChunkCodecs} `{Sink Wr} {St : Type}.
Abbreviation sort A := (method (Job Wr St) anyhow A).

Definition copy_attachments_from_summary (input : bytes) (summary : Summary) : sort () :=
  let indexes := sort_by (by_key (λ index, [ai_offset index])) (attachment_indexes summary) in
  for_all (λ index,
    a ← lift (with_context "failed to read attachment at offset {}" [Num (ai_offset index)] (from_mcap (attachment input index)));
    in_context "failed to write attachment {}" [Str (ai_name index)] (on_writer (sink_attach a))) indexes.

Definition copy_metadata_from_summary (input : bytes) (summary : Summary) : sort () :=
  let indexes := sort_by (by_key (λ index, [mx_offset index])) (metadata_indexes summary) in
  for_all (λ index,
    m ← lift (with_context "failed to read metadata at offset {}" [Num (mx_offset index)] (from_mcap (metadata input index)));
    in_context "failed to write metadata {}" [Str (md_name m)] (on_writer (sink_write_metadata m))) indexes.

(** A message of the summary's channel. *)
Definition write_indexed_message (summary : Summary) (header : MessageHeader) (data : bytes) : sort () :=
  channel ← lift (known_channel_or summary (m_channel_id header));
  on_writer (sink_write (mkMessage channel (m_sequence header) (m_log_time header) (m_publish_time header) data)).

Definition copy_messages_in_log_time_order (fuel : nat) (input : bytes) (summary : Summary) : sort () :=
  reader ← lift (from_mcap (IndexedReader_new_with_options summary (with_order LogTime IndexedReaderOptions_default)));
  indexed_loop fuel input (λ header data, _ ← write_indexed_message summary header data; mret true) reader.

Definition copy_linear_non_message_records (fuel : nat) (input : bytes) : sort () :=
  for_each fuel (λ r,
    match r with
    | RAttachment header data _ =>
        on_writer (sink_attach (mkAttachment (ah_log_time header) (ah_create_time header) (ah_name header) (ah_media_type header) data))
    | RMetadata m => on_writer (sink_write_metadata m)
    | _ => mret ()
    end) (linear.new input).

(** What [sort_to_writer] does with its writer, before it is finished. *)
Definition copy_sorted (fuel : nat) (input : bytes) (summary : option Summary) : sort () :=
  match summary with
  | Some summary =>
      _ ← copy_attachments_from_summary input summary;
      _ ← copy_metadata_from_summary input summary;
      match chunk_indexes summary with
      | [] => mret ()
      | _ => copy_messages_in_log_time_order fuel input summary
      end
  | None => copy_linear_non_message_records fuel input
  end.
End copy.

(** ** The command *)

Section command.
Context `{Crc, ZstdLib, Lz4Lib, ChunkCodecs, HashOrder, ZstdEncoderLib, Lz4EncoderLib} `{Write W, Seek W}.
Context `{!BiMap ChannelContent Z, !BiMap SchemaContent Z}.

(** The options of the writer; [version] and [cpus] are those of its defaults. *)
Definition sort_write_options (version : rstring) (cpus : Z) (header : option Header) (opts : SortOptions) : WriteOptions :=
  let crc := so_include_crc opts in
  let write_options := options.calculate_attachment_crcs crc (options.calculate_summary_section_crc crc
    (options.calculate_data_section_crc crc (options.calculate_chunk_crcs crc (options.compression (so_compression opts)
      (options.chunk_size (Some (so_chunk_size opts)) (options.use_chunks (so_chunked opts) (WriteOptions_default version cpus))))))) in
  match header with
  | Some header => options.library (h_library header) (options.profile (h_profile header) write_options)
  | None => write_options
  end.

Definition sort_to_writer (version : rstring) (cpus : Z) (fuel : nat) (input : bytes) (sink : W) (summary : option Summary) (opts : SortOptions) : Result W :=
  header ← read_header input;
  writer ← with_context "failed to create mcap writer" [] (from_mcap (Writer_with_options sink (sort_write_options version cpus header opts)));
  '(_, job) ← run (_ ← copy_sorted fuel input summary;
                   in_context "failed to finish mcap writer" [] (on_writer wr_finish)) (mkJob writer ());
  from_mcap (wr_into_inner (job_writer job)).

(** [run], but for the files: the input is checked before the output is opened. *)
Definition sort_run (version : rstring) (cpus : Z) (fuel : nat) (input : bytes) (sink : W) (opts : SortOptions) : Result W :=
  summary ← validate_sort_input fuel input;
  sort_to_writer version cpus fuel input sink summary opts.
End command.
