(* ===== verification/RosBag.v ===== *)
(** The convert command (convert.rs, convert/ros1_bag.rs): the connections and messages of
    a ROS 1 bag are written to an MCAP file.

    A bag is a magic and records; a record is a header and data, each with its length
    before it; a header is a list of fields, key and value.  A record may be a chunk, whose
    data are records again, compressed or not.  The decompression of chunks is an interface
    to the packages that implement it. *)

From S2P Require Import Prelude Utf8 BTree Errors Bin Records Crc Io Channels Summary ChunkWriter Writer WriterSpec Cli Sink Sort.

(** ** Errors *)

(** [?] on the result of an I/O operation *)
Definition io {R A} (m : method R io_error A) : method R anyhow A := λ r,
  let '(o, r) := m r in (map_err (λ e, FromMcap (Io e)) o, r).
(** [ensure!] *)
Definition ensure (b : bool) (format : string) (args : list arg) : Result () := if b then mret () else bail format args.
(** [String::from_utf8], [str::from_utf8] *)
Definition from_utf8 (b : bytes) : Result rstring := if utf8_valid b then mret b else mthrow (FromMcap (Parse BadUtf8)).

Definition BAG_MAGIC : bytes := lit "#ROSBAG V2.0" ++ raw [10]%Z.

Definition OP_BAG_HEADER : Z := 3.
Definition OP_BAG_CHUNK : Z := 5.
Definition OP_BAG_CONNECTION : Z := 7.
Definition OP_BAG_MESSAGE_DATA : Z := 2.
Definition OP_BAG_INDEX_DATA : Z := 4.
Definition OP_BAG_CHUNK_INFO : Z := 6.

Definition KEY_OP : rstring := lit "op".
Definition KEY_COMPRESSION : rstring := lit "compression".
Definition KEY_SIZE : rstring := lit "size".
Definition KEY_CONN : rstring := lit "conn".
Definition KEY_TOPIC : rstring := lit "topic".
Definition KEY_TIME : rstring := lit "time".
Definition KEY_TYPE : rstring := lit "type".
Definition KEY_MD5SUM : rstring := lit "md5sum".
Definition KEY_MESSAGE_DEFINITION : rstring := lit "message_definition".
Definition MAX_RECORD_SECTION_SIZE : Z := 2 ^ 30.

Record BagRecord := mkBagRecord {
  br_header : bytes;
  br_data : bytes;
}.

Section records.
Context `{Read R}.

Definition read_u32 : method R anyhow Z := b ← io (read_exact 4); mret (le_dec b).

Fixpoint read_u32_loop (fuel : nat) (filled : bytes) : method R anyhow (option Z) :=
  if (4 <=? zlen filled)%Z then mret (Some (le_dec filled)) else
  match fuel with
  | 0 => lift Fuel
  | S fuel =>
      b ← io (read (4 - zlen filled));
      match b with
      | [] => if bool_decide (filled = []) then mret None else lift (bail "unexpected EOF while reading u32" [])
      | _ => read_u32_loop fuel (filled ++ b)
      end
  end.
Definition read_u32_maybe_eof : method R anyhow (option Z) := read_u32_loop 4 [].

Definition read_record : method R anyhow (option BagRecord) :=
  header_len ← in_context "failed to read record header length" [] read_u32_maybe_eof;
  match header_len with
  | None => mret None
  | Some header_len =>
      _ ← lift (ensure (header_len <=? MAX_RECORD_SECTION_SIZE)%Z "record header length {header_len} exceeds maximum {MAX_RECORD_SECTION_SIZE}" [Num header_len]);
      header ← in_context "failed to read record header bytes" [] (io (read_exact header_len));
      data_len ← in_context "failed to read record data length" [] read_u32;
      _ ← lift (ensure (data_len <=? MAX_RECORD_SECTION_SIZE)%Z "record data length {data_len} exceeds maximum {MAX_RECORD_SECTION_SIZE}" [Num data_len]);
      data ← in_context "failed to read record payload" [] (io (read_exact data_len));
      mret (Some (mkBagRecord header data))
  end.
End records.

(** ** Headers *)

Abbreviation fields := (list (rstring * bytes)).

(** [field.iter().position(|b| *b == b'=')] *)
Fixpoint position (field : bytes) : option Z :=
  match field with
  | [] => None
  | b :: field => if bool_decide (b = byte_of_Z 61) then Some 0%Z else (Z.add 1) <$> position field
  end.

(** The loop goes on by at least four bytes. *)
Fixpoint parse_fields_loop (fuel : nat) (buf : bytes) (offset : Z) (out : fields) : Result fields :=
  if (zlen buf <=? offset)%Z then mret out else
  match fuel with
  | 0 => Fuel
  | S fuel =>
      start ← add_ usize_max offset 4;
      _ ← ensure (start <=? zlen buf)%Z "invalid header field length prefix at offset {offset}" [Num offset];
      len ← slice offset start buf;
      end_ ← add_ usize_max start (le_dec len);
      _ ← ensure (end_ <=? zlen buf)%Z "header field exceeds available bytes" [];
      field ← slice start end_ buf;
      match position field with
      | None => bail "header field missing '=' separator" []
      | Some eq_idx =>
          key ← slice 0 eq_idx field;
          key ← with_context "invalid utf8 header key" [] (from_utf8 key);
          value ← slice (eq_idx + 1) (zlen field) field;
          parse_fields_loop fuel buf end_ (bt_insert key value out)
      end
  end.
Definition parse_header_fields (buf : bytes) : Result fields := parse_fields_loop (length buf) buf 0 [].

(** The map is in the order of its keys before and after. *)
Fixpoint to_string_map (l : fields) : Result (list (rstring * rstring)) :=
  match l with
  | [] => mret []
  | (k, v) :: l =>
      value ← with_context "invalid utf8 value for metadata field '{k}'" [Str k] (from_utf8 v);
      m ← to_string_map l;
      mret ((k, value) :: m)
  end.

Definition header_bytes (header_fields : fields) (key : rstring) : Result bytes :=
  ok_or (Msg "missing required header field '{key}'" [Str key]) (bt_get key header_fields).
Definition header_string (header_fields : fields) (key : rstring) : Result rstring :=
  b ← header_bytes header_fields key;
  with_context "header field '{key}' is not valid utf8" [Str key] (from_utf8 b).
Definition header_u8 (header_fields : fields) (key : rstring) : Result Z :=
  b ← header_bytes header_fields key;
  _ ← ensure (zlen b =? 1)%Z "header field '{key}' expected 1 byte, got {}" [Str key; Num (zlen b)];
  mret (le_dec b).
Definition header_u32 (header_fields : fields) (key : rstring) : Result Z :=
  b ← header_bytes header_fields key;
  _ ← ensure (zlen b =? 4)%Z "header field '{key}' expected 4 bytes, got {}" [Str key; Num (zlen b)];
  mret (le_dec b).
Definition required_string (l : fields) (key : rstring) : Result rstring :=
  b ← ok_or (Msg "missing required field '{key}'" [Str key]) (bt_get key l);
  with_context "field '{key}' is not valid utf8" [Str key] (from_utf8 b).
(** The value, and the map without it. *)
Definition take_required_bytes (l : fields) (key : rstring) : Result (bytes * fields) :=
  b ← ok_or (Msg "missing required field '{key}'" [Str key]) (bt_get key l);
  mret (b, bt_remove key l).
Definition take_required_string (l : fields) (key : rstring) : Result (rstring * fields) :=
  '(b, l) ← take_required_bytes l key;
  s ← with_context "field '{key}' is not valid utf8" [Str key] (from_utf8 b);
  mret (s, l).

(** The caller checks the length; the product of a [u32] fits. *)
Definition ros_time_to_nanos (time : bytes) : Result Z :=
  secs ← slice 0 4 time;
  nsecs ← slice 4 8 time;
  add_ u64_max (le_dec secs * 1000000000) (le_dec nsecs).
Definition conn_id_to_channel_id (conn_id : Z) : Result Z :=
  if (conn_id <=? u16_max)%Z then mret conn_id else bail "connection id {conn_id} exceeds u16 range" [Num conn_id].

(** ** Chunks *)

(** The decoders of the crates [bzip2] and [lz4]; the latter checks the end of its frame
    when it is finished. *)
Class BagCodecs := {
  BzDecoder : Type;
  BzDecoder_Read :: Read BzDecoder;
  BzDecoder_new : bytes → BzDecoder;
  Lz4Decoder : Type;
  Lz4Decoder_Read :: Read Lz4Decoder;
  Lz4Decoder_new : bytes → outcome io_error Lz4Decoder;
  Lz4Decoder_finish : Lz4Decoder → outcome io_error ();
}.

(** A read that is not the last brings a byte or more, and no more than the declared size
    are taken. *)
Fixpoint read_limited_loop `{Read R} (fuel : nat) (expected : Z) (context : string) (out : bytes) : method R anyhow bytes :=
  match fuel with
  | 0 => lift Fuel
  | S fuel =>
      b ← in_context context [] (io (read 8192));
      match b with
      | [] => mret out
      | _ =>
          n ← lift (add_ usize_max (zlen out) (zlen b));
          _ ← lift (ensure (n <=? expected)%Z "decompressed ROS1 chunk exceeded declared size {expected_decompressed_size}" [Num expected]);
          read_limited_loop fuel expected context (out ++ b)
      end
  end.
Definition read_limited `{Read R} (expected : Z) (context : string) : method R anyhow bytes :=
  out ← read_limited_loop (2 + Z.to_nat expected) expected context [];
  _ ← lift (ensure (zlen out =? expected)%Z "decompressed ROS1 chunk size mismatch: declared {expected_decompressed_size}, got {}" [Num expected; Num (zlen out)]);
  mret out.

Definition decompress_chunk `{BagCodecs} (compression : rstring) (compressed : bytes) (expected : Z) : Result bytes :=
  if bool_decide (compression = lit "none") then
    _ ← ensure (zlen compressed =? expected)%Z "chunk size mismatch for uncompressed chunk: header declared {expected_decompressed_size} bytes, found {} bytes" [Num expected; Num (zlen compressed)];
    mret compressed
  else if bool_decide (compression = lit "bz2") then
    '(out, _) ← run (read_limited expected "failed to decompress bz2 ROS1 bag chunk") (BzDecoder_new compressed);
    mret out
  else if bool_decide (compression = lit "lz4") then
    decoder ← with_context "failed to initialize lz4 decoder for ROS1 bag chunk" [] (map_err (λ e, FromMcap (Io e)) (Lz4Decoder_new compressed));
    '(out, decoder) ← run (read_limited expected "failed to decompress lz4 ROS1 bag chunk") decoder;
    _ ← with_context "failed finalizing lz4 ROS1 bag chunk decoder" [] (map_err (λ e, FromMcap (Io e)) (Lz4Decoder_finish decoder));
    mret out
  else bail "unsupported ROS1 bag chunk compression '{other}'" [Str compression].

(** ** The conversion *)

Record SchemaKey := mkSchemaKey {
  msg_type : rstring;
  md5sum : rstring;
}.
#[export] Instance SchemaKey_eq_dec : EqDecision SchemaKey.
Proof. solve_decision. Defined.

(** The derived order: by the type, then by the sum. *)
#[export, refine] Instance SchemaKey_KeyOrd : KeyOrd SchemaKey := {|
  kltb a b := str_ltb (msg_type a) (msg_type b) || bool_decide (msg_type a = msg_type b) && str_ltb (md5sum a) (md5sum b);
|}.
Proof.
  - intros [t m]. cbn. by rewrite !str_ltb_irrefl, andb_false_r.
  - intros [t1 m1] [t2 m2] [t3 m3]. cbn. rewrite !orb_true_iff, !andb_true_iff, !bool_decide_eq_true.
    intros [H1|[-> H1]] [H2|[-> H2]]; [left; by eapply str_ltb_trans|by left|by left|right; split; [done|by eapply str_ltb_trans]].
  - intros [t1 m1] [t2 m2]. cbn. rewrite !orb_false_iff, !andb_false_iff, !bool_decide_eq_false. intros [H1 H1'] [H2 H2'].
    pose proof (str_ltb_total _ _ H1 H2) as ->. f_equal. apply str_ltb_total; naive_solver.
Defined.

(** A [ConnectionInfo] holds a channel. *)
Record ConversionState := mkConversionState {
  cv_schemas : list (SchemaKey * Z);
  cv_connections : list (Z * Channel);
  cv_sequence : Z;
}.
Definition ConversionState_new : ConversionState := mkConversionState [] [] 0.

Section conversion.
Context `{BagCodecs} `{Sink Wr}.
Abbreviation convert := (method (Job Wr ConversionState) anyhow).

Definition insert_schema (key : SchemaKey) (id : Z) (s : ConversionState) : ConversionState :=
  mkConversionState (bt_insert key id (cv_schemas s)) (cv_connections s) (cv_sequence s).
Definition insert_connection (conn_id : Z) (channel : Channel) (s : ConversionState) : ConversionState :=
  mkConversionState (cv_schemas s) (bt_insert conn_id channel (cv_connections s)) (cv_sequence s).
(** [wrapping_add] *)
Definition count_sequence (s : ConversionState) : ConversionState :=
  mkConversionState (cv_schemas s) (cv_connections s) (as_u32 (cv_sequence s + 1)).

Definition process_connection (header_fields : fields) (data : bytes) : convert () :=
  conn_id ← lift (header_u32 header_fields KEY_CONN);
  topic ← lift (header_string header_fields KEY_TOPIC);
  conn_data ← lift (parse_header_fields data);
  '(msg_type, conn_data) ← lift (take_required_string conn_data KEY_TYPE);
  md5sum ← lift (required_string conn_data KEY_MD5SUM);
  '(message_definition, conn_data) ← lift (take_required_bytes conn_data KEY_MESSAGE_DEFINITION);
  let schema_key := mkSchemaKey msg_type md5sum in
  known ← on_state (gets (λ s, bt_get schema_key (cv_schemas s)));
  schema_id ← match known with
    | Some id => mret id
    | None =>
        id ← in_context "failed to write ROS1 schema" [] (on_writer (sink_add_schema msg_type (lit "ros1msg") message_definition));
        _ ← on_state (modify (insert_schema schema_key id));
        mret id
    end;
  metadata ← lift (to_string_map conn_data);
  channel_id ← lift (conn_id_to_channel_id conn_id);
  let schema := mkSchema schema_id msg_type (lit "ros1msg") message_definition in
  let channel := mkChannel channel_id topic (Some schema) (lit "ros1") metadata in
  on_state (modify (insert_connection conn_id channel)).

Definition process_message (header_fields : fields) (data : bytes) : convert () :=
  conn_id ← lift (header_u32 header_fields KEY_CONN);
  time ← lift (header_bytes header_fields KEY_TIME);
  _ ← lift (ensure (zlen time =? 8)%Z "invalid ROS time field size for conn {conn_id}: expected 8 bytes, got {}" [Num conn_id; Num (zlen time)]);
  log_time ← lift (ros_time_to_nanos time);
  conn_info ← on_state (gets (λ s, bt_get conn_id (cv_connections s)));
  match conn_info with
  | None => lift (bail "message references unknown connection id {conn_id}" [Num conn_id])
  | Some channel =>
      sequence ← on_state (gets cv_sequence);
      _ ← in_context "failed to write converted ROS1 message" [] (on_writer (sink_write (mkMessage channel sequence log_time log_time data)));
      on_state (modify count_sequence)
  end.

(** [records] is [process_records] on the decompressed data. *)
Definition process_chunk (records : VecCursor → convert ()) (header_fields : fields) (data : bytes) : convert () :=
  compression ← lift (header_string header_fields KEY_COMPRESSION);
  expected ← lift (header_u32 header_fields KEY_SIZE);
  _ ← lift (ensure (expected <=? MAX_RECORD_SECTION_SIZE)%Z "chunk uncompressed size {expected_decompressed_size} exceeds maximum {MAX_RECORD_SECTION_SIZE}" [Num expected]);
  decompressed ← lift (decompress_chunk compression data expected);
  records (VecCursor_new decompressed).

Definition process_record (records : VecCursor → convert ()) (record : BagRecord) : convert () :=
  header_fields ← lift (parse_header_fields (br_header record));
  op ← lift (header_u8 header_fields KEY_OP);
  if bool_decide (op ∈ [OP_BAG_HEADER; OP_BAG_INDEX_DATA; OP_BAG_CHUNK_INFO]) then mret () else
  if (op =? OP_BAG_CONNECTION)%Z then process_connection header_fields (br_data record) else
  if (op =? OP_BAG_MESSAGE_DATA)%Z then process_message header_fields (br_data record) else
  if (op =? OP_BAG_CHUNK)%Z then process_chunk records header_fields (br_data record) else
  mret ().

(** The fuel bounds the records, those in chunks included; that chunks may hold chunks, to
    any depth, is how the code is. *)
Fixpoint process_records (fuel : nat) {R : Type} {read_R : Read R} (reader : R) : convert () :=
  match fuel with
  | 0 => lift Fuel
  | S fuel =>
      let '(record, reader) := read_record reader in
      record ← lift record;
      match record with
      | None => mret ()
      | Some record => _ ← process_record (process_records fuel) record; process_records fuel reader
      end
  end.
End conversion.

(** ** The command *)

Inductive InputFileType := Ros1Bag.

Definition eq_ignore_ascii_case (s t : rstring) : bool :=
  let lower (b : byte) := let z := byte_to_Z b in if ((65 <=? z) && (z <=? 90))%Z then byte_of_Z (z + 32) else b in
  bool_decide (lower <$> s = lower <$> t).
(** By the extension of the path, if there is one and it is valid UTF-8. *)
Definition detect_file_type (extension : option rstring) : Result InputFileType :=
  match extension with
  | Some ext => if eq_ignore_ascii_case ext (lit "bag") then mret Ros1Bag
      else bail "unsupported input file extension '{}' (expected .bag for ROS1 bag input)" [Str ext]
  | None => bail "unsupported input file extension '{}' (expected .bag for ROS1 bag input)" [Str (lit "<none>")]
  end.

Definition check_bag_magic `{Read R} : method R anyhow () :=
  magic ← in_context "failed to read ROS1 bag magic" [] (io (read_exact (zlen BAG_MAGIC)));
  lift (ensure (bool_decide (magic = BAG_MAGIC)) "invalid ROS1 bag magic (expected '#ROSBAG V2.0\n')" []).
Definition validate_ros1_bag_magic `{Read R, Seek R} : method R anyhow () :=
  _ ← check_bag_magic;
  _ ← in_context "failed to rewind input after ROS1 bag magic check" [] (io (seek (SeekStart 0)));
  mret ().
Definition validate_input `{Read R, Seek R} (file_type : InputFileType) : method R anyhow () :=
  match file_type with Ros1Bag => validate_ros1_bag_magic end.

Section command.
Context `{Crc, HashOrder, ZstdEncoderLib, Lz4EncoderLib, BagCodecs} `{Write W, Seek W, Read R, Seek R}.
Context `{!BiMap ChannelContent Z, !BiMap SchemaContent Z}.

(** The options of the writer; [version] and [cpus] are those of its defaults. *)
Definition build_write_options (version : rstring) (cpus : Z) (compression : ConvertCompression) (chunk_size : Z) (include_crc chunked : bool) : WriteOptions :=
  options.calculate_attachment_crcs include_crc (options.calculate_summary_section_crc include_crc
    (options.calculate_data_section_crc include_crc (options.calculate_chunk_crcs include_crc
      (options.compression (convert_compression compression) (options.chunk_size (Some chunk_size)
        (options.use_chunks chunked (options.profile (lit "ros1") (WriteOptions_default version cpus)))))))).

Definition convert_ros1_bag (fuel : nat) (output : W) (input : R) (write_options : WriteOptions) : Result W :=
  '(_, input) ← run check_bag_magic input;
  writer ← with_context "failed to create MCAP writer" [] (from_mcap (Writer_with_options output write_options));
  '(_, job) ← run (_ ← process_records fuel input;
                   in_context "failed to finalize MCAP writer" [] (on_writer wr_finish)) (mkJob writer ConversionState_new);
  from_mcap (wr_into_inner (job_writer job)).

(** [run], on files that are open. *)
Definition convert_run (version : rstring) (cpus : Z) (fuel : nat) (extension : option rstring) (input : R) (output : W)
    (compression : ConvertCompression) (chunk_size : Z) (include_crc chunked : bool) : Result W :=
  file_type ← detect_file_type extension;
  '(_, input) ← run (validate_input file_type) input;
  let opts := build_write_options version cpus compression chunk_size include_crc chunked in
  match file_type with Ros1Bag => convert_ros1_bag fuel output input opts end.
End command.
