(* ===== verification/RosBagRead.v ===== *)
(** What the conversion reads of the bytes of a bag: from any reader that works, the records
    of a bag, those of its chunks in their place; from the bytes of a header, the map of
    its fields, and from no other bytes. *)

From S2P Require Import Prelude Utf8 BTree Errors Bin Records Crc Io Channels Summary ChunkWriter ChunkWriterTheory Writer WriterSpec Cli Sink Sort RosBag.

Section reading.
Context `{ReadOk R rep}.

Lemma io_Ok {A} (m : method R io_error A) r a r' : m r = (Ok a, r') → io m r = (Ok a, r').
Proof. unfold io. by intros ->. Qed.
Lemma in_context_passes {S A} format args (m : method S anyhow A) s a s' : m s = (Ok a, s') → in_context format args m s = (Ok a, s').
Proof. unfold in_context. by intros ->. Qed.

Lemma bind_ensure {S A} format args (f : () → method S anyhow A) s : (lift (ensure true format args) ≫= f) s = f () s.
Proof. done. Qed.

Lemma read_u32_ok z r rest : in_u 32 z → rep r (le_enc 4 z ++ rest) → ∃ r', read_u32 r = (Ok z, r') ∧ rep r' rest.
Proof.
  intros Hz Hr. destruct (read_exact_ok (le_enc 4 z) r rest Hr) as (r' & E & Hr'). exists r'. split; [|done].
  rewrite zlen_le_enc in E. unfold read_u32. rewrite (bind_method_Ok _ _ _ _ _ (io_Ok _ _ _ _ E)). unfold mret, method_ret. by rewrite le_dec_enc_u.
Qed.
Lemma read_u32_loop_ok fuel acc d r rest : rep r (d ++ rest) → zlen (acc ++ d) = 4%Z → length d ≤ fuel →
  ∃ r', read_u32_loop fuel acc r = (Ok (Some (le_dec (acc ++ d))), r') ∧ rep r' rest.
Proof.
  revert acc d r. induction fuel as [|fuel IH]; intros acc [|x d] r Hr Hl Hf; cbn in Hf; try lia; cbn [read_u32_loop];
    [rewrite app_nil_r in *; rewrite Hl; by exists r..|]. set (l := x :: d) in *. rewrite zlen_app in Hl.
  assert (0 < zlen l)%Z by (unfold l; rewrite zlen_cons; pose proof (zlen_nonneg d); lia). rewrite (proj2 (Z.leb_gt _ _)) by lia.
  destruct (read_ok r (l ++ rest) (4 - zlen acc) Hr) as (e & b' & r' & E & Hb & He & Hn & Hr'); [lia|]. rewrite (bind_method_Ok _ _ _ _ _ (io_Ok _ _ _ _ E)).
  destruct e as [|y e]; [by rewrite (Hn eq_refl) in Hb|]. set (k := y :: e) in *.
  assert (l = k ++ drop (length k) l) as Hlk.
  { rewrite <-(take_drop (length k) l) at 1. f_equal. apply (f_equal (take (length k))) in Hb. rewrite take_app_length, take_app_le in Hb; [done|unfold zlen in *; lia]. }
  set (l' := drop (length k) l) in *. assert (b' = l' ++ rest) as -> by (rewrite Hlk, <-app_assoc in Hb; by apply app_inv_head in Hb).
  destruct (IH (acc ++ k) l' r' Hr') as (r2 & E2 & Hr2).
  - rewrite <-app_assoc, <-Hlk, zlen_app. lia.
  - apply (f_equal length) in Hlk. rewrite length_app in Hlk. unfold l, k in *. cbn in *. lia.
  - exists r2. split; [|done]. rewrite E2, <-app_assoc. by rewrite <-Hlk.
Qed.
Lemma read_u32_maybe_eof_ok z r rest : in_u 32 z → rep r (le_enc 4 z ++ rest) → ∃ r', read_u32_maybe_eof r = (Ok (Some z), r') ∧ rep r' rest.
Proof.
  intros Hz Hr. destruct (read_u32_loop_ok 4 [] _ r rest Hr) as (r' & E & Hr'); [cbn [app]; by rewrite zlen_le_enc|by rewrite length_le_enc|].
  exists r'. split; [|done]. unfold read_u32_maybe_eof. rewrite E. cbn [app]. by rewrite le_dec_enc_u.
Qed.
Lemma read_u32_maybe_eof_end r : rep r [] → ∃ r', read_u32_maybe_eof r = (Ok None, r').
Proof.
  intros Hr. destruct (read_ok r [] 4 Hr) as (e & b' & r' & E & Hb & _); [done|]. symmetry in Hb. apply app_nil in Hb as [-> ->].
  exists r'. unfold read_u32_maybe_eof. cbn [read_u32_loop].
  change (4 <=? zlen [])%Z with false. change (4 - zlen [])%Z with 4%Z. cbv iota. by rewrite (bind_method_Ok _ _ _ _ _ (io_Ok _ _ _ _ E)).
Qed.

(** ** Records *)

Definition bag_frame (header data : bytes) : bytes := le_enc 4 (zlen header) ++ header ++ le_enc 4 (zlen data) ++ data.
Definition section_fits (b : bytes) : bool := (zlen b <=? MAX_RECORD_SECTION_SIZE)%Z.

Lemma section_u32 b : section_fits b = true → in_u 32 (zlen b).
Proof. unfold section_fits, MAX_RECORD_SECTION_SIZE, in_u. pose proof (zlen_nonneg b). lia. Qed.
Lemma read_record_ok header data r rest : section_fits header = true → section_fits data = true → rep r (bag_frame header data ++ rest) →
  ∃ r', read_record r = (Ok (Some (mkBagRecord header data)), r') ∧ rep r' rest.
Proof.
  intros Hh Hd Hr. unfold bag_frame in Hr. rewrite <-!app_assoc in Hr.
  destruct (read_u32_maybe_eof_ok _ _ _ (section_u32 _ Hh) Hr) as (r1 & E1 & Hr1). destruct (read_exact_ok _ _ _ Hr1) as (r2 & E2 & Hr2).
  destruct (read_u32_ok _ _ _ (section_u32 _ Hd) Hr2) as (r3 & E3 & Hr3). destruct (read_exact_ok _ _ _ Hr3) as (r4 & E4 & Hr4).
  exists r4. split; [|done]. unfold read_record. unfold section_fits in *.
  rewrite (bind_method_Ok _ _ _ _ _ (in_context_passes _ _ _ _ _ _ E1)), Hh, bind_ensure.
  rewrite (bind_method_Ok _ _ _ _ _ (in_context_passes _ _ _ _ _ _ (io_Ok _ _ _ _ E2))), (bind_method_Ok _ _ _ _ _ (in_context_passes _ _ _ _ _ _ E3)).
  rewrite Hd, bind_ensure. by rewrite (bind_method_Ok _ _ _ _ _ (in_context_passes _ _ _ _ _ _ (io_Ok _ _ _ _ E4))).
Qed.
Lemma read_record_end r : rep r [] → ∃ r', read_record r = (Ok None, r').
Proof.
  intros Hr. destruct (read_u32_maybe_eof_end r Hr) as (r' & E). exists r'. unfold read_record.
  by rewrite (bind_method_Ok _ _ _ _ _ (in_context_passes _ _ _ _ _ _ E)).
Qed.

(** ** Decompressed data *)

Lemma read_limited_loop_ok fuel expected context acc d r : rep r d → (zlen acc + zlen d ≤ expected ≤ usize_max)%Z → S (length d) ≤ fuel →
  ∃ r', read_limited_loop fuel expected context acc r = (Ok (acc ++ d), r') ∧ rep r' [].
Proof.
  revert acc d r. induction fuel as [|fuel IH]; intros acc d r Hr Hl Hf; [lia|]. cbn [read_limited_loop].
  destruct (read_ok r d 8192 Hr) as (e & b' & r' & E & -> & He & Hn & Hr'); [done|].
  rewrite (bind_method_Ok _ _ _ _ _ (in_context_passes _ _ _ _ _ _ (io_Ok _ _ _ _ E))). rewrite zlen_app in Hl. pose proof (zlen_nonneg b').
  destruct e as [|y e]; [rewrite (Hn eq_refl) in *; exists r'; by rewrite !app_nil_r|]. set (k := y :: e) in *.
  rewrite add_Ok by lia. rewrite (bind_method_Ok (lift _) _ _ _ _ eq_refl), (proj2 (Z.leb_le _ _)), bind_ensure by lia.
  destruct (IH (acc ++ k) b' r' Hr') as (r2 & E2 & Hr2); [rewrite zlen_app; lia|rewrite length_app in Hf; unfold k in Hf; cbn in Hf; lia|].
  exists r2. by rewrite E2, <-app_assoc.
Qed.
Lemma read_limited_ok context d r : rep r d → (zlen d ≤ usize_max)%Z → ∃ r', read_limited (zlen d) context r = (Ok d, r') ∧ rep r' [].
Proof.
  intros Hr Hd. destruct (read_limited_loop_ok (2 + Z.to_nat (zlen d)) (zlen d) context [] d r Hr) as (r' & E & Hr');
    [rewrite zlen_nil; lia|unfold zlen; lia|]. exists r'. split; [|done].
  unfold read_limited. by rewrite (bind_method_Ok _ _ _ _ _ E), Z.eqb_refl, bind_ensure.
Qed.
End reading.

(** What the decoders promise: [unpacks name z b], that [z] is [b] compressed. *)
Class BagCodecsOk `{BagCodecs} := {
  bz_rest : BzDecoder → bytes → Prop;
  bz_ReadOk :: ReadOk BzDecoder bz_rest;
  lz4_rest : Lz4Decoder → bytes → Prop;
  lz4_ReadOk :: ReadOk Lz4Decoder lz4_rest;
}.
Definition unpacks `{BagCodecsOk} (compression : rstring) (z b : bytes) : Prop :=
  (compression = lit "none" ∧ z = b) ∨ (compression = lit "bz2" ∧ bz_rest (BzDecoder_new z) b) ∨
  (compression = lit "lz4" ∧ ∃ d, Lz4Decoder_new z = Ok d ∧ lz4_rest d b ∧ ∀ d', lz4_rest d' [] → Lz4Decoder_finish d' = Ok ()).
Lemma decompress_chunk_ok `{BagCodecsOk} compression z b : unpacks compression z b → (zlen b ≤ usize_max)%Z →
  decompress_chunk compression z (zlen b) = Ok b.
Proof.
  unfold decompress_chunk. intros [[-> ->]|[[-> Hz]|(-> & d & E & Hd & Hf)]] Hl.
  - rewrite bool_decide_true by done. by rewrite Z.eqb_refl.
  - destruct (read_limited_ok "failed to decompress bz2 ROS1 bag chunk" b _ Hz Hl) as (r' & E & _).
    rewrite bool_decide_false, bool_decide_true by done. unfold run. by rewrite E.
  - destruct (read_limited_ok "failed to decompress lz4 ROS1 bag chunk" b _ Hd Hl) as (r' & E' & Hr').
    rewrite !bool_decide_false, bool_decide_true by done. rewrite E. cbn [map_err with_context mbind outcome_bind]. unfold run. rewrite E'.
    cbn [fmap outcome_fmap mbind outcome_bind]. by rewrite Hf.
Qed.

(** ** Headers *)

Definition field_enc (p : rstring * bytes) : bytes := le_enc 4 (zlen p.1 + 1 + zlen p.2) ++ p.1 ++ byte_of_Z 61 :: p.2.
Definition fields_enc (l : fields) : bytes := concat (field_enc <$> l).
(** A key is a string without the separator. *)
Definition field_ok (p : rstring * bytes) : bool :=
  utf8_valid p.1 && bool_decide (byte_of_Z 61 ∉ p.1) && (zlen p.1 + 1 + zlen p.2 <=? u32_max)%Z.
(** Of fields with the same key the last one counts. *)
Definition insert_fields : fields → fields → fields := foldl (λ m p, bt_insert p.1 p.2 m).
Definition fields_map (l : fields) : fields := insert_fields [] l.

Lemma position_at k v : byte_of_Z 61 ∉ k → position (k ++ byte_of_Z 61 :: v) = Some (zlen k).
Proof.
  induction k as [|b k IH]; intros Hk; cbn [app position]; [by rewrite bool_decide_true|].
  apply not_elem_of_cons in Hk as [Hb Hk]. rewrite bool_decide_false by done. by rewrite (IH Hk), zlen_cons.
Qed.
Lemma position_Some f i : position f = Some i → ∃ k v, f = k ++ byte_of_Z 61 :: v ∧ i = zlen k ∧ byte_of_Z 61 ∉ k.
Proof.
  revert i. induction f as [|b f IH]; intros i; cbn [position]; [done|]. case_bool_decide as Hb.
  - intros [= <-]. subst b. exists [], f. split_and!; [done..|apply not_elem_of_nil].
  - destruct (position f) as [j|]; [|done]. intros [= <-]. destruct (IH j eq_refl) as (k & v & -> & -> & Hk).
    exists (b :: k), v. split_and!; [done|by rewrite zlen_cons|]. by apply not_elem_of_cons.
Qed.

Lemma slice_mid {E} (a b c : bytes) i j : zlen a = i → (zlen a + zlen b)%Z = j → slice (E:=E) i j (a ++ b ++ c) = Ok b.
Proof.
  intros <- <-. pose proof (zlen_nonneg a). pose proof (zlen_nonneg b). pose proof (zlen_nonneg c). rewrite slice_Ok by (rewrite ?zlen_app; lia).
  rewrite zdrop_app by done. by rewrite ztake_app by lia.
Qed.

(** A field is parsed. *)
Lemma parse_fields_step fuel pre p rest out : field_ok p = true → (zlen (pre ++ field_enc p ++ rest) ≤ usize_max)%Z →
  parse_fields_loop (S fuel) (pre ++ field_enc p ++ rest) (zlen pre) out =
    parse_fields_loop fuel ((pre ++ field_enc p) ++ rest) (zlen (pre ++ field_enc p)) (bt_insert p.1 p.2 out).
Proof.
  unfold field_ok. rewrite !andb_true_iff, bool_decide_eq_true, Z.leb_le. intros [[Hu Hk] Hl] Hs. destruct p as [k v]. cbn [fst snd] in *.
  rewrite (app_assoc pre). set (buf := (pre ++ field_enc (k, v)) ++ rest).
  set (n := (zlen k + 1 + zlen v)%Z) in *. set (f := k ++ byte_of_Z 61 :: v). assert (zlen f = n) as Hf by (unfold f, n; rewrite zlen_app, zlen_cons; lia).
  pose proof (zlen_nonneg pre). pose proof (zlen_nonneg k). pose proof (zlen_nonneg v). pose proof (zlen_nonneg rest).
  assert (field_enc (k, v) = le_enc 4 n ++ f) as He by done.
  assert (zlen buf = zlen pre + 4 + n + zlen rest)%Z as Hb by (unfold buf; rewrite He, !zlen_app, zlen_le_enc; lia).
  assert (zlen (pre ++ field_enc (k, v)) = zlen pre + 4 + n)%Z as Hend by (rewrite He, !zlen_app, zlen_le_enc; lia).
  rewrite app_assoc in Hs. fold buf in Hs.
  cbn [parse_fields_loop]. rewrite (proj2 (Z.leb_gt _ _)) by lia. rewrite add_Ok by lia. cbn [mbind outcome_bind].
  rewrite (proj2 (Z.leb_le _ _)) by lia. cbn [ensure mret outcome_ret mbind outcome_bind].
  assert (slice (E:=anyhow) (zlen pre) (zlen pre + 4) buf = Ok (le_enc 4 n)) as ->
    by (unfold buf; rewrite He, <-!app_assoc; apply slice_mid; [done|by rewrite zlen_le_enc]).
  cbn [mbind outcome_bind]. rewrite le_dec_enc_u by (unfold in_u, u32_max in *; cbn; lia). rewrite add_Ok by lia. cbn [mbind outcome_bind].
  rewrite (proj2 (Z.leb_le _ _)) by lia. cbn [ensure mret outcome_ret mbind outcome_bind].
  assert (slice (E:=anyhow) (zlen pre + 4) (zlen pre + 4 + n) buf = Ok f) as ->
    by (unfold buf; rewrite He, <-!app_assoc, (app_assoc pre); apply slice_mid; rewrite ?zlen_app, ?zlen_le_enc; lia).
  cbn [mbind outcome_bind]. unfold f. rewrite position_at by done.
  assert (slice (E:=anyhow) 0 (zlen k) (k ++ byte_of_Z 61 :: v) = Ok k) as -> by (apply (slice_mid [] k); [done|rewrite zlen_nil; lia]).
  cbn [mbind outcome_bind]. unfold from_utf8. rewrite Hu. cbn [with_context map_err mret outcome_ret mbind outcome_bind].
  assert (slice (E:=anyhow) (zlen k + 1) (zlen (k ++ byte_of_Z 61 :: v)) (k ++ byte_of_Z 61 :: v) = Ok v) as ->.
  { replace (k ++ byte_of_Z 61 :: v) with ((k ++ [byte_of_Z 61]) ++ v ++ []) by (by rewrite app_nil_r, <-app_assoc).
    apply slice_mid; rewrite ?zlen_app, ?zlen_cons, ?zlen_nil; lia. }
  cbn [mbind outcome_bind]. by rewrite Hend.
Qed.

Lemma zlen_field_enc p : zlen (field_enc p) = (5 + zlen p.1 + zlen p.2)%Z.
Proof. unfold field_enc. rewrite !zlen_app, zlen_cons, zlen_le_enc. lia. Qed.
Lemma parse_fields_enc fuel pre l out : forallb field_ok l = true → (zlen (pre ++ fields_enc l) ≤ usize_max)%Z → length (fields_enc l) ≤ fuel →
  parse_fields_loop fuel (pre ++ fields_enc l) (zlen pre) out = Ok (insert_fields out l).
Proof.
  revert pre l out. induction fuel as [|fuel IH]; intros pre [|p l] out; cbn [forallb]; rewrite ?andb_true_iff; intros Hl Hs Hf.
  - cbn. by rewrite app_nil_r, Z.leb_refl.
  - cbn in Hf. rewrite length_app in Hf. pose proof (zlen_field_enc p). pose proof (zlen_nonneg p.1). pose proof (zlen_nonneg p.2). unfold zlen in *. lia.
  - cbn. by rewrite app_nil_r, Z.leb_refl.
  - destruct Hl as [Hp Hl]. change (fields_enc (p :: l)) with (field_enc p ++ fields_enc l) in *. rewrite parse_fields_step by done.
    rewrite IH; [done|done|by rewrite <-app_assoc|]. rewrite length_app in Hf. pose proof (zlen_field_enc p).
    pose proof (zlen_nonneg p.1). pose proof (zlen_nonneg p.2). unfold zlen in *. lia.
Qed.
Lemma parse_header_fields_enc l : forallb field_ok l = true → (zlen (fields_enc l) ≤ usize_max)%Z → parse_header_fields (fields_enc l) = Ok (fields_map l).
Proof. intros Hl Hs. by apply (parse_fields_enc _ [] l []). Qed.

(** What is parsed is the encoding of fields. *)
Lemma parse_fields_cases fuel pre more out : more ≠ [] → (zlen (pre ++ more) + 2 ^ 32 ≤ usize_max)%Z →
  (∃ e, parse_fields_loop (S fuel) (pre ++ more) (zlen pre) out = Err e) ∨ ∃ p rest, field_ok p = true ∧ more = field_enc p ++ rest.
Proof.
  intros Hm Hs. pose proof (zlen_nonneg pre). assert (0 < zlen more)%Z by (destruct more; [done|]; rewrite zlen_cons; pose proof (zlen_nonneg more); lia).
  rewrite zlen_app in Hs. cbn [parse_fields_loop]. rewrite zlen_app, (proj2 (Z.leb_gt _ _)) by lia. rewrite add_Ok by lia. cbn [mbind outcome_bind].
  destruct (Z.leb_spec (zlen pre + 4) (zlen pre + zlen more)); [|by left; eexists].
  cbn [ensure mret outcome_ret mbind outcome_bind]. set (l4 := ztake 4 more). set (r4 := zdrop 4 more).
  assert (more = l4 ++ r4) as Hmore by by rewrite <-(ztake_zdrop 4 more). assert (zlen l4 = 4)%Z as H4 by (unfold l4; rewrite zlen_ztake; lia).
  assert (slice (E:=anyhow) (zlen pre) (zlen pre + 4) (pre ++ more) = Ok l4) as -> by (rewrite Hmore; apply slice_mid; lia).
  cbn [mbind outcome_bind]. set (n := le_dec l4). pose proof (le_dec_range l4) as Hn. rewrite H4 in Hn. fold n in Hn.
  rewrite add_Ok by lia. cbn [mbind outcome_bind]. destruct (Z.leb_spec (zlen pre + 4 + n) (zlen pre + zlen more)); [|by left; eexists].
  cbn [ensure mret outcome_ret mbind outcome_bind]. set (f := ztake n r4). set (rest := zdrop n r4). assert (zlen r4 = zlen more - 4)%Z as Hr4 by (rewrite Hmore, zlen_app; lia).
  assert (r4 = f ++ rest) as Hr by by rewrite <-(ztake_zdrop n r4). assert (zlen f = n) as Hf by (unfold f; rewrite zlen_ztake; lia).
  assert (slice (E:=anyhow) (zlen pre + 4) (zlen pre + 4 + n) (pre ++ more) = Ok f) as ->
    by (rewrite Hmore, Hr, (app_assoc pre); apply slice_mid; rewrite ?zlen_app; lia).
  cbn [mbind outcome_bind]. destruct (position f) as [i|] eqn:Hp; [|by left; eexists].
  apply position_Some in Hp as (k & v & Hfk & -> & Hk).
  assert (slice (E:=anyhow) 0 (zlen k) f = Ok k) as -> by (rewrite Hfk; apply (slice_mid [] k); [done|rewrite zlen_nil; lia]).
  cbn [mbind outcome_bind]. unfold from_utf8. destruct (utf8_valid k) eqn:Hu; [|by left; eexists]. right. exists (k, v), rest.
  assert (zlen k + 1 + zlen v = n)%Z as Hkv by (rewrite <-Hf, Hfk, zlen_app, zlen_cons; lia).
  unfold field_ok, field_enc. cbn [fst snd]. rewrite Hu, bool_decide_true by done. rewrite Hkv. split; [unfold u32_max; cbn in *; lia|].
  rewrite Hmore, Hr, Hfk, <-!app_assoc. f_equal. unfold n. rewrite <-(le_enc_dec l4) at 1. f_equal. unfold zlen in H4. lia.
Qed.
Lemma parse_fields_inv fuel pre more out : (zlen (pre ++ more) + 2 ^ 32 ≤ usize_max)%Z → length more ≤ fuel →
  match parse_fields_loop fuel (pre ++ more) (zlen pre) out with
  | Ok m => ∃ l, more = fields_enc l ∧ forallb field_ok l = true ∧ m = insert_fields out l
  | Err _ => True
  | _ => False
  end.
Proof.
  revert pre more out. induction fuel as [|fuel IH]; intros pre more out Hs Hf; destruct (decide (more = [])) as [->|Hne].
  - rewrite app_nil_r. cbn. rewrite Z.leb_refl. by exists [].
  - destruct more; [done|cbn in Hf; lia].
  - rewrite app_nil_r. cbn [parse_fields_loop]. rewrite Z.leb_refl. by exists [].
  - destruct (parse_fields_cases fuel pre more out Hne Hs) as [[e ->]|(p & rest & Hp & ->)]; [done|].
    assert (0 < zlen (field_enc p))%Z as Hz by (rewrite zlen_field_enc; pose proof (zlen_nonneg p.1); pose proof (zlen_nonneg p.2); lia).
    rewrite parse_fields_step by (done || lia). rewrite <-app_assoc. rewrite (app_assoc pre) in Hs |- *.
    specialize (IH (pre ++ field_enc p) rest (bt_insert p.1 p.2 out) Hs). rewrite length_app in Hf. unfold zlen in Hz. specialize (IH ltac:(lia)).
    destruct (parse_fields_loop _ _ _ _) as [m|e| |]; try done. destruct IH as (l & -> & Hl & ->). exists (p :: l). split_and!; [done| |done]. cbn. by rewrite Hp, Hl.
Qed.

Definition is_header (buf : bytes) (m : fields) : Prop := ∃ l, buf = fields_enc l ∧ forallb field_ok l = true ∧ m = fields_map l.

(** C38: a header of a bag is parsed if and only if it is one: what is accepted are exactly
    the encodings of fields whose keys are strings without a separator, the result is the
    map of the fields, the last of those with the same key, and everything else is an
    error; parsing always ends and never panics. *)
Theorem header_fields_parsed buf : (zlen buf ≤ MAX_RECORD_SECTION_SIZE)%Z →
  match parse_header_fields buf with
  | Ok m => is_header buf m
  | Err _ => ∀ m, ¬ is_header buf m
  | _ => False
  end.
Proof.
  intros Hl. unfold MAX_RECORD_SECTION_SIZE in Hl. pose proof (parse_fields_inv (length buf) [] buf []) as Hi. cbn [app] in Hi.
  specialize (Hi ltac:(unfold usize_max, u64_max; lia) ltac:(done)). change (zlen (@nil byte)) with 0%Z in Hi. fold (parse_header_fields buf) in Hi.
  destruct (parse_header_fields buf) as [m|e| |] eqn:E; try done. intros m (l & -> & Hok & ->).
  rewrite parse_header_fields_enc in E by (done || unfold usize_max, u64_max; lia). done.
Qed.

(** ** Examples *)

Module RosBagReadExamples.
Definition header : fields := [(KEY_TOPIC, lit "/pose"); (KEY_OP, raw [2]%Z); (KEY_TOPIC, lit "/=")].
Example example_header_parsed : parse_header_fields (fields_enc header) = Ok [(KEY_OP, raw [2]%Z); (KEY_TOPIC, lit "/=")].
Proof. vm_compute. reflexivity. Qed.
Example header_cut : parse_header_fields (raw [9; 0; 0]%Z) = bail "invalid header field length prefix at offset {offset}" [Num 0].
Proof. vm_compute. reflexivity. Qed.
Example header_without_separator : parse_header_fields (raw [2; 0; 0; 0; 65; 66]%Z) = bail "header field missing '=' separator" [].
Proof. vm_compute. reflexivity. Qed.

Lemma header_fields_parsed_witness : (zlen (fields_enc header) ≤ MAX_RECORD_SECTION_SIZE)%Z ∧ is_header (fields_enc header) [(KEY_OP, raw [2]%Z); (KEY_TOPIC, lit "/=")].
Proof.
  split; [vm_compute; discriminate|]. pose proof (header_fields_parsed (fields_enc header) ltac:(vm_compute; discriminate)) as Hh.
  rewrite example_header_parsed in Hh. exact Hh.
Defined.
End RosBagReadExamples.
