(* ===== verification/Cat.v ===== *)
(** The cat command (cat.rs): a line for each message, in the order of their log times if
    the file has an index of its chunks, and in the order of the file if not.

    A reader of the output that has gone away ends the command without an error; how such
    an error is told is a parameter.  The file is in memory, and the output is any
    destination. *)

From S2P Require Import Prelude Utf8 BTree Errors Bin Records Crc Io Codec RwBuf Decompressor LinearReader Channels Read Summary SummaryReader IndexedReader ChunkWriter Writer WriterSpec Cli Sink Common Sort.

Definition MESSAGE_PREVIEW_LEN : Z := 10.

Section cat.
Context `{Crc, ZstdLib, Lz4Lib, ChunkCodecs} `{Write W}.
(** [err.kind() == ErrorKind::BrokenPipe] *)
Context (is_broken_pipe : io_error → bool).

(** [write!]: the pieces of the text and the values in it, one after the other. *)
Fixpoint write_fmt (pieces : list bytes) : method W io_error () :=
  match pieces with
  | [] => mret ()
  | piece :: pieces => _ ← write_all piece; write_fmt pieces
  end.

Definition write_raw_time (t : Z) : method W io_error () := write_fmt [show_u64 t].

(** The loop over the bytes of the preview, with their indexes. *)
Fixpoint write_preview_bytes (idx : Z) (preview : bytes) : method W io_error () :=
  match preview with
  | [] => mret ()
  | byte :: preview =>
      _ ← (if (0 <? idx)%Z then write_fmt [lit " "] else mret ());
      _ ← write_fmt [show_u64 (byte_to_Z byte)];
      write_preview_bytes (idx + 1) preview
  end.
Definition write_payload_preview (data : bytes) (max_bytes : Z) : method W io_error () :=
  let preview := if (max_bytes <? zlen data)%Z then ztake max_bytes data else data in
  _ ← write_fmt [lit "["];
  _ ← write_preview_bytes 0 preview;
  _ ← write_fmt [lit "]"];
  if (max_bytes <? zlen data)%Z then write_fmt [lit "..."] else mret ().

(** [if let Err(err) = m { if broken pipe { return Ok(true) } return Err(err.into()) }],
    then [rest] *)
Definition or_broken (m : method W io_error ()) (rest : method W anyhow bool) : method W anyhow bool := λ w,
  match m w with
  | (Ok _, w) => rest w
  | (Err err, w) => if is_broken_pipe err then (Ok true, w) else (Err (FromMcap (Io err)), w)
  | (Panic, w) => (Panic, w)
  | (Fuel, w) => (Fuel, w)
  end.
Definition write_message_fields (log_time : Z) (topic schema_name : rstring) (data : bytes) (max_preview_bytes : Z) : method W anyhow bool :=
  or_broken (write_raw_time log_time)
    (or_broken (write_fmt [lit " "; topic; lit " ["; schema_name; lit "] "])
      (or_broken (write_payload_preview data max_preview_bytes)
        (or_broken (write_fmt [raw [10]%Z])
          (mret false)))).

Definition schema_name_of (channel : Channel) : rstring :=
  match channel_schema channel with Some schema => schema_name schema | None => lit "no schema" end.

(** The state of the loop over the indexed reader: the output, and whether it was broken,
    which ends the loop. *)
Definition write_indexed (summary : Summary) (header : MessageHeader) (data : bytes) : method (W * bool) anyhow bool := λ '(w, broken),
  match channels summary !! m_channel_id header with
  | None => (bail "unknown channel {}" [Num (m_channel_id header)], (w, broken))
  | Some channel =>
      let '(o, w) := write_message_fields (m_log_time header) (channel_topic channel) (schema_name_of channel) data MESSAGE_PREVIEW_LEN w in
      match o with
      | Ok true => (Ok false, (w, true))
      | Ok false => (Ok true, (w, broken))
      | Err e => (Err e, (w, broken))
      | Panic => (Panic, (w, broken))
      | Fuel => (Fuel, (w, broken))
      end
  end.
Definition cat_reader (fuel : nat) (mcap : bytes) (summary : Summary) (reader : IndexedReader) : method W anyhow (option bool) := λ w,
  let '(o, (w, broken)) := indexed_loop fuel mcap (write_indexed summary) reader (w, false) in
  ((λ _, Some broken) <$> o, w).
Definition cat_indexed (fuel : nat) (mcap : bytes) : method W anyhow (option bool) :=
  summary ← lift (from_mcap (Summary_read fuel mcap));
  match summary with
  | None => mret None
  | Some summary =>
      if bool_decide (chunk_indexes summary = []) then mret None else
      reader ← lift (from_mcap (IndexedReader_new_with_options summary (with_order LogTime IndexedReaderOptions_default)));
      cat_reader fuel mcap summary reader
  end.

Fixpoint cat_stream (fuel : nat) (stream : RawMessageStream) : method W anyhow bool :=
  match fuel with
  | 0 => lift Fuel
  | S fuel =>
      let '(message, stream) := MessageStream_next (S fuel) stream in
      message ← lift (from_mcap message);
      match message with
      | None => mret false
      | Some message =>
          broken ← write_message_fields (message_log_time message) (channel_topic (message_channel message))
                     (schema_name_of (message_channel message)) (message_data message) MESSAGE_PREVIEW_LEN;
          if (broken : bool) then mret true else cat_stream fuel stream
      end
  end.
Definition cat_linear (fuel : nat) (mcap : bytes) : method W anyhow bool := cat_stream fuel (RawMessageStream_new mcap).

Definition cat_mcap (fuel : nat) (mcap : bytes) : method W anyhow bool :=
  broken_pipe ← cat_indexed fuel mcap;
  match broken_pipe with
  | Some broken_pipe => mret broken_pipe
  | None => cat_linear fuel mcap
  end.

(** [run], on the files' contents. *)
Fixpoint cat_files (fuel : nat) (files : list bytes) : method W anyhow () :=
  match files with
  | [] => λ w,
      match flush w with
      | (Err err, w) => if is_broken_pipe err then (Ok (), w) else (Err (FromMcap (Io err)), w)
      | (o, w) => (map_err (λ e, FromMcap (Io e)) o, w)
      end
  | mcap :: files =>
      broken ← cat_mcap fuel mcap;
      if (broken : bool) then mret () else cat_files fuel files
  end.
End cat.
