(* ===== verification/CopyTheory.v ===== *)
(** What the commands share that copy an indexed file.

    First the loop over the events of an indexed reader: given the chunks of the file, it
    passes the messages of the reader to the loop's body.  Then the copying of messages,
    attachments and metadata to the writer's specification, for a summary whose channels
    are consistent. *)

From S2P Require Import Prelude Utf8 BTree Errors Bin Records Crc Io Codec RwBuf Decompressor LinearReader LinearReaderTheory LinearReaderClient LinearReaderFile Channels Read ReadTheory Conversation Streaming LinearReaderFlat MessageStream Summary SummaryReader Sorting IndexedReader IndexedReaderTheory ChunkWriter ChunkWriterTheory Writer WriterTheory WriterSpec Instances WriterLog WriterFile WriterSummary WriterRoundtrip WriterMessages Cli Sink SinkTheory SinkCost SpecClient SpecMessages Common Sort.

(** ** The loop over an indexed reader *)

(** The chunk is where the index says. *)
Definition chunk_at (input : bytes) (src : Z → bytes) (c : ChunkIndex) : Prop :=
  checked_slice input (offset_of c) (ci_compressed_size c) = Ok (src (offset_of c)).

(** [body] on each, until it says no. *)
Fixpoint each_while {St A} (body : A → method St anyhow bool) (l : list A) : method St anyhow () :=
  match l with
  | [] => mret ()
  | a :: l => go_on ← body a; if go_on : bool then each_while body l else mret ()
  end.

Section loop.
Context `{ChunkCodecs} {St : Type} (input : bytes) (src : Z → bytes) (recs : Z → list (Z * bytes)).

Lemma bind_method_ext {S E A B} (m : method S E A) (f g : A → method S E B) s :
  (∀ a s', f a s' = g a s') → (m ≫= f) s = (m ≫= g) s.
Proof. intros Hfg. unfold mbind, method_bind. destruct (m s) as [[a|e| |] s']; [apply Hfg|done..]. Qed.

Lemma indexed_loop_drain fuel (body : MessageHeader → bytes → method St anyhow bool) r ms out : ir_inv r ms →
  Forall (served (ix_record_length_limit r) src recs) (remaining r) → Forall (chunk_at input src) (remaining r) →
  drain fuel src r = (out, Ok ()) → ∀ j, indexed_loop fuel input body r j = each_while (λ m, body m.1 m.2) out j.
Proof.
  revert r ms out. induction fuel as [|fuel IH]; intros r ms out Hi Hs Hc; cbn [drain indexed_loop]; [done|].
  destruct (next_event_spec r ms Hi) as [(En & -> & Hrem)|[(c & cs & o & Hrem & Ho & En)|(m & h & d & ms' & r' & -> & En & Hi' & Hrem & Ho & Hfl & Hl & _)]];
    rewrite En.
  - by intros [= <-].
  - pose proof (offset_of_data c o Ho) as Hco.
    destruct (load_spec src recs r ms o Hi Hs) as [(i & c' & Hc' & Hoc & r' & ms' & Ei & Hi' & Hp & Hrem' & Ho' & Hf' & Hl & _)|[Hno _]];
      [|exfalso; apply (Hno c); [rewrite Hrem; left|done]].
    rewrite Ei. intros Hd j. pose proof Hc as Hc0. rewrite Hrem in Hc0. apply Forall_cons in Hc0 as [Hc0 _]. unfold chunk_at in Hc0. rewrite Hco in Hc0.
    cbn [from_mcap map_err]. rewrite (bind_method_Ok (lift _) _ j _ j eq_refl). rewrite Hc0, (bind_method_Ok (lift _) _ j _ j eq_refl), Ei.
    cbn [from_mcap map_err]. rewrite (bind_method_Ok (lift _) _ j _ j eq_refl).
    apply (IH r' ms'); [done|rewrite Hl, Hrem'; by apply Forall_delete|rewrite Hrem'; by apply Forall_delete|done].
  - destruct (drain fuel src r') as [out' o'] eqn:Ed. intros [= <- ->] j. cbn [from_mcap map_err each_while fst snd].
    rewrite (bind_method_Ok (lift _) _ j _ j eq_refl). apply bind_method_ext. intros [] j'; [|done].
    apply (IH r' ms'); [done|by rewrite Hl, Hrem|by rewrite Hrem|done].
Qed.

Lemma each_while_true {A} (body : A → method St anyhow ()) l j : each_while (λ a, _ ← body a; mret true) l j = for_all body l j.
Proof.
  revert j. induction l as [|a l IH]; intros j; [done|]. cbn [each_while each]. unfold mbind, method_bind.
  destruct (body a j) as [[[]|e| |] j']; [|done..]. cbn [mret method_ret]. apply IH.
Qed.
End loop.

(** ** The loop on a writer and on its specification *)

Section calls.
Context `{Crc, !CrcLaws, ZstdEncoderLib, Lz4EncoderLib} `{FileOk W file}.
Context `{!BiMap ChannelContent Z, !BiMap SchemaContent Z, !BiMapOk ChannelContent Z, !BiMapOk SchemaContent Z}.
Context `{ZstdLib, Lz4Lib, ChunkCodecs}.
Context (o : WriteOptions).
Context `{!EncoderOk (wo_compression o) (wo_compression_level o) (wo_compression_threads o)}.
#[local] Hint Extern 0 (Sink spec_state) => exact (spec_sink o) : typeclass_instances.

Lemma follows_indexed_loop {St} fuel input (body1 : MessageHeader → bytes → method (Job _ St) anyhow bool) body2 r :
  (∀ h d, follows o (body1 h d) (body2 h d)) → follows o (indexed_loop fuel input body1 r) (indexed_loop fuel input body2 r).
Proof.
  intros Hb. revert r. induction fuel as [|fuel IH]; intros r; cbn [indexed_loop]; [apply follows_lift|].
  destruct (ix_next_event r) as [event r']. apply follows_bind; [apply follows_lift|]. intros [[offset length|h d]|]; [..|apply follows_ret].
  - apply follows_bind; [apply follows_lift|]. intros chunk_data. destruct (insert_chunk_record_data offset chunk_data r') as [inserted r''].
    apply follows_bind; [apply follows_lift|]. intros []. apply IH.
  - apply follows_bind; [apply Hb|]. intros []; [apply IH|apply follows_ret].
Qed.

End calls.

(** ** What the calls do *)

Definition attachment_header (a : Attachment) : AttachmentHeader :=
  mkAttachmentHeader (attachment_log_time a) (attachment_create_time a) (attachment_name a) (attachment_media_type a).
Definition attached (a : Attachment) : call := Attach (attachment_header a) (attachment_data a).

Section copies.
Context `{Crc, !CrcLaws, ZstdEncoderLib, Lz4EncoderLib, ZstdLib, Lz4Lib}.
Context `{!BiMap ChannelContent Z, !BiMap SchemaContent Z, !BiMapOk ChannelContent Z, !BiMapOk SchemaContent Z}.
Context (o : WriteOptions).
Context `{!EncoderOk (wo_compression o) (wo_compression_level o) (wo_compression_threads o)}.
#[local] Hint Extern 0 (Sink spec_state) => exact (spec_sink o) : typeclass_instances.
Context (chans : gmap Z Channel) (Hc : consistent chans).
Implicit Types st : spec_state.

Definition attachment_in (a : Attachment) : record := attachment_record o (attachment_header a) (attachment_data a).

(** The log has these attachments and metadata, and these messages. *)
Record copied st (extra : list record) (ms : list Message) : Prop := {
  cp_uses : uses chans st;
  cp_extra : List.filter is_extra (sp_log st) = extra;
  cp_messages : messages_of_log (sp_log st) = ms;
  cp_count : messages_in (sp_log st) = zlen ms;
}.

Lemma copied_new : copied (spec_new o) [] [].
Proof. split; [|done..]. split; [apply spec_new_ok|done..]. Qed.

(** No schema has the identifier 0. *)
Lemma uses_nonzero st : uses chans st → schemas_nonzero (sp_log st).
Proof.
  intros [Hok Hs _] Hin. apply list_elem_of_fmap in Hin as ([k x] & Hk & Hin). cbn in Hk. subst k.
  pose proof (scoped_assoc_schema _ _ _ (lo_scoped _ Hok) Hin) as Ha.
  assert (schema_in (sp_log st) 0 = Some (schema_named 0 x)) as Hx by (unfold schema_in; by rewrite Ha).
  destruct (Hs _ _ Hx) as (i & c & Hi & Hcs). pose proof (cs_range _ Hc _ _ _ Hi Hcs) as Hr. cbn in Hr. lia.
Qed.

(** A record that is neither a declaration nor a message. *)
Lemma copied_logs st st' r extra ms : copied st extra ms → logs r st st' → is_extra r = true → copied st' (extra ++ [r]) ms.
Proof.
  intros [[Hok Hus Huc] He Hm Hn] (Hlog & Hok' & _) Hr. split; [split|..]; rewrite ?Hlog; [done|..].
  - intros id s. rewrite schema_in_snoc. destruct (schema_in (sp_log st) id) eqn:E; [intros [= <-]; by eapply Hus|by destruct r].
  - intros id d. rewrite channel_in_snoc by (rewrite <-Hlog; apply (lo_scoped _ Hok')).
    destruct (channel_in (sp_log st) id) eqn:E; [intros [= <-]; by apply Huc|by destruct r].
  - rewrite List.filter_app, He. cbn. by rewrite Hr.
  - rewrite messages_of_log_app by apply Hok. rewrite Hm. destruct r; try done; by rewrite app_nil_r.
  - rewrite messages_in_snoc, Hn. destruct r; try done; by rewrite Z.add_0_r.
Qed.

(** How many of them there are. *)
Lemma copied_logged st extra ms (p : record → bool) : copied st extra ms → (∀ r, p r = true → is_extra r = true) →
  logged p (sp_log st) = logged p extra.
Proof.
  intros Hcp Hp. rewrite <-(cp_extra _ _ _ Hcp). generalize (sp_log st). intros l. unfold logged. f_equal.
  induction l as [|r l IH]; [done|]. cbn [List.filter]. pose proof (Hp r) as Hpr. destruct (is_extra r) eqn:E; cbn [List.filter]; [by rewrite IH|].
  destruct (p r); [by specialize (Hpr eq_refl)|done].
Qed.

Abbreviation job St := (Job (spec_state * list call) St).

Lemma copied_attach {St} st extra ms a calls (s : St) : copied st extra ms → (logged is_attachment_record extra < u32_max)%Z →
  ∃ st', on_writer (sink_attach a) (mkJob (st, calls) s) = (Ok (), mkJob (st', calls ++ [attached a]) s) ∧ copied st' (extra ++ [attachment_in a]) ms.
Proof.
  intros Hcp Hn. destruct (client_attach st o (attachment_header a) (attachment_data a)) as (st' & E & Hl).
  { apply Hcp. }
  { by rewrite (copied_logged _ _ _ _ Hcp) by by intros []. }
  exists st'. split; [|by eapply copied_logs].
  unfold on_writer, sink_attach, sink_call, traced, spec_sink, fmap, method_fmap. cbn [job_writer job_state].
  unfold spec_perform, no_id, fmap, method_fmap. fold (attachment_header a). by rewrite E.
Qed.
Lemma copied_metadata {St} st extra ms m calls (s : St) : copied st extra ms → (logged is_metadata_record extra < u32_max)%Z →
  ∃ st', on_writer (sink_write_metadata m) (mkJob (st, calls) s) = (Ok (), mkJob (st', calls ++ [WriteMetadata m]) s) ∧ copied st' (extra ++ [RMetadata m]) ms.
Proof.
  intros Hcp Hn. destruct (client_write_metadata st m) as (st' & E & Hl).
  { apply Hcp. }
  { by rewrite (copied_logged _ _ _ _ Hcp) by by intros []. }
  exists st'. split; [|by eapply copied_logs].
  unfold on_writer, sink_write_metadata, sink_call, traced, spec_sink, fmap, method_fmap. cbn [job_writer job_state].
  unfold spec_perform, no_id, fmap, method_fmap. by rewrite E.
Qed.
Lemma copied_message {St} st extra ms m calls (s : St) : copied st extra ms → chans !! channel_id (message_channel m) = Some (message_channel m) →
  (zlen ms < u64_max)%Z →
  ∃ st', on_writer (sink_write m) (mkJob (st, calls) s) = (Ok (), mkJob (st', calls ++ [WriteMessage m]) s) ∧ copied st' extra (ms ++ [m]).
Proof.
  intros [Hu He Hm Hn] Hi Hl. destruct (client_write chans Hc st m Hu Hi) as (st' & E & Hu' & Hm' & He' & Hn'); [lia|].
  exists st'. split.
  - unfold on_writer, sink_write, sink_call, traced, spec_sink, fmap, method_fmap. cbn [job_writer job_state].
    unfold spec_perform, no_id, fmap, method_fmap. by rewrite E.
  - split; [done|by rewrite He'|by rewrite Hm', Hm|rewrite Hn', Hn; zlia].
Qed.

(** A loop in which each step adds to what is copied. *)
Lemma copied_for_all {St A B} (body : A → method (job St) anyhow ()) (c : B → call) (r : B → record) (P : A → B → Prop) (p : record → bool) l k st extra ms calls (s : St) :
  (∀ a b st extra calls, P a b → copied st extra ms → (logged p extra < u32_max)%Z →
    ∃ st', body a (mkJob (st, calls) s) = (Ok (), mkJob (st', calls ++ [c b]) s) ∧ copied st' (extra ++ [r b]) ms) →
  (∀ b, p (r b) = true) → Forall2 P l k → copied st extra ms → (logged p extra + zlen k ≤ u32_max)%Z →
  ∃ st', for_all body l (mkJob (st, calls) s) = (Ok (), mkJob (st', calls ++ (c <$> k)) s) ∧ copied st' (extra ++ (r <$> k)) ms.
Proof.
  intros Hb Hp Hlk. revert st extra calls. induction Hlk as [|a b l k Hab Hlk IH]; intros st extra calls Hcp Hn.
  - exists st. cbn. by rewrite !app_nil_r.
  - rewrite zlen_cons in Hn. pose proof (zlen_nonneg k).
    destruct (Hb a b st extra calls Hab Hcp ltac:(lia)) as (st1 & E & Hcp1).
    destruct (IH st1 (extra ++ [r b]) (calls ++ [c b]) Hcp1) as (st2 & E2 & Hcp2); [rewrite logged_snoc, Hp; lia|].
    exists st2. cbn [each]. rewrite (bind_method_Ok _ _ _ _ _ E), E2, <-!app_assoc. by rewrite <-!app_assoc in Hcp2.
Qed.

(** The messages an indexed reader gives, each on its channel. *)
Definition message_on_channel (m : MessageHeader * bytes) : option Message :=
  (λ c, mkMessage c (m_sequence m.1) (m_log_time m.1) (m_publish_time m.1) m.2) <$> chans !! m_channel_id m.1.

Lemma message_cost_pos m : (1 ≤ call_cost o (WriteMessage m))%Z.
Proof.
  cbn [call_cost]. unfold message_cost. pose proof (record_cost_pos o (channel_record_of (message_channel m))).
  pose proof (record_cost_frame o (RMessage (message_header_of m) (message_data m))) as Hf. rewrite zlen_record_frame in Hf.
  pose proof (zlen_nonneg (record_body (RMessage (message_header_of m) (message_data m)))).
  destruct (channel_schema _) as [x|]; [pose proof (record_cost_pos o (schema_record_of x))|]; lia.
Qed.
Lemma messages_cost ms : (zlen ms ≤ calls_cost o (WriteMessage <$> ms))%Z.
Proof. induction ms as [|m ms IH]; [done|]. cbn [calls_cost foldr fmap list_fmap]. rewrite zlen_cons. pose proof (message_cost_pos m). unfold calls_cost in IH. lia. Qed.
Lemma calls_cost_perm l k : l ≡ₚ k → calls_cost o l = calls_cost o k.
Proof. unfold calls_cost. induction 1; cbn; lia. Qed.

Lemma copied_all_messages {St} (summary : Summary) out st extra ms calls (s : St) : channels summary = chans → copied st extra ms →
  Forall (λ m, is_Some (chans !! m_channel_id m.1)) out →
  let written := omap (M:=list) message_on_channel out in (zlen ms + zlen written ≤ u64_max)%Z →
  ∃ st', for_all (λ m, write_indexed_message summary m.1 m.2) out (mkJob (st, calls) s) = (Ok (), mkJob (st', calls ++ (WriteMessage <$> written)) s) ∧
    copied st' extra (ms ++ written).
Proof.
  intros Hs. revert st ms calls. induction out as [|[h d] out IH]; intros st ms calls Hcp Hk written Hn.
  - exists st. cbn. by rewrite !app_nil_r.
  - apply Forall_cons in Hk as [[c Hk] Hks]. cbn [fst] in Hk.
    set (m := mkMessage c (m_sequence h) (m_log_time h) (m_publish_time h) d).
    assert (written = m :: omap (M:=list) message_on_channel out) as Hw by (unfold written; cbn; unfold message_on_channel at 1; cbn [fst snd]; by rewrite Hk).
    rewrite Hw, zlen_cons in Hn. pose proof (zlen_nonneg (omap (M:=list) message_on_channel out)).
    destruct (copied_message st extra ms m calls s Hcp) as (st1 & E & Hcp1); [cbn; by destruct (cs_id _ Hc _ _ Hk) as [-> _]|lia|].
    destruct (IH st1 (ms ++ [m]) (calls ++ [WriteMessage m]) Hcp1 Hks) as (st2 & E2 & Hcp2); [zlia|].
    exists st2. rewrite Hw. cbn [each fst snd]. rewrite <-!app_assoc in E2, Hcp2. split; [|exact Hcp2].
    rewrite (bind_method_Ok _ _ _ () (mkJob (st1, calls ++ [WriteMessage m]) s)); [exact E2|].
    unfold write_indexed_message, known_channel_or. by rewrite Hs, Hk.
Qed.

Lemma copied_attachments {St} input (summary : Summary) atts st ms calls (s : St) :
  Forall2 (λ index a, attachment input index = Ok a) (sort_by (by_key (λ index, [ai_offset index])) (attachment_indexes summary)) atts →
  copied st [] ms → (zlen atts ≤ u32_max)%Z →
  ∃ st', copy_attachments_from_summary input summary (mkJob (st, calls) s) = (Ok (), mkJob (st', calls ++ (attached <$> atts)) s) ∧
    copied st' (attachment_in <$> atts) ms.
Proof.
  intros Ha Hcp Hn. apply (copied_for_all _ attached attachment_in _ is_attachment_record _ atts st [] ms calls s) with (2 := λ _, eq_refl) (3 := Ha); [|done|done].
  intros index a st1 extra calls1 E Hcp1 Hl. destruct (copied_attach st1 extra ms a calls1 s Hcp1 Hl) as (st' & Ew & Hcp'). exists st'. split; [|done].
  rewrite E. cbn [from_mcap map_err with_context]. rewrite (bind_method_Ok (lift _) _ _ a _ eq_refl). unfold in_context. by rewrite Ew.
Qed.
Lemma copied_all_metadata {St} input (summary : Summary) mds st extra ms calls (s : St) :
  Forall2 (λ index m, metadata input index = Ok m) (sort_by (by_key (λ index, [mx_offset index])) (metadata_indexes summary)) mds →
  copied st extra ms → (logged is_metadata_record extra + zlen mds ≤ u32_max)%Z →
  ∃ st', copy_metadata_from_summary input summary (mkJob (st, calls) s) = (Ok (), mkJob (st', calls ++ (WriteMetadata <$> mds)) s) ∧
    copied st' (extra ++ (RMetadata <$> mds)) ms.
Proof.
  intros Ha Hcp Hn. apply (copied_for_all _ WriteMetadata RMetadata _ is_metadata_record _ mds st extra ms calls s) with (2 := λ _, eq_refl) (3 := Ha); [|done|done].
  intros index a st1 extra1 calls1 E Hcp1 Hl. destruct (copied_metadata st1 extra1 ms a calls1 s Hcp1 Hl) as (st' & Ew & Hcp'). exists st'. split; [|done].
  rewrite E. cbn [from_mcap map_err with_context]. rewrite (bind_method_Ok (lift _) _ _ a _ eq_refl). unfold in_context. by rewrite Ew.
Qed.
End copies.

Lemma StronglySorted_omap {A B} (f : A → option B) (R : A → A → Prop) (S : B → B → Prop) l :
  (∀ a b x y, f a = Some x → f b = Some y → R a b → S x y) → StronglySorted R l → StronglySorted S (omap (M:=list) f l).
Proof.
  intros Hf. induction 1 as [|a l Hl IH Ha]; cbn; [constructor|]. destruct (f a) as [x|] eqn:E; [|done]. constructor; [done|].
  apply Forall_forall. intros y (b & Hb & Ey)%list_elem_of_omap. rewrite Forall_forall in Ha. by eapply Hf; eauto.
Qed.

(** ** An indexed input *)

Section indexed_input.
Context `{ChunkCodecs}.

(** The chunks of the index are in the input, where a reader can load them, and hold the
    records [recs]; the index tells the truth about them, and the summary has the channel
    of every message. *)
Record indexed_input (input : bytes) (src : Z → bytes) (recs : Z → list (Z * bytes)) (summary : Summary) : Prop := {
  ip_readable : Forall (λ c, is_ok (compressed_data_offset c) ∧ check_sizes None c = Ok ()) (chunk_indexes summary);
  ip_at : Forall (chunk_at input src) (chunk_indexes summary);
  ip_served : Forall (served None src recs) (chunk_indexes summary);
  ip_honest : Forall (honest recs) (chunk_indexes summary);
  ip_channels : consistent (channels summary);
  ip_known : Forall (λ m : MessageHeader * bytes, is_Some (channels summary !! m_channel_id m.1)) (all_messages no_filter recs (chunk_indexes summary));
}.

(** What a filter admits. *)
Lemma reader_exists input src recs s io : indexed_input input src recs s → iro_record_length_limit io = None →
  ∃ r, IndexedReader_new_with_options s io = Ok r.
Proof.
  intros [Hr _ _ _ _ _] Hl. unfold IndexedReader_new_with_options. set (kept := filter _ _).
  assert (∀ c, c ∈ kept → is_ok (compressed_data_offset c) ∧ check_sizes None c = Ok ()) as Hk.
  { intros c [_ Hc]%list_elem_of_filter. rewrite Forall_forall in Hr. by apply Hr. }
  assert (∀ (f : ChunkIndex → McapResult ()) l, (∀ c, c ∈ l → f c = Ok ()) → IndexedReader.for_each f l = Ok ()) as Hfe.
  { intros f l. induction l as [|c l IH]; [done|]. intros Hf. cbn. rewrite (Hf c) by by left. apply IH. intros d Hd. apply Hf. by right. }
  rewrite (Hfe (λ c, _ ← compressed_data_offset c; mret ()) kept) by (intros c Hc; by destruct (Hk c Hc) as [[x ->] _]).
  cbn [mbind outcome_bind]. rewrite Hfe; [by eexists|]. intros c Hc. rewrite sort_by_perm in Hc. rewrite Hl. by apply Hk.
Qed.

(** The loop with such a reader. *)
Lemma indexed_run fuel input src recs s io r : indexed_input input src recs s → iro_record_length_limit io = None →
  IndexedReader_new_with_options s io = Ok r → length (chunk_indexes s) + length (all_messages no_filter recs (chunk_indexes s)) < fuel →
  ∃ out, out ≡ₚ all_messages (filter_of s io) recs (chunk_indexes s) ∧ in_time_order (iro_order io) out ∧
    ∀ St (body : MessageHeader → bytes → method St anyhow bool) j, indexed_loop fuel input body r j = each_while (λ m, body m.1 m.2) out j.
Proof.
  intros [_ Hat Hs Hh _ _] Hl Hr Hf. destruct (IndexedReader_new_spec s io r Hr) as (Hi & _ & _ & Hlr & Hp). rewrite Hl in Hlr.
  assert (Forall (λ c, keep_chunk io (included_channel_ids s io) c = true → served (iro_record_length_limit io) src recs c) (chunk_indexes s)) as Hs'
    by (rewrite Hl; eapply Forall_impl; [exact Hs|done]).
  assert (length (chunk_indexes s) + length (all_messages (filter_of s io) recs (chunk_indexes s)) < fuel) as Hf'.
  { rewrite all_messages_filtered. pose proof (List.filter_length_le (λ m, passes (filter_of s io) m.1) (all_messages no_filter recs (chunk_indexes s))). lia. }
  destruct (drain_reads s io src recs r fuel Hr Hs' Hh Hf') as (out & Hd & Hpo & Hord). exists out. split_and!; [done..|]. intros St body j.
  assert (∀ c, c ∈ remaining r → c ∈ chunk_indexes s) as Hin by (intros c Hc; rewrite Hp in Hc; by apply list_elem_of_filter in Hc as [_ ?]).
  rewrite Forall_forall in Hs, Hat. apply (indexed_loop_drain input src recs fuel body r []); [done|..|done]; rewrite ?Hlr; apply Forall_forall; intros c Hc; auto.
Qed.
End indexed_input.

(** The messages of the input, each on the summary's channel. *)
Definition summary_messages (recs : Z → list (Z * bytes)) (summary : Summary) : list Message :=
  omap (M:=list) (message_on_channel (channels summary)) (all_messages no_filter recs (chunk_indexes summary)).

(** ** Room for a copy *)

Section room.
Context `{Crc, ZstdLib, Lz4Lib, ChunkCodecs, ZstdEncoderLib, Lz4EncoderLib} (o : WriteOptions).
Context `{!EncoderOk (wo_compression o) (wo_compression_level o) (wo_compression_threads o)}.

Definition copy_calls (atts : list Attachment) (mds : list Metadata) (ms : list Message) : list call :=
  (attached <$> atts) ++ (WriteMetadata <$> mds) ++ (WriteMessage <$> ms).

(** An indexed file whose attachments and metadata can be read, with room for a copy of
    it all. *)
Record copyable (input : bytes) (src : Z → bytes) (recs : Z → list (Z * bytes)) (summary : Summary) (atts : list Attachment) (mds : list Metadata) : Prop := {
  cy_chunks : chunk_indexes summary ≠ [];
  cy_input : indexed_input input src recs summary;
  cy_attachments : Forall2 (λ index a, attachment input index = Ok a) (sort_by (by_key (λ index, [ai_offset index])) (attachment_indexes summary)) atts;
  cy_metadata : Forall2 (λ index m, metadata input index = Ok m) (sort_by (by_key (λ index, [mx_offset index])) (metadata_indexes summary)) mds;
  cy_calls : Forall (call_ok o) (copy_calls atts mds (summary_messages recs summary));
  cy_few : (zlen atts ≤ u32_max)%Z ∧ (zlen mds ≤ u32_max)%Z;
  cy_room : (run_size o (copy_calls atts mds (summary_messages recs summary)) ≤ 2 ^ 59)%Z;
}.
End room.

(** ** An example *)

Module CopyExamples.
Import BitCrc MarkLib Instances MarkEncoder WriterLogExamples.
#[local] Existing Instance IndexedReaderExamples.copy_codecs.

(** A file whose second chunk is older than its first. *)
Definition input : bytes :=
  match ('(_, s) ← writer_run WriterLogExamples.opts empty calls; let '(sum, s) := wr_finish s in _ ← sum; wr_into_inner s) with
  | Ok w => vc_data w
  | _ => []
  end.
Definition fuel : nat := S (S (length input + length input)).
Definition summary : Summary :=
  match Summary_read fuel input with Ok (Some s) => s | _ => mkSummary None ∅ ∅ [] [] [] end.

(** The records of a chunk that is stored as it is. *)
Fixpoint entries (fuel : nat) (data : bytes) : list (Z * bytes) :=
  match fuel, data with
  | S fuel, op :: rest =>
      let n := le_dec (ztake 8 rest) in (le_dec [op], ztake n (zdrop 8 rest)) :: entries fuel (zdrop n (zdrop 8 rest))
  | _, _ => []
  end.
Definition src (offset : Z) : bytes :=
  match filter (λ c, offset_of c = offset) (chunk_indexes summary) with
  | c :: _ => ztake (ci_compressed_size c) (zdrop offset input)
  | [] => []
  end.
Definition recs (offset : Z) : list (Z * bytes) := let data := src offset in entries (length data) data.
Definition read_all {A B} (read : A → McapResult B) (l : list A) : list B := omap (M:=list) (λ i, match read i with Ok b => Some b | _ => None end) l.
Definition atts : list Attachment := read_all (attachment input) (attachment_indexes summary).
Definition mds : list Metadata := read_all (metadata input) (metadata_indexes summary).
Definition header : option Header := Some (mkHeader [] (lit "mcap-rs-0.24.0")).

Ltac list_out := match goal with |- Forall _ ?l => let l' := eval vm_compute in l in replace l with l' by (vm_compute; reflexivity) end; repeat apply Forall_cons_2; [..|apply Forall_nil_2].
Lemma Forall2_ok {A B} (read : A → McapResult B) l k : read <$> l = Ok <$> k → Forall2 (λ i b, read i = Ok b) l k.
Proof. revert k. induction l as [|i l IH]; intros [|b k]; try done. intros [= E El]. constructor; [done|by apply IH]. Qed.
Lemma input_channels : consistent (channels summary).
Proof.
  assert (∀ i c, channels summary !! i = Some c → (i, c) = (1%Z, mkChannel 1 (lit "/pose") (Some (mkSchema 1 (lit "Pose") (lit "jsonschema") (lit "{}"))) (lit "json") []) ∨
    (i, c) = (3%Z, channel7 3)) as Hc.
  { intros i c Hc%elem_of_map_to_list. revert Hc. generalize (i, c). intros ic Hc. vm_compute in Hc.
    apply elem_of_cons in Hc as [->|Hc]; [first [by left|by right]|]. apply elem_of_cons in Hc as [->|Hc]; [first [by left|by right]|]. by apply not_elem_of_nil in Hc. }
  split.
  - intros i c [[= -> ->]|[= -> ->]]%Hc; cbn; unfold u16_max; lia.
  - intros i c s [[= -> ->]|[= -> ->]]%Hc [= <-]; cbn; unfold u16_max; lia.
  - intros i j c d s t [[= -> ->]|[= -> ->]]%Hc [[= -> ->]|[= -> ->]]%Hc [= <-] [= <-]; done.
Qed.
Lemma input_indexed : indexed_input input src recs summary.
Proof.
  split.
  - list_out; (split; [eexists|]; vm_compute; reflexivity).
  - list_out; vm_compute; reflexivity.
  - list_out; split_and!; vm_compute; reflexivity.
  - list_out; intros hd Hhd; vm_compute in Hhd; repeat (apply elem_of_cons in Hhd as [->|Hhd]);
      try (by apply not_elem_of_nil in Hhd); (split; [cbn; lia|right]); vm_compute; set_solver.
  - exact input_channels.
  - list_out; eexists; vm_compute; reflexivity.
Qed.
End CopyExamples.
