(* ===== verification/RosBagTheory.v ===== *)
(** What the conversion of a bag leaves.

    First what a bag means, without its bytes: a machine that goes through its entries and
    gathers the schemas, the connections and the messages.  Then that the conversion of the
    bytes does what the machine does, so that the file it writes reads back as the messages
    of the bag.  And an example of a bag that makes the conversion panic. *)

From S2P Require Import Prelude Utf8 BTree Errors Bin Records Crc Io Codec RwBuf Decompressor LinearReader LinearReaderTheory LinearReaderClient LinearReaderFile Channels Read ReadTheory Conversation Streaming LinearReaderFlat MessageStream Summary ChunkWriter ChunkWriterTheory Writer WriterTheory WriterSpec Instances WriterLog WriterFile WriterSummary WriterRoundtrip WriterMessages Cli Sink SinkTheory SinkCost SpecClient SpecMessages Sort CopyTheory RosBag RosBagRead.

(** ** Bags *)

(** A record that is not a chunk: one that does not matter, a connection with the fields of
    its data, or a message. *)
Inductive bag_entry :=
| Skip (header : fields) (data : bytes)
| Connection (header info : fields)
| MessageData (header : fields) (data : bytes).
Definition entry_header (e : bag_entry) : fields := match e with Skip h _ | Connection h _ | MessageData h _ => h end.
Definition entry_data (e : bag_entry) : bytes := match e with Skip _ d | MessageData _ d => d | Connection _ i => fields_enc i end.
Definition entry_frame (e : bag_entry) : bytes := bag_frame (fields_enc (entry_header e)) (entry_data e).
Definition entry_frames (es : list bag_entry) : bytes := concat (entry_frame <$> es).

Definition has_op (p : Z → bool) (header : fields) : bool :=
  match bt_get KEY_OP (fields_map header) with Some b => (zlen b =? 1)%Z && p (le_dec b) | None => false end.
Definition header_ok (header : fields) : bool := forallb field_ok header && section_fits (fields_enc header).
Definition entry_ok (e : bag_entry) : bool :=
  header_ok (entry_header e) && section_fits (entry_data e) &&
  match e with
  | Skip h _ => has_op (λ op, negb (bool_decide (op ∈ [OP_BAG_CONNECTION; OP_BAG_MESSAGE_DATA; OP_BAG_CHUNK]))) h
  | Connection h i => has_op (Z.eqb OP_BAG_CONNECTION) h && forallb field_ok i
  | MessageData h _ => has_op (Z.eqb OP_BAG_MESSAGE_DATA) h
  end.

(** A record of a bag, or a chunk with the entries it holds. *)
Inductive bag_part :=
| Single (e : bag_entry)
| Chunk (header : fields) (compressed : bytes) (es : list bag_entry).
Definition bag_part_frame (p : bag_part) : bytes :=
  match p with Single e => entry_frame e | Chunk h z _ => bag_frame (fields_enc h) z end.
Definition bag_entries (p : bag_part) : list bag_entry := match p with Single e => [e] | Chunk _ _ es => es end.
Definition bag_part_ok `{BagCodecsOk} (p : bag_part) : Prop :=
  match p with
  | Single e => entry_ok e = true
  | Chunk h z es => header_ok h && section_fits z && has_op (Z.eqb OP_BAG_CHUNK) h && forallb entry_ok es && section_fits (entry_frames es) = true ∧
      bt_get KEY_SIZE (fields_map h) = Some (le_enc 4 (zlen (entry_frames es))) ∧
      ∃ compression, bt_get KEY_COMPRESSION (fields_map h) = Some compression ∧ utf8_valid compression = true ∧ unpacks compression z (entry_frames es)
  end.
Definition bag_bytes (bag : list bag_part) : bytes := BAG_MAGIC ++ concat (bag_part_frame <$> bag).
Definition all_entries (bag : list bag_part) : list bag_entry := concat (bag_entries <$> bag).
(** As much fuel as there are records, and one for each end. *)
Definition bag_records (bag : list bag_part) : nat := length bag + length (all_entries bag) + 2.

(** ** What a bag means *)

(** The schemas in the order they come up, numbered from 1; the schema of each type and
    sum; the connections, as channels; the messages, and the calls they take. *)
Record bag_state := mkBagState {
  bg_schemas : list Schema;
  bg_keys : list (SchemaKey * Schema);
  bg_connections : gmap Z Channel;
  bg_messages : list Message;
  bg_calls : list call;
}.
Definition bag_start : bag_state := mkBagState [] [] ∅ [] [].

Definition text (key : rstring) (m : fields) : option rstring := b ← bt_get key m; if utf8_valid b then Some b else None.
Definition number (key : rstring) (m : fields) : option Z := b ← bt_get key m; if (zlen b =? 4)%Z then Some (le_dec b) else None.
Definition find_schema (name : rstring) (data : bytes) (l : list Schema) : option Schema :=
  List.find (λ s, bool_decide (schema_name s = name ∧ schema_data s = data)) l.

(** The schema of a type, a sum and a definition.  A type and a sum that were seen before
    must have had the same definition; a definition that was seen for the type is shared. *)
Definition bag_schema (key : SchemaKey) (definition : bytes) (b : bag_state) : option (Schema * bag_state) :=
  match bt_get key (bg_keys b) with
  | Some s => if bool_decide (schema_data s = definition) then Some (s, b) else None
  | None =>
      let fresh := mkSchema (zlen (bg_schemas b) + 1) (msg_type key) (lit "ros1msg") definition in
      let '(s, schemas) := match find_schema (msg_type key) definition (bg_schemas b) with
        | Some s => (s, bg_schemas b)
        | None => (fresh, bg_schemas b ++ [fresh])
        end in
      if (zlen schemas <? u16_max)%Z
      then Some (s, mkBagState schemas (bt_insert key s (bg_keys b)) (bg_connections b) (bg_messages b)
                      (bg_calls b ++ [AddSchema (msg_type key) (lit "ros1msg") definition]))
      else None
  end.
(** A connection keeps its number; one that comes again must be the same. *)
Definition bag_connection (header info : fields) (b : bag_state) : option bag_state :=
  let i := fields_map info in
  conn ← number KEY_CONN (fields_map header);
  topic ← text KEY_TOPIC (fields_map header);
  type ← text KEY_TYPE i;
  md5 ← text KEY_MD5SUM i;
  definition ← bt_get KEY_MESSAGE_DEFINITION i;
  let metadata := bt_remove KEY_MESSAGE_DEFINITION (bt_remove KEY_TYPE i) in
  '(s, b) ← bag_schema (mkSchemaKey type md5) definition b;
  let channel := mkChannel conn topic (Some s) (lit "ros1") metadata in
  if forallb (λ p, utf8_valid p.2) metadata && (conn <=? u16_max)%Z && bool_decide (default channel (bg_connections b !! conn) = channel)
  then Some (mkBagState (bg_schemas b) (bg_keys b) (<[conn := channel]> (bg_connections b)) (bg_messages b) (bg_calls b))
  else None.
(** The messages are numbered in their order. *)
Definition bag_message (header : fields) (data : bytes) (b : bag_state) : option bag_state :=
  conn ← number KEY_CONN (fields_map header);
  time ← bt_get KEY_TIME (fields_map header);
  channel ← bg_connections b !! conn;
  if (zlen time =? 8)%Z then
    let t := (le_dec (ztake 4 time) * 1000000000 + le_dec (zdrop 4 time))%Z in
    let m := mkMessage channel (as_u32 (zlen (bg_messages b))) t t data in
    Some (mkBagState (bg_schemas b) (bg_keys b) (bg_connections b) (bg_messages b ++ [m]) (bg_calls b ++ [WriteMessage m]))
  else None.
Definition bag_step (e : bag_entry) (b : bag_state) : option bag_state :=
  match e with
  | Skip _ _ => Some b
  | Connection header info => bag_connection header info b
  | MessageData header data => bag_message header data b
  end.
Fixpoint bag_run (es : list bag_entry) (b : bag_state) : option bag_state :=
  match es with
  | [] => Some b
  | e :: es => b ← bag_step e b; bag_run es b
  end.

(** ** From bytes to entries *)

Section entries.
Context `{BagCodecsOk} `{Sink Wr}.
Abbreviation convert := (method (Job Wr ConversionState) anyhow).

Definition entry_body (e : bag_entry) : convert () :=
  match e with
  | Skip _ _ => mret ()
  | Connection header info => process_connection (fields_map header) (fields_enc info)
  | MessageData header data => process_message (fields_map header) data
  end.

Lemma section_usize b : section_fits b = true → (zlen b ≤ usize_max)%Z.
Proof. unfold section_fits, MAX_RECORD_SECTION_SIZE, usize_max, u64_max. lia. Qed.
Lemma header_parsed header : header_ok header = true → parse_header_fields (fields_enc header) = Ok (fields_map header).
Proof. unfold header_ok. rewrite andb_true_iff. intros [Hh Hs%section_usize]. by apply parse_header_fields_enc. Qed.
Lemma op_read p header : has_op p header = true → ∃ op, header_u8 (fields_map header) KEY_OP = Ok op ∧ p op = true.
Proof.
  unfold has_op, header_u8, header_bytes. destruct (bt_get _ _) as [b|]; [|done]. rewrite andb_true_iff. intros [Hb Hp].
  exists (le_dec b). cbn [ok_or mbind outcome_bind]. by rewrite Hb.
Qed.
Lemma process_entry records e j : entry_ok e = true → process_record records (mkBagRecord (fields_enc (entry_header e)) (entry_data e)) j = entry_body e j.
Proof.
  unfold entry_ok. rewrite !andb_true_iff. intros [[Hh Hd] He]. unfold process_record. cbn [br_header br_data].
  rewrite (header_parsed _ Hh). rewrite (bind_method_Ok (lift _) _ _ _ _ eq_refl).
  destruct e as [h d|h i|h d]; cbn [entry_header entry_data entry_body] in *.
  - destruct (op_read _ _ He) as (op & -> & Hop). rewrite (bind_method_Ok (lift _) _ _ _ _ eq_refl).
    cbv beta in Hop. apply negb_true_iff, bool_decide_eq_false in Hop. case_bool_decide; [done|].
    rewrite !(proj2 (Z.eqb_neq _ _)); [done|..]; intros ->; apply Hop; set_solver.
  - apply andb_true_iff in He as [He _]. destruct (op_read _ _ He) as (op & -> & <-%Z.eqb_eq). by rewrite (bind_method_Ok (lift _) _ _ _ _ eq_refl).
  - destruct (op_read _ _ He) as (op & -> & <-%Z.eqb_eq). by rewrite (bind_method_Ok (lift _) _ _ _ _ eq_refl).
Qed.

(** The records of a chunk, or of the rest of a bag without chunks. *)
Lemma process_entries {R rep} {read_R : Read R} `{!ReadOk R rep} fuel es (r : R) j : forallb entry_ok es = true → rep r (entry_frames es) → length es < fuel →
  process_records fuel r j = for_all entry_body es j.
Proof.
  revert es r j. induction fuel as [|fuel IH]; intros [|e es] r j; cbn [forallb length]; rewrite ?andb_true_iff; try lia; intros Hes Hr Hf; cbn [process_records].
  - destruct (read_record_end r Hr) as (r' & ->). done.
  - destruct Hes as [He Hes]. pose proof He as Hok. unfold entry_ok, header_ok in Hok. rewrite !andb_true_iff in Hok. destruct Hok as [[[_ Hh] Hd] _].
    destruct (read_record_ok _ _ r (entry_frames es) Hh Hd Hr) as (r' & -> & Hr'). rewrite (bind_method_Ok (lift _) _ _ _ _ eq_refl).
    cbn [each]. unfold mbind, method_bind. rewrite (process_entry _ _ _ He). destruct (entry_body e j) as [[[]|err| |] j']; [|done..]. apply IH; [done..|lia].
Qed.

Lemma process_chunk_entries fuel header z es j : bag_part_ok (Chunk header z es) → length es < fuel →
  process_record (process_records fuel) (mkBagRecord (fields_enc header) z) j = for_all entry_body es j.
Proof.
  intros [Hok (Hsize & c & Hc & Hu & Hz)] Hf. rewrite !andb_true_iff in Hok. destruct Hok as [[[[Hh Hzs] Hop] Hes] Hfr].
  unfold process_record. cbn [br_header br_data]. rewrite (header_parsed _ Hh), (bind_method_Ok (lift _) _ _ _ _ eq_refl).
  destruct (op_read _ _ Hop) as (op & -> & <-%Z.eqb_eq). rewrite (bind_method_Ok (lift _) _ _ _ _ eq_refl).
  rewrite bool_decide_false by (vm_compute; set_solver). change (OP_BAG_CHUNK =? OP_BAG_CONNECTION)%Z with false.
  change (OP_BAG_CHUNK =? OP_BAG_MESSAGE_DATA)%Z with false. rewrite Z.eqb_refl. cbv iota. unfold process_chunk, header_string, header_u32, header_bytes.
  rewrite Hc, Hsize. cbn [ok_or mbind outcome_bind]. unfold from_utf8. rewrite Hu, zlen_le_enc. cbn [mret outcome_ret with_context map_err].
  rewrite (bind_method_Ok (lift _) _ _ _ _ eq_refl). change (Z.of_nat 4 =? 4)%Z with true. cbn [ensure mret outcome_ret mbind outcome_bind].
  rewrite (bind_method_Ok (lift (mret _)) _ _ _ _ eq_refl), le_dec_enc_u by by apply section_u32.
  pose proof Hfr as Hle. unfold section_fits in Hle. rewrite Hle, bind_ensure. rewrite (decompress_chunk_ok c) by (done || by apply section_usize).
  rewrite (bind_method_Ok (lift _) _ _ _ _ eq_refl). by apply (process_entries (rep := cursor_rest)); [..|apply cursor_new_rest|].
Qed.

(** The records of a bag, those of its chunks in their place. *)
Lemma each_join {St A} (body : A → method St anyhow ()) l k s : for_all body (l ++ k) s = (for_all body l ≫= λ _, for_all body k) s.
Proof.
  revert s. induction l as [|a l IH]; intros s; [done|]. cbn [each app]. unfold mbind, method_bind in *. destruct (body a s) as [[[]|e| |] s']; [apply IH|done..].
Qed.
Lemma process_bag {R rep} {read_R : Read R} `{!ReadOk R rep} fuel bag (r : R) j : Forall bag_part_ok bag → rep r (concat (bag_part_frame <$> bag)) →
  length bag + length (all_entries bag) < fuel → process_records fuel r j = for_all entry_body (all_entries bag) j.
Proof.
  intros Hb. revert r j fuel. induction Hb as [|p bag Hp Hb IH]; intros r j [|fuel] Hr Hf; try lia; cbn [process_records].
  - destruct (read_record_end r Hr) as (r' & ->). done.
  - change (all_entries (p :: bag)) with (bag_entries p ++ all_entries bag) in *. rewrite length_app in Hf. cbn [length] in Hf.
    assert (∃ h d, bag_part_frame p = bag_frame h d ∧ section_fits h = true ∧ section_fits d = true ∧
      ∀ j, process_record (process_records fuel) (mkBagRecord h d) j = for_all entry_body (bag_entries p) j) as (h & d & Hframe & Hh & Hd & Hbody).
    { destruct p as [e|h z es]; cbn [bag_entries] in *.
      - eexists _, _. split; [reflexivity|]. pose proof Hp as Hok. cbn in Hok. unfold entry_ok, header_ok in Hok. rewrite !andb_true_iff in Hok.
        destruct Hok as [[[_ Hh] Hd] _]. split_and!; [done..|]. intros j'. rewrite process_entry by done. cbn [each]. unfold mbind, method_bind.
        by destruct (entry_body e j') as [[[]| | |] ?].
      - eexists _, _. split; [reflexivity|]. pose proof Hp as [Hok _]. unfold header_ok in Hok. rewrite !andb_true_iff in Hok. destruct Hok as [[[[[_ Hh] Hz] _] _] _].
        split_and!; [done..|]. intros j'. apply process_chunk_entries; [done|lia]. }
    rewrite fmap_cons in Hr. cbn [concat] in Hr. rewrite Hframe in Hr. destruct (read_record_ok _ _ r _ Hh Hd Hr) as (r' & -> & Hr').
    rewrite (bind_method_Ok (lift _) _ _ _ _ eq_refl), each_join. unfold mbind, method_bind. rewrite Hbody.
    destruct (for_all entry_body (bag_entries p) j) as [[[]|err| |] j']; [|done..]. apply IH; [done|lia].
Qed.
End entries.

(** ** What the conversion reads of the fields *)

Lemma number_read key m n : number key m = Some n → header_u32 m key = Ok n ∧ (0 ≤ n ≤ u32_max)%Z.
Proof.
  unfold number, header_u32, header_bytes. destruct (bt_get key m) as [b|]; [|done]. cbn. destruct (Z.eqb_spec (zlen b) 4) as [Hb|]; [|done].
  intros [= <-]. split; [done|]. pose proof (le_dec_range b) as Hr. rewrite Hb in Hr. unfold u32_max. lia.
Qed.
Lemma text_valid key m s : text key m = Some s → bt_get key m = Some s ∧ utf8_valid s = true.
Proof. unfold text. destruct (bt_get key m) as [b|]; [|done]. cbn. destruct (utf8_valid b) eqn:Hb; [|done]. by intros [= <-]. Qed.
Lemma text_header key m s : text key m = Some s → header_string m key = Ok s.
Proof. intros [Hb Hu]%text_valid. unfold header_string, header_bytes, from_utf8. rewrite Hb. cbn. by rewrite Hu. Qed.
Lemma text_required key m s : text key m = Some s → required_string m key = Ok s.
Proof. intros [Hb Hu]%text_valid. unfold required_string, from_utf8. rewrite Hb. cbn. by rewrite Hu. Qed.
Lemma text_taken key m s : text key m = Some s → take_required_string m key = Ok (s, bt_remove key m).
Proof. intros [Hb Hu]%text_valid. unfold take_required_string, take_required_bytes, from_utf8. rewrite Hb. cbn. by rewrite Hu. Qed.
Lemma strings_kept m : forallb (λ p, utf8_valid p.2) m = true → to_string_map m = Ok m.
Proof.
  induction m as [|[k v] m IH]; [done|]. cbn [forallb to_string_map snd]. rewrite andb_true_iff. intros [Hv Hm]. unfold from_utf8. rewrite Hv. cbn. by rewrite (IH Hm).
Qed.

(** Maps. *)
Lemma bt_remove_get_ne `{KeyOrd K} {V} k k' (m : list (K * V)) : k ≠ k' → bt_sorted m = true → bt_get k' (bt_remove k m) = bt_get k' m.
Proof.
  intros Hne Hs. destruct (bt_get k' m) as [v|] eqn:Hg.
  - apply bt_get_in; [by apply bt_remove_sorted|]. apply bt_in_get in Hg. destruct (bt_get k m) as [w|] eqn:Hk.
    + rewrite (bt_remove_perm _ _ _ Hk) in Hg. apply elem_of_cons in Hg as [[= -> _]|Hg]; [done|exact Hg].
    + assert (bt_remove k m = m) as ->; [|done]. clear -Hk. induction m as [|[a b] m IH]; [done|]. cbn in *. destruct (kltb k a); [done|].
      destruct (kltb a k); [|done]. by rewrite IH.
  - destruct (bt_get k' (bt_remove k m)) as [v|] eqn:Hr; [|done]. apply bt_in_get in Hr. apply (elem_of_sublist _ m) in Hr; [|apply bt_remove_sublist].
    apply (bt_get_in _ _ _ Hs) in Hr. congruence.
Qed.
Lemma fields_map_sorted l : bt_sorted (fields_map l) = true.
Proof.
  unfold fields_map, insert_fields. assert (∀ m : fields, bt_sorted m = true → bt_sorted (foldl (λ m p, bt_insert p.1 p.2 m) m l) = true) as Hm; [|by apply Hm].
  induction l as [|p l IH]; intros m Hm; [done|]. cbn [foldl]. by apply IH, bt_insert_sorted.
Qed.
Lemma bt_get_values `{KeyOrd K} {V W} (f : V → W) k (m : list (K * V)) : bt_get k (prod_map id f <$> m) = f <$> bt_get k m.
Proof. induction m as [|[a b] m IH]; [done|]. cbn. destruct (kltb k a); [done|]. by destruct (kltb a k). Qed.
Lemma bt_insert_values `{KeyOrd K} {V W} (f : V → W) k v (m : list (K * V)) : bt_insert k (f v) (prod_map id f <$> m) = prod_map id f <$> bt_insert k v m.
Proof.
  induction m as [|[a b] m IH]; [done|]. cbn. destruct (kltb k a); [done|]. destruct (kltb a k); [|done]. cbn. f_equal. exact IH.
Qed.

(** ** The conversion follows the machine *)

Section tracks.
Context `{Crc, !CrcLaws, ZstdEncoderLib, Lz4EncoderLib, BagCodecs}.
Context `{!BiMap ChannelContent Z, !BiMap SchemaContent Z, !BiMapOk ChannelContent Z, !BiMapOk SchemaContent Z}.
Context (o : WriteOptions).
Context `{!EncoderOk (wo_compression o) (wo_compression_level o) (wo_compression_threads o)}.
#[local] Hint Extern 0 (Sink spec_state) => exact (spec_sink o) : typeclass_instances.
Abbreviation next_schema st := (i_next_schema (sp_ids st)).
Abbreviation job := (Job (spec_state * list call) ConversionState).
Implicit Types (b : bag_state) (st : spec_state) (c : ConversionState).

Definition content_of (s : Schema) : SchemaContent := mkSchemaContent (schema_name s) (schema_encoding s) (schema_data s).
Lemma content_named s : schema_named (schema_id s) (content_of s) = s.
Proof. by destruct s. Qed.

(** The log, the calls and the state of the conversion are those of the machine. *)
Record tracks b st (calls : list call) c : Prop := {
  tk_ok : log_ok st;
  tk_dense : dense_schemas st;
  tk_next : next_schema st = (zlen (bg_schemas b) + 1)%Z;
  tk_bound : (zlen (bg_schemas b) < u16_max)%Z;
  tk_known s : s ∈ bg_schemas b → bm_get_by_left (content_of s) (i_schemas (sp_ids st)) = Some (schema_id s) ∧
    schema_encoding s = lit "ros1msg" ∧ (1 ≤ schema_id s ≤ zlen (bg_schemas b))%Z;
  tk_schema id s : schema_in (sp_log st) id = Some s → s ∈ bg_schemas b;
  tk_channel id ch : channel_in (sp_log st) id = Some ch → bg_connections b !! id = Some ch;
  tk_connection id ch : bg_connections b !! id = Some ch → channel_id ch = id ∧ (0 ≤ id ≤ u16_max)%Z ∧ ∃ s, channel_schema ch = Some s ∧ s ∈ bg_schemas b;
  tk_key key s : bt_get key (bg_keys b) = Some s → s ∈ bg_schemas b ∧ schema_name s = msg_type key;
  tk_keys : bt_sorted (bg_keys b) = true ∧ cv_schemas c = prod_map id schema_id <$> bg_keys b;
  tk_connections : bt_sorted (cv_connections c) = true ∧ ∀ id, bt_get id (cv_connections c) = bg_connections b !! id;
  tk_sequence : cv_sequence c = as_u32 (zlen (bg_messages b));
  tk_messages : messages_of_log (sp_log st) = bg_messages b ∧ messages_in (sp_log st) = zlen (bg_messages b);
  tk_calls : calls = bg_calls b;
}.
(** Every schema is one of a connection's. *)
Definition all_used b : Prop := ∀ s, s ∈ bg_schemas b → ∃ i ch, bg_connections b !! i = Some ch ∧ channel_schema ch = Some s.

Lemma tracks_start : tracks bag_start (spec_new o) [] ConversionState_new ∧ all_used bag_start.
Proof.
  split; [|by intros s ?%not_elem_of_nil]. split; try done.
  - apply spec_new_ok.
  - by intros s ?%not_elem_of_nil.
Qed.
Lemma tracked_in b st calls c s : tracks b st calls c → s ∈ bg_schemas b → schema_in (sp_log st) (schema_id s) = Some s.
Proof.
  intros Ht Hs. destruct (tk_known _ _ _ _ Ht _ Hs) as [Hk _]. rewrite <-(content_named s) at 2. exact (known_schema _ _ _ (tk_ok _ _ _ _ Ht) Hk).
Qed.
Lemma tracks_consistent b st calls c : tracks b st calls c → consistent (bg_connections b).
Proof.
  intros Ht. split.
  - intros i ch Hi. by destruct (tk_connection _ _ _ _ Ht _ _ Hi) as (? & ? & _).
  - intros i ch s Hi Hs. destruct (tk_connection _ _ _ _ Ht _ _ Hi) as (_ & _ & s' & Hs' & Hin). rewrite Hs in Hs'. injection Hs' as <-.
    destruct (tk_known _ _ _ _ Ht _ Hin) as (_ & _ & Hr). pose proof (tk_bound _ _ _ _ Ht). lia.
  - intros i j ch d s t Hi Hj Hs Hd Hid. destruct (tk_connection _ _ _ _ Ht _ _ Hi) as (_ & _ & s' & Hs' & Hin). rewrite Hs in Hs'. injection Hs' as <-.
    destruct (tk_connection _ _ _ _ Ht _ _ Hj) as (_ & _ & t' & Ht' & Hin'). rewrite Hd in Ht'. injection Ht' as <-.
    pose proof (tracked_in _ _ _ _ _ Ht Hin) as Es. pose proof (tracked_in _ _ _ _ _ Ht Hin') as Et. rewrite Hid in Es. congruence.
Qed.
Lemma tracks_uses b st calls c : tracks b st calls c → all_used b → uses (bg_connections b) st.
Proof.
  intros Ht Hu. split; [apply Ht| |apply Ht]. intros id s Hs. destruct (Hu s (tk_schema _ _ _ _ Ht _ _ Hs)) as (i & ch & Hi & Hch). by exists i, ch.
Qed.

(** *** A schema *)

(** What [process_connection] does for it. *)
Definition schema_id_of (key : SchemaKey) (definition : bytes) (c : ConversionState) : method job anyhow Z :=
  match bt_get key (cv_schemas c) with
  | Some id => mret id
  | None =>
      id ← in_context "failed to write ROS1 schema" [] (on_writer (sink_add_schema (msg_type key) (lit "ros1msg") definition));
      _ ← on_state (modify (insert_schema key id));
      mret id
  end.

Lemma find_schema_Some name data l s : find_schema name data l = Some s → s ∈ l ∧ schema_name s = name ∧ schema_data s = data.
Proof. unfold find_schema. intros [Hin Hs]%List.find_some. cbv beta in Hs. apply bool_decide_eq_true in Hs. split; [by apply list_elem_of_In|done]. Qed.
Lemma find_schema_None name data l s : find_schema name data l = None → s ∈ l → schema_name s = name → schema_data s = data → False.
Proof. unfold find_schema. intros Hf Hin%list_elem_of_In Hn Hd. pose proof (List.find_none _ _ Hf s Hin) as Hx. cbv beta in Hx. by rewrite bool_decide_true in Hx. Qed.

Lemma add_schema_run st calls c name data r st' : spec_add_schema name (lit "ros1msg") data st = (Ok r, st') →
  in_context "failed to write ROS1 schema" [] (on_writer (sink_add_schema name (lit "ros1msg") data)) (mkJob (st, calls) c) =
    (Ok r, mkJob (st', calls ++ [AddSchema name (lit "ros1msg") data]) c).
Proof.
  intros E. unfold in_context, on_writer, sink_add_schema, sink_call, traced, spec_sink. cbn [job_writer job_state spec_perform]. by rewrite E.
Qed.

(** A key that is new, with a schema that is there by now. *)
Definition with_schema (key : SchemaKey) (s : Schema) (schemas : list Schema) (definition : bytes) b : bag_state :=
  mkBagState schemas (bt_insert key s (bg_keys b)) (bg_connections b) (bg_messages b) (bg_calls b ++ [AddSchema (msg_type key) (lit "ros1msg") definition]).
Lemma keyed key key' s s' b : bt_sorted (bg_keys b) = true → bt_get key' (bt_insert key s (bg_keys b)) = Some s' →
  key' = key ∧ s' = s ∨ bt_get key' (bg_keys b) = Some s'.
Proof.
  intros Hs. destruct (decide (key' = key)) as [->|Hne]; [rewrite bt_insert_get_eq; intros [= <-]; by left|].
  rewrite bt_insert_get_ne by (done || by apply not_eq_sym). by right.
Qed.

(** The schema is known to the writer. *)
Lemma tracks_key b st calls c key s definition : tracks b st calls c → s ∈ bg_schemas b → schema_name s = msg_type key →
  let b' := with_schema key s (bg_schemas b) definition b in tracks b' st (bg_calls b') (insert_schema key (schema_id s) c).
Proof.
  intros Ht Hs Hn b'. pose proof Ht as [Hok Hd Hnext Hb Hk Hsch Hch Hco Hkey [Hks Hkm] Hcon Hseq Hm Hcl]. split; try done.
  - intros key' s' [[-> ->]|Hg]%keyed; [done|by apply Hkey|done].
  - cbn. split; [by apply bt_insert_sorted|]. by rewrite Hkm, bt_insert_values.
Qed.

(** The schema is new to the writer. *)
Lemma tracks_schema b st st' calls c name definition : tracks b st calls c → (zlen (bg_schemas b) + 1 < u16_max)%Z →
  schema_added st st' name (lit "ros1msg") definition →
  let s := mkSchema (zlen (bg_schemas b) + 1) name (lit "ros1msg") definition in
  let b' := mkBagState (bg_schemas b ++ [s]) (bg_keys b) (bg_connections b) (bg_messages b) (bg_calls b) in tracks b' st' (bg_calls b) c.
Proof.
  intros Ht Hl [Hlog Hok' Hd' Hn' Hk' Hkeep _] s b'. pose proof Ht as [Hok Hd Hnext Hb Hk Hsch Hch Hco Hkey Hkm Hcon Hseq Hm Hcl].
  assert (zlen (bg_schemas b') = zlen (bg_schemas b) + 1)%Z as Hz by (cbn; rewrite zlen_app; done). pose proof (zlen_nonneg (bg_schemas b)).
  split; try done.
  - rewrite Hn', Hnext, Hz. lia.
  - rewrite Hz. lia.
  - intros t Hin. rewrite Hz. apply elem_of_app in Hin as [Hin| ->%list_elem_of_singleton].
    + destruct (Hk t Hin) as (Hg & He & Hr). split_and!; [by apply Hkeep|done|lia..].
    + split_and!; [|done|cbn; lia..]. etransitivity; [exact Hk'|]. by rewrite Hnext.
  - intros id t. rewrite Hlog, schema_in_snoc. cbn [b' bg_schemas]. destruct (schema_in (sp_log st) id) as [t'|] eqn:E.
    + intros [= <-]. apply elem_of_app. left. by eapply Hsch.
    + cbn [sh_id sh_name sh_encoding]. destruct (Z.eqb_spec (next_schema st) id) as [<-|]; [|done]. intros [= <-]. apply elem_of_app. right. apply list_elem_of_singleton. unfold s. by rewrite Hnext.
  - intros id ch. rewrite Hlog, channel_in_snoc by (rewrite <-Hlog; apply Hok'). destruct (channel_in (sp_log st) id) eqn:E; [intros [= <-]; by apply Hch|done].
  - intros id ch Hi. destruct (Hco id ch Hi) as (? & ? & t & ? & ?). do 2 (split; [done|]). exists t. split; [done|]. apply elem_of_app. by left.
  - intros key t Hg. destruct (Hkey key t Hg). split; [|done]. apply elem_of_app. by left.
  - rewrite Hlog, messages_of_log_app by apply Hok. destruct Hm as [-> Hm]. cbn. rewrite app_nil_r. split; [done|]. by rewrite messages_in_snoc, Z.add_0_r.
Qed.

Lemma schema_step b st calls c key definition s b' : tracks b st calls c → all_used b → bag_schema key definition b = Some (s, b') →
  ∃ st' c', schema_id_of key definition c (mkJob (st, calls) c) = (Ok (schema_id s), mkJob (st', bg_calls b') c') ∧ tracks b' st' (bg_calls b') c' ∧
    s ∈ bg_schemas b' ∧ schema_name s = msg_type key ∧ schema_data s = definition ∧
    (∀ t, t ∈ bg_schemas b' → t ∈ bg_schemas b ∨ t = s) ∧ bg_connections b' = bg_connections b.
Proof.
  intros Ht Hu. pose proof (tk_calls _ _ _ _ Ht) as Hcalls. subst calls. unfold bag_schema, schema_id_of. destruct (tk_keys _ _ _ _ Ht) as [_ ->]. rewrite bt_get_values.
  destruct (bt_get key (bg_keys b)) as [s0|] eqn:Hg; cbn [fmap option_fmap option_map].
  { case_bool_decide as Hd; [|done]. intros [= -> ->]. destruct (tk_key _ _ _ _ Ht _ _ Hg). exists st, c. split_and!; try done. by left. }
  destruct (find_schema (msg_type key) definition (bg_schemas b)) as [s0|] eqn:Hf.
  - destruct (_ <? _)%Z; [|done]. intros [= <- <-]. apply find_schema_Some in Hf as (Hin & Hn & Hd).
    destruct (tk_known _ _ _ _ Ht _ Hin) as (Hk & He & _). unfold content_of in Hk. rewrite Hn, Hd, He in Hk.
    exists st, (insert_schema key (schema_id s0) c). split_and!; try done; [|by eapply tracks_key|by left].
    rewrite (bind_method_Ok _ _ _ _ _ (add_schema_run _ _ _ _ _ _ _ (add_schema_known _ _ _ _ _ Hk))). done.
  - set (fresh := mkSchema _ _ _ _). destruct (Z.ltb_spec (zlen (bg_schemas b ++ [fresh])) u16_max) as [Hl|]; [|done]. intros [= <- <-].
    rewrite zlen_app in Hl. change (zlen [fresh]) with 1%Z in Hl. pose proof (tk_next _ _ _ _ Ht) as Hnext.
    assert (bm_get_by_left (mkSchemaContent (msg_type key) (lit "ros1msg") definition) (i_schemas (sp_ids st)) = None) as Hnone.
    { destruct (bm_get_by_left _ _) as [id|] eqn:Hk; [|done]. pose proof (known_schema _ _ _ (tk_ok _ _ _ _ Ht) Hk) as Hin%(tk_schema _ _ _ _ Ht).
      by destruct (find_schema_None _ _ _ _ Hf Hin). }
    destruct (add_schema_new st _ _ _ (tk_ok _ _ _ _ Ht) (tk_dense _ _ _ _ Ht) ltac:(lia) Hnone) as (st' & E & Ha).
    pose proof (tracks_schema _ _ _ _ _ _ _ Ht Hl Ha) as Ht'. fold fresh in Ht'.
    assert (next_schema st = schema_id fresh) as Hid by by rewrite Hnext.
    exists st', (insert_schema key (schema_id fresh) c). split_and!; try done.
    + rewrite (bind_method_Ok _ _ _ _ _ (add_schema_run _ _ _ _ _ _ _ E)), Hid. done.
    + apply (tracks_key _ _ _ _ key fresh definition Ht'); [|done]. apply elem_of_app. right. by apply list_elem_of_singleton.
    + apply elem_of_app. right. by apply list_elem_of_singleton.
    + intros t [Hin| ->%list_elem_of_singleton]%elem_of_app; [by left|by right].
Qed.

(** *** A connection *)

Lemma bind_on_gets {Wr St A B} (g : St → A) (f : A → method (Job Wr St) anyhow B) j : (on_state (gets g) ≫= f) j = f (g (job_state j)) j.
Proof. by destruct j. Qed.

Definition with_connection (conn : Z) (channel : Channel) b : bag_state :=
  mkBagState (bg_schemas b) (bg_keys b) (<[conn := channel]> (bg_connections b)) (bg_messages b) (bg_calls b).
Lemma tracks_connection b st calls c conn channel s : tracks b st calls c → channel_id channel = conn → (0 ≤ conn ≤ u16_max)%Z →
  channel_schema channel = Some s → s ∈ bg_schemas b → default channel (bg_connections b !! conn) = channel →
  tracks (with_connection conn channel b) st calls (insert_connection conn channel c).
Proof.
  intros [Hok Hd Hnext Hb Hk Hsch Hch Hco Hkey Hkm [Hcs Hcon] Hseq Hm Hcl] Hid Hr Hs Hin Hold.
  assert (∀ i ch, bg_connections b !! i = Some ch → <[conn := channel]> (bg_connections b) !! i = Some ch) as Hkeep.
  { intros i ch Hi. destruct (decide (i = conn)) as [->|Hne]; [|by rewrite lookup_insert_ne by auto]. rewrite lookup_insert_eq, <-Hold. by rewrite Hi. }
  split; try done.
  - intros i ch Hi. by apply Hkeep, Hch.
  - intros i ch. cbn. destruct (decide (i = conn)) as [->|Hne]; [rewrite lookup_insert_eq; intros [= <-]|rewrite lookup_insert_ne by auto; apply Hco].
    split; [done|]. split; [done|]. by exists s.
  - cbn. split; [by apply bt_insert_sorted|]. intros i. rewrite bt_get_insert_case by done.
    case_decide as He; [subst; by rewrite lookup_insert_eq|by rewrite lookup_insert_ne by auto].
Qed.

Lemma connection_step b st calls c header info b' : entry_ok (Connection header info) = true → tracks b st calls c → all_used b →
  bag_connection header info b = Some b' →
  ∃ st' c', process_connection (fields_map header) (fields_enc info) (mkJob (st, calls) c) = (Ok (), mkJob (st', bg_calls b') c') ∧
    tracks b' st' (bg_calls b') c' ∧ all_used b'.
Proof.
  intros Hok Ht Hu. unfold entry_ok in Hok. rewrite !andb_true_iff in Hok. destruct Hok as [[_ Hs%section_usize] [_ Hi]].
  unfold bag_connection. destruct (number _ _) as [conn|] eqn:E1; [|done]. destruct (text KEY_TOPIC _) as [topic|] eqn:E2; [|done].
  destruct (text KEY_TYPE _) as [type|] eqn:E3; [|done]. destruct (text KEY_MD5SUM _) as [md5|] eqn:E4; [|done].
  destruct (bt_get KEY_MESSAGE_DEFINITION _) as [definition|] eqn:E5; [|done]. cbn [mbind option_bind].
  destruct (bag_schema _ _ b) as [[s b1]|] eqn:Es; [|done]. cbn [mbind option_bind].
  destruct (_ && _ && _) eqn:Hc; [|done]. intros [= <-]. rewrite !andb_true_iff, bool_decide_eq_true in Hc. destruct Hc as [[Hv Hr%Z.leb_le] Hold].
  destruct (schema_step _ _ _ _ _ _ _ _ Ht Hu Es) as (st' & c' & Erun & Ht' & Hin & Hn & Hdef & Hall & Hconn). destruct (number_read _ _ _ E1) as [E1' Hrange].
  assert (bt_get KEY_MD5SUM (bt_remove KEY_TYPE (fields_map info)) = Some md5 ∧ bt_get KEY_MESSAGE_DEFINITION (bt_remove KEY_TYPE (fields_map info)) = Some definition) as [E4' E5'].
  { rewrite !bt_remove_get_ne by (done || apply fields_map_sorted). split; [by apply text_valid|done]. }
  set (m := bt_remove KEY_TYPE (fields_map info)) in *. set (channel := mkChannel conn topic (Some s) (lit "ros1") (bt_remove KEY_MESSAGE_DEFINITION m)) in *.
  exists st', (insert_connection conn channel c'). split_and!.
  - unfold process_connection. rewrite E1', (bind_method_Ok (lift _) _ _ _ _ eq_refl), (text_header _ _ _ E2), (bind_method_Ok (lift _) _ _ _ _ eq_refl).
    rewrite parse_header_fields_enc by done. rewrite (bind_method_Ok (lift _) _ _ _ _ eq_refl), (text_taken _ _ _ E3), (bind_method_Ok (lift _) _ _ _ _ eq_refl).
    fold m. assert (required_string m KEY_MD5SUM = Ok md5) as ->.
    { apply text_required. unfold text. rewrite E4'. cbn. by rewrite (proj2 (text_valid _ _ _ E4)). }
    rewrite (bind_method_Ok (lift _) _ _ _ _ eq_refl). unfold take_required_bytes. rewrite E5'. cbn [ok_or mbind outcome_bind mret outcome_ret].
    rewrite (bind_method_Ok (lift (mret _)) _ _ _ _ eq_refl).
    rewrite bind_on_gets. cbn [job_state]. unfold schema_id_of in Erun. cbn [msg_type] in Erun. rewrite (bind_method_Ok _ _ _ _ _ Erun). rewrite (strings_kept _ Hv), (bind_method_Ok (lift _) _ _ _ _ eq_refl).
    unfold conn_id_to_channel_id. rewrite (proj2 (Z.leb_le _ _)) by done. rewrite (bind_method_Ok (lift (mret _)) _ _ _ _ eq_refl).
    unfold on_state, modify. cbn [job_state job_writer]. unfold channel. destruct s as [id n e d]. cbn in Hn, Hdef. subst n d.
    destruct (tk_known _ _ _ _ Ht' _ Hin) as (_ & He & _). cbn in He. by subst e.
  - rewrite Hconn in Hold. apply (tracks_connection b1 st' _ c' conn channel s); try done; [lia|by rewrite Hconn].
  - intros t [Hin'| ->]%Hall.
    + destruct (Hu t Hin') as (i & ch & Hi' & Hch). cbn. destruct (decide (i = conn)) as [->|Hne].
      * exists conn, channel. rewrite lookup_insert_eq. split; [done|]. rewrite Hconn, Hi' in Hold. cbn in Hold. by rewrite <-Hold.
      * exists i, ch. by rewrite Hconn, lookup_insert_ne by auto.
    + exists conn, channel. cbn. by rewrite lookup_insert_eq.
Qed.

(** *** A message *)

Definition registry st := (i_schemas (sp_ids st), i_schema_ids (sp_ids st), next_schema st).
Lemma ensure_channel_registry ch st : registry (spec_ensure_channel ch st).2 = registry st.
Proof.
  unfold spec_ensure_channel, get_ids, on_ids, emit. rewrite bind_gets. destruct (bt_get _ _); [|done].
  destruct (bm_get_by_left _ _); [|done]. by destruct (_ =? _)%Z.
Qed.
Lemma write_known_registry h data st : registry (spec_write_to_known_channel h data st).2 = registry st.
Proof.
  unfold spec_write_to_known_channel, get_ids, on_ids, emit. rewrite bind_gets. destruct (negb _); [done|]. by destruct (add_ _ _ _).
Qed.
Lemma write_registry m s st : channel_schema (message_channel m) = Some s → bm_get_by_left (content_of s) (i_schemas (sp_ids st)) = Some (schema_id s) →
  bt_get (schema_id s) (i_schema_ids (sp_ids st)) = Some (schema_id s) → registry (spec_write m st).2 = registry st.
Proof.
  intros Hs Hk Hi. unfold spec_write. rewrite Hs. unfold mbind at 1, method_bind at 1, spec_ensure_schema, get_ids. rewrite bind_gets, Hi.
  fold (content_of s). rewrite Hk, Z.eqb_refl. unfold mret, method_ret. unfold mbind at 1, method_bind at 1. pose proof (ensure_channel_registry (message_channel m) st) as Hc.
  destruct (spec_ensure_channel _ st) as [[[]|e| |] st1]; cbn [snd] in *; try done. by rewrite write_known_registry.
Qed.

Lemma write_run st calls c m st' : spec_write m st = (Ok (), st') →
  in_context "failed to write converted ROS1 message" [] (on_writer (sink_write m)) (mkJob (st, calls) c) = (Ok (), mkJob (st', calls ++ [WriteMessage m]) c).
Proof.
  intros E. unfold in_context, on_writer, sink_write, sink_call, traced, spec_sink, fmap, method_fmap. cbn [job_writer job_state].
  unfold spec_perform, no_id, fmap, method_fmap. by rewrite E.
Qed.

Lemma nanos_read time : zlen time = 8%Z → ros_time_to_nanos time = Ok (le_dec (ztake 4 time) * 1000000000 + le_dec (zdrop 4 time))%Z.
Proof.
  intros Ht. unfold ros_time_to_nanos. rewrite !slice_Ok by lia. cbn [mbind outcome_bind]. rewrite (zdrop_0 0), (ztake_all (8 - 4) (zdrop 4 time)) by (rewrite ?zlen_zdrop; lia).
  apply add_Ok. pose proof (le_dec_range (ztake 4 time)) as H1'. pose proof (le_dec_range (zdrop 4 time)) as H2'.
  rewrite zlen_ztake, Ht in H1'. rewrite zlen_zdrop, Ht in H2'. change (256 ^ Z.min (Z.max 0 4) 8)%Z with (2 ^ 32)%Z in H1'.
  change (256 ^ (8 - Z.min (Z.max 0 4) 8))%Z with (2 ^ 32)%Z in H2'. unfold u64_max. lia.
Qed.

Lemma message_step b st calls c header data b' : tracks b st calls c → all_used b → bag_message header data b = Some b' → (zlen (bg_messages b') ≤ u64_max)%Z →
  ∃ st' c', process_message (fields_map header) data (mkJob (st, calls) c) = (Ok (), mkJob (st', bg_calls b') c') ∧ tracks b' st' (bg_calls b') c' ∧ all_used b'.
Proof.
  intros Ht Hu. unfold bag_message. destruct (number _ _) as [conn|] eqn:E1; [|done]. destruct (bt_get KEY_TIME _) as [time|] eqn:E2; [|done].
  cbn [mbind option_bind]. destruct (bg_connections b !! conn) as [channel|] eqn:E3; [|done]. cbn [mbind option_bind].
  destruct (Z.eqb_spec (zlen time) 8) as [Htime|]; [|done]. intros [= <-] Hn. cbn [bg_messages bg_calls] in *.
  set (t := (le_dec (ztake 4 time) * 1000000000 + le_dec (zdrop 4 time))%Z) in *. set (m := mkMessage channel (as_u32 (zlen (bg_messages b))) t t data) in *.
  pose proof Ht as [Hok Hd Hnext Hb Hk Hsch Hch Hco Hkey Hkm [Hcs Hcon] Hseq [Hm Hmn] Hcl].
  destruct (Hco _ _ E3) as (Hid & Hr & s & Hs & Hin). destruct (Hk _ Hin) as (Hks & _). rewrite zlen_app in Hn. change (zlen [m]) with 1%Z in Hn.
  destruct (client_write (bg_connections b) (tracks_consistent _ _ _ _ Ht) st m (tracks_uses _ _ _ _ Ht Hu)) as (st' & E & [Hok' Hus' Huc'] & Hm' & _ & Hmn');
    [cbn; by rewrite Hid|lia|].
  pose proof (reg_known _ _ _ (schemas_ok _ (lo_ids _ Hok)) _ _ Hks) as Hids.
  pose proof (write_registry m s st Hs Hks Hids) as Hreg. rewrite E in Hreg. injection Hreg as Hrs Hri Hrn.
  exists st', (count_sequence c). split_and!.
  - destruct (number_read _ _ _ E1) as [E1' _]. unfold process_message. rewrite E1', (bind_method_Ok (lift _) _ _ _ _ eq_refl).
    unfold header_bytes. rewrite E2. cbn [ok_or]. rewrite (bind_method_Ok (lift _) _ _ _ _ eq_refl), (proj2 (Z.eqb_eq _ _)), bind_ensure by done.
    rewrite nanos_read by done. rewrite (bind_method_Ok (lift _) _ _ _ _ eq_refl). fold t. rewrite bind_on_gets. cbn [job_state]. rewrite Hcon, E3.
    rewrite bind_on_gets. cbn [job_state]. rewrite Hseq. fold m. rewrite (bind_method_Ok _ _ _ _ _ (write_run _ _ _ _ _ E)). by rewrite Hcl.
  - split; try done.
    + unfold dense_schemas. by rewrite Hri, Hrn.
    + by rewrite Hrn.
    + intros x Hx. destruct (Hk x Hx) as (Hg & ? & ?). by rewrite Hrs.
    + intros id x Hx. destruct (Hus' id x Hx) as (i & ch & Hi & Hchs). destruct (Hco i ch Hi) as (_ & _ & x' & Hx' & ?). by simplify_eq.
    + cbn [count_sequence cv_sequence bg_messages]. rewrite Hseq, zlen_app. unfold as_u32. by rewrite Zplus_mod_idemp_l.
    + cbn [bg_messages]. rewrite zlen_app, Hm', Hmn', Hm, Hmn. done.
  - exact Hu.
Qed.

(** *** The whole bag *)

Lemma schema_calls key definition b s b' : bag_schema key definition b = Some (s, b') →
  bg_messages b' = bg_messages b ∧ ∃ k, bg_calls b' = bg_calls b ++ k.
Proof.
  unfold bag_schema. destruct (bt_get key _) as [s0|].
  - case_bool_decide; [|done]. intros [= -> ->]. split; [done|]. exists []. by rewrite app_nil_r.
  - destruct (find_schema _ _ _); destruct (_ <? _)%Z; try done; intros [= <- <-]; (split; [done|by eexists]).
Qed.
(** Every message costs something. *)
Lemma step_grows e b b' : bag_step e b = Some b' → (zlen (bg_messages b) ≤ zlen (bg_messages b'))%Z ∧
  ((zlen (bg_messages b) ≤ calls_cost o (bg_calls b))%Z → (zlen (bg_messages b') ≤ calls_cost o (bg_calls b'))%Z).
Proof.
  destruct e as [h d|h i|h d]; cbn [bag_step].
  - by intros [= <-].
  - unfold bag_connection. destruct (number _ _); [|done]. destruct (text KEY_TOPIC _); [|done]. destruct (text KEY_TYPE _); [|done]. destruct (text KEY_MD5SUM _); [|done].
    destruct (bt_get KEY_MESSAGE_DEFINITION _); [|done]. cbn [mbind option_bind]. destruct (bag_schema _ _ b) as [[s b1]|] eqn:Es; [|done]. cbn [mbind option_bind].
    destruct (_ && _ && _); [|done]. intros [= <-]. cbn [bg_messages bg_calls]. destruct (schema_calls _ _ _ _ _ Es) as (-> & k & ->). split; [done|].
    rewrite calls_cost_app. pose proof (calls_cost_pos o k). lia.
  - unfold bag_message. destruct (number _ _); [|done]. destruct (bt_get _ _); [|done]. cbn [mbind option_bind]. destruct (_ !! _); [|done]. cbn [mbind option_bind].
    destruct (_ =? _)%Z; [|done]. intros [= <-]. cbn [bg_messages bg_calls]. set (m := mkMessage _ _ _ _ _). rewrite calls_cost_app, zlen_app. change (zlen [m]) with 1%Z.
    pose proof (message_cost_pos o m) as Hm. change (calls_cost o [WriteMessage m]) with (call_cost o (WriteMessage m) + 0)%Z. lia.
Qed.
Lemma run_grows es b b' : bag_run es b = Some b' → (zlen (bg_messages b) ≤ zlen (bg_messages b'))%Z ∧
  ((zlen (bg_messages b) ≤ calls_cost o (bg_calls b))%Z → (zlen (bg_messages b') ≤ calls_cost o (bg_calls b'))%Z).
Proof.
  revert b. induction es as [|e es IH]; intros b; cbn [bag_run]; [by intros [= <-]|]. destruct (bag_step e b) as [b1|] eqn:E; [|done]. intros Hr.
  destruct (step_grows _ _ _ E), (IH _ Hr). split; [lia|auto].
Qed.

Lemma bag_tracks es b st calls c b' : forallb entry_ok es = true → tracks b st calls c → all_used b → bag_run es b = Some b' →
  (zlen (bg_messages b') ≤ u64_max)%Z →
  ∃ st' c', for_all entry_body es (mkJob (st, calls) c) = (Ok (), mkJob (st', bg_calls b') c') ∧ tracks b' st' (bg_calls b') c' ∧ all_used b'.
Proof.
  revert b st calls c. induction es as [|e es IH]; intros b st calls c; cbn [forallb bag_run each].
  - intros _ Ht Hu [= <-] _. exists st, c. pose proof (tk_calls _ _ _ _ Ht) as <-. done.
  - rewrite andb_true_iff. intros [He Hes] Ht Hu. destruct (bag_step e b) as [b1|] eqn:E; [|done]. intros Hr Hn. destruct (run_grows _ _ _ Hr) as [Hle _].
    assert (∃ st' c', entry_body e (mkJob (st, calls) c) = (Ok (), mkJob (st', bg_calls b1) c') ∧ tracks b1 st' (bg_calls b1) c' ∧ all_used b1) as (st1 & c1 & E1 & Ht1 & Hu1).
    { destruct e as [h d|h i|h d]; cbn [bag_step entry_body] in *.
      - injection E as <-. exists st, c. pose proof (tk_calls _ _ _ _ Ht) as <-. done.
      - by eapply connection_step.
      - eapply message_step; [done..|lia]. }
    destruct (IH b1 st1 (bg_calls b1) c1 Hes Ht1 Hu1 Hr Hn) as (st2 & c2 & E2 & Hx). exists st2, c2.
    rewrite (bind_method_Ok _ _ _ _ _ E1). done.
Qed.
End tracks.

(** ** The command *)

Section calls.
Context `{Crc, !CrcLaws, ZstdEncoderLib, Lz4EncoderLib, BagCodecs} `{FileOk W file}.
Context `{!BiMap ChannelContent Z, !BiMap SchemaContent Z, !BiMapOk ChannelContent Z, !BiMapOk SchemaContent Z}.
Context (o : WriteOptions).
Context `{!EncoderOk (wo_compression o) (wo_compression_level o) (wo_compression_threads o)}.
#[local] Hint Extern 0 (Sink spec_state) => exact (spec_sink o) : typeclass_instances.

Ltac follow := repeat first [progress intros | solve [eauto with follows] | apply follows_bind | case_match].
Lemma process_record_follows records1 records2 r : chunks_bounded o → (∀ c, follows o (records1 c) (records2 c)) →
  follows o (process_record records1 r) (process_record records2 r).
Proof.
  intros Hb Hr. unfold process_record, process_connection, process_message, process_chunk, sink_add_schema, sink_write. follow.
Qed.
Lemma process_records_follows fuel {R} {read_R : Read R} (r : R) : chunks_bounded o → follows o (process_records fuel r) (process_records fuel r).
Proof.
  intros Hb. revert R read_R r. induction fuel as [|fuel IH]; intros R read_R r; cbn [process_records]; [apply follows_lift|].
  destruct (read_record r) as [record r']. apply follows_bind; [apply follows_lift|]. intros [x|]; [|apply follows_ret].
  apply follows_bind; [by apply process_record_follows|by intros []].
Qed.
End calls.

Section command.
Context `{Crc, !CrcLaws, HashOrder, !HashOrderOk, ZstdEncoderLib, Lz4EncoderLib, BagCodecsOk} `{FileOk W file}.
Context `{!BiMap ChannelContent Z, !BiMap SchemaContent Z, !BiMapOk ChannelContent Z, !BiMapOk SchemaContent Z}.
Context `{ZstdLib, Lz4Lib, !ZstdLibOk, !Lz4LibOk, !Frames}.
Context (o : WriteOptions).
Context `{!EncoderOk (wo_compression o) (wo_compression_level o) (wo_compression_threads o)}.
#[local] Hint Extern 0 (Sink spec_state) => exact (spec_sink o) : typeclass_instances.

(** C9: convert loses no message: from a bag whose connections do not contradict each other,
    read by any reader in any pieces, its chunks compressed or not, convert writes a whole
    file that reads back as exactly the messages of the bag, in order: each on the channel
    with the number, the topic and the fields of its connection and with the schema of its
    type, under its time in nanoseconds, numbered in sequence. *)
Theorem bag_converts {R rep} {read_R : Read R} `{!ReadOk R rep} fuel bag (input : R) b w :
  Forall bag_part_ok bag → bag_run (all_entries bag) bag_start = Some b → rep input (bag_bytes bag) → bag_records bag ≤ fuel →
  options_ok o → streams o → Forall (call_ok o) (bg_calls b) → (run_size o (bg_calls b) ≤ 2 ^ 59)%Z → file w [] 0 →
  ∃ w' lg, convert_ros1_bag fuel w input o = Ok w' ∧ holds_log o w' lg ∧ messages_of_log lg = bg_messages b.
Proof.
  intros Hbag Hrun Hr Hf Hopts Hst Hcalls Hsz Hw. destruct (tracks_start o) as [Ht Hu]. destruct (run_grows o _ _ _ Hrun) as [_ Hcost]. specialize (Hcost ltac:(done)).
  assert (forallb entry_ok (all_entries bag) = true) as Hok.
  { unfold all_entries. clear -Hbag. induction Hbag as [|p bag Hp _ IH]; [done|]. cbn. rewrite forallb_app, IH, andb_true_r.
    destruct p as [e|h z es]; cbn; [by rewrite andb_true_r|]. destruct Hp as [Hp _]. rewrite !andb_true_iff in Hp. by destruct Hp as [[_ Hp] _]. }
  destruct (bag_tracks o _ _ _ _ _ _ Hok Ht Hu Hrun) as (st & c & E & Ht' & Hu').
  { unfold run_size in Hsz. pose proof (zlen_nonneg MAGIC). pose proof (zlen_nonneg (record_frame (the_header o))). unfold u64_max. lia. }
  destruct (read_exact_ok BAG_MAGIC input _ Hr) as (input' & Em & Hr').
  assert (process_records fuel input' (mkJob (spec_new o, []) ConversionState_new) = (Ok (), mkJob (st, bg_calls b) c)) as Er.
  { rewrite (process_bag (rep := rep) fuel bag); [exact E|done|done|]. unfold bag_records in Hf. lia. }
  destruct (job_writes o _ _ w ConversionState_new _ _ _ _ (process_records_follows o fuel input' (oo_chunks _ Hopts)) Er I Hw Hopts Hcalls Hsz) as
    (wr & wr' & Ew & E1 & _ & sum & wr'' & w' & Ef & Ei & Hholds).
  exists w', (sp_log st). split_and!.
  - assert (run check_bag_magic input = Ok ((), input')) as Emagic.
    { unfold run, check_bag_magic. by rewrite (bind_method_Ok _ _ _ _ _ (in_context_passes _ _ _ _ _ _ (io_Ok _ _ _ _ Em))), bool_decide_true. }
    unfold convert_ros1_bag. rewrite Emagic. cbn [mbind outcome_bind]. rewrite Ew. cbn [from_mcap map_err with_context mbind outcome_bind].
    unfold run. rewrite (bind_method_Ok _ _ _ _ _ E1). unfold in_context, on_writer. cbn [job_writer job_state]. rewrite Ef.
    cbn [fmap outcome_fmap with_context from_mcap map_err mbind outcome_bind job_writer job_state]. by rewrite Ei.
  - apply Hholds; [done|]. by eapply uses_nonzero; [eapply tracks_consistent|by eapply tracks_uses].
  - by destruct (tk_messages _ _ _ _ Ht').
Qed.
End command.

(** ** Examples *)

Module RosBagExamples.
Import BitCrc MarkLib Instances MarkEncoder WriterLogExamples.

(** Codecs that put a byte before the data. *)
#[export] Instance mark_codecs : BagCodecs := {|
  BzDecoder := VecCursor;
  BzDecoder_new z := VecCursor_new (drop 1 z);
  Lz4Decoder := VecCursor;
  Lz4Decoder_new z := match z with [] => Err UnexpectedEofIo | _ :: z => Ok (VecCursor_new z) end;
  Lz4Decoder_finish _ := Ok ();
|}.
#[export] Instance mark_codecs_ok : BagCodecsOk := {| bz_rest := cursor_rest; lz4_rest := cursor_rest |}.

Definition connection (id : Z) (topic md5 definition : string) : bag_entry :=
  Connection [(KEY_OP, raw [7]%Z); (KEY_CONN, le_enc 4 id); (KEY_TOPIC, lit topic)]
    [(KEY_TOPIC, lit topic); (KEY_TYPE, lit "demo_msgs/Msg"); (KEY_MD5SUM, lit md5); (KEY_MESSAGE_DEFINITION, lit definition)].
Definition message (id secs nsecs : Z) (data : string) : bag_entry :=
  MessageData [(KEY_CONN, le_enc 4 id); (KEY_OP, raw [2]%Z); (KEY_TIME, le_enc 4 secs ++ le_enc 4 nsecs)] (lit data).
Definition chunk (compression : string) (mark : bytes) (es : list bag_entry) : bag_part :=
  Chunk [(KEY_OP, raw [5]%Z); (KEY_COMPRESSION, lit compression); (KEY_SIZE, le_enc 4 (zlen (entry_frames es)))] (mark ++ entry_frames es) es.
Definition bag : list bag_part :=
  [Single (Skip [(KEY_OP, raw [3]%Z)] (lit "  "));
   chunk "bz2" (raw [0]%Z) [connection 0 "/demo0" "abc123" "uint8 data"; message 0 1 2 "a"];
   Single (connection 7 "/demo1" "abc123" "uint8 data");
   chunk "lz4" (raw [0]%Z) [message 7 1 3 "b"];
   chunk "none" [] [connection 0 "/demo0" "abc123" "uint8 data"; message 0 0 5 "c"]].

Definition to : WriteOptions := build_write_options (lit "0.24.0") 4 CompressZstd 20 true true.
#[export] Instance to_encoder : EncoderOk (wo_compression to) (wo_compression_level to) (wo_compression_threads to) := mark_EncoderOk _ _.
Definition meaning : bag_state := default bag_start (bag_run (all_entries bag) bag_start).
Definition schema : Schema := mkSchema 1 (lit "demo_msgs/Msg") (lit "ros1msg") (lit "uint8 data").
Definition channel (id : Z) (topic : string) : Channel :=
  mkChannel id (lit topic) (Some schema) (lit "ros1") [(KEY_MD5SUM, lit "abc123"); (KEY_TOPIC, lit topic)].
Example bag_messages : bg_messages meaning =
  [mkMessage (channel 0 "/demo0") 0 1000000002 1000000002 (lit "a"); mkMessage (channel 7 "/demo1") 1 1000000003 1000000003 (lit "b");
   mkMessage (channel 0 "/demo0") 2 5 5 (lit "c")].
Proof. vm_compute. reflexivity. Qed.
Lemma bag_means : bag_run (all_entries bag) bag_start = Some meaning.
Proof.
  assert (match bag_run (all_entries bag) bag_start with Some _ => true | None => false end = true) as Hs by (vm_compute; reflexivity).
  unfold meaning. by destruct (bag_run (all_entries bag) bag_start).
Qed.
Lemma cursor_unread (b : bytes) : zdrop (vc_pos (VecCursor_new b)) (vc_data (VecCursor_new b)) = b.
Proof. by apply zdrop_0. Qed.
Lemma parts_ok : Forall bag_part_ok bag.
Proof.
  repeat apply Forall_cons_2; [..|apply Forall_nil_2]; try (vm_compute; reflexivity); (split; [vm_compute; reflexivity|]; split; [vm_compute; reflexivity|]);
    (eexists; split; [vm_compute; reflexivity|]; split; [vm_compute; reflexivity|]).
  - right. left. split; [reflexivity|]. apply cursor_new_rest.
  - right. right. split; [reflexivity|]. eexists. split; [reflexivity|]. split; [apply cursor_new_rest|done].
  - left. by split.
Qed.
Lemma bag_calls_ok : Forall (call_ok to) (bg_calls meaning).
Proof.
  match goal with |- Forall _ ?l => let l' := eval vm_compute in l in replace l with l' by (vm_compute; reflexivity) end.
  repeat apply Forall_cons_2; [apply schema_ok_intro; vm_compute; reflexivity|vm_compute; reflexivity..|apply Forall_nil_2].
Qed.

Lemma bag_converts_witness : ∃ w' lg, convert_ros1_bag (bag_records bag) WriterLogExamples.empty (VecCursor_new (bag_bytes bag)) to = Ok w' ∧
  holds_log (file := cursor_file) to w' lg ∧ messages_of_log lg = bg_messages meaning.
Proof.
  apply (bag_converts (file := cursor_file) (rep := cursor_rest) to (bag_records bag) bag (VecCursor_new (bag_bytes bag)) meaning WriterLogExamples.empty parts_ok bag_means);
    [apply cursor_new_rest|done| |intros d z Hz; right; split; [discriminate|]; left; split; [reflexivity|exact Hz]|exact bag_calls_ok|vm_compute; discriminate|split; reflexivity].
  split; [|vm_compute; reflexivity|vm_compute; discriminate]. intros _ _. exists 20%Z. split; [reflexivity|lia].
Defined.

(** The sum of a definition is taken without its comments, so two definitions may have
    the same: the second keeps its own text under the identifier of the first, and writing
    a message on its connection panics. *)
Definition two_definitions : list bag_part :=
  [Single (connection 0 "/demo0" "abc123" "uint8 data"); Single (connection 1 "/demo1" "abc123" "uint8 data # a byte");
   Single (message 0 1 2 "a"); Single (message 1 1 3 "b")].
(** A connection that is defined again. *)
Definition two_topics : list bag_part :=
  [Single (connection 0 "/demo0" "abc123" "uint8 data"); Single (message 0 1 2 "a");
   Single (connection 0 "/demo1" "abc123" "uint8 data"); Single (message 0 1 3 "b")].
Example contradictions_panic : (λ b, convert_ros1_bag 20 WriterLogExamples.empty (VecCursor_new (bag_bytes b)) to) <$> [two_definitions; two_topics] = [Panic; Panic].
Proof. vm_compute. reflexivity. Qed.
Example not_a_bag : convert_ros1_bag 20 WriterLogExamples.empty (VecCursor_new (lit "#ROSBAG V1.2" ++ raw [10]%Z)) to =
  bail "invalid ROS1 bag magic (expected '#ROSBAG V2.0\n')" [].
Proof. vm_compute. reflexivity. Qed.
Example file_types : detect_file_type <$> [Some (lit "Bag"); None] =
  [Ok Ros1Bag; bail "unsupported input file extension '{}' (expected .bag for ROS1 bag input)" [Str (lit "<none>")]].
Proof. vm_compute. reflexivity. Qed.
End RosBagExamples.
