(* ===== verification/CatTheory.v ===== *)
(** What cat prints, on an output that works: the lines of the messages, in the order of
    their log times if the file is indexed, and in the order of the file if not. *)

From S2P Require Import Prelude Utf8 BTree Errors Bin Records Crc Io Codec RwBuf Decompressor LinearReader LinearReaderTheory LinearReaderClient LinearReaderFile Channels Read ReadTheory Conversation Streaming LinearReaderFlat MessageStream Summary SummaryReader Sorting IndexedReader IndexedReaderTheory ChunkWriter ChunkWriterTheory Writer WriterTheory WriterSpec Instances WriterLog WriterFile WriterSummary WriterRoundtrip WriterMessages Cli Sink SinkTheory SinkCost SpecClient SpecMessages Common Sort CopyTheory Cat.

(** ** Lines *)

(** The bytes in decimal, with spaces between them. *)
Definition preview_bytes (l : bytes) : bytes :=
  match l with [] => [] | b :: l => show_u64 (byte_to_Z b) ++ concat ((λ b, lit " " ++ show_u64 (byte_to_Z b)) <$> l) end.
Definition preview (data : bytes) : bytes :=
  lit "[" ++ preview_bytes (ztake MESSAGE_PREVIEW_LEN data) ++ lit "]" ++ if (MESSAGE_PREVIEW_LEN <? zlen data)%Z then lit "..." else [].
Definition message_line (m : Message) : bytes :=
  show_u64 (message_log_time m) ++ lit " " ++ channel_topic (message_channel m) ++ lit " [" ++ schema_name_of (message_channel m) ++ lit "] " ++
  preview (message_data m) ++ raw [10]%Z.
Definition message_lines (ms : list Message) : bytes := concat (message_line <$> ms).

Lemma message_lines_perm ms ms' : ms ≡ₚ ms' → zlen (message_lines ms) = zlen (message_lines ms').
Proof. unfold message_lines. induction 1; cbn; rewrite ?zlen_app; lia. Qed.

Section output.
Context `{WriteOk W rep cap} (is_broken_pipe : io_error → bool).

(** The method writes these bytes. *)
Definition writes (m : method W io_error ()) (b : bytes) : Prop :=
  ∀ w c, rep w c → (zlen (c ++ b) ≤ cap)%Z → ∃ w', m w = (Ok (), w') ∧ rep w' (c ++ b).
Lemma writes_ret : writes (mret ()) [].
Proof. intros w c Hw _. exists w. by rewrite app_nil_r. Qed.
Lemma writes_bind m1 m2 b1 b2 : writes m1 b1 → writes m2 b2 → writes (_ ← m1; m2) (b1 ++ b2).
Proof.
  intros H1' H2' w c Hw Hc. rewrite app_assoc in Hc. destruct (H1' w c Hw) as (w1 & E1 & Hw1); [rewrite zlen_app in Hc; pose proof (zlen_nonneg b2); lia|].
  destruct (H2' w1 _ Hw1 Hc) as (w2 & E2 & Hw2). exists w2. rewrite (bind_method_Ok _ _ _ _ _ E1), app_assoc. done.
Qed.
Lemma writes_fmt pieces : writes (write_fmt pieces) (concat pieces).
Proof. induction pieces as [|p pieces IH]; [apply writes_ret|]. apply writes_bind; [|done]. intros w c. apply write_all_ok. Qed.
Lemma writes_piece p : writes (write_fmt [p]) p.
Proof. pose proof (writes_fmt [p]) as Hp. cbn [concat] in Hp. by rewrite app_nil_r in Hp. Qed.

Lemma preview_spaced idx l : (0 < idx)%Z → writes (write_preview_bytes idx l) (concat ((λ b, lit " " ++ show_u64 (byte_to_Z b)) <$> l)).
Proof.
  revert idx. induction l as [|b l IH]; intros idx Hi; cbn [write_preview_bytes]; [apply writes_ret|]. rewrite (proj2 (Z.ltb_lt _ _)) by done.
  rewrite fmap_cons. cbn [concat]. rewrite <-app_assoc. apply writes_bind; [apply writes_piece|]. apply writes_bind; [|apply IH; lia].
  apply writes_piece.
Qed.
Lemma writes_preview data : writes (write_payload_preview data MESSAGE_PREVIEW_LEN) (preview data).
Proof.
  unfold write_payload_preview, preview. set (l := if (_ <? _)%Z then _ else data).
  assert (l = ztake MESSAGE_PREVIEW_LEN data) as -> by (unfold l; destruct (Z.ltb_spec MESSAGE_PREVIEW_LEN (zlen data)); [done|by rewrite ztake_all]).
  apply writes_bind; [apply writes_piece|]. apply writes_bind.
  - destruct (ztake _ data) as [|b k]; cbn [write_preview_bytes preview_bytes]; [apply writes_ret|]. change (0 <? 0)%Z with false.
    apply (writes_bind _ _ []); [apply writes_ret|]. apply writes_bind; [|by apply preview_spaced].
    apply writes_piece.
  - apply writes_bind; [apply writes_piece|]. destruct (_ <? _)%Z; [apply writes_piece|apply writes_ret].
Qed.

(** A line. *)
Lemma or_broken_writes m b rest w c : writes m b → rep w c → (zlen (c ++ b) ≤ cap)%Z →
  ∃ w', or_broken is_broken_pipe m rest w = rest w' ∧ rep w' (c ++ b).
Proof. intros Hm Hw Hc. destruct (Hm w c Hw Hc) as (w' & E & Hw'). exists w'. unfold or_broken. by rewrite E. Qed.
Lemma line_written channel log_time data sequence publish w c : let m := mkMessage channel sequence log_time publish data in
  rep w c → (zlen (c ++ message_line m) ≤ cap)%Z →
  ∃ w', write_message_fields is_broken_pipe log_time (channel_topic channel) (schema_name_of channel) data MESSAGE_PREVIEW_LEN w = (Ok false, w') ∧
    rep w' (c ++ message_line m).
Proof.
  intros m Hw Hc. unfold message_line, m in *. cbn [message_log_time message_channel message_data] in *.
  set (a := lit " " ++ channel_topic channel ++ lit " [" ++ schema_name_of channel ++ lit "] ").
  assert (∀ x y, show_u64 log_time ++ lit " " ++ channel_topic channel ++ lit " [" ++ schema_name_of channel ++ lit "] " ++ x ++ y = show_u64 log_time ++ a ++ x ++ y) as Ha
    by (intros x y; unfold a; by rewrite <-!app_assoc).
  rewrite Ha in *. rewrite !zlen_app in Hc. pose proof (zlen_nonneg (preview data)). pose proof (zlen_nonneg a). pose proof (zlen_nonneg (raw [10]%Z)).
  unfold write_message_fields.
  assert (writes (write_raw_time log_time) (show_u64 log_time)) as W1 by apply writes_piece.
  assert (writes (write_fmt [lit " "; channel_topic channel; lit " ["; schema_name_of channel; lit "] "]) a) as W2.
  { pose proof (writes_fmt [lit " "; channel_topic channel; lit " ["; schema_name_of channel; lit "] "]) as W2. cbn [concat] in W2. by rewrite app_nil_r in W2. }
  destruct (or_broken_writes _ _ (or_broken is_broken_pipe (write_fmt [lit " "; channel_topic channel; lit " ["; schema_name_of channel; lit "] "])
      (or_broken is_broken_pipe (write_payload_preview data MESSAGE_PREVIEW_LEN) (or_broken is_broken_pipe (write_fmt [raw [10]%Z]) (mret false)))) w c W1 Hw)
    as (w1 & -> & Hw1); [rewrite zlen_app; lia|].
  destruct (or_broken_writes _ a (or_broken is_broken_pipe (write_payload_preview data MESSAGE_PREVIEW_LEN) (or_broken is_broken_pipe (write_fmt [raw [10]%Z]) (mret false)))
      w1 _ W2 Hw1) as (w2 & -> & Hw2); [rewrite !zlen_app; lia|].
  destruct (or_broken_writes _ _ (or_broken is_broken_pipe (write_fmt [raw [10]%Z]) (mret false)) w2 _ (writes_preview data) Hw2) as (w3 & -> & Hw3); [rewrite !zlen_app; lia|].
  destruct (or_broken_writes _ (raw [10]%Z) (mret false) w3 _ (writes_piece _) Hw3) as (w4 & -> & Hw4); [rewrite !zlen_app; lia|].
  exists w4. split; [done|]. by rewrite <-!app_assoc in Hw4.
Qed.
End output.

(** ** The messages of an indexed file *)

Section cat.
Context `{Crc, ZstdLib, Lz4Lib, ChunkCodecs} `{WriteOk W rep cap} (is_broken_pipe : io_error → bool).

Lemma indexed_lines summary out w c : Forall (λ m : MessageHeader * bytes, is_Some (channels summary !! m_channel_id m.1)) out → rep w c →
  let ms := omap (M:=list) (message_on_channel (channels summary)) out in (zlen (c ++ message_lines ms) ≤ cap)%Z →
  ∃ w', each_while (λ m, write_indexed is_broken_pipe summary m.1 m.2) out (w, false) = (Ok (), (w', false)) ∧ rep w' (c ++ message_lines ms).
Proof.
  intros Hk. revert w c. induction Hk as [|[h d] out [ch Hch] Hk IH]; intros w c Hw ms Hc.
  { exists w. unfold ms, message_lines. cbn. by rewrite app_nil_r. }
  cbn [fst] in Hch. set (m := mkMessage ch (m_sequence h) (m_log_time h) (m_publish_time h) d).
  assert (ms = m :: omap (M:=list) (message_on_channel (channels summary)) out) as Hms by (unfold ms; cbn; unfold message_on_channel at 1; cbn [fst snd]; by rewrite Hch).
  rewrite Hms in *. change (message_lines (m :: ?l)) with (message_line m ++ message_lines l) in *. rewrite app_assoc in *. rewrite zlen_app in Hc.
  destruct (line_written is_broken_pipe ch (m_log_time h) d (m_sequence h) (m_publish_time h) w c Hw) as (w1 & E & Hw1).
  { fold m. pose proof (zlen_nonneg (message_lines (omap (M:=list) (message_on_channel (channels summary)) out))). lia. }
  fold m in Hw1. destruct (IH w1 _ Hw1) as (w2 & E2 & Hw2); [by rewrite zlen_app|]. exists w2. split; [|done].
  cbn [each_while fst snd]. unfold mbind, method_bind.
  assert (write_indexed is_broken_pipe summary h d (w, false) = (Ok true, (w1, false))) as -> by (unfold write_indexed; by rewrite Hch, E). exact E2.
Qed.

(** Cat prints every message of a file whose index tells the truth, in the order of
    their log times: what is written to the output are the lines of the messages, each
    once, with the topic and the name of the schema that the summary has for it. *)
Lemma cat_prints fuel input src recs s w c : Summary_read fuel input = Ok (Some s) → chunk_indexes s ≠ [] → indexed_input input src recs s →
  length (chunk_indexes s) + length (all_messages no_filter recs (chunk_indexes s)) < fuel →
  rep w c → (zlen (c ++ message_lines (summary_messages recs s)) ≤ cap)%Z →
  ∃ w' ms, cat_mcap is_broken_pipe fuel input w = (Ok false, w') ∧ rep w' (c ++ message_lines ms) ∧
    ms ≡ₚ summary_messages recs s ∧ StronglySorted (λ a b, message_log_time a ≤ message_log_time b)%Z ms.
Proof.
  intros Hs Hne Hin Hf Hw Hc. set (io := with_order LogTime IndexedReaderOptions_default).
  destruct (reader_exists _ _ _ _ io Hin eq_refl) as [r Hr]. destruct (indexed_run fuel _ _ _ _ io r Hin eq_refl Hr Hf) as (out & Hp & Hord & Hloop).
  set (ms := omap (M:=list) (message_on_channel (channels s)) out). assert (ms ≡ₚ summary_messages recs s) as Hpm by (unfold ms, summary_messages; by rewrite Hp).
  destruct (indexed_lines s out w c) as (w' & E & Hw'); [rewrite Hp; apply (ip_known _ _ _ _ Hin)|done| |].
  { fold ms. rewrite zlen_app, (message_lines_perm _ _ Hpm), <-zlen_app. done. }
  exists w', ms. split_and!; [|done..|].
  - unfold cat_mcap, cat_indexed. rewrite Hs. cbn [from_mcap map_err]. unfold mbind at 1, method_bind at 1. rewrite (bind_method_Ok (lift _) _ _ _ _ eq_refl).
    rewrite bool_decide_false by done. fold io. rewrite Hr. cbn [from_mcap map_err]. rewrite (bind_method_Ok (lift _) _ _ _ _ eq_refl).
    unfold cat_reader. rewrite Hloop, E. done.
  - eapply StronglySorted_omap; [|exact Hord]. intros [h d] [h' d'] x y. unfold message_on_channel. cbn [fst snd].
    rewrite !fmap_Some. by intros (x1 & _ & ->) (x2 & _ & ->).
Qed.

(** ** The messages of a file without an index *)

Lemma stream_lines fuel stream ms w c : messages fuel stream = (ms, Ok ()) → rep w c → (zlen (c ++ message_lines ms) ≤ cap)%Z →
  ∃ w', cat_stream is_broken_pipe fuel stream w = (Ok false, w') ∧ rep w' (c ++ message_lines ms).
Proof.
  revert stream ms w c. induction fuel as [|fuel IH]; intros stream ms w c; cbn [messages cat_stream]; [done|].
  destruct (MessageStream_next (S fuel) stream) as [[[m|]|e| |] stream']; try done.
  - destruct (messages fuel stream') as [ms' o] eqn:E. intros [= <- ->] Hw Hc. change (message_lines (m :: ms')) with (message_line m ++ message_lines ms') in *.
    rewrite app_assoc in *. rewrite zlen_app in Hc. pose proof (zlen_nonneg (message_lines ms')).
    destruct m as [ch sq lt pt d]. destruct (line_written is_broken_pipe ch lt d sq pt w c Hw) as (w1 & E1 & Hw1); [lia|].
    destruct (IH stream' ms' w1 _ E Hw1) as (w2 & E2 & Hw2); [by rewrite zlen_app|]. exists w2. split; [|done].
    cbn [from_mcap map_err]. rewrite (bind_method_Ok (lift _) _ _ _ _ eq_refl). cbn [message_log_time message_channel message_data].
    by rewrite (bind_method_Ok _ _ _ _ _ E1).
  - intros [= <-] Hw Hc. exists w. unfold message_lines. cbn. by rewrite app_nil_r.
Qed.
Lemma cat_prints_unindexed fuel input s ms w c : Summary_read fuel input = Ok s → (∀ s', s = Some s' → chunk_indexes s' = []) →
  messages fuel (RawMessageStream_new input) = (ms, Ok ()) → rep w c → (zlen (c ++ message_lines ms) ≤ cap)%Z →
  ∃ w', cat_mcap is_broken_pipe fuel input w = (Ok false, w') ∧ rep w' (c ++ message_lines ms).
Proof.
  intros Hs Hno Hms Hw Hc. destruct (stream_lines _ _ _ w c Hms Hw Hc) as (w' & E & Hw'). exists w'. split; [|done].
  unfold cat_mcap. rewrite (bind_method_Ok _ _ _ None w); [exact E|]. unfold cat_indexed. rewrite Hs. cbn [from_mcap map_err].
  rewrite (bind_method_Ok (lift _) _ _ _ _ eq_refl). destruct s as [s'|]; [|done]. by rewrite (Hno s' eq_refl), bool_decide_true.
Qed.
End cat.

(** ** Examples *)

Module CatExamples.
Import BitCrc MarkLib Instances MarkEncoder CopyExamples.
#[local] Existing Instance IndexedReaderExamples.copy_codecs.

Definition epipe (e : io_error) : bool := bool_decide (e = OtherIo 32).

Example printed : cat_mcap epipe fuel input (W := bytes) [] =
  (Ok false, lit "10 /pose [Pose] [99]" ++ raw [10]%Z ++ lit "30 /pose [Pose] [97]" ++ raw [10]%Z).
Proof. vm_compute. reflexivity. Qed.
Example preview_cut : preview (raw [0; 1; 2; 3; 4; 5; 6; 7; 8; 255; 10]%Z) = lit "[0 1 2 3 4 5 6 7 8 255]...".
Proof. vm_compute. reflexivity. Qed.

(** An output that takes some writes, and is closed then: it ends the command, but not
    with an error. *)
Record pipe := mkPipe { taken : bytes; left : nat }.
#[local] Instance pipe_Write : Write pipe := {|
  write b p := match left p with 0 => (Err (OtherIo 32), p) | S n => (Ok (zlen b), mkPipe (taken p ++ b) n) end;
  flush p := (Ok (), p);
|}.
Example closed_early : (λ n, let '(o, p) := cat_files epipe fuel [input; input] (mkPipe [] n) in (o, taken p)) <$> [1; 3] =
  [(Ok (), lit "10"); (Ok (), lit "10 /pose")].
Proof. vm_compute. reflexivity. Qed.
Example fails_otherwise : (cat_files (λ _, false) fuel [input] (mkPipe [] 0)).1 = Err (FromMcap (Io (OtherIo 32))).
Proof. vm_compute. reflexivity. Qed.

Lemma cat_prints_witness : ∃ w' ms, cat_mcap epipe fuel input (W := bytes) [] = (Ok false, w') ∧ w' = [] ++ message_lines ms ∧
  ms ≡ₚ summary_messages recs summary ∧ StronglySorted (λ a b, message_log_time a ≤ message_log_time b)%Z ms.
Proof.
  apply (cat_prints (rep := eq) epipe fuel input src recs summary []);
    [vm_compute; reflexivity|vm_compute; discriminate|exact input_indexed|apply Nat.ltb_lt; vm_compute; reflexivity|reflexivity|vm_compute; discriminate].
Defined.
End CatExamples.
