(* ===== verification/WriterCommands.v ===== *)
(** What the commands find in a file that the writer has finished: the chunks are where the
    summary says, hold what it says, and its channels are those of the messages.  So what
    is proved of a command for every file with a true index is true of the writer's files;
    for cat the two are put together. *)

From S2P Require Import Prelude Utf8 BTree Errors Bin Records Crc Io Codec RwBuf Decompressor LinearReader LinearReaderTheory LinearReaderClient LinearReaderFile Channels Read ReadTheory Conversation Streaming LinearReaderFlat MessageStream Summary SummaryReader SummaryTheory Sorting IndexedReader IndexedReaderTheory ChunkWriter ChunkWriterTheory Writer WriterTheory WriterSpec Instances WriterLog WriterFile WriterSummary WriterRoundtrip WriterIndexed WriterMessages WriterSummaryRead Cli Sink SinkTheory SinkCost SpecClient SpecMessages Common Sort CopyTheory Cat CatTheory.

(** ** The channels of a summary are those of the log *)

Section channels.
Context `{Crc, HashOrder, !HashOrderOk}.

Definition schema_content (s : Schema) : SchemaContent := mkSchemaContent (schema_name s) (schema_encoding s) (schema_data s).
(** The summary of a log has the schemas and the channels of the log. *)
Record summary_channels_of (lg : list record) (sum : Summary) : Prop := {
  sc_schemas : all_schemas sum ≡ₚ List.filter is_schema lg;
  sc_channels : all_channels sum ≡ₚ List.filter is_channel lg;
  sc_linked : linked sum;
}.

Lemma summary_schemas_in lg sum id : scoped lg → summary_channels_of lg sum → schemas sum !! id = schema_in lg id.
Proof.
  intros Hs [Hsch _ Hl]. unfold schema_in.
  assert (assoc id (log_schemas lg) = schema_content <$> schemas sum !! id) as ->.
  { rewrite <-assoc_hash_iter. apply assoc_perm; [by apply scoped_schemas_NoDup|]. unfold log_schemas.
    rewrite <-(omap_declared_filter is_schema) by by intros []. rewrite <-Hsch. unfold all_schemas.
    clear. induction (hash_iter (schemas sum)) as [|[i s] l IH]; [done|]. cbn. by rewrite IH. }
  destruct (schemas sum !! id) as [s|] eqn:E; [|done]. cbn. apply (ld_schema _ Hl) in E as <-. by destruct s.
Qed.
Lemma summary_channels_in lg sum id : scoped lg → schemas_nonzero lg → summary_channels_of lg sum → channels sum !! id = channel_in lg id.
Proof.
  intros Hs Hz Hsum. pose proof Hsum as [_ Hch Hl]. unfold channel_in.
  rewrite (channels_in_log lg sum) by done.
  destruct (channels sum !! id) as [c|] eqn:E; [|done]. cbn. f_equal.
  pose proof (ld_channel _ Hl _ _ E) as <-. rewrite <-(summary_schemas_in lg sum) by done.
  destruct c as [i topic [s|] enc md]; [|done]. cbn. unfold channel_schema_id. cbn.
  pose proof (ld_link _ Hl _ _ s E eq_refl) as Hlk. rewrite Hlk.
  destruct (Z.eqb_spec (schema_id s) 0) as [Hsid|]; [|done]. rewrite Hsid, (summary_schemas_in lg sum 0) in Hlk by done. unfold schema_in in Hlk.
  apply fmap_Some in Hlk as (x & Hx & _). destruct Hz. apply assoc_elem in Hx; [|by apply scoped_schemas_NoDup]. by apply (list_elem_of_fmap_2 fst) in Hx.
Qed.

Lemma channel_in_declared lg id c : scoped lg → channel_in lg id = Some c → ∃ x, RChannel x ∈ lg ∧ c_id x = id ∧ channel_id c = id.
Proof.
  intros Hs (x & Hx & ->)%fmap_Some. apply assoc_elem in Hx; [|by apply scoped_channels_NoDup].
  apply list_elem_of_omap in Hx as (r & Hr & Hd). destruct r; try done. injection Hd as <- _. by eexists.
Qed.
Lemma schema_in_declared lg id s : scoped lg → schema_in lg id = Some s → ∃ h d, RSchema h d ∈ lg ∧ sh_id h = id.
Proof.
  intros Hs (x & Hx & _)%fmap_Some. apply assoc_elem in Hx; [|by apply scoped_schemas_NoDup].
  apply list_elem_of_omap in Hx as (r & Hr & Hd). destruct r; try done. injection Hd as <- _. by do 2 eexists.
Qed.

Lemma channel_id_range x : record_wf (RChannel x) = true → (0 ≤ c_id x ≤ u16_max)%Z.
Proof.
  destruct x as [i s t e m]. unfold record_wf. cbn [record_body]. cbn match. intros [Hw _]%andb_true_iff.
  change (c_wf Channel_codec (mkChannelRecord i s t e m)) with (c_wf u16 i && c_wf u16 s && c_wf rstr t && c_wf rstr e && c_wf string_map m) in Hw.
  rewrite !andb_true_iff in Hw. apply (u16_range i), Hw.
Qed.
Lemma schema_header_range h d : record_wf (RSchema h d) = true → (0 ≤ sh_id h ≤ u16_max)%Z.
Proof.
  destruct h as [i n e]. unfold record_wf. cbn [record_body]. cbn match. intros [[Hw _]%andb_true_iff _]%andb_true_iff.
  change (c_wf SchemaHeader_codec (mkSchemaHeader i n e)) with (c_wf u16 i && c_wf rstr n && c_wf rstr e) in Hw.
  rewrite !andb_true_iff in Hw. apply (u16_range i), Hw.
Qed.

Lemma summary_consistent lg sum : scoped lg → schemas_nonzero lg → Forall (λ r, record_wf r = true) lg → summary_channels_of lg sum → consistent (channels sum).
Proof.
  intros Hs Hz Hwf Hsum. pose proof (sc_linked _ _ Hsum) as Hl. rewrite Forall_forall in Hwf. split.
  - intros i c Hc. split; [by apply (ld_channel _ Hl)|]. rewrite (summary_channels_in lg) in Hc by done.
    apply channel_in_declared in Hc as (x & Hx & <- & _); [|done]. by apply channel_id_range, Hwf.
  - intros i c s Hc Hcs. pose proof (ld_link _ Hl _ _ _ Hc Hcs) as Hlk. rewrite (summary_schemas_in lg) in Hlk by done.
    destruct (schema_in_declared _ _ _ Hs Hlk) as (h & d & Hin & Hid).
    assert (schema_id s ≠ 0%Z) as Hne.
    { intros Hsid. destruct Hz. rewrite <-Hsid, <-Hid. apply list_elem_of_fmap. exists (sh_id h, mkSchemaContent (sh_name h) (sh_encoding h) d). split; [done|].
      apply list_elem_of_omap. by exists (RSchema h d). }
    pose proof (schema_header_range _ _ (Hwf _ Hin)). lia.
  - intros i j c d s t Hc Hd Hs1 Ht E. pose proof (ld_link _ Hl _ _ _ Hc Hs1) as H1'. pose proof (ld_link _ Hl _ _ _ Hd Ht) as H2'. congruence.
Qed.

(** Every message is on a channel that is declared. *)
Lemma message_channel_in lg h d : scoped lg → RMessage h d ∈ lg → is_Some (channel_in lg (m_channel_id h)).
Proof.
  intros Hs (l & k & ->)%list_elem_of_split. pose proof (scoped_admissible _ _ _ Hs) as Ha. cbn in Ha. apply assoc_in in Ha as [x Hx].
  unfold channel_in. unfold log_channels in *. rewrite omap_app, assoc_app, Hx. by eexists.
Qed.
Lemma log_messages_known lg sum : scoped lg → schemas_nonzero lg → summary_channels_of lg sum →
  Forall (λ m : MessageHeader * bytes, is_Some (channels sum !! m_channel_id m.1)) (log_messages no_filter lg) ∧
  omap (M:=list) (message_on_channel (channels sum)) (log_messages no_filter lg) = messages_of_log lg.
Proof.
  intros Hs Hz Hsum. split.
  - apply Forall_forall. intros [h d] (r & Hr & Ha)%list_elem_of_omap. destruct r; try done. cbn [admitted] in Ha. rewrite passes_no_filter in Ha. injection Ha as -> ->.
    cbn. rewrite (summary_channels_in lg) by done. by eapply message_channel_in.
  - unfold messages_of_log, log_messages. generalize lg at 1 3. intros k. induction k as [|r k IH]; [done|].
    destruct r; cbn [omap list_omap admitted message_in_log]; try exact IH. rewrite passes_no_filter. cbn [omap list_omap]. rewrite IH.
    unfold message_on_channel. cbn [fst snd]. by rewrite (summary_channels_in lg).
Qed.
End channels.

(** ** The file as an input *)

(** The data of the chunks, found by their offsets. *)
Fixpoint source_of (cs : list ChunkIndex) (c : bytes) (off : Z) : bytes :=
  match cs with
  | [] => []
  | i :: cs => if (offset_of i =? off)%Z then ztake (ci_compressed_size i) (zdrop off c) else source_of cs c off
  end.

Section input.
Context `{Crc, !CrcLaws, HashOrder, !HashOrderOk, ZstdEncoderLib, Lz4EncoderLib, ChunkCodecs} `{FileOk W file}.
Context `{!BiMap ChannelContent Z, !BiMap SchemaContent Z, !BiMapOk ChannelContent Z, !BiMapOk SchemaContent Z}.
Context `{ZstdLib, Lz4Lib, !ZstdLibOk, !Lz4LibOk, !Frames}.
Context (o : WriteOptions).
Context `{!EncoderOk (wo_compression o) (wo_compression_level o) (wo_compression_threads o)}.

Lemma source_serves sum c : NoDup (offset_of <$> chunk_indexes sum) → serves (source_of (chunk_indexes sum) c) c sum.
Proof.
  unfold serves. induction (chunk_indexes sum) as [|i cs IH]; [by intros _ ? ?%not_elem_of_nil|]. rewrite fmap_cons, NoDup_cons. intros [Hi Hn] x Hx. cbn [source_of].
  destruct (Z.eqb_spec (offset_of i) (offset_of x)) as [E|Hne].
  - apply elem_of_cons in Hx as [->|Hx]; [done|]. destruct Hi. rewrite E. by apply list_elem_of_fmap_2.
  - apply elem_of_cons in Hx as [->|Hx]; [done|]. by apply IH.
Qed.

(** The options that leave nothing out of the summary that is needed to find messages. *)
Definition indexes_messages : Prop :=
  wo_use_chunks o = true ∧ wo_emit_chunk_indexes o = true ∧ wo_repeat_channels o = true ∧ wo_repeat_schemas o = true ∧ wo_emit_statistics o = true.

Lemma told_indexed_input sum c recs lg : told_truly sum c recs lg → (zlen c ≤ usize_max)%Z →
  scoped lg → schemas_nonzero lg → Forall (λ r, record_wf r = true) lg → summary_channels_of lg sum →
  indexed_input c (source_of (chunk_indexes sum) c) recs sum ∧ summary_messages recs sum = messages_of_log lg ∧
  length (all_messages no_filter recs (chunk_indexes sum)) = length (log_messages no_filter lg).
Proof.
  intros [Hrd Hroom Hnd Hsv Hho Hms _] Hc Hs Hz Hwf Hsum. destruct (log_messages_known lg sum Hs Hz Hsum) as [Hk Hm]. pose proof (source_serves sum c Hnd) as Hserves.
  unfold summary_messages. rewrite Hms. split_and!; [|done..]. split; try done.
  - apply Forall_forall. intros i Hi. rewrite Forall_forall in Hroom. specialize (Hroom i Hi). unfold chunk_at, checked_slice.
    rewrite !(proj2 (Z.ltb_ge _ _)) by lia. by rewrite (Hserves i Hi).
  - by apply Hsv.
  - by eapply summary_consistent.
  - by rewrite Hms.
Qed.

(** What any run of the writer leaves, for the commands. *)
Lemma written_input w cs : file w [] 0 → options_ok o → Forall (call_ok o) cs → (run_size o cs ≤ 2 ^ 59)%Z → Panic ∉ (spec_run o cs).1 →
  decompresses o → streams o → indexes_messages → schemas_nonzero (sp_log (spec_run o cs).2) →
  let lg := sp_log (spec_run o cs).2 in
  ∃ s s' sum w' c n src recs sum', writer_run o w cs = Ok ((spec_run o cs).1, s) ∧ wr_finish s = (Ok sum, s') ∧ wr_into_inner s' = Ok w' ∧ over file [] w' c ∧
    (∀ fuel, n ≤ fuel → Summary_read fuel c = Ok (Some sum') ∧ messages fuel (RawMessageStream_new c) = (messages_of_log lg, Ok ()) ∧
       length (chunk_indexes sum') + length (all_messages no_filter recs (chunk_indexes sum')) < fuel) ∧
    indexed_input c src recs sum' ∧ summary_messages recs sum' = messages_of_log lg.
Proof.
  intros Hw Ho Hcs Hsz Hp Hd Hst (Hu & Hei & Hrc & Hrs & Hes) Hz lg.
  destruct (run_finishes o w cs Hw Ho Hcs Hsz Hp) as (s & s' & sum & stats & l & w' & E & Ef & Ei & Hfile & Hlen & Hsum & Hl & Hlog & Hls & Hrecs).
  pose proof (perform_all_keeps o cs Hcs (spec_new o) (spec_new_ok o)) as Hok. fold (spec_run o cs) in Hok. cbv zeta in Hfile, Hlen.
  set (f := final_file o l sum stats) in *. fold lg in Hlog, Hz.
  assert (Forall (λ r, record_wf r = true) lg) as Hwf.
  { rewrite Hlog. apply Forall_concat, Forall_fmap. eapply Forall_impl; [exact Hl|]. intros i. apply (item_log_wf o). }
  assert (zlen (records_data lg) ≤ usize_max)%Z as Hld by (unfold usize_max, u64_max, log_size, lg in *; lia).
  assert (∃ rest, file_bytes f = contents o l ++ rest) as [rest Hb] by (pose proof (final_file_bytes o l sum stats) as Hb; cbv zeta in Hb; rewrite <-app_assoc in Hb; eauto).
  destruct (file_told_truly o (kept o sum) l rest lg) as [recs Htrue]; try done.
  { cbn. rewrite Hei. apply (so_chunks _ _ _ _ _ Hsum). }
  { rewrite <-Hb. unfold u64_max. lia. }
  rewrite <-Hb in Htrue.
  assert (summary_channels_of lg (kept o sum)) as Hsc.
  { destruct Hsum as [_ _ Hss Hcc [] _ _ _]. split; unfold all_schemas, all_channels, kept in *; cbn; rewrite ?Hrc, ?Hrs; done. }
  destruct (told_indexed_input _ _ _ _ Htrue ltac:(unfold usize_max, u64_max; lia) (lo_scoped _ Hok) Hz Hwf Hsc) as (Hin & Hms & Hlm).
  eexists s, s', sum, w', (file_bytes f), _, _, recs, (kept o sum). split_and!; [done..| |exact Hin|exact Hms].
  intros fuel Hf. split_and!.
  - destruct (final_summary o l (spec_run o cs).2 sum stats fuel Hl Hsum Hlen Hrecs Hz (λ _, Hrs)) as (r & Er & Hr); [|fold f in Er].
    2:{ rewrite Er, (reads_kept_statistics o sum r Hr); [done|]. cbn. rewrite Hes, (so_stats _ _ _ _ _ Hsum). by eexists. }
    etrans; [|exact Hf]. apply (Nat.le_max_l _ (S (length (final_records o l sum stats) + (length (chunk_indexes (kept o sum)) + length (log_messages no_filter lg))))).
  - apply (final_messages o l (spec_run o cs).2 sum stats); try done. eapply Nat.lt_le_trans; [|exact Hf]. lia.
  - rewrite Hlm. eapply Nat.lt_le_trans; [|exact Hf]. lia.
Qed.
End input.

Section properties.
Context `{Crc, !CrcLaws, HashOrder, !HashOrderOk, ZstdEncoderLib, Lz4EncoderLib, ChunkCodecs} `{FileOk W file}.
Context `{!BiMap ChannelContent Z, !BiMap SchemaContent Z, !BiMapOk ChannelContent Z, !BiMapOk SchemaContent Z}.
Context `{ZstdLib, Lz4Lib, !ZstdLibOk, !Lz4LibOk, !Frames}.
Context (o : WriteOptions).
Context `{!EncoderOk (wo_compression o) (wo_compression_level o) (wo_compression_threads o)}.
Context `{WriteOk Out rep cap} (is_broken_pipe : io_error → bool).

(** C11: what is written is printed, if the writer makes chunks and leaves out of the
    summary neither their indexes nor the channels, the schemas or the statistics (as with
    the default options): whatever calls a client of the writer makes, if none panics and
    none writes a schema under the identifier 0, cat prints of the file that [finish]
    leaves exactly the messages that were written: a line for each, with the topic and the
    name of the schema under which it was written, in the order of their log times,
    whether there are none, few or many chunks, compressed or not.  The decompressors of
    the readers undo what the encoder did ([decompresses], [streams]). *)
Theorem written_is_printed w cs : file w [] 0 → options_ok o → Forall (call_ok o) cs → (run_size o cs ≤ 2 ^ 59)%Z → Panic ∉ (spec_run o cs).1 →
  decompresses o → streams o → indexes_messages o → schemas_nonzero (sp_log (spec_run o cs).2) →
  let written := messages_of_log (sp_log (spec_run o cs).2) in
  ∃ s s' sum w' c n, writer_run o w cs = Ok ((spec_run o cs).1, s) ∧ wr_finish s = (Ok sum, s') ∧ wr_into_inner s' = Ok w' ∧ over file [] w' c ∧
    ∀ fuel out before, n ≤ fuel → rep out before → (zlen (before ++ message_lines written) ≤ cap)%Z →
      ∃ out' ms, cat_mcap is_broken_pipe fuel c out = (Ok false, out') ∧ rep out' (before ++ message_lines ms) ∧
        ms ≡ₚ written ∧ StronglySorted (λ a b, message_log_time a ≤ message_log_time b)%Z ms.
Proof.
  intros Hw Ho Hcs Hsz Hp Hd Hst Hidx Hz written.
  destruct (written_input o w cs Hw Ho Hcs Hsz Hp Hd Hst Hidx Hz) as (s & s' & sum & w' & c & n & src & recs & sum' & E & Ef & Ei & Hfile & Hread & Hin & Hms).
  fold written in Hms. exists s, s', sum, w', c, n. split_and!; [done..|]. intros fuel out before Hf Hout Hcap. destruct (Hread fuel Hf) as (Hsum & Hstream & Hlen).
  destruct (decide (chunk_indexes sum' = [])) as [Hno|Hne].
  - assert (written = []) as Hnone by (rewrite <-Hms; unfold summary_messages; by rewrite Hno).
    change (messages fuel (RawMessageStream_new c) = (written, Ok ())) in Hstream. rewrite Hnone in Hcap, Hstream |- *.
    destruct (cat_prints_unindexed is_broken_pipe fuel c _ _ out before Hsum ltac:(by intros ? [= <-]) Hstream Hout Hcap) as (out' & Ec & Hout').
    exists out', []. split_and!; [done|done|done|constructor].
  - rewrite <-Hms in Hcap |- *. by apply (cat_prints is_broken_pipe fuel c src recs sum').
Qed.
End properties.

(** ** Examples *)

Module WriterCommandsExamples.
Import BitCrc MarkLib Instances MarkEncoder WriterLogExamples WriterRoundtripExamples CatExamples.
#[local] Existing Instance IndexedReaderExamples.copy_codecs.

Lemma written_is_printed_witness : let written := messages_of_log (sp_log (spec_run opts calls).2) in
  ∃ s s' sum w' c n, writer_run opts empty calls = Ok (outcomes, s) ∧ wr_finish s = (Ok sum, s') ∧ wr_into_inner s' = Ok w' ∧ over cursor_file [] w' c ∧
  ∀ fuel out before, n ≤ fuel → out = before → (zlen (before ++ message_lines written) ≤ u64_max)%Z →
    ∃ out' ms, cat_mcap (W := bytes) epipe fuel c out = (Ok false, out') ∧ out' = before ++ message_lines ms ∧
      ms ≡ₚ written ∧ StronglySorted (λ a b, message_log_time a ≤ message_log_time b)%Z ms.
Proof.
  rewrite <-outcomes_ok.
  apply (written_is_printed (file := cursor_file) (rep := eq) opts epipe empty calls);
    [reflexivity|exact opts_ok|exact calls_ok|vm_compute; discriminate|exact no_panic| | |split_and!; reflexivity|].
  - intros d z Hz _. change (z = d) in Hz. subst z. unfold decompress_chunk. cbn. by rewrite Z.eqb_refl.
  - intros d z Hz. left. by split.
  - apply (bool_decide_unpack _). vm_compute. exact I.
Defined.
End WriterCommandsExamples.
