(* ===== verification/SortTheory.v ===== *)
(** What sort leaves: the file it writes reads back as the messages of the input in the
    order of their log times, and has its attachments and its metadata. *)

From S2P Require Import Prelude Utf8 BTree Errors Bin Records Crc Io Codec RwBuf Decompressor LinearReader LinearReaderTheory LinearReaderClient LinearReaderFile Channels Read ReadTheory Conversation Streaming LinearReaderFlat MessageStream Summary SummaryReader Sorting IndexedReader IndexedReaderTheory ChunkWriter ChunkWriterTheory Writer WriterTheory WriterSpec Instances WriterLog WriterFile WriterSummary WriterRoundtrip WriterMessages Cli Sink SinkTheory SinkCost SpecClient SpecMessages Common Sort CopyTheory.

(** ** The command *)

Section command.
Context `{Crc, !CrcLaws, HashOrder, !HashOrderOk, ZstdEncoderLib, Lz4EncoderLib} `{FileOk W file}.
Context `{!BiMap ChannelContent Z, !BiMap SchemaContent Z, !BiMapOk ChannelContent Z, !BiMapOk SchemaContent Z}.
Context `{ZstdLib, Lz4Lib, !ZstdLibOk, !Lz4LibOk, !Frames, ChunkCodecs}.

Definition by_log_time : IndexedReaderOptions := with_order LogTime IndexedReaderOptions_default.
Context (version : rstring) (cpus : Z) (header : option Header) (opts : SortOptions).
Abbreviation o := (sort_write_options version cpus header opts).
Context `{!EncoderOk (wo_compression o) (wo_compression_level o) (wo_compression_threads o)}.
#[local] Hint Extern 0 (Sink spec_state) => exact (spec_sink o) : typeclass_instances.

Lemma copy_sorted_follows {St} fuel input summary : chunks_bounded o → follows (St:=St) o (copy_sorted fuel input summary) (copy_sorted fuel input summary).
Proof.
  intros Hb. destruct summary as [summary|]; cbn [copy_sorted].
  - apply follows_bind; [|intros []; apply follows_bind; [|intros []]].
    + apply follows_each; [|apply follows_ret]. intros index. apply follows_bind; [apply follows_lift|]. intros a.
      apply follows_in_context. by apply follows_call_unit.
    + apply follows_each; [|apply follows_ret]. intros index. apply follows_bind; [apply follows_lift|]. intros m.
      apply follows_in_context. by apply follows_call_unit.
    + destruct (chunk_indexes summary); [apply follows_ret|]. apply follows_bind; [apply follows_lift|]. intros reader.
      apply follows_indexed_loop. intros h d. apply follows_bind; [|intros []; apply follows_ret].
      apply follows_bind; [apply follows_lift|]. intros channel. by apply follows_call_unit.
  - apply follows_for_each. intros []; try apply follows_ret; by apply follows_call_unit.
Qed.

Lemma sorted_spec fuel input src recs s atts mds : copyable o input src recs s atts mds →
  length (chunk_indexes s) + length (all_messages no_filter recs (chunk_indexes s)) < fuel →
  ∃ st ms, copy_sorted fuel input (Some s) (mkJob (spec_new o, []) ()) = (Ok (), mkJob (st, copy_calls atts mds ms) ()) ∧
    ms ≡ₚ summary_messages recs s ∧ StronglySorted (λ a b, message_log_time a ≤ message_log_time b)%Z ms ∧
    copied (channels s) st ((attachment_in o <$> atts) ++ (RMetadata <$> mds)) ms.
Proof.
  intros [Hne Hin Ha Hm Hcalls [Hfa Hfm] Hroom] Hfuel. destruct (reader_exists _ _ _ _ by_log_time Hin eq_refl) as [r Hr].
  destruct (indexed_run fuel _ _ _ _ by_log_time r Hin eq_refl Hr Hfuel) as (out & Hp & Hord & Hloop). pose proof (ip_channels _ _ _ _ Hin) as Hch.
  set (ms := omap (M:=list) (message_on_channel (channels s)) out).
  assert (ms ≡ₚ summary_messages recs s) as Hpm by (unfold ms, summary_messages; by rewrite Hp).
  destruct (copied_attachments o (channels s) input s atts (spec_new o) [] [] () Ha (copied_new o _) Hfa) as (st1 & E1 & Hc1).
  destruct (copied_all_metadata o (channels s) input s mds st1 _ [] ([] ++ (attached <$> atts)) () Hm Hc1) as (st2 & E2 & Hc2).
  { assert (logged is_metadata_record (attachment_in o <$> atts) = 0%Z) as ->; [|done]. unfold logged. clear. by induction atts. }
  destruct (copied_all_messages o (channels s) Hch s out st2 _ [] (([] ++ (attached <$> atts)) ++ (WriteMetadata <$> mds)) () eq_refl Hc2) as (st3 & E3 & Hc3).
  { rewrite Hp. apply (ip_known _ _ _ _ Hin). }
  { fold ms. unfold run_size in Hroom. unfold copy_calls in Hroom. rewrite !calls_cost_app in Hroom. pose proof (messages_cost o (summary_messages recs s)).
    pose proof (calls_cost_pos o (attached <$> atts)). pose proof (calls_cost_pos o (WriteMetadata <$> mds)). zlen_facts.
    assert (zlen ms = zlen (summary_messages recs s)) as -> by (unfold zlen; by rewrite Hpm). change (zlen (@nil Message)) with 0%Z. unfold u64_max. lia. }
  exists st3, ms. split_and!; [|done| |exact Hc3].
  - unfold copy_sorted. rewrite (bind_method_Ok _ _ _ _ _ E1), (bind_method_Ok _ _ _ _ _ E2).
    destruct (chunk_indexes s) as [|c cs] eqn:Hci; [done|]. unfold copy_messages_in_log_time_order. fold by_log_time. rewrite Hr. cbn [from_mcap map_err].
    rewrite (bind_method_Ok (lift _) _ _ r _ eq_refl).
    rewrite Hloop, (each_while_true (λ m, write_indexed_message s m.1 m.2)).
    unfold copy_calls. by rewrite E3, <-app_assoc.
  - eapply StronglySorted_omap; [|exact Hord]. intros [h d] [h' d'] x y. unfold message_on_channel. cbn [fst snd].
    rewrite !fmap_Some. by intros (c & _ & ->) (c' & _ & ->).
Qed.

(** C8: sort sorts: from a file whose index tells the truth, it writes a whole file that
    reads back as the messages of the input in the order of their log times - each once,
    on the same channel and schema, under the same identifiers - and that has the
    attachments and then the metadata of the input, in the order they were in. *)
Theorem sort_sorts fuel input src recs s atts mds w : Summary_read fuel input = Ok (Some s) → read_header input = Ok header →
  copyable o input src recs s atts mds → options_ok o → file w [] 0 → streams o →
  length (chunk_indexes s) + length (all_messages no_filter recs (chunk_indexes s)) < fuel →
  ∃ w' lg, sort_run version cpus fuel input w opts = Ok w' ∧ holds_log o w' lg ∧
    messages_of_log lg ≡ₚ summary_messages recs s ∧
    StronglySorted (λ a b, message_log_time a ≤ message_log_time b)%Z (messages_of_log lg) ∧
    List.filter is_extra lg = (attachment_in o <$> atts) ++ (RMetadata <$> mds).
Proof.
  intros Hsum Hh Hsb Hopts Hw Hst Hfuel. destruct (sorted_spec fuel input src recs s atts mds Hsb Hfuel) as (st & ms & E & Hp & Hord & Hcp).
  assert (calls_cost o (copy_calls atts mds ms) = calls_cost o (copy_calls atts mds (summary_messages recs s))) as Hcost.
  { apply calls_cost_perm. unfold copy_calls. by rewrite Hp. }
  destruct (job_writes o _ _ w () _ st _ () (copy_sorted_follows fuel input (Some s) (oo_chunks _ Hopts)) E I Hw Hopts) as
    (wr & wr' & Ew & E1 & Hok & sum & wr'' & w' & Ef & Ei & Hholds).
  { pose proof (cy_calls _ _ _ _ _ _ _ Hsb) as Hcalls. unfold copy_calls in *. by rewrite Hp. }
  { pose proof (cy_room _ _ _ _ _ _ _ Hsb) as Hroom. unfold run_size in *. by rewrite Hcost. }
  exists w', (sp_log st). split_and!.
  - unfold sort_run, validate_sort_input. rewrite Hsum. pose proof (cy_chunks _ _ _ _ _ _ _ Hsb) as Hne.
    cbn [from_mcap map_err with_context mbind outcome_bind]. destruct (chunk_indexes s) as [|c cs]; [done|]. cbn [mret outcome_ret mbind outcome_bind].
    unfold sort_to_writer. rewrite Hh. cbn [mbind outcome_bind]. rewrite Ew. cbn [from_mcap map_err with_context mbind outcome_bind].
    unfold run. rewrite (bind_method_Ok _ _ _ _ _ E1). unfold in_context, on_writer. cbn [job_writer job_state]. rewrite Ef.
    cbn [fmap outcome_fmap with_context from_mcap map_err mbind outcome_bind job_writer job_state]. by rewrite Ei.
  - apply Hholds; [done|]. by eapply uses_nonzero; [apply (ip_channels _ _ _ _ (cy_input _ _ _ _ _ _ _ Hsb))|apply Hcp].
  - by rewrite (cp_messages _ _ _ _ Hcp).
  - by rewrite (cp_messages _ _ _ _ Hcp).
  - apply (cp_extra _ _ _ _ Hcp).
Qed.
End command.

(** ** Examples *)

Module SortExamples.
Import BitCrc MarkLib Instances MarkEncoder CopyExamples.
#[local] Existing Instance IndexedReaderExamples.copy_codecs.

Definition opts : SortOptions := build_sort_options CompressZstd 20 true true.
Definition to : WriteOptions := sort_write_options (lit "0.24.0") 4 header opts.
#[export] Instance to_encoder : EncoderOk (wo_compression to) (wo_compression_level to) (wo_compression_threads to) := mark_EncoderOk _ _.
Lemma sort_options_ok : options_ok to.
Proof. split; [|vm_compute; reflexivity|vm_compute; discriminate]. intros _ _. exists 20%Z. split; [reflexivity|lia]. Qed.
Lemma sort_streams : streams to.
Proof. intros d z Hz. right. split; [discriminate|]. left. split; [reflexivity|exact Hz]. Qed.

Lemma input_copyable : copyable to input src recs summary atts mds.
Proof.
  split.
  - vm_compute. discriminate.
  - exact input_indexed.
  - apply Forall2_ok. vm_compute. reflexivity.
  - apply Forall2_ok. vm_compute. reflexivity.
  - list_out; vm_compute; reflexivity.
  - split; vm_compute; discriminate.
  - vm_compute. discriminate.
Qed.

Lemma sort_sorts_witness : ∃ w' lg, sort_run (lit "0.24.0") 4 fuel input WriterLogExamples.empty opts = Ok w' ∧ holds_log (file := cursor_file) to w' lg ∧
  messages_of_log lg ≡ₚ summary_messages recs summary ∧ StronglySorted (λ a b, message_log_time a ≤ message_log_time b)%Z (messages_of_log lg) ∧
  List.filter is_extra lg = (attachment_in to <$> atts) ++ (RMetadata <$> mds).
Proof.
  apply (sort_sorts (file := cursor_file) (lit "0.24.0") 4 header opts fuel input src recs summary atts mds WriterLogExamples.empty);
    [vm_compute; reflexivity|vm_compute; reflexivity|exact input_copyable|exact sort_options_ok|split; reflexivity|exact sort_streams|apply Nat.ltb_lt; vm_compute; reflexivity].
Defined.
Example messages_unsorted : message_log_time <$> summary_messages recs summary = [30%Z; 10%Z].
Proof. vm_compute. reflexivity. Qed.
End SortExamples.
