(* ===== verification/Filter.v ===== *)
(** The filter command (filter.rs): the messages of some topics and times are written to
    another file.  The commands compress and decompress are filters that keep everything.

    An indexed input is read in the order of log times through an indexed reader, any
    other record by record.  The loop over an indexed reader and [checked_slice], of which
    filter.rs has a copy of its own, are those of Sort.v. *)

From S2P Require Import Prelude Utf8 BTree Errors Bin Records Crc Io Codec RwBuf Decompressor LinearReader Channels Read Summary SummaryReader Sorting IndexedReader ChunkWriter Writer WriterSpec Cli Sink Common Sort.

(** ** Other crates *)

(** [Regex]: a pattern is compiled, or there is a message that says what is wrong with it. *)
Class RegexLib := {
  Regex : Type;
  regex_new : rstring → rstring + Regex;
  is_match : Regex → rstring → bool;
}.
(** [chrono::DateTime::parse_from_rfc3339]: the seconds since the epoch and the
    nanoseconds of a date, or a message. *)
Class Chrono := parse_from_rfc3339 : rstring → rstring + Z * Z.

(** ** Options *)

Section options.
Context `{RegexLib, Chrono}.

Record FilterOptions := mkFilterOptions {
  fo_output : option rstring;
  fo_include_topics : list Regex;
  fo_exclude_topics : list Regex;
  fo_last_per_channel_topics : list Regex;
  fo_start : Z;
  fo_end : Z;
  fo_include_metadata : bool;
  fo_include_attachments : bool;
  fo_compression : option Compression;
  fo_chunk_size : Z;
  fo_use_chunks : bool;
}.

Record TranscodeCommandOptions := mkTranscodeCommandOptions {
  tc_file : option rstring;
  tc_output : option rstring;
  tc_include_topic_regex : list rstring;
  tc_exclude_topic_regex : list rstring;
  tc_last_per_channel_topic_regex : list rstring;
  tc_start : option rstring;
  tc_start_secs : Z;
  tc_start_nsecs : Z;
  tc_end : option rstring;
  tc_end_secs : Z;
  tc_end_nsecs : Z;
  tc_include_metadata : bool;
  tc_include_attachments : bool;
  tc_output_compression : rstring;
  tc_chunk_size : Z;
  tc_use_chunks : bool;
}.

(** [TranscodeCommandOptions::new] and what is chained to it. *)
Definition TranscodeCommandOptions_new (file output : option rstring) (chunk_size : Z) : TranscodeCommandOptions :=
  mkTranscodeCommandOptions file output [] [] [] None 0 0 None 0 0 false false (lit "zstd") chunk_size true.
Definition tc_with_compression (value : rstring) (t : TranscodeCommandOptions) : TranscodeCommandOptions :=
  mkTranscodeCommandOptions (tc_file t) (tc_output t) (tc_include_topic_regex t) (tc_exclude_topic_regex t) (tc_last_per_channel_topic_regex t)
    (tc_start t) (tc_start_secs t) (tc_start_nsecs t) (tc_end t) (tc_end_secs t) (tc_end_nsecs t) (tc_include_metadata t) (tc_include_attachments t)
    value (tc_chunk_size t) (tc_use_chunks t).
Definition tc_with_use_chunks (value : bool) (t : TranscodeCommandOptions) : TranscodeCommandOptions :=
  mkTranscodeCommandOptions (tc_file t) (tc_output t) (tc_include_topic_regex t) (tc_exclude_topic_regex t) (tc_last_per_channel_topic_regex t)
    (tc_start t) (tc_start_secs t) (tc_start_nsecs t) (tc_end t) (tc_end_secs t) (tc_end_nsecs t) (tc_include_metadata t) (tc_include_attachments t)
    (tc_output_compression t) (tc_chunk_size t) value.
Definition tc_with_include_metadata (value : bool) (t : TranscodeCommandOptions) : TranscodeCommandOptions :=
  mkTranscodeCommandOptions (tc_file t) (tc_output t) (tc_include_topic_regex t) (tc_exclude_topic_regex t) (tc_last_per_channel_topic_regex t)
    (tc_start t) (tc_start_secs t) (tc_start_nsecs t) (tc_end t) (tc_end_secs t) (tc_end_nsecs t) value (tc_include_attachments t)
    (tc_output_compression t) (tc_chunk_size t) (tc_use_chunks t).
Definition tc_with_include_attachments (value : bool) (t : TranscodeCommandOptions) : TranscodeCommandOptions :=
  mkTranscodeCommandOptions (tc_file t) (tc_output t) (tc_include_topic_regex t) (tc_exclude_topic_regex t) (tc_last_per_channel_topic_regex t)
    (tc_start t) (tc_start_secs t) (tc_start_nsecs t) (tc_end t) (tc_end_secs t) (tc_end_nsecs t) (tc_include_metadata t) value
    (tc_output_compression t) (tc_chunk_size t) (tc_use_chunks t).

(** compress.rs and decompress.rs *)
Definition compress_options (file output : option rstring) (chunk_size : Z) (compression : rstring) (unchunked : bool) : TranscodeCommandOptions :=
  tc_with_include_attachments true (tc_with_include_metadata true (tc_with_use_chunks (negb unchunked) (tc_with_compression compression
    (TranscodeCommandOptions_new file output chunk_size)))).
Definition decompress_options (file output : option rstring) (chunk_size : Z) : TranscodeCommandOptions :=
  tc_with_use_chunks true (tc_with_include_attachments true (tc_with_include_metadata true (tc_with_compression (lit "none")
    (TranscodeCommandOptions_new file output chunk_size)))).

(** [value.parse::<u64>()]: digits, after a sign [+] if there is one. *)
Definition digit_of (b : byte) : option Z :=
  let n := Z.of_N (Byte.to_N b) in if ((48 <=? n) && (n <=? 57))%Z then Some (n - 48)%Z else None.
Fixpoint parse_digits (n : Z) (s : rstring) : option Z :=
  match s with
  | [] => Some n
  | b :: s =>
      d ← digit_of b;
      let n := (n * 10 + d)%Z in
      if (u64_max <? n)%Z then None else parse_digits n s
  end.
Definition parse_u64 (s : rstring) : option Z :=
  match s with
  | [] => None
  | b :: rest => if Byte.eqb b Byte.x2b then match rest with [] => None | _ => parse_digits 0 rest end else parse_digits 0 s
  end.

(** [parse_timestamp_or_nanos] of add_attachment.rs *)
Definition parse_timestamp_or_nanos (value : rstring) : Result Z :=
  match parse_u64 value with
  | Some nanos => mret nanos
  | None =>
      match parse_from_rfc3339 value with
      | inl e => mthrow (Context "failed to parse timestamp '{value}'" [Str value] (Msg "{}" [Str e]))
      | inr (seconds, subsec_nanos) =>
          if (seconds <? 0)%Z then bail "timestamp is before unix epoch: '{value}'" [Str value] else
          if (u64_max <? seconds * 1000000000)%Z then bail "timestamp is out of range: '{value}'" [Str value] else
          if (u64_max <? seconds * 1000000000 + subsec_nanos)%Z then bail "timestamp is out of range: '{value}'" [Str value] else
          mret (seconds * 1000000000 + subsec_nanos)%Z
      end
  end.

Definition parse_timestamp_args (date_or_nanos : option rstring) (nanoseconds seconds : Z) : Result Z :=
  match date_or_nanos with
  | Some value => parse_timestamp_or_nanos value
  | None =>
      if negb (nanoseconds =? 0)%Z then mret nanoseconds else
      if (u64_max <? seconds * 1000000000)%Z then bail "seconds timestamp overflows nanoseconds" []
      else mret (seconds * 1000000000)%Z
  end.

Fixpoint compile_matchers (regex_strings : list rstring) : Result (list Regex) :=
  match regex_strings with
  | [] => mret []
  | pattern :: rest =>
      let anchored := lit "^(?:" ++ pattern ++ lit ")$" in
      match regex_new anchored with
      | inl e => mthrow (Context "{anchored} is not a valid regex" [Str anchored] (Msg "{}" [Str e]))
      | inr regex => rest ← compile_matchers rest; mret (regex :: rest)
      end
  end.

Definition build_filter_options_from_transcode_options (args : TranscodeCommandOptions) : Result FilterOptions :=
  start ← with_context "invalid start" [] (parse_timestamp_args (tc_start args) (tc_start_nsecs args) (tc_start_secs args));
  end_ ← with_context "invalid end" [] (parse_timestamp_args (tc_end args) (tc_end_nsecs args) (tc_end_secs args));
  let end_ := if (end_ =? 0)%Z then u64_max else end_ in
  if (end_ <? start)%Z then bail "invalid time range query, end-time is before start-time" [] else
  match tc_include_topic_regex args, tc_exclude_topic_regex args with
  | _ :: _, _ :: _ => bail "can only use one of --include-topic-regex and --exclude-topic-regex" []
  | _, _ =>
      include_topics ← with_context "invalid included topic regex" [] (compile_matchers (tc_include_topic_regex args));
      exclude_topics ← with_context "invalid excluded topic regex" [] (compile_matchers (tc_exclude_topic_regex args));
      last_per_channel_topics ← with_context "invalid last-per-channel topic regex" [] (compile_matchers (tc_last_per_channel_topic_regex args));
      compression ← parse_output_compression (tc_output_compression args);
      mret (mkFilterOptions (tc_output args) include_topics exclude_topics last_per_channel_topics start end_
              (tc_include_metadata args) (tc_include_attachments args) compression (tc_chunk_size args) (tc_use_chunks args))
  end.

Definition include_topic (topic : rstring) (opts : FilterOptions) : bool :=
  match fo_include_topics opts, fo_exclude_topics opts with
  | _ :: _, _ => existsb (λ regex, is_match regex topic) (fo_include_topics opts)
  | [], _ :: _ => negb (existsb (λ regex, is_match regex topic) (fo_exclude_topics opts))
  | [], [] => true
  end.
End options.

(** ** An indexed input *)

Record PreStartMessage := mkPreStartMessage {
  ps_channel_id : Z;
  ps_sequence : Z;
  ps_log_time : Z;
  ps_publish_time : Z;
  ps_data : bytes;
}.

(** What the loop over the messages before the start keeps: the channels whose last
    message is still to be found, and the messages found. *)
Record PreStart := mkPreStart {
  pending_channels : gset Z;
  pre_start_messages : list PreStartMessage;
}.

Section filters.
Context `{Crc, ZstdLib, Lz4Lib, ChunkCodecs, RegexLib}.
Implicit Types (opts : FilterOptions) (summary : Summary).

(** The topics of the channels of the summary that [keep] admits. *)
Definition topics_of (keep : rstring → bool) summary : gset rstring :=
  list_to_set (channel_topic <$> List.filter (λ channel, keep (channel_topic channel)) ((map_to_list (channels summary)).*2)).

Definition included_topics opts summary : gset rstring := topics_of (λ topic, include_topic topic opts) summary.
Definition target_topics opts summary : gset rstring :=
  topics_of (λ topic, include_topic topic opts && existsb (λ regex, is_match regex topic) (fo_last_per_channel_topics opts)) summary.
(** The channels of those topics. *)
Definition target_channels opts summary : gset Z :=
  dom (filter (λ p : Z * Channel, channel_topic p.2 ∈ target_topics opts summary) (channels summary)).

Definition pre_start_body (header : MessageHeader) (data : bytes) : method PreStart anyhow bool :=
  s ← get;
  if bool_decide (m_channel_id header ∈ pending_channels s) then
    let pending := pending_channels s ∖ {[ m_channel_id header ]} in
    _ ← put (mkPreStart pending (pre_start_messages s ++
               [mkPreStartMessage (m_channel_id header) (m_sequence header) (m_log_time header) (m_publish_time header) data]));
    mret (negb (bool_decide (pending = ∅)))
  else mret true.
Definition pre_start_key (m : PreStartMessage) : list Z := [ps_log_time m; ps_channel_id m; ps_sequence m; ps_publish_time m].

(** The last message before the start of each channel that asks for it. *)
Definition find_pre_start (fuel : nat) (input : bytes) summary opts : Result (list PreStartMessage) :=
  match fo_last_per_channel_topics opts with
  | [] => mret []
  | _ =>
      if negb (0 <? fo_start opts)%Z then mret [] else
      let pending := target_channels opts summary in
      if bool_decide (pending = ∅) then mret [] else
      reader ← from_mcap (IndexedReader_new_with_options summary
        (include_topics (elements (target_topics opts summary)) (log_time_before (fo_start opts) (with_order ReverseLogTime IndexedReaderOptions_default))));
      let '(o, s) := indexed_loop fuel input pre_start_body reader (mkPreStart pending []) in
      _ ← o;
      mret (sort_by (by_key pre_start_key) (pre_start_messages s))
  end.

Definition has_topic_filters opts : bool := negb (bool_decide (length (fo_include_topics opts) = 0 ∧ length (fo_exclude_topics opts) = 0)).

(** The options of the reader of the messages from the start on. *)
Definition indexed_opts opts summary : IndexedReaderOptions :=
  let o := log_time_on_or_after (fo_start opts) (with_order LogTime IndexedReaderOptions_default) in
  let o := if negb (fo_end opts =? u64_max)%Z then log_time_before (fo_end opts) o else o in
  if has_topic_filters opts then include_topics (elements (included_topics opts summary)) o else o.

Context `{Sink Wr} {St : Type}.
Abbreviation job A := (method (Job Wr St) anyhow A).

Definition write_pre_start summary (m : PreStartMessage) : job () :=
  channel ← lift (known_channel_or summary (ps_channel_id m));
  on_writer (sink_write (mkMessage channel (ps_sequence m) (ps_log_time m) (ps_publish_time m) (ps_data m))).

(** [log_time] is of the range. *)
Definition in_range opts (log_time : Z) : bool := negb ((log_time <? fo_start opts) || (fo_end opts <=? log_time))%Z.

Definition filter_metadata (input : bytes) summary : job () :=
  for_all (λ index,
    m ← lift (with_context "failed to read metadata at offset {}" [Num (mx_offset index)] (from_mcap (metadata input index)));
    on_writer (sink_write_metadata m)) (sort_by (by_key (λ index, [mx_offset index])) (metadata_indexes summary)).
Definition filter_attachments (input : bytes) summary opts : job () :=
  for_all (λ index,
    if negb (in_range opts (ai_log_time index)) then mret () else
    a ← lift (with_context "failed to read attachment {} at offset {}" [Str (ai_name index); Num (ai_offset index)] (from_mcap (attachment input index)));
    on_writer (sink_attach a)) (sort_by (by_key (λ index, [ai_offset index])) (attachment_indexes summary)).

Definition filter_messages (fuel : nat) (input : bytes) summary opts : job () :=
  if has_topic_filters opts && bool_decide (included_topics opts summary = ∅) then mret () else
  reader ← lift (from_mcap (IndexedReader_new_with_options summary (indexed_opts opts summary)));
  indexed_loop fuel input (λ header data, _ ← write_indexed_message summary header data; mret true) reader.

Definition filter_indexed (fuel : nat) (input : bytes) summary opts : job () :=
  found ← lift (find_pre_start fuel input summary opts);
  _ ← for_all (write_pre_start summary) found;
  _ ← filter_messages fuel input summary opts;
  _ ← (if fo_include_metadata opts then filter_metadata input summary else mret ());
  if fo_include_attachments opts then filter_attachments input summary opts else mret ().
End filters.

(** ** Any other input *)

(** The three maps of [filter_linear]. *)
Record LinearFilter := mkLinearFilter {
  lf_schemas : gmap Z Schema;
  lf_channel_defs : gmap Z ChannelRecord;
  lf_channels : gmap Z Channel;
}.

Definition build_channel (channel : ChannelRecord) (schemas : gmap Z Schema) : Result Channel :=
  schema ← (if (c_schema_id channel =? 0)%Z then mret None else
    match schemas !! c_schema_id channel with
    | Some schema => mret (Some schema)
    | None => bail "encountered channel with topic {} with unknown schema ID {}" [Str (c_topic channel); Num (c_schema_id channel)]
    end);
  mret (mkChannel (c_id channel) (c_topic channel) schema (c_message_encoding channel) (c_metadata channel)).

Section linear.
Context `{Crc, ZstdLib, Lz4Lib, RegexLib} `{Sink Wr}.
Abbreviation job A := (method (Job Wr LinearFilter) anyhow A).
Implicit Types opts : FilterOptions.

Definition set_lf_channel (id : Z) (channel : Channel) : job () :=
  on_state (modify (λ s, mkLinearFilter (lf_schemas s) (lf_channel_defs s) (<[id := channel]> (lf_channels s)))).
Definition lf_get {A} (f : LinearFilter → A) : job A := on_state (gets f).

(** The channel of a message, resolved now if it was not before. *)
Definition resolve_channel (id : Z) : job Channel :=
  channels ← lf_get lf_channels;
  match channels !! id with
  | Some channel => mret channel
  | None =>
      channel_defs ← lf_get lf_channel_defs;
      match channel_defs !! id with
      | None => lift (bail "message references unknown channel {}" [Num id])
      | Some channel_def =>
          schemas ← lf_get lf_schemas;
          resolved ← lift (build_channel channel_def schemas);
          _ ← set_lf_channel id resolved;
          mret resolved
      end
  end.

Definition filter_record opts (r : record) : job () :=
  match r with
  | RSchema header data =>
      on_state (modify (λ s, mkLinearFilter (<[sh_id header := mkSchema (sh_id header) (sh_name header) (sh_encoding header) data]> (lf_schemas s))
                               (lf_channel_defs s) (lf_channels s)))
  | RChannel channel =>
      schemas ← lf_get lf_schemas;
      _ ← (if (c_schema_id channel =? 0)%Z || bool_decide (is_Some (schemas !! c_schema_id channel)) then
             resolved ← lift (build_channel channel schemas);
             set_lf_channel (c_id channel) resolved
           else mret ());
      on_state (modify (λ s, mkLinearFilter (lf_schemas s) (<[c_id channel := channel]> (lf_channel_defs s)) (lf_channels s)))
  | RMessage header data =>
      if negb (in_range opts (m_log_time header)) then mret () else
      channel ← resolve_channel (m_channel_id header);
      if negb (include_topic (channel_topic channel) opts) then mret () else
      on_writer (sink_write (mkMessage channel (m_sequence header) (m_log_time header) (m_publish_time header) data))
  | RMetadata m => if fo_include_metadata opts then on_writer (sink_write_metadata m) else mret ()
  | RAttachment header data _ =>
      if negb (fo_include_attachments opts) then mret () else
      if negb (in_range opts (ah_log_time header)) then mret () else
      on_writer (sink_attach (mkAttachment (ah_log_time header) (ah_create_time header) (ah_name header) (ah_media_type header) data))
  | _ => mret ()
  end.

Definition filter_linear (fuel : nat) (input : bytes) opts : job () :=
  match fo_last_per_channel_topics opts with
  | _ :: _ => lift (bail "including last-per-channel topics is not supported for non-indexed input" [])
  | [] => for_each fuel (filter_record opts) (ChunkFlattener_new input)
  end.
End linear.

(** ** The command *)

Section command.
Context `{Crc, ZstdLib, Lz4Lib, ChunkCodecs, HashOrder, ZstdEncoderLib, Lz4EncoderLib, RegexLib, Chrono} `{Write W, Seek W}.
Context `{!BiMap ChannelContent Z, !BiMap SchemaContent Z}.

Definition filter_with_writer `{Sink Wr} (fuel : nat) (input : bytes) (opts : FilterOptions) : method (Job Wr LinearFilter) anyhow () :=
  summary ← lift (from_mcap (Summary_read fuel input));
  match summary with
  | Some summary =>
      match chunk_indexes summary with
      | [] => filter_linear fuel input opts
      | _ => filter_indexed fuel input summary opts
      end
  | None => filter_linear fuel input opts
  end.

(** The options of the writer; [version] and [cpus] are those of its defaults. *)
Definition filter_write_options (version : rstring) (cpus : Z) (header : option Header) (opts : FilterOptions) (disable_seeking : bool) : WriteOptions :=
  let write_options := options.disable_seeking disable_seeking (options.compression (fo_compression opts)
    (options.chunk_size (Some (fo_chunk_size opts)) (options.use_chunks (fo_use_chunks opts) (WriteOptions_default version cpus)))) in
  match header with
  | Some header => options.library (h_library header) (options.profile (h_profile header) write_options)
  | None => write_options
  end.

Definition filter_to_writer (version : rstring) (cpus : Z) (fuel : nat) (input : bytes) (sink : W) (opts : FilterOptions) (disable_seeking : bool) : Result W :=
  header ← read_header input;
  writer ← with_context "failed to create mcap writer" [] (from_mcap (Writer_with_options sink (filter_write_options version cpus header opts disable_seeking)));
  '(_, job) ← run (_ ← filter_with_writer fuel input opts;
                   in_context "failed to finish mcap writer" [] (on_writer wr_finish)) (mkJob writer (mkLinearFilter ∅ ∅ ∅));
  from_mcap (wr_into_inner (job_writer job)).

(** [run_transcode], but for the files: without an output file the standard output is
    written to, which cannot seek and must not be a terminal. *)
Definition run_transcode (version : rstring) (cpus : Z) (fuel : nat) (is_terminal : bool) (input : bytes) (sink : W) (args : TranscodeCommandOptions) : Result W :=
  opts ← build_filter_options_from_transcode_options args;
  match fo_output opts with
  | Some output => filter_to_writer version cpus fuel input sink opts false
  | None =>
      if is_terminal then bail "Binary output can screw up your terminal. Supply -o or redirect to a file or pipe" []
      else filter_to_writer version cpus fuel input sink opts true
  end.
End command.
