(* ===== verification/FilterTheory.v ===== *)
(** What filter keeps of an indexed file: the messages of the topics and times asked for,
    in the order of their log times, after the last message before the start of each
    channel that asks for it. *)

From S2P Require Import Prelude Utf8 BTree Errors Bin Records Crc Io Codec RwBuf Decompressor LinearReader LinearReaderTheory LinearReaderClient LinearReaderFile Channels Read ReadTheory Conversation Streaming LinearReaderFlat MessageStream Summary SummaryReader Sorting IndexedReader IndexedReaderTheory ChunkWriter ChunkWriterTheory Writer WriterTheory WriterSpec Instances WriterLog WriterFile WriterSummary WriterRoundtrip WriterMessages Cli Sink SinkTheory SinkCost SpecClient SpecMessages Common Sort CopyTheory Filter.

(** ** Topics and channels *)

Section topics.
Context `{RegexLib}.
Implicit Types (opts : FilterOptions) (s : Summary).

Lemma elem_of_topics keep s t : t ∈ topics_of keep s ↔ ∃ i c, channels s !! i = Some c ∧ channel_topic c = t ∧ keep t = true.
Proof.
  unfold topics_of. rewrite elem_of_list_to_set, list_elem_of_fmap. setoid_rewrite list_elem_of_In. setoid_rewrite filter_In. setoid_rewrite <-list_elem_of_In. split.
  - intros (c & -> & ([i c'] & -> & Hc)%list_elem_of_fmap & Hk). apply elem_of_map_to_list in Hc. by exists i, c'.
  - intros (i & c & Hi & <- & Hk). exists c. split_and!; [done| |done]. apply list_elem_of_fmap. exists (i, c). by rewrite elem_of_map_to_list.
Qed.

(** The channels of some topics, which an indexed reader is asked for. *)
Abbreviation channels_of T s := (dom (filter (λ p : Z * Channel, channel_topic p.2 ∈ (T : gset rstring)) (channels s))).
Lemma elem_of_channels keep s i c : channels s !! i = Some c → i ∈ channels_of (topics_of keep s) s ↔ keep (channel_topic c) = true.
Proof.
  intros Hi. rewrite elem_of_dom. split.
  - intros [c' [Hi' Ht]%map_lookup_filter_Some]. rewrite Hi in Hi'. injection Hi' as <-. apply elem_of_topics in Ht as (? & ? & _ & _ & Hk). done.
  - intros Hk. exists c. apply map_lookup_filter_Some. split; [done|]. apply elem_of_topics. by exists i, c.
Qed.
Lemma included_channels s topics io : included_channel_ids s (include_topics (elements topics) io) = channels_of topics s.
Proof. unfold included_channel_ids. cbn. by rewrite list_to_set_elements_L. Qed.
Lemma elem_of_targets opts s i c : channels s !! i = Some c →
  i ∈ target_channels opts s ↔ include_topic (channel_topic c) opts && existsb (λ regex, is_match regex (channel_topic c)) (fo_last_per_channel_topics opts) = true.
Proof. intros Hi. exact (elem_of_channels (λ topic, include_topic topic opts && existsb (λ regex, is_match regex topic) (fo_last_per_channel_topics opts)) s i c Hi). Qed.
Lemma channels_some keep s : topics_of keep s ≠ ∅ → channels_of (topics_of keep s) s ≠ ∅.
Proof.
  intros [t Ht]%set_choose_L. pose proof Ht as Ht'. apply elem_of_topics in Ht' as (i & c & Hi & <- & _). intros He.
  assert (i ∈ channels_of (topics_of keep s) s) as Hd; [|by rewrite He in Hd].
  apply elem_of_dom. exists c. by apply map_lookup_filter_Some.
Qed.
Lemma topics_none keep s i c : topics_of keep s = ∅ → channels s !! i = Some c → keep (channel_topic c) = false.
Proof.
  intros He Hi. destruct (keep (channel_topic c)) eqn:Hk; [|done]. assert (channel_topic c ∈ topics_of keep s) as Hin; [|by rewrite He in Hin].
  apply elem_of_topics. by exists i, c.
Qed.
Lemma no_topic_filters opts topic : has_topic_filters opts = false → include_topic topic opts = true.
Proof.
  unfold has_topic_filters, include_topic. rewrite negb_false_iff, bool_decide_eq_true.
  intros [->%nil_length_inv ->%nil_length_inv]. done.
Qed.
End topics.

(** ** What is kept *)

Section selection.
Context `{RegexLib} (opts : FilterOptions).

(** The messages asked for. *)
Definition selected (m : Message) : bool :=
  (fo_start opts <=? message_log_time m)%Z && ((fo_end opts =? u64_max) || (message_log_time m <? fo_end opts))%Z &&
  include_topic (channel_topic (message_channel m)) opts.
(** The messages before the start of which the last is asked for. *)
Definition before_start (m : Message) : bool :=
  (0 <? fo_start opts)%Z && (message_log_time m <? fo_start opts)%Z &&
  (include_topic (channel_topic (message_channel m)) opts && existsb (λ regex, is_match regex (channel_topic (message_channel m))) (fo_last_per_channel_topics opts)).

(** One message of each channel that has any, the last. *)
Record last_per_channel (all pre : list Message) : Prop := {
  lp_from : pre ⊆+ all;
  lp_one : NoDup ((λ m, channel_id (message_channel m)) <$> pre);
  lp_last m : m ∈ all → ∃ m', m' ∈ pre ∧ message_channel m' = message_channel m ∧ (message_log_time m ≤ message_log_time m')%Z;
}.

(** *** The loop over the messages before the start *)

Fixpoint firsts (pending : gset Z) (l : list (MessageHeader * bytes)) : list (MessageHeader * bytes) :=
  match l with
  | [] => []
  | m :: l => if bool_decide (m_channel_id m.1 ∈ pending) then m :: firsts (pending ∖ {[ m_channel_id m.1 ]}) l else firsts pending l
  end.
Definition pre_start_of (m : MessageHeader * bytes) : PreStartMessage :=
  mkPreStartMessage (m_channel_id m.1) (m_sequence m.1) (m_log_time m.1) (m_publish_time m.1) m.2.

Lemma firsts_none l : firsts ∅ l = [].
Proof. induction l as [|m l IH]; [done|]. cbn. by rewrite bool_decide_false by set_solver. Qed.
Lemma firsts_loop pending found l : pending ≠ ∅ → ∃ pending',
  each_while (λ m, pre_start_body m.1 m.2) l (mkPreStart pending found) = (Ok (), mkPreStart pending' (found ++ (pre_start_of <$> firsts pending l))).
Proof.
  revert pending found. induction l as [|m l IH]; intros pending found Hne; cbn [each_while firsts fmap list_fmap].
  - exists pending. by rewrite app_nil_r.
  - unfold pre_start_body, mbind, method_bind, get. cbn [Filter.pending_channels Filter.pre_start_messages]. case_bool_decide as Hin.
    + cbn [put]. unfold mret, method_ret. case_bool_decide as He; cbn [negb fmap list_fmap].
      * rewrite He, firsts_none. eexists. reflexivity.
      * destruct (IH (pending ∖ {[m_channel_id m.1]}) (found ++ [pre_start_of m]) He) as [p' E]. exists p'. unfold mbind, method_bind in E. 
        etransitivity; [exact E|]. by rewrite <-app_assoc.
    + destruct (IH pending found Hne) as [p' E]. exists p'. exact E.
Qed.

Lemma firsts_sublist pending l : firsts pending l `sublist_of` List.filter (λ m, bool_decide (m_channel_id m.1 ∈ pending)) l.
Proof.
  assert (∀ p q l, q ⊆ p → firsts q l `sublist_of` List.filter (λ m, bool_decide (m_channel_id m.1 ∈ p)) l) as Hs; [|by apply Hs].
  intros p q k. revert q. induction k as [|m k IH]; intros q Hq; [constructor|]. cbn. case_bool_decide as Hin.
  - rewrite bool_decide_true by set_solver. apply sublist_skip, IH. set_solver.
  - case_bool_decide; [apply sublist_cons|]; by apply IH.
Qed.
Lemma firsts_channels pending l : Forall (λ m, m_channel_id m.1 ∈ pending) (firsts pending l) ∧ NoDup ((λ m, m_channel_id m.1) <$> firsts pending l).
Proof.
  revert pending. induction l as [|m l IH]; intros pending; cbn [firsts]; [split; constructor|]. case_bool_decide as Hin; [|apply IH].
  destruct (IH (pending ∖ {[m_channel_id m.1]})) as [Ha Hn]. split.
  - constructor; [done|]. eapply Forall_impl; [exact Ha|]. set_solver.
  - rewrite fmap_cons. constructor; [|done]. intros (m' & E & Hm')%list_elem_of_fmap. rewrite Forall_forall in Ha. specialize (Ha m' Hm'). set_solver.
Qed.
Lemma firsts_last pending l m : in_time_order ReverseLogTime l → m ∈ l → m_channel_id m.1 ∈ pending →
  ∃ m', m' ∈ firsts pending l ∧ m_channel_id m'.1 = m_channel_id m.1 ∧ (m_log_time m.1 ≤ m_log_time m'.1)%Z.
Proof.
  intros Hs. revert pending. unfold in_time_order in Hs. induction Hs as [|x l Hs IH Hx]; intros pending; [by intros ?%not_elem_of_nil|].
  rewrite Forall_forall in Hx. intros Hm Hp. cbn [firsts]. destruct (decide (m_channel_id x.1 = m_channel_id m.1)) as [He|Hne].
  - rewrite bool_decide_true by by rewrite He. exists x. split_and!; [by left|done|]. apply elem_of_cons in Hm as [->|Hm]; [done|by apply Hx].
  - apply elem_of_cons in Hm as [->|Hm]; [done|]. case_bool_decide.
    + destruct (IH (pending ∖ {[m_channel_id x.1]}) Hm) as (m' & ? & ? & ?); [set_solver|]. exists m'. split_and!; [by right|done|done].
    + by apply IH.
Qed.
End selection.

(** *** Lists *)

Lemma omap_filter {A B} (f : A → option B) p q l : (∀ a b, a ∈ l → f a = Some b → p a = q b) →
  omap (M:=list) f (List.filter p l) = List.filter q (omap (M:=list) f l).
Proof.
  induction l as [|a l IH]; intros Hpq; [done|]. cbn [List.filter]. assert (∀ a b, a ∈ l → f a = Some b → p a = q b) as Hl by (intros; apply Hpq; [by right|done]).
  specialize (Hpq a). cbn. destruct (f a) as [b|] eqn:E; cbn [List.filter].
  - rewrite <-(Hpq b) by (done || by left). destruct (p a); cbn; rewrite ?E; [f_equal|]; by apply IH.
  - destruct (p a); cbn; rewrite ?E; by apply IH.
Qed.
Lemma omap_sublist {A B} (f : A → option B) l k : l `sublist_of` k → omap (M:=list) f l `sublist_of` omap (M:=list) f k.
Proof. induction 1 as [|x l k _ IH|x l k _ IH]; cbn; [done|..]; destruct (f x); first [exact IH|by apply sublist_skip|by apply sublist_cons]. Qed.
Lemma sorted_fmap {A B} (f : A → B) (R : A → A → Prop) (S : B → B → Prop) l : (∀ a b, R a b → S (f a) (f b)) → StronglySorted R l → StronglySorted S (f <$> l).
Proof.
  intros Hf. induction 1 as [|a l Hl IH Ha]; [constructor|]. rewrite fmap_cons. constructor; [done|]. apply Forall_fmap. eapply Forall_impl; [exact Ha|]. intros b. apply Hf.
Qed.
Lemma each_fmap {St A B} (body : B → method St anyhow ()) (f : A → B) l last s : each (λ a, body (f a)) l last s = each body (f <$> l) last s.
Proof.
  revert s. induction l as [|a l IH]; intros s; [done|]. cbn [each fmap list_fmap]. unfold mbind, method_bind. destruct (body (f a) s) as [[[]|e| |] s']; [apply IH|done..].
Qed.
Lemma both_hold {A B} (P Q : A → B → Prop) l k : Forall2 P l k → Forall2 Q l k → Forall2 (λ a b, P a b ∧ Q a b) l k.
Proof. induction 1; intros HQ; inversion HQ; by constructor; auto. Qed.
Lemma filter_none {A} (p : A → bool) l : (∀ a, a ∈ l → p a = false) → List.filter p l = [].
Proof. induction l as [|a l IH]; intros Hp; [done|]. cbn. rewrite (Hp a) by by left. apply IH. intros b Hb. apply Hp. by right. Qed.

(** ** The messages before the start *)

Section pre_start.
Context `{ChunkCodecs, RegexLib} (opts : FilterOptions) (input : bytes) (src : Z → bytes) (recs : Z → list (Z * bytes)) (s : Summary).
Context (Hin : indexed_input input src recs s).
Abbreviation on_channel := (message_on_channel (channels s)).
Abbreviation all := (all_messages no_filter recs (chunk_indexes s)).

Lemma on_channel_Some m x : on_channel m = Some x → ∃ c, channels s !! m_channel_id m.1 = Some c ∧ channel_id c = m_channel_id m.1 ∧
  x = mkMessage c (m_sequence m.1) (m_log_time m.1) (m_publish_time m.1) m.2.
Proof.
  unfold message_on_channel. rewrite fmap_Some. intros (c & Hc & ->). exists c. split_and!; [done| |done].
  by destruct (cs_id _ (ip_channels _ _ _ _ Hin) _ _ Hc).
Qed.
Lemma in_summary x : x ∈ summary_messages recs s ↔ ∃ m, m ∈ all ∧ on_channel m = Some x.
Proof. unfold summary_messages. apply list_elem_of_omap. Qed.

(** What a reader with a filter gives, when the filter is a condition on messages. *)
Lemma filtered_messages f q : (∀ m x, on_channel m = Some x → passes f m.1 = q x) →
  omap (M:=list) on_channel (all_messages f recs (chunk_indexes s)) = List.filter q (summary_messages recs s).
Proof. intros Hq. rewrite all_messages_filtered. apply omap_filter. intros m x _. apply Hq. Qed.
Lemma filtered_known f out : out ≡ₚ all_messages f recs (chunk_indexes s) → Forall (λ m : MessageHeader * bytes, is_Some (channels s !! m_channel_id m.1)) out.
Proof.
  intros ->. rewrite all_messages_filtered. pose proof (ip_known _ _ _ _ Hin) as Hk. rewrite Forall_forall in *. intros m Hm. apply Hk.
  apply list_elem_of_In, filter_In in Hm as [Hm _]. by apply list_elem_of_In.
Qed.

Lemma on_channel_ids l : Forall (λ m : MessageHeader * bytes, is_Some (channels s !! m_channel_id m.1)) l →
  (λ m, channel_id (message_channel m)) <$> omap (M:=list) on_channel l = (λ m, m_channel_id m.1) <$> l.
Proof.
  induction 1 as [|m l [c Hc] _ IH]; [done|]. cbn. destruct (on_channel m) as [x|] eqn:E.
  - apply on_channel_Some in E as (c' & _ & Hid & ->). rewrite fmap_cons, IH. cbn. by rewrite Hid.
  - unfold message_on_channel in E. by rewrite Hc in E.
Qed.

Definition found_message (m : PreStartMessage) : MessageHeader * bytes :=
  (mkMessageHeader (ps_channel_id m) (ps_sequence m) (ps_log_time m) (ps_publish_time m), ps_data m).
Lemma found_messages (l : list (MessageHeader * bytes)) : found_message <$> (pre_start_of <$> l) = l.
Proof. rewrite <-list_fmap_compose. rewrite <-(list_fmap_id l) at 2. apply list_fmap_ext. intros i [[] ?] _. done. Qed.

Definition last_reader : IndexedReaderOptions :=
  include_topics (elements (target_topics opts s)) (log_time_before (fo_start opts) (with_order ReverseLogTime IndexedReaderOptions_default)).

Lemma last_reader_passes m x : (0 < fo_start opts)%Z → target_channels opts s ≠ ∅ → on_channel m = Some x → passes (filter_of s last_reader) m.1 = before_start opts x.
Proof.
  intros Hs Ht Hx. apply on_channel_Some in Hx as (c & Hc & _ & ->). unfold passes, filter_of, before_start. cbn [filter_end filter_start filter_channel_ids iro_start iro_end message_log_time message_channel].
  assert (included_channel_ids s last_reader = target_channels opts s) as -> by exact (included_channels s _ _).
  cbn [iro_start iro_end last_reader include_topics log_time_before with_order IndexedReaderOptions_default].
  rewrite (bool_decide_false (target_channels opts s = ∅)) by done. rewrite (proj2 (Z.ltb_lt _ _) Hs). cbn [andb orb]. rewrite andb_true_r.
  rewrite Z.leb_antisym, negb_involutive. f_equal. apply eq_true_iff_eq. rewrite bool_decide_eq_true. exact (elem_of_targets opts s _ c Hc).
Qed.

Lemma find_pre_start_spec fuel : length (chunk_indexes s) + length all < fuel → ∃ found, find_pre_start fuel input s opts = Ok found ∧
  Forall (λ m : MessageHeader * bytes, is_Some (channels s !! m_channel_id m.1)) (found_message <$> found) ∧
  last_per_channel (List.filter (before_start opts) (summary_messages recs s)) (omap (M:=list) on_channel (found_message <$> found)) ∧
  StronglySorted (λ a b, message_log_time a ≤ message_log_time b)%Z (omap (M:=list) on_channel (found_message <$> found)).
Proof.
  intros Hf.
  assert ((∀ x, x ∈ summary_messages recs s → before_start opts x = false) →
    last_per_channel (List.filter (before_start opts) (summary_messages recs s)) (omap (M:=list) on_channel (found_message <$> []))) as Hnone.
  { intros Hb. rewrite filter_none by done. split; [done|constructor|]. by intros m ?%not_elem_of_nil. }
  unfold find_pre_start. destruct (fo_last_per_channel_topics opts) as [|rx rxs] eqn:Hl.
  { exists []. split_and!; [done|constructor| |constructor]. apply Hnone. intros x _. unfold before_start. rewrite Hl. cbn. by rewrite !andb_false_r. }
  destruct (Z.ltb_spec 0 (fo_start opts)) as [Hs|Hs]; cbn [negb]; last first.
  { exists []. split_and!; [done|constructor| |constructor]. apply Hnone. intros x _. unfold before_start. by rewrite (proj2 (Z.ltb_ge _ _) Hs). }
  case_bool_decide as Ht.
  { exists []. split_and!; [done|constructor| |constructor]. apply Hnone. intros x (m & _ & (c & Hc & _ & ->)%on_channel_Some)%in_summary.
    unfold before_start. cbn [message_channel]. apply andb_false_iff. right. destruct (include_topic _ _ && _) eqn:Hk; [|done].
    assert (m_channel_id m.1 ∈ target_channels opts s) as Hd; [|by rewrite Ht in Hd].
    by apply (elem_of_targets opts s _ c Hc). }
  fold last_reader. destruct (reader_exists _ _ _ _ last_reader Hin eq_refl) as [r Hr]. rewrite Hr. cbn [from_mcap map_err mbind outcome_bind].
  destruct (indexed_run fuel _ _ _ _ last_reader r Hin eq_refl Hr Hf) as (out & Hp & Hord & Hloop). cbn [iro_order last_reader include_topics log_time_before with_order] in Hord.
  rewrite Hloop. destruct (firsts_loop (target_channels opts s) [] out Ht) as [p' ->]. cbn [app mbind outcome_bind mret outcome_ret Filter.pre_start_messages].
  set (l := firsts (target_channels opts s) out). eexists. split; [reflexivity|]. pose proof (sort_by_perm (by_key pre_start_key) (pre_start_of <$> l)) as Hsort.
  assert (found_message <$> sort_by (by_key pre_start_key) (pre_start_of <$> l) ≡ₚ l) as Hfl by (rewrite Hsort, found_messages; done).
  assert (l `sublist_of` out) as Hsub.
  { etransitivity; [apply firsts_sublist|]. clear. induction out as [|m out IH]; [done|]. cbn. case_bool_decide; by constructor. }
  assert (Forall (λ m : MessageHeader * bytes, is_Some (channels s !! m_channel_id m.1)) l) as Hkn by (pose proof (filtered_known _ out Hp) as Hk; rewrite Forall_forall in Hk |- *; intros m Hm; apply Hk; exact (elem_of_sublist _ _ _ Hm Hsub)).
  assert (omap (M:=list) on_channel out ≡ₚ List.filter (before_start opts) (summary_messages recs s)) as Hout.
  { rewrite Hp. rewrite (filtered_messages _ (before_start opts)); [done|]. intros m x. by apply last_reader_passes. }
  split_and!.
  - by rewrite Hfl.
  - split.
    + rewrite Hfl, <-Hout. by apply sublist_submseteq, omap_sublist.
    + rewrite Hfl, on_channel_ids by done. apply firsts_channels.
    + intros x. rewrite <-Hout. intros (m & Hm & Hx)%list_elem_of_omap.
      assert (m_channel_id m.1 ∈ target_channels opts s) as Hpend.
      { assert (x ∈ List.filter (before_start opts) (summary_messages recs s)) as Hxb by (rewrite <-Hout; apply list_elem_of_omap; by exists m).
        apply list_elem_of_In, filter_In in Hxb as [_ Hb]. apply on_channel_Some in Hx as (c & Hc & _ & ->). unfold before_start in Hb. cbn [message_channel] in Hb.
        apply andb_true_iff in Hb as [_ Hb]. by apply (elem_of_targets opts s _ c Hc). }
      destruct (firsts_last (target_channels opts s) out m Hord Hm Hpend) as (m' & Hm' & Hid & Hle). apply on_channel_Some in Hx as (c & Hc & _ & ->).
      exists (mkMessage c (m_sequence m'.1) (m_log_time m'.1) (m_publish_time m'.1) m'.2). split_and!; [|done|done].
      rewrite Hfl. apply list_elem_of_omap. exists m'. split; [done|]. unfold message_on_channel. by rewrite Hid, Hc.
  - pose proof (sort_by_sorted (by_key pre_start_key) (pre_start_of <$> l)) as Hso.
    apply (StronglySorted_omap _ (λ a b : MessageHeader * bytes, m_log_time a.1 ≤ m_log_time b.1)%Z).
    { intros a b x y (? & _ & _ & ->)%on_channel_Some (? & _ & _ & ->)%on_channel_Some. done. }
    eapply sorted_fmap; [|exact Hso]. intros a b. exact (by_key_head ps_log_time (λ m, [ps_channel_id m; ps_sequence m; ps_publish_time m]) a b).
Qed.
End pre_start.

(** ** The messages from the start on *)

Section main.
Context `{ChunkCodecs, RegexLib} (opts : FilterOptions) (input : bytes) (src : Z → bytes) (recs : Z → list (Z * bytes)) (s : Summary).
Context (Hin : indexed_input input src recs s).
Abbreviation on_channel := (message_on_channel (channels s)).
Abbreviation all := (all_messages no_filter recs (chunk_indexes s)).

Lemma indexed_opts_passes m x : has_topic_filters opts && bool_decide (included_topics opts s = ∅) = false → on_channel m = Some x →
  passes (filter_of s (indexed_opts opts s)) m.1 = selected opts x.
Proof.
  intros Hne Hx. apply (on_channel_Some input src recs s Hin) in Hx as (c & Hc & _ & ->). unfold selected. cbn [message_log_time message_channel].
  assert ((bool_decide (filter_channel_ids (filter_of s (indexed_opts opts s)) = ∅) ||
    bool_decide (m_channel_id m.1 ∈ filter_channel_ids (filter_of s (indexed_opts opts s)))) = include_topic (channel_topic c) opts) as Hids.
  { cbn [filter_of filter_channel_ids]. unfold indexed_opts. destruct (has_topic_filters opts) eqn:Hh; last first.
    - rewrite no_topic_filters by done. by destruct (fo_end opts =? u64_max)%Z.
    - rewrite andb_true_l, bool_decide_eq_false in Hne. rewrite included_channels. pose proof (channels_some (λ topic, include_topic topic opts) s Hne) as Hd.
      rewrite bool_decide_false by exact Hd. apply eq_true_iff_eq. cbn [orb]. rewrite bool_decide_eq_true.
      exact (elem_of_channels (λ topic, include_topic topic opts) s _ c Hc). }
  unfold passes. rewrite Hids. f_equal. unfold filter_of, indexed_opts. cbn [filter_end filter_start].
  assert (∀ t : Z, negb (t <? fo_start opts)%Z = (fo_start opts <=? t)%Z) as Hs by (intros t; by rewrite Z.leb_antisym).
  destruct (fo_end opts =? u64_max)%Z, (has_topic_filters opts); cbn [negb orb iro_start iro_end include_topics log_time_before log_time_on_or_after with_order IndexedReaderOptions_default];
    rewrite Hs, ?andb_true_r, ?andb_true_l; try done; by rewrite andb_comm, Z.ltb_antisym.
Qed.

(** [filter_messages] writes the messages that are asked for, in order. *)
Lemma filter_messages_spec fuel : length (chunk_indexes s) + length all < fuel → ∃ out,
  Forall (λ m : MessageHeader * bytes, is_Some (channels s !! m_channel_id m.1)) out ∧
  omap (M:=list) on_channel out ≡ₚ List.filter (selected opts) (summary_messages recs s) ∧
  StronglySorted (λ a b, message_log_time a ≤ message_log_time b)%Z (omap (M:=list) on_channel out) ∧
  ∀ Wr (sink : Sink Wr) St (j : Job Wr St), filter_messages fuel input s opts j = for_all (λ m, write_indexed_message s m.1 m.2) out j.
Proof.
  intros Hf. unfold filter_messages. destruct (has_topic_filters opts && bool_decide (included_topics opts s = ∅)) eqn:Hne.
  - exists []. split_and!; [constructor| |constructor|done]. apply andb_true_iff in Hne as [_ Hne%bool_decide_eq_true].
    rewrite filter_none; [done|]. intros x (m & _ & (c & Hc & _ & ->)%(on_channel_Some input src recs s Hin))%in_summary.
    unfold selected. cbn [message_channel]. rewrite (topics_none _ _ _ _ Hne Hc). by rewrite andb_false_r.
  - assert (iro_record_length_limit (indexed_opts opts s) = None ∧ iro_order (indexed_opts opts s) = LogTime) as [Hl Ho]
      by (unfold indexed_opts; by destruct (fo_end opts =? u64_max)%Z, (has_topic_filters opts)).
    destruct (reader_exists _ _ _ _ (indexed_opts opts s) Hin Hl) as [r Hr].
    destruct (indexed_run fuel _ _ _ _ (indexed_opts opts s) r Hin Hl Hr Hf) as (out & Hp & Hord & Hloop). rewrite Ho in Hord.
    exists out. split_and!.
    + by apply (filtered_known input src recs s Hin _ _ Hp).
    + rewrite Hp, (filtered_messages recs s _ (selected opts)); [done|]. intros m x. by apply indexed_opts_passes.
    + eapply StronglySorted_omap; [|exact Hord]. cbn beta. intros a b x y (? & _ & _ & ->)%(on_channel_Some input src recs s Hin) (? & _ & _ & ->)%(on_channel_Some input src recs s Hin). done.
    + intros Wr sink St j. rewrite Hr. cbn [from_mcap map_err]. rewrite (bind_method_Ok (lift _) _ _ r _ eq_refl), Hloop.
      apply (each_while_true (λ m, write_indexed_message s m.1 m.2)).
Qed.
End main.

(** ** On the writer and on its specification *)

Section calls.
Context `{Crc, !CrcLaws, ZstdEncoderLib, Lz4EncoderLib} `{FileOk W file}.
Context `{!BiMap ChannelContent Z, !BiMap SchemaContent Z, !BiMapOk ChannelContent Z, !BiMapOk SchemaContent Z}.
Context `{ZstdLib, Lz4Lib, ChunkCodecs, RegexLib}.
Context (o : WriteOptions).
Context `{!EncoderOk (wo_compression o) (wo_compression_level o) (wo_compression_threads o)}.
#[local] Hint Extern 0 (Sink spec_state) => exact (spec_sink o) : typeclass_instances.

Ltac follow := repeat first [progress intros | solve [eauto with follows] | apply follows_bind | apply follows_each | apply follows_indexed_loop | case_match].

Lemma filter_record_follows opts r : chunks_bounded o → follows o (filter_record opts r) (filter_record opts r).
Proof.
  intros Hb. destruct r; unfold filter_record, resolve_channel, set_lf_channel, lf_get, sink_write, sink_write_metadata, sink_attach; follow.
Qed.
Lemma filter_with_writer_follows fuel input opts : chunks_bounded o → follows o (filter_with_writer fuel input opts) (filter_with_writer fuel input opts).
Proof.
  intros Hb. assert (∀ summary, follows o (St:=LinearFilter) (filter_indexed fuel input summary opts) (filter_indexed fuel input summary opts)) as Hi.
  { intros summary. unfold filter_indexed, write_pre_start, filter_messages, write_indexed_message, filter_metadata, filter_attachments, sink_write, sink_write_metadata, sink_attach. follow. }
  assert (follows o (filter_linear fuel input opts) (filter_linear fuel input opts)) as Hl.
  { unfold filter_linear. destruct (fo_last_per_channel_topics opts); [|apply follows_lift]. apply follows_for_each. intros r. by apply filter_record_follows. }
  unfold filter_with_writer. apply follows_bind; [apply follows_lift|]. intros [summary|]; [|done]. by destruct (chunk_indexes summary).
Qed.
End calls.

(** ** The command *)

Section command.
Context `{Crc, !CrcLaws, HashOrder, !HashOrderOk, ZstdEncoderLib, Lz4EncoderLib} `{FileOk W file}.
Context `{!BiMap ChannelContent Z, !BiMap SchemaContent Z, !BiMapOk ChannelContent Z, !BiMapOk SchemaContent Z}.
Context `{ZstdLib, Lz4Lib, !ZstdLibOk, !Lz4LibOk, !Frames, ChunkCodecs, RegexLib}.

Lemma filters_disjoint {A} (p q : A → bool) l : (∀ a, p a = true → q a = false) → List.filter p l ++ List.filter q l ⊆+ l.
Proof.
  intros Hpq. induction l as [|a l IH]; [done|]. cbn. pose proof (Hpq a) as Ha. destruct (p a).
  - rewrite Ha by done. by apply submseteq_skip.
  - destruct (q a); [|by apply submseteq_cons]. rewrite <-Permutation_middle. by apply submseteq_skip.
Qed.
Lemma before_not_selected opts x : before_start opts x = true → selected opts x = false.
Proof.
  unfold before_start, selected. rewrite !andb_true_iff, Z.ltb_lt. intros [[_ Ht] _]. by rewrite (proj2 (Z.leb_gt _ _)) by lia.
Qed.

Section copies.
Context (o : WriteOptions).
Context `{!EncoderOk (wo_compression o) (wo_compression_level o) (wo_compression_threads o)}.
#[local] Hint Extern 0 (Sink spec_state) => exact (spec_sink o) : typeclass_instances.
Context (opts : FilterOptions) (s : Summary).

Definition kept_metadata (mds : list Metadata) : list Metadata := if fo_include_metadata opts then mds else [].
Definition kept_attachments (atts : list Attachment) : list Attachment :=
  if fo_include_attachments opts then List.filter (λ a, in_range opts (attachment_log_time a)) atts else [].

Lemma filter_metadata_copied {St} input mds st ms calls (x : St) :
  Forall2 (λ index m, metadata input index = Ok m) (sort_by (by_key (λ index, [mx_offset index])) (metadata_indexes s)) mds →
  copied (channels s) st [] ms → (zlen mds ≤ u32_max)%Z →
  ∃ st', (if fo_include_metadata opts then filter_metadata input s else mret ()) (mkJob (st, calls) x) =
      (Ok (), mkJob (st', calls ++ (WriteMetadata <$> kept_metadata mds)) x) ∧ copied (channels s) st' (RMetadata <$> kept_metadata mds) ms.
Proof.
  intros Hm Hcp Hn. unfold kept_metadata. destruct (fo_include_metadata opts); [|exists st; cbn; by rewrite app_nil_r].
  apply (copied_for_all (channels s) _ WriteMetadata RMetadata _ is_metadata_record _ mds st [] ms calls x) with (2 := λ _, eq_refl) (3 := Hm); [|done|done].
  intros index a st1 extra1 calls1 E Hcp1 Hl. destruct (copied_metadata o (channels s) st1 extra1 ms a calls1 x Hcp1 Hl) as (st' & Ew & Hcp'). exists st'. split; [|done].
  rewrite E. cbn [from_mcap map_err with_context]. by rewrite (bind_method_Ok (lift _) _ _ a _ eq_refl).
Qed.

Lemma filter_attachments_copied {St} input atts st extra ms calls (x : St) :
  Forall2 (λ index a, attachment input index = Ok a ∧ attachment_log_time a = ai_log_time index) (sort_by (by_key (λ index, [ai_offset index])) (attachment_indexes s)) atts →
  copied (channels s) st extra ms → (logged is_attachment_record extra + zlen atts ≤ u32_max)%Z →
  ∃ st', (if fo_include_attachments opts then filter_attachments input s opts else mret ()) (mkJob (st, calls) x) =
      (Ok (), mkJob (st', calls ++ (attached <$> kept_attachments atts)) x) ∧ copied (channels s) st' (extra ++ (attachment_in o <$> kept_attachments atts)) ms.
Proof.
  intros Ha. unfold kept_attachments. destruct (fo_include_attachments opts); [|exists st; cbn; by rewrite !app_nil_r].
  unfold filter_attachments. revert st extra calls. induction Ha as [|index a l atts [E Et] _ IH]; intros st extra calls Hcp Hn.
  - exists st. cbn. by rewrite !app_nil_r.
  - rewrite zlen_cons in Hn. pose proof (zlen_nonneg atts). cbn [List.filter each]. rewrite Et. destruct (in_range opts (ai_log_time index)); cbn [negb].
    + destruct (copied_attach o (channels s) st extra ms a calls x Hcp) as (st1 & E1 & Hcp1); [lia|].
      destruct (IH st1 (extra ++ [attachment_in o a]) (calls ++ [attached a]) Hcp1) as (st2 & E2 & Hcp2); [rewrite logged_snoc; cbn; lia|].
      exists st2. rewrite !fmap_cons, !cons_middle, !(app_assoc _ [_]). split; [|done].
      rewrite (bind_method_Ok _ _ _ () (mkJob (st1, calls ++ [attached a]) x)); [exact E2|].
      rewrite E. cbn [from_mcap map_err with_context]. by rewrite (bind_method_Ok (lift _) _ _ a _ eq_refl).
    + destruct (IH st extra calls Hcp) as (st2 & E2 & Hcp2); [lia|]. exists st2. by rewrite (bind_method_Ok (mret ()) _ _ () _ eq_refl).
Qed.
End copies.

Context (version : rstring) (cpus : Z) (header : option Header) (opts : FilterOptions) (disable_seeking : bool).
Abbreviation o := (filter_write_options version cpus header opts disable_seeking).
Context `{!EncoderOk (wo_compression o) (wo_compression_level o) (wo_compression_threads o)}.
#[local] Hint Extern 0 (Sink spec_state) => exact (spec_sink o) : typeclass_instances.

(** The index of each attachment gives its log time. *)
Definition attachments_timed (s : Summary) (atts : list Attachment) : Prop :=
  Forall2 (λ index a, attachment_log_time a = ai_log_time index) (sort_by (by_key (λ index, [ai_offset index])) (attachment_indexes s)) atts.

(** What is written: messages, then metadata, then attachments. *)
Record filtered (recs : Z → list (Z * bytes)) (s : Summary) (atts : list Attachment) (mds : list Metadata) (pre main : list Message) (lg : list record) : Prop := {
  fd_messages : messages_of_log lg = pre ++ main;
  fd_pre : last_per_channel (List.filter (before_start opts) (summary_messages recs s)) pre;
  fd_main : main ≡ₚ List.filter (selected opts) (summary_messages recs s);
  fd_order : StronglySorted (λ a b, message_log_time a ≤ message_log_time b)%Z (pre ++ main);
  fd_extra : List.filter is_extra lg = (RMetadata <$> kept_metadata opts mds) ++ (attachment_in o <$> kept_attachments opts atts);
}.

Lemma filter_calls_cost recs s atts mds pre main : last_per_channel (List.filter (before_start opts) (summary_messages recs s)) pre →
  main ≡ₚ List.filter (selected opts) (summary_messages recs s) →
  let calls := (WriteMessage <$> pre) ++ (WriteMessage <$> main) ++ (WriteMetadata <$> kept_metadata opts mds) ++ (attached <$> kept_attachments opts atts) in
  calls ⊆+ copy_calls atts mds (summary_messages recs s).
Proof.
  intros [Hp _ _] Hm calls. unfold calls, copy_calls.
  assert (WriteMessage <$> (pre ++ main) ⊆+ WriteMessage <$> summary_messages recs s) as Hs1.
  { apply fmap_submseteq. etransitivity; [|exact (filters_disjoint _ _ _ (before_not_selected opts))]. rewrite Hm. by apply submseteq_app. }
  assert ((WriteMetadata <$> kept_metadata opts mds) ⊆+ (WriteMetadata <$> mds)) as Hs2.
  { apply fmap_submseteq. unfold kept_metadata. destruct (fo_include_metadata opts); [done|apply submseteq_nil_l]. }
  assert ((attached <$> kept_attachments opts atts) ⊆+ (attached <$> atts)) as Hs3.
  { apply fmap_submseteq. unfold kept_attachments. destruct (fo_include_attachments opts); [|apply submseteq_nil_l].
    clear. induction atts as [|a l IH]; [done|]. cbn. destruct (in_range _ _); [by apply submseteq_skip|by apply submseteq_cons]. }
  rewrite (Permutation_app_comm (attached <$> atts)), (Permutation_app_comm (WriteMetadata <$> mds)), <-app_assoc.
  rewrite (app_assoc (WriteMessage <$> pre)), <-fmap_app. by repeat apply submseteq_app.
Qed.

Lemma filtered_spec fuel input src recs s atts mds : Summary_read fuel input = Ok (Some s) → copyable o input src recs s atts mds → attachments_timed s atts →
  length (chunk_indexes s) + length (all_messages no_filter recs (chunk_indexes s)) < fuel →
  ∃ st calls pre main, filter_with_writer fuel input opts (mkJob (spec_new o, []) (mkLinearFilter ∅ ∅ ∅)) = (Ok (), mkJob (st, calls) (mkLinearFilter ∅ ∅ ∅)) ∧
    calls ⊆+ copy_calls atts mds (summary_messages recs s) ∧ filtered recs s atts mds pre main (sp_log st) ∧ uses (channels s) st.
Proof.
  intros Hsum [Hne Hin Ha Hm Hcalls [Hfa Hfm] Hroom] Hta Hfuel. pose proof (ip_channels _ _ _ _ Hin) as Hch.
  destruct (find_pre_start_spec opts input src recs s Hin fuel Hfuel) as (found & Hfound & Hkf & Hpre & Hsf).
  destruct (filter_messages_spec opts input src recs s Hin fuel Hfuel) as (out & Hko & Hmain & Hso & Hloop).
  set (pre := omap (M:=list) (message_on_channel (channels s)) (found_message <$> found)) in *. set (main := omap (M:=list) (message_on_channel (channels s)) out) in *.
  pose proof (filter_calls_cost recs s atts mds pre main Hpre Hmain) as Hsub.
  assert (zlen pre + zlen main ≤ u64_max)%Z as Hlen.
  { unfold run_size in Hroom. pose proof Hsub as [k Hk]%submseteq_Permutation. rewrite (calls_cost_perm o _ _ Hk), !calls_cost_app in Hroom.
    pose proof (messages_cost o pre). pose proof (messages_cost o main). pose proof (calls_cost_pos o k).
    pose proof (calls_cost_pos o (attached <$> kept_attachments opts atts)). pose proof (calls_cost_pos o (WriteMetadata <$> kept_metadata opts mds)). zlen_facts. unfold u64_max. lia. }
  set (x := mkLinearFilter ∅ ∅ ∅).
  destruct (copied_all_messages o (channels s) Hch s (found_message <$> found) (spec_new o) [] [] [] x eq_refl (copied_new o _) Hkf) as (st1 & E1 & Hc1).
  { fold pre. change (zlen (@nil Message)) with 0%Z. pose proof (zlen_nonneg main). lia. }
  fold pre in E1, Hc1. cbn [app] in E1, Hc1.
  destruct (copied_all_messages o (channels s) Hch s out st1 [] pre (WriteMessage <$> pre) x eq_refl Hc1 Hko Hlen) as (st2 & E2 & Hc2). fold main in E2, Hc2.
  destruct (filter_metadata_copied o opts s input mds st2 _ ((WriteMessage <$> pre) ++ (WriteMessage <$> main)) x Hm Hc2 Hfm) as (st3 & E3 & Hc3).
  destruct (filter_attachments_copied o opts s input atts st3 _ _ (((WriteMessage <$> pre) ++ (WriteMessage <$> main)) ++ (WriteMetadata <$> kept_metadata opts mds)) x (both_hold _ _ _ _ Ha Hta) Hc3) as (st4 & E4 & Hc4).
  { assert (logged is_attachment_record (RMetadata <$> kept_metadata opts mds) = 0%Z) as ->; [|lia]. unfold logged. clear. by induction (kept_metadata opts mds). }
  eexists st4, _, pre, main. split_and!.
  - unfold filter_with_writer. rewrite Hsum. cbn [from_mcap map_err]. rewrite (bind_method_Ok (lift _) _ _ (Some s) _ eq_refl).
    destruct (chunk_indexes s) as [|c cs] eqn:Hci; [done|]. unfold filter_indexed. rewrite Hfound, (bind_method_Ok (lift _) _ _ found _ eq_refl).
    rewrite (bind_method_Ok _ _ _ () (mkJob (st1, WriteMessage <$> pre) x)); last first.
    { etransitivity; [|exact E1]. exact (each_fmap (λ m, write_indexed_message s m.1 m.2) found_message found _ _). }
    rewrite (bind_method_Ok _ _ _ _ _ (eq_trans (Hloop _ _ _ _) E2)), (bind_method_Ok _ _ _ _ _ E3). exact E4.
  - by rewrite <-!app_assoc.
  - split; [by apply Hc4|done|done| |by apply Hc4]. apply StronglySorted_app; [done|done|].
    intros a b Hap Hbm. destruct Hpre as [Hp _ _]. pose proof (elem_of_submseteq _ _ _ Hap Hp) as Hb. apply list_elem_of_In, filter_In in Hb as [_ Hb].
    rewrite Hmain in Hbm. apply list_elem_of_In, filter_In in Hbm as [_ Hbm]. unfold before_start in Hb. unfold selected in Hbm.
    rewrite !andb_true_iff, ?Z.ltb_lt, ?Z.leb_le in *. lia.
  - apply Hc4.
Qed.

Lemma filter_written fuel input src recs s atts mds w : Summary_read fuel input = Ok (Some s) → read_header input = Ok header →
  copyable o input src recs s atts mds → attachments_timed s atts → options_ok o → file w [] 0 → streams o →
  length (chunk_indexes s) + length (all_messages no_filter recs (chunk_indexes s)) < fuel →
  ∃ w' pre main lg, filter_to_writer version cpus fuel input w opts disable_seeking = Ok w' ∧ holds_log o w' lg ∧ filtered recs s atts mds pre main lg.
Proof.
  intros Hsum Hh Hcy Hta Hopts Hw Hst Hfuel. destruct (filtered_spec fuel input src recs s atts mds Hsum Hcy Hta Hfuel) as (st & calls & pre & main & E & Hsub & Hfd & Hu).
  pose proof Hsub as [k Hk]%submseteq_Permutation.
  destruct (job_writes o _ _ w _ _ st _ _ (filter_with_writer_follows o fuel input opts (oo_chunks _ Hopts)) E I Hw Hopts) as
    (wr & wr' & Ew & E1 & Hok & sum & wr'' & w' & Ef & Ei & Hholds).
  { pose proof (cy_calls _ _ _ _ _ _ _ Hcy) as Hcalls. rewrite Hk in Hcalls. by apply Forall_app in Hcalls as [? _]. }
  { pose proof (cy_room _ _ _ _ _ _ _ Hcy) as Hroom. unfold run_size in *. rewrite (calls_cost_perm o _ _ Hk), calls_cost_app in Hroom. pose proof (calls_cost_pos o k). lia. }
  exists w', pre, main, (sp_log st). split_and!; [| |done].
  - unfold filter_to_writer. rewrite Hh. cbn [mbind outcome_bind]. rewrite Ew. cbn [from_mcap map_err with_context mbind outcome_bind].
    unfold run. rewrite (bind_method_Ok _ _ _ _ _ E1). unfold in_context, on_writer. cbn [job_writer job_state]. rewrite Ef.
    cbn [fmap outcome_fmap with_context from_mcap map_err mbind outcome_bind job_writer job_state]. by rewrite Ei.
  - apply Hholds; [done|]. eapply uses_nonzero; [apply (ip_channels _ _ _ _ (cy_input _ _ _ _ _ _ _ Hcy))|exact Hu].
Qed.

(** C6: filter keeps what was asked for: from a file whose index tells the truth it writes
    a whole file that reads back as the messages of the topics and the times asked for,
    each once and in the order of their log times, after the last message before the start
    of each channel whose topic asks for it; metadata and the attachments of those times
    follow if they are asked for. *)
Theorem filter_selects fuel input src recs s atts mds w : Summary_read fuel input = Ok (Some s) → read_header input = Ok header →
  copyable o input src recs s atts mds → attachments_timed s atts → options_ok o → file w [] 0 → streams o →
  length (chunk_indexes s) + length (all_messages no_filter recs (chunk_indexes s)) < fuel →
  ∃ w' pre main lg, filter_to_writer version cpus fuel input w opts disable_seeking = Ok w' ∧ holds_log o w' lg ∧ filtered recs s atts mds pre main lg.
Proof. apply filter_written. Qed.
End command.

(** ** Compress and decompress *)

Section transcode.
Context `{Crc, !CrcLaws, HashOrder, !HashOrderOk, ZstdEncoderLib, Lz4EncoderLib} `{FileOk W file}.
Context `{!BiMap ChannelContent Z, !BiMap SchemaContent Z, !BiMapOk ChannelContent Z, !BiMapOk SchemaContent Z}.
Context `{ZstdLib, Lz4Lib, !ZstdLibOk, !Lz4LibOk, !Frames, ChunkCodecs, RegexLib, Chrono}.
Context (version : rstring) (cpus : Z) (header : option Header).

(** The options of a command that keeps everything. *)
Definition keep_all (output : option rstring) (compression : option Compression) (chunk_size : Z) (use_chunks : bool) : FilterOptions :=
  mkFilterOptions output [] [] [] 0 u64_max true true compression chunk_size use_chunks.

(** The arguments of a compress, or of a decompress. *)
Definition keeps_all (args : TranscodeCommandOptions) (output : option rstring) (compression : option Compression) (chunk_size : Z) (use_chunks : bool) : Prop :=
  ∃ path, (∃ name, args = compress_options path output chunk_size name (negb use_chunks) ∧ parse_output_compression name = Ok compression) ∨
    args = decompress_options path output chunk_size ∧ compression = None ∧ use_chunks = true.
Lemma keeps_all_builds args output compression chunk_size use_chunks : keeps_all args output compression chunk_size use_chunks →
  build_filter_options_from_transcode_options args = Ok (keep_all output compression chunk_size use_chunks).
Proof.
  intros (path & [(name & -> & E)|(-> & -> & ->)]); [|reflexivity].
  transitivity (compression ← parse_output_compression name; mret (keep_all output compression chunk_size (negb (negb use_chunks))) : Result _); [reflexivity|].
  by rewrite E, negb_involutive.
Qed.

Lemma copyable_times o `{!EncoderOk (wo_compression o) (wo_compression_level o) (wo_compression_threads o)} input src recs s atts mds :
  copyable o input src recs s atts mds → Forall (λ m, 0 ≤ message_log_time m)%Z (summary_messages recs s).
Proof.
  intros Hcy. pose proof (cy_calls _ _ _ _ _ _ _ Hcy) as Hc. unfold copy_calls in Hc. apply Forall_app in Hc as [_ [_ Hc]%Forall_app].
  apply Forall_forall. intros m Hin. assert (call_ok o (WriteMessage m)) as Hm by (eapply Forall_forall; [exact Hc|by apply list_elem_of_fmap_2]). cbn in Hm. unfold message_ok in Hm.
  apply andb_true_iff in Hm as [_ Hm]. unfold record_ok, record_wf in Hm. cbn [writable plain_record] in Hm. rewrite !andb_true_iff in Hm. destruct Hm as [[Hm _] _].
  unfold message_header_of in Hm.
  change (c_wf MessageHeader_codec (mkMessageHeader (channel_id (message_channel m)) (message_sequence m) (message_log_time m) (message_publish_time m))) with
    (c_wf u16 (channel_id (message_channel m)) && c_wf u32 (message_sequence m) && c_wf u64 (message_log_time m) && c_wf u64 (message_publish_time m)) in Hm.
  rewrite !andb_true_iff in Hm. destruct Hm as [[[_ Hm] _] _]. apply (uint_wf_in 8) in Hm. unfold in_u in Hm. cbn in Hm.
  lia.
Qed.

Lemma filter_all {A} (p : A → bool) l : Forall (λ a, p a = true) l → List.filter p l = l.
Proof. induction 1 as [|a l Ha _ IH]; [done|]. cbn. by rewrite Ha, IH. Qed.
Lemma last_of_none pre : last_per_channel [] pre → pre = [].
Proof. intros [Hp _ _]. by apply submseteq_nil_r. Qed.

Section command.
Context (output : option rstring) (compression : option Compression) (chunk_size : Z) (use_chunks : bool).
Abbreviation opts := (keep_all output compression chunk_size use_chunks).
Abbreviation o := (filter_write_options version cpus header opts (negb (bool_decide (is_Some output)))).
Context `{!EncoderOk (wo_compression o) (wo_compression_level o) (wo_compression_threads o)}.

(** C7: from a file with an index that tells the truth about its chunks, of which there is
    at least one, compress and decompress lose nothing but attachments that claim the last
    possible time: the file they write reads back as every message of the input, in the
    order of the log times, and has its metadata and then its attachments, those with the
    log time [u64::MAX] left out.  (Without chunk indexes the messages are copied in the
    order of the file, and those with that log time are left out too.) *)
Theorem transcode_keeps fuel is_terminal args input src recs s atts mds w : keeps_all args output compression chunk_size use_chunks →
  (output = None → is_terminal = false) → Summary_read fuel input = Ok (Some s) → read_header input = Ok header →
  copyable o input src recs s atts mds → attachments_timed s atts → Forall (λ a, 0 ≤ attachment_log_time a ≤ u64_max)%Z atts →
  options_ok o → file w [] 0 → streams o → length (chunk_indexes s) + length (all_messages no_filter recs (chunk_indexes s)) < fuel →
  ∃ w' lg, run_transcode version cpus fuel is_terminal input w args = Ok w' ∧ holds_log o w' lg ∧
    messages_of_log lg ≡ₚ summary_messages recs s ∧
    StronglySorted (λ a b, message_log_time a ≤ message_log_time b)%Z (messages_of_log lg) ∧
    List.filter is_extra lg = (RMetadata <$> mds) ++ (attachment_in o <$> List.filter (λ a, negb (attachment_log_time a =? u64_max)%Z) atts).
Proof.
  intros Hargs Hterm Hsum Hh Hcy Hta Hat Hopts Hw Hst Hfuel.
  destruct (filter_written version cpus header opts (negb (bool_decide (is_Some output))) fuel input src recs s atts mds w Hsum Hh Hcy Hta Hopts Hw Hst Hfuel)
    as (w' & pre & main & lg & E & Hholds & [Hms Hpre Hmain Hord Hx]).
  assert (List.filter (before_start opts) (summary_messages recs s) = []) as Hb by by apply filter_none.
  rewrite Hb in Hpre. apply last_of_none in Hpre as ->. rewrite app_nil_l in *.
  exists w', lg. split_and!; [|done| |by rewrite Hms|].
  - unfold run_transcode. rewrite (keeps_all_builds _ _ _ _ _ Hargs). cbn [mbind outcome_bind fo_output keep_all].
    destruct output as [out|]; [exact E|]. rewrite (Hterm eq_refl). exact E.
  - rewrite Hms, Hmain, filter_all; [done|]. eapply Forall_impl; [by eapply copyable_times|]. cbn beta. intros m Hm.
    unfold selected. cbn [fo_start fo_end keep_all]. rewrite (proj2 (Z.leb_le _ _) Hm). done.
  - rewrite Hx. f_equal. f_equal. unfold kept_attachments. cbn [fo_include_attachments keep_all]. clear -Hat.
    induction Hat as [|a l Ha _ IH]; [done|]. cbn [List.filter]. rewrite IH. 
    assert (in_range opts (attachment_log_time a) = negb (attachment_log_time a =? u64_max)%Z) as ->; [|done].
    unfold in_range. cbn [fo_start fo_end keep_all]. rewrite (proj2 (Z.ltb_ge _ _)) by lia. cbn [orb]. f_equal.
    destruct (Z.leb_spec u64_max (attachment_log_time a)), (Z.eqb_spec (attachment_log_time a) u64_max); (done || lia).
Qed.
End command.
End transcode.

(** ** Examples *)

Module FilterExamples.
Import BitCrc MarkLib Instances MarkEncoder CopyExamples.
#[local] Existing Instance IndexedReaderExamples.copy_codecs.

(** Patterns without special characters. *)
#[local] Instance literal_regex : RegexLib := {
  Regex := rstring;
  regex_new pattern := inr pattern;
  is_match regex topic := bool_decide (regex = lit "^(?:" ++ topic ++ lit ")$");
}.
#[local] Instance no_dates : Chrono := λ _, inl (lit "input contains invalid characters").

(** The last message of each channel before the time 20, and what comes after. *)
Definition args : TranscodeCommandOptions :=
  mkTranscodeCommandOptions None None [lit "/pose"] [] [lit "/pose"] (Some (lit "20")) 0 0 None 0 0 true true (lit "zstd") 20 true.
Definition opts : FilterOptions :=
  mkFilterOptions None [lit "^(?:/pose)$"] [] [lit "^(?:/pose)$"] 20 u64_max true true (Some Zstd) 20 true.
Example opts_built : build_filter_options_from_transcode_options args = Ok opts.
Proof. vm_compute. reflexivity. Qed.

Definition to : WriteOptions := filter_write_options (lit "0.24.0") 4 header opts true.
#[local] Instance to_encoder : EncoderOk (wo_compression to) (wo_compression_level to) (wo_compression_threads to) := mark_EncoderOk _ _.
Lemma filter_options_ok : options_ok to.
Proof. split; [|vm_compute; reflexivity|vm_compute; discriminate]. intros _ _. exists 20%Z. split; [reflexivity|lia]. Qed.
Lemma filter_streams : streams to.
Proof. intros d z Hz. right. split; [discriminate|]. left. split; [reflexivity|exact Hz]. Qed.
Lemma copyable_to : copyable to input src recs summary atts mds.
Proof.
  split.
  - vm_compute. discriminate.
  - exact input_indexed.
  - apply Forall2_ok. vm_compute. reflexivity.
  - apply Forall2_ok. vm_compute. reflexivity.
  - list_out; vm_compute; reflexivity.
  - split; vm_compute; discriminate.
  - vm_compute. discriminate.
Qed.
Lemma input_timed : attachments_timed summary atts.
Proof.
  unfold attachments_timed. let l := eval vm_compute in (sort_by (by_key (λ index, [ai_offset index])) (attachment_indexes summary)) in
  replace (sort_by (by_key (λ index, [ai_offset index])) (attachment_indexes summary)) with l by (vm_compute; reflexivity).
  let k := eval vm_compute in atts in replace atts with k by (vm_compute; reflexivity). repeat constructor.
Qed.

Lemma filter_selects_witness : ∃ w' pre main lg, filter_to_writer (lit "0.24.0") 4 fuel input WriterLogExamples.empty opts true = Ok w' ∧
  holds_log (file := cursor_file) to w' lg ∧ filtered (lit "0.24.0") 4 header opts true recs summary atts mds pre main lg.
Proof.
  apply (filter_selects (file := cursor_file) (lit "0.24.0") 4 header opts true fuel input src recs summary atts mds WriterLogExamples.empty);
    [vm_compute; reflexivity|vm_compute; reflexivity|exact copyable_to|exact input_timed|exact filter_options_ok|split; reflexivity|exact filter_streams|apply Nat.ltb_lt; vm_compute; reflexivity].
Defined.
Example kept_messages :
  message_log_time <$> List.filter (before_start opts) (summary_messages recs summary) = [10%Z] ∧
  message_log_time <$> List.filter (selected opts) (summary_messages recs summary) = [30%Z].
Proof. split; vm_compute; reflexivity. Qed.

(** A compress. *)
Definition compress_args : TranscodeCommandOptions := compress_options None None 20 (lit "zstd") false.
Definition small : WriteOptions := filter_write_options (lit "0.24.0") 4 header (keep_all None (Some Zstd) 20 true) true.
#[local] Instance small_encoder : EncoderOk (wo_compression small) (wo_compression_level small) (wo_compression_threads small) := mark_EncoderOk _ _.
Lemma transcode_keeps_witness : ∃ w' lg, run_transcode (lit "0.24.0") 4 fuel false input WriterLogExamples.empty compress_args = Ok w' ∧
  holds_log (file := cursor_file) small w' lg ∧ messages_of_log lg ≡ₚ summary_messages recs summary ∧
  StronglySorted (λ a b, message_log_time a ≤ message_log_time b)%Z (messages_of_log lg) ∧
  List.filter is_extra lg = (RMetadata <$> mds) ++ (attachment_in small <$> List.filter (λ a, negb (attachment_log_time a =? u64_max)%Z) atts).
Proof.
  apply (transcode_keeps (file := cursor_file) (lit "0.24.0") 4 header None (Some Zstd) 20 true fuel false compress_args input src recs summary atts mds WriterLogExamples.empty);
    [exists None; left; exists (lit "zstd"); split; reflexivity|reflexivity|vm_compute; reflexivity|vm_compute; reflexivity|exact copyable_to|exact input_timed
    |list_out; split; vm_compute; discriminate|exact filter_options_ok|split; reflexivity|exact filter_streams|apply Nat.ltb_lt; vm_compute; reflexivity].
Defined.

(** Without an end, the last possible time is of the range for the messages of an indexed
    file, and not for its attachments, nor for the messages of any other file. *)
Lemma last_time_dropped : fo_end opts = u64_max ∧
  (∀ c, channel_topic c = lit "/pose" → selected opts (mkMessage c 0 u64_max 0 []) = true) ∧ in_range opts u64_max = false.
Proof. split_and!; [reflexivity| |reflexivity]. intros c Hc. unfold selected. cbn [message_channel]. rewrite Hc. reflexivity. Qed.
End FilterExamples.
