(* ===== verification/Doctor.v ===== *)
(** The doctor command (doctor.rs): a file is scanned, every record is examined, chunks
    record by record, and what is wrong with it is listed.

    A [BTreeMap] is an association list in key order and a [BTreeSet] one to units
    (BTree.v).  A message is its format with the values in it, and the error it ends with
    if there is one.  Printing is not modelled. *)

From S2P Require Import Prelude Utf8 BTree Errors Bin Records Crc Codec RwBuf Decompressor LinearReader Channels Read Cli.

(** ** Data *)

Record Diagnosis := mkDiagnosis {
  errors : list anyhow;
  warnings : list anyhow;
}.

Record ParsedSchema := mkParsedSchema {
  ps_header : SchemaHeader;
  ps_data : bytes;
}.

(** [BTreeSet<u16>] *)
Abbreviation id_set := (list (Z * unit)).

Record Doctor := mkDoctor {
  strict_message_order : bool;
  diagnosis : Diagnosis;
  schemas_in_data_section : list (Z * ParsedSchema);
  channels_in_data_section : list (Z * ChannelRecord);
  channels_referenced_in_chunks_by_offset : list (Z * id_set);
  channel_ids_in_summary_section : id_set;
  schema_ids_in_summary_section : id_set;
  indexes_by_offset : list (Z * ChunkIndex);
  in_summary_section : bool;
  saw_data_end : bool;
  saw_footer : bool;
  saw_top_level_message : bool;
  message_index_warning_emitted : bool;
  last_top_level_message_time : option Z;
  global_max_log_time : option Z;
  min_log_time : option Z;
  max_log_time : option Z;
  message_count : Z;
  file_statistics : option Statistics;
  duplicate_schema_warning_ids : id_set;
  duplicate_channel_warning_ids : id_set;
}.

(** Assignments to the fields. *)
Definition set_diagnosis (v : Diagnosis) (d : Doctor) : Doctor :=
  mkDoctor (strict_message_order d) v (schemas_in_data_section d) (channels_in_data_section d)
    (channels_referenced_in_chunks_by_offset d) (channel_ids_in_summary_section d) (schema_ids_in_summary_section d)
    (indexes_by_offset d) (in_summary_section d) (saw_data_end d) (saw_footer d) (saw_top_level_message d)
    (message_index_warning_emitted d) (last_top_level_message_time d) (global_max_log_time d) (min_log_time d)
    (max_log_time d) (message_count d) (file_statistics d) (duplicate_schema_warning_ids d)
    (duplicate_channel_warning_ids d).
Definition set_schemas_in_data_section (v : list (Z * ParsedSchema)) (d : Doctor) : Doctor :=
  mkDoctor (strict_message_order d) (diagnosis d) v (channels_in_data_section d) (channels_referenced_in_chunks_by_offset d)
    (channel_ids_in_summary_section d) (schema_ids_in_summary_section d) (indexes_by_offset d) (in_summary_section d)
    (saw_data_end d) (saw_footer d) (saw_top_level_message d) (message_index_warning_emitted d)
    (last_top_level_message_time d) (global_max_log_time d) (min_log_time d) (max_log_time d) (message_count d)
    (file_statistics d) (duplicate_schema_warning_ids d) (duplicate_channel_warning_ids d).
Definition set_channels_in_data_section (v : list (Z * ChannelRecord)) (d : Doctor) : Doctor :=
  mkDoctor (strict_message_order d) (diagnosis d) (schemas_in_data_section d) v (channels_referenced_in_chunks_by_offset d)
    (channel_ids_in_summary_section d) (schema_ids_in_summary_section d) (indexes_by_offset d) (in_summary_section d)
    (saw_data_end d) (saw_footer d) (saw_top_level_message d) (message_index_warning_emitted d)
    (last_top_level_message_time d) (global_max_log_time d) (min_log_time d) (max_log_time d) (message_count d)
    (file_statistics d) (duplicate_schema_warning_ids d) (duplicate_channel_warning_ids d).
Definition set_channels_referenced_in_chunks_by_offset (v : list (Z * id_set)) (d : Doctor) : Doctor :=
  mkDoctor (strict_message_order d) (diagnosis d) (schemas_in_data_section d) (channels_in_data_section d) v
    (channel_ids_in_summary_section d) (schema_ids_in_summary_section d) (indexes_by_offset d) (in_summary_section d)
    (saw_data_end d) (saw_footer d) (saw_top_level_message d) (message_index_warning_emitted d)
    (last_top_level_message_time d) (global_max_log_time d) (min_log_time d) (max_log_time d) (message_count d)
    (file_statistics d) (duplicate_schema_warning_ids d) (duplicate_channel_warning_ids d).
Definition set_channel_ids_in_summary_section (v : id_set) (d : Doctor) : Doctor :=
  mkDoctor (strict_message_order d) (diagnosis d) (schemas_in_data_section d) (channels_in_data_section d)
    (channels_referenced_in_chunks_by_offset d) v (schema_ids_in_summary_section d) (indexes_by_offset d)
    (in_summary_section d) (saw_data_end d) (saw_footer d) (saw_top_level_message d) (message_index_warning_emitted d)
    (last_top_level_message_time d) (global_max_log_time d) (min_log_time d) (max_log_time d) (message_count d)
    (file_statistics d) (duplicate_schema_warning_ids d) (duplicate_channel_warning_ids d).
Definition set_schema_ids_in_summary_section (v : id_set) (d : Doctor) : Doctor :=
  mkDoctor (strict_message_order d) (diagnosis d) (schemas_in_data_section d) (channels_in_data_section d)
    (channels_referenced_in_chunks_by_offset d) (channel_ids_in_summary_section d) v (indexes_by_offset d)
    (in_summary_section d) (saw_data_end d) (saw_footer d) (saw_top_level_message d) (message_index_warning_emitted d)
    (last_top_level_message_time d) (global_max_log_time d) (min_log_time d) (max_log_time d) (message_count d)
    (file_statistics d) (duplicate_schema_warning_ids d) (duplicate_channel_warning_ids d).
Definition set_indexes_by_offset (v : list (Z * ChunkIndex)) (d : Doctor) : Doctor :=
  mkDoctor (strict_message_order d) (diagnosis d) (schemas_in_data_section d) (channels_in_data_section d)
    (channels_referenced_in_chunks_by_offset d) (channel_ids_in_summary_section d) (schema_ids_in_summary_section d) v
    (in_summary_section d) (saw_data_end d) (saw_footer d) (saw_top_level_message d) (message_index_warning_emitted d)
    (last_top_level_message_time d) (global_max_log_time d) (min_log_time d) (max_log_time d) (message_count d)
    (file_statistics d) (duplicate_schema_warning_ids d) (duplicate_channel_warning_ids d).
Definition set_in_summary_section (v : bool) (d : Doctor) : Doctor :=
  mkDoctor (strict_message_order d) (diagnosis d) (schemas_in_data_section d) (channels_in_data_section d)
    (channels_referenced_in_chunks_by_offset d) (channel_ids_in_summary_section d) (schema_ids_in_summary_section d)
    (indexes_by_offset d) v (saw_data_end d) (saw_footer d) (saw_top_level_message d) (message_index_warning_emitted d)
    (last_top_level_message_time d) (global_max_log_time d) (min_log_time d) (max_log_time d) (message_count d)
    (file_statistics d) (duplicate_schema_warning_ids d) (duplicate_channel_warning_ids d).
Definition set_saw_data_end (v : bool) (d : Doctor) : Doctor :=
  mkDoctor (strict_message_order d) (diagnosis d) (schemas_in_data_section d) (channels_in_data_section d)
    (channels_referenced_in_chunks_by_offset d) (channel_ids_in_summary_section d) (schema_ids_in_summary_section d)
    (indexes_by_offset d) (in_summary_section d) v (saw_footer d) (saw_top_level_message d)
    (message_index_warning_emitted d) (last_top_level_message_time d) (global_max_log_time d) (min_log_time d)
    (max_log_time d) (message_count d) (file_statistics d) (duplicate_schema_warning_ids d)
    (duplicate_channel_warning_ids d).
Definition set_saw_footer (v : bool) (d : Doctor) : Doctor :=
  mkDoctor (strict_message_order d) (diagnosis d) (schemas_in_data_section d) (channels_in_data_section d)
    (channels_referenced_in_chunks_by_offset d) (channel_ids_in_summary_section d) (schema_ids_in_summary_section d)
    (indexes_by_offset d) (in_summary_section d) (saw_data_end d) v (saw_top_level_message d)
    (message_index_warning_emitted d) (last_top_level_message_time d) (global_max_log_time d) (min_log_time d)
    (max_log_time d) (message_count d) (file_statistics d) (duplicate_schema_warning_ids d)
    (duplicate_channel_warning_ids d).
Definition set_saw_top_level_message (v : bool) (d : Doctor) : Doctor :=
  mkDoctor (strict_message_order d) (diagnosis d) (schemas_in_data_section d) (channels_in_data_section d)
    (channels_referenced_in_chunks_by_offset d) (channel_ids_in_summary_section d) (schema_ids_in_summary_section d)
    (indexes_by_offset d) (in_summary_section d) (saw_data_end d) (saw_footer d) v (message_index_warning_emitted d)
    (last_top_level_message_time d) (global_max_log_time d) (min_log_time d) (max_log_time d) (message_count d)
    (file_statistics d) (duplicate_schema_warning_ids d) (duplicate_channel_warning_ids d).
Definition set_message_index_warning_emitted (v : bool) (d : Doctor) : Doctor :=
  mkDoctor (strict_message_order d) (diagnosis d) (schemas_in_data_section d) (channels_in_data_section d)
    (channels_referenced_in_chunks_by_offset d) (channel_ids_in_summary_section d) (schema_ids_in_summary_section d)
    (indexes_by_offset d) (in_summary_section d) (saw_data_end d) (saw_footer d) (saw_top_level_message d) v
    (last_top_level_message_time d) (global_max_log_time d) (min_log_time d) (max_log_time d) (message_count d)
    (file_statistics d) (duplicate_schema_warning_ids d) (duplicate_channel_warning_ids d).
Definition set_last_top_level_message_time (v : option Z) (d : Doctor) : Doctor :=
  mkDoctor (strict_message_order d) (diagnosis d) (schemas_in_data_section d) (channels_in_data_section d)
    (channels_referenced_in_chunks_by_offset d) (channel_ids_in_summary_section d) (schema_ids_in_summary_section d)
    (indexes_by_offset d) (in_summary_section d) (saw_data_end d) (saw_footer d) (saw_top_level_message d)
    (message_index_warning_emitted d) v (global_max_log_time d) (min_log_time d) (max_log_time d) (message_count d)
    (file_statistics d) (duplicate_schema_warning_ids d) (duplicate_channel_warning_ids d).
Definition set_global_max_log_time (v : option Z) (d : Doctor) : Doctor :=
  mkDoctor (strict_message_order d) (diagnosis d) (schemas_in_data_section d) (channels_in_data_section d)
    (channels_referenced_in_chunks_by_offset d) (channel_ids_in_summary_section d) (schema_ids_in_summary_section d)
    (indexes_by_offset d) (in_summary_section d) (saw_data_end d) (saw_footer d) (saw_top_level_message d)
    (message_index_warning_emitted d) (last_top_level_message_time d) v (min_log_time d) (max_log_time d) (message_count d)
    (file_statistics d) (duplicate_schema_warning_ids d) (duplicate_channel_warning_ids d).
Definition set_min_log_time (v : option Z) (d : Doctor) : Doctor :=
  mkDoctor (strict_message_order d) (diagnosis d) (schemas_in_data_section d) (channels_in_data_section d)
    (channels_referenced_in_chunks_by_offset d) (channel_ids_in_summary_section d) (schema_ids_in_summary_section d)
    (indexes_by_offset d) (in_summary_section d) (saw_data_end d) (saw_footer d) (saw_top_level_message d)
    (message_index_warning_emitted d) (last_top_level_message_time d) (global_max_log_time d) v (max_log_time d)
    (message_count d) (file_statistics d) (duplicate_schema_warning_ids d) (duplicate_channel_warning_ids d).
Definition set_max_log_time (v : option Z) (d : Doctor) : Doctor :=
  mkDoctor (strict_message_order d) (diagnosis d) (schemas_in_data_section d) (channels_in_data_section d)
    (channels_referenced_in_chunks_by_offset d) (channel_ids_in_summary_section d) (schema_ids_in_summary_section d)
    (indexes_by_offset d) (in_summary_section d) (saw_data_end d) (saw_footer d) (saw_top_level_message d)
    (message_index_warning_emitted d) (last_top_level_message_time d) (global_max_log_time d) (min_log_time d) v
    (message_count d) (file_statistics d) (duplicate_schema_warning_ids d) (duplicate_channel_warning_ids d).
Definition set_message_count (v : Z) (d : Doctor) : Doctor :=
  mkDoctor (strict_message_order d) (diagnosis d) (schemas_in_data_section d) (channels_in_data_section d)
    (channels_referenced_in_chunks_by_offset d) (channel_ids_in_summary_section d) (schema_ids_in_summary_section d)
    (indexes_by_offset d) (in_summary_section d) (saw_data_end d) (saw_footer d) (saw_top_level_message d)
    (message_index_warning_emitted d) (last_top_level_message_time d) (global_max_log_time d) (min_log_time d)
    (max_log_time d) v (file_statistics d) (duplicate_schema_warning_ids d) (duplicate_channel_warning_ids d).
Definition set_file_statistics (v : option Statistics) (d : Doctor) : Doctor :=
  mkDoctor (strict_message_order d) (diagnosis d) (schemas_in_data_section d) (channels_in_data_section d)
    (channels_referenced_in_chunks_by_offset d) (channel_ids_in_summary_section d) (schema_ids_in_summary_section d)
    (indexes_by_offset d) (in_summary_section d) (saw_data_end d) (saw_footer d) (saw_top_level_message d)
    (message_index_warning_emitted d) (last_top_level_message_time d) (global_max_log_time d) (min_log_time d)
    (max_log_time d) (message_count d) v (duplicate_schema_warning_ids d) (duplicate_channel_warning_ids d).
Definition set_duplicate_schema_warning_ids (v : id_set) (d : Doctor) : Doctor :=
  mkDoctor (strict_message_order d) (diagnosis d) (schemas_in_data_section d) (channels_in_data_section d)
    (channels_referenced_in_chunks_by_offset d) (channel_ids_in_summary_section d) (schema_ids_in_summary_section d)
    (indexes_by_offset d) (in_summary_section d) (saw_data_end d) (saw_footer d) (saw_top_level_message d)
    (message_index_warning_emitted d) (last_top_level_message_time d) (global_max_log_time d) (min_log_time d)
    (max_log_time d) (message_count d) (file_statistics d) v (duplicate_channel_warning_ids d).
Definition set_duplicate_channel_warning_ids (v : id_set) (d : Doctor) : Doctor :=
  mkDoctor (strict_message_order d) (diagnosis d) (schemas_in_data_section d) (channels_in_data_section d)
    (channels_referenced_in_chunks_by_offset d) (channel_ids_in_summary_section d) (schema_ids_in_summary_section d)
    (indexes_by_offset d) (in_summary_section d) (saw_data_end d) (saw_footer d) (saw_top_level_message d)
    (message_index_warning_emitted d) (last_top_level_message_time d) (global_max_log_time d) (min_log_time d)
    (max_log_time d) (message_count d) (file_statistics d) (duplicate_schema_warning_ids d) v.


(** [Doctor::new] *)
Definition Doctor_new (strict : bool) : Doctor :=
  mkDoctor strict (mkDiagnosis [] []) [] [] [] [] [] [] false false false false false None None None None 0 None [] [].

(** ** Examining records *)

Section doctor.
Context `{Crc, ZstdLib, Lz4Lib}.
Abbreviation doctor A := (method Doctor anyhow A).

Definition update (f : Doctor → Doctor) : doctor () := modify f.
Definition warn (message : anyhow) : doctor () :=
  update (λ d, set_diagnosis (mkDiagnosis (errors (diagnosis d)) (warnings (diagnosis d) ++ [message])) d).
Definition error (message : anyhow) : doctor () :=
  update (λ d, set_diagnosis (mkDiagnosis (errors (diagnosis d) ++ [message]) (warnings (diagnosis d))) d).
(** [if b { self.error(..) }] *)
Definition error_if (b : bool) (message : anyhow) : doctor () := if b then error message else mret ().

Definition warn_message_index_outside_chunks_once : doctor () :=
  emitted ← gets message_index_warning_emitted;
  if emitted : bool then mret () else
  _ ← update (set_message_index_warning_emitted true);
  warn (Msg "Message index in file has message records outside chunks. Indexed readers will miss these messages." []).

(** What is said of a record when an earlier one has its identifier. *)
Definition compare_schemas (header : SchemaHeader) (data : bytes) (previous : ParsedSchema) : doctor () :=
  _ ← error_if (negb (bool_decide (sh_name (ps_header previous) = sh_name header)))
        (Msg "Two schema records with same ID {} but different names ({:?} != {:?})" [Num (sh_id header); Str (sh_name header); Str (sh_name (ps_header previous))]);
  _ ← error_if (negb (bool_decide (sh_encoding (ps_header previous) = sh_encoding header)))
        (Msg "Two schema records with same ID {} but different encodings ({:?} != {:?})" [Num (sh_id header); Str (sh_encoding header); Str (sh_encoding (ps_header previous))]);
  error_if (negb (bool_decide (ps_data previous = data)))
    (Msg "Two schema records with different data present with same ID {}" [Num (sh_id header)]).

Definition examine_schema (header : SchemaHeader) (data : bytes) : doctor () :=
  let id := sh_id header in
  _ ← (match sh_encoding header, data with
       | [], [] => warn (Msg "Schema with ID: {}, Name: {:?} has empty Encoding and Data fields" [Num id; Str (sh_name header)])
       | [], _ => error (Msg "Schema with ID: {} has empty Encoding but Data is non-empty" [Num id])
       | _, _ => mret ()
       end);
  _ ← error_if (id =? 0)%Z (Msg "Schema.ID 0 is reserved. Do not make Schema records with ID 0." []);
  schemas ← gets schemas_in_data_section;
  _ ← match bt_get id schemas with Some previous => compare_schemas header data previous | None => mret () end;
  in_summary ← gets in_summary_section;
  if in_summary : bool then
    _ ← error_if (negb (bt_contains id schemas)) (Msg "Schema with id {} in summary section does not exist in data section" [Num id]);
    update (λ d, set_schema_ids_in_summary_section (bt_insert id () (schema_ids_in_summary_section d)) d)
  else
    duplicates ← gets duplicate_schema_warning_ids;
    _ ← (if bt_contains id schemas then
           _ ← update (set_duplicate_schema_warning_ids (bt_insert id () duplicates));
           if negb (bt_contains id duplicates) then warn (Msg "Duplicate schema records in data section with ID {}" [Num id]) else mret ()
         else mret ());
    update (λ d, set_schemas_in_data_section (bt_insert id (mkParsedSchema header data) (schemas_in_data_section d)) d).

Definition compare_channels (channel previous : ChannelRecord) : doctor () :=
  _ ← error_if (negb (c_schema_id previous =? c_schema_id channel)%Z)
        (Msg "Two channel records with same ID {} but different schema IDs ({} != {})" [Num (c_id channel); Num (c_schema_id channel); Num (c_schema_id previous)]);
  _ ← error_if (negb (bool_decide (c_topic previous = c_topic channel)))
        (Msg "Two channel records with same ID {} but different topics ({:?} != {:?})" [Num (c_id channel); Str (c_topic channel); Str (c_topic previous)]);
  _ ← error_if (negb (bool_decide (c_message_encoding previous = c_message_encoding channel)))
        (Msg "Two channel records with same ID {} but different message encodings ({:?} != {:?})" [Num (c_id channel); Str (c_message_encoding channel); Str (c_message_encoding previous)]);
  error_if (negb (bool_decide (c_metadata previous = c_metadata channel)))
    (Msg "Two channel records with different metadata present with same ID {}" [Num (c_id channel)]).

Definition examine_channel (channel : ChannelRecord) : doctor () :=
  let id := c_id channel in
  channels ← gets channels_in_data_section;
  _ ← match bt_get id channels with Some previous => compare_channels channel previous | None => mret () end;
  in_summary ← gets in_summary_section;
  _ ← (if in_summary : bool then
         _ ← error_if (negb (bt_contains id channels)) (Msg "Channel with ID {} in summary section does not exist in data section" [Num id]);
         update (λ d, set_channel_ids_in_summary_section (bt_insert id () (channel_ids_in_summary_section d)) d)
       else
         duplicates ← gets duplicate_channel_warning_ids;
         _ ← (if bt_contains id channels then
                _ ← update (set_duplicate_channel_warning_ids (bt_insert id () duplicates));
                if negb (bt_contains id duplicates) then warn (Msg "Duplicate channel records in data section with ID {}" [Num id]) else mret ()
              else mret ());
         update (λ d, set_channels_in_data_section (bt_insert id channel (channels_in_data_section d)) d));
  schemas ← gets schemas_in_data_section;
  error_if (negb (c_schema_id channel =? 0)%Z && negb (bt_contains (c_schema_id channel) schemas))
    (Msg "Encountered Channel ({}) with unknown Schema ({})" [Num id; Num (c_schema_id channel)]).

Definition observe_message_time (log_time : Z) : doctor () :=
  d ← get;
  count ← lift (add_ u64_max (message_count d) 1);
  put (set_max_log_time (Some (match max_log_time d with Some m => Z.max m log_time | None => log_time end))
    (set_min_log_time (Some (match min_log_time d with Some m => Z.min m log_time | None => log_time end))
    (set_global_max_log_time (Some (match global_max_log_time d with Some m => Z.max m log_time | None => log_time end))
    (set_message_count count d)))).

(** The topic of a message's channel, which is to be known. *)
Definition message_topic (header : MessageHeader) : doctor (option rstring) :=
  channels ← gets channels_in_data_section;
  let topic := c_topic <$> bt_get (m_channel_id header) channels in
  _ ← error_if (bool_decide (topic = None)) (Msg "Got a Message record for channel: {} before a channel record." [Num (m_channel_id header)]);
  mret topic.
Definition topic_or_unknown (topic : option rstring) : rstring := default (lit "<unknown>") topic.

Definition examine_top_level_message (header : MessageHeader) : doctor () :=
  topic ← message_topic header;
  last ← gets last_top_level_message_time;
  _ ← match last with
      | Some previous =>
          error_if (m_log_time header <? previous)%Z
            (Msg "Message.log_time {} on {:?} is less than the previous message record time {}" [Num (m_log_time header); Str (topic_or_unknown topic); Num previous])
      | None => mret ()
      end;
  _ ← update (set_last_top_level_message_time (Some (m_log_time header)));
  observe_message_time (m_log_time header).

(** *** Chunks *)

Definition opcode_name (opcode : Z) : arg :=
  if (opcode =? op.HEADER)%Z then Str (lit "Header")
  else if (opcode =? op.FOOTER)%Z then Str (lit "Footer")
  else if (opcode =? op.SCHEMA)%Z then Str (lit "Schema")
  else if (opcode =? op.CHANNEL)%Z then Str (lit "Channel")
  else if (opcode =? op.MESSAGE)%Z then Str (lit "Message")
  else if (opcode =? op.CHUNK)%Z then Str (lit "Chunk")
  else if (opcode =? op.MESSAGE_INDEX)%Z then Str (lit "MessageIndex")
  else if (opcode =? op.CHUNK_INDEX)%Z then Str (lit "ChunkIndex")
  else if (opcode =? op.ATTACHMENT)%Z then Str (lit "Attachment")
  else if (opcode =? op.ATTACHMENT_INDEX)%Z then Str (lit "AttachmentIndex")
  else if (opcode =? op.STATISTICS)%Z then Str (lit "Statistics")
  else if (opcode =? op.METADATA)%Z then Str (lit "Metadata")
  else if (opcode =? op.METADATA_INDEX)%Z then Str (lit "MetadataIndex")
  else if (opcode =? op.SUMMARY_OFFSET)%Z then Str (lit "SummaryOffset")
  else if (opcode =? op.DATA_END)%Z then Str (lit "DataEnd")
  else Num opcode.

(** What [examine_chunk] keeps of the messages of a chunk. *)
Record ChunkSeen := mkChunkSeen {
  referenced_channels : id_set;
  chunk_min_log_time : option Z;
  chunk_max_log_time : option Z;
  chunk_message_count : Z;
}.

(** A message of a chunk. *)
Definition examine_chunk_message (header : MessageHeader) (c : ChunkSeen) : doctor ChunkSeen :=
  topic ← message_topic header;
  latest ← gets global_max_log_time;
  strict ← gets strict_message_order;
  _ ← match latest with
      | Some latest_log_time =>
          if (m_log_time header <? latest_log_time)%Z then
            let message := Msg "Message.log_time {} on {:?} is less than the latest log time {}" [Num (m_log_time header); Str (topic_or_unknown topic); Num latest_log_time] in
            if strict : bool then error message else warn message
          else mret ()
      | None => mret ()
      end;
  count ← lift (add_ u64_max (chunk_message_count c) 1);
  _ ← observe_message_time (m_log_time header);
  mret (mkChunkSeen (bt_insert (m_channel_id header) () (referenced_channels c))
    (Some (match chunk_min_log_time c with Some m => Z.min m (m_log_time header) | None => m_log_time header end))
    (Some (match chunk_max_log_time c with Some m => Z.max m (m_log_time header) | None => m_log_time header end)) count).

Definition examine_nested (r : record) (c : ChunkSeen) : doctor ChunkSeen :=
  match r with
  | RSchema header data => _ ← examine_schema header data; mret c
  | RChannel channel => _ ← examine_channel channel; mret c
  | RMessage header data => examine_chunk_message header c
  | other => _ ← error (Msg "Illegal record in chunk: {}" [opcode_name (record_opcode other)]); mret c
  end.

(** [for nested_record in chunk_reader]: an error is noted, and the loop goes on. *)
Fixpoint examine_nested_records (fuel : nat) (start_offset : Z) (reader : InnerReader) (c : ChunkSeen) : doctor ChunkSeen :=
  match fuel with
  | 0 => lift Fuel
  | S fuel =>
      let '(nested_record, reader) := InnerReader_next reader in
      match nested_record with
      | Ok (Some r) => c ← examine_nested r c; examine_nested_records fuel start_offset reader c
      | Ok None => mret c
      | Err err =>
          _ ← error (Context "failed to parse nested chunk record at {start_offset}" [Num start_offset] (FromMcap err));
          examine_nested_records fuel start_offset reader c
      | Panic => lift Panic
      | Fuel => lift Fuel
      end
  end.

Definition examine_chunk (fuel : nat) (header : ChunkHeader) (data : bytes) (start_offset : Z) : doctor () :=
  match ChunkReader_new header data with
  | Err err => error (Context "failed to read chunk at offset {start_offset}" [Num start_offset] (FromMcap err))
  | Panic => lift Panic
  | Fuel => lift Fuel
  | Ok chunk_reader =>
      c ← examine_nested_records fuel start_offset chunk_reader (mkChunkSeen [] None None 0);
      _ ← (if (0 <? chunk_message_count c)%Z then
             observed_min ← lift (expect (chunk_min_log_time c));
             observed_max ← lift (expect (chunk_max_log_time c));
             _ ← error_if (negb (observed_min =? ch_message_start_time header)%Z)
                   (Msg "Chunk.message_start_time {} does not match the earliest message log time {}" [Num (ch_message_start_time header); Num observed_min]);
             error_if (negb (observed_max =? ch_message_end_time header)%Z)
               (Msg "Chunk.message_end_time {} does not match the latest message log time {}" [Num (ch_message_end_time header); Num observed_max])
           else mret ());
      update (λ d, set_channels_referenced_in_chunks_by_offset (bt_insert start_offset (referenced_channels c) (channels_referenced_in_chunks_by_offset d)) d)
  end.

(** ** The records of the file *)

Definition is_known_profile (profile : rstring) : bool :=
  bool_decide (profile = []) || bool_decide (profile = lit "ros1") || bool_decide (profile = lit "ros2").

Definition examine_chunk_index (index : ChunkIndex) : doctor () :=
  top_level ← gets saw_top_level_message;
  _ ← (if top_level : bool then warn_message_index_outside_chunks_once else mret ());
  indexes ← gets indexes_by_offset;
  _ ← update (set_indexes_by_offset (bt_insert (ci_chunk_start_offset index) index indexes));
  error_if (bt_contains (ci_chunk_start_offset index) indexes)
    (Msg "Multiple chunk indexes found for chunk at offset {}" [Num (ci_chunk_start_offset index)]).

Definition handle_top_level_record (fuel : nat) (r : record) (offset : Z) : doctor () :=
  match r with
  | RHeader header =>
      _ ← (if bool_decide (h_library header = []) then
             warn (Msg "Set the Header.library field to a value that identifies the software that produced the file." []) else mret ());
      if is_known_profile (h_profile header) then mret ()
      else warn (Msg "Header.profile field {:?} is not a well-known profile." [Str (h_profile header)])
  | RFooter _ => update (set_saw_footer true)
  | RSchema header data => examine_schema header data
  | RChannel channel => examine_channel channel
  | RMessage header _ => _ ← update (set_saw_top_level_message true); examine_top_level_message header
  | RChunk header data => examine_chunk fuel header data offset
  | RMessageIndex _ =>
      top_level ← gets saw_top_level_message;
      if top_level : bool then warn_message_index_outside_chunks_once else mret ()
  | RChunkIndex index => examine_chunk_index index
  | RStatistics statistics =>
      previous ← gets file_statistics;
      _ ← error_if (bool_decide (is_Some previous)) (Msg "File contains multiple Statistics records" []);
      update (set_file_statistics (Some statistics))
  | RDataEnd _ => _ ← update (set_saw_data_end true); update (set_in_summary_section true)
  | RUnknown opcode _ => warn (Msg "Encountered unknown top-level record opcode 0x{opcode:02x}" [Num opcode])
  | _ => mret ()
  end.

Definition doctor_reader (mcap : bytes) : LinearReaderOptions :=
  with_record_length_limit (zlen mcap) (with_validate_summary_section_crc true (with_validate_data_section_crc true
    (with_validate_chunk_crcs true (with_emit_chunks true LinearReaderOptions_default)))).

(** The scan keeps the offset of the next record beside the doctor. *)
Record Scanning := mkScanning {
  sc_doctor : Doctor;
  next_record_offset : Z;
}.
Definition on_doctor {A} (m : doctor A) : method Scanning anyhow A := λ s,
  let '(o, d) := m (sc_doctor s) in (o, mkScanning d (next_record_offset s)).

Definition scan_record (fuel : nat) (opcode : Z) (data : bytes) : method Scanning anyhow () :=
  record_offset ← gets next_record_offset;
  next ← lift (n ← add_ u64_max 9 (zlen data); add_ u64_max record_offset n);
  _ ← modify (λ s, mkScanning (sc_doctor s) next);
  match parse_record opcode data with
  | Ok r => on_doctor (handle_top_level_record fuel r record_offset)
  | Err err => on_doctor (error (Context "Failed to parse top-level record at offset {}" [Num record_offset] (FromMcap err)))
  | Panic => lift Panic
  | Fuel => lift Fuel
  end.
(** An error of the reader ends the scan. *)
Definition scan_error (err : McapError) : method Scanning anyhow () :=
  on_doctor (error (Context "Failed to read next token" [] (FromMcap err))).
Definition scan_top_level (fuel : nat) (mcap : bytes) : doctor () := λ d,
  let '(o, s) := scan_with scan_error (doctor_reader mcap) mcap (scan_record fuel) (mkScanning d (zlen MAGIC)) in (o, sc_doctor s).

Definition finalize_record_presence : doctor () :=
  d ← get;
  _ ← error_if (negb (saw_data_end d)) (Msg "File does not contain a DataEnd record" []);
  error_if (negb (saw_footer d)) (Msg "File does not contain a Footer record" []).

(** *** The chunk indexes *)

Record RawRecordRef := mkRawRecordRef {
  raw_opcode : Z;
  raw_length : Z;
  raw_body : bytes;
}.

(** An [offset] close to the largest there is overflows: a panic, for without the check of
    the addition the index into the file is out of range. *)
Definition read_record_at_offset (mcap : bytes) (offset : Z) : Result RawRecordRef :=
  head_end ← add_ usize_max offset 9;
  if (zlen mcap <? head_end)%Z then bail "record header extends beyond file" [] else
  opcode ← slice offset (offset + 1) mcap;
  len ← slice (offset + 1) head_end mcap;
  let length := le_dec len in
  if (usize_max <? head_end + length)%Z then bail "record length overflow" [] else
  let end_ := (head_end + length)%Z in
  if (zlen mcap <? end_)%Z then bail "record extends beyond file" [] else
  body ← slice head_end end_ mcap;
  mret (mkRawRecordRef (le_dec opcode) length body).

(** The channels of an indexed chunk, and their schemas, are to be in the summary. *)
Definition check_repeated (chunk_offset channel_id : Z) : doctor () :=
  d ← get;
  _ ← error_if (negb (bt_contains channel_id (channel_ids_in_summary_section d)))
        (Msg "Indexed chunk at offset {} contains messages referencing channel ({}) not duplicated in summary section" [Num chunk_offset; Num channel_id]);
  match bt_get channel_id (channels_in_data_section d) with
  | Some channel =>
      error_if (negb (c_schema_id channel =? 0)%Z && negb (bt_contains (c_schema_id channel) (schema_ids_in_summary_section d)))
        (Msg "Indexed chunk at offset {} contains messages referencing schema ({}) not duplicated in summary section" [Num chunk_offset; Num (c_schema_id channel)])
  | None => mret ()
  end.

(** What the index says of the chunk's header. *)
Definition compare_index (chunk_offset : Z) (header : ChunkHeader) (index : ChunkIndex) : doctor () :=
  _ ← error_if (negb (ch_message_start_time header =? ci_message_start_time index)%Z)
        (Msg "Chunk at offset {} has message start time {}, but its chunk index has message start time {}" [Num chunk_offset; Num (ch_message_start_time header); Num (ci_message_start_time index)]);
  _ ← error_if (negb (ch_message_end_time header =? ci_message_end_time index)%Z)
        (Msg "Chunk at offset {} has message end time {}, but its chunk index has message end time {}" [Num chunk_offset; Num (ch_message_end_time header); Num (ci_message_end_time index)]);
  _ ← error_if (negb (bool_decide (ch_compression header = ci_compression index)))
        (Msg "Chunk at offset {} has compression {:?}, but its chunk index has compression {:?}" [Num chunk_offset; Str (ch_compression header); Str (ci_compression index)]);
  _ ← error_if (negb (ch_compressed_size header =? ci_compressed_size index)%Z)
        (Msg "Chunk at offset {} has data length {}, but its chunk index has compressed size {}" [Num chunk_offset; Num (ch_compressed_size header); Num (ci_compressed_size index)]);
  error_if (negb (ch_uncompressed_size header =? ci_uncompressed_size index)%Z)
    (Msg "Chunk at offset {} has uncompressed size {}, but its chunk index has uncompressed size {}" [Num chunk_offset; Num (ch_uncompressed_size header); Num (ci_uncompressed_size index)]).

(** The record a chunk index points to. *)
Definition check_indexed_record (chunk_offset : Z) (index : ChunkIndex) (raw_record : RawRecordRef) : doctor () :=
  if negb (raw_opcode raw_record =? op.CHUNK)%Z then
    error (Msg "Chunk index points to offset {} but the record at this offset is a {}" [Num chunk_offset; opcode_name (raw_opcode raw_record)])
  else
    length ← lift (add_ u64_max 9 (raw_length raw_record));
    if negb (ci_chunk_length index =? length)%Z then
      error (Msg "Chunk index {} length mismatch: {} vs {}." [Num chunk_offset; Num (ci_chunk_length index); Num length])
    else
      match parse_record (raw_opcode raw_record) (raw_body raw_record) with
      | Ok (RChunk header _) => compare_index chunk_offset header index
      | Panic => lift Panic
      | Fuel => lift Fuel
      | _ => error (Msg "Chunk index points to offset {} but encountered error parsing the chunk at that offset" [Num chunk_offset])
      end.

Definition validate_chunk_index (mcap : bytes) (p : Z * ChunkIndex) : doctor () :=
  let '(chunk_offset, index) := p in
  referenced ← gets channels_referenced_in_chunks_by_offset;
  _ ← match bt_get chunk_offset referenced with
      | Some channels_referenced => for_all (λ channel, check_repeated chunk_offset channel.1) channels_referenced
      | None => mret ()
      end;
  match read_record_at_offset mcap chunk_offset with
  | Ok raw_record => check_indexed_record chunk_offset index raw_record
  | Err err => error (Context "Chunk index points to offset {} but encountered error reading at that offset" [Num chunk_offset] err)
  | Panic => lift Panic
  | Fuel => lift Fuel
  end.
Definition validate_chunk_indexes (mcap : bytes) : doctor () :=
  indexes ← gets indexes_by_offset;
  for_all (validate_chunk_index mcap) indexes.

Definition validate_statistics : doctor () :=
  d ← get;
  match file_statistics d with
  | None => mret ()
  | Some statistics =>
      _ ← (if (0 <? message_count d)%Z then
             _ ← match min_log_time d with
                 | Some min => error_if (negb (st_message_start_time statistics =? min)%Z)
                     (Msg "Statistics has message start time {}, but the minimum message start time is {}" [Num (st_message_start_time statistics); Num min])
                 | None => mret ()
                 end;
             match max_log_time d with
             | Some max => error_if (negb (st_message_end_time statistics =? max)%Z)
                 (Msg "Statistics has message end time {}, but the maximum message end time is {}" [Num (st_message_end_time statistics); Num max])
             | None => mret ()
             end
           else mret ());
      error_if (negb (st_message_count statistics =? message_count d)%Z)
        (Msg "Statistics has message count {}, but actual number of messages is {}" [Num (st_message_count statistics); Num (message_count d)])
  end.

(** ** The command *)

(** [diagnose_mcap]; [fuel] bounds the records of a chunk and the errors met among them. *)
Definition diagnose (fuel : nat) (mcap : bytes) : doctor () :=
  _ ← scan_top_level fuel mcap;
  _ ← finalize_record_presence;
  _ ← validate_chunk_indexes mcap;
  validate_statistics.
Definition diagnose_mcap (fuel : nat) (mcap : bytes) (strict_message_order : bool) : Result Diagnosis :=
  let '(o, d) := diagnose fuel mcap (Doctor_new strict_message_order) in
  _ ← o;
  mret (diagnosis d).

(** [run], but for the file and what is printed. *)
Definition doctor_run (fuel : nat) (mcap : bytes) (strict_message_order : bool) : Result () :=
  diagnosis ← diagnose_mcap fuel mcap strict_message_order;
  match errors diagnosis with
  | [] => mret ()
  | _ => bail "encountered {} errors" [Num (Z.of_nat (length (errors diagnosis)))]
  end.
End doctor.
