(* ===== verification/DoctorTheory.v ===== *)
(** How the doctor comes to its word.

    Every method only adds errors, and none fails.  A record stops nothing ([passes]) unless
    parsing it panics, the iteration over it never ends, or it is a chunk index with an
    offset at the end of the [u64]s: a file of other records the doctor diagnoses, and
    of a chunk that ends in the middle of a record it reports errors for ever.  What the
    diagnosis is worth is in DoctorClean.v. *)

From S2P Require Import Prelude Utf8 BTree Errors Bin Records Crc Io Codec RwBuf Decompressor LinearReader LinearReaderTheory LinearReaderClient LinearReaderFile Channels Read ReadTheory Streaming Conversation LinearReaderSound MessageStream LinearReaderFlat WriterSpec ChunkWriterTheory Cli Doctor.

(** ** Errors are only added *)

Section grows.
Context `{Crc, ZstdLib, Lz4Lib}.
Implicit Types d : Doctor.

Definition quiet d : Prop := errors (diagnosis d) = [].

(** A method that does not fail, and forgets no error; unless [w] is true it also comes to
    an end. *)
Definition examines (w : bool) {A} (m : method Doctor anyhow A) : Prop := ∀ d,
  (quiet (m d).2 → quiet d) ∧ match (m d).1 with Err _ => False | Fuel => w = true | _ => True end.

Lemma examines_bind w {A B} (m : method Doctor anyhow A) (f : A → method Doctor anyhow B) :
  examines w m → (∀ a, examines w (f a)) → examines w (m ≫= f).
Proof.
  intros Hm Hf d. unfold mbind, method_bind. specialize (Hm d). destruct (m d) as [[a|e| |] d1]; cbn in *; try tauto.
  specialize (Hf a d1). destruct (f a d1) as [o d2]. cbn in *. tauto.
Qed.
Lemma examines_ret w {A} (a : A) : examines w (mret a). Proof. by intros d. Qed.
Lemma examines_gets w {A} (f : Doctor → A) : examines w (gets f). Proof. by intros d. Qed.
Lemma examines_get w : examines w get. Proof. by intros d. Qed.
Lemma examines_panic w {A} : examines w (A:=A) (lift Panic). Proof. by intros d. Qed.
Lemma examines_fuel {A} : examines true (A:=A) (lift Fuel). Proof. by intros d. Qed.
Lemma examines_add w m a b : examines w (lift (add_ m a b)). Proof. intros d. unfold lift, add_. by destruct (_ <=? _)%Z. Qed.
Lemma examines_expect w {A} (o : option A) : examines w (lift (expect o)). Proof. intros d. by destruct o. Qed.
Lemma examines_update w f : (∀ d, diagnosis (f d) = diagnosis d) → examines w (update f).
Proof. intros Hf d. unfold update, modify, quiet. cbn. by rewrite Hf. Qed.
Lemma examines_warn w m : examines w (warn m). Proof. by intros d. Qed.
Lemma examines_error w m : examines w (error m).
Proof. intros d. split; [|done]. unfold error, update, modify, quiet. cbn. by intros [? ?]%app_eq_nil. Qed.
Lemma examines_error_if w b m : examines w (error_if b m). Proof. destruct b; [apply examines_error|apply examines_ret]. Qed.
Lemma examines_each w {A} (body : A → method Doctor anyhow ()) l : (∀ a, examines w (body a)) → examines w (for_all body l).
Proof. intros Hb. induction l as [|a l IH]; [apply examines_ret|]. cbn [each]. by apply examines_bind. Qed.
End grows.
Create HintDb examines.
#[export] Hint Resolve examines_ret examines_gets examines_get examines_panic examines_fuel examines_add examines_expect examines_warn examines_error examines_error_if : examines.
Ltac examine := repeat first [progress intros | solve [auto with examines] | apply examines_bind | apply examines_each | (apply examines_update; intros []; reflexivity) | case_match].

Section examines.
Context `{Crc, ZstdLib, Lz4Lib}.

Lemma observe_examines w t : examines w (observe_message_time t).
Proof. intros d. unfold observe_message_time, mbind, method_bind, get, lift, add_, put. destruct d. cbn. by destruct (_ <=? _)%Z. Qed.
#[local] Hint Resolve observe_examines : examines.
Lemma warn_once_examines w : examines w warn_message_index_outside_chunks_once.
Proof. unfold warn_message_index_outside_chunks_once. examine. Qed.
#[local] Hint Resolve warn_once_examines : examines.
Lemma topic_examines w h : examines w (message_topic h).
Proof. unfold message_topic. examine. Qed.
#[local] Hint Resolve topic_examines : examines.
Lemma schema_examines w h b : examines w (examine_schema h b).
Proof. unfold examine_schema, compare_schemas. examine. Qed.
Lemma channel_examines w c : examines w (examine_channel c).
Proof. unfold examine_channel, compare_channels. examine. Qed.
#[local] Hint Resolve schema_examines channel_examines : examines.
Lemma nested_examines w r c : examines w (examine_nested r c).
Proof. destruct r; unfold examine_nested, examine_chunk_message; examine. Qed.
#[local] Hint Resolve nested_examines : examines.
Lemma nested_records_examine fuel off i c : examines true (examine_nested_records fuel off i c).
Proof. revert i c. induction fuel as [|fuel IH]; intros i c; cbn [examine_nested_records]; examine. Qed.
#[local] Hint Resolve nested_records_examine : examines.
Lemma chunk_examines fuel h b off : examines true (examine_chunk fuel h b off).
Proof. unfold examine_chunk. examine. Qed.
#[local] Hint Resolve chunk_examines : examines.
Lemma record_examines fuel r off : examines true (handle_top_level_record fuel r off).
Proof. destruct r; unfold handle_top_level_record, examine_top_level_message, examine_chunk_index; examine. Qed.
Lemma presence_examines w : examines w finalize_record_presence.
Proof. unfold finalize_record_presence. examine. Qed.
Lemma repeated_examines w off c : examines w (check_repeated off c).
Proof. unfold check_repeated. examine. Qed.
Lemma compare_index_examines w off h i : examines w (compare_index off h i).
Proof. unfold compare_index. examine. Qed.
#[local] Hint Resolve repeated_examines compare_index_examines : examines.
Lemma indexed_examines w off i raw : examines w (check_indexed_record off i raw).
Proof. unfold check_indexed_record. examine. all: by edestruct parse_record_not_fuel. Qed.
#[local] Hint Resolve indexed_examines : examines.
Lemma read_record_not_fuel mcap off : read_record_at_offset mcap off ≠ Fuel.
Proof.
  unfold read_record_at_offset, add_, slice. repeat (case_match; try done; cbn [mbind outcome_bind]; try done).
Qed.
Lemma index_examines w mcap p : examines w (validate_chunk_index mcap p).
Proof. unfold validate_chunk_index. examine. all: by edestruct read_record_not_fuel. Qed.
#[local] Hint Resolve index_examines : examines.
Lemma indexes_examine w mcap : examines w (validate_chunk_indexes mcap).
Proof. unfold validate_chunk_indexes. examine. Qed.
Lemma statistics_examine w : examines w validate_statistics.
Proof. unfold validate_statistics. examine. Qed.
End examines.
#[export] Hint Resolve observe_examines warn_once_examines topic_examines schema_examines channel_examines nested_examines nested_records_examine chunk_examines record_examines presence_examines repeated_examines compare_index_examines indexed_examines index_examines indexes_examine statistics_examine : examines.

(** ** Records that stop nothing, and chunks that never end *)

Section hangs.
Context `{Crc, ZstdLib, Lz4Lib}.

(** The reader came to the end of its data in the middle of a record. *)
Definition stuck (i : InnerReader) : Prop := at_eof (ir_reader i) = true ∧ eof_ok (ir_reader i) = false.

Lemma stuck_next i : stuck i → InnerReader_next i = (Err UnexpectedEof, i).
Proof.
  intros [He Ho]. unfold InnerReader_next. cbn [Nat.add inner_loop]. rewrite next_event_eof, Ho by done. by destruct i.
Qed.

(** *** What the doctor gets through *)

Definition messages_of (r : record) : Z := match r with RMessage _ _ => 1 | _ => 0 end.
(** An iteration over a chunk's records, which goes on after errors, comes from one reader
    to another, over [n] messages. *)
Inductive comes_to : InnerReader → Z → InnerReader → Prop :=
| here i : comes_to i 0 i
| after_record i r i1 i2 n : InnerReader_next i = (Ok (Some r), i1) → comes_to i1 n i2 → comes_to i (messages_of r + n) i2
| after_error i e i1 i2 n : InnerReader_next i = (Err e, i1) → comes_to i1 n i2 → comes_to i n i2.

(** It comes to its end, with errors or without. *)
Definition finishes (i : InnerReader) (n : Z) : Prop := ∃ i' i'', comes_to i n i' ∧ InnerReader_next i' = (Ok None, i'').
(** Its data ends in the middle of a record, after [n] messages. *)
Definition ends_within_record (header : ChunkHeader) (data : bytes) (n : Z) : Prop :=
  ∃ i i', ChunkReader_new header data = Ok i ∧ comes_to i n i' ∧ stuck i'.

(** A record that stops nothing, and the messages in it: it is no attachment so cut that
    parsing it panics, no chunk over which the iteration does not end, and no chunk index
    with an offset so large that the end of the record's head there is no [u64]. *)
Definition passes_record (opcode : Z) (body : bytes) (n : Z) : Prop :=
  match parse_record opcode body with
  | Ok (RChunk header data) => match ChunkReader_new header data with Ok i => finishes i n | _ => n = 0%Z end
  | Ok (RChunkIndex index) => (ci_chunk_start_offset index + 9 ≤ usize_max)%Z ∧ n = 0%Z
  | Ok r => n = messages_of r
  | Err _ => n = 0%Z
  | Panic | Fuel => False
  end.
Inductive passes : list (Z * bytes) → Z → Prop :=
| passes_nil : passes [] 0
| passes_cons opcode body n rs m : passes_record opcode body n → passes rs m → passes ((opcode, body) :: rs) (n + m).

(** *** Room for what comes *)

(** [k] more messages can be messages_of, and every chunk index noted can be looked up. *)
Definition room (k : Z) (d : Doctor) : Prop :=
  (0 ≤ message_count d ∧ message_count d + k ≤ u64_max)%Z ∧ Forall (λ p, 0 ≤ p.1 ∧ p.1 + 9 ≤ usize_max)%Z (indexes_by_offset d).
(** A method that counts [k] messages and gives [Q]. *)
Definition counts {A} (k : Z) (m : method Doctor anyhow A) (Q : A → Prop) : Prop := ∀ d j, (0 ≤ j)%Z → room (k + j) d →
  ∃ a d', m d = (Ok a, d') ∧ room j d' ∧ Q a.
Abbreviation steady m := (counts 0 m (λ _, True)).
(** With enough fuel, and the more of it the same. *)
Definition counts_by {A} (n : nat) (k : Z) (m : nat → method Doctor anyhow A) (Q : A → Prop) : Prop := ∀ d j, (0 ≤ j)%Z → room (k + j) d →
  ∃ a d', (∀ fuel, n ≤ fuel → m fuel d = (Ok a, d')) ∧ room j d' ∧ Q a.

Lemma counts_bind {A B} k1 k2 (m : method Doctor anyhow A) (f : A → method Doctor anyhow B) Q R : (0 ≤ k2)%Z →
  counts k1 m Q → (∀ a, Q a → counts k2 (f a) R) → counts (k1 + k2) (m ≫= f) R.
Proof.
  intros Hk Hm Hf d j Hj Hd. destruct (Hm d (k2 + j)%Z) as (a & d1 & E & Hd1 & Ha); [lia|by rewrite Z.add_assoc|].
  destruct (Hf a Ha d1 j Hj Hd1) as (b & d2 & E2 & Hd2 & Hb). exists b, d2. split; [|done]. unfold mbind, method_bind. by rewrite E.
Qed.
Lemma counts_then {A B} k (m : method Doctor anyhow A) (f : A → method Doctor anyhow B) R : (0 ≤ k)%Z →
  steady m → (∀ a, counts k (f a) R) → counts k (m ≫= f) R.
Proof. intros Hk Hm Hf. apply (counts_bind 0 k _ _ (λ _, True)); auto. Qed.
Lemma counts_by_const {A} k (m : method Doctor anyhow A) Q : counts k m Q → counts_by 0 k (λ _, m) Q.
Proof. intros Hm d j Hj Hd. destruct (Hm d j Hj Hd) as (a & d' & E & Hd'). by exists a, d'. Qed.
Lemma counts_by_bind {A B} n k1 k2 (m : nat → method Doctor anyhow A) (f : A → method Doctor anyhow B) Q R : (0 ≤ k2)%Z →
  counts_by n k1 m Q → (∀ a, Q a → counts k2 (f a) R) → counts_by n (k1 + k2) (λ fuel, m fuel ≫= f) R.
Proof.
  intros Hk Hm Hf d j Hj Hd. destruct (Hm d (k2 + j)%Z) as (a & d1 & E & Hd1 & Ha); [lia|by rewrite Z.add_assoc|].
  destruct (Hf a Ha d1 j Hj Hd1) as (b & d2 & E2 & Hd2 & Hb). exists b, d2. split; [|done]. intros fuel Hle. unfold mbind, method_bind. by rewrite E.
Qed.

Lemma steady_ret {A} (a : A) : steady (mret a). Proof. intros d j _ Hd. by exists a, d. Qed.
Lemma steady_gets {A} (f : Doctor → A) : steady (gets f). Proof. intros d j _ Hd. by exists (f d), d. Qed.
Lemma steady_get : steady get. Proof. intros d j _ Hd. by exists d, d. Qed.
Lemma steady_update f : (∀ d, message_count (f d) = message_count d ∧ indexes_by_offset (f d) = indexes_by_offset d) → steady (update f).
Proof. intros Hf d j _ Hd. exists (), (f d). split; [done|]. split; [|done]. unfold room in *. destruct (Hf d) as [-> ->]. done. Qed.
Lemma steady_warn msg : steady (warn msg). Proof. by apply steady_update. Qed.
Lemma steady_error msg : steady (error msg). Proof. by apply steady_update. Qed.
Lemma steady_error_if b msg : steady (error_if b msg). Proof. destruct b; [apply steady_error|apply steady_ret]. Qed.
Lemma steady_each {A} (body : A → method Doctor anyhow ()) l : (∀ a, a ∈ l → steady (body a)) → steady (for_all body l).
Proof.
  induction l as [|a l IH]; intros Hb; [apply steady_ret|]. cbn [each].
  apply counts_then; [done|apply Hb; left|]. intros _. apply IH. intros a' Ha. apply Hb. by right.
Qed.
Lemma observe_counts t : counts 1 (observe_message_time t) (λ _, True).
Proof.
  intros d j Hj [[Hc Hr] Hi]. unfold observe_message_time, mbind, method_bind, get, lift, add_, put. cbn.
  rewrite (proj2 (Z.leb_le _ _)) by lia. eexists _, _. split; [done|]. split; [|done]. split; [cbn; lia|done].
Qed.
#[local] Hint Resolve steady_ret steady_gets steady_get steady_warn steady_error steady_error_if observe_counts : counts.
Ltac steady := repeat first [progress intros | solve [auto with counts] | (apply counts_then; [lia|..]) | apply steady_each | (apply steady_update; intros []; done) | case_match].

Lemma topic_steady h : steady (message_topic h).
Proof. unfold message_topic. steady. Qed.
Lemma schema_steady h b : steady (examine_schema h b).
Proof. unfold examine_schema, compare_schemas. steady. Qed.
Lemma channel_steady c : steady (examine_channel c).
Proof. unfold examine_channel, compare_channels. steady. Qed.
Lemma warn_once_steady : steady warn_message_index_outside_chunks_once.
Proof. unfold warn_message_index_outside_chunks_once. steady. Qed.
#[local] Hint Resolve topic_steady schema_steady channel_steady warn_once_steady : counts.
Lemma message_counts h : counts 1 (examine_top_level_message h) (λ _, True).
Proof. unfold examine_top_level_message. steady. Qed.

(** What is seen of a chunk, after [n] messages. *)
Definition seen (n : Z) (c : ChunkSeen) : Prop :=
  (0 ≤ chunk_message_count c)%Z ∧ chunk_message_count c = n ∧ (0 < n → is_Some (chunk_min_log_time c) ∧ is_Some (chunk_max_log_time c))%Z.
Lemma steady_add_seen n c : seen n c → (n + 1 ≤ u64_max)%Z → counts 0 (lift (add_ u64_max (chunk_message_count c) 1)) (λ m, m = n + 1)%Z.
Proof.
  intros (Hp & Hc & _) Hn d j _ Hd. unfold lift, add_. rewrite Hc, (proj2 (Z.leb_le _ _)) by lia. by eexists _, d.
Qed.
Lemma chunk_message_counts h c n : seen n c → (n + 1 ≤ u64_max)%Z → counts 1 (examine_chunk_message h c) (seen (n + 1)).
Proof.
  intros Hs Hn. unfold examine_chunk_message. do 3 (apply counts_then; [lia|by auto with counts|intros ?]).
  apply counts_then; [lia|steady|intros _]. apply (counts_bind 0 1 _ _ _ _ ltac:(lia) (steady_add_seen n c Hs Hn)). intros m ->.
  apply (counts_bind 1 0 _ _ _ _ ltac:(lia) (observe_counts _)). intros _ _ d j _ Hd. eexists _, d. split; [done|]. split; [done|].
  destruct Hs as (Hp & Hc & _). split; [cbn; lia|]. split; [done|]. intros _. split; by eexists.
Qed.
Lemma nested_counts r c n : seen n c → (n + messages_of r ≤ u64_max)%Z → counts (messages_of r) (examine_nested r c) (seen (n + messages_of r)).
Proof.
  intros Hs Hn. assert (∀ m : method Doctor anyhow (), steady m → counts 0 (_ ← m; mret c) (seen (n + 0))) as Hother.
  { intros m Hm. apply counts_then; [done|exact Hm|]. intros _ d j _ Hd. exists c, d. by rewrite Z.add_0_r. }
  destruct r; cbn [examine_nested messages_of] in *; try (apply Hother; auto with counts; fail). by apply chunk_message_counts.
Qed.

Lemma messages_of_nonneg r : (0 ≤ messages_of r)%Z.
Proof. by destruct r. Qed.
Lemma comes_to_nonneg i n i' : comes_to i n i' → (0 ≤ n)%Z.
Proof. induction 1; [done| |done]. pose proof (messages_of_nonneg r). lia. Qed.

(** The loop over a chunk's records, up to where the iteration comes. *)
Lemma nested_comes i n i' : comes_to i n i' → ∃ steps, ∀ off c k d j, seen k c → (k + n ≤ u64_max)%Z → (0 ≤ j)%Z → room (n + j) d →
  ∃ c' d', seen (k + n) c' ∧ room j d' ∧ ∀ fuel, examine_nested_records (steps + fuel) off i c d = examine_nested_records fuel off i' c' d'.
Proof.
  induction 1 as [i|i r i1 i2 n E Hc [steps IH]|i e i1 i2 n E Hc [steps IH]].
  - exists 0. intros off c k d j Hs _ _ Hd. exists c, d. by rewrite Z.add_0_r.
  - apply comes_to_nonneg in Hc. pose proof (messages_of_nonneg r). exists (S steps). intros off c k d j Hs Hk Hj Hd.
    destruct (nested_counts r c k Hs ltac:(lia) d (n + j)%Z) as (c1 & d1 & E1 & Hd1 & Hs1); [lia|by rewrite Z.add_assoc|].
    destruct (IH off c1 (k + messages_of r)%Z d1 j Hs1 ltac:(lia) Hj Hd1) as (c2 & d2 & Hs2 & Hd2 & Heq). exists c2, d2.
    split; [by rewrite Z.add_assoc|]. split; [done|]. intros fuel. cbn [Nat.add examine_nested_records]. rewrite E. unfold mbind at 1, method_bind. by rewrite E1.
  - exists (S steps). intros off c k d j Hs Hk Hj Hd.
    match goal with E : _ = (Err e, _) |- _ => destruct (steady_error (Context "failed to parse nested chunk record at {start_offset}" [Num off] (FromMcap e)) d (n + j)%Z) as ([] & d1 & E1 & Hd1 & _) end;
      [apply comes_to_nonneg in Hc; lia|by rewrite Z.add_0_l|].
    destruct (IH off c k d1 j Hs Hk Hj Hd1) as (c2 & d2 & Hs2 & Hd2 & Heq). exists c2, d2. split; [done|]. split; [done|].
    intros fuel. cbn [Nat.add examine_nested_records]. rewrite E. unfold mbind at 1, method_bind. by rewrite E1.
Qed.

Lemma chunk_counts h data i n : ChunkReader_new h data = Ok i → finishes i n → (n ≤ u64_max)%Z →
  ∃ N, ∀ off, counts_by N n (λ k, examine_chunk k h data off) (λ _, True).
Proof.
  intros Hi (i1 & i2 & Hc & Hend) Hn. destruct (nested_comes i n i1 Hc) as [steps Hsteps]. exists (steps + 1). intros off.
  unfold examine_chunk. rewrite Hi. rewrite <-(Z.add_0_r n). apply (counts_by_bind _ n 0 _ _ (seen (0 + n))); [done|..].
  - intros d j Hj Hd. destruct (Hsteps off (mkChunkSeen [] None None 0) 0%Z d j) as (c' & d' & Hs' & Hd' & Heq); [done|lia|done|done|].
    exists c', d'. split; [|done]. intros fuel Hle. replace fuel with (steps + S (fuel - steps - 1)) by lia. rewrite Heq. cbn [examine_nested_records]. by rewrite Hend.
  - intros c (Hp & Hcount & Hsome). apply counts_then; [done| |intros _; steady]. destruct (Z.ltb_spec 0 (chunk_message_count c)); [|steady].
    destruct (Hsome ltac:(lia)) as [[mn ->] [mx ->]]. cbn [expect]. steady; by apply (steady_ret).
Qed.

(** *** The records of the file *)

Context `{!ZstdLibOk, !Lz4LibOk}.

Lemma ChunkReader_new_settles h data : match ChunkReader_new h data with Panic | Fuel => False | _ => True end.
Proof. unfold ChunkReader_new, for_chunk. pose proof (get_decompressor_settles ∅ (ch_compression h)) as Hs. by destruct (get_decompressor _ _).1. Qed.


Lemma parsed_chunk_index opcode b i : parse_record opcode b = Ok (RChunkIndex i) → read_record ChunkIndex_codec b = Ok i.
Proof.
  unfold parse_record. destruct (opcode =? op.CHUNK_INDEX)%Z eqn:E.
  { apply Z.eqb_eq in E as ->. cbn [Z.eqb op.CHUNK_INDEX]. cbn. destruct (read_record _ b); try done. by intros [= ->]. }
  repeat case_match; try done; try (by destruct (read_record _ b));
    [intros [? _]%parse_schema_canon|intros [? _]%parse_message_canon|intros [? _]%parse_chunk_canon|intros [? _]%parse_attachment_canon]; done.
Qed.
Lemma chunk_index_offset opcode b i : parse_record opcode b = Ok (RChunkIndex i) → (0 ≤ ci_chunk_start_offset i)%Z.
Proof.
  intros Hp. apply parsed_chunk_index in Hp. revert Hp.
  unfold read_record. destruct (read_le _ _) as [[i' c]|e| |] eqn:E; try done. intros [= <-]. apply map_err_Ok in E.
  unfold ChunkIndex_codec, struct, pair in E. cbn [c_read] in E.
  apply bind_read_Ok in E as (t & c1 & E & [= <- <-]).
  do 6 (apply bind_read_Ok in E as (? & ? & E & Hr); apply bind_read_Ok in Hr as (? & ? & _ & [= <- <-])).
  apply bind_read_Ok in E as (t & c2 & _ & Hr). apply bind_read_Ok in Hr as (o & c3 & Ho & [= <- <-]). destruct t as [start end_].
  apply (u64_canon c2) in Ho as (Hw & _). by apply u64_wf_range in Hw as [? _].
Qed.

Lemma chunk_index_steady i : (0 ≤ ci_chunk_start_offset i ∧ ci_chunk_start_offset i + 9 ≤ usize_max)%Z → steady (examine_chunk_index i).
Proof.
  intros Hi. unfold examine_chunk_index. apply counts_then; [done|steady|intros ?]. apply counts_then; [done|steady|intros _].
  intros d j Hj [Hc Hd]. apply (steady_error_if _ _ (set_indexes_by_offset _ d) j Hj).
  split; [exact Hc|]. cbn [indexes_by_offset set_indexes_by_offset]. rewrite bt_insert_perm. constructor; [done|].
  rewrite Forall_forall in *. intros p Hp. apply Hd. eapply elem_of_sublist; [exact Hp|apply bt_remove_sublist].
Qed.

Lemma record_counts opcode b r n : parse_record opcode b = Ok r → passes_record opcode b n → (n ≤ u64_max)%Z →
  ∃ N, ∀ off, counts_by N n (λ k, handle_top_level_record k r off) (λ _, True).
Proof.
  unfold passes_record. intros Hp. rewrite Hp. intros Hn Hm.
  assert ((∀ off, counts n (handle_top_level_record 0 r off) (λ _, True)) → (∀ k off, handle_top_level_record k r off = handle_top_level_record 0 r off) →
    ∃ N, ∀ off, counts_by N n (λ k, handle_top_level_record k r off) (λ _, True)) as Hother.
  { intros Hc He. exists 0. intros off d j Hj Hd. destruct (Hc off d j Hj Hd) as (a & d' & E & Hd'). exists a, d'. split; [|done]. intros fuel _. by rewrite He. }
  destruct r; cbn [messages_of] in Hn; try (subst n; apply Hother; [intros off; cbn [handle_top_level_record]; steady; fail|done]).
  - cbn [handle_top_level_record]. pose proof (ChunkReader_new_settles header data) as Hs. destruct (ChunkReader_new header data) as [i|e| |] eqn:E; [by eapply chunk_counts| |done..].
    subst n. exists 0. intros off. unfold examine_chunk. rewrite E. apply counts_by_const. steady.
  - destruct Hn as [Ho ->]. apply Hother; [|done]. intros off. apply chunk_index_steady. split; [by eapply chunk_index_offset|done].
Qed.

Lemma on_doctor_by {A} N n (m : nat → method Doctor anyhow A) Q s j : counts_by N n m Q → (0 ≤ j)%Z → room (n + j) (sc_doctor s) →
  ∃ a d, (∀ fuel, N ≤ fuel → on_doctor (m fuel) s = (Ok a, mkScanning d (next_record_offset s))) ∧ room j d ∧ Q a.
Proof.
  intros Hm Hj Hd. destruct (Hm _ j Hj Hd) as (a & d & E & Hd' & Ha). exists a, d. split; [|done]. intros fuel Hle. unfold on_doctor. by rewrite E.
Qed.

(** The offset of the next record is a [u64]. *)
Lemma scan_record_at fuel opcode b s : (0 ≤ next_record_offset s ∧ next_record_offset s + 9 + zlen b ≤ u64_max)%Z →
  scan_record fuel opcode b s = on_doctor (match parse_record opcode b with
    | Ok r => handle_top_level_record fuel r (next_record_offset s)
    | Err err => error (Context "Failed to parse top-level record at offset {}" [Num (next_record_offset s)] (FromMcap err))
    | Panic => lift Panic | Fuel => lift Fuel end) (mkScanning (sc_doctor s) (next_record_offset s + 9 + zlen b)%Z).
Proof.
  intros Hoff. pose proof (zlen_nonneg b). unfold scan_record, mbind, method_bind, gets, lift, modify, outcome_bind, add_.
  rewrite !(proj2 (Z.leb_le _ _)) by lia. rewrite Z.add_assoc. by destruct (parse_record opcode b).
Qed.

(** A record that stops nothing is got over. *)
Lemma scan_record_passes opcode b n : passes_record opcode b n → (n ≤ u64_max)%Z → ∃ N, ∀ s j, (0 ≤ j)%Z → room (n + j) (sc_doctor s) →
  (0 ≤ next_record_offset s ∧ next_record_offset s + 9 + zlen b ≤ u64_max)%Z →
  ∃ s', next_record_offset s' = (next_record_offset s + 9 + zlen b)%Z ∧ room j (sc_doctor s') ∧ ∀ fuel, N ≤ fuel → scan_record fuel opcode b s = (Ok (), s').
Proof.
  intros Hp Hn. pose proof (zlen_nonneg b).
  assert (∃ N, ∀ off, counts_by N n (λ k, match parse_record opcode b with
    | Ok r => handle_top_level_record k r off
    | Err err => error (Context "Failed to parse top-level record at offset {}" [Num off] (FromMcap err)) | Panic => lift Panic | Fuel => lift Fuel end) (λ _, True)) as [N HN].
  { destruct (parse_record opcode b) as [r|e| |] eqn:E; [by eapply record_counts|..]; unfold passes_record in Hp; rewrite E in Hp; try done.
    subst n. exists 0. intros off. apply counts_by_const. auto with counts. }
  exists N. intros s j Hj Hd Hoff. set (s1 := mkScanning (sc_doctor s) (next_record_offset s + 9 + zlen b)%Z).
  destruct (on_doctor_by N n _ _ s1 j (HN (next_record_offset s)) Hj Hd) as ([] & d & E & Hd' & _). exists (mkScanning d (next_record_offset s1)).
  split; [done|]. split; [done|]. intros fuel Hle. by rewrite <-(E fuel Hle), scan_record_at.
Qed.

Lemma passes_nonneg rs n : passes rs n → (0 ≤ n)%Z.
Proof.
  induction 1 as [|opcode b n rs m Hp _ IH]; [done|]. assert (0 ≤ n)%Z; [|lia]. unfold passes_record in Hp.
  destruct (parse_record opcode b) as [r|e| |]; [|lia|done..]. destruct r; cbn in Hp; try lia.
  destruct (ChunkReader_new header data) as [i|e| |]; [|lia..]. destruct Hp as (? & ? & Hc & _). by apply comes_to_nonneg in Hc.
Qed.

Lemma zlen_frames_one_more opcode b rs : zlen (frames ((opcode, b) :: rs)) = (9 + zlen b + zlen (frames rs))%Z.
Proof. rewrite frames_cons. unfold frame. rewrite !zlen_app, !zlen_le_enc. lia. Qed.

Lemma scan_passes rs n : passes rs n → (n ≤ u64_max)%Z → ∃ N, ∀ s j, (0 ≤ j)%Z → room (n + j) (sc_doctor s) →
  (0 ≤ next_record_offset s ∧ next_record_offset s + zlen (frames rs) ≤ u64_max)%Z →
  ∃ s', next_record_offset s' = (next_record_offset s + zlen (frames rs))%Z ∧ room j (sc_doctor s') ∧
    ∀ fuel rest last, N ≤ fuel → each (λ r, scan_record fuel r.1 r.2) (rs ++ rest) last s = each (λ r, scan_record fuel r.1 r.2) rest last s'.
Proof.
  induction 1 as [|opcode b n rs m Hp Hrs IH]; intros Hn.
  { exists 0. intros s j _ Hd _. exists s. split; [symmetry; apply Z.add_0_r|]. by split. }
  pose proof (passes_nonneg _ _ Hrs). assert (0 ≤ n)%Z as Hn0 by (pose proof (passes_nonneg _ _ (passes_cons _ _ _ _ _ Hp passes_nil)); lia).
  destruct IH as [N1 IH]; [lia|]. destruct (scan_record_passes opcode b n Hp ltac:(lia)) as [N2 Hr].
  exists (N1 `max` N2). intros s j Hj Hd. rewrite zlen_frames_one_more. pose proof (zlen_nonneg (frames rs)). pose proof (zlen_nonneg b). intros Hoff.
  destruct (Hr s (m + j)%Z) as (s1 & Ho1 & Hd1 & E1); [lia|by rewrite Z.add_assoc|lia|].
  destruct (IH s1 j Hj Hd1 ltac:(lia)) as (s2 & Ho2 & Hd2 & E2). exists s2. split; [lia|]. split; [done|]. intros fuel rest last Hle.
  cbn [app each]. unfold mbind at 1, method_bind. cbn [fst snd]. rewrite E1 by lia. apply E2. lia.
Qed.

(** *** After the scan *)

Lemma read_record_answers mcap offset : (0 ≤ offset ∧ offset + 9 ≤ usize_max)%Z → (zlen mcap ≤ usize_max)%Z →
  match read_record_at_offset mcap offset with Panic | Fuel => False | Ok raw => (9 + raw_length raw ≤ u64_max)%Z | Err _ => True end.
Proof.
  intros Ho Hm. unfold read_record_at_offset, add_. rewrite (proj2 (Z.leb_le _ _)) by lia. cbn [mbind outcome_bind].
  destruct (Z.ltb_spec (zlen mcap) (offset + 9)); [done|]. rewrite !(slice_Ok _ _ mcap) by lia. cbn [mbind outcome_bind].
  set (k := ztake (offset + 9 - _) _). pose proof (le_dec_range k).
  destruct (Z.ltb_spec usize_max (offset + 9 + le_dec k)); [done|]. destruct (Z.ltb_spec (zlen mcap) (offset + 9 + le_dec k)); [done|].
  rewrite slice_Ok by lia. cbn. unfold usize_max in *. lia.
Qed.

Lemma chunk_index_validated mcap off i : (0 ≤ off ∧ off + 9 ≤ usize_max)%Z → (zlen mcap ≤ usize_max)%Z → steady (validate_chunk_index mcap (off, i)).
Proof.
  intros Ho Hm. unfold validate_chunk_index. apply counts_then; [done|steady|intros referenced].
  apply counts_then; [done|unfold check_repeated; steady|intros _].
  pose proof (read_record_answers mcap off Ho Hm) as Ha. destruct (read_record_at_offset mcap off) as [raw|e| |]; [|steady|done..].
  unfold check_indexed_record. destruct (negb _) eqn:Eop; [steady|]. apply counts_then; [done| |intros ?].
  { intros d j _ Hd. unfold lift, add_. rewrite (proj2 (Z.leb_le _ _)) by lia. by eexists _, d. }
  steady; match goal with Hp : parse_record _ _ = Panic |- _ => apply parse_record_panic in Hp as [Hop _]; by rewrite Hop in Eop
    | Hp : parse_record _ _ = Fuel |- _ => by destruct (parse_record_not_fuel _ _ Hp) end.
Qed.

Lemma finalize_steady mcap : (zlen mcap ≤ usize_max)%Z →
  steady (_ ← finalize_record_presence; _ ← validate_chunk_indexes mcap; validate_statistics).
Proof.
  intros Hm. apply counts_then; [done|unfold finalize_record_presence; steady|intros _].
  apply counts_then; [done| |intros _; unfold validate_statistics; steady].
  intros d j Hj [Hc Hd]. unfold validate_chunk_indexes, mbind, method_bind, gets.
  apply (steady_each (validate_chunk_index mcap)); [|done|by split]. intros [off i] Hin. apply chunk_index_validated; [|done].
  rewrite Forall_forall in Hd. by apply (Hd _ Hin).
Qed.

(** The doctor's reader does not panic. *)
Lemma doctor_reader_limited mcap : (zlen mcap + 9 ≤ usize_max)%Z → limited (doctor_reader mcap).
Proof. intros Hm. exists (zlen mcap). split; [done|]. change OPCODE_LEN_SIZE with 9%Z. lia. Qed.
Lemma Doctor_new_room strict k : (k ≤ u64_max)%Z → room k (Doctor_new strict).
Proof. by split; [cbn; lia|]. Qed.

(** C4: the doctor comes to a diagnosis, the same however much longer it may take, whatever
    the file's bytes are, unless one of the records its reader finds stops it: an attachment
    cut so that parsing it panics, a chunk whose iteration does not end (or comes to such
    an attachment), a chunk index whose offset is within nine bytes of the largest there
    is, or more messages than a [u64] counts. *)
Theorem doctor_answers mcap strict rs out n : (zlen mcap + 9 ≤ usize_max)%Z →
  client_run (LinearReader_new (doctor_reader mcap)) mcap rs out → passes rs n → (n ≤ u64_max)%Z →
  ∃ enough diagnosis, ∀ fuel, enough ≤ fuel → diagnose_mcap fuel mcap strict = Ok diagnosis.
Proof.
  intros Hm Hr Hp Hn. destruct (new_delivers_frames (doctor_reader mcap) mcap ltac:(done)) as (rs' & out' & Hd & Hl & Hout & Hpanic & _).
  destruct (delivers_client_run _ _ _ _ _ _ Hd Hr) as [-> ->]. specialize (Hpanic (doctor_reader_limited _ Hm)).
  destruct (scan_passes rs' n Hp Hn) as [N Hscan]. pose proof (length_frames_le rs').
  assert (zlen MAGIC = 8)%Z as Hmagic by done.
  destruct (Hscan (mkScanning (Doctor_new strict) (zlen MAGIC)) 0%Z ltac:(done)) as (s & _ & Hs & Es);
    [apply Doctor_new_room; lia|cbn [next_record_offset]; unfold zlen at 3; unfold zlen, usize_max in Hm; lia|].
  assert (∃ d1, room 0 d1 ∧ ∀ fuel, N ≤ fuel → scan_top_level fuel mcap (Doctor_new strict) = (Ok (), d1)) as (d1 & Hd1 & Escan).
  { assert (∃ s1, ending scan_error out' s = (Ok (), s1) ∧ room 0 (sc_doctor s1)) as (s1 & E1 & Hs1).
    { destruct out' as [[]|e| |]; [by exists s| |done..]. by eexists. }
    exists (sc_doctor s1). split; [done|]. intros fuel Hle. unfold scan_top_level. rewrite (scan_delivers _ _ _ _ _ _ _ Hd ltac:(lia) Hout ltac:(lia)).
    specialize (Es fuel [] (ending scan_error out') Hle). rewrite app_nil_r in Es. rewrite Es. cbn [each]. by rewrite E1. }
  destruct (finalize_steady mcap ltac:(lia) d1 0%Z ltac:(done) Hd1) as ([] & d2 & E2 & _). exists N, (diagnosis d2). intros fuel Hle.
  assert (diagnose fuel mcap (Doctor_new strict) = (Ok (), d2)) as Ed; [|unfold diagnose_mcap; by rewrite Ed].
  unfold diagnose. unfold mbind at 1, method_bind at 1. by rewrite Escan.
Qed.

(** At the end of its data, the chunk's reader gives the same error at every turn. *)
Lemma stuck_repeats k off i c d : stuck i → ∃ d', examine_nested_records k off i c d = (Fuel, d') ∧
  errors (diagnosis d') = errors (diagnosis d) ++ replicate k (Context "failed to parse nested chunk record at {start_offset}" [Num off] (FromMcap UnexpectedEof)).
Proof.
  intros Hs. revert d. induction k as [|k IH]; intros d; [exists d; by rewrite app_nil_r|]. cbn [examine_nested_records]. rewrite (stuck_next i Hs).
  edestruct IH as (d' & E & Herr). exists d'. split; [exact E|]. rewrite Herr. cbn. by rewrite <-app_assoc.
Qed.

(** C5: the doctor does not always come to one: if the reader finds a chunk that ends in the
    middle of a record, after records that stop nothing, then however long it takes the
    doctor is still at it, and after the errors it has found so far its list of errors
    grows by one more of the same, of the chunk's reader, at every turn. *)
Theorem doctor_never_ends mcap strict es1 b es2 out header data n m : (zlen mcap + 9 ≤ usize_max)%Z →
  client_run (LinearReader_new (doctor_reader mcap)) mcap (es1 ++ (op.CHUNK, b) :: es2) out → passes es1 n →
  parse_record op.CHUNK b = Ok (RChunk header data) → ends_within_record header data m → (n + m ≤ u64_max)%Z →
  ∃ turns found, ∀ k, diagnose_mcap (turns + k) mcap strict = Fuel ∧
    ∃ d, diagnose (turns + k) mcap (Doctor_new strict) = (Fuel, d) ∧
      errors (diagnosis d) = found ++ replicate k
        (Context "failed to parse nested chunk record at {start_offset}" [Num (zlen MAGIC + zlen (frames es1))] (FromMcap UnexpectedEof)).
Proof.
  intros Hm Hr Hp Hc (i & i' & Hi & Hcomes & Hstuck) Hn.
  destruct (new_delivers_frames (doctor_reader mcap) mcap ltac:(done)) as (rs' & out' & Hd & Hl & Hout & _).
  destruct (delivers_client_run _ _ _ _ _ _ Hd Hr) as [<- <-]. pose proof (comes_to_nonneg _ _ _ Hcomes). pose proof (passes_nonneg _ _ Hp).
  assert (zlen MAGIC + zlen (frames es1) + 9 + zlen b ≤ u64_max)%Z as Hoff.
  { assert (zlen (frames (es1 ++ (op.CHUNK, b) :: es2)) ≤ zlen mcap)%Z as Hz by (unfold zlen; lia). revert Hz.
    rewrite frames_app, zlen_app, zlen_frames_one_more. pose proof (zlen_nonneg (frames es2)). change (zlen MAGIC) with 8%Z. unfold usize_max in *. lia. }
  destruct (scan_passes es1 n Hp ltac:(lia)) as [N Hscan].
  destruct (Hscan (mkScanning (Doctor_new strict) (zlen MAGIC)) m ltac:(done)) as (s1 & Ho1 & Hs1 & Es1);
    [by apply Doctor_new_room|cbn [next_record_offset]; pose proof (zlen_nonneg b); pose proof (zlen_nonneg (frames es1)); change (zlen MAGIC) with 8%Z in *; lia|].
  cbn [next_record_offset] in Ho1. destruct (nested_comes i m i' Hcomes) as [steps Hsteps].
  destruct (Hsteps (next_record_offset s1) (mkChunkSeen [] None None 0) 0%Z (sc_doctor s1) 0%Z) as (c & d & _ & _ & Ed); [done|lia|done|by rewrite Z.add_0_r|].
  set (e := Context _ _ _). exists (N + steps), (errors (diagnosis d) ++ replicate N e). intros k.
  destruct (stuck_repeats (N + k) (next_record_offset s1) i' c d Hstuck) as (d' & E' & Herr). rewrite Ho1 in Herr. fold e in Herr.
  assert (diagnose (N + steps + k) mcap (Doctor_new strict) = (Fuel, d')) as Hdiag; [|split; [unfold diagnose_mcap; by rewrite Hdiag|]].
  2:{ exists d'. split; [done|]. by rewrite Herr, <-app_assoc, <-replicate_add. }
  unfold diagnose. unfold mbind at 1, method_bind at 1. unfold scan_top_level. rewrite (scan_delivers _ _ _ _ _ _ _ Hd ltac:(lia) Hout ltac:(pose proof (length_frames_le (es1 ++ (op.CHUNK, b) :: es2)); lia)).
  rewrite Es1 by lia. cbn [each]. unfold mbind at 1, method_bind at 1. cbn [fst snd].
  assert (scan_record (N + steps + k) op.CHUNK b s1 = (Fuel, mkScanning d' (next_record_offset s1 + 9 + zlen b)%Z)) as ->; [|done].
  pose proof (zlen_nonneg (frames es1)). change (zlen MAGIC) with 8%Z in *. rewrite scan_record_at, Hc by lia.
  cbn [handle_top_level_record]. unfold on_doctor, examine_chunk. rewrite Hi. cbn [sc_doctor Doctor.next_record_offset]. unfold mbind at 1, method_bind at 1.
  by replace (N + steps + k) with (steps + (N + k)) by lia; rewrite Ed, E'.
Qed.
End hangs.

(** ** Examples *)

Module DoctorExamples.
Import BitCrc MarkLib.

(** A chunk that is cut within its only record. *)
Definition cut_data : bytes := [Byte.x05] ++ le_enc 8 100 ++ lit "abc".
Definition cut_header : ChunkHeader := mkChunkHeader 0 0 (zlen cut_data) 0 [] (zlen cut_data).
Definition cut_record : Z * bytes := (op.CHUNK, c_enc ChunkHeader_codec cut_header ++ cut_data).
Definition cut_file : mcap_file :=
  mkFile [(op.HEADER, c_enc Header_codec (mkHeader [] (lit "x"))); cut_record] (mkDataEnd 0) [] (mkFooter 0 0 0).

(** Its reader, before and after its first answer. *)
Definition cut_reader : InnerReader := match ChunkReader_new cut_header cut_data with Ok i => i | _ => linear.new [] end.
Definition cut_after : InnerReader := (InnerReader_next cut_reader).2.

Lemma cut_within : ends_within_record cut_header cut_data 0.
Proof.
  assert ((match ChunkReader_new cut_header cut_data with Ok _ => true | _ => false end) = true) as Hok by (vm_compute; reflexivity).
  assert ((InnerReader_next cut_reader).1 = Err UnexpectedEof) as Hn by (vm_compute; reflexivity).
  exists cut_reader, cut_after. split; [unfold cut_reader; destruct (ChunkReader_new cut_header cut_data); [reflexivity|discriminate Hok..]|].
  split; [|split; vm_compute; reflexivity].
  apply (after_error _ UnexpectedEof cut_after); [rewrite <-Hn; apply surjective_pairing|apply here].
Qed.

(** The iteration over a chunk's records, run. *)
Fixpoint finish_in (fuel : nat) (i : InnerReader) : option Z :=
  match fuel with
  | 0 => None
  | S fuel =>
      match InnerReader_next i with
      | (Ok None, _) => Some 0%Z
      | (Ok (Some r), i) => n ← finish_in fuel i; mret (messages_of r + n)%Z
      | (Err _, i) => finish_in fuel i
      | _ => None
      end
  end.
Lemma finish_in_finishes fuel i n : finish_in fuel i = Some n → finishes i n.
Proof.
  revert i n. induction fuel as [|fuel IH]; intros i n; [done|]. cbn [finish_in]. destruct (InnerReader_next i) as [[[r|]|e| |] i1] eqn:E; try done.
  - destruct (finish_in fuel i1) as [m|] eqn:Em; [|done]. intros [= <-]. destruct (IH i1 m Em) as (i2 & i3 & Hc & Hend). exists i2, i3. split; [by eapply after_record|done].
  - intros [= <-]. exists i, i1. split; [apply here|done].
  - intros Em. destruct (IH i1 n Em) as (i2 & i3 & Hc & Hend). exists i2, i3. split; [by eapply after_error|done].
Qed.
(** The messages of a record that stops nothing. *)
Definition pass_record (fuel : nat) (rec : Z * bytes) : option Z :=
  match parse_record rec.1 rec.2 with
  | Ok (RChunk h data) => match ChunkReader_new h data with Ok i => finish_in fuel i | _ => Some 0%Z end
  | Ok (RChunkIndex i) => if (ci_chunk_start_offset i + 9 <=? usize_max)%Z then Some 0%Z else None
  | Ok r => Some (messages_of r)
  | Err _ => Some 0%Z
  | _ => None
  end.
Fixpoint pass_records (fuel : nat) (rs : list (Z * bytes)) : option Z :=
  match rs with
  | [] => Some 0%Z
  | r :: rs => n ← pass_record fuel r; m ← pass_records fuel rs; mret (n + m)%Z
  end.
Lemma pass_records_passes fuel rs n : pass_records fuel rs = Some n → passes rs n.
Proof.
  revert n. induction rs as [|[op b] rs IH]; intros n; cbn [pass_records]; [intros [= <-]; constructor|].
  destruct (pass_record fuel (op, b)) as [k|] eqn:Ek; [|done]. destruct (pass_records fuel rs) as [m|]; [|done]. intros [= <-].
  apply passes_cons; [|by apply IH]. unfold pass_record in Ek. cbn [fst snd] in Ek. unfold passes_record.
  destruct (parse_record op b) as [r|e| |]; [|congruence|done..]. destruct r; try congruence.
  - destruct (ChunkReader_new header data) as [i|e| |]; [by eapply finish_in_finishes|congruence..].
  - destruct (Z.leb_spec (ci_chunk_start_offset c + 9) usize_max); [split; [done|congruence]|done].
Qed.

Definition whole_data : bytes := record_frame (RMessage (mkMessageHeader 1 0 5 5) (lit "x")).
Definition whole_file : mcap_file :=
  mkFile [(op.HEADER, c_enc Header_codec (mkHeader [] (lit "x"))); (op.CHUNK, c_enc ChunkHeader_codec (mkChunkHeader 5 5 (zlen whole_data) 0 [] (zlen whole_data)) ++ whole_data)]
    (mkDataEnd 0) [] (mkFooter 0 0 0).

Lemma doctor_answers_witness : ∃ enough diagnosis, ∀ fuel, enough ≤ fuel → diagnose_mcap fuel (file_bytes whole_file) false = Ok diagnosis.
Proof.
  apply (doctor_answers (file_bytes whole_file) false (expected (doctor_reader (file_bytes whole_file)) whole_file).1 (Ok ()) 1).
  - vm_compute. discriminate.
  - apply (feed_pieces_run 1000 100); [lia|]. vm_compute. reflexivity.
  - apply (pass_records_passes 5). vm_compute. reflexivity.
  - vm_compute. discriminate.
Defined.

Definition cut_records : list (Z * bytes) := (expected (doctor_reader (file_bytes cut_file)) cut_file).1.
Lemma doctor_never_ends_witness : ∃ turns found, ∀ k, diagnose_mcap (turns + k) (file_bytes cut_file) false = Fuel ∧
  ∃ d, diagnose (turns + k) (file_bytes cut_file) (Doctor_new false) = (Fuel, d) ∧
    errors (diagnosis d) = found ++ replicate k
      (Context "failed to parse nested chunk record at {start_offset}" [Num (zlen MAGIC + zlen (frames (take 1 cut_records)))] (FromMcap UnexpectedEof)).
Proof.
  apply (doctor_never_ends (file_bytes cut_file) false (take 1 cut_records) cut_record.2 (drop 2 cut_records) (Ok ()) cut_header cut_data 0 0).
  - vm_compute. discriminate.
  - apply (feed_pieces_run 1000 100); [lia|]. vm_compute. reflexivity.
  - apply (pass_records_passes 5). vm_compute. reflexivity.
  - vm_compute. reflexivity.
  - apply cut_within.
  - vm_compute. discriminate.
Defined.
End DoctorExamples.
