(* ===== verification/DoctorClean.v ===== *)
(** What the doctor's clean bill of health is worth.

    A method that adds no error has found what it examined in order; [clean] is the weakest
    precondition that says so, with a rule for each way the doctor's methods are built.
    What the doctor knows of the file so far is then what a reader of messages knows
    ([knows]), and what it has noted of the records at the top of the file is there. *)

From S2P Require Import Prelude Utf8 BTree Errors Bin Records Crc Io Codec RwBuf Decompressor LinearReader LinearReaderTheory LinearReaderFile Channels Read ReadTheory Streaming Conversation LinearReaderSound MessageStream LinearReaderFlat WriterSpec Cli Doctor DoctorTheory.

(** ** Methods that find nothing wrong *)

Section clean.
Context `{Crc, ZstdLib, Lz4Lib}.
Implicit Types d : Doctor.

(** If [m] gives a result and there is no error then, [Q] holds. *)
Definition clean {A} (m : method Doctor anyhow A) d (Q : A → Doctor → Prop) : Prop :=
  ∀ a d', m d = (Ok a, d') → quiet d' → Q a d'.

Lemma clean_bind {A B} (m : method Doctor anyhow A) (f : A → method Doctor anyhow B) d Q :
  clean m d (λ a d1, clean (f a) d1 Q) → (∀ a, examines true (f a)) → clean (m ≫= f) d Q.
Proof.
  intros Hm Hf b d' E Hq. unfold mbind, method_bind in E. destruct (m d) as [[a|e| |] d1] eqn:Em; try done.
  apply (Hm a d1); [done| |done..]. specialize (Hf a d1) as [Hf _]. rewrite E in Hf. by apply Hf.
Qed.
Lemma clean_mono {A} (m : method Doctor anyhow A) d (Q Q' : A → Doctor → Prop) : clean m d Q → (∀ a d', Q a d' → Q' a d') → clean m d Q'.
Proof. intros Hm Hq a d' E Hd. by apply Hq, Hm. Qed.
Lemma clean_ret {A} (a : A) d (Q : A → Doctor → Prop) : Q a d → clean (mret a) d Q.
Proof. by intros HQ a' d' [= <- <-]. Qed.
Lemma clean_gets {A} (f : Doctor → A) d (Q : A → Doctor → Prop) : Q (f d) d → clean (gets f) d Q.
Proof. by intros HQ a' d' [= <- <-]. Qed.
Lemma clean_get d (Q : Doctor → Doctor → Prop) : Q d d → clean get d Q.
Proof. by intros HQ a' d' [= <- <-]. Qed.
Lemma clean_update f d (Q : () → Doctor → Prop) : Q () (f d) → clean (update f) d Q.
Proof. by intros HQ a' d' [= <- <-]. Qed.
Lemma clean_error msg d Q : clean (error msg) d Q.
Proof. intros a d' [= <- <-]. unfold quiet. cbn. by intros [? ?]%app_eq_nil. Qed.
Lemma clean_error_if b msg d (Q : () → Doctor → Prop) : (b = false → Q () d) → clean (error_if b msg) d Q.
Proof. intros HQ. destruct b; [apply clean_error|]. by apply clean_ret, HQ. Qed.
Lemma clean_warn msg d (Q : () → Doctor → Prop) : (∀ dg, Q () (set_diagnosis dg d)) → clean (warn msg) d Q.
Proof. intros HQ a d' [= <- <-] _. apply HQ. Qed.
Lemma clean_panic {A} d Q : clean (A:=A) (lift Panic) d Q. Proof. by intros a d'. Qed.
Lemma clean_fuel {A} d Q : clean (A:=A) (lift Fuel) d Q. Proof. by intros a d'. Qed.
Lemma clean_add m a b d (Q : Z → Doctor → Prop) : ((a + b ≤ m)%Z → Q (a + b)%Z d) → clean (lift (add_ m a b)) d Q.
Proof. intros HQ c d'. unfold lift, add_. destruct (Z.leb_spec (a + b) m); [|done]. intros [= <- <-] _. by apply HQ. Qed.
Lemma clean_expect {A} (o : option A) d (Q : A → Doctor → Prop) : (∀ a, o = Some a → Q a d) → clean (lift (expect o)) d Q.
Proof. intros HQ a d'. unfold lift. destruct o; [|done]. intros [= <- <-] _. by apply HQ. Qed.

(** The body of a loop, each time. *)
Lemma clean_each {A} (body : A → method Doctor anyhow ()) l d (P : list A → Doctor → Prop) (Q : () → Doctor → Prop) :
  P [] d → (∀ l1 a l2 d, l = l1 ++ a :: l2 → P l1 d → clean (body a) d (λ _, P (l1 ++ [a]))) → (∀ a, examines true (body a)) →
  (∀ d, P l d → Q () d) → clean (for_all body l) d Q.
Proof.
  intros HP Hb Hex HQ. assert (∀ l1 l2 d, l = l1 ++ l2 → P l1 d → clean (for_all body l2) d Q) as Hg; [|by eapply (Hg [])].
  intros l1 l2. revert l1. induction l2 as [|a l2 IH]; intros l1 d1 -> HP1; cbn [each].
  - apply clean_ret, HQ. by rewrite app_nil_r.
  - apply clean_bind; [|intros; apply examines_each; exact Hex]. eapply clean_mono; [by eapply Hb|].
    intros [] d2 HP2. apply (IH (l1 ++ [a])); [by rewrite <-app_assoc|done].
Qed.
End clean.

(** One step of a method, and the steps there are. *)
Ltac clean_step :=
  lazymatch goal with
  | |- clean (_ ≫= _) _ _ => apply clean_bind; [|by examine]
  | |- clean (mret _) _ _ => apply clean_ret
  | |- clean (gets _) _ _ => apply clean_gets
  | |- clean get _ _ => apply clean_get
  | |- clean (update _) _ _ => apply clean_update
  | |- clean (error _) _ _ => apply clean_error
  | |- clean (error_if _ _) _ _ => apply clean_error_if; intros ?
  | |- clean (warn _) _ _ => apply clean_warn; intros ?
  | |- clean (lift Panic) _ _ => apply clean_panic
  | |- clean (lift Fuel) _ _ => apply clean_fuel
  | |- clean (lift (add_ _ _ _)) _ _ => apply clean_add; intros ?
  | |- clean (lift (expect _)) _ _ => apply clean_expect; intros ? ?
  | |- clean (match ?x with _ => _ end) _ _ => let E := fresh "E" in destruct x eqn:E
  end.
Ltac clean := repeat (clean_step; cbn beta iota).

(** ** The messages of a reader *)

Section knows.
Context `{Crc, ZstdLib, Lz4Lib}.
Implicit Types d : Doctor.

(** A reader that knows [acc] and is given [rs] knows [acc'] then and has given [ms]. *)
Definition streams (acc : ChannelAccumulator) (rs : list record) (acc' : ChannelAccumulator) (ms : list Message) : Prop :=
  ∀ out rs', stream_of out acc (rs ++ rs') = let '(ms', o) := stream_of out acc' rs' in (ms ++ ms', o).
Lemma streams_nil acc : streams acc [] acc [].
Proof. intros out rs'. cbn. by destruct (stream_of _ _ _). Qed.
Lemma streams_app acc rs1 acc1 ms1 rs2 acc2 ms2 : streams acc rs1 acc1 ms1 → streams acc1 rs2 acc2 ms2 → streams acc (rs1 ++ rs2) acc2 (ms1 ++ ms2).
Proof. intros S1 S2 out rs'. rewrite <-app_assoc, S1, S2. destruct (stream_of _ _ _). by rewrite app_assoc. Qed.
Lemma streams_schema acc h data acc' : add_schema h data acc = (Ok (), acc') → streams acc [RSchema h data] acc' [].
Proof. intros E out rs'. cbn. rewrite E. by destruct (stream_of _ _ _). Qed.
Lemma streams_channel acc c acc' : add_channel c acc = (Ok (), acc') → streams acc [RChannel c] acc' [].
Proof. intros E out rs'. cbn. rewrite E. by destruct (stream_of _ _ _). Qed.
Lemma streams_message acc h data c : acc_get (m_channel_id h) acc = Some c → streams acc [RMessage h data] acc [message_on c h data].
Proof. intros E out rs'. cbn. rewrite E. by destruct (stream_of _ _ _). Qed.

(** The earliest and the latest of some times. *)
Definition earliest (ts : list Z) : option Z := foldl (λ o t, Some (match o with Some m => Z.min m t | None => t end)) None ts.
Definition latest (ts : list Z) : option Z := foldl (λ o t, Some (match o with Some m => Z.max m t | None => t end)) None ts.
Lemma earliest_snoc ts t : earliest (ts ++ [t]) = Some (match earliest ts with Some m => Z.min m t | None => t end).
Proof. unfold earliest. by rewrite foldl_app. Qed.
Lemma latest_snoc ts t : latest (ts ++ [t]) = Some (match latest ts with Some m => Z.max m t | None => t end).
Proof. unfold latest. by rewrite foldl_app. Qed.
Lemma earliest_spec ts : match earliest ts with Some m => m ∈ ts ∧ (∀ t, t ∈ ts → m ≤ t)%Z | None => ts = [] end.
Proof.
  induction ts as [|t ts IH] using rev_ind; [done|]. rewrite earliest_snoc. destruct (earliest ts) as [m|].
  - destruct IH as [Hm Hle]. split.
    + rewrite elem_of_app, list_elem_of_singleton. destruct (Z.min_spec m t) as [[_ ->]|[_ ->]]; tauto.
    + intros t'. rewrite elem_of_app, list_elem_of_singleton. intros [Ht| ->]; [specialize (Hle _ Ht)|]; lia.
  - subst ts. cbn. split; [left|]. intros t' ->%list_elem_of_singleton. lia.
Qed.
Lemma latest_spec ts : match latest ts with Some m => m ∈ ts ∧ (∀ t, t ∈ ts → t ≤ m)%Z | None => ts = [] end.
Proof.
  induction ts as [|t ts IH] using rev_ind; [done|]. rewrite latest_snoc. destruct (latest ts) as [m|].
  - destruct IH as [Hm Hle]. split.
    + rewrite elem_of_app, list_elem_of_singleton. destruct (Z.max_spec m t) as [[_ ->]|[_ ->]]; tauto.
    + intros t'. rewrite elem_of_app, list_elem_of_singleton. intros [Ht| ->]; [specialize (Hle _ Ht)|]; lia.
  - subst ts. cbn. split; [left|]. intros t' ->%list_elem_of_singleton. lia.
Qed.

Abbreviation times ms := (message_log_time <$> ms).

Definition known_schema (p : ParsedSchema) : Schema :=
  mkSchema (sh_id (ps_header p)) (sh_name (ps_header p)) (sh_encoding (ps_header p)) (ps_data p).
Definition known_channel (c : ChannelRecord) (ch : Channel) : Prop :=
  channel_topic ch = c_topic c ∧ channel_schema_id ch = c_schema_id c ∧
  channel_message_encoding ch = c_message_encoding c ∧ channel_metadata ch = c_metadata c.

(** The doctor knows what a reader does, and has counted the messages. *)
Record knows (acc : ChannelAccumulator) (ms : list Message) d : Prop := {
  kn_schemas i : acc_schemas acc !! i = known_schema <$> bt_get i (schemas_in_data_section d);
  kn_channels i : option_Forall2 known_channel (bt_get i (channels_in_data_section d)) (acc_channels acc !! i);
  kn_schemas_sorted : bt_sorted (schemas_in_data_section d) = true;
  kn_channels_sorted : bt_sorted (channels_in_data_section d) = true;
  kn_count : message_count d = zlen ms;
  kn_min : min_log_time d = earliest (times ms);
  kn_max : max_log_time d = latest (times ms);
  kn_global : global_max_log_time d = latest (times ms);
  kn_order : strict_message_order d = true → saw_top_level_message d = false → StronglySorted Z.le (times ms);
}.

(** What the examination of a chunk leaves alone. *)
Record same_top d d' : Prop := {
  st_strict : strict_message_order d' = strict_message_order d;
  st_message : saw_top_level_message d' = saw_top_level_message d;
  st_data_end : saw_data_end d' = saw_data_end d;
  st_statistics : file_statistics d' = file_statistics d;
  st_indexes : indexes_by_offset d' = indexes_by_offset d;
}.
#[export] Instance same_top_preorder : PreOrder same_top.
Proof. split; [by split|]. intros a b c [] []. split; by etrans. Qed.
End knows.

(** ** One record more *)

Section steps.
Context `{Crc, ZstdLib, Lz4Lib}.
Implicit Types d : Doctor.
Implicit Types acc : ChannelAccumulator.

(** What is declared, and what is counted. *)
Record same_tally d d' : Prop := {
  sm_count : message_count d' = message_count d;
  sm_min : min_log_time d' = min_log_time d;
  sm_max : max_log_time d' = max_log_time d;
  sm_global : global_max_log_time d' = global_max_log_time d;
}.
Record same_known d d' : Prop := {
  sk_schemas : schemas_in_data_section d' = schemas_in_data_section d;
  sk_channels : channels_in_data_section d' = channels_in_data_section d;
}.
Lemma knows_ext acc ms d d' : knows acc ms d → same_known d d' → same_tally d d' →
  strict_message_order d' = strict_message_order d → (saw_top_level_message d = true → saw_top_level_message d' = true) → knows acc ms d'.
Proof.
  intros [] [E1 E2] [E3 E4 E5 E6] E7 E8. split; rewrite ?E1, ?E2, ?E3, ?E4, ?E5, ?E6, ?E7; try done.
  intros Hs Hm. apply kn_order0; [done|]. destruct (saw_top_level_message d); [|done]. by rewrite E8 in Hm.
Qed.

Lemma bt_contains_Some {V} k (m : list (Z * V)) : negb (bt_contains k m) = false → ∃ v, bt_get k m = Some v.
Proof. unfold bt_contains. destruct (bt_get k m) as [v|]; [by exists v|done]. Qed.
Lemma negb_decide_false P `{Decision P} : negb (bool_decide P) = false → P.
Proof. by destruct (bool_decide_reflect P). Qed.

(** A schema agrees with the one there is, or is new. *)
Definition schema_agrees (h : SchemaHeader) (data : bytes) d : Prop := (sh_id h =? 0)%Z = false ∧
  ∀ p, bt_get (sh_id h) (schemas_in_data_section d) = Some p → sh_name (ps_header p) = sh_name h ∧ sh_encoding (ps_header p) = sh_encoding h ∧ ps_data p = data.
Lemma known_schema_id acc ms d i p : knows acc ms d → acc_ok acc → bt_get i (schemas_in_data_section d) = Some p → sh_id (ps_header p) = i.
Proof. intros Hk Ha E. pose proof (kn_schemas _ _ _ Hk i) as Hi. rewrite E in Hi. by destruct (ao_schema _ Ha _ _ Hi). Qed.

Lemma schema_again acc ms d d' h data p : knows acc ms d → acc_ok acc → schema_agrees h data d → bt_get (sh_id h) (schemas_in_data_section d) = Some p →
  same_known d d' → same_tally d d' → same_top d d' →
  ∃ acc', add_schema h data acc = (Ok (), acc') ∧ knows acc' ms d' ∧ same_top d d'.
Proof.
  intros Hk Ha [Hz Hp] E Hs Ht Htop. exists acc. split; [|split; [|done]].
  - unfold add_schema. rewrite Hz, (kn_schemas _ _ _ Hk), E. cbn. destruct (Hp _ E) as (-> & -> & ->). by rewrite !bool_decide_true.
  - eapply knows_ext; [done..|apply Htop|by rewrite (st_message _ _ Htop)].
Qed.
Lemma schema_declared acc ms d d' h data : knows acc ms d → acc_ok acc → schema_agrees h data d →
  schemas_in_data_section d' = bt_insert (sh_id h) (mkParsedSchema h data) (schemas_in_data_section d) →
  channels_in_data_section d' = channels_in_data_section d → same_tally d d' → same_top d d' →
  ∃ acc', add_schema h data acc = (Ok (), acc') ∧ knows acc' ms d' ∧ same_top d d'.
Proof.
  intros Hk Ha [Hz Hp] E1 E2 Ht Htop.
  set (acc' := mkChannelAccumulator (<[sh_id h := known_schema (mkParsedSchema h data)]> (acc_schemas acc)) (acc_channels acc)).
  exists acc'. split; [|split; [|done]].
  - unfold add_schema. rewrite Hz, (kn_schemas _ _ _ Hk). destruct (bt_get _ _) as [p|] eqn:E; cbn [fmap option_fmap option_map]; [|done].
    cbn. destruct (Hp _ eq_refl) as (Hn & He & Hd). rewrite Hn, He, Hd, !bool_decide_true by done. cbn. unfold acc'. rewrite insert_id; [by destruct acc|].
    rewrite (kn_schemas _ _ _ Hk), E. cbn. unfold known_schema. cbn. by rewrite Hn, He, Hd, (known_schema_id _ _ _ _ _ Hk Ha E).
  - assert (knows acc ms (set_schemas_in_data_section (schemas_in_data_section d) (set_schemas_in_data_section (schemas_in_data_section d) d'))) as Hk'.
    { eapply knows_ext; [exact Hk|done| |apply Htop|cbn; by rewrite (st_message _ _ Htop)]. destruct Ht. by split. }
    destruct Hk'. split; cbn in *; try done; rewrite ?E1; [|by apply bt_insert_sorted].
    intros i. destruct (decide (sh_id h = i)) as [<-|Hi]; [by rewrite lookup_insert_eq, bt_insert_get_eq|].
    by rewrite lookup_insert_ne, bt_insert_get_ne.
Qed.

Lemma examine_schema_clean acc ms d h data : knows acc ms d → acc_ok acc →
  clean (examine_schema h data) d (λ _ d', ∃ acc', add_schema h data acc = (Ok (), acc') ∧ knows acc' ms d' ∧ same_top d d').
Proof.
  intros Hk Ha. unfold examine_schema, compare_schemas. apply clean_bind; [|by examine].
  eapply clean_mono with (Q := λ _ d1, ∃ dg, d1 = set_diagnosis dg d).
  { clean; eauto; exists (diagnosis d); by destruct d. }
  intros [] d1 [dg ->]. clean; cbn in *.
  all: assert (schema_agrees h data d) as Hagree by (split; [done|intros p' Hp'; simplify_eq; try congruence; split_and!; by eapply negb_decide_false]).
  all: first [by eapply schema_declared|match goal with E : negb (bt_contains _ _) = false |- _ => apply bt_contains_Some in E as [? ?] end; by eapply schema_again].
Qed.

(** A channel agrees with the one there is, or is new; its schema is known. *)
Definition channel_agrees (c : ChannelRecord) d : Prop :=
  negb (c_schema_id c =? 0)%Z && negb (bt_contains (c_schema_id c) (schemas_in_data_section d)) = false ∧
  ∀ p, bt_get (c_id c) (channels_in_data_section d) = Some p → c_schema_id p = c_schema_id c ∧ c_topic p = c_topic c ∧
    c_message_encoding p = c_message_encoding c ∧ c_metadata p = c_metadata c.

(** The schema that [add_channel] finds. *)
Lemma channel_schema_known acc ms d c : knows acc ms d → acc_ok acc → channel_agrees c d → ∃ s, channel_schema_id (mkChannel (c_id c) (c_topic c) s (c_message_encoding c) (c_metadata c)) = c_schema_id c ∧
  (if (c_schema_id c =? 0)%Z then Ok None
   else match acc_schemas acc !! c_schema_id c with
        | Some s => Ok (Some s)
        | None => Err (UnknownSchema (c_topic c) (c_schema_id c))
        end) = Ok s.
Proof.
  intros Hk Ha [Hs _]. destruct (Z.eqb_spec (c_schema_id c) 0) as [E|E]; [by exists None|]. cbn in Hs.
  apply bt_contains_Some in Hs as [p Hp]. rewrite (kn_schemas _ _ _ Hk), Hp. cbn. exists (Some (known_schema p)). split; [|done].
  cbn. by eapply known_schema_id.
Qed.
Lemma channel_again acc ms d d' c p : knows acc ms d → acc_ok acc → channel_agrees c d → bt_get (c_id c) (channels_in_data_section d) = Some p →
  same_known d d' → same_tally d d' → same_top d d' →
  ∃ acc', add_channel c acc = (Ok (), acc') ∧ knows acc' ms d' ∧ same_top d d'.
Proof.
  intros Hk Ha Hag E Hs Ht Htop. exists acc. split; [|split; [|done]].
  - unfold add_channel. destruct (channel_schema_known _ _ _ _ Hk Ha Hag) as (s & _ & ->).
    pose proof (kn_channels _ _ _ Hk (c_id c)) as Hc. rewrite E in Hc. inversion Hc as [? ch Hch E1 E2|]; subst.
    destruct Hch as (-> & -> & -> & ->), (proj2 Hag _ E) as (-> & -> & -> & ->). by rewrite !bool_decide_true, Z.eqb_refl.
  - eapply knows_ext; [done..|apply Htop|by rewrite (st_message _ _ Htop)].
Qed.
Lemma channel_declared acc ms d d' c : knows acc ms d → acc_ok acc → channel_agrees c d →
  channels_in_data_section d' = bt_insert (c_id c) c (channels_in_data_section d) →
  schemas_in_data_section d' = schemas_in_data_section d → same_tally d d' → same_top d d' →
  ∃ acc', add_channel c acc = (Ok (), acc') ∧ knows acc' ms d' ∧ same_top d d'.
Proof.
  intros Hk Ha Hag E1 E2 Ht Htop. destruct (channel_schema_known _ _ _ _ Hk Ha Hag) as (s & Hsid & Es).
  assert (knows acc ms (set_channels_in_data_section (channels_in_data_section d) d')) as [].
  { eapply knows_ext; [exact Hk|done| |apply Htop|cbn; by rewrite (st_message _ _ Htop)]. destruct Ht. by split. }
  pose proof (kn_channels _ _ _ Hk (c_id c)) as Hc. unfold add_channel. rewrite Es. cbn in *. inversion Hc as [p ch Hch E3 E4|E3 E4].
  - exists acc. symmetry in E3, E4. pose proof (proj2 Hag _ E3) as (F1 & F2 & F3 & F4). pose proof Hch as (G1 & G2 & G3 & G4). split.
    { by rewrite G1, G2, G3, G4, F1, F2, F3, F4, !bool_decide_true, Z.eqb_refl by done. }
    split; [|done]. split; try done; rewrite ?E1, ?E2; [|by apply bt_insert_sorted]. intros i.
    destruct (decide (c_id c = i)) as [<-|Hi]; [|by rewrite bt_insert_get_ne]. rewrite bt_insert_get_eq, E4. constructor.
    unfold known_channel. by rewrite <-F1, <-F2, <-F3, <-F4.
  - eexists. split; [done|]. split; [|done]. split; cbn; try done; rewrite ?E1, ?E2; [|by apply bt_insert_sorted]. intros i.
    destruct (decide (c_id c = i)) as [<-|Hi]; [|by rewrite bt_insert_get_ne, lookup_insert_ne]. rewrite bt_insert_get_eq, lookup_insert_eq. by constructor.
Qed.

Lemma examine_channel_clean acc ms d c : knows acc ms d → acc_ok acc →
  clean (examine_channel c) d (λ _ d', ∃ acc', add_channel c acc = (Ok (), acc') ∧ knows acc' ms d' ∧ same_top d d').
Proof.
  intros Hk Ha. unfold examine_channel, compare_channels. clean; cbn in *.
  all: assert (channel_agrees c d) as Hagree by (split; [done|intros p' Hp'; simplify_eq; try congruence; split_and!; first [by eapply negb_decide_false|by apply Z.eqb_eq, negb_false_iff]]).
  all: first [by eapply channel_declared|match goal with E : negb (bt_contains _ (channels_in_data_section _)) = false |- _ => apply bt_contains_Some in E as [? ?] end; by eapply channel_again].
Qed.

(** *** Messages *)

Lemma latest_bound ts m t : latest ts = Some m → t ∈ ts → (t ≤ m)%Z.
Proof. intros E. pose proof (latest_spec ts) as Hs. rewrite E in Hs. apply Hs. Qed.

Lemma observe_clean acc ms m d : knows acc ms d →
  (strict_message_order d = true → saw_top_level_message d = false → ∀ t, t ∈ message_log_time <$> ms → (t ≤ message_log_time m)%Z) →
  clean (observe_message_time (message_log_time m)) d (λ _ d', knows acc (ms ++ [m]) d' ∧ same_top d d').
Proof.
  intros [] Ht [] d'. unfold observe_message_time, mbind, method_bind, get, lift, add_, put. cbn.
  destruct (_ <=? _)%Z; [|done]. intros [= <-] _. split; [|by split]. split; rewrite ?fmap_app; cbn; rewrite ?earliest_snoc, ?latest_snoc; try done.
  - rewrite kn_count0. unfold zlen. rewrite length_app. cbn. lia.
  - by rewrite kn_min0.
  - by rewrite kn_max0.
  - by rewrite kn_global0.
  - intros Hs Hm. apply StronglySorted_app_2; [|by apply kn_order0|by repeat constructor].
    intros x y Hx ->%list_elem_of_singleton. by apply Ht.
Qed.

Lemma message_topic_clean acc ms d h (Q : _ → _ → Prop) : knows acc ms d →
  (∀ ch topic, acc_get (m_channel_id h) acc = Some ch → Q topic d) → clean (message_topic h) d Q.
Proof.
  intros Hk HQ. unfold message_topic. clean. pose proof (kn_channels _ _ _ Hk (m_channel_id h)) as Hc.
  destruct (bt_get _ _) as [p|]; [|done]. inversion Hc as [a ch Hch Ea E|]. symmetry in E. by eapply HQ.
Qed.

(** What is kept of the times of a chunk's messages. *)
Definition chunk_seen (c : ChunkSeen) (ts : list Z) : Prop :=
  chunk_min_log_time c = earliest ts ∧ chunk_max_log_time c = latest ts ∧ chunk_message_count c = zlen ts.

Definition log_time_of (r : record) : option Z := match r with RMessage h _ => Some (m_log_time h) | _ => None end.
Definition message_times (rs : list record) : list Z := omap (M:=list) log_time_of rs.
Definition belongs_in_chunk (r : record) : Prop :=
  match r with RSchema _ _ | RChannel _ | RMessage _ _ => True | _ => False end.

Lemma examine_nested_clean acc ms d r c ts : knows acc ms d → acc_ok acc → chunk_seen c ts →
  clean (examine_nested r c) d (λ c' d', ∃ acc' ms', streams acc [r] acc' ms' ∧ acc_ok acc' ∧ knows acc' (ms ++ ms') d' ∧ same_top d d' ∧
    chunk_seen c' (ts ++ message_times [r]) ∧ message_log_time <$> ms' = message_times [r] ∧ belongs_in_chunk r).
Proof.
  intros Hk Ha Hc. destruct r as [| |h data|ch|h data| | | | | | | | | | |]; unfold examine_nested; try (apply clean_bind; [apply clean_error|intros; auto with examines]).
  - apply clean_bind; [|auto with examines]. eapply clean_mono; [by apply examine_schema_clean|]. intros _ d' (acc' & E & Hk' & Ht). apply clean_ret.
    exists acc', []. pose proof (add_schema_spec h data acc Ha) as Hs. rewrite E in Hs. rewrite !app_nil_r. split_and!; try done; [by apply streams_schema|apply Hs].
  - apply clean_bind; [|auto with examines]. eapply clean_mono; [by apply examine_channel_clean|]. intros _ d' (acc' & E & Hk' & Ht). apply clean_ret.
    exists acc', []. pose proof (add_channel_spec ch acc Ha) as Hs. rewrite E in Hs. rewrite !app_nil_r. split_and!; try done; [by apply streams_channel|apply Hs].
  - unfold examine_chunk_message. apply clean_bind; [|by examine]. eapply message_topic_clean; [done|]. intros chan topic Hch.
    set (m := message_on chan h data).
    assert ((strict_message_order d = true → saw_top_level_message d = false → ∀ t, t ∈ message_log_time <$> ms → (t ≤ m_log_time h)%Z) → ∀ d1 count, (∃ dg, d1 = set_diagnosis dg d) → count = (chunk_message_count c + 1)%Z →
      clean (observe_message_time (m_log_time h)) d1 (λ _ d', clean (mret (mkChunkSeen (bt_insert (m_channel_id h) () (referenced_channels c))
        (Some (match chunk_min_log_time c with Some m => Z.min m (m_log_time h) | None => m_log_time h end))
        (Some (match chunk_max_log_time c with Some m => Z.max m (m_log_time h) | None => m_log_time h end)) count)) d'
       (λ c' d', ∃ acc' ms', streams acc [RMessage h data] acc' ms' ∧ acc_ok acc' ∧ knows acc' (ms ++ ms') d' ∧ same_top d d' ∧
    chunk_seen c' (ts ++ message_times [RMessage h data]) ∧ message_log_time <$> ms' = message_times [RMessage h data] ∧ belongs_in_chunk (RMessage h data)))) as Hrest.
    { intros Ht d1 count [dg ->] ->. eapply clean_mono; [apply (observe_clean acc ms m)|].
      - eapply knows_ext; [exact Hk|by split..|done|done].
      - exact Ht.
      - intros _ d' [Hk' Htop]. apply clean_ret. exists acc, [m]. destruct Hc as (E1 & E2 & E3). split_and!; try done; [by apply streams_message|by destruct Htop|].
        unfold message_times. cbn. split_and!; cbn; rewrite ?earliest_snoc, ?latest_snoc, ?E1, ?E2, ?E3; try done. unfold zlen. rewrite length_app. cbn. lia. }
    assert (∃ dg, d = set_diagnosis dg d) as Hd by (exists (diagnosis d); by destruct d).
    assert ((∀ l, global_max_log_time d = Some l → (m_log_time h <? l)%Z = true → strict_message_order d = false) → 
      strict_message_order d = true → saw_top_level_message d = false → ∀ t, t ∈ message_log_time <$> ms → (t ≤ m_log_time h)%Z) as Hlate.
    { intros Hl Hst _ t Hin. rewrite (kn_global _ _ _ Hk) in Hl. pose proof (latest_spec (message_log_time <$> ms)) as Hs.
      destruct (latest _) as [l|]; [|by rewrite Hs in Hin; apply not_elem_of_nil in Hin]. destruct Hs as [_ Hs]. specialize (Hs _ Hin).
      specialize (Hl l eq_refl). destruct (Z.ltb_spec (m_log_time h) l); [|lia]. by rewrite Hl in Hst. }
    clean; (apply Hrest; [apply Hlate; intros l' El Hlt; congruence|eauto|done]).
Qed.

(** *** Chunks *)

Lemma message_times_app rs1 rs2 : message_times (rs1 ++ rs2) = message_times rs1 ++ message_times rs2.
Proof. apply omap_app. Qed.

(** What the records of a chunk, read one after another, come to. *)
Definition chunk_read acc ms d (c : ChunkSeen) ts (rs : list record) (c' : ChunkSeen) d' : Prop := ∃ acc' ms',
  streams acc rs acc' ms' ∧ acc_ok acc' ∧ knows acc' (ms ++ ms') d' ∧ same_top d d' ∧
  chunk_seen c' (ts ++ message_times rs) ∧ message_log_time <$> ms' = message_times rs ∧ Forall belongs_in_chunk rs.

Lemma examine_nested_records_clean fuel off i acc ms d c ts : knows acc ms d → acc_ok acc → chunk_seen c ts →
  clean (examine_nested_records fuel off i c) d (λ c' d', ∃ rs, collect fuel i = (rs, Ok ()) ∧ chunk_read acc ms d c ts rs c' d').
Proof.
  revert i acc ms d c ts. induction fuel as [|fuel IH]; intros i acc ms d c ts Hk Ha Hc; [apply clean_fuel|]. cbn [examine_nested_records collect].
  destruct (InnerReader_next i) as [[[r|]|e| |] i']; [| |apply clean_bind; [apply clean_error|auto with examines]|apply clean_panic|apply clean_fuel].
  - apply clean_bind; [|auto with examines]. eapply clean_mono; [by apply examine_nested_clean|].
    intros c1 d1 (acc1 & ms1 & S1 & Ha1 & Hk1 & T1 & Hc1 & E1 & B1). eapply clean_mono; [by apply IH|].
    intros c2 d2 (rs & -> & acc2 & ms2 & S2 & Ha2 & Hk2 & T2 & Hc2 & E2 & B2). exists (r :: rs). split; [done|].
    exists acc2, (ms1 ++ ms2). rewrite <-app_assoc, <-message_times_app in Hc2. rewrite <-app_assoc in Hk2. split_and!; try done.
    + by apply (streams_app _ [r] acc1).
    + by etrans.
    + by rewrite fmap_app, E1, E2, <-message_times_app.
    + by constructor.
  - apply clean_ret. exists []. split; [done|]. exists acc, []. rewrite !app_nil_r. split_and!; try done. apply streams_nil.
Qed.

(** A record at the top of the file and what is in it: a chunk's records, which belong in
    one, and whose messages are of the times its header says. *)
Definition opens (r : record) (rs : list record) : Prop :=
  match r with
  | RChunk h data => (∃ n i, ChunkReader_new h data = Ok i ∧ collect n i = (rs, Ok ())) ∧ Forall belongs_in_chunk rs ∧
      (message_times rs ≠ [] → earliest (message_times rs) = Some (ch_message_start_time h) ∧ latest (message_times rs) = Some (ch_message_end_time h))
  | _ => rs = [r]
  end.

Lemma examine_chunk_clean fuel acc ms d h data off : knows acc ms d → acc_ok acc →
  clean (examine_chunk fuel h data off) d (λ _ d', ∃ rs acc' ms', opens (RChunk h data) rs ∧
    streams acc rs acc' ms' ∧ acc_ok acc' ∧ knows acc' (ms ++ ms') d' ∧ same_top d d' ∧ message_log_time <$> ms' = message_times rs).
Proof.
  intros Hk Ha. unfold examine_chunk. destruct (ChunkReader_new h data) as [i|e| |] eqn:Ei; [|apply clean_error|apply clean_panic|apply clean_fuel].
  apply clean_bind; [|by examine]. eapply clean_mono; [by apply (examine_nested_records_clean _ _ _ acc ms _ _ [])|].
  intros c' d' (rs & Hcol & acc' & ms' & Hs & Ha' & Hk' & Ht & Hc & Et & Hb).
  assert (opens (RChunk h data) rs → ∀ v, ∃ rs acc' ms', opens (RChunk h data) rs ∧ streams acc rs acc' ms' ∧ acc_ok acc' ∧
    knows acc' (ms ++ ms') (set_channels_referenced_in_chunks_by_offset v d') ∧ same_top d (set_channels_referenced_in_chunks_by_offset v d') ∧ message_log_time <$> ms' = message_times rs) as Hend.
  { intros Ho v. exists rs, acc', ms'. split_and!; try done; [|by destruct Ht]. eapply knows_ext; [exact Hk'|by split..|done|done]. }
  destruct Hc as (E1 & E2 & E3). cbn [app] in E1, E2, E3. clean; (apply Hend; split_and!; [eauto|done|intros Hne]).
  - rewrite <-E1, <-E2, H2, H3. apply negb_false_iff, Z.eqb_eq in H4, H5. by subst.
  - exfalso. apply Z.ltb_ge in E. destruct (message_times rs); [done|]. rewrite E3, zlen_cons in E. pose proof (zlen_nonneg l). lia.
Qed.

(** *** The records of the file *)

(** What the doctor has noted of the records [rs]. *)
Record noted (strict : bool) (rs : list record) d : Prop := {
  nt_strict : strict_message_order d = strict;
  nt_data_end : saw_data_end d = true → ∃ de, RDataEnd de ∈ rs;
  nt_message : saw_top_level_message d = true → ∃ h data, RMessage h data ∈ rs;
  nt_statistics st : RStatistics st ∈ rs → file_statistics d = Some st;
  nt_index ci : RChunkIndex ci ∈ rs → bt_get (ci_chunk_start_offset ci) (indexes_by_offset d) = Some ci;
  nt_sorted : bt_sorted (indexes_by_offset d) = true;
  nt_keys p : p ∈ indexes_by_offset d → p.1 = ci_chunk_start_offset p.2;
}.

(** A record of which the doctor makes no note. *)
Definition unnoted (r : record) : Prop := match r with RStatistics _ | RChunkIndex _ => False | _ => True end.
Lemma noted_grows strict rs r d d' : noted strict rs d → unnoted r → same_top d d' → noted strict (rs ++ [r]) d'.
Proof.
  intros [] Hr []. split; rewrite ?st_strict0, ?st_message0, ?st_data_end0, ?st_statistics0, ?st_indexes0; try done; intros *.
  - intros E. destruct (nt_data_end0 E) as [de Hde]. exists de. apply elem_of_app. by left.
  - intros E. destruct (nt_message0 E) as (h & data & Hm). exists h, data. apply elem_of_app. by left.
  - intros [Hin| <-%list_elem_of_singleton]%elem_of_app; [by apply nt_statistics0|done].
  - intros [Hin| <-%list_elem_of_singleton]%elem_of_app; [by apply nt_index0|done].
Qed.

(** The doctor, having examined the records [rs] and found nothing wrong. *)
Definition examined (strict : bool) (rs : list record) d : Prop := ∃ ls acc ms,
  Forall2 opens rs ls ∧ streams ChannelAccumulator_default (concat ls) acc ms ∧ acc_ok acc ∧
  message_log_time <$> ms = message_times (concat ls) ∧ knows acc ms d ∧ noted strict rs d.

Lemma streams_other acc r : match r with RSchema _ _ | RChannel _ | RMessage _ _ => False | _ => True end → streams acc [r] acc [].
Proof. intros Hr out rs'. destruct r; try done; cbn; by destruct (stream_of _ _ _). Qed.

(** One record, for what is in it. *)
Lemma examined_record strict rs r d m : examined strict rs d →
  (∀ acc ms, knows acc ms d → acc_ok acc → noted strict rs d → clean m d (λ _ d', ∃ l acc' ms', opens r l ∧ streams acc l acc' ms' ∧ acc_ok acc' ∧
    knows acc' (ms ++ ms') d' ∧ noted strict (rs ++ [r]) d' ∧ message_log_time <$> ms' = message_times l)) →
  clean m d (λ (_ : ()) d', examined strict (rs ++ [r]) d').
Proof.
  intros (ls & acc & ms & Ho & Hs & Ha & Et & Hk & Hn) Hm. eapply clean_mono; [by apply (Hm acc ms)|].
  intros _ d' (l & acc' & ms' & Ho' & Hs' & Ha' & Hk' & Hn' & Et'). exists (ls ++ [l]), acc', (ms ++ ms').
  rewrite concat_app. cbn [concat]. rewrite app_nil_r. split_and!; try done.
  - apply Forall2_app; [done|]. by constructor.
  - by eapply streams_app.
  - by rewrite fmap_app, message_times_app, Et, Et'.
Qed.
(** A record that declares nothing and is no message. *)
Lemma examined_other strict rs r d m : examined strict rs d →
  match r with RSchema _ _ | RChannel _ | RMessage _ _ | RChunk _ _ => False | _ => True end →
  (noted strict rs d → clean m d (λ (_ : ()) d', same_known d d' ∧ same_tally d d' ∧ saw_top_level_message d' = saw_top_level_message d ∧ noted strict (rs ++ [r]) d')) →
  clean m d (λ _ d', examined strict (rs ++ [r]) d').
Proof.
  intros He Hr Hm. eapply examined_record; [done|]. intros acc ms Hk Ha Hn. eapply clean_mono; [by apply Hm|].
  intros _ d' (Hsk & Hst & Hsm & Hn'). exists [r], acc, []. rewrite app_nil_r. split_and!; try done.
  - by destruct r.
  - apply streams_other. by destruct r.
  - eapply knows_ext; [done..| |by rewrite Hsm]. by rewrite (nt_strict _ _ _ Hn), (nt_strict _ _ _ Hn').
  - by destruct r.
Qed.

(** The doctor makes no note, or one. *)
Lemma noted_data_end strict rs de d : noted strict rs d → noted strict (rs ++ [RDataEnd de]) (set_in_summary_section true (set_saw_data_end true d)).
Proof.
  intros Hn. destruct (noted_grows _ _ (RDataEnd de) d d Hn) as []; [done..|]. split; cbn; try done.
  intros _. exists de. apply elem_of_app. right. left.
Qed.
Lemma noted_message strict rs h data d : noted strict rs d → noted strict (rs ++ [RMessage h data]) (set_saw_top_level_message true d).
Proof.
  intros Hn. destruct (noted_grows _ _ (RMessage h data) d d Hn) as []; [done..|]. split; cbn; try done.
  intros _. exists h, data. apply elem_of_app. right. left.
Qed.
Lemma noted_statistics strict rs st d : noted strict rs d → file_statistics d = None → noted strict (rs ++ [RStatistics st]) (set_file_statistics (Some st) d).
Proof.
  intros [] Hnone. split; cbn; try done.
  - intros E. destruct (nt_data_end0 E) as [de Hde]. exists de. apply elem_of_app. by left.
  - intros E. destruct (nt_message0 E) as (h & data & Hm). exists h, data. apply elem_of_app. by left.
  - intros st' [Hin|[= ->]%list_elem_of_singleton]%elem_of_app; [|done]. apply nt_statistics0 in Hin. congruence.
  - intros ci [Hin|?%list_elem_of_singleton]%elem_of_app; [by apply nt_index0|done].
Qed.
Lemma noted_index strict rs ci d : noted strict rs d → bt_contains (ci_chunk_start_offset ci) (indexes_by_offset d) = false →
  noted strict (rs ++ [RChunkIndex ci]) (set_indexes_by_offset (bt_insert (ci_chunk_start_offset ci) ci (indexes_by_offset d)) d).
Proof.
  intros [] Hnone. split; cbn; try done.
  - intros E. destruct (nt_data_end0 E) as [de Hde]. exists de. apply elem_of_app. by left.
  - intros E. destruct (nt_message0 E) as (h & data & Hm). exists h, data. apply elem_of_app. by left.
  - intros st' [Hin|?%list_elem_of_singleton]%elem_of_app; [by apply nt_statistics0|done].
  - intros ci' [Hin|[= ->]%list_elem_of_singleton]%elem_of_app; [|apply bt_insert_get_eq]. apply nt_index0 in Hin.
    rewrite bt_insert_get_ne; [done| |done]. intros E. unfold bt_contains in Hnone. by rewrite E, Hin in Hnone.
  - by apply bt_insert_sorted.
  - intros p. rewrite bt_insert_perm. intros [->|Hp]%elem_of_cons; [done|]. apply nt_keys0. eapply elem_of_sublist; [exact Hp|apply bt_remove_sublist].
Qed.

Lemma warn_once_clean d (Q : () → Doctor → Prop) : (∀ dg b, Q () (set_diagnosis dg (set_message_index_warning_emitted b d))) →
  clean warn_message_index_outside_chunks_once d Q.
Proof.
  intros HQ. unfold warn_message_index_outside_chunks_once. clean; [|apply HQ].
  specialize (HQ (diagnosis d) (message_index_warning_emitted d)). by destruct d.
Qed.
Lemma warn_once_if_clean (b : bool) d (Q : () → Doctor → Prop) : (∀ dg e, Q () (set_diagnosis dg (set_message_index_warning_emitted e d))) →
  clean (if b then warn_message_index_outside_chunks_once else mret ()) d Q.
Proof.
  intros HQ. destruct b; [by apply warn_once_clean|]. apply clean_ret.
  specialize (HQ (diagnosis d) (message_index_warning_emitted d)). by destruct d.
Qed.

Lemma top_level_message_clean acc ms d h data : knows acc ms d → saw_top_level_message d = true →
  clean (examine_top_level_message h) d (λ _ d', ∃ ch, acc_get (m_channel_id h) acc = Some ch ∧ knows acc (ms ++ [message_on ch h data]) d' ∧ same_top d d').
Proof.
  intros Hk Ht. unfold examine_top_level_message. apply clean_bind; [|by examine]. eapply message_topic_clean; [done|]. intros ch topic Hch.
  assert (∀ v, clean (observe_message_time (m_log_time h)) (set_last_top_level_message_time v d)
    (λ _ d', ∃ ch, acc_get (m_channel_id h) acc = Some ch ∧ knows acc (ms ++ [message_on ch h data]) d' ∧ same_top d d')) as Hrest; [|clean; apply Hrest].
  intros v. eapply clean_mono; [apply (observe_clean acc ms (message_on ch h data))|].
  - eapply knows_ext; [exact Hk|by split..|done|done].
  - cbn. by rewrite Ht.
  - intros _ d' [Hk' Htop]. exists ch. split_and!; [done..|]. by destruct Htop.
Qed.

Ltac unremarkable := let Hn := fresh in intros Hn; clean; (split_and!; [by split..|done|by eapply noted_grows]).

Lemma handle_clean fuel strict rs r off d : examined strict rs d →
  clean (handle_top_level_record fuel r off) d (λ _ d', examined strict (rs ++ [r]) d').
Proof.
  intros He. destruct r as [hd|ft|h data|ch|h data|h data|mi|ci|ah ad ac|ai|st|md|mx|so|de|o b]; cbn [handle_top_level_record].
  - apply (examined_other strict rs (RHeader hd)); [done..|]. unremarkable.
  - apply (examined_other strict rs (RFooter ft)); [done..|]. unremarkable.
  - apply examined_record; [done|]. intros acc ms Hk Ha Hn. eapply clean_mono; [by apply examine_schema_clean|]. intros _ d' (acc' & E & Hk' & Ht).
    exists [RSchema h data], acc', []. rewrite app_nil_r. pose proof (add_schema_spec h data acc Ha) as Hs. rewrite E in Hs.
    split_and!; try done; [by apply streams_schema|apply Hs|by apply (noted_grows _ _ _ d)].
  - apply examined_record; [done|]. intros acc ms Hk Ha Hn. eapply clean_mono; [by apply examine_channel_clean|]. intros _ d' (acc' & E & Hk' & Ht).
    exists [RChannel ch], acc', []. rewrite app_nil_r. pose proof (add_channel_spec ch acc Ha) as Hs. rewrite E in Hs.
    split_and!; try done; [by apply streams_channel|apply Hs|by apply (noted_grows _ _ _ d)].
  - apply examined_record; [done|]. intros acc ms Hk Ha Hn. clean_step. clean_step. eapply clean_mono.
    + apply (top_level_message_clean acc ms _ h data); [|done]. eapply knows_ext; [exact Hk|by split..|done|done].
    + intros _ d' (ch & Hch & Hk' & Ht). exists [RMessage h data], acc, [message_on ch h data]. split_and!; try done; [by apply streams_message|].
      pose proof (noted_message _ _ h data _ Hn) as [] . destruct Ht. split; rewrite ?st_strict0, ?st_message0, ?st_data_end0, ?st_statistics0, ?st_indexes0; done.
  - apply examined_record; [done|]. intros acc ms Hk Ha Hn. eapply clean_mono; [by apply (examine_chunk_clean _ acc ms)|].
    intros _ d' (l & acc' & ms' & Ho & Hs & Ha' & Hk' & Ht & Et). exists l, acc', ms'. split_and!; try done. by apply (noted_grows _ _ _ d).
  - apply (examined_other strict rs (RMessageIndex mi)); [done..|]. intros Hn. do 2 clean_step. apply warn_once_if_clean. intros dg b.
    split_and!; [by split..|done|by apply (noted_grows _ _ _ d)].
  - apply (examined_other strict rs (RChunkIndex ci)); [done..|]. intros Hn. unfold examine_chunk_index. do 3 clean_step. apply warn_once_if_clean. intros dg b. clean.
    split_and!; [by split..|done|]. destruct (noted_index _ _ ci _ Hn) as []; [done|]. by split.
  - apply (examined_other strict rs (RAttachment ah ad ac)); [done..|]. unremarkable.
  - apply (examined_other strict rs (RAttachmentIndex ai)); [done..|]. unremarkable.
  - apply (examined_other strict rs (RStatistics st)); [done..|]. intros Hn. clean. split_and!; [by split..|done|]. apply noted_statistics; [done|].
    destruct (file_statistics d); [|done]. by destruct (bool_decide_reflect (is_Some (Some s))) as [|[]].
  - apply (examined_other strict rs (RMetadata md)); [done..|]. unremarkable.
  - apply (examined_other strict rs (RMetadataIndex mx)); [done..|]. unremarkable.
  - apply (examined_other strict rs (RSummaryOffset so)); [done..|]. unremarkable.
  - apply (examined_other strict rs (RDataEnd de)); [done..|]. intros Hn. clean. split_and!; [by split..|done|by apply noted_data_end].
  - apply (examined_other strict rs (RUnknown o b)); [done..|]. unremarkable.
Qed.
End steps.

(** ** The scan *)

Section scan.
Context `{Crc, ZstdLib, Lz4Lib}.

(** A step of the scan that forgets no error. *)
Definition scans (m : method Scanning anyhow ()) : Prop := ∀ s, quiet (sc_doctor (m s).2) → quiet (sc_doctor s).

Lemma on_doctor_scans m : examines true m → scans (on_doctor m).
Proof. intros Hm s. unfold on_doctor. destruct (Hm (sc_doctor s)) as [Hq _]. by destruct (m (sc_doctor s)). Qed.
Lemma scan_record_eq fuel op b s : 
  scan_record fuel op b s = match (n ← add_ u64_max 9 (zlen b); add_ u64_max (next_record_offset s) n) : Result Z with
    | Ok next => match parse_record op b with
        | Ok r => on_doctor (handle_top_level_record fuel r (next_record_offset s)) (mkScanning (sc_doctor s) next)
        | Err err => on_doctor (error (Context "Failed to parse top-level record at offset {}" [Num (next_record_offset s)] (FromMcap err))) (mkScanning (sc_doctor s) next)
        | Panic => (Panic, mkScanning (sc_doctor s) next)
        | Fuel => (Fuel, mkScanning (sc_doctor s) next)
        end
    | Err e => (Err e, s) | Panic => (Panic, s) | Fuel => (Fuel, s)
    end.
Proof.
  unfold scan_record. unfold mbind at 1, method_bind, gets. cbn beta iota. unfold mbind at 1, lift at 1. destruct (_ ≫= _) as [next|e| |]; [|done..].
  by destruct (parse_record op b).
Qed.
Lemma scan_record_scans fuel op b : scans (scan_record fuel op b).
Proof.
  intros s. rewrite scan_record_eq. destruct (_ ≫= _) as [next|e| |]; try done.
  destruct (parse_record op b) as [r|e| |]; [|..|done|done]; intros Hq; by apply on_doctor_scans in Hq; auto with examines.
Qed.
Lemma each_scans {A} (body : A → method Scanning anyhow ()) l last : (∀ a, scans (body a)) → scans last → scans (each body l last).
Proof.
  intros Hb Hl. induction l as [|a l IH]; [done|]. intros s. cbn [each]. unfold mbind, method_bind. specialize (Hb a s).
  destruct (body a s) as [[[]|e| |] s1]; [|done..]. intros Hq. by apply Hb, IH.
Qed.

Lemma scan_record_examined fuel strict rs op b s s' : scan_record fuel op b s = (Ok (), s') → quiet (sc_doctor s') → examined strict rs (sc_doctor s) →
  ∃ r, parse_record op b = Ok r ∧ examined strict (rs ++ [r]) (sc_doctor s').
Proof.
  rewrite scan_record_eq. destruct (_ ≫= _) as [next|e| |]; try done. destruct (parse_record op b) as [r|e| |]; try done.
  - unfold on_doctor. cbn [sc_doctor]. destruct (handle_top_level_record _ _ _ _) as [o d'] eqn:E. intros [= -> <-] Hq He. exists r. split; [done|].
    by eapply handle_clean.
  - unfold on_doctor. cbn [sc_doctor]. destruct (error _ _) as [o d'] eqn:E. intros [= -> <-] Hq. by eapply (clean_error _ _ (λ _ _, False)) in E.
Qed.

Lemma scan_examined fuel strict out es : ∀ rs s s', 
  each (λ r, scan_record fuel r.1 r.2) es (ending scan_error out) s = (Ok (), s') → quiet (sc_doctor s') → examined strict rs (sc_doctor s) →
  out = Ok () ∧ ∃ rs', Forall2 parses es rs' ∧ examined strict (rs ++ rs') (sc_doctor s').
Proof.
  induction es as [|[op b] es IH]; intros rs s s'; cbn [each].
  - unfold ending. destruct out as [[]|e| |]; [|..|done|done].
    + intros [= <-] _ He. split; [done|]. exists []. by rewrite app_nil_r.
    + unfold scan_error, on_doctor. destruct (error _ _) as [o d'] eqn:E. intros [= -> <-] Hq. by eapply (clean_error _ _ (λ _ _, False)) in E.
  - unfold mbind, method_bind. cbn [fst snd]. destruct (scan_record fuel op b s) as [[[]|e| |] s1] eqn:E; [|done..]. intros Hrest Hq He.
    assert (quiet (sc_doctor s1)) as Hq1.
    { eapply (each_scans _ es (ending scan_error out)); [intros; apply scan_record_scans| |by rewrite Hrest]. unfold ending, scan_error.
      destruct out; [by intros ?|apply on_doctor_scans; auto with examines|by intros ?..]. }
    destruct (scan_record_examined _ _ _ _ _ _ _ E Hq1 He) as (r & Hp & He1). destruct (IH _ _ _ Hrest Hq He1) as (Ho & rs' & Hps & He').
    split; [done|]. exists (r :: rs'). rewrite <-app_assoc in He'. split; [by constructor|done].
Qed.

Lemma Doctor_new_examined strict : examined strict [] (Doctor_new strict).
Proof.
  exists [], ChannelAccumulator_default, []. split_and!; [constructor|apply streams_nil|apply acc_default_ok|done| |].
  - split; try done; [|constructor]. intros i. change (acc_channels ChannelAccumulator_default !! i) with ((∅ : gmap Z Channel) !! i).
    rewrite lookup_empty. constructor.
  - split; try done; cbn; intros * ?%not_elem_of_nil; done.
Qed.

Context `{!ZstdLibOk, !Lz4LibOk}.
Lemma scan_top_level_clean fuel mcap strict : (zlen mcap ≤ usize_max)%Z →
  clean (scan_top_level fuel mcap) (Doctor_new strict) (λ _ d', ∃ es rs, accepted_bytes (doctor_reader mcap) mcap es ∧ Forall2 parses es rs ∧ examined strict rs d').
Proof.
  intros Hm [] d' E Hq. unfold scan_top_level in E.
  destruct (scan_each (doctor_reader mcap) mcap (scan_record fuel) scan_error (mkScanning (Doctor_new strict) (zlen MAGIC))) as (es & out & Hs & _ & _ & _ & Hacc); [done..|].
  rewrite Hs in E. destruct (each _ _ _ _) as [o s'] eqn:Ee. injection E as -> <-.
  destruct (scan_examined _ strict _ _ [] _ _ Ee Hq) as (Hout & rs & Hps & He); [apply Doctor_new_examined|]. exists es, rs. split_and!; [by apply Hacc|done..].
Qed.
End scan.

(** ** The indexes and the statistics *)

Section indexes.
Context `{Crc, ZstdLib, Lz4Lib}.

Lemma slice_inv {E} i j (l k : bytes) : slice (E:=E) i j l = Ok k → (0 ≤ i ≤ j ∧ j ≤ zlen l)%Z ∧ zdrop i l = k ++ zdrop j l ∧ zlen k = (j - i)%Z.
Proof.
  intros Hs. assert (0 ≤ i ≤ j ∧ j ≤ zlen l)%Z as Hb.
  { unfold slice in Hs. destruct (Z.leb_spec 0 i), (Z.leb_spec i j), (Z.leb_spec j (zlen l)); try done; lia. }
  split; [done|]. rewrite slice_Ok in Hs by lia. injection Hs as <-. split.
  - replace (zdrop j l) with (zdrop (j - i) (zdrop i l)) by (rewrite zdrop_zdrop by lia; f_equal; lia). by rewrite ztake_zdrop.
  - rewrite zlen_ztake, zlen_zdrop. lia.
Qed.

Lemma byte_enc_dec (b : bytes) n : zlen b = Z.of_nat n → le_enc n (le_dec b) = b.
Proof. intros Hb. replace n with (length b) by (unfold zlen in Hb; lia). apply le_enc_dec. Qed.

(** A record read at an offset is there. *)
Lemma read_record_at_offset_Ok mcap offset raw : read_record_at_offset mcap offset = Ok raw →
  raw_length raw = zlen (raw_body raw) ∧
  ∃ before rest, mcap = before ++ frame (raw_opcode raw) (raw_body raw) ++ rest ∧ zlen before = offset.
Proof.
  unfold read_record_at_offset. unfold add_ at 1. destruct (_ <=? _)%Z; [|done]. cbn [mbind outcome_bind].
  destruct (zlen mcap <? offset + 9)%Z; [done|]. destruct (slice offset (offset + 1) mcap) as [o1|e| |] eqn:E1; [|done..]. cbn [mbind outcome_bind].
  destruct (slice (offset + 1) (offset + 9) mcap) as [o2|e| |] eqn:E2; [|done..]. cbn [mbind outcome_bind]. destruct (_ <? _)%Z; [done|].
  destruct (zlen mcap <? _)%Z; [done|]. destruct (slice (offset + 9) _ mcap) as [o3|e| |] eqn:E3; [|done..]. cbn [mbind outcome_bind].
  intros [= <-]. cbn [raw_length raw_body raw_opcode]. apply slice_inv in E1 as (B1 & D1 & L1), E2 as (B2 & D2 & L2), E3 as (B3 & D3 & L3).
  split; [lia|]. exists (ztake offset mcap), (zdrop (offset + 9 + le_dec o2) mcap). split; [|rewrite zlen_ztake; lia].
  rewrite <-(ztake_zdrop offset mcap) at 1. f_equal. rewrite D1, D2, D3. unfold frame.
  replace (zlen o3) with (le_dec o2) by lia. rewrite (byte_enc_dec o1 1), (byte_enc_dec o2 8) by lia. by rewrite <-!app_assoc.
Qed.

(** A record that is there is read. *)
Lemma read_record_there before opcode b rest : (zlen (before ++ frame opcode b ++ rest) ≤ usize_max)%Z →
  ∃ raw, read_record_at_offset (before ++ frame opcode b ++ rest) (zlen before) = Ok raw.
Proof.
  intros Hm. unfold frame in *. rewrite <-!app_assoc in *. pose proof Hm as Hm'. rewrite !zlen_app, !zlen_le_enc in Hm'.
  pose proof (zlen_nonneg before). pose proof (zlen_nonneg b). pose proof (zlen_nonneg rest).
  set (mcap := before ++ _) in *. assert (zlen mcap = zlen before + 9 + zlen b + zlen rest)%Z as Hlen by (unfold mcap; rewrite !zlen_app, !zlen_le_enc; lia).
  assert (ztake (zlen before + 9 - (zlen before + 1)) (zdrop (zlen before + 1) mcap) = le_enc 8 (zlen b)) as Hn.
  { unfold mcap. rewrite zdrop_app_ge by lia. rewrite zdrop_app by (rewrite zlen_le_enc; lia). apply ztake_app. rewrite zlen_le_enc. lia. }
  unfold read_record_at_offset, add_. rewrite (proj2 (Z.leb_le _ _)) by lia. cbn [mbind outcome_bind].
  rewrite (proj2 (Z.ltb_ge _ _)) by lia. rewrite !(slice_Ok _ _ mcap) by lia. cbn [mbind outcome_bind].
  rewrite Hn, le_dec_enc_u by (change (in_u 64 (zlen b)); unfold in_u, usize_max, u64_max in *; lia). rewrite !(proj2 (Z.ltb_ge _ _)) by lia. rewrite slice_Ok by lia. by eexists.
Qed.

(** What a chunk index says of the file: where it says, there is a chunk, as long as it
    says, with what it says in its header. *)
Definition indexes_chunk (mcap : bytes) (ci : ChunkIndex) : Prop := ∃ before b rest h data,
  mcap = before ++ frame op.CHUNK b ++ rest ∧ zlen before = ci_chunk_start_offset ci ∧
  parse_record op.CHUNK b = Ok (RChunk h data) ∧ ci_chunk_length ci = (9 + zlen b)%Z ∧
  ci_message_start_time ci = ch_message_start_time h ∧ ci_message_end_time ci = ch_message_end_time h ∧
  ci_compression ci = ch_compression h ∧ ci_compressed_size ci = ch_compressed_size h ∧ ci_uncompressed_size ci = ch_uncompressed_size h.

Lemma clean_same {A} (m : method Doctor anyhow A) d (Q : A → Doctor → Prop) : clean m d (λ _ d', d' = d) → (∀ a, Q a d) → clean m d Q.
Proof. intros Hm HQ. eapply clean_mono; [exact Hm|]. by intros a d' ->. Qed.
Lemma check_repeated_same d off c : clean (check_repeated off c) d (λ _ d', d' = d).
Proof. unfold check_repeated. clean; done. Qed.

Lemma compare_index_clean d off h ci : clean (compare_index off h ci) d (λ _ d', d' = d ∧ 
  ci_message_start_time ci = ch_message_start_time h ∧ ci_message_end_time ci = ch_message_end_time h ∧
  ci_compression ci = ch_compression h ∧ ci_compressed_size ci = ch_compressed_size h ∧ ci_uncompressed_size ci = ch_uncompressed_size h).
Proof.
  unfold compare_index. clean. repeat match goal with E : negb (_ =? _)%Z = false |- _ => apply negb_false_iff, Z.eqb_eq in E end.
  split_and!; try done. symmetry. by eapply negb_decide_false.
Qed.

Lemma validate_chunk_index_clean mcap d off ci : off = ci_chunk_start_offset ci →
  clean (validate_chunk_index mcap (off, ci)) d (λ _ d', d' = d ∧ indexes_chunk mcap ci).
Proof.
  intros ->. cbn [validate_chunk_index]. do 2 clean_step. clean_step.
  apply clean_same.
  { destruct (bt_get _ _) as [l|]; [|by apply clean_ret]. apply (clean_each _ _ _ (λ _ d', d' = d)); [done| |intros; auto with examines|done].
    intros l1 a l2 d1 _ ->. apply check_repeated_same. }
  intros _. destruct (read_record_at_offset _ _) as [raw|e| |] eqn:Er; [|apply clean_error|apply clean_panic|apply clean_fuel].
  apply read_record_at_offset_Ok in Er as (El & before & rest & Em & Eb). unfold check_indexed_record.
  destruct (Z.eqb_spec (raw_opcode raw) op.CHUNK) as [Eo|]; cbn [negb]; [|apply clean_error]. clean_step. clean_step.
  destruct (Z.eqb_spec (ci_chunk_length ci) (9 + raw_length raw)) as [Ec|]; cbn [negb]; [|apply clean_error].
  destruct (parse_record _ _) as [r| | |] eqn:Ep; [|apply clean_error|apply clean_panic|apply clean_fuel].
  destruct r as [| | | | |h data| | | | | | | | | |]; try apply clean_error. eapply clean_mono; [apply compare_index_clean|].
  intros _ d' (-> & ? & ? & ? & ? & ?). split; [done|]. rewrite Eo in Em, Ep. exists before, (raw_body raw), rest, h, data. rewrite <-El. by split_and!.
Qed.

Lemma validate_chunk_indexes_clean mcap strict rs d : noted strict rs d →
  clean (validate_chunk_indexes mcap) d (λ _ d', d' = d ∧ ∀ ci, RChunkIndex ci ∈ rs → indexes_chunk mcap ci).
Proof.
  intros Hn. unfold validate_chunk_indexes. do 2 clean_step.
  eapply (clean_each _ _ _ (λ l d', d' = d ∧ ∀ p, p ∈ l → indexes_chunk mcap p.2)).
  - split; [done|]. by intros p ?%not_elem_of_nil.
  - intros l1 [off ci] l2 d1 Hl [-> Hp]. eapply clean_mono; [apply validate_chunk_index_clean|].
    + apply (nt_keys _ _ _ Hn (off, ci)). rewrite Hl. apply elem_of_app. right. left.
    + intros _ d' [-> Hci]. split; [done|]. intros p [Hin| ->%list_elem_of_singleton]%elem_of_app; [by apply Hp|done].
  - auto with examines.
  - intros d1 [-> Hp]. split; [done|]. intros ci Hin. apply (nt_index _ _ _ Hn) in Hin. by apply bt_in_get, Hp in Hin.
Qed.

Lemma validate_statistics_clean strict rs acc ms d : noted strict rs d → knows acc ms d →
  clean validate_statistics d (λ _ _, ∀ st, RStatistics st ∈ rs → st_message_count st = zlen ms ∧
    (ms ≠ [] → earliest (message_log_time <$> ms) = Some (st_message_start_time st) ∧ latest (message_log_time <$> ms) = Some (st_message_end_time st))).
Proof.
  intros Hn Hk. unfold validate_statistics. do 2 clean_step. 
  destruct (file_statistics d) as [st|] eqn:Es; [|apply clean_ret; intros st Hin%(nt_statistics _ _ _ Hn); congruence].
  rewrite (kn_min _ _ _ Hk), (kn_max _ _ _ Hk), (kn_count _ _ _ Hk).
  pose proof (earliest_spec (message_log_time <$> ms)) as He. pose proof (latest_spec (message_log_time <$> ms)) as Hl.
  clean; intros st' Hin; apply (nt_statistics _ _ _ Hn) in Hin; rewrite Es in Hin; injection Hin as <-;
    repeat match goal with E : negb (_ =? _)%Z = false |- _ => apply negb_false_iff, Z.eqb_eq in E end; (split; [done|]); intros Hne.
  - by subst.
  - by destruct ms.
  - by destruct ms.
  - by destruct ms.
  - apply Z.ltb_ge in E. pose proof (zlen_nonneg ms). destruct (Hne (zlen_zero_nil ms ltac:(lia))).
Qed.
End indexes.

(** ** A clean bill of health *)

Section property.
Context `{Crc, ZstdLib, Lz4Lib, !ZstdLibOk, !Lz4LibOk}.

(** What there is to a file with nothing wrong: its records, opened, are ones that a reader
    of messages accepts, and their messages are [ms]. *)
Record sound_file (strict : bool) (mcap : bytes) (rs : list record) (ls : list (list record)) (ms : list Message) : Prop := {
  sf_opens : Forall2 opens rs ls;
  sf_stream : stream_of (Ok ()) ChannelAccumulator_default (concat ls) = (ms, Ok ());
  sf_data_end : ∃ de, RDataEnd de ∈ rs;
  sf_statistics st : RStatistics st ∈ rs → st_message_count st = zlen ms ∧
    (ms ≠ [] → earliest (message_log_time <$> ms) = Some (st_message_start_time st) ∧ latest (message_log_time <$> ms) = Some (st_message_end_time st));
  sf_indexes ci : RChunkIndex ci ∈ rs → indexes_chunk mcap ci;
  sf_order : strict = true → (∀ h data, RMessage h data ∉ rs) → StronglySorted Z.le (message_log_time <$> ms);
}.

(** C3: a file in which the doctor finds no error is one: magic, records of which the last
    is the only footer, magic; every chunk can be read to its end and holds messages of the
    times it says; a reader of messages accepts the records; the statistics count the
    messages and have their times; every chunk index points to a chunk, and says of it what
    its header does; and with [--strict-message-order], messages that are all in chunks are
    in order. *)
Theorem doctor_clean fuel mcap strict : (zlen mcap ≤ usize_max)%Z → errors <$> diagnose_mcap fuel mcap strict = Ok [] →
  ∃ es rs ls ms, accepted_bytes (doctor_reader mcap) mcap es ∧ Forall2 parses es rs ∧ sound_file strict mcap rs ls ms.
Proof.
  intros Hm Hd. unfold diagnose_mcap in Hd. destruct (diagnose fuel mcap (Doctor_new strict)) as [[[]|e| |] d'] eqn:E; try done.
  injection Hd as Hq. revert E Hq. unfold diagnose.
  enough (clean (_ ← scan_top_level fuel mcap; _ ← finalize_record_presence; _ ← validate_chunk_indexes mcap; validate_statistics) (Doctor_new strict)
    (λ _ _, ∃ es rs ls ms, accepted_bytes (doctor_reader mcap) mcap es ∧ Forall2 parses es rs ∧ sound_file strict mcap rs ls ms)) as Hc by exact (Hc () d').
  clean_step. eapply clean_mono; [by apply scan_top_level_clean|]. intros _ d1 (es & rs & Hacc & Hp & ls & acc & ms & Ho & Hs & _ & _ & Hk & Hn).
  clean_step. unfold finalize_record_presence. clean_step. clean_step. clean_step. clean_step. clean_step.
  clean_step. eapply clean_mono; [apply (validate_chunk_indexes_clean mcap strict rs d1 Hn)|]. intros _ d2 [-> Hci].
  eapply clean_mono; [apply (validate_statistics_clean strict rs acc ms d1 Hn Hk)|]. intros [] d2 Hst. exists es, rs, ls, ms. split_and!; [done..|]. split; try done.
  - specialize (Hs (Ok ()) []). cbn [stream_of] in Hs. by rewrite !app_nil_r in Hs.
  - apply (nt_data_end _ _ _ Hn). by apply negb_false_iff.
  - intros Hstrict Hno. apply (kn_order _ _ _ Hk); [by rewrite (nt_strict _ _ _ Hn)|].
    destruct (saw_top_level_message d1) eqn:Em; [|done]. destruct (nt_message _ _ _ Hn Em) as (h & data & Hin). by destruct (Hno h data).
Qed.

(** Reading the record at an offset, the doctor finds the one that is there, and when
    it reports an error there is none; but it panics at an offset within nine bytes of the
    largest there is, which a chunk index may hold. *)
Theorem record_at_offset mcap offset : (0 ≤ offset)%Z → (zlen mcap ≤ usize_max)%Z →
  if (usize_max <? offset + 9)%Z then read_record_at_offset mcap offset = Panic else
  match read_record_at_offset mcap offset with
  | Ok raw => raw_length raw = zlen (raw_body raw) ∧
      ∃ before rest, mcap = before ++ frame (raw_opcode raw) (raw_body raw) ++ rest ∧ zlen before = offset
  | Err _ => ∀ before opcode b rest, mcap = before ++ frame opcode b ++ rest → zlen before ≠ offset
  | _ => False
  end.
Proof.
  intros Ho Hm. destruct (Z.ltb_spec usize_max (offset + 9)) as [Hlt|Hle].
  { unfold read_record_at_offset, add_. by rewrite (proj2 (Z.leb_gt _ _)). }
  pose proof (read_record_answers mcap offset ltac:(lia) Hm) as Ha.
  destruct (read_record_at_offset mcap offset) as [raw|e| |] eqn:E; [by apply read_record_at_offset_Ok| |done..].
  intros before opcode b rest -> <-. destruct (read_record_there _ _ _ _ Hm). congruence.
Qed.
End property.

(** ** Examples *)

Module DoctorCleanExamples.
Import BitCrc MarkLib.

(** One chunk of a channel and two messages, with its index and the statistics. *)
Definition chunk_records : list record :=
  [RChannel (mkChannelRecord 1 0 (lit "/a") (lit "json") []); RMessage (mkMessageHeader 1 0 5 5) (lit "x"); RMessage (mkMessageHeader 1 1 8 8) (lit "y")].
Definition chunk_data : bytes := concat (record_frame <$> chunk_records).
Definition chunk_header : ChunkHeader := mkChunkHeader 5 8 (zlen chunk_data) 0 [] (zlen chunk_data).
Definition library : record := RHeader (mkHeader (lit "ros1") (lit "lib")).
Definition body : list record := [library; RChunk chunk_header chunk_data].
Definition chunk_length : Z := zlen (record_frame (RChunk chunk_header chunk_data)).
Definition healthy (count : Z) : mcap_file :=
  mkFile ((λ r, (record_opcode r, record_body r)) <$> body) (mkDataEnd 0)
    ((λ r, (record_opcode r, record_body r)) <$> [RChannel (mkChannelRecord 1 0 (lit "/a") (lit "json") []);
      RStatistics (mkStatistics count 0 1 0 0 1 5 8 [(1%Z, 2%Z)]);
      RChunkIndex (mkChunkIndex 5 8 (zlen MAGIC + zlen (record_frame library)) chunk_length [] 0 [] (zlen chunk_data) (zlen chunk_data))])
    (mkFooter 0 0 0).

(** Nothing is wrong with the one that counts two messages. *)
Example healthy_2 : errors <$> diagnose_mcap 10 (file_bytes (healthy 2)) true = Ok [].
Proof. vm_compute. reflexivity. Qed.
Example healthy_3 : errors <$> diagnose_mcap 10 (file_bytes (healthy 3)) true =
  Ok [Msg "Statistics has message count {}, but actual number of messages is {}" [Num 3; Num 2]].
Proof. vm_compute. reflexivity. Qed.

Lemma doctor_clean_witness : ∃ es rs ls ms, accepted_bytes (doctor_reader (file_bytes (healthy 2))) (file_bytes (healthy 2)) es ∧
  Forall2 parses es rs ∧ sound_file true (file_bytes (healthy 2)) rs ls ms.
Proof. apply (doctor_clean 10); [vm_compute; discriminate|vm_compute; reflexivity]. Defined.

Lemma record_at_offset_witness : read_record_at_offset (file_bytes (healthy 2)) u64_max = Panic.
Proof. apply (record_at_offset (file_bytes (healthy 2)) u64_max); vm_compute; discriminate. Defined.
End DoctorCleanExamples.
