(* ===== verification/AddCommon.v ===== *)
(** Adding to a file in place (add_common.rs, and the commands add attachment and add
    metadata): the new records go where the end of the data section was, followed by a new
    end and a new summary.

    The file that is changed and the backup of its tail are a world of their own, [Files],
    each of whose operations may fail.  That the old tail is saved first is what makes a
    failure harmless (AddTheory.v). *)

From S2P Require Import Prelude Utf8 BTree Errors Bin Records Crc Io Codec RwBuf Decompressor LinearReader Channels Read Summary SummaryReader Sorting ChunkWriter Writer Cli Filter Common.

(** ** What there is to add to *)

Definition FOOTER_RECORD_LEN : Z := 1 + 8 + 20.
Definition DATA_END_RECORD_LEN : Z := 1 + 8 + 4.

Record AttachmentToAdd := mkAttachmentToAdd {
  ta_log_time : Z;
  ta_create_time : Z;
  ta_name : rstring;
  ta_media_type : rstring;
  ta_data : bytes;
}.

Record ExistingSummaryData := mkExistingSummaryData {
  es_statistics : option Statistics;
  es_channels : list (Z * ChannelRecord);
  es_schemas : list (Z * ParsedSchema);
  es_chunk_indexes : list ChunkIndex;
  es_attachment_indexes : list AttachmentIndex;
  es_metadata_indexes : list MetadataIndex;
}.
Definition ExistingSummaryData_default : ExistingSummaryData := mkExistingSummaryData None [] [] [] [] [].

Record ExistingLayout := mkExistingLayout {
  old_data_end_offset : Z;
  old_data_end_crc : Z;
  emit_summary_offsets : bool;
  data_crc_enabled : bool;
  summary_crc_enabled : bool;
}.

Record SummaryBuild := mkSummaryBuild {
  sb_bytes : bytes;
  sb_summary_start : Z;
  sb_summary_offset_start : Z;
}.

(** [Option::context] *)
Definition or_context {A} (format : string) (args : list arg) (o : option A) : Result A :=
  match o with Some a => Ok a | None => Err (Msg format args) end.
(** [checked_sub] *)
Definition checked_sub (a b : Z) : option Z := if (b <=? a)%Z then Some (a - b)%Z else None.
(** [input.get(start..)] *)
Definition get_from {A} (start : Z) (l : list A) : option (list A) :=
  if (start <=? zlen l)%Z then Some (zdrop start l) else None.

Section existing.
Context `{Crc, ZstdLib, Lz4Lib, HashOrder}.

Definition parse_data_end (input : bytes) (offset : Z) : Result DataEnd :=
  match get_from offset input with
  | None => bail "data end offset out of range: {offset}" [Num offset]
  | Some tail =>
      match (InnerReader_next (linear.sans_magic tail)).1 with
      | Ok (Some (RDataEnd data_end)) => mret data_end
      | Ok (Some other) => bail "expected data end record at offset {offset}, found opcode {:02x}" [Num offset; Num (record_opcode other)]
      | Ok None => bail "missing data end record" []
      | Err e => Err (Context "failed to parse data end record" [] (FromMcap e))
      | Panic => Panic
      | Fuel => Fuel
      end
  end.

Definition parse_existing_layout (input : bytes) : Result ExistingLayout :=
  footer ← with_context "failed to read footer" [] (from_mcap (footer input));
  footer_start ← or_context "input is too short to contain a footer" [] (checked_sub (zlen input) (zlen MAGIC + FOOTER_RECORD_LEN));
  old_data_end_offset ←
    (if (0 <? f_summary_start footer)%Z
     then or_context "summary start is before data end record" [] (checked_sub (f_summary_start footer) DATA_END_RECORD_LEN)
     else or_context "footer starts before data end record" [] (checked_sub footer_start DATA_END_RECORD_LEN));
  data_end ← parse_data_end input old_data_end_offset;
  mret (mkExistingLayout old_data_end_offset (de_data_section_crc data_end)
    (negb (f_summary_offset_start footer =? 0)%Z)
    (negb (de_data_section_crc data_end =? 0)%Z)
    (negb (f_summary_crc footer =? 0)%Z)).

(** Without a summary its parts are gathered from the records of the file. *)
Definition gather_record (r : record) : method ExistingSummaryData anyhow () :=
  data ← get;
  let '(mkExistingSummaryData st chs schs cis ais mis) := data in
  match r with
  | RStatistics statistics => put (mkExistingSummaryData (Some statistics) chs schs cis ais mis)
  | RChannel channel =>
      match bt_get (c_id channel) chs with
      | Some existing =>
          if bool_decide (existing = channel) then mret ()
          else mthrow (Msg "conflicting channel definition for id {}" [Num (c_id channel)])
      | None => put (mkExistingSummaryData st (bt_insert (c_id channel) channel chs) schs cis ais mis)
      end
  | RSchema header data =>
      let schema := mkParsedSchema header data in
      match bt_get (sh_id header) schs with
      | Some existing =>
          if bool_decide (existing = schema) then mret ()
          else mthrow (Msg "conflicting schema definition for id {}" [Num (sh_id header)])
      | None => put (mkExistingSummaryData st chs (bt_insert (sh_id header) schema schs) cis ais mis)
      end
  | RChunkIndex index => put (mkExistingSummaryData st chs schs (cis ++ [index]) ais mis)
  | RAttachmentIndex index => put (mkExistingSummaryData st chs schs cis (ais ++ [index]) mis)
  | RMetadataIndex index => put (mkExistingSummaryData st chs schs cis ais (mis ++ [index]))
  | _ => mret ()
  end.
(** [for record in reader { body(record.context(format)?)? }] *)
Fixpoint for_each_context (fuel : nat) (format : string) (body : record → method ExistingSummaryData anyhow ())
    (i : InnerReader) : method ExistingSummaryData anyhow () :=
  match fuel with
  | 0 => lift Fuel
  | S fuel =>
      let '(record, i) := InnerReader_next i in
      record ← lift (with_context format [] (from_mcap record));
      match record with
      | None => mret ()
      | Some r => _ ← body r; for_each_context fuel format body i
      end
  end.
(** The body of the loop over the records of the file. *)
Definition gather_nested (fuel : nat) (r : record) : method ExistingSummaryData anyhow () :=
  match r with
  | RChunk header data =>
      reader ← lift (with_context "failed to parse chunk records" [] (from_mcap (ChunkReader_new header data)));
      for_each_context fuel "failed to parse nested chunk record" gather_record reader
  | _ => gather_record r
  end.

Definition collect_existing_summary (fuel : nat) (input : bytes) : Result ExistingSummaryData :=
  summary ← with_context "failed to read summary" [] (from_mcap (Summary_read fuel input));
  match summary with
  | Some summary => mret (mkExistingSummaryData (stats summary)
      (foldl (λ m p, bt_insert (channel_id p.2) (parsed_channel p.2) m) [] (hash_iter (channels summary)))
      (foldl (λ m p, bt_insert (schema_id p.2) (parsed_schema p.2) m) [] (hash_iter (schemas summary)))
      (chunk_indexes summary) (attachment_indexes summary) (metadata_indexes summary))
  | None =>
      let '(o, data) := for_each_context fuel "failed to parse MCAP record" (gather_nested fuel) (linear.new input) ExistingSummaryData_default in
      _ ← o;
      mret data
  end.
End existing.

(** ** The new records *)

Section build.
Context `{Crc}.

(** [push] of the opcode, and [extend_from_slice] of the length and the body *)
Definition append_record (output : bytes) (opcode : Z) (body : bytes) : bytes :=
  output ++ le_enc 1 opcode ++ le_enc 8 (zlen body) ++ body.
Definition serialize_binrw {A} (c : codec A) (value : A) : Result bytes :=
  with_context "failed to serialize record" [] (from_mcap (to_buf_le c value)).

Definition append_schema_record (output : bytes) (schema : ParsedSchema) : Result bytes :=
  body ← serialize_binrw SchemaHeader_codec (ps_header schema);
  mret (append_record output op.SCHEMA (body ++ le_enc 4 (as_u32 (zlen (ps_data schema))) ++ ps_data schema)).
Definition append_channel_record (output : bytes) (channel : ChannelRecord) : Result bytes :=
  body ← serialize_binrw Channel_codec channel;
  mret (append_record output op.CHANNEL body).
Definition append_chunk_index_record (output : bytes) (index : ChunkIndex) : Result bytes :=
  body ← serialize_binrw ChunkIndex_codec index;
  mret (append_record output op.CHUNK_INDEX body).
Definition append_attachment_index_record (output : bytes) (index : AttachmentIndex) : Result bytes :=
  body ← serialize_binrw AttachmentIndex_codec index;
  mret (append_record output op.ATTACHMENT_INDEX body).
Definition append_metadata_index_record (output : bytes) (index : MetadataIndex) : Result bytes :=
  body ← serialize_binrw MetadataIndex_codec index;
  mret (append_record output op.METADATA_INDEX body).
Definition append_statistics_record (output : bytes) (statistics : Statistics) : Result bytes :=
  body ← serialize_binrw Statistics_codec statistics;
  mret (append_record output op.STATISTICS body).
Definition append_summary_offset_record (output : bytes) (summary_offset : SummaryOffset) : Result bytes :=
  body ← serialize_binrw SummaryOffset_codec summary_offset;
  mret (append_record output op.SUMMARY_OFFSET body).
Definition append_data_end_record (output : bytes) (crc : Z) : Result bytes :=
  body ← serialize_binrw DataEnd_codec (mkDataEnd crc);
  mret (append_record output op.DATA_END body).
Definition append_footer_record (output : bytes) (summary_start summary_offset_start summary_crc : Z) : Result bytes :=
  body ← serialize_binrw Footer_codec (mkFooter summary_start summary_offset_start summary_crc);
  mret (append_record output op.FOOTER body).

Definition build_attachment_record (attachment : AttachmentToAdd) : Result bytes :=
  header_bytes ← serialize_binrw AttachmentHeader_codec
    (mkAttachmentHeader (ta_log_time attachment) (ta_create_time attachment) (ta_name attachment) (ta_media_type attachment));
  let body := header_bytes ++ le_enc 8 (zlen (ta_data attachment)) ++ ta_data attachment in
  mret (append_record [] op.ATTACHMENT (body ++ le_enc 4 (crc32 body))).
Definition build_metadata_record (metadata : Metadata) : Result bytes :=
  body ← serialize_binrw Metadata_codec metadata;
  mret (append_record [] op.METADATA body).

(** *** The summary *)

Fixpoint append_all {A} (append : bytes → A → Result bytes) (l : list A) (output : bytes) : Result bytes :=
  match l with
  | [] => mret output
  | a :: l => output ← append output a; append_all append l output
  end.

(** The bytes so far, where its groups are, and whether there are any. *)
Record SummaryGroups := mkSummaryGroups {
  sg_bytes : bytes;
  sg_offsets : list SummaryOffset;
  sg_wrote : bool;
}.
Definition append_group {A} (summary_start opcode : Z) (append : bytes → A → Result bytes) (l : list A)
    (g : SummaryGroups) : Result SummaryGroups :=
  group_start ← add_ u64_max summary_start (zlen (sg_bytes g));
  output ← append_all append l (sg_bytes g);
  mret (if (zlen (sg_bytes g) <? zlen output)%Z
        then mkSummaryGroups output (sg_offsets g ++ [mkSummaryOffset opcode group_start (zlen output - zlen (sg_bytes g))]) true
        else mkSummaryGroups output (sg_offsets g) (sg_wrote g)).

Definition build_summary_bytes (existing : ExistingSummaryData) (new_attachment_indexes : list AttachmentIndex)
    (new_metadata_indexes : list MetadataIndex) (summary_start : Z) (emit_summary_offsets : bool) : Result SummaryBuild :=
  g ← append_group summary_start op.SCHEMA append_schema_record (snd <$> es_schemas existing) (mkSummaryGroups [] [] false);
  g ← append_group summary_start op.CHANNEL append_channel_record (snd <$> es_channels existing) g;
  g ← match es_statistics existing with
      | Some statistics => append_group summary_start op.STATISTICS append_statistics_record [statistics] g
      | None => mret g
      end;
  g ← append_group summary_start op.CHUNK_INDEX append_chunk_index_record (es_chunk_indexes existing) g;
  let attachment_indexes := sort_by (by_key (λ i, [ai_offset i])) (es_attachment_indexes existing ++ new_attachment_indexes) in
  g ← append_group summary_start op.ATTACHMENT_INDEX append_attachment_index_record attachment_indexes g;
  let metadata_indexes := sort_by (by_key (λ i, [mx_offset i])) (es_metadata_indexes existing ++ new_metadata_indexes) in
  g ← append_group summary_start op.METADATA_INDEX append_metadata_index_record metadata_indexes g;
  '(output, summary_offset_start) ←
    (if emit_summary_offsets && negb (bool_decide (sg_offsets g = [])) then
       start ← add_ u64_max summary_start (zlen (sg_bytes g));
       output ← append_all append_summary_offset_record (sg_offsets g) (sg_bytes g);
       mret (output, start)
     else mret (sg_bytes g, 0%Z));
  mret (mkSummaryBuild output (if sg_wrote g then summary_start else 0) summary_offset_start).

Definition compute_summary_crc (summary_bytes : bytes) (summary_start summary_offset_start : Z) : Z :=
  hasher_finalize (hasher_update (hasher_update hasher_new summary_bytes)
    (le_enc 1 op.FOOTER ++ le_enc 8 20 ++ le_enc 8 summary_start ++ le_enc 8 summary_offset_start)).
End build.

(** ** In place *)

(** The file that is changed, opened for update, and the backup of its tail.  The path of
    the backup is made of the process and the time. *)
Class Files (F : Type) := {
  files_Write :: Write F;
  files_Seek :: Seek F;
  map_file : method F anyhow bytes;
  make_tail_backup_path : rstring → method F anyhow rstring;
  write_backup : bytes → method F io_error ();
  reopen_backup : method F io_error ();
  sync_backup : method F io_error ();
  remove_backup : method F io_error ();
  open_target : method F io_error ();
  set_len : Z → method F io_error ();
  sync_all : method F io_error ();
}.

(** [m.with_context(..)] *)
Definition in_context {F A} (format : string) (args : list arg) (m : method F io_error A) : method F anyhow A := λ w,
  let '(o, w) := m w in (with_context format args (map_err (λ e, FromMcap (Io e)) o), w).
Definition with_context_on {F A} (format : string) (args : list arg) (m : method F anyhow A) : method F anyhow A := λ w,
  let '(o, w) := m w in (with_context format args o, w).
(** [hasher.update(..)], if there is one *)
Definition update_hasher `{Crc} (h : option hasher) (b : bytes) : option hasher := (λ h, hasher_update h b) <$> h.

Section amend.
Context `{Crc, !CrcInit, ZstdLib, Lz4Lib, HashOrder, Files F}.

Fixpoint write_attachments (attachments : list AttachmentToAdd) (data_hasher : option hasher) (new_indexes : list AttachmentIndex)
    : method F anyhow (option hasher * list AttachmentIndex) :=
  match attachments with
  | [] => mret (data_hasher, new_indexes)
  | attachment :: attachments =>
      offset ← in_context "failed to query output offset" [] stream_position;
      record_bytes ← lift (build_attachment_record attachment);
      let data_hasher := update_hasher data_hasher record_bytes in
      _ ← in_context "failed to write attachment record" [] (write_all record_bytes);
      write_attachments attachments data_hasher (new_indexes ++
        [mkAttachmentIndex offset (zlen record_bytes) (ta_log_time attachment) (ta_create_time attachment)
           (zlen (ta_data attachment)) (ta_name attachment) (ta_media_type attachment)])
  end.

Fixpoint write_metadata_records (metadata : list Metadata) (data_hasher : option hasher) (new_indexes : list MetadataIndex)
    : method F anyhow (option hasher * list MetadataIndex) :=
  match metadata with
  | [] => mret (data_hasher, new_indexes)
  | metadata_record :: metadata =>
      offset ← in_context "failed to query output offset" [] stream_position;
      record_bytes ← lift (build_metadata_record metadata_record);
      let data_hasher := update_hasher data_hasher record_bytes in
      _ ← in_context "failed to write metadata record" [] (write_all record_bytes);
      write_metadata_records metadata data_hasher (new_indexes ++ [mkMetadataIndex offset (zlen record_bytes) (md_name metadata_record)])
  end.

(** [a.saturating_add(b as u32)] *)
Definition count_more (a b : Z) : Z := Z.min u32_max (a + as_u32 b).
Definition add_to_statistics (attachments metadata : Z) (s : Statistics) : Statistics :=
  mkStatistics (st_message_count s) (st_schema_count s) (st_channel_count s)
    (count_more (st_attachment_count s) attachments) (count_more (st_metadata_count s) metadata)
    (st_chunk_count s) (st_message_start_time s) (st_message_end_time s) (st_channel_message_counts s).
Definition add_to_summary (attachments metadata : Z) (e : ExistingSummaryData) : ExistingSummaryData :=
  mkExistingSummaryData (add_to_statistics attachments metadata <$> es_statistics e) (es_channels e) (es_schemas e)
    (es_chunk_indexes e) (es_attachment_indexes e) (es_metadata_indexes e).

(** The closure whose result is [write_result]. *)
Definition write_amendment (file : rstring) (layout : ExistingLayout) (existing_summary : ExistingSummaryData)
    (attachments : list AttachmentToAdd) (metadata : list Metadata) : method F anyhow () :=
  _ ← in_context "failed to open '{}' for in-place update" [Str file] open_target;
  _ ← in_context "failed to seek in '{}'" [Str file] (seek (SeekStart (old_data_end_offset layout)));
  let data_hasher := if data_crc_enabled layout then Some (hasher_new_with_initial (old_data_end_crc layout)) else None in
  '(data_hasher, new_attachment_indexes) ← write_attachments attachments data_hasher [];
  '(data_hasher, new_metadata_indexes) ← write_metadata_records metadata data_hasher [];
  let data_section_crc := default 0%Z (hasher_finalize <$> data_hasher) in
  data_end_record ← lift (append_data_end_record [] data_section_crc);
  _ ← in_context "failed to write data end record" [] (write_all data_end_record);
  let existing_summary := add_to_summary (zlen new_attachment_indexes) (zlen new_metadata_indexes) existing_summary in
  summary_start ← in_context "failed to query summary start offset" [] stream_position;
  summary ← lift (build_summary_bytes existing_summary new_attachment_indexes new_metadata_indexes summary_start (emit_summary_offsets layout));
  _ ← in_context "failed to write summary records" [] (write_all (sb_bytes summary));
  let summary_crc := if summary_crc_enabled layout
    then compute_summary_crc (sb_bytes summary) (sb_summary_start summary) (sb_summary_offset_start summary) else 0%Z in
  footer_record ← lift (append_footer_record [] (sb_summary_start summary) (sb_summary_offset_start summary) summary_crc);
  _ ← in_context "failed to write footer" [] (write_all footer_record);
  _ ← in_context "failed to write trailing magic" [] (write_all MAGIC);
  final_length ← in_context "failed to query final output length" [] stream_position;
  _ ← in_context "failed to truncate output file" [] (set_len final_length);
  _ ← in_context "failed to flush output file" [] flush;
  in_context "failed to sync output file" [] sync_all.

(** What is done before anything of the file is changed. *)
Definition prepare_amendment (fuel : nat) (file : rstring) : method F anyhow (rstring * ExistingLayout * ExistingSummaryData) :=
  backup_path ← make_tail_backup_path file;
  mapped ← with_context_on "failed to read '{}'" [Str file] map_file;
  layout ← lift (parse_existing_layout mapped);
  tail ← lift (or_context "data end offset out of range for '{}'" [Str file] (get_from (old_data_end_offset layout) mapped));
  _ ← in_context "failed to write tail backup '{}'" [Str backup_path] (write_backup tail);
  _ ← in_context "failed to reopen tail backup '{}'" [Str backup_path] reopen_backup;
  _ ← in_context "failed to sync tail backup '{}'" [Str backup_path] sync_backup;
  summary ← lift (collect_existing_summary fuel mapped);
  mret (backup_path, layout, summary).

(** The match on [write_result].  That the backup could not be removed is a warning. *)
Definition finish_amendment (file backup_path : rstring) (layout : ExistingLayout) (write_result : method F anyhow ()) : method F anyhow () := λ w,
  match write_result w with
  | (Ok _, w) => let '(removed, w) := remove_backup w in
      (match removed with Ok _ | Err _ => Ok () | Panic => Panic | Fuel => Fuel end, w)
  | (Err err, w) => (Err (Context "in-place update failed; original tail backup saved at '{}'. to restore manually: truncate '{}' to {} bytes and append the backup file contents."
      [Str backup_path; Str file; Num (old_data_end_offset layout)] err), w)
  | (Panic, w) => (Panic, w)
  | (Fuel, w) => (Fuel, w)
  end.
Definition amend_mcap_file (fuel : nat) (file : rstring) (attachments : list AttachmentToAdd) (metadata : list Metadata) : method F anyhow () :=
  '(backup_path, layout, existing_summary) ← prepare_amendment fuel file;
  finish_amendment file backup_path layout (write_amendment file layout existing_summary attachments metadata).

(** ** The commands *)

(** [parse_key_values], of add metadata: [value.split_once('=')] *)
Fixpoint split_once (c : byte) (s : rstring) : option (rstring * rstring) :=
  match s with
  | [] => None
  | b :: s => if Byte.eqb b c then Some ([], s) else (λ p, (b :: p.1, p.2)) <$> split_once c s
  end.
Definition parse_key_value (value : rstring) (out : list (rstring * rstring)) : Result (list (rstring * rstring)) :=
  match split_once Byte.x3d value with
  | None => bail "failed to parse key/value '{value}', expected key=value" [Str value]
  | Some (key, val) =>
      if bool_decide (key = []) then bail "metadata key must not be empty in '{value}'" [Str value]
      else if bt_contains key out then bail "duplicate metadata key '{key}'" [Str key]
      else mret (bt_insert key val out)
  end.
Fixpoint parse_key_values_into (values : list rstring) (out : list (rstring * rstring)) : Result (list (rstring * rstring)) :=
  match values with
  | [] => mret out
  | value :: values => out ← parse_key_value value out; parse_key_values_into values out
  end.
Definition parse_key_values (values : list rstring) : Result (list (rstring * rstring)) := parse_key_values_into values [].

(** [run] of add metadata *)
Definition add_metadata_run (fuel : nat) (file name : rstring) (key_values : list rstring) : method F anyhow () :=
  metadata_map ← lift (parse_key_values key_values);
  with_context_on "failed to add metadata to '{}'" [Str file] (amend_mcap_file fuel file [] [mkMetadata name metadata_map]).

(** A [SystemTime] is the nanoseconds since the epoch, before which they are negative. *)
Definition system_time_to_nanos (time : Z) : Result Z :=
  if (time <? 0)%Z then bail "timestamp is before unix epoch" [] else
  if (u64_max <? time / 1000000000 * 1000000000)%Z then bail "timestamp is out of range" [] else
  if (u64_max <? time / 1000000000 * 1000000000 + time `mod` 1000000000)%Z then bail "timestamp is out of range" [] else
  mret (time / 1000000000 * 1000000000 + time `mod` 1000000000)%Z.

(** [AddAttachmentCommand] *)
Record AddAttachmentCommand := mkAddAttachmentCommand {
  aa_file : rstring;
  aa_attachment_file : rstring;
  aa_name : option rstring;
  aa_content_type : rstring;
  aa_log_time : option rstring;
  aa_creation_time : option rstring;
}.

(** [run] of add attachment; what it asks the system of the attached file, and of the
    clock, are its arguments. *)
Definition add_attachment_run `{Chrono} (read : rstring → Result bytes) (metadata modified : rstring → Result Z) (now : Z)
    (fuel : nat) (args : AddAttachmentCommand) : method F anyhow () :=
  let source := aa_attachment_file args in
  attachment_data ← lift (with_context "failed to read attachment source '{}'" [Str source] (read source));
  create_time ← lift match aa_creation_time args with
    | Some value => parse_timestamp_or_nanos value
    | None =>
        _ ← with_context "failed to read metadata for attachment source '{}'" [Str source] (metadata source);
        modified ← with_context "failed to read modified time for attachment source '{}'" [Str source] (modified source);
        system_time_to_nanos modified
    end;
  log_time ← lift match aa_log_time args with
    | Some value => parse_timestamp_or_nanos value
    | None => system_time_to_nanos now
    end;
  with_context_on "failed to add attachment to '{}'" [Str (aa_file args)]
    (amend_mcap_file fuel (aa_file args)
       [mkAttachmentToAdd log_time create_time (default source (aa_name args)) (aa_content_type args) attachment_data] []).
End amend.
