(* ===== verification/AddTheory.v ===== *)
(** What adding to a file in place promises.

    When it fails, at any operation and however far that got, the file can be put together
    again from what is left of it and the backup of its tail.  When it does not, the file
    is the one it was with the new records at the end of its data, a summary that has them,
    and checksums that are right. *)

From S2P Require Import Prelude Utf8 BTree Errors Bin Records Crc Io Codec RwBuf Decompressor LinearReader LinearReaderTheory LinearReaderClient LinearReaderFile Channels Read ReadTheory Conversation Streaming LinearReaderFlat Summary SummaryReader Sorting ChunkWriter ChunkWriterTheory Writer WriterTheory WriterSpec WriterFile Instances Cli Filter Common AddCommon.

(** ** Files whose operations may fail *)

(** [world w c p backup]: the file has the contents [c], what has it open is at [p], and
    there may be a backup.  An operation, if it fails too, does no more than it is for: a
    write changes nothing before its position, nor does a truncation before its length. *)
Class FilesSafe {F} `{Files F} (world : F → bytes → Z → option bytes → Prop) : Prop := {
  safe_map w c p bk : world w c p bk →
    let '(o, w') := map_file w in world w' c p bk ∧ match o with Ok m => m = c | _ => True end;
  safe_path file w c p bk : world w c p bk → world (make_tail_backup_path file w).2 c p bk;
  safe_backup b w c p bk : world w c p bk →
    let '(o, w') := write_backup b w in ∃ bk', world w' c p bk' ∧ match o with Ok _ => bk' = Some b | _ => True end;
  safe_reopen w c p bk : world w c p bk → world (reopen_backup w).2 c p bk;
  safe_sync_backup w c p bk : world w c p bk → world (sync_backup w).2 c p bk;
  safe_remove w c p bk : world w c p bk →
    let '(o, w') := remove_backup w in (∃ bk', world w' c p bk') ∧ match o with Panic | Fuel => False | _ => True end;
  safe_open w c p bk : world w c p bk → ∃ p', world (open_target w).2 c p' bk;
  safe_seek q w c p bk : world w c p bk →
    let '(o, w') := seek (SeekStart q) w in ∃ p', world w' c p' bk ∧ match o with Ok _ => p' = q | _ => True end;
  safe_position w c p bk : world w c p bk →
    let '(o, w') := stream_position w in world w' c p bk ∧ match o with Ok n => n = p | _ => True end;
  safe_write b w c p bk : world w c p bk →
    ∃ c' p', world (write b w).2 c' p' bk ∧ (p ≤ p')%Z ∧ ∀ q, (q ≤ p)%Z → (q ≤ zlen c)%Z → ztake q c' = ztake q c;
  safe_set_len n w c p bk : world w c p bk →
    ∃ c', world (set_len n w).2 c' p bk ∧ ∀ q, (q ≤ n)%Z → (q ≤ zlen c)%Z → ztake q c' = ztake q c;
  safe_flush w c p bk : world w c p bk → world (flush w).2 c p bk;
  safe_sync w c p bk : world w c p bk → world (sync_all w).2 c p bk;
}.

Section safe.
Context `{Crc, !CrcInit, ZstdLib, Lz4Lib, HashOrder, Files F, !FilesSafe world}.

(** [m] from [P]: to [Q] if it succeeds, and to [R] however it ends. *)
Definition leaves {E A} (P : F → Prop) (m : method F E A) (Q : A → F → Prop) (R : F → Prop) : Prop := ∀ w, P w →
  R (m w).2 ∧ match (m w).1 with Ok a => Q a (m w).2 | _ => True end.

Lemma leaves_bind {E A B} P (m : method F E A) (f : A → method F E B) Q Q' R :
  leaves P m Q R → (∀ a, leaves (Q a) (f a) Q' R) → leaves P (m ≫= f) Q' R.
Proof.
  intros Hm Hf w Hw. specialize (Hm w Hw). unfold mbind, method_bind. destruct (m w) as [[a|e| |] w1]; cbn in *; [|tauto..]. apply Hf, Hm.
Qed.
Lemma leaves_pre {E A} (P P' : F → Prop) (m : method F E A) Q R : (∀ w, P w → P' w) → leaves P' m Q R → leaves P m Q R.
Proof. intros HP Hm w Hw. by apply Hm, HP. Qed.
Lemma leaves_ret {E A} (P : F → Prop) (a : A) (Q : A → F → Prop) (R : F → Prop) : (∀ w, P w → Q a w) → (∀ w, P w → R w) → leaves (E:=E) P (mret a) Q R.
Proof. intros HQ HR w Hw. cbn. split; auto. Qed.
Lemma leaves_lift {E A} (P R : F → Prop) (o : outcome E A) (Q : A → F → Prop) : (∀ w, P w → R w) → (∀ a w, o = Ok a → P w → Q a w) → leaves P (lift o) Q R.
Proof. intros HR HQ w Hw. cbn. split; [auto|]. destruct o; try done. by apply HQ. Qed.
Lemma leaves_context {A} format args P (m : method F io_error A) Q R : leaves P m Q R → leaves P (in_context format args m) Q R.
Proof. intros Hm w Hw. specialize (Hm w Hw). unfold in_context. by destruct (m w) as [[] ?]. Qed.
Lemma leaves_context_on {A} format args P (m : method F anyhow A) Q R : leaves P m Q R → leaves P (with_context_on format args m) Q R.
Proof. intros Hm w Hw. specialize (Hm w Hw). unfold with_context_on. by destruct (m w) as [[] ?]. Qed.

(** *** What can be put together again *)

Context (old : bytes) (off : Z) (saved : bytes).

(** The file begins as it did, and the rest is saved. *)
Definition restorable (w : F) : Prop := ∃ c p, world w c p (Some saved) ∧ ztake off c = ztake off old.
(** And what has it open is past that. *)
Definition writable_after (w : F) : Prop := ∃ c p, world w c p (Some saved) ∧ ztake off c = ztake off old ∧ (off ≤ p)%Z.

Lemma writable_restorable w : writable_after w → restorable w.
Proof. intros (c & p & Hw & Hc & _). by exists c, p. Qed.

Hypothesis Hoff : (0 ≤ off ≤ zlen old)%Z.

Lemma same_start_long c : ztake off c = ztake off old → (off ≤ zlen c)%Z.
Proof. intros E. apply (f_equal zlen) in E. rewrite !zlen_ztake in E. lia. Qed.

Lemma write_leaves b : leaves writable_after (write b) (λ _, writable_after) writable_after.
Proof.
  intros w (c & p & Hw & Hc & Hp). pose proof (same_start_long _ Hc). destruct (safe_write b w c p _ Hw) as (c' & p' & Hw' & Hp' & Hq).
  assert (writable_after (write b w).2) as Ha by (exists c', p'; split_and!; [done|by rewrite Hq by lia|lia]).
  split; [done|]. by destruct (write b w).1.
Qed.
Lemma write_all_loop_leaves fuel b : leaves writable_after (write_all_loop fuel b) (λ _, writable_after) writable_after.
Proof.
  revert b. induction fuel as [|fuel IH]; intros [|x b]; cbn [write_all_loop]; try (by apply leaves_ret);
    (eapply leaves_bind; [apply write_leaves|]; intros n; destruct (n =? 0)%Z; [by apply (leaves_lift _ _ (Err _))|];
     eapply leaves_bind; [by eapply (leaves_lift _ _ _ (λ _, writable_after))|]; intros rest).
  - by apply leaves_lift.
  - apply IH.
Qed.
Lemma write_all_leaves format args b : leaves writable_after (in_context format args (write_all b)) (λ _, writable_after) writable_after.
Proof. apply leaves_context, write_all_loop_leaves. Qed.
Lemma position_leaves format args :
  leaves writable_after (in_context format args stream_position) (λ n w, writable_after w ∧ (off ≤ n)%Z) writable_after.
Proof.
  apply leaves_context. intros w (c & p & Hw & Hc & Hp). pose proof (safe_position w c p _ Hw) as Hs. destruct (stream_position w) as [o w']. destruct Hs as [Hw' Ho].
  cbn. assert (writable_after w') by by exists c, p. split; [done|]. destruct o; try done. by subst.
Qed.
Lemma lift_leaves {E A} (o : outcome E A) : leaves writable_after (lift o) (λ _, writable_after) writable_after.
Proof. by apply leaves_lift. Qed.

Lemma write_attachments_leaves atts h l : leaves writable_after (write_attachments atts h l) (λ _, writable_after) writable_after.
Proof.
  revert h l. induction atts as [|a atts IH]; intros h l; cbn [write_attachments]; [by apply leaves_ret|].
  eapply leaves_bind; [apply position_leaves|]. intros n. eapply leaves_pre; [by intros w [Hw _]|].
  eapply leaves_bind; [apply lift_leaves|]. intros b. eapply leaves_bind; [apply write_all_leaves|]. intros []. apply IH.
Qed.
Lemma write_metadata_leaves mds h l : leaves writable_after (write_metadata_records mds h l) (λ _, writable_after) writable_after.
Proof.
  revert h l. induction mds as [|a mds IH]; intros h l; cbn [write_metadata_records]; [by apply leaves_ret|].
  eapply leaves_bind; [apply position_leaves|]. intros n. eapply leaves_pre; [by intros w [Hw _]|].
  eapply leaves_bind; [apply lift_leaves|]. intros b. eapply leaves_bind; [apply write_all_leaves|]. intros []. apply IH.
Qed.

Lemma write_amendment_leaves file layout existing atts mds : old_data_end_offset layout = off →
  leaves restorable (write_amendment file layout existing atts mds) (λ _, restorable) restorable.
Proof.
  intros Hlay w Hw.
  enough (leaves restorable (write_amendment file layout existing atts mds) (λ _, writable_after) restorable) as Hl.
  { destruct (Hl w Hw) as [? Ha]. split; [done|]. destruct (write_amendment _ _ _ _ _ w).1; [by apply writable_restorable|done..]. }
  clear w Hw. unfold write_amendment. rewrite Hlay.
  eapply leaves_bind with (Q := λ _, restorable).
  { apply leaves_context. intros w (c & p & Hw & Hc). destruct (safe_open w c p _ Hw) as [p' Hw']. assert (restorable (open_target w).2) by by exists c, p'.
    split; [done|]. by destruct (open_target w).1. }
  intros []. eapply leaves_bind with (Q := λ _, writable_after).
  { apply leaves_context. intros w (c & p & Hw & Hc). pose proof (safe_seek off w c p _ Hw) as Hs. destruct (seek _ w) as [o w']. destruct Hs as (p' & Hw' & Ho).
    cbn. split; [by exists c, p'|]. destruct o; try done. subst. by exists c, off. }
  intros ?.
  assert (∀ A (m : method F anyhow A) Q, leaves writable_after m Q writable_after → leaves writable_after m Q restorable) as Hweak.
  { intros A m Q Hm w Hw. destruct (Hm w Hw). split; [by apply writable_restorable|done]. }
  apply Hweak. clear Hweak. cbn beta.
  eapply leaves_bind; [apply write_attachments_leaves|]. intros [h1 ais]. eapply leaves_bind; [apply write_metadata_leaves|]. intros [h2 mis].
  eapply leaves_bind; [apply lift_leaves|]. intros b1. eapply leaves_bind; [apply write_all_leaves|]. intros [].
  eapply leaves_bind; [apply position_leaves|]. intros n1. eapply leaves_pre; [by intros w [Hw _]|].
  eapply leaves_bind; [apply lift_leaves|]. intros b2. eapply leaves_bind; [apply write_all_leaves|]. intros [].
  eapply leaves_bind; [apply lift_leaves|]. intros b3. eapply leaves_bind; [apply write_all_leaves|]. intros [].
  eapply leaves_bind; [apply write_all_leaves|]. intros []. eapply leaves_bind; [apply position_leaves|]. intros n2.
  eapply leaves_bind with (Q := λ _, writable_after).
  { apply leaves_context. intros w [(c & p & Hw & Hc & Hp) Hn]. pose proof (same_start_long _ Hc). destruct (safe_set_len n2 w c p _ Hw) as (c' & Hw' & Hq).
    assert (writable_after (set_len n2 w).2) by (exists c', p; split_and!; [done|by rewrite Hq by lia|done]).
    split; [done|]. by destruct (set_len n2 w).1. }
  intros []. eapply leaves_bind with (Q := λ _, writable_after).
  { apply leaves_context. intros w (c & p & Hw & Hc & Hp). assert (writable_after (flush w).2) by (exists c, p; split_and!; [by apply safe_flush|done..]).
    split; [done|]. by destruct (flush w).1. }
  intros []. apply leaves_context. intros w (c & p & Hw & Hc & Hp).
  assert (writable_after (sync_all w).2) by (exists c, p; split_and!; [by apply safe_sync|done..]).
  split; [done|]. by destruct (sync_all w).1.
Qed.
End safe.

(** ** A failure is harmless *)

Section restorable.
Context `{Crc, !CrcInit, ZstdLib, Lz4Lib, HashOrder, Files F, !FilesSafe world}.

(** As it was, whatever became of a backup. *)
Definition untouched (old : bytes) (w : F) : Prop := ∃ p bk, world w old p bk.

Lemma get_from_spec {A} start (l l' : list A) : get_from start l = Some l' → (start ≤ zlen l)%Z ∧ l' = zdrop start l.
Proof. unfold get_from. destruct (Z.leb_spec start (zlen l)); [|done]. by intros [= <-]. Qed.
Lemma checked_sub_spec a b c : checked_sub a b = Some c → (0 ≤ c)%Z.
Proof. unfold checked_sub. destruct (Z.leb_spec b a); [|done]. intros [= <-]. lia. Qed.
Lemma layout_offset input layout : parse_existing_layout input = Ok layout → (0 ≤ old_data_end_offset layout)%Z.
Proof.
  unfold parse_existing_layout. destruct (with_context _ _ _) as [ft|e| |]; cbn [mbind outcome_bind]; [|done..].
  destruct (or_context "input is too short to contain a footer" [] _) as [start|e| |]; cbn [mbind outcome_bind]; [|done..].
  intros E. apply bind_Ok in E as (off & Eoff & E). apply bind_Ok in E as (de & _ & E). injection E as <-. cbn.
  destruct (0 <? f_summary_start ft)%Z; (destruct (checked_sub _ _) as [n|] eqn:En in Eoff; [|done]); injection Eoff as <-; by apply checked_sub_spec in En.
Qed.

(** Before anything is changed the tail is saved. *)
Lemma prepare_leaves old fuel file : leaves (untouched old) (prepare_amendment fuel file)
  (λ r w, let off := old_data_end_offset r.1.2 in (0 ≤ off ≤ zlen old)%Z ∧ ∃ p, world w old p (Some (zdrop off old))) (untouched old).
Proof.
  unfold prepare_amendment. eapply leaves_bind with (Q := λ _, untouched old).
  { intros w (p & bk & Hw). assert (untouched old (make_tail_backup_path file w).2) by (exists p, bk; by apply safe_path). split; [done|]. by destruct (make_tail_backup_path file w).1. }
  intros path. eapply leaves_bind with (Q := λ m w, untouched old w ∧ m = old).
  { apply leaves_context_on. intros w (p & bk & Hw). pose proof (safe_map w _ _ _ Hw) as Hs. destruct (map_file w) as [o w']. destruct Hs as [Hw' Ho].
    assert (untouched old w') by by exists p, bk. split; [done|]. by destruct o. }
  intros m. eapply leaves_bind with (Q := λ l w, untouched old w ∧ m = old ∧ (0 ≤ old_data_end_offset l)%Z).
  { apply leaves_lift; [by intros w [? _]|]. intros l w El [Hw ->]. split_and!; [done..|by eapply layout_offset]. }
  intros l. eapply leaves_bind with (Q := λ t w, untouched old w ∧ m = old ∧ (0 ≤ old_data_end_offset l ≤ zlen old)%Z ∧ t = zdrop (old_data_end_offset l) old).
  { apply leaves_lift; [by intros w [? _]|]. intros t w Et (Hw & -> & Hl). destruct (get_from _ _) as [t'|] eqn:E; [|done]. injection Et as ->.
    by apply get_from_spec in E as [? ->]. }
  intros t.
  set (ready := λ w, (0 ≤ old_data_end_offset l ≤ zlen old)%Z ∧ ∃ p, world w old p (Some (zdrop (old_data_end_offset l) old))).
  assert (∀ w, ready w → untouched old w) as Hready by (intros w (_ & p & Hw); by exists p, (Some (zdrop (old_data_end_offset l) old))).
  eapply leaves_bind with (Q := λ _, ready).
  { apply leaves_context. intros w ((p & bk & Hw) & _ & Hl & ->). pose proof (safe_backup (zdrop (old_data_end_offset l) old) w _ _ _ Hw) as Hs.
    destruct (write_backup _ w) as [o w']. destruct Hs as (bk' & Hw' & Ho). cbn. split; [by exists p, bk'|]. destruct o; try done. subst. split; [done|]. by exists p. }
  intros []. eapply leaves_bind with (Q := λ _, ready).
  { apply leaves_context. intros w (Hl & p & Hw). assert (ready (reopen_backup w).2) by (split; [done|]; exists p; by apply safe_reopen).
    split; [by apply Hready|]. by destruct (reopen_backup w).1. }
  intros []. eapply leaves_bind with (Q := λ _, ready).
  { apply leaves_context. intros w (Hl & p & Hw). assert (ready (sync_backup w).2) by (split; [done|]; exists p; by apply safe_sync_backup).
    split; [by apply Hready|]. by destruct (sync_backup w).1. }
  intros []. eapply leaves_bind with (Q := λ _, ready); [apply leaves_lift; auto|].
  intros e. apply leaves_ret; auto.
Qed.

(** C2: whatever operation fails, and however much of a write it leaves undone, either the
    file is as it was, or the error says so: the start of the file, up to the offset that
    the error names, and the backup after it are the old file. *)
Theorem amend_restorable fuel file atts mds w old p bk o w' : world w old p bk →
  amend_mcap_file fuel file atts mds w = (o, w') → o ≠ Ok () →
  untouched old w' ∨ ∃ off c p' saved, world w' c p' (Some saved) ∧ (0 ≤ off ≤ zlen c)%Z ∧ ztake off c ++ saved = old ∧
    match o with Err e => ∃ format path e', e = Context format [Str path; Str file; Num off] e' | _ => True end.
Proof.
  intros Hw E Ho. unfold amend_mcap_file, mbind, method_bind in E.
  destruct (prepare_leaves old fuel file w) as [Hr Hq]; [by exists p, bk|].
  destruct (prepare_amendment fuel file w) as [[[[path layout] existing]|e| |] w1]; [|left; by injection E as <- <-..].
  cbn in Hq. destruct Hq as (Hoff & p1 & Hw1). unfold finish_amendment in E. set (off := old_data_end_offset layout) in *.
  destruct (write_amendment_leaves old off (zdrop off old) Hoff file layout existing atts mds eq_refl w1) as [Hr1 _].
  { by exists old, p1. }
  destruct (write_amendment _ _ _ _ _ w1) as [o2 w2]. cbn in Hr1. destruct Hr1 as (c & p2 & Hw2 & Hc).
  pose proof (same_start_long old off Hoff _ Hc) as Hlen. 
  assert (∀ out, match out with Err e => ∃ format path e', e = Context format [Str path; Str file; Num off] e' | _ => True end →
    ∃ off c p' saved, world w2 c p' (Some saved) ∧ (0 ≤ off ≤ zlen c)%Z ∧ ztake off c ++ saved = old ∧
      match out with Err e => ∃ format path e', e = Context format [Str path; Str file; Num off] e' | Ok () => True | _ => True end) as Hend.
  { intros out Hout. exists off, c, p2, (zdrop off old). split_and!; [done|lia|done|by rewrite Hc, ztake_zdrop|]. by destruct out as [[]|e| |]. }
  destruct o2 as [[]|e| |].
  - pose proof (safe_remove w2 _ _ _ Hw2) as Hs. destruct (remove_backup w2) as [[]  w3]; destruct Hs as [_ Hs]; injection E as <- <-; done.
  - injection E as <- <-. right. apply (Hend (Err _)). eauto.
  - injection E as <- <-. right. by apply (Hend Panic).
  - injection E as <- <-. right. by apply (Hend Fuel).
Qed.
End restorable.

(** ** Examples *)

(** A disk that is full after some bytes, unless it has no end. *)
Module Disk.
Record Disk := mkDisk { dk_file : VecCursor; dk_backup : option bytes; dk_room : option Z }.
Definition set_file (c : VecCursor) (w : Disk) : Disk := mkDisk c (dk_backup w) (dk_room w).
Definition set_backup (b : option bytes) (w : Disk) : Disk := mkDisk (dk_file w) b (dk_room w).
Definition no_space : io_error := OtherIo 28.

Definition disk_write (b : bytes) : method Disk io_error Z := λ w,
  match dk_room w with
  | None => let '(o, c) := write b (dk_file w) in (o, set_file c w)
  | Some room =>
      if (room <=? 0)%Z then (Err no_space, w) else
      let b := ztake room b in
      let '(o, c) := write b (dk_file w) in (o, mkDisk c (dk_backup w) (Some (room - zlen b)%Z))
  end.
#[export] Instance disk_Write : Write Disk := {| write := disk_write; flush := mret () |}.
#[export] Instance disk_Seek : Seek Disk := {|
  seek := λ to, zoom dk_file set_file (seek to);
  stream_position := zoom dk_file set_file stream_position;
|}.
Definition disk_set_len (n : Z) : method Disk io_error () := λ w,
  let c := vc_data (dk_file w) in
  (Ok (), set_file (mkVecCursor (ztake n c ++ replicate (Z.to_nat (n - zlen c)) Byte.x00) (vc_pos (dk_file w))) w).
#[export] Instance disk_Files : Files Disk := {|
  map_file := λ w, (Ok (vc_data (dk_file w)), w);
  make_tail_backup_path := λ file, mret (file ++ lit ".tail-backup");
  write_backup := λ b w, (Ok (), set_backup (Some b) w);
  reopen_backup := mret ();
  sync_backup := mret ();
  remove_backup := λ w, (Ok (), set_backup None w);
  open_target := λ w, (Ok (), set_file (mkVecCursor (vc_data (dk_file w)) 0) w);
  set_len := disk_set_len;
  sync_all := mret ();
|}.

Definition disk_world (w : Disk) (c : bytes) (p : Z) (bk : option bytes) : Prop :=
  dk_file w = mkVecCursor c p ∧ dk_backup w = bk ∧ (0 ≤ p)%Z.

Lemma ztake_less q p (l : bytes) : (q ≤ p)%Z → ztake q (ztake p l) = ztake q l.
Proof. intros Hq. rewrite !ztake_take, take_take. f_equal. lia. Qed.

(** A write at [p] leaves what is before [p]. *)
Lemma cursor_write_before b c p : (0 ≤ p)%Z → ∀ q, (q ≤ p)%Z → (q ≤ zlen c)%Z →
  ztake q (vc_data (write b (mkVecCursor c p)).2) = ztake q c.
Proof.
  intros Hp q Hq Hc. cbn [write cursor_Write snd vc_data vc_pos]. set (pad := replicate _ _).
  assert (zlen pad = Z.max 0 (p - zlen c)) as Hpad by (unfold pad; unfold zlen at 1; rewrite length_replicate; lia).
  unfold splice. rewrite ztake_app_le by (rewrite zlen_ztake, zlen_app; zlen_facts; lia).
  rewrite ztake_less by done. by apply ztake_app_le.
Qed.

Lemma cursor_write_at b c p : write b (mkVecCursor c p) = (Ok (zlen b), mkVecCursor (vc_data (write b (mkVecCursor c p)).2) (p + zlen b)).
Proof. done. Qed.

#[export] Instance disk_safe : FilesSafe disk_world.
Proof.
  split; unfold disk_world.
  - intros w c p bk (Hc & Hb & Hp). cbn. by rewrite Hc.
  - intros file w c p bk Hw. done.
  - intros b w c p bk (Hc & Hb & Hp). cbn. by exists (Some b).
  - by intros.
  - by intros.
  - intros w c p bk (Hc & Hb & Hp). cbn. split; [by exists None|done].
  - intros w c p bk (Hc & Hb & Hp). exists 0%Z. cbn. by rewrite Hc.
  - intros q w c p bk (Hc & Hb & Hp). cbn. unfold zoom. rewrite Hc. cbn. destruct (Z.leb_spec 0 q); [by exists q|by exists p].
  - intros w c p bk (Hc & Hb & Hp). cbn. unfold zoom. rewrite Hc. by destruct w.
  - intros b w c p bk (Hc & Hb & Hp). change (write b w) with (disk_write b w). unfold disk_write.
    destruct (dk_room w) as [room|]; [destruct (Z.leb_spec room 0)|].
    + exists c, p. by split_and!.
    + rewrite Hc, cursor_write_at. pose proof (zlen_nonneg (ztake room b)).
      eexists _, _. split; [split_and!; [reflexivity|done|lia]|]. split; [lia|]. by apply cursor_write_before.
    + rewrite Hc, cursor_write_at. pose proof (zlen_nonneg b).
      eexists _, _. split; [split_and!; [reflexivity|done|lia]|]. split; [lia|]. by apply cursor_write_before.
  - intros n w c p bk (Hc & Hb & Hp). cbn. rewrite Hc. cbn. eexists. split; [by split_and!|]. intros q Hq Hqc. zlen_facts.
    rewrite ztake_app_le by (rewrite zlen_ztake; lia). by apply ztake_less.
  - by intros.
  - by intros.
Qed.
End Disk.

Module AddTheoryExamples.
Import InitCrc CopyLib Instances Disk.

(** A file that has only a header, and too little room for the metadata that is added. *)
Definition name : rstring := lit "a.mcap".
Definition small : bytes :=
  file_bytes (mkFile [(op.HEADER, c_enc Header_codec (mkHeader (lit "p") (lit "l")))] (mkDataEnd 0) [] (mkFooter 0 0 0)).
Definition added : Metadata := mkMetadata (lit "m") [(lit "k", lit "v")].
Definition full : outcome anyhow () * Disk := amend_mcap_file 10 name [] [added] (mkDisk (VecCursor_new small) None (Some 20%Z)).

Example full_fails : match full.1 with Err (Context _ args (Context "failed to write metadata record" _ _)) => args | _ => [] end =
  [Str (lit "a.mcap.tail-backup"); Str name; Num 27].
Proof. vm_compute. reflexivity. Qed.
Lemma full_changed : bool_decide (vc_data (dk_file full.2) = small) = false.
Proof. vm_compute. reflexivity. Qed.

Lemma amend_restorable_witness : full.1 ≠ Ok () ∧ ∃ off c p saved,
  dk_file full.2 = mkVecCursor c p ∧ dk_backup full.2 = Some saved ∧ c ≠ small ∧ ztake off c ++ saved = small.
Proof.
  assert (full.1 ≠ Ok ()) as Hne by (intros E; pose proof full_fails as Hf; rewrite E in Hf; discriminate Hf).
  split; [exact Hne|]. pose proof full_changed as Hch. apply bool_decide_eq_false in Hch.
  destruct (amend_restorable (world := disk_world) 10 name [] [added] (mkDisk (VecCursor_new small) None (Some 20%Z)) small 0 None full.1 full.2)
    as [(p & bk & Hw)|(off & c & p & saved & (Hc & Hb & _) & _ & Hs & _)]; [split; [reflexivity|]; split; [reflexivity|lia]|reflexivity|exact Hne| |].
  - destruct Hw as [Hw _]. rewrite Hw in Hch. destruct (Hch eq_refl).
  - exists off, c, p, saved. split; [exact Hc|]. split; [exact Hb|]. split; [|exact Hs]. intros ->. rewrite Hc in Hch. destruct (Hch eq_refl).
Defined.
End AddTheoryExamples.
