(* ===== verification/AddWork.v ===== *)
(** What adding to a file in place achieves: the file is the one it was with the new records
    at the end of its data, a summary that has them, and checksums that are right. *)

From S2P Require Import Prelude Utf8 BTree Errors Bin Records Crc Io Codec RwBuf Decompressor LinearReader LinearReaderTheory LinearReaderClient LinearReaderFile Channels Read ReadTheory Conversation Streaming LinearReaderFlat Summary SummaryReader Sorting ChunkWriter ChunkWriterTheory Writer WriterTheory WriterSpec WriterFile WriterSummary WriterRoundtrip Instances Cli Filter Common AddCommon AddTheory.

(** ** The records that are appended *)

Section append.
Context `{Crc, !CrcLaws}.

Lemma serialize_enc {A} (c : codec A) `{!CodecOk c} a : c_wf c a = true → serialize_binrw c a = Ok (c_enc c a).
Proof. intros Ha. unfold serialize_binrw. by rewrite to_buf_le_enc. Qed.

Lemma append_frame out opcode body : append_record out opcode body = out ++ frame opcode body.
Proof. done. Qed.

(** [append out a] appends the record [g a]. *)
Definition appends {A} (append : bytes → A → Result bytes) (g : A → record) : Prop :=
  ∀ out a, record_wf (g a) = true → append out a = Ok (out ++ record_frame (g a)).

Ltac appends := intros out a [Hw _]%andb_true_iff; rewrite serialize_enc by (exact Hw || apply _); done.
Lemma appends_schema : appends append_schema_record (λ s, RSchema (ps_header s) (ps_data s)).
Proof.
  intros out a [[Hw Hd]%andb_true_iff _]%andb_true_iff. unfold append_schema_record. rewrite serialize_enc by (exact Hw || apply _). cbn [mbind outcome_bind].
  apply Z.ltb_lt in Hd. rewrite as_u32_small by (apply in_u_len; zlia). done.
Qed.
Lemma appends_channel : appends append_channel_record RChannel.
Proof. unfold append_channel_record. appends. Qed.
Lemma appends_chunk_index : appends append_chunk_index_record RChunkIndex.
Proof. unfold append_chunk_index_record. appends. Qed.
Lemma appends_attachment_index : appends append_attachment_index_record RAttachmentIndex.
Proof. unfold append_attachment_index_record. appends. Qed.
Lemma appends_metadata_index : appends append_metadata_index_record RMetadataIndex.
Proof. unfold append_metadata_index_record. appends. Qed.
Lemma appends_statistics : appends append_statistics_record RStatistics.
Proof. unfold append_statistics_record. appends. Qed.
Lemma appends_summary_offset : appends append_summary_offset_record RSummaryOffset.
Proof. unfold append_summary_offset_record. appends. Qed.
Lemma appends_data_end : appends append_data_end_record (λ crc, RDataEnd (mkDataEnd crc)).
Proof. unfold append_data_end_record. appends. Qed.

Lemma append_footer_spec x : c_wf Footer_codec x = true →
  append_footer_record [] (f_summary_start x) (f_summary_offset_start x) (f_summary_crc x) = Ok (record_frame (RFooter x)).
Proof. intros Hw. unfold append_footer_record. destruct x. rewrite serialize_enc by (exact Hw || apply _). done. Qed.

(** The record of an attachment, with its checksum. *)
Definition attachment_header (a : AttachmentToAdd) : AttachmentHeader :=
  mkAttachmentHeader (ta_log_time a) (ta_create_time a) (ta_name a) (ta_media_type a).
Definition added_attachment (a : AttachmentToAdd) : record :=
  RAttachment (attachment_header a) (ta_data a) (crc32 (attachment_hashed (attachment_header a) (ta_data a))).

Lemma build_attachment_spec a : record_wf (added_attachment a) = true → build_attachment_record a = Ok (record_frame (added_attachment a)).
Proof.
  intros Hw. unfold added_attachment, record_wf in Hw. rewrite !andb_true_iff in Hw. destruct Hw as [[[[Hw _] _] _] _].
  unfold build_attachment_record. rewrite serialize_enc by (exact Hw || apply _). cbn [mbind outcome_bind]. rewrite append_frame. cbn [app].
  f_equal. unfold record_frame, added_attachment. cbn [record_opcode record_body]. by rewrite <-!app_assoc.
Qed.
Lemma build_metadata_spec m : record_wf (RMetadata m) = true → build_metadata_record m = Ok (record_frame (RMetadata m)).
Proof. intros [Hw _]%andb_true_iff. unfold build_metadata_record. rewrite serialize_enc by (exact Hw || apply _). done. Qed.

(** ** The summary *)

Lemma append_all_spec {A} append (g : A → record) l out : appends append g → forallb record_wf (g <$> l) = true →
  append_all append l out = Ok (out ++ records_data (g <$> l)).
Proof.
  intros Hg. revert out. induction l as [|a l IH]; intros out; cbn [append_all].
  { change (records_data (g <$> [])) with (@nil byte). by rewrite app_nil_r. }
  rewrite fmap_cons. cbn [forallb]. intros [Ha Hl]%andb_true_iff. rewrite (Hg out a Ha). cbn [mbind outcome_bind]. rewrite IH by done.
  change (records_data (g a :: (g <$> l))) with (record_frame (g a) ++ records_data (g <$> l)). by rewrite app_assoc.
Qed.
Lemma records_data_nil rs : records_data rs = [] → rs = [].
Proof.
  destruct rs as [|r rs]; [done|]. intros E%(f_equal zlen). change (records_data (r :: rs)) with (record_frame r ++ records_data rs) in E.
  rewrite zlen_app, zlen_record_frame, zlen_nil in E. zlen_facts. lia.
Qed.

(** What is built of the groups [gs] of a summary that starts at [start]. *)
Definition groups_built (start : Z) (gs : list (Z * list record)) (g : SummaryGroups) : Prop :=
  sg_bytes g = groups_data gs ∧ sg_offsets g = group_offsets start gs ∧ sg_wrote g = negb (bool_decide (concat gs.*2 = [])).

Lemma groups_data_one opcode rs : groups_data [(opcode, rs)] = records_data rs.
Proof. unfold groups_data. cbn [fmap list_fmap concat snd]. by rewrite app_nil_r. Qed.
Lemma append_group_spec {A} start opcode append (f : A → record) l gs g : appends append f → forallb record_wf (f <$> l) = true →
  groups_built start gs g → (start + zlen (groups_data (gs ++ [(opcode, f <$> l)])) ≤ u64_max)%Z →
  ∃ g', append_group start opcode append l g = Ok g' ∧ groups_built start (gs ++ [(opcode, f <$> l)]) g'.
Proof.
  intros Hf Hl (Hb & Ho & Hw) Hsz. unfold append_group. rewrite groups_data_app, groups_data_one, zlen_app in Hsz. zlen_facts.
  rewrite Hb, add_Ok by lia. cbn [mbind outcome_bind]. rewrite (append_all_spec append f) by done. cbn [mbind outcome_bind]. eexists. split; [done|].
  unfold groups_built. rewrite groups_data_app, groups_data_one, group_offsets_app, fmap_app, concat_app. fold (groups_data gs).
  cbn [group_offsets fmap list_fmap concat snd]. rewrite !app_nil_r, zlen_app. fold (f <$> l).
  destruct (decide (f <$> l = [])) as [Hnil|Hne].
  - rewrite Hnil. change (records_data []) with (@nil byte). rewrite zlen_nil, Z.add_0_r, Z.ltb_irrefl, bool_decide_true by done. cbn. by rewrite !app_nil_r.
  - assert (0 < zlen (records_data (f <$> l)))%Z as Hpos.
    { apply Z.le_neq. split; [done|]. intros E. symmetry in E. by apply zlen_zero_nil, records_data_nil in E. }
    rewrite (proj2 (Z.ltb_lt _ _)), (bool_decide_false (f <$> l = [])) by (done || lia). cbn. split_and!; [done| |].
    + rewrite Ho. repeat f_equal. lia.
    + rewrite bool_decide_false; [done|]. by intros [_ ?]%app_nil.
Qed.

(** The groups of the new summary. *)
Definition existing_groups (e : ExistingSummaryData) (ais : list AttachmentIndex) (mis : list MetadataIndex) : list (Z * list record) :=
  [(op.SCHEMA, (λ s, RSchema (ps_header s) (ps_data s)) <$> (es_schemas e).*2);
   (op.CHANNEL, RChannel <$> (es_channels e).*2);
   (op.STATISTICS, RStatistics <$> option_list (es_statistics e));
   (op.CHUNK_INDEX, RChunkIndex <$> es_chunk_indexes e);
   (op.ATTACHMENT_INDEX, RAttachmentIndex <$> sort_by (by_key (λ i, [ai_offset i])) (es_attachment_indexes e ++ ais));
   (op.METADATA_INDEX, RMetadataIndex <$> sort_by (by_key (λ i, [mx_offset i])) (es_metadata_indexes e ++ mis))].
Definition groups_records (emit : bool) (start : Z) (gs : list (Z * list record)) : list record :=
  concat gs.*2 ++ if emit then RSummaryOffset <$> group_offsets start gs else [].

Lemma group_offsets_nil start gs : group_offsets start gs = [] ↔ concat gs.*2 = [].
Proof.
  revert start. induction gs as [|[opcode rs] gs IH]; intros start; [done|]. cbn [group_offsets fmap list_fmap concat snd].
  destruct rs; cbn; [apply IH|done].
Qed.
Lemma groups_built_empty start gs g opcode : groups_built start gs g → groups_built start (gs ++ [(opcode, [])]) g.
Proof.
  intros (Hb & Ho & Hw). unfold groups_built. rewrite groups_data_app, groups_data_one, group_offsets_app, fmap_app, concat_app.
  cbn [group_offsets fmap list_fmap concat snd]. rewrite bool_decide_true by done. change (records_data []) with (@nil byte). by rewrite !app_nil_r.
Qed.

Lemma build_summary_spec e ais mis start emit : let gs := existing_groups e ais mis in let rs := groups_records emit start gs in
  forallb record_wf rs = true → (start + zlen (records_data rs) ≤ u64_max)%Z →
  build_summary_bytes e ais mis start emit = Ok (mkSummaryBuild (records_data rs)
    (if bool_decide (concat gs.*2 = []) then 0 else start)
    (if emit && negb (bool_decide (concat gs.*2 = [])) then start + zlen (groups_data gs) else 0))%Z.
Proof.
  intros gs rs. subst rs. unfold groups_records. rewrite forallb_app, andb_true_iff, records_data_app, zlen_app. fold (groups_data gs).
  intros [Hgs Hoff] Hsz. zlen_facts.
  assert (∀ k, start + zlen (groups_data (take k gs)) ≤ u64_max)%Z as Hpre.
  { intros k. rewrite <-(take_drop k gs), groups_data_app, zlen_app in Hsz. zlen_facts. lia. }
  pose proof Hgs as Hok. subst gs. cbn [existing_groups fmap list_fmap snd concat] in Hok. rewrite !forallb_app, !andb_true_iff in Hok.
  destruct Hok as (Hg1 & Hg2 & Hg3 & Hg4 & Hg5 & Hg6 & _). unfold build_summary_bytes.
  destruct (append_group_spec start op.SCHEMA _ _ ((es_schemas e).*2) [] (mkSummaryGroups [] [] false) appends_schema Hg1) as (g1 & -> & B1);
    [done|exact (Hpre 1)|]. cbn [mbind outcome_bind].
  destruct (append_group_spec start op.CHANNEL _ _ ((es_channels e).*2) _ _ appends_channel Hg2 B1) as (g2 & -> & B2); [exact (Hpre 2)|]. cbn [mbind outcome_bind].
  assert (∃ g3, match es_statistics e with Some statistics => append_group start op.STATISTICS append_statistics_record [statistics] g2 | None => mret g2 end = Ok g3 ∧
    groups_built start (take 3 (existing_groups e ais mis)) g3) as (g3 & -> & B3).
  { destruct (es_statistics e) as [st|] eqn:Est.
    - destruct (append_group_spec start op.STATISTICS _ _ [st] _ _ appends_statistics Hg3 B2) as (g3 & E3 & B3).
      + pose proof (Hpre 3) as Hp. cbn [existing_groups take] in Hp. by rewrite Est in Hp.
      + exists g3. split; [done|]. cbn [existing_groups take]. by rewrite Est.
    - exists g2. split; [done|]. cbn [existing_groups take]. rewrite Est. by apply (groups_built_empty start _ g2 op.STATISTICS) in B2. }
  cbn [mbind outcome_bind].
  destruct (append_group_spec start op.CHUNK_INDEX _ _ (es_chunk_indexes e) _ _ appends_chunk_index Hg4 B3) as (g4 & -> & B4); [exact (Hpre 4)|]. cbn [mbind outcome_bind].
  destruct (append_group_spec start op.ATTACHMENT_INDEX _ _ _ _ _ appends_attachment_index Hg5 B4) as (g5 & -> & B5); [exact (Hpre 5)|]. cbn [mbind outcome_bind].
  destruct (append_group_spec start op.METADATA_INDEX _ _ _ _ _ appends_metadata_index Hg6 B5) as (g6 & -> & B6); [exact (Hpre 6)|]. cbn [mbind outcome_bind].
  change (groups_built start (existing_groups e ais mis) g6) in B6. destruct B6 as (Hb & Ho & ->). rewrite Hb, Ho.
  assert (bool_decide (group_offsets start (existing_groups e ais mis) = []) = bool_decide (concat (existing_groups e ais mis).*2 = [])) as ->
    by (apply bool_decide_ext, group_offsets_nil).
  destruct emit; cbn [andb]; [|by rewrite app_nil_r; destruct (bool_decide _)].
  destruct (bool_decide_reflect (concat (existing_groups e ais mis).*2 = [])) as [Hnil|Hne]; cbn [negb mbind outcome_bind].
  - rewrite (proj2 (group_offsets_nil start _) Hnil). change (records_data (RSummaryOffset <$> [])) with (@nil byte). by rewrite app_nil_r.
  - rewrite add_Ok by lia. cbn [mbind outcome_bind]. rewrite (append_all_spec _ _ _ _ appends_summary_offset Hoff). done.
Qed.
End append.

(** ** Where the new records go *)

Section layout.
Context `{Crc, !CrcLaws, ZstdLib, Lz4Lib, !ZstdLibOk, !Lz4LibOk, !Frames}.
Context (f : mcap_file).

(** The end of the file. *)
Lemma footer_read start body : c_wf Footer_codec body = true →
  Read.footer (MAGIC ++ start ++ frame op.FOOTER (c_enc Footer_codec body) ++ MAGIC) = Ok body.
Proof.
  intros Hw. set (enc := c_enc Footer_codec body).
  assert (zlen enc = 20)%Z as He by (change enc with (le_enc 8 (f_summary_start body) ++ le_enc 8 (f_summary_offset_start body) ++ le_enc 4 (f_summary_crc body)); zlia).
  set (mcap := MAGIC ++ start ++ frame op.FOOTER enc ++ MAGIC).
  assert (zlen mcap = 8 + zlen start + 29 + 8)%Z as Hl.
  { unfold mcap, frame. rewrite !zlen_app, !zlen_le_enc. change (zlen MAGIC) with 8%Z. lia. }
  zlen_facts. unfold Read.footer. rewrite (proj2 (Z.ltb_ge _ _)) by (rewrite Hl; unfold Read.FOOTER_RECORD_LEN, FOOTER_LEN; change (zlen MAGIC) with 8%Z; lia).
  assert (starts_with MAGIC mcap = true) as -> by (unfold starts_with; apply bool_decide_true; unfold mcap; by rewrite ztake_app).
  assert (mcap = ((MAGIC ++ start ++ le_enc 1 op.FOOTER ++ le_enc 8 (zlen enc)) ++ enc) ++ MAGIC) as Hm.
  { unfold mcap, frame. by rewrite <-!app_assoc. }
  assert (ends_with MAGIC mcap = true) as ->.
  { unfold ends_with. rewrite (proj2 (Z.leb_le _ _)) by (rewrite Hl; change (zlen MAGIC) with 8%Z; lia). apply bool_decide_true. rewrite Hm at 2. apply zdrop_app. rewrite Hm, zlen_app. lia. }
  cbn [negb orb]. rewrite !sub_Ok by (rewrite Hl; unfold FOOTER_LEN; change (zlen MAGIC) with 8%Z; lia). cbn [mbind outcome_bind].
  rewrite sub_Ok by (rewrite Hl; unfold FOOTER_LEN; change (zlen MAGIC) with 8%Z; lia). cbn [mbind outcome_bind].
  rewrite Hm, <-app_assoc, slice_app_r; last first.
  { rewrite !zlen_app, He. unfold FOOTER_LEN. lia. }
  cbn [mbind outcome_bind]. unfold rcursor_new. unfold enc. by rewrite (read_le_enc Footer_codec).
Qed.

Hypothesis Hde : c_wf DataEnd_codec (file_data_end f) = true.
Hypothesis Hft : c_wf Footer_codec (file_footer f) = true.
Hypothesis Hsz : (zlen (file_bytes f) ≤ usize_max)%Z.

Lemma footer_spec : Read.footer (file_bytes f) = Ok (file_footer f).
Proof.
  unfold file_bytes, data_section, footer_rec. rewrite frames_one. rewrite <-(footer_read (frames (file_records f) ++ frames [data_end_rec f] ++ frames (file_summary f))) by done.
  by rewrite <-!app_assoc.
Qed.

Lemma zlen_data_end_body : zlen (c_enc DataEnd_codec (file_data_end f)) = 4%Z.
Proof. change (zlen (le_enc 4 (de_data_section_crc (file_data_end f))) = 4%Z). zlia. Qed.
Lemma file_end_split : file_bytes f = data_section f ++ frame op.DATA_END (c_enc DataEnd_codec (file_data_end f)) ++ zdrop (zlen (data_section f) + 13) (file_bytes f).
Proof.
  unfold file_bytes at 1. unfold data_end_rec. rewrite frames_one. do 2 f_equal. symmetry. unfold file_bytes, data_end_rec. rewrite frames_one, app_assoc.
  apply zdrop_app. rewrite zlen_app. unfold frame. rewrite !zlen_app, !zlen_le_enc, zlen_data_end_body. lia.
Qed.

Lemma parse_data_end_spec : parse_data_end (file_bytes f) (zlen (data_section f)) = Ok (file_data_end f).
Proof.
  unfold parse_data_end, get_from. pose proof file_end_split as E. set (rest := zdrop _ (file_bytes f)) in E.
  set (body := c_enc DataEnd_codec (file_data_end f)) in *. set (tail := frame op.DATA_END body ++ rest) in *.
  rewrite (proj2 (Z.leb_le _ _)) by (rewrite E, zlen_app; zlen_facts; lia). rewrite E, zdrop_app by done.
  set (o := with_skip_start_magic true (with_skip_end_magic true (with_record_length_limit (zlen tail) LinearReaderOptions_default))).
  assert (zlen tail ≤ usize_max)%Z as Ht by (rewrite E, zlen_app in Hsz; zlen_facts; lia).
  assert (client_at o FileRecord tail (LinearReader_new o) tail) as Hc by (split; try done; apply LinearReader_new_inv).
  assert (OPCODE_LEN_SIZE + zlen body ≤ zlen tail)%Z as Hb.
  { unfold tail, frame, OPCODE_LEN_SIZE. rewrite !zlen_app, !zlen_le_enc. zlen_facts. lia. }
  destruct (inner_loop_will (λ o _ _, o = Ok (Some (op.DATA_END, body))) (2 + length tail) (mkInnerReader tail (LinearReader_new o))) as (out & i & El & -> & _).
  - eapply will_data_end; [exact Hc|done| |done|done].
    apply (body_fits_within o (zlen tail)); [exact Hb|done|]. intros k [= <-]. done.
  - split; [apply LinearReader_new_inv|cbn; lia].
  - right. cbn. lia.
  - unfold InnerReader_next, linear.sans_magic. cbn [ir_buf]. fold o. rewrite El.
    assert (parsed (Ok (Some (op.DATA_END, body))) = Ok (Some (RDataEnd (file_data_end f)))) as ->; [|done].
    unfold parsed. cbn [mbind outcome_bind]. assert (record_wf (RDataEnd (file_data_end f)) = true) as Hw.
    { unfold record_wf. rewrite Hde. apply Z.ltb_lt. cbn [record_body]. rewrite zlen_data_end_body. lia. }
    pose proof (parse_record_body _ Hw) as Hp. cbn [record_opcode record_body] in Hp. fold body in Hp. by rewrite Hp.
Qed.

(** The summary follows the end of the data section, or there is none. *)
Definition summary_follows : Prop :=
  (f_summary_start (file_footer f) = 0 ∧ file_summary f = [] ∨ f_summary_start (file_footer f) = zlen (data_section f) + 13)%Z.

Lemma layout_spec : summary_follows → parse_existing_layout (file_bytes f) =
  let crc := de_data_section_crc (file_data_end f) in
  Ok (mkExistingLayout (zlen (data_section f)) crc (negb (f_summary_offset_start (file_footer f) =? 0)%Z) (negb (crc =? 0)%Z)
    (negb (f_summary_crc (file_footer f) =? 0)%Z)).
Proof.
  intros Hf. unfold parse_existing_layout. rewrite footer_spec. cbn [with_context from_mcap map_err mbind outcome_bind].
  assert (zlen (file_bytes f) = zlen (data_section f) + 13 + zlen (frames (file_summary f)) + 37)%Z as Hl.
  { unfold file_bytes, data_end_rec, footer_rec. rewrite !frames_one. unfold frame. rewrite !zlen_app, !zlen_le_enc, zlen_data_end_body. change (zlen MAGIC) with 8%Z.
    change (c_enc Footer_codec ?x) with (le_enc 8 (f_summary_start x) ++ le_enc 8 (f_summary_offset_start x) ++ le_enc 4 (f_summary_crc x)). rewrite !zlen_app, !zlen_le_enc. lia. }
  zlen_facts. unfold checked_sub, FOOTER_RECORD_LEN, DATA_END_RECORD_LEN. change (zlen MAGIC) with 8%Z. rewrite (proj2 (Z.leb_le _ (zlen (file_bytes f)))) by lia.
  cbn [or_context mbind outcome_bind].
  destruct Hf as [[Hs Hnil]|Hs].
  - rewrite Hs. change (0 <? 0)%Z with false. cbn iota. rewrite Hnil in Hl. change (zlen (frames [])) with 0%Z in Hl. rewrite (proj2 (Z.leb_le _ _)) by lia. cbn [or_context mbind outcome_bind].
    replace (zlen (file_bytes f) - (8 + (1 + 8 + 20)) - (1 + 8 + 4))%Z with (zlen (data_section f)) by lia. by rewrite parse_data_end_spec.
  - rewrite Hs, (proj2 (Z.ltb_lt _ _)) by lia. rewrite (proj2 (Z.leb_le _ _)) by lia. cbn [or_context mbind outcome_bind].
    replace (zlen (data_section f) + 13 - (1 + 8 + 4))%Z with (zlen (data_section f)) by lia. by rewrite parse_data_end_spec.
Qed.
End layout.

(** ** The file that is left behind *)

Section amended.
Context `{Crc}.

(** The records go to the end, and their indexes say where. *)
Fixpoint attachments_at (pos : Z) (l : list AttachmentToAdd) : list AttachmentIndex :=
  match l with
  | [] => []
  | a :: l =>
      let len := zlen (record_frame (added_attachment a)) in
      mkAttachmentIndex pos len (ta_log_time a) (ta_create_time a) (zlen (ta_data a)) (ta_name a) (ta_media_type a) ::
      attachments_at (pos + len) l
  end.
Fixpoint metadata_at (pos : Z) (l : list Metadata) : list MetadataIndex :=
  match l with
  | [] => []
  | m :: l => let len := zlen (record_frame (RMetadata m)) in mkMetadataIndex pos len (md_name m) :: metadata_at (pos + len) l
  end.

(** [f] with the new records, of what is known of it for the summary, [e]. *)
Section of_file.
Context (f : mcap_file) (e : ExistingSummaryData) (atts : list AttachmentToAdd) (mds : list Metadata).

Definition added_records : list record := (added_attachment <$> atts) ++ (RMetadata <$> mds).
Definition amended_records : list (Z * bytes) := file_records f ++ (record_entry <$> added_records).
Definition new_attachments : list AttachmentIndex := attachments_at (zlen (data_section f)) atts.
Definition new_metadata : list MetadataIndex :=
  metadata_at (zlen (data_section f ++ records_data (added_attachment <$> atts))) mds.

(** Its summary has offsets if the old one had, and checksums are made anew if there were. *)
Definition amended_start : Z := zlen (MAGIC ++ frames amended_records) + 13.
Definition amended_groups : list (Z * list record) :=
  existing_groups (add_to_summary (zlen atts) (zlen mds) e) new_attachments new_metadata.
Definition has_offsets : bool := negb (f_summary_offset_start (file_footer f) =? 0)%Z.
Definition amended_summary : list record := groups_records has_offsets amended_start amended_groups.
Definition amended_footer : Footer :=
  let none := bool_decide (concat amended_groups.*2 = []) in
  let start := if none then 0%Z else amended_start in
  let offsets := if has_offsets && negb none then (amended_start + zlen (groups_data amended_groups))%Z else 0%Z in
  mkFooter start offsets
    (if negb (f_summary_crc (file_footer f) =? 0)%Z
     then crc32 (records_data amended_summary ++ le_enc 1 op.FOOTER ++ le_enc 8 20 ++ le_enc 8 start ++ le_enc 8 offsets) else 0).
Definition amended : mcap_file :=
  mkFile amended_records
    (mkDataEnd (if (de_data_section_crc (file_data_end f) =? 0)%Z then 0 else crc32 (MAGIC ++ frames amended_records)))
    (record_entry <$> amended_summary) amended_footer.
End of_file.
End amended.

(** ** Files whose operations do what they are for *)

Class FilesWork {F} `{Files F} (world : F → bytes → Z → option bytes → Prop) : Prop := {
  work_file bk :: FileOk F (λ w c p, world w c p bk);
  work_map w c p bk : world w c p bk → ∃ w', map_file w = (Ok c, w') ∧ world w' c p bk;
  work_path file w c p bk : world w c p bk → ∃ path w', make_tail_backup_path file w = (Ok path, w') ∧ world w' c p bk;
  work_backup b w c p bk : world w c p bk → ∃ w', write_backup b w = (Ok (), w') ∧ world w' c p (Some b);
  work_reopen w c p bk : world w c p bk → ∃ w', reopen_backup w = (Ok (), w') ∧ world w' c p bk;
  work_sync_backup w c p bk : world w c p bk → ∃ w', sync_backup w = (Ok (), w') ∧ world w' c p bk;
  work_remove w c p b : world w c p (Some b) → ∃ w', remove_backup w = (Ok (), w') ∧ world w' c p None;
  work_open w c p bk : world w c p bk → ∃ w', open_target w = (Ok (), w') ∧ world w' c 0%Z bk;
  work_set_len n w c p bk : world w c p bk → (0 ≤ n ≤ zlen c)%Z → ∃ w', set_len n w = (Ok (), w') ∧ world w' (ztake n c) p bk;
  work_sync w c p bk : world w c p bk → ∃ w', sync_all w = (Ok (), w') ∧ world w' c p bk;
}.

Section work.
Context `{Crc, !CrcLaws, !CrcInit, !CrcInitLaws, ZstdLib, Lz4Lib, !ZstdLibOk, !Lz4LibOk, !Frames, HashOrder, Files F, !FilesWork world}.
Context (old : bytes) (bk : option bytes).
Abbreviation file := (λ (w : F) c p, world w c p bk).

Lemma in_context_Ok {A} format args (m : method F io_error A) w a w' : m w = (Ok a, w') → in_context format args m w = (Ok a, w').
Proof. intros E. unfold in_context. by rewrite E. Qed.

Lemma over_writes format args b w c : over file old w c → (zlen (c ++ b) ≤ u64_max)%Z →
  ∃ w', in_context format args (write_all b) w = (Ok (), w') ∧ over file old w' (c ++ b).
Proof.
  intros Hw Hl. destruct (write_all_ok (rep := over file old) b w c Hw Hl) as (w' & E & Hw'). exists w'. split; [by apply in_context_Ok|done].
Qed.
Lemma over_tells format args w c : over file old w c →
  ∃ w', in_context format args stream_position w = (Ok (zlen c), w') ∧ over file old w' c.
Proof. intros Hw. destruct (tell_ok (rep := over file old) w c Hw) as (w' & E & Hw'). exists w'. split; [by apply in_context_Ok|done]. Qed.

Definition hash_on (h : option hasher) (b : bytes) : option hasher := (λ h, hasher_update h b) <$> h.
Lemma hash_on_app h a b : hash_on (hash_on h a) b = hash_on h (a ++ b).
Proof. destruct h; cbn; [|done]. by rewrite hasher_update_app. Qed.
Lemma hash_on_nil h : hash_on h [] = h.
Proof. destruct h; cbn; [|done]. by rewrite hasher_update_nil. Qed.
Lemma records_data_cons r rs : records_data (r :: rs) = record_frame r ++ records_data rs.
Proof. done. Qed.

Lemma write_attachments_spec l h done w c : over file old w c → forallb record_wf (added_attachment <$> l) = true →
  (zlen (c ++ records_data (added_attachment <$> l)) ≤ u64_max)%Z →
  ∃ w', write_attachments l h done w = (Ok (hash_on h (records_data (added_attachment <$> l)), done ++ attachments_at (zlen c) l), w') ∧
    over file old w' (c ++ records_data (added_attachment <$> l)).
Proof.
  revert h done w c. induction l as [|a l IH]; intros h done w c Hw; cbn [write_attachments].
  { exists w. change (records_data (added_attachment <$> [])) with (@nil byte). by rewrite hash_on_nil, !app_nil_r. }
  rewrite fmap_cons, records_data_cons. cbn [forallb]. intros [Ha Hl]%andb_true_iff Hsz. rewrite app_assoc in *.
  destruct (over_tells "failed to query output offset" [] w c Hw) as (w1 & E1 & Hw1). rewrite (bind_method_Ok _ _ _ _ _ E1).
  rewrite build_attachment_spec, bind_lift by done.
  destruct (over_writes "failed to write attachment record" [] (record_frame (added_attachment a)) w1 c Hw1) as (w2 & E2 & Hw2); [rewrite zlen_app in Hsz; zlen_facts; lia|].
  rewrite (bind_method_Ok _ _ _ _ _ E2).
  destruct (IH (update_hasher h (record_frame (added_attachment a))) (done ++ [mkAttachmentIndex (zlen c) (zlen (record_frame (added_attachment a))) (ta_log_time a) (ta_create_time a)
    (zlen (ta_data a)) (ta_name a) (ta_media_type a)]) w2 _ Hw2 Hl Hsz) as (w3 & E3 & Hw3).
  exists w3. split; [|done]. rewrite E3. fold (hash_on h (record_frame (added_attachment a))). rewrite hash_on_app. cbn [attachments_at]. by rewrite <-app_assoc, <-zlen_app.
Qed.
Lemma write_metadata_records_spec l h done w c : over file old w c → forallb record_wf (RMetadata <$> l) = true →
  (zlen (c ++ records_data (RMetadata <$> l)) ≤ u64_max)%Z →
  ∃ w', write_metadata_records l h done w = (Ok (hash_on h (records_data (RMetadata <$> l)), done ++ metadata_at (zlen c) l), w') ∧
    over file old w' (c ++ records_data (RMetadata <$> l)).
Proof.
  revert h done w c. induction l as [|a l IH]; intros h done w c Hw; cbn [write_metadata_records].
  { exists w. change (records_data (RMetadata <$> [])) with (@nil byte). by rewrite hash_on_nil, !app_nil_r. }
  rewrite fmap_cons, records_data_cons. cbn [forallb]. intros [Ha Hl]%andb_true_iff Hsz. rewrite app_assoc in *.
  destruct (over_tells "failed to query output offset" [] w c Hw) as (w1 & E1 & Hw1). rewrite (bind_method_Ok _ _ _ _ _ E1).
  rewrite build_metadata_spec, bind_lift by done.
  destruct (over_writes "failed to write metadata record" [] (record_frame (RMetadata a)) w1 c Hw1) as (w2 & E2 & Hw2); [rewrite zlen_app in Hsz; zlen_facts; lia|].
  rewrite (bind_method_Ok _ _ _ _ _ E2).
  destruct (IH (update_hasher h (record_frame (RMetadata a))) (done ++ [mkMetadataIndex (zlen c) (zlen (record_frame (RMetadata a))) (md_name a)]) w2 _ Hw2 Hl Hsz) as (w3 & E3 & Hw3).
  exists w3. split; [|done]. rewrite E3. fold (hash_on h (record_frame (RMetadata a))). rewrite hash_on_app. cbn [metadata_at]. by rewrite <-app_assoc, <-zlen_app.
Qed.

Lemma zlen_attachments_at pos l : zlen (attachments_at pos l) = zlen l.
Proof. revert pos. induction l as [|a l IH]; intros pos; [done|]. cbn [attachments_at]. rewrite !zlen_cons, IH. done. Qed.
Lemma zlen_metadata_at pos l : zlen (metadata_at pos l) = zlen l.
Proof. revert pos. induction l as [|a l IH]; intros pos; [done|]. cbn [metadata_at]. rewrite !zlen_cons, IH. done. Qed.

Section amendment.
Context (f : mcap_file) (e : ExistingSummaryData) (atts : list AttachmentToAdd) (mds : list Metadata).
Hypothesis Hold : old = file_bytes f.
Hypothesis Hadded : forallb record_wf (added_records atts mds) = true.
Hypothesis Hsummary : forallb record_wf (amended_summary f e atts mds) = true.
Hypothesis Hsz : (zlen (file_bytes (amended f e atts mds)) ≤ u64_max)%Z.
Abbreviation f' := (amended f e atts mds).
Abbreviation crc := (de_data_section_crc (file_data_end f)).
(** The checksum of the data, if there is one, is right. *)
Hypothesis Hcrc : crc = 0%Z ∨ crc = crc32 (data_section f).

Lemma amended_data : data_section f' = data_section f ++ records_data (added_attachment <$> atts) ++ records_data (RMetadata <$> mds).
Proof.
  unfold data_section. cbn [file_records amended]. unfold amended_records. rewrite frames_app, <-records_data_frames. unfold added_records.
  by rewrite records_data_app, <-app_assoc.
Qed.
Lemma amended_bytes : file_bytes f' = ((data_section f ++ records_data (added_attachment <$> atts)) ++ records_data (RMetadata <$> mds)) ++
  record_frame (RDataEnd (file_data_end f')) ++ records_data (amended_summary f e atts mds) ++ record_frame (RFooter (file_footer f')) ++ MAGIC.
Proof.
  unfold file_bytes. rewrite amended_data. unfold data_end_rec, footer_rec. rewrite !frames_one. cbn [file_summary amended]. rewrite <-records_data_frames.
  by rewrite <-!app_assoc.
Qed.

Lemma data_hash b : default 0%Z (hasher_finalize <$> hash_on (if negb (crc =? 0)%Z then Some (hasher_new_with_initial crc) else None) b) =
  if (crc =? 0)%Z then 0%Z else crc32 (data_section f ++ b).
Proof.
  destruct (Z.eqb_spec crc 0) as [|Hne]; [done|]. destruct Hcrc as [|E]; [done|]. cbn. rewrite E. unfold crc32 at 1. rewrite hasher_initial_spec.
  by rewrite hasher_update_app.
Qed.
Lemma footer_hash sum start offsets : compute_summary_crc sum start offsets =
  crc32 (sum ++ le_enc 1 op.FOOTER ++ le_enc 8 20 ++ le_enc 8 start ++ le_enc 8 offsets).
Proof. unfold compute_summary_crc. by rewrite hasher_update_app. Qed.

Lemma amended_data_end_wf : record_wf (RDataEnd (file_data_end f')) = true.
Proof.
  assert (c_wf u32 (de_data_section_crc (file_data_end f')) = true) as Hw.
  { cbn [amended file_data_end de_data_section_crc]. destruct (_ =? 0)%Z; [done|]. apply (uint_wf_in 4), crc32_u32. }
  unfold record_wf. apply andb_true_iff. split; [exact Hw|]. apply Z.ltb_lt. pose proof (zlen_data_end (file_data_end f')) as Hl.
  rewrite zlen_record_frame in Hl. lia.
Qed.
Lemma amended_sizes : zlen (file_bytes f') = (zlen (data_section f') + 13 + zlen (records_data (amended_summary f e atts mds)) + 37)%Z.
Proof.
  rewrite amended_bytes, amended_data, !zlen_app, zlen_data_end, (zlen_record_frame (RFooter _)). cbn [record_body].
  change (c_enc Footer_codec ?x) with (le_enc 8 (f_summary_start x) ++ le_enc 8 (f_summary_offset_start x) ++ le_enc 4 (f_summary_crc x)).
  rewrite !zlen_app, !zlen_le_enc. change (zlen MAGIC) with 8%Z. lia.
Qed.
Lemma amended_start_eq : amended_start f atts mds = (zlen (data_section f') + 13)%Z.
Proof. done. Qed.
Lemma amended_footer_wf : c_wf Footer_codec (file_footer f') = true.
Proof.
  change (c_wf u64 (f_summary_start (file_footer f')) && c_wf u64 (f_summary_offset_start (file_footer f')) && c_wf u32 (f_summary_crc (file_footer f')) = true).
  cbn [amended file_footer amended_footer f_summary_start f_summary_offset_start f_summary_crc]. rewrite !andb_true_iff, !u64_in.
  pose proof amended_sizes as Hl. pose proof amended_start_eq as Hst. zlen_facts.
  assert (zlen (groups_data (amended_groups f e atts mds)) ≤ zlen (records_data (amended_summary f e atts mds)))%Z.
  { unfold amended_summary, groups_records. rewrite records_data_app, zlen_app. fold (groups_data (amended_groups f e atts mds)). zlen_facts. lia. }
  pose proof (zlen_nonneg (groups_data (amended_groups f e atts mds))).
  split_and!.
  - destruct (bool_decide _); lia.
  - destruct (bool_decide _); lia.
  - destruct (_ && _); lia.
  - destruct (_ && _); lia.
  - destruct (negb (_ =? 0)%Z); [|done]. apply (uint_wf_in 4), crc32_u32.
Qed.

Definition layout_of : ExistingLayout :=
  mkExistingLayout (zlen (data_section f)) crc (has_offsets f) (negb (crc =? 0)%Z) (negb (f_summary_crc (file_footer f) =? 0)%Z).

Lemma over_start w p : file w old p → ∃ w', seek (SeekStart (zlen (data_section f))) w = (Ok (zlen (data_section f)), w') ∧ over file old w' (data_section f).
Proof.
  intros Hw. assert (old = data_section f ++ zdrop (zlen (data_section f)) old) as E.
  { rewrite Hold at 2. unfold file_bytes at 1. rewrite zdrop_app by done. by rewrite Hold. }
  assert (zlen (data_section f) ≤ zlen old)%Z as Hl by (rewrite E, zlen_app; zlen_facts; lia).
  destruct (file_seek_start (file := file) w old p (zlen (data_section f)) Hw) as (w' & E' & Hw'); [zlen_facts; lia|].
  exists w'. split; [done|]. unfold over. by rewrite <-E.
Qed.
Lemma over_done w c : over file old w c → ∃ w', in_context "failed to truncate output file" [] (set_len (zlen c)) w = (Ok (), w') ∧ file w' c (zlen c).
Proof.
  intros Hw. unfold over in Hw. destruct (work_set_len (zlen c) w _ _ _ Hw) as (w' & E & Hw'); [rewrite zlen_app; zlen_facts; lia|].
  exists w'. split; [by apply in_context_Ok|]. by rewrite ztake_app in Hw'.
Qed.

Lemma write_amendment_spec name w p : file w old p →
  ∃ w', write_amendment name layout_of e atts mds w = (Ok (), w') ∧ file w' (file_bytes f') (zlen (file_bytes f')).
Proof.
  intros Hw. unfold write_amendment. cbn [layout_of old_data_end_offset old_data_end_crc data_crc_enabled emit_summary_offsets summary_crc_enabled].
  pose proof Hadded as Hok. unfold added_records in Hok. rewrite forallb_app, andb_true_iff in Hok. destruct Hok as [Ha Hm].
  pose proof amended_bytes as Hb. set (c1 := data_section f ++ records_data (added_attachment <$> atts)) in *. set (c2 := c1 ++ records_data (RMetadata <$> mds)) in *.
  assert (data_section f' = c2) as Hc2 by (rewrite amended_data; unfold c2, c1; by rewrite <-app_assoc).
  set (d := record_frame (RDataEnd _)) in *. set (sum := records_data (amended_summary f e atts mds)) in *. set (ft := record_frame (RFooter _)) in *.
  assert (zlen (((c2 ++ d) ++ sum) ++ ft ++ MAGIC) ≤ u64_max)%Z as Hsz' by (rewrite <-!app_assoc, <-Hb; exact Hsz).
  destruct (work_open w old p bk Hw) as (w0 & E0 & Hw0).
  rewrite (bind_method_Ok _ _ _ _ _ (in_context_Ok _ _ _ _ _ _ E0)).
  destruct (over_start w0 _ Hw0) as (w1 & E1 & Hw1). rewrite (bind_method_Ok _ _ _ _ _ (in_context_Ok _ _ _ _ _ _ E1)).
  destruct (write_attachments_spec atts (if negb (crc =? 0)%Z then Some (hasher_new_with_initial crc) else None) [] w1 _ Hw1 Ha) as (w2 & E2 & Hw2).
  { fold c1. unfold c2 in Hsz'. rewrite !zlen_app in *. zlen_facts. lia. }
  rewrite (bind_method_Ok _ _ _ _ _ E2). fold c1 in Hw2. cbn beta iota. cbn [app].
  destruct (write_metadata_records_spec mds (hash_on (if negb (crc =? 0)%Z then Some (hasher_new_with_initial crc) else None) (records_data (added_attachment <$> atts))) [] w2 _ Hw2 Hm) as (w3 & E3 & Hw3).
  { fold c2. rewrite !zlen_app in *. zlen_facts. lia. }
  rewrite (bind_method_Ok _ _ _ _ _ E3). fold c2 in Hw3. cbn beta iota. cbn [app].
  rewrite hash_on_app, data_hash.
  assert ((if (crc =? 0)%Z then 0%Z else crc32 (data_section f ++ records_data (added_attachment <$> atts) ++ records_data (RMetadata <$> mds))) =
    de_data_section_crc (file_data_end f')) as ->.
  { rewrite <-amended_data. done. }
  rewrite (appends_data_end [] (de_data_section_crc (file_data_end f')) amended_data_end_wf), bind_lift. cbn [app].
  change (mkDataEnd (de_data_section_crc (file_data_end f'))) with (file_data_end f'). fold d.
  destruct (over_writes "failed to write data end record" [] d w3 c2 Hw3) as (w4 & E4 & Hw4); [rewrite !zlen_app in *; zlen_facts; lia|].
  rewrite (bind_method_Ok _ _ _ _ _ E4).
  destruct (over_tells "failed to query summary start offset" [] w4 _ Hw4) as (w5 & E5 & Hw5). rewrite (bind_method_Ok _ _ _ _ _ E5).
  assert (zlen (c2 ++ d) = amended_start f atts mds) as Hst.
  { rewrite amended_start_eq, zlen_app, Hc2. unfold d. by rewrite zlen_data_end. }
  rewrite zlen_attachments_at, zlen_metadata_at, Hst.
  assert (amended_start f atts mds + zlen sum ≤ u64_max)%Z as Hsum by (rewrite <-Hst; rewrite !zlen_app in *; zlen_facts; lia).
  pose proof (build_summary_spec (add_to_summary (zlen atts) (zlen mds) e) (new_attachments f atts) (new_metadata f atts mds) (amended_start f atts mds) (has_offsets f) Hsummary Hsum) as Eb.
  unfold new_attachments, new_metadata in Eb. fold c1 in Eb. rewrite Eb, bind_lift. clear Eb. cbn [sb_bytes sb_summary_start sb_summary_offset_start].
  fold (new_attachments f atts). change (metadata_at (zlen c1) mds) with (new_metadata f atts mds). fold (amended_groups f e atts mds).
  change (records_data (groups_records _ _ _)) with sum. rewrite footer_hash.
  destruct (over_writes "failed to write summary records" [] sum w5 _ Hw5) as (w6 & E6 & Hw6); [rewrite !zlen_app in *; zlen_facts; lia|].
  rewrite (bind_method_Ok _ _ _ _ _ E6).
  match goal with |- context [append_footer_record [] ?a ?b ?c] => assert (append_footer_record [] a b c = Ok ft) as -> end.
  { exact (append_footer_spec _ amended_footer_wf). }
  rewrite bind_lift.
  destruct (over_writes "failed to write footer" [] ft w6 _ Hw6) as (w7 & E7 & Hw7); [rewrite !zlen_app in *; zlen_facts; lia|].
  rewrite (bind_method_Ok _ _ _ _ _ E7).
  destruct (over_writes "failed to write trailing magic" [] MAGIC w7 _ Hw7) as (w8 & E8 & Hw8); [by rewrite <-!app_assoc in *|].
  rewrite (bind_method_Ok _ _ _ _ _ E8).
  assert (((((c2 ++ d) ++ sum) ++ ft) ++ MAGIC) = file_bytes f') as Hend by by rewrite Hb, <-!app_assoc.
  rewrite Hend in Hw8. destruct (over_tells "failed to query final output length" [] w8 _ Hw8) as (w9 & E9 & Hw9). rewrite (bind_method_Ok _ _ _ _ _ E9).
  destruct (over_done w9 _ Hw9) as (w10 & E10 & Hw10). rewrite (bind_method_Ok _ _ _ _ _ E10).
  destruct (file_flush (file := file) w10 _ _ Hw10) as (w11 & E11 & Hw11). rewrite (bind_method_Ok _ _ _ _ _ (in_context_Ok _ _ _ _ _ _ E11)).
  destruct (work_sync w11 _ _ _ Hw11) as (w12 & E12 & Hw12). exists w12. split; [by apply in_context_Ok|done].
Qed.
End amendment.
End work.

Section properties.
Context `{Crc, !CrcLaws, !CrcInit, !CrcInitLaws, ZstdLib, Lz4Lib, !ZstdLibOk, !Lz4LibOk, !Frames, HashOrder, Files F, !FilesWork world}.

Lemma with_context_on_Ok {A} format args (m : method F anyhow A) w a w' : m w = (Ok a, w') → with_context_on format args m w = (Ok a, w').
Proof. intros E. unfold with_context_on. by rewrite E. Qed.

Section of_file.
Context (fuel : nat) (f : mcap_file) (e : ExistingSummaryData) (atts : list AttachmentToAdd) (mds : list Metadata).
Hypothesis Hde : c_wf DataEnd_codec (file_data_end f) = true.
Hypothesis Hft : c_wf Footer_codec (file_footer f) = true.
Hypothesis Hfollows : summary_follows f.
Hypothesis Hcollect : collect_existing_summary fuel (file_bytes f) = Ok e.
Hypothesis Hsize : (zlen (file_bytes f) ≤ usize_max)%Z.

Lemma prepare_spec name w p bk : world w (file_bytes f) p bk →
  ∃ path w', prepare_amendment fuel name w = (Ok (path, layout_of f, e), w') ∧
    world w' (file_bytes f) p (Some (zdrop (zlen (data_section f)) (file_bytes f))).
Proof.
  intros Hw. unfold prepare_amendment.
  destruct (work_path name w _ _ _ Hw) as (path & w1 & E1 & Hw1). rewrite (bind_method_Ok _ _ _ _ _ E1).
  destruct (work_map w1 _ _ _ Hw1) as (w2 & E2 & Hw2). rewrite (bind_method_Ok _ _ _ _ _ (with_context_on_Ok _ _ _ _ _ _ E2)).
  rewrite (layout_spec f Hde Hft Hsize Hfollows), bind_lift. cbv zeta. fold (has_offsets f). fold (layout_of f). cbn [old_data_end_offset layout_of].
  unfold get_from. rewrite (proj2 (Z.leb_le _ _)) by (unfold file_bytes; rewrite zlen_app; zlen_facts; lia). cbn [or_context]. rewrite bind_lift.
  set (tail := zdrop (zlen (data_section f)) (file_bytes f)).
  destruct (work_backup tail w2 _ _ _ Hw2) as (w3 & E3 & Hw3). rewrite (bind_method_Ok _ _ _ _ _ (in_context_Ok _ _ _ _ _ _ E3)).
  destruct (work_reopen w3 _ _ _ Hw3) as (w4 & E4 & Hw4). rewrite (bind_method_Ok _ _ _ _ _ (in_context_Ok _ _ _ _ _ _ E4)).
  destruct (work_sync_backup w4 _ _ _ Hw4) as (w5 & E5 & Hw5). rewrite (bind_method_Ok _ _ _ _ _ (in_context_Ok _ _ _ _ _ _ E5)).
  rewrite Hcollect, bind_lift. by exists path, w5.
Qed.

(** *** What is left behind is well-formed *)

Hypothesis Hadded : forallb record_wf (added_records atts mds) = true.
Hypothesis Hsummary : forallb record_wf (amended_summary f e atts mds) = true.
Abbreviation f' := (amended f e atts mds).
Hypothesis Hsz : (zlen (file_bytes f') ≤ u64_max)%Z.

Lemma added_file_records : forallb file_record (added_records atts mds) = true.
Proof.
  pose proof Hadded as Ha. revert Ha. unfold added_records. rewrite !forallb_app, !andb_true_iff, !forallb_forall.
  intros [Hatt Hmd]. split; intros r Hr; unfold file_record.
  - rewrite Hatt by done. apply list_elem_of_In, list_elem_of_fmap in Hr as (a & -> & _). done.
  - rewrite Hmd by done. apply list_elem_of_In, list_elem_of_fmap in Hr as (a & -> & _). done.
Qed.
Lemma amended_summary_records : forallb file_record (amended_summary f e atts mds) = true.
Proof.
  apply forallb_forall. intros r Hr. unfold file_record. rewrite forallb_forall in Hsummary. rewrite Hsummary by done. cbn [andb].
  apply list_elem_of_In in Hr. unfold amended_summary, groups_records, amended_groups, existing_groups in Hr. cbn [fmap list_fmap snd concat] in Hr.
  rewrite !elem_of_app in Hr.
  destruct Hr as [[Hr|[Hr|[Hr|[Hr|[Hr|[Hr|Hr]]]]]]|Hr]; [..|by apply not_elem_of_nil in Hr|];
    [..|destruct (has_offsets f); [|by apply not_elem_of_nil in Hr]]; by apply list_elem_of_fmap in Hr as (a & -> & _).
Qed.
Lemma entries_ordinary opts n rs : (n ≤ usize_max)%Z → (∀ k, record_length_limit opts = Some k → (n ≤ k)%Z) →
  forallb file_record rs = true → (zlen (records_data rs) ≤ n)%Z → forallb (ordinary opts) (record_entry <$> rs) = true.
Proof.
  intros Hn Hk. induction rs as [|r rs IH]; [done|]. rewrite records_data_cons, zlen_app. cbn [forallb]. rewrite andb_true_iff. intros [Hr Hrs] Hl. zlen_facts.
  rewrite fmap_cons. cbn [forallb]. rewrite (record_entry_ordinary opts n), IH; done || lia.
Qed.

Lemma amended_ok opts : (∀ k, record_length_limit opts = Some k → (zlen (file_bytes f') ≤ k)%Z) →
  forallb (ordinary opts) (file_records f) = true → file_ok opts f' = true.
Proof.
  intros Hk Hold. pose proof (amended_sizes f e atts mds) as Hl. set (n := zlen (file_bytes f')) in *.
  assert (n ≤ usize_max)%Z as Hn by (unfold usize_max; lia).
  assert (zlen (records_data (added_records atts mds)) ≤ zlen (data_section f'))%Z as Hla.
  { rewrite amended_data. unfold added_records. rewrite records_data_app, !zlen_app. zlen_facts. lia. }
  zlen_facts. unfold file_ok. rewrite !andb_true_iff. split_and!.
  - cbn [file_records amended]. unfold amended_records. rewrite forallb_app, Hold. apply (entries_ordinary opts n); try done; [by apply added_file_records|lia].
  - cbn [file_summary amended]. apply (entries_ordinary opts n); try done; [by apply amended_summary_records|lia].
  - pose proof (amended_data_end_wf f e atts mds) as Hw. unfold record_wf in Hw. by apply andb_true_iff in Hw as [Hw _].
  - by apply amended_footer_wf.
  - apply (body_fits_within opts n); [|done..]. change (zlen (data_end_rec f').2) with (zlen (le_enc 4 (de_data_section_crc (file_data_end f')))). zlia.
  - apply (body_fits_within opts n); [|done..].
    change (zlen (footer_rec f').2) with (zlen (le_enc 8 (f_summary_start (file_footer f')) ++ le_enc 8 (f_summary_offset_start (file_footer f')) ++ le_enc 4 (f_summary_crc (file_footer f')))). zlia.
Qed.
Lemma amended_expected opts : expected opts f' = (file_records f' ++ data_end_rec f' :: file_summary f' ++ [footer_rec f'], Ok ()).
Proof.
  unfold expected.
  assert (∀ v (b : bool) x, bad_crc v (if b then 0%Z else x) x = false) as Hbad.
  { intros [] [] x; unfold bad_crc; try done. rewrite Z.eqb_refl. cbn. by rewrite andb_false_r. }
  assert (∀ v (b : bool) x, bad_crc v (if b then x else 0%Z) x = false) as Hbad'.
  { intros [] [] x; unfold bad_crc; try done. rewrite Z.eqb_refl. cbn. by rewrite andb_false_r. }
  assert (de_data_section_crc (file_data_end f') = if (de_data_section_crc (file_data_end f) =? 0)%Z then 0%Z else crc32 (data_section f')) as -> by done.
  rewrite Hbad.
  assert (f_summary_crc (file_footer f') = if negb (f_summary_crc (file_footer f) =? 0)%Z then crc32 (summary_section f') else 0%Z) as ->; [|by rewrite Hbad'].
  unfold summary_section. assert (frames (file_summary f') = records_data (amended_summary f e atts mds)) as -> by (cbn [file_summary amended]; by rewrite <-records_data_frames).
  done.
Qed.
End of_file.

(** The whole of it, when no operation fails. *)
Lemma amend_done fuel f e atts mds name w p bk : let f' := amended f e atts mds in
  c_wf DataEnd_codec (file_data_end f) = true → c_wf Footer_codec (file_footer f) = true → summary_follows f →
  (zlen (file_bytes f) ≤ usize_max)%Z → de_data_section_crc (file_data_end f) = 0%Z ∨ de_data_section_crc (file_data_end f) = crc32 (data_section f) →
  collect_existing_summary fuel (file_bytes f) = Ok e →
  forallb record_wf (added_records atts mds) = true → forallb record_wf (amended_summary f e atts mds) = true → (zlen (file_bytes f') ≤ u64_max)%Z →
  world w (file_bytes f) p bk →
  ∃ w', amend_mcap_file fuel name atts mds w = (Ok (), w') ∧ world w' (file_bytes f') (zlen (file_bytes f')) None.
Proof.
  intros f' Hde Hft Hfo Hsize Hcrc Hc Ha Hs Hsz Hw.
  destruct (prepare_spec fuel f e Hde Hft Hfo Hc Hsize name w p bk Hw) as (path & w1 & E1 & Hw1).
  destruct (write_amendment_spec (file_bytes f) _ f e atts mds eq_refl Ha Hs Hsz Hcrc name w1 p Hw1) as (w2 & E2 & Hw2).
  destruct (work_remove w2 _ _ _ Hw2) as (w3 & E3 & Hw3). exists w3. split; [|done].
  unfold amend_mcap_file. rewrite (bind_method_Ok _ _ _ _ _ E1). unfold finish_amendment. by rewrite E2, E3.
Qed.

(** C1: adding to a file that is in order succeeds, if no operation fails, and then the file is
    the one it was up to the end of its data; the new records follow, as they were given,
    then a summary of what the old one was made of and an index for each new record, with
    the counts raised, the footer and the end.  It is no longer than that, the backup is
    gone, and any client of the reader reads it to its end, checksums and all. *)
Theorem amend_adds fuel f e atts mds name w p bk : let f' := amended f e atts mds in
  c_wf DataEnd_codec (file_data_end f) = true → c_wf Footer_codec (file_footer f) = true → summary_follows f →
  (zlen (file_bytes f) ≤ usize_max)%Z → de_data_section_crc (file_data_end f) = 0%Z ∨ de_data_section_crc (file_data_end f) = crc32 (data_section f) →
  collect_existing_summary fuel (file_bytes f) = Ok e →
  forallb record_wf (added_records atts mds) = true → forallb record_wf (amended_summary f e atts mds) = true → (zlen (file_bytes f') ≤ u64_max)%Z →
  world w (file_bytes f) p bk →
  (∃ w', amend_mcap_file fuel name atts mds w = (Ok (), w') ∧ world w' (file_bytes f') (zlen (file_bytes f')) None) ∧
  file_records f' = file_records f ++ (record_entry <$> added_records atts mds) ∧
  ∀ opts, emit_chunks opts = true → skip_start_magic opts = false → skip_end_magic opts = false →
    (∀ k, record_length_limit opts = Some k → (zlen (file_bytes f') ≤ k)%Z) → forallb (ordinary opts) (file_records f) = true →
    ∀ recs out, client_run (LinearReader_new opts) (file_bytes f') recs out →
      recs = file_records f' ++ data_end_rec f' :: file_summary f' ++ [footer_rec f'] ∧ out = Ok ().
Proof.
  intros f' Hde Hft Hfo Hsize Hcrc Hc Ha Hs Hsz Hw. split_and!; [|done|].
  - by eapply amend_done.
  - intros opts Hem Hss Hse Hk Hold recs out R. apply client_run_all_input in R; [|done].
    assert (file_ok opts f' = true) as Hok by by eapply amended_ok.
    destruct (reads_all_det _ _ _ _ _ R (file_reads opts _ Hem Hss Hse Hok)) as [-> ->]. unfold f'. by rewrite amended_expected.
Qed.
End properties.

(** ** Examples *)

Module AddWorkExamples.
Import InitCrc MarkLib Instances Disk.

(** A disk without an end. *)
Definition roomy (w : Disk) (c : bytes) (p : Z) (bk : option bytes) : Prop := w = mkDisk (mkVecCursor c p) bk None.

#[export] Instance disk_work : FilesWork roomy.
Proof.
  split; unfold roomy.
  - intros bk. split.
    + intros w c p b -> Hp Hb Hl.
      destruct (file_write (file := cursor_file) (mkVecCursor c p) c p b eq_refl Hp Hb Hl) as (n & c' & E & Hn & Hc').
      exists n, (mkDisk c' bk None). split_and!; [|lia..|by rewrite Hc'].
      change (write b (mkDisk (mkVecCursor c p) bk None)) with (disk_write b (mkDisk (mkVecCursor c p) bk None)). unfold disk_write. cbn [dk_room dk_file]. by rewrite E.
    + intros w c p ->. by eexists.
    + intros w c p ->. by eexists.
    + intros w c p q -> Hq. cbn. unfold zoom. cbn. rewrite (proj2 (Z.leb_le _ _)) by lia. by eexists.
    + intros w c p ->. cbn. unfold zoom. cbn. rewrite Z.add_0_r. rewrite (proj2 (Z.leb_le _ _)) by (pose proof (zlen_nonneg c); unfold zlen in *; lia). by eexists.
  - intros w c p bk ->. by eexists.
  - intros file w c p bk ->. by do 2 eexists.
  - intros b w c p bk ->. by eexists.
  - intros w c p bk ->. by eexists.
  - intros w c p bk ->. by eexists.
  - intros w c p b ->. by eexists.
  - intros w c p bk ->. by eexists.
  - intros n w c p bk -> Hn. eexists. split; [done|]. cbn. unfold set_file. cbn. replace (Z.to_nat _) with 0 by (unfold zlen in *; lia). cbn. by rewrite app_nil_r.
  - intros w c p bk ->. by eexists.
Qed.

(** A file that has an attachment already, statistics, an index, summary offsets, and
    both checksums. *)
Definition first : AttachmentToAdd := mkAttachmentToAdd 1 2 (lit "a") (lit "t") (lit "xyz").
Definition data_entries : list (Z * bytes) := record_entry <$> [RHeader (mkHeader (lit "p") (lit "l")); added_attachment first].
Definition start : Z := zlen (MAGIC ++ frames data_entries) + 13.
Definition stats : Statistics := mkStatistics 0 0 0 1 0 0 0 0 [].
Definition groups : list (Z * list record) :=
  [(op.STATISTICS, [RStatistics stats]);
   (op.ATTACHMENT_INDEX, [RAttachmentIndex (mkAttachmentIndex (zlen MAGIC + 19) (zlen (record_frame (added_attachment first))) 1 2 3 (lit "a") (lit "t"))])].
Definition summary : list record := groups_records true start groups.
Definition with_footer_crc (crc : Z) : mcap_file :=
  mkFile data_entries (mkDataEnd (crc32 (MAGIC ++ frames data_entries))) (record_entry <$> summary)
    (mkFooter start (start + zlen (groups_data groups))%Z crc).
Definition before : mcap_file := with_footer_crc (crc32 (summary_section (with_footer_crc 0))).

Definition more : list AttachmentToAdd := [mkAttachmentToAdd 5 6 (lit "b") (lit "t") (lit "hello"); mkAttachmentToAdd 7 8 (lit "c") (lit "t") []].
Definition notes : list Metadata := [mkMetadata (lit "m") [(lit "k", lit "v")]].
Definition known : ExistingSummaryData :=
  match collect_existing_summary 1000 (file_bytes before) with Ok e => e | _ => ExistingSummaryData_default end.

Example known_statistics : es_statistics known = Some stats ∧ zlen (es_attachment_indexes known) = 1%Z.
Proof. vm_compute. split; reflexivity. Qed.

Definition reader : LinearReaderOptions :=
  with_validate_summary_section_crc true (with_validate_data_section_crc true (with_emit_chunks true LinearReaderOptions_default)).
Definition disk : Disk := mkDisk (VecCursor_new (file_bytes before)) None None.

Lemma amend_adds_witness : let after := amended before known more notes in
  (∃ w', amend_mcap_file 1000 (lit "a.mcap") more notes disk = (Ok (), w') ∧
     w' = mkDisk (mkVecCursor (file_bytes after) (zlen (file_bytes after))) None None) ∧
  file_records after = file_records before ++ (record_entry <$> added_records more notes) ∧
  ∀ recs out, client_run (LinearReader_new reader) (file_bytes after) recs out →
    recs = file_records after ++ data_end_rec after :: file_summary after ++ [footer_rec after] ∧ out = Ok ().
Proof.
  intros after.
  destruct (amend_adds (world := roomy) 1000 before known more notes (lit "a.mcap") disk 0 None) as (Hrun & Hrec & Hread).
  - vm_compute. reflexivity.
  - vm_compute. reflexivity.
  - right. vm_compute. reflexivity.
  - apply Z.leb_le. vm_compute. reflexivity.
  - right. reflexivity.
  - vm_compute. reflexivity.
  - vm_compute. reflexivity.
  - vm_compute. reflexivity.
  - apply Z.leb_le. vm_compute. reflexivity.
  - reflexivity.
  - split; [exact Hrun|]. split; [exact Hrec|]. apply (Hread reader); [reflexivity..| |vm_compute; reflexivity]. intros k Hk. discriminate Hk.
Defined.

(** The counts and the indexes of the new summary. *)
Example after_summary : (λ r, match r with
    | RStatistics s => [st_attachment_count s; st_metadata_count s]
    | RAttachmentIndex i => [ai_offset i; ai_length i]
    | RMetadataIndex i => [mx_offset i; mx_length i]
    | _ => []
    end) <$> amended_summary before known more notes = [[3; 1]; [27; 50]; [77; 52]; [129; 47]; [176; 28]; []; []; []]%Z.
Proof. vm_compute. reflexivity. Qed.
End AddWorkExamples.
