(* ===== verification/Info.v ===== *)
(** The info command (info.rs): what it works out of the chunk indexes and the times of a
    file.

    How many chunks overlap is found by a sweep over the starts and the ends of the chunks
    in the order of their times; that it is the largest number of chunks that are active at
    one time is the theorem of this file.  What is printed with floating point numbers is
    not modelled. *)

From S2P Require Import Prelude Utf8 BTree Errors Records Sorting Cli Common.

(** ** Durations *)

(** [while s.ends_with('0') { s.pop(); }] *)
Fixpoint trim_zeros (s : rstring) : rstring :=
  match s with
  | [] => []
  | b :: s => let s := trim_zeros s in if bool_decide (s = []) && bool_decide (b = byte_of_Z 48) then [] else b :: s
  end.

(** [n.ilog10()]; a [u64] has at most 20 digits. *)
Fixpoint ilog10_loop (fuel : nat) (n : Z) : Z :=
  match fuel with
  | 0 => 0
  | S fuel => if (n <? 10)%Z then 0 else 1 + ilog10_loop fuel (n / 10)
  end.
Definition ilog10 (n : Z) : Z := ilog10_loop 20 n.

Definition format_fractional_subsecond (nanos unit_nanos : Z) (unit : rstring) : rstring :=
  let whole := (nanos / unit_nanos)%Z in
  let remainder := (nanos mod unit_nanos)%Z in
  if (remainder =? 0)%Z then show_u64 whole ++ unit
  else
    let width := Z.to_nat (ilog10 unit_nanos) in
    show_u64 whole ++ lit "." ++ trim_zeros (padded width remainder) ++ unit.

(** "µs" *)
Definition micros : rstring := raw [194; 181]%Z ++ lit "s".

Definition format_duration_human (nanos : Z) : rstring :=
  if (nanos <? 1000)%Z then show_u64 nanos ++ lit "ns" else
  if (nanos <? 1000000)%Z then format_fractional_subsecond nanos 1000 micros else
  if (nanos <? 1000000000)%Z then format_fractional_subsecond nanos 1000000 (lit "ms") else
  let total_seconds := (nanos / 1000000000)%Z in
  let fractional_nanos := (nanos mod 1000000000)%Z in
  let hours := (total_seconds / 3600)%Z in
  let minutes := (total_seconds mod 3600 / 60)%Z in
  let seconds := (total_seconds mod 60)%Z in
  let seconds_with_fraction :=
    if (fractional_nanos =? 0)%Z then show_u64 seconds
    else show_u64 seconds ++ lit "." ++ trim_zeros (padded 9 fractional_nanos) in
  if (0 <? hours)%Z then show_u64 hours ++ lit "h" ++ show_u64 minutes ++ lit "m" ++ seconds_with_fraction ++ lit "s"
  else if (0 <? minutes)%Z then show_u64 minutes ++ lit "m" ++ seconds_with_fraction ++ lit "s"
  else seconds_with_fraction ++ lit "s".

(** The first component becomes a floating point number. *)
Definition format_duration (start end_ : Z) : Z * rstring :=
  let '(diff, sign) := if (start <=? end_)%Z then (end_ - start, [])%Z else (start - end_, lit "-")%Z in
  (diff, sign ++ format_duration_human diff).

(** ** The sizes of the chunks *)

Record CompressionStats := mkCompressionStats {
  cs_count : Z;
  cs_compressed_size : Z;
  cs_uncompressed_size : Z;
}.
Definition CompressionStats_default : CompressionStats := mkCompressionStats 0 0 0.

Record ChunkSizes := mkChunkSizes {
  by_compression : list (rstring * CompressionStats);
  largest_compressed : Z;
  largest_uncompressed : Z;
}.

(** The body of the loop over the chunk indexes, and the loop. *)
Definition count_chunk (chunk : ChunkIndex) (s : ChunkSizes) : Result ChunkSizes :=
  let stats := default CompressionStats_default (bt_get (ci_compression chunk) (by_compression s)) in
  count ← add_ usize_max (cs_count stats) 1;
  compressed ← add_ u64_max (cs_compressed_size stats) (ci_compressed_size chunk);
  uncompressed ← add_ u64_max (cs_uncompressed_size stats) (ci_uncompressed_size chunk);
  mret (mkChunkSizes (bt_insert (ci_compression chunk) (mkCompressionStats count compressed uncompressed) (by_compression s))
    (Z.max (largest_compressed s) (ci_compressed_size chunk)) (Z.max (largest_uncompressed s) (ci_uncompressed_size chunk))).
Fixpoint count_chunks (chunks : list ChunkIndex) (s : ChunkSizes) : Result ChunkSizes :=
  match chunks with
  | [] => mret s
  | chunk :: chunks => s ← count_chunk chunk s; count_chunks chunks s
  end.

(** ** Overlaps *)

Record ChunkEvent := mkChunkEvent {
  ev_time : Z;
  ev_is_start : bool;
  ev_uncompressed_size : Z;
}.
Definition chunk_events (chunk : ChunkIndex) : list ChunkEvent :=
  [mkChunkEvent (ci_message_start_time chunk) true (ci_uncompressed_size chunk);
   mkChunkEvent (ci_message_end_time chunk) false (ci_uncompressed_size chunk)].

(** [a.time.cmp(&b.time).then_with(|| b.is_start.cmp(&a.is_start))] *)
Definition event_key (e : ChunkEvent) : list Z := [ev_time e; if ev_is_start e then 0%Z else 1%Z].

Record sweep := mkSweep {
  active : Z;
  max_active : Z;
  current_size : Z;
  max_size : Z;
}.
Definition sweep_event (event : ChunkEvent) (s : sweep) : Result sweep :=
  if ev_is_start event then
    active ← add_ usize_max (active s) 1;
    current_size ← add_ u64_max (current_size s) (ev_uncompressed_size event);
    if (max_active s <? active)%Z || ((active =? max_active s)%Z && (max_size s <? current_size)%Z)
    then mret (mkSweep active active current_size current_size)
    else mret (mkSweep active (max_active s) current_size (max_size s))
  else mret (mkSweep (saturating_sub (active s) 1) (max_active s)
    (saturating_sub (current_size s) (ev_uncompressed_size event)) (max_size s)).
Fixpoint sweep_events (events : list ChunkEvent) (s : sweep) : Result sweep :=
  match events with
  | [] => mret s
  | event :: events => s ← sweep_event event s; sweep_events events s
  end.

Definition count_chunk_overlaps (chunks : list ChunkIndex) : Result (bool * Z * Z) :=
  match chunks with
  | [] => mret (false, 0%Z, 0%Z)
  | [chunk] => mret (false, 1%Z, ci_uncompressed_size chunk)
  | _ =>
      s ← sweep_events (sort_by (by_key event_key) (concat (chunk_events <$> chunks))) (mkSweep 0 0 0 0);
      mret (1 <? max_active s, max_active s, max_size s)%Z
  end.

(** [digits_u16] *)
Definition digits_u16 (value : Z) : Z := if (value =? 0)%Z then 1 else (ilog10 value + 1)%Z.

Example durations : format_duration_human <$> [7; 1500; 12034000; 61000000000; 3723500000000]%Z =
  [lit "7ns"; lit "1.5" ++ micros; lit "12.034ms"; lit "1m1s"; lit "1h2m3.5s"].
Proof. reflexivity. Qed.
Example backwards : format_duration 5000 2000 = (3000%Z, lit "-3" ++ micros).
Proof. reflexivity. Qed.

(** ** What the sweep finds *)

Section total.
Context {A : Type}.
Implicit Types (f g : A → Z) (l k : list A).

Fixpoint total f l : Z := match l with [] => 0 | a :: l => f a + total f l end%Z.
Lemma total_app f l k : total f (l ++ k) = (total f l + total f k)%Z.
Proof. induction l as [|a l IH]; cbn; lia. Qed.
Lemma total_perm f l k : l ≡ₚ k → total f l = total f k.
Proof. induction 1; cbn; lia. Qed.
Lemma total_le f g l : (∀ a, a ∈ l → f a ≤ g a)%Z → (total f l ≤ total g l)%Z.
Proof.
  intros Hfg. induction l as [|a l IH]; [done|]. cbn. pose proof (Hfg a ltac:(left)).
  assert (total f l ≤ total g l)%Z by (apply IH; intros b Hb; apply Hfg; by right). lia.
Qed.
Lemma total_ext f g l : (∀ a, a ∈ l → f a = g a)%Z → total f l = total g l.
Proof. intros Hfg. apply Z.le_antisymm; apply total_le; intros a Ha; by rewrite Hfg. Qed.
Lemma total_zero l : total (λ _, 0%Z) l = 0%Z.
Proof. by induction l. Qed.
Lemma total_minus f g l : total (λ a, f a - g a)%Z l = (total f l - total g l)%Z.
Proof. induction l as [|a l IH]; [done|]. cbn in *. lia. Qed.
End total.

Section overlaps.

(** A chunk is active from its first message to its last. *)
Definition active_at (t : Z) (c : ChunkIndex) : bool := ((ci_message_start_time c <=? t) && (t <=? ci_message_end_time c))%Z.
Definition chunks_at (t : Z) (chunks : list ChunkIndex) : Z := total (λ c, if active_at t c then 1 else 0)%Z chunks.
Definition size_at (t : Z) (chunks : list ChunkIndex) : Z := total (λ c, if active_at t c then ci_uncompressed_size c else 0)%Z chunks.

(** What an event is worth, when a chunk of the size [n] is worth [w n]. *)
Context (w : Z → Z).
Definition gain (e : ChunkEvent) : Z := if ev_is_start e then w (ev_uncompressed_size e) else (- w (ev_uncompressed_size e))%Z.
Definition worth_at (t : Z) (chunks : list ChunkIndex) : Z := total (λ c, if active_at t c then w (ci_uncompressed_size c) else 0)%Z chunks.

Context (chunks : list ChunkIndex) (Hchunks : Forall (λ c, ci_message_start_time c ≤ ci_message_end_time c ∧ 0 ≤ w (ci_uncompressed_size c))%Z chunks).
Abbreviation events := (sort_by (by_key event_key) (concat (chunk_events <$> chunks))).

Lemma total_events f : total f events = total (λ c, total f (chunk_events c)) chunks.
Proof.
  rewrite (total_perm f _ _ (sort_by_perm _ _)). clear Hchunks. induction chunks as [|c l IH]; [done|]. rewrite fmap_cons. cbn [concat]. by rewrite total_app, IH.
Qed.
Lemma events_sorted : StronglySorted (λ x y, by_key event_key x y = true) events.
Proof. apply sort_by_sorted, _. Qed.
Lemma event_of_chunk e : e ∈ events → ∃ c, c ∈ chunks ∧ e ∈ chunk_events c.
Proof.
  rewrite sort_by_perm. clear Hchunks. induction chunks as [|c l IH]; [by intros ?%not_elem_of_nil|]. rewrite fmap_cons. cbn [concat].
  intros [He|(c' & Hc & He)%IH]%elem_of_app; [exists c; split; [left|done]|exists c'; split; [by right|done]].
Qed.
Lemma event_worth e : e ∈ events → (0 ≤ w (ev_uncompressed_size e))%Z.
Proof.
  intros (c & Hc & He)%event_of_chunk. rewrite Forall_forall in Hchunks. destruct (Hchunks c Hc) as [_ Hw].
  unfold chunk_events in He. rewrite !elem_of_cons in He. destruct He as [->|[->|?%not_elem_of_nil]]; done.
Qed.

(** The parts of what is gained up to a time: chunks started, and chunks ended. *)
Definition started (t : Z) (e : ChunkEvent) : Z := if ev_is_start e && (ev_time e <=? t)%Z then w (ev_uncompressed_size e) else 0%Z.
Definition ended (t : Z) (e : ChunkEvent) : Z := if negb (ev_is_start e) && (ev_time e <? t)%Z then w (ev_uncompressed_size e) else 0%Z.

Lemma worth_of_events t : (total (started t) events - total (ended t) events = worth_at t chunks)%Z.
Proof.
  rewrite <-total_minus, total_events. apply total_ext. intros c Hc. rewrite Forall_forall in Hchunks. specialize (Hchunks c Hc).
  cbn. unfold started, ended, active_at. cbn. destruct (Z.leb_spec (ci_message_start_time c) t), (Z.ltb_spec (ci_message_end_time c) t), (Z.leb_spec t (ci_message_end_time c)); cbn; lia.
Qed.

(** An event splits the others into those before it and those after it. *)
Section split.
Context (p q : list ChunkEvent) (e : ChunkEvent) (Hsplit : events = p ++ e :: q).

Lemma key_leb x y : by_key event_key x y = true → (ev_time x ≤ ev_time y)%Z ∧ (ev_time x = ev_time y → ev_is_start y = true → ev_is_start x = true).
Proof.
  unfold by_key, event_key. cbn [lex_leb]. rewrite andb_true_r, orb_true_iff, andb_true_iff, orb_true_iff, !Z.ltb_lt, !Z.eqb_eq.
  intros Hk. split; [lia|]. intros Ht Hy. rewrite Hy in Hk. destruct (ev_is_start x); [done|lia].
Qed.
Lemma before x : x ∈ p ++ [e] → by_key event_key x e = true.
Proof.
  pose proof events_sorted as Hs. rewrite Hsplit in Hs. clear Hsplit. intros [Hx| ->%list_elem_of_singleton]%elem_of_app.
  - induction p as [|y l IH]; [by apply not_elem_of_nil in Hx|]. apply StronglySorted_inv in Hs as [Hs Hy].
    apply elem_of_cons in Hx as [->|Hx]; [|by apply IH]. rewrite Forall_forall in Hy. apply Hy, elem_of_app. right. left.
  - unfold by_key. destruct (leb_total (leb := lex_leb) (event_key e) (event_key e)); done.
Qed.
Lemma after x : x ∈ q → by_key event_key e x = true.
Proof.
  pose proof events_sorted as Hs. rewrite Hsplit in Hs. clear Hsplit. intros Hx. induction p as [|y l IH].
  - apply StronglySorted_inv in Hs as [_ Hy]. rewrite Forall_forall in Hy. by apply Hy.
  - apply StronglySorted_inv in Hs as [Hs _]. by apply IH.
Qed.
Lemma worth_split x : x ∈ p ++ [e] ∨ x ∈ q → (0 ≤ w (ev_uncompressed_size x))%Z.
Proof. intros Hx. apply event_worth. rewrite Hsplit. rewrite elem_of_app, list_elem_of_singleton in Hx. rewrite elem_of_app, elem_of_cons. tauto. Qed.
Lemma total_split f : total f events = (total f (p ++ [e]) + total f q)%Z.
Proof. by rewrite <-total_app, <-app_assoc, Hsplit. Qed.

(** What is gained up to an event is not negative. *)
Lemma gained_from f : (∀ x, x ∈ p ++ [e] → f x ≤ gain x)%Z → (∀ x, x ∈ q → f x ≤ 0)%Z → (0 ≤ total f events)%Z →
  (0 ≤ total gain (p ++ [e]))%Z.
Proof.
  intros Hp Hq Ht. pose proof (total_le _ _ _ Hp). pose proof (total_le f (λ _, 0%Z) q Hq) as H1. rewrite total_zero in H1.
  rewrite total_split in Ht. lia.
Qed.
Lemma gained_nonneg : (0 ≤ total gain (p ++ [e]))%Z.
Proof.
  destruct (ev_is_start e) eqn:He; set (t := ev_time e).
  - apply (gained_from (λ x, (if ev_is_start x && (ev_time x <? t)%Z then w (ev_uncompressed_size x) else 0) - ended t x)%Z).
    + intros x Hx. pose proof (worth_split x (or_introl Hx)). apply before, key_leb in Hx as [Hx Hxe]. unfold gain, ended.
      destruct (ev_is_start x), (Z.ltb_spec (ev_time x) t); cbn; try lia. assert (ev_time x = t) as E by lia. by specialize (Hxe E He).
    + intros x Hx. apply after, key_leb in Hx as [Hx _]. unfold ended. rewrite (proj2 (Z.ltb_ge _ _)), !andb_false_r by done. done.
    + rewrite total_events. etrans; [|apply (total_le (λ _, 0%Z))]; [by rewrite total_zero|]. intros c Hc. rewrite Forall_forall in Hchunks. specialize (Hchunks c Hc).
      cbn. unfold ended. cbn. destruct (Z.ltb_spec (ci_message_start_time c) t), (Z.ltb_spec (ci_message_end_time c) t); cbn; lia.
  - apply (gained_from (λ x, started t x - if negb (ev_is_start x) && (ev_time x <=? t)%Z then w (ev_uncompressed_size x) else 0)%Z).
    + intros x Hx. pose proof (worth_split x (or_introl Hx)). apply before, key_leb in Hx as [Hx _]. unfold gain, started.
      rewrite (proj2 (Z.leb_le _ _)) by done. destruct (ev_is_start x); cbn; lia.
    + intros x Hx. pose proof (worth_split x (or_intror Hx)). apply after, key_leb in Hx as [Hx Hxe]. unfold started.
      destruct (ev_is_start x), (Z.leb_spec (ev_time x) t); cbn; try lia. assert (ev_time e = ev_time x) as E by (unfold t in *; lia). specialize (Hxe E eq_refl). congruence.
    + rewrite total_events. etrans; [|apply (total_le (λ _, 0%Z))]; [by rewrite total_zero|]. intros c Hc. rewrite Forall_forall in Hchunks. specialize (Hchunks c Hc).
      cbn. unfold started. cbn. destruct (Z.leb_spec (ci_message_start_time c) t), (Z.leb_spec (ci_message_end_time c) t); cbn; lia.
Qed.

(** Up to the start of a chunk it is at most what is active then, and all of that when no
    other chunk starts at that time. *)
Lemma gained_at : ev_is_start e = true → let t := ev_time e in
  total gain (p ++ [e]) = (worth_at t chunks - total (started t) q)%Z ∧ (0 ≤ total (started t) q)%Z.
Proof.
  intros He t. split.
  - rewrite <-worth_of_events, !total_split.
    assert (total (ended t) q = 0%Z) as ->.
    { rewrite <-(total_zero q). apply total_ext. intros x Hx. apply after, key_leb in Hx as [Hx _]. unfold ended. by rewrite (proj2 (Z.ltb_ge _ _)), andb_false_r by done. }
    assert (total gain (p ++ [e]) = total (started t) (p ++ [e]) - total (ended t) (p ++ [e]))%Z as ->; [|lia].
    rewrite <-total_minus. apply total_ext. intros x Hx. apply before, key_leb in Hx as [Hx Hxe]. unfold gain, started, ended.
    rewrite (proj2 (Z.leb_le _ _)) by done. destruct (ev_is_start x), (Z.ltb_spec (ev_time x) t); cbn; try lia.
    assert (ev_time x = t) as E by lia. by specialize (Hxe E He).
  - rewrite <-(total_zero q). apply total_le. intros x Hx. pose proof (worth_split x (or_intror Hx)). unfold started. by destruct (_ && _).
Qed.
End split.

Lemma worth_at_mono t t' : (∀ c, c ∈ chunks → active_at t c = true → active_at t' c = true) → (worth_at t chunks ≤ worth_at t' chunks)%Z.
Proof.
  intros Ht. apply total_le. intros c Hc. rewrite Forall_forall in Hchunks. specialize (Hchunks c Hc). specialize (Ht c Hc).
  destruct (active_at t c); [by rewrite Ht|]. destruct (active_at t' c); lia.
Qed.
Lemma worth_at_nonneg t : (0 ≤ worth_at t chunks)%Z.
Proof.
  rewrite <-(total_zero chunks). apply total_le. intros c Hc. rewrite Forall_forall in Hchunks. specialize (Hchunks c Hc). destruct (active_at t c); lia.
Qed.
End overlaps.

(** The sweep keeps the best of what was active so far. *)
Section sweep.
Abbreviation one := (λ _ : Z, 1%Z).
Abbreviation its_size := (λ n : Z, n).
Context (chunks : list ChunkIndex) (Hchunks : Forall (λ c, ci_message_start_time c ≤ ci_message_end_time c ∧ 0 ≤ ci_uncompressed_size c)%Z chunks).
Context (Hcount : (zlen chunks ≤ usize_max)%Z) (Hsize : ∀ t, (size_at t chunks ≤ u64_max)%Z).
Abbreviation events := (sort_by (by_key event_key) (concat (chunk_events <$> chunks))).

(** More chunks, or as many and no smaller. *)
Definition no_better (n b : Z) (n' b' : Z) : Prop := (n < n' ∨ n = n' ∧ b ≤ b')%Z.

Lemma count_ok : Forall (λ c, ci_message_start_time c ≤ ci_message_end_time c ∧ 0 ≤ one (ci_uncompressed_size c))%Z chunks.
Proof. eapply Forall_impl; [exact Hchunks|]. intros c [Hc _]. done. Qed.
Lemma chunks_at_short t : (chunks_at t chunks ≤ usize_max)%Z.
Proof.
  etrans; [|exact Hcount]. unfold chunks_at. clear. induction chunks as [|c l IH]; [done|]. rewrite zlen_cons. cbn [total]. destruct (active_at t c); lia.
Qed.

Record swept (p : list ChunkEvent) (s : sweep) : Prop := {
  sw_active : active s = total (gain one) p;
  sw_current : current_size s = total (gain its_size) p;
  sw_nonneg : (0 ≤ active s ∧ 0 ≤ current_size s ∧ 0 ≤ max_active s ∧ 0 ≤ max_size s)%Z;
  sw_best p' e q' : p = p' ++ e :: q' → ev_is_start e = true →
    no_better (total (gain one) (p' ++ [e])) (total (gain its_size) (p' ++ [e])) (max_active s) (max_size s);
  sw_attained : max_active s = 0%Z ∧ max_size s = 0%Z ∨
    ∃ p' e q', p = p' ++ e :: q' ∧ ev_is_start e = true ∧
      max_active s = total (gain one) (p' ++ [e]) ∧ max_size s = total (gain its_size) (p' ++ [e]);
}.

(** The best is still the best when an event comes after it. *)
Lemma best_snoc p e s m : swept p s → ev_is_start e = true →
  (no_better (max_active s) (max_size s) (max_active m) (max_size m)) →
  no_better (total (gain one) (p ++ [e])) (total (gain its_size) (p ++ [e])) (max_active m) (max_size m) →
  ∀ p' e' q', p ++ [e] = p' ++ e' :: q' → ev_is_start e' = true →
  no_better (total (gain one) (p' ++ [e'])) (total (gain its_size) (p' ++ [e'])) (max_active m) (max_size m).
Proof.
  intros Hs He Hm Hn p' e' q' Hp He'. destruct q' as [|x q' _] using rev_ind.
  - by apply app_inj_tail in Hp as [-> ->].
  - rewrite app_comm_cons, app_assoc in Hp. apply app_inj_tail in Hp as [-> ->]. pose proof (sw_best _ _ Hs p' e' q' eq_refl He') as Hb.
    unfold no_better in *. lia.
Qed.
Lemma attained_snoc p e s : (∃ p' e' q', p = p' ++ e' :: q' ∧ ev_is_start e' = true ∧
    max_active s = total (gain one) (p' ++ [e']) ∧ max_size s = total (gain its_size) (p' ++ [e'])) →
  ∃ p' e' q', p ++ [e] = p' ++ e' :: q' ∧ ev_is_start e' = true ∧
    max_active s = total (gain one) (p' ++ [e']) ∧ max_size s = total (gain its_size) (p' ++ [e']).
Proof. intros (p' & e' & q' & -> & ?). exists p', e', (q' ++ [e]). by rewrite <-app_assoc. Qed.

Lemma sweep_event_spec p e q s : events = p ++ e :: q → swept p s → ∃ s', sweep_event e s = Ok s' ∧ swept (p ++ [e]) s'.
Proof.
  intros Hsp Hs. pose proof (gained_nonneg one chunks count_ok p q e Hsp) as H1. pose proof (gained_nonneg its_size chunks Hchunks p q e Hsp) as H2.
  pose proof (event_worth its_size chunks Hchunks e) as Hw. rewrite Hsp in Hw. specialize (Hw ltac:(apply elem_of_app; right; left)). cbn beta in Hw.
  pose proof (sw_active _ _ Hs) as Ea. pose proof (sw_current _ _ Hs) as Ec. destruct (sw_nonneg _ _ Hs) as (N1 & N2 & N3 & N4).
  assert (total (gain one) (p ++ [e]) = active s + gain one e)%Z as G1 by (rewrite total_app; cbn [total]; lia).
  assert (total (gain its_size) (p ++ [e]) = current_size s + gain its_size e)%Z as G2 by (rewrite total_app; cbn [total]; lia).
  assert (gain one e = if ev_is_start e then 1 else -1)%Z as W1 by (unfold gain; by destruct (ev_is_start e)).
  assert (gain its_size e = if ev_is_start e then ev_uncompressed_size e else - ev_uncompressed_size e)%Z as W2 by (unfold gain; by destruct (ev_is_start e)).
  unfold sweep_event. destruct (ev_is_start e) eqn:He.
  - destruct (gained_at one chunks count_ok p q e Hsp He) as [A1 A2]. destruct (gained_at its_size chunks Hchunks p q e Hsp He) as [B1 B2].
    pose proof (chunks_at_short (ev_time e)) as C1. pose proof (Hsize (ev_time e)) as C2. unfold chunks_at, size_at in C1, C2. unfold worth_at in A1, B1.
    rewrite !add_Ok by lia. cbn [mbind outcome_bind].
    destruct ((max_active s <? active s + 1)%Z || ((active s + 1 =? max_active s)%Z && (max_size s <? current_size s + ev_uncompressed_size e)%Z)) eqn:Hb;
      rewrite ?orb_true_iff, ?orb_false_iff, ?andb_true_iff, ?andb_false_iff, ?Z.ltb_lt, ?Z.ltb_ge, ?Z.eqb_eq, ?Z.eqb_neq in Hb; (eexists; split; [done|]).
    + split; cbn; [lia|lia|lia| |].
      * apply (best_snoc p e s (mkSweep (active s + 1) (active s + 1) (current_size s + ev_uncompressed_size e) (current_size s + ev_uncompressed_size e))); [done..|unfold no_better; cbn; lia|unfold no_better; cbn; lia].
      * right. exists p, e, []. split_and!; [done..|lia|lia].
    + split; cbn; [lia|lia|lia| |].
      * apply (best_snoc p e s s); [done..|unfold no_better; lia|unfold no_better; lia].
      * destruct (sw_attained _ _ Hs) as [?|Ha]; [by left|right]. by apply attained_snoc.
  - eexists. split; [done|]. unfold saturating_sub. split; cbn; [lia|lia|lia| |].
    + intros p' e' q' Hp He'. destruct q' as [|x q' _] using rev_ind.
      * apply app_inj_tail in Hp as [-> ->]. congruence.
      * rewrite app_comm_cons, app_assoc in Hp. apply app_inj_tail in Hp as [-> ->]. by apply (sw_best _ _ Hs p' e' q').
    + destruct (sw_attained _ _ Hs) as [?|Ha]; [by left|right]. by apply (attained_snoc p e s).
Qed.
Lemma sweep_events_spec q : ∀ p s, events = p ++ q → swept p s → ∃ s', sweep_events q s = Ok s' ∧ swept events s'.
Proof.
  induction q as [|e q IH]; intros p s Hsp Hs.
  - rewrite app_nil_r in Hsp. exists s. split; [done|]. by rewrite Hsp.
  - destruct (sweep_event_spec p e q s Hsp Hs) as (s1 & E1 & Hs1). destruct (IH (p ++ [e]) s1) as (s2 & E2 & Hs2).
    + by rewrite <-app_assoc.
    + done.
    + exists s2. cbn [sweep_events]. rewrite E1. done.
Qed.

(** The last of the elements that are [P]. *)
Lemma last_such {A} (P : A → Prop) `{∀ a, Decision (P a)} l x : x ∈ l → P x → ∃ p e q, l = p ++ e :: q ∧ P e ∧ ∀ y, y ∈ q → ¬ P y.
Proof.
  intros Hx HP. revert x Hx HP. induction l as [|a l IH]; intros x Hx HP; [by apply not_elem_of_nil in Hx|].
  destruct (decide (Exists P l)) as [(y & Hy & HPy)%Exists_exists|Hn].
  - destruct (IH y Hy HPy) as (p & e & q & -> & He & Hq). by exists (a :: p), e, q.
  - rewrite Exists_exists in Hn. apply elem_of_cons in Hx as [->|Hx]; [|destruct Hn; by exists x].
    exists [], a, l. split; [done|]. split; [done|]. intros y Hy HPy. apply Hn. by exists y.
Qed.

(** Whatever is active at a time is so at the start of one of the chunks. *)
Lemma active_since t c : c ∈ chunks → active_at t c = true → ∃ p e q, events = p ++ e :: q ∧ ev_is_start e = true ∧
  total (started one (ev_time e)) q = 0%Z ∧ total (started its_size (ev_time e)) q = 0%Z ∧
  (chunks_at t chunks ≤ chunks_at (ev_time e) chunks)%Z ∧ (size_at t chunks ≤ size_at (ev_time e) chunks)%Z.
Proof.
  intros Hc Ht. unfold active_at in Ht. rewrite andb_true_iff, !Z.leb_le in Ht.
  assert (∀ c, c ∈ chunks → mkChunkEvent (ci_message_start_time c) true (ci_uncompressed_size c) ∈ events) as Hstart.
  { intros d Hd. rewrite sort_by_perm. apply list_elem_of_In, in_concat. exists (chunk_events d). split; [|by left].
    apply list_elem_of_In, list_elem_of_fmap. by exists d. }
  destruct (last_such (λ e, ev_is_start e = true ∧ (ev_time e ≤ t)%Z) events _ (Hstart c Hc)) as (p & e & q & Hsp & [He Het] & Hq); [split; [done|cbn; lia]|].
  exists p, e, q. split; [done|]. split; [done|].
  assert (∀ w, total (started w (ev_time e)) q = 0%Z) as Hz.
  { intros w. rewrite <-(total_zero q). apply total_ext. intros x Hx. unfold started. destruct (ev_is_start x) eqn:Hxs; [|done].
    destruct (Z.leb_spec (ev_time x) (ev_time e)); [|done]. destruct (Hq x Hx). split; [done|lia]. }
  split; [done|]. split; [done|].
  assert (∀ c, c ∈ chunks → active_at t c = true → active_at (ev_time e) c = true) as Hm.
  { intros d Hd. unfold active_at. rewrite !andb_true_iff, !Z.leb_le. intros [H1 H2]. split; [|lia].
    pose proof (Hstart d Hd) as Hin. rewrite Hsp in Hin. apply elem_of_app in Hin as [Hin|[Hin|Hin]%elem_of_cons].
    - pose proof (before chunks p q e Hsp _ ltac:(apply elem_of_app; by left)) as Hk. by apply key_leb in Hk as [? _].
    - by rewrite <-Hin.
    - exfalso. by apply (Hq _ Hin). }
  split; [by apply (worth_at_mono one chunks count_ok)|by apply (worth_at_mono its_size chunks Hchunks)].
Qed.

Lemma swept_all s : swept events s → (∀ t, no_better (chunks_at t chunks) (size_at t chunks) (max_active s) (max_size s)) ∧
  ∃ t, max_active s = chunks_at t chunks ∧ max_size s = size_at t chunks.
Proof.
  intros Hs. destruct (sw_nonneg _ _ Hs) as (_ & _ & N3 & N4).
  assert (∀ t, no_better (chunks_at t chunks) (size_at t chunks) (max_active s) (max_size s)) as Hb.
  { intros t. destruct (decide (Exists (λ c, active_at t c = true) chunks)) as [(c & Hc & Ht)%Exists_exists|Hn].
    - destruct (active_since t c Hc Ht) as (p & e & q & Hsp & He & Z1 & Z2 & L1 & L2).
      destruct (gained_at one chunks count_ok p q e Hsp He) as [A1 _]. destruct (gained_at its_size chunks Hchunks p q e Hsp He) as [B1 _].
      pose proof (sw_best _ _ Hs p e q Hsp He) as Hb. unfold worth_at in A1, B1. unfold no_better, chunks_at, size_at in *. lia.
    - assert (∀ w, total (λ c, if active_at t c then w c else 0%Z) chunks = 0%Z) as Hz.
      { intros w. transitivity (total (λ _, 0%Z) chunks); [|apply total_zero]. apply total_ext. intros c Hc. cbn beta. destruct (active_at t c) eqn:Hct; [|done].
        destruct Hn. apply Exists_exists. by exists c. }
      unfold no_better, chunks_at, size_at. rewrite !Hz. lia. }
  split; [done|]. destruct (sw_attained _ _ Hs) as [[E1 E2]|(p & e & q & Hsp & He & E1 & E2)].
  - exists 0%Z. pose proof (Hb 0%Z) as H0. pose proof (worth_at_nonneg one chunks count_ok 0) as P1. pose proof (worth_at_nonneg its_size chunks Hchunks 0) as P2.
    unfold worth_at in P1, P2. unfold no_better, chunks_at, size_at in *. lia.
  - exists (ev_time e). pose proof (Hb (ev_time e)) as Ht.
    destruct (gained_at one chunks count_ok p q e Hsp He) as [A1 A2]. destruct (gained_at its_size chunks Hchunks p q e Hsp He) as [B1 B2].
    unfold worth_at in A1, B1. unfold no_better, chunks_at, size_at in *. lia.
Qed.
End sweep.

(** ** Properties *)

(** C37: how far the chunks of a file overlap: if every chunk ends no earlier than it
    starts, what is counted is the largest number of chunks that are active at one time
    and, of the times with that many, the largest size they have together.  Nothing
    overflows unless what is active at some time is larger than a [u64]. *)
Theorem overlaps_counted chunks :
  Forall (λ c, ci_message_start_time c ≤ ci_message_end_time c ∧ 0 ≤ ci_uncompressed_size c)%Z chunks →
  (zlen chunks ≤ usize_max)%Z → (∀ t, (size_at t chunks ≤ u64_max)%Z) →
  ∃ n b, count_chunk_overlaps chunks = Ok ((1 <? n)%Z, n, b) ∧
    (∃ t, n = chunks_at t chunks ∧ b = size_at t chunks) ∧ ∀ t, no_better (chunks_at t chunks) (size_at t chunks) n b.
Proof.
  intros Hc Hn Hs. destruct chunks as [|c [|c' l]].
  - exists 0%Z, 0%Z. split; [done|]. split; [by exists 0%Z|]. intros t. by right.
  - exists 1%Z, (ci_uncompressed_size c). split; [done|]. apply Forall_cons in Hc as [Hc _]. split.
    + exists (ci_message_start_time c). cbn. unfold active_at. rewrite Z.leb_refl, (proj2 (Z.leb_le (ci_message_start_time c) (ci_message_end_time c))) by lia. cbn. lia.
    + intros t. unfold no_better. cbn. destruct (active_at t c); lia.
  - destruct (sweep_events_spec (c :: c' :: l) Hc Hn Hs _ [] (mkSweep 0 0 0 0) eq_refl) as (s & E & Hw).
    { split; cbn; try done; [|by left]. intros p' e q' Hp. by destruct p'. }
    destruct (swept_all (c :: c' :: l) Hc s Hw) as [Hb Ha]. exists (max_active s), (max_size s). split; [|done].
    unfold count_chunk_overlaps. by rewrite E.
Qed.

(** ** Examples *)

Module InfoExamples.

Definition chunk (start end_ size : Z) : ChunkIndex := mkChunkIndex start end_ 0 0 [] 0 [] size size.
Definition chunks : list ChunkIndex := [chunk 10 20 5; chunk 30 40 100; chunk 20 30 7; chunk 35 35 9].

(** At 20 and at 30 the chunk between touches its neighbours; the largest two together are
    those at 35. *)
Example overlaps : count_chunk_overlaps chunks = Ok (true, 2, 109)%Z.
Proof. vm_compute. reflexivity. Qed.

Lemma chunks_fit t : (size_at t chunks ≤ u64_max)%Z.
Proof. unfold size_at, u64_max. cbn. repeat destruct (active_at t _); lia. Qed.
Lemma overlaps_counted_witness : ∃ n b, count_chunk_overlaps chunks = Ok ((1 <? n)%Z, n, b) ∧
  (∃ t, n = chunks_at t chunks ∧ b = size_at t chunks) ∧ ∀ t, no_better (chunks_at t chunks) (size_at t chunks) n b.
Proof.
  apply (overlaps_counted chunks); [|vm_compute; discriminate|exact chunks_fit].
  repeat constructor; vm_compute; discriminate.
Defined.
End InfoExamples.
