(* ===== verification/Table.v ===== *)
(** Tables (common.rs): rows of cells, the columns of which are padded to the width of
    their widest cell, by characters, and set apart by tabs; the last one is not padded. *)

From S2P Require Import Prelude Utf8 Errors Cli.

(** [value.chars().count()]: bytes that do not continue a character *)
Definition starts_char (b : byte) : bool := negb (Z.land (byte_to_Z b) 192 =? 128)%Z.
Definition chars_count (value : rstring) : Z := zlen (List.filter starts_char value).

(** A row goes through the widths with its index, out of range of which is a panic. *)
Fixpoint widen (row : list rstring) (widths : list Z) : Result (list Z) :=
  match row, widths with
  | [], _ => mret widths
  | value :: row, width :: widths => widths ← widen row widths; mret (Z.max width (chars_count value) :: widths)
  | _ :: _, [] => Panic
  end.
Fixpoint table_widths (rows : list (list rstring)) (widths : list Z) : Result (list Z) :=
  match rows with
  | [] => mret widths
  | row :: rows => widths ← widen row widths; table_widths rows widths
  end.

(** [{value:<width$}] *)
Definition padded (value : rstring) (width : Z) : rstring := value ++ replicate (Z.to_nat (width - chars_count value)) Byte.x20.
Fixpoint table_line (idx last_col_idx : Z) (row : list rstring) (widths : list Z) (line : rstring) : Result rstring :=
  match row with
  | [] => mret line
  | value :: row =>
      let line := if (0 <? idx)%Z then line ++ raw [9]%Z else line in
      cell ← (if (idx =? last_col_idx)%Z then mret value
              else match widths with width :: _ => mret (padded value width) | [] => Panic end);
      table_line (idx + 1) last_col_idx row (tail widths) (line ++ cell)
  end.
Fixpoint table_lines (last_col_idx : Z) (rows : list (list rstring)) (widths : list Z) (out : rstring) : Result rstring :=
  match rows with
  | [] => mret out
  | row :: rows => line ← table_line 0 last_col_idx row widths []; table_lines last_col_idx rows widths (out ++ line ++ raw [10]%Z)
  end.
Definition format_table (rows : list (list rstring)) : Result rstring :=
  match rows with
  | [] => mret []
  | first :: _ =>
      widths ← table_widths rows (replicate (length first) 0%Z);
      table_lines (Z.max 0 (zlen first - 1)) rows widths []
  end.

(** ** Columns are aligned *)

Lemma chars_count_app a b : chars_count (a ++ b) = (chars_count a + chars_count b)%Z.
Proof. unfold chars_count. by rewrite List.filter_app, zlen_app. Qed.
Lemma chars_count_nonneg a : (0 ≤ chars_count a)%Z.
Proof. apply zlen_nonneg. Qed.
Lemma chars_count_padded value width : (chars_count value ≤ width)%Z → chars_count (padded value width) = width.
Proof.
  intros Hw. unfold padded. rewrite chars_count_app.
  assert (∀ n, chars_count (replicate n Byte.x20) = Z.of_nat n) as -> by (induction n as [|n IH]; [done|]; change (replicate (S n) Byte.x20) with ([Byte.x20] ++ replicate n Byte.x20); rewrite chars_count_app, IH;
    change (chars_count [Byte.x20]) with 1%Z; lia).
  lia.
Qed.

(** Every row fits the widths. *)
Definition fits (widths : list Z) (row : list rstring) : Prop := Forall2 (λ value width, chars_count value ≤ width)%Z row widths.

Lemma widen_ok row widths : length row = length widths → ∃ widths', widen row widths = Ok widths' ∧ fits widths' row ∧ Forall2 Z.le widths widths'.
Proof.
  revert widths. induction row as [|v row IH]; intros [|w widths] Hl; try done; [by exists []; split_and!; constructor|].
  destruct (IH widths ltac:(cbn in Hl; lia)) as (ws & E & Hf & Hle). exists (Z.max w (chars_count v) :: ws). cbn [widen]. rewrite E.
  split_and!; [done|constructor; [lia|done]|constructor; [lia|done]].
Qed.
Lemma fits_wider ws ws' row : Forall2 Z.le ws ws' → fits ws row → fits ws' row.
Proof.
  unfold fits. intros Hle. revert row. induction Hle as [|w w' ws ws' Hw _ IH]; intros row Hf; [done|].
  apply Forall2_cons_inv_r in Hf as (v & vs & Hv & Hf & ->). constructor; [lia|by apply IH].
Qed.
Lemma table_widths_ok rows widths : Forall (λ row, length row = length widths) rows →
  ∃ ws, table_widths rows widths = Ok ws ∧ Forall (fits ws) rows ∧ Forall2 Z.le widths ws.
Proof.
  revert widths. induction rows as [|row rows IH]; intros widths Hr; cbn [table_widths].
  { exists widths. split_and!; [done|constructor|]. apply Forall_Forall2_diag, Forall_true. intros. lia. }
  apply Forall_cons in Hr as [Hl Hr]. destruct (widen_ok row widths Hl) as (w1 & E1 & Hf1 & Hle1). rewrite E1. cbn [mbind outcome_bind].
  destruct (IH w1) as (ws & E & Hf & Hle).
  { apply Forall2_length in Hle1. by rewrite <-Hle1. }
  exists ws. split_and!; [done|constructor; [by eapply fits_wider|done]|].
  clear -Hle1 Hle. revert ws Hle. induction Hle1 as [|a b l k Hab _ IH]; intros ws Hle; [done|].
  apply Forall2_cons_inv_l in Hle as (c & ws' & Hbc & Hle & ->). constructor; [lia|by apply IH].
Qed.

(** Where a column starts, in characters. *)
Definition column_start (widths : list Z) (i : nat) : Z := foldr (λ w n, w + 1 + n)%Z 0%Z (take i widths).

Lemma table_line_ok idx last row widths line : fits widths row → (0 ≤ idx)%Z → last = (idx + zlen row - 1)%Z →
  ∃ out, table_line idx last row widths line = Ok (line ++ out) ∧
    ∀ i value, row !! i = Some value → ∃ pre post, out = pre ++ value ++ post ∧ chars_count pre = (column_start widths i + if (0 <? idx) then 1 else 0)%Z.
Proof.
  intros Hf. revert idx line. induction Hf as [|v w row widths Hv Hf IH]; intros idx line Hi Hlast; cbn [table_line].
  { exists []. by rewrite app_nil_r. }
  rewrite zlen_cons in Hlast. pose proof (zlen_nonneg row) as Hn. set (tab := if (0 <? idx)%Z then raw [9]%Z else []).
  assert ((if (0 <? idx)%Z then line ++ raw [9]%Z else line) = line ++ tab) as -> by (unfold tab; destruct (0 <? idx)%Z; by rewrite ?app_nil_r).
  assert (chars_count tab = if (0 <? idx)%Z then 1 else 0)%Z as Htab by (unfold tab; by destruct (0 <? idx)%Z).
  destruct (Z.eqb_spec idx last) as [El|Hne]; cbn [mbind outcome_bind mret outcome_ret].
  - assert (row = []) as -> by (apply zlen_zero_nil; lia). exists (tab ++ v). cbn [table_line]. split; [by rewrite <-app_assoc|].
    intros [|i] value [= <-]. exists tab, []. rewrite app_nil_r. split; [done|]. cbn. lia.
  - destruct (IH (idx + 1)%Z ((line ++ tab) ++ padded v w) ltac:(lia) ltac:(lia)) as (out & E & Hcol). cbn [tail]. rewrite E.
    exists (tab ++ padded v w ++ out). split; [by rewrite <-!app_assoc|]. rewrite (proj2 (Z.ltb_lt 0 (idx + 1))) in Hcol by lia. intros [|i] value; cbn.
    + intros [= <-]. unfold padded. exists tab. eexists. rewrite <-app_assoc. split; [done|]. unfold column_start. cbn. lia.
    + intros Hi'. destruct (Hcol i value Hi') as (pre & post & -> & Hpre). exists (tab ++ padded v w ++ pre), post.
      split; [by rewrite <-!app_assoc|]. rewrite !chars_count_app, chars_count_padded, Hpre, Htab by done. unfold column_start. cbn. lia.
Qed.

(** A table is never refused if its rows are as long as the first, and then every cell of
    a column starts at the same character of its line. *)
Theorem table_aligned first rows : Forall (λ row, length row = length first) rows → first ≠ [] →
  ∃ widths lines, format_table (first :: rows) = Ok (concat ((λ line, line ++ raw [10]%Z) <$> lines)) ∧
    Forall2 (λ row line, ∀ i value, row !! i = Some value → ∃ pre post, line = pre ++ value ++ post ∧ chars_count pre = column_start widths i) (first :: rows) lines.
Proof.
  intros Hr Hne. unfold format_table. destruct (table_widths_ok (first :: rows) (replicate (length first) 0%Z)) as (ws & -> & Hf & _).
  { rewrite length_replicate. by constructor. }
  cbn [mbind outcome_bind]. exists ws. assert (Forall (λ row, zlen row = zlen first) (first :: rows)) as Hl.
  { constructor; [done|]. eapply Forall_impl; [exact Hr|]. unfold zlen. by intros row ->. }
  assert (0 < zlen first)%Z as Hpos by (destruct first; [done|]; rewrite zlen_cons; pose proof (zlen_nonneg first); lia). rewrite Z.max_r by lia.
  set (all := first :: rows) in *. clearbody all. clear Hr. set (n := zlen first) in *. clearbody n.
  enough (∀ out, ∃ lines, table_lines (n - 1) all ws out = Ok (out ++ concat ((λ line, line ++ raw [10]%Z) <$> lines)) ∧
    Forall2 (λ row line, ∀ i value, row !! i = Some value → ∃ pre post, line = pre ++ value ++ post ∧ chars_count pre = column_start ws i) all lines) as Hall
    by (destruct (Hall []) as (lines & E & Hc); by exists lines).
  induction all as [|row all IH]; intros out; cbn [table_lines]; [exists []; cbn; rewrite app_nil_r; split; [done|constructor]|].
  apply Forall_cons in Hf as [Hf1 Hf]. apply Forall_cons in Hl as [Hl1 Hl]. destruct (table_line_ok 0 (n - 1) row ws [] Hf1 ltac:(lia) ltac:(lia)) as (line & -> & Hc).
  cbn [mbind outcome_bind app]. destruct (IH Hf Hl (out ++ line ++ raw [10]%Z)) as (lines & -> & Hcs). exists (line :: lines).
  split; [cbn; by rewrite <-!app_assoc|]. constructor; [|done]. intros i value Hv. destruct (Hc i value Hv) as (pre & post & Hp & Hq). exists pre, post. split; [done|]. rewrite Hq. apply Z.add_0_r.
Qed.

Example aligned_by_characters : format_table [[lit "id"; lit "topic"]; [raw [195; 169]%Z; lit "/foo"]; [lit "123"; lit "/b"]] =
  Ok (lit "id " ++ raw [9]%Z ++ lit "topic" ++ raw [10]%Z ++ raw [195; 169]%Z ++ lit "  " ++ raw [9]%Z ++ lit "/foo" ++ raw [10]%Z ++
      lit "123" ++ raw [9]%Z ++ lit "/b" ++ raw [10]%Z).
Proof. vm_compute. reflexivity. Qed.
