(* ===== verification/GetList.v ===== *)
(** The commands that get and list what a file has besides messages (get_attachment.rs,
    get_metadata.rs, list_attachments.rs, list_channels.rs, list_metadata.rs,
    list_schemas.rs): an attachment by its name, the metadata of a name, and the tables.
    The list of chunks, which has a ratio in floating point, is left out; the package that
    renders JSON is a parameter. *)

From S2P Require Import Prelude Utf8 BTree Errors Bin Records Crc Codec RwBuf Decompressor LinearReader Channels Read Summary SummaryReader Sorting ChunkWriter Writer Cli Common Table.

Section get.
Context `{Crc, ZstdLib, Lz4Lib, HashOrder}.

(** ** get attachment *)

Definition select_attachment_index (indexes : list AttachmentIndex) (name : rstring) (offset : option Z) : Result AttachmentIndex :=
  let matches := List.filter (λ index, bool_decide (ai_name index = name)) indexes in
  match matches with
  | [] => bail "attachment {name} not found" [Str name]
  | [first_match] =>
      match offset with
      | Some offset =>
          if negb (ai_offset first_match =? offset)%Z then bail "failed to find attachment {name} at offset {offset}" [Str name; Num offset]
          else mret first_match
      | None => mret first_match
      end
  | _ =>
      match offset with
      | None => bail "multiple attachments named {name} exist (specify an offset)" [Str name]
      | Some offset =>
          match List.find (λ index, (ai_offset index =? offset)%Z) matches with
          | Some index => mret index
          | None => bail "failed to find attachment {name} at offset {offset}" [Str name; Num offset]
          end
      end
  end.

(** [run], up to where the data are written. *)
Definition get_attachment (fuel : nat) (mcap : bytes) (name : rstring) (offset : option Z) : Result bytes :=
  parsed ← parse_mcap fuel mcap;
  index ← select_attachment_index (pm_attachment_indexes parsed) name offset;
  attachment ← with_context "failed to read attachment {} at offset {}" [Str name; Num (ai_offset index)] (from_mcap (attachment mcap index));
  mret (attachment_data attachment).

(** ** get metadata *)

Fixpoint insert_all (m out : list (rstring * rstring)) : list (rstring * rstring) :=
  match m with
  | [] => out
  | (key, value) :: m => insert_all m (bt_insert key value out)
  end.
Fixpoint merge_metadata (mcap : bytes) (indexes : list MetadataIndex) (output : list (rstring * rstring)) : Result (list (rstring * rstring)) :=
  match indexes with
  | [] => mret output
  | index :: indexes =>
      record ← with_context "failed to read metadata at offset {}" [Num (mx_offset index)] (from_mcap (metadata mcap index));
      merge_metadata mcap indexes (insert_all (md_metadata record) output)
  end.
Definition merged_metadata_for_name (mcap : bytes) (indexes : list MetadataIndex) (name : rstring) : Result (list (rstring * rstring)) :=
  let matching_indexes := List.filter (λ index, bool_decide (mx_name index = name)) indexes in
  if bool_decide (matching_indexes = []) then bail "metadata {name} does not exist" [Str name] else
  merge_metadata mcap (sort_by (by_key (λ index, [mx_offset index])) matching_indexes) [].

(** [run], up to where the map is printed. *)
Definition get_metadata (fuel : nat) (mcap : bytes) (name : rstring) : Result (list (rstring * rstring)) :=
  parsed ← parse_mcap fuel mcap;
  merged_metadata_for_name mcap (pm_metadata_indexes parsed) name.

(** ** The tables *)

Definition attachment_row (index : AttachmentIndex) : list rstring :=
  [ai_name index; ai_media_type index; raw_time (ai_log_time index); raw_time (ai_create_time index);
   show_u64 (ai_data_size index); show_u64 (ai_offset index)].
Definition render_attachment_rows (indexes : list AttachmentIndex) : list (list rstring) :=
  [lit "name"; lit "media type"; lit "log time"; lit "creation time"; lit "content length"; lit "offset"] :: (attachment_row <$> indexes).
(** What a [run] prints. *)
Definition list_attachments (fuel : nat) (mcap : bytes) : Result rstring :=
  parsed ← parse_mcap fuel mcap;
  format_table (render_attachment_rows (sort_by (by_key (λ index, [ai_offset index])) (pm_attachment_indexes parsed))).

Definition schema_row (schema : ParsedSchema) : list rstring :=
  let data := if utf8_valid (ps_data schema) then ps_data schema
    else lit "<" ++ show_u64 (zlen (ps_data schema)) ++ lit " bytes binary>" in
  [show_u64 (sh_id (ps_header schema)); sh_name (ps_header schema); sh_encoding (ps_header schema); data].
Definition render_schema_rows (schemas : list (Z * ParsedSchema)) : list (list rstring) :=
  [lit "id"; lit "name"; lit "encoding"; lit "data"] :: ((λ p, schema_row p.2) <$> schemas).
Definition list_schemas (fuel : nat) (mcap : bytes) : Result rstring :=
  parsed ← parse_mcap fuel mcap;
  format_table (render_schema_rows (pm_schemas parsed)).

(** [serde_json::to_string] of a map. *)
Context (to_json : list (rstring * rstring) → Result rstring).

(** The loop that pushes a row for each. *)
Fixpoint push_rows {A} (row : A → Result (list rstring)) (l : list A) (rows : list (list rstring)) : Result (list (list rstring)) :=
  match l with
  | [] => mret rows
  | a :: l => r ← row a; push_rows row l (rows ++ [r])
  end.

Definition channel_row (channel : ChannelRecord) : Result (list rstring) :=
  metadata ← to_json (c_metadata channel);
  mret [show_u64 (c_id channel); show_u64 (c_schema_id channel); c_topic channel; c_message_encoding channel; metadata].
Definition render_channel_rows (channels : list (Z * ChannelRecord)) : Result (list (list rstring)) :=
  push_rows (λ p, channel_row p.2) channels [[lit "id"; lit "schemaId"; lit "topic"; lit "messageEncoding"; lit "metadata"]].
Definition list_channels (fuel : nat) (mcap : bytes) : Result rstring :=
  parsed ← parse_mcap fuel mcap;
  rows ← render_channel_rows (pm_channels parsed);
  format_table rows.

Fixpoint read_metadata_records (mcap : bytes) (indexes : list MetadataIndex) (records : list (MetadataIndex * Metadata)) : Result (list (MetadataIndex * Metadata)) :=
  match indexes with
  | [] => mret records
  | index :: indexes =>
      m ← with_context "failed to read metadata at offset {}" [Num (mx_offset index)] (from_mcap (metadata mcap index));
      read_metadata_records mcap indexes (records ++ [(index, m)])
  end.
Definition collect_metadata_records (fuel : nat) (mcap : bytes) : Result (list (MetadataIndex * Metadata)) :=
  parsed ← parse_mcap fuel mcap;
  read_metadata_records mcap (pm_metadata_indexes parsed) [].
Definition metadata_row (p : MetadataIndex * Metadata) : Result (list rstring) :=
  json ← with_context "failed to serialize metadata map" [] (to_json (md_metadata p.2));
  mret [md_name p.2; show_u64 (mx_offset p.1); show_u64 (mx_length p.1); json].
Definition render_metadata_rows (records : list (MetadataIndex * Metadata)) : Result (list (list rstring)) :=
  push_rows metadata_row records [[lit "name"; lit "offset"; lit "length"; lit "metadata"]].
Definition list_metadata (fuel : nat) (mcap : bytes) : Result rstring :=
  records ← collect_metadata_records fuel mcap;
  rows ← render_metadata_rows records;
  format_table rows.
End get.
