(* ===== verification/GetTheory.v ===== *)
(** What is added is found: after records are added in place, get attachment and get metadata
    give what was added. *)

From S2P Require Import Prelude Utf8 BTree Errors Bin Records Crc Io Codec RwBuf Decompressor LinearReader LinearReaderTheory LinearReaderClient LinearReaderFile Channels Read ReadTheory Conversation Streaming LinearReaderFlat Summary IndexedRecords SummaryReader SummaryTheory Sorting ChunkWriter ChunkWriterTheory Writer WriterTheory WriterSpec WriterFile WriterSummary WriterRoundtrip WriterSummaryRead Instances Cli Filter Common AddCommon AddTheory AddWork GetList.

(** ** Choosing an index *)

Section choose.
Context `{Crc, ZstdLib, Lz4Lib, HashOrder}.

Lemma filter_perm {A} (p : A → bool) l k : l ≡ₚ k → List.filter p l ≡ₚ List.filter p k.
Proof.
  induction 1 as [|x l k _ IH|x y l|l k m _ IH1 _ IH2]; [done|..|by etrans]; cbn.
  - destruct (p x); by rewrite IH.
  - destruct (p x), (p y); try done. constructor.
Qed.
Lemma filter_sort {A} (p : A → bool) leb l a : List.filter p l = [a] → List.filter p (sort_by leb l) = [a].
Proof. intros Hl. apply Permutation_length_1_inv. rewrite <-Hl. symmetry. apply filter_perm, sort_by_perm. Qed.

(** The only one of a name is chosen. *)
Lemma select_only indexes name index : List.filter (λ i, bool_decide (ai_name i = name)) indexes = [index] →
  select_attachment_index indexes name None = Ok index.
Proof. intros E. unfold select_attachment_index. by rewrite E. Qed.

Lemma get_attachment_only fuel mcap name p index a : parse_mcap fuel mcap = Ok p →
  List.filter (λ i, bool_decide (ai_name i = name)) (pm_attachment_indexes p) = [index] → attachment mcap index = Ok a →
  get_attachment fuel mcap name None = Ok (attachment_data a).
Proof.
  intros Hp Hi Ha. unfold get_attachment. rewrite Hp. cbn [mbind outcome_bind]. rewrite (select_only _ _ _ Hi). cbn [mbind outcome_bind]. by rewrite Ha.
Qed.

(** The pairs of a map, inserted into nothing, are the map. *)
Lemma insert_all_end (m out : list (rstring * rstring)) : bt_sorted (out ++ m) = true → insert_all m out = out ++ m.
Proof.
  revert out. induction m as [|[k v] m IH]; intros out Hs; [by rewrite app_nil_r|]. cbn [insert_all].
  assert (bt_insert k v out = out ++ [(k, v)]) as ->.
  { clear IH. induction out as [|[k' v'] out IH]; [done|]. cbn [app] in Hs. rewrite bt_sorted_cons in Hs. destruct Hs as [Ha Hs].
    cbn [bt_insert]. rewrite IH by done. unfold bt_above in Ha. rewrite Forall_app in Ha. destruct Ha as [_ [Hk _]%Forall_cons].
    change (kltb k' k = true) in Hk. rewrite Hk. destruct (kltb k k') eqn:E; [|done].
    pose proof (kltb_trans _ _ _ E Hk) as Hc. by rewrite kltb_irrefl in Hc. }
  rewrite IH; by rewrite <-app_assoc.
Qed.
Lemma get_metadata_only fuel mcap name p index m : parse_mcap fuel mcap = Ok p →
  List.filter (λ i, bool_decide (mx_name i = name)) (pm_metadata_indexes p) = [index] → metadata mcap index = Ok m →
  bt_sorted (md_metadata m) = true → get_metadata fuel mcap name = Ok (md_metadata m).
Proof.
  intros Hp Hi Hm Hs. unfold get_metadata. rewrite Hp. cbn [mbind outcome_bind]. unfold merged_metadata_for_name. rewrite Hi.
  rewrite bool_decide_false by done. cbn [sort_by foldr sorted_insert merge_metadata]. rewrite Hm. cbn [from_mcap with_context map_err mbind outcome_bind].
  by rewrite insert_all_end.
Qed.
End choose.

(** ** The summary of the amended file *)

Section declared.

(** What is known of the schemas and the channels, as records that are read one by one. *)
Definition declarations (e : ExistingSummaryData) : list record :=
  ((λ s, RSchema (ps_header s) (ps_data s)) <$> (es_schemas e).*2) ++ (RChannel <$> (es_channels e).*2).
Definition declarations_agree (e : ExistingSummaryData) : Prop := is_ok (absorb_all (declarations e) Summary_default ChannelAccumulator_default).

Lemma absorb_all_app l k sum acc : absorb_all (l ++ k) sum acc = ('(sum, acc) ← absorb_all l sum acc; absorb_all k sum acc).
Proof.
  revert sum acc. induction l as [|r l IH]; intros sum acc; [done|]. cbn [app absorb_all]. destruct (absorb r sum acc) as [o [s a]].
  destruct o as [[]|e| |]; cbn [mbind outcome_bind]; [apply IH|done..].
Qed.
Lemma declarations_absorbed l sum acc sum' acc' : Forall (λ r, is_schema r = true ∨ is_channel r = true) l →
  absorb_all l sum acc = Ok (sum', acc') → sum' = sum.
Proof.
  intros Hl. revert sum acc. induction Hl as [|r l Hr _ IH]; intros sum acc; [by intros [= -> _]|]. cbn [absorb_all].
  destruct (absorb r sum acc) as [o [s a]] eqn:E. destruct o as [[]|e| |]; cbn [mbind outcome_bind]; [|done..].
  intros Hk. rewrite (IH _ _ Hk). unfold absorb in E.
  destruct Hr as [Hr|Hr]; destruct r; try done; match type of E with (let '(_, _) := ?x in _) = _ => destruct x as [o2 a2] end;
    injection E as _ <- _; by destruct sum.
Qed.
End declared.

Section amended.
Context `{Crc, !CrcLaws, !CrcInit, !CrcInitLaws, ZstdLib, Lz4Lib, !ZstdLibOk, !Lz4LibOk, !Frames, HashOrder, !HashOrderOk}.
Context (f : mcap_file) (e : ExistingSummaryData) (atts : list AttachmentToAdd) (mds : list Metadata).
Hypothesis Hadded : forallb record_wf (added_records atts mds) = true.
Hypothesis Hsummary : forallb record_wf (amended_summary f e atts mds) = true.
Abbreviation f' := (amended f e atts mds).
Hypothesis Hsz : (zlen (file_bytes f') ≤ u64_max)%Z.
Hypothesis Hagree : declarations_agree e.
Abbreviation all_attachments := (sort_by (by_key (λ i, [ai_offset i])) (es_attachment_indexes e ++ new_attachments f atts)).
Abbreviation all_metadata := (sort_by (by_key (λ i, [mx_offset i])) (es_metadata_indexes e ++ new_metadata f atts mds)).

(** The old indexes and the new are what the summary has. *)
Lemma amended_gathered : ∃ sum, summary_of_section (amended_summary f e atts mds) = Ok sum ∧
  attachment_indexes sum = all_attachments ∧ metadata_indexes sum = all_metadata.
Proof.
  destruct Hagree as [[sum0 acc] Ha]. assert (sum0 = Summary_default) as ->.
  { eapply declarations_absorbed; [|exact Ha]. unfold declarations. apply Forall_app. split; apply Forall_fmap, Forall_true; intros a; [by left|by right]. }
  unfold amended_summary, groups_records, amended_groups, existing_groups. cbn [fmap list_fmap snd concat].
  set (offsets := if has_offsets f then _ else _).
  assert (∀ k acc, absorb_all offsets k acc = Ok (k, acc)) as Hoff by (intros k acc'; unfold offsets; destruct (has_offsets f); [apply absorb_offsets|done]).
  rewrite <-!app_assoc. cbn [app]. cbn [es_schemas es_channels es_statistics es_chunk_indexes es_attachment_indexes es_metadata_indexes add_to_summary].
  set (rest := (RStatistics <$> _) ++ _). unfold summary_of_section.
  match goal with |- context [absorb_all ?l _ _] => assert (l = declarations e ++ rest) as -> by (unfold declarations; by rewrite <-app_assoc) end.
  rewrite absorb_all_app, Ha. cbn [mbind outcome_bind].
  assert (∃ st, absorb_all rest Summary_default acc = Ok (mkSummary st ∅ ∅ (es_chunk_indexes e) all_attachments all_metadata, acc)) as [st ->].
  { assert (∀ (o : option Statistics) k, ∃ st, absorb_all ((RStatistics <$> option_list o) ++ k) Summary_default acc = absorb_all k (mkSummary st ∅ ∅ [] [] []) acc) as Hst
      by (intros [st|] k; by eexists).
    unfold rest. match goal with |- context [RStatistics <$> option_list ?o] => destruct (Hst o ((RChunkIndex <$> es_chunk_indexes e) ++ (RAttachmentIndex <$> all_attachments) ++ (RMetadataIndex <$> all_metadata) ++ offsets)) as [st ->] end.
    exists st. rewrite absorb_chunk_indexes, absorb_attachment_indexes, absorb_metadata_indexes. apply Hoff. }
  eexists. split; [done|]. by split.
Qed.

Lemma amended_section_start : section_start_of f' = amended_start f atts mds.
Proof.
  unfold section_start_of. rewrite zlen_app. unfold data_end_rec. rewrite frames_one. unfold frame. rewrite !zlen_app, !zlen_le_enc.
  change (zlen (c_enc DataEnd_codec (file_data_end f'))) with (zlen (le_enc 4 (de_data_section_crc (file_data_end f')))). rewrite zlen_le_enc.
  unfold amended_start, data_section. cbn [file_records amended]. rewrite !zlen_app. lia.
Qed.

(** So that is what is read, if there is anything at all. *)
Lemma amended_summary_read fuel : concat (amended_groups f e atts mds).*2 ≠ [] → 2 * length (file_bytes f') + 16 ≤ fuel →
  ∃ sum, Summary_read fuel (file_bytes f') = Ok (Some sum) ∧ attachment_indexes sum = all_attachments ∧ metadata_indexes sum = all_metadata.
Proof.
  intros Hne Hf. destruct amended_gathered as (sum & Hsum & ?). exists sum. split; [|done].
  assert (length (amended_summary f e atts mds) ≤ length (file_bytes f')) as Hn.
  { etrans; [apply records_short|]. pose proof (amended_sizes f e atts mds) as Hl. pose proof (zlen_nonneg (data_section f')). unfold zlen in *. lia. }
  rewrite (Summary_read_section f' (amended_summary f e atts mds)); [by rewrite Hsum| | | | |done|lia].
  - by eapply amended_footer_wf.
  - done.
  - rewrite amended_section_start. cbn [file_footer amended amended_footer f_summary_start]. by rewrite bool_decide_false.
  - pose proof (amended_summary_records f e atts mds Hsummary) as Hr. rewrite forallb_forall in *. intros r Hin. rewrite (Hr r Hin).
    apply list_elem_of_In in Hin. unfold amended_summary, groups_records, amended_groups, existing_groups in Hin. cbn [fmap list_fmap snd concat] in Hin.
    rewrite !elem_of_app in Hin.
    destruct Hin as [[Hin|[Hin|[Hin|[Hin|[Hin|[Hin|Hin]]]]]]|Hin]; [..|by apply not_elem_of_nil in Hin|];
      [..|destruct (has_offsets f); [|by apply not_elem_of_nil in Hin]]; by apply list_elem_of_fmap in Hin as (a & -> & _).
Qed.
End amended.

(** ** Where the indexes point *)

Section pointed.
Context `{Crc, !CrcLaws, ZstdLib, Lz4Lib, !ZstdLibOk, !Lz4LibOk, !Frames, HashOrder}.

Definition attachment_of (a : AttachmentToAdd) : Attachment :=
  mkAttachment (ta_log_time a) (ta_create_time a) (ta_name a) (ta_media_type a) (ta_data a).

Lemma attachments_at_read l pre post : forallb record_wf (added_attachment <$> l) = true →
  let mcap := pre ++ records_data (added_attachment <$> l) ++ post in (zlen mcap ≤ usize_max)%Z →
  Forall2 (λ i a, attachment mcap i = Ok (attachment_of a) ∧ ai_name i = ta_name a) (attachments_at (zlen pre) l) l.
Proof.
  revert pre. induction l as [|a l IH]; intros pre Hw mcap Hsz; [constructor|]. rewrite fmap_cons in Hw. cbn [forallb] in Hw. apply andb_true_iff in Hw as [Ha Hl].
  assert (mcap = pre ++ record_frame (added_attachment a) ++ records_data (added_attachment <$> l) ++ post) as E
    by (unfold mcap; rewrite fmap_cons, records_data_cons; by rewrite <-app_assoc).
  cbn [attachments_at]. constructor.
  - split; [|done]. rewrite E in Hsz |- *. assert (file_record (added_attachment a) = true) as Hr by (unfold file_record; by rewrite Ha).
    by apply (attachment_at pre _ (added_attachment a) Hr ltac:(done) Hsz (attachment_header a) (ta_data a) _ _ eq_refl).
  - rewrite <-zlen_app. specialize (IH (pre ++ record_frame (added_attachment a)) Hl). rewrite <-app_assoc in IH. rewrite E in Hsz |- *. by apply IH.
Qed.
Lemma metadata_at_read l pre post : forallb record_wf (RMetadata <$> l) = true →
  let mcap := pre ++ records_data (RMetadata <$> l) ++ post in (zlen mcap ≤ usize_max)%Z →
  Forall2 (λ i m, metadata mcap i = Ok m ∧ mx_name i = md_name m) (metadata_at (zlen pre) l) l.
Proof.
  revert pre. induction l as [|m l IH]; intros pre Hw mcap Hsz; [constructor|]. rewrite fmap_cons in Hw. cbn [forallb] in Hw. apply andb_true_iff in Hw as [Ha Hl].
  assert (mcap = pre ++ record_frame (RMetadata m) ++ records_data (RMetadata <$> l) ++ post) as E
    by (unfold mcap; rewrite fmap_cons, records_data_cons; by rewrite <-app_assoc).
  cbn [metadata_at]. constructor.
  - split; [|done]. rewrite E in Hsz |- *. assert (file_record (RMetadata m) = true) as Hr by (unfold file_record; by rewrite Ha).
    by apply (metadata_at_index pre _ (RMetadata m) Hr ltac:(done) Hsz m).
  - rewrite <-zlen_app. specialize (IH (pre ++ record_frame (RMetadata m)) Hl). rewrite <-app_assoc in IH. rewrite E in Hsz |- *. by apply IH.
Qed.

(** The only one of a name has the only index of the name. *)
Lemma only_index {A B} (R : A → B → Prop) (p : A → bool) (q : B → bool) l k b : Forall2 (λ x y, R x y ∧ p x = q y) l k → List.filter q k = [b] →
  ∃ a, List.filter p l = [a] ∧ R a b.
Proof.
  intros Hlk Hk. assert (Forall2 R (List.filter p l) (List.filter q k)) as Hf.
  { clear Hk. induction Hlk as [|x y l k [Hxy Hp] _ IH]; [constructor|]. cbn. rewrite Hp. destruct (q y); [by constructor|done]. }
  rewrite Hk in Hf. apply Forall2_cons_inv_r in Hf as (a & l' & Hab & Hl' & ->). apply Forall2_nil_inv_r in Hl' as ->. by exists a.
Qed.

(** A file begins with its first record. *)
Lemma read_header_ok g r es : file_records g = event_of r :: es → file_record r = true → (zlen (file_bytes g) ≤ usize_max)%Z →
  ∃ h, read_header (file_bytes g) = Ok h.
Proof.
  intros Hg Hr Hsz. set (c := file_bytes g) in *.
  assert (c = MAGIC ++ frames (event_of r :: es) ++ frames [data_end_rec g] ++ frames (file_summary g) ++ frames [footer_rec g] ++ MAGIC) as Hc
    by (unfold c, file_bytes, data_section; rewrite Hg; by rewrite <-!app_assoc).
  set (rest := frames [data_end_rec g] ++ _) in Hc. change (event_of r :: es) with ((record_opcode r, record_body r) :: es) in Hc.
  rewrite frames_cons, <-!app_assoc in Hc. change (frame (record_opcode r) (record_body r)) with (record_frame r) in Hc.
  set (o := with_emit_chunks true (with_validate_chunk_crcs true (with_skip_end_magic (bool_decide (IgnoreEndMagic ∈ @nil Options)) (with_record_length_limit (zlen c) LinearReaderOptions_default)))).
  assert (body_fits o (record_body r) = true) as Hfit.
  { apply (body_fits_within o (zlen c)); [|done|by intros k [= <-]]. rewrite Hc, !zlen_app, zlen_record_frame. zlen_facts. lia. }
  assert (will (λ out _ _, out = Ok (Some (event_of r))) (LinearReader_new o) c) as Hw.
  { eapply (will_start o _ (record_frame r ++ frames es ++ rest)); [|done|].
    - rewrite <-Hc. split; done || apply LinearReader_new_inv.
    - intros s c' Hs. eapply (will_record o _ (record_opcode r) (record_body r)); [exact Hs| |by left|done]. by apply file_record_ordinary. }
  destruct (inner_loop_will _ (2 + length c) (mkInnerReader c (LinearReader_new o)) Hw) as (out & i & El & -> & _).
  - split; [apply LinearReader_new_inv|]. change (0 + zlen c ≤ usize_max)%Z. lia.
  - right. cbn. lia.
  - unfold read_header, InnerReader_next, linear.new, linear.new_with_options. cbn [ir_buf]. fold o. rewrite El.
    unfold parsed. cbn [mbind outcome_bind event_of fst]. unfold file_record in Hr. apply andb_true_iff in Hr as [Hwf _]. rewrite (parse_record_body r Hwf). cbn.
    destruct r; by eexists.
Qed.
End pointed.

(** ** Properties *)

Section properties.
Context `{Crc, !CrcLaws, !CrcInit, !CrcInitLaws, ZstdLib, Lz4Lib, !ZstdLibOk, !Lz4LibOk, !Frames, HashOrder, !HashOrderOk, Files F, !FilesWork world}.

(** No other attachment, and no other metadata, old or new, has the name. *)
Definition only_attachment (e : ExistingSummaryData) (atts : list AttachmentToAdd) (a : AttachmentToAdd) : Prop :=
  List.filter (λ i, bool_decide (ai_name i = ta_name a)) (es_attachment_indexes e) = [] ∧
  List.filter (λ b, bool_decide (ta_name b = ta_name a)) atts = [a].
Definition only_metadata (e : ExistingSummaryData) (mds : list Metadata) (m : Metadata) : Prop :=
  List.filter (λ i, bool_decide (mx_name i = md_name m)) (es_metadata_indexes e) = [] ∧
  List.filter (λ n, bool_decide (md_name n = md_name m)) mds = [m].

Lemma metadata_sorted m : record_wf (RMetadata m) = true → bt_sorted (md_metadata m) = true.
Proof.
  unfold record_wf. intros [Hw _]%andb_true_iff. change (c_wf rstr (md_name m) && c_wf string_map (md_metadata m) = true) in Hw.
  apply andb_true_iff in Hw as [_ Hw]. by apply map_wf_iff in Hw as (_ & ? & _).
Qed.

Section found.
Context (f : mcap_file) (e : ExistingSummaryData) (atts : list AttachmentToAdd) (mds : list Metadata).
Abbreviation f' := (amended f e atts mds).
Hypothesis Hadded : forallb record_wf (added_records atts mds) = true.
Hypothesis Hsummary : forallb record_wf (amended_summary f e atts mds) = true.
Hypothesis Hsz : (zlen (file_bytes f') ≤ u64_max)%Z.
Hypothesis Hagree : declarations_agree e.
Hypothesis Hfirst : ∃ r es, file_records f = event_of r :: es ∧ file_record r = true.
Context (fuel : nat) (Hfuel : 2 * length (file_bytes f') + 16 ≤ fuel).

(** What is known of the amended file. *)
Lemma amended_parsed : concat (amended_groups f e atts mds).*2 ≠ [] → ∃ p, parse_mcap fuel (file_bytes f') = Ok p ∧
  pm_attachment_indexes p = sort_by (by_key (λ i, [ai_offset i])) (es_attachment_indexes e ++ new_attachments f atts) ∧
  pm_metadata_indexes p = sort_by (by_key (λ i, [mx_offset i])) (es_metadata_indexes e ++ new_metadata f atts mds).
Proof.
  intros Hne. destruct Hfirst as (r & es & Hr & Hwf).
  destruct (read_header_ok f' r (es ++ (record_entry <$> added_records atts mds))) as [h Eh]; [|done|unfold usize_max; lia|].
  { cbn [file_records amended]. unfold amended_records. by rewrite Hr. }
  edestruct (amended_summary_read f e atts mds) as (sum & Es & Ha & Hm); [done..|].
  unfold parse_mcap. rewrite Eh. cbn [mbind outcome_bind]. unfold parse_mcap_from_summary. rewrite Es. cbn. eexists. split; [done|]. by split.
Qed.

Lemma amended_split : file_bytes f' = (data_section f ++ records_data (added_attachment <$> atts)) ++ records_data (RMetadata <$> mds) ++
  zdrop (zlen (data_section f')) (file_bytes f').
Proof.
  assert (∃ tail, file_bytes f' = data_section f' ++ tail) as [tail E] by (unfold file_bytes; by eexists).
  rewrite E at 2. rewrite zdrop_app by done. rewrite E, amended_data. by rewrite <-!app_assoc.
Qed.

Lemma added_attachments_read : Forall2 (λ i a, attachment (file_bytes f') i = Ok (attachment_of a) ∧ ai_name i = ta_name a) (new_attachments f atts) atts.
Proof.
  pose proof Hadded as Ha. unfold added_records in Ha. rewrite forallb_app in Ha. apply andb_true_iff in Ha as [Ha _]. pose proof amended_split as E. rewrite <-app_assoc in E.
  assert (zlen (file_bytes f') ≤ usize_max)%Z as Hs by (unfold usize_max; lia). rewrite E in Hs |- *. by apply attachments_at_read.
Qed.
Lemma added_metadata_read : Forall2 (λ i m, metadata (file_bytes f') i = Ok m ∧ mx_name i = md_name m) (new_metadata f atts mds) mds.
Proof.
  pose proof Hadded as Ha. unfold added_records in Ha. rewrite forallb_app in Ha. apply andb_true_iff in Ha as [_ Ha]. pose proof amended_split as E.
  assert (zlen (file_bytes f') ≤ usize_max)%Z as Hs by (unfold usize_max; lia). rewrite E in Hs |- *. by apply metadata_at_read.
Qed.

Lemma attachment_found a : only_attachment e atts a → get_attachment fuel (file_bytes f') (ta_name a) None = Ok (ta_data a).
Proof.
  intros [Hold Hnew]. destruct (only_index (λ i b, attachment (file_bytes f') i = Ok (attachment_of b)) (λ i, bool_decide (ai_name i = ta_name a)) (λ b, bool_decide (ta_name b = ta_name a)) (new_attachments f atts) atts a) as (i & Hi & Hr); [|exact Hnew|].
  { eapply Forall2_impl; [exact added_attachments_read|]. intros x y [Hx Hn]. split; [exact Hx|]. cbn. by rewrite Hn. }
  destruct amended_parsed as (p & Ep & Ha & _).
  { intros Hnil. unfold amended_groups, existing_groups in Hnil. cbn [fmap list_fmap snd concat] in Hnil. repeat (apply app_eq_nil in Hnil as [? Hnil]).
    match goal with Hz : RAttachmentIndex <$> _ = [] |- _ => apply fmap_nil_inv in Hz; cbn [es_attachment_indexes add_to_summary] in Hz;
      pose proof (sort_by_perm (by_key (λ i, [ai_offset i])) (es_attachment_indexes e ++ new_attachments f atts)) as Hp; rewrite Hz in Hp;
      apply Permutation_nil, app_eq_nil in Hp as [_ Hp]; by rewrite Hp in Hi end. }
  apply (get_attachment_only fuel _ _ p i (attachment_of a) Ep); [|exact Hr].
  rewrite Ha. apply filter_sort. by rewrite List.filter_app, Hold.
Qed.
Lemma metadata_found m : m ∈ mds → only_metadata e mds m → get_metadata fuel (file_bytes f') (md_name m) = Ok (md_metadata m).
Proof.
  intros Hin [Hold Hnew]. destruct (only_index (λ i n, metadata (file_bytes f') i = Ok n) (λ i, bool_decide (mx_name i = md_name m)) (λ n, bool_decide (md_name n = md_name m)) (new_metadata f atts mds) mds m) as (i & Hi & Hr); [|exact Hnew|].
  { eapply Forall2_impl; [exact added_metadata_read|]. intros x y [Hx Hn]. split; [exact Hx|]. cbn. by rewrite Hn. }
  destruct amended_parsed as (p & Ep & _ & Ha).
  { intros Hnil. unfold amended_groups, existing_groups in Hnil. cbn [fmap list_fmap snd concat] in Hnil. repeat (apply app_eq_nil in Hnil as [? Hnil]).
    match goal with Hz : RMetadataIndex <$> _ = [] |- _ => apply fmap_nil_inv in Hz; cbn [es_metadata_indexes add_to_summary] in Hz;
      pose proof (sort_by_perm (by_key (λ i, [mx_offset i])) (es_metadata_indexes e ++ new_metadata f atts mds)) as Hp; rewrite Hz in Hp;
      apply Permutation_nil, app_eq_nil in Hp as [_ Hp]; by rewrite Hp in Hi end. }
  apply (get_metadata_only fuel _ _ p i m Ep); [|exact Hr|].
  - rewrite Ha. apply filter_sort. by rewrite List.filter_app, Hold.
  - apply metadata_sorted. pose proof Hadded as Hw. unfold added_records in Hw. rewrite forallb_app in Hw. apply andb_true_iff in Hw as [_ Hw].
    rewrite forallb_forall in Hw. apply Hw, list_elem_of_In, list_elem_of_fmap. by exists m.
Qed.
End found.

(** C10: what is added is found: after an amendment in place of a file that is in order, in
    which no operation fails, get attachment gives the data of every attachment that was
    added under a name of its own, and get metadata the map of every such metadata. *)
Theorem added_is_found fuel fuel' f e atts mds name w p bk : let f' := amended f e atts mds in
  c_wf DataEnd_codec (file_data_end f) = true → c_wf Footer_codec (file_footer f) = true → summary_follows f →
  (zlen (file_bytes f) ≤ usize_max)%Z → de_data_section_crc (file_data_end f) = 0%Z ∨ de_data_section_crc (file_data_end f) = crc32 (data_section f) →
  collect_existing_summary fuel (file_bytes f) = Ok e →
  forallb record_wf (added_records atts mds) = true → forallb record_wf (amended_summary f e atts mds) = true → (zlen (file_bytes f') ≤ u64_max)%Z →
  (∃ r es, file_records f = event_of r :: es ∧ file_record r = true) → declarations_agree e → 2 * length (file_bytes f') + 16 ≤ fuel' →
  world w (file_bytes f) p bk →
  ∃ w' c q, amend_mcap_file fuel name atts mds w = (Ok (), w') ∧ world w' c q None ∧
    (∀ a, only_attachment e atts a → get_attachment fuel' c (ta_name a) None = Ok (ta_data a)) ∧
    (∀ m, m ∈ mds → only_metadata e mds m → get_metadata fuel' c (md_name m) = Ok (md_metadata m)).
Proof.
  intros f' Hde Hft Hfo Hsize Hcrc Hc Ha Hs Hsz Hfirst Hagree Hfuel Hw.
  destruct (amend_done fuel f e atts mds name w p bk Hde Hft Hfo Hsize Hcrc Hc Ha Hs Hsz Hw) as (w' & E & Hw').
  exists w', (file_bytes f'), (zlen (file_bytes f')). split; [done|]. split; [done|]. split.
  - intros a. by apply attachment_found.
  - intros m. by apply metadata_found.
Qed.
End properties.

(** ** Examples *)

Module GetExamples.
Import InitCrc MarkLib Instances Disk AddWorkExamples.

Lemma added_is_found_witness : ∃ w' c q, amend_mcap_file 1000 (lit "a.mcap") more notes disk = (Ok (), w') ∧ roomy w' c q None ∧
  get_attachment 2000 c (lit "b") None = Ok (lit "hello") ∧ get_metadata 2000 c (lit "m") = Ok [(lit "k", lit "v")].
Proof.
  destruct (added_is_found (world := roomy) 1000 2000 before known more notes (lit "a.mcap") disk 0 None) as (w' & c & q & E & Hw & Ha & Hm).
  - vm_compute. reflexivity.
  - vm_compute. reflexivity.
  - right. vm_compute. reflexivity.
  - apply Z.leb_le. vm_compute. reflexivity.
  - right. reflexivity.
  - vm_compute. reflexivity.
  - vm_compute. reflexivity.
  - vm_compute. reflexivity.
  - apply Z.leb_le. vm_compute. reflexivity.
  - do 2 eexists. split; [reflexivity|vm_compute; reflexivity].
  - assert (declarations known = []) as E by (vm_compute; reflexivity). unfold declarations_agree. rewrite E. eexists. reflexivity.
  - apply Nat.leb_le. vm_compute. reflexivity.
  - reflexivity.
  - exists w', c, q. split; [exact E|]. split; [exact Hw|]. split.
    + apply (Ha (mkAttachmentToAdd 5 6 (lit "b") (lit "t") (lit "hello"))). split; vm_compute; reflexivity.
    + apply (Hm (mkMetadata (lit "m") [(lit "k", lit "v")])); [left|]. split; vm_compute; reflexivity.
Defined.

(** The attachment that was there is found too, and one that was not, is not. *)
Definition after : bytes := file_bytes (amended before known more notes).
Example found_before : get_attachment 2000 after (lit "a") None = Ok (lit "xyz").
Proof. vm_compute. reflexivity. Qed.
Example not_found : get_attachment 2000 after (lit "z") None = Err (Msg "attachment {name} not found" [Str (lit "z")]).
Proof. vm_compute. reflexivity. Qed.
Definition tab : bytes := raw [9]%Z.
Definition nl : bytes := raw [10]%Z.
Example listed : list_attachments 2000 after = Ok (
  lit "name" ++ tab ++ lit "media type" ++ tab ++ lit "log time" ++ tab ++ lit "creation time" ++ tab ++ lit "content length" ++ tab ++ lit "offset" ++ nl ++
  lit "a   " ++ tab ++ lit "t         " ++ tab ++ lit "1       " ++ tab ++ lit "2            " ++ tab ++ lit "3             " ++ tab ++ lit "27" ++ nl ++
  lit "b   " ++ tab ++ lit "t         " ++ tab ++ lit "5       " ++ tab ++ lit "6            " ++ tab ++ lit "5             " ++ tab ++ lit "77" ++ nl ++
  lit "c   " ++ tab ++ lit "t         " ++ tab ++ lit "7       " ++ tab ++ lit "8            " ++ tab ++ lit "0             " ++ tab ++ lit "129" ++ nl).
Proof. vm_compute. reflexivity. Qed.
End GetExamples.
